(* ===== verification/_CoqProject ===== *)
-Q . S2P
Prelude.v
Text.v
Files.v
Order.v
Maps.v
DebianVersion.v
Boot.v
FitEnv.v
RecordStore.v
Deployments.v
Lifecycle.v
Components.v
UpdateSet.v
SetState.v
Ubi.v
CoreSet.v
Objects.v
SetSettle.v
Collect.v
CoreChoice.v
InstallSet.v
Activate.v
Install.v
Chunks.v
Transfer.v
Catalog.v
Acquire.v
Chars.v
Features.v
DotPath.v
ApplyQueue.v
Addresses.v
SettingsModel.v
SettingsRules.v
NetworkRules.v
SettingsTree.v
Transaction.v
Store.v
Configuration.v
UpdatePolicy.v
UpdateLifecycle.v
UpdateAuto.v
Sessions.v
LoginGuard.v
Credentials.v
BleChannel.v
Spake.v
BleWindow.v
BleEngine.v
Persist.v
AccessGate.v
Effects.v
AppManifest.v
AppRender.v
AppBundle.v
AppFlow.v
AppUpdate.v
Networkd.v
NetworkApply.v
