(* ===== verification/Prelude.v ===== *)
(** * mica-core: a verification development

    mica-core is the device side of a fleet of small Linux devices: it boots,
    updates and configures them. This development models, in Rocq, the Rust
    code whose mistakes a device does not recover from -- what boots, what an
    update may replace and when, what a power cut can leave on disk, what a
    hostile server or archive can do, what a settings write may change -- and
    proves it. Definitions are translations of the functions they name; the
    file and function are in each definition's comment or section, and paths
    are relative to the repository.

    ** The program's parts

    - [src/crates/mica-deploy]: deployments. A deployment is a signed kernel, a
      signed root image and a boot entry; two of them take turns. Beside them a
      device holds sets of core components a boot composes over the root. The
      library acquires them from a catalog server or an archive, installs them,
      confirms, rolls back and rejects them, and collects what nothing names.
    - [src/crates/micad-settings]: the settings tree, its rules, the dot paths
      that address it, the documents that store it and their transaction.
    - [src/crates/micad]: the daemon: settings writes over D-Bus, the queue of
      reconciles, and the reconcilers that apply settings to the system.
    - [src/crates/mica-apid]: the HTTP console and its API over that daemon.
    - [src/crates/mica-fs]: the durable-file primitives all of them share.

    ** Files, from the bottom up

    Shared: [Prelude] (errors, the two monads, tactics), [Text] and [Chars]
    (Rust's [str] on bytes and on characters), [Files] ([mica-fs] and
    [deployments/io.rs]), [Order] (comparison functions, as a class of laws),
    [Maps] ([BTreeMap<String, _>]), [Addresses] ([std::net]'s parsers), [Effects]
    (computations over a state that may fail, for the daemon's flows).

    mica-deploy:
    - [DebianVersion]: [debian_version.rs]; the comparison as the code runs it
      equals the lexicographic order of the versions' keys.
    - [Boot]: names, EFI variables and the composition check of [boot.rs]; the
      exact grammar of a boot entry's name, and when components may be composed.
    - [FitEnv], [Ubi], [RecordStore]: the boot records of a FIT board on a raw
      partition and on UBI volumes ([fit_env.rs], [ubi.rs]); [RecordStore] is
      the class the deployment store is proved against, and both are instances.
      Encoding round trips; a save is atomic.
    - [Deployments], [Lifecycle]: entries, DATA's state and their
      reconciliation ([deployments.rs]); confirm, roll back, reject, fail a boot
      ([deployments/lifecycle.rs]). At every durable state a usable deployment
      remains, and what reconciliation makes of it is the old or the new state.
    - [Components], [UpdateSet]: the signed contracts ([components.rs],
      [update_set.rs]): what validation accepts, that a signed payload has one
      envelope, that every path is made of a fixed directory and a digest.
    - [SetState], [CoreSet], [SetSettle], [InstallSet], [CoreChoice]: the sets a
      device holds ([set_state.rs], [core_set.rs], [deployments/sets.rs],
      [deployments/install.rs]): which components a boot composes, that a trial
      is bounded over any boots and power cuts, what a healthy boot settles,
      and that a set is on trial only whole.
    - [Objects], [Activate], [Install], [Collect]: the installation of a
      deployment ([deployments/install.rs], [deployments/io.rs]) and the
      collection of objects nothing reaches ([deployments/lifecycle.rs]).
    - [Chunks], [Transfer], [Catalog], [Acquire]: acquisition. Content-defined
      chunking refines a declarative cut ([chunks.rs]); one HTTP transfer ends
      and stays within its bounds whatever the server sends and however slowly,
      by the deadline and the pace its socket is held to
      ([acquisition/transfer.rs]); a catalog selects only what is signed, for
      this device and newer ([catalog.rs], [catalog/sets.rs]); and over any
      sequence of commands, servers, archives and power cuts every object in the
      verified store has its digest ([acquisition.rs], [acquisition/sets.rs]).

    micad-settings and micad:
    - [Features]: [features.rs], what a product carries.
    - [DotPath]: [path.rs], and the overlap test of [micad/src/bus.rs]; reading
      and writing a node agree for every spelling of its path.
    - [SettingsModel], [SettingsRules], [NetworkRules]: the tree's types
      ([model.rs], [model/]) and the rules of each subtree, with what acceptance
      means; the rules between network entries, exactly.
    - [SettingsTree]: [Settings::get], [Settings::set] and the split into
      documents ([documents.rs]): a tree any accepted writes made keeps its type.
    - [Transaction]: the undo journal over two filesystems ([transaction.rs]):
      a save refines one atomic step, under failing I/O and power cuts.
    - [Store]: the settings store over that transaction ([store.rs]): it loads
      what it saved, and never overwrites a document it could not read.
    - [Configuration]: the update and fleet documents ([configuration.rs],
      [configuration/]): windows and daily anchors in time, validation,
      patches and what a device's policy resolves to.
    - [Networkd]: the units of a network map ([micad/src/reconciler/network/
      validate.rs], [render.rs]), the board's declared ports ([board.rs]) and a
      reader of systemd's unit syntax: what is written is read back as declared.
    - [NetworkApply]: the reconciler that writes them ([reconciler/network.rs],
      [settle.rs], [wgkeys.rs]): a computation over the unit directory and the
      key store that asks the device one call at a time, any of which may fail,
      with the wait for the changed links and the way back.
    - [ApplyQueue]: the queue and its worker ([micad/src/apply_queue.rs],
      [micad/src/bus/apply.rs]): no write misses its reconcile.
    - [Persist]: settings writes and claims ([micad/src/bus/apply.rs],
      [user_units.rs], [compose.rs]), from the request over the checks to the
      store, and the passes over the reconcilers, interleaving: the tree keeps
      its type, a refused document its bytes, and only a network map that came
      up is stored again.
    - [UpdatePolicy]: what refuses a check, a fetch, an install and a reboot
      ([micad/src/update_policy.rs], [update_codes.rs], [time_status.rs]), and
      the native client's status ([deployment.rs]).
    - [UpdateLifecycle]: the update record and its operations
      ([micad/src/update_lifecycle.rs] and its modules), with calls and spawned
      tasks interleaving.
    - [UpdateAuto]: the automatic driver over any routes
      ([micad/src/update_auto.rs]), proved about the trace of its calls.
    - [BleChannel], [Spake], [BleWindow], [BleEngine]: provisioning over
      Bluetooth ([micad/src/ble_provisioning/]): fragments and records
      ([channel.rs]), the exchange ([spake2plus.rs]), when a phone may connect
      and how often it may guess ([window.rs], [store.rs], [runtime.rs]), and
      the engine over them ([engine.rs]), a function of its inputs and of the
      moment each is handled at, with its effects as a list.
    - [AppManifest], [AppRender], [AppBundle]: an app's manifest and its rules
      ([micad/src/apps/manifest.rs], [reconciler/mdns/entries.rs]), the devices
      it is granted and the units written for it ([devices.rs], [render.rs],
      with readers of systemd's and OpenRC's words to say what they run), and
      the archive it comes in ([bundle.rs]), unpacked member by member.
    - [AppFlow], [AppUpdate]: the flows on the apps of a device ([apps.rs],
      [flow.rs]; [update.rs], [seed.rs]): install, upgrade, roll back, remove,
      update, the daily check and the image's seeds, each a computation over the
      record and the apps' directories that asks the system, one call at a
      time, and may be failed by it at any call.

    mica-apid:
    - [Sessions], [LoginGuard]: browser sessions ([session.rs]) and the brake on
      password guesses with its file ([auth.rs]): which cookies are accepted,
      and how many guesses any run of calls and restarts admits.
    - [AccessGate]: the gate's cache of the [access] subtree ([access_cache.rs],
      [bus_client.rs], [routes/credential.rs]) over micad's writes and the
      signals of their paths.
    - [Credentials]: API tokens ([token.rs], [micad-settings/api_token.rs]) and the
      handlers that create and revoke credentials ([routes/login.rs],
      [password.rs], [reset.rs], [setup.rs], [tokens.rs]) as segments between
      their waits for micad, in any interleaving.

    ** How effects are modelled

    - A fallible computation is [result] (notation [let? x := m in k], with
      [ensure c else "..." in k] for an early return).
    - A computation over durable state is [M W A] ([let! x := m in k]): its
      outcome is a result, the state it ends in, and the set of states a power
      cut during it can leave. [durable o w] says [w] is one of them, the end
      included. Each file call adds the states between its effects; [safe o Q C]
      is the triple the proofs compose.
    - [Transaction] distinguishes further what programs see from what each
      directory durably holds ([Disk]), and gives every I/O call a fault: it
      works, fails before its effect, or fails after it. [cut] relates a disk
      to every tree a power cut can leave.
    - Concurrent code ([ApplyQueue], [Persist], [UpdateLifecycle],
      [Credentials], [AccessGate]) is a step relation with the lock's critical sections as steps; theorems are about every reachable
      state. A task the lifecycle spawns is two steps after its admission,
      the client's run and its settling.
    - The driver's calls ([UpdateAuto]) leave a trace with their answers, so
      that an action's theorem names what was asked just before it.
    - Integers are [Z] at their width; a [u64] sum that can wrap is written with
      [wrap64].
    - Code outside the repository is a class of parameters with its documented
      behaviour as laws: [Json], [Crypto], [Base64], [Serde], [JournalCodec],
      [ConfigSerde], [Formats], [Hmac], [Sha], [Passwords] (argon2),
      [Primitives] and [Hashes] (HKDF, X25519, AES-GCM), [P256] (the curve's
      group), [BleCodec] (JSON and base64), the UBI driver, the URL parser
      ([Urls]), [ManifestJson] and [VersionFiles] (the JSON of an app), [System],
      which answers an app flow's calls to the init, the programs and the file
      system by all the calls made before, and [NetSystem], which answers the
      network reconciler's in the same way. Every property that uses such a law has a
      witness with a concrete instance.
    - Error texts are kept where the code tests them or where they tell two
      refusals apart, without the values they print.

    ** Fuel

    Recursion that is not structural takes fuel bounded by its input, and a
    lemma beside it shows the bound is enough, so that running out is never an
    answer: [Boot.walk] (the entries left under the 200000-entry limit),
    [Acquire.walk_files] (the 4096-entry limit and the depth of an archive),
    [Components.tree_blocks] (ten levels of a hash tree over any length below
    2^53), [DebianVersion.compare_part_go] (both lengths), [DotPath.split_loop]
    (the length of the path), [Transfer.receive] and [Transfer.skip_trailers]
    (the bytes the connection still has), [Transfer.arrive] and the transfers of
    [Acquire] (the reads until the deadline, [Transfer.outlasts]),
    [NetworkApply.settle] (sixty-one looks, one each half second until thirty
    seconds are over, [NetworkApply.settle_ends]), [Text.dec_go] and [ApplyQueue.hex_go]
    (the digits of a [u64]), [AppManifest.expand_go] (the length of the text).
    Counts the code or the kernel sets are not fuel: the uids of
    [AppFlow.free_uid], the members of [AppBundle.peek_from] and the forty links
    of [AppBundle.resolve].

    ** What the properties show

    In order: an installation, an acquisition, and a settings save leave a sound
    device at every power cut ([Install], on a board without UBI, [Acquire],
    [Transaction], [Store]); concurrent settings writes keep the tree and the
    documents they do not reach, no container project is stored that
    mica-containerd did not answer for, and of two claims one lands ([Persist]);
    updates happen only when policy, clock, window and health allow
    ([UpdateAuto], [UpdateLifecycle], [UpdatePolicy], [Configuration]); a
    session lives no longer than the password behind it, one setup issued late
    apart, a cached credential no longer than the signal that changes it, and
    guesses wait twice as long each ([Credentials], [AccessGate], [LoginGuard],
    [Sessions]); a phone changes a device only
    through a session it proved the code for, or an unclaimed device's, and
    guesses slowly there too ([BleEngine], [BleWindow], [Spake], [BleChannel]);
    an app stays inside its directory and its unit, gets no privilege nobody
    gave it, and an install that fails leaves what was there ([AppBundle],
    [AppRender], [AppFlow], [AppUpdate]);
    the lifecycle transactions keep a usable deployment ([Lifecycle],
    [Deployments]); no settings write is lost on its way to the system and the
    tree keeps its type ([ApplyQueue], [SettingsTree]); boot records are written
    atomically and read back ([FitEnv]); names, versions and compositions are
    accepted exactly as specified ([Boot], [DebianVersion]); sets settle and are
    bounded ([CoreSet], [SetSettle], [InstallSet], [CoreChoice]); objects are
    published and collected safely ([Objects], [Collect]); contracts and
    catalogs give a device only what was signed for it ([Components],
    [Catalog]); hostile input is bounded ([Chunks], [Transfer]); network maps
    and settings paths are accepted and behave exactly as specified
    ([NetworkRules], [DotPath]); a network map is written as systemd reads it
    back, nothing of it adding a line, and an apply leaves exactly its units or
    the ones before ([Networkd], [NetworkApply]).

    ** Not modelled

    - The volume branches of the deployment properties: the code for UBI boards
      is modelled ([Ubi], and the branches of [Objects], [Install], [InstallSet]
      and [Collect]), the properties of an installation, of a set and of a
      collection are proved for boards without it.
    - TLS, the D-Bus and HTTP servers, process and service management, netlink,
      BlueZ and Wi-Fi: I/O around the modelled decisions.
    - In Bluetooth provisioning: the device operations the engine spawns, whose
      answers are inputs, and the files of its store. One input is handled at
      one instant, and the console's writes to the store fall between inputs.
    - The content of serialized documents ([serde]'s derives): a class of
      parameters; the deployment contracts' fields are read field by field from
      a parsed value.
    - Memory safety and time: Rust's, and the kernel's.
    - The flock that makes mica-deploy's transactions exclusive: each
      transaction is modelled as running alone, which is what the lock provides.
    - The console's UI and the D-Bus interface definitions.
    - File modes, owners and the directory chain above a document.
    - Of the reconcilers: all but the network's under systemd-networkd (ifupdown,
      Wi-Fi, DNS, time, SSH, MQTT, mDNS). A pre-shared key that is stored but
      cannot be read is not told from one that can: the code writes it again.
    - Of the apps: their JSON views and logs, starting and stopping them by
      hand, the mDNS entries served while they run, the account rebuild at
      boot, the flush before a rename, and power cuts in the middle of a flow:
      the record and the directories are what the flow's calls made of them.
      What a hook or a service does to the disk is not part of the flow.
      Details of a refused manifest are kept without the values they print.
    - In the console: setup's hostname and network writes, physical presence,
      the audit log, and telling Bluetooth provisioning of a password.
*)
From Stdlib Require Export ZArith Lia.
From stdpp Require Export base tactics numbers list option gmap strings.

#[global] Set Default Goal Selector "!".
#[global] Open Scope Z_scope.

(** * Machine integers *)

(** A [u64] is a [Z] in [0, 2^64); arithmetic of the shipped (release) profile
    wraps, and is written with these where the code can reach the bound. *)
Definition U64_MAX : Z := 18446744073709551615.
Definition wrap64 (z : Z) : Z := z mod 18446744073709551616.
Definition is_u64 (z : Z) : Prop := 0 ≤ z ≤ U64_MAX.

(** [u64::div_ceil]. *)
Definition div_ceil (a b : Z) : Z := (a + b - 1) / b.

(** * Errors and results *)

(** An error is its text, or an error under the marker context that sends boot
    health to recovery ([deployments.rs], [SharedDataFailure]). *)
Inductive error :=
| Msg (text : string)
| SharedDataFailure (cause : error).

Inductive result (A : Type) :=
| Ok (a : A)
| Err (e : error).
Arguments Ok {A} a.
Arguments Err {A} e.

Definition rbind {A B} (m : result A) (k : A → result B) : result B :=
  match m with Ok a => k a | Err e => Err e end.

(** [Option::context]. *)
Definition with_context {A} (o : option A) (text : string) : result A :=
  match o with Some a => Ok a | None => Err (Msg text) end.

(** [Result::context(SharedDataFailure)]. *)
Definition shared_data {A} (m : result A) : result A :=
  match m with Ok a => Ok a | Err e => Err (SharedDataFailure e) end.

#[export] Instance result_fmap : FMap result := λ A B f m,
  match m with Ok a => Ok (f a) | Err e => Err e end.

Definition is_ok {A} (m : result A) : bool :=
  match m with Ok _ => true | Err _ => false end.

Definition ok_or_none {A} (m : result A) : option A :=
  match m with Ok a => Some a | Err _ => None end.

Declare Scope mica_scope.
Delimit Scope mica_scope with mica.
#[global] Open Scope mica_scope.

Notation "'let?' x ':=' m 'in' k" := (rbind m (fun x => k))
  (at level 200, x pattern, m at level 100, k at level 200,
   format "'[v' 'let?'  x  ':='  m  'in' '/' k ']'") : mica_scope.
Notation "'ensure' c 'else' t 'in' k" := (if (c : bool) then k else Err (Msg t))
  (at level 200, c at level 100, t at level 100, k at level 200,
   format "'[v' 'ensure'  c  'else'  t  'in' '/' k ']'") : mica_scope.

(** Run a fallible function over a list, as a [for] loop of [?] steps does. *)
Fixpoint each {A} (f : A → result unit) (l : list A) : result unit :=
  match l with
  | [] => Ok tt
  | a :: l' => let? _ := f a in each f l'
  end.

(** [Iterator::map(..).collect::<Result<Vec<_>, _>>()]. *)
Fixpoint collect {A B} (f : A → result B) (l : list A) : result (list B) :=
  match l with
  | [] => Ok []
  | a :: l' => let? b := f a in let? bs := collect f l' in Ok (b :: bs)
  end.

(** * Durable state *)

(** What running a stateful operation on a durable state [w] leaves: its
    result, the state afterwards (on an error too: what was written stays
    written), and the states a power cut during it can leave. *)
Record outcome (W A : Type) := Outcome {
  o_result : result A;
  o_state : W;
  o_crash : W → Prop;
}.
Arguments Outcome {W A} _ _ _.
Arguments o_result {W A} _.
Arguments o_state {W A} _.
Arguments o_crash {W A} _ _.

Definition M (W A : Type) := W → outcome W A.

Definition sret {W A} (a : A) : M W A := λ w, Outcome (Ok a) w (λ w', w' = w).

(** A step that reads, decides or fails without writing. *)
Definition slift {W A} (f : W → result A) : M W A :=
  λ w, Outcome (f w) w (λ w', w' = w).

Definition sbind {W A B} (m : M W A) (k : A → M W B) : M W B := λ w,
  let o := m w in
  match o_result o with
  | Ok a =>
      let o' := k a (o_state o) in
      Outcome (o_result o') (o_state o')
              (λ w', o_crash o w' ∨ o_crash o' w')
  | Err e => Outcome (Err e) (o_state o) (o_crash o)
  end.

(** A write that is atomic under a power cut: before it or after it. *)
Definition swrite {W} (f : W → W) : M W unit :=
  λ w, Outcome (Ok tt) (f w) (λ w', w' = w ∨ w' = f w).

(** Run an operation on one part of the state. *)
Definition szoom {W V A} (get : W → V) (set : V → W → W) (m : M V A) : M W A := λ w,
  let o := m (get w) in
  Outcome (o_result o) (set (o_state o) w)
          (λ w', ∃ v, o_crash o v ∧ w' = set v w).

Notation "'let!' x ':=' m 'in' k" := (sbind m (fun x => k))
  (at level 200, x pattern, m at level 100, k at level 200,
   format "'[v' 'let!'  x  ':='  m  'in' '/' k ']'") : mica_scope.
Notation "'ensure!' c 'else' t 'in' k" :=
  (if (c : bool) then k else (slift (λ _, Err (Msg t))))
  (at level 200, c at level 100, t at level 100, k at level 200,
   format "'[v' 'ensure!'  c  'else'  t  'in' '/' k ']'") : mica_scope.

(** A document on disk: absent, present and unreadable (not a regular file,
    over its bound, or not of its shape), or present and holding a value. *)
Inductive doc (A : Type) :=
| Absent
| Unreadable
| Holds (a : A).
Arguments Absent {A}.
Arguments Unreadable {A}.
Arguments Holds {A} a.

(** * Tactics *)

(** Take apart what a successful or failed run says, one bind, guard or match
    at a time. *)
Ltac run_step :=
  match goal with
  | H : Ok _ = Ok _ |- _ => injection H as H; subst
  | H : Ok _ = Err _ |- _ => discriminate H
  | H : Err _ = Ok _ |- _ => discriminate H
  | H : rbind ?m _ = _ |- _ =>
      let E := fresh "E" in destruct m eqn:E; simpl in H; [|discriminate H]
  | H : with_context ?o _ = Ok _ |- _ =>
      let E := fresh "E" in destruct o eqn:E; simpl in H; [|discriminate H]
  | H : shared_data ?m = Ok _ |- _ =>
      let E := fresh "E" in destruct m eqn:E; simpl in H; [|discriminate H]
  | H : (if ?c then _ else Err _) = Ok _ |- _ =>
      let E := fresh "E" in destruct c eqn:E; [|discriminate H]
  | H : (if ?c then Err _ else _) = Ok _ |- _ =>
      let E := fresh "E" in destruct c eqn:E; [discriminate H|]
  end.
Ltac run := repeat run_step.

(** Booleans to propositions, in every hypothesis. *)
Ltac bools :=
  repeat match goal with
  | H : _ && _ = true |- _ => apply andb_true_iff in H as [? ?]
  | H : _ || _ = false |- _ => apply orb_false_iff in H as [? ?]
  | H : negb _ = true |- _ => apply negb_true_iff in H
  | H : negb _ = false |- _ => apply negb_false_iff in H
  | H : (_ <? _) = true |- _ => apply Z.ltb_lt in H
  | H : (_ <? _) = false |- _ => apply Z.ltb_ge in H
  | H : (_ <=? _) = true |- _ => apply Z.leb_le in H
  | H : (_ <=? _) = false |- _ => apply Z.leb_gt in H
  | H : (_ =? _) = true |- _ => apply Z.eqb_eq in H
  | H : (_ =? _) = false |- _ => apply Z.eqb_neq in H
  | H : bool_decide _ = true |- _ => apply bool_decide_eq_true in H
  | H : bool_decide _ = false |- _ => apply bool_decide_eq_false in H
  end.

(** * Shared lemmas *)

(** A guard that passed. *)
Lemma if_ok {B} (c : bool) t (m : result B) b : (if c then m else Err (Msg t)) = Ok b → c = true ∧ m = Ok b.
Proof. by destruct c. Qed.

Lemma each_ok {A} (f : A → result unit) l :
  each f l = Ok tt ↔ Forall (λ a, f a = Ok tt) l.
Proof.
  induction l as [|a l IH]; simpl; [done|].
  rewrite Forall_cons. destruct (f a) as [[]|e]; simpl; [by rewrite IH; intuition|by split; [|intros [? _]]].
Qed.

Lemma collect_ok {A B} (f : A → result B) l bs :
  collect f l = Ok bs ↔ Forall2 (λ a b, f a = Ok b) l bs.
Proof.
  revert bs. induction l as [|a l IH]; intros bs; simpl.
  { split; [intros [= <-]; constructor | intros H; by inversion H]. }
  destruct (f a) as [b|e] eqn:Hf; simpl.
  - destruct (collect f l) as [bs'|e] eqn:Hc; simpl.
    + split.
      * intros [= <-]. constructor; [done|]. by apply IH.
      * intros H. inversion H as [|? b' ? bs'' Hb Hrest]; subst.
        apply IH in Hrest. congruence.
    + split; [done|]. intros H. inversion H as [|? b' ? bs'' Hb Hrest]; subst.
      apply IH in Hrest. congruence.
  - split; [done|]. intros H. inversion H; congruence.
Qed.

Lemma elem_of_option_list {B} (x : B) o : x ∈ option_list o ↔ o = Some x.
Proof. destruct o; cbn; rewrite ?list_elem_of_singleton, ?elem_of_nil; naive_solver. Qed.

Lemma div_ceil_spec a b :
  0 < b → 0 ≤ a → b * (div_ceil a b - 1) < a ∨ a = 0 ∧ div_ceil a b = 0.
Proof.
  intros Hb Ha. unfold div_ceil. destruct (decide (a = 0)) as [->|].
  - right. split; [done|]. apply Z.div_small. lia.
  - left. pose proof (Z.mul_div_le (a + b - 1) b Hb). lia.
Qed.

Lemma div_ceil_cover a b : 0 < b → 0 ≤ a → a ≤ b * div_ceil a b.
Proof.
  intros Hb Ha. unfold div_ceil.
  pose proof (Z.mul_succ_div_gt (a + b - 1) b Hb). lia.
Qed.

Lemma wrap64_small z : is_u64 z → wrap64 z = z.
Proof. unfold is_u64, U64_MAX, wrap64. intros. apply Z.mod_small. lia. Qed.

(** Every crash state of a bind is one of its first step, or of its second
    step started where the first one ended. *)
Lemma sbind_crash {W A B} (m : M W A) (k : A → M W B) w w' :
  o_crash (sbind m k w) w' →
  o_crash (m w) w'
  ∨ ∃ a, o_result (m w) = Ok a ∧ o_crash (k a (o_state (m w))) w'.
Proof.
  unfold sbind. destruct (o_result (m w)) as [a|e] eqn:E; simpl.
  - intros [?|?]; [by left|right; by eauto].
  - by left.
Qed.

Lemma sbind_ok {W A B} (m : M W A) (k : A → M W B) w b :
  o_result (sbind m k w) = Ok b →
  ∃ a, o_result (m w) = Ok a
     ∧ o_result (k a (o_state (m w))) = Ok b
     ∧ o_state (sbind m k w) = o_state (k a (o_state (m w))).
Proof.
  unfold sbind. destruct (o_result (m w)) as [a|e] eqn:E; simpl; [|done].
  intros H. by exists a.
Qed.

(** A read that decides the rest, seen from outside. *)
Lemma read_ok {W A B} (f : W → result A) (k : A → M W B) w a :
  f w = Ok a →
  sbind (slift f) k w =
    Outcome (o_result (k a w)) (o_state (k a w)) (λ w', w' = w ∨ o_crash (k a w) w').
Proof. intros H. unfold sbind, slift. cbn [o_result o_state o_crash]. by rewrite H. Qed.

Lemma read_err {W A B} (f : W → result A) (k : A → M W B) w e :
  f w = Err e → sbind (slift f) k w = Outcome (Err e) w (λ w', w' = w).
Proof. intros H. unfold sbind, slift. cbn [o_result o_state o_crash]. by rewrite H. Qed.

(** A step that succeeded, seen from outside. *)
Lemma step_ok {W A B} (m : M W A) (k : A → M W B) w a :
  o_result (m w) = Ok a →
  sbind m k w =
    Outcome (o_result (k a (o_state (m w)))) (o_state (k a (o_state (m w))))
      (λ w', o_crash (m w) w' ∨ o_crash (k a (o_state (m w))) w').
Proof. intros H. unfold sbind. by rewrite H. Qed.

(** [safe o Q C]: on success the result and the state satisfy [Q], and the
    state the operation ends in (an error included) and every state a power cut
    during it can leave satisfy [C]. *)
Definition safe {W A} (o : outcome W A) (Q : A → W → Prop) (C : W → Prop) : Prop :=
  (∀ a, o_result o = Ok a → Q a (o_state o)) ∧ C (o_state o) ∧ ∀ w, o_crash o w → C w.

Lemma safe_bind {W A B} (m : M W A) (k : A → M W B) w Q R (C : W → Prop) :
  safe (m w) R C →
  (∀ a w', R a w' → C w' → safe (k a w') Q C) →
  safe (sbind m k w) Q C.
Proof.
  intros (H1 & H2 & H3) Hk. unfold sbind.
  destruct (o_result (m w)) as [a|e] eqn:E.
  - destruct (Hk a (o_state (m w)) (H1 a eq_refl) H2) as (K1 & K2 & K3).
    split; [exact K1|]. split; [exact K2|]. intros w' [Hw|Hw]; [by apply H3|by apply K3].
  - split; [done|]. by split.
Qed.

Lemma safe_lift {W A} (f : W → result A) w Q (C : W → Prop) :
  C w → (∀ a, f w = Ok a → Q a w) → safe (slift f w) Q C.
Proof. intros HC HQ. split; [exact HQ|]. split; [exact HC|]. by intros w' ->. Qed.

Lemma safe_ret {W A} (a : A) w (Q : A → W → Prop) (C : W → Prop) :
  C w → Q a w → safe (sret a w) Q C.
Proof. intros HC HQ. split; [by intros b [= <-]|]. split; [exact HC|]. by intros w' ->. Qed.

Lemma safe_write {W} (f : W → W) w (Q : unit → W → Prop) (C : W → Prop) :
  C w → C (f w) → Q tt (f w) → safe (swrite f w) Q C.
Proof. intros H1 H2 HQ. split; [by intros [] _|]. split; [done|]. by intros w' [->| ->]. Qed.

Lemma safe_ensure {W A} (c : bool) t (m : M W A) w Q (C : W → Prop) :
  C w → (c = true → safe (m w) Q C) → safe ((ensure! c else t in m) w) Q C.
Proof. intros HC Hm. destruct c; [by apply Hm|]. apply safe_lift; [done|]. by intros a. Qed.

Lemma safe_mono {W A} (o : outcome W A) (Q Q' : A → W → Prop) (C C' : W → Prop) :
  safe o Q C → (∀ a w, Q a w → Q' a w) → (∀ w, C w → C' w) → safe o Q' C'.
Proof. intros (H1 & H2 & H3) HQ HC. split; [|split]; eauto. Qed.

Lemma safe_and {W A} (o : outcome W A) (Q Q' : A → W → Prop) (C C' : W → Prop) :
  safe o Q C → safe o Q' C' → safe o (λ a w, Q a w ∧ Q' a w) (λ w, C w ∧ C' w).
Proof. intros (H1 & H2 & H3) (K1 & K2 & K3). split; [|split]; auto. Qed.

(** A read before the rest of an operation. *)
Lemma safe_read {W A B} (f : W → result A) (k : A → M W B) w Q (C : W → Prop) :
  C w → (∀ a, f w = Ok a → safe (k a w) Q C) → safe (sbind (slift f) k w) Q C.
Proof.
  intros HC Hk. apply safe_bind with (R := λ a w', w' = w ∧ f w = Ok a).
  - apply safe_lift; [done|]. intros a Ha. done.
  - intros a w' [-> Ha] _. by apply Hk.
Qed.

(** A step that must succeed, between two parts of an operation. *)
Lemma safe_step {W A B} (m : M W A) (k : A → M W B) w (R : A → W → Prop) Q (C C' : W → Prop) :
  safe (m w) R C' → (∀ w', C' w' → C w') →
  (∀ a w', R a w' → safe (k a w') Q C) → safe (sbind m k w) Q C.
Proof.
  intros Hm HC Hk. apply safe_bind with (R := R); [by eapply safe_mono|].
  intros a w' Ha _. by apply Hk.
Qed.

(** An operation on one part of the state. *)
Lemma safe_zoom {W V A} (get : W → V) (set : V → W → W) (m : M V A) w Q (C : W → Prop) :
  safe (m (get w)) (λ a v, Q a (set v w)) (λ v, C (set v w)) → safe (szoom get set m w) Q C.
Proof.
  intros (H1 & H2 & H3). split; [exact H1|]. split; [exact H2|]. intros w' (v & Hv & ->). by apply H3.
Qed.

(** Every durable state of an operation: where it ends, and every power cut. *)
Definition durable {W A} (o : outcome W A) (w : W) : Prop := w = o_state o ∨ o_crash o w.

Lemma safe_durable {W A} (o : outcome W A) Q (C : W → Prop) :
  safe o Q C → ∀ w, durable o w → C w.
Proof. intros (_ & H1 & H2) w [->|H]; auto. Qed.

Create HintDb mica discriminated.
#[export] Hint Resolve div_ceil_cover wrap64_small : mica.
