(* ===== verification/Text.v ===== *)
(** The operations of Rust's [str] and [&[u8]] the sources use, on [string]
    (a sequence of bytes, as a [&str] is) and on lists of bytes, with the laws
    the components' round trips rest on: prefixes and suffixes, splitting and
    joining, lines, decimal numbers and fixed-width integers. *)
From Stdlib Require Import Ascii.
From stdpp Require Import strings.
From S2P Require Import Prelude.

(** * Bytes *)

Definition bytes := list ascii.

(** The value of a byte, and the byte of a value (the low eight bits). *)
Definition byte_val (c : ascii) : Z := Z.of_N (N_of_ascii c).
Definition val_byte (z : Z) : ascii := ascii_of_N (Z.to_N (z mod 256)).

Definition str_bytes (s : string) : bytes := String.list_ascii_of_string s.
Definition bytes_str (b : bytes) : string := String.string_of_list_ascii b.

Definition str_len (s : string) : Z := Z.of_nat (String.length s).
Definition len {A} (l : list A) : Z := Z.of_nat (length l).

(** [[T]::is_empty] and [str::is_empty]. *)
Definition is_nil {A} (l : list A) : bool := match l with [] => true | _ => false end.
Definition is_empty (s : string) : bool := match s with EmptyString => true | _ => false end.

(** The classes of [u8] the guards test. *)
Definition in_range (lo hi c : ascii) : bool :=
  (byte_val lo <=? byte_val c) && (byte_val c <=? byte_val hi).
Definition is_digit (c : ascii) : bool := in_range "0" "9" c.
Definition is_lower (c : ascii) : bool := in_range "a" "z" c.
Definition is_upper (c : ascii) : bool := in_range "A" "Z" c.
Definition is_alphabetic (c : ascii) : bool := is_lower c || is_upper c.
Definition is_alphanumeric (c : ascii) : bool := is_digit c || is_alphabetic c.
Definition is_graphic (c : ascii) : bool := in_range "!" "~" c.
Definition is_hex_lower (c : ascii) : bool := is_digit c || in_range "a" "f" c.

(** [s.bytes().all(p)], [s.bytes().next().is_some_and(p)], [b"..".contains]. *)
Fixpoint all_bytes (p : ascii → bool) (s : string) : bool :=
  match s with
  | EmptyString => true
  | String c s' => p c && all_bytes p s'
  end.
Definition first_byte (p : ascii → bool) (s : string) : bool :=
  match s with EmptyString => false | String c _ => p c end.
Fixpoint contains_byte (c : ascii) (s : string) : bool :=
  match s with
  | EmptyString => false
  | String d s' => bool_decide (c = d) || contains_byte c s'
  end.
Definition one_of (set : string) (c : ascii) : bool := contains_byte c set.

(** * Prefixes and suffixes *)

Fixpoint strip_prefix (p s : string) : option string :=
  match p, s with
  | EmptyString, _ => Some s
  | String a p', String b s' => if bool_decide (a = b) then strip_prefix p' s' else None
  | String _ _, EmptyString => None
  end.
Definition starts_with (p s : string) : bool := bool_decide (is_Some (strip_prefix p s)).

(** [strip_suffix suf s] is what stays of [s] when it ends in [suf]. *)
Fixpoint strip_suffix (suf s : string) : option string :=
  if bool_decide (s = suf) then Some EmptyString
  else match s with
       | EmptyString => None
       | String c s' => String c <$> strip_suffix suf s'
       end.
Definition ends_with (suf s : string) : bool := bool_decide (is_Some (strip_suffix suf s)).

(** * Splitting and joining *)

(** [s.split(c)]: never empty; n separators make n+1 parts. *)
Fixpoint split (c : ascii) (s : string) : list string :=
  match s with
  | EmptyString => [EmptyString]
  | String d s' =>
      if bool_decide (d = c) then EmptyString :: split c s'
      else match split c s' with
           | [] => [String d EmptyString]
           | h :: t => String d h :: t
           end
  end.

(** [parts.join(c)]. *)
Fixpoint join (c : ascii) (l : list string) : string :=
  match l with
  | [] => EmptyString
  | [s] => s
  | s :: l' => s +:+ String c (join c l')
  end.

(** [s.split_once(c)] and [s.rsplit_once(c)]. *)
Fixpoint split_once (c : ascii) (s : string) : option (string * string) :=
  match s with
  | EmptyString => None
  | String d s' =>
      if bool_decide (d = c) then Some (EmptyString, s')
      else (λ '(a, b), (String d a, b)) <$> split_once c s'
  end.
Fixpoint rsplit_once (c : ascii) (s : string) : option (string * string) :=
  match s with
  | EmptyString => None
  | String d s' =>
      match rsplit_once c s' with
      | Some (a, b) => Some (String d a, b)
      | None => if bool_decide (d = c) then Some (EmptyString, s') else None
      end
  end.

(** [s.split_once(text)] with a separator of several bytes. *)
Fixpoint split_once_str (sep s : string) : option (string * string) :=
  match strip_prefix sep s with
  | Some rest => Some (EmptyString, rest)
  | None =>
      match s with
      | EmptyString => None
      | String d s' => (λ '(a, b), (String d a, b)) <$> split_once_str sep s'
      end
  end.

(** [s.trim()]; the white space of the files read here is ASCII. *)
Definition is_space (c : ascii) : bool := in_range "009" "013" c || bool_decide (c = " "%char).
Fixpoint trim_start (p : ascii → bool) (s : string) : string :=
  match s with
  | String c s' => if p c then trim_start p s' else s
  | EmptyString => EmptyString
  end.
Fixpoint trim_end (p : ascii → bool) (s : string) : string :=
  match s with
  | EmptyString => EmptyString
  | String c s' =>
      match trim_end p s' with
      | EmptyString => if p c then EmptyString else String c EmptyString
      | t => String c t
      end
  end.
Definition trim_matches (p : ascii → bool) (s : string) : string := trim_end p (trim_start p s).
Definition trim_ws : string → string := trim_matches is_space.

(** [s.split_ascii_whitespace()]. *)
Definition is_ascii_ws (c : ascii) : bool :=
  bool_decide (c = " "%char) || bool_decide (c = "009"%char) || bool_decide (c = "010"%char)
  || bool_decide (c = "012"%char) || bool_decide (c = "013"%char).
Fixpoint words_go (cur : string) (s : string) : list string :=
  match s with
  | EmptyString => if is_empty cur then [] else [cur]
  | String c s' =>
      if is_ascii_ws c then (if is_empty cur then [] else [cur]) ++ words_go EmptyString s'
      else words_go (cur +:+ String c EmptyString) s'
  end.
Definition split_ascii_whitespace (s : string) : list string := words_go EmptyString s.

(** [s.lines()]: split at line feeds, one carriage return dropped from the end
    of each line, and no last line when the text ends in a line feed. *)
Definition LF : ascii := "010".
Definition CR : ascii := "013".
Definition drop_cr (s : string) : string :=
  match strip_suffix (String CR EmptyString) s with Some r => r | None => s end.
Fixpoint drop_last_empty (l : list string) : list string :=
  match l with
  | [] => []
  | [EmptyString] => []
  | s :: l' => s :: drop_last_empty l'
  end.
(** A carriage return is dropped only before a line feed. *)
Fixpoint crs (l : list string) : list string :=
  match l with
  | [] => []
  | [s] => [s]
  | s :: l' => drop_cr s :: crs l'
  end.
Definition lines (s : string) : list string := drop_last_empty (crs (split LF s)).

(** * Numbers *)

Definition digit_val (c : ascii) : Z := byte_val c - 48.
Definition digit_of (z : Z) : ascii := val_byte (48 + z).

(** [u64]'s [Display]. Twenty digits are enough for a [u64]. *)
Fixpoint dec_go (fuel : nat) (n : Z) (acc : string) : string :=
  match fuel with
  | O => acc
  | S f =>
      let acc' := String (digit_of (n mod 10)) acc in
      if n <? 10 then acc' else dec_go f (n / 10) acc'
  end.
Definition to_dec (n : Z) : string := dec_go 20 n EmptyString.

(** [s.parse::<uN>()]: an optional [+], then at least one digit, the value
    within the type's maximum. *)
Fixpoint parse_digits (max : Z) (s : string) (acc : Z) : option Z :=
  match s with
  | EmptyString => Some acc
  | String c s' =>
      if is_digit c then
        let v := acc * 10 + digit_val c in
        if v <=? max then parse_digits max s' v else None
      else None
  end.
Definition parse_uint (max : Z) (s : string) : option Z :=
  let body := match s with String "+" s' => s' | _ => s end in
  match body with EmptyString => None | _ => parse_digits max body 0 end.
Definition parse_u64 : string → option Z := parse_uint U64_MAX.
Definition parse_u32 : string → option Z := parse_uint 4294967295.

(** Fixed-width integers: [uN::from_be_bytes] and [to_be_bytes], and the
    little-endian ones. *)
Fixpoint from_le (b : bytes) : Z :=
  match b with
  | [] => 0
  | c :: b' => byte_val c + 256 * from_le b'
  end.
Fixpoint to_le (n : nat) (z : Z) : bytes :=
  match n with
  | O => []
  | S n' => val_byte z :: to_le n' (z / 256)
  end.
Definition from_be (b : bytes) : Z := from_le (rev b).
Definition to_be (n : nat) (z : Z) : bytes := rev (to_le n z).

(** [str::from_utf8]'s test: well-formed UTF-8, no overlong form, no surrogate,
    nothing past U+10FFFF. *)
Definition in_z (lo hi : Z) (c : ascii) : bool := (lo <=? byte_val c) && (byte_val c <=? hi).
Definition utf8_cont (c : ascii) : bool := in_z 128 191 c.
Fixpoint valid_utf8 (b : bytes) : bool :=
  match b with
  | [] => true
  | c :: b1 =>
      if in_z 0 127 c then valid_utf8 b1
      else
        match b1 with
        | [] => false
        | c1 :: b2 =>
            if in_z 194 223 c then utf8_cont c1 && valid_utf8 b2
            else
              match b2 with
              | [] => false
              | c2 :: b3 =>
                  let second3 :=
                    if in_z 224 224 c then in_z 160 191 c1
                    else if in_z 237 237 c then in_z 128 159 c1 else utf8_cont c1 in
                  if in_z 224 239 c then second3 && utf8_cont c2 && valid_utf8 b3
                  else
                    match b3 with
                    | [] => false
                    | c3 :: b4 =>
                        let second4 :=
                          if in_z 240 240 c then in_z 144 191 c1
                          else if in_z 244 244 c then in_z 128 143 c1 else utf8_cont c1 in
                        in_z 240 244 c && second4 && utf8_cont c2 && utf8_cont c3
                        && valid_utf8 b4
                    end
              end
        end
  end.

(** A slice [b[at..at+n]], [None] where the range leaves [b]. *)
Definition slice (b : bytes) (at_ n : Z) : option bytes :=
  if (0 <=? at_) && (0 <=? n) && (at_ + n <=? len b)
  then Some (take (Z.to_nat n) (drop (Z.to_nat at_) b))
  else None.

(** * Laws *)

Lemma append_nil_r s : s +:+ EmptyString = s.
Proof. induction s as [|c s IH]; [done|]. cbn. unfold String.app in *. simpl. by rewrite IH. Qed.

Lemma append_cons c s t : String c s +:+ t = String c (s +:+ t).
Proof. done. Qed.

Lemma append_assoc (s t u : string) : (s +:+ t) +:+ u = s +:+ (t +:+ u).
Proof. induction s as [|c s IH]; [done|]. by rewrite !append_cons, IH. Qed.

Lemma append_nil_l s : EmptyString +:+ s = s.
Proof. done. Qed.

Lemma str_len_nonneg s : 0 ≤ str_len s.
Proof. unfold str_len. lia. Qed.

Lemma str_len_cons c s : str_len (String c s) = 1 + str_len s.
Proof. unfold str_len. simpl. lia. Qed.

Lemma str_len_app s t : str_len (s +:+ t) = str_len s + str_len t.
Proof.
  induction s as [|c s IH]; [done|]. by rewrite append_cons, !str_len_cons, IH, Z.add_assoc.
Qed.

Lemma len_nonneg {A} (l : list A) : 0 ≤ len l.
Proof. unfold len. lia. Qed.

Lemma len_app {A} (l k : list A) : len (l ++ k) = len l + len k.
Proof. unfold len. rewrite length_app. lia. Qed.

Lemma len_cons {A} (a : A) l : len (a :: l) = 1 + len l.
Proof. unfold len. simpl. lia. Qed.

Lemma is_nil_spec {A} (l : list A) : is_nil l = true ↔ l = [].
Proof. by destruct l. Qed.

Lemma is_empty_spec s : is_empty s = true ↔ s = EmptyString.
Proof. by destruct s. Qed.

#[export] Hint Resolve str_len_nonneg len_nonneg : mica.

Lemma str_bytes_str s : bytes_str (str_bytes s) = s.
Proof. apply String.string_of_list_ascii_of_string. Qed.

Lemma bytes_str_bytes b : str_bytes (bytes_str b) = b.
Proof. apply String.list_ascii_of_string_of_list_ascii. Qed.

Lemma str_bytes_app s t : str_bytes (s +:+ t) = str_bytes s ++ str_bytes t.
Proof. induction s as [|c s IH]; [done|]. rewrite append_cons. simpl. by rewrite IH. Qed.

Lemma len_str_bytes s : len (str_bytes s) = str_len s.
Proof. induction s as [|c s IH]; [done|]. simpl. by rewrite len_cons, IH, str_len_cons. Qed.

Lemma bytes_str_len b : str_len (bytes_str b) = len b.
Proof. by rewrite <- len_str_bytes, bytes_str_bytes. Qed.

Lemma str_bytes_inj s t : str_bytes s = str_bytes t → s = t.
Proof. intros H. by rewrite <- (str_bytes_str s), H, str_bytes_str. Qed.

Lemma byte_val_bound c : 0 ≤ byte_val c < 256.
Proof.
  unfold byte_val. split; [lia|]. pose proof (N_ascii_bounded c). lia.
Qed.

Lemma byte_val_val_byte z : byte_val (val_byte z) = z mod 256.
Proof.
  unfold byte_val, val_byte. pose proof (Z.mod_pos_bound z 256 ltac:(lia)).
  rewrite N_ascii_embedding; [|lia]. lia.
Qed.

Lemma val_byte_val c : val_byte (byte_val c) = c.
Proof.
  unfold val_byte. pose proof (byte_val_bound c).
  rewrite Z.mod_small by lia. unfold byte_val. rewrite N2Z.id. apply ascii_N_embedding.
Qed.

Lemma byte_val_inj c d : byte_val c = byte_val d → c = d.
Proof. intros H. by rewrite <- (val_byte_val c), H, val_byte_val. Qed.

Lemma all_bytes_app p s t : all_bytes p (s +:+ t) = all_bytes p s && all_bytes p t.
Proof.
  induction s as [|c s IH]; [done|]. rewrite append_cons. simpl. by rewrite IH, andb_assoc.
Qed.

Lemma all_bytes_impl (p q : ascii → bool) s :
  (∀ c, p c = true → q c = true) → all_bytes p s = true → all_bytes q s = true.
Proof.
  intros Hpq. induction s as [|c s IH]; [done|]. simpl. rewrite !andb_true_iff.
  intros [? ?]. auto.
Qed.

Lemma contains_byte_app c s t : contains_byte c (s +:+ t) = contains_byte c s || contains_byte c t.
Proof.
  induction s as [|d s IH]; [done|]. rewrite append_cons. simpl. by rewrite IH, orb_assoc.
Qed.

(** No byte of [s] is [c] when every byte satisfies a class [c] is outside. *)
Lemma all_bytes_not_contains p c s :
  all_bytes p s = true → p c = false → contains_byte c s = false.
Proof.
  intros Hs Hc. induction s as [|d s IH]; [done|]. simpl in *.
  apply andb_true_iff in Hs as [Hd Hs].
  rewrite (IH Hs), orb_false_r. apply bool_decide_eq_false. intros ->. congruence.
Qed.

(** ** Prefixes and suffixes *)

Lemma strip_prefix_spec p s r : strip_prefix p s = Some r ↔ s = p +:+ r.
Proof.
  revert s. induction p as [|a p IH]; intros s; simpl.
  { rewrite append_nil_l. split; [by intros [= ->]|by intros ->]. }
  destruct s as [|b s].
  { split; [done|]. by rewrite append_cons. }
  rewrite append_cons. case_bool_decide as Hab.
  - subst. rewrite IH. split; [by intros ->|by intros [= ->]].
  - split; [done|]. congruence.
Qed.

Lemma strip_prefix_app p r : strip_prefix p (p +:+ r) = Some r.
Proof. by apply strip_prefix_spec. Qed.

Lemma append_cut (p x y : string) : p +:+ x = p +:+ y → x = y.
Proof. intros E. pose proof (strip_prefix_app p x) as H. rewrite E, strip_prefix_app in H. by injection H. Qed.

Lemma strip_suffix_spec suf s r : strip_suffix suf s = Some r ↔ s = r +:+ suf.
Proof.
  revert r. induction s as [|c s IH]; intros r; simpl; case_bool_decide as Hs.
  - subst. split; [by intros [= <-]|].
    destruct r; [done|]. by rewrite append_cons.
  - split; [done|]. destruct r; [by rewrite append_nil_l|by rewrite append_cons].
  - subst. split; [by intros [= <-]|].
    intros H. destruct r as [|d r]; [done|]. exfalso.
    apply (f_equal str_len) in H. rewrite str_len_app, !str_len_cons in H.
    pose proof (str_len_nonneg r). lia.
  - split.
    + intros (r' & H & ->)%fmap_Some. apply IH in H as ->. by rewrite append_cons.
    + destruct r as [|d r]; [by rewrite append_nil_l|].
      rewrite append_cons. intros [= -> H]. apply IH in H. by rewrite H.
Qed.

Lemma strip_suffix_app suf r : strip_suffix suf (r +:+ suf) = Some r.
Proof. by apply strip_suffix_spec. Qed.

(** ** Splitting *)

Lemma split_nonempty c s : split c s ≠ [].
Proof.
  induction s as [|d s IH]; [done|]. simpl. case_bool_decide; [done|]. by destruct (split c s).
Qed.

Lemma join_cons c s l : l ≠ [] → join c (s :: l) = s +:+ String c (join c l).
Proof. by destruct l. Qed.

Lemma join_split c s : join c (split c s) = s.
Proof.
  induction s as [|d s IH]; [done|]. simpl. case_bool_decide as Hd.
  - subst. rewrite join_cons by apply split_nonempty. by rewrite IH, append_nil_l.
  - destruct (split c s) as [|h t] eqn:E; [by destruct (split_nonempty c s)|].
    rewrite <- IH. by destruct t.
Qed.

Lemma split_no_sep c s : contains_byte c s = false → split c s = [s].
Proof.
  induction s as [|d s IH]; [done|]. simpl. intros H. apply orb_false_iff in H as [Hd H].
  apply bool_decide_eq_false in Hd. rewrite bool_decide_eq_false_2 by congruence.
  by rewrite (IH H).
Qed.

Lemma split_app_sep c s t :
  contains_byte c s = false → split c (s +:+ String c t) = s :: split c t.
Proof.
  induction s as [|d s IH]; intros H; simpl in H.
  - rewrite append_nil_l. simpl. by rewrite bool_decide_eq_true_2.
  - apply orb_false_iff in H as [Hd H]. apply bool_decide_eq_false in Hd.
    rewrite append_cons. simpl. rewrite bool_decide_eq_false_2 by congruence. by rewrite (IH H).
Qed.

Lemma split_join c l :
  l ≠ [] → Forall (λ s, contains_byte c s = false) l → split c (join c l) = l.
Proof.
  induction l as [|s l IH]; [done|]. intros _ H. apply Forall_cons in H as [Hs Hl].
  destruct l as [|t l]; [by apply split_no_sep|].
  rewrite join_cons by done. rewrite split_app_sep by done. by rewrite IH.
Qed.

Lemma str_bytes_length s : length (str_bytes s) = String.length s.
Proof. unfold str_bytes. induction s as [|c s IH]; [done|]. cbn. by rewrite IH. Qed.

(** A suffix is decided by the end of the text. *)
Lemma ends_with_app a x b :
  (String.length a ≤ String.length b)%nat → ends_with a (x +:+ b) = ends_with a b.
Proof.
  intros Hl. apply bool_decide_ext. split.
  - intros [r H%strip_suffix_spec].
    assert (E : str_bytes x ++ str_bytes b = str_bytes r ++ str_bytes a) by (by rewrite <- !str_bytes_app, H).
    exists (bytes_str (take (length (str_bytes b) - length (str_bytes a)) (str_bytes b))). apply strip_suffix_spec.
    apply str_bytes_inj. rewrite str_bytes_app, bytes_str_bytes.
    rewrite <- !str_bytes_length in Hl.
    pose proof (f_equal (λ l, drop (length l - length (str_bytes a)) l) E) as D. cbn beta in D.
    rewrite !length_app in D. rewrite (drop_app_length' (str_bytes r)) in D by lia.
    replace (length (str_bytes x) + length (str_bytes b) - length (str_bytes a))%nat
      with (length (str_bytes x) + (length (str_bytes b) - length (str_bytes a)))%nat in D by lia.
    rewrite drop_app_add' in D by done. rewrite <- D at 2. symmetry. apply take_drop.
  - intros [r H%strip_suffix_spec]. exists (x +:+ r). apply strip_suffix_spec. by rewrite H, append_assoc.
Qed.

Lemma split_once_spec c s a b :
  split_once c s = Some (a, b) ↔ s = a +:+ String c b ∧ contains_byte c a = false.
Proof.
  revert a. induction s as [|d s IH]; intros a; simpl.
  { split; [done|]. intros [H _]. by destruct a. }
  case_bool_decide as Hd.
  - subst d. split.
    + intros [= <- <-]. by rewrite append_nil_l.
    + intros [H Ha]. destruct a as [|e a]; [by injection H as ->|].
      rewrite append_cons in H. injection H as <- ->. simpl in Ha.
      by rewrite bool_decide_eq_true_2 in Ha.
  - split.
    + intros ([a' b'] & H & [= -> ->])%fmap_Some. apply IH in H as [-> H].
      rewrite append_cons. simpl. by rewrite H, bool_decide_eq_false_2 by congruence.
    + intros [H Ha]. destruct a as [|e a].
      { rewrite append_nil_l in H. congruence. }
      rewrite append_cons in H. injection H as <- ->. simpl in Ha.
      apply orb_false_iff in Ha as [_ Ha].
      by rewrite (proj2 (IH a) (conj eq_refl Ha)).
Qed.

Lemma rsplit_once_none c s : rsplit_once c s = None ↔ contains_byte c s = false.
Proof.
  induction s as [|d s IH]; [done|]. cbn. destruct (rsplit_once c s) as [[a b]|] eqn:E.
  - split; [done|]. intros H. apply orb_false_iff in H as [_ H]. apply IH in H. congruence.
  - rewrite (proj1 IH eq_refl), orb_false_r. destruct (decide (d = c)) as [->|Hne].
    + by rewrite !bool_decide_eq_true_2.
    + by rewrite !bool_decide_eq_false_2 by congruence.
Qed.

Lemma rsplit_once_spec c s a b :
  rsplit_once c s = Some (a, b) ↔ s = a +:+ String c b ∧ contains_byte c b = false.
Proof.
  revert a b. induction s as [|d s IH]; intros a b; cbn.
  { split; [done|]. intros [H _]. by destruct a. }
  destruct (rsplit_once c s) as [[x y]|] eqn:E.
  - destruct (proj1 (IH x y)) as [Hs Hy]; [done|]. split.
    + intros [= <- <-]. by rewrite Hs, append_cons.
    + intros [H Hb]. destruct a as [|d' a']; cbn in H; injection H as -> H.
      * exfalso. rewrite H in E. apply rsplit_once_none in Hb. congruence.
      * assert (E' : Some (x, y) = Some (a', b)) by (apply IH; done). by injection E' as -> ->.
  - apply rsplit_once_none in E. case_bool_decide as Hd.
    + subst. split; [by intros [= <- <-]|]. intros [H Hb]. destruct a as [|d' a']; cbn in H; injection H as H.
      * by subst.
      * exfalso. subst. rewrite contains_byte_app in E. apply orb_false_iff in E as [_ E]. cbn in E.
        by rewrite bool_decide_eq_true_2 in E.
    + split; [done|]. intros [H Hb]. exfalso. destruct a as [|d' a']; cbn in H; injection H as H.
      * done.
      * subst. rewrite contains_byte_app in E. apply orb_false_iff in E as [_ E]. cbn in E.
        by rewrite bool_decide_eq_true_2 in E.
Qed.

Lemma string_app_length (s t : string) : String.length (s +:+ t) = (String.length s + String.length t)%nat.
Proof. induction s as [|c s IH]; [done|]. rewrite append_cons. cbn. by rewrite IH. Qed.

Lemma strip_prefix_length p s r : strip_prefix p s = Some r → (String.length r ≤ String.length s)%nat.
Proof. intros ->%strip_prefix_spec. rewrite string_app_length. lia. Qed.

Lemma split_once_length c s a b : split_once c s = Some (a, b) → (String.length b < String.length s)%nat.
Proof. intros [-> _]%split_once_spec. rewrite string_app_length. cbn. lia. Qed.

Lemma split_once_none c s : split_once c s = None ↔ contains_byte c s = false.
Proof.
  induction s as [|d s IH]; [done|]. simpl. case_bool_decide as Hd.
  - subst. by rewrite bool_decide_eq_true_2.
  - rewrite fmap_None, IH, bool_decide_eq_false_2 by congruence. done.
Qed.

(** ** Numbers *)

Lemma is_digit_val c : is_digit c = true ↔ 0 ≤ digit_val c ≤ 9.
Proof.
  unfold is_digit, in_range, digit_val.
  change (byte_val "0") with 48. change (byte_val "9") with 57.
  rewrite andb_true_iff, !Z.leb_le. lia.
Qed.

Lemma digit_val_of z : 0 ≤ z ≤ 9 → digit_val (digit_of z) = z.
Proof. intros H. unfold digit_val, digit_of. rewrite byte_val_val_byte, Z.mod_small; lia. Qed.

Lemma digit_of_val c : digit_of (digit_val c) = c.
Proof. unfold digit_val, digit_of. by rewrite Zplus_minus, val_byte_val. Qed.

Lemma is_digit_of z : 0 ≤ z ≤ 9 → is_digit (digit_of z) = true.
Proof. intros H. apply is_digit_val. by rewrite digit_val_of. Qed.

Lemma parse_dec_go max fuel n acc :
  (0 < fuel)%nat → 0 ≤ n < 10 ^ Z.of_nat fuel → n ≤ max →
  parse_digits max (dec_go fuel n acc) 0 = parse_digits max acc n.
Proof.
  revert n acc. induction fuel as [|f IH]; intros n acc Hf Hn Hmax; [lia|].
  cbn [dec_go].
  pose proof (Z.mod_pos_bound n 10 ltac:(lia)) as Hm.
  assert (step : ∀ a, a * 10 + n mod 10 = n →
    parse_digits max (String (digit_of (n mod 10)) acc) a = parse_digits max acc n).
  { intros a Ha. simpl. rewrite is_digit_of by lia. rewrite digit_val_of by lia.
    rewrite Ha. by rewrite (proj2 (Z.leb_le n max)) by lia. }
  destruct (Z.ltb_spec n 10) as [Hlt|Hge].
  - apply step. rewrite Z.mod_small; lia.
  - assert (Hf0 : (0 < f)%nat).
    { destruct f; [|lia]. change (10 ^ Z.of_nat 1) with 10 in Hn. lia. }
    rewrite IH; [|done| |].
    + apply step. pose proof (Z.div_mod n 10 ltac:(lia)). lia.
    + rewrite Nat2Z.inj_succ, Z.pow_succ_r in Hn by lia. split.
      * apply Z.div_pos; lia.
      * apply Z.div_lt_upper_bound; lia.
    + pose proof (Z.div_le_upper_bound n 10 n ltac:(lia) ltac:(lia)). lia.
Qed.

Lemma dec_go_head fuel n acc :
  (0 < fuel)%nat → 0 ≤ n →
  ∃ c s, dec_go fuel n acc = String c s ∧ is_digit c = true ∧
         (all_bytes is_digit acc = true → all_bytes is_digit s = true).
Proof.
  revert n acc. induction fuel as [|f IH]; intros n acc Hf Hn; [lia|]. cbn [dec_go].
  pose proof (Z.mod_pos_bound n 10 ltac:(lia)) as Hm.
  assert (Hd : is_digit (digit_of (n mod 10)) = true) by (apply is_digit_of; lia).
  destruct (n <? 10); [by eauto|].
  destruct f as [|f]; [by eauto|].
  destruct (IH (n / 10) (String (digit_of (n mod 10)) acc)) as (c & s & E & Hc & Hs);
    [lia|apply Z.div_pos; lia|].
  exists c, s. split; [done|]. split; [done|]. intros Ha. apply Hs. simpl. by rewrite Hd, Ha.
Qed.

Lemma to_dec_digits n : 0 ≤ n → all_bytes is_digit (to_dec n) = true.
Proof.
  intros H. destruct (dec_go_head 20 n EmptyString ltac:(lia) H) as (c & s & E & Hc & Hs).
  unfold to_dec. rewrite E. simpl. by rewrite Hc, Hs.
Qed.

(** Printing and parsing a [u64] is the identity. *)
Lemma parse_u64_to_dec n : is_u64 n → parse_u64 (to_dec n) = Some n.
Proof.
  unfold is_u64, U64_MAX. intros H.
  destruct (dec_go_head 20 n EmptyString ltac:(lia) ltac:(lia)) as (c & s & E & Hc & _).
  assert (Hp : parse_digits U64_MAX (to_dec n) 0 = Some n).
  { unfold to_dec. rewrite parse_dec_go; [done|lia| |].
    - change (10 ^ Z.of_nat 20) with 100000000000000000000. lia.
    - unfold U64_MAX. lia. }
  unfold parse_u64, parse_uint. unfold to_dec in *. rewrite E in *.
  destruct (decide (c = "+"%char)) as [->|Hne]; [by vm_compute in Hc|].
  rewrite <- Hp. destruct c as [[] [] [] [] [] [] [] []]; try done.
Qed.

Lemma to_dec_inj m n : is_u64 m → is_u64 n → to_dec m = to_dec n → m = n.
Proof.
  intros Hm Hn E. apply (f_equal parse_u64) in E.
  rewrite !parse_u64_to_dec in E by done. congruence.
Qed.

Lemma length_to_le n z : length (to_le n z) = n.
Proof. revert z. induction n; intros; simpl; congruence. Qed.

Lemma length_to_be n z : length (to_be n z) = n.
Proof. unfold to_be. by rewrite length_rev, length_to_le. Qed.

Lemma from_to_le n z : 0 ≤ z < 256 ^ Z.of_nat n → from_le (to_le n z) = z.
Proof.
  revert z. induction n as [|n IH]; intros z Hz.
  { change (256 ^ Z.of_nat 0) with 1 in Hz. simpl. lia. }
  rewrite Nat2Z.inj_succ, Z.pow_succ_r in Hz by lia.
  cbn [to_le from_le]. rewrite byte_val_val_byte, IH.
  - pose proof (Z.div_mod z 256 ltac:(lia)). lia.
  - split; [apply Z.div_pos; lia|apply Z.div_lt_upper_bound; lia].
Qed.

Lemma from_to_be n z : 0 ≤ z < 256 ^ Z.of_nat n → from_be (to_be n z) = z.
Proof. intros H. unfold from_be, to_be. by rewrite rev_involutive, from_to_le. Qed.

Lemma from_le_bound b : 0 ≤ from_le b < 256 ^ len b.
Proof.
  induction b as [|c b IH]; [done|]. rewrite len_cons, Z.pow_add_r by (unfold len; lia).
  cbn [from_le]. pose proof (byte_val_bound c). change (256 ^ 1) with 256. lia.
Qed.

Lemma to_from_le b : to_le (length b) (from_le b) = b.
Proof.
  induction b as [|c b IH]; [done|]. cbn [length from_le to_le].
  pose proof (byte_val_bound c). f_equal.
  - rewrite <- (val_byte_val c) at 2. unfold val_byte. f_equal. f_equal.
    rewrite Z.mul_comm, Z_mod_plus_full. done.
  - rewrite Z.mul_comm, Z.div_add by lia. by rewrite Z.div_small, Z.add_0_l, IH by lia.
Qed.

Lemma to_from_be b : to_be (length b) (from_be b) = b.
Proof.
  unfold from_be, to_be. rewrite <- (length_rev b), to_from_le. apply rev_involutive.
Qed.

Lemma from_be_bound b : 0 ≤ from_be b < 256 ^ len b.
Proof.
  unfold from_be. pose proof (from_le_bound (rev b)) as H. unfold len in *.
  by rewrite length_rev in H.
Qed.

Lemma valid_utf8_ascii b : Forall (λ c, byte_val c < 128) b → valid_utf8 b = true.
Proof.
  induction b as [|c b IH]; [done|]. intros [Hc Hb]%Forall_cons. cbn [valid_utf8].
  pose proof (byte_val_bound c).
  replace (in_z 0 127 c) with true; [by apply IH|].
  symmetry. unfold in_z. apply andb_true_iff. rewrite !Z.leb_le. lia.
Qed.

Lemma all_bytes_Forall p s : all_bytes p s = true ↔ Forall (λ c, p c = true) (str_bytes s).
Proof.
  induction s as [|c s IH]; simpl; [by split; [constructor|]|].
  by rewrite andb_true_iff, Forall_cons, IH.
Qed.

Lemma all_ascii p s :
  (∀ c, p c = true → byte_val c < 128) → all_bytes p s = true → valid_utf8 (str_bytes s) = true.
Proof.
  intros Hp Hs. apply valid_utf8_ascii. apply all_bytes_Forall in Hs.
  eapply Forall_impl; [exact Hs|]. intros c. apply Hp.
Qed.
