(* ===== verification/Files.v ===== *)
(** Durable files ([src/crates/mica-fs/src/lib.rs], and [atomic_write] of
    [deployments/io.rs]): a bounded read, and the replacement of a file through
    a temporary sibling, step by step with what a power cut leaves. *)
From Stdlib Require Import Ascii.
From S2P Require Import Prelude Text.

Module Files.

(** What a name leads to; [Special] is a symlink or a device. *)
Inductive node := Regular (content : bytes) | Directory | Special.
#[export] Instance node_eq : EqDecision node.
Proof. solve_decision. Defined.

(** A filesystem below one mount: what each path names. *)
Notation tree := (gmap string node).

(** [read_bounded]: a regular file of at most [limit] bytes. *)
Definition read_node (n : node) (limit : Z) : result bytes :=
  match n with
  | Regular content => ensure len content <=? limit else "larger than its bound" in Ok content
  | _ => Err (Msg "not a regular file")
  end.
Definition read_bounded (t : tree) (path : string) (limit : Z) : result bytes :=
  let? n := with_context (t !! path) "stat" in
  read_node n limit.

(** * Replacing a file *)

(** [fs::remove_file]; an absent file is an error of its own kind. *)
Definition remove_leftover (temp : string) : M tree unit := λ t,
  match t !! temp with
  | Some Directory => slift (λ _, Err (Msg "remove")) t
  | _ => swrite (delete temp) t
  end.

(** Create the temporary file exclusively. *)
Definition create_new (temp : string) : M tree unit := λ t,
  match t !! temp with
  | Some _ => slift (λ _, Err (Msg "create")) t
  | None => swrite (insert temp (Regular [])) t
  end.

(** Write and flush it: until the flush, a power cut leaves any content under
    the temporary name, or no file. *)
Definition write_all (temp : string) (b : bytes) : M tree unit := λ t,
  Outcome (Ok tt) (<[temp := Regular b]> t)
    (λ t', t' = delete temp t ∨ ∃ c, t' = <[temp := Regular c]> t).

(** [fs::rename] onto a file name: the old entry and the new one, atomically. *)
Definition rename (temp path : string) : M tree unit := λ t,
  match t !! temp, t !! path with
  | None, _ => slift (λ _, Err (Msg "rename to")) t
  | Some _, Some Directory => slift (λ _, Err (Msg "rename to")) t
  | Some n, _ => swrite (λ t, <[path := n]> (delete temp t)) t
  end.

(** [Replace::write]. *)
Definition replace (path temp : string) (b : bytes) : M tree unit :=
  let! _ := remove_leftover temp in
  let! _ := create_new temp in
  let! _ := write_all temp b in
  rename temp path.

(** [Path::with_extension], on the last component. *)
Definition with_extension (path ext : string) : string :=
  let '(dir, file) := match rsplit_once "/" path with
                      | Some (d, f) => (d +:+ "/", f)
                      | None => ("", path)
                      end in
  let stem := match rsplit_once "." file with
              | Some (s, _) => if is_empty s then file else s
              | None => file
              end in
  dir +:+ stem +:+ "." +:+ ext.

(** [deployments::atomic_write]. *)
Definition atomic_write (path : string) (b : bytes) : M tree unit := λ t,
  match t !! path with
  | Some (Regular _) | None => replace path (with_extension path "pending") b t
  | Some _ => slift (λ _, Err (Msg "destination is not a regular file")) t
  end.

(** * Directories

    A tree holds a directory by what is below it, or by a [Directory] node when
    nothing is. *)

(** What is below a directory, relative to it. *)
Definition below (dir path : string) : option string := strip_prefix (dir +:+ "/") path.
Definition first_name (path : string) : string :=
  match split_once "/" path with Some (n, _) => n | None => path end.
Definition paths_below (dir : string) (t : tree) : list string := omap (below dir) (map_to_list t).*1.

(** [fs::read_dir]: the names in a directory, in some order. *)
Definition read_dir (dir : string) (t : tree) : list string :=
  remove_dups (map first_name (paths_below dir t)).

Definition is_dir (path : string) (t : tree) : bool :=
  match t !! path with
  | Some Directory => true
  | Some _ => false
  | None => negb (is_nil (paths_below path t))
  end.
Definition is_file (path : string) (t : tree) : bool :=
  match t !! path with Some (Regular _) => true | _ => false end.
(** [symlink_metadata(..).is_ok()]. *)
Definition path_exists (path : string) (t : tree) : bool :=
  bool_decide (is_Some (t !! path)) || is_dir path t.

(** [fs::remove_file] and [fs::remove_dir]. *)
Definition remove_file (path : string) : M tree unit := λ t,
  match t !! path with
  | Some (Regular _) | Some Special => swrite (delete path) t
  | _ => slift (λ _, Err (Msg "remove")) t
  end.
Definition remove_dir (path : string) : M tree unit := λ t,
  if is_nil (paths_below path t) then swrite (delete path) t
  else slift (λ _, Err (Msg "remove directory")) t.

(** [deployments::directory]: create the directories down to a path, those that
    exist being real. *)
Fixpoint ancestors_from (above : string) (parts : list string) : list string :=
  match parts with
  | [] => []
  | part :: rest =>
      let path := if is_empty above then part else above +:+ "/" +:+ part in
      path :: ancestors_from path rest
  end.
Definition ancestors (path : string) : list string :=
  if is_empty path then [] else ancestors_from "" (split "/" path).
Definition parent_dir (path : string) : string :=
  match rsplit_once "/" path with Some (dir, _) => dir | None => "" end.

Fixpoint make_dirs (paths : list string) : M tree unit :=
  match paths with
  | [] => sret tt
  | path :: rest =>
      let! _ := (λ t, if path_exists path t
                      then slift (λ t, ensure is_dir path t else "invalid object directory" in Ok tt) t
                      else swrite (insert path Directory) t) in
      make_dirs rest
  end.
Definition directory (path : string) : M tree unit := make_dirs (ancestors path).

(** * Lemmas *)

(** ** Directories *)

Definition slash_free (name : string) : Prop := contains_byte "/" name = false.

Lemma first_name_alone name : slash_free name → first_name name = name.
Proof. unfold first_name. intros H. by rewrite (proj2 (split_once_none _ _) H). Qed.

Lemma first_name_child name rest : slash_free name → first_name (name +:+ "/" +:+ rest) = name.
Proof.
  unfold first_name. intros H.
  by rewrite (proj2 (split_once_spec "/" (name +:+ "/" +:+ rest) name rest) (conj eq_refl H)).
Qed.

Lemma below_app dir rest : below dir (dir +:+ "/" +:+ rest) = Some rest.
Proof. unfold below. rewrite <- append_assoc. apply strip_prefix_app. Qed.

Lemma below_some dir path rest : below dir path = Some rest ↔ path = dir +:+ "/" +:+ rest.
Proof. unfold below. rewrite strip_prefix_spec. by rewrite append_assoc. Qed.

Lemma elem_of_paths_below dir t rest :
  rest ∈ paths_below dir t ↔ ∃ p, is_Some (t !! p) ∧ below dir p = Some rest.
Proof.
  unfold paths_below. rewrite list_elem_of_omap. split.
  - intros (p & Hp & Hb). apply list_elem_of_fmap in Hp as ([q n] & -> & Hin).
    apply elem_of_map_to_list in Hin. by exists q.
  - intros (p & [n Hn] & Hb). exists p. split; [|done]. apply list_elem_of_fmap. exists (p, n).
    by rewrite elem_of_map_to_list.
Qed.

Lemma nothing_below dir t p rest : is_nil (paths_below dir t) = true → below dir p = Some rest → t !! p = None.
Proof.
  intros Hn Hb. destruct (t !! p) eqn:E; [|done].
  assert (H : rest ∈ paths_below dir t) by (apply elem_of_paths_below; eauto).
  destruct (paths_below dir t); [by apply elem_of_nil in H|done].
Qed.

Lemma remove_file_safe path t :
  safe (remove_file path t) (λ _ t', t' = delete path t) (λ t', t' = t ∨ t' = delete path t).
Proof.
  unfold remove_file. destruct (t !! path) as [[c| |]|];
    (apply safe_write || apply safe_lift); auto; by intros.
Qed.

(** A tree with some of the directories [paths] created. *)
Definition with_dirs (paths : list string) (t t' : tree) : Prop :=
  ∀ p, t' !! p = t !! p ∨ p ∈ paths ∧ t !! p = None ∧ t' !! p = Some Directory.

Lemma with_dirs_refl paths t : with_dirs paths t t.
Proof. intros p. by left. Qed.

Lemma make_dirs_safe all paths t0 t :
  paths ⊆ all → with_dirs all t0 t → safe (make_dirs paths t) (λ _ t', with_dirs all t0 t') (with_dirs all t0).
Proof.
  revert t. induction paths as [|path rest IH]; intros t Hsub Ht; [by apply safe_ret|].
  eapply safe_step with (R := λ _ t', with_dirs all t0 t') (C' := with_dirs all t0);
    [|done|intros u t' Ht'; apply IH; [set_solver|done]].
  destruct (path_exists path t) eqn:E; [by apply safe_lift|].
  assert (Hd : with_dirs all t0 (<[path := Directory]> t)).
  { intros p. destruct (decide (p = path)) as [->|Hne]; [|by rewrite lookup_insert_ne].
    right. rewrite lookup_insert_eq. split; [set_solver|]. split; [|done].
    apply orb_false_iff in E as [E _]. bools.
    apply eq_None_not_Some in E. destruct (Ht path) as [Hp|(_ & ? & _)]; congruence. }
  by apply safe_write.
Qed.

Definition parts_len (parts : list string) : Z := foldr (λ p n, str_len p + 1 + n) 0 parts.

Lemma split_parts_len s : parts_len (split "/" s) = str_len s + 1.
Proof.
  rewrite <- (join_split "/" s) at 2. assert (H : split "/" s ≠ []) by apply split_nonempty.
  destruct (split "/" s) as [|a l]; [done|]. clear H. revert a. induction l as [|b l IH]; intros a; [cbn; lia|].
  change (parts_len (a :: b :: l)) with (str_len a + 1 + parts_len (b :: l)). rewrite IH, (join_cons "/" a (b :: l)) by done.
  rewrite str_len_app, str_len_cons. lia.
Qed.

Lemma ancestors_from_len above parts p :
  p ∈ ancestors_from above parts →
  str_len p + (if is_empty above then 1 else 0) ≤ str_len above + parts_len parts.
Proof.
  revert above. induction parts as [|part rest IH]; intros above Hp; [by apply elem_of_nil in Hp|].
  cbn [ancestors_from] in Hp. cbn [parts_len foldr]. fold (parts_len rest).
  assert (Hpos : 0 ≤ parts_len rest).
  { clear. induction rest as [|a l IH]; cbn; [lia|]. pose proof (str_len_nonneg a). fold (parts_len l) in *. lia. }
  set (path := if is_empty above then part else above +:+ "/" +:+ part) in *.
  assert (Hlen : str_len path + (if is_empty above then 1 else 0) = str_len above + str_len part + 1).
  { unfold path. destruct above; cbn [is_empty]; [change (str_len "") with 0; lia|].
    rewrite !str_len_app. change (str_len "/") with 1. lia. }
  apply elem_of_cons in Hp as [->|Hp]; [lia|]. specialize (IH path Hp). destruct (is_empty path); lia.
Qed.

(** A directory created for an object is not the object. *)
Lemma parent_apart path : path ∉ ancestors (parent_dir path).
Proof.
  unfold parent_dir, ancestors. destruct (rsplit_once "/" path) as [[d f]|] eqn:E; [|by intros ?%elem_of_nil].
  apply rsplit_once_spec in E as [-> _]. destruct (is_empty d) eqn:Hd; [by intros ?%elem_of_nil|].
  intros H%ancestors_from_len. cbn [is_empty] in H. rewrite split_parts_len, str_len_app, str_len_cons in H.
  pose proof (str_len_nonneg f). change (str_len "") with 0 in H. lia.
Qed.

(** ** Replacement *)

(** Two trees that agree outside the temporary name and, at the target, hold
    the old node or the new content. *)
Definition replacing (path temp : string) (b : bytes) (t t' : tree) : Prop :=
  (t' !! path = t !! path ∨ t' !! path = Some (Regular b))
  ∧ ∀ q, q ≠ path → q ≠ temp → t' !! q = t !! q.

Lemma replacing_refl path temp b t : replacing path temp b t t.
Proof. split; [by left|done]. Qed.

Lemma replacing_temp path temp b t t' x :
  path ≠ temp → replacing path temp b t t' →
  replacing path temp b t (partial_alter (λ _, x) temp t').
Proof.
  intros Hne [Hp Hq]. split.
  - by rewrite lookup_partial_alter_ne by done.
  - intros q H1 H2. rewrite lookup_partial_alter_ne by done. by apply Hq.
Qed.

Lemma delete_alter (temp : string) (t : tree) : delete temp t = partial_alter (λ _, None) temp t.
Proof. done. Qed.
Lemma insert_alter (temp : string) (n : node) (t : tree) :
  <[temp := n]> t = partial_alter (λ _, Some n) temp t.
Proof. done. Qed.

(** A replacement that ends well has the new content under the name and no
    leftover; and from the start to the end, a power cut or an error included,
    the name holds the old node or the whole new content, and nothing else of
    the filesystem but the temporary name has changed. *)
Lemma replace_safe path temp b t :
  path ≠ temp →
  safe (replace path temp b t)
    (λ _ t', t' !! path = Some (Regular b) ∧ t' !! temp = None)
    (replacing path temp b t).
Proof.
  intros Hne. unfold replace.
  set (mid := λ t' : tree, ∃ x, t' = partial_alter (λ _, x) temp t).
  assert (Hmid : ∀ t', mid t' → replacing path temp b t t').
  { intros t' [x ->]. apply replacing_temp; [done|apply replacing_refl]. }
  assert (Hself : mid t).
  { exists (t !! temp). symmetry. apply partial_alter_self. }
  apply safe_step with (R := λ _ t', t' = delete temp t) (C' := mid); [|exact Hmid|].
  { unfold remove_leftover.
    assert (Hd : mid (delete temp t)) by by exists None.
    destruct (t !! temp) as [[c| |]|]; [by apply safe_write|by apply safe_lift|by apply safe_write..]. }
  intros [] t1 ->.
  apply safe_step with (R := λ _ t', t' = <[temp := Regular []]> t) (C' := mid); [|exact Hmid|].
  { unfold create_new. rewrite lookup_delete_eq. apply safe_write; [by exists None|..].
    - exists (Some (Regular [])). by rewrite insert_delete_eq.
    - by rewrite insert_delete_eq. }
  intros [] t2 ->.
  apply safe_step with (R := λ _ t', t' = <[temp := Regular b]> t) (C' := mid); [|exact Hmid|].
  { split; [|split]; cbn.
    - intros [] _. by rewrite insert_insert_eq.
    - exists (Some (Regular b)). by rewrite insert_insert_eq.
    - intros t' [->|(c & ->)].
      + exists None. by rewrite delete_insert_eq.
      + exists (Some (Regular c)). by rewrite insert_insert_eq. }
  intros [] t3 ->. unfold rename. rewrite lookup_insert_eq, lookup_insert_ne by done.
  assert (Hb : mid (<[temp := Regular b]> t)) by by exists (Some (Regular b)).
  assert (Hdone : safe (swrite (λ t, <[path := Regular b]> (delete temp t)) (<[temp := Regular b]> t))
    (λ _ t', t' !! path = Some (Regular b) ∧ t' !! temp = None) (replacing path temp b t)).
  { apply safe_write; [by apply Hmid|..].
    - split; [right; apply lookup_insert_eq|]. intros q H1 H2.
      rewrite lookup_insert_ne, lookup_delete_ne, lookup_insert_ne by done. done.
    - split; [apply lookup_insert_eq|]. rewrite lookup_insert_ne by done. apply lookup_delete_eq. }
  destruct (t !! path) as [[c| |]|]; [exact Hdone|apply safe_lift; [by apply Hmid|done]|exact Hdone..].
Qed.

(** A name is never its own pending name when it does not end in one. *)
Definition not_pending (path : string) : Prop := path ≠ with_extension path "pending".

Lemma atomic_write_safe path b t :
  not_pending path →
  safe (atomic_write path b t)
    (λ _ t', t' !! path = Some (Regular b) ∧ t' !! with_extension path "pending" = None)
    (replacing path (with_extension path "pending") b t).
Proof.
  intros H. unfold atomic_write.
  destruct (t !! path) as [[c| |]|]; try (by apply replace_safe);
    (apply safe_lift; [apply replacing_refl|done]).
Qed.

(** * Properties *)

(** Replacing a file is atomic under a power cut: from the start of the
    write to its end, on an error and at any cut, the name holds the old file
    or the whole new content, never a torn one, and no other name but the
    temporary one changes; when it reports success the new content is there and
    no leftover remains. *)
Theorem replace_atomic path temp b t :
  path ≠ temp →
  let o := replace path temp b t in
  (o_result o = Ok tt → o_state o !! path = Some (Regular b) ∧ o_state o !! temp = None)
  ∧ ∀ t', durable o t' →
      (t' !! path = t !! path ∨ t' !! path = Some (Regular b))
      ∧ ∀ q, q ≠ path → q ≠ temp → t' !! q = t !! q.
Proof.
  intros Hne o. pose proof (replace_safe path temp b t Hne) as H.
  split; [exact (proj1 H tt)|exact (safe_durable _ _ _ H)].
Qed.

Lemma replace_atomic_witness :
  let t : tree := {["a/x.json" := Regular (str_bytes "old"); "a/x.pending" := Special]} in
  let o := replace "a/x.json" (with_extension "a/x.json" "pending") (str_bytes "new") t in
  o_result o = Ok tt ∧ o_state o !! "a/x.json" = Some (Regular (str_bytes "new"))
  ∧ o_state o !! "a/x.pending" = None.
Proof.
  intros t o. assert (H : o_result o = Ok tt) by (vm_compute; reflexivity).
  split; [exact H|].
  apply (replace_atomic "a/x.json" (with_extension "a/x.json" "pending") (str_bytes "new") t);
    [by apply (bool_decide_unpack _); vm_compute|exact H].
Defined.

End Files.
