(* ===== verification/Order.v ===== *)
(** Three-way comparisons: the interface a comparison function promises its
    callers (a total preorder), the combinators of [std::cmp::Ordering], and
    their instances. *)
From S2P Require Import Prelude.

(** [Ordering::then_with]. *)
Definition then_with (o : comparison) (k : comparison) : comparison :=
  match o with Eq => k | _ => o end.

(** [Ordering::is_ge] and [is_le]. *)
Definition is_ge (o : comparison) : bool := match o with Lt => false | _ => true end.
Definition is_le (o : comparison) : bool := match o with Gt => false | _ => true end.

(** What a comparison promises: it is antisymmetric, and "at most" is
    transitive. *)
Class TotalPreorder {A} (cmp : A → A → comparison) := {
  cmp_sym : ∀ a b, cmp b a = CompOpp (cmp a b);
  cmp_le_trans : ∀ a b c,
    is_le (cmp a b) = true → is_le (cmp b c) = true → is_le (cmp a c) = true;
}.

Section preorder.
Context {A} (cmp : A → A → comparison) `{!TotalPreorder cmp}.

Lemma cmp_refl a : cmp a a = Eq.
Proof. pose proof (cmp_sym a a). by destruct (cmp a a). Qed.

Lemma cmp_total a b : is_le (cmp a b) = true ∨ is_le (cmp b a) = true.
Proof. rewrite (cmp_sym a b). destruct (cmp a b); simpl; auto. Qed.

(** Equal elements compare alike with everything. *)
Lemma cmp_eq_l a b c : cmp a b = Eq → cmp a c = cmp b c.
Proof.
  intros E.
  assert (Hab : is_le (cmp a b) = true) by by rewrite E.
  assert (Hba : is_le (cmp b a) = true) by by rewrite cmp_sym, E.
  pose proof (cmp_le_trans a b c Hab) as H1.
  pose proof (cmp_le_trans b a c Hba) as H2.
  pose proof (λ H, cmp_le_trans c a b H Hab) as H3.
  pose proof (λ H, cmp_le_trans c b a H Hba) as H4.
  rewrite (cmp_sym a c), (cmp_sym b c) in *.
  destruct (cmp a c), (cmp b c); simpl in *; auto; discriminate (H1 eq_refl)
    || discriminate (H2 eq_refl) || discriminate (H3 eq_refl) || discriminate (H4 eq_refl).
Qed.

Lemma cmp_lt_trans a b c : cmp a b = Lt → is_le (cmp b c) = true → cmp a c = Lt.
Proof.
  intros H1 H2.
  assert (H : is_le (cmp a c) = true).
  { apply (cmp_le_trans a b c); [by rewrite H1|done]. }
  destruct (cmp a c) eqn:E; [|done|done].
  apply (cmp_eq_l a c b) in E. rewrite H1 in E. by rewrite (cmp_sym c b), <- E in H2.
Qed.
End preorder.

#[export] Instance Z_compare_preorder : TotalPreorder Z.compare.
Proof.
  split.
  - intros. apply Z.compare_antisym.
  - intros a b c. destruct (Z.compare_spec a b), (Z.compare_spec b c); simpl; try done;
      intros _ _; destruct (Z.compare_spec a c); simpl; done || lia.
Qed.

(** Comparing by a key. *)
#[export] Instance on_preorder {A B} (f : A → B) (cmp : B → B → comparison)
  `{!TotalPreorder cmp} : TotalPreorder (λ a b, cmp (f a) (f b)).
Proof. split; intros; [apply cmp_sym|by eapply cmp_le_trans]. Qed.

(** Comparing by one order, then by another. *)
#[export] Instance then_preorder {A} (c1 c2 : A → A → comparison)
  `{!TotalPreorder c1} `{!TotalPreorder c2} :
  TotalPreorder (λ a b, then_with (c1 a b) (c2 a b)).
Proof.
  split.
  - intros a b. rewrite (cmp_sym (cmp:=c1) a b), (cmp_sym (cmp:=c2) a b). by destruct (c1 a b).
  - intros a b c H1 H2.
    destruct (c1 a b) eqn:E1; simpl in *; [| |done].
    + rewrite (cmp_eq_l c1 a b c E1). destruct (c1 b c); simpl in *; [|done|done].
      by apply (cmp_le_trans a b c).
    + rewrite (cmp_lt_trans c1 a b c E1); [done|]. by destruct (c1 b c).
Qed.

(** Sequences of integers, lexicographically, the shorter one continued with
    zeros. *)
Definition hdz (k : list Z) : Z := match k with [] => 0 | x :: _ => x end.
Fixpoint zeros_lexz (l : list Z) : comparison :=
  match l with
  | [] => Eq
  | y :: l' => then_with (0 ?= y) (zeros_lexz l')
  end.
Fixpoint lexz (k l : list Z) : comparison :=
  match k with
  | [] => zeros_lexz l
  | x :: k' => then_with (x ?= hdz l) (lexz k' (tail l))
  end.

Lemma lexz_step k l : lexz k l = then_with (hdz k ?= hdz l) (lexz (tail k) (tail l)).
Proof. by destruct k, l. Qed.

Lemma lexz_sym k l : lexz l k = CompOpp (lexz k l).
Proof.
  revert l. induction k as [|x k IH]; intros l.
  - induction l as [|y l IHl]; [done|].
    cbn [lexz zeros_lexz hdz tail] in *. rewrite IHl, (Z.compare_antisym 0 y).
    by destruct (0 ?= y).
  - rewrite (lexz_step l), (lexz_step (x :: k)). cbn [hdz tail].
    rewrite IH, (Z.compare_antisym x (hdz l)). by destruct (x ?= hdz l).
Qed.

#[export] Instance lexz_preorder : TotalPreorder lexz.
Proof.
  split; [intros; apply lexz_sym|].
  intros a b c. remember (length a + length b + length c)%nat as n eqn:Hn.
  assert (Hle : (length a + length b + length c <= n)%nat) by lia. clear Hn.
  revert a b c Hle. induction n as [|n IH]; intros a b c Hle.
  { destruct a, b, c; simpl in *; done || lia. }
  destruct (decide (a = [] ∧ b = [] ∧ c = [])) as [(-> & -> & ->)|Hne]; [done|].
  rewrite (lexz_step a b), (lexz_step b c), (lexz_step a c).
  assert (Hlt : (length (tail a) + length (tail b) + length (tail c) <= n)%nat).
  { destruct a, b, c; simpl in *; first [lia | exfalso; by apply Hne]. }
  intros H1 H2. pose proof (IH (tail a) (tail b) (tail c) Hlt).
  destruct (Z.compare_spec (hdz a) (hdz b)) as [E1|E1|E1],
    (Z.compare_spec (hdz b) (hdz c)) as [E2|E2|E2];
    simpl in *; try done;
    destruct (Z.compare_spec (hdz a) (hdz c)); simpl; auto; lia.
Qed.

(** A trailing zero changes nothing. *)
Lemma lexz_pad_l l : lexz [0] l = lexz [] l.
Proof. by destruct l. Qed.
