(* ===== verification/Maps.v ===== *)
(** Maps from strings ([BTreeMap<String, _>], and [serde_json]'s [Map]): their
    bindings sorted by key in [str]'s order, with lookup, insertion and removal
    and the laws the components use. *)
From Stdlib Require Import Ascii Sorted.
From S2P Require Import Prelude Text Order.

(** * Definitions *)

(** [str]'s order, byte by byte. *)
Fixpoint str_cmp (a b : string) : comparison :=
  match a, b with
  | EmptyString, EmptyString => Eq
  | EmptyString, _ => Lt
  | _, EmptyString => Gt
  | String x a', String y b' => then_with (Z.compare (byte_val x) (byte_val y)) (str_cmp a' b')
  end.
Definition str_lt (a b : string) : bool := match str_cmp a b with Lt => true | _ => false end.

(** A [BTreeMap<String, _>]: its bindings, sorted by key. *)
Definition smap (A : Type) := list (string * A).
Fixpoint smap_get {A} (k : string) (m : smap A) : option A :=
  match m with
  | [] => None
  | (k', a) :: m' => if bool_decide (k' = k) then Some a else smap_get k m'
  end.

(** [BTreeMap::insert]; what it replaced is [smap_get] before. *)
Fixpoint smap_insert {A} (k : string) (a : A) (m : smap A) : smap A :=
  match m with
  | [] => [(k, a)]
  | (k', b) :: m' =>
      match str_cmp k k' with
      | Lt => (k, a) :: m
      | Eq => (k, a) :: m'
      | Gt => (k', b) :: smap_insert k a m'
      end
  end.
(** [BTreeMap::remove]. *)
Fixpoint smap_remove {A} (k : string) (m : smap A) : smap A :=
  match m with
  | [] => []
  | (k', b) :: m' => if bool_decide (k' = k) then smap_remove k m' else (k', b) :: smap_remove k m'
  end.

(** * Lemmas *)

Lemma str_cmp_eq a b : str_cmp a b = Eq ↔ a = b.
Proof.
  revert b. induction a as [|x a IH]; intros [|y b]; cbn; try done.
  unfold then_with. destruct (Z.compare_spec (byte_val x) (byte_val y)) as [E|E|E].
  - rewrite IH. split; [intros ->|intros [= _ ->]; done]. apply byte_val_inj in E as ->. done.
  - split; [done|]. intros [= -> _]. lia.
  - split; [done|]. intros [= -> _]. lia.
Qed.

Lemma str_lt_trans a b c : str_lt a b = true → str_lt b c = true → str_lt a c = true.
Proof.
  unfold str_lt. revert b c. induction a as [|x a IH]; intros [|y b] [|z c]; cbn; try done.
  unfold then_with.
  destruct (Z.compare_spec (byte_val x) (byte_val y)), (Z.compare_spec (byte_val y) (byte_val z)),
    (Z.compare_spec (byte_val x) (byte_val z)); try done; try lia. apply IH.
Qed.

Lemma str_lt_irrefl a : str_lt a a = false.
Proof. unfold str_lt. by rewrite (proj2 (str_cmp_eq a a)). Qed.

Lemma str_cmp_antisym a b : str_cmp b a = CompOpp (str_cmp a b).
Proof.
  revert b. induction a as [|x a IH]; intros [|y b]; cbn; [done..|]. unfold then_with.
  rewrite (Z.compare_antisym (byte_val x) (byte_val y)). destruct (byte_val x ?= byte_val y); cbn; [apply IH|done..].
Qed.

Lemma smap_get_insert {A} k k' (a : A) m :
  smap_get k' (smap_insert k a m) = if bool_decide (k = k') then Some a else smap_get k' m.
Proof.
  induction m as [|[k1 b] m IH]; cbn [smap_insert smap_get]; [done|].
  destruct (str_cmp k k1) eqn:E; cbn [smap_get].
  - apply str_cmp_eq in E as ->. by case_bool_decide.
  - done.
  - rewrite IH. destruct (decide (k1 = k')) as [->|H1]; [|by rewrite (bool_decide_eq_false_2 (k1 = k'))].
    rewrite (bool_decide_eq_true_2 (k' = k')) by done. case_bool_decide; [|done]. subst k'.
    assert (str_cmp k k = Eq) by by apply str_cmp_eq. congruence.
Qed.

Lemma smap_get_remove {A} k k' (m : smap A) :
  smap_get k' (smap_remove k m) = if bool_decide (k = k') then None else smap_get k' m.
Proof.
  induction m as [|[k1 b] m IH]; cbn [smap_remove smap_get]; [by case_bool_decide|].
  repeat (case_bool_decide; cbn [smap_get] in *); simplify_eq; rewrite ?IH; try done;
    repeat case_bool_decide; try done; congruence.
Qed.

Lemma smap_remove_absent {A} k (m : smap A) : smap_get k m = None → smap_remove k m = m.
Proof.
  induction m as [|[k1 b] m IH]; cbn; [done|]. case_bool_decide; [done|]. intros H1. by rewrite IH.
Qed.

(** The keys of a map are those it has a value for, each once when sorted. *)
Definition keys_sorted {A} (m : smap A) : Prop := StronglySorted (λ a b, str_lt a b = true) (map fst m).

Lemma smap_get_some {A} k (m : smap A) : is_Some (smap_get k m) ↔ k ∈ map fst m.
Proof.
  induction m as [|[k1 b] m IH]; cbn [smap_get map fst].
  - split; [by intros [? ?]|by intros ?%elem_of_nil].
  - rewrite elem_of_cons, <- IH. case_bool_decide; [subst; split; [by left|by eexists]|].
    split; [by right|intros [->|?]; done].
Qed.

Lemma insert_sorted {A} k (a : A) m : keys_sorted m → keys_sorted (smap_insert k a m).
Proof.
  unfold keys_sorted. intros Hm.
  assert (Hall : ∀ x, x ∈ map fst (smap_insert k a m) → x = k ∨ x ∈ map fst m).
  { intros x. rewrite <- !smap_get_some, smap_get_insert. case_bool_decide; [by left|by right]. }
  revert Hm Hall. induction m as [|[k1 b] m IH]; intros Hm Hall.
  { constructor; constructor. }
  cbn [map fst] in Hm. apply StronglySorted_inv in Hm as [Hm Hhead].
  cbn [smap_insert] in *. destruct (str_cmp k k1) eqn:E; cbn [map fst].
  - apply str_cmp_eq in E as ->. by constructor.
  - constructor; [by constructor|]. assert (Hlt : str_lt k k1 = true) by by unfold str_lt; rewrite E.
    constructor; [done|]. eapply Forall_impl; [exact Hhead|]. intros x Hx. by eapply str_lt_trans.
  - assert (Hsub : ∀ x, x ∈ map fst (smap_insert k a m) → x = k ∨ x ∈ map fst m).
    { intros x. rewrite <- !smap_get_some, smap_get_insert. case_bool_decide; [by left|by right]. }
    constructor; [by apply IH|]. rewrite Forall_forall in Hhead |- *. intros x Hx%Hsub. destruct Hx as [->|Hx]; [|by apply Hhead].
    unfold str_lt. by rewrite str_cmp_antisym, E.
Qed.

Lemma remove_sorted {A} k (m : smap A) : keys_sorted m → keys_sorted (smap_remove k m).
Proof.
  unfold keys_sorted. induction m as [|[k1 b] m IH]; cbn [smap_remove map fst]; [done|]. intros H.
  apply StronglySorted_inv in H as [Hm Hhead]. case_bool_decide; [by apply IH|]. cbn [map fst]. constructor; [by apply IH|].
  rewrite Forall_forall in Hhead |- *. intros x Hx. apply Hhead. apply smap_get_some. apply smap_get_some in Hx.
  rewrite smap_get_remove in Hx. case_bool_decide; [by destruct Hx|done].
Qed.

Lemma keys_NoDup {A} (m : smap A) : keys_sorted m → NoDup (map fst m).
Proof.
  unfold keys_sorted. induction m as [|[k a] m IH]; cbn [map fst]; [constructor|]. intros H.
  apply StronglySorted_inv in H as [Hm Hhead]. apply NoDup_cons. split; [|by apply IH].
  rewrite Forall_forall in Hhead. intros Hk. specialize (Hhead k Hk). by rewrite str_lt_irrefl in Hhead.
Qed.

(** A binding found or inserted is one of the map's. *)
Lemma smap_insert_in {A} k (a : A) m x : x ∈ smap_insert k a m → x = (k, a) ∨ x ∈ m.
Proof.
  induction m as [|[k' a'] m IH]; cbn [smap_insert]; [intros Hx%list_elem_of_singleton; by left|].
  rewrite (elem_of_cons m). destruct (str_cmp k k'); rewrite !elem_of_cons; [intuition|intuition|]. intros [Hx|Hx]; [by right; left|]. destruct (IH Hx); [by left|by right; right].
Qed.
Lemma smap_get_in {A} k (a : A) m : smap_get k m = Some a → (k, a) ∈ m.
Proof. induction m as [|[k' a'] m IH]; cbn [smap_get]; [done|]. case_bool_decide as E; [intros [= ->]; subst; by left|]. intros H. right. by apply IH. Qed.

Lemma remove_length {A} k a (m : smap A) :
  keys_sorted m → smap_get k m = Some a → len m = len (smap_remove k m) + 1.
Proof.
  intros Hs. assert (Hn := keys_NoDup m Hs). clear Hs. revert Hn. induction m as [|[k1 b] m IH]; cbn; [done|].
  rewrite NoDup_cons. intros [Hk Hn]. case_bool_decide.
  - subst. intros _. rewrite smap_remove_absent; [unfold len; cbn; lia|].
    apply eq_None_not_Some. intros Hx. by apply smap_get_some in Hx.
  - intros H1. specialize (IH Hn H1). unfold len in *. cbn [length] in *. lia.
Qed.
