(* ===== verification/DebianVersion.v ===== *)
(** Debian package versions and dpkg's order
    ([src/crates/mica-deploy/src/debian_version.rs]): the parser, the
    comparison as the code runs it, and the reference order it agrees with. *)
From Stdlib Require Import Ascii.
From S2P Require Import Prelude Text Order.

Module DebianVersion.

(** The longest version read. *)
Definition MAX_LEN : Z := 64.

(** A version's three parts. *)
Record Parts := { epoch : Z; upstream : string; revision : string }.

Definition upstream_byte (b : ascii) : bool := is_alphanumeric b || one_of ".+~-" b.
Definition revision_byte (b : ascii) : bool := is_alphanumeric b || one_of ".+~" b.

(** The epoch and what follows it. *)
Definition split_epoch (version : string) : option (Z * string) :=
  match split_once ":" version with
  | Some (e, rest) =>
      if is_empty e || negb (all_bytes is_digit e) || (9 <? str_len e) then None
      else (λ n, (n, rest)) <$> parse_u64 e
  | None => Some (0, version)
  end.

Definition parts (version : string) : option Parts :=
  if is_empty version || (MAX_LEN <? str_len version) then None
  else
    '(e, rest) ← split_epoch version;
    let '(up, rev) := default (rest, "") (rsplit_once "-" rest) in
    let upstream_ok := first_byte is_digit up && all_bytes upstream_byte up in
    let revision_ok :=
      (is_empty rev && negb (contains_byte "-" rest))
      || (negb (is_empty rev) && all_bytes revision_byte rev) in
    if upstream_ok && revision_ok
    then Some {| epoch := e; upstream := up; revision := rev |} else None.

(** Whether [version] is a Debian version this reader orders. *)
Definition valid (version : string) : bool := bool_decide (is_Some (parts version)).

(** dpkg's weight of one byte of a non-digit run: [~] before the end, the end
    before letters, letters before everything else. *)
Definition weight (b : option ascii) : Z :=
  match b with
  | None => 0
  | Some c =>
      if bool_decide (c = "~"%char) then -1
      else if is_alphabetic c then byte_val c
      else byte_val c + 256
  end.

Definition is_text (b : option ascii) : bool :=
  match b with Some c => negb (is_digit c) | None => false end.
Definition only_text (b : option ascii) : option ascii := if is_text b then b else None.

(** The inner loop: the non-digit runs of both, until they differ or both end.
    [inl] is the answer, [inr] what is left of both; [None] is out of fuel. *)
Fixpoint text_run (fuel : nat) (a b : bytes) : option (comparison + bytes * bytes) :=
  match fuel with
  | O => None
  | S f =>
      let x := head a in
      let y := head b in
      if negb (is_text x) && negb (is_text y) then Some (inr (a, b))
      else
        let wx := weight (only_text x) in
        let wy := weight (only_text y) in
        if negb (wx =? wy) then Some (inl (wx ?= wy))
        else text_run f (if is_text x then tail a else a) (if is_text y then tail b else b)
  end.

Fixpoint count_while (p : ascii → bool) (l : bytes) : nat :=
  match l with
  | [] => O
  | c :: l' => if p c then S (count_while p l') else O
  end.

(** [trim]: a digit run without its leading zeros. *)
Definition trim (s : bytes) : bytes :=
  drop (count_while (λ c, bool_decide (c = "0"%char)) s) s.

(** [[u8]]'s [Ord]. *)
Fixpoint bytes_cmp (a b : bytes) : comparison :=
  match a, b with
  | [], [] => Eq
  | [], _ :: _ => Lt
  | _ :: _, [] => Gt
  | x :: a', y :: b' => then_with (byte_val x ?= byte_val y) (bytes_cmp a' b')
  end.

(** The order of two digit runs. *)
Definition digits_cmp (da db : bytes) : comparison :=
  then_with (Nat.compare (length (trim da)) (length (trim db))) (bytes_cmp (trim da) (trim db)).

(** dpkg's [verrevcmp]: alternating non-digit and digit runs. *)
Fixpoint compare_part_go (fuel : nat) (a b : bytes) : option comparison :=
  match fuel with
  | O => None
  | S f =>
      if is_nil a && is_nil b then Some Eq
      else
        match text_run fuel a b with
        | None => None
        | Some (inl o) => Some o
        | Some (inr (a1, b1)) =>
            let na := count_while is_digit a1 in
            let nb := count_while is_digit b1 in
            match digits_cmp (take na a1) (take nb b1) with
            | Eq => compare_part_go f (drop na a1) (drop nb b1)
            | o => Some o
            end
        end
  end.

(** Fuel enough for both strings ([compare_part_go_total]). *)
Definition part_fuel (a b : bytes) : nat := S (length a + length b).
Definition compare_part (a b : string) : comparison :=
  let a := str_bytes a in
  let b := str_bytes b in
  default Eq (compare_part_go (part_fuel a b) a b).

(** [a] against [b] in dpkg's order; [None] when either is not a version. *)
Definition compare (a b : string) : option comparison :=
  a ← parts a;
  b ← parts b;
  Some (then_with (epoch a ?= epoch b)
         (then_with (compare_part (upstream a) (upstream b))
           (compare_part (revision a) (revision b)))).

(** * The reference order

    A string's key: the weights of a non-digit run, a zero for its end, the
    value of the digit run after it, and so on. Keys compare lexicographically,
    continued with zeros. *)
Fixpoint key (num : option Z) (s : bytes) : list Z :=
  match s with
  | [] => match num with None => [] | Some n => [n] end
  | c :: s' =>
      if is_digit c then
        match num with
        | None => 0 :: key (Some (digit_val c)) s'
        | Some n => key (Some (n * 10 + digit_val c)) s'
        end
      else
        match num with
        | None => weight (Some c) :: key None s'
        | Some n => n :: weight (Some c) :: key None s'
        end
  end.
Definition part_key (s : string) : list Z := key None (str_bytes s).

(** The value of a digit run. *)
Fixpoint digits_value (acc : Z) (ds : bytes) : Z :=
  match ds with
  | [] => acc
  | c :: ds' => digits_value (acc * 10 + digit_val c) ds'
  end.

(** The order the reference gives two parsed versions. *)
Definition reference_order (a b : Parts) : comparison :=
  then_with (epoch a ?= epoch b)
    (then_with (lexz (part_key (upstream a)) (part_key (upstream b)))
      (lexz (part_key (revision a)) (part_key (revision b)))).

(** * The comparison agrees with the reference order *)

Lemma weight_text c : is_digit c = false → weight (Some c) ≠ 0.
Proof.
  intros H. unfold weight. case_bool_decide; [done|].
  pose proof (byte_val_bound c). destruct (is_alphabetic c) eqn:E; [|lia].
  unfold is_alphabetic, is_lower, is_upper, in_range in E.
  change (byte_val "a") with 97 in E. change (byte_val "A") with 65 in E.
  apply orb_true_iff in E as [E|E]; bools; lia.
Qed.

(** The head of a key is the weight the code compares first. *)
Lemma key_head a : hdz (key None a) = weight (only_text (head a)).
Proof.
  destruct a as [|x a]; [done|]. unfold only_text. cbn [head is_text].
  simpl key. by destruct (is_digit x).
Qed.

Lemma key_tail a : is_text (head a) = true → tail (key None a) = key None (tail a).
Proof.
  destruct a as [|x a]; [done|]. cbn [head is_text]. intros H%negb_true_iff.
  simpl. by rewrite H.
Qed.

Lemma weight_only_text x : weight (only_text x) = 0 ↔ is_text x = false.
Proof.
  unfold only_text. destruct (is_text x) eqn:E; [|done].
  destruct x as [c|]; [|done]. split; [|done]. intros H.
  by apply negb_true_iff, weight_text in E.
Qed.

Lemma length_tail (a : bytes) : is_text (head a) = true → length a = S (length (tail a)).
Proof. by destruct a. Qed.

Lemma text_run_spec fuel a b :
  (length a + length b < fuel)%nat →
  (∃ o, text_run fuel a b = Some (inl o) ∧ lexz (key None a) (key None b) = o ∧ o ≠ Eq)
  ∨ (∃ a1 b1, text_run fuel a b = Some (inr (a1, b1))
       ∧ is_text (head a1) = false ∧ is_text (head b1) = false
       ∧ lexz (key None a) (key None b) = lexz (key None a1) (key None b1)
       ∧ (length a1 <= length a)%nat ∧ (length b1 <= length b)%nat).
Proof.
  revert a b. induction fuel as [|f IH]; intros a b Hf; [lia|].
  cbn [text_run]. rewrite lexz_step, !key_head.
  destruct (negb (is_text (head a)) && negb (is_text (head b))) eqn:Hend.
  { right. apply andb_true_iff in Hend as [Ha%negb_true_iff Hb%negb_true_iff].
    exists a, b. rewrite (lexz_step (key None a)), !key_head. done. }
  destruct (Z.eqb_spec (weight (only_text (head a))) (weight (only_text (head b)))) as [E|E];
    cbn [negb].
  - assert (is_text (head a) = true ∧ is_text (head b) = true) as [Ha Hb].
    { destruct (is_text (head a)) eqn:Ha, (is_text (head b)) eqn:Hb; try done.
      - apply weight_only_text in Hb. rewrite Hb in E. by rewrite weight_only_text, Ha in E.
      - apply weight_only_text in Ha. rewrite Ha in E. symmetry in E.
        by rewrite weight_only_text, Hb in E. }
    rewrite Ha, Hb, E, Z.compare_refl. cbn [then_with].
    rewrite !key_tail by done.
    pose proof (length_tail a Ha). pose proof (length_tail b Hb).
    destruct (IH (tail a) (tail b) ltac:(lia))
      as [?|(a1 & b1 & ? & ? & ? & ? & ? & ?)]; [by left|right].
    exists a1, b1. repeat split; done || lia.
  - left. eexists. split; [done|].
    by destruct (Z.compare_spec (weight (only_text (head a))) (weight (only_text (head b)))).
Qed.

(** ** Digit runs *)

Lemma digits_value_acc acc ds :
  digits_value acc ds = acc * 10 ^ len ds + digits_value 0 ds.
Proof.
  revert acc. induction ds as [|c ds IH]; intros acc; cbn [digits_value];
    [unfold len; simpl; lia|].
  rewrite (IH (acc * 10 + digit_val c)), (IH (0 * 10 + digit_val c)), len_cons, Z.pow_add_r by (unfold len; lia).
  change (10 ^ 1) with 10. lia.
Qed.

Lemma digits_value_bound ds :
  Forall (λ c, is_digit c = true) ds → 0 ≤ digits_value 0 ds < 10 ^ len ds.
Proof.
  induction ds as [|c ds IH]; intros H; [done|]. apply Forall_cons in H as [Hc H].
  apply is_digit_val in Hc. specialize (IH H). cbn [digits_value]. rewrite digits_value_acc.
  rewrite len_cons, Z.pow_add_r by (unfold len; lia). change (10 ^ 1) with 10. nia.
Qed.

Lemma trim_digits ds :
  Forall (λ c, is_digit c = true) ds → Forall (λ c, is_digit c = true) (trim ds).
Proof. apply Forall_drop. Qed.

Lemma trim_value ds : digits_value 0 (trim ds) = digits_value 0 ds.
Proof.
  unfold trim. induction ds as [|c ds IH]; [done|]. cbn [count_while].
  case_bool_decide as Hc; [|done]. subst. done.
Qed.

Lemma trim_head ds : head (trim ds) ≠ Some "0"%char.
Proof.
  unfold trim. induction ds as [|c ds IH]; [done|]. cbn [count_while].
  case_bool_decide; [done|]. simpl. congruence.
Qed.

Lemma digits_value_lower ds :
  Forall (λ c, is_digit c = true) ds → head ds ≠ Some "0"%char → ds ≠ [] →
  10 ^ (len ds - 1) ≤ digits_value 0 ds.
Proof.
  destruct ds as [|c ds]; [done|]. intros H Hc _. apply Forall_cons in H as [Hd H].
  apply is_digit_val in Hd. pose proof (digits_value_bound ds H).
  cbn [digits_value]. rewrite digits_value_acc, len_cons. replace (1 + len ds - 1) with (len ds) by lia.
  assert (digit_val c ≠ 0).
  { intros E. apply Hc. simpl. f_equal. by rewrite <- (digit_of_val c), E. }
  nia.
Qed.

Lemma bytes_cmp_digits da db :
  length da = length db →
  Forall (λ c, is_digit c = true) da → Forall (λ c, is_digit c = true) db →
  bytes_cmp da db = (digits_value 0 da ?= digits_value 0 db).
Proof.
  revert db. induction da as [|x da IH]; intros [|y db] Hl Ha Hb; try done.
  apply Forall_cons in Ha as [Hx Ha]. apply Forall_cons in Hb as [Hy Hb].
  cbn [bytes_cmp digits_value]. injection Hl as Hl. rewrite IH by done.
  rewrite (digits_value_acc (0 * 10 + digit_val x)), (digits_value_acc (0 * 10 + digit_val y)).
  pose proof (digits_value_bound da Ha). pose proof (digits_value_bound db Hb).
  apply is_digit_val in Hx, Hy. unfold len in *. rewrite Hl in *. unfold digit_val in *.
  destruct (Z.compare_spec (byte_val x) (byte_val y)); cbn [then_with]; symmetry.
  - rewrite H1. symmetry. destruct (Z.compare_spec (digits_value 0 da) (digits_value 0 db));
      symmetry; [apply Z.compare_eq_iff|apply Z.compare_lt_iff|apply Z.compare_gt_iff]; lia.
  - apply Z.compare_lt_iff. nia.
  - apply Z.compare_gt_iff. nia.
Qed.

Lemma digits_cmp_value da db :
  Forall (λ c, is_digit c = true) da → Forall (λ c, is_digit c = true) db →
  digits_cmp da db = (digits_value 0 da ?= digits_value 0 db).
Proof.
  intros Ha Hb. unfold digits_cmp.
  rewrite <- (trim_value da), <- (trim_value db).
  apply trim_digits in Ha, Hb.
  pose proof (digits_value_bound _ Ha) as Ba. pose proof (digits_value_bound _ Hb) as Bb.
  pose proof (digits_value_lower _ Ha (trim_head da)) as La.
  pose proof (digits_value_lower _ Hb (trim_head db)) as Lb.
  revert Ha Hb Ba Bb La Lb. generalize (trim da) (trim db). clear da db.
  intros da db Ha Hb Ba Bb La Lb. unfold len in *.
  destruct (Nat.compare_spec (length da) (length db)) as [E|E|E]; cbn [then_with].
  - by apply bytes_cmp_digits.
  - symmetry. apply Z.compare_lt_iff.
    assert (db ≠ []) as Hne%Lb by (by intros ->; simpl in E; lia).
    pose proof (Z.pow_le_mono_r 10 (Z.of_nat (length da)) (Z.of_nat (length db) - 1)
                  ltac:(lia) ltac:(lia)). lia.
  - symmetry. apply Z.compare_gt_iff.
    assert (da ≠ []) as Hne%La by (by intros ->; simpl in E; lia).
    pose proof (Z.pow_le_mono_r 10 (Z.of_nat (length db)) (Z.of_nat (length da) - 1)
                  ltac:(lia) ltac:(lia)). lia.
Qed.

Lemma take_count_digits s :
  Forall (λ c, is_digit c = true) (take (count_while is_digit s) s).
Proof.
  induction s as [|c s IH]; [constructor|]. cbn [count_while].
  destruct (is_digit c) eqn:E; [|constructor]. simpl. by constructor.
Qed.

Lemma key_num n s :
  key (Some n) s =
  digits_value n (take (count_while is_digit s) s) :: key None (drop (count_while is_digit s) s).
Proof.
  revert n. induction s as [|c s IH]; intros n; [done|]. simpl.
  destruct (is_digit c) eqn:E; simpl; [by rewrite IH|]. by rewrite E.
Qed.

(** What a key is where no text begins: a zero, the digit run's value, the
    rest, up to trailing zeros. *)
Lemma key_no_text s :
  is_text (head s) = false →
  ∀ l, lexz (key None s) l
       = lexz (0 :: digits_value 0 (take (count_while is_digit s) s)
                 :: key None (drop (count_while is_digit s) s)) l.
Proof.
  intros H l. destruct s as [|c s].
  - cbn. by destruct l as [|x [|y l]].
  - cbn [head is_text] in H. apply negb_false_iff in H.
    cbn [count_while]. simpl key at 1. rewrite H. simpl. by rewrite key_num.
Qed.

Lemma key_no_text_both a b :
  is_text (head a) = false → is_text (head b) = false →
  lexz (key None a) (key None b)
  = then_with (digits_value 0 (take (count_while is_digit a) a)
               ?= digits_value 0 (take (count_while is_digit b) b))
      (lexz (key None (drop (count_while is_digit a) a))
            (key None (drop (count_while is_digit b) b))).
Proof.
  intros Ha Hb. rewrite key_no_text by done.
  rewrite lexz_sym, key_no_text by done. rewrite <- lexz_sym. done.
Qed.

Lemma drop_count_progress s :
  is_text (head s) = false → s ≠ [] →
  (length (drop (count_while is_digit s) s) < length s)%nat.
Proof.
  destruct s as [|c s]; [done|]. cbn [head is_text]. intros H%negb_false_iff _.
  cbn [count_while]. rewrite H. simpl. rewrite length_drop. lia.
Qed.

(** The loop ends within its fuel, and answers as the reference order does. *)
Lemma compare_part_go_spec fuel a b :
  (length a + length b < fuel)%nat →
  compare_part_go fuel a b = Some (lexz (key None a) (key None b)).
Proof.
  revert a b. induction fuel as [|f IH]; intros a b Hf; [lia|].
  cbn [compare_part_go].
  destruct (is_nil a && is_nil b) eqn:Hend.
  { by apply andb_true_iff in Hend as [->%is_nil_spec ->%is_nil_spec]. }
  destruct (text_run_spec (S f) a b Hf)
    as [(o & -> & <- & _)|(a1 & b1 & -> & Ha & Hb & -> & Hla & Hlb)]; [done|].
  rewrite key_no_text_both, digits_cmp_value by (done || apply take_count_digits).
  destruct (_ ?= _) eqn:E; cbn [then_with]; [|done|done].
  destruct (decide (a1 = [] ∧ b1 = [])) as [[-> ->]|Hne].
  { apply IH. destruct a, b; cbn [length drop count_while] in *; done || lia. }
  apply IH.
  pose proof (length_drop a1 (count_while is_digit a1)).
  pose proof (length_drop b1 (count_while is_digit b1)).
  destruct (decide (a1 = [])) as [->|Hna].
  - assert (b1 ≠ []) as Hnb by (intros ->; by apply Hne).
    pose proof (drop_count_progress b1 Hb Hnb). lia.
  - pose proof (drop_count_progress a1 Ha Hna). lia.
Qed.

Lemma compare_part_key a b : compare_part a b = lexz (part_key a) (part_key b).
Proof.
  unfold compare_part, part_key. rewrite compare_part_go_spec; [done|]. unfold part_fuel. lia.
Qed.

#[export] Instance reference_order_preorder : TotalPreorder reference_order.
Proof.
  unfold reference_order. apply then_preorder.
  - apply (on_preorder epoch Z.compare).
  - apply then_preorder.
    + apply (on_preorder (λ p, part_key (upstream p)) lexz).
    + apply (on_preorder (λ p, part_key (revision p)) lexz).
Qed.

Lemma compare_parts_of a b :
  compare a b = (pa ← parts a; pb ← parts b; Some (reference_order pa pb)).
Proof.
  unfold compare, reference_order. destruct (parts a) as [pa|]; [|done].
  destruct (parts b) as [pb|]; [|done]. cbn [mbind option_bind].
  by rewrite <- !compare_part_key.
Qed.

Lemma compare_some a b o :
  compare a b = Some o →
  ∃ pa pb, parts a = Some pa ∧ parts b = Some pb ∧ o = reference_order pa pb.
Proof.
  rewrite compare_parts_of. intros (pa & Ha & (pb & Hb & [= <-])%bind_Some)%bind_Some. eauto.
Qed.

(** * Properties *)

(** C34: dpkg's comparison as the code runs it (alternating text and digit runs,
    leading zeros trimmed, digit runs by length and then bytewise) always ends
    within its fuel, and its answer is the reference order: epochs, then the
    zero-continued lexicographic order of the two parts' weight-and-number
    keys. *)
Theorem compare_reference (a b : string) :
  compare_part_go (part_fuel (str_bytes a) (str_bytes b)) (str_bytes a) (str_bytes b)
    = Some (lexz (part_key a) (part_key b))
  ∧ compare a b = (pa ← parts a; pb ← parts b; Some (reference_order pa pb)).
Proof.
  split; [|apply compare_parts_of]. apply compare_part_go_spec. unfold part_fuel. lia.
Qed.

(** On versions it reads, the comparison is a total preorder: every valid
    version equals itself, swapping the arguments reverses the answer, and "at
    most" is transitive. A version constraint therefore never accepts a version
    below one it refuses as too old. *)
Theorem compare_total_preorder (a b c : string) (o1 o2 : comparison) :
  compare a b = Some o1 → compare b c = Some o2 →
  compare a a = Some Eq ∧ compare b a = Some (CompOpp o1)
  ∧ (is_le o1 = true → is_le o2 = true →
     ∃ o, compare a c = Some o ∧ is_le o = true).
Proof.
  intros (pa & pb & Ha & Hb & ->)%compare_some (pb' & pc & Hb' & Hc & ->)%compare_some.
  simplify_eq. rewrite !compare_parts_of, Ha, Hb, Hc. simpl. split_and!.
  - by rewrite cmp_refl by apply _.
  - by rewrite cmp_sym.
  - intros H1 H2. eexists. split; [done|]. by eapply cmp_le_trans.
Qed.

Lemma compare_total_preorder_witness :
  compare "6.1.4~rc1-1" "6.1.4-1" = Some Lt ∧ compare "6.1.4-1" "6.1.10-1" = Some Lt
  ∧ ∃ o, compare "6.1.4~rc1-1" "6.1.10-1" = Some o ∧ is_le o = true.
Proof.
  split; [vm_compute; reflexivity|]. split; [vm_compute; reflexivity|].
  refine (proj2 (proj2 (compare_total_preorder "6.1.4~rc1-1" "6.1.4-1" "6.1.10-1" Lt Lt _ _)) _ _);
    vm_compute; reflexivity.
Defined.

(** What the tests of [debian_version.rs] fix. *)
Example compare_dpkg_cases :
  map (λ '(a, b), compare a b)
    [("6.1.4-5", "6.1.4-7"); ("6.1.4-7", "6.1.10-1"); ("6.1.4-1", "6.1.4+b1-1");
     ("6.1.4", "6.1.4a"); ("0.0.16-1", "1:0.0.1-1"); ("1.0-1", "1.0-1.1");
     ("1.0~~-1", "1.0~-1"); ("6.1.04-7", "6.1.4-7"); ("0:1.0", "1.0"); ("1.0-", "1.0")]
  = [Some Lt; Some Lt; Some Lt; Some Lt; Some Lt; Some Lt; Some Lt; Some Eq; Some Eq; None].
Proof. vm_compute. reflexivity. Qed.

End DebianVersion.
