(* ===== verification/Boot.v ===== *)
(** Boot selection by name ([src/crates/mica-deploy/src/boot.rs] and
    [deployments/io.rs]): boot entry names and deployment ids, the FIT
    selection property, EFI variables, verity mapping names and providers, and
    the check that a core composition never overrides a file. *)
From Stdlib Require Import Ascii.
From S2P Require Import Prelude Text.

Module Boot.

(** The boot backend, as the signed boot policy's [board.boot] names it. *)
Inductive BootKind := Uefi | UbootFit.
#[export] Instance BootKind_eq : EqDecision BootKind.
Proof. solve_decision. Defined.

(** * Boot entries and deployment ids *)

Definition hex_id (id : string) : bool := (str_len id =? 64) && all_bytes is_hex_lower id.

(** The trial counters a UEFI entry name carries: launches left and made. *)
Definition counters : list string := ["3"; "2-1"; "1-2"; "0-3"].

Definition stem_id (stem : string) : string * option string :=
  match split_once "+" stem with
  | Some (id, count) => (id, Some count)
  | None => (stem, None)
  end.

(** The deployment a boot entry [mica-<id>[+<counter>].conf] boots. *)
Definition selected_entry (entry : string) : result string :=
  match strip_prefix "mica-" entry ≫= strip_suffix ".conf" with
  | None => Err (Msg "invalid deployment entry")
  | Some stem =>
      let '(id, counter) := stem_id stem in
      ensure hex_id id else "invalid deployment ID" in
      match counter with
      | Some count =>
          ensure bool_decide (count ∈ counters)
            else "invalid deployment trial counter" in Ok id
      | None => Ok id
      end
  end.

(** [deployments::valid_id]. *)
Definition entry_name (id : string) : string := "mica-" +:+ id +:+ ".conf".
Definition valid_id (id : string) : result unit :=
  let? selected := selected_entry (entry_name id) in
  ensure bool_decide (selected = id) else "invalid ID" in
  Ok tt.
Definition id_ok (id : string) : bool := is_ok (valid_id id).

(** The deployment a FIT loader selected: 64 bytes and a NUL. *)
Definition fit_selected (property : bytes) : result string :=
  ensure (len property =? 65) && bool_decide (property !! 64%nat = Some Ascii.zero)
    else "invalid FIT selection property" in
  let text := take 64 property in
  ensure valid_utf8 text else "invalid utf-8" in
  let id := bytes_str text in
  let? _ := valid_id id in
  Ok id.

(** * EFI variables *)

Fixpoint words_le (b : bytes) : list Z :=
  match b with
  | lo :: hi :: b' => from_le [lo; hi] :: words_le b'
  | _ => []
  end.

(** [String::from_utf16]: surrogate pairs joined, a lone surrogate refused. *)
Fixpoint from_utf16 (words : list Z) : option (list Z) :=
  match words with
  | [] => Some []
  | w :: rest =>
      if (0xD800 <=? w) && (w <=? 0xDBFF) then
        match rest with
        | w2 :: rest' =>
            if (0xDC00 <=? w2) && (w2 <=? 0xDFFF) then
              cons (0x10000 + (w - 0xD800) * 1024 + (w2 - 0xDC00)) <$> from_utf16 rest'
            else None
        | [] => None
        end
      else if (0xDC00 <=? w) && (w <=? 0xDFFF) then None
      else cons w <$> from_utf16 rest
  end.

(** A [String]'s bytes, from its scalar values. *)
Definition utf8_scalar (z : Z) : bytes :=
  if z <? 0x80 then [val_byte z]
  else if z <? 0x800 then [val_byte (192 + z / 64); val_byte (128 + z mod 64)]
  else if z <? 0x10000 then
    [val_byte (224 + z / 4096); val_byte (128 + z / 64 mod 64); val_byte (128 + z mod 64)]
  else
    [val_byte (240 + z / 262144); val_byte (128 + z / 4096 mod 64);
     val_byte (128 + z / 64 mod 64); val_byte (128 + z mod 64)].
Definition utf8_string (scalars : list Z) : string := bytes_str (concat (map utf8_scalar scalars)).

Definition utf16_variable (b : bytes) : result string :=
  ensure negb ((len b <? 6) || (512 <? len b) || negb (len b mod 2 =? 0))
    else "invalid EFI variable length" in
  let words := words_le (drop 4 b) in
  let text := take (length words - 1) words in
  ensure bool_decide (last words = Some 0) && negb (bool_decide (0 ∈ text))
    else "invalid EFI variable termination" in
  utf8_string <$> with_context (from_utf16 text) "invalid EFI UTF-16".

(** * Verity mappings and their providers *)

Definition CORE_MAPPING_PREFIX : string := "mica-core-".

(** Whether [name] is a verity mapping MICA's startup creates and its shutdown
    releases. *)
Definition mica_mapping (name : string) : bool :=
  bool_decide (name = "mica-root") || bool_decide (name = "mica-support")
  || match strip_prefix CORE_MAPPING_PREFIX name with
     | Some package =>
         negb (is_empty package) && (str_len package <=? 100)
         && first_byte is_alphanumeric package
         && all_bytes (λ b, is_alphanumeric b || one_of "._+-" b) package
     | None => false
     end.

(** The block majors a verity mapping may sit on, from [/proc/devices]: 7, and
    every [ubiblock] line's of the block section. *)
Fixpoint ubiblock_majors (ls : list string) : result (list Z) :=
  match ls with
  | [] => Ok []
  | line :: ls' =>
      match split_once " " (trim_ws line) with
      | Some (major, "ubiblock") =>
          let? m := with_context (parse_u32 major) "invalid digit found in string" in
          let? ms := ubiblock_majors ls' in
          Ok (m :: ms)
      | _ => ubiblock_majors ls'
      end
  end.
Definition verity_provider_majors (devices : string) : result (list Z) :=
  let block := match split_once_str "Block devices:" devices with
               | Some (_, block) => block
               | None => ""
               end in
  cons 7 <$> ubiblock_majors (lines block).

(** [known_provider] of [boot/startup/verity.rs]: the block devices a verity
    mapping is opened on. *)
Definition device_digits (s : string) : bool :=
  negb (is_empty s) && (str_len s <=? 10) && all_bytes is_digit s.

Definition known_provider (name : string) (major : Z) (providers : list Z) : bool :=
  match strip_prefix "loop" name with
  | Some index => device_digits index && (major =? 7)
  | None =>
      match strip_prefix "ubiblock" name ≫= split_once "_" with
      | Some (device, volume) => device_digits device && device_digits volume
      | None => false
      end
      && negb (major =? 7) && bool_decide (major ∈ providers)
  end.

(** Whether the root runs OpenRC, from its [product.conf]. *)
Definition QUOTE : ascii := Ascii.ascii_of_nat 34.
Fixpoint find_init (ls : list string) : option string :=
  match ls with
  | [] => None
  | line :: ls' =>
      match strip_prefix "INIT=" (trim_ws line) with
      | Some value => Some value
      | None => find_init ls'
      end
  end.
Definition openrc_root (product : doc bytes) : result bool :=
  match product with
  | Absent => Ok false
  | Unreadable => Err (Msg "product file cannot be read")
  | Holds text =>
      ensure valid_utf8 text else "invalid utf-8" in
      Ok (bool_decide
            ((λ value, trim_matches (λ c, bool_decide (c = QUOTE)) (trim_ws value))
               <$> find_init (lines (bytes_str text)) = Some "openrc"))
  end.

(** The ELF machine of the exit ramdisk's executable. *)
Definition exitrd_machine (arch : string) : result Z :=
  if bool_decide (arch = "x86_64") then Ok 62
  else if bool_decide (arch = "aarch64") then Ok 183
  else Err (Msg "no exit ramdisk on this architecture").

(** A persistent machine identity: 32 lower-case hex digits, not all zero. *)
Definition machine_id_valid (id : string) : bool :=
  (str_len id =? 32) && all_bytes is_hex_lower id
  && negb (all_bytes (λ b, bool_decide (b = "0"%char)) id).

(** * The composition check

    A path is the list of its components, the last first. The root answers
    whether it holds a path, and whether as a directory; a component's layer
    lists each of its directories. Both are the mounted filesystems. *)
Definition path := list string.
Definition listing := path → list (string * bool).

Definition MAX_ENTRIES : Z := 200000.

(** One directory of a component, entry by entry: the entry count, the paths
    claimed so far, and the directories still to read (a stack). *)
Definition walk_state : Type := Z * gmap path bool * list path.

Definition check_entry (root : path → option bool) (relative : path)
    (st : walk_state) (entry : string * bool) : result walk_state :=
  let '(entries, claimed, pending) := st in
  let '(name, directory) := entry in
  let entries := entries + 1 in
  ensure entries <=? MAX_ENTRIES else "core composition exceeds its entry bound" in
  let p := name :: relative in
  ensure match root p with Some root_directory => directory && root_directory | None => true end
    else "core component would shadow the root" in
  let pending' := if directory then p :: pending else pending in
  match claimed !! p with
  | Some other_directory =>
      ensure directory && other_directory else "two core components ship one path" in
      Ok (entries, claimed, pending')
  | None => Ok (entries, <[p := directory]> claimed, pending')
  end.

Fixpoint check_entries (root : path → option bool) (relative : path)
    (es : list (string * bool)) (st : walk_state) : result walk_state :=
  match es with
  | [] => Ok st
  | e :: es' =>
      let? st := check_entry root relative st e in
      check_entries root relative es' st
  end.

(** The walk of one component. Out of fuel is [None]. *)
Fixpoint walk (fuel : nat) (root : path → option bool) (layer : listing)
    (st : walk_state) : option (result (Z * gmap path bool)) :=
  let '(entries, claimed, pending) := st in
  match pending with
  | [] => Some (Ok (entries, claimed))
  | relative :: pending' =>
      match fuel with
      | O => None
      | S f =>
          match check_entries root relative (layer relative) (entries, claimed, pending') with
          | Err e => Some (Err e)
          | Ok st => walk f root layer st
          end
      end
  end.

(** Each directory read was an entry, so the entry bound bounds the walk
    ([walk_total]). *)
Definition walk_fuel : nat := Z.to_nat (MAX_ENTRIES + 2).

Definition top_level (layer : listing) : bool :=
  forallb (λ '(name, _), bool_decide (name = "usr") || bool_decide (name = "etc")) (layer []).

Fixpoint check_components (root : path → option bool) (layers : list listing)
    (entries : Z) (claimed : gmap path bool) : option (result (Z * gmap path bool)) :=
  match layers with
  | [] => Some (Ok (entries, claimed))
  | layer :: layers' =>
      if top_level layer then
        match walk walk_fuel root layer (entries, claimed, [[]]) with
        | None => None
        | Some (Err e) => Some (Err e)
        | Some (Ok (entries, claimed)) => check_components root layers' entries claimed
        end
      else Some (Err (Msg "core component holds a path outside /usr and /etc"))
  end.

Definition check_composition (root : path → option bool) (layers : list listing) :
    option (result unit) :=
  match check_components root layers 0 ∅ with
  | None => None
  | Some r => Some (let? _ := r in Ok tt)
  end.

(** What a layer holds, by path: an entry of one of its reachable
    directories. *)
Inductive holds (layer : listing) (from : path) : path → bool → Prop :=
| holds_entry name directory :
    (name, directory) ∈ layer from → holds layer from (name :: from) directory
| holds_below name p directory :
    (name, true) ∈ layer from → holds layer (name :: from) p directory →
    holds layer from p directory.

(** * Lemmas *)

Lemma split_hex_id id : hex_id id = true → contains_byte "+" id = false.
Proof.
  intros [_ H]%andb_true_iff. by eapply all_bytes_not_contains.
Qed.

Lemma stem_of_entry stem :
  strip_prefix "mica-" ("mica-" +:+ stem +:+ ".conf") ≫= strip_suffix ".conf" = Some stem.
Proof. rewrite strip_prefix_app. simpl. apply strip_suffix_app. Qed.

Lemma valid_id_hex id : valid_id id = Ok tt ↔ hex_id id = true.
Proof.
  unfold valid_id, selected_entry, entry_name. rewrite stem_of_entry.
  unfold stem_id. destruct (split_once "+" id) as [[i count]|] eqn:Hs.
  - pose proof Hs as [E _]%split_once_spec.
    destruct (hex_id i) eqn:Hi; simpl.
    + split.
      * intros H. exfalso.
        assert (i ≠ id).
        { intros ->. apply (f_equal str_len) in E. rewrite str_len_app, str_len_cons in E.
          pose proof (str_len_nonneg count). lia. }
        case_bool_decide; simpl in H; [|done]. by case_bool_decide.
      * intros H%split_hex_id. apply split_once_none in H. congruence.
    + split; [done|]. intros H%split_hex_id. apply split_once_none in H. congruence.
  - destruct (hex_id id); simpl; [|done]. by rewrite bool_decide_eq_true_2.
Qed.

Lemma id_ok_hex id : id_ok id = hex_id id.
Proof.
  unfold id_ok. destruct (valid_id id) as [[]|e] eqn:E; simpl.
  - symmetry. by apply valid_id_hex.
  - destruct (hex_id id) eqn:H; [|done]. apply valid_id_hex in H. congruence.
Qed.

Lemma hex_id_len id : hex_id id = true → str_len id = 64.
Proof. unfold hex_id. intros H. by bools. Qed.

Lemma hex_id_class id p :
  (∀ c, is_hex_lower c = true → p c = true) → hex_id id = true → all_bytes p id = true.
Proof. intros Hp [_ H]%andb_true_iff. by eapply all_bytes_impl. Qed.

(** A byte outside the lower-case hex digits is in no id. *)
Lemma hex_id_free c id : hex_id id = true → is_hex_lower c = false → contains_byte c id = false.
Proof. intros [_ H]%andb_true_iff Hc. by eapply all_bytes_not_contains. Qed.

Lemma counters_spec count : count ∈ counters ↔ count = "3" ∨ count = "2-1" ∨ count = "1-2" ∨ count = "0-3".
Proof. unfold counters. rewrite !elem_of_cons, elem_of_nil. tauto. Qed.

Lemma selected_entry_spec (entry id : string) :
  selected_entry entry = Ok id ↔
    hex_id id = true
    ∧ (entry = "mica-" +:+ id +:+ ".conf"
       ∨ ∃ count, count ∈ counters ∧ entry = "mica-" +:+ (id +:+ "+" +:+ count) +:+ ".conf").
Proof.
  unfold selected_entry. split.
  - destruct (strip_prefix "mica-" entry) as [rest|] eqn:Hp; simpl; [|done].
    destruct (strip_suffix ".conf" rest) as [stem|] eqn:Hs; [|done].
    apply strip_prefix_spec in Hp as ->. apply strip_suffix_spec in Hs as ->.
    unfold stem_id. destruct (split_once "+" stem) as [[i count]|] eqn:Hc.
    + destruct (hex_id i) eqn:Hi; [|done]. case_bool_decide as Hcount; [|done].
      intros [= <-]. split; [done|]. right. exists count. split; [done|].
      by apply split_once_spec in Hc as [-> _].
    + destruct (hex_id stem) eqn:Hi; [|done]. intros [= <-]. auto.
  - intros (Hid & [->|(count & Hcount & ->)]); rewrite stem_of_entry; unfold stem_id.
    + rewrite (proj2 (split_once_none "+" id)) by by apply split_hex_id. by rewrite Hid.
    + rewrite (proj2 (split_once_spec "+" _ id count)) by (split; [done|by apply split_hex_id]).
      by rewrite Hid, bool_decide_eq_true_2.
Qed.

(** ** The composition walk *)

Section walk.
Context (root : path → option bool) (layer : listing).

(** What an accepted entry is: it shadows nothing of the root, and it is a
    directory on both sides wherever it was claimed before. *)
Definition entry_ok (claimed : gmap path bool) (p : path) (directory : bool) : Prop :=
  (∀ d, root p = Some d → d = true ∧ directory = true)
  ∧ (∃ d, claimed !! p = Some d ∧ (d = directory ∨ d = true ∧ directory = true)).

Lemma check_entry_ok relative entries claimed pending name directory entries' claimed' pending' :
  check_entry root relative (entries, claimed, pending) (name, directory)
    = Ok (entries', claimed', pending') →
  entries' = entries + 1 ∧ entries' ≤ MAX_ENTRIES
  ∧ claimed ⊆ claimed'
  ∧ (∀ d, claimed !! (name :: relative) = Some d → d = true ∧ directory = true)
  ∧ entry_ok claimed' (name :: relative) directory
  ∧ pending' = if directory then (name :: relative) :: pending else pending.
Proof.
  unfold check_entry. intros H. cbv zeta in H.
  destruct (entries + 1 <=? MAX_ENTRIES) eqn:E; [|done].
  destruct (match root (name :: relative) with
            | Some root_directory => directory && root_directory
            | None => true
            end) eqn:Hr; [|done].
  assert (Hroot : ∀ d, root (name :: relative) = Some d → d = true ∧ directory = true).
  { intros d Hd. rewrite Hd in Hr. by apply andb_true_iff in Hr as [-> ->]. }
  bools. destruct (claimed !! (name :: relative)) as [d|] eqn:Hc.
  - destruct (directory && d) eqn:Hd; [|done]. apply andb_true_iff in Hd as [-> ->].
    injection H as <- <- <-. split_and!; try done.
    + intros d [= <-]. done.
    + split; [done|]. eauto.
  - injection H as <- <- <-. split_and!; try done.
    + by apply insert_subseteq.
    + split; [done|]. exists directory. rewrite lookup_insert_eq. auto.
Qed.

Lemma entry_ok_mono claimed claimed' p d :
  claimed ⊆ claimed' → entry_ok claimed p d → entry_ok claimed' p d.
Proof.
  intros Hsub [Hr (d' & Hc & Hd)]. split; [done|]. exists d'.
  split; [by eapply lookup_weaken|done].
Qed.

Lemma check_entries_ok relative es entries claimed pending entries' claimed' pending' :
  check_entries root relative es (entries, claimed, pending)
    = Ok (entries', claimed', pending') →
  entries' = entries + len es ∧ (es = [] ∨ entries' ≤ MAX_ENTRIES)
  ∧ claimed ⊆ claimed'
  ∧ (∀ name d, (name, d) ∈ es →
       entry_ok claimed' (name :: relative) d ∧ (d = true → name :: relative ∈ pending')
       ∧ (∀ d', claimed !! (name :: relative) = Some d' → d' = true ∧ d = true))
  ∧ (∀ p, p ∈ pending → p ∈ pending')
  ∧ len pending' ≤ len pending + len es.
Proof.
  revert entries claimed pending.
  induction es as [|[name d] es IH]; intros entries claimed pending H;
    cbn [check_entries] in H.
  { injection H as <- <- <-. change (len []) with 0.
    split_and!; [lia|by left|done|set_solver|done|lia]. }
  destruct (check_entry root relative (entries, claimed, pending) (name, d))
    as [[[en1 cl1] pe1]|e] eqn:E; simpl in H; [|done].
  apply check_entry_ok in E as (-> & Hmax & Hsub & Hfree & Hok & ->).
  apply IH in H as (-> & Hbound & Hsub' & Hin & Hpend & Hlen).
  rewrite len_cons. split_and!.
  - lia.
  - right. destruct Hbound as [->|?]; [unfold len; simpl; lia|lia].
  - by etrans.
  - intros name' d' [[= -> ->]|H]%elem_of_cons.
    + split_and!; [by eapply entry_ok_mono|intros ->; apply Hpend; set_solver|done].
    + apply Hin in H as (? & ? & Hf). split_and!; [done..|].
      intros d'' Hd''. apply Hf. by eapply lookup_weaken.
  - intros p Hp. apply Hpend. destruct d; set_solver.
  - destruct d; rewrite ?len_cons in Hlen; lia.
Qed.

(** The walk ends: every directory it reads was counted as an entry. *)
Lemma walk_total fuel entries claimed pending :
  0 ≤ entries ≤ MAX_ENTRIES →
  (MAX_ENTRIES - entries) + len pending ≤ Z.of_nat fuel →
  ∃ r, walk fuel root layer (entries, claimed, pending) = Some r
     ∧ ∀ en' cl', r = Ok (en', cl') → 0 ≤ en' ≤ MAX_ENTRIES.
Proof.
  revert entries claimed pending.
  induction fuel as [|f IH]; intros entries claimed pending Hle Hf;
    destruct pending as [|relative pending]; cbn [walk].
  - eexists. split; [done|]. by intros en' cl' [= <- <-].
  - exfalso. rewrite len_cons in Hf. pose proof (len_nonneg pending). lia.
  - eexists. split; [done|]. by intros en' cl' [= <- <-].
  - destruct (check_entries root relative (layer relative) (entries, claimed, pending))
      as [[[en1 cl1] pe1]|e] eqn:E; [|by eexists].
    apply check_entries_ok in E as (-> & Hmax & _ & _ & _ & Hlen).
    rewrite len_cons in Hf. pose proof (len_nonneg (layer relative)).
    apply IH.
    + destruct Hmax as [->|?]; [change (len []) with 0|]; lia.
    + lia.
Qed.

(** A walk that accepts has checked everything below its directories. *)
Lemma walk_ok fuel entries claimed pending entries' claimed' :
  walk fuel root layer (entries, claimed, pending) = Some (Ok (entries', claimed')) →
  claimed ⊆ claimed'
  ∧ ∀ from p d, from ∈ pending → holds layer from p d →
      entry_ok claimed' p d
      ∧ ∀ d', claimed !! p = Some d' → d' = true ∧ d = true.
Proof.
  revert entries claimed pending.
  induction fuel as [|f IH]; intros entries claimed pending H;
    destruct pending as [|relative pending]; cbn [walk] in H; try done;
    try (injection H as <- <-; split; [done|]; set_solver).
  destruct (check_entries root relative (layer relative) (entries, claimed, pending))
    as [[[en1 cl1] pe1]|e] eqn:E; [|done].
  apply check_entries_ok in E as (-> & _ & Hsub & Hin & Hpend & _).
  apply IH in H as [Hsub' Hbelow].
  split; [by etrans|]. intros from p d [->|Hfrom]%elem_of_cons Hh.
  - destruct Hh as [name d Hentry|name p d Hentry Hh].
    + apply Hin in Hentry as (? & _ & ?). split; [by eapply entry_ok_mono|done].
    + apply Hin in Hentry as (_ & Hpe & _). specialize (Hpe eq_refl).
      destruct (Hbelow _ _ _ Hpe Hh) as [Hok Hf]. split; [done|].
      intros d' Hd'. apply Hf. by eapply lookup_weaken.
  - apply Hpend in Hfrom. destruct (Hbelow _ _ _ Hfrom Hh) as [Hok Hf]. split; [done|].
    intros d' Hd'. apply Hf. by eapply lookup_weaken.
Qed.
End walk.

Lemma check_components_total root layers entries claimed :
  0 ≤ entries ≤ MAX_ENTRIES → ∃ r, check_components root layers entries claimed = Some r.
Proof.
  revert entries claimed. induction layers as [|layer layers IH]; intros entries claimed H;
    cbn [check_components]; [eauto|].
  destruct (top_level layer); [|eauto].
  assert (∃ r, walk walk_fuel root layer (entries, claimed, [[]]) = Some r
             ∧ ∀ en' cl', r = Ok (en', cl') → 0 ≤ en' ≤ MAX_ENTRIES) as (r & Hr & Hmax).
  { apply walk_total; [done|]. unfold walk_fuel. rewrite Z2Nat.id by done.
    change (len [[]]) with 1. lia. }
  rewrite Hr. destruct r as [[en cl]|e]; [|eauto]. by apply IH, (Hmax en cl).
Qed.

Lemma check_components_ok root layers entries claimed entries' claimed' :
  check_components root layers entries claimed = Some (Ok (entries', claimed')) →
  claimed ⊆ claimed'
  ∧ (∀ layer p d, layer ∈ layers → holds layer [] p d →
       (∀ d', root p = Some d' → d' = true ∧ d = true)
       ∧ (∀ d', claimed !! p = Some d' → d' = true ∧ d = true))
  ∧ (∀ layer, layer ∈ layers → top_level layer = true)
  ∧ (∀ i j l1 l2 p d1 d2, i ≠ j → layers !! i = Some l1 → layers !! j = Some l2 →
       holds l1 [] p d1 → holds l2 [] p d2 → d1 = true ∧ d2 = true).
Proof.
  revert entries claimed.
  induction layers as [|layer layers IH]; intros entries claimed H;
    cbn [check_components] in H.
  { injection H as <- <-. split_and!; [done|set_solver..|]. intros. by destruct i. }
  destruct (top_level layer) eqn:Htop; [|done].
  destruct (walk walk_fuel root layer (entries, claimed, [[]])) as [[[en cl]|e]|] eqn:Hw; try done.
  apply walk_ok in Hw as [Hsub Hbelow].
  apply IH in H as (Hsub' & Hroot & Htops & Hpair).
  assert (Hhere : ∀ p d, holds layer [] p d →
            entry_ok root cl p d ∧ ∀ d', claimed !! p = Some d' → d' = true ∧ d = true).
  { intros p d Hh. apply (Hbelow []); [set_solver|done]. }
  assert (Hcross : ∀ l2 p d1 d2, l2 ∈ layers → holds layer [] p d1 → holds l2 [] p d2 →
            d1 = true ∧ d2 = true).
  { intros l2 p d1 d2 Hl H1 H2. destruct (Hhere p d1 H1) as [[_ (d & Hd & Hor)] _].
    apply (Hroot l2 p d2 Hl) in H2 as [_ Hc]. apply Hc in Hd as [-> ->].
    by destruct Hor as [<-|[_ ->]]. }
  split_and!.
  - by etrans.
  - intros l p d [->|Hl]%elem_of_cons Hh.
    + destruct (Hhere p d Hh) as [[? _] ?]. done.
    + destruct (Hroot l p d Hl Hh) as [? Hc]. split; [done|].
      intros d' Hd'. apply Hc. by eapply lookup_weaken.
  - intros l [->|Hl]%elem_of_cons; auto.
  - intros i j l1 l2 p d1 d2 Hne Hi Hj H1 H2.
    destruct i as [|i], j as [|j]; simpl in *; simplify_eq.
    + apply (Hcross l2 p d1 d2); [by eapply list_elem_of_lookup_2|done|done].
    + destruct (Hcross l1 p d2 d1) as [-> ->]; [by eapply list_elem_of_lookup_2|done..].
    + eapply (Hpair i j); eauto.
Qed.

(** * Properties *)

(** A boot entry name selects an id exactly when it is [mica-<id>.conf] or
    [mica-<id>+<counter>.conf] with a 64-digit lower-case hex id and one of the
    loader's four trial counters; and a deployment id is valid exactly when it
    is 64 lower-case hex digits, so an id never smuggles a counter, a path
    separator or an extension into a name built from it. *)
Theorem selected_entry_grammar (entry id : string) :
  (selected_entry entry = Ok id ↔
     hex_id id = true
     ∧ (entry = "mica-" +:+ id +:+ ".conf"
        ∨ ∃ count, count ∈ counters ∧ entry = "mica-" +:+ (id +:+ "+" +:+ count) +:+ ".conf"))
  ∧ (valid_id id = Ok tt ↔ str_len id = 64 ∧ all_bytes is_hex_lower id = true).
Proof.
  split.
  2:{ rewrite valid_id_hex. unfold hex_id. by rewrite andb_true_iff, Z.eqb_eq. }
  by apply selected_entry_spec.
Qed.

(** The composition check always answers, whatever the filesystems hold
    (the entry bound bounds the walk); and when it accepts, the composed tree
    is the union of its layers and never an override: every component holds
    only [usr] and [etc], and a path a component shares with the root or with
    another component is a directory on both sides. *)
Theorem check_composition_union (root : path → option bool) (layers : list listing) :
  (∃ r, check_composition root layers = Some r)
  ∧ (check_composition root layers = Some (Ok tt) →
     (∀ layer, layer ∈ layers → top_level layer = true)
     ∧ (∀ layer p d d', layer ∈ layers → holds layer [] p d → root p = Some d' →
          d = true ∧ d' = true)
     ∧ (∀ i j l1 l2 p d1 d2, i ≠ j → layers !! i = Some l1 → layers !! j = Some l2 →
          holds l1 [] p d1 → holds l2 [] p d2 → d1 = true ∧ d2 = true)).
Proof.
  unfold check_composition. split.
  - destruct (check_components_total root layers 0 ∅ ltac:(unfold MAX_ENTRIES; lia)) as (r & ->). eauto.
  - destruct (check_components root layers 0 ∅) as [[[en cl]|e]|] eqn:E; [|done..].
    apply check_components_ok in E as (_ & Hroot & Htop & Hpair). intros _.
    split_and!; [done| |done].
    intros layer p d d' Hl Hh Hr. destruct (Hroot layer p d Hl Hh) as [H _].
    by apply H in Hr as [-> ->].
Qed.

Definition demo_layer (file : string) : listing := λ p,
  match p with
  | [] => [("usr", true)]
  | ["usr"] => [(file, false)]
  | _ => []
  end.
Definition demo_root : path → option bool := λ p,
  match p with ["usr"] => Some true | ["micad"; "usr"] => Some false | _ => None end.

Example check_composition_cases :
  check_composition demo_root [demo_layer "a"; demo_layer "b"] = Some (Ok tt)
  ∧ (is_ok <$> check_composition demo_root [demo_layer "a"; demo_layer "a"]) = Some false
  ∧ (is_ok <$> check_composition demo_root [demo_layer "micad"]) = Some false.
Proof. vm_compute. auto. Qed.

End Boot.
