(* ===== verification/FitEnv.v ===== *)
(** The boot records of a FIT board ([src/crates/mica-deploy/src/fit_env.rs]):
    the layout of the two redundant copies, the record text, its environment
    image with CRC, the copy U-Boot takes, and the write of the inactive copy. *)
From Stdlib Require Import Ascii.
From S2P Require Import Prelude Text Boot.
Import Boot.

Module FitEnv.

Definition ENV_SIZE : Z := 65536.
(** The largest boot partition accepted, in 512-byte sectors. *)
Definition MAX_SECTORS : Z := 2147483648.
Definition MAX_GENERATION : Z := 9007199254740991.

(** * The layout *)

Record FitLayout := { start_sector : Z; sectors : Z; offsets : Z * Z }.

Definition in_bounds (lo hi z : Z) : bool := (lo <=? z) && (z <=? hi).

(** One copy's offset: sector aligned and inside its partition. The sum is a
    [u64]'s, which wraps in the shipped profile. *)
Definition check_offset (sectors offset : Z) : result unit :=
  ensure offset mod 512 =? 0 else "boot record copy is not sector aligned" in
  ensure wrap64 (offset + ENV_SIZE) <=? wrap64 (sectors * 512)
    else "boot record copy outside its partition" in
  Ok tt.

Definition new_layout (start_sector sectors : Z) (offsets : Z * Z) : result FitLayout :=
  ensure in_bounds 1 MAX_SECTORS start_sector && in_bounds 1 MAX_SECTORS sectors
    else "invalid boot partition geometry" in
  let? _ := check_offset sectors offsets.1 in
  let? _ := check_offset sectors offsets.2 in
  ensure ENV_SIZE <=? Z.abs (offsets.1 - offsets.2) else "boot record copies overlap" in
  Ok {| start_sector := start_sector; sectors := sectors; offsets := offsets |}.

(** The policy's spelling of a layout, and its conversions. *)
Record RecordsPolicy := {
  p_start_sector : Z; p_sectors : Z; p_offsets : Z * Z; p_size : Z }.
Definition layout_of_policy (r : RecordsPolicy) : result FitLayout :=
  ensure p_size r =? ENV_SIZE else "boot record size is not 65536" in
  new_layout (p_start_sector r) (p_sectors r) (p_offsets r).
Definition policy_of_layout (l : FitLayout) : RecordsPolicy :=
  {| p_start_sector := start_sector l; p_sectors := sectors l;
     p_offsets := offsets l; p_size := ENV_SIZE |}.

(** * The record text *)

Record BootRecord := {
  id : string;
  kernel_id : string;
  generation : Z;
  tries_left : option Z;
}.
#[export] Instance BootRecord_eq : EqDecision BootRecord.
Proof. solve_decision. Defined.

Definition parse_tries (field : string) : result (option Z) :=
  if bool_decide (field = "-") then Ok None
  else if bool_decide (field = "0") then Ok (Some 0)
  else if bool_decide (field = "1") then Ok (Some 1)
  else if bool_decide (field = "2") then Ok (Some 2)
  else if bool_decide (field = "3") then Ok (Some 3)
  else Err (Msg "invalid boot attempt counter").

(** One row after the [records] already read. *)
Definition parse_row (records : list BootRecord) (row : string) : result BootRecord :=
  match split "," row with
  | [f_id; f_kernel; f_generation; f_tries] =>
      ensure len records <? 2 else "invalid boot record count or fields" in
      let? _ := valid_id f_id in
      let? _ := valid_id f_kernel in
      let? g := with_context (parse_u64 f_generation) "invalid digit found in string" in
      ensure (0 <? g) && (g <=? MAX_GENERATION) && bool_decide (to_dec g = f_generation)
        else "invalid boot generation" in
      ensure forallb (λ r, negb (bool_decide (id r = f_id)) && (g <? generation r)) records
        else "ambiguous boot record order" in
      let? tries := parse_tries f_tries in
      Ok {| id := f_id; kernel_id := f_kernel; generation := g; tries_left := tries |}
  | _ => Err (Msg "invalid boot record count or fields")
  end.

Fixpoint parse_rows (records : list BootRecord) (rows : list string) : result (list BootRecord) :=
  match rows with
  | [] => Ok records
  | row :: rows' =>
      let? r := parse_row records row in
      parse_rows (records ++ [r]) rows'
  end.

Definition parse_records (text : string) : result (list BootRecord) :=
  ensure str_len text <=? 512 else "boot records exceed bound" in
  let? rows := with_context (strip_prefix "v1|" text) "invalid boot record version" in
  parse_rows [] (split ";" rows).

Definition render_tries (t : option Z) : string :=
  match t with None => "-" | Some v => to_dec v end.
Definition render_record (r : BootRecord) : string :=
  join "," [id r; kernel_id r; to_dec (generation r); render_tries (tries_left r)].
Definition records_text (records : list BootRecord) : string :=
  "v1|" +:+ join ";" (map render_record records).
Definition render_records (records : list BootRecord) : result string :=
  let text := records_text records in
  let? _ := parse_records text in
  Ok text.

(** * The environment image *)

Definition U32_MAX : Z := 4294967295.

(** CRC-32, bit by bit on a [u32]. *)
Definition crc_bit (crc : Z) : Z :=
  Z.lxor (Z.shiftr crc 1) (Z.land 0xedb88320 (if Z.testbit crc 0 then U32_MAX else 0)).
Definition crc_byte (crc : Z) (b : ascii) : Z :=
  Nat.iter 8 crc_bit (Z.lxor crc (byte_val b)).
Definition crc32 (b : bytes) : Z := Z.lxor (foldl crc_byte U32_MAX b) U32_MAX.

Definition KEY : bytes := str_bytes "mica_entries=".
Definition NUL : ascii := Ascii.zero.

(** The bytes after the CRC and the flag: the key, the value, NULs to the end. *)
Definition env_data (value : string) : bytes :=
  let text := KEY ++ str_bytes value in
  text ++ replicate (Z.to_nat (ENV_SIZE - 5 - len text)) NUL.

Definition encode (records : list BootRecord) (flag : Z) : result bytes :=
  let? value := render_records records in
  let data := env_data value in
  Ok (to_le 4 (crc32 data) ++ [val_byte flag] ++ data).

Definition valid_crc (b : bytes) : bool :=
  (len b =? ENV_SIZE) && bool_decide (take 4 b = to_le 4 (crc32 (drop 5 b))).

(** [data.iter().position(|byte| *byte == 0)], with what is before and after. *)
Fixpoint until_nul (b : bytes) : option (bytes * bytes) :=
  match b with
  | [] => None
  | c :: b' => if bool_decide (c = NUL) then Some ([], b)
               else (λ '(x, y), (c :: x, y)) <$> until_nul b'
  end.

Definition decode (b : bytes) : result (list BootRecord) :=
  let data := drop 5 b in
  ensure bool_decide (take (length KEY) data = KEY)
    else "boot records absent from environment" in
  match until_nul data with
  | None => Err (Msg "unterminated boot environment")
  | Some (text, padding) =>
      ensure (2 <=? len padding) && forallb (λ c, bool_decide (c = NUL)) padding
        else "unexpected boot environment data" in
      let value := drop (length KEY) text in
      ensure valid_utf8 value else "invalid utf-8" in
      parse_records (bytes_str value)
  end.

(** * The redundant pair *)

Record Environment := {
  records : list BootRecord;
  slot : bool;  (* [false] is copy 0, [true] is copy 1 *)
  flag : Z;
}.

Definition flag_of (b : bytes) : Z := match nth_error b 4 with Some c => byte_val c | None => 0 end.

(** Whether copy 1, of flag [b], is newer than copy 0, of flag [a]: U-Boot's
    rule, wrap included. *)
Definition second_newer (a b : Z) : bool :=
  ((a =? 255) && (b =? 0)) || ((a <? b) && negb ((b =? 255) && (a =? 0))).

(** The copy U-Boot's redundant-environment rule takes; a copy is present only
    when it was read whole with a valid CRC. *)
Definition active (copies : option bytes * option bytes) : result Environment :=
  match copies with
  | (None, None) => Err (Msg "no valid redundant boot environment")
  | (Some a, None) =>
      let? rs := decode a in Ok {| records := rs; slot := false; flag := flag_of a |}
  | (None, Some b) =>
      let? rs := decode b in Ok {| records := rs; slot := true; flag := flag_of b |}
  | (Some a, Some b) =>
      let second := second_newer (flag_of a) (flag_of b) in
      let copy := if second then b else a in
      let? rs := decode copy in
      Ok {| records := rs; slot := second; flag := flag_of copy |}
  end.

(** The boot partition is a block device: a read or write past its end fails,
    and a write inside it changes those bytes alone. *)
Definition region := bytes.

Definition read_copy (r : region) (offset : Z) : option bytes :=
  match slice r offset ENV_SIZE with
  | Some b => if valid_crc b then Some b else None
  | None => None
  end.

Definition slot_offset (layout : FitLayout) (s : bool) : Z :=
  if s then (offsets layout).2 else (offsets layout).1.

Definition load (layout : FitLayout) (r : region) : result Environment :=
  active (read_copy r (slot_offset layout false), read_copy r (slot_offset layout true)).

Definition write_at (r : region) (offset : Z) (b : bytes) : region :=
  take (Z.to_nat offset) r ++ b ++ drop (Z.to_nat (offset + len b)) r.
Definition fits (r : region) (offset : Z) (b : bytes) : bool :=
  (0 <=? offset) && (offset + len b <=? len r).

(** Writing a copy: a power cut leaves any bytes of its length in its place;
    that a torn copy's CRC fails is what the format rests on, and is assumed of
    the bytes left. *)
Definition write_copy (offset : Z) (b : bytes) : M region unit := λ r,
  if fits r offset b then
    Outcome (Ok tt) (write_at r offset b)
      (λ r', r' = r ∨ ∃ torn, length torn = length b
               ∧ (torn = b ∨ valid_crc torn = false) ∧ r' = write_at r offset torn)
  else
    Outcome (Err (Msg "failed to write whole buffer")) r (λ r', r' = r).

(** [Environment::save]: encode the records with the next flag, write the
    inactive copy, and require an identical read-back. *)
Definition save (layout : FitLayout) (env : Environment) : M region unit :=
  let other := negb (slot env) in
  let next := (flag env + 1) mod 256 in
  let! b := slift (λ _, encode (records env) next) in
  let! _ := write_copy (slot_offset layout other) b in
  let! saved := slift (load layout) in
  ensure! bool_decide (slot saved = other) && (flag saved =? next)
          && bool_decide (records saved = records env)
    else "boot environment read-back mismatch" in
  sret tt.

(** * What the definitions are held to *)

Definition valid_tries (t : option Z) : Prop := ∀ v, t = Some v → 0 ≤ v ≤ 3.
Definition valid_record (r : BootRecord) : Prop :=
  hex_id (id r) = true ∧ hex_id (kernel_id r) = true
  ∧ 0 < generation r ≤ MAX_GENERATION ∧ valid_tries (tries_left r).

(** [r] may follow the records [prev]: fewer than two, of other ids and of
    higher generations. *)
Definition follows (prev : list BootRecord) (r : BootRecord) : Prop :=
  len prev < 2 ∧ Forall (λ p, id p ≠ id r ∧ generation r < generation p) prev.
Fixpoint chain (prev new : list BootRecord) : Prop :=
  match new with
  | [] => True
  | r :: new' => valid_record r ∧ follows prev r ∧ chain (prev ++ [r]) new'
  end.
(** One or two records, newest first, of distinct ids. *)
Definition valid_records (rs : list BootRecord) : Prop := rs ≠ [] ∧ chain [] rs.

(** Both copies are inside the region and apart. *)
Definition layout_fits (layout : FitLayout) (r : region) : Prop :=
  let '(a, b) := offsets layout in
  0 ≤ a ∧ 0 ≤ b ∧ a + ENV_SIZE ≤ len r ∧ b + ENV_SIZE ≤ len r ∧ ENV_SIZE ≤ Z.abs (a - b).

(** * The record text *)

Lemma parse_tries_spec s t : parse_tries s = Ok t ↔ valid_tries t ∧ s = render_tries t.
Proof.
  split.
  - unfold parse_tries. intros H. repeat case_bool_decide; subst; [..|discriminate H];
      injection H as <-; (split; [|done]); intros v; congruence || (intros [= <-]; lia).
  - intros [Hv ->]. destruct t as [v|]; [|done]. simpl. specialize (Hv v eq_refl).
    assert (v = 0 ∨ v = 1 ∨ v = 2 ∨ v = 3) as [->|[->|[->| ->]]] by lia; done.
Qed.

Lemma digits_no_sep c s :
  all_bytes is_digit s = true → is_digit c = false → contains_byte c s = false.
Proof. apply all_bytes_not_contains. Qed.

Lemma render_tries_no_sep c t :
  valid_tries t → (c = ","%char ∨ c = ";"%char) → contains_byte c (render_tries t) = false.
Proof.
  intros Hv Hc. destruct t as [v|]; simpl.
  - specialize (Hv v eq_refl). apply digits_no_sep; [apply to_dec_digits; lia|].
    by destruct Hc as [-> | ->].
  - by destruct Hc as [-> | ->].
Qed.

Lemma field_no_sep c r :
  valid_record r → (c = ","%char ∨ c = ";"%char) →
  Forall (λ s, contains_byte c s = false)
    [id r; kernel_id r; to_dec (generation r); render_tries (tries_left r)].
Proof.
  intros (Hi & Hk & Hg & Ht) Hc.
  assert (Hx : is_hex_lower c = false) by by destruct Hc as [-> | ->].
  assert (Hd : is_digit c = false) by by destruct Hc as [-> | ->].
  repeat constructor.
  - by apply hex_id_free.
  - by apply hex_id_free.
  - apply digits_no_sep; [apply to_dec_digits; lia|done].
  - by apply render_tries_no_sep.
Qed.

Lemma render_record_no_semi r : valid_record r → contains_byte ";" (render_record r) = false.
Proof.
  intros Hr. pose proof (field_no_sep ";" r Hr ltac:(auto)) as H.
  repeat rewrite Forall_cons in H. destruct H as (H1 & H2 & H3 & H4 & _).
  unfold render_record. cbn [join].
  rewrite contains_byte_app, H1. simpl. rewrite contains_byte_app, H2. simpl.
  rewrite contains_byte_app, H3. simpl. by rewrite H4.
Qed.

Lemma generation_u64 g : 0 < g ≤ MAX_GENERATION → is_u64 g.
Proof. unfold is_u64, U64_MAX, MAX_GENERATION. lia. Qed.

Lemma follows_check prev f_id g :
  forallb (λ r, negb (bool_decide (id r = f_id)) && (g <? generation r)) prev = true ↔
  Forall (λ p, id p ≠ f_id ∧ g < generation p) prev.
Proof.
  rewrite forallb_forall, Forall_forall. setoid_rewrite list_elem_of_In.
  apply forall_proper. intros r. apply forall_proper. intros _.
  by rewrite andb_true_iff, negb_true_iff, bool_decide_eq_false, Z.ltb_lt.
Qed.

Lemma parse_row_spec prev row r :
  parse_row prev row = Ok r ↔ valid_record r ∧ follows prev r ∧ row = render_record r.
Proof.
  unfold parse_row. split.
  - intros H. pose proof (join_split "," row) as Hj.
    destruct (split "," row) as [|a [|b [|c [|d [|? ?]]]]]; try discriminate H.
    run. bools.
    match goal with H : parse_tries d = Ok ?t |- _ => apply parse_tries_spec in H as [Ht ->] end.
    match goal with H : valid_id a = Ok ?u |- _ => destruct u; apply valid_id_hex in H end.
    match goal with H : valid_id b = Ok ?u |- _ => destruct u; apply valid_id_hex in H end.
    match goal with H : forallb _ _ = true |- _ => apply follows_check in H end.
    unfold valid_record, follows. simpl. split_and!; try done.
    unfold render_record. simpl. by subst.
  - intros (Hr & [Hlen Hf] & ->). unfold render_record.
    rewrite split_join; [|done|by apply field_no_sep; [|auto]].
    destruct Hr as (Hi & Hk & Hg & Ht).
    rewrite (proj2 (Z.ltb_lt _ _)) by done.
    rewrite (proj2 (valid_id_hex _) Hi), (proj2 (valid_id_hex _) Hk). cbn [rbind].
    rewrite parse_u64_to_dec by by apply generation_u64. cbn [with_context rbind].
    rewrite (proj2 (Z.ltb_lt 0 _)) by lia. rewrite (proj2 (Z.leb_le _ _)) by lia.
    rewrite bool_decide_eq_true_2 by done. cbn [andb].
    rewrite (proj2 (follows_check prev (id r) (generation r)) Hf).
    rewrite (proj2 (parse_tries_spec _ _) (conj Ht eq_refl)). simpl. by destruct r.
Qed.

Lemma parse_rows_spec prev rows rs :
  parse_rows prev rows = Ok rs ↔
  ∃ new, rs = prev ++ new ∧ chain prev new ∧ rows = map render_record new.
Proof.
  revert prev. induction rows as [|row rows IH]; intros prev; cbn [parse_rows].
  - split.
    + intros [= <-]. exists []. by rewrite app_nil_r.
    + intros ([|r new] & -> & _ & E); [by rewrite app_nil_r|done].
  - split.
    + intros H. destruct (parse_row prev row) as [r|] eqn:Hr; simpl in H; [|done].
      apply parse_row_spec in Hr as (Hr & Hf & ->).
      apply IH in H as (new & -> & Hc & ->). exists (r :: new).
      by rewrite <- app_assoc.
    + intros ([|r new] & -> & Hc & E); [done|]. injection E as -> ->.
      destruct Hc as (Hr & Hf & Hc).
      rewrite (proj2 (parse_row_spec prev _ r)) by done. simpl.
      apply IH. exists new. by rewrite <- app_assoc.
Qed.

Lemma dec_go_len fuel n acc k :
  0 ≤ n < 10 ^ Z.of_nat k → (0 < k)%nat →
  str_len (dec_go fuel n acc) ≤ Z.of_nat k + str_len acc.
Proof.
  revert n acc k. induction fuel as [|f IH]; intros n acc k Hn Hk; cbn [dec_go]; [lia|].
  destruct (Z.ltb_spec n 10) as [H|H].
  - rewrite str_len_cons. lia.
  - destruct k as [|[|k]]; [lia|change (10 ^ Z.of_nat 1) with 10 in Hn; lia|].
    etrans; [apply (IH _ _ (S k)); [|lia]|rewrite str_len_cons; lia].
    rewrite (Nat2Z.inj_succ (S k)), Z.pow_succ_r in Hn by lia.
    split; [apply Z.div_pos; lia|apply Z.div_lt_upper_bound; lia].
Qed.

Lemma render_record_len r : valid_record r → str_len (render_record r) ≤ 148.
Proof.
  intros (Hi & Hk & Hg & Ht). unfold render_record. cbn [join].
  rewrite !str_len_app, !str_len_cons, !str_len_app, !str_len_cons, !str_len_app, !str_len_cons.
  rewrite (hex_id_len _ Hi), (hex_id_len _ Hk).
  pose proof (dec_go_len 20 (generation r) "" 16) as Hl.
  change (10 ^ Z.of_nat 16) with 10000000000000000 in Hl.
  unfold MAX_GENERATION in Hg. specialize (Hl ltac:(lia) ltac:(lia)). unfold to_dec.
  change (str_len "") with 0 in Hl.
  assert (str_len (render_tries (tries_left r)) = 1).
  { destruct (tries_left r) as [v|]; [|done]. specialize (Ht v eq_refl). simpl.
    assert (v = 0 ∨ v = 1 ∨ v = 2 ∨ v = 3) as [->|[->|[->| ->]]] by lia; done. }
  lia.
Qed.

Lemma chain_length prev new : chain prev new → len prev + len new ≤ 2 ∨ new = [].
Proof.
  revert prev. induction new as [|r new IH]; intros prev; [by right|].
  intros (_ & [Hf _] & Hc). left. apply IH in Hc as [Hc| ->].
  - rewrite len_app in Hc. rewrite len_cons. change (len [r]) with 1 in Hc. lia.
  - rewrite len_cons. change (len []) with 0. lia.
Qed.

Lemma chain_valid prev new : chain prev new → Forall valid_record new.
Proof.
  revert prev. induction new as [|r new IH]; intros prev; [constructor|].
  intros (? & _ & ?). constructor; eauto.
Qed.

Lemma valid_records_cases rs :
  valid_records rs →
  (∃ r, rs = [r] ∧ valid_record r)
  ∨ (∃ r q, rs = [r; q] ∧ valid_record r ∧ valid_record q
       ∧ id r ≠ id q ∧ generation q < generation r).
Proof.
  intros [Hne Hc]. destruct rs as [|r [|q [|p rs]]]; [done|left|right|].
  - destruct Hc as (? & _). eauto.
  - destruct Hc as (? & _ & ? & [_ Hf] & _). simpl in Hf.
    apply Forall_singleton in Hf as [? ?]. eauto 10.
  - apply chain_length in Hc as [Hc|]; [|done]. rewrite !len_cons in Hc.
    pose proof (len_nonneg rs). change (len (@nil BootRecord)) with 0 in Hc. lia.
Qed.

Lemma valid_records_single r : valid_record r → valid_records [r].
Proof. intros H. split; [done|]. cbn. split; [done|]. split; [|done]. by split; [|constructor]. Qed.

Lemma valid_records_pair r q :
  valid_record r → valid_record q → id r ≠ id q → generation q < generation r → valid_records [r; q].
Proof.
  intros Hr Hq Hne Hg. split; [done|]. cbn. split; [done|]. split; [by split; [|constructor]|].
  split; [done|]. split; [|done]. split; [done|]. by repeat constructor.
Qed.

Lemma valid_records_filter p rs :
  valid_records rs → List.filter p rs ≠ [] → valid_records (List.filter p rs).
Proof.
  intros [(r & -> & Hr)|(r & q & -> & Hr & Hq & Hne & Hg)]%valid_records_cases; cbn.
  - destruct (p r); [|done]. intros _. by apply valid_records_single.
  - destruct (p r), (p q); try done; intros _;
      [by apply valid_records_pair|by apply valid_records_single..].
Qed.

Lemma records_text_len rs : valid_records rs → str_len (records_text rs) ≤ 300.
Proof.
  intros H. unfold records_text. rewrite str_len_app. change (str_len "v1|") with 3.
  apply valid_records_cases in H as [(r & -> & Hr)|(r & q & -> & Hr & Hq & _)];
    cbn [map join]; rewrite ?str_len_app, ?str_len_cons.
  - pose proof (render_record_len r Hr). lia.
  - pose proof (render_record_len r Hr). pose proof (render_record_len q Hq). lia.
Qed.

Lemma parse_records_spec text rs :
  parse_records text = Ok rs ↔ valid_records rs ∧ text = records_text rs.
Proof.
  unfold parse_records. split.
  - intros H. run.
    match goal with H : strip_prefix _ _ = Some _ |- _ => apply strip_prefix_spec in H as -> end.
    apply parse_rows_spec in H as (new & -> & Hc & Hs). simpl.
    assert (new ≠ []).
    { intros ->. by apply split_nonempty in Hs. }
    split; [done|]. unfold records_text. by rewrite <- Hs, join_split.
  - intros [H ->]. rewrite (proj2 (Z.leb_le _ _)) by (pose proof (records_text_len rs H); lia).
    unfold records_text. rewrite strip_prefix_app. simpl. destruct H as [Hne Hc].
    apply parse_rows_spec. exists rs. split; [done|]. split; [done|].
    apply split_join; [by destruct rs|]. apply chain_valid in Hc. apply Forall_fmap.
    eapply Forall_impl; [done|]. intros r Hr. by apply render_record_no_semi.
Qed.

Lemma render_records_valid rs : valid_records rs → render_records rs = Ok (records_text rs).
Proof.
  intros H. unfold render_records. by rewrite (proj2 (parse_records_spec (records_text rs) rs)).
Qed.

Lemma render_records_text rs text :
  render_records rs = Ok text → text = records_text rs ∧ ∃ rs', valid_records rs' ∧ text = records_text rs'.
Proof.
  unfold render_records. intros H.
  destruct (parse_records (records_text rs)) as [rs'|] eqn:E; [|done].
  injection H as <-. apply parse_records_spec in E. eauto.
Qed.

(** * The environment image *)

Lemma until_nul_spec text k :
  Forall (λ c, c ≠ NUL) text → (0 < k)%nat →
  until_nul (text ++ replicate k NUL) = Some (text, replicate k NUL).
Proof.
  intros Ht Hk. induction Ht as [|c text Hc Ht IH]; cbn [until_nul app].
  - destruct k as [|k]; [lia|]. cbn [replicate until_nul].
    by rewrite bool_decide_eq_true_2.
  - rewrite bool_decide_eq_false_2 by done. by rewrite IH.
Qed.

(** The characters of a record text. *)
Definition record_char (c : ascii) : bool := is_hex_lower c || one_of "v1|,;-" c.

Lemma hex_id_chars s : hex_id s = true → all_bytes record_char s = true.
Proof.
  apply hex_id_class. intros c Hc. unfold record_char. by rewrite Hc.
Qed.

Lemma digits_chars s : all_bytes is_digit s = true → all_bytes record_char s = true.
Proof.
  intros H. eapply all_bytes_impl; [|done]. intros c Hc. unfold record_char, is_hex_lower. by rewrite Hc.
Qed.

Lemma render_record_chars r : valid_record r → all_bytes record_char (render_record r) = true.
Proof.
  intros (Hi & Hk & Hg & Ht). unfold render_record. cbn [join].
  repeat (rewrite all_bytes_app; cbn [all_bytes]).
  rewrite (hex_id_chars _ Hi), (hex_id_chars _ Hk).
  rewrite (digits_chars (to_dec _)) by (apply to_dec_digits; lia).
  destruct (tries_left r) as [v|]; [|done]. specialize (Ht v eq_refl). simpl.
  rewrite (digits_chars (to_dec _)); [done|]. apply to_dec_digits. lia.
Qed.

Lemma records_text_chars rs : valid_records rs → all_bytes record_char (records_text rs) = true.
Proof.
  intros H. unfold records_text. rewrite all_bytes_app.
  apply valid_records_cases in H as [(r & -> & Hr)|(r & q & -> & Hr & Hq & _)]; cbn [map join].
  - by rewrite render_record_chars.
  - rewrite all_bytes_app. cbn [all_bytes]. by rewrite !render_record_chars.
Qed.

Lemma record_char_spec c : record_char c = true → c ≠ NUL ∧ byte_val c < 128.
Proof. destruct c as [[] [] [] [] [] [] [] []]; vm_compute; by intuition. Qed.

Lemma text_image rs :
  valid_records rs →
  let text := KEY ++ str_bytes (records_text rs) in
  Forall (λ c, c ≠ NUL) text ∧ valid_utf8 (str_bytes (records_text rs)) = true ∧ len text ≤ 313.
Proof.
  intros H. pose proof (records_text_chars rs H) as Hc.
  apply all_bytes_Forall in Hc. split_and!.
  - apply Forall_app. split.
    + repeat constructor; done.
    + eapply Forall_impl; [done|]. intros c. apply record_char_spec.
  - apply valid_utf8_ascii. eapply Forall_impl; [done|]. intros c. apply record_char_spec.
  - rewrite len_app, len_str_bytes. change (len KEY) with 13.
    pose proof (records_text_len rs H). lia.
Qed.

Lemma len_replicate {A} (n : nat) (a : A) : len (replicate n a) = Z.of_nat n.
Proof. unfold len. by rewrite length_replicate. Qed.

Lemma env_data_len rs : valid_records rs → len (env_data (records_text rs)) = ENV_SIZE - 5.
Proof.
  intros H. unfold env_data. destruct (text_image rs H) as (_ & _ & Hl).
  rewrite len_app, len_replicate. rewrite Z2Nat.id; [lia|]. unfold ENV_SIZE. lia.
Qed.

(** What an encoded copy is: whole, of a valid CRC, of its flag, and holding
    exactly the records encoded. *)
Definition image_of (rs : list BootRecord) (f : Z) (b : bytes) : Prop :=
  len b = ENV_SIZE ∧ valid_crc b = true ∧ flag_of b = f ∧ decode b = Ok rs.

Lemma forallb_replicate {A} (p : A → bool) n a : p a = true → forallb p (replicate n a) = true.
Proof. intros H. induction n as [|n IH]; simpl; [done|by rewrite H]. Qed.

Lemma decode_env_data head rs :
  length head = 5%nat → valid_records rs → decode (head ++ env_data (records_text rs)) = Ok rs.
Proof.
  intros Hh H. unfold decode. rewrite drop_app_length' by done. unfold env_data.
  rewrite <- app_assoc, take_app_length' by done. rewrite bool_decide_eq_true_2 by done.
  rewrite app_assoc. destruct (text_image rs H) as (Hn & Hu & Hl).
  rewrite until_nul_spec; [|done|].
  2: { apply Nat2Z.inj_lt. rewrite Z2Nat.id; unfold ENV_SIZE; lia. }
  rewrite len_replicate, Z2Nat.id by (unfold ENV_SIZE; lia).
  rewrite forallb_replicate by (by apply bool_decide_eq_true_2).
  rewrite (proj2 (Z.leb_le _ _)) by (unfold ENV_SIZE; lia). cbn [andb].
  rewrite drop_app_length' by done. rewrite Hu.
  unfold bytes_str. fold (bytes_str (str_bytes (records_text rs))). rewrite str_bytes_str.
  by apply parse_records_spec.
Qed.

Lemma encode_image rs f b :
  valid_records rs → 0 ≤ f < 256 → encode rs f = Ok b → image_of rs f b.
Proof.
  intros H Hf. unfold encode. rewrite render_records_valid by done. cbn [rbind].
  intros E. pose proof (env_data_len rs H) as Hl.
  assert (b = to_le 4 (crc32 (env_data (records_text rs))) ++ [val_byte f] ++ env_data (records_text rs))
    as -> by congruence.
  clear E. set (data := env_data (records_text rs)) in *. unfold image_of. split_and!.
  - rewrite !len_app, Hl. unfold len at 1. rewrite length_to_le. done.
  - unfold valid_crc. rewrite !len_app, Hl. unfold len at 1. rewrite length_to_le.
    rewrite Z.eqb_refl || rewrite (proj2 (Z.eqb_eq _ _)) by done. cbn [andb].
    apply bool_decide_eq_true_2. rewrite take_app_length' by by rewrite length_to_le.
    rewrite app_assoc, drop_app_length'; [done|]. by rewrite length_app, length_to_le.
  - unfold flag_of. rewrite nth_error_app2; rewrite length_to_le; [|done]. cbn [Nat.sub nth_error app].
    rewrite byte_val_val_byte. by apply Z.mod_small.
  - rewrite app_assoc. apply decode_env_data; [|done]. by rewrite length_app, length_to_le.
Qed.

Lemma encode_valid rs f : valid_records rs → ∃ b, encode rs f = Ok b.
Proof. intros H. unfold encode. rewrite render_records_valid by done. cbn [rbind]. eauto. Qed.

(** * The region *)

Lemma fits_spec r offset b : fits r offset b = true ↔ 0 ≤ offset ∧ offset + len b ≤ len r.
Proof. unfold fits. by rewrite andb_true_iff, !Z.leb_le. Qed.

Lemma write_at_len r offset b :
  fits r offset b = true → len (write_at r offset b) = len r.
Proof.
  rewrite fits_spec. intros [H1 H2]. unfold write_at, len in *.
  rewrite !length_app, length_take, length_drop. lia.
Qed.

Lemma slice_write_same r offset b :
  fits r offset b = true → slice (write_at r offset b) offset (len b) = Some b.
Proof.
  intros H. pose proof (write_at_len _ _ _ H) as Hl. apply fits_spec in H as [H1 H2].
  unfold slice. rewrite Hl. pose proof (len_nonneg b).
  rewrite !(proj2 (Z.leb_le _ _)) by lia. cbn [andb]. f_equal. unfold write_at.
  rewrite drop_app_length' by (rewrite length_take; unfold len in *; lia).
  apply take_app_length'. unfold len. lia.
Qed.

Lemma slice_write_apart r offset b at_ n :
  fits r offset b = true → 0 ≤ at_ → 0 ≤ n → (at_ + n ≤ offset ∨ offset + len b ≤ at_) →
  slice (write_at r offset b) at_ n = slice r at_ n.
Proof.
  intros H Ha Hn Hd. pose proof (write_at_len _ _ _ H) as Hl. apply fits_spec in H as [H1 H2].
  unfold slice. rewrite Hl. destruct (_ && _ && _) eqn:E; [|done]. bools. f_equal.
  apply list_eq. intros i. unfold len in *.
  destruct (decide (i < Z.to_nat n)%nat) as [Hi|Hi].
  2: { rewrite !lookup_take_ge by lia. done. }
  rewrite !lookup_take_lt, !lookup_drop by lia. unfold write_at, len.
  destruct Hd as [Hd|Hd].
  - rewrite lookup_app_l by (rewrite length_take; lia). apply lookup_take_lt. lia.
  - rewrite lookup_app_r by (rewrite length_take; lia). rewrite length_take.
    rewrite lookup_app_r by lia. rewrite lookup_drop. f_equal. lia.
Qed.

Lemma second_newer_spec f :
  0 ≤ f < 256 →
  second_newer f ((f + 1) mod 256) = true ∧ second_newer ((f + 1) mod 256) f = false.
Proof.
  intros Hf. destruct (decide (f = 255)) as [->|]; [done|].
  rewrite Z.mod_small by lia. unfold second_newer.
  assert (Hx : (f + 1 =? 255) && (f =? 0) = false).
  { apply andb_false_iff. rewrite !Z.eqb_neq. lia. }
  assert (Hy : (f =? 255) && (f + 1 =? 0) = false).
  { apply andb_false_iff. rewrite !Z.eqb_neq. lia. }
  split.
  - rewrite Hx, Hy, (proj2 (Z.ltb_lt _ _)) by lia. done.
  - rewrite (proj2 (Z.ltb_ge _ _)) by lia. cbn [andb]. rewrite orb_false_r.
    apply andb_false_iff. rewrite !Z.eqb_neq. lia.
Qed.

(** ** Loading the pair *)

(** Copy [s] of the region, and the rule applied to the pair seen from [s]. *)
Definition copy_of (layout : FitLayout) (s : bool) (r : region) : option bytes :=
  read_copy r (slot_offset layout s).

(** The pair seen from slot [s]. *)
Definition pair_at (s : bool) (x other : option bytes) : option bytes * option bytes :=
  if s then (other, x) else (x, other).

Lemma active_only s b rs :
  decode b = Ok rs →
  active (pair_at s (Some b) None) = Ok {| records := rs; slot := s; flag := flag_of b |}.
Proof. intros Hd. destruct s; cbn [pair_at active]; by rewrite Hd. Qed.

(** A copy whose flag follows the other's is taken, over a wrap too. *)
Lemma active_next s b old rs :
  0 ≤ flag_of old < 256 → flag_of b = (flag_of old + 1) mod 256 → decode b = Ok rs →
  active (pair_at s (Some b) (Some old)) = Ok {| records := rs; slot := s; flag := flag_of b |}.
Proof.
  intros Hf Hn Hd. destruct (second_newer_spec _ Hf) as [Hs Ht].
  destruct s; cbn [pair_at active]; rewrite Hn.
  - rewrite Hs, Hd. cbn [rbind]. by rewrite Hn.
  - rewrite Ht, Hd. cbn [rbind]. by rewrite Hn.
Qed.

Lemma active_inv x y env :
  active (x, y) = Ok env →
  ∃ b, (if slot env then y else x) = Some b ∧ decode b = Ok (records env) ∧ flag_of b = flag env
     ∧ valid_records (records env) ∧ 0 ≤ flag env < 256.
Proof.
  assert (Hdec : ∀ b rs, decode b = Ok rs → valid_records rs).
  { intros b rs. unfold decode. intros H. destruct (bool_decide _); [|done].
    destruct (until_nul _) as [[text padding]|]; [|done].
    destruct (_ && _); [|done]. destruct (valid_utf8 _); [|done].
    by apply parse_records_spec in H as [? _]. }
  assert (Hflag : ∀ b, 0 ≤ flag_of b < 256).
  { intros b. unfold flag_of. destruct (nth_error b 4); [apply byte_val_bound|lia]. }
  unfold active. destruct x as [a|], y as [b|]; [destruct (second_newer _ _)|..];
    intros H; try discriminate H;
    match type of H with rbind (decode ?x) _ = _ =>
      destruct (decode x) as [rs|] eqn:Ed; [|discriminate H]; injection H as <-; cbn; exists x
    end; eauto 10.
Qed.

Lemma load_pair layout r s :
  load layout r = active (pair_at s (copy_of layout s r) (copy_of layout (negb s) r)).
Proof. by destruct s. Qed.

Lemma load_only layout r s b rs :
  copy_of layout s r = Some b → copy_of layout (negb s) r = None → decode b = Ok rs →
  load layout r = Ok {| records := rs; slot := s; flag := flag_of b |}.
Proof. intros Hb Ho Hd. rewrite (load_pair _ _ s), Hb, Ho. by apply active_only. Qed.

Lemma load_next layout r s b old rs :
  copy_of layout s r = Some b → copy_of layout (negb s) r = Some old →
  0 ≤ flag_of old < 256 → flag_of b = (flag_of old + 1) mod 256 → decode b = Ok rs →
  load layout r = Ok {| records := rs; slot := s; flag := flag_of b |}.
Proof. intros Hb Ho Hf Hn Hd. rewrite (load_pair _ _ s), Hb, Ho. by apply active_next. Qed.

Lemma load_inv layout r env :
  load layout r = Ok env →
  ∃ b, copy_of layout (slot env) r = Some b ∧ decode b = Ok (records env) ∧ flag_of b = flag env
     ∧ valid_records (records env) ∧ 0 ≤ flag env < 256.
Proof.
  intros (b & Hb & Hrest)%active_inv. exists b. split; [|done]. by destruct (slot env).
Qed.

(** ** Saving *)

Lemma read_copy_write r offset b rs f :
  fits r offset b = true → image_of rs f b → read_copy (write_at r offset b) offset = Some b.
Proof.
  intros H (Hl & Hc & _). unfold read_copy. rewrite <- Hl, slice_write_same by done.
  by rewrite Hc.
Qed.

Lemma read_copy_torn r offset b :
  fits r offset b = true → len b = ENV_SIZE → valid_crc b = false →
  read_copy (write_at r offset b) offset = None.
Proof.
  intros H Hl Hc. unfold read_copy. rewrite <- Hl, slice_write_same by done. by rewrite Hc.
Qed.

Lemma layout_fits_slot layout r s b :
  layout_fits layout r → len b = ENV_SIZE → fits r (slot_offset layout s) b = true.
Proof.
  unfold layout_fits, slot_offset. destruct (offsets layout) as [x y]. intros H Hb.
  apply fits_spec. rewrite Hb. destruct s; cbn; lia.
Qed.

Lemma read_copy_other layout r s b :
  layout_fits layout r → len b = ENV_SIZE →
  copy_of layout (negb s) (write_at r (slot_offset layout s) b) = copy_of layout (negb s) r.
Proof.
  intros H Hb. unfold copy_of, read_copy.
  rewrite slice_write_apart; [done|by apply layout_fits_slot|..];
    unfold layout_fits, slot_offset in *; destruct (offsets layout) as [x y];
    destruct s; cbn [negb fst snd]; rewrite ?Hb; unfold ENV_SIZE in *; lia.
Qed.

Lemma layout_fits_len layout r r' : len r' = len r → layout_fits layout r → layout_fits layout r'.
Proof. unfold layout_fits. destruct (offsets layout). intros ->. done. Qed.

(** What a save of valid records over a loaded environment does: the new
    records at the next flag in the other slot, and at every power cut the old
    environment or the new one. *)
Lemma save_spec layout r env rs :
  layout_fits layout r → load layout r = Ok env → valid_records rs →
  let new := {| records := rs; slot := negb (slot env); flag := (flag env + 1) mod 256 |} in
  let o := save layout {| records := rs; slot := slot env; flag := flag env |} r in
  o_result o = Ok tt ∧ layout_fits layout (o_state o) ∧ load layout (o_state o) = Ok new
  ∧ ∀ r', o_crash o r' → layout_fits layout r' ∧ (load layout r' = Ok env ∨ load layout r' = Ok new).
Proof.
  intros Hfit Hload Hrs new o.
  destruct (load_inv _ _ _ Hload) as (old & Hold & Hdold & Hfold & _ & Hf).
  assert (Hnf : 0 ≤ (flag env + 1) mod 256 < 256) by (apply Z.mod_pos_bound; lia).
  destruct (encode_valid rs ((flag env + 1) mod 256) Hrs) as [b Hb].
  pose proof (encode_image rs _ b Hrs Hnf Hb) as Himg.
  destruct Himg as (Hbl & Hbc & Hbf & Hbd).
  set (off := slot_offset layout (negb (slot env))).
  assert (Hfits : fits r off b = true) by by apply layout_fits_slot.
  assert (Hother : ∀ t, len t = ENV_SIZE →
    copy_of layout (slot env) (write_at r off t) = Some old).
  { intros t Ht. rewrite <- Hold.
    pose proof (read_copy_other layout r (negb (slot env)) t Hfit Ht) as Hx.
    by rewrite negb_involutive in Hx. }
  assert (Hnew : load layout (write_at r off b) = Ok new).
  { unfold new. rewrite <- Hbf.
    apply (load_next layout _ (negb (slot env)) b old); rewrite ?Hfold; try done.
    - eapply read_copy_write; [done|]. by split_and!.
    - rewrite negb_involutive. by apply Hother. }
  assert (Hlen : layout_fits layout (write_at r off b)).
  { eapply layout_fits_len; [|done]. by apply write_at_len. }
  assert (Ho : o = Outcome (Ok tt) (write_at r off b) (o_crash o)
    ∧ ∀ r', o_crash o r' → r' = r ∨ r' = write_at r off b ∨
        ∃ t, len t = ENV_SIZE ∧ valid_crc t = false ∧ r' = write_at r off t).
  { subst o. unfold save. cbn [records slot flag]. unfold sbind, slift. cbn [o_result o_state o_crash].
    rewrite Hb. unfold write_copy. fold off. rewrite Hfits. cbn [o_result o_state o_crash].
    rewrite Hnew. unfold new. cbn [records slot flag].
    rewrite eqb_reflx || rewrite (bool_decide_eq_true_2 (negb (slot env) = negb (slot env))) by done.
    rewrite Z.eqb_refl, bool_decide_eq_true_2 by done. cbn [andb sret o_result o_state o_crash].
    split; [done|]. intros r' [->|[[->|(t & Ht & [->|Hc] & ->)]|[->| ->]]]; auto.
    right; right. exists t. unfold len in *. by rewrite Ht. }
  destruct Ho as [Ho Hcr]. clearbody o new. rewrite Ho. cbn [o_result o_state o_crash].
  split_and!; [done..|]. intros r' Hr'. destruct (Hcr r' Hr') as [->|[->|(t & Htl & Htc & ->)]].
  { split; [exact Hfit|left; exact Hload]. }
  { split; [exact Hlen|right; exact Hnew]. }
  assert (Htf : fits r off t = true) by by apply layout_fits_slot.
  split; [apply (layout_fits_len layout r); [by apply write_at_len|exact Hfit]|]. left.
  rewrite (load_only layout _ (slot env) old (records env)); [|by apply Hother|by apply read_copy_torn|done].
  rewrite Hfold. by destruct env.
Qed.

Lemma save_invalid layout r rs s f e :
  render_records rs = Err e →
  let o := save layout {| records := rs; slot := s; flag := f |} r in
  o_result o = Err e ∧ o_state o = r ∧ ∀ r', o_crash o r' → r' = r.
Proof.
  intros H. unfold save, sbind, slift, encode. cbn [records slot flag o_result o_state o_crash].
  by rewrite H.
Qed.

(** * The layout *)

Lemma check_offset_spec sectors offset u :
  check_offset sectors offset = Ok u ↔
  offset mod 512 = 0 ∧ wrap64 (offset + ENV_SIZE) ≤ wrap64 (sectors * 512).
Proof.
  unfold check_offset. split.
  - intros H. destruct (offset mod 512 =? 0) eqn:E1; [|done].
    destruct (wrap64 _ <=? wrap64 _) eqn:E2; [|done]. bools. done.
  - intros [H1 H2]. rewrite H1, (proj2 (Z.leb_le _ _)) by done. cbn. by destruct u.
Qed.

Lemma wrap_offset offset :
  is_u64 offset → offset + ENV_SIZE ≤ U64_MAX → wrap64 (offset + ENV_SIZE) = offset + ENV_SIZE.
Proof. intros H1 H2. apply wrap64_small. unfold is_u64, ENV_SIZE in *. lia. Qed.

(** * A sample device *)

Definition sample_records : list BootRecord :=
  [{| id := "0123456789abcdef0123456789abcdef0123456789abcdef0123456789abcdef";
      kernel_id := "1123456789abcdef0123456789abcdef0123456789abcdef0123456789abcdef";
      generation := 7; tries_left := None |}].
Definition sample_candidate : BootRecord :=
  {| id := "2123456789abcdef0123456789abcdef0123456789abcdef0123456789abcdef";
     kernel_id := "1123456789abcdef0123456789abcdef0123456789abcdef0123456789abcdef";
     generation := 8; tries_left := Some 3 |}.
Definition sample_layout : FitLayout :=
  {| start_sector := 2048; sectors := 256; offsets := (0, 65536) |}.
(** A region whose two copies hold [rs] at flag 255. *)
Definition region_of (rs : list BootRecord) : region :=
  match encode rs 255 with Ok b => b ++ b | Err _ => [] end.
Definition sample_region : region := region_of sample_records.

Lemma sample_records_valid : valid_records sample_records.
Proof.
  split; [done|]. cbn [chain sample_records]. split_and!; [|split; [done|constructor]|done].
  unfold valid_record, valid_tries. by split_and!.
Qed.

Lemma sample_next_valid : valid_records (sample_candidate :: sample_records).
Proof.
  split; [done|]. cbn [chain sample_records app]. unfold follows. cbn [id generation].
  split_and!; try done; try (by unfold valid_record, valid_tries; split_and!).
  - unfold valid_record, valid_tries. split_and!; try done. by intros v [= <-].
  - by repeat constructor.
Qed.

Lemma region_of_load rs :
  valid_records rs →
  layout_fits sample_layout (region_of rs)
  ∧ load sample_layout (region_of rs) = Ok {| records := rs; slot := false; flag := 255 |}.
Proof.
  intros Hrs. unfold region_of.
  destruct (encode_valid rs 255 Hrs) as [b Hb].
  pose proof (encode_image rs 255 b Hrs ltac:(lia) Hb) as (Hl & Hc & Hf & Hd).
  rewrite Hb. assert (Hll : len (b ++ b) = 131072) by by rewrite len_app, Hl.
  split; [unfold layout_fits; cbn [offsets sample_layout]; rewrite Hll; unfold ENV_SIZE; lia|].
  assert (Hs : ∀ s, copy_of sample_layout s (b ++ b) = Some b).
  { intros s. unfold copy_of, read_copy.
    assert (slice (b ++ b) (slot_offset sample_layout s) ENV_SIZE = Some b) as ->; [|by rewrite Hc].
    unfold slice. rewrite Hll. destruct s; cbn [slot_offset sample_layout offsets fst snd];
      rewrite !(proj2 (Z.leb_le _ _)) by (unfold ENV_SIZE; lia); cbn [andb]; f_equal; unfold len in Hl.
    - rewrite drop_app_length' by (rewrite <- (Nat2Z.id (length b)), Hl; done).
      apply take_ge. unfold ENV_SIZE in *. lia.
    - rewrite Z2Nat.inj_0, drop_0. apply take_app_length'. unfold ENV_SIZE in *. lia. }
  unfold load. fold (copy_of sample_layout false (b ++ b)) (copy_of sample_layout true (b ++ b)).
  rewrite !Hs. cbn [active]. rewrite Hf. change (second_newer 255 255) with false. cbv match.
  rewrite Hd. cbn [rbind]. by rewrite Hf.
Qed.

Lemma sample_load :
  layout_fits sample_layout sample_region
  ∧ load sample_layout sample_region = Ok {| records := sample_records; slot := false; flag := 255 |}.
Proof. apply region_of_load, sample_records_valid. Qed.

(** * Properties *)

(** A boot record text is accepted exactly when it is the canonical
    rendering of one or two records, newest first, of distinct ids, positive
    generations and at most three attempts; rendering such records succeeds, in
    at most 300 bytes, and parses back to them. *)
Theorem parse_render_canonical text rs :
  (parse_records text = Ok rs → valid_records rs ∧ render_records rs = Ok text)
  ∧ (valid_records rs →
     ∃ t, render_records rs = Ok t ∧ parse_records t = Ok rs ∧ str_len t ≤ 300).
Proof.
  split.
  - intros [H ->]%parse_records_spec. split; [done|]. by apply render_records_valid.
  - intros H. exists (records_text rs). split; [by apply render_records_valid|].
    split; [by apply parse_records_spec|by apply records_text_len].
Qed.

(** C33: the environment image of valid records is written whole: 65536 bytes,
    with a CRC the reader accepts, the flag it was given, and decoding to
    exactly the records encoded. *)
Theorem encode_decode rs f :
  valid_records rs → 0 ≤ f < 256 →
  ∃ b, encode rs f = Ok b ∧ len b = ENV_SIZE ∧ valid_crc b = true ∧ flag_of b = f ∧ decode b = Ok rs.
Proof.
  intros H Hf. destruct (encode_valid rs f H) as [b Hb]. exists b. split; [done|].
  by apply (encode_image rs f b).
Qed.

Lemma encode_decode_witness :
  ∃ b, encode (sample_candidate :: sample_records) 0 = Ok b ∧ len b = ENV_SIZE
    ∧ valid_crc b = true ∧ flag_of b = 0 ∧ decode b = Ok (sample_candidate :: sample_records).
Proof. apply (encode_decode (sample_candidate :: sample_records) 0); [apply sample_next_valid|lia]. Defined.

(** C32: saving records over a loaded pair succeeds and makes them the ones the
    boot loader's redundancy rule takes, in the other copy with the next flag
    (the wrap from 255 to 0 included); a power cut at any point of the write
    leaves a pair that loads as the old environment or as the new one. *)
Theorem save_atomic layout r env rs :
  layout_fits layout r → load layout r = Ok env → valid_records rs →
  let new := {| records := rs; slot := negb (slot env); flag := (flag env + 1) mod 256 |} in
  let o := save layout {| records := rs; slot := slot env; flag := flag env |} r in
  o_result o = Ok tt ∧ load layout (o_state o) = Ok new
  ∧ ∀ r', o_crash o r' → load layout r' = Ok env ∨ load layout r' = Ok new.
Proof.
  intros Hf Hl Hv new o. destruct (save_spec layout r env rs Hf Hl Hv) as (H1 & _ & H2 & H3).
  split; [exact H1|]. split; [exact H2|]. intros r' Hr. exact (proj2 (H3 r' Hr)).
Qed.

Lemma save_atomic_witness :
  let rs := sample_candidate :: sample_records in
  let o := save sample_layout {| records := rs; slot := false; flag := 255 |} sample_region in
  o_result o = Ok tt
  ∧ load sample_layout (o_state o) = Ok {| records := rs; slot := true; flag := 0 |}.
Proof.
  intros rs o.
  destruct (save_atomic sample_layout sample_region
    {| records := sample_records; slot := false; flag := 255 |} rs
    (proj1 sample_load) (proj2 sample_load) sample_next_valid) as (H1 & H2 & _).
  split; [exact H1|exact H2].
Defined.

(** An accepted layout has sector-aligned copies that do not overlap, and
    each one lies inside the partition, unless its offset is in the last 65536
    bytes of the 64-bit range, where the sum wraps. *)
Theorem new_layout_sound start n a b l :
  is_u64 a → is_u64 b → new_layout start n (a, b) = Ok l →
  l = {| start_sector := start; sectors := n; offsets := (a, b) |}
  ∧ 1 ≤ start ≤ MAX_SECTORS ∧ 1 ≤ n ≤ MAX_SECTORS
  ∧ a mod 512 = 0 ∧ b mod 512 = 0 ∧ ENV_SIZE ≤ Z.abs (a - b)
  ∧ (a + ENV_SIZE ≤ U64_MAX → a + ENV_SIZE ≤ n * 512)
  ∧ (b + ENV_SIZE ≤ U64_MAX → b + ENV_SIZE ≤ n * 512).
Proof.
  intros Ha Hb H. unfold new_layout in H.
  destruct (in_bounds 1 MAX_SECTORS start && in_bounds 1 MAX_SECTORS n) eqn:Hg; [|done].
  cbn [fst snd] in H.
  destruct (check_offset n a) as [u|] eqn:E1; [|done]. cbn [rbind] in H.
  destruct (check_offset n b) as [v|] eqn:E2; [|done]. cbn [rbind] in H.
  destruct (ENV_SIZE <=? Z.abs (a - b)) eqn:E3; [|done]. injection H as <-.
  apply check_offset_spec in E1 as [Ha1 Ha2]. apply check_offset_spec in E2 as [Hb1 Hb2].
  unfold in_bounds in Hg. bools. split_and!; try done.
  all: assert (Hn : is_u64 (n * 512)) by (unfold is_u64, U64_MAX, MAX_SECTORS in *; lia).
  - intros Hx. by rewrite (wrap_offset a), wrap64_small in Ha2.
  - intros Hx. by rewrite (wrap_offset b), wrap64_small in Hb2.
Qed.

Lemma new_layout_sound_witness :
  new_layout 2048 256 (0, 65536) = Ok sample_layout ∧ 65536 + ENV_SIZE ≤ 256 * 512.
Proof.
  assert (H : new_layout 2048 256 (0, 65536) = Ok sample_layout) by reflexivity.
  split; [exact H|].
  destruct (new_layout_sound 2048 256 0 65536 sample_layout) as (_ & _ & _ & _ & _ & _ & _ & Hb);
    [unfold is_u64, U64_MAX; lia..|exact H|]. apply Hb. unfold ENV_SIZE, U64_MAX. lia.
Defined.

(** The wrap is reachable: an offset 65536 bytes below 2^64 is accepted for a
    partition of 1 MiB. *)
Lemma new_layout_wraps :
  is_ok (new_layout 1 2048 (0, 18446744073709486080)) = true
  ∧ ¬ 18446744073709486080 + ENV_SIZE ≤ 2048 * 512.
Proof. split; [reflexivity|unfold ENV_SIZE; lia]. Qed.

End FitEnv.
