(* ===== verification/RecordStore.v ===== *)
(** What the deployment store is promised by the place its boot records live in
    ([src/crates/mica-deploy/src/deployments.rs], [BootBackend::records] and
    [BootBackend::save_records]): a class of the two operations with their laws,
    power cuts included, and its instance for the raw partition of a FIT board. *)
From S2P Require Import Prelude Text Boot FitEnv.
Import Boot FitEnv.

Module RecordStore.

Definition with_records (env : Environment) (rs : list BootRecord) : Environment :=
  {| records := rs; slot := slot env; flag := flag env |}.

(** A place that keeps the boot records: [rs_inv] is what a device in service
    satisfies. A save of well-formed records over a loaded environment commits
    them, and a power cut during it leaves the old records or the new ones; a
    save of records that do not render changes nothing. *)
Class Records (R : Type) := {
  rs_load : R → result Environment;
  rs_save : Environment → M R unit;
  rs_inv : R → Prop;
  rs_inv_load : ∀ r, rs_inv r → ∃ env, rs_load r = Ok env ∧ valid_records (records env);
  rs_save_valid : ∀ r env rs,
    rs_inv r → rs_load r = Ok env → valid_records rs →
    safe (rs_save (with_records env rs) r)
      (λ _ r', rs_inv r' ∧ ∃ env', rs_load r' = Ok env' ∧ records env' = rs)
      (λ r', rs_inv r' ∧ ∃ env', rs_load r' = Ok env'
               ∧ (records env' = records env ∨ records env' = rs))
    ∧ o_result (rs_save (with_records env rs) r) = Ok tt;
  rs_save_invalid : ∀ r env rs e,
    rs_inv r → render_records rs = Err e →
    let o := rs_save (with_records env rs) r in
    o_result o = Err e ∧ o_state o = r ∧ ∀ r', o_crash o r' → r' = r;
}.

(** The raw partition of a FIT board, at the layout its signed policy names. *)
#[export] Program Instance fit_records (layout : FitLayout) : Records region := {|
  rs_load := load layout;
  rs_save := save layout;
  rs_inv r := layout_fits layout r ∧ is_ok (load layout r) = true;
|}.
Next Obligation.
  intros layout r [_ H]. destruct (load layout r) as [env|] eqn:E; [|done].
  exists env. split; [done|]. by destruct (load_inv _ _ _ E) as (b & _ & _ & _ & Hv & _).
Qed.
Next Obligation.
  intros layout r env rs [Hf _] Hl Hv. unfold with_records.
  destruct (save_spec layout r env rs Hf Hl Hv) as (H1 & H2 & H3 & H4).
  split; [|exact H1]. split; [|split].
  - intros [] _. rewrite H3. split; [done|]. eauto.
  - rewrite H3. split; [done|]. eauto.
  - intros r' Hr. destruct (H4 r' Hr) as [Hf' [Hx|Hx]]; rewrite Hx; (split; [done|]; eauto).
Qed.
Next Obligation.
  intros layout r env rs e _ H. exact (save_invalid layout r rs (slot env) (flag env) e H).
Qed.

(** A board with one of two such places ([BootBackend::Fit] or
    [BootBackend::Ubi]). *)
#[export] Program Instance sum_records {A B : Type} (HA : Records A) (HB : Records B) : Records (A + B) := {|
  rs_load r := match r with inl a => rs_load a | inr b => rs_load b end;
  rs_save env := λ r,
    match r with
    | inl a => szoom (λ _, a) (λ a' _, inl a') (rs_save env) r
    | inr b => szoom (λ _, b) (λ b' _, inr b') (rs_save env) r
    end;
  rs_inv r := match r with inl a => rs_inv a | inr b => rs_inv b end;
|}.
Next Obligation. by intros A B HA HB [a|b]; apply rs_inv_load. Qed.
Next Obligation.
  intros A B HA HB [a|b] env rs Hi Hl Hv; destruct (rs_save_valid _ env rs Hi Hl Hv) as [Hs Hr];
    (split; [by apply safe_zoom|exact Hr]).
Qed.
Next Obligation.
  intros A B HA HB [a|b] env rs e Hi He; cbn; destruct (rs_save_invalid _ env rs e Hi He) as (H1 & H2 & H3);
    (split; [done|]; split; [by rewrite H2|]; intros r' (v & Hv & ->); by rewrite (H3 v Hv)).
Qed.

End RecordStore.
