(* ===== verification/Deployments.v ===== *)
(** The deployment store's durable state and boot entries
    ([src/crates/mica-deploy/src/deployments.rs]): the entries of both kinds of
    boot backend, the diagnostic state and its reconciliation with them, the
    receipt check, and the two writes to the entries every transaction uses. *)
From Stdlib Require Import Ascii Sorted.
From S2P Require Import Prelude Text Files Boot FitEnv RecordStore.
Import Files(node(..), read_node, node_eq).
Import Boot FitEnv RecordStore.

Module Deployments.

(** * Data *)

Record BootReceipt := {
  rc_backend : BootKind;
  rc_deployment_id : string;
  rc_entry : string;
  rc_kernel_id : string;
  rc_rootfs_id : string;
  rc_content_verified : bool;
  rc_secure_boot : bool;
  rc_boot_verified : bool;
}.

Record State := {
  highest_generation : Z;
  current : option string;
  fallback : option string;
  candidate : option string;
  failed : list string;
}.
#[export] Instance State_eq : EqDecision State.
Proof. solve_decision. Defined.
Definition default_state : State :=
  {| highest_generation := 0; current := None; fallback := None; candidate := None; failed := [] |}.

Record Entry := {
  e_id : string;
  e_file : string;
  e_generation : Z;
  e_tries : option Z;
}.
#[export] Instance Entry_eq : EqDecision Entry.
Proof. solve_decision. Defined.

(** What the board's loader proves of a FIT ([board.rs], [BootTrust]). *)
Inductive BootTrust := TrustFit | TrustNone.
#[export] Instance BootTrust_eq : EqDecision BootTrust.
Proof. solve_decision. Defined.
#[export] Instance BootKind_eq : EqDecision BootKind.
Proof. solve_decision. Defined.

(** A directory of the ESP, in the order it is read. *)
Record dirent := { d_name : bytes; d_node : node }.

(** The boot backend: the ESP's [loader/entries] ([None] when that is not a
    directory), or a place that keeps FIT boot records. *)
Inductive backend (R : Type) :=
| BackendUefi (entries_dir : option (list dirent))
| BackendRecords (r : R).
Arguments BackendUefi {R} entries_dir.
Arguments BackendRecords {R} r.

(** * Reading entries *)

Definition versions_of (content : string) : list string :=
  omap (strip_prefix "version ") (lines content).

Definition tries_of_file (file : string) : result (option Z) :=
  match split_once "+" file with
  | None => Ok None
  | Some (_, String c _) => Ok (Some (digit_val c))
  | Some (_, EmptyString) => Err (Msg "panic: index out of bounds")
  end.

Definition is_entry_file (file : string) : bool :=
  starts_with "mica-" file && ends_with ".conf" file.

(** One directory item: skipped, refused, or an entry. *)
Definition read_entry (entries : list Entry) (item : dirent) : result (option Entry) :=
  ensure valid_utf8 (d_name item) else "invalid entry name" in
  let file := bytes_str (d_name item) in
  if negb (is_entry_file file) then Ok None
  else
    let? id := selected_entry file in
    ensure negb (existsb (λ e, bool_decide (e_id e = id)) entries)
      else "ambiguous boot entries" in
    let? content := read_node (d_node item) 4096 in
    ensure valid_utf8 content else "invalid utf-8" in
    match versions_of (bytes_str content) with
    | [version] =>
        let? g := with_context (parse_u64 version) "invalid digit found in string" in
        ensure (0 <? g) && bool_decide (to_dec g = version) else "invalid entry generation" in
        let? tries := tries_of_file file in
        Ok (Some {| e_id := id; e_file := file; e_generation := g; e_tries := tries |})
    | _ => Err (Msg "entry has no unique version")
    end.

Fixpoint read_entries (entries : list Entry) (dir : list dirent) : result (list Entry) :=
  match dir with
  | [] => Ok entries
  | item :: dir' =>
      let? found := read_entry entries item in
      match found with
      | None => read_entries entries dir'
      | Some e =>
          ensure len (entries ++ [e]) <=? 2 else "too many deployment entries" in
          read_entries (entries ++ [e]) dir'
      end
  end.

(** [sort_by_key(Reverse(generation))]: newest first, stable. *)
Fixpoint insert_entry (e : Entry) (l : list Entry) : list Entry :=
  match l with
  | [] => [e]
  | x :: l' => if e_generation x <=? e_generation e then e :: x :: l' else x :: insert_entry e l'
  end.
Definition sort_entries (l : list Entry) : list Entry := foldr insert_entry [] l.

Definition record_entry (r : BootRecord) : Entry :=
  {| e_id := id r; e_file := "fit:" +:+ id r; e_generation := generation r; e_tries := tries_left r |}.

(** * The state document *)

Definition ids_of (s : State) : list string :=
  option_list (current s) ++ option_list (fallback s) ++ option_list (candidate s) ++ failed s.

Definition read_state (d : doc State) : result State :=
  shared_data (match d with
  | Absent => Ok default_state
  | Unreadable => Err (Msg "deployments.json cannot be read")
  | Holds s =>
      ensure len (failed s) <=? 128 else "failed deployment set exceeds limit" in
      let? _ := each valid_id (ids_of s) in
      Ok s
  end).

(** * Reconciliation *)

Definition has (ids : list string) (id : string) : bool := bool_decide (id ∈ ids).
Definition unconfirmed (e : Entry) : bool := bool_decide (e_tries e ≠ None).
Definition usable (e : Entry) : bool := bool_decide (e_tries e ≠ Some 0).
Definition opt_filter {A} (p : A → bool) (o : option A) : option A :=
  match o with Some a => if p a then Some a else None | None => None end.
Definition or_else {A} (o o' : option A) : option A :=
  match o with Some _ => o | None => o' end.
Definition max_generation (entries : list Entry) : Z :=
  foldr Z.max 0 (map e_generation entries).
Definition tries_positive (e : Entry) : bool :=
  match e_tries e with Some t => 0 <? t | None => false end.

(** The newest uncounted entry that was not rejected: the durable fact of a
    confirmation. *)
Definition confirmed_entry (s : State) (entries : list Entry) : option Entry :=
  List.find (λ e, negb (unconfirmed e) && negb (has (failed s) (e_id e))) entries.

(** [usable] of [effective_state]: another entry than the confirmed one, with
    an attempt left, and not rejected. *)
Definition usable_fallback (s : State) (entries : list Entry) (confirmed id : string) : bool :=
  existsb (λ e, bool_decide (e_id e = id) && negb (bool_decide (e_id e = confirmed))
                && usable e && negb (has (failed s) id)) entries.

Definition adopt_confirmed (s : State) (entries : list Entry) : State :=
  match confirmed_entry s entries with
  | Some c =>
      if bool_decide (current s = Some (e_id c)) then s
      else
        let ok := usable_fallback s entries (e_id c) in
        {| highest_generation := highest_generation s;
           current := Some (e_id c);
           fallback := or_else (opt_filter ok (current s)) (opt_filter ok (fallback s));
           candidate := candidate s; failed := failed s |}
  | None => s
  end.

Definition pending_candidates (s : State) (entries : list Entry) (g : Z) : list Entry :=
  List.filter (λ e, (g <? e_generation e) && tries_positive e && negb (has (failed s) (e_id e))
                    && negb (bool_decide (fallback s = Some (e_id e)))) entries.

Definition set_candidate (s : State) (c : option string) : State :=
  {| highest_generation := highest_generation s; current := current s; fallback := fallback s;
     candidate := c; failed := failed s |}.

(** [effective_state], after the document and the entries are read. *)
Definition reconcile (s : State) (entries : list Entry) : result State :=
  let s := {| highest_generation := Z.max (highest_generation s) (max_generation entries);
              current := current s; fallback := fallback s; candidate := candidate s;
              failed := failed s |} in
  let s := adopt_confirmed s entries in
  let s := {| highest_generation := highest_generation s; current := current s;
              fallback := opt_filter (λ id, existsb (λ e, bool_decide (e_id e = id)) entries) (fallback s);
              candidate := candidate s; failed := failed s |} in
  match current s with
  | None => Ok s
  | Some cur =>
      let? e := with_context (List.find (λ e, bool_decide (e_id e = cur)) entries)
                  "confirmed deployment entry is missing" in
      let candidates := pending_candidates s entries (e_generation e) in
      ensure len candidates <=? 1 else "ambiguous pending deployments" in
      Ok (set_candidate s (e_id <$> head candidates))
  end.

Section store.
Context {R : Type} {HR : Records R} (boot_trust : BootTrust).

(** * The store *)

Record world := { w_state : doc State; w_boot : backend R }.
Definition set_state (s : State) (w : world) : world := {| w_state := Holds s; w_boot := w_boot w |}.
Definition set_boot (b : backend R) (w : world) : world := {| w_state := w_state w; w_boot := b |}.

Definition state (w : world) : result State := read_state (w_state w).

Definition save_state (s : State) : M world unit := swrite (set_state s).

Definition boot_records (b : backend R) : result Environment :=
  match b with
  | BackendUefi _ => Err (Msg "a UEFI board has no FIT boot records")
  | BackendRecords r => rs_load r
  end.

Definition entries_of (b : backend R) : result (list Entry) :=
  match b with
  | BackendRecords _ =>
      let? env := boot_records b in Ok (map record_entry (records env))
  | BackendUefi None => Err (Msg "invalid entries directory")
  | BackendUefi (Some dir) => let? es := read_entries [] dir in Ok (sort_entries es)
  end.
Definition entries (w : world) : result (list Entry) := entries_of (w_boot w).

Definition effective_state (w : world) : result State :=
  let? s := state w in
  let? es := entries w in
  reconcile s es.

(** Commit an environment to the records. *)
Definition save_records (env : Environment) : M world unit := λ w,
  match w_boot w with
  | BackendUefi _ =>
      Outcome (Err (Msg "a UEFI board has no FIT boot records")) w (λ w', w' = w)
  | BackendRecords r =>
      szoom (λ _, r) (λ r' w', set_boot (BackendRecords r') w') (rs_save env) w
  end.

(** * The receipt *)

Definition validate_receipt (receipt : BootReceipt) (w : world) : result unit :=
  ensure rc_content_verified receipt else "running content is not authenticated" in
  let? _ := valid_id (rc_deployment_id receipt) in
  match w_boot w with
  | BackendUefi _ =>
      ensure bool_decide (rc_backend receipt = Uefi)
             && Bool.eqb (rc_boot_verified receipt) (rc_secure_boot receipt)
        else "boot receipt backend mismatch" in
      let? selected := selected_entry (rc_entry receipt) in
      ensure bool_decide (selected = rc_deployment_id receipt)
        else "boot receipt identity mismatch" in
      Ok tt
  | BackendRecords _ =>
      ensure bool_decide (rc_backend receipt = UbootFit) && negb (rc_secure_boot receipt)
             && Bool.eqb (rc_boot_verified receipt) (bool_decide (boot_trust = TrustFit))
        else "boot receipt backend mismatch" in
      ensure bool_decide (rc_entry receipt = "fit:" +:+ rc_deployment_id receipt)
        else "boot receipt identity mismatch" in
      let? env := boot_records (w_boot w) in
      ensure existsb (λ r, bool_decide (id r = rc_deployment_id receipt)
                           && bool_decide (kernel_id r = rc_kernel_id receipt)) (records env)
        else "boot receipt kernel mismatch" in
      Ok tt
  end.

(** * Writing entries *)

Definition named (file : string) (item : dirent) : bool :=
  bool_decide (d_name item = str_bytes file).

(** [fs::rename] in the entries directory: an existing file of the new name is
    replaced, and a directory of that name refuses. *)
Definition rename (old new : string) (dir : list dirent) : result (list dirent) :=
  match List.find (named old) dir with
  | None => Err (Msg "No such file or directory")
  | Some item =>
      if bool_decide (old = new) then Ok dir
      else
        ensure negb (existsb (λ x, named new x && match d_node x with Directory => true | _ => false end) dir)
          else "Is a directory" in
        Ok (map (λ x, if named old x then {| d_name := str_bytes new; d_node := d_node x |} else x)
              (List.filter (λ x, negb (named new x)) dir))
  end.

Definition remove_file (file : string) (dir : list dirent) : result (list dirent) :=
  match List.find (named file) dir with
  | None => Err (Msg "No such file or directory")
  | Some item =>
      match d_node item with
      | Directory => Err (Msg "Is a directory")
      | _ => Ok (List.filter (λ x, negb (named file x)) dir)
      end
  end.

(** One atomic change of the entries directory, synced. *)
Definition in_directory (f : list dirent → result (list dirent)) : M world unit := λ w,
  match w_boot w with
  | BackendUefi (Some dir) =>
      match f dir with
      | Ok dir' => swrite (set_boot (BackendUefi (Some dir'))) w
      | Err e => slift (λ _, Err e) w
      end
  | _ => slift (λ _, Err (Msg "invalid entries directory")) w
  end.

Definition tries_suffix (tries : option Z) : result string :=
  match tries with
  | None => Ok ".conf"
  | Some t => if t =? 0 then Ok "+0-3.conf" else Err (Msg "attempts cannot be refilled")
  end.

(** The record of the entry's id and generation, with its counter set. *)
Fixpoint set_record_tries (entry : Entry) (tries : option Z) (rs : list BootRecord) :
    option (list BootRecord) :=
  match rs with
  | [] => None
  | r :: rs' =>
      if bool_decide (id r = e_id entry) && (generation r =? e_generation entry) then
        Some ({| id := id r; kernel_id := kernel_id r; generation := generation r;
                 tries_left := tries |} :: rs')
      else cons r <$> set_record_tries entry tries rs'
  end.

Definition set_tries (entry : Entry) (tries : option Z) : M world unit := λ w,
  match w_boot w with
  | BackendUefi _ =>
      (let! suffix := slift (λ _, tries_suffix tries) in
       in_directory (rename (e_file entry) ("mica-" +:+ e_id entry +:+ suffix))) w
  | BackendRecords _ =>
      (ensure! match tries with None => true | Some t => t =? 0 end
         else "attempts cannot be refilled" in
       let! env := slift (λ w, boot_records (w_boot w)) in
       let! rs := slift (λ _, with_context (set_record_tries entry tries (records env))
                                "boot record is missing") in
       save_records (with_records env rs)) w
  end.

Fixpoint each_m {A} (f : A → M world unit) (l : list A) : M world unit :=
  match l with
  | [] => sret tt
  | a :: l' => let! _ := f a in each_m f l'
  end.

Definition keeps (keep : list (option string)) (id : string) : bool :=
  bool_decide (Some id ∈ keep).

Definition retain_entries (es : list Entry) (keep : list (option string)) : M world unit := λ w,
  match w_boot w with
  | BackendUefi _ =>
      each_m (λ e, if keeps keep (e_id e) then sret tt else in_directory (remove_file (e_file e))) es w
  | BackendRecords _ =>
      (let! env := slift (λ w, boot_records (w_boot w)) in
       let! _ := save_records (with_records env (List.filter (λ r, keeps keep (id r)) (records env))) in
       let! again := slift (λ w, boot_records (w_boot w)) in
       save_records again) w
  end.

(** Retire a failed confirmed boot; a counted entry is left to the firmware. *)
Definition retire_failed_confirmed (the_id : string) : M world bool :=
  let! _ := slift (λ _, valid_id the_id) in
  let! es := slift entries in
  let! entry := slift (λ _, with_context (List.find (λ e, bool_decide (e_id e = the_id)) es)
                              "selected boot record is missing") in
  if unconfirmed entry then sret false
  else
    ensure! existsb (λ e, negb (bool_decide (e_id e = the_id)) && usable e) es
      else "no usable fallback remains; recovery required" in
    let! _ := set_tries entry (Some 0) in
    sret true.

Definition fail_boot (receipt : BootReceipt) : M world bool :=
  let! _ := slift (validate_receipt receipt) in
  retire_failed_confirmed (rc_deployment_id receipt).

End store.

(** * Lists *)

Lemma omap_map {A B C} (f : B → option C) (g : A → B) l : omap f (map g l) = omap (f ∘ g) l.
Proof. induction l as [|a l IH]; [done|]. cbn. rewrite IH. done. Qed.

Lemma omap_map_ext {A B} (f : A → option B) (g : A → A) (u : B → B) l :
  Forall (λ x, f (g x) = u <$> f x) l → omap f (map g l) = map u (omap f l).
Proof.
  induction 1 as [|x l Hx Hl IH]; [done|]. cbn. rewrite Hx, IH. by destruct (f x).
Qed.

Lemma omap_filter {A B} (f : A → option B) (p : A → bool) (q : B → bool) l :
  Forall (λ x, ∀ b, f x = Some b → p x = q b) l →
  omap f (List.filter p l) = List.filter q (omap f l).
Proof.
  induction 1 as [|x l Hx Hl IH]; [done|]. cbn. destruct (f x) as [b|] eqn:E.
  - specialize (Hx b eq_refl). rewrite Hx. cbn. destruct (q b); cbn; rewrite ?E, IH; done.
  - destruct (p x); cbn; rewrite ?E; done.
Qed.

Lemma filter_all {A} (p : A → bool) l : Forall (λ x, p x = true) l → List.filter p l = l.
Proof. induction 1 as [|x l Hx Hl IH]; [done|]. cbn. by rewrite Hx, IH. Qed.

Lemma elem_of_filter {A} (p : A → bool) l x : x ∈ List.filter p l ↔ p x = true ∧ x ∈ l.
Proof. rewrite !list_elem_of_In, List.filter_In. tauto. Qed.

Lemma find_elem {A} (p : A → bool) l x : List.find p l = Some x → x ∈ l ∧ p x = true.
Proof. intros H%List.find_some. by rewrite list_elem_of_In. Qed.

Lemma existsb_elem {A} (p : A → bool) l : existsb p l = true ↔ ∃ x, x ∈ l ∧ p x = true.
Proof. rewrite existsb_exists. by setoid_rewrite list_elem_of_In. Qed.

Lemma NoDup_filter_map {A B} (f : A → B) (p : A → bool) l :
  NoDup (map f l) → NoDup (map f (List.filter p l)).
Proof.
  induction l as [|x l IH]; [done|]. cbn. rewrite NoDup_cons. intros [Hx Hl].
  destruct (p x); [|by apply IH]. cbn. apply NoDup_cons. split; [|by apply IH].
  intros Hin. apply Hx. apply list_elem_of_fmap in Hin as (y & -> & Hy).
  apply elem_of_filter in Hy as [_ Hy]. apply list_elem_of_fmap. eauto.
Qed.

(** Two distinct positions of a list with distinct keys have distinct keys. *)
Lemma NoDup_map_inj {A B} (f : A → B) l x y :
  NoDup (map f l) → x ∈ l → y ∈ l → f x = f y → x = y.
Proof.
  induction l as [|z l IH]; [by intros _ ?%not_elem_of_nil|]. cbn. rewrite NoDup_cons.
  intros [Hz Hl] [->|Hx]%elem_of_cons [->|Hy]%elem_of_cons E; [done|..|by apply IH].
  - destruct Hz. rewrite E. apply list_elem_of_fmap. eauto.
  - destruct Hz. rewrite <- E. apply list_elem_of_fmap. eauto.
Qed.

(** * Sorting *)

Lemma sort_entries_perm l : sort_entries l ≡ₚ l.
Proof.
  assert (Hi : ∀ e l, insert_entry e l ≡ₚ e :: l).
  { intros e k. induction k as [|x k IH]; [done|]. cbn. destruct (_ <=? _); [done|].
    rewrite IH. apply Permutation_swap. }
  induction l as [|e l IH]; [done|]. cbn. by rewrite Hi, IH.
Qed.

Lemma sort_entries_map u l :
  (∀ e, e_generation (u e) = e_generation e) → sort_entries (map u l) = map u (sort_entries l).
Proof.
  intros Hu. assert (Hi : ∀ e k, insert_entry (u e) (map u k) = map u (insert_entry e k)).
  { intros e k. induction k as [|x k IH]; [done|]. cbn. rewrite !Hu.
    destruct (_ <=? _); [done|]. by rewrite IH. }
  unfold sort_entries. induction l as [|e l IH]; [done|]. cbn. by rewrite IH, Hi.
Qed.

Lemma sort_entries_sorted l : Sorted (λ a b, e_generation b ≤ e_generation a) (sort_entries l).
Proof.
  assert (Hi : ∀ e k, Sorted (λ a b, e_generation b ≤ e_generation a) k →
    Sorted (λ a b, e_generation b ≤ e_generation a) (insert_entry e k)).
  { intros e k Hk. induction Hk as [|x k Hk IH Hx]; [repeat constructor|]. cbn.
    destruct (Z.leb_spec (e_generation x) (e_generation e)).
    - repeat constructor; done.
    - constructor; [done|]. destruct k as [|y k]; cbn; [constructor; lia|].
      inversion Hx; subst. destruct (_ <=? _); constructor; lia. }
  induction l as [|e l IH]; [constructor|]. cbn. by apply Hi.
Qed.

(** * The entries of an ESP *)

(** What one directory item says by itself. *)
Definition item_entry (item : dirent) : option Entry :=
  match read_entry [] item with Ok o => o | Err _ => None end.
Definition item_ok (item : dirent) : bool := is_ok (read_entry [] item).

Lemma read_entry_spec acc item o :
  read_entry acc item = Ok o ↔
  item_ok item = true ∧ o = item_entry item
  ∧ ∀ e, o = Some e → Forall (λ x, e_id x ≠ e_id e) acc.
Proof.
  assert (Hamb : ∀ id, existsb (λ e, bool_decide (e_id e = id)) acc = false ↔
    Forall (λ x, e_id x ≠ id) acc).
  { intros id. rewrite <- not_true_iff_false, existsb_elem, Forall_forall. split.
    - intros H x Hx E. apply H. exists x. split; [done|]. by apply bool_decide_eq_true.
    - intros H (x & Hx & E%bool_decide_eq_true). by apply (H x Hx). }
  unfold item_ok, item_entry, read_entry.
  destruct (valid_utf8 (d_name item)); [|by split; [|intros [? _]]].
  destruct (negb (is_entry_file _)).
  { cbn. split; [intros [= <-]; by split_and!|by intros (_ & -> & _)]. }
  destruct (selected_entry _) as [id|]; cbn [rbind]; [|by split; [|intros [? _]]].
  cbn [existsb negb].
  destruct (existsb _ acc) eqn:Ha; cbn [negb].
  - split; [done|]. intros (Hok & -> & Hf). exfalso.
    destruct (read_node _ _) as [content|]; cbn [rbind] in *; [|done].
    destruct (valid_utf8 content); [|done].
    destruct (versions_of _) as [|v [|? ?]]; try done.
    destruct (with_context _ _) as [g|]; cbn [rbind] in *; [|done].
    destruct (_ && _); [|done]. destruct (tries_of_file _) as [t|]; cbn [rbind] in *; [|done].
    specialize (Hf _ eq_refl). apply Hamb in Hf. cbn in Hf. congruence.
  - destruct (read_node _ _) as [content|]; cbn [rbind]; [|by split; [|intros [? _]]].
    destruct (valid_utf8 content); [|by split; [|intros [? _]]].
    destruct (versions_of _) as [|v [|? ?]]; try by split; [|intros [? _]].
    destruct (with_context _ _) as [g|]; cbn [rbind]; [|by split; [|intros [? _]]].
    destruct (_ && _); [|by split; [|intros [? _]]].
    destruct (tries_of_file _) as [t|]; cbn [rbind]; [|by split; [|intros [? _]]].
    cbn [is_ok]. split; [|by intros (_ & -> & _)].
    intros [= <-]. split_and!; try done. intros e [= <-]. cbn. by apply Hamb.
Qed.

(** Ids distinct from each other and from the entries before, at most two. *)
Fixpoint distinct (acc new : list Entry) : Prop :=
  match new with
  | [] => True
  | e :: new' =>
      Forall (λ x, e_id x ≠ e_id e) acc ∧ len (acc ++ [e]) ≤ 2 ∧ distinct (acc ++ [e]) new'
  end.

Lemma read_entries_spec acc dir out :
  read_entries acc dir = Ok out ↔
  Forall (λ x, item_ok x = true) dir ∧ out = acc ++ omap item_entry dir
  ∧ distinct acc (omap item_entry dir).
Proof.
  revert acc. induction dir as [|item dir IH]; intros acc; cbn [read_entries].
  { cbn. rewrite app_nil_r. split; [intros [= <-]; by split_and!|by intros (_ & -> & _)]. }
  rewrite Forall_cons.
  destruct (read_entry acc item) as [o|e] eqn:E; cbn [rbind].
  - apply read_entry_spec in E as (Hok & Ho & Hf). cbn [omap list_omap].
    rewrite <- Ho. destruct o as [e|].
    + cbn [distinct]. specialize (Hf e eq_refl).
      destruct (Z.leb_spec (len (acc ++ [e])) 2) as [Hl|Hl].
      * rewrite IH, <- app_assoc. cbn [app]. tauto.
      * split; [done|]. intros (_ & _ & _ & ? & _). lia.
    + rewrite IH. tauto.
  - split; [done|]. intros ((Hok & _) & _ & Hd). exfalso.
    assert (read_entry acc item = Ok (item_entry item)) as E'; [|congruence].
    apply read_entry_spec. split_and!; [done..|]. intros x Hx.
    cbn in Hd. rewrite Hx in Hd. apply Hd.
Qed.

Lemma distinct_spec acc new :
  distinct acc new ↔
  (new = [] ∨ len (acc ++ new) ≤ 2) ∧ NoDup (map e_id new)
  ∧ Forall (λ e, Forall (λ x, e_id x ≠ e_id e) acc) new.
Proof.
  revert acc. induction new as [|e new IH]; intros acc; cbn [distinct map].
  { split; [intros _; split_and!; [by left|constructor|constructor]|done]. }
  rewrite IH, NoDup_cons, Forall_cons, <- app_assoc. cbn [app].
  assert (Hsplit : Forall (λ e0, Forall (λ x, e_id x ≠ e_id e0) (acc ++ [e])) new ↔
    Forall (λ e0, Forall (λ x, e_id x ≠ e_id e0) acc) new ∧ e_id e ∉ map e_id new).
  { rewrite !Forall_forall. setoid_rewrite Forall_app. setoid_rewrite Forall_singleton.
    setoid_rewrite list_elem_of_fmap. split.
    - intros H. split; [intros x Hx; by apply H|]. intros (x & Hx & Hin). by apply (H x Hin).
    - intros [H1 H2] x Hx. split; [by apply H1|]. intros E. apply H2. eauto. }
  rewrite Hsplit. assert (len (acc ++ [e]) ≤ len (acc ++ e :: new)).
  { rewrite !len_app, !len_cons. pose proof (len_nonneg new). change (len []) with 0. lia. }
  split.
  - intros (H1 & H2 & [->|H3] & H4 & H5 & H6); split_and!; try done; by right.
  - intros ([?|H1] & [H2 H3] & H4 & H5); [done|]. split_and!; try done; [lia|by right].
Qed.

(** ** Names *)

(** What reading an item by a name that selects an entry gives. *)
Lemma item_entry_name item e :
  item_entry item = Some e →
  d_name item = str_bytes (e_file e) ∧ selected_entry (e_file e) = Ok (e_id e)
  ∧ tries_of_file (e_file e) = Ok (e_tries e) ∧ item_ok item = true.
Proof.
  unfold item_ok, item_entry, read_entry. intros H.
  destruct (valid_utf8 (d_name item)); [|done].
  destruct (negb (is_entry_file _)); [done|].
  destruct (selected_entry _) as [i|] eqn:Hs; [|done]. cbn [rbind existsb negb] in *.
  destruct (read_node _ _) as [content|]; [|done]. cbn [rbind] in *.
  destruct (valid_utf8 content); [|done].
  destruct (versions_of _) as [|v [|? ?]]; try done.
  destruct (with_context _ _) as [g|]; [|done]. cbn [rbind] in *.
  destruct (_ && _); [|done]. destruct (tries_of_file _) as [t|] eqn:Ht; [|done].
  cbn in *. injection H as <-. cbn. rewrite bytes_str_bytes. by split_and!.
Qed.

(** A name that selects an entry: the entry it makes of an item that was one. *)
Definition selects (file the_id : string) (tries : option Z) : Prop :=
  valid_utf8 (str_bytes file) = true ∧ is_entry_file file = true
  ∧ selected_entry file = Ok the_id ∧ tries_of_file file = Ok tries.

Definition renamed (file : string) (item : dirent) : dirent :=
  {| d_name := str_bytes file; d_node := d_node item |}.

Lemma item_entry_renamed item e file tries :
  item_entry item = Some e → selects file (e_id e) tries →
  item_entry (renamed file item) =
    Some {| e_id := e_id e; e_file := file; e_generation := e_generation e; e_tries := tries |}
  ∧ item_ok (renamed file item) = true.
Proof.
  intros H (Hu & Hf & Hs & Ht). unfold item_ok, item_entry, read_entry in *. cbn [d_name d_node renamed].
  rewrite Hu, str_bytes_str, Hf, Hs. cbn [negb rbind existsb].
  destruct (valid_utf8 (d_name item)); [|done].
  destruct (negb (is_entry_file _)); [done|].
  destruct (selected_entry (bytes_str _)) as [i|]; [|done]. cbn [rbind existsb negb] in *.
  destruct (read_node _ _) as [content|]; [|done]. cbn [rbind] in *.
  destruct (valid_utf8 content); [|done].
  destruct (versions_of _) as [|v [|? ?]]; try done.
  destruct (with_context _ _) as [g|]; [|done]. cbn [rbind] in *.
  destruct (_ && _); [|done]. rewrite Ht.
  destruct (tries_of_file (bytes_str _)) as [t|]; [|done].
  cbn in *. injection H as <-. by cbn.
Qed.

Lemma item_of_name item file the_id tries :
  selects file the_id tries → d_name item = str_bytes file → item_ok item = true →
  ∃ e, item_entry item = Some e ∧ e_id e = the_id.
Proof.
  intros (Hu & Hf & Hs & Ht) Hn Hok. unfold item_ok, item_entry, read_entry in *.
  rewrite Hn, Hu, str_bytes_str, Hf, Hs in *. cbn [negb rbind existsb] in *.
  destruct (read_node _ _) as [content|]; [|done]. cbn [rbind] in *.
  destruct (valid_utf8 content); [|done].
  destruct (versions_of _) as [|v [|? ?]]; try done.
  destruct (with_context _ _) as [g|]; [|done]. cbn [rbind] in *.
  destruct (_ && _); [|done]. rewrite Ht in *. cbn. eauto.
Qed.

Lemma is_graphic_ascii c : is_graphic c = true → byte_val c < 128.
Proof. destruct c as [[] [] [] [] [] [] [] []]; vm_compute; by intuition. Qed.

Lemma hex_id_graphic s : hex_id s = true → all_bytes is_graphic s = true.
Proof.
  apply hex_id_class. intros c. destruct c as [[] [] [] [] [] [] [] []]; vm_compute; by intuition.
Qed.

Lemma new_name_selects the_id tries suffix :
  hex_id the_id = true → tries_suffix tries = Ok suffix →
  selects ("mica-" +:+ the_id +:+ suffix) the_id tries.
Proof.
  intros Hid Hs.
  assert (Hcase : (tries = None ∧ suffix = ".conf") ∨ (tries = Some 0 ∧ suffix = "+0-3.conf")).
  { unfold tries_suffix in Hs. destruct tries as [t|]; [|injection Hs as <-; by left].
    destruct (Z.eqb_spec t 0) as [->|]; [|done]. injection Hs as <-. by right. }
  clear Hs. unfold selects. split_and!.
  - apply (all_ascii is_graphic); [apply is_graphic_ascii|].
    rewrite !all_bytes_app, (hex_id_graphic _ Hid).
    by destruct Hcase as [[-> ->]|[-> ->]].
  - unfold is_entry_file, starts_with, ends_with. apply andb_true_iff. split.
    + apply bool_decide_eq_true. rewrite strip_prefix_app. eauto.
    + apply bool_decide_eq_true. destruct Hcase as [[-> ->]|[-> ->]].
      * rewrite <- append_assoc, strip_suffix_app. eauto.
      * change "+0-3.conf" with ("+0-3" +:+ ".conf").
        rewrite <- !append_assoc, strip_suffix_app. eauto.
  - apply selected_entry_spec. split; [done|]. destruct Hcase as [[-> ->]|[-> ->]]; [by left|right].
    exists "0-3". split; [apply counters_spec; auto|].
    by rewrite append_assoc.
  - unfold tries_of_file. destruct Hcase as [[-> ->]|[-> ->]].
    + rewrite (proj2 (split_once_none _ _)); [done|].
      by rewrite !contains_byte_app, (split_hex_id _ Hid).
    + rewrite (proj2 (split_once_spec _ _ ("mica-" +:+ the_id) "0-3.conf")); [done|].
      split; [by rewrite append_assoc|]. by rewrite contains_byte_app, (split_hex_id _ Hid).
Qed.

(** ** Changing the directory *)

(** An entry list with one entry's counter (and so its file) changed. *)
Definition retried (file : string) (entry : Entry) (tries : option Z) (e : Entry) : Entry :=
  if bool_decide (e_id e = e_id entry)
  then {| e_id := e_id e; e_file := file; e_generation := e_generation e; e_tries := tries |}
  else e.

Lemma retried_id file entry tries e : e_id (retried file entry tries e) = e_id e.
Proof. unfold retried. by destruct (bool_decide _). Qed.
Lemma retried_generation file entry tries e : e_generation (retried file entry tries e) = e_generation e.
Proof. unfold retried. by destruct (bool_decide _). Qed.

Lemma map_retried_ids file entry tries es : map e_id (map (retried file entry tries) es) = map e_id es.
Proof. rewrite map_map. apply map_ext. intros e. apply retried_id. Qed.

Lemma distinct_ids es es' : map e_id es = map e_id es' → distinct [] es → distinct [] es'.
Proof.
  intros E. rewrite !distinct_spec. intros (Hl & Hn & _).
  assert (Hlen : len es = len es').
  { unfold len. by rewrite <- (length_map e_id es), E, length_map. }
  split_and!.
  - right. cbn [app] in *. destruct Hl as [->|Hl]; [rewrite <- Hlen; done|lia].
  - by rewrite <- E.
  - apply Forall_forall. intros; constructor.
Qed.

Definition dir_ok (dir : list dirent) (es : list Entry) : Prop :=
  NoDup (map d_name dir) ∧ read_entries [] dir = Ok es.

Lemma dir_ok_spec dir es :
  dir_ok dir es ↔ NoDup (map d_name dir) ∧ Forall (λ x, item_ok x = true) dir
    ∧ es = omap item_entry dir ∧ distinct [] es.
Proof.
  unfold dir_ok. rewrite read_entries_spec. cbn [app]. split.
  - intros (H1 & H2 & -> & H3). done.
  - intros (H1 & H2 & -> & H3). done.
Qed.

Lemma dir_ok_ids dir es : dir_ok dir es → NoDup (map e_id es).
Proof. intros (_ & _ & _ & H)%dir_ok_spec. apply distinct_spec in H. tauto. Qed.

Lemma dir_ok_item dir es e :
  dir_ok dir es → e ∈ es →
  ∃ item, item ∈ dir ∧ item_entry item = Some e ∧ d_name item = str_bytes (e_file e)
    ∧ List.find (named (e_file e)) dir = Some item.
Proof.
  intros H He. pose proof H as (Hn & Hok & -> & Hd)%dir_ok_spec.
  apply list_elem_of_omap in He as (item & Hin & Hi).
  destruct (item_entry_name _ _ Hi) as (Hname & _).
  exists item. split_and!; try done.
  destruct (List.find (named (e_file e)) dir) as [x|] eqn:Hx.
  - apply find_elem in Hx as [Hx Hxn]. apply bool_decide_eq_true in Hxn. f_equal.
    apply (NoDup_map_inj d_name dir); try done. congruence.
  - exfalso. apply list_elem_of_In in Hin. apply (List.find_none _ _ Hx) in Hin.
    unfold named in Hin. by rewrite Hname, bool_decide_eq_true_2 in Hin.
Qed.

(** Two items that read to entries of one id are one item. *)
Lemma dir_ok_unique dir es x y a b :
  dir_ok dir es → x ∈ dir → y ∈ dir → item_entry x = Some a → item_entry y = Some b →
  e_id a = e_id b → x = y.
Proof.
  intros H Hx Hy Ha Hb E. pose proof (dir_ok_ids _ _ H) as Hids.
  pose proof H as (Hn & Hok & -> & Hd)%dir_ok_spec.
  assert (Ha' : a ∈ omap item_entry dir) by (apply list_elem_of_omap; eauto).
  assert (Hb' : b ∈ omap item_entry dir) by (apply list_elem_of_omap; eauto).
  assert (a = b) as <- by exact (NoDup_map_inj e_id _ a b Hids Ha' Hb' E).
  apply item_entry_name in Ha as [Ha _]. apply item_entry_name in Hb as [Hb _].
  apply (NoDup_map_inj d_name dir); try done. congruence.
Qed.

Lemma rename_entries dir es entry tries new :
  dir_ok dir es → entry ∈ es → selects new (e_id entry) tries →
  ∃ dir', rename (e_file entry) new dir = Ok dir' ∧ dir_ok dir' (map (retried new entry tries) es).
Proof.
  intros H He Hsel. destruct (dir_ok_item _ _ _ H He) as (item & Hin & Hi & Hname & Hfind).
  unfold rename. rewrite Hfind. pose proof H as (Hn & Hok & Hes & Hd)%dir_ok_spec.
  assert (Htarget : ∀ y, y ∈ dir → d_name y = str_bytes new → y = item).
  { intros y Hy Hyn.
    destruct (item_of_name _ _ _ _ Hsel Hyn (proj1 (Forall_forall _ _) Hok y Hy)) as (e' & He' & Hid).
    by eapply dir_ok_unique. }
  case_bool_decide as Hsame.
  - exists dir. split; [done|]. assert (map (retried new entry tries) es = es) as ->; [|done].
    rewrite <- (map_id es) at 2. apply map_ext_in. intros e Hein%list_elem_of_In.
    unfold retried. case_bool_decide as E; [|done].
    assert (e = entry) as ->.
    { apply (NoDup_map_inj e_id es); try done. by eapply dir_ok_ids. }
    apply item_entry_name in Hi as (_ & _ & Ht & _). destruct Hsel as (_ & _ & _ & Ht').
    rewrite Hsame in Ht. rewrite Ht in Ht'. injection Ht' as <-. rewrite <- Hsame. by destruct entry.
  - assert (Hnone : ∀ y, y ∈ dir → d_name y ≠ str_bytes new).
    { intros y Hy Hyn. specialize (Htarget y Hy Hyn) as ->.
      apply Hsame. apply str_bytes_inj. congruence. }
    assert (Hnamed : Forall (λ x, negb (named new x) = true) dir).
    { apply Forall_forall. intros y Hy. apply negb_true_iff, bool_decide_eq_false. by apply Hnone. }
    assert (existsb (λ x, named new x && match d_node x with Directory => true | _ => false end) dir
            = false) as ->.
    { apply not_true_iff_false. rewrite existsb_elem. intros (y & Hy & Hb). bools.
      match goal with Hb : named new y = true |- _ => apply bool_decide_eq_true in Hb; by apply (Hnone y) end. }
    cbn [negb]. eexists. split; [done|]. rewrite filter_all by done.
    set (ren := λ x, if named (e_file entry) x then {| d_name := str_bytes new; d_node := d_node x |} else x).
    assert (Hren : ∀ x, x ∈ dir → item_entry (ren x) = retried new entry tries <$> item_entry x
                               ∧ item_ok (ren x) = true).
    { intros x Hx. unfold ren. destruct (named (e_file entry) x) eqn:Hnx.
      - apply bool_decide_eq_true in Hnx. assert (x = item) as ->.
        { apply (NoDup_map_inj d_name dir); try done. congruence. }
        destruct (item_entry_renamed item entry new tries Hi Hsel) as [Hr1 Hr2].
        unfold renamed in *. rewrite Hr1, Hi. cbn. unfold retried. by rewrite bool_decide_eq_true_2.
      - split; [|by apply (proj1 (Forall_forall _ _) Hok)].
        destruct (item_entry x) as [e|] eqn:Hxe; [|done]. cbn. f_equal. unfold retried.
        case_bool_decide as E; [|done]. exfalso.
        assert (x = item) as -> by by eapply dir_ok_unique.
        apply bool_decide_eq_false in Hnx. congruence. }
    apply dir_ok_spec. split_and!.
    + rewrite map_map. assert (map (λ x, d_name (ren x)) dir =
        map (λ n, if bool_decide (n = str_bytes (e_file entry)) then str_bytes new else n) (map d_name dir)) as ->.
      { rewrite map_map. apply map_ext. intros x. unfold ren, named. by case_bool_decide. }
      apply NoDup_fmap_2_strong; [|done].
      intros a b Ha Hb E. apply list_elem_of_fmap in Ha as (x & -> & Hx).
      apply list_elem_of_fmap in Hb as (y & -> & Hy).
      specialize (Hnone x Hx) as Hnx. specialize (Hnone y Hy) as Hny.
      repeat case_bool_decide; congruence.
    + apply Forall_forall. intros y (x & -> & Hx)%list_elem_of_fmap. by apply Hren.
    + rewrite omap_map_ext with (u := retried new entry tries); [by rewrite <- Hes|].
      apply Forall_forall. intros x Hx. by apply Hren.
    + eapply distinct_ids; [|done]. symmetry. apply map_retried_ids.
Qed.

Lemma remove_entries dir es e :
  dir_ok dir es → e ∈ es →
  ∃ dir', remove_file (e_file e) dir = Ok dir'
    ∧ dir_ok dir' (List.filter (λ x, negb (bool_decide (e_id x = e_id e))) es).
Proof.
  intros H He. destruct (dir_ok_item _ _ _ H He) as (item & Hin & Hi & Hname & Hfind).
  unfold remove_file. rewrite Hfind. pose proof H as (Hn & Hok & Hes & Hd)%dir_ok_spec.
  eexists. split.
  { assert (∀ b, read_node (d_node item) 4096 = Err b → False) as Hnode.
    { intros b Hb. unfold item_entry, read_entry in Hi. destruct (valid_utf8 (d_name item)); [|done].
      destruct (negb _); [done|]. destruct (selected_entry _); [|done]. cbn in Hi. by rewrite Hb in Hi. }
    destruct (d_node item); [done| |done]. exfalso. by eapply Hnode. }
  apply dir_ok_spec. split_and!.
  - by apply NoDup_filter_map.
  - apply Forall_forall. intros x [_ Hx]%elem_of_filter. by apply (proj1 (Forall_forall _ _) Hok).
  - rewrite Hes. symmetry. apply omap_filter. apply Forall_forall. intros x Hx b Hb. f_equal.
    unfold named. apply bool_decide_ext. split.
    + intros Hnx. assert (x = item) as -> by (apply (NoDup_map_inj d_name dir); [done..|congruence]).
      congruence.
    + intros E. assert (x = item) as -> by by eapply dir_ok_unique. done.
  - apply distinct_spec in Hd as (Hl & Hni & _). apply distinct_spec. split_and!.
    + right. cbn [app] in *. pose proof (List.filter_length_le (λ x, negb (bool_decide (e_id x = e_id e))) es).
      unfold len in *. destruct Hl as [->|Hl]; [cbn; lia|lia].
    + by apply NoDup_filter_map.
    + apply Forall_forall. intros; constructor.
Qed.

(** Without a file that is no entry the entries are the same. *)
Lemma filter_other_entries dir es file :
  dir_ok dir es → is_entry_file file = false → dir_ok (List.filter (λ x, negb (named file x)) dir) es.
Proof.
  intros H Hf. pose proof H as (Hn & Hok & -> & Hd)%dir_ok_spec. apply dir_ok_spec.
  split; [by apply NoDup_filter_map|]. split.
  { apply Forall_forall. intros x [_ Hx]%elem_of_filter. by apply (proj1 (Forall_forall _ _) Hok). }
  split; [|done]. clear -Hf. induction dir as [|x dir IH]; [done|]. cbn.
  destruct (named file x) eqn:E; cbn; [|by rewrite IH].
  apply bool_decide_eq_true in E. assert (item_entry x = None) as ->; [|done].
  unfold item_entry, read_entry. destruct (valid_utf8 _); [|done]. by rewrite E, str_bytes_str, Hf.
Qed.

Lemma remove_other_entries dir es file dir' :
  dir_ok dir es → is_entry_file file = false → remove_file file dir = Ok dir' → dir_ok dir' es.
Proof.
  intros H Hf Hr. assert (dir' = List.filter (λ x, negb (named file x)) dir) as ->.
  { unfold remove_file in Hr. destruct (List.find _ _) as [item|]; [|done].
    destruct (d_node item); by simplify_eq. }
  by apply filter_other_entries.
Qed.

(** * The store's writes *)

Section laws.
Context {R : Type} {HR : Records R}.
Implicit Types w : world (R := R).

(** A device in service: a readable entries directory, or records in service. *)
Definition in_service w : Prop :=
  match w_boot w with
  | BackendUefi (Some dir) => ∃ es, dir_ok dir es
  | BackendUefi None => False
  | BackendRecords r => rs_inv r
  end.

(** The world [w'] has the state document of [w] and the entries [es]. *)
Definition entries_are w w' (es : list Entry) : Prop :=
  w_state w' = w_state w ∧ in_service w' ∧ entries w' = Ok es.

Definition only_tries (t : option Z) : Prop := t = None ∨ t = Some 0.

Lemma entries_service w : in_service w → ∃ es, entries w = Ok es.
Proof.
  unfold in_service, entries, entries_of. destruct (w_boot w) as [[dir|]|r]; [|done|].
  - intros (es & _ & ->). cbn. eauto.
  - intros H. destruct (rs_inv_load r H) as (env & He & _). cbn. rewrite He. cbn. eauto.
Qed.

Lemma entries_ids w es : in_service w → entries w = Ok es → NoDup (map e_id es).
Proof.
  unfold in_service, entries, entries_of. destruct (w_boot w) as [[dir|]|r]; [|done|].
  - intros (es0 & H). pose proof H as [_ Hr]. rewrite Hr. cbn. intros [= <-].
    pose proof (dir_ok_ids _ _ H) as Hn. by rewrite sort_entries_perm.
  - intros H. destruct (rs_inv_load r H) as (env & He & Hv). cbn. rewrite He. cbn. intros [= <-].
    apply valid_records_cases in Hv as [(x & -> & _)|(x & y & -> & _ & _ & Hxy & _)]; cbn.
    + apply NoDup_singleton.
    + apply NoDup_cons. split; [|apply NoDup_singleton]. rewrite list_elem_of_singleton. congruence.
Qed.

Lemma entries_count w es : in_service w → entries w = Ok es → len es ≤ 2.
Proof.
  unfold in_service, entries, entries_of. destruct (w_boot w) as [[dir|]|r]; [|done|].
  - intros (es0 & H). pose proof H as [_ Hr]. rewrite Hr. cbn. intros [= <-].
    apply dir_ok_spec in H as (_ & _ & _ & Hd). apply distinct_spec in Hd as ([->|Hl] & _); [done|].
    unfold len in *. by rewrite sort_entries_perm.
  - intros H. destruct (rs_inv_load r H) as (env & He & Hv). cbn. rewrite He. cbn. intros [= <-].
    by apply valid_records_cases in Hv as [(x & -> & _)|(x & y & -> & _)].
Qed.

(** ** Records *)

Lemma save_records_spec w r env rs :
  w_boot w = BackendRecords r → rs_inv r → rs_load r = Ok env → valid_records rs →
  safe (save_records (with_records env rs) w)
    (λ _ w', entries_are w w' (map record_entry rs)
       ∧ ∃ r' env', w_boot w' = BackendRecords r' ∧ rs_load r' = Ok env' ∧ records env' = rs)
    (λ w', entries_are w w' (map record_entry rs) ∨ entries_are w w' (map record_entry (records env)))
  ∧ o_result (save_records (with_records env rs) w) = Ok tt.
Proof.
  intros Hb Hinv Hl Hv. destruct (rs_save_valid r env rs Hinv Hl Hv) as ((H1 & H2 & H3) & H4).
  unfold save_records. rewrite Hb. unfold szoom. cbn [o_result o_state o_crash].
  assert (Hare : ∀ r' env' rs', rs_inv r' → rs_load r' = Ok env' → records env' = rs' →
    entries_are w (set_boot (BackendRecords r') w) (map record_entry rs')).
  { intros r' env' rs' Hi He <-. unfold entries_are, entries, entries_of, in_service. cbn. by rewrite He. }
  split; [|exact H4]. split; [|split].
  - intros [] _. destruct (H1 tt H4) as (Hi & env' & He & Hr). split; [by eapply Hare|]. cbn. eauto.
  - destruct H2 as (Hi & env' & He & [Hr|Hr]); [right|left]; by eapply Hare.
  - intros w' (r' & Hc & ->). destruct (H3 r' Hc) as (Hi & env' & He & [Hr|Hr]); [right|left]; by eapply Hare.
Qed.

Lemma valid_record_tries r t :
  valid_record r → only_tries t →
  valid_record {| id := id r; kernel_id := kernel_id r; generation := generation r; tries_left := t |}.
Proof.
  intros (? & ? & ? & _) Ht. unfold valid_record. cbn.
  split; [done|]. split; [done|]. split; [done|]. intros v. destruct Ht as [->| ->]; [done|]. intros [= <-]. lia.
Qed.

Lemma set_record_tries_spec entry t rs :
  valid_records rs → entry ∈ map record_entry rs → only_tries t →
  ∃ rs', set_record_tries entry t rs = Some rs' ∧ valid_records rs'
    ∧ map record_entry rs' = map (retried (e_file entry) entry t) (map record_entry rs)
    ∧ map kernel_id rs' = map kernel_id rs.
Proof.
  intros Hv He Ht.
  assert (Hhit : ∀ r rs, entry = record_entry r → set_record_tries entry t (r :: rs) =
    Some ({| id := id r; kernel_id := kernel_id r; generation := generation r; tries_left := t |} :: rs)).
  { intros r rs0 ->. cbn. by rewrite bool_decide_eq_true_2, Z.eqb_refl. }
  assert (Hret : ∀ r, entry = record_entry r → retried (e_file entry) entry t (record_entry r) =
    record_entry {| id := id r; kernel_id := kernel_id r; generation := generation r; tries_left := t |}).
  { intros r ->. unfold retried. cbn. by rewrite bool_decide_eq_true_2. }
  assert (Hother : ∀ r, e_id entry ≠ id r → retried (e_file entry) entry t (record_entry r) = record_entry r).
  { intros r Hne. unfold retried. cbn. rewrite bool_decide_eq_false_2; [done|congruence]. }
  pose proof Hv as Hv'.
  apply valid_records_cases in Hv' as [(r & -> & Hr)|(r & q & -> & Hr & Hq & Hne & Hgen)].
  - cbn in He. apply list_elem_of_singleton in He as ->. eexists. split; [by apply Hhit|].
    split; [by apply valid_records_single, valid_record_tries|].
    split; [cbn [map]; by rewrite Hret|done].
  - cbn in He. apply elem_of_cons in He as [->|He]; [|apply list_elem_of_singleton in He as ->].
    + eexists. split; [by apply Hhit|].
      split; [by apply valid_records_pair; [apply valid_record_tries|..]|].
      split; [cbn [map]; by rewrite (Hret r) by done; rewrite (Hother q)|done].
    + eexists. split.
      { cbn [set_record_tries]. rewrite (bool_decide_eq_false_2 (id r = _)) by done. cbn [andb].
        rewrite (bool_decide_eq_true_2 (id q = _)) by done. cbn [record_entry e_generation].
        by rewrite Z.eqb_refl. }
      split; [by apply valid_records_pair; [|apply valid_record_tries|..]|].
      split; [cbn [map]; by rewrite (Hother r) by (cbn; congruence); rewrite (Hret q)|done].
Qed.

(** ** Setting a counter *)

Lemma entries_are_refl w es : in_service w → entries w = Ok es → entries_are w w es.
Proof. by intros. Qed.

Lemma set_tries_spec w es entry t :
  in_service w → entries w = Ok es → entry ∈ es → only_tries t →
  ∃ file,
  safe (set_tries entry t w)
    (λ _ w', entries_are w w' (map (retried file entry t) es))
    (λ w', entries_are w w' es ∨ entries_are w w' (map (retried file entry t) es))
  ∧ o_result (set_tries entry t w) = Ok tt.
Proof.
  intros Hs He Hin Ht. unfold set_tries. destruct (w_boot w) as [[dir|]|r] eqn:Hb.
  - unfold in_service in Hs. rewrite Hb in Hs. destruct Hs as [es0 Hd].
    pose proof Hd as [_ Hr]. unfold entries, entries_of in He. rewrite Hb, Hr in He. injection He as <-.
    rewrite sort_entries_perm in Hin.
    assert (exists suffix, tries_suffix t = Ok suffix) as [suffix Hsuf].
    { destruct Ht as [->| ->]; cbn; eauto. }
    set (new := "mica-" +:+ e_id entry +:+ suffix).
    assert (Hsel : selects new (e_id entry) t).
    { apply new_name_selects; [|done]. destruct (dir_ok_item _ _ _ Hd Hin) as (item & _ & Hi & _).
      apply item_entry_name in Hi as (_ & Hse & _). by apply selected_entry_spec in Hse as [? _]. }
    destruct (rename_entries _ _ _ _ _ Hd Hin Hsel) as (dir' & Hren & Hd').
    exists new.
    assert (Hnew : entries_are w (set_boot (BackendUefi (Some dir')) w)
              (map (retried new entry t) (sort_entries es0))).
    { split; [done|]. split; [by exists (map (retried new entry t) es0)|].
      unfold entries, entries_of. cbn. rewrite (proj2 Hd'). cbn.
      rewrite sort_entries_map; [done|]. intros e. apply retried_generation. }
    assert (Hold : entries_are w w (sort_entries es0)).
    { split; [done|]. split; [unfold in_service; rewrite Hb; eauto|].
      unfold entries, entries_of. by rewrite Hb, Hr. }
    unfold sbind, slift. cbn [o_result o_state o_crash]. rewrite Hsuf. cbn [o_result o_state o_crash].
    unfold in_directory. rewrite Hb. fold new. rewrite Hren. cbn.
    split; [|done]. split; [by intros [] _|]. split; [by right|].
    intros w' [->|[->| ->]]; [by left|by left|by right].
  - unfold in_service in Hs. by rewrite Hb in Hs.
  - unfold in_service in Hs. rewrite Hb in Hs. destruct (rs_inv_load r Hs) as (env & Hl & Hv).
    unfold entries, entries_of in He. rewrite Hb in He. cbn [boot_records] in He. rewrite Hl in He.
    injection He as <-.
    destruct (set_record_tries_spec entry t (records env) Hv Hin Ht) as (rs & Hrs & Hvs & Hmap & _).
    exists (e_file entry). rewrite <- Hmap.
    destruct (save_records_spec w r env rs Hb Hs Hl Hvs) as [Hsafe Hres].
    assert (Hguard : match t with None => true | Some t => t =? 0 end = true) by by destruct Ht as [->| ->].
    rewrite Hguard. unfold sbind, slift. cbn [o_result o_state o_crash]. rewrite Hb. cbn [boot_records].
    rewrite Hl. cbn [o_result o_state o_crash]. rewrite Hrs. cbn [with_context o_result o_state o_crash].
    assert (Hold : entries_are w w (map record_entry (records env))).
    { split; [done|]. split; [unfold in_service; by rewrite Hb|].
      unfold entries, entries_of. rewrite Hb. cbn [boot_records]. by rewrite Hl. }
    split; [|exact Hres]. destruct Hsafe as (S1 & S2 & S3). split; [|split]; cbn.
    + intros [] Hok. exact (proj1 (S1 tt Hok)).
    + destruct S2; [by right|by left].
    + intros w' [->|[->|Hc]]; [by left..|]. destruct (S3 w' Hc); [by right|by left].
Qed.

(** ** Keeping entries *)

(** Some of the entries, every kept one among them. *)
Definition partly_kept (keep : list (option string)) (es es' : list Entry) : Prop :=
  ∃ p : Entry → bool, es' = List.filter (λ e, keeps keep (e_id e) || p e) es.

Definition kept_only (keep : list (option string)) (es : list Entry) : list Entry :=
  List.filter (λ e, keeps keep (e_id e)) es.

Lemma partly_kept_refl keep es : partly_kept keep es es.
Proof.
  exists (λ _, true). symmetry. apply filter_all, Forall_forall. intros e _. apply orb_true_r.
Qed.

Lemma filter_filter {A} (p q : A → bool) l :
  List.filter p (List.filter q l) = List.filter (λ x, p x && q x) l.
Proof.
  induction l as [|x l IH]; [done|]. cbn. destruct (q x); cbn; rewrite ?andb_true_r, ?andb_false_r, IH; done.
Qed.

Lemma partly_kept_drop keep es es' e :
  partly_kept keep es es' → keeps keep (e_id e) = false →
  partly_kept keep es (List.filter (λ x, negb (bool_decide (e_id x = e_id e))) es').
Proof.
  intros [p ->] He. exists (λ x, p x && negb (bool_decide (e_id x = e_id e))).
  rewrite filter_filter. apply List.filter_ext. intros x.
  destruct (bool_decide (e_id x = e_id e)) eqn:E; cbn.
  - apply bool_decide_eq_true in E. by rewrite E, He, andb_false_r.
  - by rewrite andb_true_r.
Qed.

Lemma sort_entries_filter (p : Entry → bool) l :
  sort_entries (List.filter p l) = List.filter p (sort_entries l).
Proof.
  assert (Hskip : ∀ e k, p e = false → List.filter p (insert_entry e k) = List.filter p k).
  { intros e k He. induction k as [|x k IH]; cbn; [by rewrite He|].
    destruct (_ <=? _); cbn; [by rewrite He|]. by rewrite IH. }
  assert (Hins : ∀ e k, Sorted (λ a b, e_generation b ≤ e_generation a) k → p e = true →
    insert_entry e (List.filter p k) = List.filter p (insert_entry e k)).
  { intros e k Hk He. apply Sorted_StronglySorted in Hk; [|intros a b c; lia].
    induction Hk as [|x k Hk IH Hx]; cbn; [by rewrite He|].
    destruct (Z.leb_spec (e_generation x) (e_generation e)) as [Hle|Hgt]; cbn.
    - rewrite He. destruct (p x) eqn:Hpx; cbn.
      + by rewrite (proj2 (Z.leb_le _ _) Hle).
      + destruct (List.filter p k) as [|y k'] eqn:Hf; [done|]. cbn.
        assert (y ∈ k) as Hy.
        { assert (y ∈ List.filter p k) as [_ ?]%elem_of_filter by (rewrite Hf; left). done. }
        assert (e_generation y ≤ e_generation x) by by apply (proj1 (Forall_forall _ _) Hx).
        by rewrite (proj2 (Z.leb_le _ _)) by lia.
    - destruct (p x) eqn:Hpx; cbn; [|done].
      rewrite (proj2 (Z.leb_gt _ _)) by done. by rewrite IH. }
  unfold sort_entries. induction l as [|e l IH]; [done|]. cbn. destruct (p e) eqn:He; cbn.
  - rewrite IH. apply Hins; [apply sort_entries_sorted|done].
  - by rewrite Hskip.
Qed.

Lemma in_directory_remove w dir es e :
  w_boot w = BackendUefi (Some dir) → dir_ok dir es → e ∈ es →
  ∃ dir', dir_ok dir' (List.filter (λ x, negb (bool_decide (e_id x = e_id e))) es)
    ∧ in_directory (remove_file (e_file e)) w = swrite (set_boot (BackendUefi (Some dir'))) w.
Proof.
  intros Hb Hd He. destruct (remove_entries _ _ _ Hd He) as (dir' & Hr & Hd').
  exists dir'. split; [done|]. unfold in_directory. by rewrite Hb, Hr.
Qed.

(** The UEFI half: remove, one by one, the files of the entries not kept. *)
Lemma retain_uefi keep todo : ∀ w dir es,
  w_boot w = BackendUefi (Some dir) → dir_ok dir es →
  NoDup (map e_id todo) → (∀ e, e ∈ todo → keeps keep (e_id e) = false → e ∈ es) →
  let o := each_m (λ e, if keeps keep (e_id e) then sret tt else in_directory (remove_file (e_file e))) todo w in
  let good p w' := ∃ dir', w' = set_boot (BackendUefi (Some dir')) w ∧ dir_ok dir' (List.filter p es) in
  let drops l e := existsb (λ x, bool_decide (e_id x = e_id e) && negb (keeps keep (e_id x))) l in
  o_result o = Ok tt ∧ good (λ e, negb (drops todo e)) (o_state o)
  ∧ ∀ w', o_crash o w' → ∃ p, good p w' ∧ ∀ e, keeps keep (e_id e) = true → p e = true.
Proof.
  induction todo as [|x todo IH]; intros w dir es Hb Hd Hn Hin.
  - cbn. assert (Hg : ∃ dir', w = set_boot (BackendUefi (Some dir')) w
      ∧ dir_ok dir' (List.filter (λ _, true) es)).
    { exists dir. split; [destruct w as [st b]; cbn in *; by rewrite Hb|].
      rewrite filter_all; [done|]. by apply Forall_forall. }
    split; [done|]. split; [done|]. intros w' ->. exists (λ _, true). done.
  - apply NoDup_cons in Hn as [Hx Hn]. cbn [each_m].
    destruct (keeps keep (e_id x)) eqn:Hk.
    + unfold sbind, sret. cbn [o_result o_state o_crash].
      destruct (IH w dir es Hb Hd Hn) as (H1 & H2 & H3).
      { intros e He. apply Hin. by right. }
      split; [exact H1|]. split.
      * destruct H2 as (dir' & E & Hd'). exists dir'. split; [exact E|]. cbn [existsb].
        rewrite Hk. cbn [negb]. erewrite List.filter_ext; [exact Hd'|]. intros e.
        by rewrite andb_false_r.
      * intros w' [->|Hc]; [|by apply H3]. exists (λ _, true). split; [|done].
        exists dir. split; [destruct w as [st b]; cbn in *; by rewrite Hb|].
        rewrite filter_all; [done|]. by apply Forall_forall.
    + assert (Hxes : x ∈ es) by (apply Hin; [left|done]).
      destruct (in_directory_remove w dir es x Hb Hd Hxes) as (dir' & Hd' & Hrm).
      unfold sbind. rewrite Hrm. cbn [swrite o_result o_state o_crash].
      set (w1 := set_boot (BackendUefi (Some dir')) w).
      destruct (IH w1 dir' _ eq_refl Hd' Hn) as (H1 & H2 & H3).
      { intros e He Hke. apply elem_of_filter. split; [|apply Hin; [by right|done]].
        apply negb_true_iff, bool_decide_eq_false. intros E. apply Hx. rewrite <- E.
        apply list_elem_of_fmap. eauto. }
      split; [exact H1|]. split.
      * destruct H2 as (dir'' & E & Hd''). exists dir''. split; [exact E|].
        rewrite filter_filter in Hd''. erewrite List.filter_ext; [exact Hd''|]. intros e.
        cbn [existsb]. rewrite Hk. cbn [negb]. rewrite andb_true_r, negb_orb.
        rewrite andb_comm. f_equal. f_equal. by apply bool_decide_ext.
      * intros w' [[->| ->]|Hc].
        -- exists (λ _, true). split; [|done]. exists dir.
           split; [destruct w as [st b]; cbn in *; by rewrite Hb|].
           rewrite filter_all; [done|]. by apply Forall_forall.
        -- exists (λ e, negb (bool_decide (e_id e = e_id x))). split; [by exists dir'|].
           intros e He. apply negb_true_iff, bool_decide_eq_false. congruence.
        -- destruct (H3 w' Hc) as (p & (dir'' & E & Hd'') & Hp).
           exists (λ e, p e && negb (bool_decide (e_id e = e_id x))). split.
           ++ exists dir''. split; [exact E|]. by rewrite filter_filter in Hd''.
           ++ intros e He. rewrite Hp by done. cbn.
              apply negb_true_iff, bool_decide_eq_false. congruence.
Qed.

Lemma map_filter {A B} (f : A → B) (p : B → bool) l :
  List.filter p (map f l) = map f (List.filter (λ x, p (f x)) l).
Proof. induction l as [|x l IH]; [done|]. cbn. rewrite IH. by destruct (p (f x)). Qed.

Lemma with_records_self env : with_records env (records env) = env.
Proof. by destruct env. Qed.

(** The FIT half: both copies are written with the kept records. *)
Lemma retain_records w r keep env :
  w_boot w = BackendRecords r → rs_inv r → rs_load r = Ok env →
  let rs := List.filter (λ x, keeps keep (id x)) (records env) in
  rs ≠ [] →
  safe (retain_entries [] keep w)
    (λ _ w', entries_are w w' (map record_entry rs))
    (λ w', entries_are w w' (map record_entry rs) ∨ entries_are w w' (map record_entry (records env)))
  ∧ o_result (retain_entries [] keep w) = Ok tt.
Proof.
  intros Hb Hi Hl rs Hne. destruct (rs_inv_load r Hi) as (env0 & He0 & Hv). rewrite Hl in He0.
  injection He0 as <-.
  assert (Hvs : valid_records rs) by by apply valid_records_filter.
  destruct (save_records_spec w r env rs Hb Hi Hl Hvs) as [(S1 & S2 & S3) Hr1].
  destruct (S1 tt Hr1) as ((Hw1 & Hs1 & He1) & r1 & env1 & Hb1 & Hl1 & Hrs1).
  set (w1 := o_state (save_records (with_records env rs) w)) in *.
  assert (Hi1 : rs_inv r1) by (unfold in_service in Hs1; by rewrite Hb1 in Hs1).
  destruct (save_records_spec w1 r1 env1 rs Hb1 Hi1 Hl1 Hvs) as [(T1 & T2 & T3) Hr2].
  rewrite <- Hrs1 in Hr2, T1, T2, T3. rewrite with_records_self in Hr2, T1, T2, T3.
  rewrite Hrs1 in T1, T2, T3.
  assert (Hchain : ∀ w' es, entries_are w1 w' es → entries_are w w' es).
  { intros w' es (A & B & C). split; [congruence|done]. }
  assert (Hold : entries_are w w (map record_entry (records env))).
  { split; [done|]. split; [unfold in_service; by rewrite Hb|].
    unfold entries, entries_of. rewrite Hb. cbn [boot_records]. by rewrite Hl. }
  assert (Ho : retain_entries [] keep w =
    Outcome (o_result (save_records env1 w1)) (o_state (save_records env1 w1))
      (o_crash (retain_entries [] keep w))
    ∧ ∀ w', o_crash (retain_entries [] keep w) w' → w' = w ∨ w' = w1
        ∨ o_crash (save_records (with_records env rs) w) w' ∨ o_crash (save_records env1 w1) w').
  { unfold retain_entries. rewrite Hb. unfold sbind, slift. cbn [o_result o_state o_crash].
    rewrite Hb. cbn [boot_records]. rewrite Hl. cbn [o_result o_state o_crash]. fold rs.
    rewrite Hr1. cbn [o_result o_state o_crash]. fold w1. rewrite Hb1. cbn [boot_records].
    rewrite Hl1. cbn [o_result o_state o_crash]. split; [done|]. tauto. }
  destruct Ho as [-> Hc]. cbn [o_result o_state o_crash]. split; [|exact Hr2].
  split; [|split]; cbn [o_result o_state o_crash].
  - intros [] Hok. apply Hchain. exact (proj1 (T1 tt Hok)).
  - destruct T2 as [T2|T2]; left; by apply Hchain.
  - intros w' [->|[->|[H|H]]]%Hc; [by right|by left; split|..].
    + destruct (S3 w' H); [by left|by right].
    + destruct (T3 w' H) as [T|T]; left; by apply Hchain.
Qed.

Lemma retain_spec w es es0 keep :
  in_service w → entries w = Ok es → NoDup (map e_id es0) →
  (∀ e, keeps keep (e_id e) = false → e ∈ es0 ↔ e ∈ es) →
  (∃ e, e ∈ es ∧ keeps keep (e_id e) = true) →
  safe (retain_entries es0 keep w)
    (λ _ w', entries_are w w' (kept_only keep es))
    (λ w', ∃ es', entries_are w w' es' ∧ partly_kept keep es es')
  ∧ o_result (retain_entries es0 keep w) = Ok tt.
Proof.
  intros Hs He Hn0 Hiff (k & Hk & Hkk).
  unfold in_service in Hs. destruct (w_boot w) as [[dir|]|r] eqn:Hb; [|done|].
  - destruct Hs as [es1 Hd]. pose proof Hd as [_ Hr]. unfold entries, entries_of in He.
    rewrite Hb, Hr in He. injection He as <-.
    destruct (retain_uefi keep es0 w dir es1 Hb Hd Hn0) as (H1 & H2 & H3).
    { intros e Hee Hke. rewrite <- sort_entries_perm. by apply Hiff. }
    assert (Hgood : ∀ w' p, (∃ dir', w' = set_boot (BackendUefi (Some dir')) w
        ∧ dir_ok dir' (List.filter p es1)) → entries_are w w' (List.filter p (sort_entries es1))).
    { intros w' p (dir' & -> & Hd'). split; [done|]. split; [by exists (List.filter p es1)|].
      unfold entries, entries_of. cbn. rewrite (proj2 Hd'). cbn. by rewrite sort_entries_filter. }
    assert (Hret : retain_entries es0 keep w =
      each_m (λ e, if keeps keep (e_id e) then sret tt else in_directory (remove_file (e_file e))) es0 w).
    { unfold retain_entries. by rewrite Hb. }
    rewrite Hret.
    assert (Hfin : entries_are w (o_state (each_m (λ e, if keeps keep (e_id e) then sret tt
        else in_directory (remove_file (e_file e))) es0 w)) (kept_only keep (sort_entries es1))).
    { apply Hgood in H2. unfold kept_only. erewrite List.filter_ext_in; [exact H2|].
      intros e Hee. cbn. destruct (keeps keep (e_id e)) eqn:Hke.
      - symmetry. apply negb_true_iff, not_true_iff_false. rewrite existsb_elem.
        intros (x & Hx & Hb'). bools. congruence.
      - symmetry. apply negb_false_iff, existsb_elem. exists e. split.
        + apply Hiff; [done|]. by apply list_elem_of_In.
        + by rewrite bool_decide_eq_true_2, Hke. }
    split; [|exact H1]. split; [by intros [] _|]. split.
    + exists (kept_only keep (sort_entries es1)). split; [done|]. exists (λ _, false).
      unfold kept_only. apply List.filter_ext. intros e. by rewrite orb_false_r.
    + intros w' Hc. destruct (H3 w' Hc) as (p & Hg & Hp). exists (List.filter p (sort_entries es1)).
      split; [by apply Hgood|]. exists p. apply List.filter_ext. intros e.
      destruct (keeps keep (e_id e)) eqn:Hke; [by rewrite Hp|done].
  - destruct (rs_inv_load r Hs) as (env & Hl & Hv). unfold entries, entries_of in He.
    rewrite Hb in He. cbn [boot_records] in He. rewrite Hl in He. injection He as <-.
    assert (Hkeep : kept_only keep (map record_entry (records env)) =
      map record_entry (List.filter (λ x, keeps keep (id x)) (records env))).
    { unfold kept_only. by rewrite map_filter. }
    assert (Hret : retain_entries es0 keep w = retain_entries [] keep w).
    { unfold retain_entries. by rewrite Hb. }
    rewrite Hret, Hkeep. destruct (retain_records w r keep env Hb Hs Hl) as [Hsafe Hres].
    { intros Hnil. rewrite Hnil in Hkeep. cbn in Hkeep.
      assert (k ∈ kept_only keep (map record_entry (records env))) as Hin by (apply elem_of_filter; done).
      rewrite Hkeep in Hin. by apply not_elem_of_nil in Hin. }
    split; [|exact Hres]. eapply safe_mono; [exact Hsafe|done|].
    intros w' [H|H]; eexists; (split; [exact H|]).
    + rewrite <- Hkeep. exists (λ _, false). apply List.filter_ext. intros e. by rewrite orb_false_r.
    + apply partly_kept_refl.
Qed.

Lemma entries_are_trans w w' w'' es es' :
  entries_are w w' es → entries_are w' w'' es' → entries_are w w'' es'.
Proof. intros (A & _) (B & C). split; [congruence|done]. Qed.

(** The entries after a retirement: that one entry's attempts are gone, and
    another usable entry stays. *)
Definition retired (the_id : string) (es es' : list Entry) : Prop :=
  ∃ file entry, entry ∈ es ∧ e_id entry = the_id ∧ es' = map (retried file entry (Some 0)) es
    ∧ ∃ e, e ∈ es' ∧ e_id e ≠ the_id ∧ usable e = true.

Lemma retired_intro the_id es file entry :
  entry ∈ es → e_id entry = the_id →
  existsb (λ e, negb (bool_decide (e_id e = the_id)) && usable e) es = true →
  retired the_id es (map (retried file entry (Some 0)) es).
Proof.
  intros Hin Hid Hex. apply existsb_elem in Hex as (e & He & Hb). bools.
  exists file, entry. split_and!; try done. exists e. split_and!; [|done|done].
  apply list_elem_of_fmap. exists e. split; [|done]. unfold retried.
  rewrite bool_decide_eq_false_2; [done|congruence].
Qed.

Lemma find_id es the_id e :
  List.find (λ e, bool_decide (e_id e = the_id)) es = Some e → e ∈ es ∧ e_id e = the_id.
Proof. by intros [? ?%bool_decide_eq_true]%find_elem. Qed.

Lemma retire_spec the_id w es :
  in_service w → entries w = Ok es →
  safe (retire_failed_confirmed the_id w)
    (λ b w', if b then ∃ es', entries_are w w' es' ∧ retired the_id es es'
             else w' = w ∧ ∃ e, e ∈ es ∧ e_id e = the_id ∧ e_tries e ≠ None)
    (λ w', ∃ es', entries_are w w' es' ∧ (es' = es ∨ retired the_id es es')).
Proof.
  intros Hs He. assert (Hw : ∃ es', entries_are w w es' ∧ (es' = es ∨ retired the_id es es')).
  { exists es. split; [done|]. by left. }
  apply safe_read; [exact Hw|]. intros [] _.
  apply safe_read; [exact Hw|]. intros es0 He0. rewrite He in He0. injection He0 as <-.
  apply safe_read; [exact Hw|]. intros entry Hfind.
  destruct (List.find _ es) as [x|] eqn:Hx; [|done]. injection Hfind as <-.
  apply find_id in Hx as [Hin Hid].
  destruct (unconfirmed x) eqn:Hu.
  - apply safe_ret; [exact Hw|]. split; [done|]. exists x. split_and!; try done.
    by apply bool_decide_eq_true in Hu.
  - apply safe_ensure; [exact Hw|]. intros Hex.
    destruct (set_tries_spec w es x (Some 0) Hs He Hin) as (file & Hsafe & Hok); [by right|].
    eapply safe_step; [exact Hsafe|..].
    + intros w' [Hw'|Hw']; eexists; (split; [exact Hw'|]); [by left|right; by apply retired_intro].
    + intros [] w' Hw'. assert (retired the_id es (map (retried file x (Some 0)) es)) by by apply retired_intro.
      apply safe_ret; [|eauto]. eauto.
Qed.

End laws.

(** * Reconciliation *)

Lemma max_generation_ge es e : e ∈ es → e_generation e ≤ max_generation es.
Proof.
  unfold max_generation. induction es as [|x es IH]; [by intros ?%not_elem_of_nil|].
  cbn. intros [->|H]%elem_of_cons; [lia|]. specialize (IH H). lia.
Qed.

Lemma adopt_confirmed_current s es :
  current (adopt_confirmed s es) =
    match confirmed_entry s es with Some c => Some (e_id c) | None => current s end
  ∧ failed (adopt_confirmed s es) = failed s
  ∧ highest_generation (adopt_confirmed s es) = highest_generation s.
Proof.
  unfold adopt_confirmed. destruct (confirmed_entry s es) as [c|]; [|done].
  case_bool_decide as E; done.
Qed.

Lemma confirmed_entry_failed s s' es : failed s = failed s' → confirmed_entry s es = confirmed_entry s' es.
Proof. unfold confirmed_entry. by intros ->. Qed.

Lemma opt_filter_some {A} (p : A → bool) o a : opt_filter p o = Some a ↔ o = Some a ∧ p a = true.
Proof.
  destruct o as [b|]; cbn; [|by split; [|intros [? _]]].
  destruct (p b) eqn:E; split; [intros [= <-]|intros [[= <-] _]|..|intros [[= <-] H]]; congruence || done.
Qed.

Lemma opt_filter_idem {A} (p : A → bool) o : opt_filter p (opt_filter p o) = opt_filter p o.
Proof. destruct o as [a|]; cbn; [|done]. destruct (p a) eqn:E; cbn; [by rewrite E|done]. Qed.

Definition entry_named (es : list Entry) (the_id : string) : bool :=
  existsb (λ e, bool_decide (e_id e = the_id)) es.

(** The current, the fallback and the rejected ids a reconciliation gives, and
    when it succeeds at all. *)
Lemma reconcile_parts s es s' :
  reconcile s es = Ok s' →
  current s' = match confirmed_entry s es with Some c => Some (e_id c) | None => current s end
  ∧ failed s' = failed s
  ∧ highest_generation s' = Z.max (highest_generation s) (max_generation es)
  ∧ opt_filter (entry_named es) (fallback s') = fallback s'
  ∧ (∀ cur, current s' = Some cur → ∃ e, List.find (λ e, bool_decide (e_id e = cur)) es = Some e
       ∧ candidate s' = e_id <$> head (pending_candidates s' es (e_generation e))
       ∧ len (pending_candidates s' es (e_generation e)) ≤ 1).
Proof.
  unfold reconcile. set (s1 := {| highest_generation := Z.max _ _ |}).
  destruct (adopt_confirmed_current s1 es) as (Hc & Hf & Hh).
  rewrite (confirmed_entry_failed s1 s es eq_refl) in Hc.
  set (s2 := adopt_confirmed s1 es) in *. cbn [current].
  destruct (current s2) as [cur|] eqn:Hcur.
  - destruct (List.find _ es) as [e|] eqn:He; [|done]. cbn [with_context rbind].
    set (s3 := {| highest_generation := highest_generation s2 |}).
    destruct (Z.leb_spec (len (pending_candidates s3 es (e_generation e))) 1) as [Hl|]; [|done].
    intros [= <-]. cbn [current failed highest_generation fallback candidate set_candidate s3].
    split_and!; [done..|by apply opt_filter_idem|].
    intros cur' [= <-]. exists e. split_and!; done.
  - intros [= <-]. cbn [current failed highest_generation fallback].
    split_and!; [done..|by apply opt_filter_idem|]. done.
Qed.

Lemma filter_len_lt {A} (p : A → bool) l x : x ∈ l → p x = false → len (List.filter p l) < len l.
Proof.
  induction l as [|y l IH]; [by intros ?%not_elem_of_nil|].
  intros [->|H]%elem_of_cons Hp; cbn; rewrite ?Hp, ?len_cons.
  - pose proof (List.filter_length_le p l). unfold len. lia.
  - specialize (IH H Hp). destruct (p y); rewrite ?len_cons; lia.
Qed.

(** With at most two entries, a reconciliation fails only when the state names
    a current deployment that no entry and no confirmation stands for. *)
Lemma reconcile_ok s es :
  len es ≤ 2 → (∀ cur, confirmed_entry s es = None → current s = Some cur → entry_named es cur = true) →
  ∃ s', reconcile s es = Ok s'.
Proof.
  intros Hlen Hcur. unfold reconcile. set (s1 := {| highest_generation := Z.max _ _ |}).
  destruct (adopt_confirmed_current s1 es) as (Hc & _ & _).
  rewrite (confirmed_entry_failed s1 s es eq_refl) in Hc.
  set (s2 := adopt_confirmed s1 es) in *. cbn [current].
  destruct (current s2) as [cur|] eqn:Hs2; [|eauto].
  assert (Hnamed : entry_named es cur = true).
  { destruct (confirmed_entry s es) as [c|] eqn:Hce; [|by apply Hcur].
    injection Hc as ->. apply find_elem in Hce as [Hin _].
    apply existsb_elem. exists c. by rewrite bool_decide_eq_true_2. }
  destruct (List.find _ es) as [e|] eqn:He.
  - cbn [with_context rbind]. apply find_elem in He as [Hin _].
    match goal with |- context [len ?l <=? 1] => assert (len l ≤ 1) as Hl end.
    { unfold pending_candidates.
      match goal with |- len (List.filter ?p es) ≤ 1 => pose proof (filter_len_lt p es e Hin) as Hlt end.
      cbn beta in Hlt. rewrite Z.ltb_irrefl in Hlt. specialize (Hlt eq_refl). lia. }
    rewrite (proj2 (Z.leb_le _ _) Hl). eauto.
  - exfalso. apply existsb_elem in Hnamed as (e & Hin%list_elem_of_In & Hb).
    by rewrite (List.find_none _ _ He e Hin) in Hb.
Qed.

(** ** The ids of a state *)

Definition ids_valid (s : State) : Prop := Forall (λ i, valid_id i = Ok tt) (ids_of s).

Lemma read_state_holds s : len (failed s) ≤ 128 → ids_valid s → read_state (Holds s) = Ok s.
Proof.
  intros Hl Hv. unfold read_state. rewrite (proj2 (Z.leb_le _ _) Hl).
  by rewrite (proj2 (each_ok valid_id (ids_of s)) Hv).
Qed.

Lemma read_state_inv d s : read_state d = Ok s → len (failed s) ≤ 128 ∧ ids_valid s.
Proof.
  unfold read_state. destruct d as [| |x]; cbn; [|done|].
  - intros [= <-]. split; [done|]. by repeat constructor.
  - destruct (Z.leb_spec (len (failed x)) 128) as [Hl|]; [|done].
    destruct (each valid_id (ids_of x)) as [[]|] eqn:He; [|done]. intros [= <-].
    split; [done|]. by apply each_ok.
Qed.

Lemma entries_valid {R} {HR : Records R} (w : world (R := R)) es e :
  in_service w → entries w = Ok es → e ∈ es → valid_id (e_id e) = Ok tt.
Proof.
  intros Hs He Hin. apply valid_id_hex. unfold in_service, entries, entries_of in *.
  destruct (w_boot w) as [[dir|]|r]; [|done|].
  - destruct Hs as (es0 & Hd). pose proof Hd as [_ Hr]. rewrite Hr in He. injection He as <-.
    rewrite sort_entries_perm in Hin. destruct (dir_ok_item _ _ _ Hd Hin) as (item & _ & Hi & _).
    apply item_entry_name in Hi as (_ & Hsel & _). by apply selected_entry_spec in Hsel as [? _].
  - destruct (rs_inv_load r Hs) as (env & Hl & [_ Hv]). cbn [boot_records] in He. rewrite Hl in He.
    injection He as <-. apply list_elem_of_fmap in Hin as (x & -> & Hx).
    apply chain_valid in Hv. apply (proj1 (Forall_forall _ _) Hv) in Hx as [? _]. done.
Qed.

Lemma ids_valid_spec s :
  ids_valid s ↔
  (∀ i, current s = Some i → valid_id i = Ok tt) ∧ (∀ i, fallback s = Some i → valid_id i = Ok tt)
  ∧ (∀ i, candidate s = Some i → valid_id i = Ok tt) ∧ Forall (λ i, valid_id i = Ok tt) (failed s).
Proof.
  assert (Ho : ∀ o : option string, Forall (λ i, valid_id i = Ok tt) (option_list o) ↔
    ∀ i, o = Some i → valid_id i = Ok tt).
  { intros [i|]; cbn; rewrite ?Forall_singleton; [|by split; [|constructor]].
    split; [by intros H j [= <-]|auto]. }
  unfold ids_valid, ids_of. by rewrite !Forall_app, !Ho.
Qed.

(** Every id of a reconciled state is one of the document's or an entry's. *)
Lemma reconcile_ids s es s' :
  reconcile s es = Ok s' →
  (∀ i, current s' = Some i → current s = Some i ∨ entry_named es i = true)
  ∧ (∀ i, fallback s' = Some i → entry_named es i = true)
  ∧ (∀ i, candidate s' = Some i → candidate s = Some i ∨ entry_named es i = true).
Proof.
  intros H. destruct (reconcile_parts _ _ _ H) as (Hc & Hf & _ & Hfb & Hcand).
  assert (Hin : ∀ e, e ∈ es → entry_named es (e_id e) = true).
  { intros e He. apply existsb_elem. exists e. by rewrite bool_decide_eq_true_2. }
  split_and!.
  - rewrite Hc. intros i. destruct (confirmed_entry s es) as [e|] eqn:He; [|by left].
    intros [= <-]. right. apply find_elem in He as [He _]. by apply Hin.
  - intros i Hi. rewrite Hi in Hfb. by apply opt_filter_some in Hfb as [_ ?].
  - intros i Hi. destruct (current s') as [cur|] eqn:Hcur.
    + right. destruct (Hcand cur eq_refl) as (e & _ & Hc' & _). rewrite Hi in Hc'.
      destruct (pending_candidates s' es _) as [|x l] eqn:Hp; [done|]. injection Hc' as ->.
      apply Hin. assert (x ∈ pending_candidates s' es (e_generation e)) as Hx by (rewrite Hp; left).
      by apply elem_of_filter in Hx as [_ ?].
    + left. revert H. unfold reconcile.
      set (s1 := {| highest_generation := Z.max _ _ |}). cbn [current].
      destruct (adopt_confirmed_current s1 es) as (Hc1 & _ & _).
      rewrite (confirmed_entry_failed s1 s es eq_refl) in Hc1. cbn [current s1] in Hc1.
      assert (current (adopt_confirmed s1 es) = None) as -> by congruence.
      intros [= <-]. cbn [candidate] in Hi. rewrite <- Hi. symmetry. unfold adopt_confirmed.
      destruct (confirmed_entry s1 es) as [e|]; [|done]. by case_bool_decide.
Qed.

Lemma entry_named_spec es i : entry_named es i = true ↔ ∃ e, e ∈ es ∧ e_id e = i.
Proof.
  unfold entry_named. rewrite existsb_elem. by setoid_rewrite bool_decide_eq_true.
Qed.

Lemma reconcile_ids_valid s es s' :
  reconcile s es = Ok s' → ids_valid s → (∀ e, e ∈ es → valid_id (e_id e) = Ok tt) → ids_valid s'.
Proof.
  intros H Hv Hes. destruct (reconcile_ids _ _ _ H) as (Hc & Hf & Hca).
  destruct (reconcile_parts _ _ _ H) as (_ & Hfl & _). rewrite ids_valid_spec in *.
  destruct Hv as (V1 & V2 & V3 & V4).
  assert (Hn : ∀ i, entry_named es i = true → valid_id i = Ok tt).
  { intros i (e & He & <-)%entry_named_spec. by apply Hes. }
  split_and!; [intros i [?|?]%Hc|intros i ?%Hf|intros i [?|?]%Hca|by rewrite Hfl]; auto.
Qed.

(** * A sample store *)

Definition sample_id : string := "0123456789abcdef0123456789abcdef0123456789abcdef0123456789abcdef".
Definition candidate_id : string := "2123456789abcdef0123456789abcdef0123456789abcdef0123456789abcdef".

(** A confirmed deployment and a newer candidate, on a FIT board. *)
Definition sample_world : world (R := region) :=
  {| w_state := Holds {| highest_generation := 8; current := Some sample_id; fallback := None;
                         candidate := Some candidate_id; failed := [] |};
     w_boot := BackendRecords (region_of (sample_candidate :: sample_records)) |}.
Definition sample_entries : list Entry := map record_entry (sample_candidate :: sample_records).
Definition sample_receipt : BootReceipt :=
  {| rc_backend := UbootFit; rc_deployment_id := sample_id; rc_entry := "fit:" +:+ sample_id;
     rc_kernel_id := "1123456789abcdef0123456789abcdef0123456789abcdef0123456789abcdef";
     rc_rootfs_id := ""; rc_content_verified := true; rc_secure_boot := false; rc_boot_verified := true |}.

(** The same on a UEFI board, the candidate launched once. *)
Definition esp_file (version : string) : node := Regular (str_bytes ("title MICA" +:+ String LF ("version " +:+ version +:+ String LF ""))).
Definition esp_dir : list dirent :=
  [{| d_name := str_bytes ("mica-" +:+ sample_id +:+ ".conf"); d_node := esp_file "7" |};
   {| d_name := str_bytes ("mica-" +:+ candidate_id +:+ "+2-1.conf"); d_node := esp_file "8" |};
   {| d_name := str_bytes "auto.conf"; d_node := esp_file "1" |}].
Definition esp_world : world (R := region) :=
  {| w_state := w_state sample_world; w_boot := BackendUefi (Some esp_dir) |}.
Definition esp_entries : list Entry :=
  [{| e_id := candidate_id; e_file := "mica-" +:+ candidate_id +:+ "+2-1.conf"; e_generation := 8; e_tries := Some 2 |};
   {| e_id := sample_id; e_file := "mica-" +:+ sample_id +:+ ".conf"; e_generation := 7; e_tries := None |}].
Definition esp_receipt : BootReceipt :=
  {| rc_backend := Uefi; rc_deployment_id := candidate_id;
     rc_entry := "mica-" +:+ candidate_id +:+ "+2-1.conf"; rc_kernel_id := ""; rc_rootfs_id := "";
     rc_content_verified := true; rc_secure_boot := true; rc_boot_verified := true |}.

Lemma esp_world_ok :
  in_service (HR := fit_records sample_layout) esp_world
  ∧ entries (HR := fit_records sample_layout) esp_world = Ok esp_entries.
Proof.
  split; [|vm_compute; reflexivity].
  exists (rev esp_entries). split; [|vm_compute; reflexivity].
  apply (bool_decide_unpack _). vm_compute. exact I.
Qed.

Lemma records_world rs st :
  valid_records rs →
  let w := {| w_state := st; w_boot := BackendRecords (region_of rs) |} in
  in_service (HR := fit_records sample_layout) w
  ∧ entries (HR := fit_records sample_layout) w = Ok (map record_entry rs).
Proof.
  intros Hv w. destruct (region_of_load rs Hv) as [Hf Hl].
  split; [split; [exact Hf|by rewrite Hl]|].
  unfold entries, entries_of. cbn [w_boot w boot_records rs_load fit_records]. by rewrite Hl.
Qed.

(** * Properties *)

(** Reconciling DATA's state with the boot entries never lowers the
    generation watermark, follows the newest confirmed entry that was not
    rejected, never keeps a fallback without an entry, offers as candidate only
    a newer entry with attempts left that was neither rejected nor the
    fallback, and is idempotent: reconciling its result changes nothing. *)
Theorem reconcile_sound s es s' :
  reconcile s es = Ok s' →
  highest_generation s ≤ highest_generation s'
  ∧ (∀ e, e ∈ es → e_generation e ≤ highest_generation s')
  ∧ current s' = match confirmed_entry s es with Some c => Some (e_id c) | None => current s end
  ∧ failed s' = failed s
  ∧ (∀ f, fallback s' = Some f → ∃ e, e ∈ es ∧ e_id e = f)
  ∧ (∀ cur c, current s' = Some cur → candidate s' = Some c →
       ∃ e e', e ∈ es ∧ e' ∈ es ∧ e_id e = cur ∧ e_id e' = c ∧ e_generation e < e_generation e'
         ∧ tries_positive e' = true ∧ c ∉ failed s' ∧ fallback s' ≠ Some c)
  ∧ reconcile s' es = Ok s'.
Proof.
  intros H. destruct (reconcile_parts _ _ _ H) as (Hc & Hf & Hh & Hfb & Hcand).
  split_and!; try done; try lia.
  - intros e He%max_generation_ge. lia.
  - intros f Hsf. rewrite Hsf in Hfb. apply opt_filter_some in Hfb as [_ Hn].
    apply existsb_elem in Hn as (e & He & E%bool_decide_eq_true). eauto.
  - intros cur c Hcur Hsc. destruct (Hcand cur Hcur) as (e & He & Hc' & _).
    apply find_id in He as [Hin Hid]. rewrite Hsc in Hc'.
    destruct (pending_candidates s' es (e_generation e)) as [|e' l] eqn:Hp; [done|].
    injection Hc' as ->. assert (e' ∈ pending_candidates s' es (e_generation e)) as Hin' by (rewrite Hp; left).
    apply elem_of_filter in Hin' as [Hb Hin']. bools. exists e, e'. unfold has in *. bools. by split_and!.
  - assert (Hmax : Z.max (highest_generation s') (max_generation es) = highest_generation s') by lia.
    unfold reconcile. rewrite Hmax.
    assert (Hadopt : ∀ x, current x = current s' → failed x = failed s' → adopt_confirmed x es = x).
    { intros x Hx1 Hx2. unfold adopt_confirmed.
      rewrite (confirmed_entry_failed x s es) by congruence.
      destruct (confirmed_entry s es) as [e|]; [|done].
      rewrite bool_decide_eq_true_2; [done|congruence]. }
    rewrite Hadopt by done. cbn [current fallback candidate failed highest_generation].
    fold (entry_named es). rewrite Hfb.
    destruct (current s') as [cur|] eqn:Hcur; [|destruct s'; cbn in *; by subst].
    destruct (Hcand cur eq_refl) as (e & -> & Hc' & Hl). cbn [with_context rbind].
    rewrite <- Hcur. assert (Heta : {| highest_generation := highest_generation s'; current := current s';
      fallback := fallback s'; candidate := candidate s'; failed := failed s' |} = s') by by destruct s'.
    rewrite Heta, (proj2 (Z.leb_le _ _) Hl), <- Hc'. by destruct s'.
Qed.

Lemma reconcile_sound_witness :
  let es := map record_entry (sample_candidate :: sample_records) in
  ∃ s', reconcile default_state es = Ok s' ∧ highest_generation s' = 8
    ∧ current s' = Some "0123456789abcdef0123456789abcdef0123456789abcdef0123456789abcdef"
    ∧ candidate s' = Some "2123456789abcdef0123456789abcdef0123456789abcdef0123456789abcdef"
    ∧ reconcile s' es = Ok s'.
Proof.
  intros es. eexists. assert (H : reconcile default_state es = Ok _) by (vm_compute; reflexivity).
  split; [exact H|]. split; [reflexivity|]. split; [reflexivity|]. split; [reflexivity|].
  apply (reconcile_sound default_state es _ H).
Defined.

(** Failing a boot (retiring the confirmed deployment that failed) only
    ever spends that entry's attempts, and only when another usable entry
    remains: at the end, on any error and at every power cut the entries are
    unchanged, or have that one entry out of attempts and another usable one.
    A success that reports a retirement has made it; one that reports none has
    changed nothing, the entry being counted by the firmware. *)
Theorem fail_boot_keeps_fallback {R} {HR : Records R} trust receipt (w : world (R := R)) es :
  in_service w → entries w = Ok es →
  let the_id := rc_deployment_id receipt in
  let o := fail_boot trust receipt w in
  (∀ w', durable o w' → ∃ es', entries_are w w' es' ∧ (es' = es ∨ retired the_id es es'))
  ∧ (o_result o = Ok true → ∃ es', entries_are w (o_state o) es' ∧ retired the_id es es')
  ∧ (o_result o = Ok false → o_state o = w).
Proof.
  intros Hs He the_id o.
  assert (H : safe o (λ b w', if b then ∃ es', entries_are w w' es' ∧ retired the_id es es'
             else w' = w ∧ ∃ e, e ∈ es ∧ e_id e = the_id ∧ e_tries e ≠ None)
    (λ w', ∃ es', entries_are w w' es' ∧ (es' = es ∨ retired the_id es es'))).
  { apply safe_read; [exists es; split; [done|by left]|]. intros [] _. by apply retire_spec. }
  split; [exact (safe_durable _ _ _ H)|]. destruct H as (H & _).
  split; intros E; specialize (H _ E); [exact H|by destruct H].
Qed.

Lemma fail_boot_keeps_fallback_witness :
  let receipt := {| rc_backend := Uefi; rc_deployment_id := sample_id; rc_entry := "mica-" +:+ sample_id +:+ ".conf";
                    rc_kernel_id := ""; rc_rootfs_id := ""; rc_content_verified := true;
                    rc_secure_boot := true; rc_boot_verified := true |} in
  let o := fail_boot (HR := fit_records sample_layout) TrustNone receipt esp_world in
  o_result o = Ok true
  ∧ ∃ es', entries_are (HR := fit_records sample_layout) esp_world (o_state o) es'
      ∧ retired sample_id esp_entries es'.
Proof.
  intros receipt o. assert (Ho : o_result o = Ok true) by (vm_compute; reflexivity).
  split; [exact Ho|]. destruct esp_world_ok as [Hs He].
  apply (fail_boot_keeps_fallback (HR := fit_records sample_layout) TrustNone receipt
    esp_world esp_entries Hs He). exact Ho.
Defined.

End Deployments.
