(* ===== verification/Lifecycle.v ===== *)
(** Confirming, rolling back and rejecting deployments
    ([src/crates/mica-deploy/src/deployments/lifecycle.rs]): the transactions
    over the boot entries and DATA's state, every durable write in its order. *)
From S2P Require Import Prelude Text Files Boot FitEnv RecordStore Deployments.
Import Boot FitEnv RecordStore Deployments.

Module Lifecycle.

(** Append an id to the rejected ones, the oldest of 128 forgotten. *)
Definition push_failed (failed : list string) (id : string) : list string :=
  (if len failed =? 128 then drop 1 failed else failed) ++ [id].

Definition with_failed (s : State) (ids : list string) : State :=
  {| highest_generation := highest_generation s; current := current s; fallback := fallback s;
     candidate := candidate s; failed := ids |}.

(** Every other entry whose attempts ran out is recorded as rejected. *)
Definition note_exhausted (running : string) (es : list Entry) (s : State) : State :=
  foldl (λ s e,
    if negb (bool_decide (e_id e = running)) && negb (usable e) && negb (has (failed s) (e_id e))
    then with_failed s (push_failed (failed s) (e_id e)) else s) s es.

Definition drop_failed_candidate (s : State) : State :=
  match candidate s with
  | Some id => if has (failed s) id then Deployments.set_candidate s None else s
  | None => s
  end.

(** The deployment kept beside the confirmed one. *)
Definition confirmed_fallback (s : State) (es : list Entry) (cur : Entry) : option string :=
  if bool_decide (current s = Some (e_id cur)) then
    opt_filter (λ id, existsb (λ e, bool_decide (e_id e = id)
      && negb (bool_decide (e_id e = e_id cur)) && usable e) es) (fallback s)
  else
    or_else
      (opt_filter (λ id, existsb (λ e, bool_decide (e_id e = id) && usable e) es) (current s))
      (e_id <$> List.find (λ e, negb (bool_decide (e_id e = e_id cur)) && usable e) es).

(** The state a confirmation of [cur] commits. *)
Definition confirmed_state (s : State) (es : list Entry) (cur : Entry) : State :=
  {| highest_generation := highest_generation s;
     current := Some (e_id cur);
     fallback := confirmed_fallback s es cur;
     candidate := if bool_decide (candidate s = Some (e_id cur)) then None else candidate s;
     failed := failed s |}.

Definition kept (s : State) : list (option string) := [current s; fallback s; candidate s].

Section lifecycle.
Context {R : Type} {HR : Records R} (boot_trust : BootTrust).

Definition confirm (receipt : BootReceipt) : M world State :=
  let! _ := slift (validate_receipt (R := R) boot_trust receipt) in
  let! s := slift effective_state in
  let! es := slift entries in
  let running := rc_deployment_id receipt in
  let s := drop_failed_candidate (note_exhausted running es s) in
  let! cur := slift (λ _, with_context (List.find (λ e, bool_decide (e_id e = running)) es)
                            "running deployment entry is missing") in
  ensure! negb (bool_decide (e_tries cur = Some 3)) else "entry was never launched" in
  ensure! negb (has (failed s) (e_id cur)) else "deployment is already rejected" in
  let s' := confirmed_state s es cur in
  let! _ := (if unconfirmed cur then set_tries cur None else sret tt) in
  let! _ := save_state s' in
  let! _ := retain_entries es (kept s') in
  sret s'.

Definition reject (the_id : string) : M world State :=
  let! _ := slift (λ _, valid_id the_id) in
  let! s := slift (effective_state (R := R)) in
  let! es := slift entries in
  let! entry := slift (λ _, with_context (List.find (λ e, bool_decide (e_id e = the_id)) es)
                              "deployment entry is missing") in
  ensure! existsb (λ e, negb (bool_decide (e_id e = the_id)) && usable e) es
    else "cannot reject the last usable deployment" in
  ensure! negb (bool_decide (fallback s = Some the_id)) else "cannot reject retained fallback" in
  let! _ := (if usable entry then set_tries entry (Some 0) else sret tt) in
  let s' := if has (failed s) the_id then s
            else with_failed s (push_failed (failed s) the_id) in
  let s' := if bool_decide (candidate s' = Some the_id) then Deployments.set_candidate s' None else s' in
  let! _ := save_state s' in
  sret s'.

Definition rollback (receipt : BootReceipt) : M world State :=
  let! _ := slift (validate_receipt (R := R) boot_trust receipt) in
  let! s := slift effective_state in
  let running := rc_deployment_id receipt in
  ensure! bool_decide (candidate s = None) else "candidate deployment is pending" in
  ensure! bool_decide (current s = Some running) && negb (has (failed s) running)
    else "running deployment is not confirmed" in
  let! fb := slift (λ _, with_context (fallback s) "no retained fallback") in
  ensure! negb (bool_decide (fb = running)) && negb (has (failed s) fb)
    else "no usable retained fallback" in
  let! es := slift entries in
  ensure! existsb (λ e, bool_decide (e_id e = fb) && usable e) es
    else "no usable retained fallback" in
  reject running.

End lifecycle.

(** * The rejected ids *)

Lemma push_failed_short f i : len f < 128 → push_failed f i = f ++ [i].
Proof. intros H. unfold push_failed. destruct (Z.eqb_spec (len f) 128); [lia|done]. Qed.

Lemma push_failed_len f i : len f ≤ 128 → len (push_failed f i) ≤ 128.
Proof.
  intros H. unfold push_failed. rewrite len_app. change (len [i]) with 1.
  destruct (Z.eqb_spec (len f) 128); [|lia]. unfold len in *. rewrite length_drop. lia.
Qed.

Lemma push_failed_elem f i : i ∈ push_failed f i.
Proof. unfold push_failed. apply elem_of_app. right. by apply list_elem_of_singleton. Qed.

(** What noting the exhausted entries changes: only the rejected ids, which
    gain exhausted entries other than the running one. *)
Lemma note_exhausted_spec running es s :
  len (failed s) + len es ≤ 128 →
  let s' := note_exhausted running es s in
  s' = with_failed s (failed s')
  ∧ ∃ new, failed s' = failed s ++ new ∧ len new ≤ len es
      ∧ Forall (λ i, ∃ e, e ∈ es ∧ e_id e = i ∧ i ≠ running ∧ e_tries e = Some 0) new.
Proof.
  unfold note_exhausted. revert s. induction es as [|e es IH]; intros s Hl; cbn [foldl].
  - split; [by destruct s|]. exists (@nil string). rewrite app_nil_r. split; [done|]. by split; [|constructor].
  - rewrite len_cons in *. match goal with |- context [foldl _ ?x es] => set (s1 := x) end.
    assert (Hs1 : s1 = with_failed s (failed s1) ∧ ∃ n, failed s1 = failed s ++ n ∧ len n ≤ 1
      ∧ Forall (λ i, ∃ x, x ∈ e :: es ∧ e_id x = i ∧ i ≠ running ∧ e_tries x = Some 0) n).
    { unfold s1. destruct (_ && _) eqn:E.
      - pose proof (len_nonneg es). rewrite push_failed_short by lia. split; [done|].
        exists [e_id e]. split_and!; [done..|]. bools. apply Forall_singleton. exists e.
        match goal with H : usable e = false |- _ => unfold usable in H; apply bool_decide_eq_false in H end.
        split_and!; [left|done|done|]. by apply dec_stable.
      - split; [by destruct s|]. exists (@nil string). rewrite app_nil_r. by split_and!; [..|constructor]. }
    destruct Hs1 as (E1 & n & Hf1 & Hn & Hall).
    destruct (IH s1) as (E2 & new & Hf2 & Hnew & Hall2).
    { rewrite Hf1, len_app. lia. }
    split; [rewrite E2, E1; done|]. exists (n ++ new). rewrite Hf2, Hf1, app_assoc.
    split; [done|]. split; [rewrite len_app; lia|]. apply Forall_app. split; [done|].
    eapply Forall_impl; [exact Hall2|]. intros i (x & Hx & Hr). exists x. split; [by right|done].
Qed.

(** * Rejecting *)

Section laws.
Context {R : Type} {HR : Records R} (boot_trust : BootTrust).
Implicit Types w : world (R := R).

(** The entries a rejection may leave: untouched, or with the rejected one out
    of attempts and another one usable. *)
Definition rejected (the_id : string) (w w' : world (R := R)) (es : list Entry) : Prop :=
  in_service w' ∧ ∃ es', entries w' = Ok es' ∧ (es' = es ∨ retired the_id es es').

Lemma reject_spec the_id w es :
  in_service w → entries w = Ok es →
  safe (reject the_id w)
    (λ s' w', w_state w' = Holds s' ∧ the_id ∈ failed s' ∧ candidate s' ≠ Some the_id
      ∧ ∃ es', entries w' = Ok es' ∧ (es' = es ∨ retired the_id es es')
        ∧ Forall (λ e, e_id e = the_id → e_tries e = Some 0) es'
        ∧ ∃ e, e ∈ es' ∧ e_id e ≠ the_id ∧ usable e = true)
    (λ w', rejected the_id w w' es).
Proof.
  intros Hs He. assert (Hw : rejected the_id w w es) by (split; [done|]; eauto).
  apply safe_read; [exact Hw|]. intros [] _.
  apply safe_read; [exact Hw|]. intros s _.
  apply safe_read; [exact Hw|]. intros es0 He0. rewrite He in He0. injection He0 as <-.
  apply safe_read; [exact Hw|]. intros entry Hfind.
  destruct (List.find _ es) as [x|] eqn:Hx; [|done]. injection Hfind as <-.
  apply find_id in Hx as [Hin Hid].
  apply safe_ensure; [exact Hw|]. intros Hex.
  apply safe_ensure; [exact Hw|]. intros _.
  set (s1 := if has (failed s) the_id then s else with_failed s (push_failed (failed s) the_id)).
  assert (Hf : the_id ∈ failed s1).
  { unfold s1. destruct (has (failed s) the_id) eqn:Hh; [by apply bool_decide_eq_true in Hh|].
    apply push_failed_elem. }
  set (s2 := if bool_decide (candidate s1 = Some the_id) then Deployments.set_candidate s1 None else s1).
  assert (Hs2 : the_id ∈ failed s2 ∧ candidate s2 ≠ Some the_id).
  { unfold s2. by case_bool_decide. }
  apply safe_step with
    (R := λ _ w', in_service w' ∧ ∃ es', entries w' = Ok es' ∧ (es' = es ∨ retired the_id es es')
        ∧ Forall (λ e, e_id e = the_id → e_tries e = Some 0) es'
        ∧ ∃ e, e ∈ es' ∧ e_id e ≠ the_id ∧ usable e = true)
    (C' := λ w', rejected the_id w w' es); [|done|].
  - destruct (usable x) eqn:Hu.
    + destruct (set_tries_spec w es x (Some 0) Hs He Hin) as (file & Hsafe & _); [by right|].
      eapply safe_mono; [exact Hsafe|..].
      * intros [] w' (_ & Hi & He'). split; [done|]. eexists. split; [exact He'|].
        pose proof (retired_intro the_id es file x Hin Hid Hex) as Hr.
        split; [by right|]. split.
        -- apply Forall_forall. intros e (y & -> & Hy)%list_elem_of_fmap. unfold retried.
           case_bool_decide; [done|]. congruence.
        -- by destruct Hr as (f' & en & _ & _ & E & Hr).
      * intros w' [(_ & Hi & He')|(_ & Hi & He')]; (split; [done|]); eexists; (split; [exact He'|]);
          [by left|right; by apply retired_intro].
    + apply safe_ret; [exact Hw|]. split; [done|]. exists es. split; [done|]. split; [by left|].
      unfold usable in Hu. apply bool_decide_eq_false, dec_stable in Hu. split.
      * apply Forall_forall. intros e Hee E. assert (e = x) as ->; [|done].
        apply (NoDup_map_inj e_id es); try done; [by eapply entries_ids|congruence].
      * apply existsb_elem in Hex as (e & Hee & Hb). bools. eauto.
  - intros [] w' (Hi & es' & He' & Hr & Hrest).
    assert (Hw' : rejected the_id w w' es) by (split; [done|]; eauto).
    assert (Hw2 : rejected the_id w (set_state s2 w') es) by (split; [done|]; exists es'; done).
    apply safe_step with (R := λ _ w'', w'' = set_state s2 w') (C' := λ w', rejected the_id w w' es); [..|done|].
    + apply safe_write; done.
    + intros [] w'' ->. apply safe_ret; [exact Hw2|]. split; [done|]. split; [apply Hs2|].
      split; [apply Hs2|]. exists es'. split; [done|]. split; [done|]. done.
Qed.

(** * Confirming *)

(** The entries during a confirmation: at most the running one's counter
    cleared and others dropped, the running one never. *)
Definition confirming (running : string) (es es' : list Entry) : Prop :=
  entry_named es' running = entry_named es running
  ∧ ∀ e', e' ∈ es' → ∃ e, e ∈ es ∧ e_id e = e_id e' ∧ e_generation e = e_generation e'
      ∧ (e' = e ∨ e_id e' = running ∧ e_tries e' = None).

Lemma confirming_refl running es : confirming running es es.
Proof. split; [done|]. intros e He. exists e. by split_and!; [..|left]. Qed.

(** The entries after the running one was confirmed: the entries of before,
    in their order, with that one's counter cleared. *)
Definition confirmed_in (running : string) (es es1 : list Entry) : Prop :=
  Forall2 (λ e e', e_id e' = e_id e ∧ e_generation e' = e_generation e
    ∧ (e_id e = running → e_tries e' = None) ∧ (e_id e ≠ running → e' = e)) es es1.

Lemma confirmed_in_retried es file cur :
  confirmed_in (e_id cur) es (map (retried file cur None) es).
Proof.
  unfold confirmed_in. rewrite Forall2_fmap_r. apply Forall_Forall2_diag, Forall_forall.
  intros e _. unfold compose. rewrite retried_id, retried_generation. unfold retried. by case_bool_decide.
Qed.

Lemma confirmed_in_same running es cur :
  NoDup (map e_id es) → cur ∈ es → e_id cur = running → e_tries cur = None →
  confirmed_in running es es.
Proof.
  intros Hn Hin <- Ht. apply Forall_Forall2_diag, Forall_forall. intros e He.
  split_and!; try done. intros E. assert (e = cur) as ->; [|done].
  by apply (NoDup_map_inj e_id es).
Qed.

(** Membership in a short literal list, equal ids, and cleared counters. *)
Ltac by_in :=
  first [ congruence
        | by repeat first [apply list_elem_of_here | apply list_elem_of_further]
        | match goal with H : _ = _ → e_tries _ = None |- _ => apply H; congruence end ].

Definition pick (s : State) (e : Entry) : bool :=
  negb (unconfirmed e) && negb (has (failed s) (e_id e)).

Lemma confirmed_in_elem running es es1 e1 :
  confirmed_in running es es1 → e1 ∈ es1 →
  ∃ e, e ∈ es ∧ e_id e1 = e_id e ∧ e_generation e1 = e_generation e
    ∧ (e_id e = running → e_tries e1 = None) ∧ (e_id e ≠ running → e1 = e).
Proof.
  intros H (i & Hi)%list_elem_of_lookup.
  destruct (Forall2_lookup_r _ _ _ _ _ H Hi) as (e & He & Hrest).
  exists e. split; [by eapply list_elem_of_lookup_2|done].
Qed.

Lemma confirmed_in_named running es es1 i : confirmed_in running es es1 → entry_named es1 i = entry_named es i.
Proof.
  intros H. unfold entry_named. induction H as [|e e1 es es1 (Hid & _) _ IH]; [done|].
  cbn. by rewrite Hid, IH.
Qed.

Lemma confirmed_in_other running es es1 e :
  confirmed_in running es es1 → e_id e ≠ running → e ∈ es ↔ e ∈ es1.
Proof.
  intros H Hne. induction H as [|x x1 es es1 (Hid & _ & _ & Ho) _ IH]; [done|].
  rewrite !elem_of_cons, IH. split; intros [->|?]; auto.
  - left. symmetry. by apply Ho.
  - left. apply Ho. congruence.
Qed.

Lemma confirmed_in_confirming running es es1 p :
  confirmed_in running es es1 → (∀ e, e ∈ es1 → e_id e = running → p e = true) →
  confirming running es (List.filter p es1).
Proof.
  intros H Hp. split.
  - rewrite <- (confirmed_in_named _ _ _ running H). apply eq_true_iff_eq. rewrite !entry_named_spec.
    split; intros (e & He & Hid); exists e; (split; [|done]).
    + by apply elem_of_filter in He as [_ ?].
    + apply elem_of_filter. split; [by apply Hp|done].
  - intros e1 [_ He1]%elem_of_filter.
    destruct (confirmed_in_elem _ _ _ _ H He1) as (e & He & Hid & Hg & Ht & Ho).
    exists e. split_and!; try done. destruct (decide (e_id e = running)); [right|left; auto].
    split; [congruence|auto].
Qed.

(** Once the running deployment is uncounted, every state document of the
    transaction reconciles with every entry list of it, to the old current
    deployment or to the running one. *)
Lemma confirmed_reconciles running s0 s1 es es1 s p :
  len es ≤ 2 → entry_named es running = true → confirmed_in running es es1 →
  (∀ e, e ∈ es1 → e_id e = running → p e = true) →
  running ∉ failed s1 →
  (∀ e, e ∈ es → e_tries e = None → e_id e ∉ failed s1 → e_id e ∉ failed s0) →
  reconcile s0 es = Ok s →
  ∃ s'', reconcile s1 (List.filter p es1) = Ok s''
    ∧ (current s'' = current s ∨ current s'' = Some running).
Proof.
  intros Hlen Hrun Hin Hp Hnf Hkeep Hrec.
  assert (Hpick : ∀ e, e_id e = running → e_tries e = None → pick s1 e = true).
  { intros e Hid Ht. unfold pick, unconfirmed, has.
    rewrite Hid, Ht, (bool_decide_eq_false_2 (running ∈ _)) by done. done. }
  assert (Hcase : ∃ c, confirmed_entry s1 (List.filter p es1) = Some c
    ∧ (e_id c = running ∨ confirmed_entry s0 es = Some c)).
  { unfold confirmed_entry. fold (pick s1) (pick s0).
    apply entry_named_spec in Hrun as (r & Hr & Hid).
    destruct es as [|a [|b [|? ?]]]; [by apply not_elem_of_nil in Hr|..].
    - apply list_elem_of_singleton in Hr as ->.
      apply Forall2_cons_inv_l in Hin as (a1 & l & (Ha & _ & Ht & _) & Hl & ->).
      apply Forall2_nil_inv_l in Hl as ->. cbn [List.filter List.find].
      rewrite (Hp a1) by by_in. cbn [List.filter List.find]. rewrite (Hpick a1) by by_in. eauto with congruence.
    - apply Forall2_cons_inv_l in Hin as (a1 & l & (Ha & _ & Hta & Hao) & Hl & ->).
      apply Forall2_cons_inv_l in Hl as (b1 & l' & (Hb & _ & Htb & Hbo) & Hl & ->).
      apply Forall2_nil_inv_l in Hl as ->. cbn [List.filter List.find].
      destruct (decide (e_id a = running)) as [Har|Har].
      + rewrite (Hp a1) by by_in. cbn [List.filter List.find]. rewrite (Hpick a1) by by_in.
        exists a1. split; [done|]. left. congruence.
      + apply elem_of_cons in Hr as [->|Hr]; [done|]. apply list_elem_of_singleton in Hr as ->.
        specialize (Hao Har) as ->. rewrite (Hp b1) by by_in.
        assert (Hb1 : pick s1 b1 = true) by (apply Hpick; [congruence|auto]).
        destruct (p a); cbn [List.filter List.find]; [|rewrite Hb1; exists b1; split; [done|left; congruence]].
        destruct (pick s1 a) eqn:Hpa; [|rewrite Hb1; exists b1; split; [done|left; congruence]].
        exists a. split; [done|]. right.
        assert (pick s0 a = true) as ->; [|done]. unfold pick, unconfirmed, has in *. bools.
        rewrite (bool_decide_eq_false_2 (e_id a ∈ _)); [|apply Hkeep; [left|by apply dec_stable|done]].
        by rewrite bool_decide_eq_false_2.
    - rewrite !len_cons in Hlen. pose proof (len_nonneg l). lia. }
  destruct Hcase as (c & Hc & Hor).
  destruct (reconcile_ok s1 (List.filter p es1)) as [s'' Hs''].
  { unfold len in *. pose proof (List.filter_length_le p es1). apply Forall2_length in Hin. lia. }
  { congruence. }
  exists s''. split; [done|]. destruct (reconcile_parts _ _ _ Hs'') as (Hcur & _). rewrite Hc in Hcur.
  destruct Hor as [E|E]; [right; congruence|left].
  destruct (reconcile_parts _ _ _ Hrec) as (Hcur0 & _). rewrite E in Hcur0. congruence.
Qed.

(** What every durable state of a confirmation is: in service, its entries
    those of before but for the running one's counter and dropped ones, and
    reading as the old current deployment or as the running one. *)
Definition confirm_state (running : string) (s : State) (es : list Entry) w' : Prop :=
  in_service w' ∧ ∃ es' s'', entries w' = Ok es' ∧ confirming running es es'
    ∧ effective_state w' = Ok s'' ∧ (current s'' = current s ∨ current s'' = Some running).

(** The fallback a confirmation of the running deployment owes: the one it was
    confirmed with or, newly confirmed, the deployment confirmed before it, if
    that is another entry with an attempt left; newly confirmed, some such entry
    whenever there is one; and nothing but such an entry. *)
Definition standby (running : string) (es : list Entry) (id : string) : Prop :=
  id ≠ running ∧ ∃ e, e ∈ es ∧ e_id e = id ∧ usable e = true.
Definition fallback_due (running : string) (s : State) (es : list Entry) (f : option string) : Prop :=
  (∀ id, (if bool_decide (current s = Some running) then fallback s else current s) = Some id → standby running es id → f = Some id)
  ∧ (current s ≠ Some running → (∃ id, standby running es id) → is_Some f)
  ∧ ∀ id, f = Some id → standby running es id.

(** What a confirmation that succeeds has made durable. *)
Definition confirm_done (running : string) (s : State) (es : list Entry) (s' : State) w' : Prop :=
  w_state w' = Holds s' ∧ current s' = Some running ∧ candidate s' ≠ Some running
  ∧ fallback_due running s es (fallback s')
  ∧ ∃ es', entries w' = Ok es' ∧ entry_named es' running = true
    ∧ (∀ e, e ∈ es' → e_id e = running → e_tries e = None)
    ∧ (∀ e, e ∈ es' → Some (e_id e) ∈ kept s')
    ∧ (∀ e, e ∈ es → Some (e_id e) ∈ kept s' → entry_named es' (e_id e) = true)
    ∧ (∀ f, fallback s' = Some f → f ≠ running ∧ ∃ e, e ∈ es' ∧ e_id e = f ∧ usable e = true).

Lemma confirm_state_intro running s0 s1 s es es1 p w' :
  len es ≤ 2 → entry_named es running = true → confirmed_in running es es1 →
  (∀ e, e ∈ es1 → e_id e = running → p e = true) →
  running ∉ failed s1 → (∀ i, i ∉ failed s1 → i ∉ failed s0) → reconcile s0 es = Ok s →
  in_service w' → entries w' = Ok (List.filter p es1) → state w' = Ok s1 →
  confirm_state running s es w'.
Proof.
  intros Hl Hn Hin Hp Hf Hk Hrec Hs He Hst.
  destruct (confirmed_reconciles running s0 s1 es es1 s p) as (s'' & Hs'' & Hor); try done.
  { intros e _ _. apply Hk. }
  split; [done|]. exists (List.filter p es1), s''. split; [done|].
  split; [by apply confirmed_in_confirming|]. split; [|done].
  unfold effective_state. rewrite Hst. cbn [rbind]. rewrite He. done.
Qed.

Lemma confirmed_fallback_spec s es cur f :
  confirmed_fallback s es cur = Some f →
  f ≠ e_id cur ∧ ∃ e, e ∈ es ∧ e_id e = f ∧ usable e = true.
Proof.
  unfold confirmed_fallback. case_bool_decide as Hc.
  - intros [_ (e & He & Hb)%existsb_elem]%opt_filter_some. bools. split; [congruence|eauto].
  - destruct (opt_filter _ (current s)) as [i|] eqn:Ho; cbn [or_else].
    + intros [= <-]. apply opt_filter_some in Ho as [Hcur (e & He & Hb)%existsb_elem]. bools.
      split; [congruence|eauto].
    + intros (e & Hfe & ->)%fmap_Some. apply find_elem in Hfe as [He Hb]. bools. eauto.
Qed.

Lemma confirmed_fallback_due s es cur : fallback_due (e_id cur) s es (confirmed_fallback s es cur).
Proof.
  assert (Hal : ∀ id, standby (e_id cur) es id → existsb (λ e, bool_decide (e_id e = id) && usable e) es = true
    ∧ existsb (λ e, bool_decide (e_id e = id) && negb (bool_decide (e_id e = e_id cur)) && usable e) es = true).
  { intros id (Hne & e & He & Hid & Hu). split; apply existsb_elem; exists e; (split; [done|]); rewrite bool_decide_eq_true_2, Hu by done; [done|].
    by rewrite bool_decide_eq_false_2 by congruence. }
  split; [|split; [|intros id Hf; by apply confirmed_fallback_spec in Hf]]; unfold confirmed_fallback.
  - intros id E Hs. destruct (Hal id Hs) as [H1 H2]. case_bool_decide; rewrite E; cbn; by rewrite ?H1, ?H2.
  - intros Hc (id & Hs). rewrite bool_decide_eq_false_2 by done.
    destruct (opt_filter _ (current s)); cbn [or_else]; [by eexists|].
    destruct (List.find _ es) eqn:E; [by eexists|]. destruct Hs as (Hne & e & He & Hid & Hu).
    pose proof (find_none _ es E e ltac:(by apply list_elem_of_In)) as Hb. cbn in Hb. rewrite Hu, bool_decide_eq_false_2 in Hb by congruence. done.
Qed.
Lemma note_exhausted_parts running es s :
  current (note_exhausted running es s) = current s ∧ fallback (note_exhausted running es s) = fallback s.
Proof.
  unfold note_exhausted. revert s. induction es as [|e es IH]; intros s; [done|]. cbn [foldl]. destruct (IH (if negb (bool_decide (e_id e = running)) && negb (usable e) && negb (has (failed s) (e_id e))
    then with_failed s (push_failed (failed s) (e_id e)) else s)) as [-> ->]. by destruct (_ && _).
Qed.

Lemma drop_failed_candidate_parts s :
  current (drop_failed_candidate s) = current s ∧ fallback (drop_failed_candidate s) = fallback s
  ∧ failed (drop_failed_candidate s) = failed s
  ∧ (candidate (drop_failed_candidate s) = candidate s ∨ candidate (drop_failed_candidate s) = None).
Proof.
  unfold drop_failed_candidate. destruct (candidate s) as [i|] eqn:E; [|by split_and!; [..|left]].
  destruct (has _ _); [by split_and!; [..|right]|by split_and!; [..|left]].
Qed.

(** The state a confirmation commits reads back, and forgets no rejection. *)
Lemma committed_state w s0 s es cur :
  in_service w → entries w = Ok es → cur ∈ es → state w = Ok s0 → reconcile s0 es = Ok s →
  len (failed s0) ≤ 126 →
  let s' := confirmed_state (drop_failed_candidate (note_exhausted (e_id cur) es s)) es cur in
  read_state (Holds s') = Ok s' ∧ (∀ i, i ∉ failed s' → i ∉ failed s0).
Proof.
  intros Hs He Hin Hst Hrec Hlen s'.
  pose proof (entries_count _ _ Hs He) as Hcount.
  destruct (reconcile_parts _ _ _ Hrec) as (_ & Hf0 & _).
  destruct (note_exhausted_spec (e_id cur) es s) as (E1 & new & Hnew & Hnl & Hall); [rewrite Hf0; lia|].
  destruct (drop_failed_candidate_parts (note_exhausted (e_id cur) es s)) as (P1 & P2 & P3 & P4).
  assert (Hf' : failed s' = failed s0 ++ new) by (cbn; rewrite P3, Hnew, Hf0; done).
  split; [|intros i Hi Hi0; apply Hi; rewrite Hf'; apply elem_of_app; by left].
  assert (Hev : ∀ e, e ∈ es → valid_id (e_id e) = Ok tt) by (intros e; by eapply entries_valid).
  destruct (read_state_inv _ _ Hst) as [_ Hv0].
  pose proof (reconcile_ids_valid _ _ _ Hrec Hv0 Hev) as Hv.
  apply ids_valid_spec in Hv as (V1 & V2 & V3 & V4).
  apply read_state_holds; [rewrite Hf', len_app; lia|]. apply ids_valid_spec. split_and!.
  - intros i [= <-]. by apply Hev.
  - intros i [_ (e & Hee & <- & _)]%confirmed_fallback_spec. by apply Hev.
  - intros i. cbn. case_bool_decide; [done|].
    pose proof (f_equal candidate E1) as Ec. cbn in Ec. rewrite Ec in P4.
    destruct P4 as [->| ->]; [apply V3|done].
  - rewrite Hf'. apply Forall_app. split; [by rewrite <- Hf0|].
    eapply Forall_impl; [exact Hall|]. intros i (e & Hee & <- & _). by apply Hev.
Qed.

(** The step that clears the running entry's counter, when it has one. *)
Lemma clear_counter w es cur :
  in_service w → entries w = Ok es → cur ∈ es →
  safe ((if unconfirmed cur then set_tries cur None else sret tt) w)
    (λ _ w', w_state w' = w_state w ∧ in_service w'
       ∧ ∃ es1, entries w' = Ok es1 ∧ confirmed_in (e_id cur) es es1)
    (λ w', w' = w ∨ w_state w' = w_state w ∧ in_service w'
       ∧ ((entries w' = Ok es) ∨ ∃ es1, entries w' = Ok es1 ∧ confirmed_in (e_id cur) es es1)).
Proof.
  intros Hs He Hin. destruct (unconfirmed cur) eqn:Hu.
  - destruct (set_tries_spec w es cur None Hs He Hin) as (file & Hsafe & _); [by left|].
    eapply safe_mono; [exact Hsafe|..].
    + intros [] w' (A & B & C). split_and!; try done. eexists. split; [exact C|]. apply confirmed_in_retried.
    + intros w' [(A & B & C)|(A & B & C)]; right; split_and!; try done; [by left|right].
      eexists. split; [exact C|]. apply confirmed_in_retried.
  - apply safe_ret; [by left|]. split_and!; try done. exists es. split; [done|].
    apply confirmed_in_same with (cur := cur); try done; [by eapply entries_ids|].
    unfold unconfirmed in Hu. apply bool_decide_eq_false in Hu. by apply dec_stable.
Qed.

Lemma filter_true {A} (l : list A) : List.filter (λ _, true) l = l.
Proof. apply filter_all. by apply Forall_forall. Qed.

Lemma confirm_spec receipt w es s0 s :
  in_service w → entries w = Ok es → state w = Ok s0 → reconcile s0 es = Ok s →
  len (failed s0) ≤ 126 →
  safe (confirm boot_trust receipt w)
    (λ s' w', confirm_done (rc_deployment_id receipt) s es s' w')
    (λ w', confirm_state (rc_deployment_id receipt) s es w').
Proof.
  intros Hs He Hst Hrec Hlen.
  pose proof (entries_count _ _ Hs He) as Hcount. pose proof (entries_ids _ _ Hs He) as Hids.
  assert (Heff : effective_state w = Ok s) by (unfold effective_state; by rewrite Hst; cbn; rewrite He).
  assert (Hw : confirm_state (rc_deployment_id receipt) s es w).
  { split; [done|]. exists es, s. split_and!; [done|apply confirming_refl|done|by left]. }
  apply safe_read; [exact Hw|]. intros [] _.
  apply safe_read; [exact Hw|]. intros s1' E. rewrite Heff in E. injection E as <-.
  apply safe_read; [exact Hw|]. intros es0 E. rewrite He in E. injection E as <-.
  apply safe_read; [exact Hw|]. intros cur Hfind.
  destruct (List.find _ es) as [x|] eqn:Hx; [|done]. injection Hfind as <-.
  apply find_id in Hx as [Hin Hid].
  apply safe_ensure; [exact Hw|]. intros _.
  apply safe_ensure; [exact Hw|]. intros Hnf.
  rewrite <- Hid in Hw, Hnf |- *.
  destruct (committed_state w s0 s es x Hs He Hin Hst Hrec Hlen) as [Hread Hforget].
  set (s' := confirmed_state _ es x) in *.
  assert (Hnf' : e_id x ∉ failed s') by (cbn; unfold has in Hnf; bools; done).
  assert (Hnamed : entry_named es (e_id x) = true) by (apply entry_named_spec; eauto).
  (* Entries of a later step, under the old document or the committed one. *)
  assert (Hold : ∀ w' es1, w_state w' = w_state w → in_service w' → entries w' = Ok es1 →
    confirmed_in (e_id x) es es1 → confirm_state (e_id x) s es w').
  { intros w' es1 A B C D.
    apply confirm_state_intro with (s0 := s0) (s1 := s0) (es1 := es1) (p := λ _, true); try done.
    - by apply Hforget.
    - by rewrite filter_true.
    - unfold state. rewrite A. exact Hst. }
  assert (Hnew : ∀ w' es1 p, w_state w' = Holds s' → in_service w' → entries w' = Ok (List.filter p es1) →
    confirmed_in (e_id x) es es1 → (∀ e, e ∈ es1 → e_id e = e_id x → p e = true) →
    confirm_state (e_id x) s es w').
  { intros w' es1 p A B C D Hp.
    apply confirm_state_intro with (s0 := s0) (s1 := s') (es1 := es1) (p := p); try done.
    unfold state. by rewrite A. }
  eapply safe_step; [by apply (clear_counter w es x)|..].
  { intros w' [->|(A & B & [C|(es1 & C & D)])]; [exact Hw|..|by eapply Hold].
    split; [done|]. exists es, s. split_and!; [done|apply confirming_refl| |by left].
    unfold effective_state, state. rewrite A. unfold state in Hst. rewrite Hst. cbn. by rewrite C. }
  intros [] w1 (A1 & B1 & es1 & C1 & D1).
  eapply safe_step with (R := λ _ w2, w2 = set_state s' w1) (C' := confirm_state (e_id x) s es); [..|done|].
  { apply safe_write; [by eapply Hold|..|done].
    apply (Hnew _ es1 (λ _, true)); try done. rewrite filter_true. exact C1. }
  intros [] w2 ->. set (w2 := set_state s' w1).
  assert (Hkeep : keeps (kept s') (e_id x) = true).
  { apply bool_decide_eq_true. left. }
  destruct (retain_spec w2 es1 es (kept s')) as [Hsafe _]; try done.
  { intros e Hke. apply (confirmed_in_other (e_id x)); [done|]. congruence. }
  { assert (entry_named es1 (e_id x) = true) as (e & Hee & Hei)%entry_named_spec
      by by rewrite (confirmed_in_named (e_id x) es).
    exists e. by rewrite Hei. }
  eapply safe_step; [exact Hsafe|..].
  { intros w' (es' & (A & B & C) & (p & ->)). eapply Hnew; [done..|exact C|exact D1|].
    intros e _ Hei. cbn beta. by rewrite Hei, Hkeep. }
  intros [] w3 (A3 & B3 & C3). apply safe_ret.
  { eapply Hnew; [done..|exact C3|exact D1|]. intros e _ Hei. cbn beta. by rewrite Hei. }
  split; [done|]. split; [done|]. split; [cbn; by case_bool_decide|]. split.
  { destruct (drop_failed_candidate_parts (note_exhausted (e_id x) es s)) as (P1 & P2 & _). destruct (note_exhausted_parts (e_id x) es s) as [N1 N2].
    pose proof (confirmed_fallback_due (drop_failed_candidate (note_exhausted (e_id x) es s)) es x) as Hd.
    unfold fallback_due in *. by rewrite P1, P2, N1, N2 in Hd. }
  exists (kept_only (kept s') es1). split; [done|].
  assert (Hconf : confirming (e_id x) es (kept_only (kept s') es1)).
  { apply confirmed_in_confirming; [done|]. intros e _ Hei. cbn beta. by rewrite Hei. }
  split; [by rewrite (proj1 Hconf)|]. split_and!.
  - intros e [_ Hee]%elem_of_filter Hei.
    destruct (confirmed_in_elem _ _ _ _ D1 Hee) as (e0 & _ & E & _ & Ht & _). apply Ht. congruence.
  - intros e [Hke _]%elem_of_filter. by apply bool_decide_eq_true in Hke.
  - intros e Hin_e Hke. assert (entry_named es1 (e_id e) = true) as (e1 & He1 & Hei)%entry_named_spec.
    { rewrite (confirmed_in_named (e_id x) es es1 _ D1). apply entry_named_spec. by exists e. }
    apply entry_named_spec. exists e1. split; [|done]. apply elem_of_filter. split; [|done]. apply bool_decide_eq_true. by rewrite Hei.
  - intros f Hf. pose proof Hf as (Hne & e & Hee & Hei & Hu)%confirmed_fallback_spec.
    split; [done|]. exists e. split; [|done]. apply elem_of_filter. split.
    + apply bool_decide_eq_true. rewrite Hei, <- Hf. right. left.
    + apply (confirmed_in_other (e_id x) es); [done|congruence|done].
Qed.

End laws.

(** ** Rolling back *)

(** The next guard of a run. *)
Ltac next_guard G :=
  match goal with |- context [o_result ((if ?c then _ else _) _)] => destruct c eqn:G end.

(** A rollback stops before any write, or is a rejection under its guards. *)
Lemma rollback_runs {R} {HR : Records R} trust receipt (w : world (R := R)) :
  let running := rc_deployment_id receipt in
  let o := rollback trust receipt w in
  (∃ e, o_result o = Err e ∧ ∀ w', durable o w' → w' = w)
  ∨ ∃ s f es, effective_state w = Ok s ∧ entries w = Ok es ∧ candidate s = None
      ∧ current s = Some running ∧ fallback s = Some f ∧ f ≠ running
      ∧ existsb (λ e, bool_decide (e_id e = f) && usable e) es = true
      ∧ o_result o = o_result (reject running w) ∧ o_state o = o_state (reject running w)
      ∧ ∀ w', o_crash o w' → w' = w ∨ o_crash (reject running w) w'.
Proof.
  intros running o. unfold o, rollback, sbind, slift. cbn [o_result o_state o_crash].
  destruct (validate_receipt trust receipt w) as [u|e]; cbn [o_result o_state o_crash];
    [|left; exists e; split; [done|]; by intros w' [->| ->]].
  destruct (effective_state w) as [s|e] eqn:Heff; cbn [o_result o_state o_crash];
    [|left; exists e; split; [done|]; intros w' [->|[->| ->]]; done].
  next_guard G1; cbn [o_result o_state o_crash];
    [|left; eexists; split; [done|]; unfold durable; cbn; tauto].
  next_guard G2; cbn [o_result o_state o_crash];
    [|left; eexists; split; [done|]; unfold durable; cbn; tauto].
  destruct (fallback s) as [f|] eqn:Hf; cbn [with_context o_result o_state o_crash];
    [|left; eexists; split; [done|]; unfold durable; cbn; tauto].
  next_guard G3; cbn [o_result o_state o_crash];
    [|left; eexists; split; [done|]; unfold durable; cbn; tauto].
  destruct (entries w) as [es|e] eqn:He; cbn [o_result o_state o_crash];
    [|left; eexists; split; [done|]; unfold durable; cbn; tauto].
  next_guard G4; cbn [o_result o_state o_crash];
    [|left; eexists; split; [done|]; unfold durable; cbn; tauto].
  right. exists s, f, es. bools. split_and!; try done. intros w' Hc. cbn in Hc. tauto.
Qed.

(** * Properties *)

(** C27: confirming the running deployment is crash safe and never refills an
    attempt. At its end, on any error and at a power cut between or during any
    two writes, the device is in service, the entries are those of before
    except that the running one's counter may be cleared and entries may be
    dropped (the running one never is), and the next reading of the state
    succeeds and names the old current deployment or the running one. A
    confirmation that reports success has recorded the running deployment as
    current and uncounted, kept exactly the entries of the current, the fallback
    and the candidate, and the fallback is the one it owes ([fallback_due]).
    DATA lists at most 126 rejected ids at the start: of 128 the oldest is
    forgotten to note an exhausted entry, and up to two may be noted. *)
Theorem confirm_crash_safe {R} {HR : Records R} trust receipt (w : world (R := R)) es s0 s :
  in_service w → entries w = Ok es → state w = Ok s0 → reconcile s0 es = Ok s →
  len (failed s0) ≤ 126 →
  let running := rc_deployment_id receipt in
  let o := confirm trust receipt w in
  (∀ w', durable o w' → confirm_state running s es w')
  ∧ (∀ s', o_result o = Ok s' → confirm_done running s es s' (o_state o)).
Proof.
  intros Hs He Hst Hrec Hlen running o.
  pose proof (confirm_spec trust receipt w es s0 s Hs He Hst Hrec Hlen) as H.
  split; [exact (safe_durable _ _ _ H)|]. by destruct H as (H & _).
Qed.

Lemma confirm_crash_safe_witness :
  let o := confirm (HR := fit_records sample_layout) TrustNone esp_receipt esp_world in
  o_result o = Ok {| highest_generation := 8; current := Some candidate_id; fallback := Some sample_id;
                     candidate := None; failed := [] |}
  ∧ (∀ w', durable o w' → in_service (HR := fit_records sample_layout) w').
Proof.
  intros o. split; [vm_compute; reflexivity|]. intros w' Hw.
  destruct esp_world_ok as [Hs He].
  apply (confirm_crash_safe (HR := fit_records sample_layout) TrustNone esp_receipt esp_world esp_entries
    {| highest_generation := 8; current := Some sample_id; fallback := None;
       candidate := Some candidate_id; failed := [] |}
    {| highest_generation := 8; current := Some sample_id; fallback := None;
       candidate := Some candidate_id; failed := [] |} Hs He);
    [vm_compute; reflexivity|vm_compute; reflexivity|vm_compute; done|exact Hw].
Defined.

(** Rejecting a deployment never removes the last usable entry: at its end,
    on any error and at every power cut the entries are unchanged, or have that
    one out of attempts and another usable one. On success the rejection is
    recorded, the entry is out of attempts, it is no candidate any more, and
    another usable entry remains. *)
Theorem reject_keeps_usable {R} {HR : Records R} the_id (w : world (R := R)) es :
  in_service w → entries w = Ok es →
  let o := reject the_id w in
  (∀ w', durable o w' → in_service w' ∧ ∃ es', entries w' = Ok es' ∧ (es' = es ∨ retired the_id es es'))
  ∧ (∀ s', o_result o = Ok s' →
       w_state (o_state o) = Holds s' ∧ the_id ∈ failed s' ∧ candidate s' ≠ Some the_id
       ∧ ∃ es', entries (o_state o) = Ok es' ∧ (es' = es ∨ retired the_id es es')
         ∧ Forall (λ e, e_id e = the_id → e_tries e = Some 0) es'
         ∧ ∃ e, e ∈ es' ∧ e_id e ≠ the_id ∧ usable e = true).
Proof.
  intros Hs He o. pose proof (reject_spec the_id w es Hs He) as H.
  split; [exact (safe_durable _ _ _ H)|]. by destruct H as (H & _).
Qed.

Lemma reject_keeps_usable_witness :
  let o := reject (HR := fit_records sample_layout) candidate_id esp_world in
  is_ok (o_result o) = true
  ∧ ∀ w', durable o w' → in_service (HR := fit_records sample_layout) w'.
Proof.
  intros o. split; [vm_compute; reflexivity|]. intros w' Hw. destruct esp_world_ok as [Hs He].
  apply (reject_keeps_usable (HR := fit_records sample_layout) candidate_id esp_world esp_entries Hs He).
  exact Hw.
Defined.

(** A rollback refuses while a candidate is pending, unless the running
    deployment is the confirmed one, and unless another retained fallback with
    an attempt left exists; it then rejects the running deployment, and in every
    durable state it can leave that fallback's entry is still there with its
    attempts. *)
Theorem rollback_leaves_fallback {R} {HR : Records R} trust receipt (w : world (R := R)) es s :
  in_service w → entries w = Ok es → effective_state w = Ok s →
  let running := rc_deployment_id receipt in
  let o := rollback trust receipt w in
  (∀ w', durable o w' → ∃ es', entries w' = Ok es' ∧ (es' = es ∨ retired running es es'))
  ∧ (∀ s', o_result o = Ok s' →
       candidate s = None ∧ current s = Some running ∧ running ∈ failed s'
       ∧ ∃ f, fallback s = Some f ∧ f ≠ running
           ∧ ∀ w', durable o w' → ∃ es' e, entries w' = Ok es' ∧ e ∈ es' ∧ e_id e = f ∧ usable e = true).
Proof.
  intros Hs He Heff running o.
  assert (Hw : ∃ es', entries w = Ok es' ∧ (es' = es ∨ retired running es es')) by eauto.
  destruct (rollback_runs trust receipt w) as [(e & Hr & Hdur)|(s1 & f & es1 & F)].
  { split; [by intros w' ->%Hdur|]. intros s'. unfold o. congruence. }
  destruct F as (E1 & E2 & Hc & Hcur & Hf & Hne & Hex & Hres & Hstate & Hcrash).
  rewrite Heff in E1. injection E1 as <-. rewrite He in E2. injection E2 as <-.
  subst o running. cbn zeta in *.
  destruct (reject_spec (rc_deployment_id receipt) w es Hs He) as (H1 & H2 & H3).
  assert (Hdur : ∀ w', durable (rollback trust receipt w) w' →
    ∃ es', entries w' = Ok es' ∧ (es' = es ∨ retired (rc_deployment_id receipt) es es')).
  { intros w' [->|[->|Hx]%Hcrash]; [rewrite Hstate; apply H2|exact Hw|by apply H3]. }
  split; [exact Hdur|]. intros s' Hok. rewrite Hres in Hok.
  split; [done|]. split; [done|]. split; [by apply H1|]. exists f. split; [done|]. split; [done|].
  intros w' Hw'. destruct (Hdur w' Hw') as (es' & He' & Hor). exists es'.
  apply existsb_elem in Hex as (e & Hee & Hb). bools. exists e. split; [done|]. split; [|done].
  destruct Hor as [->|(file & en & _ & Hid & -> & _)]; [done|].
  apply list_elem_of_fmap. exists e. split; [|done]. unfold retried.
  by rewrite bool_decide_eq_false_2 by congruence.
Qed.


(** A device whose confirmed deployment keeps a fallback, neither pending. *)
Definition rollback_world : world (R := region) :=
  {| w_state := Holds {| highest_generation := 8; current := Some candidate_id; fallback := Some sample_id;
                         candidate := None; failed := [] |};
     w_boot := BackendUefi (Some
       [{| d_name := str_bytes ("mica-" +:+ sample_id +:+ ".conf"); d_node := esp_file "7" |};
        {| d_name := str_bytes ("mica-" +:+ candidate_id +:+ ".conf"); d_node := esp_file "8" |}]) |}.
Definition rollback_receipt : BootReceipt :=
  {| rc_backend := Uefi; rc_deployment_id := candidate_id; rc_entry := "mica-" +:+ candidate_id +:+ ".conf";
     rc_kernel_id := ""; rc_rootfs_id := ""; rc_content_verified := true; rc_secure_boot := true;
     rc_boot_verified := true |}.
Definition rollback_entries : list Entry :=
  [{| e_id := candidate_id; e_file := "mica-" +:+ candidate_id +:+ ".conf"; e_generation := 8; e_tries := None |};
   {| e_id := sample_id; e_file := "mica-" +:+ sample_id +:+ ".conf"; e_generation := 7; e_tries := None |}].

Lemma rollback_leaves_fallback_witness :
  let o := rollback (HR := fit_records sample_layout) TrustNone rollback_receipt rollback_world in
  is_ok (o_result o) = true
  ∧ ∀ w', durable o w' → ∃ es', entries (HR := fit_records sample_layout) w' = Ok es'.
Proof.
  intros o. split; [vm_compute; reflexivity|]. intros w' Hw.
  assert (Hs : in_service (HR := fit_records sample_layout) rollback_world).
  { exists (rev rollback_entries). split; [|vm_compute; reflexivity].
    apply (bool_decide_unpack _). vm_compute. exact I. }
  destruct (rollback_leaves_fallback (HR := fit_records sample_layout) TrustNone rollback_receipt
    rollback_world rollback_entries
    {| highest_generation := 8; current := Some candidate_id; fallback := Some sample_id;
       candidate := None; failed := [] |} Hs) as [H _];
    [vm_compute; reflexivity|vm_compute; reflexivity|].
  destruct (H w' Hw) as (es' & He & _). by exists es'.
Defined.

End Lifecycle.
