(* ===== verification/Components.v ===== *)
(** The signed component contracts ([src/crates/mica-deploy/src/components.rs]):
    the deployment, kernel, root and core-component records, their validation,
    the signed envelope, and the device's admission of a deployment. JSON, the
    digest, base64 and the signature check are third-party code and classes of
    parameters. *)
From Stdlib Require Import Ascii.
From S2P Require Import Prelude Text Order DebianVersion Boot.
From S2P Require Export Maps.
Import DebianVersion Boot.

Module Components.

(** * Third-party code *)

(** [serde_json]'s values: parsing, compact printing of a value (whose keys are
    sorted), an object without one key, indexing, and a string value's text. *)
Class Json := {
  value : Type;
  json_parse : bytes → option value;
  json_print : value → bytes;
  json_without : string → value → option value;
  json_field : string → value → value;
  json_item : Z → value → value;
  json_text : value → option string;
}.

(** A struct's derived (de)serialisation. *)
Class Codec {JS : Json} (A : Type) := {
  from_value : value → option A;
  to_value : A → value;
}.

(** SHA-256 as lower-case hex, standard base64, and the Ed25519 check. *)
Definition key := bytes.
Class Crypto := {
  sha256 : bytes → string;
  base64_decode : string → option bytes;
  base64_encode : bytes → string;
  ed25519_verify : key → bytes → bytes → bool;
}.

(** * Records *)

Definition MAX_DEPLOYMENT_BYTES : Z := 16384.
Definition MAX_ENVELOPE_BYTES : Z := 24576.
Definition MAX_INTEGER : Z := 9007199254740991.

Record Artifact := { a_bytes : Z; a_sha256 : string }.

Record VerityGeometry := {
  v_version : Z; v_algorithm : string; v_data_block_size : Z; v_hash_block_size : Z;
  v_data_blocks : Z; v_hash_offset : Z; v_salt : string;
}.

Record VerityImage := {
  vi_image : Artifact; vi_root_hash : string; vi_signature : Artifact; vi_verity : VerityGeometry;
}.

Record KernelComponent := {
  k_schema : string; k_id : string; k_board : string; k_arch : string; k_build_id : string;
  k_release : string; k_boot_format : string; k_boot_artifact : Artifact; k_support : VerityImage;
  k_features : option (list string);
}.

Record RootComponent := {
  r_schema : string; r_id : string; r_arch : string; r_content : VerityImage;
  r_interface_level : Z; r_provides : option (smap string);
}.

(** What a core set's selection reads of a root. *)
Record RootFacts := { f_level : Z; f_provides : option (smap string) }.
Definition facts (r : RootComponent) : RootFacts :=
  {| f_level := r_interface_level r; f_provides := r_provides r |}.

Definition MAX_ROOT_PROVIDES : Z := 64.
Definition MAX_CORE_REQUIRES : Z := 16.
Definition MAX_CORE_COMPONENTS : Z := 16.

Record Range := { range_min : Z; range_max : option Z }.
Record CoreNeed := { n_package : string; n_min : string; n_max : option string }.
Record RootRequirement := { q_package : string; q_min : option string; q_max : option string }.
Record CoreSetRef := {
  cs_id : string; cs_channel : string; cs_generation : Z; cs_sha256 : string; cs_bytes : Z }.

Record CoreComponent := {
  c_schema : string; c_id : string; c_arch : string; c_package : string; c_version : string;
  c_features : list string; c_needs : list CoreNeed; c_root : option Range;
  c_requires : list RootRequirement; c_content : VerityImage;
}.

Record Deployment := {
  d_schema : string; d_board : string; d_arch : string; d_generation : Z; d_version : string;
  d_product : string; d_data_policy : string; d_kernel : KernelComponent; d_rootfs : RootComponent;
  d_core_set : option CoreSetRef;
}.

Record BootIdentity := {
  b_board : string; b_arch : string; b_kernel_build_id : string; b_kernel_release : string;
  b_support_id : string;
}.

Record Envelope := { env_schema : string; env_key_id : string; env_payload : string; env_signature : string }.

Record DeploymentPaths := { p_rootfs : string; p_support : string; p_boot : string }.

(** * Rules *)

Definition contract (ok : bool) (message : string) : result unit :=
  if ok then Ok tt else Err (Msg message).

(** A package version as its dotted numbers: one to four parts of at most nine
    digits. *)
Definition version_part (part : string) : result Z :=
  ensure negb (is_empty part) && (str_len part <=? 9) && all_bytes is_digit part
    else "invalid version" in
  with_context (parse_u64 part) "invalid version".
Definition version_key (v : string) : result (list Z) :=
  let? parts := collect version_part (split "." v) in
  ensure (1 <=? len parts) && (len parts <=? 4) else "invalid version" in
  Ok parts.

(** [Vec]'s order: the first difference decides, a prefix is smaller. *)
Fixpoint key_cmp (a b : list Z) : comparison :=
  match a, b with
  | [], [] => Eq
  | [], _ => Lt
  | _, [] => Gt
  | x :: a', y :: b' => then_with (Z.compare x y) (key_cmp a' b')
  end.
Definition key_le (a b : list Z) : bool := match key_cmp a b with Gt => false | _ => true end.

Definition hash (v : string) : result unit :=
  contract ((str_len v =? 64) && all_bytes is_hex_lower v) "invalid digest".

Definition name_ok (v : string) : bool :=
  negb (is_empty v) && (str_len v <=? 128) && first_byte is_alphanumeric v
  && all_bytes (λ b, is_alphanumeric b || one_of "._+-" b) v.
Definition name (v : string) : result unit := contract (name_ok v) "invalid identifier".

Definition integer (v maximum : Z) : result unit :=
  contract ((0 <? v) && (v <=? maximum)) "invalid integer".

(** A set channel's name ([update_set.rs], [channel]). *)
Definition channel_byte (b : ascii) : bool := is_lower b || is_digit b.
Definition channel (v : string) : result unit :=
  contract (negb (is_empty v) && (str_len v <=? 64) && first_byte channel_byte v
            && all_bytes (λ b, channel_byte b || bool_decide (b = "-"%char)) v) "invalid set channel".

(** ** Root requirements *)

Definition compare_ge (a b : string) : bool :=
  match compare a b with Some o => is_ge o | None => false end.
Definition compare_le (a b : string) : bool :=
  match compare a b with Some o => is_le o | None => false end.
Definition opt_all {A} (p : A → bool) (o : option A) : bool :=
  match o with Some a => p a | None => true end.

Definition provided (root : RootFacts) (package : string) : option string :=
  f_provides root ≫= smap_get package.

Definition requirement_holds (q : RootRequirement) (root : RootFacts) : bool :=
  match provided root (q_package q) with
  | None => true
  | Some version => opt_all (compare_ge version) (q_min q) && opt_all (compare_le version) (q_max q)
  end.

(** The requirement as one reads it. *)
Definition describe (q : RootRequirement) : string :=
  match q_min q, q_max q with
  | Some mn, Some mx => q_package q +:+ " >= " +:+ mn +:+ ", <= " +:+ mx
  | Some mn, None => q_package q +:+ " >= " +:+ mn
  | None, Some mx => q_package q +:+ " <= " +:+ mx
  | None, None => q_package q
  end.

Definition runs_on (core : CoreComponent) (level : Z) : bool :=
  match c_root core with
  | None => true
  | Some range => (range_min range <=? level) && opt_all (λ mx, level <=? mx) (range_max range)
  end.

(** ** Needs *)

Definition need_met (others : list CoreComponent) (missing : string) (need : CoreNeed) : result unit :=
  let? found := with_context
    (List.find (λ other, bool_decide (c_package other = n_package need)) others) missing in
  let? version := version_key (c_version found) in
  let? mn := version_key (n_min need) in
  let? at_most := (if key_le mn version then
                     match n_max need with
                     | Some mx => let? mx := version_key mx in Ok (key_le version mx)
                     | None => Ok true
                     end
                   else Ok false) in
  contract at_most "a core component's need is outside its version range".

Definition needs_met (core : CoreComponent) (others : list CoreComponent) (missing : string) : result unit :=
  each (need_met others missing) (c_needs core).

(** ** Images *)

Definition artifact_validate (a : Artifact) (maximum : Z) : result unit :=
  let? _ := integer (a_bytes a) maximum in
  hash (a_sha256 a).

(** The blocks of the hash tree over [blocks] data blocks, level by level.
    Out of fuel is [None]. *)
Fixpoint tree_blocks (fuel : nat) (blocks : Z) : option Z :=
  if blocks <=? 1 then Some 0
  else match fuel with
       | O => None
       | S f => let level := div_ceil blocks 128 in (λ t, level + t) <$> tree_blocks f level
       end.

(** A [u64] has at most ten levels of 128. *)
Definition TREE_FUEL : nat := 10.

Definition verity_validate (i : VerityImage) : result unit :=
  let? _ := artifact_validate (vi_image i) MAX_INTEGER in
  let? _ := artifact_validate (vi_signature i) 65536 in
  let? _ := hash (vi_root_hash i) in
  let g := vi_verity i in
  let? _ := contract ((v_version g =? 1) && bool_decide (v_algorithm g = "sha256")
                      && (v_data_block_size g =? 4096) && (v_hash_block_size g =? 4096))
              "unsupported verity geometry" in
  let? _ := integer (v_data_blocks g) (MAX_INTEGER / 4096) in
  let? _ := integer (v_hash_offset g) MAX_INTEGER in
  let? _ := hash (v_salt g) in
  let? _ := contract (v_hash_offset g =? v_data_blocks g * 4096)
              "hash tree must immediately follow data" in
  let? t := with_context (tree_blocks TREE_FUEL (v_data_blocks g)) "out of fuel" in
  let b := v_hash_offset g + t * 4096 in
  let? _ := integer b MAX_INTEGER in
  contract (a_bytes (vi_image i) =? b) "image length does not match verity tree".

Section contracts.
Context {CR : Crypto} {JS : Json}.

(** Check downloaded or published bytes. *)
Definition artifact_verify (a : Artifact) (b : bytes) : result unit :=
  let? _ := artifact_validate a MAX_INTEGER in
  contract ((len b =? a_bytes a) && bool_decide (sha256 b = a_sha256 a))
    "artifact length or digest mismatch".

(** A component's id: the digest of its canonical JSON without the id. *)
Definition component_id (v : value) : result string :=
  let? fields := with_context (json_without "id" v) "expected object" in
  Ok (sha256 (json_print fields)).

(** ** Core components *)

Definition need_validate (package : string) (need : CoreNeed) : result unit :=
  let? _ := name (n_package need) in
  let? _ := contract (negb (bool_decide (n_package need = package))) "a core component needs itself" in
  let? mn := version_key (n_min need) in
  match n_max need with
  | Some mx => let? mx := version_key mx in contract (key_le mn mx) "empty version range"
  | None => Ok tt
  end.

Definition requirement_validate (q : RootRequirement) : result unit :=
  let? _ := name (q_package q) in
  let? _ := each (λ bound, contract (DebianVersion.valid bound) "invalid required version")
              (option_list (q_min q) ++ option_list (q_max q)) in
  match q_min q, q_max q with
  | Some mn, Some mx => contract (compare_ge mx mn) "empty version range"
  | _, _ => Ok tt
  end.

Definition core_validate (c : CoreComponent) (arch : string) (raw : value) : result unit :=
  let? _ := contract (bool_decide (c_schema c = "mica/core/v1")) "wrong component schema" in
  let? _ := contract (bool_decide (c_arch c = arch)) "component target mismatch" in
  let? _ := hash (c_id c) in
  let? _ := name (c_package c) in
  let? _ := version_key (c_version c) in
  let? _ := contract (negb (is_nil (c_features c)) && (len (c_features c) <=? 16)) "invalid core features" in
  let? _ := each name (c_features c) in
  let? _ := contract (len (c_needs c) <=? MAX_CORE_COMPONENTS) "invalid core needs" in
  let? _ := each (need_validate (c_package c)) (c_needs c) in
  let? _ := contract (opt_all (λ r, opt_all (λ mx, range_min r <=? mx) (range_max r)) (c_root c))
              "empty root interface range" in
  let? _ := contract (len (c_requires c) <=? MAX_CORE_REQUIRES) "invalid core requires" in
  let? _ := each requirement_validate (c_requires c) in
  let? _ := verity_validate (c_content c) in
  let? the_id := component_id raw in
  contract (bool_decide (the_id = c_id c)) "component identity mismatch".

(** ** Deployments *)

Definition arch_ok (arch : string) : bool :=
  bool_decide (arch = "amd64") || bool_decide (arch = "arm64") || bool_decide (arch = "armhf").

Definition feature_ok (f : string) : bool :=
  (1 <=? str_len f) && (str_len f <=? 32)
  && all_bytes (λ b, is_lower b || is_digit b || bool_decide (b = "-"%char)) f.

(** [windows(2).all(..)]. *)
Fixpoint windows_all {A} (p : A → A → bool) (l : list A) : bool :=
  match l with
  | x :: (y :: _) as l' => p x y && windows_all p l'
  | _ => true
  end.

(** The longest envelope of a signed set ([set_state.rs]). *)
Definition MAX_SET_ENVELOPE : Z := 49152.

Definition core_set_validate (core : CoreSetRef) : result unit :=
  let? _ := hash (cs_id core) in
  let? _ := hash (cs_sha256 core) in
  let? _ := channel (cs_channel core) in
  let? _ := integer (cs_generation core) MAX_INTEGER in
  contract ((0 <? cs_generation core) && (0 <? cs_bytes core) && (cs_bytes core <=? MAX_SET_ENVELOPE))
    "invalid core set reference".

Definition provides_validate (provides : smap string) : result unit :=
  let? _ := contract (len provides <=? MAX_ROOT_PROVIDES) "invalid root provides" in
  each (λ '(package, version),
    let? _ := name package in
    contract (DebianVersion.valid version) "invalid provided version") provides.

Definition deployment_validate (d : Deployment) (raw : value) : result unit :=
  let? _ := contract (bool_decide (d_schema d = "mica/deployment/v1")
                      && bool_decide (d_data_policy d = "unchanged"))
              "unsupported deployment schema or DATA policy" in
  let? _ := name (d_board d) in
  let? _ := contract (arch_ok (d_arch d)) "unsupported architecture" in
  let? _ := integer (d_generation d) MAX_INTEGER in
  let? _ := name (d_version d) in
  let? _ := name (d_product d) in
  let k := d_kernel d in
  let r := d_rootfs d in
  let? _ := contract (bool_decide (k_schema k = "mica/kernel/v1")
                      && bool_decide (r_schema r = "mica/rootfs/v1")) "wrong component schema" in
  let? _ := integer (r_interface_level r) MAX_INTEGER in
  let? _ := contract (bool_decide (k_board k = d_board d) && bool_decide (k_arch k = d_arch d)
                      && bool_decide (r_arch r = d_arch d)) "component target mismatch" in
  let? _ := hash (k_id k) in
  let? _ := hash (r_id r) in
  let? _ := hash (k_build_id k) in
  let? _ := name (k_release k) in
  let? _ := contract (bool_decide (k_boot_format k = "uki") || bool_decide (k_boot_format k = "fit"))
              "unsupported boot format" in
  let? _ := artifact_validate (k_boot_artifact k) MAX_INTEGER in
  let? _ := verity_validate (k_support k) in
  let? _ := match k_features k with
            | Some fs => contract ((len fs <=? 32) && forallb feature_ok fs && windows_all str_lt fs)
                           "invalid kernel features"
            | None => Ok tt
            end in
  let? _ := verity_validate (r_content r) in
  let? _ := match r_provides r with Some p => provides_validate p | None => Ok tt end in
  let? _ := match d_core_set d with Some core => core_set_validate core | None => Ok tt end in
  let? kernel_id := component_id (json_field "kernel" raw) in
  let? root_id := component_id (json_field "rootfs" raw) in
  contract (bool_decide (kernel_id = k_id k) && bool_decide (root_id = r_id r))
    "component identity mismatch".

(** Every object a deployment is made of. *)
Definition deployment_artifacts (d : Deployment) : list Artifact :=
  [k_boot_artifact (d_kernel d); vi_image (k_support (d_kernel d)); vi_signature (k_support (d_kernel d));
   vi_image (r_content (d_rootfs d)); vi_signature (r_content (d_rootfs d))].

Section documents.
Context {CD : Codec Deployment} {CV : Codec VerityImage}.

(** Paths are derived only from the ids of a validated deployment. *)
Definition deployment_paths (d : Deployment) : result DeploymentPaths :=
  let? _ := deployment_validate d (to_value d) in
  let kid := k_id (d_kernel d) in
  Ok {| p_rootfs := "roots/" +:+ r_id (d_rootfs d) +:+ "/rootfs.img";
        p_support := "kernels/" +:+ kid +:+ "/support.img";
        p_boot := if bool_decide (k_boot_format (d_kernel d) = "uki")
                  then "EFI/mica/kernels/" +:+ kid +:+ ".efi"
                  else "kernels/" +:+ kid +:+ "/boot.itb" |}.

(** Parse a compact, key-sorted payload: its own printing. *)
Definition parse_deployment (payload : bytes) : result Deployment :=
  let? _ := contract (len payload <=? MAX_DEPLOYMENT_BYTES) "deployment too large" in
  let? raw := with_context (json_parse payload) "invalid JSON" in
  let? _ := contract (bool_decide (json_print raw = payload)) "noncanonical or duplicate JSON fields" in
  let? d := with_context (from_value raw) "unknown, missing or invalid fields" in
  let? _ := deployment_validate d raw in
  Ok d.

(** ** Envelopes *)

Context (envelope_parse : bytes → option Envelope) (envelope_print : Envelope → bytes).

Definition base64 (v : string) : result bytes :=
  let? b := with_context (base64_decode v) "invalid base64" in
  let? _ := contract (bool_decide (base64_encode b = v)) "noncanonical base64" in
  Ok b.

Definition authenticate_payload (b : bytes) (keys : list key) (limit : Z) : result bytes :=
  let? _ := contract (len b <=? limit * 4 / 3 + 1024) "envelope too large" in
  let? e := with_context (envelope_parse b) "invalid envelope" in
  let? _ := contract (bool_decide (envelope_print e = b)) "noncanonical envelope" in
  let? _ := contract (bool_decide (env_schema e = "mica/update-envelope/v1")) "wrong envelope schema" in
  let? _ := hash (env_key_id e) in
  let? _ := contract (negb (is_nil keys) && (len keys <=? 8)) "invalid trust set" in
  let? k := with_context (List.find (λ k, bool_decide (sha256 k = env_key_id e)) keys)
              "untrusted metadata key" in
  let? payload := base64 (env_payload e) in
  let? _ := contract (len payload <=? limit) "payload too large" in
  let? signature := base64 (env_signature e) in
  let? _ := contract (len signature =? 64) "invalid signature length" in
  let? _ := contract (ed25519_verify k payload signature) "metadata signature rejected" in
  Ok payload.

Definition authenticate_deployment (b : bytes) (keys : list key) : result Deployment :=
  let? _ := contract (len b <=? MAX_ENVELOPE_BYTES) "envelope too large" in
  let? payload := authenticate_payload b keys MAX_DEPLOYMENT_BYTES in
  parse_deployment payload.

(** Hold a deployment to the device its signed boot policy describes; [format]
    is the policy's kernel format. *)
Definition admit_running (d : Deployment) (running : BootIdentity) (format : string) : result unit :=
  let? _ := contract (bool_decide (d_board d = b_board running) && bool_decide (d_arch d = b_arch running))
              "board/architecture mismatch" in
  contract (bool_decide (k_boot_format (d_kernel d) = format)) "wrong boot format".

Definition verify_deployment (b : bytes) (keys : list key) (running : BootIdentity) (format : string) :
    result Deployment :=
  let? d := authenticate_deployment b keys in
  let? _ := admit_running d running format in
  let k := d_kernel d in
  let? same := (if bool_decide (k_build_id k = b_kernel_build_id running)
                   && bool_decide (k_release k = b_kernel_release running)
                then let? the_id := component_id (to_value (k_support k)) in
                     Ok (bool_decide (the_id = b_support_id running))
                else Ok false) in
  let? _ := contract same "running kernel/support mismatch" in
  Ok d.

End documents.
End contracts.

(** ** The running root's product *)

Fixpoint find_product (ls : list string) (found : option string) : result (option string) :=
  match ls with
  | [] => Ok found
  | line :: ls' =>
      match strip_prefix "PRODUCT=" line with
      | Some v =>
          let? _ := contract (bool_decide (found = None)) "product file names more than one product" in
          let? _ := contract (name_ok v) "invalid product in the product file" in
          find_product ls' (Some v)
      | None => find_product ls' found
      end
  end.
Definition device_product (text : string) : result string :=
  let? found := find_product (lines text) None in
  with_context found "product file names no product".

(** * Lemmas *)

(** ** The hash tree *)

(** The blocks [t] of the hash tree over [n] data blocks: each level holds one
    block per 128 of the level below, until one block is the root. *)
Inductive hash_tree : Z → Z → Prop :=
| tree_root n : n ≤ 1 → hash_tree n 0
| tree_level n m t : 1 < n → 128 * (m - 1) < n ≤ 128 * m → hash_tree m t → hash_tree n (m + t).

Lemma div_ceil_levels n : 1 < n → 128 * (div_ceil n 128 - 1) < n ≤ 128 * div_ceil n 128.
Proof.
  intros H. destruct (div_ceil_spec n 128) as [Hs|[Hn _]]; [lia..| |lia].
  pose proof (div_ceil_cover n 128). lia.
Qed.

Lemma tree_blocks_total fuel n :
  0 ≤ n ≤ 128 ^ Z.of_nat fuel →
  ∃ t, tree_blocks fuel n = Some t ∧ hash_tree n t ∧ 0 ≤ t ∧ 127 * t ≤ n + 127 * Z.of_nat fuel.
Proof.
  revert n. induction fuel as [|f IH]; intros n Hn; cbn [tree_blocks]; destruct (Z.leb_spec n 1) as [H1|H1].
  - exists 0. split; [done|]. split; [by constructor|]. lia.
  - change (128 ^ Z.of_nat 0) with 1 in Hn. lia.
  - exists 0. split; [done|]. split; [by constructor|]. lia.
  - pose proof (div_ceil_levels n H1) as Hl. set (m := div_ceil n 128) in *.
    rewrite Nat2Z.inj_succ, Z.pow_succ_r in Hn by lia.
    destruct (IH m) as (t & -> & Ht & Hpos & Hb); [lia|].
    exists (m + t). split; [done|]. split; [by constructor|]. lia.
Qed.

Lemma hash_tree_unique n t t' : hash_tree n t → hash_tree n t' → t = t'.
Proof.
  intros H. revert t'. induction H as [n Hn|n m t Hn Hm H IH]; intros t' H'; inversion H'; subst; try lia.
  match goal with Hm' : 128 * (?k - 1) < n ≤ 128 * ?k |- _ => assert (k = m) as -> by lia end.
  f_equal. by apply IH.
Qed.

(** ** Validation, step by step *)

Lemma contract_ok c m u : contract c m = Ok u ↔ c = true.
Proof. unfold contract. destruct c, u; split; done. Qed.

Lemma hash_ok v u : hash v = Ok u ↔ hex_id v = true.
Proof. unfold hash. by rewrite contract_ok. Qed.

Lemma integer_ok v m u : integer v m = Ok u ↔ 0 < v ≤ m.
Proof. unfold integer. rewrite contract_ok, andb_true_iff, Z.ltb_lt, Z.leb_le. done. Qed.

Lemma rbind_ok {A B} (m : result A) (k : A → result B) b :
  rbind m k = Ok b ↔ ∃ a, m = Ok a ∧ k a = Ok b.
Proof.
  destruct m as [a|e]; cbn; [|by split; [|intros (? & ? & _)]].
  split; [eauto|by intros (a' & [= <-] & H)].
Qed.

Lemma rbind_unit {B} (m : result unit) (k : unit → result B) b :
  rbind m k = Ok b ↔ m = Ok tt ∧ k tt = Ok b.
Proof. rewrite rbind_ok. split; [by intros ([] & H1 & H2)|eauto]. Qed.

Lemma with_context_ok {A} (o : option A) t a : with_context o t = Ok a ↔ o = Some a.
Proof. destruct o; cbn; split; congruence. Qed.

(** Take apart a chain of checks that succeeded. *)
Ltac checks H :=
  repeat match type of H with
  | rbind _ (λ _ : unit, _) = Ok _ => let H' := fresh "H" in apply rbind_unit in H as [H' H]
  | rbind _ _ = Ok _ => let a := fresh "a" in let H' := fresh "H" in apply rbind_ok in H as (a & H' & H)
  end;
  repeat match goal with
  | H' : contract _ _ = Ok _ |- _ => apply contract_ok in H'
  | H' : hash _ = Ok _ |- _ => apply hash_ok in H'
  | H' : integer _ _ = Ok _ |- _ => apply integer_ok in H'
  | H' : with_context _ _ = Ok _ |- _ => apply with_context_ok in H'
  end.

Lemma artifact_validate_ok a m u :
  artifact_validate a m = Ok u ↔ 0 < a_bytes a ≤ m ∧ hex_id (a_sha256 a) = true.
Proof. unfold artifact_validate. by rewrite rbind_unit, integer_ok, hash_ok. Qed.

(** ** The product file *)

Lemma find_product_spec ls found r :
  find_product ls found = Ok r ↔
  let values := omap (strip_prefix "PRODUCT=") ls in
  match found, values with
  | _, [] => r = found
  | None, [p] => name_ok p = true ∧ r = Some p
  | _, _ => False
  end.
Proof.
  revert found. induction ls as [|line ls IH]; intros found; cbn [find_product omap list_omap].
  { destruct found; cbn; split; congruence. }
  destruct (strip_prefix "PRODUCT=" line) as [v|] eqn:Hp; [|apply IH].
  rewrite rbind_unit, contract_ok, bool_decide_eq_true.
  destruct found as [p|]; [by split; [intros [? _]|]|].
  rewrite rbind_unit, contract_ok, IH. cbn zeta.
  destruct (omap (strip_prefix "PRODUCT=") ls); [tauto|].
  split; [by intros (_ & _ & ?)|done].
Qed.

(** ** Envelopes *)

(** An authenticated deployment names its components by digests. *)
Lemma authenticate_deployment_ids {CR : Crypto} {JS : Json} {CD : Codec Deployment} envelope_parse envelope_print b keys x :
  authenticate_deployment envelope_parse envelope_print b keys = Ok x →
  hex_id (r_id (d_rootfs x)) = true ∧ hex_id (k_id (d_kernel x)) = true.
Proof.
  unfold authenticate_deployment, parse_deployment. intros H. checks H. injection H as <-.
  match goal with Hv : deployment_validate _ _ = Ok tt |- _ => unfold deployment_validate in Hv; checks Hv end.
  done.
Qed.

(** What an accepted payload rests on. *)
Lemma authenticate_payload_ok {CR : Crypto} envelope_parse envelope_print b keys limit payload :
  authenticate_payload envelope_parse envelope_print b keys limit = Ok payload →
  ∃ e k sig, envelope_parse b = Some e ∧ envelope_print e = b
    ∧ env_schema e = "mica/update-envelope/v1" ∧ hex_id (env_key_id e) = true
    ∧ k ∈ keys ∧ len keys ≤ 8 ∧ sha256 k = env_key_id e
    ∧ base64_decode (env_payload e) = Some payload ∧ base64_encode payload = env_payload e
    ∧ len payload ≤ limit
    ∧ base64_decode (env_signature e) = Some sig ∧ base64_encode sig = env_signature e
    ∧ len sig = 64 ∧ ed25519_verify k payload sig = true.
Proof.
  intros Ha. unfold authenticate_payload, base64 in Ha. checks Ha.
  repeat match goal with
  | Hb : rbind _ _ = Ok _ |- _ => checks Hb
  end.
  repeat match goal with H' : Ok _ = Ok _ |- _ => injection H' as H'; subst end. bools.
  match goal with Hf : List.find _ keys = Some _ |- _ => apply List.find_some in Hf as [Hk Hid] end.
  bools. eexists _, _, _. rewrite list_elem_of_In. by split_and!.
Qed.

(** * Samples *)

Definition sample_hex : string := "0123456789abcdef0123456789abcdef0123456789abcdef0123456789abcdef".
Definition sample_artifact (n : Z) : Artifact := {| a_bytes := n; a_sha256 := sample_hex |}.
(** An image of 300 data blocks: three tree blocks and a root. *)
Definition sample_image : VerityImage :=
  {| vi_image := sample_artifact (304 * 4096); vi_root_hash := sample_hex;
     vi_signature := sample_artifact 1000;
     vi_verity := {| v_version := 1; v_algorithm := "sha256"; v_data_block_size := 4096;
                     v_hash_block_size := 4096; v_data_blocks := 300; v_hash_offset := 300 * 4096;
                     v_salt := sample_hex |} |}.

(** * Properties *)

(** The tree loop of an image's validation always ends (ten levels cover
    every block count a [u64] byte length has), and an image validates only
    when its length is its data blocks followed by exactly their hash tree,
    with no sum leaving the 64-bit range or the largest integer of the
    format. *)
Theorem verity_geometry_exact i :
  verity_validate i ≠ Err (Msg "out of fuel")
  ∧ (verity_validate i = Ok tt →
     ∃ t, hash_tree (v_data_blocks (vi_verity i)) t
       ∧ (∀ t', hash_tree (v_data_blocks (vi_verity i)) t' → t' = t)
       ∧ a_bytes (vi_image i) = 4096 * (v_data_blocks (vi_verity i) + t)
       ∧ 0 < v_data_blocks (vi_verity i) ∧ a_bytes (vi_image i) ≤ MAX_INTEGER
       ∧ hex_id (vi_root_hash i) = true ∧ hex_id (v_salt (vi_verity i)) = true)
  ∧ (0 < v_data_blocks (vi_verity i) ≤ MAX_INTEGER / 4096 →
     ∃ t, tree_blocks TREE_FUEL (v_data_blocks (vi_verity i)) = Some t
        ∧ is_u64 (v_data_blocks (vi_verity i) * 4096 + t * 4096)).
Proof.
  set (n := v_data_blocks (vi_verity i)).
  assert (Hfuel : 0 < n ≤ MAX_INTEGER / 4096 →
    ∃ t, tree_blocks TREE_FUEL n = Some t ∧ hash_tree n t ∧ 0 ≤ t ∧ 127 * t ≤ n + 1270).
  { intros Hn. apply (tree_blocks_total TREE_FUEL n). unfold TREE_FUEL, MAX_INTEGER in *.
    change (128 ^ Z.of_nat 10) with 1180591620717411303424.
    change (9007199254740991 / 4096) with 2199023255551 in Hn. lia. }
  split_and!.
  - intros H. unfold verity_validate, artifact_validate, integer, hash, contract in H. fold n in H.
    repeat (match type of H with context [if ?c then Ok tt else _] => destruct c eqn:? end;
            cbn [rbind] in H; [|discriminate H]).
    destruct (tree_blocks TREE_FUEL n) as [t|] eqn:Ht; cbn [with_context rbind] in H.
    + repeat (match type of H with context [if ?c then Ok tt else _] => destruct c eqn:? end;
              cbn [rbind] in H; try discriminate H).
    + bools. destruct Hfuel as (t & E & _); [done|]. congruence.
  - intros H. unfold verity_validate in H. fold n in H. checks H.
    rewrite !artifact_validate_ok in *. bools.
    match goal with Ht : tree_blocks _ _ = Some ?t |- _ =>
      destruct Hfuel as (t' & E & Htree & Hpos & _); [done|]; rewrite Ht in E; injection E as <-;
      exists t; split; [exact Htree|]; split; [by intros t' ?; eapply hash_tree_unique|]
    end.
    split_and!; lia || done.
  - intros Hn. destruct (Hfuel Hn) as (t & E & _ & Hpos & Hb). exists t. split; [done|].
    unfold is_u64, U64_MAX, MAX_INTEGER in *.
    change (9007199254740991 / 4096) with 2199023255551 in Hn. lia.
Qed.

(** The product file names a product exactly when one line of it, and one
    only, starts with [PRODUCT=], and what follows is a valid identifier. *)
Theorem device_product_spec text p :
  device_product text = Ok p ↔
  omap (strip_prefix "PRODUCT=") (lines text) = [p] ∧ name_ok p = true.
Proof.
  unfold device_product. rewrite rbind_ok. setoid_rewrite with_context_ok.
  setoid_rewrite find_product_spec. cbn zeta.
  destruct (omap (strip_prefix "PRODUCT=") (lines text)) as [|v [|? ?]].
  - split; [intros (a & -> & ?); congruence|by intros [? _]].
  - split; [intros (a & [Hv ->] & [= <-]); done|]. intros [[= ->] Hp]. eauto.
  - split; [by intros (? & ? & _)|by intros [? _]].
Qed.

(** An accepted envelope is not malleable: two accepted envelopes that
    carry the same payload, key id and signature bytes are the same bytes, so
    whatever is stored, hashed or compared by its bytes names one signed
    document. *)
Theorem envelope_unique {CR : Crypto} envelope_parse envelope_print b b' keys limit payload e e' :
  authenticate_payload envelope_parse envelope_print b keys limit = Ok payload →
  authenticate_payload envelope_parse envelope_print b' keys limit = Ok payload →
  envelope_parse b = Some e → envelope_parse b' = Some e' →
  env_key_id e = env_key_id e' →
  base64_decode (env_signature e) = base64_decode (env_signature e') →
  b = b'.
Proof.
  intros H1 H2 Hp Hp' Hk Hs.
  apply authenticate_payload_ok in H1 as (x & k & sig & E & P & Sc & _ & _ & _ & _ & _ & Pay & _ & Sd & Se & _).
  apply authenticate_payload_ok in H2 as (x' & k' & sig' & E' & P' & Sc' & _ & _ & _ & _ & _ & Pay' & _ & Sd' & Se' & _).
  rewrite Hp in E. injection E as <-. rewrite Hp' in E'. injection E' as <-.
  assert (sig' = sig) as -> by congruence. rewrite <- P, <- P'. f_equal.
  destruct e, e'. cbn in *. congruence.
Qed.

Definition sample_crypto : Crypto :=
  {| sha256 := λ _, sample_hex; base64_decode := λ s, Some (str_bytes s); base64_encode := bytes_str;
     ed25519_verify := λ _ _ _, true |}.
Definition sample_envelope : Envelope :=
  {| env_schema := "mica/update-envelope/v1"; env_key_id := sample_hex; env_payload := "{}";
     env_signature := sample_hex |}.

Lemma envelope_unique_witness :
  let auth := authenticate_payload (CR := sample_crypto) (λ _, Some sample_envelope) (λ _, str_bytes "e")
    (str_bytes "e") [str_bytes "key"] 16 in
  auth = Ok (str_bytes "{}") ∧ str_bytes "e" = str_bytes "e".
Proof.
  intros auth. assert (H : auth = Ok (str_bytes "{}")) by (vm_compute; reflexivity).
  split; [exact H|].
  apply (envelope_unique (CR := sample_crypto) (λ _, Some sample_envelope) (λ _, str_bytes "e")
    (str_bytes "e") (str_bytes "e") [str_bytes "key"] 16 (str_bytes "{}") sample_envelope sample_envelope H H);
    reflexivity.
Defined.

(** The paths a deployment's objects are stored under are confined: each is
    a fixed directory, one 64-digit hex id, and a fixed name, whatever the
    document says. *)
Theorem paths_confined {CR : Crypto} {JS : Json} `{!Codec Deployment} d p :
  deployment_paths d = Ok p →
  ∃ rid kid, hex_id rid = true ∧ hex_id kid = true
    ∧ p_rootfs p = "roots/" +:+ rid +:+ "/rootfs.img"
    ∧ p_support p = "kernels/" +:+ kid +:+ "/support.img"
    ∧ (k_boot_format (d_kernel d) = "uki" ∧ p_boot p = "EFI/mica/kernels/" +:+ kid +:+ ".efi"
       ∨ k_boot_format (d_kernel d) = "fit" ∧ p_boot p = "kernels/" +:+ kid +:+ "/boot.itb").
Proof.
  intros Hp. unfold deployment_paths in Hp. apply rbind_unit in Hp as [Hv Hp]. injection Hp as <-.
  exists (r_id (d_rootfs d)), (k_id (d_kernel d)). cbn.
  unfold deployment_validate in Hv. checks Hv. split_and!; try done.
  match goal with Hf : _ || _ = true |- _ => apply orb_true_iff in Hf as [Hf|Hf];
    apply bool_decide_eq_true in Hf; rewrite Hf; [by left|by right] end.
Qed.

Definition sample_json : Json :=
  {| value := bytes; json_parse := Some; json_print := λ b, b; json_without := λ _ b, Some b;
     json_field := λ _ b, b; json_item := λ _ b, b; json_text := λ _, None |}.
Definition sample_deployment : Deployment :=
  {| d_schema := "mica/deployment/v1"; d_board := "x86-64"; d_arch := "amd64"; d_generation := 7;
     d_version := "1.2"; d_product := "mica"; d_data_policy := "unchanged";
     d_kernel := {| k_schema := "mica/kernel/v1"; k_id := sample_hex; k_board := "x86-64"; k_arch := "amd64";
                    k_build_id := sample_hex; k_release := "6.12"; k_boot_format := "uki";
                    k_boot_artifact := sample_artifact 4096; k_support := sample_image;
                    k_features := Some ["erofs"; "ubi"] |};
     d_rootfs := {| r_schema := "mica/rootfs/v1"; r_id := sample_hex; r_arch := "amd64";
                    r_content := sample_image; r_interface_level := 3;
                    r_provides := Some [("mica-podman", "6.1.4-7")] |};
     d_core_set := None |}.
Definition sample_codec {A} (a : A) : Codec (JS := sample_json) A :=
  Build_Codec sample_json A (λ _ : value (Json := sample_json), Some a) (λ _, str_bytes "{}").

Lemma paths_confined_witness :
  let paths := deployment_paths (CR := sample_crypto) (JS := sample_json)
                 (CD := sample_codec sample_deployment) sample_deployment in
  ∃ p rid, paths = Ok p ∧ hex_id rid = true ∧ p_rootfs p = "roots/" +:+ rid +:+ "/rootfs.img".
Proof.
  intros paths. eexists. assert (H : paths = Ok _) by (vm_compute; reflexivity).
  destruct (paths_confined (CR := sample_crypto) (JS := sample_json)
    (Codec0 := sample_codec sample_deployment) sample_deployment _ H) as (rid & _ & Hr & _ & E & _).
  exists rid. split; [exact H|]. split; [exact Hr|exact E].
Defined.

End Components.
