(* ===== verification/UpdateSet.v ===== *)
(** A signed set of components ([src/crates/mica-deploy/src/update_set.rs]):
    the document, its validation, its identity and its parser. *)
From Stdlib Require Import Ascii.
From S2P Require Import Prelude Text Order Boot Components.
Import Boot Components.

Module UpdateSet.

(** What a set is a set of; [core] is the one kind there is. *)
Inductive SetKind := Core.
#[export] Instance SetKind_eq : EqDecision SetKind.
Proof. solve_decision. Defined.

Definition kind_str (k : SetKind) : string := match k with Core => "core" end.
Definition kind_named (name : string) : option SetKind :=
  if bool_decide (name = "core") then Some Core else None.
Definition kind_from_str (name : string) : result SetKind :=
  with_context (kind_named name) "unsupported set kind".

Record UpdateSet := {
  us_schema : string;
  us_kind : SetKind;
  us_channel : string;
  us_arch : string;
  us_generation : Z;
  us_version : string;
  us_components : list CoreComponent;
}.

Definition MAX_SET_BYTES : Z := 32768.
Definition GENERAL : string := "general".

Section sets.
Context {CR : Crypto} {JS : Json} {CS : Codec UpdateSet}.

(** Each component in its place, its needs met inside the set. *)
Fixpoint components_validate (arch : string) (raw : value) (all : list CoreComponent)
    (index : Z) (rest : list CoreComponent) : result unit :=
  match rest with
  | [] => Ok tt
  | core :: rest' =>
      let? _ := core_validate core arch (json_item index (json_field "components" raw)) in
      let? _ := needs_met core all "a core component's need is not in the set" in
      components_validate arch raw all (index + 1) rest'
  end.

Definition set_validate (s : UpdateSet) (raw : value) : result unit :=
  let? _ := contract (bool_decide (us_schema s = "mica/set/v1")) "wrong set schema" in
  let? _ := channel (us_channel s) in
  let? _ := contract (arch_ok (us_arch s)) "unsupported architecture" in
  let? _ := integer (us_generation s) MAX_INTEGER in
  let? _ := name (us_version s) in
  let? _ := contract (negb (is_nil (us_components s))) "a set carries no component" in
  let? _ := contract (len (us_components s) <=? MAX_CORE_COMPONENTS) "too many components in a set" in
  let? _ := contract (windows_all (λ a b, str_lt (c_package a) (c_package b)) (us_components s))
              "set components not unique and sorted by package" in
  components_validate (us_arch s) raw (us_components s) 0 (us_components s).

(** Every object the set names. *)
Definition set_artifacts (s : UpdateSet) : list Artifact :=
  concat (map (λ core, [vi_image (c_content core); vi_signature (c_content core)]) (us_components s)).

(** The set's own identity: the digest of its canonical payload. *)
Definition set_id (s : UpdateSet) : string := sha256 (json_print (to_value s)).

Definition parse (payload : bytes) : result UpdateSet :=
  let? _ := contract (len payload <=? MAX_SET_BYTES) "set too large" in
  let? raw := with_context (json_parse payload) "invalid JSON" in
  let? _ := contract (bool_decide (json_print raw = payload)) "noncanonical or duplicate JSON fields" in
  let? _ := match json_text (json_field "kind" raw) with
            | Some kind => contract (bool_decide (is_Some (kind_named kind))) "unsupported set kind"
            | None => Ok tt
            end in
  let? s := with_context (from_value raw) "unknown, missing or invalid fields" in
  let? _ := set_validate s raw in
  Ok s.

Context (envelope_parse : bytes → option Envelope) (envelope_print : Envelope → bytes).

Definition authenticate (b : bytes) (keys : list key) : result UpdateSet :=
  let? payload := authenticate_payload envelope_parse envelope_print b keys MAX_SET_BYTES in
  parse payload.

End sets.

(** * Lemmas *)

(** A list whose neighbours are strictly increasing by a key has no key twice. *)
Lemma windows_sorted_NoDup {A} (f : A → string) l :
  windows_all (λ a b, str_lt (f a) (f b)) l = true → NoDup (map f l).
Proof.
  assert (Hhead : ∀ l a, windows_all (λ a b, str_lt (f a) (f b)) (a :: l) = true →
    Forall (λ x, str_lt (f a) (f x) = true) l ∧ windows_all (λ a b, str_lt (f a) (f b)) l = true).
  { induction l0 as [|b k IH]; intros a; [by split; [constructor|]|].
    change (windows_all _ (a :: b :: k)) with
      (str_lt (f a) (f b) && windows_all (λ a b, str_lt (f a) (f b)) (b :: k)).
    intros [Hab Hk]%andb_true_iff. split; [|done]. constructor; [done|].
    destruct (IH b Hk) as [Hf _]. eapply Forall_impl; [exact Hf|].
    intros x Hx. by eapply str_lt_trans. }
  induction l as [|a l IH]; [constructor|]. intros [Hf Hl]%Hhead. cbn. apply NoDup_cons.
  split; [|by apply IH]. intros (x & E & Hx)%list_elem_of_fmap.
  apply (proj1 (Forall_forall _ _) Hf) in Hx. rewrite E, str_lt_irrefl in Hx. done.
Qed.

(** ** Authenticated sets *)

Section laws.
Context {CR : Crypto} {JS : Json} {CS : Codec UpdateSet}
  (envelope_parse : bytes → option Envelope) (envelope_print : Envelope → bytes).

Lemma components_validate_ids arch raw all index rest u core :
  components_validate arch raw all index rest = Ok u → core ∈ rest → hex_id (c_id core) = true.
Proof.
  revert index. induction rest as [|c rest IH]; intros index H Hin; [by apply elem_of_nil in Hin|].
  cbn in H. apply rbind_unit in H as [Hc H]. apply rbind_unit in H as [_ H].
  apply elem_of_cons in Hin as [->|Hin]; [|by eapply IH].
  unfold core_validate in Hc. checks Hc. done.
Qed.

(** An authenticated set is valid, of the payload it was signed as. *)
Lemma authenticate_valid b keys s :
  authenticate envelope_parse envelope_print b keys = Ok s → ∃ raw, set_validate s raw = Ok tt.
Proof.
  unfold authenticate, parse. intros H. checks H. injection H as <-.
  match goal with Hv : set_validate _ ?raw = Ok tt |- _ => by exists raw end.
Qed.

Lemma authenticate_ids b keys s core :
  authenticate envelope_parse envelope_print b keys = Ok s → core ∈ us_components s → hex_id (c_id core) = true.
Proof.
  intros [raw H]%authenticate_valid Hin. unfold set_validate in H. checks H.
  by eapply components_validate_ids.
Qed.

End laws.

End UpdateSet.
