(* ===== verification/SetState.v ===== *)
(** Which set a device holds and the trial of a new one
    ([src/crates/mica-deploy/src/set_state.rs]): the two documents, the checks
    on reading and writing them, the spending of a trial's boots, and the
    loading of a held set. *)
From S2P Require Import Prelude Text Files Boot Components UpdateSet.
Import Files Boot Components UpdateSet.

Module SetState.

Definition TRIAL_ATTEMPTS : Z := 3.
Definition MAX_ENVELOPE : Z := 49152.
Definition MAX_BOUND : Z := 2.

Record SetState := {
  ss_current : option string;
  ss_pending : option string;
  ss_pair : option string;
  ss_bound : gmap string string;
}.
#[export] Instance SetState_eq : EqDecision SetState.
Proof. solve_decision. Defined.
Definition no_sets : SetState :=
  {| ss_current := None; ss_pending := None; ss_pair := None; ss_bound := ∅ |}.

(** The deployment the pending set is paired with, if it is a pair. *)
Definition paired (s : SetState) : option string :=
  match ss_pending s with Some _ => ss_pair s | None => None end.

Record SetTrial := { st_kind : SetKind; st_id : string; st_attempts_left : Z }.

(** The sets' durable state: SYSTEM's document and files, DATA's trial, and
    whether DATA's metadata can be written. *)
Record sets_world := {
  sw_state : doc SetState;
  sw_system : tree;
  sw_trial : doc SetTrial;
  sw_meta_writable : bool;
}.
Definition set_sw_state (s : SetState) (w : sets_world) : sets_world :=
  {| sw_state := Holds s; sw_system := sw_system w; sw_trial := sw_trial w;
     sw_meta_writable := sw_meta_writable w |}.
Definition set_sw_trial (t : doc SetTrial) (w : sets_world) : sets_world :=
  {| sw_state := sw_state w; sw_system := sw_system w; sw_trial := t;
     sw_meta_writable := sw_meta_writable w |}.
Definition set_sw_system (t : tree) (w : sets_world) : sets_world :=
  {| sw_state := sw_state w; sw_system := t; sw_trial := sw_trial w;
     sw_meta_writable := sw_meta_writable w |}.

(** * Where things are *)

Definition kind_dir (kind : SetKind) : string := "sets/" +:+ kind_str kind.
Definition objects_dir (kind : SetKind) : string := kind_dir kind +:+ "/objects".
Definition component_dir (kind : SetKind) (component : string) : string :=
  objects_dir kind +:+ "/" +:+ component.
Definition set_path (kind : SetKind) (the_id : string) : string :=
  kind_dir kind +:+ "/" +:+ the_id +:+ ".json".

(** * The documents *)

Definition state_ids (s : SetState) : list string :=
  option_list (ss_current s) ++ option_list (ss_pending s) ++ option_list (ss_pair s)
  ++ (map_to_list (ss_bound s)).*1 ++ (map_to_list (ss_bound s)).*2.

Definition bound_count (s : SetState) : Z := Z.of_nat (size (ss_bound s)).

Definition read_state (w : sets_world) : result SetState :=
  match sw_state w with
  | Absent => Ok no_sets
  | Unreadable => Err (Msg "invalid set state")
  | Holds s =>
      ensure bound_count s <=? MAX_BOUND else "too many bound deployments" in
      let? _ := each valid_id (state_ids s) in
      ensure bool_decide (ss_pending s = None) || negb (bool_decide (ss_pending s = ss_current s))
        else "the pending set is the current one" in
      Ok s
  end.

Definition write_state (s : SetState) : M sets_world unit :=
  ensure! bound_count s <=? MAX_BOUND else "too many bound deployments" in
  swrite (set_sw_state s).

(** A trial that is absent, unreadable or malformed is no trial. *)
Definition read_trial (w : sets_world) : option SetTrial :=
  match sw_trial w with
  | Holds t => if id_ok (st_id t) then Some t else None
  | _ => None
  end.

(** A write into DATA's metadata directory. *)
Definition write_meta (f : sets_world → sets_world) : M sets_world unit := λ w,
  if sw_meta_writable w then swrite f w else slift (λ _, Err (Msg "create")) w.

Definition start_trial (kind : SetKind) (the_id : string) : M sets_world unit :=
  write_meta (set_sw_trial
    (Holds {| st_kind := kind; st_id := the_id; st_attempts_left := TRIAL_ATTEMPTS |})).

Definition end_trial : M sets_world unit := λ w,
  match sw_trial w with
  | Absent => sret tt w
  | _ => write_meta (set_sw_trial Absent) w
  end.

(** Whether the trial is of this set, with a boot left. *)
Definition trial_of (kind : SetKind) (pending : string) (t : SetTrial) : bool :=
  bool_decide (st_kind t = kind) && bool_decide (st_id t = pending) && negb (st_attempts_left t =? 0).

Definition spend (t : SetTrial) : SetTrial :=
  {| st_kind := st_kind t; st_id := st_id t; st_attempts_left := st_attempts_left t - 1 |}.

(** Spend one boot of the trial, durably; [false] is "do not try the set". It
    never fails: a count that cannot be written is not tried. *)
Definition spend_attempt (kind : SetKind) (pending : string) : M sets_world bool := λ w,
  match read_trial w with
  | None => sret false w
  | Some t =>
      if trial_of kind pending t then
        let o := write_meta (set_sw_trial (Holds (spend t))) w in
        Outcome (Ok (is_ok (o_result o))) (o_state o) (o_crash o)
      else sret false w
  end.

Definition trial_is_over (kind : SetKind) (pending : string) (w : sets_world) : bool :=
  match read_trial w with
  | None => true
  | Some t => negb (trial_of kind pending t)
  end.

(** * A held set *)

Section sets.
Context {CR : Crypto} {JS : Json} {CS : Codec UpdateSet}
  (envelope_parse : bytes → option Envelope) (envelope_print : Envelope → bytes).

Definition load_set (kind : SetKind) (the_id : string) (keys : list key) (arch : string)
    (w : sets_world) : result (UpdateSet * bytes) :=
  let? _ := valid_id the_id in
  let? envelope := read_bounded (sw_system w) (set_path kind the_id) MAX_ENVELOPE in
  let? set := authenticate envelope_parse envelope_print envelope keys in
  ensure bool_decide (set_id set = the_id) else "set identity mismatch" in
  ensure bool_decide (us_kind set = kind) else "set is of another kind" in
  ensure bool_decide (us_arch set = arch) else "set is of another architecture" in
  Ok (set, envelope).

End sets.

(** * Lemmas *)

Definition attempts (w : sets_world) (pending : string) : Z :=
  match read_trial w with
  | Some t => if bool_decide (st_id t = pending) then st_attempts_left t else 0
  | None => 0
  end.

(** A trial's count is a [u8]. *)
Definition trial_ok (w : sets_world) : Prop :=
  ∀ t, sw_trial w = Holds t → 0 ≤ st_attempts_left t < 256.

Lemma kind_unique (k k' : SetKind) : k = k'.
Proof. by destruct k, k'. Qed.

(** What spending an attempt does: it never errs; a set to be tried has one
    boot fewer, durably, and any other answer changes nothing. *)
Lemma spend_attempt_spec kind pending w :
  trial_ok w →
  ∃ b, o_result (spend_attempt kind pending w) = Ok b
  ∧ (∀ w', durable (spend_attempt kind pending w) w' →
       trial_ok w' ∧ sw_state w' = sw_state w ∧ sw_system w' = sw_system w
       ∧ attempts w' pending ≤ attempts w pending)
  ∧ (if b then attempts (o_state (spend_attempt kind pending w)) pending = attempts w pending - 1
             ∧ 0 < attempts w pending
     else o_state (spend_attempt kind pending w) = w).
Proof.
  intros Hok. unfold spend_attempt.
  assert (Hself : trial_ok w ∧ sw_state w = sw_state w ∧ sw_system w = sw_system w
    ∧ attempts w pending ≤ attempts w pending) by done.
  destruct (read_trial w) as [t|] eqn:Ht.
  2: { exists false. split; [done|]. split; [|done]. by intros w' [->| ->]. }
  destruct (trial_of kind pending t) eqn:Hof.
  2: { exists false. split; [done|]. split; [|done]. by intros w' [->| ->]. }
  unfold write_meta. destruct (sw_meta_writable w).
  2: { exists false. split; [done|]. split; [|done]. by intros w' [->| ->]. }
  exists true. cbn. unfold trial_of in Hof. bools.
  assert (Hat : attempts w pending = st_attempts_left t).
  { unfold attempts. by rewrite Ht, bool_decide_eq_true_2. }
  assert (Hholds : sw_trial w = Holds t ∧ id_ok (st_id t) = true).
  { unfold read_trial in Ht. destruct (sw_trial w) as [| |x]; try done.
    destruct (id_ok (st_id x)) eqn:E; [|done]. injection Ht as ->. done. }
  destruct Hholds as [Hh Hid]. pose proof (Hok t Hh) as Hrange.
  set (w1 := set_sw_trial (Holds (spend t)) w).
  assert (Hat1 : attempts w1 pending = st_attempts_left t - 1).
  { unfold attempts, read_trial. cbn. rewrite Hid. cbn. by rewrite bool_decide_eq_true_2. }
  assert (Hok1 : trial_ok w1).
  { intros x. cbn. intros [= <-]. cbn. lia. }
  split; [done|]. split; [|lia].
  assert (Hstep : trial_ok w1 ∧ sw_state w1 = sw_state w ∧ sw_system w1 = sw_system w
    ∧ attempts w1 pending ≤ attempts w pending) by (split_and!; [exact Hok1|done|done|lia]).
  intros w' [->|[->| ->]]; done.
Qed.

End SetState.
