(* ===== verification/Ubi.v ===== *)
(** A UBI board ([src/crates/mica-deploy/src/ubi.rs], and the UBI half of
    [fit_env.rs]): the volumes, the objects written to static volumes, and the
    boot records kept in the [records-a] and [records-b] volumes. The device
    itself is the kernel's driver: a class of operations, with what the code
    relies on of it as laws. *)
From Stdlib Require Import Ascii.
From S2P Require Import Prelude Text FitEnv Components RecordStore.
Import FitEnv Components RecordStore.

Module Ubi.

Inductive VolumeKind := Static | Dynamic.
#[export] Instance VolumeKind_eq : EqDecision VolumeKind.
Proof. solve_decision. Defined.

Record Volume := {
  vol_id : Z;
  vol_name : string;
  vol_kind : VolumeKind;
  vol_data_bytes : Z;
  vol_reserved_lebs : Z;
  vol_corrupted : bool;
  vol_updating : bool;
}.
Definition sound (v : Volume) : bool := negb (vol_corrupted v) && negb (vol_updating v).

Definition RECORDS (s : bool) : string := if s then "records-b" else "records-a".
Definition PENDING : string := "p.".

(** The operations the store performs on a UBI device ([UbiDevice]): opening a
    volume and reading up to a length; starting an update and writing all of
    it; changing one logical erase block; creating, removing, renaming. *)
Class UbiDevice (U : Type) := {
  leb_bytes : U → Z;
  available_lebs : U → result Z;
  volumes : U → result (list Volume);
  vol_create : string → Z → VolumeKind → M U Z;
  vol_remove : Z → M U unit;
  vol_rename : list (Z * string) → M U unit;
  vol_read : Z → Z → U → result bytes;
  vol_update : Z → Z → bytes → M U unit;
  vol_leb_change : Z → Z → Z → bytes → M U unit;
}.

Section device.
Context {U : Type} {UD : UbiDevice U}.

(** The volume of a name, if there is one. *)
Definition find (u : U) (name : string) : result (option Volume) :=
  let? vs := volumes u in
  match List.filter (λ v, bool_decide (vol_name v = name)) vs with
  | [] => Ok None
  | [v] => Ok (Some v)
  | _ => Err (Msg "ambiguous UBI volume")
  end.

Definition lebs (u : U) (b : Z) : Z := div_ceil b (leb_bytes u).

(** Read all of a volume, at most [limit] bytes. *)
Definition read_whole (u : U) (v : Volume) (limit : Z) : result bytes :=
  ensure sound v else "UBI volume is not sound" in
  ensure vol_data_bytes v <=? limit else "UBI volume exceeds its bound" in
  let? b := vol_read (vol_id v) (vol_data_bytes v) u in
  ensure len b =? vol_data_bytes v else "UBI volume read short" in
  Ok b.

(** * Boot records *)

Definition record_copy (u : U) (s : bool) : option bytes :=
  ok_or_none (
    let? found := find u (RECORDS s) in
    let? v := with_context found "no volume" in
    ensure bool_decide (vol_kind v = Dynamic) && sound v else "not sound" in
    let? b := vol_read (vol_id v) ENV_SIZE u in
    ensure len b =? ENV_SIZE else "failed to fill whole buffer" in
    ensure valid_crc b else "crc" in
    Ok b).

(** [Environment::load_volumes]. *)
Definition load_volumes (u : U) : result Environment :=
  active (record_copy u false, record_copy u true).

(** [Environment::save_volumes]. *)
Definition save_volumes (env : Environment) : M U unit :=
  let other := negb (slot env) in
  let next := (flag env + 1) mod 256 in
  let! b := slift (λ _, encode (records env) next) in
  let! found := slift (λ u, find u (RECORDS other)) in
  let! v := slift (λ _, with_context found "boot record volume is absent") in
  let! _ := slift (λ u,
    ensure bool_decide (vol_kind v = Dynamic) && (1 <=? vol_reserved_lebs v) && (ENV_SIZE <=? leb_bytes u)
      else "invalid boot record volume" in Ok tt) in
  let! _ := vol_leb_change (vol_id v) 0 ENV_SIZE b in
  let! saved := slift load_volumes in
  ensure! bool_decide (slot saved = other) && (flag saved =? next)
          && bool_decide (records saved = records env)
    else "boot environment read-back mismatch" in
  sret tt.

(** * Objects *)

Context {CR : Crypto}.

Definition verify_volume (u : U) (v : Volume) (a : Artifact) : result unit :=
  ensure bool_decide (vol_kind v = Static) && sound v && (vol_data_bytes v =? a_bytes a)
    else "object length or type mismatch" in
  let? b := vol_read (vol_id v) (vol_data_bytes v) u in
  ensure len b <=? a_bytes a else "object grew during verification" in
  ensure (len b =? a_bytes a) && bool_decide (sha256 b = a_sha256 a) else "object digest mismatch" in
  Ok tt.

Definition verify_object (u : U) (name : string) (a : Artifact) : result unit :=
  let? found := find u name in
  let? v := with_context found "UBI object is absent" in
  verify_volume u v a.

(** Write an object's bytes as its signed artifact, or verify the one held. *)
Definition publish_object (source : bytes) (name : string) (a : Artifact) : M U unit := λ u0,
  (let! held := slift (λ u, find u name) in
   match held with
   | Some _ => slift (λ u, verify_object u name a)
   | None =>
       let pending := PENDING +:+ name in
       let! stale := slift (λ u, find u pending) in
       let! _ := match stale with Some v => vol_remove (vol_id v) | None => sret tt end in
       let! the_id := vol_create pending (a_bytes a) Static in
       let input := take (Z.to_nat (a_bytes a + 1)) source in
       let! _ := vol_update the_id (a_bytes a) input in
       ensure! len input =? a_bytes a else "object source length mismatch" in
       let! written := slift (λ u, find u pending) in
       let! v := slift (λ _, with_context written "pending UBI object vanished") in
       let! _ := slift (λ u, verify_volume u v a) in
       vol_rename [(the_id, name)]
   end) u0.

End device.

(** * What is relied on of the device *)

(** Changing a logical erase block of a dynamic volume is atomic, keeps the
    volume table, and changes what that volume reads as and no other; a volume
    reads the same until it is changed. *)
Class UbiLaws (U : Type) {UD : UbiDevice U} := {
  ubi_inv : U → Prop;
  leb_change_law : ∀ u vs v b,
    ubi_inv u → volumes u = Ok vs → v ∈ vs → vol_kind v = Dynamic → 1 ≤ vol_reserved_lebs v →
    len b = ENV_SIZE → ENV_SIZE ≤ leb_bytes u →
    let o := vol_leb_change (vol_id v) 0 ENV_SIZE b u in
    let changed u' := ubi_inv u' ∧ volumes u' = Ok vs ∧ leb_bytes u' = leb_bytes u
      ∧ vol_read (vol_id v) ENV_SIZE u' = Ok b
      ∧ ∀ i, i ≠ vol_id v → vol_read i ENV_SIZE u' = vol_read i ENV_SIZE u in
    o_result o = Ok tt ∧ changed (o_state o) ∧ ∀ u', o_crash o u' → u' = u ∨ changed u';
}.

Section laws.
Context {U : Type} {UD : UbiDevice U} {UL : UbiLaws U}.

(** A device whose two record volumes are in order. *)
Definition record_volume (u : U) (s : bool) (v : Volume) : Prop :=
  find u (RECORDS s) = Ok (Some v) ∧ vol_kind v = Dynamic ∧ sound v = true ∧ 1 ≤ vol_reserved_lebs v.
Definition records_in_service (u : U) : Prop :=
  ubi_inv u ∧ ENV_SIZE ≤ leb_bytes u
  ∧ (∃ a b, record_volume u false a ∧ record_volume u true b ∧ vol_id a ≠ vol_id b)
  ∧ is_ok (load_volumes u) = true.

Lemma find_volumes u u' name : volumes u' = volumes u → find u' name = find u name.
Proof. unfold find. by intros ->. Qed.

Lemma find_elem_of u name v vs : find u name = Ok (Some v) → volumes u = Ok vs → v ∈ vs.
Proof.
  unfold find. intros H Hv. rewrite Hv in H. cbn in H.
  destruct (List.filter _ vs) as [|x [|? ?]] eqn:E; try done. injection H as <-.
  assert (Hin : x ∈ List.filter (λ v, bool_decide (vol_name v = name)) vs) by (rewrite E; left).
  rewrite list_elem_of_In in *. by apply List.filter_In in Hin as [? _].
Qed.

Lemma record_copy_read u s v b :
  record_volume u s v → vol_read (vol_id v) ENV_SIZE u = Ok b → len b = ENV_SIZE → valid_crc b = true →
  record_copy u s = Some b.
Proof.
  intros (Hf & Hk & Hs & _) Hr Hl Hc. unfold record_copy. rewrite Hf. cbn [rbind with_context].
  rewrite bool_decide_eq_true_2, Hs by done. cbn [andb]. rewrite Hr. cbn [rbind].
  by rewrite Hl, Z.eqb_refl, Hc.
Qed.

(** The other copy reads as before. *)
Lemma record_copy_same u u' s v :
  volumes u' = volumes u → record_volume u s v →
  vol_read (vol_id v) ENV_SIZE u' = vol_read (vol_id v) ENV_SIZE u →
  record_copy u' s = record_copy u s.
Proof.
  intros Hv (Hf & _) Hr. unfold record_copy. rewrite (find_volumes u u') by done. rewrite Hf.
  cbn [rbind with_context]. by rewrite Hr.
Qed.

Lemma load_volumes_pair u s :
  load_volumes u = active (pair_at s (record_copy u s) (record_copy u (negb s))).
Proof. by destruct s. Qed.

Lemma record_volume_kept u u' s v : volumes u' = volumes u → record_volume u s v → record_volume u' s v.
Proof. unfold record_volume. intros Hv. by rewrite (find_volumes u u'). Qed.

Lemma records_volumes u s :
  records_in_service u → ∃ v w, record_volume u s v ∧ record_volume u (negb s) w ∧ vol_id w ≠ vol_id v.
Proof.
  intros (_ & _ & (a & b & Ha & Hb & Hne) & _). destruct s; cbn [negb].
  - exists b, a. done.
  - exists a, b. done.
Qed.

(** Saving over a loaded pair of volumes: committed, and at every power cut the
    old environment or the new one. *)
Lemma save_volumes_spec u env rs :
  records_in_service u → load_volumes u = Ok env → valid_records rs →
  let new := {| records := rs; slot := negb (slot env); flag := (flag env + 1) mod 256 |} in
  let o := save_volumes {| records := rs; slot := slot env; flag := flag env |} u in
  o_result o = Ok tt ∧ records_in_service (o_state o) ∧ load_volumes (o_state o) = Ok new
  ∧ ∀ u', o_crash o u' → records_in_service u' ∧ (load_volumes u' = Ok env ∨ load_volumes u' = Ok new).
Proof.
  intros Hin Hload Hrs new o. pose proof Hin as (Hinv & Hleb & _ & _).
  destruct (records_volumes u (negb (slot env)) Hin) as (v & w & Hv & Hw & Hne).
  rewrite negb_involutive in Hw.
  pose proof Hload as (old & Hold & Hdold & Hfold & _ & Hf)%active_inv.
  assert (Hcopy : record_copy u (slot env) = Some old) by by destruct (slot env).
  assert (Hnf : 0 ≤ (flag env + 1) mod 256 < 256) by (apply Z.mod_pos_bound; lia).
  destruct (encode_valid rs ((flag env + 1) mod 256) Hrs) as [b Hb].
  pose proof (encode_image rs _ b Hrs Hnf Hb) as (Hbl & Hbc & Hbf & Hbd).
  pose proof Hv as (Hfind & Hkind & _ & Hres).
  destruct (volumes u) as [vs|] eqn:Hvs; [|unfold find in Hfind; by rewrite Hvs in Hfind].
  pose proof (find_elem_of _ _ _ _ Hfind Hvs) as Hel.
  destruct (leb_change_law u vs v b Hinv Hvs Hel Hkind Hres Hbl Hleb) as (L1 & L2 & L3).
  set (change := vol_leb_change (vol_id v) 0 ENV_SIZE b u) in *.
  assert (Hchanged : ∀ u', (ubi_inv u' ∧ volumes u' = Ok vs ∧ leb_bytes u' = leb_bytes u
      ∧ vol_read (vol_id v) ENV_SIZE u' = Ok b
      ∧ ∀ i, i ≠ vol_id v → vol_read i ENV_SIZE u' = vol_read i ENV_SIZE u) →
    records_in_service u' ∧ load_volumes u' = Ok new).
  { intros u' (A & B & C & D & E). assert (Hsame : volumes u' = volumes u) by congruence.
    assert (Hl' : load_volumes u' = Ok new).
    { rewrite (load_volumes_pair _ (negb (slot env))), negb_involutive.
      rewrite (record_copy_read u' _ v b); [|by eapply record_volume_kept|done..].
      rewrite (record_copy_same u u' _ w), Hcopy by (done || by apply E).
      unfold new. rewrite <- Hbf. apply active_next; rewrite ?Hfold; done. }
    split; [|done]. split; [done|]. split; [lia|]. split; [|by rewrite Hl'].
    destruct Hin as (_ & _ & (x & y & Hx & Hy & Hxy) & _). exists x, y.
    split_and!; [by eapply record_volume_kept..|done]. }
  assert (Ho : o = Outcome (Ok tt) (o_state change) (o_crash o)
    ∧ ∀ u', o_crash o u' → u' = u ∨ u' = o_state change ∨ o_crash change u').
  { subst o. unfold save_volumes. cbn [records slot flag].
    rewrite (read_ok _ _ u b) by exact Hb. rewrite (read_ok _ _ u (Some v)) by exact Hfind.
    rewrite (read_ok _ _ u v) by done.
    rewrite (read_ok _ _ u tt).
    2: { by rewrite bool_decide_eq_true_2, !(proj2 (Z.leb_le _ _)) by done. }
    rewrite (step_ok _ _ u tt) by exact L1. fold change.
    rewrite (read_ok _ _ _ new) by exact (proj2 (Hchanged _ L2)).
    unfold new. cbn [records slot flag].
    rewrite !bool_decide_eq_true_2, Z.eqb_refl by done. cbn [andb sret o_result o_state o_crash].
    split; [done|]. tauto. }
  destruct Ho as [Ho Hc]. clearbody o. rewrite Ho. cbn [o_result o_state o_crash].
  destruct (Hchanged _ L2) as [F1 F2]. split; [done|]. split; [exact F1|]. split; [exact F2|].
  intros u' Hu. destruct (Hc u' Hu) as [->|[->|Hx]].
  - split; [exact Hin|by left].
  - split; [exact F1|by right].
  - destruct (L3 u' Hx) as [->|Hy]; [split; [exact Hin|by left]|].
    destruct (Hchanged u' Hy) as [G1 G2]. split; [exact G1|by right].
Qed.

Lemma save_volumes_invalid u rs s f e :
  render_records rs = Err e →
  let o := save_volumes {| records := rs; slot := s; flag := f |} u in
  o_result o = Err e ∧ o_state o = u ∧ ∀ u', o_crash o u' → u' = u.
Proof.
  intros H. unfold save_volumes. cbn [records slot flag].
  rewrite (read_err _ _ u e); [done|]. unfold encode. by rewrite H.
Qed.

(** The record volumes keep boot records as a FIT partition does. *)
#[export] Program Instance ubi_records : Records U := {|
  rs_load := load_volumes;
  rs_save := save_volumes;
  rs_inv := records_in_service;
|}.
Next Obligation.
  intros u (_ & _ & _ & H). destruct (load_volumes u) as [env|] eqn:E; [|done].
  exists env. split; [done|]. by apply active_inv in E as (b & _ & _ & _ & Hv & _).
Qed.
Next Obligation.
  intros u env rs Hin Hl Hv. unfold with_records.
  destruct (save_volumes_spec u env rs Hin Hl Hv) as (H1 & H2 & H3 & H4).
  split; [|exact H1]. split; [|split].
  - intros [] _. rewrite H3. split; [done|]. eauto.
  - rewrite H3. split; [done|]. eauto.
  - intros u' Hu. destruct (H4 u' Hu) as [Hi [Hx|Hx]]; rewrite Hx; (split; [done|]; eauto).
Qed.
Next Obligation.
  intros u env rs e _ H. exact (save_volumes_invalid u rs (slot env) (flag env) e H).
Qed.

End laws.

(** * A sample device: two record volumes, and nothing else *)

Record bench := { in_a : bytes; in_b : bytes }.
Definition bench_volume (s : bool) : Volume :=
  {| vol_id := if s then 1 else 0; vol_name := RECORDS s; vol_kind := Dynamic; vol_data_bytes := 0;
     vol_reserved_lebs := 1; vol_corrupted := false; vol_updating := false |}.
Definition bench_write (the_id : Z) (b : bytes) (u : bench) : bench :=
  if the_id =? 0 then {| in_a := b; in_b := in_b u |} else {| in_a := in_a u; in_b := b |}.
Definition bench_device : UbiDevice bench :=
  {| leb_bytes := λ _, 131072; available_lebs := λ _, Ok 0;
     volumes := λ _, Ok [bench_volume false; bench_volume true];
     vol_create := λ _ _ _, slift (λ _, Err (Msg "no space")); vol_remove := λ _, sret tt;
     vol_rename := λ _, sret tt;
     vol_read := λ i n u,
       if i =? 0 then Ok (take (Z.to_nat n) (in_a u))
       else if i =? 1 then Ok (take (Z.to_nat n) (in_b u)) else Err (Msg "no volume");
     vol_update := λ _ _ _, sret tt;
     vol_leb_change := λ i _ _ b, swrite (bench_write i b) |}.

#[export] Instance bench_laws : UbiLaws bench (UD := bench_device).
Proof.
  refine {| ubi_inv := λ _ : bench, True |}.
  intros u vs v b _ Hv Hin _ _ Hl _. injection Hv as <-.
  assert (Htake : take (Z.to_nat ENV_SIZE) b = b).
  { apply take_ge. unfold len in Hl. rewrite <- Hl. lia. }
  assert (Hw : (λ u', True ∧ volumes (UbiDevice := bench_device) u' = Ok [bench_volume false; bench_volume true]
     ∧ leb_bytes (UbiDevice := bench_device) u' = leb_bytes (UbiDevice := bench_device) u
     ∧ vol_read (UbiDevice := bench_device) (vol_id v) ENV_SIZE u' = Ok b
     ∧ ∀ i, i ≠ vol_id v → vol_read (UbiDevice := bench_device) i ENV_SIZE u' =
          vol_read (UbiDevice := bench_device) i ENV_SIZE u) (bench_write (vol_id v) b u)).
  { split; [exact I|]. split; [reflexivity|]. split; [reflexivity|]. split.
    - apply elem_of_cons in Hin as [->|Hin]; [|apply list_elem_of_singleton in Hin as ->];
        cbn -[ENV_SIZE]; by rewrite Htake.
    - intros i Hi. cbn -[ENV_SIZE]. unfold bench_write.
      apply elem_of_cons in Hin as [->|Hin]; [|apply list_elem_of_singleton in Hin as ->];
        cbn -[ENV_SIZE] in *; destruct (Z.eqb_spec i 0), (Z.eqb_spec i 1);
        first [reflexivity|congruence]. }
  cbn zeta. split; [reflexivity|]. split; [exact Hw|].
  intros u' [->| ->]; [by left|right; exact Hw].
Defined.

Definition bench_of (rs : list BootRecord) : bench :=
  match encode rs 255 with Ok b => {| in_a := b; in_b := b |} | Err _ => {| in_a := []; in_b := [] |} end.

Lemma bench_in_service rs :
  valid_records rs →
  records_in_service (UL := bench_laws) (bench_of rs)
  ∧ load_volumes (UD := bench_device) (bench_of rs) = Ok {| records := rs; slot := false; flag := 255 |}.
Proof.
  intros Hrs. unfold bench_of. destruct (encode_valid rs 255 Hrs) as [b Hb].
  pose proof (encode_image rs 255 b Hrs ltac:(lia) Hb) as (Hl & Hc & Hf & Hd). rewrite Hb.
  set (u := {| in_a := b; in_b := b |}).
  assert (Htake : take (Z.to_nat ENV_SIZE) b = b).
  { apply take_ge. unfold len in Hl. rewrite <- Hl. lia. }
  assert (Hv : ∀ s, record_volume (UD := bench_device) u s (bench_volume s)).
  { intros s. destruct s; split_and!; try reflexivity; done. }
  assert (Hr : ∀ s, record_copy (UD := bench_device) u s = Some b).
  { intros s. apply record_copy_read with (v := bench_volume s); [apply Hv| |exact Hl|exact Hc].
    destruct s; cbn -[ENV_SIZE]; by rewrite Htake. }
  assert (Hload : load_volumes (UD := bench_device) u = Ok {| records := rs; slot := false; flag := 255 |}).
  { unfold load_volumes. rewrite !Hr. cbn [active]. rewrite Hf. change (second_newer 255 255) with false.
    cbv match. rewrite Hd. cbn [rbind]. by rewrite Hf. }
  split; [|done]. split; [exact I|]. split; [unfold ENV_SIZE; cbn; lia|]. split; [|by rewrite Hload].
  exists (bench_volume false), (bench_volume true). split_and!; [apply Hv..|done].
Qed.

(** * Properties *)

(** On a UBI board, saving boot records over a loaded pair of record
    volumes succeeds and makes them the ones the redundancy rule takes, in the
    other volume with the next flag; an interruption leaves a pair that loads as
    the old environment or as the new one. *)
Theorem save_volumes_atomic {U} {UD : UbiDevice U} {UL : UbiLaws U} (u : U) env rs :
  records_in_service u → load_volumes u = Ok env → valid_records rs →
  let new := {| records := rs; slot := negb (slot env); flag := (flag env + 1) mod 256 |} in
  let o := save_volumes {| records := rs; slot := slot env; flag := flag env |} u in
  o_result o = Ok tt ∧ load_volumes (o_state o) = Ok new
  ∧ ∀ u', o_crash o u' → load_volumes u' = Ok env ∨ load_volumes u' = Ok new.
Proof.
  intros Hi Hl Hv new o. destruct (save_volumes_spec u env rs Hi Hl Hv) as (H1 & _ & H2 & H3).
  split; [exact H1|]. split; [exact H2|]. intros u' Hu. exact (proj2 (H3 u' Hu)).
Qed.

Lemma save_volumes_atomic_witness :
  let rs := sample_candidate :: sample_records in
  let o := save_volumes (UD := bench_device) {| records := rs; slot := false; flag := 255 |}
             (bench_of sample_records) in
  o_result o = Ok tt
  ∧ load_volumes (UD := bench_device) (o_state o) = Ok {| records := rs; slot := true; flag := 0 |}.
Proof.
  intros rs o. destruct (bench_in_service sample_records sample_records_valid) as [Hi Hl].
  destruct (save_volumes_atomic (UL := bench_laws) (bench_of sample_records)
    {| records := sample_records; slot := false; flag := 255 |} rs Hi Hl sample_next_valid) as (H1 & H2 & _).
  split; [exact H1|exact H2].
Defined.

End Ubi.
