(* ===== verification/CoreSet.v ===== *)
(** The core kind of set ([src/crates/mica-deploy/src/core_set.rs]): which of a
    set's components a device composes, and which set a boot composes. *)
From Stdlib Require Import Ascii.
From S2P Require Import Prelude Text Files Boot Components UpdateSet SetState Ubi.
Import Files Boot Components UpdateSet SetState Ubi.

Module CoreSet.

(** * Selection *)

Record SelectionError := { se_reason : string; se_package : string; se_constraint : string }.
Definition selection_text (e : SelectionError) : string :=
  se_reason e +:+ ": " +:+ se_package e +:+ " (" +:+ se_constraint e +:+ ")".

Definition chosen (s : UpdateSet) (features : list string) : list CoreComponent :=
  List.filter (λ core, existsb (λ f, bool_decide (f ∈ features)) (c_features core)) (us_components s).

(** [{:?}] of a list of names. *)
Definition quoted (s : string) : string := String QUOTE (s +:+ String QUOTE EmptyString).
Fixpoint comma (l : list string) : string :=
  match l with
  | [] => ""
  | [s] => quoted s
  | s :: l' => quoted s +:+ ", " +:+ comma l'
  end.
Definition debug_list (l : list string) : string := "[" +:+ comma l +:+ "]".

Definition range_text (core : CoreComponent) : string :=
  match c_root core with
  | None => ""
  | Some range =>
      match range_max range with
      | Some mx => to_dec (range_min range) +:+ ".." +:+ to_dec mx
      | None => to_dec (range_min range) +:+ ".."
      end
  end.

Definition error_text (e : error) : string :=
  match e with
  | Msg m => m
  | SharedDataFailure _ => "shared DATA metadata unavailable; recovery required"
  end.

(** The refusal of one chosen component, if any. *)
Definition check_core (all : list CoreComponent) (root : RootFacts) (core : CoreComponent) :
    option SelectionError :=
  let refused reason constraint :=
    Some {| se_reason := reason; se_package := c_package core; se_constraint := constraint |} in
  if negb (runs_on core (f_level root)) then
    refused "a selected core component does not run on this root's interface level"
      ("root " +:+ range_text core +:+ ", the root is level " +:+ to_dec (f_level root))
  else
    match List.find (λ q, negb (requirement_holds q root)) (c_requires core) with
    | Some q =>
        refused "a selected core component's root requirement does not hold"
          (describe q +:+ ", the root provides " +:+ default "" (provided root (q_package q)))
    | None =>
        match needs_met core all "a selected core component's need is not selected" with
        | Ok _ => None
        | Err e => refused (error_text e) ("needs " +:+ debug_list (map n_package (c_needs core)))
        end
    end.

Fixpoint check_cores (all : list CoreComponent) (root : RootFacts) (rest : list CoreComponent) :
    option SelectionError :=
  match rest with
  | [] => None
  | core :: rest' =>
      match check_core all root core with
      | Some e => Some e
      | None => check_cores all root rest'
      end
  end.

Definition select (s : UpdateSet) (features : list string) (root : RootFacts) :
    SelectionError + list CoreComponent :=
  let all := chosen s features in
  match check_cores all root all with
  | Some e => inl e
  | None => inr all
  end.

(** [anyhow]'s conversion of a refusal. *)
Definition selected (s : UpdateSet) (features : list string) (root : RootFacts) : result (list CoreComponent) :=
  match select s features root with
  | inr l => Ok l
  | inl e => Err (Msg (selection_text e))
  end.

(** The features of the product file. *)
Fixpoint find_features (ls : list string) (found : option (list string)) : result (option (list string)) :=
  match ls with
  | [] => Ok found
  | line :: ls' =>
      match strip_prefix "FEATURES=" line with
      | None => find_features ls' found
      | Some v =>
          let? _ := contract (bool_decide (found = None)) "product file names its features more than once" in
          let? v := with_context (strip_prefix (String QUOTE "") v ≫= strip_suffix (String QUOTE ""))
                      "invalid features in the product file" in
          let features := split_ascii_whitespace v in
          let? _ := each (λ f, contract (name_ok f) "invalid features in the product file") features in
          find_features ls' (Some features)
      end
  end.
Definition device_features (text : string) : result (list string) :=
  let? found := find_features (lines text) None in
  with_context found "product file names no features".

(** * What a boot composes *)

Record CoreBoot := { cb_core_set_id : string; cb_pending : bool; cb_paired : bool }.

Record Composition := {
  co_id : string;
  co_set : UpdateSet;
  co_envelope : bytes;
  co_pending : bool;
  co_paired : bool;
}.

Record BootRoot := { br_arch : string; br_features : list string; br_root : RootFacts }.

Section composition.
Context {CR : Crypto} {JS : Json} {CS : Codec UpdateSet} {U : Type} {UD : UbiDevice U}
  (envelope_parse : bytes → option Envelope) (envelope_print : Envelope → bytes).

(** The file is there, at its signed length. *)
Definition file_held (w : sets_world) (path : string) (a : Artifact) : result unit :=
  match sw_system w !! path with
  | None => Err (Msg "core component file")
  | Some (Regular b) => contract (len b =? a_bytes a) "core component file is not the signed length"
  | Some _ => Err (Msg "core component file is not the signed length")
  end.

Definition objects_held (ubi : option U) (w : sets_world) (core : CoreComponent) : result unit :=
  let dir := component_dir Core (c_id core) in
  let image := vi_image (c_content core) in
  let? _ := match ubi with
            | Some u =>
                let? found := find u ("c-" +:+ c_id core) in
                let? v := with_context found "core component core.img" in
                contract (bool_decide (vol_kind v = Static) && sound v && (vol_data_bytes v =? a_bytes image))
                  "core component core.img is not the signed length"
            | None => file_held w (dir +:+ "/core.img") image
            end in
  file_held w (dir +:+ "/core.roothash.p7s") (vi_signature (c_content core)).

Definition usable (ubi : option U) (keys : list key) (root : BootRoot) (the_id : string) (w : sets_world) :
    result (UpdateSet * bytes) :=
  let? loaded := load_set envelope_parse envelope_print Core the_id keys (br_arch root) w in
  let? cores := selected loaded.1 (br_features root) (br_root root) in
  let? _ := each (objects_held ubi w) cores in
  Ok loaded.

Definition composed (the_id : string) (loaded : UpdateSet * bytes) (pending paired : bool) : Composition :=
  {| co_id := the_id; co_set := loaded.1; co_envelope := loaded.2; co_pending := pending; co_paired := paired |}.

(** The last resort: the current set. *)
Definition compose_current (ubi : option U) (keys : list key) (root : BootRoot) (s : SetState) :
    M sets_world Composition :=
  let! cur := slift (λ _, with_context (ss_current s) "this device holds no core set") in
  let! loaded := slift (usable ubi keys root cur) in
  sret (composed cur loaded false false).

(** What to compose for the booting deployment; the messages reported beside. *)
Definition composition (ubi : option U) (keys : list key) (root : BootRoot) (deployment : string) :
    M sets_world (Composition * list error) :=
  let! s := slift read_state in
  let alone := λ pending,
    let! tried := (match paired s with
                   | None => spend_attempt Core pending
                   | Some _ => sret false
                   end) in
    if (tried : bool) then λ w,
      match usable ubi keys root pending w with
      | Ok loaded => sret (composed pending loaded true false, []) w
      | Err e => (let! c := compose_current ubi keys root s in sret (c, [e])) w
      end
    else let! c := compose_current ubi keys root s in sret (c, []) in
  match ss_pending s, bool_decide (paired s = Some deployment) with
  | Some pending, true =>
      let! loaded := slift (usable ubi keys root pending) in
      sret (composed pending loaded true true, [])
  | pending, _ =>
      match ss_bound s !! deployment with
      | Some bound =>
          let! loaded := slift (usable ubi keys root bound) in
          sret (composed bound loaded false false, [])
      | None =>
          match pending with
          | Some p => alone p
          | None => let! c := compose_current ubi keys root s in sret (c, [])
          end
      end
  end.

End composition.

(** * Lemmas *)

Lemma need_met_ok others missing need :
  need_met others missing need = Ok tt ↔
  ∃ other version mn, List.find (λ o, bool_decide (c_package o = n_package need)) others = Some other
    ∧ version_key (c_version other) = Ok version ∧ version_key (n_min need) = Ok mn
    ∧ key_le mn version = true
    ∧ ∀ mx, n_max need = Some mx → ∃ top, version_key mx = Ok top ∧ key_le version top = true.
Proof.
  unfold need_met. rewrite rbind_ok. setoid_rewrite with_context_ok.
  split.
  - intros (other & Hf & H). apply rbind_ok in H as (version & Hv & H).
    apply rbind_ok in H as (mn & Hm & H). apply rbind_ok in H as (b & Hb & H).
    apply contract_ok in H as ->. exists other, version, mn.
    destruct (key_le mn version) eqn:Hle; [|done]. split_and!; try done.
    intros mx Hmx. rewrite Hmx in Hb. apply rbind_ok in Hb as (top & Ht & [= Hb]). eauto.
  - intros (other & version & mn & Hf & Hv & Hm & Hle & Hmax). exists other. split; [done|].
    rewrite Hv. cbn [rbind]. rewrite Hm. cbn [rbind]. rewrite Hle.
    destruct (n_max need) as [mx|]; [|done].
    destruct (Hmax mx eq_refl) as (top & -> & Ht). cbn [rbind]. by rewrite Ht.
Qed.

(** A component suits: it runs on the root's level, each of its root
    requirements holds, and each need is met among the chosen. *)
Definition suits (all : list CoreComponent) (root : RootFacts) (core : CoreComponent) : Prop :=
  runs_on core (f_level root) = true
  ∧ Forall (λ q, requirement_holds q root = true) (c_requires core)
  ∧ Forall (λ need, ∃ other, other ∈ all ∧ c_package other = n_package need
      ∧ ∃ version mn, version_key (c_version other) = Ok version ∧ version_key (n_min need) = Ok mn
        ∧ key_le mn version = true
        ∧ ∀ mx, n_max need = Some mx → ∃ top, version_key mx = Ok top ∧ key_le version top = true)
      (c_needs core).

Lemma find_unique (all : list CoreComponent) p other :
  NoDup (map c_package all) → other ∈ all → c_package other = p →
  List.find (λ o, bool_decide (c_package o = p)) all = Some other.
Proof.
  intros Hn Hin <-. induction all as [|x all IH]; [by apply not_elem_of_nil in Hin|].
  cbn in Hn. apply NoDup_cons in Hn as [Hx Hn]. cbn. case_bool_decide as E.
  - apply elem_of_cons in Hin as [->|Hin]; [done|]. exfalso. apply Hx. rewrite E.
    by apply list_elem_of_fmap_2.
  - apply elem_of_cons in Hin as [->|Hin]; [done|]. by apply IH.
Qed.

Lemma check_core_none all root core :
  NoDup (map c_package all) → check_core all root core = None ↔ suits all root core.
Proof.
  intros Hn. unfold check_core, suits. destruct (runs_on core (f_level root)); cbn [negb]; [|by split; [|intros [? _]]].
  assert (Hreq : List.find (λ q, negb (requirement_holds q root)) (c_requires core) = None ↔
    Forall (λ q, requirement_holds q root = true) (c_requires core)).
  { induction (c_requires core) as [|q qs IH]; cbn; [by split; [constructor|]|].
    rewrite Forall_cons, <- IH. destruct (requirement_holds q root); cbn; [tauto|].
    split; [done|by intros [? _]]. }
  assert (Hneed : needs_met core all "a selected core component's need is not selected" = Ok tt ↔
    Forall (λ need, ∃ other, other ∈ all ∧ c_package other = n_package need
      ∧ ∃ version mn, version_key (c_version other) = Ok version ∧ version_key (n_min need) = Ok mn
        ∧ key_le mn version = true
        ∧ ∀ mx, n_max need = Some mx → ∃ top, version_key mx = Ok top ∧ key_le version top = true)
      (c_needs core)).
  { unfold needs_met. rewrite each_ok. apply Forall_iff. intros need. rewrite need_met_ok. split.
    - intros (other & version & mn & Hf & Hrest). apply List.find_some in Hf as [Hin Hp].
      apply bool_decide_eq_true in Hp. exists other. rewrite list_elem_of_In. eauto 10.
    - intros (other & Hin & Hp & version & mn & Hrest). exists other, version, mn.
      split; [by apply find_unique|done]. }
  destruct (List.find _ (c_requires core)) as [q|].
  { split; [done|]. intros (_ & H & _). by apply Hreq in H. }
  destruct (needs_met core all _) as [[]|e].
  - split; [|done]. intros _. split; [done|]. split; [by apply Hreq|by apply Hneed].
  - split; [done|]. intros (_ & _ & H). by apply Hneed in H.
Qed.

Lemma check_cores_none all root rest :
  NoDup (map c_package all) → check_cores all root rest = None ↔ Forall (suits all root) rest.
Proof.
  intros Hn. induction rest as [|core rest IH]; cbn; [by split; [constructor|]|].
  rewrite Forall_cons, <- IH, <- (check_core_none all root core Hn).
  destruct (check_core all root core); [by split; [|intros [? _]]|tauto].
Qed.

Lemma check_core_package all root core e : check_core all root core = Some e → se_package e = c_package core.
Proof.
  unfold check_core. destruct (negb _); [by intros [= <-]|].
  destruct (List.find _ _); [by intros [= <-]|]. destruct (needs_met _ _ _); [done|by intros [= <-]].
Qed.

Lemma check_cores_some all root rest e :
  check_cores all root rest = Some e → ∃ core, core ∈ rest ∧ check_core all root core = Some e.
Proof.
  induction rest as [|core rest IH]; cbn; [done|].
  destruct (check_core all root core) eqn:E.
  - intros [= <-]. exists core. split; [left|done].
  - intros (c & Hc & H)%IH. exists c. split; [by right|done].
Qed.

Lemma NoDup_map_filter {A B} (f : A → B) (p : A → bool) l :
  NoDup (map f l) → NoDup (map f (List.filter p l)).
Proof.
  induction l as [|x l IH]; [done|]. cbn. rewrite NoDup_cons. intros [Hx Hl].
  destruct (p x); [|by apply IH]. cbn. apply NoDup_cons. split; [|by apply IH].
  intros (y & E & Hy)%list_elem_of_fmap. apply Hx. rewrite E. apply list_elem_of_fmap_2.
  rewrite list_elem_of_In in *. by apply List.filter_In in Hy as [? _].
Qed.

Lemma chosen_spec s features core :
  core ∈ chosen s features ↔ core ∈ us_components s ∧ ∃ f, f ∈ c_features core ∧ f ∈ features.
Proof.
  unfold chosen. rewrite !list_elem_of_In, List.filter_In, existsb_exists.
  setoid_rewrite bool_decide_eq_true. by setoid_rewrite <- list_elem_of_In at 2.
Qed.

(** ** Composing *)

Section boots.
Context {CR : Crypto} {JS : Json} {CS : Codec UpdateSet} {U : Type} {UD : UbiDevice U}
  (envelope_parse : bytes → option Envelope) (envelope_print : Envelope → bytes).
#[local] Notation composition := (composition envelope_parse envelope_print).
#[local] Notation usable := (usable envelope_parse envelope_print).
#[local] Notation compose_current := (compose_current envelope_parse envelope_print).

Lemma usable_system ubi keys root the_id w w' :
  sw_system w' = sw_system w → usable ubi keys root the_id w' = usable ubi keys root the_id w.
Proof.
  intros H. unfold CoreSet.usable, load_set.
  destruct (valid_id the_id); cbn [rbind]; [|done]. rewrite H.
  destruct (read_bounded _ _ _); cbn [rbind]; [|done].
  destruct (authenticate _ _ _ _) as [x|]; cbn [rbind]; [|done].
  destruct (bool_decide _); [|done]. destruct (bool_decide _); [|done].
  destruct (bool_decide _); [|done]. cbn [rbind fst].
  destruct (selected _ _ _) as [cores|]; cbn [rbind]; [|done].
  assert (each (objects_held ubi w') cores = each (objects_held ubi w) cores) as ->; [|done].
  induction cores as [|c cs IH]; [done|]. cbn [each]. rewrite IH.
  assert (objects_held ubi w' c = objects_held ubi w c) as ->; [|done].
  unfold objects_held, file_held. by rewrite H.
Qed.

(** What a boot may leave of the sets: only the trial's count, never raised. *)
Definition only_trial (w w' : sets_world) : Prop :=
  trial_ok w' ∧ sw_state w' = sw_state w ∧ sw_system w' = sw_system w
  ∧ ∀ p, ss_pending <$> ok_or_none (read_state w) = Some (Some p) → attempts w' p ≤ attempts w p.

Lemma only_trial_refl w : trial_ok w → only_trial w w.
Proof. intros H. split; [done|]. split; [done|]. split; [done|]. intros p _. lia. Qed.

(** What a composition is, of the state [s] read and the world it ends in. *)
Definition composition_ok (ubi : option U) (keys : list key) (root : BootRoot) (deployment : string)
    (s : SetState) (w : sets_world) (c : Composition) (w' : sets_world) : Prop :=
  usable ubi keys root (co_id c) w = Ok (co_set c, co_envelope c)
  ∧ if co_pending c then
      ss_pending s = Some (co_id c)
      ∧ if co_paired c then paired s = Some deployment
        else paired s = None ∧ ss_bound s !! deployment = None
             ∧ attempts w' (co_id c) = attempts w (co_id c) - 1 ∧ 0 < attempts w (co_id c)
    else co_paired c = false ∧ paired s ≠ Some deployment
      ∧ (ss_bound s !! deployment = Some (co_id c)
         ∨ ss_bound s !! deployment = None ∧ ss_current s = Some (co_id c)).

Lemma compose_current_spec ubi keys root deployment s w0 w (Cr : sets_world → Prop) :
  sw_system w = sw_system w0 → ss_bound s !! deployment = None → paired s ≠ Some deployment → Cr w →
  safe (compose_current ubi keys root s w)
    (λ c w', composition_ok ubi keys root deployment s w0 c w') Cr.
Proof.
  intros Hsys Hb Hpair Hc. unfold CoreSet.compose_current.
  apply safe_read; [exact Hc|]. intros cur Hcur. apply with_context_ok in Hcur.
  apply safe_read; [exact Hc|]. intros loaded Hl. apply safe_ret; [exact Hc|].
  rewrite (usable_system _ _ _ _ w0 w) in Hl by done.
  split; cbn; [by destruct loaded|]. split; [done|]. split; [done|]. by right.
Qed.

Lemma composition_spec ubi keys root deployment w s :
  trial_ok w → read_state w = Ok s →
  safe (composition ubi keys root deployment w)
    (λ r w', composition_ok ubi keys root deployment s w r.1 w') (only_trial w).
Proof.
  intros Hok Hs. pose proof (only_trial_refl w Hok) as Hw.
  apply safe_read; [exact Hw|]. intros s' E. rewrite Hs in E. injection E as <-.
  assert (Hbound : ∀ pending, (ss_pending s = None ∨ paired s ≠ Some deployment) → pending = ss_pending s →
    safe ((match ss_bound s !! deployment with
      | Some bound =>
          let! loaded := slift (usable ubi keys root bound) in
          sret (composed bound loaded false false, [])
      | None =>
          match pending with
          | Some p =>
              let! tried := (match paired s with
                   | None => spend_attempt Core p
                   | Some _ => sret false
                   end) in
              if (tried : bool) then λ w,
                match usable ubi keys root p w with
                | Ok loaded => sret (composed p loaded true false, []) w
                | Err e => (let! c := compose_current ubi keys root s in sret (c, [e])) w
                end
              else let! c := compose_current ubi keys root s in sret (c, [])
          | None => let! c := compose_current ubi keys root s in sret (c, [])
          end
      end) w) (λ r w', composition_ok ubi keys root deployment s w r.1 w') (only_trial w)).
  { intros pending Hcase ->.
    assert (Hne : paired s ≠ Some deployment).
    { destruct Hcase as [H|H]; [|done]. unfold paired. by rewrite H. }
    destruct (ss_bound s !! deployment) as [bound|] eqn:Hb.
    { apply safe_read; [exact Hw|]. intros loaded Hl. apply safe_ret; [exact Hw|].
      split; cbn; [by destruct loaded|]. split; [done|]. split; [done|]. by left. }
    assert (Hcur : ∀ w1 (reports : list error), sw_system w1 = sw_system w → only_trial w w1 →
      safe ((let! c := compose_current ubi keys root s in sret (c, reports)) w1)
        (λ r w', composition_ok ubi keys root deployment s w r.1 w') (only_trial w)).
    { intros w1 reports Hsys Hot. eapply safe_bind; [by eapply compose_current_spec|].
      intros c w2 Hc2 Hot2. by apply safe_ret. }
    destruct (ss_pending s) as [p|] eqn:Hp; [|by apply Hcur].
    destruct (paired s) as [pr|] eqn:Hpr.
    { eapply safe_step with (R := λ b w', b = false ∧ w' = w) (C' := λ w', w' = w).
      - by apply safe_ret.
      - by intros w' ->.
      - intros b w' [-> ->]. by apply Hcur. }
    destruct (spend_attempt_spec Core p w Hok) as (b & Hr & Hdur & Hb').
    assert (Hsp : ∀ w', durable (spend_attempt Core p w) w' → only_trial w w').
    { intros w' Hd. destruct (Hdur w' Hd) as (A & B & C & D). split_and!; try done.
      intros q Hq. rewrite Hs in Hq. cbn in Hq. rewrite Hp in Hq. by injection Hq as <-. }
    eapply safe_step with (R := λ b0 w', b0 = b ∧ w' = o_state (spend_attempt Core p w)) (C' := only_trial w).
    - split; [intros b0 Hb0; rewrite Hr in Hb0; by injection Hb0 as <-|].
      split; [apply Hsp; by left|]. intros w' Hc. apply Hsp. by right.
    - done.
    - intros b0 w1 [-> ->]. set (w1 := o_state (spend_attempt Core p w)) in *.
      pose proof (Hsp w1 (or_introl eq_refl)) as Hw1.
      destruct b; [|by apply Hcur; [apply Hw1|]].
      destruct (usable ubi keys root p w1) as [loaded|e] eqn:Hu.
      + apply safe_ret; [exact Hw1|]. rewrite (usable_system _ _ _ _ w w1) in Hu by apply Hw1.
        destruct Hb' as [Hat Hpos].
        split; cbn; [by destruct loaded|]. rewrite Hp, Hpr. done.
      + apply Hcur; [apply Hw1|exact Hw1]. }
  destruct (ss_pending s) as [p|] eqn:Hp.
  - case_bool_decide as Hpair.
    + apply safe_read; [exact Hw|]. intros loaded Hl. apply safe_ret; [exact Hw|].
      split; cbn; [by destruct loaded|]. done.
    + exact (Hbound (Some p) (or_intror Hpair) eq_refl).
  - exact (Hbound None (or_introl eq_refl) eq_refl).
Qed.

(** * Sequences of boots *)

(** The durable history of the sets under boots alone, power cuts included:
    [boots w n w'] when [n] of them tried the set alone on trial. *)
Inductive boots (keys : list key) : sets_world → nat → sets_world → Prop :=
| boots_none w : boots keys w 0 w
| boots_other ubi root deployment w w' n w'' :
    durable (composition ubi keys root deployment w) w' → boots keys w' n w'' → boots keys w n w''
| boots_tried ubi root deployment w c reports n w'' :
    o_result (composition ubi keys root deployment w) = Ok (c, reports) →
    co_pending c = true → co_paired c = false →
    boots keys (o_state (composition ubi keys root deployment w)) n w'' → boots keys w (S n) w''.

Lemma read_state_same w w' : sw_state w' = sw_state w → read_state w' = read_state w.
Proof. unfold read_state. by intros ->. Qed.

Lemma boots_bounded keys w n w'' s p :
  boots keys w n w'' → trial_ok w → read_state w = Ok s → ss_pending s = Some p →
  Z.of_nat n ≤ Z.max 0 (attempts w p).
Proof.
  intros H. revert s p. induction H as [w|ubi root dep w w' n w'' Hd Hb IH|ubi root dep w c rep n w'' Hr Hp Hpr Hb IH];
    intros s p Hok Hs Hpend; [lia|..]; pose proof (composition_spec ubi keys root dep w s Hok Hs) as Hspec.
  - pose proof (safe_durable _ _ _ Hspec w' Hd) as (A & B & _ & D).
    specialize (IH s p A). rewrite (read_state_same w w' B) in IH.
    specialize (IH Hs Hpend). specialize (D p). rewrite Hs in D. cbn in D.
    rewrite Hpend in D. specialize (D eq_refl). lia.
  - destruct Hspec as (HQ & (A & B & _ & D) & _). specialize (HQ _ Hr). cbn in HQ.
    destruct HQ as (_ & Hcase). rewrite Hp, Hpr in Hcase. destruct Hcase as (Hsp & _ & _ & Hat & Hpos).
    assert (co_id c = p) as <- by congruence.
    specialize (IH s (co_id c) A). rewrite (read_state_same w _ B) in IH.
    specialize (IH Hs Hpend). lia.
Qed.

End boots.

(** * Samples *)

Definition sample_core (package : string) (needs : list CoreNeed) : CoreComponent :=
  {| c_schema := "mica/core/v1"; c_id := sample_hex; c_arch := "amd64"; c_package := package;
     c_version := "1.2.3"; c_features := ["base"]; c_needs := needs;
     c_root := Some {| range_min := 2; range_max := None |};
     c_requires := [{| q_package := "mica-podman"; q_min := Some "6.1"; q_max := None |}];
     c_content := sample_image |}.
Definition sample_set : UpdateSet :=
  {| us_schema := "mica/set/v1"; us_kind := Core; us_channel := "general"; us_arch := "amd64";
     us_generation := 4; us_version := "4";
     us_components := [sample_core "mica-apid" [{| n_package := "micad"; n_min := "1.2"; n_max := Some "2" |}];
                       sample_core "micad" []] |}.
Definition sample_facts : RootFacts := {| f_level := 3; f_provides := Some [("mica-podman", "6.1.4-7")] |}.
Definition other_hex : string := "1123456789abcdef0123456789abcdef0123456789abcdef0123456789abcdef".

(** A device with a set alone on trial, on a product that selects nothing. *)
Definition sample_sets : sets_world :=
  {| sw_state := Holds {| ss_current := Some other_hex; ss_pending := Some sample_hex; ss_pair := None; ss_bound := ∅ |};
     sw_system := {[set_path Core sample_hex := Regular (str_bytes "e")]};
     sw_trial := Holds {| st_kind := Core; st_id := sample_hex; st_attempts_left := 3 |};
     sw_meta_writable := true |}.
Definition sample_root : BootRoot := {| br_arch := "amd64"; br_features := []; br_root := sample_facts |}.
Definition sample_compose : M sets_world (Composition * list error) :=
  composition (CR := sample_crypto) (JS := sample_json) (CS := sample_codec sample_set) (UD := bench_device)
    (λ _, Some sample_envelope) (λ _, str_bytes "e") None [str_bytes "key"] sample_root other_hex.

Lemma sample_sets_ok : trial_ok sample_sets.
Proof. intros t [= <-]. cbn. lia. Qed.

(** * Properties *)

(** What a device composes of a validated set is exactly the components one
    of its product's features selects, and only when every one of them runs on
    the root's interface level, has every root requirement hold, and has every
    need met by another selected component at a version in range; a refusal
    names a selected component of which that is false. *)
Theorem select_exact {CR : Crypto} {JS : Json} s raw features root :
  set_validate s raw = Ok tt →
  (∀ l, select s features root = inr l ↔
     l = chosen s features ∧ Forall (suits l root) l)
  ∧ (∀ e, select s features root = inl e →
     ∃ core, core ∈ us_components s ∧ (∃ f, f ∈ c_features core ∧ f ∈ features)
       ∧ se_package e = c_package core ∧ ¬ suits (chosen s features) root core).
Proof.
  intros Hv. assert (Hn : NoDup (map c_package (chosen s features))).
  { apply NoDup_map_filter, windows_sorted_NoDup. unfold set_validate in Hv. checks Hv. done. }
  unfold select. split.
  - intros l. destruct (check_cores _ root (chosen s features)) as [e|] eqn:E.
    + split; [done|]. intros [-> H]. apply (check_cores_none _ _ _ Hn) in H. congruence.
    + apply (check_cores_none _ _ _ Hn) in E. split; [by intros [= <-]|by intros [-> _]].
  - intros e. destruct (check_cores _ root (chosen s features)) as [e'|] eqn:E; [|done].
    intros [= <-]. apply check_cores_some in E as (core & Hin & Hc).
    pose proof (proj1 (chosen_spec _ _ _) Hin) as [Hset Hf].
    exists core. split; [done|]. split; [done|]. split; [by eapply check_core_package|].
    intros Hs. apply (check_core_none _ _ _ Hn) in Hs. congruence.
Qed.

Lemma select_exact_witness :
  set_validate (CR := sample_crypto) (JS := sample_json) sample_set (str_bytes "{}" : value (Json := sample_json)) = Ok tt
  ∧ ∃ l, select sample_set ["base"] sample_facts = inr l ∧ map c_package l = ["mica-apid"; "micad"]
      ∧ Forall (suits l sample_facts) l.
Proof.
  assert (H : set_validate (CR := sample_crypto) (JS := sample_json) sample_set
    (str_bytes "{}" : value (Json := sample_json)) = Ok tt) by (vm_compute; reflexivity).
  split; [exact H|]. eexists. assert (E : select sample_set ["base"] sample_facts = inr _) by (vm_compute; reflexivity).
  split; [exact E|]. split; [reflexivity|].
  apply (select_exact (CR := sample_crypto) (JS := sample_json) sample_set _ ["base"] sample_facts H). exact E.
Defined.

(** C35: what a boot composes. A composition never changes the sets a device
    holds, and at any power cut has only spent boots of the trial. The set it
    answers with authenticates, selects on the root and has every selected
    object held at its signed length; it is the pending set when that is paired
    with the booting deployment, or when it is alone on trial, the deployment is
    not bound and one boot of the trial was durably spent; otherwise it is the
    set the deployment is bound to, or the current one. *)
Theorem composition_faithful {CR : Crypto} {JS : Json} {CS : Codec UpdateSet} {U} {UD : UbiDevice U}
    envelope_parse envelope_print ubi keys root deployment w s :
  trial_ok w → read_state w = Ok s →
  let o := composition envelope_parse envelope_print ubi keys root deployment w in
  (∀ w', durable o w' → only_trial w w')
  ∧ (∀ c reports, o_result o = Ok (c, reports) →
       composition_ok envelope_parse envelope_print ubi keys root deployment s w c (o_state o)).
Proof.
  intros Hok Hs o.
  pose proof (composition_spec envelope_parse envelope_print ubi keys root deployment w s Hok Hs) as H.
  split; [exact (safe_durable _ _ _ H)|]. intros c reports Hr. exact (proj1 H _ Hr).
Qed.

Lemma composition_faithful_witness :
  (∃ c, o_result (sample_compose sample_sets) = Ok (c, []) ∧ co_id c = sample_hex ∧ co_pending c = true)
  ∧ attempts (o_state (sample_compose sample_sets)) sample_hex = attempts sample_sets sample_hex - 1.
Proof.
  assert (H : ∃ c, o_result (sample_compose sample_sets) = Ok (c, []) ∧ co_id c = sample_hex
    ∧ co_pending c = true ∧ co_paired c = false).
  { eexists. split; [vm_compute; reflexivity|]. done. }
  destruct H as (c & Hr & Hid & Hp & Hpr). split; [by exists c|].
  destruct (composition_faithful (CR := sample_crypto) (JS := sample_json) (CS := sample_codec sample_set)
    (UD := bench_device) (λ _, Some sample_envelope) (λ _, str_bytes "e") None [str_bytes "key"] sample_root
    other_hex sample_sets {| ss_current := Some other_hex; ss_pending := Some sample_hex; ss_pair := None; ss_bound := ∅ |}
    sample_sets_ok) as [_ H]; [vm_compute; reflexivity|].
  destruct (H c [] Hr) as [_ Hc]. rewrite Hp, Hpr, Hid in Hc. apply Hc.
Defined.

(** A set alone on trial is tried a bounded number of times: however many
    boots a device makes, with whatever roots and deployments and with power
    cuts anywhere, the boots that compose the pending set alone are at most the
    attempts its trial had left. *)
Theorem trial_bounded {CR : Crypto} {JS : Json} {CS : Codec UpdateSet} {U} {UD : UbiDevice U}
    envelope_parse envelope_print keys w n w' s pending :
  boots (U := U) envelope_parse envelope_print keys w n w' →
  trial_ok w → read_state w = Ok s → ss_pending s = Some pending →
  Z.of_nat n ≤ Z.max 0 (attempts w pending).
Proof. intros H Hok Hs Hp. exact (boots_bounded _ _ _ _ _ _ _ _ H Hok Hs Hp). Qed.

Lemma trial_bounded_witness :
  boots (CR := sample_crypto) (JS := sample_json) (CS := sample_codec sample_set) (UD := bench_device)
    (λ _, Some sample_envelope) (λ _, str_bytes "e") [str_bytes "key"] sample_sets 1
    (o_state (sample_compose sample_sets))
  ∧ 1 ≤ Z.max 0 (attempts sample_sets sample_hex).
Proof.
  assert (H : boots (CR := sample_crypto) (JS := sample_json) (CS := sample_codec sample_set) (UD := bench_device)
    (λ _, Some sample_envelope) (λ _, str_bytes "e") [str_bytes "key"] sample_sets 1
    (o_state (sample_compose sample_sets))).
  { eapply (boots_tried _ _ _ None sample_root other_hex); [vm_compute; reflexivity|reflexivity|reflexivity|].
    apply boots_none. }
  split; [exact H|].
  apply (trial_bounded (CR := sample_crypto) (JS := sample_json) (CS := sample_codec sample_set)
    (UD := bench_device) (λ _, Some sample_envelope) (λ _, str_bytes "e") [str_bytes "key"] sample_sets 1
    (o_state (sample_compose sample_sets))
    {| ss_current := Some other_hex; ss_pending := Some sample_hex; ss_pair := None; ss_bound := ∅ |} sample_hex H
    sample_sets_ok); [vm_compute; reflexivity|reflexivity].
Defined.

End CoreSet.
