(* ===== verification/Objects.v ===== *)
(** The device a deployment is installed on and the objects it holds
    ([src/crates/mica-deploy/src/deployments/install.rs], its first half): the
    durable state all transactions share, where an object is held, its
    verification against the signed artifact, and its publication. *)
From Stdlib Require Import Ascii.
From S2P Require Import Prelude Text Files Boot FitEnv RecordStore Components UpdateSet SetState Ubi Deployments.
Import Files Boot RecordStore Components UpdateSet SetState Ubi.

Module Objects.

(** Where an installed object is held: a file on SYSTEM, a file on the ESP, or
    a static volume. *)
Inductive Place :=
| OnSystem (path : string)
| OnEsp (path : string)
| InVolume (name : string).

(** The durable state of a device: the store's document and boot entries, the
    sets with SYSTEM's files, the ESP's files beside the entries, and the other
    files of DATA's metadata directory. *)
Record device (R : Type) := {
  dv_store : Deployments.world (R := R);
  dv_sets : sets_world;
  dv_esp : tree;
  dv_meta : tree;
}.
Arguments dv_store {R}.
Arguments dv_sets {R}.
Arguments dv_esp {R}.
Arguments dv_meta {R}.

Section device.
Context {R : Type}.
Implicit Types d : device R.

Definition set_store (w : Deployments.world (R := R)) d : device R :=
  {| dv_store := w; dv_sets := dv_sets d; dv_esp := dv_esp d; dv_meta := dv_meta d |}.
Definition set_sets (w : sets_world) d : device R :=
  {| dv_store := dv_store d; dv_sets := w; dv_esp := dv_esp d; dv_meta := dv_meta d |}.
Definition set_esp (t : tree) d : device R :=
  {| dv_store := dv_store d; dv_sets := dv_sets d; dv_esp := t; dv_meta := dv_meta d |}.
Definition set_meta (t : tree) d : device R :=
  {| dv_store := dv_store d; dv_sets := dv_sets d; dv_esp := dv_esp d; dv_meta := t |}.
Definition dv_system d : tree := sw_system (dv_sets d).
Definition set_system (t : tree) d : device R := set_sets (set_sw_system t (dv_sets d)) d.

Definition in_store {A} (m : M (Deployments.world (R := R)) A) : M (device R) A := szoom dv_store set_store m.
Definition in_sets {A} (m : M sets_world A) : M (device R) A := szoom dv_sets set_sets m.
Definition on_system {A} (m : M tree A) : M (device R) A := szoom dv_system set_system m.
Definition on_esp {A} (m : M tree A) : M (device R) A := szoom dv_esp set_esp m.
Definition on_meta {A} (m : M tree A) : M (device R) A := szoom dv_meta set_meta m.

End device.

Section objects.
Context {CR : Crypto}.

(** [verify_file]: a regular file of the signed length and digest. *)
Definition verify_file (t : tree) (path : string) (a : Artifact) : result unit :=
  match t !! path with
  | None => Err (Msg "No such file or directory")
  | Some (Regular b) =>
      ensure len b =? a_bytes a else "object length or type mismatch" in
      ensure bool_decide (sha256 b = a_sha256 a) else "object digest mismatch" in
      Ok tt
  | Some _ => Err (Msg "object length or type mismatch")
  end.

(** [publish_object]: verify what is there, or write the source under
    [<stem>.partial], verify that and rename it. *)
Definition publish_file (objects : tree) (path : string) (a : Artifact) : M tree unit := λ t,
  match t !! path with
  | Some _ => slift (λ t, verify_file t path a) t
  | None =>
      let partial := with_extension path "partial" in
      (let! _ := directory (parent_dir path) in
       let! _ := (λ t, match t !! partial with
                       | None => sret tt t
                       | Some (Regular _) => remove_leftover partial t
                       | Some _ => slift (λ _, Err (Msg "invalid partial object")) t
                       end) in
       let! source := slift (λ _, match objects !! a_sha256 a with
                                  | Some (Regular b) => Ok b
                                  | _ => Err (Msg "No such file or directory")
                                  end) in
       let! _ := create_new partial in
       let! _ := write_all partial (take (Z.to_nat (a_bytes a + 1)) source) in
       let! _ := slift (λ t, verify_file t partial a) in
       rename partial path) t
  end.

Context {A U : Type} {UD : UbiDevice U}.
#[local] Notation device := (device (A + U)).

(** The UBI device of a [ubi] board. *)
Definition ubi (d : device) : option U :=
  match Deployments.w_boot (dv_store d) with
  | Deployments.BackendRecords (inr u) => Some u
  | _ => None
  end.

Definition set_ubi (u : U) (d : device) : device :=
  set_store (Deployments.set_boot (Deployments.BackendRecords (inr u)) (dv_store d)) d.

(** An operation on the UBI device; a board without one refuses. *)
Definition on_ubi {B} (m : M U B) : M device B := λ d,
  match ubi d with
  | Some u => szoom (λ _, u) set_ubi m d
  | None => slift (λ _, Err (Msg "UBI object on a board without UBI")) d
  end.
Definition ubi_read {B} (f : U → result B) (d : device) : result B :=
  match ubi d with
  | Some u => f u
  | None => Err (Msg "UBI object on a board without UBI")
  end.

(** Whether something is held at a place, sound or not. *)
Definition held (p : Place) (d : device) : result bool :=
  match p with
  | OnSystem path => Ok (bool_decide (is_Some (dv_system d !! path)))
  | OnEsp path => Ok (bool_decide (is_Some (dv_esp d !! path)))
  | InVolume name => ubi_read (λ u, let? v := find u name in Ok (bool_decide (is_Some v))) d
  end.

Definition verify_held (p : Place) (a : Artifact) (d : device) : result unit :=
  match p with
  | OnSystem path => verify_file (dv_system d) path a
  | OnEsp path => verify_file (dv_esp d) path a
  | InVolume name => ubi_read (λ u, verify_object u name a) d
  end.

Definition publish (objects : tree) (p : Place) (a : Artifact) : M device unit :=
  match p with
  | OnSystem path => on_system (publish_file objects path a)
  | OnEsp path => on_esp (publish_file objects path a)
  | InVolume name =>
      let! source := slift (λ _, match objects !! a_sha256 a with
                                 | Some (Regular b) => Ok b
                                 | _ => Err (Msg "No such file or directory")
                                 end) in
      on_ubi (publish_object source name a)
  end.

(** A large object's place: a file on SYSTEM, or a static volume. *)
Definition large_object (d : device) (file volume : string) : Place :=
  match ubi d with
  | Some _ => InVolume volume
  | None => OnSystem file
  end.

(** Where each object of a deployment is held once installed. *)
Definition object_paths (d : device) (x : Deployment) : list (Place * Artifact) :=
  let r := r_id (d_rootfs x) in
  let k := k_id (d_kernel x) in
  [(large_object d ("roots/" +:+ r +:+ "/rootfs.img") ("r-" +:+ r), vi_image (r_content (d_rootfs x)));
   (OnSystem ("roots/" +:+ r +:+ "/rootfs.roothash.p7s"), vi_signature (r_content (d_rootfs x)));
   (large_object d ("kernels/" +:+ k +:+ "/support.img") ("s-" +:+ k), vi_image (k_support (d_kernel x)));
   (OnSystem ("kernels/" +:+ k +:+ "/support.roothash.p7s"), vi_signature (k_support (d_kernel x)));
   (match Deployments.w_boot (dv_store d) with
    | Deployments.BackendUefi _ => OnEsp ("EFI/mica/kernels/" +:+ k +:+ ".efi")
    | Deployments.BackendRecords _ => large_object d ("kernels/" +:+ k +:+ "/boot.itb") ("k-" +:+ k)
    end, k_boot_artifact (d_kernel x))].

(** Where each object of a set is held once installed. *)
Definition set_objects (d : device) (s : UpdateSet) : list (Place * Artifact) :=
  concat (map (λ core,
    let dir := component_dir (us_kind s) (c_id core) in
    [(large_object d (dir +:+ "/core.img") ("c-" +:+ c_id core), vi_image (c_content core));
     (OnSystem (dir +:+ "/core.roothash.p7s"), vi_signature (c_content core))]) (us_components s)).

End objects.

(** * Lemmas *)

Lemma hex_slash_free name : hex_id name = true → slash_free name.
Proof. intros H. by apply hex_id_free. Qed.

Section laws.
Context {CR : Crypto}.

Definition is_artifact (a : Artifact) (n : node) : Prop :=
  ∃ b, n = Regular b ∧ len b = a_bytes a ∧ sha256 b = a_sha256 a.

Lemma verify_file_ok t path a u :
  verify_file t path a = Ok u ↔ ∃ n, t !! path = Some n ∧ is_artifact a n.
Proof.
  unfold verify_file, is_artifact. split.
  - destruct (t !! path) as [[b| |]|] eqn:E; try done.
    destruct (Z.eqb_spec (len b) (a_bytes a)); [|done]. case_bool_decide; [|done]. eauto 10.
  - intros (n & -> & b & -> & Hl & Hs). rewrite Hl, Z.eqb_refl, bool_decide_eq_true_2 by done. by destruct u.
Qed.

(** A tree during a publication: but for the partial name and directories
    created, it differs at most in the object's own name, which holds what it
    held or the whole artifact. *)
Definition publishing (path : string) (a : Artifact) (t t' : tree) : Prop :=
  ∀ q, q ≠ with_extension path "partial" →
    t' !! q = t !! q
    ∨ t !! q = None ∧ (q ∈ ancestors (parent_dir path) ∧ t' !! q = Some Directory
                       ∨ q = path ∧ ∃ n, t' !! q = Some n ∧ is_artifact a n).

Lemma publishing_refl path a t : publishing path a t t.
Proof. intros q _. by left. Qed.

Lemma publishing_partial path a t t' x :
  publishing path a t t' → publishing path a t (partial_alter (λ _, x) (with_extension path "partial") t').
Proof. intros H q Hq. rewrite lookup_partial_alter_ne by done. by apply H. Qed.

Lemma publish_file_safe objects path a t :
  path ≠ with_extension path "partial" →
  safe (publish_file objects path a t)
    (λ _ t', (∃ n, t' !! path = Some n ∧ is_artifact a n) ∧ publishing path a t t')
    (publishing path a t).
Proof.
  intros Hne. unfold publish_file. set (partial := with_extension path "partial") in *.
  destruct (t !! path) as [n|] eqn:Hp.
  { apply safe_lift; [apply publishing_refl|]. intros u Hv. apply verify_file_ok in Hv.
    split; [done|apply publishing_refl]. }
  set (dirs := ancestors (parent_dir path)).
  assert (Hdirs : ∀ t', with_dirs dirs t t' → publishing path a t t').
  { intros t' H q _. destruct (H q) as [?|(? & ? & ?)]; [by left|right; auto]. }
  eapply safe_step; [by apply (make_dirs_safe dirs _ t); [|apply with_dirs_refl]|exact Hdirs|]. intros u t0 Ht0.
  set (mid := λ t' : tree, ∃ x, t' = partial_alter (λ _, x) partial t0).
  assert (Hmid : ∀ t', mid t' → publishing path a t t').
  { intros t' [x ->]. by apply publishing_partial, Hdirs. }
  assert (Hself : mid t0) by (exists (t0 !! partial); symmetry; apply partial_alter_self).
  assert (Hnone : mid (delete partial t0)) by by exists None.
  apply safe_step with (R := λ _ t', mid t') (C' := mid); [|exact Hmid|].
  { destruct (t0 !! partial) as [[c| |]|] eqn:E;
      [|by apply safe_lift|by apply safe_lift|by apply safe_ret].
    unfold remove_leftover. rewrite E. by apply safe_write. }
  intros [] t1 Ht1. apply safe_read; [by apply Hmid|]. intros source _.
  apply safe_step with (R := λ _ t', t' = <[partial := Regular []]> t0) (C' := mid); [|exact Hmid|].
  { destruct Ht1 as [x ->]. assert (Hx : mid (partial_alter (λ _, x) partial t0)) by by exists x.
    unfold create_new.
    destruct (partial_alter (λ _, x) partial t0 !! partial); [by apply safe_lift|].
    assert (E : <[partial := Regular []]> (partial_alter (λ _, x) partial t0) = <[partial := Regular []]> t0).
    { apply map_eq. intros q. destruct (decide (q = partial)) as [->|].
      - by rewrite !lookup_insert_eq.
      - by rewrite !lookup_insert_ne, lookup_partial_alter_ne by done. }
    apply safe_write; [done| |done]. rewrite E. by exists (Some (Regular [])). }
  intros [] t2 ->. set (b := take _ source).
  apply safe_step with (R := λ _ t', t' = <[partial := Regular b]> t0) (C' := mid); [|exact Hmid|].
  { split; [|split]; cbn.
    - intros [] _. by rewrite insert_insert_eq.
    - exists (Some (Regular b)). by rewrite insert_insert_eq.
    - intros t' [->|(c & ->)].
      + exists None. by rewrite delete_insert_eq.
      + exists (Some (Regular c)). by rewrite insert_insert_eq. }
  intros [] t3 ->. assert (Hb : mid (<[partial := Regular b]> t0)) by by exists (Some (Regular b)).
  apply safe_read; [by apply Hmid|]. intros v Hv. apply verify_file_ok in Hv as (n & Hn & Ha).
  unfold rename. rewrite lookup_insert_eq in Hn |- *. injection Hn as <-.
  assert (Hp0 : t0 !! path = None).
  { destruct (Ht0 path) as [->|(Hin & _)]; [done|]. by apply parent_apart in Hin. }
  rewrite lookup_insert_ne, Hp0 by done.
  assert (Hfinal : publishing path a t (<[path:=Regular b]> (delete partial (<[partial:=Regular b]> t0)))).
  { intros q Hq. destruct (decide (q = path)) as [->|Hqp].
    - right. split; [done|]. right. rewrite lookup_insert_eq. eauto.
    - rewrite lookup_insert_ne, lookup_delete_ne, lookup_insert_ne by done. by apply Hdirs. }
  apply safe_write; [by apply Hmid|done|]. split; [|done]. rewrite lookup_insert_eq. eauto.
Qed.

End laws.

(** ** Boards without a UBI device *)

Section without_ubi.
Context {A U : Type} {HA : Records A} {HU : Records U}.
#[local] Instance both : Records (A + U) := sum_records HA HU.

Definition no_ubi (w : Deployments.world (R := A + U)) : Prop :=
  match Deployments.w_boot w with Deployments.BackendRecords (inr _) => False | _ => True end.

Lemma no_ubi_device (d : device (A + U)) : ubi d = None ↔ no_ubi (dv_store d).
Proof. unfold ubi, no_ubi. destruct (Deployments.w_boot (dv_store d)) as [|[a|u]]; done. Qed.

Lemma save_records_no_ubi env w :
  no_ubi w → safe (Deployments.save_records env w) (λ _ w', no_ubi w') no_ubi.
Proof.
  intros Hw. unfold Deployments.save_records. destruct (Deployments.w_boot w) as [dir|[a|u]] eqn:Hb.
  - split; [done|]. split; [exact Hw|]. by intros w' ->.
  - apply safe_zoom. cbn. apply safe_zoom. split; [done|]. split; [done|]. done.
  - unfold no_ubi in Hw. by rewrite Hb in Hw.
Qed.

Lemma in_directory_no_ubi f w :
  no_ubi w → safe (Deployments.in_directory f w) (λ _ w', no_ubi w') no_ubi.
Proof.
  intros Hw. unfold Deployments.in_directory. destruct (Deployments.w_boot w) as [[dir|]|r];
    [|by apply safe_lift..]. destruct (f dir); [by apply safe_write|by apply safe_lift].
Qed.

Lemma retain_no_ubi es keep w :
  no_ubi w → safe (Deployments.retain_entries es keep w) (λ _ w', no_ubi w') no_ubi.
Proof.
  intros Hw. unfold Deployments.retain_entries. destruct (Deployments.w_boot w) as [dir|r].
  - revert w Hw. induction es as [|e es IH]; intros w Hw; [by apply safe_ret|]. cbn.
    eapply safe_step with (R := λ _ w', no_ubi w') (C' := no_ubi); [|done|by intros u w' Hw'; apply IH].
    destruct (Deployments.keeps _ _); [by apply safe_ret|by apply in_directory_no_ubi].
  - apply safe_read; [exact Hw|]. intros env _.
    eapply safe_step; [by apply save_records_no_ubi|done|]. intros u w1 Hw1.
    apply safe_read; [exact Hw1|]. intros env' _. by apply save_records_no_ubi.
Qed.

End without_ubi.

(** * Properties *)

(** An object appears under its name only whole and verified: from the
    start of a publication to its end, on any error and at any power cut, the
    name holds what it held or a file of exactly the signed length and digest,
    and nothing else changes but the partial name and the missing directories
    above; a publication that reports success leaves the verified object. *)
Theorem publish_file_atomic {CR : Crypto} objects path a t :
  path ≠ with_extension path "partial" →
  let o := publish_file objects path a t in
  (∀ t', durable o t' →
     (t' !! path = t !! path
      ∨ ∃ b, t' !! path = Some (Regular b) ∧ len b = a_bytes a ∧ sha256 b = a_sha256 a)
     ∧ ∀ q, q ≠ path → q ≠ with_extension path "partial" →
         t' !! q = t !! q ∨ q ∈ ancestors (parent_dir path) ∧ t !! q = None ∧ t' !! q = Some Directory)
  ∧ (o_result o = Ok tt →
     ∃ b, o_state o !! path = Some (Regular b) ∧ len b = a_bytes a ∧ sha256 b = a_sha256 a).
Proof.
  intros Hne o. pose proof (publish_file_safe objects path a t Hne) as H. split.
  - intros t' Ht. pose proof (safe_durable _ _ _ H t' Ht) as Hp. split.
    + destruct (Hp path Hne) as [?|(_ & [[Hin _]|(_ & n & Hn & b & -> & Hl & Hs)])]; [by left| |right; by exists b].
      by apply parent_apart in Hin.
    + intros q Hq Hqp. destruct (Hp q Hqp) as [?|(? & [[? ?]|[? _]])]; [by left|by right|done].
  - intros Hr. destruct (proj1 H tt Hr) as ((n & Hn & b & -> & Hl & Hs) & _). by exists b.
Qed.

Lemma publish_file_atomic_witness :
  let a := {| a_bytes := 4; a_sha256 := sample_hex |} in
  let objects : tree := {[sample_hex := Regular (str_bytes "root")]} in
  let o := publish_file (CR := sample_crypto) objects "roots/x/rootfs.img" a ∅ in
  o_result o = Ok tt ∧ ∃ b, o_state o !! "roots/x/rootfs.img" = Some (Regular b) ∧ len b = 4.
Proof.
  intros a objects o. assert (H : o_result o = Ok tt) by (vm_compute; reflexivity).
  split; [exact H|].
  destruct (publish_file_atomic (CR := sample_crypto) objects "roots/x/rootfs.img" a ∅) as [_ Hb];
    [by apply (bool_decide_unpack _); vm_compute|].
  destruct (Hb H) as (b & Hb' & Hl & _). exists b. split; [exact Hb'|exact Hl].
Defined.

End Objects.
