(* ===== verification/SetSettle.v ===== *)
(** Settling the sets after a healthy boot
    ([src/crates/mica-deploy/src/deployments/sets.rs]): what a confirmed boot
    means for the set on trial, the current set and the sets bound to the other
    deployments, and the release of what nothing names any more. *)
From Stdlib Require Import Ascii.
From S2P Require Import Prelude Text Files Boot FitEnv RecordStore Deployments Components UpdateSet SetState Ubi CoreSet Objects.
Import Files Boot FitEnv RecordStore Components UpdateSet SetState Ubi CoreSet Objects.

Module SetSettle.

(** What confirming a boot did to the sets. *)
Inductive SetSettlement := Unchanged | Committed | Dropped.
#[export] Instance SetSettlement_eq : EqDecision SetSettlement.
Proof. solve_decision. Defined.

(** Every set the state names. *)
Definition named_sets (s : SetState) : gset string :=
  list_to_set (option_list (ss_current s) ++ option_list (ss_pending s) ++ (map_to_list (ss_bound s)).*2).

(** Each deployment but the booted one that is not bound is bound to the set it
    ran. *)
Definition bind_others (booted old : string) (kept : gset string) (bound : gmap string string) :
    gmap string string :=
  foldl (λ b deployment,
    if negb (bool_decide (deployment = booted)) && bool_decide (b !! deployment = None)
    then <[deployment := old]> b else b) bound (elements kept).

Definition make_current (booted : string) (kept : gset string) (the_id : string) (s : SetState) : SetState :=
  {| ss_current := Some the_id; ss_pending := ss_pending s; ss_pair := ss_pair s;
     ss_bound := match ss_current s with
                 | Some old => bind_others booted old kept (ss_bound s)
                 | None => ss_bound s
                 end |}.

(** The verdict on the set on trial; [over] is whether its trial is. *)
Definition verdict (booted composed : string) (kept : gset string) (over : string → bool) (s : SetState) :
    SetSettlement :=
  match ss_pending s with
  | None => Unchanged
  | Some pending =>
      if bool_decide (composed = pending) then Committed
      else match paired s with
           | Some deployment =>
               if negb (bool_decide (deployment = booted)) && bool_decide (deployment ∈ kept)
               then Unchanged else Dropped
           | None => if over pending then Dropped else Unchanged
           end
  end.

Definition drop_pending (s : SetState) : SetState :=
  {| ss_current := ss_current s; ss_pending := None; ss_pair := ss_pair s; ss_bound := ss_bound s |}.

Definition apply_verdict (booted : string) (kept : gset string) (v : SetSettlement) (s : SetState) :
    result SetState :=
  match v with
  | Committed =>
      let? pending := with_context (ss_pending s) "pending set vanished" in
      Ok (make_current booted kept pending (drop_pending s))
  | Dropped => Ok (drop_pending s)
  | Unchanged => Ok s
  end.

(** A deployment that booted the set bound to it makes that set current. *)
Definition own_set (booted : string) (kept : gset string) (s : SetState) : SetState :=
  match ss_bound s !! booted with
  | None => s
  | Some own =>
      let s' := {| ss_current := ss_current s; ss_pending := ss_pending s; ss_pair := ss_pair s;
                   ss_bound := delete booted (ss_bound s) |} in
      if bool_decide (ss_current s = Some own) then s' else make_current booted kept own s'
  end.

(** No pairing without a pending set; no binding of a deployment that is gone,
    and none to the current set. *)
Definition tidy (kept : gset string) (s : SetState) : SetState :=
  {| ss_current := ss_current s; ss_pending := ss_pending s;
     ss_pair := match ss_pending s with Some _ => ss_pair s | None => None end;
     ss_bound := filter (λ p, p.1 ∈ kept ∧ ss_current s ≠ Some p.2) (ss_bound s) |}.

Definition settle_state (booted composed : string) (kept : gset string) (over : string → bool) (s : SetState) :
    result (SetSettlement * SetState) :=
  let v := verdict booted composed kept over s in
  let? s' := apply_verdict booted kept v s in
  Ok (v, tidy kept (own_set booted kept s')).

Section settle.
Context {CR : Crypto} {JS : Json} {CS : Codec UpdateSet} {A U : Type} {HR : Records (A + U)} {UD : UbiDevice U}
  (envelope_parse : bytes → option Envelope) (envelope_print : Envelope → bytes).
#[local] Notation device := (device (A + U)).

(** The deployments a confirmation of [booted] leaves. *)
Definition retained_deployments (booted : option string) (d : device) : result (gset string) :=
  let? es := Deployments.entries (dv_store d) in
  Ok (list_to_set (map Deployments.e_id
    (List.filter (λ e, Deployments.usable e || bool_decide (Some (Deployments.e_id e) = booted)) es))).

Definition settlement (booted : string) (boot : CoreBoot) (d : device) : result (SetSettlement * SetState) :=
  let? s := read_state (dv_sets d) in
  let? kept := retained_deployments (Some booted) d in
  settle_state booted (cb_core_set_id boot) kept (λ p, trial_is_over Core p (dv_sets d)) s.

Definition sets_need_settling (booted : string) (boot : CoreBoot) (d : device) : result bool :=
  let? before := read_state (dv_sets d) in
  let? after := settlement booted boot d in
  Ok (negb (bool_decide (after.2 = before))).

(** * Releasing what no set names *)

(** The components the held sets name. *)
Definition held_components (keys : list key) (w : sets_world) : result (gset string) :=
  let? s := read_state w in
  let? sets := collect (λ the_id,
      let? envelope := read_bounded (sw_system w) (set_path Core the_id) MAX_ENVELOPE in
      authenticate envelope_parse envelope_print envelope keys) (elements (named_sets s)) in
  Ok (list_to_set (map c_id (concat (map us_components sets)))).

Fixpoint remove_children (dir : string) (children : list string) (removed : Z) : M tree Z :=
  match children with
  | [] => sret removed
  | child :: rest =>
      let path := dir +:+ "/" +:+ child in
      let! _ := slift (λ t, ensure is_file path t else "unexpected object child" in Ok tt) in
      let! _ := Files.remove_file path in
      remove_children dir rest (removed + 1)
  end.

Fixpoint release_objects (kept : gset string) (names : list string) (removed : Z) : M tree Z :=
  match names with
  | [] => sret removed
  | object :: rest =>
      let path := component_dir Core object in
      let! _ := slift (λ _, valid_id object) in
      let! _ := slift (λ t, ensure is_dir path t else "object directory is not real" in Ok tt) in
      if bool_decide (object ∈ kept) then release_objects kept rest removed
      else
        let! children := slift (λ t, Ok (read_dir path t)) in
        let! removed' := remove_children path children removed in
        let! _ := remove_dir path in
        release_objects kept rest removed'
  end.

Fixpoint release_volumes (kept : gset string) (vs : list Volume) (removed : Z) : M U Z :=
  match vs with
  | [] => sret removed
  | v :: rest =>
      match strip_prefix "c-" (vol_name v) with
      | Some the_id =>
          if id_ok the_id && negb (bool_decide (the_id ∈ kept))
          then let! _ := vol_remove (vol_id v) in release_volumes kept rest (removed + 1)
          else release_volumes kept rest removed
      | None => release_volumes kept rest removed
      end
  end.

(** Remove every component object no held set names. *)
Definition release_unreferenced (keys : list key) : M device Z :=
  let! kept := slift (λ d, held_components keys (dv_sets d)) in
  let! names := slift (λ d, Ok (read_dir (objects_dir Core) (dv_system d))) in
  let! removed := on_system (release_objects kept names 0) in
  λ d, match ubi d with
       | None => sret removed d
       | Some _ => on_ubi (let! vs := slift volumes in release_volumes kept vs removed) d
       end.

(** Remove the envelopes of sets no longer named. *)
Fixpoint forget_sets (ids : list string) : M tree unit :=
  match ids with
  | [] => sret tt
  | the_id :: rest =>
      let path := set_path Core the_id in
      let! _ := (λ t, if path_exists path t then Files.remove_file path t else sret tt t) in
      forget_sets rest
  end.

(** [settle_sets]. *)
Definition settle_sets (booted : string) (boot : CoreBoot) (keys : list key) : M device SetSettlement :=
  let! before := slift (λ d, read_state (dv_sets d)) in
  let! after := slift (settlement booted boot) in
  let '(v, s) := after in
  if bool_decide (s = before) then sret v
  else
    let! _ := in_sets (write_state s) in
    let! _ := (if bool_decide (v = Unchanged) then sret tt else in_sets end_trial) in
    let! _ := on_system (forget_sets (elements (named_sets before ∖ named_sets s))) in
    let! _ := release_unreferenced keys in
    sret v.

End settle.

(** * Lemmas: the settlement *)

(** The set a deployment boots with when nothing is on trial. *)
Definition set_for (s : SetState) (deployment : string) : option string :=
  match ss_bound s !! deployment with Some own => Some own | None => ss_current s end.

(** The set [composed] is what a boot of [booted] could compose over [s]
    ([CoreSet.composition_ok]). *)
Definition composes (s : SetState) (booted composed : string) : Prop :=
  if decide (paired s = Some booted) then ss_pending s = Some composed
  else match ss_bound s !! booted with
       | Some own => composed = own
       | None => (paired s = None ∧ ss_pending s = Some composed) ∨ ss_current s = Some composed
       end.

(** The deployment a pending set is paired with is bound to no set. *)
Definition pair_unbound (s : SetState) : Prop :=
  ∀ deployment, paired s = Some deployment → ss_bound s !! deployment = None.

Lemma bind_fold_lookup (booted old : string) (l : list string) (b : gmap string string) (dep : string) :
  foldl (λ b d, if negb (bool_decide (d = booted)) && bool_decide (b !! d = None)
                then <[d := old]> b else b) b l !! dep
  = match b !! dep with
    | Some own => Some own
    | None => if decide (dep ∈ l ∧ dep ≠ booted) then Some old else None
    end.
Proof.
  revert b. induction l as [|d l IH]; intros b; cbn [foldl].
  { destruct (b !! dep); [done|]. rewrite decide_False; [done|]. set_solver. }
  rewrite IH. case_bool_decide as H1; cbn [negb andb].
  { subst. destruct (b !! dep); [done|]. apply decide_ext. set_solver. }
  case_bool_decide as H2.
  - destruct (decide (dep = d)) as [->|Hne].
    + rewrite lookup_insert_eq, H2, decide_True; [done|set_solver].
    + rewrite lookup_insert_ne by done. destruct (b !! dep); [done|]. apply decide_ext. set_solver.
  - destruct (b !! dep) eqn:E; [done|]. apply decide_ext. split; [set_solver|].
    intros [Hin ?]. apply elem_of_cons in Hin as [->|?]; done.
Qed.

Lemma bind_others_lookup booted old kept b dep :
  bind_others booted old kept b !! dep
  = match b !! dep with
    | Some own => Some own
    | None => if decide (dep ∈ kept ∧ dep ≠ booted) then Some old else None
    end.
Proof.
  unfold bind_others. rewrite bind_fold_lookup. destruct (b !! dep); [done|].
  apply decide_ext. by rewrite elem_of_elements.
Qed.

(** Making a set current leaves every other retained deployment the set it had. *)
Lemma make_current_set_for booted kept the_id s dep old :
  ss_current s = Some old → dep ∈ kept → dep ≠ booted →
  set_for (make_current booted kept the_id s) dep = set_for s dep.
Proof.
  intros Hc Hk Hd. unfold set_for, make_current. cbn. rewrite Hc, bind_others_lookup.
  destruct (ss_bound s !! dep); [done|]. by rewrite decide_True.
Qed.

Lemma make_current_bound booted kept the_id s dep own :
  ss_bound (make_current booted kept the_id s) !! dep = Some own →
  ss_bound s !! dep = Some own ∨ (ss_current s = Some own ∧ dep ∈ kept ∧ dep ≠ booted).
Proof.
  unfold make_current. cbn. destruct (ss_current s) as [old|]; [|by left].
  rewrite bind_others_lookup. destruct (ss_bound s !! dep); [by left|].
  case_decide as H; [|done]. intros [= <-]. by right.
Qed.

Lemma tidy_set_for kept s dep : dep ∈ kept → set_for (tidy kept s) dep = set_for s dep.
Proof.
  intros Hk. unfold set_for, tidy. cbn. rewrite map_lookup_filter.
  destruct (ss_bound s !! dep) as [own|] eqn:E; cbn; [|done].
  destruct (decide (ss_current s = Some own)) as [Hc|Hc].
  - rewrite option_guard_False; [done|]. cbn. tauto.
  - by rewrite option_guard_True.
Qed.

Lemma own_set_set_for booted kept s dep cur :
  ss_current s = Some cur → dep ∈ kept → dep ≠ booted →
  set_for (own_set booted kept s) dep = set_for s dep.
Proof.
  intros Hc Hk Hd. unfold own_set. destruct (ss_bound s !! booted) as [own|]; [|done].
  case_bool_decide.
  - unfold set_for. cbn. by rewrite lookup_delete_ne.
  - erewrite make_current_set_for by done. unfold set_for. cbn. by rewrite lookup_delete_ne.
Qed.

Lemma own_set_current booted kept s :
  ss_current (own_set booted kept s) = set_for s booted.
Proof.
  unfold own_set, set_for. destruct (ss_bound s !! booted) as [own|]; [|done].
  by case_bool_decide.
Qed.

Lemma own_set_booted booted kept s : ss_bound (own_set booted kept s) !! booted = None.
Proof.
  unfold own_set. destruct (ss_bound s !! booted) as [own|] eqn:E; [|done].
  case_bool_decide; cbn; [by rewrite lookup_delete_eq|].
  destruct (ss_current s); [|by rewrite lookup_delete_eq].
  rewrite bind_others_lookup, lookup_delete_eq, decide_False; [done|tauto].
Qed.

Lemma own_set_pending booted kept s : ss_pending (own_set booted kept s) = ss_pending s
  ∧ ss_pair (own_set booted kept s) = ss_pair s.
Proof. unfold own_set. destruct (ss_bound s !! booted); [|done]. by case_bool_decide. Qed.

(** What [settle_state] answers, of a boot that composed [id]. *)
Definition settled (booted id : string) (kept : gset string) (over : string → bool) (s : SetState)
    (v : SetSettlement) (s' : SetState) : Prop :=
  (v = Committed ↔ ss_pending s = Some id)
  ∧ ss_current s' = Some id
  ∧ (∀ dep, dep ∈ kept → dep ≠ booted → set_for s' dep = set_for s dep)
  ∧ (∀ dep own, ss_bound s' !! dep = Some own →
       dep ∈ kept ∧ dep ≠ booted ∧ own ≠ id ∧ (ss_bound s !! dep = Some own ∨ ss_current s = Some own))
  ∧ match ss_pending s' with
    | Some p => ss_pending s = Some p ∧ p ≠ id ∧ ss_pair s' = ss_pair s
        ∧ match paired s with
          | Some dep => dep ∈ kept ∧ dep ≠ booted
          | None => over p = false
          end
    | None => ss_pair s' = None
    end.

Lemma verdict_committed booted id kept over s :
  verdict booted id kept over s = Committed ↔ ss_pending s = Some id.
Proof.
  unfold verdict. destruct (ss_pending s) as [p|]; [|done]. case_bool_decide as H; [naive_solver|].
  split; [|congruence]. destruct (paired s); [by case_match|]. by destruct (over p).
Qed.

Lemma verdict_unchanged booted id kept over s p :
  verdict booted id kept over s = Unchanged → ss_pending s = Some p →
  p ≠ id ∧ match paired s with Some dep => dep ∈ kept ∧ dep ≠ booted | None => over p = false end.
Proof.
  unfold verdict. intros H Hp. rewrite Hp in H. case_bool_decide as Hid; [done|]. split; [congruence|].
  destruct (paired s); [|by destruct (over p)].
  destruct (negb _ && _) eqn:E; [|done]. by bools.
Qed.

(** The state the verdict leaves: the pending set current, or nothing but the
    pending set dropped. *)
Lemma apply_verdict_ok booted id kept over s :
  let v := verdict booted id kept over s in
  ∃ s1, apply_verdict booted kept v s = Ok s1
  ∧ ((v = Committed ∧ ss_pending s = Some id ∧ s1 = make_current booted kept id (drop_pending s))
     ∨ (v = Dropped ∧ s1 = drop_pending s) ∨ (v = Unchanged ∧ s1 = s)).
Proof.
  intros v. destruct v eqn:E; cbn; [eauto 10| |eauto 10].
  pose proof E as Hp. apply verdict_committed in Hp. rewrite Hp. cbn. eauto 10.
Qed.

Lemma settle_state_spec booted id kept over s cur :
  composes s booted id → ss_current s = Some cur → pair_unbound s →
  ∃ v s', settle_state booted id kept over s = Ok (v, s') ∧ settled booted id kept over s v s'.
Proof.
  intros Hc Hcur Hpu. unfold settle_state.
  destruct (apply_verdict_ok booted id kept over s) as (s1 & E & Hs1). cbn zeta in *.
  set (v := verdict booted id kept over s) in *. rewrite E. cbn [rbind].
  eexists _, _. split; [reflexivity|].
  assert (Hown : ss_bound s !! booted = None ∨ ss_bound s !! booted = Some id).
  { unfold composes in Hc. case_decide as Hp; [left; by apply Hpu|].
    destruct (ss_bound s !! booted); [right; by subst|by left]. }
  assert (Hfor : set_for s1 booted = Some id).
  { unfold set_for. destruct Hs1 as [(_ & _ & ->)|Hs1].
    - cbn. rewrite Hcur, bind_others_lookup.
      destruct Hown as [->| ->]; [|done]. rewrite decide_False; [done|tauto].
    - assert (ss_bound s1 = ss_bound s ∧ ss_current s1 = ss_current s ∧ ss_pending s ≠ Some id) as (-> & -> & Hn).
      { split_and!; [by destruct Hs1 as [[_ ->]|[_ ->]]..|].
        intros H. apply (verdict_committed booted id kept over) in H. fold v in H.
        destruct Hs1 as [[? _]|[? _]]; congruence. }
      unfold composes in Hc. case_decide; [done|]. destruct (ss_bound s !! booted); [congruence|].
      destruct Hc as [[_ ?]|?]; [done|done]. }
  assert (Hc1 : ∃ c1, ss_current s1 = Some c1).
  { destruct Hs1 as [(_ & _ & ->)|[[_ ->]|[_ ->]]]; cbn; eauto. }
  destruct Hc1 as [c1 Hc1].
  assert (Hothers : ∀ dep, dep ∈ kept → dep ≠ booted → set_for s1 dep = set_for s dep).
  { intros dep Hk Hd. destruct Hs1 as [(_ & _ & ->)|[[_ ->]|[_ ->]]]; [|done..].
    by rewrite (make_current_set_for _ _ _ _ _ cur). }
  assert (Hvals : ∀ dep own, ss_bound (own_set booted kept s1) !! dep = Some own → own ≠ id →
    ss_bound s !! dep = Some own ∨ ss_current s = Some own).
  { intros dep own Hb Hne. assert (Hb1 : ss_bound s1 !! dep = Some own ∨ ss_current s1 = Some own).
    { unfold own_set in Hb. destruct (ss_bound s1 !! booted); [|by left]. case_bool_decide.
      - cbn in Hb. apply lookup_delete_Some in Hb as [_ ?]. by left.
      - apply make_current_bound in Hb as [Hb|(Hb & _)]; [|by right].
        cbn in Hb. apply lookup_delete_Some in Hb as [_ ?]. by left. }
    destruct Hs1 as [(_ & _ & ->)|[[_ ->]|[_ ->]]]; [|done..].
    destruct Hb1 as [Hb1|Hb1]; [|cbn in Hb1; congruence].
    apply make_current_bound in Hb1 as [?|(? & _)]; [by left|by right]. }
  destruct (own_set_pending booted kept s1) as [Hp Hpr].
  split; [apply verdict_committed|]. split; [unfold tidy; cbn; by rewrite own_set_current|]. split.
  { intros dep Hk Hd. rewrite tidy_set_for by done.
    by rewrite (own_set_set_for _ _ _ _ c1), Hothers. }
  split.
  { intros dep own Hb. unfold tidy in Hb. cbn in Hb.
    apply map_lookup_filter_Some in Hb as (Hb & Hk & Hne). cbn in Hk, Hne.
    rewrite own_set_current, Hfor in Hne. split; [done|]. split.
    - intros ->. rewrite own_set_booted in Hb. done.
    - split; [congruence|]. apply (Hvals dep); [done|congruence]. }
  unfold tidy. cbn. rewrite Hp, Hpr.
  destruct Hs1 as [(_ & _ & ->)|[[_ ->]|[Hv ->]]]; [done|done|].
  destruct (ss_pending s) as [p|] eqn:Hpe; [|done].
  pose proof (verdict_unchanged _ _ _ _ _ _ Hv Hpe) as [? ?]. done.
Qed.

(** A settled state is settled: settling it again changes nothing. *)
Lemma settled_again booted id kept over s v s' :
  settled booted id kept over s v s' → settle_state booted id kept over s' = Ok (Unchanged, s').
Proof.
  intros (_ & Hcur & _ & Hb & Hp). unfold settle_state.
  assert (Hbooted : ss_bound s' !! booted = None).
  { destruct (ss_bound s' !! booted) eqn:E; [|done]. by destruct (Hb _ _ E) as (_ & ? & _). }
  assert (Hv : verdict booted id kept over s' = Unchanged).
  { unfold verdict, paired in *. destruct (ss_pending s') as [p|]; [|done].
    destruct Hp as (E & Hne & Hpr & H). rewrite Hpr, E in *. rewrite bool_decide_eq_false_2 by congruence.
    destruct (ss_pair s); [|by rewrite H]. destruct H. by rewrite bool_decide_eq_false_2, bool_decide_eq_true_2. }
  rewrite Hv. cbn. unfold own_set. rewrite Hbooted. f_equal. f_equal. unfold tidy.
  destruct s' as [c p pr b]. cbn in *. subst c. f_equal; [by destruct p|].
  apply map_filter_id. intros dep own E. destruct (Hb _ _ E) as (? & _ & ? & _). cbn. split; [done|congruence].
Qed.

(** ** The documents *)

Lemma elem_of_state_ids x s :
  x ∈ state_ids s ↔ ss_current s = Some x ∨ ss_pending s = Some x ∨ ss_pair s = Some x
    ∨ (∃ own, ss_bound s !! x = Some own) ∨ (∃ dep, ss_bound s !! dep = Some x).
Proof.
  unfold state_ids. rewrite !elem_of_app, !elem_of_option_list, !list_elem_of_fmap.
  assert (H1 : (∃ y : string * string, x = y.1 ∧ y ∈ map_to_list (ss_bound s)) ↔ ∃ own, ss_bound s !! x = Some own).
  { split.
    - intros ([d o] & -> & H). apply elem_of_map_to_list in H. by exists o.
    - intros [o H]. exists (x, o). by rewrite elem_of_map_to_list. }
  assert (H2 : (∃ y : string * string, x = y.2 ∧ y ∈ map_to_list (ss_bound s)) ↔ ∃ dep, ss_bound s !! dep = Some x).
  { split.
    - intros ([d o] & -> & H). apply elem_of_map_to_list in H. by exists d.
    - intros [d H]. exists (d, x). by rewrite elem_of_map_to_list. }
  rewrite H1, H2. tauto.
Qed.

(** A document the store reads back. *)
Definition state_valid (s : SetState) : Prop :=
  bound_count s ≤ MAX_BOUND ∧ (∀ x, x ∈ state_ids s → valid_id x = Ok tt)
  ∧ (ss_pending s = None ∨ ss_pending s ≠ ss_current s).

Lemma sets_read_holds w s : sw_state w = Holds s → read_state w = Ok s ↔ state_valid s.
Proof.
  intros Hs. unfold read_state, state_valid. rewrite Hs.
  assert (He : each valid_id (state_ids s) = Ok tt ↔ ∀ x, x ∈ state_ids s → valid_id x = Ok tt).
  { by rewrite each_ok, Forall_forall. }
  split.
  - intros H. destruct (bound_count s <=? MAX_BOUND) eqn:E; [|done].
    destruct (each valid_id (state_ids s)) as [[]|]; cbn in H; [|done].
    destruct (_ || _) eqn:E'; [|done]. bools. split; [done|]. split; [by apply He|].
    apply orb_true_iff in E' as [E'|E']; bools; auto.
  - intros (H1 & H2 & H3). rewrite (proj2 (Z.leb_le _ _)) by done. rewrite (proj2 He) by done. cbn.
    replace (_ || _) with true; [done|]. symmetry. apply orb_true_iff.
    destruct H3; [left; by apply bool_decide_eq_true_2|right; by rewrite bool_decide_eq_false_2].
Qed.

Lemma sets_read_valid w s : read_state w = Ok s → state_valid s.
Proof.
  intros H. destruct (sw_state w) as [| |s0] eqn:E.
  - unfold read_state in H. rewrite E in H. injection H as <-. split; [|split; [|by left]].
    { unfold bound_count, MAX_BOUND. cbn. by rewrite map_size_empty. }
    intros x Hx. apply elem_of_state_ids in Hx as [?|[?|[?|[[? Hx]|[? Hx]]]]]; cbn in *; try done;
      by rewrite lookup_empty in Hx.
  - unfold read_state in H. by rewrite E in H.
  - assert (s = s0) as ->.
    { unfold read_state in H. rewrite E in H. destruct (_ <=? _); [|done].
      destruct (each _ _); cbn in H; [|done]. destruct (_ || _); [|done]. by injection H. }
    by apply (sets_read_holds w s0).
Qed.

(** The settled state is one the store writes and reads back. *)
Lemma settled_valid booted id kept over s v s' cur :
  settled booted id kept over s v s' → state_valid s → composes s booted id → ss_current s = Some cur →
  (∀ x, x ∈ kept → valid_id x = Ok tt) → Z.of_nat (size kept) ≤ MAX_BOUND → state_valid s'.
Proof.
  intros (_ & Hc & _ & Hb & Hp) (_ & Hv & _) Hcomp Hcur Hk Hsize.
  assert (Hid : id ∈ state_ids s).
  { apply elem_of_state_ids. unfold composes in Hcomp. case_decide; [auto|].
    destruct (ss_bound s !! booted) as [own|] eqn:E; [subst; eauto 10|].
    destruct Hcomp as [[_ ?]|?]; auto. }
  split; [|split].
  - unfold bound_count. rewrite <- size_dom. etransitivity; [|exact Hsize].
    apply inj_le. apply subseteq_size. intros dep [own E]%elem_of_dom. by apply Hb in E as (? & _).
  - intros x [E|[E|[E|[[own E]|[dep E]]]]]%elem_of_state_ids.
    + rewrite Hc in E. injection E as <-. by apply Hv.
    + rewrite E in Hp. apply Hv, elem_of_state_ids. naive_solver.
    + destruct (ss_pending s'); [|congruence]. destruct Hp as (_ & _ & Hpr & _). rewrite Hpr in E.
      apply Hv, elem_of_state_ids. auto.
    + apply Hk. by apply Hb in E as (? & _).
    + apply Hb in E as (_ & _ & _ & [E|E]); apply Hv, elem_of_state_ids; eauto 10.
  - destruct (ss_pending s'); [|by left]. right. rewrite Hc. destruct Hp as (_ & ? & _). congruence.
Qed.

Section device.
Context {A U : Type} {HR : Records (A + U)} {UD : UbiDevice U}.
#[local] Notation device := (device (A + U)).

Lemma retained_deployments_spec booted (d : device) :
  Deployments.in_service (dv_store d) →
  ∃ es kept, Deployments.entries (dv_store d) = Ok es ∧ retained_deployments (Some booted) d = Ok kept
  ∧ (∀ dep, dep ∈ kept ↔ ∃ e, e ∈ es ∧ Deployments.e_id e = dep ∧ (Deployments.usable e = true ∨ dep = booted))
  ∧ (∀ dep, dep ∈ kept → valid_id dep = Ok tt) ∧ Z.of_nat (size kept) ≤ MAX_BOUND.
Proof.
  intros Hs. destruct (Deployments.entries_service _ Hs) as [es He].
  unfold retained_deployments. rewrite He. cbn [rbind]. eexists es, _. split; [done|]. split; [reflexivity|].
  set (f := λ e, _ || _).
  assert (Hin : ∀ dep, dep ∈ (list_to_set (map Deployments.e_id (List.filter f es)) : gset string) ↔
    ∃ e, e ∈ es ∧ Deployments.e_id e = dep ∧ (Deployments.usable e = true ∨ dep = booted)).
  { intros dep. rewrite elem_of_list_to_set, list_elem_of_fmap. setoid_rewrite Deployments.elem_of_filter.
    unfold f. split.
    - intros (e & -> & Hf & Hin). exists e. split; [done|]. split; [done|].
      apply orb_true_iff in Hf as [?|Hf]; [by left|right]. bools. congruence.
    - intros (e & Hin & <- & Hf). exists e. split; [done|]. split; [|done]. apply orb_true_iff.
      destruct Hf as [?| ->]; [by left|right]. by apply bool_decide_eq_true_2. }
  split; [exact Hin|]. split.
  - intros dep (e & Hi & <- & _)%Hin. by eapply Deployments.entries_valid.
  - pose proof (Deployments.entries_count _ _ Hs He) as Hl. unfold len, MAX_BOUND in *.
    etransitivity; [|exact Hl]. apply inj_le.
    rewrite size_list_to_set by (apply Deployments.NoDup_filter_map; by apply (Deployments.entries_ids (dv_store d))).
    rewrite length_map. apply List.filter_length_le.
Qed.

End device.

(** * Lemmas: the release *)

(** The component a path under the objects directory belongs to. *)
Definition object_of (path : string) : option string := first_name <$> below (objects_dir Core) path.

Lemma object_of_dir name : slash_free name → object_of (component_dir Core name) = Some name.
Proof. intros H. unfold object_of, component_dir. rewrite below_app. cbn. by rewrite first_name_alone. Qed.

Lemma object_of_child name rest :
  slash_free name → object_of (component_dir Core name +:+ "/" +:+ rest) = Some name.
Proof.
  intros H. unfold object_of, component_dir. rewrite !append_assoc, below_app. cbn.
  by rewrite first_name_child.
Qed.

(** A path of a component is its directory or below it. *)
Lemma object_of_inv path name :
  object_of path = Some name → path = component_dir Core name ∨ ∃ rest, below (component_dir Core name) path = Some rest.
Proof.
  unfold object_of, component_dir. destruct (below _ path) as [r|] eqn:E; cbn; [|done].
  apply below_some in E. unfold first_name. destruct (split_once "/" r) as [[n rest]|] eqn:Es; intros [= <-].
  - right. exists rest. apply split_once_spec in Es as [-> _]. apply below_some. by rewrite E, !append_assoc.
  - by left.
Qed.

Lemma object_of_set_path the_id : hex_id the_id = true → object_of (set_path Core the_id) = None.
Proof.
  intros H. unfold object_of. destruct (below _ _) as [r|] eqn:E; [|done]. exfalso.
  apply below_some in E. unfold set_path, objects_dir, kind_dir in E.
  assert (Hh : ∀ c s, the_id = String c s → is_hex_lower c = true).
  { intros c s ->. apply andb_true_iff in H as [_ H]. cbn in H. by bools. }
  cbn in E. repeat (injection E as E). destruct the_id as [|c s]; [done|]. cbn in E.
  injection E as -> _. by specialize (Hh _ _ eq_refl).
Qed.

Lemma set_path_inj a b : set_path Core a = set_path Core b → a = b.
Proof.
  intros E. assert (H : ∀ x, strip_prefix "sets/core/" (set_path Core x) = Some (x +:+ ".json")).
  { intros x. apply strip_prefix_spec. reflexivity. }
  pose proof (H a) as Ha. rewrite E, H in Ha. injection Ha as Ha.
  pose proof (strip_suffix_app ".json" a) as Hs. rewrite <- Ha, strip_suffix_app in Hs. by injection Hs.
Qed.

Lemma read_dir_object t p n : is_Some (t !! p) → object_of p = Some n → n ∈ read_dir (objects_dir Core) t.
Proof.
  unfold object_of, read_dir. intros Hp Ho. destruct (below _ p) as [rest|] eqn:E; [|done]. injection Ho as <-.
  apply elem_of_remove_dups, list_elem_of_fmap. exists rest. split; [done|]. apply elem_of_paths_below. eauto.
Qed.

(** What a release of components leaves: it only removes paths of components
    outside [kept]. *)
Definition released (kept : gset string) (t t' : tree) : Prop :=
  ∀ p, t' !! p = t !! p ∨ t' !! p = None ∧ ∃ n, object_of p = Some n ∧ n ∉ kept.

Lemma released_refl kept t : released kept t t.
Proof. intros p. by left. Qed.
Lemma released_trans kept t1 t2 t3 : released kept t1 t2 → released kept t2 t3 → released kept t1 t3.
Proof. intros H1 H2 p. destruct (H2 p) as [->|?]; [apply H1|by right]. Qed.
Lemma released_delete kept t p n : object_of p = Some n → n ∉ kept → released kept t (delete p t).
Proof.
  intros Ho Hn q. destruct (decide (q = p)) as [->|Hne].
  - right. split; [apply lookup_delete_eq|eauto].
  - left. by apply lookup_delete_ne.
Qed.

Lemma remove_children_safe kept n children removed t :
  slash_free n → n ∉ kept →
  safe (remove_children (component_dir Core n) children removed t) (λ _ t', released kept t t') (released kept t).
Proof.
  intros Hf Hn. revert removed t. induction children as [|c rest IH]; intros removed t.
  { apply safe_ret; apply released_refl. }
  apply safe_read; [apply released_refl|]. intros _ _.
  set (path := component_dir Core n +:+ "/" +:+ c).
  assert (Hd : released kept t (delete path t)) by (eapply released_delete; [by apply object_of_child|done]).
  eapply safe_step; [apply remove_file_safe|intros t' [->| ->]; [apply released_refl|exact Hd]|].
  intros _ t' ->. eapply safe_mono; [apply IH|..]; intros; by eapply released_trans.
Qed.

Definition cleared (kept : gset string) (names : list string) (t : tree) : Prop :=
  ∀ p n, n ∈ names → object_of p = Some n → n ∉ kept → t !! p = None.

Lemma cleared_released kept names t t' : cleared kept names t → released kept t t' → cleared kept names t'.
Proof.
  intros Hc Hr p n H1 H2 H3. destruct (Hr p) as [->|[? _]]; [by eapply Hc|done].
Qed.

Lemma release_objects_safe kept names removed t :
  safe (release_objects kept names removed t)
    (λ _ t', released kept t t' ∧ cleared kept names t') (released kept t).
Proof.
  revert removed t. induction names as [|n rest IH]; intros removed t.
  { apply safe_ret; [apply released_refl|]. split; [apply released_refl|]. intros p n Hn. by apply elem_of_nil in Hn. }
  pose proof (released_refl kept t) as Hself.
  apply safe_read; [exact Hself|]. intros [] Hid. apply valid_id_hex, hex_slash_free in Hid.
  apply safe_read; [exact Hself|]. intros _ _. case_bool_decide as Hk.
  { eapply safe_mono; [apply IH| |done]. intros _ t' [Hr Hc]. split; [done|].
    intros p m Hm. apply elem_of_cons in Hm as [->|Hm]; [done|by apply Hc]. }
  apply safe_read; [exact Hself|]. intros children _.
  eapply safe_step; [by apply remove_children_safe|done|]. intros removed' t1 H1.
  eapply safe_step with (R := λ _ t', released kept t t' ∧ cleared kept [n] t') (C' := released kept t);
    [|done|].
  - unfold remove_dir. destruct (is_nil _) eqn:Hnil; [|by apply safe_lift].
    assert (H2 : released kept t (delete (component_dir Core n) t1)).
    { eapply released_trans; [exact H1|]. eapply released_delete; [by apply object_of_dir|done]. }
    apply safe_write; [done..|]. split; [done|]. intros p m Hm Ho _.
    apply list_elem_of_singleton in Hm as ->. destruct (object_of_inv _ _ Ho) as [->|[r Hr]].
    + apply lookup_delete_eq.
    + apply lookup_delete_None. right. by eapply nothing_below.
  - intros [] t2 [H2 Hc2]. eapply safe_mono; [apply IH|..].
    + intros _ t' [Hr Hc]. split; [by eapply released_trans|]. intros p m Hm.
      apply elem_of_cons in Hm as [->|Hm]; [|by apply Hc].
      eapply (cleared_released _ [n]); [exact Hc2|exact Hr|by apply list_elem_of_singleton].
    + intros t' Hr. by eapply released_trans.
Qed.

(** What forgetting sets leaves: it only removes their envelopes. *)
Definition forgotten (gone : list string) (t t' : tree) : Prop :=
  ∀ p, t' !! p = t !! p ∨ t' !! p = None ∧ ∃ the_id, the_id ∈ gone ∧ p = set_path Core the_id.

Lemma forget_sets_safe gone ids t0 t :
  ids ⊆ gone → forgotten gone t0 t →
  safe (forget_sets ids t)
    (λ _ t', forgotten gone t0 t' ∧ (∀ p, t !! p = None → t' !! p = None)
       ∧ ∀ i, i ∈ ids → t' !! set_path Core i = None)
    (forgotten gone t0).
Proof.
  revert t. induction ids as [|i rest IH]; intros t Hsub Ht.
  { apply safe_ret; [done|]. split; [done|]. split; [done|]. intros i Hi. by apply elem_of_nil in Hi. }
  assert (Hd : forgotten gone t0 (delete (set_path Core i) t)).
  { intros p. destruct (decide (p = set_path Core i)) as [->|Hne].
    - right. split; [apply lookup_delete_eq|]. exists i. split; [|done]. apply Hsub. by left.
    - rewrite lookup_delete_ne by done. apply Ht. }
  eapply safe_step with (R := λ _ t', forgotten gone t0 t' ∧ (∀ p, t !! p = None → t' !! p = None)
      ∧ t' !! set_path Core i = None) (C' := forgotten gone t0); [|done|].
  - unfold path_exists. destruct (_ || _) eqn:E.
    + eapply safe_mono; [apply remove_file_safe|..].
      * intros _ t' ->. split; [done|]. split; [|apply lookup_delete_eq].
        intros p Hp. apply lookup_delete_None. by right.
      * by intros t' [->| ->].
    + apply safe_ret; [done|]. split; [done|]. split; [done|].
      apply orb_false_iff in E as [E _]. bools. by apply eq_None_not_Some.
  - intros [] t' (Ht' & Hmono & Hn). eapply safe_mono; [apply (IH t')|..]; [set_solver|done| |done].
    intros _ t2 (H2 & Hm2 & Hc). split; [done|]. split; [auto|].
    intros j Hj. apply elem_of_cons in Hj as [->|Hj]; auto.
Qed.

(** * Lemmas: the transaction *)

Section transaction.
Context {CR : Crypto} {JS : Json} {CS : Codec UpdateSet} {A U : Type} {HR : Records (A + U)} {UD : UbiDevice U}
  (envelope_parse : bytes → option Envelope) (envelope_print : Envelope → bytes).
#[local] Notation device := (device (A + U)).
#[local] Notation authenticate := (authenticate envelope_parse envelope_print).
#[local] Notation held_components := (held_components envelope_parse envelope_print).
#[local] Notation settle_sets := (settle_sets envelope_parse envelope_print).
#[local] Notation release_unreferenced := (release_unreferenced envelope_parse envelope_print).

(** What the state names is kept: each named set's envelope, and every file of
    every component of a set that authenticates. *)
Definition keeps (keys : list key) (s : SetState) (t t' : tree) : Prop :=
  ∀ the_id, the_id ∈ named_sets s →
    t' !! set_path Core the_id = t !! set_path Core the_id
    ∧ ∀ envelope set core file,
        read_bounded t (set_path Core the_id) MAX_ENVELOPE = Ok envelope →
        authenticate envelope keys = Ok set → core ∈ us_components set →
        let path := component_dir Core (c_id core) +:+ "/" +:+ file in t' !! path = t !! path.

Lemma keeps_refl keys s t : keeps keys s t t.
Proof. by intros i _. Qed.

Lemma elem_of_named_sets x s :
  x ∈ named_sets s ↔ ss_current s = Some x ∨ ss_pending s = Some x ∨ ∃ dep, ss_bound s !! dep = Some x.
Proof.
  unfold named_sets. rewrite elem_of_list_to_set, !elem_of_app, !elem_of_option_list, list_elem_of_fmap.
  assert (H : (∃ y : string * string, x = y.2 ∧ y ∈ map_to_list (ss_bound s)) ↔ ∃ dep, ss_bound s !! dep = Some x).
  { split.
    - intros ([d o] & -> & H). apply elem_of_map_to_list in H. by exists d.
    - intros [d H]. exists (d, x). by rewrite elem_of_map_to_list. }
  rewrite H. tauto.
Qed.

Lemma named_valid s x : state_valid s → x ∈ named_sets s → hex_id x = true.
Proof.
  intros (_ & H & _) Hx. apply valid_id_hex, H, elem_of_state_ids. apply elem_of_named_sets in Hx. tauto.
Qed.

Lemma keeps_forgotten keys s gone t t' :
  state_valid s → (∀ i, i ∈ gone → i ∉ named_sets s ∧ hex_id i = true) →
  forgotten gone t t' → keeps keys s t t'.
Proof.
  intros Hv Hg Hf i Hi. split.
  - destruct (Hf (set_path Core i)) as [->|(_ & j & Hj & E)]; [done|].
    apply set_path_inj in E as <-. by apply Hg in Hj as [? _].
  - intros envelope set core file _ Ha Hc path. destruct (Hf path) as [->|(_ & j & Hj & E)]; [done|].
    exfalso. assert (Ho : object_of path = Some (c_id core)).
    { apply object_of_child, hex_slash_free. by eapply authenticate_ids. }
    rewrite E, object_of_set_path in Ho; [done|]. by apply Hg.
Qed.

Lemma collect_in {X Y} (f : X → result Y) l ys x : collect f l = Ok ys → x ∈ l → ∃ y, f x = Ok y ∧ y ∈ ys.
Proof.
  intros H%collect_ok Hx. induction H as [|a b l ys Hab H IH]; [by apply elem_of_nil in Hx|].
  apply elem_of_cons in Hx as [->|Hx]; [exists b; split; [done|by left]|].
  destruct (IH Hx) as (y & ? & ?). exists y. split; [done|by right].
Qed.

(** The components a release keeps are those of the sets the state names. *)
Lemma held_components_spec keys w s kept the_id envelope set core :
  read_state w = Ok s → held_components keys w = Ok kept → the_id ∈ named_sets s →
  read_bounded (sw_system w) (set_path Core the_id) MAX_ENVELOPE = Ok envelope →
  authenticate envelope keys = Ok set → core ∈ us_components set → c_id core ∈ kept.
Proof.
  unfold SetSettle.held_components. intros Hs H Hid He Ha Hc. rewrite Hs in H. cbn [rbind] in H.
  apply rbind_ok in H as (sets & Hsets & [= <-]).
  destruct (collect_in _ _ _ the_id Hsets) as (set' & E & Hin); [by apply elem_of_elements|].
  rewrite He in E. cbn in E. rewrite Ha in E. injection E as <-.
  apply elem_of_list_to_set, list_elem_of_fmap. exists core. split; [done|].
  apply list_elem_of_In, in_concat. exists (us_components set). split; [|by apply list_elem_of_In].
  apply in_map. by apply list_elem_of_In.
Qed.

Lemma keeps_released keys s w kept t' :
  state_valid s → read_state w = Ok s → held_components keys w = Ok kept →
  released kept (sw_system w) t' → keeps keys s (sw_system w) t'.
Proof.
  intros Hv Hs Hk Hr i Hi. split.
  - destruct (Hr (set_path Core i)) as [->|(_ & n & E & _)]; [done|].
    rewrite object_of_set_path in E; [done|]. by eapply named_valid.
  - intros envelope set core file He Ha Hc path. destruct (Hr path) as [->|(_ & n & E & Hn)]; [done|].
    exfalso. assert (Ho : object_of path = Some (c_id core)).
    { apply object_of_child, hex_slash_free. by eapply authenticate_ids. }
    rewrite E in Ho. injection Ho as ->. apply Hn. by eapply held_components_spec.
Qed.

Lemma keeps_trans keys s t1 t2 t3 : keeps keys s t1 t2 → keeps keys s t2 t3 → keeps keys s t1 t3.
Proof.
  intros H1 H2 i Hi. destruct (H1 i Hi) as [E1 F1], (H2 i Hi) as [E2 F2]. split; [congruence|].
  intros envelope set core file He Ha Hc path.
  unfold path. rewrite <- (F1 envelope set core file) by done. apply (F2 envelope set core file); [|done..].
  unfold read_bounded in *. by rewrite E1.
Qed.

Lemma collect_ext {X Y} (f g : X → result Y) l : (∀ x, x ∈ l → f x = g x) → collect f l = collect g l.
Proof.
  induction l as [|x l IH]; intros H; [done|]. cbn. rewrite (H x) by set_solver.
  rewrite IH; [done|]. intros y Hy. apply H. set_solver.
Qed.

Lemma held_components_keeps keys s w w' :
  read_state w = Ok s → read_state w' = Ok s → keeps keys s (sw_system w) (sw_system w') →
  held_components keys w' = held_components keys w.
Proof.
  intros Hs Hs' Hk. unfold SetSettle.held_components. rewrite Hs, Hs'. cbn [rbind]. f_equal.
  apply collect_ext. intros i Hi. apply elem_of_elements in Hi. destruct (Hk i Hi) as [E _].
  unfold read_bounded. by rewrite E.
Qed.

(** The rest of the device is not touched. *)
Definition same_rest (d d' : device) : Prop :=
  dv_esp d' = dv_esp d ∧ Deployments.w_state (dv_store d') = Deployments.w_state (dv_store d).

(** The document holds [s], and everything it names is as it was in [d]. *)
Definition moved keys (s : SetState) (d d' : device) : Prop :=
  same_rest d d' ∧ sw_state (dv_sets d') = Holds s ∧ keeps keys s (dv_system d) (dv_system d').

Definition unmoved (d d' : device) : Prop :=
  same_rest d d' ∧ sw_state (dv_sets d') = sw_state (dv_sets d) ∧ dv_system d' = dv_system d.

(** Nothing on SYSTEM but what a held set names. *)
Definition swept keys (d' : device) : Prop :=
  ∃ kept, held_components keys (dv_sets d') = Ok kept
    ∧ ∀ p n, object_of p = Some n → n ∉ kept → dv_system d' !! p = None.

Lemma ubi_rest (d : device) u : dv_sets (set_ubi u d) = dv_sets d ∧ same_rest d (set_ubi u d).
Proof. done. Qed.

Lemma release_unreferenced_safe keys s (d0 d : device) :
  state_valid s → moved keys s d0 d →
  safe (release_unreferenced keys d) (λ _ d', moved keys s d0 d' ∧ swept keys d'
      ∧ ∀ p, dv_system d !! p = None → dv_system d' !! p = None) (moved keys s d0).
Proof.
  intros Hv Hm. pose proof Hm as (Hrest & Hst & Hk).
  assert (Hread : read_state (dv_sets d) = Ok s) by by apply sets_read_holds.
  apply safe_read; [done|]. intros kept Hkept. apply safe_read; [done|]. intros names [= <-].
  assert (Hrel : ∀ t', released kept (dv_system d) t' → moved keys s d0 (set_system t' d)).
  { intros t' Hr. split; [exact Hrest|]. split; [exact Hst|]. eapply keeps_trans; [exact Hk|].
    by apply (keeps_released keys s (dv_sets d) kept). }
  eapply safe_step with (C' := moved keys s d0) (R := λ _ d', moved keys s d0 d' ∧ swept keys d'
      ∧ ∀ p, dv_system d !! p = None → dv_system d' !! p = None); [|done|].
  - apply safe_zoom. eapply safe_mono; [apply release_objects_safe| |by intros; apply Hrel].
    intros _ t' [Hr Hc]. split; [by apply Hrel|]. split.
    + exists kept. split.
      * rewrite (held_components_keeps keys s (dv_sets d)); [done|done| |].
        { by apply sets_read_holds. }
        by apply (keeps_released keys s (dv_sets d) kept).
      * intros p n Ho Hn. change (t' !! p = None). destruct (Hr p) as [E|[E _]]; [|done].
        destruct (dv_system d !! p) eqn:Ed; [|congruence].
        apply (Hc p n); [|done..]. apply (read_dir_object (dv_system d) p); [by rewrite Ed|done].
    + intros p Hp. change (t' !! p = None). destruct (Hr p) as [->|[E _]]; done.
  - intros removed d1 (H1 & H2 & H3). destruct (ubi d1) as [u|] eqn:Hu; [|by apply safe_ret].
    unfold on_ubi. rewrite Hu. apply safe_zoom.
    split; [|split]; [intros a _|exact H1|intros v _; exact H1].
    split; [exact H1|]. split; [exact H2|exact H3].
Qed.

Lemma settle_sets_safe booted boot keys (d : device) s v s' :
  read_state (dv_sets d) = Ok s → settlement booted boot d = Ok (v, s') → state_valid s' →
  safe (settle_sets booted boot keys d)
    (λ v' d', v' = v ∧ ((s' = s ∧ d' = d) ∨ moved keys s' d d' ∧ swept keys d'
       ∧ ∀ i, i ∈ named_sets s → i ∉ named_sets s' → dv_system d' !! set_path Core i = None))
    (λ d', unmoved d d' ∨ moved keys s' d d').
Proof.
  intros Hs Hset Hv'. pose proof (sets_read_valid _ _ Hs) as Hv.
  assert (H0 : unmoved d d) by done.
  apply safe_read; [by left|]. intros s0 E. rewrite Hs in E. injection E as <-.
  apply safe_read; [by left|]. intros [v0 s0] E. rewrite Hset in E. injection E as <- <-.
  case_bool_decide as Hsame; [apply safe_ret; [by left|]; split; [done|by left]|].
  eapply safe_step with (R := λ _ d1, moved keys s' d d1 ∧ dv_system d1 = dv_system d)
    (C' := λ d', unmoved d d' ∨ moved keys s' d d'); [|done|].
  { apply safe_zoom. unfold write_state. apply safe_ensure; [by left|]. intros _.
    apply safe_write; [by left|right; done|done]. }
  intros [] d1 [Hm1 Ht1].
  eapply safe_step with (R := λ _ d2, moved keys s' d d2 ∧ dv_system d2 = dv_system d)
    (C' := moved keys s' d); [|by right|].
  { case_bool_decide; [by apply safe_ret|]. apply safe_zoom. unfold end_trial, write_meta.
    destruct (sw_trial _); [by apply safe_ret| |];
      (destruct (sw_meta_writable _); [by apply safe_write|by apply safe_lift]). }
  intros [] d2 [Hm2 Ht2]. set (gone := elements (named_sets s ∖ named_sets s')).
  assert (Hgone : ∀ i, i ∈ gone → i ∉ named_sets s' ∧ hex_id i = true).
  { intros i Hi. apply elem_of_elements, elem_of_difference in Hi as [H1 H2]. split; [done|].
    by eapply (named_valid s). }
  assert (Hf : ∀ t', forgotten gone (dv_system d2) t' → moved keys s' d (set_system t' d2)).
  { intros t' Hf. pose proof Hm2 as (Hr & Hst & _). split; [exact Hr|]. split; [exact Hst|].
    rewrite <- Ht2. by apply (keeps_forgotten keys s' gone). }
  eapply safe_step with (C' := moved keys s' d)
    (R := λ _ d3, moved keys s' d d3 ∧ ∀ i, i ∈ gone → dv_system d3 !! set_path Core i = None);
    [|by right|].
  { apply safe_zoom. eapply safe_mono; [apply (forget_sets_safe gone); [done|by left]| |by intros; apply Hf].
    intros _ t' (Ht' & _ & Hc). split; [by apply Hf|]. exact Hc. }
  intros [] d3 [Hm3 Hc3].
  eapply safe_step; [by apply (release_unreferenced_safe keys s' d)|by right|].
  intros _ d4 (Hm4 & Hsw & Hmono). apply safe_ret; [by right|]. split; [done|]. right.
  split; [done|]. split; [done|]. intros i Hi Hn. apply Hmono, Hc3. apply elem_of_elements. set_solver.
Qed.

End transaction.

(** The set a boot composed is one [composes] allows. *)
Lemma composition_composes {CR : Crypto} {JS : Json} {CS : Codec UpdateSet} {U} {UD : UbiDevice U}
    envelope_parse envelope_print ubi keys root deployment s w c w' :
  composition_ok envelope_parse envelope_print (U := U) ubi keys root deployment s w c w' →
  composes s deployment (co_id c).
Proof.
  intros [_ H]. unfold composes. destruct (co_pending c).
  - destruct H as [Hp H]. destruct (co_paired c).
    + by rewrite decide_True.
    + destruct H as (Hpr & Hb & _). rewrite decide_False by congruence. rewrite Hb. by left.
  - destruct H as (_ & Hne & H). rewrite decide_False by done.
    destruct H as [->|[-> ?]]; [done|by right].
Qed.

(** The settling of a boot over a device in service, on every count. *)
Lemma settlement_settles {A U : Type} {HR : Records (A + U)} (d : device (A + U)) booted boot s cur :
  Deployments.in_service (dv_store d) → read_state (dv_sets d) = Ok s →
  composes s booted (cb_core_set_id boot) → ss_current s = Some cur → pair_unbound s →
  ∃ v s' kept, retained_deployments (Some booted) d = Ok kept
  ∧ settlement booted boot d = Ok (v, s')
  ∧ settled booted (cb_core_set_id boot) kept (λ p, trial_is_over Core p (dv_sets d)) s v s'
  ∧ state_valid s'
  ∧ ∀ d', dv_store d' = dv_store d → dv_sets d' = set_sw_state s' (dv_sets d) →
      sets_need_settling booted boot d' = Ok false.
Proof.
  intros Hsv Hs Hc Hcur Hpu.
  destruct (retained_deployments_spec booted d Hsv) as (es & kept & He & Hk & _ & Hids & Hsize).
  destruct (settle_state_spec booted (cb_core_set_id boot) kept
    (λ p, trial_is_over Core p (dv_sets d)) s cur Hc Hcur Hpu) as (v & s' & E & Hset).
  assert (Hv : state_valid s') by (eapply settled_valid; [done|by eapply sets_read_valid|done..]).
  exists v, s', kept. split; [done|]. split; [unfold settlement; by rewrite Hs, Hk|].
  split; [done|]. split; [done|]. intros d' H1 H2.
  assert (Hs' : read_state (dv_sets d') = Ok s') by (rewrite H2; by apply sets_read_holds).
  assert (Hk' : retained_deployments (Some booted) d' = Ok kept) by (unfold retained_deployments in *; by rewrite H1).
  unfold sets_need_settling, settlement. rewrite Hs', Hk'. cbn [rbind].
  rewrite (settled_again booted _ kept _ s v s'); [|by rewrite H2].
  cbn. by rewrite bool_decide_eq_true_2.
Qed.

(** * Samples *)

Definition third_hex : string := "3123456789abcdef0123456789abcdef0123456789abcdef0123456789abcdef".

(** A set paired with the candidate that booted, on a UEFI board. *)
Definition paired_state : SetState :=
  {| ss_current := Some other_hex; ss_pending := Some third_hex; ss_pair := Some Deployments.candidate_id;
     ss_bound := ∅ |}.
Definition paired_boot : CoreBoot := {| cb_core_set_id := third_hex; cb_pending := true; cb_paired := true |}.
Definition sample_device : device (region + bench) :=
  {| dv_store := {| Deployments.w_state := Deployments.w_state Deployments.sample_world;
                    Deployments.w_boot := Deployments.BackendUefi (Some Deployments.esp_dir) |};
     dv_sets := {| sw_state := Holds paired_state;
                   sw_system := {[set_path Core other_hex := Regular (str_bytes "e");
                                  set_path Core third_hex := Regular (str_bytes "e");
                                  component_dir Core sample_hex +:+ "/core.img" := Regular [];
                                  component_dir Core other_hex +:+ "/core.img" := Regular []]};
                   sw_trial := Absent; sw_meta_writable := true |};
     dv_esp := ∅; dv_meta := ∅ |}.
#[local] Instance sample_store : Records (region + bench) :=
  sum_records (fit_records sample_layout) (ubi_records (UD := bench_device)).

Lemma sample_in_service : Deployments.in_service (dv_store sample_device).
Proof. exact (proj1 Deployments.esp_world_ok). Qed.

(** * Properties *)

(** What a healthy boot settles. Over a device in service whose document
    reads, with a pairing whose deployment is not bound, a healthy boot of the
    set [composes] allows it settles: the set booted becomes the current one,
    and is reported committed exactly when it was pending; every other
    deployment that keeps a boot keeps the set it had; only those stay bound,
    never to the current set; a pending set survives only while its pair or its
    own trial can still try it; the new document is one the store writes and
    reads back; and settling again changes nothing. *)
Theorem settlement_exact {A U : Type} {HR : Records (A + U)} (d : device (A + U)) booted boot s cur :
  Deployments.in_service (dv_store d) → read_state (dv_sets d) = Ok s →
  composes s booted (cb_core_set_id boot) → ss_current s = Some cur → pair_unbound s →
  ∃ v s' kept, retained_deployments (Some booted) d = Ok kept
  ∧ settlement booted boot d = Ok (v, s')
  ∧ settled booted (cb_core_set_id boot) kept (λ p, trial_is_over Core p (dv_sets d)) s v s'
  ∧ state_valid s'
  ∧ ∀ d', dv_store d' = dv_store d → dv_sets d' = set_sw_state s' (dv_sets d) →
      sets_need_settling booted boot d' = Ok false.
Proof. intros Hsv Hs Hc Hcur Hpu. by eapply settlement_settles. Qed.

Lemma settlement_exact_witness :
  ∃ s', settlement Deployments.candidate_id paired_boot sample_device = Ok (Committed, s')
  ∧ ss_current s' = Some third_hex ∧ set_for s' Deployments.sample_id = Some other_hex ∧ state_valid s'.
Proof.
  destruct (settlement_exact sample_device Deployments.candidate_id paired_boot paired_state other_hex)
    as (v & s' & kept & Hk & E & (Hc & Hcur & Hset & _) & Hv & _).
  - exact sample_in_service.
  - vm_compute. reflexivity.
  - unfold composes. rewrite decide_True; reflexivity.
  - reflexivity.
  - intros dep _. reflexivity.
  - exists s'. assert (v = Committed) as -> by (by apply Hc). split; [exact E|]. split; [exact Hcur|].
    split; [|exact Hv]. rewrite Hset; [reflexivity| |].
    + assert (Hk' : match retained_deployments (Some Deployments.candidate_id) sample_device with
                    | Ok k => bool_decide (Deployments.sample_id ∈ k) | Err _ => false end = true)
        by (vm_compute; reflexivity).
      rewrite Hk in Hk'. by apply bool_decide_eq_true in Hk'.
    + by apply (bool_decide_unpack _); vm_compute.
Defined.

(** Settling never loses a set the device may still boot. At every power
    cut and on every error of [settle_sets], the document is the old one with
    SYSTEM untouched, or the settled one with the envelope of every set it names
    and every file of those sets' components exactly as they were; a settling
    that succeeds has also removed the envelope of every set no longer named and
    every component file that no held set names. *)
Theorem settle_sets_keeps {CR : Crypto} {JS : Json} {CS : Codec UpdateSet} {A U : Type} {HR : Records (A + U)}
    {UD : UbiDevice U} envelope_parse envelope_print booted boot keys (d : device (A + U)) s v s' :
  read_state (dv_sets d) = Ok s → settlement booted boot d = Ok (v, s') → state_valid s' →
  let o := settle_sets envelope_parse envelope_print booted boot keys d in
  (∀ d', durable o d' → unmoved d d' ∨ moved envelope_parse envelope_print keys s' d d')
  ∧ (∀ v', o_result o = Ok v' → v' = v ∧ (s' = s ∧ o_state o = d
       ∨ moved envelope_parse envelope_print keys s' d (o_state o)
         ∧ swept envelope_parse envelope_print keys (o_state o)
         ∧ ∀ i, i ∈ named_sets s → i ∉ named_sets s' → dv_system (o_state o) !! set_path Core i = None)).
Proof.
  intros Hs Hset Hv o.
  pose proof (settle_sets_safe envelope_parse envelope_print booted boot keys d s v s' Hs Hset Hv) as H.
  split; [exact (safe_durable _ _ _ H)|]. exact (proj1 H).
Qed.

Lemma settle_sets_keeps_witness :
  let settle := settle_sets (CR := sample_crypto) (JS := sample_json) (CS := sample_codec sample_set)
    (UD := bench_device) (λ _, Some sample_envelope) (λ _, str_bytes "e") Deployments.candidate_id paired_boot
    [str_bytes "key"] in
  let swept := swept (CR := sample_crypto) (JS := sample_json) (CS := sample_codec sample_set)
    (λ _, Some sample_envelope) (λ _, str_bytes "e") [str_bytes "key"] in
  o_result (settle sample_device) = Ok Committed ∧ swept (o_state (settle sample_device))
  ∧ dv_system sample_device !! (component_dir Core other_hex +:+ "/core.img") = Some (Regular [])
  ∧ dv_system (o_state (settle sample_device)) !! (component_dir Core other_hex +:+ "/core.img") = None.
Proof.
  intros settle swept'.
  destruct (settlement_settles sample_device Deployments.candidate_id paired_boot paired_state other_hex)
    as (v & s' & kept & _ & E & _ & Hv & _); [exact sample_in_service|vm_compute; reflexivity| |reflexivity|done|].
  { unfold composes. rewrite decide_True; reflexivity. }
  assert (Hr : o_result (settle sample_device) = Ok Committed) by (vm_compute; reflexivity).
  destruct (settle_sets_keeps (CR := sample_crypto) (JS := sample_json) (CS := sample_codec sample_set)
    (UD := bench_device) (λ _, Some sample_envelope) (λ _, str_bytes "e") Deployments.candidate_id paired_boot
    [str_bytes "key"] sample_device paired_state v s') as [_ H]; [vm_compute; reflexivity|exact E|exact Hv|].
  destruct (H _ Hr) as (<- & [[Hs' _]|(_ & Hsw & _)]).
  { exfalso. assert (Hn : match settlement Deployments.candidate_id paired_boot sample_device with
      | Ok (_, s1) => bool_decide (ss_pending s1 = None) | Err _ => false end = true) by (vm_compute; reflexivity).
    rewrite E, Hs' in Hn. discriminate Hn. }
  split; [exact Hr|]. split; [exact Hsw|]. split; vm_compute; reflexivity.
Defined.

(** A pairing made before a rolled-back deployment is settled is undone by
    its own success. If a deployment is installed as a pair while the running
    one is still bound (before the health gate has settled its boot), the
    settling of that boot binds the paired deployment to the old current set;
    when the paired deployment then boots its own set and is healthy, the
    settling reports the set committed but leaves the old set current and names
    the committed set no more. *)
Theorem pair_before_settling_is_lost kept kept' over over' running own cur paired_dep pending :
  own ≠ cur → own ≠ pending → pending ≠ cur → paired_dep ≠ running → paired_dep ∈ kept → paired_dep ∈ kept' →
  let s := {| ss_current := Some cur; ss_pending := Some pending; ss_pair := Some paired_dep;
              ss_bound := {[running := own]} |} in
  composes s running own
  ∧ ∃ s1 s2, settle_state running own kept over s = Ok (Unchanged, s1)
    ∧ composes s1 paired_dep pending
    ∧ settle_state paired_dep pending kept' over' s1 = Ok (Committed, s2)
    ∧ ss_current s2 = Some cur ∧ pending ∉ named_sets s2.
Proof.
  intros H1 H2 H3 H4 Hk Hk' s. split.
  { unfold composes. rewrite decide_False by (cbn; congruence). unfold s. cbn. by rewrite lookup_singleton_eq. }
  set (s1 := tidy kept (make_current running kept own
    {| ss_current := Some cur; ss_pending := Some pending; ss_pair := Some paired_dep; ss_bound := ∅ |})).
  assert (Hs1 : settle_state running own kept over s = Ok (Unchanged, s1)).
  { unfold settle_state, verdict. cbn. rewrite bool_decide_eq_false_2 by done.
    rewrite bool_decide_eq_false_2, bool_decide_eq_true_2 by done. cbn. do 2 f_equal.
    unfold own_set. cbn. rewrite lookup_singleton_eq, bool_decide_eq_false_2 by congruence.
    by rewrite delete_singleton_eq. }
  assert (Hb1 : ss_bound s1 !! paired_dep = Some cur).
  { cbn. apply map_lookup_filter_Some. rewrite bind_others_lookup, lookup_empty, decide_True by done.
    cbn. split; [done|]. split; [done|congruence]. }
  exists s1. eexists. split; [exact Hs1|]. split; [unfold composes; by rewrite decide_True|].
  assert (Hv : verdict paired_dep pending kept' over' s1 = Committed) by by apply verdict_committed.
  unfold settle_state. rewrite Hv. cbn [apply_verdict]. cbn [ss_pending s1 tidy make_current with_context rbind].
  split; [reflexivity|]. set (s2 := make_current _ _ pending _).
  assert (Hb2 : ss_bound s2 !! paired_dep = Some cur).
  { unfold s2, make_current. cbn [ss_bound drop_pending ss_current s1 tidy].
    change (bind_others paired_dep own kept' (ss_bound s1) !! paired_dep = Some cur).
    by rewrite bind_others_lookup, Hb1. }
  assert (Hcur : ss_current (own_set paired_dep kept' s2) = Some cur).
  { rewrite own_set_current. unfold set_for. by rewrite Hb2. }
  split; [exact Hcur|]. rewrite elem_of_named_sets. intros [E|[E|[dep E]]].
  - cbn in E. rewrite Hcur in E. congruence.
  - destruct (own_set_pending paired_dep kept' s2) as [Hp _]. cbn in E. rewrite Hp in E. done.
  - apply map_lookup_filter_Some in E as (E & Hdk & _). cbn in Hdk.
    unfold own_set in E. rewrite Hb2 in E. rewrite bool_decide_eq_false_2 in E by (cbn; congruence).
    change (bind_others paired_dep pending kept' (delete paired_dep (ss_bound s2)) !! dep = Some pending) in E.
    rewrite bind_others_lookup in E.
    destruct (decide (dep = paired_dep)) as [->|Hne].
    { rewrite lookup_delete_eq, decide_False in E; [done|tauto]. }
    rewrite lookup_delete_ne in E by done.
    change (ss_bound s2 !! dep) with (bind_others paired_dep own kept' (ss_bound s1) !! dep) in E.
    rewrite bind_others_lookup in E. destruct (ss_bound s1 !! dep) as [o|] eqn:Eb.
    + injection E as ->. apply map_lookup_filter_Some in Eb as (Eb & _). cbn in Eb.
      rewrite bind_others_lookup, lookup_empty in Eb. case_decide; [|done]. congruence.
    + rewrite decide_True in E by done. congruence.
Qed.

Lemma pair_before_settling_is_lost_witness :
  let s := {| ss_current := Some other_hex; ss_pending := Some third_hex; ss_pair := Some Deployments.candidate_id;
              ss_bound := {[Deployments.sample_id := sample_hex]} |} in
  let kept : gset string := {[Deployments.candidate_id; Deployments.sample_id]} in
  ∃ s1 s2, settle_state Deployments.sample_id sample_hex kept (λ _, false) s = Ok (Unchanged, s1)
    ∧ settle_state Deployments.candidate_id third_hex kept (λ _, false) s1 = Ok (Committed, s2)
    ∧ ss_current s2 = Some other_hex.
Proof.
  intros s kept.
  destruct (pair_before_settling_is_lost kept kept (λ _, false) (λ _, false) Deployments.sample_id sample_hex
    other_hex Deployments.candidate_id third_hex) as [_ (s1 & s2 & H1 & _ & H2 & H3 & _)];
    [discriminate..|set_solver|set_solver|].
  exists s1, s2. split; [exact H1|]. split; [exact H2|exact H3].
Defined.

End SetSettle.
