(* ===== verification/Collect.v ===== *)
(** Describing deployments and collecting unreachable objects
    ([src/crates/mica-deploy/src/deployments/lifecycle.rs], [describe],
    [collect] and [collection], and the [Collection] of [deployments/io.rs]):
    what is removed is decided first, from every retained descriptor, and
    removed after. *)
From Stdlib Require Import Ascii.
From S2P Require Import Prelude Text Files Boot FitEnv RecordStore Deployments Components UpdateSet SetState Ubi Objects.
Import Files Boot FitEnv RecordStore Components SetState Ubi Objects.

Module Collect.

Record DeploymentStatus := {
  ds_entry : Deployments.Entry;
  ds_version : string;
  ds_kernel_id : string;
  ds_kernel_release : string;
  ds_kernel_features : option (list string);
  ds_rootfs_id : string;
}.

(** A file to remove: on SYSTEM, on the ESP, in the ESP's entries directory, or
    in DATA's metadata directory. *)
Inductive Victim :=
| SystemFile (path : string)
| EspFile (path : string)
| EntryFile (name : string)
| MetaFile (path : string).

Record Collection := {
  col_files : list Victim;
  col_directories : list string;
  col_volumes : list Volume;
}.

(** The objects of the retained deployments, and the one device they target. *)
Record Parts := {
  pt_roots : gset string;
  pt_kernels : gset string;
  pt_target : option (string * string);
}.

Definition descriptor_path (the_id : string) : string := "deployments/" +:+ the_id +:+ ".json".
Definition STATE_PENDING : string := "deployments.pending".

(** [Path::extension]. *)
Definition extension (name : string) : option string :=
  match rsplit_once "." name with
  | Some (stem, ext) => if is_empty stem then None else Some ext
  | None => None
  end.

Definition file_limit (files : list Victim) : result unit :=
  ensure len files <=? 4096 else "collection exceeds file limit" in Ok tt.

(** The children of one object directory: the whole of an unreferenced one, the
    leftovers of a referenced one. *)
Fixpoint walk_children (dir : string) (referenced : bool) (children : list string) (files : list Victim)
    (t : tree) : result (list Victim) :=
  match children with
  | [] => Ok files
  | child :: rest =>
      let path := dir +:+ "/" +:+ child in
      ensure is_file path t else "unexpected object child" in
      let leftover := bool_decide (extension child = Some "partial") || bool_decide (extension child = Some "pending") in
      let files' := if negb referenced || leftover then files ++ [SystemFile path] else files in
      let? _ := file_limit files' in
      walk_children dir referenced rest files' t
  end.

Fixpoint walk_objects (parent : string) (keep : gset string) (names : list string)
    (files : list Victim) (dirs : list string) (t : tree) : result (list Victim * list string) :=
  match names with
  | [] => Ok (files, dirs)
  | object :: rest =>
      let? _ := valid_id object in
      let path := parent +:+ "/" +:+ object in
      ensure is_dir path t else "object directory is not real" in
      let referenced := bool_decide (object ∈ keep) in
      let? files' := walk_children path referenced (read_dir path t) files t in
      let dirs' := if referenced then dirs else dirs ++ [path] in
      ensure len dirs' <=? 512 else "collection exceeds object limit" in
      walk_objects parent keep rest files' dirs' t
  end.

Definition walk_namespace (parent : string) (keep : gset string) (t : tree) (acc : list Victim * list string) :
    result (list Victim * list string) :=
  ensure is_dir parent t else "invalid object namespace" in
  walk_objects parent keep (read_dir parent t) acc.1 acc.2 t.

(** The files of one flat namespace: those of retained ids stay. *)
Fixpoint walk_artifacts (victim : string → Victim) (parent suffix temporary_suffix : string) (keep : gset string)
    (names : list string) (files : list Victim) (t : tree) : result (list Victim) :=
  match names with
  | [] => Ok files
  | name :: rest =>
      let temporary := ends_with temporary_suffix name in
      let? the_id := with_context (strip_suffix (if temporary then temporary_suffix else suffix) name)
                       "unexpected artifact name" in
      let? _ := valid_id the_id in
      let path := parent +:+ "/" +:+ name in
      ensure is_file path t else "artifact is not regular" in
      let files' := if temporary || negb (bool_decide (the_id ∈ keep)) then files ++ [victim path] else files in
      let? _ := file_limit files' in
      walk_artifacts victim parent suffix temporary_suffix keep rest files' t
  end.

Definition walk_artifact_namespace (victim : string → Victim) (parent suffix temporary_suffix : string)
    (keep : gset string) (t : tree) (files : list Victim) : result (list Victim) :=
  ensure is_dir parent t else "invalid artifact namespace" in
  walk_artifacts victim parent suffix temporary_suffix keep (read_dir parent t) files t.

(** The interrupted writes in the ESP's entries directory. *)
Fixpoint walk_entries (dir : list Deployments.dirent) (files : list Victim) : result (list Victim) :=
  match dir with
  | [] => Ok files
  | item :: rest =>
      ensure valid_utf8 (Deployments.d_name item) else "invalid entry name" in
      let name := bytes_str (Deployments.d_name item) in
      match strip_suffix ".pending" name with
      | None => walk_entries rest files
      | Some stem =>
          let? _ := selected_entry (stem +:+ ".conf") in
          ensure match Deployments.d_node item with Regular _ => true | _ => false end
            else "pending entry is not regular" in
          let files' := files ++ [EntryFile name] in
          let? _ := file_limit files' in
          walk_entries rest files'
      end
  end.

Section collect.
Context {CR : Crypto} {JS : Json} {CD : Codec Deployment} {A U : Type} {HR : Records (A + U)} {UD : UbiDevice U}
  (envelope_parse : bytes → option Envelope) (envelope_print : Envelope → bytes)
  (boot_trust : Deployments.BootTrust).
#[local] Notation device := (device (A + U)).

Definition deployment_id (x : Deployment) : result string := component_id (to_value x).

Definition read_descriptor (keys : list key) (t : tree) (the_id : string) : result Deployment :=
  let? b := read_bounded t (descriptor_path the_id) 24576 in
  authenticate_deployment envelope_parse envelope_print b keys.

(** [describe]: every entry with what its authenticated descriptor says. *)
Definition describe_entry (keys : list key) (d : device) (e : Deployments.Entry) : result DeploymentStatus :=
  let? x := read_descriptor keys (dv_system d) (Deployments.e_id e) in
  let? the_id := deployment_id x in
  ensure bool_decide (the_id = Deployments.e_id e) && (d_generation x =? Deployments.e_generation e)
    else "deployment status identity mismatch" in
  let? _ := match Deployments.w_boot (dv_store d) with
            | Deployments.BackendUefi _ => Ok tt
            | Deployments.BackendRecords _ =>
                let? env := Deployments.boot_records (Deployments.w_boot (dv_store d)) in
                ensure existsb (λ r, bool_decide (id r = Deployments.e_id e)
                                     && bool_decide (kernel_id r = k_id (d_kernel x))) (records env)
                  else "deployment boot record kernel mismatch" in
                Ok tt
            end in
  Ok {| ds_entry := e; ds_version := d_version x; ds_kernel_id := k_id (d_kernel x);
        ds_kernel_release := k_release (d_kernel x); ds_kernel_features := k_features (d_kernel x);
        ds_rootfs_id := r_id (d_rootfs x) |}.
Definition describe (keys : list key) (d : device) : result (list DeploymentStatus) :=
  let? es := Deployments.entries (dv_store d) in
  collect (describe_entry keys d) es.

(** Every retained descriptor, authenticated, of one target. *)
Fixpoint retained_parts (keys : list key) (receipt : Deployments.BootReceipt) (t : tree)
    (ids : list string) (acc : Parts) : result Parts :=
  match ids with
  | [] => Ok acc
  | the_id :: rest =>
      let? _ := valid_id the_id in
      let? x := read_descriptor keys t the_id in
      let? found := deployment_id x in
      ensure bool_decide (found = the_id) else "retained descriptor identity mismatch" in
      let board := (d_board x, d_arch x) in
      let? target := match pt_target acc with
                     | Some expected =>
                         ensure bool_decide (expected = board) else "retained deployment target mismatch" in
                         Ok (Some expected)
                     | None => Ok (Some board)
                     end in
      let? _ := (if bool_decide (the_id = Deployments.rc_deployment_id receipt)
                 then ensure bool_decide (k_id (d_kernel x) = Deployments.rc_kernel_id receipt)
                             && bool_decide (r_id (d_rootfs x) = Deployments.rc_rootfs_id receipt)
                        else "running component identity mismatch" in Ok tt
                 else Ok tt) in
      retained_parts keys receipt t rest
        {| pt_roots := {[r_id (d_rootfs x)]} ∪ pt_roots acc;
           pt_kernels := {[k_id (d_kernel x)]} ∪ pt_kernels acc; pt_target := target |}
  end.

(** The components of the deployment being installed are kept too. *)
Definition with_incoming (incoming : option Deployment) (p : Parts) : result Parts :=
  match incoming with
  | None => Ok p
  | Some x =>
      ensure bool_decide (pt_target p = Some (d_board x, d_arch x)) else "incoming deployment target mismatch" in
      Ok {| pt_roots := {[r_id (d_rootfs x)]} ∪ pt_roots p;
            pt_kernels := {[k_id (d_kernel x)]} ∪ pt_kernels p; pt_target := pt_target p |}
  end.

Definition unreferenced (prefix : string) (keep : gset string) (v : Volume) : bool :=
  match strip_prefix prefix (vol_name v) with
  | Some the_id => id_ok the_id && negb (bool_decide (the_id ∈ keep))
  | None => false
  end.

Definition walk_volumes (p : Parts) (d : device) : result (list Volume) :=
  match ubi d with
  | None => Ok []
  | Some u =>
      let? vs := volumes u in
      Ok (List.filter (λ v, starts_with PENDING (vol_name v) || unreferenced "r-" (pt_roots p) v
                            || unreferenced "k-" (pt_kernels p) v || unreferenced "s-" (pt_kernels p) v) vs)
  end.

(** [collection]: what to remove, once every retained descriptor is valid. *)
Definition collection (receipt : Deployments.BootReceipt) (keys : list key) (retained : gset string)
    (incoming : option Deployment) (d : device) : result Collection :=
  let t := dv_system d in
  let? _ := Deployments.validate_receipt boot_trust receipt (dv_store d) in
  let? own := retained_parts keys receipt t (elements retained)
                {| pt_roots := ∅; pt_kernels := ∅; pt_target := None |} in
  let? p := with_incoming incoming own in
  let? walked := walk_namespace "roots" (pt_roots p) t ([], []) in
  let? walked := walk_namespace "kernels" (pt_kernels p) t walked in
  let? files := walk_artifact_namespace SystemFile "deployments" ".json" ".pending" retained t walked.1 in
  let? files := match Deployments.w_boot (dv_store d) with
                | Deployments.BackendUefi _ =>
                    walk_artifact_namespace EspFile "EFI/mica/kernels" ".efi" ".partial" (pt_kernels p) (dv_esp d) files
                | Deployments.BackendRecords _ => Ok files
                end in
  let? files := match Deployments.w_boot (dv_store d) with
                | Deployments.BackendUefi (Some dir) => walk_entries dir files
                | Deployments.BackendUefi None => Err (Msg "No such file or directory")
                | Deployments.BackendRecords _ => Ok files
                end in
  let? vs := walk_volumes p d in
  let? files := (if path_exists STATE_PENDING (dv_meta d)
                 then ensure is_file STATE_PENDING (dv_meta d) else "pending state is not regular" in
                      Ok (match incoming with None => files ++ [MetaFile STATE_PENDING] | Some _ => files end)
                 else Ok files) in
  Ok {| col_files := files; col_directories := walked.2; col_volumes := vs |}.

Definition remove_victim (v : Victim) : M device unit :=
  match v with
  | SystemFile path => on_system (Files.remove_file path)
  | EspFile path => on_esp (Files.remove_file path)
  | EntryFile name => in_store (Deployments.in_directory (Deployments.remove_file name))
  | MetaFile path => on_meta (Files.remove_file path)
  end.

Fixpoint each_step {B} (f : B → M device unit) (l : list B) : M device unit :=
  match l with
  | [] => sret tt
  | b :: l' => let! _ := f b in each_step f l'
  end.

(** [Collection::apply]. *)
Definition apply_collection (c : Collection) : M device Z :=
  let! _ := each_step remove_victim (col_files c) in
  let! _ := each_step (λ path, on_system (remove_dir path)) (col_directories c) in
  let! _ := (λ d, match ubi d with
                  | Some _ => each_step (λ v, on_ubi (vol_remove (vol_id v))) (col_volumes c) d
                  | None => sret tt d
                  end) in
  sret (len (col_files c) + len (col_volumes c)).

(** [collect]. *)
Definition collect_unreachable (receipt : Deployments.BootReceipt) (keys : list key) : M device Z :=
  let! st := slift (λ d, Deployments.effective_state (dv_store d)) in
  let! es := slift (λ d, Deployments.entries (dv_store d)) in
  let named := option_list (Deployments.current st) ++ option_list (Deployments.fallback st)
               ++ option_list (Deployments.candidate st) in
  let retained := list_to_set (Deployments.rc_deployment_id receipt :: named ++ map Deployments.e_id es) in
  let! c := slift (collection receipt keys retained None) in
  let! es := slift (λ d, Deployments.entries (dv_store d)) in
  let! _ := in_store (Deployments.retain_entries es (map (λ e, Some (Deployments.e_id e)) es)) in
  apply_collection c.

End collect.

(** * Lemmas: what is chosen *)

Definition leftover (child : string) : bool :=
  bool_decide (extension child = Some "partial") || bool_decide (extension child = Some "pending").

(** A file below an object directory that may go: of an object not kept, or
    the leftover of an interrupted write. *)
Definition may_go (parent : string) (keep : gset string) (path : string) : Prop :=
  ∃ object child, hex_id object = true ∧ path = parent +:+ "/" +:+ object +:+ "/" +:+ child
    ∧ (object ∉ keep ∨ leftover child = true).

Definition dir_may_go (parent : string) (keep : gset string) (path : string) : Prop :=
  ∃ object, hex_id object = true ∧ path = parent +:+ "/" +:+ object ∧ object ∉ keep.

Lemma elem_of_push {B} (c : bool) (l : list B) (x v : B) :
  v ∈ (if c then l ++ [x] else l) → v ∈ l ∨ (c = true ∧ v = x).
Proof. destruct c; [|by left]. rewrite elem_of_app, list_elem_of_singleton. tauto. Qed.

Lemma walk_children_spec parent keep object children files t files' v :
  hex_id object = true →
  walk_children (parent +:+ "/" +:+ object) (bool_decide (object ∈ keep)) children files t = Ok files' →
  v ∈ files' → v ∈ files ∨ ∃ path, v = SystemFile path ∧ may_go parent keep path.
Proof.
  intros Ho. revert files. induction children as [|c rest IH]; intros files H Hv; cbn in H.
  { injection H as <-. by left. }
  apply if_ok in H as [_ H]. apply rbind_unit in H as [_ H].
  destruct (IH _ H Hv) as [Hin|?]; [|by right]. apply elem_of_push in Hin as [?|[Hc ->]]; [by left|].
  right. eexists. split; [done|]. exists object, c. split; [done|]. split; [by rewrite !append_assoc|].
  unfold leftover. apply orb_true_iff in Hc as [Hc|Hc]; [left|by right]. by bools.
Qed.

Lemma walk_objects_spec parent keep names files dirs t files' dirs' :
  walk_objects parent keep names files dirs t = Ok (files', dirs') →
  (∀ v, v ∈ files' → v ∈ files ∨ ∃ path, v = SystemFile path ∧ may_go parent keep path)
  ∧ (∀ p, p ∈ dirs' → p ∈ dirs ∨ dir_may_go parent keep p).
Proof.
  revert files dirs. induction names as [|object rest IH]; intros files dirs H; cbn in H.
  { injection H as <- <-. split; by left. }
  apply rbind_unit in H as [Ho H]. apply valid_id_hex in Ho. apply if_ok in H as [_ H].
  apply rbind_ok in H as (files1 & Hw & H). apply if_ok in H as [_ H].
  destruct (IH _ _ H) as [IHf IHd]. split.
  - intros v Hv. destruct (IHf v Hv) as [Hin|?]; [|by right]. by eapply walk_children_spec.
  - intros p Hp. destruct (IHd p Hp) as [Hin|?]; [|by right]. case_bool_decide; [by left|].
    apply elem_of_app in Hin as [?|Hin]; [by left|]. apply list_elem_of_singleton in Hin as ->.
    right. by exists object.
Qed.

Lemma walk_namespace_spec parent keep t acc files' dirs' :
  walk_namespace parent keep t acc = Ok (files', dirs') →
  (∀ v, v ∈ files' → v ∈ acc.1 ∨ ∃ path, v = SystemFile path ∧ may_go parent keep path)
  ∧ (∀ p, p ∈ dirs' → p ∈ acc.2 ∨ dir_may_go parent keep p).
Proof. intros [_ H]%if_ok. by eapply walk_objects_spec. Qed.

(** A file of a flat namespace that may go. *)
Definition artifact_may_go (parent suffix temporary : string) (keep : gset string) (path : string) : Prop :=
  ∃ name, path = parent +:+ "/" +:+ name
    ∧ (ends_with temporary name = true ∨ ∃ the_id, strip_suffix suffix name = Some the_id ∧ the_id ∉ keep).

Lemma walk_artifacts_spec victim parent suffix temporary keep names files t files' v :
  walk_artifacts victim parent suffix temporary keep names files t = Ok files' →
  v ∈ files' → v ∈ files ∨ ∃ path, v = victim path ∧ artifact_may_go parent suffix temporary keep path.
Proof.
  revert files. induction names as [|name rest IH]; intros files H Hv; cbn in H.
  { injection H as <-. by left. }
  apply rbind_ok in H as (i & Hi & H). apply with_context_ok in Hi. apply rbind_unit in H as [_ H].
  apply if_ok in H as [_ H]. apply rbind_unit in H as [_ H].
  destruct (IH _ H Hv) as [Hin|?]; [|by right]. apply elem_of_push in Hin as [?|[Hc ->]]; [by left|].
  right. eexists. split; [done|]. exists name. split; [done|].
  destruct (ends_with temporary name); [by left|right]. exists i. split; [done|]. cbn in Hc. by bools.
Qed.

(** A name that ends with one suffix does not end with another whose last byte
    differs. *)
Lemma ends_with_last (x a b : string) (ca cb : ascii) :
  last (str_bytes a) = Some ca → last (str_bytes b) = Some cb → ca ≠ cb → ends_with a (x +:+ b) = false.
Proof.
  intros Ha Hb Hne. apply bool_decide_eq_false. intros [r H%strip_suffix_spec].
  apply (f_equal (λ s, last (str_bytes s))) in H. rewrite !str_bytes_app, !last_app, Ha, Hb in H. congruence.
Qed.

Lemma pending_no_entry stem : Deployments.is_entry_file (stem +:+ ".pending") = false.
Proof.
  unfold Deployments.is_entry_file. rewrite (ends_with_last _ _ _ "f" "g") by done. apply andb_false_r.
Qed.

Lemma walk_entries_spec dir files files' v :
  walk_entries dir files = Ok files' → v ∈ files' →
  v ∈ files ∨ ∃ name, v = EntryFile name ∧ Deployments.is_entry_file name = false.
Proof.
  revert files. induction dir as [|item rest IH]; intros files H Hv; cbn in H.
  { injection H as <-. by left. }
  apply if_ok in H as [_ H]. destruct (strip_suffix ".pending" _) as [stem|] eqn:E; [|by apply (IH files)].
  apply rbind_ok in H as (i & _ & H). apply if_ok in H as [_ H]. apply rbind_unit in H as [_ H].
  destruct (IH _ H Hv) as [Hin|?]; [|by right]. apply elem_of_app in Hin as [?|Hin]; [by left|].
  apply list_elem_of_singleton in Hin as ->. right. eexists. split; [done|].
  apply strip_suffix_spec in E as ->. apply pending_no_entry.
Qed.

(** ** What may not go *)

Lemma cut_name (a b x y : string) :
  slash_free a → slash_free b → a +:+ "/" +:+ x = b +:+ "/" +:+ y → a = b ∧ x = y.
Proof.
  intros Ha Hb E. assert (H : split_once "/" (a +:+ "/" +:+ x) = Some (a, x)) by by apply split_once_spec.
  rewrite E in H. rewrite (proj2 (split_once_spec "/" (b +:+ "/" +:+ y) b y)) in H by done. by injection H.
Qed.

Lemma name_not_path (a x o : string) : hex_id o = true → a +:+ "/" +:+ x = o → False.
Proof.
  intros Ho%hex_slash_free <-. unfold slash_free in Ho. rewrite contains_byte_app in Ho.
  apply orb_false_iff in Ho as [_ Ho]. done.
Qed.

Lemma may_go_inv parent keep object child :
  hex_id object = true → may_go parent keep (parent +:+ "/" +:+ object +:+ "/" +:+ child) →
  object ∉ keep ∨ leftover child = true.
Proof.
  intros Ho (o & c & Hh & E & H). apply append_cut, append_cut in E.
  apply cut_name in E as [-> ->]; [done|by apply hex_slash_free..].
Qed.

Lemma artifact_may_go_inv parent suffix temporary keep the_id :
  artifact_may_go parent suffix temporary keep (parent +:+ "/" +:+ the_id +:+ suffix) →
  ends_with temporary (the_id +:+ suffix) = false → the_id ∉ keep.
Proof.
  intros (n & E & H) Ht. apply append_cut, append_cut in E as <-. destruct H as [H|(i & Hi & H)]; [congruence|].
  rewrite strip_suffix_app in Hi. by injection Hi as ->.
Qed.

Section spec.
Context {CR : Crypto} {JS : Json} {CD : Codec Deployment} {A U : Type} {HR : Records (A + U)} {UD : UbiDevice U}
  (envelope_parse : bytes → option Envelope) (envelope_print : Envelope → bytes)
  (boot_trust : Deployments.BootTrust).
#[local] Notation device := (device (A + U)).
#[local] Notation read_descriptor := (read_descriptor envelope_parse envelope_print).
#[local] Notation retained_parts := (retained_parts envelope_parse envelope_print).
#[local] Notation collection := (collection envelope_parse envelope_print boot_trust).
#[local] Notation collect_unreachable := (collect_unreachable envelope_parse envelope_print boot_trust).

(** The components [x] uses are kept. *)
Definition keeps_parts (p : Parts) (x : Deployment) : Prop :=
  r_id (d_rootfs x) ∈ pt_roots p ∧ k_id (d_kernel x) ∈ pt_kernels p.

Lemma retained_parts_spec keys receipt t ids acc p :
  retained_parts keys receipt t ids acc = Ok p →
  (∀ x, keeps_parts acc x → keeps_parts p x)
  ∧ ∀ the_id, the_id ∈ ids → ∃ x, read_descriptor keys t the_id = Ok x ∧ keeps_parts p x.
Proof.
  revert acc. induction ids as [|i rest IH]; intros acc H; cbn in H.
  { injection H as ->. split; [done|]. intros i Hi. by apply elem_of_nil in Hi. }
  apply rbind_unit in H as [_ H]. apply rbind_ok in H as (x & Hx & H). apply rbind_ok in H as (f & _ & H).
  apply if_ok in H as [_ H]. apply rbind_ok in H as (target & _ & H). apply rbind_unit in H as [_ H].
  destruct (IH _ H) as [IH1 IH2]. split.
  - intros y [H1 H2]. apply IH1. split; cbn; set_solver.
  - intros j Hj. apply elem_of_cons in Hj as [->|Hj]; [|by apply IH2].
    exists x. split; [done|]. apply IH1. split; cbn; set_solver.
Qed.

(** The paths a deployment uses on SYSTEM: its descriptor and its objects. *)
Definition uses (the_id : string) (x : Deployment) (path : string) : Prop :=
  path = descriptor_path the_id
  ∨ ∃ child, leftover child = false
      ∧ (path = "roots/" +:+ r_id (d_rootfs x) +:+ "/" +:+ child
         ∨ path = "kernels/" +:+ k_id (d_kernel x) +:+ "/" +:+ child).

Definition spared (c : Collection) (path : string) : Prop :=
  SystemFile path ∉ col_files c ∧ path ∉ col_directories c.

(** Everything the collection removes, of the parts [p] it keeps. *)
Lemma collection_files receipt keys retained incoming (d : device) c :
  collection receipt keys retained incoming d = Ok c →
  ∃ own p, retained_parts keys receipt (dv_system d) (elements retained)
             {| pt_roots := ∅; pt_kernels := ∅; pt_target := None |} = Ok own
  ∧ with_incoming incoming own = Ok p
  ∧ (∀ v, v ∈ col_files c →
       (∃ path, v = SystemFile path
          ∧ (may_go "roots" (pt_roots p) path ∨ may_go "kernels" (pt_kernels p) path
             ∨ artifact_may_go "deployments" ".json" ".pending" retained path))
       ∨ (∃ path, v = EspFile path ∧ artifact_may_go "EFI/mica/kernels" ".efi" ".partial" (pt_kernels p) path)
       ∨ (∃ name, v = EntryFile name ∧ Deployments.is_entry_file name = false)
       ∨ v = MetaFile STATE_PENDING)
  ∧ (∀ path, path ∈ col_directories c →
       dir_may_go "roots" (pt_roots p) path ∨ dir_may_go "kernels" (pt_kernels p) path).
Proof.
  intros H. apply rbind_unit in H as [_ H]. apply rbind_ok in H as (own & Hown & H).
  apply rbind_ok in H as (p & Hp & H). apply rbind_ok in H as ([f1 d1] & H1 & H).
  apply rbind_ok in H as ([f2 d2] & H2 & H). apply rbind_ok in H as (f3 & H3 & H).
  apply rbind_ok in H as (f4 & H4 & H). apply rbind_ok in H as (f5 & H5 & H).
  apply rbind_ok in H as (vs & _ & H). apply rbind_ok in H as (f6 & H6 & H). injection H as <-. cbn [col_files col_directories fst snd] in *.
  apply walk_namespace_spec in H1 as [F1 D1]. apply walk_namespace_spec in H2 as [F2 D2]. cbn [fst snd] in *.
  exists own, p. split; [done|]. split; [done|]. split.
  - intros v Hv. assert (Hv5 : v ∈ f5 ∨ v = MetaFile STATE_PENDING).
    { destruct (path_exists _ _); [|injection H6 as <-; by left]. apply if_ok in H6 as [_ H6]. injection H6 as <-.
      destruct incoming; [by left|]. apply elem_of_app in Hv as [?|Hv]; [by left|right].
      by apply list_elem_of_singleton in Hv. }
    destruct Hv5 as [Hv5| ->]; [|auto].
    assert (Hv4 : v ∈ f4 ∨ ∃ name, v = EntryFile name ∧ Deployments.is_entry_file name = false).
    { destruct (Deployments.w_boot _) as [[dir|]|]; [by eapply walk_entries_spec|done|injection H5 as <-; by left]. }
    destruct Hv4 as [Hv4|Hv4]; [|auto].
    assert (Hv3 : v ∈ f3 ∨ ∃ path, v = EspFile path
      ∧ artifact_may_go "EFI/mica/kernels" ".efi" ".partial" (pt_kernels p) path).
    { destruct (Deployments.w_boot _); [|injection H4 as <-; by left].
      apply if_ok in H4 as [_ H4]. by eapply walk_artifacts_spec. }
    destruct Hv3 as [Hv3|Hv3]; [|auto]. apply if_ok in H3 as [_ H3].
    destruct (walk_artifacts_spec _ _ _ _ _ _ _ _ _ _ H3 Hv3) as [Hv2|(path & -> & ?)]; [|left; eauto].
    destruct (F2 v Hv2) as [Hv1|(path & -> & ?)]; [|left; eauto].
    destruct (F1 v Hv1) as [Hv0|(path & -> & ?)]; [by apply elem_of_nil in Hv0|left; eauto].
  - intros q Hq. destruct (D2 q Hq) as [Hq1|?]; [|by right]. destruct (D1 q Hq1) as [Hq0|?]; [|by left].
    by apply elem_of_nil in Hq0.
Qed.

(** A collection spares everything of a deployment it retains. *)
Lemma collection_spares receipt keys retained incoming (d : device) c the_id x :
  collection receipt keys retained incoming d = Ok c → the_id ∈ retained →
  read_descriptor keys (dv_system d) the_id = Ok x →
  (∀ path, uses the_id x path → spared c path)
  ∧ EspFile ("EFI/mica/kernels/" +:+ k_id (d_kernel x) +:+ ".efi") ∉ col_files c.
Proof.
  intros H Hid Hx. destruct (collection_files _ _ _ _ _ _ H) as (own & p & Hown & Hp & Hf & Hd).
  assert (Hk : keeps_parts p x).
  { apply retained_parts_spec in Hown as [_ Hr].
    destruct (Hr the_id) as (x' & Hx' & [H1 H2]); [by apply elem_of_elements|]. rewrite Hx in Hx'. injection Hx' as <-.
    unfold with_incoming in Hp. destruct incoming; [|by injection Hp as <-].
    apply if_ok in Hp as [_ Hp]. injection Hp as <-. split; cbn; set_solver. }
  destruct Hk as [Hkr Hkk].
  assert (Hids : hex_id (r_id (d_rootfs x)) = true ∧ hex_id (k_id (d_kernel x)) = true).
  { unfold Collect.read_descriptor in Hx. apply rbind_ok in Hx as (b & _ & Hx). by eapply authenticate_deployment_ids. }
  destruct Hids as [Hrh Hkh].
  split.
  - intros path Hu. split.
    + intros Hin. destruct (Hf _ Hin) as [(q & [= <-] & Hq)|[(? & [=] & _)|[(? & [=] & _)|[=]]]].
      destruct Hu as [->|(child & Hl & [->| ->])].
      * destruct Hq as [(? & ? & _ & [=] & _)|[(? & ? & _ & [=] & _)|Hq]].
        apply (artifact_may_go_inv "deployments" ".json") in Hq; [done|]. by apply (ends_with_last _ _ _ "g" "n").
      * destruct Hq as [Hq|[(? & ? & _ & [=] & _)|(? & [=] & _)]].
        apply (may_go_inv "roots") in Hq as [?|?]; [done|congruence|done].
      * destruct Hq as [(? & ? & _ & [=] & _)|[Hq|(? & [=] & _)]].
        apply (may_go_inv "kernels") in Hq as [?|?]; [done|congruence|done].
    + intros Hin. destruct Hu as [->|(child & Hl & [->| ->])];
        destruct (Hd _ Hin) as [(o & Ho & E & Hn)|(o & Ho & E & Hn)]; try discriminate E.
      * by apply (append_cut "roots/" _ o), name_not_path in E.
      * by apply (append_cut "kernels/" _ o), name_not_path in E.
  - intros Hin. destruct (Hf _ Hin) as [(? & [=] & _)|[(q & [= <-] & Hq)|[(? & [=] & _)|[=]]]].
    apply (artifact_may_go_inv "EFI/mica/kernels" ".efi") in Hq; [done|]. by apply (ends_with_last _ _ _ "l" "i").
Qed.

(** A collection never looks into the sets. *)
Lemma collection_spares_sets receipt keys retained incoming (d : device) c path :
  collection receipt keys retained incoming d = Ok c → spared c ("sets/" +:+ path).
Proof.
  intros H. destruct (collection_files _ _ _ _ _ _ H) as (own & p & _ & _ & Hf & Hd). split; intros Hin.
  - destruct (Hf _ Hin) as [(q & [= <-] & Hq)|[(? & [=] & _)|[(? & [=] & _)|[=]]]].
    by destruct Hq as [(? & ? & _ & [=] & _)|[(? & ? & _ & [=] & _)|(? & [=] & _)]].
  - by destruct (Hd _ Hin) as [(o & _ & [=] & _)|(o & _ & [=] & _)].
Qed.

(** ** Removing *)

(** A device during a collection of [c], of the entries [es]. *)
Definition collecting (c : Collection) (es : list Deployments.Entry) (d d' : device) : Prop :=
  (∀ path, spared c path → dv_system d' !! path = dv_system d !! path)
  ∧ (∀ path, EspFile path ∉ col_files c → dv_esp d' !! path = dv_esp d !! path)
  ∧ sw_state (dv_sets d') = sw_state (dv_sets d) ∧ sw_trial (dv_sets d') = sw_trial (dv_sets d)
  ∧ Deployments.entries_are (dv_store d) (dv_store d') es ∧ ubi d' = None.

Lemma each_step_safe {B} (f : B → M device unit) (l : list B) d (C : device → Prop) :
  (∀ b d, b ∈ l → C d → safe (f b d) (λ _ d', C d') C) → C d → safe (each_step f l d) (λ _ d', C d') C.
Proof.
  revert d. induction l as [|b l IH]; intros d Hf Hd; [by apply safe_ret|].
  eapply safe_step; [apply Hf; [by left|exact Hd]|done|].
  intros u d' Hd'. apply IH; [|exact Hd']. intros b' d'' Hb. apply Hf. by right.
Qed.

Lemma delete_other (p path : string) (t t0 : tree) :
  (p ≠ path → t !! p = t0 !! p) → p ≠ path → delete path t !! p = t0 !! p.
Proof. intros H Hne. rewrite lookup_delete_ne by done. by apply H. Qed.

Lemma remove_victim_safe c es d0 d v :
  (∀ name, EntryFile name ∈ col_files c → Deployments.is_entry_file name = false) →
  v ∈ col_files c → collecting c es d0 d →
  safe (remove_victim v d) (λ _ d', collecting c es d0 d') (collecting c es d0).
Proof.
  intros Hentry Hv Hc. pose proof Hc as (H1 & H2 & H3 & H4 & H5 & H6). destruct v as [path|path|name|path]; cbn.
  - apply safe_zoom. assert (Hd : collecting c es d0 (set_system (delete path (dv_system d)) d)).
    { split; [|split_and!; done]. intros p Hp. cbn. destruct (decide (p = path)) as [->|Hne].
      - by destruct Hp as [Hp _].
      - rewrite lookup_delete_ne by done. by apply H1. }
    eapply safe_mono; [apply remove_file_safe|by intros _ t ->|].
    intros t [->| ->]; [|exact Hd]. by destruct d as [? [] ? ?].
  - apply safe_zoom. assert (Hd : collecting c es d0 (set_esp (delete path (dv_esp d)) d)).
    { split; [done|]. split; [|split_and!; done]. intros p Hp. cbn. destruct (decide (p = path)) as [->|Hne]; [done|].
      rewrite lookup_delete_ne by done. by apply H2. }
    eapply safe_mono; [apply remove_file_safe|by intros _ t ->|].
    intros t [->| ->]; [|exact Hd]. by destruct d.
  - apply safe_zoom. unfold Deployments.in_directory.
    assert (Hself : collecting c es d0 (set_store (dv_store d) d)) by by destruct d.
    destruct H5 as (Hst & Hsv & Hes). unfold Deployments.in_service, Deployments.entries in Hsv, Hes.
    destruct (Deployments.w_boot (dv_store d)) as [[dir|]|r] eqn:Hb; [|done|by apply safe_lift].
    destruct (Deployments.remove_file name dir) as [dir'|e] eqn:Hr; [|by apply safe_lift].
    destruct Hsv as [es0 Hdir]. pose proof (Deployments.remove_other_entries _ _ _ _ Hdir (Hentry _ Hv) Hr) as Hdir'.
    assert (Hd : collecting c es d0 (set_store (Deployments.set_boot (Deployments.BackendUefi (Some dir')) (dv_store d)) d)).
    { split_and!; try done. split; [done|]. split; [by exists es0|].
      unfold Deployments.entries. cbn. destruct Hdir as [_ He], Hdir' as [_ He']. cbn in Hes. rewrite He in Hes. by rewrite He'. }
    apply safe_write; done.
  - apply safe_zoom. eapply safe_mono; [apply remove_file_safe|..]; intros; split_and!; done.
Qed.

Lemma remove_dir_safe c es d0 d path :
  path ∈ col_directories c → collecting c es d0 d →
  safe (on_system (remove_dir path) d) (λ _ d', collecting c es d0 d') (collecting c es d0).
Proof.
  intros Hp Hc. pose proof Hc as (H1 & H2 & H3 & H4 & H5 & H6). apply safe_zoom.
  assert (Hself : collecting c es d0 (set_system (dv_system d) d)) by by destruct d as [? [] ? ?].
  unfold remove_dir. destruct (is_nil _); [|by apply safe_lift].
  assert (Hd : collecting c es d0 (set_system (delete path (dv_system d)) d)).
  { split; [|split_and!; done]. intros p Hs. cbn. destruct (decide (p = path)) as [->|Hne].
    - by destruct Hs as [_ Hs].
    - rewrite lookup_delete_ne by done. by apply H1. }
  by apply safe_write.
Qed.

Lemma apply_collection_safe c es d0 d :
  (∀ name, EntryFile name ∈ col_files c → Deployments.is_entry_file name = false) →
  collecting c es d0 d →
  safe (apply_collection c d) (λ _ d', collecting c es d0 d') (collecting c es d0).
Proof.
  intros Hentry Hc.
  eapply safe_step; [apply each_step_safe; [|exact Hc]|done|]; [by intros; apply remove_victim_safe|].
  intros u d1 H1. eapply safe_step; [apply each_step_safe; [|exact H1]|done|]; [by intros; apply remove_dir_safe|].
  intros u' d2 H2. eapply safe_step with (R := λ _ d', collecting c es d0 d') (C' := collecting c es d0); [|done|].
  - destruct H2 as (?&?&?&?&?&Hu). rewrite Hu. by apply safe_ret.
  - intros u'' d3 H3. by apply safe_ret.
Qed.

End spec.

(** * Boards without a UBI device *)

Section store.
Context {CR : Crypto} {JS : Json} {CD : Codec Deployment} {A U : Type} {HA : Records A} {HU : Records U} {UD : UbiDevice U}
  (envelope_parse : bytes → option Envelope) (envelope_print : Envelope → bytes)
  (boot_trust : Deployments.BootTrust).
#[local] Existing Instance both.
#[local] Notation device := (device (A + U)).
#[local] Notation collect_unreachable := (collect_unreachable envelope_parse envelope_print boot_trust).

(** Keeping every entry changes none. *)
Lemma keep_all_safe c (d : device) es :
  Deployments.in_service (dv_store d) → Deployments.entries (dv_store d) = Ok es → es ≠ [] → ubi d = None →
  safe (in_store (Deployments.retain_entries es (map (λ e, Some (Deployments.e_id e)) es)) d)
    (λ _ d', collecting c es d d') (collecting c es d).
Proof.
  intros Hs He Hne Hu. set (keep := map _ es).
  assert (Hall : ∀ e, e ∈ es → Deployments.keeps keep (Deployments.e_id e) = true).
  { intros e Hin. apply bool_decide_eq_true. apply list_elem_of_fmap. by exists e. }
  assert (Hkept : ∀ p, List.filter (λ e, Deployments.keeps keep (Deployments.e_id e) || p e) es = es).
  { intros p. apply Deployments.filter_all, Forall_forall. intros e Hin. by rewrite Hall. }
  destruct (Deployments.retain_spec (dv_store d) es es keep Hs He) as [Hsafe _].
  - exact (Deployments.entries_ids _ _ Hs He).
  - done.
  - destruct es as [|e es']; [done|]. exists e. split; [by left|]. apply Hall. by left.
  - apply no_ubi_device in Hu. pose proof (retain_no_ubi es keep _ Hu) as Hno.
    assert (Hc : ∀ w, Deployments.entries_are (dv_store d) w es ∧ no_ubi w → collecting c es d (set_store w d)).
    { intros w [Hw Hw']. split; [done|]. split; [done|]. split; [done|]. split; [done|]. split; [exact Hw|].
      by apply no_ubi_device. }
    apply safe_zoom. eapply safe_mono; [exact (safe_and _ _ _ _ _ Hsafe Hno)|..].
    + intros u w [Hw Hw']. apply Hc. split; [|done].
      assert (E : Deployments.kept_only keep es = es); [|by rewrite E in Hw].
      unfold Deployments.kept_only. rewrite <- (Hkept (λ _, false)) at 2. apply List.filter_ext.
      intros e. by rewrite orb_false_r.
    + intros w [(es' & Hw & p & Hp) Hw']. apply Hc. split; [|done]. by rewrite Hp, Hkept in Hw.
Qed.

Lemma collecting_refl c es (d : device) :
  Deployments.in_service (dv_store d) → Deployments.entries (dv_store d) = Ok es → ubi d = None → collecting c es d d.
Proof. intros Hs He Hu. split; [done|]. split; [done|]. split; [done|]. split; [done|]. done. Qed.

(** A whole collection: at every power cut, on every error, either nothing was
    chosen yet, or only what was chosen is gone. *)
Lemma collect_unreachable_safe receipt keys (d : device) es st :
  Deployments.in_service (dv_store d) → Deployments.entries (dv_store d) = Ok es → es ≠ [] → ubi d = None →
  Deployments.effective_state (dv_store d) = Ok st →
  let named := option_list (Deployments.current st) ++ option_list (Deployments.fallback st)
               ++ option_list (Deployments.candidate st) in
  let retained := list_to_set (Deployments.rc_deployment_id receipt :: named ++ map Deployments.e_id es) in
  let after d' := d' = d ∨ ∃ c, collection envelope_parse envelope_print boot_trust receipt keys retained None d = Ok c
                              ∧ collecting c es d d' in
  safe (collect_unreachable receipt keys d) (λ _ d', after d') after.
Proof.
  intros Hs He Hne Hu Hst named retained after.
  assert (Hself : after d) by by left.
  apply safe_read; [done|]. intros st' E. rewrite Hst in E. injection E as <-.
  apply safe_read; [done|]. intros es' E. rewrite He in E. injection E as <-.
  apply safe_read; [done|]. intros c Hc. apply safe_read; [done|]. intros es' E. rewrite He in E. injection E as <-.
  assert (Hafter : ∀ d', collecting c es d d' → after d') by (intros d' Hd'; right; eauto).
  eapply safe_step; [by apply (keep_all_safe c)|exact Hafter|]. intros u d1 H1.
  eapply safe_mono; [apply (apply_collection_safe c es d)|..]; [|exact H1|by intros; apply Hafter..].
  intros name Hn. destruct (collection_files _ _ _ _ _ _ _ _ _ Hc) as (own & p & _ & _ & Hf & _).
  by destruct (Hf _ Hn) as [(? & [=] & _)|[(? & [=] & _)|[(? & [= ->] & ?)|[=]]]].
Qed.

End store.

(** * Sample: a UEFI device with one confirmed deployment, a stale root and an
    interrupted write *)

Definition collect_dir : list Deployments.dirent :=
  [{| Deployments.d_name := str_bytes ("mica-" +:+ Deployments.sample_id +:+ ".conf");
      Deployments.d_node := Deployments.esp_file "7" |};
   {| Deployments.d_name := str_bytes ("mica-" +:+ Deployments.sample_id +:+ ".pending");
      Deployments.d_node := Deployments.esp_file "7" |}].
Definition collect_receipt : Deployments.BootReceipt :=
  {| Deployments.rc_backend := Uefi; Deployments.rc_deployment_id := Deployments.sample_id;
     Deployments.rc_entry := "mica-" +:+ Deployments.sample_id +:+ ".conf"; Deployments.rc_kernel_id := sample_hex;
     Deployments.rc_rootfs_id := sample_hex; Deployments.rc_content_verified := true;
     Deployments.rc_secure_boot := true; Deployments.rc_boot_verified := true |}.
Definition collect_entries : list Deployments.Entry :=
  [{| Deployments.e_id := Deployments.sample_id; Deployments.e_file := "mica-" +:+ Deployments.sample_id +:+ ".conf";
      Deployments.e_generation := 7; Deployments.e_tries := None |}].
Definition collect_state : Deployments.State :=
  {| Deployments.highest_generation := 7; Deployments.current := Some Deployments.sample_id;
     Deployments.fallback := None; Deployments.candidate := None; Deployments.failed := [] |}.
Definition stale_root : string := "roots/" +:+ Deployments.candidate_id +:+ "/rootfs.img".
Definition sample_kernel : string := "kernels/" +:+ sample_hex +:+ "/support.img".
Definition collect_device : device (region + bench) :=
  {| dv_store := {| Deployments.w_state := Holds collect_state;
                    Deployments.w_boot := Deployments.BackendUefi (Some collect_dir) |};
     dv_sets := {| sw_state := Absent;
                   sw_system := {[descriptor_path Deployments.sample_id := Regular (str_bytes "e");
                                  stale_root := Regular []; sample_kernel := Regular []]};
                   sw_trial := Absent; sw_meta_writable := true |};
     dv_esp := {["EFI/mica/kernels/" +:+ sample_hex +:+ ".efi" := Regular []]}; dv_meta := ∅ |}.
Definition collect_store : Records (region + bench) :=
  both (HA := fit_records sample_layout) (HU := ubi_records (UD := bench_device)).

Lemma collect_device_ok :
  Deployments.in_service (HR := collect_store) (dv_store collect_device)
  ∧ Deployments.entries (HR := collect_store) (dv_store collect_device) = Ok collect_entries
  ∧ Deployments.effective_state (HR := collect_store) (dv_store collect_device) = Ok collect_state.
Proof.
  split; [|split; vm_compute; reflexivity].
  exists collect_entries. split; [|vm_compute; reflexivity]. apply (bool_decide_unpack _). vm_compute. exact I.
Qed.

(** * Properties *)

(** A collection never removes what a retained deployment uses. At every
    power cut and on every error of [collect], on a board without UBI: the boot
    entries, the state document and the sets' documents are as they were, no
    path of the sets is touched, and for the running deployment, the current,
    fallback and candidate ones and every one with an entry, its descriptor, the
    files of its root and kernel (interrupted writes apart) and its boot file on
    the ESP are as they were. *)
Theorem collect_keeps_retained {CR : Crypto} {JS : Json} {CD : Codec Deployment} {A U : Type} {HA : Records A}
    {HU : Records U} {UD : UbiDevice U} envelope_parse envelope_print boot_trust receipt keys (d : device (A + U)) es st :
  Deployments.in_service (HR := both) (dv_store d) → Deployments.entries (HR := both) (dv_store d) = Ok es →
  es ≠ [] → ubi d = None → Deployments.effective_state (HR := both) (dv_store d) = Ok st →
  ∀ d', durable (collect_unreachable (HR := both) envelope_parse envelope_print boot_trust receipt keys d) d' →
  Deployments.entries (HR := both) (dv_store d') = Ok es
  ∧ Deployments.w_state (dv_store d') = Deployments.w_state (dv_store d)
  ∧ sw_state (dv_sets d') = sw_state (dv_sets d)
  ∧ (∀ path, dv_system d' !! ("sets/" +:+ path) = dv_system d !! ("sets/" +:+ path))
  ∧ ∀ the_id x,
      the_id = Deployments.rc_deployment_id receipt ∨ Deployments.current st = Some the_id
      ∨ Deployments.fallback st = Some the_id ∨ Deployments.candidate st = Some the_id
      ∨ the_id ∈ map Deployments.e_id es →
      read_descriptor envelope_parse envelope_print keys (dv_system d) the_id = Ok x →
      (∀ path, uses the_id x path → dv_system d' !! path = dv_system d !! path)
      ∧ let efi := "EFI/mica/kernels/" +:+ k_id (d_kernel x) +:+ ".efi" in dv_esp d' !! efi = dv_esp d !! efi.
Proof.
  intros Hs He Hne Hu Hst d' Hd'.
  pose proof (collect_unreachable_safe envelope_parse envelope_print boot_trust receipt keys d es st Hs He Hne Hu Hst) as H.
  destruct (safe_durable _ _ _ H d' Hd') as [->|(c & Hc & H1 & H2 & H3 & _ & (H4 & _ & H5) & _)]; [done|].
  split; [exact H5|]. split; [exact H4|]. split; [exact H3|]. split.
  { intros path. apply H1. exact (collection_spares_sets (A := A) (HR := both) envelope_parse envelope_print boot_trust _ _ _ _ _ _ path Hc). }
  intros the_id x Hid Hx. edestruct (collection_spares (A := A) (HR := both) envelope_parse envelope_print boot_trust receipt keys)
    as [Hsp Hesp]; [exact Hc| |exact Hx|].
  - apply elem_of_list_to_set, elem_of_cons. destruct Hid as [?|Hid]; [by left|right].
    rewrite !elem_of_app, !elem_of_option_list. tauto.
  - split; [intros path Hp; by apply H1, Hsp|]. by apply H2.
Qed.

Lemma collect_keeps_retained_witness :
  let collect := collect_unreachable (CR := sample_crypto) (JS := sample_json) (CD := sample_codec sample_deployment)
    (HR := collect_store) (UD := bench_device) (λ _, Some sample_envelope) (λ _, str_bytes "e")
    Deployments.TrustNone collect_receipt [str_bytes "key"] in
  let o := collect collect_device in
  o_result o = Ok 2 ∧ dv_system collect_device !! stale_root = Some (Regular [])
  ∧ dv_system (o_state o) !! stale_root = None ∧ dv_system (o_state o) !! sample_kernel = Some (Regular []).
Proof.
  intros collect o. split; [vm_compute; reflexivity|]. split; [vm_compute; reflexivity|].
  split; [vm_compute; reflexivity|].
  destruct collect_device_ok as (Hs & He & Hst).
  destruct (collect_keeps_retained (CR := sample_crypto) (JS := sample_json) (CD := sample_codec sample_deployment)
    (HA := fit_records sample_layout) (HU := ubi_records (UD := bench_device)) (UD := bench_device)
    (λ _, Some sample_envelope) (λ _, str_bytes "e") Deployments.TrustNone collect_receipt [str_bytes "key"]
    collect_device collect_entries collect_state Hs He) with (d' := o_state o) as (_ & _ & _ & _ & H);
    [discriminate|reflexivity|exact Hst|by left|].
  destruct (H Deployments.sample_id sample_deployment) as [H1 _]; [by left|vm_compute; reflexivity|].
  rewrite (H1 sample_kernel); [vm_compute; reflexivity|]. right. exists "support.img".
  split; [vm_compute; reflexivity|by right].
Defined.

End Collect.
