(* ===== verification/CoreChoice.v ===== *)
(** Which core set a new deployment boots with
    ([src/crates/mica-deploy/src/deployments/install.rs], [newer_image_set],
    [image_set] and [core_choice]). *)
From S2P Require Import Prelude Text Files Boot Components UpdateSet SetState CoreSet Objects.
Import Files Boot Components UpdateSet SetState CoreSet Objects.

Module CoreChoice.

(** What installation asks of the device ([deployments.rs], [Target]). *)
Record Target := {
  t_board : string;
  t_arch : string;
  t_product : string;
  t_features : list string;
}.

(** The device's set unchanged, or a newer general one as one pair. *)
Inductive CoreChoice :=
| Keep
| Pair (the_id : string) (set : UpdateSet) (envelope : bytes).

Section choice.
Context {CR : Crypto} {JS : Json} {CS : Codec UpdateSet}
  (envelope_parse : bytes → option Envelope) (envelope_print : Envelope → bytes).

(** The image's set, when a system update takes a newer one. *)
Definition newer_image_set (x : Deployment) (keys : list key) (arch : string) (w : sets_world) :
    result (option CoreSetRef) :=
  match d_core_set x with
  | Some image =>
      if bool_decide (cs_channel image = GENERAL) then
        let? s := read_state w in
        match ss_current s with
        | None => Ok None
        | Some current =>
            let? loaded := load_set envelope_parse envelope_print Core current keys arch w in
            Ok (if bool_decide (us_channel loaded.1 = GENERAL)
                   && (us_generation loaded.1 <? cs_generation image)
                then Some image else None)
        end
      else Ok None
  | None => Ok None
  end.

(** The set an image names, from its envelope among the objects. *)
Definition image_set (image : CoreSetRef) (objects : tree) (keys : list key) (arch : string) :
    result (UpdateSet * bytes) :=
  let artifact := {| a_bytes := cs_bytes image; a_sha256 := cs_sha256 image |} in
  let? _ := verify_file objects (cs_sha256 image) artifact in
  let? envelope := read_bounded objects (cs_sha256 image) MAX_ENVELOPE in
  let? set := authenticate envelope_parse envelope_print envelope keys in
  ensure bool_decide (set_id set = cs_id image) && bool_decide (us_kind set = Core)
         && bool_decide (us_channel set = cs_channel image) && (us_generation set =? cs_generation image)
         && bool_decide (us_arch set = arch)
    else "the deployment's core set differs from what it names" in
  Ok (set, envelope).

(** The channel's latest set, when it is a general one at or above the image's. *)
Definition latest_set (image : CoreSetRef) (latest : option bytes) (keys : list key) (arch : string) :
    result (option (bytes * UpdateSet)) :=
  match latest with
  | None => Ok None
  | Some envelope =>
      let? set := authenticate envelope_parse envelope_print envelope keys in
      Ok (if bool_decide (us_kind set = Core) && bool_decide (us_arch set = arch)
             && bool_decide (us_channel set = GENERAL) && (cs_generation image <=? us_generation set)
          then Some (envelope, set) else None)
  end.

Definition core_choice (x : Deployment) (keys : list key) (target : Target) (objects : tree)
    (latest : option bytes) (w : sets_world) : result CoreChoice :=
  let root := facts (d_rootfs x) in
  let? cores := read_state w in
  ensure bool_decide (ss_pending cores = None) else "a set is on trial; let it settle before a system update" in
  let? current := with_context (ss_current cores) "this device holds no core set; install one first" in
  let? newer := newer_image_set x keys (t_arch target) w in
  match newer with
  | None =>
      let? loaded := load_set envelope_parse envelope_print Core current keys (t_arch target) w in
      let? _ := selected loaded.1 (t_features target) root in
      Ok Keep
  | Some image =>
      let? own := image_set image objects keys (t_arch target) in
      let? newest := latest_set image latest keys (t_arch target) in
      let of_image :=
        match select own.1 (t_features target) root with
        | inr _ => Ok (Pair (cs_id image) own.1 own.2)
        | inl _ => Err (Msg "no general core set runs on this deployment's root")
        end in
      match newest with
      | Some (envelope, set) =>
          match select set (t_features target) root with
          | inr _ => Ok (Pair (set_id set) set envelope)
          | inl _ => of_image
          end
      | None => of_image
      end
  end.

(** * Lemmas *)

Lemma load_set_ok kind the_id keys arch w set envelope :
  load_set envelope_parse envelope_print kind the_id keys arch w = Ok (set, envelope) →
  read_bounded (sw_system w) (set_path kind the_id) MAX_ENVELOPE = Ok envelope
  ∧ authenticate envelope_parse envelope_print envelope keys = Ok set
  ∧ set_id set = the_id ∧ us_kind set = kind ∧ us_arch set = arch ∧ hex_id the_id = true.
Proof.
  unfold load_set. intros H. apply rbind_unit in H as [Hid H]. apply rbind_ok in H as (e & He & H).
  apply rbind_ok in H as (s & Hs & H). destruct (bool_decide (set_id s = the_id)) eqn:E1; [|done].
  destruct (bool_decide (us_kind s = kind)) eqn:E2; [|done]. destruct (bool_decide (us_arch s = arch)) eqn:E3; [|done].
  injection H as <- <-. bools. apply valid_id_hex in Hid. done.
Qed.

Lemma image_set_ok image objects keys arch set envelope :
  image_set image objects keys arch = Ok (set, envelope) →
  authenticate envelope_parse envelope_print envelope keys = Ok set
  ∧ set_id set = cs_id image ∧ us_channel set = cs_channel image
  ∧ us_generation set = cs_generation image ∧ us_arch set = arch.
Proof.
  unfold image_set. intros H. apply rbind_unit in H as [_ H]. apply rbind_ok in H as (e & _ & H).
  apply rbind_ok in H as (s & Hs & H). destruct (_ && _) eqn:E; [|done]. injection H as <- <-. bools. done.
Qed.

(** What a choice rests on, of the set [held] by the device. *)
Definition sound_choice (x : Deployment) (keys : list key) (target : Target) (held : UpdateSet)
    (choice : CoreChoice) : Prop :=
  match choice with
  | Keep => ∃ l, select held (t_features target) (facts (d_rootfs x)) = inr l
  | Pair the_id set envelope =>
      authenticate envelope_parse envelope_print envelope keys = Ok set ∧ set_id set = the_id
      ∧ us_arch set = t_arch target ∧ us_channel set = GENERAL ∧ us_channel held = GENERAL
      ∧ us_generation held < us_generation set
      ∧ (∃ image, d_core_set x = Some image ∧ cs_generation image ≤ us_generation set)
      ∧ ∃ l, select set (t_features target) (facts (d_rootfs x)) = inr l
  end.

End choice.

(** * Properties *)

(** The core set a new deployment boots with. It is chosen only when no set
    is on trial and the device holds one. Keeping the device's set is chosen
    only when that set authenticates and runs on the new root. A pair is chosen
    only for a device that follows the general channel, and names an
    authenticated set of its own digest, of the device's architecture, in the
    general channel, of a generation above the device's and at least the image's,
    that runs on the new root. Core is never downgraded. *)
Theorem core_choice_sound {CR : Crypto} {JS : Json} {CS : Codec UpdateSet}
    envelope_parse envelope_print x keys target objects latest w choice :
  core_choice envelope_parse envelope_print x keys target objects latest w = Ok choice →
  ∃ s current held e, read_state w = Ok s ∧ ss_pending s = None ∧ ss_current s = Some current
  ∧ load_set envelope_parse envelope_print Core current keys (t_arch target) w = Ok (held, e)
  ∧ sound_choice envelope_parse envelope_print x keys target held choice.
Proof.
  intros H. unfold core_choice in H. apply rbind_ok in H as (s & Hs & H).
  destruct (bool_decide (ss_pending s = None)) eqn:Hp; [|done]. bools.
  apply rbind_ok in H as (current & Hcur & H). apply with_context_ok in Hcur.
  apply rbind_ok in H as (newer & Hn & H). exists s, current. destruct newer as [image|]; cbn [rbind] in H.
  - unfold newer_image_set in Hn. destruct (d_core_set x) as [image'|] eqn:Hx; [|done].
    destruct (bool_decide (cs_channel image' = GENERAL)) eqn:Hg; [|done]. rewrite Hs in Hn. cbn [rbind] in Hn.
    rewrite Hcur in Hn. apply rbind_ok in Hn as ([held e] & Hl & Hn). cbn [fst] in Hn.
    destruct (_ && _) eqn:Hgen; [|done]. injection Hn as ->. bools.
    exists held, e. split; [done|]. split; [done|]. split; [done|]. split; [done|].
    apply rbind_ok in H as ([own envelope] & Hown & H). apply rbind_ok in H as (newest & Hnew & H).
    apply image_set_ok in Hown as (Ha & Hid & Hch & Hgn & Har). cbn [fst snd] in H.
    set (of_image := match select own _ _ with inr _ => _ | inl _ => _ end) in H.
    assert (Hown' : of_image = Ok choice → sound_choice envelope_parse envelope_print x keys target held choice).
    { unfold of_image. destruct (select own _ _) eqn:Hsel; [done|]. intros [= <-]. cbn.
      split; [exact Ha|]. split; [exact Hid|]. split; [exact Har|]. split; [congruence|]. split; [done|].
      split; [lia|]. split; [exists image; split; [done|lia]|by eexists]. }
    destruct newest as [[latest' set]|]; [|exact (Hown' H)].
    destruct (select set _ _) as [|l] eqn:Hsel; [exact (Hown' H)|]. injection H as <-.
    unfold latest_set in Hnew. destruct latest as [le|]; [|done]. apply rbind_ok in Hnew as (set' & Ha' & Hnew).
    destruct (_ && _) eqn:Hc; [|done]. injection Hnew as <- <-. bools.
    split; [done|]. split; [done|]. split; [done|]. split; [done|]. split; [done|]. split; [lia|].
    split; [exists image; split; [done|lia]|by exists l].
  - apply rbind_ok in H as ([held e] & Hl & H). apply rbind_ok in H as (cores & Hsel & H). injection H as <-.
    exists held, e. split; [done|]. split; [done|]. split; [done|]. split; [done|].
    exists cores. unfold selected in Hsel. cbn [fst] in Hsel. destruct (select held _ _); [done|]. by injection Hsel as ->.
Qed.

Definition choice_sets : sets_world :=
  {| sw_state := Holds {| ss_current := Some sample_hex; ss_pending := None; ss_pair := None; ss_bound := ∅ |};
     sw_system := {[set_path Core sample_hex := Regular (str_bytes "e")]};
     sw_trial := Absent; sw_meta_writable := true |}.
Definition sample_target : Target :=
  {| t_board := "x86-64"; t_arch := "amd64"; t_product := "mica"; t_features := ["base"] |}.

Lemma core_choice_sound_witness :
  let choose := core_choice (CR := sample_crypto) (JS := sample_json) (CS := sample_codec sample_set)
    (λ _, Some sample_envelope) (λ _, str_bytes "e") sample_deployment [str_bytes "key"] sample_target ∅ None in
  choose choice_sets = Ok Keep
  ∧ ∃ l, select sample_set (t_features sample_target) (facts (d_rootfs sample_deployment)) = inr l.
Proof.
  intros choose. assert (H : choose choice_sets = Ok Keep) by (vm_compute; reflexivity). split; [exact H|].
  destruct (core_choice_sound (CR := sample_crypto) (JS := sample_json) (CS := sample_codec sample_set)
    (λ _, Some sample_envelope) (λ _, str_bytes "e") sample_deployment [str_bytes "key"] sample_target ∅ None
    choice_sets Keep H) as (s & cur & held & e & _ & _ & _ & Hl & Hk).
  assert (E : held = sample_set).
  { apply load_set_ok in Hl as (_ & Ha & _). unfold authenticate, parse in Ha. checks Ha.
    injection Ha as <-. match goal with Hv : from_value _ = Some _ |- _ => by injection Hv end. }
  rewrite E in Hk. exact Hk.
Defined.

End CoreChoice.
