(* ===== verification/InstallSet.v ===== *)
(** Publishing and installing a signed set
    ([src/crates/mica-deploy/src/deployments/sets.rs], [publish_set] and
    [install_set]): the objects measured and the space checked, everything
    published, then the trial and the document that names it. *)
From Stdlib Require Import Ascii.
From S2P Require Import Prelude Text Files Boot FitEnv RecordStore Deployments Components UpdateSet SetState Ubi CoreSet Objects SetSettle CoreChoice Collect.
Import Files Boot FitEnv RecordStore Components UpdateSet SetState Ubi CoreSet Objects SetSettle CoreChoice Collect.

Module InstallSet.

(** * Space *)

(** The filesystems installation writes. *)
Inductive Mount := MountSystem | MountEsp.

(** [statvfs]: free blocks and their size, the inodes and those free. *)
Record Space := { f_bavail : Z; f_frsize : Z; f_files : Z; f_favail : Z }.

(** What installation keeps free ([board.rs], [Reserves]). *)
Definition MIB : Z := 1048576.
Record Reserves := { rv_system : option Z; rv_esp : option Z; rv_data : option Z }.
Definition system_reserve (r : Reserves) : Z := default (128 * MIB) (rv_system r).
Definition esp_reserve (r : Reserves) : Z := default (64 * MIB) (rv_esp r).

(** The bytes of the objects to write on SYSTEM and the ESP, and the erase
    blocks of those in volumes. *)
Record Sizes := { sz_system : Z; sz_esp : Z; sz_lebs : Z }.

(** The running device's side of a set's suitability. *)
Record SetTarget := { st_arch : string; st_features : list string; st_root : RootFacts }.

Section install.
Context {CR : Crypto} {JS : Json} {CS : Codec UpdateSet} {A U : Type} {HR : Records (A + U)} {UD : UbiDevice U}
  (envelope_parse : bytes → option Envelope) (envelope_print : Envelope → bytes).
#[local] Notation device := (device (A + U)).
Context (statvfs : Mount → device → result Space) (reserves : Reserves).

(** Hold what is there to its artifact, and measure what is missing, each of
    whose sources must be whole. *)
Fixpoint measure (objects : tree) (files : list (Place * Artifact)) (sizes : Sizes) (d : device) : result Sizes :=
  match files with
  | [] => Ok sizes
  | (place, a) :: rest =>
      let? there := held place d in
      if (there : bool) then
        let? _ := verify_held place a d in
        measure objects rest sizes d
      else
        let? _ := verify_file objects (a_sha256 a) a in
        let sizes' :=
          match place, ubi d with
          | InVolume _, Some u =>
              {| sz_system := sz_system sizes; sz_esp := sz_esp sizes;
                 sz_lebs := wrap64 (sz_lebs sizes + lebs u (a_bytes a)) |}
          | OnSystem _, _ =>
              {| sz_system := wrap64 (sz_system sizes + a_bytes a); sz_esp := sz_esp sizes; sz_lebs := sz_lebs sizes |}
          | _, _ =>
              {| sz_system := sz_system sizes; sz_esp := wrap64 (sz_esp sizes + a_bytes a); sz_lebs := sz_lebs sizes |}
          end in
        measure objects rest sizes' d
  end.

(** Enough blocks and inodes on a filesystem, [reclaimed] counted as free. *)
Definition room (space : Space) (reclaimed b reserve : Z) : result unit :=
  ensure wrap64 (b + reserve) <=? wrap64 (wrap64 (f_bavail space * f_frsize space) + reclaimed)
    else "insufficient destination space" in
  ensure (f_files space =? 0) || (32 <=? f_favail space) else "insufficient destination inodes" in
  Ok tt.

(** On UBI the reserve is kept in the device's free erase blocks. *)
Definition ubi_room (reclaimed needed : Z) (message : string) (d : device) : result unit :=
  match ubi d with
  | None => Ok tt
  | Some u =>
      let? free := available_lebs u in
      ensure wrap64 (needed + lebs u (system_reserve reserves)) <=? wrap64 (free + reclaimed)
        else message in
      Ok tt
  end.

(** The reserve kept on SYSTEM's own filesystem. *)
Definition system_reserve_of (d : device) : Z :=
  match ubi d with Some _ => 0 | None => system_reserve reserves end.

(** * Publishing *)

Definition publish_all (objects : tree) (files : list (Place * Artifact)) : M device unit :=
  each_step (λ f, publish objects f.1 f.2) files.

(** A small file written once: one that is there must be the same. *)
Definition write_once (path : string) (content : bytes) (limit : Z) (message : string) : M tree unit := λ t,
  if path_exists path t then
    slift (λ t, let? b := read_bounded t path limit in
                ensure bool_decide (b = content) else message in Ok tt) t
  else atomic_write path content t.

Definition root_hash_path (kind : SetKind) (core : CoreComponent) : string :=
  component_dir kind (c_id core) +:+ "/core.roothash".

Definition publish_set (s : UpdateSet) (envelope : bytes) (objects : tree) : M device unit :=
  let! files := slift (λ d, Ok (set_objects d s)) in
  let! sizes := slift (measure objects files {| sz_system := len envelope; sz_esp := 0; sz_lebs := 0 |}) in
  let! _ := on_system (directory "") in
  let! space := slift (statvfs MountSystem) in
  let! _ := slift (ubi_room 0 (sz_lebs sizes) "insufficient UBI space") in
  let! _ := slift (λ d, room space 0 (sz_system sizes) (system_reserve_of d)) in
  let! _ := publish_all objects files in
  let! _ := each_step (λ core, on_system (write_once (root_hash_path (us_kind s) core)
              (str_bytes (vi_root_hash (c_content core))) 64 "existing root hash differs")) (us_components s) in
  let! _ := on_system (directory (kind_dir (us_kind s))) in
  on_system (write_once (set_path (us_kind s) (set_id s)) envelope MAX_ENVELOPE "set ID was reused").

(** * Installing *)

(** The conditions on a set before anything is written: the set, and the
    document it is installed over. *)
Definition set_admissible (envelope : bytes) (keys : list key) (target : SetTarget) (d : device) :
    result (UpdateSet * SetState) :=
  let? s := authenticate envelope_parse envelope_print envelope keys in
  ensure bool_decide (us_arch s = st_arch target) else "set targets another architecture" in
  let? st := Deployments.effective_state (dv_store d) in
  ensure bool_decide (Deployments.candidate st = None)
    else "a deployment is on trial; confirm it before a set update" in
  let? state := read_state (dv_sets d) in
  ensure bool_decide (ss_pending state = None) else "another set is pending" in
  ensure negb (bool_decide (ss_current state = Some (set_id s))) else "set is installed" in
  let? _ := match ss_current state with
            | None => Ok tt
            | Some current =>
                let? loaded := load_set envelope_parse envelope_print (us_kind s) current keys (st_arch target) (dv_sets d) in
                ensure negb (bool_decide (us_channel loaded.1 = us_channel s))
                       || (us_generation loaded.1 <? us_generation s)
                  else "set generation is not newer" in
                Ok tt
            end in
  let? _ := selected s (st_features target) (st_root target) in
  Ok (s, state).

(** The document of a set alone on trial. *)
Definition set_alone (the_id : string) (retained : gset string) (s : SetState) : SetState :=
  {| ss_current := ss_current s; ss_pending := Some the_id; ss_pair := None;
     ss_bound := filter (λ p, p.1 ∈ retained) (ss_bound s) |}.

Definition install_set (envelope : bytes) (keys : list key) (target : SetTarget) (objects : tree) :
    M device SetState :=
  let! admitted := slift (set_admissible envelope keys target) in
  let '(s, state) := admitted in
  let! _ := publish_set s envelope objects in
  let! retained := slift (retained_deployments None) in
  let! _ := in_sets (start_trial (us_kind s) (set_id s)) in
  let state' := set_alone (set_id s) retained state in
  let! _ := in_sets (write_state state') in
  sret state'.

End install.

(** * Lemmas *)

(** A name no interrupted write uses. *)
Definition stable (path : string) : Prop :=
  ends_with ".partial" path = false ∧ ends_with ".pending" path = false.

(** Every stable name that was there still names what it named. *)
Definition survives (t t' : tree) : Prop := ∀ p n, stable p → t !! p = Some n → t' !! p = Some n.

Lemma survives_refl t : survives t t.
Proof. by intros p n. Qed.
Lemma survives_trans t1 t2 t3 : survives t1 t2 → survives t2 t3 → survives t1 t3.
Proof. intros H1 H2 p n Hs Hp. by apply H2, H1. Qed.

Lemma with_extension_ends path ext : ends_with ("." +:+ ext) (with_extension path ext) = true.
Proof.
  unfold with_extension. destruct (match rsplit_once "/" path with Some _ => _ | None => _ end) as [dir file].
  set (stem := match rsplit_once "." file with Some _ => _ | None => _ end).
  apply bool_decide_eq_true. exists (dir +:+ stem). apply strip_suffix_spec. by rewrite append_assoc.
Qed.

Lemma stable_not_partial path q : stable path → path ≠ with_extension q "partial".
Proof. intros [H _] ->. pose proof (with_extension_ends q "partial" : ends_with ".partial" _ = true). congruence. Qed.
Lemma stable_not_pending path q : stable path → path ≠ with_extension q "pending".
Proof. intros [_ H] ->. pose proof (with_extension_ends q "pending" : ends_with ".pending" _ = true). congruence. Qed.

Lemma dirs_survive paths t t' : with_dirs paths t t' → survives t t'.
Proof. intros H p n _ Hp. destruct (H p) as [->|(_ & ? & _)]; congruence. Qed.

Lemma publishing_survives {CR : Crypto} path a t t' : publishing path a t t' → survives t t'.
Proof.
  intros H p n Hs Hp. destruct (H p) as [->|[? _]]; [by apply stable_not_partial|done|congruence].
Qed.

Lemma write_once_safe path content limit message t0 t :
  stable path → survives t0 t →
  safe (write_once path content limit message t)
    (λ _ t', t' !! path = Some (Regular content) ∧ survives t0 t') (survives t0).
Proof.
  intros Hs Ht. unfold write_once. destruct (path_exists path t) eqn:E.
  { apply safe_lift; [exact Ht|]. intros u H. split; [|exact Ht].
    unfold read_bounded, read_node in H. destruct (t !! path) as [[b| |]|]; cbn in H; try done.
    destruct (_ <=? _); cbn in H; [|done]. case_bool_decide; [by subst|done]. }
  assert (Hn : t !! path = None).
  { apply orb_false_iff in E as [E _]. bools. by apply eq_None_not_Some. }
  assert (Hnp : not_pending path) by by apply stable_not_pending.
  assert (Hr : ∀ t', replacing path (with_extension path "pending") content t t' → survives t0 t').
  { intros t' [_ Hq] p n Hp Hpn. apply Ht in Hpn; [|done].
    rewrite Hq; [done|by intros ->; congruence|by apply stable_not_pending]. }
  pose proof (atomic_write_safe path content t Hnp) as H.
  eapply safe_mono with (Q := λ _ t', t' !! path = Some (Regular content) ∧ replacing path (with_extension path "pending") content t t');
    [|by intros u t' [? ?]; auto|exact Hr].
  destruct H as (H1 & H2 & H3). split; [|by split]. intros u Hu. split; [by apply (H1 u)|exact H2].
Qed.

(** ** Publishing, on the device *)

Section publishing.
Context {CR : Crypto} {A U : Type} {HR : Records (A + U)} {UD : UbiDevice U}.
#[local] Notation device := (device (A + U)).

(** Only files are added: the documents and the boot entries are as they were,
    and no stable name is lost. *)
Definition only_adds (d d' : device) : Prop :=
  dv_store d' = dv_store d ∧ sw_state (dv_sets d') = sw_state (dv_sets d)
  ∧ sw_trial (dv_sets d') = sw_trial (dv_sets d) ∧ sw_meta_writable (dv_sets d') = sw_meta_writable (dv_sets d)
  ∧ survives (dv_system d) (dv_system d') ∧ survives (dv_esp d) (dv_esp d').

Lemma only_adds_refl d : only_adds d d.
Proof. split; [done|]. split; [done|]. split; [done|]. split; [done|]. split; apply survives_refl. Qed.

Lemma only_adds_trans d1 d2 d3 : only_adds d1 d2 → only_adds d2 d3 → only_adds d1 d3.
Proof.
  intros (A1 & A2 & A3 & A4 & A5 & A6) (B1 & B2 & B3 & B4 & B5 & B6).
  split; [congruence|]. split; [congruence|]. split; [congruence|]. split; [congruence|].
  split; by eapply survives_trans.
Qed.

Lemma only_adds_system d t : survives (dv_system d) t → only_adds d (set_system t d).
Proof. intros H. split; [done|]. split; [done|]. split; [done|]. split; [done|]. split; [exact H|apply survives_refl]. Qed.

Lemma only_adds_esp d t : survives (dv_esp d) t → only_adds d (set_esp t d).
Proof. intros H. split; [done|]. split; [done|]. split; [done|]. split; [done|]. split; [apply survives_refl|exact H]. Qed.

(** A place on a filesystem, under a stable name. *)
Definition file_place (p : Place) : Prop :=
  match p with OnSystem path | OnEsp path => stable path | InVolume _ => False end.

(** The artifact is there, whole and of its digest. *)
Definition artifact_at (p : Place) (a : Artifact) (d : device) : Prop :=
  match p with
  | OnSystem path => ∃ n, dv_system d !! path = Some n ∧ is_artifact a n
  | OnEsp path => ∃ n, dv_esp d !! path = Some n ∧ is_artifact a n
  | InVolume _ => False
  end.

Lemma artifact_at_kept p a d d' : file_place p → only_adds d d' → artifact_at p a d → artifact_at p a d'.
Proof.
  intros Hp (_ & _ & _ & _ & H1 & H2). destruct p as [path|path|]; cbn in *; [|..|done].
  - intros (n & Hn & Ha). exists n. split; [by apply H1|done].
  - intros (n & Hn & Ha). exists n. split; [by apply H2|done].
Qed.

Lemma publish_safe objects p a d0 d :
  file_place p → only_adds d0 d →
  safe (publish objects p a d) (λ _ d', artifact_at p a d' ∧ only_adds d0 d') (only_adds d0).
Proof.
  intros Hp Hd. destruct p as [path|path|]; cbn in *; [|..|done].
  - apply safe_zoom. eapply safe_mono; [apply publish_file_safe; by apply stable_not_partial|..].
    + intros u t [Ha Ht]. split; [exact Ha|]. eapply only_adds_trans; [exact Hd|].
      by eapply only_adds_system, publishing_survives.
    + intros t Ht. eapply only_adds_trans; [exact Hd|]. by eapply only_adds_system, publishing_survives.
  - apply safe_zoom. eapply safe_mono; [apply publish_file_safe; by apply stable_not_partial|..].
    + intros u t [Ha Ht]. split; [exact Ha|]. eapply only_adds_trans; [exact Hd|].
      by eapply only_adds_esp, publishing_survives.
    + intros t Ht. eapply only_adds_trans; [exact Hd|]. by eapply only_adds_esp, publishing_survives.
Qed.

(** A step per item, each of which establishes its own fact and keeps those of
    the others. *)
Lemma each_step_all {B} (f : B → M device unit) (P : B → device → Prop) (l : list B) d0 d :
  (∀ b d d', b ∈ l → only_adds d d' → P b d → P b d') →
  (∀ b d, b ∈ l → only_adds d0 d → safe (f b d) (λ _ d', P b d' ∧ only_adds d d') (only_adds d0)) →
  only_adds d0 d →
  safe (each_step f l d) (λ _ d', (∀ b, b ∈ l → P b d') ∧ only_adds d d') (only_adds d0).
Proof.
  intros Hkeep Hf. revert d. induction l as [|b l IH]; intros d Hd.
  { apply safe_ret; [exact Hd|]. split; [|apply only_adds_refl]. intros b Hb. by apply elem_of_nil in Hb. }
  eapply safe_step; [apply Hf; [by left|exact Hd]|done|]. intros u d1 [Hb Hd1].
  eapply safe_mono; [apply IH|..].
  - intros b' d' d'' Hb'. apply Hkeep. by right.
  - intros b' d' Hb'. apply Hf. by right.
  - by eapply only_adds_trans.
  - intros u' d2 [Hall Hd2]. split; [|by eapply only_adds_trans].
    intros b' Hb'. apply elem_of_cons in Hb' as [->|Hb']; [|by apply Hall]. eapply Hkeep; [by left|exact Hd2|exact Hb].
  - done.
Qed.

Lemma publish_all_safe objects files d0 d :
  (∀ f, f ∈ files → file_place f.1) → only_adds d0 d →
  safe (publish_all objects files d)
    (λ _ d', (∀ f, f ∈ files → artifact_at f.1 f.2 d') ∧ only_adds d d') (only_adds d0).
Proof.
  intros Hp Hd. apply each_step_all; [..|exact Hd].
  - intros f d1 d2 Hf Ha. apply artifact_at_kept; [by apply Hp|exact Ha].
  - intros f d1 Hf Hd1. eapply safe_mono; [apply (publish_safe objects f.1 f.2 d1); [by apply Hp|apply only_adds_refl]|..].
    + intros u d2 [? ?]. done.
    + intros d2 Hd2. by exact (only_adds_trans _ _ _ Hd1 Hd2).
Qed.

(** A file of given content. *)
Definition holds_file (path : string) (content : bytes) (d : device) : Prop :=
  dv_system d !! path = Some (Regular content).

Lemma holds_file_kept path content d d' :
  stable path → only_adds d d' → holds_file path content d → holds_file path content d'.
Proof. intros Hs (_ & _ & _ & _ & H & _) Hf. by apply H. Qed.

Lemma system_write_once_safe path content limit message d0 d :
  stable path → only_adds d0 d →
  safe (on_system (write_once path content limit message) d)
    (λ _ d', holds_file path content d' ∧ only_adds d d') (only_adds d0).
Proof.
  intros Hs Hd. apply safe_zoom.
  eapply safe_mono; [apply (write_once_safe path content limit message (dv_system d)); [done|apply survives_refl]|..].
  - intros u t [Hf Ht]. split; [exact Hf|by apply only_adds_system].
  - intros t Ht. eapply only_adds_trans; [exact Hd|by apply only_adds_system].
Qed.

Lemma system_directory_safe path d0 d :
  only_adds d0 d → safe (on_system (directory path) d) (λ _ d', only_adds d d') (only_adds d0).
Proof.
  intros Hd. apply safe_zoom.
  eapply safe_mono; [apply (make_dirs_safe (ancestors path) _ (dv_system d)); [done|apply with_dirs_refl]|..].
  - intros u t Ht. eapply only_adds_system, dirs_survive. exact Ht.
  - intros t Ht. eapply only_adds_trans; [exact Hd|]. eapply only_adds_system, dirs_survive. exact Ht.
Qed.

End publishing.

Section set.
Context {CR : Crypto} {JS : Json} {CS : Codec UpdateSet} {A U : Type} {HR : Records (A + U)} {UD : UbiDevice U}
  (envelope_parse : bytes → option Envelope) (envelope_print : Envelope → bytes).
#[local] Notation device := (device (A + U)).
Context (statvfs : Mount → device → result Space) (reserves : Reserves).
#[local] Notation publish_set := (publish_set statvfs reserves).

(** ** A set *)

(** Everything of a set is on SYSTEM. *)
Definition published (s : UpdateSet) (envelope : bytes) (d : device) : Prop :=
  (∀ f, f ∈ set_objects d s → artifact_at f.1 f.2 d)
  ∧ (∀ core, core ∈ us_components s →
       holds_file (root_hash_path (us_kind s) core) (str_bytes (vi_root_hash (c_content core))) d)
  ∧ holds_file (set_path (us_kind s) (set_id s)) envelope d.
Lemma stable_by (dir name : string) :
  (8 ≤ String.length name)%nat → ends_with ".partial" name = false → ends_with ".pending" name = false →
  stable (dir +:+ name).
Proof. intros Hl H1 H2. split; rewrite ends_with_app by done; done. Qed.

Lemma stable_json (dir : string) : stable (dir +:+ ".json").
Proof. split; [by apply (ends_with_last _ _ _ "l" "n")|by apply (ends_with_last _ _ _ "g" "n")]. Qed.

Lemma set_objects_places (d : device) (s : UpdateSet) f :
  ubi d = None → f ∈ set_objects d s → file_place f.1.
Proof.
  intros Hu Hf. unfold set_objects, large_object in Hf. rewrite Hu in Hf.
  apply list_elem_of_In, in_concat in Hf as (l & Hl & Hf). apply in_map_iff in Hl as (core & <- & _).
  apply list_elem_of_In in Hf. rewrite !elem_of_cons, elem_of_nil in Hf.
  destruct Hf as [->|[->|[]]]; cbn; apply stable_by; cbn; (lia || reflexivity).
Qed.

Lemma root_hash_stable kind core : stable (root_hash_path kind core).
Proof. unfold root_hash_path. apply stable_by; cbn; (lia || reflexivity). Qed.
Lemma set_path_stable kind the_id : stable (set_path kind the_id).
Proof. unfold set_path. rewrite <- !append_assoc. apply stable_json. Qed.

Lemma set_objects_same (d d' : device) s : dv_store d' = dv_store d → set_objects d' s = set_objects d s.
Proof. intros H. unfold set_objects, large_object, ubi. by rewrite H. Qed.

Lemma published_kept s envelope (d d' : device) :
  ubi d = None → only_adds d d' → published s envelope d → published s envelope d'.
Proof.
  intros Hu Ha (H1 & H2 & H3). pose proof (proj1 Ha) as Hst. split; [|split].
  - intros f Hf. rewrite (set_objects_same d d') in Hf by done.
    eapply artifact_at_kept; [by eapply set_objects_places|exact Ha|by apply H1].
  - intros core Hc. eapply holds_file_kept; [apply root_hash_stable|exact Ha|by apply H2].
  - eapply holds_file_kept; [apply set_path_stable|exact Ha|exact H3].
Qed.

Lemma publish_set_safe s envelope objects d0 (d : device) :
  ubi d = None → only_adds d0 d →
  safe (publish_set s envelope objects d) (λ _ d', published s envelope d' ∧ only_adds d d') (only_adds d0).
Proof.
  intros Hu Hd. apply safe_read; [done|]. intros files [= <-]. apply safe_read; [done|]. intros sizes _.
  eapply safe_step; [by apply system_directory_safe|done|]. intros u1 d1 H1.
  assert (H01 : only_adds d0 d1) by by eapply only_adds_trans.
  apply safe_read; [done|]. intros space _. apply safe_read; [done|]. intros u2 _.
  apply safe_read; [done|]. intros u3 _.
  eapply safe_step; [apply (publish_all_safe objects _ d0 d1); [|exact H01]|done|].
  { intros f Hf. by eapply set_objects_places. }
  intros u4 d2 [Hobj H2]. assert (H02 : only_adds d0 d2) by (exact (only_adds_trans _ _ _ H01 H2)).
  eapply safe_step; [apply (each_step_all _ (λ core d', holds_file (root_hash_path (us_kind s) core)
      (str_bytes (vi_root_hash (c_content core))) d') _ d0 d2); [..|exact H02]|done|].
  { intros core d' d'' _ Ha. by apply holds_file_kept; [apply root_hash_stable|]. }
  { intros core d' _ Hd'. apply system_write_once_safe; [apply root_hash_stable|exact Hd']. }
  intros u5 d3 [Hroot H3]. assert (H03 : only_adds d0 d3) by (exact (only_adds_trans _ _ _ H02 H3)).
  eapply safe_step; [by apply system_directory_safe|done|]. intros u6 d4 H4.
  assert (H04 : only_adds d0 d4) by (exact (only_adds_trans _ _ _ H03 H4)).
  eapply safe_mono; [apply (system_write_once_safe _ _ _ _ d0 d4); [apply set_path_stable|exact H04]| |done].
  intros u7 d5 [Henv H5].
  assert (H35 : only_adds d3 d5) by (exact (only_adds_trans _ _ _ H4 H5)).
  assert (H25 : only_adds d2 d5) by (exact (only_adds_trans _ _ _ H3 H35)).
  assert (Hstore : dv_store d5 = dv_store d) by (rewrite (proj1 H25), (proj1 H2); exact (proj1 H1)).
  split; [split; [|split; [|exact Henv]]|].
  - intros f Hf. rewrite (set_objects_same d d5) in Hf by done.
    eapply artifact_at_kept; [by eapply set_objects_places|exact H25|by apply Hobj].
  - intros core Hc. eapply holds_file_kept; [apply root_hash_stable|exact H35|by apply Hroot].
  - exact (only_adds_trans _ _ _ H1 (only_adds_trans _ _ _ H2 H25)).
Qed.

(** What a set is admitted on. *)
Definition admitted (envelope : bytes) (keys : list key) (target : SetTarget) (d : device) (s : UpdateSet)
    (state : SetState) : Prop :=
  authenticate envelope_parse envelope_print envelope keys = Ok s ∧ us_arch s = st_arch target
  ∧ read_state (dv_sets d) = Ok state ∧ ss_pending state = None ∧ ss_current state ≠ Some (set_id s)
  ∧ (∀ current, ss_current state = Some current →
       ∃ held e, load_set envelope_parse envelope_print (us_kind s) current keys (st_arch target) (dv_sets d) = Ok (held, e)
         ∧ (us_channel held = us_channel s → us_generation held < us_generation s))
  ∧ ∃ l, select s (st_features target) (st_root target) = inr l.

Lemma set_admissible_ok envelope keys target d s state :
  set_admissible envelope_parse envelope_print envelope keys target d = Ok (s, state) →
  admitted envelope keys target d s state.
Proof.
  unfold set_admissible. intros H. apply rbind_ok in H as (s0 & Ha & H). apply if_ok in H as [Harch H].
  apply rbind_ok in H as (st & _ & H). apply if_ok in H as [_ H]. apply rbind_ok in H as (state0 & Hst & H).
  apply if_ok in H as [Hp H]. apply if_ok in H as [Hc H]. apply rbind_unit in H as [Hgen H].
  apply rbind_ok in H as (l & Hsel & H). injection H as <- <-. bools.
  split; [done|]. split; [done|]. split; [done|]. split; [done|]. split; [done|]. split.
  - intros current E. rewrite E in Hgen. apply rbind_ok in Hgen as ([held e] & Hl & Hgen).
    apply if_ok in Hgen as [Hg _]. exists held, e. split; [done|]. intros Hch. cbn [fst] in Hg.
    rewrite bool_decide_eq_true_2 in Hg by done. cbn in Hg. by apply Z.ltb_lt in Hg.
  - exists l. unfold selected in Hsel. destruct (select _ _ _); [done|]. by injection Hsel as ->.
Qed.

(** The device while a set is installed: only files are added and the trial
    started, or the document names the set, and everything of it is there. *)
Definition set_named (s : UpdateSet) (envelope : bytes) (state' : SetState) (d' : device) : Prop :=
  sw_state (dv_sets d') = Holds state' ∧ published s envelope d'
  ∧ sw_trial (dv_sets d') = Holds {| st_kind := us_kind s; st_id := set_id s; st_attempts_left := TRIAL_ATTEMPTS |}.

Definition adds_files (d d' : device) : Prop :=
  dv_store d' = dv_store d ∧ survives (dv_system d) (dv_system d') ∧ survives (dv_esp d) (dv_esp d').

Definition installing (s : UpdateSet) (envelope : bytes) (state : SetState) (d d' : device) : Prop :=
  adds_files d d'
  ∧ (sw_state (dv_sets d') = sw_state (dv_sets d)
     ∨ ∃ retained, retained_deployments None d = Ok retained
         ∧ set_named s envelope (set_alone (set_id s) retained state) d').

Lemma only_adds_files d d' : only_adds d d' → adds_files d d' ∧ sw_state (dv_sets d') = sw_state (dv_sets d).
Proof. intros (H1 & H2 & _ & _ & H3 & H4). done. Qed.

Lemma install_set_safe envelope keys target objects (d : device) :
  ubi d = None →
  let after d' := d' = d ∨ ∃ s state, admitted envelope keys target d s state ∧ installing s envelope state d d' in
  safe (install_set envelope_parse envelope_print statvfs reserves envelope keys target objects d)
    (λ state' d', ∃ s state, admitted envelope keys target d s state
       ∧ set_named s envelope state' d' ∧ adds_files d d' ∧ ss_current state' = ss_current state
       ∧ ss_pending state' = Some (set_id s) ∧ ss_pair state' = None) after.
Proof.
  intros Hu after. assert (Hself : after d) by by left.
  apply safe_read; [exact Hself|]. intros [s state] Hadm%set_admissible_ok.
  assert (Hafter : ∀ d', installing s envelope state d d' → after d') by (intros d' Hd'; right; eauto).
  assert (Hadds : ∀ d', only_adds d d' → after d').
  { intros d' Hd'. apply Hafter. apply only_adds_files in Hd' as [? ?]. split; [done|by left]. }
  eapply safe_step; [apply (publish_set_safe s envelope objects d d Hu); apply only_adds_refl|exact Hadds|].
  intros u d1 [Hpub H1]. apply safe_read; [by apply Hadds|]. intros retained Hret.
  assert (Hret' : retained_deployments None d = Ok retained).
  { unfold retained_deployments in *. by rewrite <- (proj1 H1). }
  set (trial := Holds {| st_kind := us_kind s; st_id := set_id s; st_attempts_left := TRIAL_ATTEMPTS |}).
  set (d2 := set_sets (set_sw_trial trial (dv_sets d1)) d1).
  assert (Hd1 : after (set_sets (dv_sets d1) d1)) by (destruct d1; by apply Hadds).
  assert (Hd2 : adds_files d d2 ∧ sw_state (dv_sets d2) = sw_state (dv_sets d)) by (apply only_adds_files in H1; done).
  assert (Ha2 : after d2) by (apply Hafter; split; [apply Hd2|left; apply Hd2]).
  eapply safe_step with (R := λ _ d', d' = d2) (C' := after); [|done|].
  { apply safe_zoom. unfold start_trial, write_meta. destruct (sw_meta_writable (dv_sets d1));
      [by apply safe_write|by apply safe_lift]. }
  intros u2 d' ->. set (state' := set_alone (set_id s) retained state).
  set (d3 := set_sets (set_sw_state state' (dv_sets d2)) d2).
  assert (Hn : set_named s envelope state' d3) by (split; [done|split; [exact Hpub|done]]).
  assert (Ha3 : after d3).
  { apply Hafter. split; [apply Hd2|]. right. by exists retained. }
  eapply safe_step with (R := λ _ d', d' = d3) (C' := after); [|done|].
  { apply safe_zoom. unfold write_state. apply safe_ensure; [exact Ha2|]. intros _. by apply safe_write. }
  intros u3 d' ->. apply safe_ret; [exact Ha3|]. exists s, state. split; [done|]. split; [exact Hn|].
  split; [apply Hd2|]. done.
Qed.

End set.

(** * Properties *)

(** On a board without UBI, a set is put on trial only whole. Installing a set changes no boot entry
    and no deployment document and loses no file but interrupted writes. At every
    power cut and on every error, the sets' document is as it was, or it names
    the new set alone on trial with every object of the set on SYSTEM verified
    against its signature, its root hashes and its envelope beside them, and the
    full number of boots in its trial. That happens only for a set that
    authenticates, suits the device, and in the current set's channel is newer;
    the current set stays. *)
Theorem install_set_atomic {CR : Crypto} {JS : Json} {CS : Codec UpdateSet} {A U : Type} {HR : Records (A + U)}
    {UD : UbiDevice U} envelope_parse envelope_print statvfs reserves envelope keys target objects (d : device (A + U)) :
  ubi d = None →
  let o := install_set envelope_parse envelope_print statvfs reserves envelope keys target objects d in
  (∀ d', durable o d' →
     d' = d ∨ ∃ s state, admitted envelope_parse envelope_print envelope keys target d s state
                       ∧ installing s envelope state d d')
  ∧ (∀ state', o_result o = Ok state' →
       ∃ s state, admitted envelope_parse envelope_print envelope keys target d s state
         ∧ set_named s envelope state' (o_state o) ∧ adds_files d (o_state o)
         ∧ ss_current state' = ss_current state ∧ ss_pending state' = Some (set_id s) ∧ ss_pair state' = None).
Proof.
  intros Hu o.
  pose proof (install_set_safe envelope_parse envelope_print statvfs reserves envelope keys target objects d Hu) as H.
  split; [exact (safe_durable _ _ _ H)|exact (proj1 H)].
Qed.

(** A set of one component whose image is one block. *)
Definition small_image : VerityImage :=
  {| vi_image := sample_artifact 4096; vi_root_hash := sample_hex; vi_signature := sample_artifact 100;
     vi_verity := {| v_version := 1; v_algorithm := "sha256"; v_data_block_size := 4096;
                     v_hash_block_size := 4096; v_data_blocks := 1; v_hash_offset := 4096; v_salt := sample_hex |} |}.
Definition small_core : CoreComponent :=
  {| c_schema := "mica/core/v1"; c_id := sample_hex; c_arch := "amd64"; c_package := "micad"; c_version := "1.2";
     c_features := ["base"]; c_needs := []; c_root := None; c_requires := []; c_content := small_image |}.
Definition small_set : UpdateSet :=
  {| us_schema := "mica/set/v1"; us_kind := Core; us_channel := "general"; us_arch := "amd64";
     us_generation := 4; us_version := "4"; us_components := [small_core] |}.

(** A device with no set yet, and the objects of one. *)
Definition core_file (name : string) : string := component_dir Core sample_hex +:+ "/" +:+ name.
Definition set_device : device (region + bench) :=
  {| dv_store := dv_store collect_device;
     dv_sets := {| sw_state := Absent;
                   sw_system := {[core_file "core.roothash.p7s" :=
                                    Regular (replicate (Z.to_nat (a_bytes (vi_signature small_image))) Ascii.zero)]};
                   sw_trial := Absent; sw_meta_writable := true |};
     dv_esp := ∅; dv_meta := ∅ |}.
Definition set_objects_tree : tree :=
  {[sample_hex := Regular (replicate (Z.to_nat (a_bytes (vi_image small_image))) Ascii.zero)]}.
Definition roomy (m : Mount) (d : device (region + bench)) : result Space :=
  Ok {| f_bavail := 1048576; f_frsize := 4096; f_files := 0; f_favail := 0 |}.

Lemma install_set_atomic_witness :
  let install := install_set (CR := sample_crypto) (JS := sample_json) (CS := sample_codec small_set)
    (HR := collect_store) (UD := bench_device) (λ _, Some sample_envelope) (λ _, str_bytes "e") roomy
    {| rv_system := None; rv_esp := None; rv_data := None |} (str_bytes "e") [str_bytes "key"]
    {| st_arch := "amd64"; st_features := ["base"]; st_root := sample_facts |} set_objects_tree in
  let o := install set_device in
  is_ok (o_result o) = true
  ∧ ∃ s state', set_named (CR := sample_crypto) (JS := sample_json) (CS := sample_codec small_set) s (str_bytes "e") state' (o_state o) ∧ ss_pending state' = Some sample_hex.
Proof.
  intros install o. assert (Hok : is_ok (o_result o) = true) by (vm_compute; reflexivity). split; [exact Hok|].
  destruct (o_result o) as [state'|] eqn:E; [|discriminate Hok].
  destruct (install_set_atomic (CR := sample_crypto) (JS := sample_json) (CS := sample_codec small_set)
    (HR := collect_store) (UD := bench_device) (λ _, Some sample_envelope) (λ _, str_bytes "e") roomy
    {| rv_system := None; rv_esp := None; rv_data := None |} (str_bytes "e") [str_bytes "key"]
    {| st_arch := "amd64"; st_features := ["base"]; st_root := sample_facts |} set_objects_tree set_device eq_refl)
    as [_ H].
  destruct (H state' E) as (s & state & _ & Hn & _ & _ & Hp & _). exists s, state'. split; [exact Hn|exact Hp].
Defined.

End InstallSet.
