(* ===== verification/Activate.v ===== *)
(** Activating an installed deployment
    ([src/crates/mica-deploy/src/deployments/install.rs], the last part of
    [install]): the entry file on the ESP, written through a pending sibling,
    or the boot record put first, each with its three attempts. *)
From Stdlib Require Import Ascii.
From S2P Require Import Prelude Text Files Boot FitEnv RecordStore Components Deployments SetState Ubi Objects.
Import Files(node(..), tree, is_dir, read_node, node_eq).
Import Boot FitEnv RecordStore Components SetState Ubi Objects.

Module Activate.

Definition entry_file (the_id : string) : string := "mica-" +:+ the_id +:+ "+3.conf".
Definition pending_file (the_id : string) : string := "mica-" +:+ the_id +:+ "+3.pending".

(** The lines of an entry, each ended by a line feed. *)
Definition entry_lines (x : Deployment) : list string :=
  ["title MICA " +:+ d_version x; "version " +:+ to_dec (d_generation x); "sort-key mica";
   "efi /EFI/mica/kernels/" +:+ k_id (d_kernel x) +:+ ".efi"].
Definition entry_text (x : Deployment) : bytes := str_bytes (join LF (entry_lines x ++ [""])).

(** * A file of the entries directory, replaced *)

#[local] Notation dir := (list Deployments.dirent).

Definition item_of (file : string) (d : dir) : option Deployments.dirent :=
  List.find (Deployments.named file) d.
Definition without (file : string) (d : dir) : dir :=
  List.filter (λ x, negb (Deployments.named file x)) d.
Definition put (file : string) (n : node) (d : dir) : dir :=
  without file d ++ [{| Deployments.d_name := str_bytes file; Deployments.d_node := n |}].

(** The leftover removed, the pending file created and written: until it is
    flushed a power cut leaves any content, or no file. *)
Definition write_pending (pending : string) (b : bytes) : M dir unit :=
  let! _ := (λ d, match item_of pending d with
                  | None => sret tt d
                  | Some item => match Deployments.d_node item with
                                 | Directory => slift (λ _, Err (Msg "remove")) d
                                 | _ => swrite (without pending) d
                                 end
                  end) in
  let! _ := swrite (put pending (Regular [])) in
  λ d, Outcome (Ok tt) (put pending (Regular b) d)
         (λ d', d' = without pending d ∨ ∃ c, d' = put pending (Regular c) d).

Definition rename_into (old new : string) : M dir unit := λ d,
  match Deployments.rename old new d with
  | Ok d' => swrite (λ _, d') d
  | Err e => slift (λ _, Err e) d
  end.

(** [atomic_write] of an entry. *)
Definition write_entry (file pending : string) (b : bytes) : M dir unit := λ d,
  match item_of file d with
  | Some {| Deployments.d_node := Directory |} | Some {| Deployments.d_node := Special |} =>
      slift (λ _, Err (Msg "destination is not a regular file")) d
  | _ => (let! _ := write_pending pending b in rename_into pending file) d
  end.

(** * Activation *)

Section activate.
Context {A U : Type} {HR : Records (A + U)}.
#[local] Notation world := (Deployments.world (R := A + U)).

(** An operation on the ESP's entries directory. *)
Definition on_entries {B} (m : M dir B) : M world B := λ w,
  match Deployments.w_boot w with
  | Deployments.BackendUefi (Some d) =>
      szoom (λ _, d) (λ d' w, Deployments.set_boot (Deployments.BackendUefi (Some d')) w) m w
  | _ => slift (λ _, Err (Msg "No such file or directory")) w
  end.

Definition new_record (x : Deployment) (the_id : string) : BootRecord :=
  {| id := the_id; kernel_id := k_id (d_kernel x); generation := d_generation x; tries_left := Some 3 |}.

Definition activate (x : Deployment) (the_id : string) : M (device (A + U)) unit := λ d,
  match Deployments.w_boot (dv_store d) with
  | Deployments.BackendUefi _ =>
      (let! _ := slift (λ d, ensure is_dir "EFI/mica/kernels" (dv_esp d) else "No such file or directory" in Ok tt) in
       in_store (on_entries (write_entry (entry_file the_id) (pending_file the_id) (entry_text x)))) d
  | Deployments.BackendRecords _ =>
      in_store (let! env := slift (λ w, Deployments.boot_records (Deployments.w_boot w)) in
                Deployments.save_records (with_records env (new_record x the_id :: records env))) d
  end.

End activate.

(** * Lemmas: the entry file *)

(** What activation asks of a deployment; an authenticated one has it. *)
Definition activable (x : Deployment) : Prop :=
  name_ok (d_version x) = true ∧ hex_id (k_id (d_kernel x)) = true ∧ 0 < d_generation x ≤ MAX_GENERATION.

Lemma authenticated_activable {CR : Crypto} {JS : Json} {CD : Codec Deployment} envelope_parse envelope_print b keys x :
  authenticate_deployment envelope_parse envelope_print b keys = Ok x → activable x.
Proof.
  unfold authenticate_deployment, parse_deployment. intros H. checks H. injection H as <-.
  match goal with Hv : deployment_validate _ _ = Ok tt |- _ => unfold deployment_validate, name in Hv; checks Hv end.
  unfold activable. split; [assumption|]. split; assumption.
Qed.

(** A printable line: no line feed and no carriage return. *)
Definition printable (c : ascii) : bool := is_graphic c || bool_decide (c = " "%char).
Definition line_ok (s : string) : Prop := all_bytes printable s = true.

Lemma line_ok_free c s : line_ok s → printable c = false → contains_byte c s = false.
Proof. intros H Hc. by eapply all_bytes_not_contains. Qed.

Lemma drop_cr_line s : line_ok s → drop_cr s = s.
Proof.
  intros H. unfold drop_cr. destruct (strip_suffix _ s) as [r|] eqn:E; [|done].
  apply strip_suffix_spec in E as ->. apply (line_ok_free CR) in H; [|done].
  rewrite contains_byte_app in H. cbn in H. by rewrite orb_true_r in H.
Qed.

Lemma drop_last_empty_app l : Forall (λ s, s ≠ "") l → drop_last_empty (l ++ [""]) = l.
Proof.
  induction 1 as [|s l Hs Hl IH]; [done|]. cbn [app drop_last_empty].
  destruct s; [done|]. by rewrite IH; destruct l.
Qed.

Lemma crs_lines l : Forall line_ok l → crs (l ++ [""]) = l ++ [""].
Proof.
  induction 1 as [|s l Hs Hl IH]; [done|]. cbn [app crs]. rewrite IH, drop_cr_line by done. by destruct l.
Qed.

(** The lines of a text are the lines it was made of. *)
Lemma lines_join l : Forall line_ok l → Forall (λ s, s ≠ "") l → lines (join LF (l ++ [""])) = l.
Proof.
  intros Hl Hne. unfold lines. rewrite split_join.
  - by rewrite crs_lines, drop_last_empty_app.
  - by destruct l.
  - apply Forall_app. split; [|by repeat constructor].
    eapply Forall_impl; [exact Hl|]. intros s Hs. by apply line_ok_free.
Qed.

Lemma graphic_line s : all_bytes is_graphic s = true → line_ok s.
Proof. apply all_bytes_impl. intros c Hc. unfold printable. by rewrite Hc. Qed.

Lemma name_line v : name_ok v = true → line_ok v ∧ str_len v ≤ 128.
Proof.
  unfold name_ok. intros H. bools. split; [|done]. apply graphic_line.
  match goal with H : all_bytes _ v = true |- _ => revert H end.
  apply all_bytes_impl. intros c. destruct c as [[] [] [] [] [] [] [] []]; vm_compute; by intuition.
Qed.

Lemma dec_line n : 0 ≤ n → line_ok (to_dec n).
Proof.
  intros Hn. apply graphic_line. eapply all_bytes_impl; [|by apply to_dec_digits].
  intros c. destruct c as [[] [] [] [] [] [] [] []]; vm_compute; by intuition.
Qed.

Lemma line_ok_app s t : line_ok s → line_ok t → line_ok (s +:+ t).
Proof. unfold line_ok. intros Hs Ht. by rewrite all_bytes_app, Hs, Ht. Qed.

Lemma entry_lines_ok x : activable x → Forall line_ok (entry_lines x).
Proof.
  intros (Hv & Hk & Hg). pose proof (name_line _ Hv) as [? _].
  assert (line_ok (to_dec (d_generation x))) by (apply dec_line; lia).
  assert (line_ok (k_id (d_kernel x))) by by apply graphic_line, Deployments.hex_id_graphic.
  unfold entry_lines. rewrite !Forall_cons. split_and!; [..|constructor]; repeat (apply line_ok_app); done.
Qed.

Lemma entry_versions x : activable x → Deployments.versions_of (bytes_str (entry_text x)) = [to_dec (d_generation x)].
Proof.
  intros H. unfold entry_text, Deployments.versions_of. rewrite str_bytes_str, lines_join.
  - cbn [omap list_omap entry_lines].
    change ("title MICA " +:+ d_version x) with ("t" +:+ ("itle MICA " +:+ d_version x)).
    rewrite strip_prefix_app. done.
  - by apply entry_lines_ok.
  - by repeat constructor.
Qed.

Lemma entry_text_len x : activable x → len (entry_text x) <= 4096.
Proof.
  intros (Hv & Hk & Hg). pose proof (name_line _ Hv) as [_ Hl].
  pose proof (dec_go_len 20 (d_generation x) "" 16) as Hd. fold (to_dec (d_generation x)) in Hd.
  change (10 ^ Z.of_nat 16) with 10000000000000000 in Hd. unfold MAX_GENERATION in Hg.
  specialize (Hd ltac:(lia) ltac:(lia)). unfold entry_text. rewrite len_str_bytes. cbn [entry_lines app join].
  rewrite !str_len_app, !str_len_cons, !str_len_app, !str_len_cons, !str_len_app, !str_len_cons, !str_len_app.
  rewrite (hex_id_len _ Hk).
  change (str_len "") with 0 in *. change (str_len "efi /EFI/mica/kernels/") with 22.
  change (str_len ".efi") with 4. change (str_len (String LF "")) with 1. lia.
Qed.

Lemma entry_text_utf8 x : activable x → valid_utf8 (entry_text x) = true.
Proof.
  intros H. apply (all_ascii (λ c, printable c || bool_decide (c = LF))).
  { intros c. destruct c as [[] [] [] [] [] [] [] []]; vm_compute; by intuition. }
  assert (Hj : ∀ l, Forall line_ok l → all_bytes (λ c, printable c || bool_decide (c = LF)) (join LF (l ++ [""])) = true).
  { induction 1 as [|s l Hs Hl IH]; [done|]. cbn [app].
    rewrite join_cons by by destruct l. rewrite all_bytes_app. cbn [all_bytes]. rewrite IH.
    assert (all_bytes (λ c, printable c || bool_decide (c = LF)) s = true) as ->; [|done].
    revert Hs. apply all_bytes_impl. intros c Hc. by rewrite Hc. }
  by apply Hj, entry_lines_ok.
Qed.

Lemma entry_file_selects the_id :
  hex_id the_id = true → Deployments.selects (entry_file the_id) the_id (Some 3).
Proof.
  intros Hid. unfold Deployments.selects, entry_file. split_and!.
  - apply (all_ascii is_graphic); [apply Deployments.is_graphic_ascii|].
    by rewrite !all_bytes_app, (Deployments.hex_id_graphic _ Hid).
  - unfold Deployments.is_entry_file, starts_with, ends_with. apply andb_true_iff. split; apply bool_decide_eq_true.
    + rewrite strip_prefix_app. eauto.
    + change "+3.conf" with ("+3" +:+ ".conf"). rewrite <- !append_assoc, strip_suffix_app. eauto.
  - apply selected_entry_spec. split; [done|]. right. exists "3".
    split; [apply counters_spec; auto|by rewrite append_assoc].
  - unfold Deployments.tries_of_file. rewrite (proj2 (split_once_spec _ _ ("mica-" +:+ the_id) "3.conf")); [done|].
    split; [by rewrite append_assoc|]. by rewrite contains_byte_app, (split_hex_id _ Hid).
Qed.

(** The entry the file reads to. *)
Definition new_entry (x : Deployment) (the_id : string) : Deployments.Entry :=
  {| Deployments.e_id := the_id; Deployments.e_file := entry_file the_id;
     Deployments.e_generation := d_generation x; Deployments.e_tries := Some 3 |}.

Lemma new_item_entry x the_id :
  activable x → hex_id the_id = true →
  let item := {| Deployments.d_name := str_bytes (entry_file the_id); Deployments.d_node := Regular (entry_text x) |} in
  Deployments.item_entry item = Some (new_entry x the_id) ∧ Deployments.item_ok item = true.
Proof.
  intros H Hid item. destruct (entry_file_selects _ Hid) as (Hu & Hf & Hs & Ht).
  unfold Deployments.item_entry, Deployments.item_ok, Deployments.read_entry, item. cbn [Deployments.d_name Deployments.d_node].
  rewrite Hu, str_bytes_str, Hf, Hs. cbn [negb rbind existsb read_node].
  rewrite (proj2 (Z.leb_le _ _) (entry_text_len x H)). cbn [rbind].
  rewrite (entry_text_utf8 x H), (entry_versions x H).
  destruct H as (_ & _ & Hg). rewrite parse_u64_to_dec by (unfold is_u64, U64_MAX, MAX_GENERATION in *; lia).
  cbn [with_context rbind]. rewrite (proj2 (Z.ltb_lt _ _) (proj1 Hg)), bool_decide_eq_true_2 by done. cbn [andb].
  rewrite Ht. done.
Qed.

(** ** The directory *)

Lemma pending_skipped the_id n :
  hex_id the_id = true →
  let item := {| Deployments.d_name := str_bytes (pending_file the_id); Deployments.d_node := n |} in
  Deployments.item_entry item = None ∧ Deployments.item_ok item = true.
Proof.
  intros Hid item. assert (Hu : valid_utf8 (str_bytes (pending_file the_id)) = true).
  { apply (all_ascii is_graphic); [apply Deployments.is_graphic_ascii|].
    unfold pending_file. by rewrite !all_bytes_app, (Deployments.hex_id_graphic _ Hid). }
  assert (Hf : Deployments.is_entry_file (pending_file the_id) = false).
  { unfold Deployments.is_entry_file. apply andb_false_iff. right. unfold pending_file.
    rewrite <- append_assoc, ends_with_app; [done|]. cbn. lia. }
  unfold Deployments.item_entry, Deployments.item_ok, Deployments.read_entry, item. cbn [Deployments.d_name].
  by rewrite Hu, str_bytes_str, Hf.
Qed.

(** One item more. *)
Lemma dir_ok_snoc d es item o :
  Deployments.dir_ok d es → Deployments.d_name item ∉ map Deployments.d_name d →
  Deployments.item_ok item = true → Deployments.item_entry item = o →
  (∀ e, o = Some e → Deployments.e_id e ∉ map Deployments.e_id es ∧ len es ≤ 1) →
  Deployments.dir_ok (d ++ [item]) (es ++ option_list o).
Proof.
  intros (Hn & Hok & -> & Hd)%Deployments.dir_ok_spec Hname Hitem Ho He. apply Deployments.dir_ok_spec.
  split.
  { rewrite map_app. apply NoDup_app. split; [done|]. split; [|apply NoDup_singleton].
    intros y Hy Hin. apply list_elem_of_singleton in Hin as ->. done. }
  split; [apply Forall_app; split; [done|by repeat constructor]|].
  assert (Hsplit : omap Deployments.item_entry (d ++ [item]) = omap Deployments.item_entry d ++ option_list o).
  { rewrite omap_app. cbn. rewrite Ho. by destruct o. }
  split; [done|]. destruct o as [e|]; [change (option_list (Some e)) with [e] in *|by rewrite app_nil_r].
  destruct (He e eq_refl) as [Hid Hl]. apply Deployments.distinct_spec in Hd as (_ & Hni & _).
  apply Deployments.distinct_spec. cbn [app]. split; [right; rewrite len_app; change (len [e]) with 1; lia|].
  split.
  - rewrite map_app. apply NoDup_app. split; [done|]. split; [|apply NoDup_singleton].
    intros y Hy Hin. apply list_elem_of_singleton in Hin as ->. done.
  - apply Forall_forall. intros; constructor.
Qed.

Lemma find_snoc {B} (p : B → bool) l x :
  (∀ y, y ∈ l → p y = false) → p x = true → List.find p (l ++ [x]) = Some x.
Proof.
  induction l as [|a l IH]; intros Hl Hx; cbn; [by rewrite Hx|].
  rewrite (Hl a) by by left. apply IH; [|done]. intros y Hy. apply Hl. by right.
Qed.

Definition item (file : string) (n : node) : Deployments.dirent :=
  {| Deployments.d_name := str_bytes file; Deployments.d_node := n |}.

Lemma named_item file n : Deployments.named file (item file n) = true.
Proof. by apply bool_decide_eq_true. Qed.
Lemma named_other file file' n : file ≠ file' → Deployments.named file (item file' n) = false.
Proof. intros H. apply bool_decide_eq_false. intros E%str_bytes_inj. congruence. Qed.

Lemma without_free file (d : list Deployments.dirent) y : y ∈ without file d → Deployments.named file y = false.
Proof. intros [Hy _]%Deployments.elem_of_filter. by apply negb_true_iff. Qed.

(** The pending item becomes the entry's. *)
Lemma rename_snoc old new n d :
  old ≠ new → (∀ y, y ∈ d → Deployments.named old y = false) → (∀ y, y ∈ d → Deployments.named new y = false) →
  Deployments.rename old new (d ++ [item old n]) = Ok (d ++ [item new n]).
Proof.
  intros Hne Hold Hnew. unfold Deployments.rename. rewrite find_snoc by (done || apply named_item).
  rewrite bool_decide_eq_false_2 by done.
  assert (Hfree : ∀ y, y ∈ d ++ [item old n] → Deployments.named new y = false).
  { intros y [Hy|Hy]%elem_of_app; [by apply Hnew|]. apply list_elem_of_singleton in Hy as ->.
    apply named_other. congruence. }
  assert (existsb (λ x, Deployments.named new x && match Deployments.d_node x with Directory => true | _ => false end)
            (d ++ [item old n]) = false) as ->.
  { apply not_true_iff_false. rewrite Deployments.existsb_elem. intros (y & Hy & Hb).
    by rewrite (Hfree y Hy) in Hb. }
  cbn [negb]. rewrite Deployments.filter_all.
  2: { apply Forall_forall. intros y Hy. by rewrite Hfree. }
  f_equal. rewrite map_app. cbn [map]. rewrite named_item. f_equal.
  rewrite <- (map_id d) at 2. apply map_ext_in. intros y Hy%list_elem_of_In. by rewrite Hold.
Qed.

(** ** Writing the entry *)

Lemma write_entry_safe x the_id d es :
  activable x → hex_id the_id = true → Deployments.dir_ok d es →
  the_id ∉ map Deployments.e_id es → len es ≤ 1 →
  safe (write_entry (entry_file the_id) (pending_file the_id) (entry_text x) d)
    (λ _ d', Deployments.dir_ok d' (es ++ [new_entry x the_id]))
    (λ d', Deployments.dir_ok d' es ∨ Deployments.dir_ok d' (es ++ [new_entry x the_id])).
Proof.
  intros Hx Hid Hd Hnew Hl. set (file := entry_file the_id). set (pending := pending_file the_id).
  set (C := λ d', Deployments.dir_ok d' es ∨ Deployments.dir_ok d' (es ++ [new_entry x the_id])).
  assert (Hpf : Deployments.is_entry_file pending = false).
  { unfold Deployments.is_entry_file. apply andb_false_iff. right. unfold pending, pending_file.
    rewrite <- append_assoc, ends_with_app; [done|]. cbn. lia. }
  assert (Hne : pending ≠ file).
  { intros E. assert (Hs := entry_file_selects _ Hid). fold file in Hs. rewrite <- E in Hs.
    destruct Hs as (_ & Hs & _). congruence. }
  set (d0 := without pending d).
  assert (Hd0 : Deployments.dir_ok d0 es) by by apply Deployments.filter_other_entries.
  assert (Hfile : ∀ y, y ∈ d0 → Deployments.named file y = false).
  { intros y Hy. apply not_true_iff_false. intros E%bool_decide_eq_true.
    pose proof Hd0 as (_ & Hok & Hes & _)%Deployments.dir_ok_spec.
    destruct (Deployments.item_of_name y file the_id (Some 3)) as (e & He & Hide);
      [by apply entry_file_selects|done|by apply (proj1 (Forall_forall _ _) Hok)|].
    apply Hnew. rewrite <- Hide. apply list_elem_of_fmap. exists e. split; [done|].
    rewrite Hes. apply list_elem_of_omap. by exists y. }
  assert (Hput : ∀ n, Deployments.dir_ok (d0 ++ [item pending n]) es).
  { intros n. destruct (pending_skipped the_id n Hid) as [H1 H2].
    rewrite <- (app_nil_r es). apply (dir_ok_snoc d0 es _ None); [done| |done|done|done].
    intros (y & Hy & Hin)%list_elem_of_fmap. apply without_free in Hin. apply bool_decide_eq_false in Hin.
    by apply Hin. }
  assert (Hput' : ∀ d' n, without pending d' = d0 → Deployments.dir_ok (put pending n d') es).
  { intros d' n E. unfold put. rewrite E. apply Hput. }
  assert (Hww : ∀ n, without pending (d0 ++ [item pending n]) = d0).
  { intros n. unfold without. rewrite List.filter_app. cbn. rewrite named_item. cbn. rewrite app_nil_r.
    apply Deployments.filter_all, Forall_forall. intros y Hy. by rewrite (without_free _ _ _ Hy). }
  assert (Hw0 : without pending d0 = d0).
  { apply Deployments.filter_all, Forall_forall. intros y Hy. by rewrite (without_free _ _ _ Hy). }
  unfold write_entry. assert (Hgo : safe ((let! _ := write_pending pending (entry_text x) in rename_into pending file) d)
    (λ _ d', Deployments.dir_ok d' (es ++ [new_entry x the_id])) C).
  2: { destruct (item_of file d) as [[nm []]|]; [exact Hgo|by apply safe_lift; [left|]..|exact Hgo]. }
  set (mid := λ d', Deployments.dir_ok d' es).
  eapply safe_step with (R := λ _ d', d' = d0 ++ [item pending (Regular (entry_text x))]) (C' := mid); [|by left|].
  - eapply safe_step with (R := λ _ d', without pending d' = d0 ∧ mid d') (C' := mid); [|done|].
    { destruct (item_of pending d) as [[nm []]|] eqn:E; cbn;
        [by apply safe_write|by apply safe_lift|by apply safe_write|by apply safe_ret]. }
    intros u1 d1 [H1 Hm1]. assert (Hput1 : ∀ n, put pending n d1 = d0 ++ [item pending n]) by (intros n; unfold put; by rewrite H1).
    eapply safe_step with (R := λ _ d', d' = d0 ++ [item pending (Regular [])]) (C' := mid); [|done|].
    { assert (E : put pending (Regular []) d1 = d0 ++ [item pending (Regular [])]) by by apply Hput1.
      apply safe_write; [exact Hm1|by rewrite E; apply Hput|exact E]. }
    intros u2 d2 ->. split; [|split]; cbn.
    + intros [] _. unfold put. by rewrite Hww.
    + unfold put. rewrite Hww. apply Hput.
    + intros d' [->|(c & ->)]; [by rewrite Hww|]. unfold put. rewrite Hww. apply Hput.
  - intros u3 d3 ->. unfold rename_into. rewrite (rename_snoc pending file) by (done || apply without_free).
    destruct (new_item_entry x the_id Hx Hid) as [Hi1 Hi2].
    assert (Hfin : Deployments.dir_ok (d0 ++ [item file (Regular (entry_text x))]) (es ++ [new_entry x the_id])).
    { apply (dir_ok_snoc d0 es _ (Some (new_entry x the_id))); [done| |done|done|].
      - intros (y & Hy & Hin)%list_elem_of_fmap. specialize (Hfile y Hin). apply bool_decide_eq_false in Hfile. by apply Hfile.
      - by intros e [= <-]. }
    apply safe_write; [left; apply Hput|by right|done].
Qed.

(** ** Activation *)

Section safe.
Context {A U : Type} {HA : Records A} {HU : Records U}.
#[local] Existing Instance both.
#[local] Notation device := (device (A + U)).
#[local] Notation activate := (activate (A := A) (HR := both)).

(** The device has the entries [es]; nothing else of it changed. *)
Definition only_entries (d d' : device) (es : list Deployments.Entry) : Prop :=
  Deployments.entries_are (dv_store d) (dv_store d') es
  ∧ dv_sets d' = dv_sets d ∧ dv_esp d' = dv_esp d ∧ dv_meta d' = dv_meta d ∧ ubi d' = None.

(** Both entries: the new one with its three attempts, and the running one. *)
Definition activated (x : Deployment) (the_id : string) (run : Deployments.Entry) (es : list Deployments.Entry) : Prop :=
  ∃ e, es = [e; run] ∧ Deployments.e_id e = the_id ∧ Deployments.e_generation e = d_generation x
       ∧ Deployments.e_tries e = Some 3.

Lemma on_entries_safe {B} (m : M (list Deployments.dirent) B) (w : Deployments.world (R := A + U)) d Q (C : list Deployments.dirent → Prop) :
  Deployments.w_boot w = Deployments.BackendUefi (Some d) →
  safe (m d) (λ _ d', Q d') C →
  let at_dir d' := Deployments.set_boot (Deployments.BackendUefi (Some d')) w in
  safe (on_entries m w) (λ _ w', ∃ d', w' = at_dir d' ∧ Q d') (λ w', ∃ d', w' = at_dir d' ∧ C d').
Proof.
  intros Hb Hm at_dir. unfold on_entries. rewrite Hb. apply safe_zoom. eapply safe_mono; [exact Hm|..]; cbn; eauto.
Qed.

Lemma activate_safe x the_id (d : device) run :
  activable x → hex_id the_id = true → Deployments.in_service (dv_store d) → ubi d = None →
  Deployments.entries (dv_store d) = Ok [run] → Deployments.e_id run ≠ the_id →
  Deployments.e_generation run < d_generation x →
  safe (activate x the_id d)
    (λ _ d', ∃ es, only_entries d d' es ∧ activated x the_id run es)
    (λ d', ∃ es, only_entries d d' es ∧ (es = [run] ∨ activated x the_id run es)).
Proof.
  intros Hx Hid Hs Hu He Hne Hgen. unfold Activate.activate.
  assert (Hself : only_entries d d [run]) by by repeat split.
  destruct (Deployments.w_boot (dv_store d)) as [[dir|]|r] eqn:Hb.
  - apply safe_read; [by exists [run]; auto|]. intros u _. apply safe_zoom.
    unfold Deployments.in_service in Hs. rewrite Hb in Hs. destruct Hs as [es0 Hd].
    pose proof Hd as [_ Hr]. unfold Deployments.entries, Deployments.entries_of in He. rewrite Hb, Hr in He.
    injection He as He. assert (Hone : es0 = [run]).
    { pose proof (Deployments.sort_entries_perm es0) as Hp. rewrite He in Hp. by apply Permutation_singleton_l in Hp. }
    subst es0. assert (Hare : ∀ dir' es, Deployments.dir_ok dir' es →
      only_entries d (set_store (Deployments.set_boot (Deployments.BackendUefi (Some dir')) (dv_store d)) d) (Deployments.sort_entries es)).
    { intros dir' es Hd'. split; [|done]. split; [done|]. split; [by exists es|].
      unfold Deployments.entries, Deployments.entries_of. cbn. destruct Hd' as [_ ->]. done. }
    assert (Hsort : activated x the_id run (Deployments.sort_entries ([run] ++ [new_entry x the_id]))).
    { exists (new_entry x the_id). split; [|done]. unfold Deployments.sort_entries. cbn.
      by rewrite (proj2 (Z.leb_gt _ _) Hgen). }
    eapply safe_mono; [apply (on_entries_safe _ _ dir); [exact Hb|apply (write_entry_safe x the_id dir [run]); [done..| |done]]|..].
    { cbn. rewrite list_elem_of_singleton. congruence. }
    + cbn beta. intros u' w (dir' & -> & Hd'). eexists. split; [by apply Hare|done].
    + intros w (dir' & -> & [Hd'|Hd']); eexists; (split; [by apply Hare|]); [by left|by right].
  - unfold Deployments.in_service in Hs. by rewrite Hb in Hs.
  - apply safe_zoom. apply safe_read; [exists [run]; split; [by destruct d|by left]|]. intros env Hl.
    unfold Deployments.in_service in Hs. rewrite Hb in Hs, Hl. change (rs_load r = Ok env) in Hl.
    destruct (rs_inv_load r Hs) as (env' & Hl' & Hv). rewrite Hl in Hl'. injection Hl' as <-.
    unfold Deployments.entries, Deployments.entries_of in He. rewrite Hb in He.
    change (rbind (rs_load r) (λ env, Ok (map Deployments.record_entry (records env))) = Ok [run]) in He.
    rewrite Hl in He. cbn [rbind] in He.
    injection He as He.
    set (rs := new_record x the_id :: records env).
    assert (Hvrs : valid_records rs ∧ map Deployments.record_entry rs = [Deployments.record_entry (new_record x the_id); run]).
    { unfold rs. cbn [map]. rewrite He. split; [|done].
      apply valid_records_cases in Hv as [(q & Hq & Hvq)|(q & q' & Hq & _)]; rewrite Hq in He |- *; [|done].
      injection He as <-. destruct Hx as (_ & Hk & Hg). apply valid_records_pair; [|done|by intros E; apply Hne|done].
      unfold valid_record, new_record. cbn. split; [done|]. split; [done|]. split; [done|]. intros v [= <-]. lia. }
    destruct Hvrs as [Hvrs Hmap].
    destruct (Deployments.save_records_spec (dv_store d) r env rs Hb Hs Hl Hvrs) as [Hsafe _].
    apply no_ubi_device in Hu. pose proof (save_records_no_ubi (with_records env rs) _ Hu) as Hno.
    assert (Hare : ∀ w es, Deployments.entries_are (dv_store d) w es → no_ubi w → only_entries d (set_store w d) es).
    { intros w es Hw Hw'. by repeat split; [apply Hw..|apply no_ubi_device]. }
    assert (Hact : activated x the_id run (map Deployments.record_entry rs)) by (eexists; split; [exact Hmap|done]).
    eapply safe_mono; [exact (safe_and _ _ _ _ _ Hsafe Hno)|..].
    + intros u w [[Hw _] Hw']. exists (map Deployments.record_entry rs). split; [by apply Hare|done].
    + intros w [[Hw|Hw] Hw']; [exists (map Deployments.record_entry rs)|exists [run]; rewrite He in Hw];
        (split; [by apply Hare|]); auto.
Qed.

End safe.

End Activate.
