(* ===== verification/Install.v ===== *)
(** Installing a deployment
    ([src/crates/mica-deploy/src/deployments/install.rs], [install], and
    [reclaimed_bytes] and [reclaimed_lebs] of [deployments/io.rs]): everything
    checked first, the old fallback made unbootable before its objects go, the
    new objects and documents written, and the boot entry last. *)
From Stdlib Require Import Ascii.
From S2P Require Import Prelude Text Files Boot FitEnv RecordStore Deployments Components UpdateSet SetState Ubi CoreSet Objects SetSettle CoreChoice Collect InstallSet Activate.
Import Files Boot FitEnv RecordStore Components UpdateSet SetState Ubi CoreSet Objects SetSettle CoreChoice Collect InstallSet Activate.

Module Install.

(** [symlink_metadata] of a file to remove: its filesystem, links and blocks. *)
Record Stat := { st_dev : Z; st_nlink : Z; st_blocks : Z }.

(** What an admitted installation goes on with. *)
Record Plan := {
  pl_deployment : Deployment;
  pl_id : string;
  pl_state : Deployments.State;
  pl_entries : list Deployments.Entry;
  pl_choice : CoreChoice;
}.

Section install.
Context {CR : Crypto} {JS : Json} {CD : Codec Deployment} {CS : Codec UpdateSet} {A U : Type} {HR : Records (A + U)}
  {UD : UbiDevice U}
  (envelope_parse : bytes → option Envelope) (envelope_print : Envelope → bytes)
  (boot_trust : Deployments.BootTrust).
#[local] Notation device := (device (A + U)).
Context (statvfs : Mount → device → result Space) (reserves : Reserves)
  (stat : Victim → device → result Stat) (mount_dev : Mount → device → result Z).
Implicit Types (receipt : Deployments.BootReceipt) (keys : list key) (d : device).

Definition boot_format d : string :=
  match Deployments.w_boot (dv_store d) with
  | Deployments.BackendUefi _ => "uki"
  | Deployments.BackendRecords _ => "fit"
  end.

(** The conditions on a deployment before anything is measured or written. *)
Definition admissible (envelope : bytes) keys (target : Target) (objects : tree) receipt (latest : option bytes) d :
    result Plan :=
  let? x := authenticate_deployment envelope_parse envelope_print envelope keys in
  ensure bool_decide (d_board x = t_board target) && bool_decide (d_arch x = t_arch target)
    else "deployment targets another device" in
  ensure bool_decide (d_product x = t_product target) else "deployment targets another product" in
  ensure bool_decide (k_boot_format (d_kernel x) = boot_format d)
    else "deployment boot format differs from this device" in
  let? the_id := deployment_id x in
  let? s := Deployments.effective_state (dv_store d) in
  let? es := Deployments.entries (dv_store d) in
  ensure negb (existsb (λ e, bool_decide (Deployments.e_id e = the_id)) es) && negb (Deployments.has (Deployments.failed s) the_id)
    else "deployment is installed or rejected" in
  ensure bool_decide (Deployments.candidate s = None) else "another deployment is pending" in
  let? choice := core_choice envelope_parse envelope_print x keys target objects latest (dv_sets d) in
  let? _ := Deployments.validate_receipt boot_trust receipt (dv_store d) in
  let running := Deployments.rc_deployment_id receipt in
  ensure bool_decide (Deployments.current s = Some running)
         && existsb (λ e, bool_decide (Deployments.e_id e = running) && bool_decide (Deployments.e_tries e = None)) es
         && negb (Deployments.has (Deployments.failed s) running)
    else "confirm the running deployment before installation" in
  ensure (Deployments.highest_generation s <? d_generation x)
         && forallb (λ e, Deployments.e_generation e <? d_generation x) es
    else "deployment generation is not newer" in
  ensure len es <=? 2 else "retained deployment set is full" in
  Ok {| pl_deployment := x; pl_id := the_id; pl_state := s; pl_entries := es; pl_choice := choice |}.

(** * Space *)

(** The bytes a collection frees on a destination: of files of its filesystem
    with no other link. *)
Definition reclaimed_bytes (c : Collection) (m : Mount) d : result Z :=
  let? dev := mount_dev m d in
  (fix go (files : list Victim) (n : Z) : result Z :=
     match files with
     | [] => Ok n
     | v :: rest =>
         let? s := stat v d in
         go rest (wrap64 (n + if (st_dev s =? dev) && (st_nlink s =? 1) then wrap64 (st_blocks s * 512) else 0))
     end) (col_files c) 0.
Definition reclaimed_lebs (c : Collection) : Z :=
  foldl (λ n v, wrap64 (n + vol_reserved_lebs v)) 0 (col_volumes c).

(** The filesystems written, with the bytes to write and those to keep free. *)
Definition destinations (sizes : Sizes) d : list (Mount * Z * Z) :=
  (MountSystem, sz_system sizes, system_reserve_of reserves d)
  :: match Deployments.w_boot (dv_store d) with
     | Deployments.BackendUefi _ => [(MountEsp, sz_esp sizes, esp_reserve reserves)]
     | Deployments.BackendRecords _ => []
     end.

Definition mount_directory (m : Mount) : M device unit :=
  match m with MountSystem => on_system (directory "") | MountEsp => on_esp (directory "") end.

(** Room for the new objects once the collection is applied. *)
Definition check_room (c : Collection) (dest : Mount * Z * Z) : M device unit :=
  let '(m, b, reserve) := dest in
  let! _ := mount_directory m in
  let! space := slift (statvfs m) in
  let! freed := slift (reclaimed_bytes c m) in
  slift (λ _, room space freed b reserve).

(** The same, after it was applied. *)
Definition check_reclaimed (dest : Mount * Z * Z) : M device unit := slift (λ d,
  let '(m, b, reserve) := dest in
  let? space := statvfs m d in
  ensure wrap64 (b + reserve) <=? wrap64 (f_bavail space * f_frsize space)
    else "insufficient reclaimed destination space" in
  Ok tt).

(** * The transaction *)

Definition cleared_state (p : Plan) : Deployments.State :=
  let s := pl_state p in
  {| Deployments.highest_generation := Deployments.highest_generation s;
     Deployments.current := Deployments.current s; Deployments.fallback := None;
     Deployments.candidate := None; Deployments.failed := Deployments.failed s |}.

(** The old fallback is made unbootable, durably, before its objects go. *)
Definition clear receipt (p : Plan) (c : Collection) : M device unit :=
  let! _ := in_store (Deployments.retain_entries (pl_entries p) [Some (Deployments.rc_deployment_id receipt)]) in
  let! _ := in_store (Deployments.save_state (cleared_state p)) in
  let! _ := apply_collection c in
  sret tt.

Definition rootfs_hash (x : Deployment) : string := "roots/" +:+ r_id (d_rootfs x) +:+ "/rootfs.roothash".
Definition support_hash (x : Deployment) : string := "kernels/" +:+ k_id (d_kernel x) +:+ "/support.roothash".

(** The objects, the root hashes and the descriptor. *)
Definition put_files (envelope : bytes) (x : Deployment) (the_id : string) (objects : tree)
    (files : list (Place * Artifact)) : M device unit :=
  let! _ := publish_all objects files in
  let! _ := on_system (write_once (rootfs_hash x) (str_bytes (vi_root_hash (r_content (d_rootfs x)))) 64
              "existing root hash differs") in
  let! _ := on_system (write_once (support_hash x) (str_bytes (vi_root_hash (k_support (d_kernel x)))) 64
              "existing root hash differs") in
  let! _ := on_system (directory "deployments") in
  on_system (write_once (descriptor_path the_id) envelope 24576 "deployment ID was reused").

(** The document of the sets with the running deployment's binding alone, and
    the new deployment paired with the set it boots with. *)
Definition unpaired (running : string) (s : SetState) : SetState :=
  {| ss_current := ss_current s; ss_pending := ss_pending s; ss_pair := None;
     ss_bound := filter (λ b, b.1 = running) (ss_bound s) |}.
Definition paired_with (the_id set_id : string) (s : SetState) : SetState :=
  {| ss_current := ss_current s; ss_pending := Some set_id; ss_pair := Some the_id; ss_bound := ss_bound s |}.

(** The new deployment's set is named before its entry exists. *)
Definition name_sets receipt (p : Plan) (objects : tree) : M device unit :=
  let! cores := slift (λ d, SetState.read_state (dv_sets d)) in
  let cores := unpaired (Deployments.rc_deployment_id receipt) cores in
  let! cores := match pl_choice p with
                | Keep => sret cores
                | Pair the_set set envelope =>
                    let! _ := publish_set statvfs reserves set envelope objects in
                    sret (paired_with (pl_id p) the_set cores)
                end in
  in_sets (write_state cores).

Definition installed_state (p : Plan) : Deployments.State :=
  {| Deployments.highest_generation := d_generation (pl_deployment p);
     Deployments.current := Deployments.current (pl_state p); Deployments.fallback := None;
     Deployments.candidate := Some (pl_id p); Deployments.failed := Deployments.failed (pl_state p) |}.

(** [install]. *)
Definition install (envelope : bytes) keys (target : Target) (objects : tree) receipt (latest : option bytes) :
    M device Deployments.State :=
  let! p := slift (admissible envelope keys target objects receipt latest) in
  let x := pl_deployment p in
  let! files := slift (λ d, Ok (object_paths d x)) in
  let! sizes := slift (measure objects files {| sz_system := 0; sz_esp := 0; sz_lebs := 0 |}) in
  let! c := slift (collection envelope_parse envelope_print boot_trust receipt keys
                     {[Deployments.rc_deployment_id receipt]} (Some x)) in
  let! dests := slift (λ d, Ok (destinations sizes d)) in
  let! _ := slift (ubi_room reserves (reclaimed_lebs c) (sz_lebs sizes) "insufficient UBI space") in
  let! _ := each_step (check_room c) dests in
  let! _ := clear receipt p c in
  let! _ := each_step check_reclaimed dests in
  let! _ := slift (ubi_room reserves 0 (sz_lebs sizes) "insufficient reclaimed UBI space") in
  let! _ := put_files envelope x (pl_id p) objects files in
  let! _ := name_sets receipt p objects in
  let! _ := activate x (pl_id p) in
  let! _ := in_store (Deployments.save_state (installed_state p)) in
  sret (installed_state p).

End install.

(** * Lemmas *)

Section spec.
Context {CR : Crypto} {JS : Json} {CD : Codec Deployment} {CS : Codec UpdateSet} {A U : Type}
  {HA : Records A} {HU : Records U} {UD : UbiDevice U}
  (envelope_parse : bytes → option Envelope) (envelope_print : Envelope → bytes)
  (boot_trust : Deployments.BootTrust).
#[local] Existing Instance both.
#[local] Notation device := (device (A + U)).
Context (statvfs : Mount → device → result Space) (reserves : Reserves)
  (stat : Victim → device → result Stat) (mount_dev : Mount → device → result Z).
Implicit Types (receipt : Deployments.BootReceipt) (keys : list key) (d : device).
#[local] Notation admissible := (admissible (A := A) (HR := both) envelope_parse envelope_print boot_trust).
#[local] Notation clear := (clear (A := A) (HR := both)).

(** ** Admission *)

(** The running deployment's entry: confirmed, and older than the new one. *)
Definition running_entry receipt (x : Deployment) (es : list Deployments.Entry) (run : Deployments.Entry) : Prop :=
  run ∈ es ∧ Deployments.e_id run = Deployments.rc_deployment_id receipt
  ∧ Deployments.e_tries run = None ∧ Deployments.e_generation run < d_generation x.

Definition admitted envelope keys target objects receipt latest d (p : Plan) : Prop :=
  authenticate_deployment envelope_parse envelope_print envelope keys = Ok (pl_deployment p)
  ∧ deployment_id (pl_deployment p) = Ok (pl_id p)
  ∧ Deployments.entries (dv_store d) = Ok (pl_entries p)
  ∧ pl_id p ∉ map Deployments.e_id (pl_entries p)
  ∧ core_choice envelope_parse envelope_print (pl_deployment p) keys target objects latest (dv_sets d) = Ok (pl_choice p)
  ∧ Deployments.current (pl_state p) = Some (Deployments.rc_deployment_id receipt)
  ∧ Deployments.effective_state (dv_store d) = Ok (pl_state p)
  ∧ ∃ run, running_entry receipt (pl_deployment p) (pl_entries p) run.

Lemma admissible_ok envelope keys target objects receipt latest d p :
  admissible envelope keys target objects receipt latest d = Ok p →
  admitted envelope keys target objects receipt latest d p.
Proof.
  unfold Install.admissible. intros H. apply rbind_ok in H as (x & Hx & H). do 3 apply if_ok in H as [_ H].
  apply rbind_ok in H as (i & Hi & H). apply rbind_ok in H as (s & Hs & H). apply rbind_ok in H as (es & He & H).
  apply if_ok in H as [Hnew H]. apply if_ok in H as [_ H]. apply rbind_ok in H as (choice & Hc & H).
  apply rbind_unit in H as [_ H]. apply if_ok in H as [Hrun H]. apply if_ok in H as [Hgen H].
  apply if_ok in H as [_ H]. injection H as <-. bools.
  split; [exact Hx|]. split; [exact Hi|]. split; [exact He|]. split.
  { intros (e & Hid & Hin)%list_elem_of_fmap. match goal with H : existsb _ es = false |- _ => apply not_true_iff_false in H; apply H end.
    apply Deployments.existsb_elem. exists e. split; [done|]. by apply bool_decide_eq_true. }
  split; [exact Hc|]. split; [done|]. split; [exact Hs|].
  match goal with H : existsb _ es = true |- _ => apply Deployments.existsb_elem in H as (run & Hin & Hb) end. bools.
  exists run. split; [done|]. split; [done|]. split; [done|].
  match goal with H : forallb _ es = true |- _ => rewrite forallb_forall in H; apply list_elem_of_In in Hin; apply H in Hin end.
  cbn in *. by bools.
Qed.

(** ** What the running deployment keeps *)

(** The files of the running deployment and of the sets. *)
Definition survivor receipt (run : Deployment) (path : string) : Prop :=
  stable path ∧ (uses (Deployments.rc_deployment_id receipt) run path ∨ ∃ rest, path = "sets/" +:+ rest).
Definition keeps_running receipt (run : Deployment) d d' : Prop :=
  (∀ path n, survivor receipt run path → dv_system d !! path = Some n → dv_system d' !! path = Some n)
  ∧ let kernel := "EFI/mica/kernels/" +:+ k_id (d_kernel run) +:+ ".efi" in
    ∀ n, dv_esp d !! kernel = Some n → dv_esp d' !! kernel = Some n.

Lemma keeps_running_trans receipt run d1 d2 d3 :
  keeps_running receipt run d1 d2 → keeps_running receipt run d2 d3 → keeps_running receipt run d1 d3.
Proof. intros [A1 A2] [B1 B2]. split; auto. Qed.
Lemma keeps_running_same receipt run d d' :
  dv_system d' = dv_system d → dv_esp d' = dv_esp d → keeps_running receipt run d d'.
Proof. intros H1 H2. split; cbn; by rewrite ?H1, ?H2. Qed.

Lemma kernel_stable k : stable ("EFI/mica/kernels/" +:+ k +:+ ".efi").
Proof.
  split; rewrite <- append_assoc; [by apply (ends_with_last _ _ _ "l" "i")|by apply (ends_with_last _ _ _ "g" "i")].
Qed.

Lemma keeps_running_adds receipt run d d' : only_adds d d' → keeps_running receipt run d d'.
Proof.
  intros (_ & _ & _ & _ & H1 & H2). split.
  - intros path n [Hs _]. by apply H1.
  - cbn. intros n. apply H2. apply kernel_stable.
Qed.

Lemma keeps_running_collecting receipt keys incoming c d0 d d' es run :
  collection envelope_parse envelope_print boot_trust receipt keys {[Deployments.rc_deployment_id receipt]} incoming d0 = Ok c →
  read_descriptor envelope_parse envelope_print keys (dv_system d0) (Deployments.rc_deployment_id receipt) = Ok run →
  collecting c es d d' → keeps_running receipt run d d'.
Proof.
  intros Hc Hrun (H1 & H2 & _).
  destruct (collection_spares _ _ _ _ _ _ _ _ _ _ _ Hc (elem_of_singleton_2 _ _ eq_refl) Hrun) as [Hspare Hesp].
  split.
  - intros path n [_ Hu] Hn. rewrite H1; [done|].
    destruct Hu as [Hu|[rest ->]]; [by apply Hspare|exact (collection_spares_sets envelope_parse envelope_print boot_trust receipt keys _ incoming d0 c rest Hc)].
  - cbn. intros n Hn. by rewrite H2.
Qed.

(** ** Before the entry exists *)

#[local] Notation keep receipt := [Some (Deployments.rc_deployment_id receipt)].

(** The state document is the old one, or names the running deployment alone. *)
Definition document_ok receipt (p : Plan) d d' : Prop :=
  Deployments.w_state (dv_store d') = Deployments.w_state (dv_store d)
  ∨ ∃ s, Deployments.w_state (dv_store d') = Holds s
      ∧ Deployments.current s = Some (Deployments.rc_deployment_id receipt)
      ∧ Deployments.fallback s = None ∧ Deployments.failed s = Deployments.failed (pl_state p).

(** A device on which the new deployment has no entry yet: the running one has
    its entry and its files, the sets' document being [sets]. *)
Definition before_entry (sets : doc SetState) receipt (p : Plan) (run : Deployment) d d' : Prop :=
  keeps_running receipt run d d' ∧ Deployments.in_service (dv_store d') ∧ ubi d' = None
  ∧ document_ok receipt p d d' ∧ sw_state (dv_sets d') = sets
  ∧ ∃ es, Deployments.entries (dv_store d') = Ok es ∧ Deployments.partly_kept (keep receipt) (pl_entries p) es.

Lemma before_entry_adds sets receipt p run d d1 d2 :
  before_entry sets receipt p run d d1 → only_adds d1 d2 → before_entry sets receipt p run d d2.
Proof.
  intros (H1 & H2 & H3 & H4 & H5 & H6) Ha. pose proof Ha as (Hst & Hse & _).
  unfold before_entry, document_ok, ubi in *. rewrite Hst, Hse. split; [|done].
  eapply keeps_running_trans; [exact H1|by apply keeps_running_adds].
Qed.

Lemma before_entry_collecting sets receipt keys incoming p run c es d0 d d1 d2 :
  collection envelope_parse envelope_print boot_trust receipt keys {[Deployments.rc_deployment_id receipt]} incoming d0 = Ok c →
  read_descriptor envelope_parse envelope_print keys (dv_system d0) (Deployments.rc_deployment_id receipt) = Ok run →
  Deployments.entries (dv_store d1) = Ok es →
  before_entry sets receipt p run d d1 → collecting c es d1 d2 → before_entry sets receipt p run d d2.
Proof.
  intros Hc Hrun He (H1 & H2 & H3 & H4 & H5 & es' & H6 & H7) Hcol.
  pose proof Hcol as (_ & _ & C3 & _ & (C5 & C6 & C7) & C8).
  assert (es' = es) as -> by congruence.
  split; [eapply keeps_running_trans; [exact H1|by eapply keeps_running_collecting]|].
  split; [done|]. split; [done|]. split; [by unfold document_ok in *; rewrite C5|].
  split; [congruence|]. by exists es.
Qed.

Lemma kept_running the_id es run :
  NoDup (map Deployments.e_id es) → run ∈ es → Deployments.e_id run = the_id →
  Deployments.kept_only [Some the_id] es = [run].
Proof.
  intros Hn Hin <-. unfold Deployments.kept_only, Deployments.keeps.
  assert (Hk : ∀ e, bool_decide (Some (Deployments.e_id e) ∈ [Some (Deployments.e_id run)])
             = bool_decide (Deployments.e_id e = Deployments.e_id run)).
  { intros e. apply bool_decide_ext. rewrite list_elem_of_singleton. split; congruence. }
  rewrite (List.filter_ext _ _ Hk). clear Hk. revert Hn Hin. induction es as [|e es IH]; [by intros _ ?%not_elem_of_nil|]. cbn.
  rewrite NoDup_cons. intros [He Hn] Hin.
  assert (Hnone : ∀ l i, i ∉ map Deployments.e_id l → List.filter (λ x, bool_decide (Deployments.e_id x = i)) l = []).
  { clear. intros l i. induction l as [|a l IH]; [done|]. cbn. rewrite not_elem_of_cons. intros [Ha Hl].
    rewrite bool_decide_eq_false_2 by done. by apply IH. }
  apply elem_of_cons in Hin as [->|Hin].
  - rewrite bool_decide_eq_true_2 by done. by rewrite Hnone.
  - rewrite bool_decide_eq_false_2; [by apply IH|]. intros E. apply He. rewrite E. by apply list_elem_of_fmap_2.
Qed.

(** The old fallback cleared away: the running deployment's entry alone is left. *)
Lemma clear_safe receipt keys incoming p run e c d0 d :
  collection envelope_parse envelope_print boot_trust receipt keys {[Deployments.rc_deployment_id receipt]} incoming d0 = Ok c →
  read_descriptor envelope_parse envelope_print keys (dv_system d0) (Deployments.rc_deployment_id receipt) = Ok run →
  Deployments.in_service (dv_store d) → ubi d = None → Deployments.entries (dv_store d) = Ok (pl_entries p) →
  Deployments.current (pl_state p) = Some (Deployments.rc_deployment_id receipt) →
  running_entry receipt (pl_deployment p) (pl_entries p) e →
  let before := before_entry (sw_state (dv_sets d)) receipt p run d in
  safe (clear receipt p c d)
    (λ _ d', before d' ∧ Deployments.entries (dv_store d') = Ok [e]
       ∧ Deployments.w_state (dv_store d') = Holds (cleared_state p)) before.
Proof.
  intros Hc Hrun Hs Hu He Hcur (Hin & Hid & _ & _) before.
  pose proof (Deployments.entries_ids _ _ Hs He) as Hnd.
  destruct (Deployments.retain_spec (dv_store d) (pl_entries p) (pl_entries p) (keep receipt) Hs He Hnd) as [Hret _];
    [done|exists e; split; [done|]; unfold Deployments.keeps; rewrite Hid; by apply bool_decide_eq_true; left|].
  rewrite (kept_running _ _ _ Hnd Hin Hid) in Hret.
  apply no_ubi_device in Hu. pose proof (retain_no_ubi (pl_entries p) (keep receipt) _ Hu) as Hno.
  assert (Hbefore : ∀ w es, Deployments.entries_are (dv_store d) w es → no_ubi w →
    Deployments.partly_kept (keep receipt) (pl_entries p) es → before (set_store w d)).
  { intros w es (W1 & W2 & W3) Hw Hk. split; [by apply keeps_running_same|]. split; [done|].
    split; [by apply no_ubi_device|]. split; [by left|]. split; [done|]. by exists es. }
  eapply safe_step with (R := λ _ d', ∃ w, d' = set_store w d ∧ Deployments.entries_are (dv_store d) w [e] ∧ no_ubi w) (C' := before);
    [|done|].
  { apply safe_zoom. eapply safe_mono; [exact (safe_and _ _ _ _ _ Hret Hno)|..].
    - intros u w [Hw Hw']. by exists w.
    - intros w [(es & Hw & Hk) Hw']. by eapply Hbefore. }
  assert (Hpart : Deployments.partly_kept (keep receipt) (pl_entries p) [e]).
  { exists (λ _, false). rewrite <- (kept_running _ _ _ Hnd Hin Hid). unfold Deployments.kept_only.
    apply List.filter_ext. intros x. by rewrite orb_false_r. }
  intros u1 d1 (w & -> & Hw & Hw').
  set (d2 := set_store (Deployments.set_state (cleared_state p) w) d).
  assert (Hd2 : before d2).
  { destruct Hw as (W1 & W2 & W3). split; [by apply keeps_running_same|]. split; [exact W2|].
    split; [by apply no_ubi_device|]. split; [right; by exists (cleared_state p)|]. split; [done|]. by exists [e]. }
  eapply safe_step with (R := λ _ d', d' = d2) (C' := before); [|done|].
  { apply safe_zoom. apply safe_write; [by eapply Hbefore|exact Hd2|done]. }
  intros u2 d' ->.
  assert (He2 : Deployments.entries (dv_store d2) = Ok [e]) by exact (proj2 (proj2 Hw)).
  assert (Hcol : ∀ d', collecting c [e] d2 d' → before d') by (intros d' Hd'; by eapply before_entry_collecting).
  eapply safe_step with (R := λ _ d', collecting c [e] d2 d') (C' := before); [|done|].
  { eapply safe_mono; [apply (apply_collection_safe c [e] d2 d2)|by intros; done|exact Hcol].
    - intros name Hn. destruct (collection_files _ _ _ _ _ _ _ _ _ Hc) as (own & q & _ & _ & Hf & _).
      by destruct (Hf _ Hn) as [(? & [=] & _)|[(? & [=] & _)|[(? & [= ->] & ?)|[=]]]].
    - apply collecting_refl; [exact (proj1 (proj2 Hw))|exact He2|by apply no_ubi_device]. }
  intros u3 d3 H3. apply safe_ret; [by apply Hcol|]. split; [by apply Hcol|].
  destruct H3 as (_ & _ & _ & _ & (H3 & _ & H4) & _). split; [exact H4|exact H3].
Qed.

(** ** The files, and the sets' document *)

(** Everything of the new deployment but its entry. *)
Definition whole envelope (x : Deployment) (the_id : string) (files : list (Place * Artifact)) d : Prop :=
  (∀ f, f ∈ files → artifact_at f.1 f.2 d)
  ∧ holds_file (rootfs_hash x) (str_bytes (vi_root_hash (r_content (d_rootfs x)))) d
  ∧ holds_file (support_hash x) (str_bytes (vi_root_hash (k_support (d_kernel x)))) d
  ∧ holds_file (descriptor_path the_id) envelope d.

Lemma object_paths_places d x f : ubi d = None → f ∈ object_paths d x → file_place f.1.
Proof.
  intros Hu Hf. unfold object_paths, large_object in Hf. rewrite Hu in Hf.
  rewrite !elem_of_cons, elem_of_nil in Hf.
  destruct Hf as [->|[->|[->|[->|[->|[]]]]]]; cbn; try (rewrite <- append_assoc; apply stable_by; cbn; (lia || reflexivity)).
  destruct (Deployments.w_boot _); [apply kernel_stable|]. rewrite <- append_assoc; apply stable_by; cbn; (lia || reflexivity).
Qed.

Lemma whole_kept envelope x the_id files d d' :
  (∀ f, f ∈ files → file_place f.1) → only_adds d d' → whole envelope x the_id files d → whole envelope x the_id files d'.
Proof.
  intros Hp Ha (H1 & H2 & H3 & H4). split; [|split; [|split]].
  - intros f Hf. eapply artifact_at_kept; [by apply Hp|exact Ha|by apply H1].
  - eapply holds_file_kept; [|exact Ha|exact H2]. unfold rootfs_hash. rewrite <- append_assoc. apply stable_by; cbn; (lia || reflexivity).
  - eapply holds_file_kept; [|exact Ha|exact H3]. unfold support_hash. rewrite <- append_assoc. apply stable_by; cbn; (lia || reflexivity).
  - eapply holds_file_kept; [|exact Ha|exact H4]. unfold descriptor_path. rewrite <- append_assoc. apply stable_json.
Qed.

Lemma put_files_safe envelope x the_id objects files d0 d :
  (∀ f, f ∈ files → file_place f.1) → only_adds d0 d →
  safe (put_files envelope x the_id objects files d)
    (λ _ d', whole envelope x the_id files d' ∧ only_adds d d') (only_adds d0).
Proof.
  intros Hp Hd.
  assert (Hr : stable (rootfs_hash x)) by (unfold rootfs_hash; rewrite <- append_assoc; apply stable_by; cbn; (lia || reflexivity)).
  assert (Hk : stable (support_hash x)) by (unfold support_hash; rewrite <- append_assoc; apply stable_by; cbn; (lia || reflexivity)).
  assert (Hj : stable (descriptor_path the_id)) by (unfold descriptor_path; rewrite <- append_assoc; apply stable_json).
  eapply safe_step; [by apply (publish_all_safe objects files d0 d)|done|]. intros u1 d1 [Hobj H1].
  assert (H01 : only_adds d0 d1) by exact (only_adds_trans _ _ _ Hd H1).
  eapply safe_step; [apply (system_write_once_safe _ _ _ _ d0 d1 Hr H01)|done|]. intros u2 d2 [Hroot H2].
  assert (H02 : only_adds d0 d2) by exact (only_adds_trans _ _ _ H01 H2).
  eapply safe_step; [apply (system_write_once_safe _ _ _ _ d0 d2 Hk H02)|done|]. intros u3 d3 [Hsup H3].
  assert (H03 : only_adds d0 d3) by exact (only_adds_trans _ _ _ H02 H3).
  eapply safe_step; [by apply system_directory_safe|done|]. intros u4 d4 H4.
  assert (H04 : only_adds d0 d4) by exact (only_adds_trans _ _ _ H03 H4).
  eapply safe_mono; [apply (system_write_once_safe _ _ _ _ d0 d4 Hj H04)| |done]. intros u5 d5 [Hdesc H5].
  assert (H35 : only_adds d3 d5) by exact (only_adds_trans _ _ _ H4 H5).
  assert (H25 : only_adds d2 d5) by exact (only_adds_trans _ _ _ H3 H35).
  assert (H15 : only_adds d1 d5) by exact (only_adds_trans _ _ _ H2 H25).
  split; [|exact (only_adds_trans _ _ _ H1 H15)]. split; [|split; [|split]].
  - intros f Hf. eapply artifact_at_kept; [by apply Hp|exact H15|by apply Hobj].
  - exact (holds_file_kept _ _ _ _ Hr H25 Hroot).
  - exact (holds_file_kept _ _ _ _ Hk H35 Hsup).
  - exact Hdesc.
Qed.

(** The set chosen for the new deployment is there. *)
Definition chosen (p : Plan) d : Prop :=
  match pl_choice p with Keep => True | Pair _ set envelope => published set envelope d end.

(** The sets' document the new deployment boots with. *)
Definition named_state receipt (p : Plan) (cores : SetState) : SetState :=
  let cores := unpaired (Deployments.rc_deployment_id receipt) cores in
  match pl_choice p with Keep => cores | Pair the_set _ _ => paired_with (pl_id p) the_set cores end.

#[local] Notation name_sets := (name_sets statvfs reserves).

(** Until the document is written files are only added; then it is the named one. *)
Lemma name_sets_safe receipt p objects d0 d :
  ubi d = None → only_adds d0 d →
  let named d' := ∃ cores d1, SetState.read_state (dv_sets d) = Ok cores ∧ only_adds d d1 ∧ chosen p d1
    ∧ d' = set_sets (set_sw_state (named_state receipt p cores) (dv_sets d1)) d1 in
  safe (name_sets receipt p objects d) (λ _ d', named d') (λ d', only_adds d0 d' ∨ named d').
Proof.
  intros Hu Hd named. apply safe_read; [by left|]. intros cores Hcores.
  eapply safe_step with (R := λ s d1, s = named_state receipt p cores ∧ only_adds d d1 ∧ chosen p d1) (C' := only_adds d0);
    [|by left|].
  - unfold chosen, named_state. destruct (pl_choice p) as [|the_set set env].
    + apply safe_ret; [exact Hd|]. split; [done|]. split; [apply only_adds_refl|done].
    + eapply safe_step; [by apply (publish_set_safe statvfs reserves set env objects d0 d Hu Hd)|done|].
      intros u d1 [Hpub H1]. apply safe_ret; [exact (only_adds_trans _ _ _ Hd H1)|]. done.
  - intros s d1 (-> & H1 & Hch). apply safe_zoom. unfold write_state.
    assert (Hself : only_adds d0 (set_sets (dv_sets d1) d1)) by (destruct d1; exact (only_adds_trans _ _ _ Hd H1)).
    assert (Hn : named (set_sets (set_sw_state (named_state receipt p cores) (dv_sets d1)) d1)) by by exists cores, d1.
    apply safe_ensure; [by left|]. intros _. apply safe_write; [by left|by right|exact Hn].
Qed.

(** ** The whole transaction *)

(** A device on which the new deployment has its entry, and everything of it. *)
Definition entered envelope receipt (p : Plan) (run : Deployment) files d d' : Prop :=
  keeps_running receipt run d d' ∧ Deployments.in_service (dv_store d')
  ∧ (∃ s, Deployments.w_state (dv_store d') = Holds s
        ∧ Deployments.current s = Some (Deployments.rc_deployment_id receipt)
        ∧ Deployments.fallback s = None ∧ Deployments.failed s = Deployments.failed (pl_state p))
  ∧ (∃ cores, SetState.read_state (dv_sets d) = Ok cores ∧ sw_state (dv_sets d') = Holds (named_state receipt p cores))
  ∧ whole envelope (pl_deployment p) (pl_id p) files d' ∧ chosen p d'
  ∧ ∃ es e, Deployments.entries (dv_store d') = Ok es ∧ running_entry receipt (pl_deployment p) (pl_entries p) e
          ∧ activated (pl_deployment p) (pl_id p) e es.

(** A device on which it has not. *)
Definition not_entered receipt (p : Plan) (run : Deployment) d d' : Prop :=
  before_entry (sw_state (dv_sets d)) receipt p run d d'
  ∨ ∃ cores, SetState.read_state (dv_sets d) = Ok cores
           ∧ before_entry (Holds (named_state receipt p cores)) receipt p run d d' ∧ chosen p d'.

#[local] Notation check_room := (check_room statvfs stat mount_dev).

Lemma check_room_safe c dest d : safe (check_room c dest d) (λ _ d', d' = d) (λ d', d' = d).
Proof.
  destruct dest as [[m b] reserve]. eapply safe_step with (R := λ _ d', d' = d) (C' := λ d', d' = d); [|done|].
  - destruct m; apply safe_zoom; apply safe_ret; by destruct d as [? [] ? ?].
  - intros u d' ->. apply safe_read; [done|]. intros space _. apply safe_read; [done|]. intros freed _.
    by apply safe_lift.
Qed.

(** Steps that check and change nothing. *)
Lemma each_step_same {B} (f : B → M device unit) (l : list B) d :
  (∀ b, safe (f b d) (λ _ d', d' = d) (λ d', d' = d)) → safe (each_step f l d) (λ _ d', d' = d) (λ d', d' = d).
Proof.
  intros Hf. apply (each_step_safe f l d (λ d', d' = d)); [|done]. intros b d' _ ->. apply Hf.
Qed.

Lemma chosen_kept p d d' : ubi d = None → only_adds d d' → chosen p d → chosen p d'.
Proof. intros Hu Ha. unfold chosen. destruct (pl_choice p); [done|]. by apply published_kept. Qed.

Lemma only_adds_files_same d d' :
  dv_system d' = dv_system d → dv_esp d' = dv_esp d → ∀ place a, artifact_at place a d → artifact_at place a d'.
Proof. intros H1 H2 [] a; cbn; by rewrite ?H1, ?H2. Qed.

Lemma whole_same envelope x the_id files d d' :
  dv_system d' = dv_system d → dv_esp d' = dv_esp d → whole envelope x the_id files d → whole envelope x the_id files d'.
Proof.
  intros H1 H2 (W1 & W2 & W3 & W4). unfold whole, holds_file in *. rewrite H1.
  split; [|done]. intros f Hf. by apply (only_adds_files_same d d' H1 H2), W1.
Qed.

Lemma chosen_same p d d' :
  ubi d = None → ubi d' = None → dv_system d' = dv_system d → dv_esp d' = dv_esp d → chosen p d → chosen p d'.
Proof.
  intros U1 U2 H1 H2. unfold chosen. destruct (pl_choice p) as [|i set env]; [done|].
  unfold published, holds_file. rewrite H1. intros (P1 & P2 & P3). split; [|done].
  assert (set_objects d' set = set_objects d set) as -> by (unfold set_objects, large_object; by rewrite U1, U2).
  intros f Hf. by apply (only_adds_files_same d d' H1 H2), P1.
Qed.

(** The sets' document written over files added to a cleared device. *)
Lemma named_stands envelope receipt p run files cores d d3 d4 d1 :
  ubi d4 = None → (∀ f, f ∈ files → file_place f.1) →
  SetState.read_state (dv_sets d) = Ok cores → before_entry (sw_state (dv_sets d)) receipt p run d d3 →
  only_adds d3 d4 → whole envelope (pl_deployment p) (pl_id p) files d4 → only_adds d4 d1 → chosen p d1 →
  let d' := set_sets (set_sw_state (named_state receipt p cores) (dv_sets d1)) d1 in
  ∃ cores, SetState.read_state (dv_sets d) = Ok cores
    ∧ sw_state (dv_sets d') = Holds (named_state receipt p cores) ∧ dv_store d' = dv_store d3
    ∧ before_entry (Holds (named_state receipt p cores)) receipt p run d d'
    ∧ whole envelope (pl_deployment p) (pl_id p) files d' ∧ chosen p d'.
Proof.
  intros Hu4 Hp Hc Hb H4 Hw H1 Hch d'. exists cores. split; [done|]. split; [done|].
  assert (H31 : only_adds d3 d1) by exact (only_adds_trans _ _ _ H4 H1).
  assert (Hu1 : ubi d1 = None) by (unfold ubi; rewrite (proj1 H1); exact Hu4).
  split; [exact (proj1 H31)|]. split; [|split].
  - pose proof (before_entry_adds _ _ _ _ _ _ _ Hb H31) as (K & S & U1 & D & _ & E).
    split; [eapply keeps_running_trans; [exact K|by apply keeps_running_same]|]. done.
  - apply (whole_same _ _ _ _ d1); [done..|]. by apply (whole_kept _ _ _ _ d4).
  - by apply (chosen_same p d1).
Qed.

(** Nothing of the entries but the running one's. *)
Lemma only_entries_stands sets receipt p run d d5 d' e :
  before_entry sets receipt p run d d5 → Deployments.entries (dv_store d5) = Ok [e] →
  only_entries d5 d' [e] → before_entry sets receipt p run d d'.
Proof.
  intros (K & S & U5 & D & Hs & es & He & Hk) He5 ((O1 & O2 & O3) & O4 & O5 & O6 & O7).
  assert (es = [e]) as -> by congruence.
  split; [eapply keeps_running_trans; [exact K|]; apply keeps_running_same; [unfold dv_system; by rewrite O4|done]|].
  split; [done|]. split; [done|]. split; [by unfold document_ok in *; rewrite O1|]. split; [by rewrite O4|]. by exists [e].
Qed.

(** From a device cleared for the new deployment to the entry. *)
Lemma enter_safe envelope receipt p run files objects e d d3 :
  let x := pl_deployment p in
  files = object_paths d x → ubi d = None →
  activable x → hex_id (pl_id p) = true →
  running_entry receipt x (pl_entries p) e → pl_id p ∉ map Deployments.e_id (pl_entries p) →
  Deployments.current (pl_state p) = Some (Deployments.rc_deployment_id receipt) →
  before_entry (sw_state (dv_sets d)) receipt p run d d3 → Deployments.entries (dv_store d3) = Ok [e] →
  let state d' := Deployments.w_state (dv_store d') in
  state d3 = Holds (cleared_state p) →
  safe ((let! _ := put_files envelope x (pl_id p) objects files in
         let! _ := name_sets receipt p objects in
         let! _ := activate (A := A) (HR := both) x (pl_id p) in
         let! _ := in_store (Deployments.save_state (installed_state p)) in
         sret (installed_state p)) d3)
    (λ s d', s = installed_state p ∧ entered envelope receipt p run files d d' ∧ state d' = Holds s)
    (λ d', not_entered receipt p run d d' ∨ entered envelope receipt p run files d d').
Proof.
  intros x Hfiles Hu Hx Hid He Hnew Hcur Hb3 He3 state Hst3.
  set (C := λ d', not_entered receipt p run d d' ∨ entered envelope receipt p run files d d').
  pose proof Hb3 as (_ & _ & Hu3 & _ & Hsets3 & _).
  assert (Hp : ∀ f, f ∈ files → file_place f.1) by (intros f; rewrite Hfiles; by apply object_paths_places).
  assert (HC1 : ∀ d', only_adds d3 d' → C d') by (intros d' Hd'; left; left; by eapply before_entry_adds).
  eapply safe_step; [apply (put_files_safe envelope x (pl_id p) objects files d3 d3 Hp); apply only_adds_refl|exact HC1|].
  intros u4 d4 [Hw4 H4]. assert (Hu4 : ubi d4 = None) by (unfold ubi; rewrite (proj1 H4); exact Hu3).
  assert (Hread : SetState.read_state (dv_sets d4) = SetState.read_state (dv_sets d)).
  { unfold SetState.read_state. rewrite (proj1 (proj2 H4)), Hsets3. done. }
  set (R5 d' := ∃ cores, SetState.read_state (dv_sets d) = Ok cores
    ∧ sw_state (dv_sets d') = Holds (named_state receipt p cores) ∧ dv_store d' = dv_store d3
    ∧ before_entry (Holds (named_state receipt p cores)) receipt p run d d'
    ∧ whole envelope x (pl_id p) files d' ∧ chosen p d').
  eapply safe_step with (R := λ _ d', R5 d') (C' := C); [|done|].
  { eapply safe_mono; [apply (name_sets_safe receipt p objects d4 d4 Hu4); apply only_adds_refl|..].
    - intros u d' (cores & d1 & Hc & H1 & Hch & ->). apply (named_stands _ _ _ _ _ cores d d3 d4 d1); try done.
      congruence.
    - intros d' [Hd'|(cores & d1 & Hc & H1 & Hch & ->)]; [apply HC1; exact (only_adds_trans _ _ _ H4 Hd')|].
      left; right. exists cores. split; [congruence|].
      destruct (named_stands envelope receipt p run files cores d d3 d4 d1) as (cores' & _ & E & _ & Hb & _ & Hch'); try done; [congruence|].
      injection E as E. rewrite <- E in Hb. done. }
  intros u5 d5 (cores & Hcores & Hsw & Hstore & Hb5 & Hw5 & Hch5).
  pose proof Hb5 as (K5 & S5 & U5 & _). destruct He as (Hin & Heid & Htr & Hgen).
  assert (Hne : Deployments.e_id e ≠ pl_id p).
  { intros E. apply Hnew. rewrite <- E. by apply list_elem_of_fmap_2. }
  assert (Hent : ∀ d' es s, only_entries d5 d' es → activated x (pl_id p) e es →
    Deployments.current s = Some (Deployments.rc_deployment_id receipt) → Deployments.fallback s = None →
    Deployments.failed s = Deployments.failed (pl_state p) →
    entered envelope receipt p run files d (set_store (Deployments.set_state s (dv_store d')) d')).
  { intros d' es s ((O1 & O2 & O3) & O4 & O5 & O6 & O7) Hact C1 C2 C3.
    assert (Hsys : dv_system d' = dv_system d5) by (unfold dv_system; by rewrite O4).
    split; [eapply keeps_running_trans; [exact K5|by apply keeps_running_same]|]. split; [exact O2|].
    split; [by exists s|]. split; [exists cores; split; [done|]; cbn; by rewrite O4|].
    split; [by apply (whole_same _ _ _ _ d5)|].
    split; [by apply (chosen_same p d5)|]. exists es, e. split; [exact O3|]. by split. }
  assert (Hent' : ∀ d' es, only_entries d5 d' es → activated x (pl_id p) e es → entered envelope receipt p run files d d').
  { intros d' es Ho Hact. pose proof (Hent d' es (cleared_state p) Ho Hact Hcur eq_refl eq_refl) as H.
    assert (set_store (Deployments.set_state (cleared_state p) (dv_store d')) d' = d') as E; [|by rewrite E in H].
    destruct Ho as ((O1 & _) & _). rewrite Hstore in O1. unfold state in Hst3. rewrite Hst3 in O1.
    destruct d' as [[ws wb] ? ? ?]. cbn in *. by rewrite O1. }
  eapply safe_step with (R := λ _ d', ∃ es, only_entries d5 d' es ∧ activated x (pl_id p) e es) (C' := C); [|done|].
  { eapply safe_mono; [apply (activate_safe x (pl_id p) d5 e); try done; by rewrite Hstore|by intros|].
    intros d' (es & Ho & [->|Hact]); [left; right|right; by eapply Hent'].
    exists cores. split; [done|]. split; [|by apply (chosen_same p d5); destruct Ho as (_ & E4 & ? & _ & ?);
      try done; unfold dv_system; rewrite E4].
    apply (only_entries_stands _ _ _ _ d d5 d' e); [done|by rewrite Hstore|done]. }
  intros u6 d6 (es & Ho & Hact).
  set (d7 := set_store (Deployments.set_state (installed_state p) (dv_store d6)) d6).
  assert (H7 : entered envelope receipt p run files d d7) by by eapply Hent.
  eapply safe_step with (R := λ _ d', d' = d7) (C' := C); [|done|].
  { apply safe_zoom. apply safe_write; [right|by right|done].
    assert (set_store (dv_store d6) d6 = d6) as -> by by destruct d6. by eapply Hent'. }
  intros u7 d' ->. apply safe_ret; [by right|]. done.
Qed.

(** On every durable state of an installation. *)
Definition installing envelope keys target objects receipt latest d d' : Prop :=
  ∃ p run, admitted envelope keys target objects receipt latest d p
    ∧ read_descriptor envelope_parse envelope_print keys (dv_system d) (Deployments.rc_deployment_id receipt) = Ok run
    ∧ (not_entered receipt p run d d' ∨ entered envelope receipt p run (object_paths d (pl_deployment p)) d d').

Definition done_installing envelope keys target objects receipt latest d (s : Deployments.State) d' : Prop :=
  ∃ p run, admitted envelope keys target objects receipt latest d p
    ∧ read_descriptor envelope_parse envelope_print keys (dv_system d) (Deployments.rc_deployment_id receipt) = Ok run
    ∧ s = installed_state p ∧ entered envelope receipt p run (object_paths d (pl_deployment p)) d d'
    ∧ Deployments.w_state (dv_store d') = Holds s.

#[local] Notation install := (install (A := A) (HR := both) envelope_parse envelope_print boot_trust statvfs reserves stat mount_dev).

Lemma retained_read receipt keys incoming d c :
  collection envelope_parse envelope_print boot_trust receipt keys {[Deployments.rc_deployment_id receipt]} incoming d = Ok c →
  ∃ run, read_descriptor envelope_parse envelope_print keys (dv_system d) (Deployments.rc_deployment_id receipt) = Ok run.
Proof.
  intros Hc. destruct (collection_files _ _ _ _ _ _ _ _ _ Hc) as (own & q & Hown & _).
  apply retained_parts_spec in Hown as [_ Hown].
  destruct (Hown (Deployments.rc_deployment_id receipt)) as (run & Hrun & _); [|by exists run].
  apply elem_of_elements. by apply elem_of_singleton.
Qed.

Lemma install_safe envelope keys target objects receipt latest d :
  (∀ b, hex_id (sha256 b) = true) →
  Deployments.in_service (dv_store d) → ubi d = None →
  safe (install envelope keys target objects receipt latest d)
    (done_installing envelope keys target objects receipt latest d)
    (λ d', d' = d ∨ installing envelope keys target objects receipt latest d d').
Proof.
  intros Hsha Hs Hu. set (C := λ d', d' = d ∨ _). assert (HC0 : C d) by by left.
  apply safe_read; [done|]. intros p Hp%admissible_ok. pose proof Hp as (Hx & Hi & He & Hnew & _ & Hcur & _ & e & Hrun).
  apply safe_read; [done|]. intros files [= <-]. apply safe_read; [done|]. intros sizes _.
  apply safe_read; [done|]. intros c Hc. apply safe_read; [done|]. intros dests _.
  apply safe_read; [done|]. intros u0 _. destruct (retained_read _ _ _ _ _ Hc) as [run Hr].
  eapply safe_step with (R := λ _ d', d' = d) (C' := λ d', d' = d); [|by intros d' ->|].
  { apply each_step_same. intros dest. apply check_room_safe. }
  intros u1 d' ->.
  eapply safe_step; [by apply (clear_safe receipt keys _ p run e c d d Hc Hr)|..].
  { intros d' Hd'. right. exists p, run. split; [done|]. split; [done|]. by left; left. }
  intros u2 d3 (Hb3 & He3 & Hst3).
  assert (HC3 : C d3) by (right; exists p, run; split; [done|]; split; [done|]; by left; left).
  eapply safe_step with (R := λ _ d', d' = d3) (C' := λ d', d' = d3); [|by intros d' ->|].
  { apply each_step_same. intros [[m b] reserve]. by apply safe_lift. }
  intros u3 d' ->. apply safe_read; [done|]. intros u4 _.
  assert (Hid : hex_id (pl_id p) = true).
  { unfold deployment_id, component_id in Hi. apply rbind_ok in Hi as (fs & _ & [= <-]). apply Hsha. }
  eapply safe_mono; [apply (enter_safe envelope receipt p run _ objects e d d3 eq_refl Hu
    (authenticated_activable _ _ _ _ _ Hx) Hid Hrun Hnew Hcur Hb3 He3 Hst3)|..].
  - intros s d' (-> & H1 & H2). exists p, run. split; [done|]. split; [done|]. done.
  - intros d' Hd'. right. exists p, run. done.
Qed.

End spec.

(** * Sample: a UEFI device with a spent fallback, and a newer deployment *)

Definition next_crypto : Crypto :=
  {| sha256 := λ b, if bool_decide (b = str_bytes "n") then Deployments.candidate_id else sample_hex;
     base64_decode := λ s, Some (str_bytes s); base64_encode := bytes_str; ed25519_verify := λ _ _ _, true |}.
Definition next_json : Json :=
  {| value := bytes; json_parse := Some; json_print := λ b, b; json_without := λ _ b, Some b;
     json_field := λ k _, str_bytes k; json_item := λ _ b, b; json_text := λ _, None |}.
Definition next_image : VerityImage :=
  {| vi_image := sample_artifact 4096; vi_root_hash := sample_hex; vi_signature := sample_artifact 4096;
     vi_verity := vi_verity small_image |}.
Definition next_version (generation : Z) : Deployment :=
  {| d_schema := d_schema sample_deployment; d_board := "x86-64"; d_arch := "amd64"; d_generation := generation;
     d_version := "1.3"; d_product := "mica"; d_data_policy := "unchanged";
     d_kernel := {| k_schema := "mica/kernel/v1"; k_id := sample_hex; k_board := "x86-64"; k_arch := "amd64";
                    k_build_id := sample_hex; k_release := "6.12"; k_boot_format := "uki";
                    k_boot_artifact := sample_artifact 4096; k_support := next_image; k_features := None |};
     d_rootfs := {| r_schema := "mica/rootfs/v1"; r_id := sample_hex; r_arch := "amd64"; r_content := next_image;
                    r_interface_level := 3; r_provides := None |};
     d_core_set := None |}.
Definition next_codec : Codec (JS := next_json) Deployment :=
  Build_Codec next_json Deployment
    (λ v : value (Json := next_json), Some (next_version (if bool_decide (v = str_bytes "n") then 8 else 7)))
    (λ x, str_bytes (if d_generation x =? 8 then "n" else "{}")).
Definition next_sets : Codec (JS := next_json) UpdateSet :=
  Build_Codec next_json UpdateSet (λ _ : value (Json := next_json), Some small_set) (λ _, str_bytes "{}").
Definition next_envelope (b : bytes) : option Envelope :=
  Some {| env_schema := env_schema sample_envelope; env_key_id := sample_hex;
          env_payload := if bool_decide (b = str_bytes "n") then "n" else "{}"; env_signature := sample_hex |}.
Definition next_print (e : Envelope) : bytes := str_bytes (if bool_decide (env_payload e = "n") then "n" else "e").

Definition block : node := Regular (replicate 4096 Ascii.zero).
Definition next_device : device (region + bench) :=
  {| dv_store := dv_store collect_device;
     dv_sets := {| sw_state := Holds {| ss_current := Some sample_hex; ss_pending := None; ss_pair := None; ss_bound := ∅ |};
                   sw_system := {[descriptor_path Deployments.sample_id := Regular (str_bytes "e");
                                  set_path Core sample_hex := Regular (str_bytes "e");
                                  stale_root := Regular []; sample_kernel := block]};
                   sw_trial := Absent; sw_meta_writable := true |};
     dv_esp := {["EFI/mica/kernels/" +:+ sample_hex +:+ ".efi" := block]}; dv_meta := ∅ |}.

Definition next_install : M (device (region + bench)) Deployments.State :=
  install (CR := next_crypto) (JS := next_json) (CD := next_codec) (CS := next_sets) (HR := collect_store)
    (UD := bench_device) next_envelope next_print Deployments.TrustNone roomy
    {| rv_system := None; rv_esp := None; rv_data := None |} (λ _ _, Ok {| st_dev := 1; st_nlink := 1; st_blocks := 8 |})
    (λ _ _, Ok 1) (str_bytes "n") [str_bytes "key"] sample_target {[sample_hex := block]} collect_receipt None.

(** * Properties *)

(** C1: an interrupted installation leaves a device that boots. On a board
    without UBI, at every power cut and on every error of [install], either
    nothing changed, or the deployment was admitted (it authenticates, is new,
    and is newer than every entry) and: the running deployment still has its
    confirmed entry, its descriptor, objects and boot file, and every file of the
    sets; and the new deployment has an entry only when each of its objects is in
    its place with the signed length and digest, its root hashes and descriptor
    are written, the sets' document pairs it with the set chosen for it, and
    that set is whole. A success ends with the two entries, the new one with
    three attempts, and the state that names it as candidate. *)
Theorem install_crash_safe {CR : Crypto} {JS : Json} {CD : Codec Deployment} {CS : Codec UpdateSet} {A U : Type}
    {HA : Records A} {HU : Records U} {UD : UbiDevice U} envelope_parse envelope_print boot_trust statvfs reserves stat
    mount_dev envelope keys target objects receipt latest (d : device (A + U)) :
  (∀ b, hex_id (sha256 b) = true) →
  Deployments.in_service (HR := both) (dv_store d) → ubi d = None →
  let o := install (A := A) (HR := both) envelope_parse envelope_print boot_trust statvfs reserves stat mount_dev
             envelope keys target objects receipt latest d in
  let admitted := admitted envelope_parse envelope_print envelope keys target objects receipt latest d in
  (∀ d', durable o d' →
     d' = d
     ∨ ∃ p run, admitted p
       ∧ read_descriptor envelope_parse envelope_print keys (dv_system d) (Deployments.rc_deployment_id receipt) = Ok run
       ∧ keeps_running receipt run d d' ∧ Deployments.in_service (HR := both) (dv_store d')
       ∧ ∃ es e, Deployments.entries (HR := both) (dv_store d') = Ok es ∧ e ∈ es
           ∧ running_entry receipt (pl_deployment p) (pl_entries p) e
           ∧ (pl_id p ∈ map Deployments.e_id es →
              entered envelope receipt p run (object_paths d (pl_deployment p)) d d'))
  ∧ (∀ s, o_result o = Ok s →
       ∃ p run, admitted p ∧ s = installed_state p ∧ Deployments.w_state (dv_store (o_state o)) = Holds s
         ∧ entered envelope receipt p run (object_paths d (pl_deployment p)) d (o_state o)).
Proof.
  intros Hsha Hs Hu o adm.
  pose proof (install_safe envelope_parse envelope_print boot_trust statvfs reserves stat mount_dev envelope keys target
    objects receipt latest d Hsha Hs Hu) as H.
  split.
  - intros d' Hd'. destruct (safe_durable _ _ _ H d' Hd') as [->|(p & run & Hp & Hr & Hc)]; [by left|right].
    exists p, run. split; [done|]. split; [done|]. pose proof Hp as (_ & _ & _ & Hnew & _ & _ & _ & e & Hrun).
    assert (Hbefore : ∀ sets, before_entry sets receipt p run d d' →
      keeps_running receipt run d d' ∧ Deployments.in_service (dv_store d')
      ∧ ∃ es, Deployments.entries (dv_store d') = Ok es ∧ e ∈ es ∧ pl_id p ∉ map Deployments.e_id es).
    { intros sets (K & S & _ & _ & _ & es & He & q & ->). split; [done|]. split; [done|]. eexists. split; [exact He|].
      destruct Hrun as (Hin & Hid & _). split.
      - apply Deployments.elem_of_filter. split; [|done]. apply orb_true_iff. left. unfold Deployments.keeps.
        rewrite Hid. apply bool_decide_eq_true. by left.
      - intros (a & Ha & Hin')%list_elem_of_fmap. apply Deployments.elem_of_filter in Hin' as [_ Hin'].
        apply Hnew. rewrite Ha. by apply list_elem_of_fmap_2. }
    assert (Hcase : (∃ sets, before_entry sets receipt p run d d')
      ∨ entered envelope receipt p run (object_paths d (pl_deployment p)) d d').
    { destruct Hc as [[Hb|(cores & _ & Hb & _)]|He]; [left; by eexists..|by right]. }
    destruct Hcase as [[sets Hb]|He].
    + destruct (Hbefore sets Hb) as (K & S & es & He & Hin & Hn). split; [done|]. split; [done|].
      exists es, e. split; [done|]. split; [done|]. split; [done|]. by intros.
    + pose proof He as (K & S & _ & _ & _ & _ & es & e' & Hes & Hrun' & b & -> & _). split; [done|]. split; [done|].
      exists [b; e'], e'. split; [done|]. split; [by right; left|]. by split.
  - intros s Hok. destruct (proj1 H s Hok) as (p & run & Hp & _ & -> & He & Hst). by exists p, run.
Qed.

Lemma next_hex b : hex_id (sha256 (Crypto := next_crypto) b) = true.
Proof. cbn. by case_bool_decide. Qed.

Lemma install_crash_safe_witness :
  let o := next_install next_device in
  is_ok (o_result o) = true
  ∧ ∃ es, Deployments.entries (HR := collect_store) (dv_store (o_state o)) = Ok es
      ∧ Deployments.candidate_id ∈ map Deployments.e_id es.
Proof.
  intros o. assert (Hok : is_ok (o_result o) = true) by (vm_compute; reflexivity). split; [exact Hok|].
  destruct (o_result o) as [s|] eqn:E; [|discriminate Hok].
  destruct (install_crash_safe (CR := next_crypto) (JS := next_json) (CD := next_codec) (CS := next_sets)
    (HA := fit_records sample_layout) (HU := ubi_records (UD := bench_device)) (UD := bench_device)
    next_envelope next_print Deployments.TrustNone roomy {| rv_system := None; rv_esp := None; rv_data := None |}
    (λ _ _, Ok {| st_dev := 1; st_nlink := 1; st_blocks := 8 |}) (λ _ _, Ok 1) (str_bytes "n") [str_bytes "key"]
    sample_target {[sample_hex := block]} collect_receipt None next_device next_hex) as [_ H];
    [exact (proj1 collect_device_ok)|reflexivity|].
  destruct (H s E) as (p & run & (Hx & Hi & _) & _ & _ & He).
  destruct He as (_ & _ & _ & _ & _ & _ & es & e & Hes & _ & a & -> & Ha & _).
  exists [a; e]. split; [exact Hes|]. rewrite <- Ha in Hi.
  assert (Ex : authenticate_deployment (CR := next_crypto) (JS := next_json) (CD := next_codec) next_envelope next_print
    (str_bytes "n") [str_bytes "key"] = Ok (next_version 8)) by (vm_compute; reflexivity).
  assert (Ei : deployment_id (CR := next_crypto) (JS := next_json) (CD := next_codec) (next_version 8)
    = Ok Deployments.candidate_id) by (vm_compute; reflexivity).
  rewrite Ex in Hx. injection Hx as Hx. rewrite <- Hx, Ei in Hi. injection Hi as ->. left.
Defined.

End Install.
