(* ===== verification/Chunks.v ===== *)
(** Content-defined chunking and the transfer index
    ([src/crates/mica-deploy/src/chunks.rs]): the streaming chunker, held to a
    declarative cut of the whole input, and the index of one object's chunks. *)
From Stdlib Require Import Ascii.
From S2P Require Import Prelude Text Files Boot Components.
Import Files Boot Components.

Module Chunks.

Definition MIN_CHUNK : Z := 4096.
Definition MAX_CHUNK : Z := 65536.
Definition MASK : Z := 18445618173802708992.
Definition INDEX_HEADER : Z := 8 + 64 + 8 + 4.
Definition INDEX_ENTRY : Z := 64 + 4.

(** The bytes a hex text stands for. *)
Definition hex_val (c : ascii) : Z := if is_digit c then byte_val c - 48 else byte_val c - 87.
Fixpoint unhex (s : string) : bytes :=
  match s with
  | String a (String b s') => val_byte (16 * hex_val a + hex_val b) :: unhex s'
  | _ => []
  end.

Section chunks.
Context {CR : Crypto}.

(** [gear()[i]]: the first eight bytes of a digest, big-endian. *)
Definition gear (c : ascii) : Z := from_be (take 8 (unhex (sha256 (str_bytes "mica-chunker/v1" ++ [c])))).

(** * The chunker *)

(** What the loop carries: the chunk so far, its hash, where it starts, and the
    chunks reported. *)
Record Cutter := {
  ct_chunk : bytes;
  ct_hash : Z;
  ct_offset : Z;
  ct_found : list (Z * Z * string);
}.
Definition start : Cutter := {| ct_chunk := []; ct_hash := 0; ct_offset := 0; ct_found := [] |}.

Definition roll (hash : Z) (c : ascii) : Z := wrap64 (wrap64 (hash * 2) + gear c).
Definition cuts (length hash : Z) : bool :=
  (MIN_CHUNK <=? length) && (Z.land hash MASK =? 0) || (length =? MAX_CHUNK).

(** The chunk so far reported, and a new one started after it. *)
Definition report (st : Cutter) : Cutter :=
  let length := len (ct_chunk st) in
  {| ct_chunk := []; ct_hash := 0; ct_offset := wrap64 (ct_offset st + length);
     ct_found := ct_found st ++ [(ct_offset st, length, sha256 (ct_chunk st))] |}.

Definition push (st : Cutter) (c : ascii) : Cutter :=
  let st := {| ct_chunk := ct_chunk st ++ [c]; ct_hash := roll (ct_hash st) c;
               ct_offset := ct_offset st; ct_found := ct_found st |} in
  if cuts (len (ct_chunk st)) (ct_hash st) then report st else st.

(** One [read] at a time, until an empty one. *)
Fixpoint chunk_loop (reads : list (result bytes)) (st : Cutter) : result Cutter :=
  match reads with
  | [] | Ok [] :: _ => Ok st
  | Err e :: _ => Err e
  | Ok block :: rest => chunk_loop rest (foldl push st block)
  end.

(** [chunk]: what it reports, in order, and the bytes read. *)
Definition chunk (reads : list (result bytes)) : result (list (Z * Z * string) * Z) :=
  let? st := chunk_loop reads start in
  let st := if is_nil (ct_chunk st) then st else report st in
  Ok (ct_found st, ct_offset st).

(** * Seeds *)

(** A file read through a buffer, a block at a time. *)
Fixpoint blocks_of (fuel : nat) (n : nat) (b : bytes) : list (result bytes) :=
  match fuel, b with
  | S fuel', _ :: _ => Ok (take n b) :: blocks_of fuel' n (drop n b)
  | _, _ => []
  end.
Definition file_reads (b : bytes) : list (result bytes) := blocks_of (length b) (Z.to_nat 65536) b.

Notation seeds := (gmap string (string * Z * Z)).

(** The first source of a digest wins. *)
Definition add_seed (path : string) (map : seeds) (found : Z * Z * string) : seeds :=
  let '(offset, length, sha) := found in
  match map !! sha with Some _ => map | None => <[sha := (path, offset, length)]> map end.
Fixpoint seed_map (paths : list string) (t : tree) (map : seeds) : result seeds :=
  match paths with
  | [] => Ok map
  | path :: rest =>
      match t !! path with
      | Some (Regular b) =>
          let? cut := chunk (file_reads b) in
          seed_map rest t (foldl (add_seed path) map cut.1)
      | Some Directory => Err (Msg "Is a directory")
      | _ => seed_map rest t map
      end
  end.

Definition read_seed (t : tree) (path : string) (offset length : Z) (sha : string) : result bytes :=
  match t !! path with
  | Some (Regular b) =>
      let bytes := take (Z.to_nat length) (drop (Z.to_nat offset) b) in
      ensure len bytes =? length else "failed to fill whole buffer" in
      ensure bool_decide (sha256 bytes = sha) else "seed chunk changed under us" in
      Ok bytes
  | _ => Err (Msg "No such file or directory")
  end.

End chunks.

(** * The index *)

Notation Index := (list (string * Z)).

Definition index_limit (b : Z) : Z := INDEX_HEADER + INDEX_ENTRY * div_ceil b MIN_CHUNK.

(** [&bytes[a..b]]. *)
Definition slice (a b : Z) (l : bytes) : bytes := take (Z.to_nat (b - a)) (drop (Z.to_nat a) l).

(** The entries from the [entry]-th on, [n] of them. *)
Fixpoint parse_entries (n : nat) (entry : Z) (b : bytes) (total : Z) (chunks : Index) : result (Index * Z) :=
  match n with
  | O => Ok (chunks, total)
  | S n' =>
      let at_ := INDEX_HEADER + entry * INDEX_ENTRY in
      let sha := slice at_ (at_ + 64) b in
      ensure valid_utf8 sha else "invalid utf-8" in
      ensure hex_id (bytes_str sha) else "invalid chunk digest" in
      let length := from_be (slice (at_ + 64) (at_ + 68) b) in
      ensure (0 <? length) && (length <=? MAX_CHUNK) else "invalid chunk length" in
      parse_entries n' (entry + 1) b (wrap64 (total + length)) (chunks ++ [(bytes_str sha, length)])
  end.

Definition parse_index (b : bytes) (object : Artifact) : result Index :=
  ensure len b <=? index_limit (a_bytes object) else "transfer index exceeds the bound its object allows" in
  ensure (INDEX_HEADER <=? len b) && bool_decide (slice 0 8 b = str_bytes "MICAIDX1")
    else "invalid transfer index" in
  ensure bool_decide (slice 8 72 b = str_bytes (a_sha256 object)) else "transfer index is for another object" in
  ensure from_be (slice 72 80 b) =? a_bytes object
    else "transfer index disagrees with the signed object length" in
  let count := from_be (slice 80 84 b) in
  ensure INDEX_HEADER + INDEX_ENTRY * count =? len b
    else "transfer index length does not match its chunk count" in
  let? parsed := parse_entries (Z.to_nat count) 0 b 0 [] in
  ensure parsed.2 =? a_bytes object else "chunk lengths do not sum to the signed object length" in
  Ok parsed.1.

Definition write_entry (e : string * Z) : bytes := str_bytes e.1 ++ to_be 4 e.2.
Definition write_index (object : Artifact) (chunks : Index) : bytes :=
  str_bytes "MICAIDX1" ++ str_bytes (a_sha256 object) ++ to_be 8 (a_bytes object)
  ++ to_be 4 (len chunks) ++ concat (map write_entry chunks).

(** * What the chunker is held to *)

Section spec.
Context {CR : Crypto}.

(** The hash of a run of bytes from a fresh start. *)
Definition gear_hash (b : bytes) : Z := foldl roll 0 b.
Definition boundary (b : bytes) : bool := cuts (len b) (gear_hash b).

(** A chunk that ends at its first boundary, and a tail that has none. *)
Definition complete (c : bytes) : Prop :=
  boundary c = true ∧ ∀ p q, c = p ++ q → q ≠ [] → boundary p = false.
Definition unfinished (c : bytes) : Prop := ∀ p q, c = p ++ q → boundary p = false.

(** The cut of a whole input. *)
Inductive cut_into : bytes → list bytes → Prop :=
| cut_end : cut_into [] []
| cut_last c : c ≠ [] → unfinished c → cut_into c [c]
| cut_chunk c rest cs : complete c → cut_into rest cs → cut_into (c ++ rest) (c :: cs).

(** The report of chunks laid end to end from an offset. *)
Fixpoint reports (offset : Z) (cs : list bytes) : list (Z * Z * string) :=
  match cs with
  | [] => []
  | c :: cs' => (offset, len c, sha256 c) :: reports (offset + len c) cs'
  end.

(** ** Lemmas *)

Lemma reports_app offset cs ds :
  reports offset (cs ++ ds) = reports offset cs ++ reports (offset + len (concat cs)) ds.
Proof.
  revert offset. induction cs as [|c cs IH]; intros offset; cbn.
  - by rewrite Z.add_0_r.
  - rewrite IH, len_app. by rewrite Z.add_assoc.
Qed.

Lemma boundary_nil : boundary [] = false.
Proof. reflexivity. Qed.

Lemma complete_ne c : complete c → c ≠ [].
Proof. intros [H _] ->. discriminate H. Qed.

Lemma boundary_len c : boundary c = true → MIN_CHUNK ≤ len c.
Proof.
  unfold boundary, cuts. intros [H|H]%orb_true_iff; [apply andb_true_iff in H as [H _]; by apply Z.leb_le in H|].
  apply Z.eqb_eq in H. unfold MIN_CHUNK, MAX_CHUNK in *. lia.
Qed.

Lemma len_take z (b : bytes) : 0 ≤ z ≤ len b → len (take (Z.to_nat z) b) = z.
Proof. unfold len. intros H. rewrite length_take. lia. Qed.

(** No run of bytes without a boundary is as long as the largest chunk. *)
Lemma unfinished_len c : unfinished c → len c < MAX_CHUNK.
Proof.
  intros H. destruct (Z.ltb_spec (len c) MAX_CHUNK) as [|Hl]; [done|]. exfalso.
  assert (Hn : ∃ n, Z.of_nat n = MAX_CHUNK) by (exists (Z.to_nat MAX_CHUNK); by apply Z2Nat.id).
  destruct Hn as [n Hn]. specialize (H (take n c) (drop n c) (eq_sym (take_drop _ _))).
  apply orb_false_iff in H as [_ H]. apply Z.eqb_neq in H. apply H. rewrite <- Hn in *. unfold len in *.
  rewrite length_take. lia.
Qed.

Lemma complete_len c : complete c → MIN_CHUNK ≤ len c ≤ MAX_CHUNK.
Proof.
  intros [Hb Hp]. split; [by apply boundary_len|].
  destruct c as [|x c _] using rev_ind; [done|]. rewrite len_app. change (len [x]) with 1.
  assert (Hu : unfinished c).
  { intros p q ->. apply (Hp p (q ++ [x])); [by rewrite app_assoc|by destruct q]. }
  apply unfinished_len in Hu. lia.
Qed.

(** The cut is unique. *)
Lemma complete_prefix c rest c' rest' :
  complete c → complete c' → c ++ rest = c' ++ rest' → c = c' ∧ rest = rest'.
Proof.
  intros Hc Hc' E. apply app_eq_inv in E as [(k & -> & ->)|(k & -> & ->)].
  - destruct k as [|x k]; [by rewrite app_nil_r|]. destruct Hc' as [Hb' _], Hc as [_ Hp].
    rewrite (Hp c' (x :: k)) in Hb' by done. done.
  - destruct k as [|x k]; [by rewrite app_nil_r|]. destruct Hc as [Hb _], Hc' as [_ Hp].
    rewrite (Hp c (x :: k)) in Hb by done. done.
Qed.

Lemma complete_not_unfinished c rest : complete c → ¬ unfinished (c ++ rest).
Proof. intros [Hb _] H. rewrite (H c rest) in Hb by done. done. Qed.

Lemma cut_unique b cs ds : cut_into b cs → cut_into b ds → cs = ds.
Proof.
  intros H. revert ds. induction H as [|c Hne Hu|c rest cs Hc _ IH]; intros ds Hd.
  - inversion Hd as [|? ? ?|c' rest' cs' Hc' _ E]; subst; [done|done|].
    apply app_nil in E as [E _]. by apply complete_ne in Hc'.
  - inversion Hd as [|? ? ?|c' rest' cs' Hc' _ E]; subst; [done|done|].
    by apply complete_not_unfinished in Hu.
  - remember (c ++ rest) as b eqn:E. destruct Hd as [|c' Hne Hu|c' rest' cs' Hc' Hd'].
    + symmetry in E. apply app_nil in E as [E _]. by apply complete_ne in Hc.
    + subst. by apply complete_not_unfinished in Hu.
    + destruct (complete_prefix _ _ _ _ Hc' Hc E) as [-> ->]. f_equal. by apply IH.
Qed.

(** What the loop has done with the bytes it has read. *)
Definition tracks (cs : list bytes) (cur : bytes) (st : Cutter) : Prop :=
  st = {| ct_chunk := cur; ct_hash := gear_hash cur; ct_offset := len (concat cs); ct_found := reports 0 cs |}
  ∧ Forall complete cs ∧ unfinished cur.

Lemma unfinished_nil : unfinished [].
Proof. intros p q E. symmetry in E. by apply app_nil in E as [-> _]. Qed.

Lemma unfinished_snoc cur c : unfinished cur → boundary (cur ++ [c]) = false → unfinished (cur ++ [c]).
Proof.
  intros Hu Hb p q E. destruct q as [|x q _] using rev_ind; [by rewrite app_nil_r in E; subst|].
  rewrite app_assoc in E. apply app_inj_tail in E as [E _]. by apply (Hu p q).
Qed.

Lemma complete_snoc cur c : unfinished cur → boundary (cur ++ [c]) = true → complete (cur ++ [c]).
Proof.
  intros Hu Hb. split; [done|]. intros p q E Hq. destruct q as [|x q _] using rev_ind; [done|].
  rewrite app_assoc in E. apply app_inj_tail in E as [E _]. by apply (Hu p q).
Qed.

Lemma push_tracks cs cur st c :
  tracks cs cur st → len (concat cs ++ cur ++ [c]) ≤ U64_MAX →
  ∃ cs' cur', tracks cs' cur' (push st c) ∧ concat cs' ++ cur' = concat cs ++ cur ++ [c].
Proof.
  intros (-> & Hc & Hu) Hl. unfold push. cbn [ct_chunk ct_hash ct_offset ct_found].
  assert (Hg : roll (gear_hash cur) c = gear_hash (cur ++ [c])) by (unfold gear_hash; by rewrite foldl_app).
  rewrite Hg. fold (boundary (cur ++ [c])). destruct (boundary (cur ++ [c])) eqn:Hb.
  - exists (cs ++ [cur ++ [c]]), []. unfold tracks, report. cbn [ct_chunk ct_offset ct_found].
    assert (Hcat : concat (cs ++ [cur ++ [c]]) = concat cs ++ cur ++ [c]).
    { rewrite concat_app. cbn. by rewrite app_nil_r. }
    rewrite Hcat, app_nil_r. split; [|done]. split; [|split].
    + rewrite reports_app, <- len_app, wrap64_small; [done|]. split; [apply len_nonneg|exact Hl].
    + apply Forall_app. split; [done|]. constructor; [by apply complete_snoc|constructor].
    + apply unfinished_nil.
  - exists cs, (cur ++ [c]). split; [|done]. split; [done|]. split; [done|]. by apply unfinished_snoc.
Qed.

Lemma pushes_tracks block : ∀ cs cur st,
  tracks cs cur st → len (concat cs ++ cur ++ block) ≤ U64_MAX →
  ∃ cs' cur', tracks cs' cur' (foldl push st block) ∧ concat cs' ++ cur' = concat cs ++ cur ++ block.
Proof.
  induction block as [|c block IH]; intros cs cur st Ht Hl; cbn.
  { exists cs, cur. by rewrite app_nil_r. }
  assert (E : concat cs ++ cur ++ c :: block = (concat cs ++ cur ++ [c]) ++ block) by by rewrite <- !app_assoc.
  rewrite E in Hl |- *. destruct (push_tracks cs cur st c Ht) as (cs1 & cur1 & Ht1 & E1).
  { rewrite len_app in Hl. pose proof (len_nonneg block). lia. }
  rewrite <- E1 in Hl |- *. rewrite <- app_assoc in Hl |- *. by apply IH.
Qed.

Lemma loop_tracks blocks : ∀ cs cur st,
  Forall (λ b, b ≠ []) blocks → tracks cs cur st → len (concat cs ++ cur ++ concat blocks) ≤ U64_MAX →
  ∃ cs' cur' st', chunk_loop (map Ok blocks) st = Ok st' ∧ tracks cs' cur' st'
    ∧ concat cs' ++ cur' = concat cs ++ cur ++ concat blocks.
Proof.
  induction blocks as [|b blocks IH]; intros cs cur st Hne Ht Hl; cbn [map chunk_loop concat].
  { exists cs, cur, st. by rewrite app_nil_r. }
  apply Forall_cons in Hne as [Hb Hne]. destruct b as [|x b]; [done|]. cbn [concat] in Hl.
  assert (E : concat cs ++ cur ++ (x :: b) ++ concat blocks = (concat cs ++ cur ++ x :: b) ++ concat blocks).
  { by rewrite <- !app_assoc. }
  rewrite E in Hl |- *. destruct (pushes_tracks (x :: b) cs cur st Ht) as (cs1 & cur1 & Ht1 & E1).
  { rewrite len_app in Hl. pose proof (len_nonneg (concat blocks)). lia. }
  rewrite <- E1 in Hl |- *. rewrite <- app_assoc in Hl |- *. by apply IH.
Qed.

Lemma cut_of_chunks cs cur :
  Forall complete cs → unfinished cur →
  cut_into (concat cs ++ cur) (cs ++ if is_nil cur then [] else [cur]).
Proof.
  intros Hc Hu. induction Hc as [|c cs Hc _ IH]; cbn.
  - destruct cur as [|x cur]; [constructor|]. by apply cut_last.
  - rewrite <- app_assoc. by apply cut_chunk.
Qed.

(** The chunker reports the cut of what it reads, however the reads fall. *)
Lemma chunk_cuts blocks :
  Forall (λ b, b ≠ []) blocks → len (concat blocks) ≤ U64_MAX →
  ∃ cs, cut_into (concat blocks) cs ∧ chunk (map Ok blocks) = Ok (reports 0 cs, len (concat blocks)).
Proof.
  intros Hne Hl. destruct (loop_tracks blocks [] [] start Hne) as (cs & cur & st & Hloop & (-> & Hc & Hu) & E).
  { split; [done|]. split; [constructor|apply unfinished_nil]. }
  { exact Hl. }
  cbn [concat app] in E. rewrite <- E in Hl |- *. exists (cs ++ if is_nil cur then [] else [cur]).
  split; [by apply cut_of_chunks|]. unfold chunk. rewrite Hloop. cbn [rbind ct_chunk].
  destruct cur as [|x cur]; cbn [is_nil ct_found ct_offset report].
  - by rewrite !app_nil_r.
  - cbn [ct_chunk ct_offset ct_found]. f_equal. f_equal; [by rewrite reports_app|].
    rewrite len_app. apply wrap64_small. rewrite <- len_app. split; [apply len_nonneg|exact Hl].
Qed.

(** ** The sizes of a cut *)

Lemma cut_concat b cs : cut_into b cs → concat cs = b.
Proof. induction 1 as [|c|c rest cs _ _ IH]; cbn; [done|by rewrite app_nil_r|by rewrite IH]. Qed.

Lemma cut_sizes b cs :
  cut_into b cs → Forall (λ c, 0 < len c ≤ MAX_CHUNK) cs ∧ len cs * MIN_CHUNK < len b + MIN_CHUNK.
Proof.
  induction 1 as [|c Hne Hu|c rest cs Hc _ [IH1 IH2]].
  - split; [constructor|done].
  - apply unfinished_len in Hu. assert (0 < len c) by (destruct c; [done|rewrite len_cons; pose proof (len_nonneg c); lia]).
    split; [constructor; [unfold MAX_CHUNK in *; lia|constructor]|]. change (len [c]) with 1. lia.
  - apply complete_len in Hc. rewrite len_cons, len_app. unfold MIN_CHUNK, MAX_CHUNK in *.
    split; [constructor; [lia|done]|lia].
Qed.

(** Every chunk but the last ends at a boundary of its own. *)
Lemma cut_complete b cs : cut_into b cs → ∀ c rest, cs = c ++ rest → rest ≠ [] → Forall complete c.
Proof.
  induction 1 as [|c Hne Hu|c rest cs Hc _ IH]; intros l r E Hr.
  - symmetry in E. by apply app_nil in E as [_ ->].
  - destruct l as [|x l]; [constructor|]. cbn in E. injection E as _ E. symmetry in E. by apply app_nil in E as [_ ->].
  - destruct l as [|x l]; [constructor|]. cbn in E. injection E as <- E. constructor; [done|]. by eapply IH.
Qed.

(** ** The window of the hash *)

Lemma roll_sum h c : roll h c = wrap64 (h * 2 + gear c).
Proof. unfold roll, wrap64. by rewrite Zplus_mod_idemp_l. Qed.

Lemma hash_from h s : wrap64 (foldl roll h s) = wrap64 (h * 2 ^ len s + foldl roll 0 s).
Proof.
  induction s as [|c s IH] using rev_ind.
  { cbn. change (2 ^ len []) with 1. by rewrite Z.mul_1_r, Z.add_0_r. }
  rewrite !foldl_app, len_app, Z.pow_add_r by (unfold len; lia). cbn [foldl]. change (2 ^ len [c]) with 2.
  rewrite !roll_sum. unfold wrap64 in *. rewrite Zmod_mod, Zplus_mod_idemp_r.
  set (X := foldl roll h s) in *. set (Y := foldl roll 0 s) in *.
  rewrite <- (Zplus_mod_idemp_l (X * 2)), <- (Zmult_mod_idemp_l X), IH.
  rewrite Zmult_mod_idemp_l, Zplus_mod_idemp_l. f_equal. lia.
Qed.

Lemma hash_range s : s ≠ [] → wrap64 (gear_hash s) = gear_hash s.
Proof.
  destruct s as [|c s _] using rev_ind; [done|]. intros _. unfold gear_hash. rewrite foldl_app. cbn [foldl].
  rewrite roll_sum. unfold wrap64. apply Zmod_mod.
Qed.

(** The hash of a run depends on its last 64 bytes alone. *)
Lemma hash_window p s : 64 ≤ len s → gear_hash (p ++ s) = gear_hash s.
Proof.
  intros Hs. assert (Hne : s ≠ []) by by intros ->.
  rewrite <- (hash_range (p ++ s)), <- (hash_range s) by (done || (intros E; by apply app_nil in E as [_ ?])).
  unfold gear_hash at 1. rewrite foldl_app, hash_from.
  assert (∃ k, foldl roll 0 p * 2 ^ len s = k * 18446744073709551616) as [k ->].
  { exists (foldl roll 0 p * 2 ^ (len s - 64)). rewrite <- Z.mul_assoc. f_equal.
    replace (len s) with ((len s - 64) + 64) at 1 by lia. rewrite Z.pow_add_r by lia. done. }
  unfold wrap64. rewrite Z.add_comm, Z_mod_plus_full. done.
Qed.

End spec.

(** * The index's bytes *)

Definition entry_ok (e : string * Z) : Prop := hex_id e.1 = true ∧ 0 < e.2 ≤ MAX_CHUNK.
Definition index_total (chunks : Index) : Z := foldr (λ e n, e.2 + n) 0 chunks.

(** An index that describes an object of that length and fits its bound. *)
Definition index_ok (object : Artifact) (chunks : Index) : Prop :=
  Forall entry_ok chunks ∧ index_total chunks = a_bytes object ∧ len chunks ≤ div_ceil (a_bytes object) MIN_CHUNK.

Lemma slice_mid p m r : slice (len p) (len p + len m) (p ++ m ++ r) = m.
Proof.
  unfold slice, len. replace (Z.to_nat (Z.of_nat (length p) + Z.of_nat (length m) - Z.of_nat (length p))) with (length m) by lia.
  rewrite Nat2Z.id, drop_app_length. apply take_app_length.
Qed.

Lemma slice_at a b p m r : len p = a → len m = b - a → slice a b (p ++ m ++ r) = m.
Proof. intros <- Hm. replace b with (len p + len m) by lia. apply slice_mid. Qed.

Lemma slice_len a b l : 0 ≤ a → a ≤ b → b ≤ len l → len (slice a b l) = b - a.
Proof. unfold slice, len. intros. rewrite length_take, length_drop. lia. Qed.

(** The bytes from a position on, split at a slice. *)
Lemma drop_slice a b l : 0 ≤ a → a ≤ b → drop (Z.to_nat a) l = slice a b l ++ drop (Z.to_nat b) l.
Proof.
  intros Ha Hb. unfold slice. rewrite <- (take_drop (Z.to_nat (b - a)) (drop (Z.to_nat a) l)) at 1.
  rewrite drop_drop. do 2 f_equal. lia.
Qed.

Lemma len_to_be n z : len (to_be n z) = Z.of_nat n.
Proof. unfold len. by rewrite length_to_be. Qed.

Lemma write_entry_len e : entry_ok e → len (write_entry e) = INDEX_ENTRY.
Proof.
  intros [H _]. unfold write_entry. rewrite len_app, len_str_bytes, len_to_be, (hex_id_len _ H). done.
Qed.

Lemma entries_len cs : Forall entry_ok cs → len (concat (map write_entry cs)) = INDEX_ENTRY * len cs.
Proof.
  induction 1 as [|e cs He _ IH]; [done|]. cbn [map concat]. rewrite len_app, write_entry_len, IH, len_cons by done. lia.
Qed.

Lemma total_bound cs : Forall entry_ok cs → 0 ≤ index_total cs ≤ MAX_CHUNK * len cs.
Proof.
  induction 1 as [|e cs [_ He] _ IH]; [done|]. cbn [index_total foldr]. fold (index_total cs). rewrite len_cons. lia.
Qed.

Lemma hex_id_utf8 s : hex_id s = true → valid_utf8 (str_bytes s) = true.
Proof.
  intros H. apply valid_utf8_ascii. assert (Ha : all_bytes (λ c, byte_val c <? 128) s = true).
  { apply hex_id_class; [|done]. intros c. destruct c as [[] [] [] [] [] [] [] []]; vm_compute; by intuition. }
  clear H. induction s as [|c s IH]; [constructor|]. cbn in Ha. apply andb_true_iff in Ha as [Hc Ha].
  apply Z.ltb_lt in Hc. constructor; [done|by apply IH].
Qed.

(** Reading back entries that were written. *)
Lemma parse_written head rest : ∀ cs total acc,
  len head = INDEX_HEADER → Forall entry_ok cs → Forall entry_ok rest → 0 ≤ total → total + index_total rest ≤ U64_MAX →
  parse_entries (length rest) (len cs) (head ++ concat (map write_entry (cs ++ rest))) total acc
  = Ok (acc ++ rest, total + index_total rest).
Proof.
  induction rest as [|e rest IH]; intros cs total acc Hh Hcs Hr Ht Hm; cbn [length parse_entries].
  { by rewrite app_nil_r, Z.add_0_r. }
  apply Forall_cons in Hr as [He Hr]. pose proof He as [Hid Hlen].
  cbn [index_total foldr] in Hm |- *. fold (index_total rest) in Hm |- *.
  pose proof (total_bound rest Hr) as [Hrt _].
  set (done_ := head ++ concat (map write_entry cs)).
  set (tail := concat (map write_entry rest)).
  assert (E : head ++ concat (map write_entry (cs ++ e :: rest)) = done_ ++ str_bytes e.1 ++ to_be 4 e.2 ++ tail).
  { rewrite map_app, concat_app. cbn [map concat]. unfold done_, write_entry, tail. by rewrite <- !app_assoc. }
  assert (Hat : len done_ = INDEX_HEADER + len cs * INDEX_ENTRY).
  { unfold done_. rewrite len_app, Hh, entries_len by done. lia. }
  assert (Hs : slice (INDEX_HEADER + len cs * INDEX_ENTRY) (INDEX_HEADER + len cs * INDEX_ENTRY + 64)
      (head ++ concat (map write_entry (cs ++ e :: rest))) = str_bytes e.1).
  { rewrite E. apply slice_at; [done|]. rewrite len_str_bytes, (hex_id_len _ Hid). lia. }
  assert (Hl : slice (INDEX_HEADER + len cs * INDEX_ENTRY + 64) (INDEX_HEADER + len cs * INDEX_ENTRY + 68)
      (head ++ concat (map write_entry (cs ++ e :: rest))) = to_be 4 e.2).
  { rewrite E, app_assoc. apply slice_at; [|rewrite len_to_be; lia].
    rewrite len_app, len_str_bytes, (hex_id_len _ Hid). lia. }
  rewrite Hs, Hl, (hex_id_utf8 _ Hid), str_bytes_str, Hid.
  assert (Hv : from_be (to_be 4 e.2) = e.2).
  { apply from_to_be. change (256 ^ Z.of_nat 4) with 4294967296. unfold MAX_CHUNK in Hlen. lia. }
  rewrite Hv, (proj2 (Z.ltb_lt _ _) (proj1 Hlen)), (proj2 (Z.leb_le _ _) (proj2 Hlen)). cbn [andb].
  rewrite wrap64_small by (unfold is_u64; lia).
  replace (len cs + 1) with (len (cs ++ [e])) by (rewrite len_app; reflexivity).
  replace (cs ++ e :: rest) with ((cs ++ [e]) ++ rest) by by rewrite <- app_assoc.
  rewrite (IH (cs ++ [e])); [|done|by apply Forall_app; split; [|by apply Forall_singleton]|done|lia|lia].
  rewrite <- app_assoc. cbn. destruct e; cbn. by rewrite Z.add_assoc.
Qed.

(** Entries that read are the ones the bytes are. *)
Lemma parse_entries_ok n : ∀ entry b total acc cs sum,
  0 ≤ entry → 0 ≤ total → INDEX_HEADER + INDEX_ENTRY * (entry + Z.of_nat n) = len b →
  total + MAX_CHUNK * Z.of_nat n ≤ U64_MAX →
  parse_entries n entry b total acc = Ok (cs, sum) →
  ∃ rest, cs = acc ++ rest ∧ Forall entry_ok rest ∧ length rest = n ∧ sum = total + index_total rest
    ∧ drop (Z.to_nat (INDEX_HEADER + entry * INDEX_ENTRY)) b = concat (map write_entry rest).
Proof.
  induction n as [|n IH]; intros entry b total acc cs sum He Ht Hb Hm H; cbn [parse_entries] in H.
  { injection H as <- <-. exists []. split; [by rewrite app_nil_r|]. split; [constructor|]. split; [done|].
    split; [cbn; lia|]. cbn [map concat]. apply drop_ge. unfold len in Hb. lia. }
  set (at_ := INDEX_HEADER + entry * INDEX_ENTRY) in *.
  assert (Hend : at_ + 68 ≤ len b) by (unfold at_, INDEX_ENTRY, INDEX_HEADER in *; lia).
  assert (Hat : 0 ≤ at_) by (unfold at_, INDEX_ENTRY, INDEX_HEADER; lia).
  destruct (valid_utf8 _); [|done]. destruct (hex_id _) eqn:Hid; [|done].
  set (length := from_be (slice (at_ + 64) (at_ + 68) b)) in *.
  destruct ((0 <? length) && (length <=? MAX_CHUNK)) eqn:Hl; [|done]. bools.
  rewrite wrap64_small in H by (unfold is_u64, MAX_CHUNK in *; lia).
  destruct (IH (entry + 1) b (total + length) (acc ++ [(bytes_str (slice at_ (at_ + 64) b), length)]) cs sum) as (rest & -> & Hr & Hn & -> & Hd); [lia..| | |exact H|].
  { unfold INDEX_ENTRY, INDEX_HEADER in *. lia. }
  { unfold MAX_CHUNK in *. lia. }
  exists ((bytes_str (slice at_ (at_ + 64) b), length) :: rest).
  split; [by rewrite <- app_assoc|]. split; [by constructor|]. split; [cbn; lia|].
  split; [symmetry; apply Z.add_assoc|].
  rewrite (drop_slice at_ (at_ + 64)) by (clear IH H; lia). rewrite (drop_slice (at_ + 64) (at_ + 68)) by (clear IH H; lia).
  cbn [map concat]. unfold write_entry at 1. cbn [fst snd]. rewrite bytes_str_bytes, <- app_assoc. f_equal. f_equal.
  - unfold length. assert (Hs : List.length (slice (at_ + 64) (at_ + 68) b) = 4%nat).
    { pose proof (slice_len (at_ + 64) (at_ + 68) b ltac:(lia) ltac:(lia) ltac:(lia)) as Hs. unfold len in Hs. lia. }
    rewrite <- (to_from_be (slice (at_ + 64) (at_ + 68) b)) at 1. by rewrite Hs.
  - rewrite <- Hd. f_equal. f_equal. unfold at_, INDEX_ENTRY. lia.
Qed.

(** The fixed part of an index. *)
Definition index_head (object : Artifact) (count : Z) : bytes :=
  str_bytes "MICAIDX1" ++ str_bytes (a_sha256 object) ++ to_be 8 (a_bytes object) ++ to_be 4 count.

Lemma write_index_head object cs :
  write_index object cs = index_head object (len cs) ++ concat (map write_entry cs).
Proof. unfold write_index, index_head. by rewrite <- !app_assoc. Qed.

Lemma index_head_len object count : str_len (a_sha256 object) = 64 → len (index_head object count) = INDEX_HEADER.
Proof. intros H. unfold index_head. rewrite !len_app, !len_str_bytes, !len_to_be, H. done. Qed.

Lemma parse_index_written object cs :
  index_ok object cs → is_u64 (a_bytes object) → str_len (a_sha256 object) = 64 → len cs < 4294967296 →
  parse_index (write_index object cs) object = Ok cs.
Proof.
  intros (Hcs & Hsum & Hcount) Hb Hsha Hlen. unfold parse_index.
  assert (Hh : len (index_head object (len cs)) = INDEX_HEADER) by by apply index_head_len.
  pose proof (len_nonneg cs) as Hpos. rewrite write_index_head.
  set (b := index_head object (len cs) ++ concat (map write_entry cs)).
  assert (Hbl : len b = INDEX_HEADER + INDEX_ENTRY * len cs) by (unfold b; by rewrite len_app, Hh, entries_len).
  assert (H1 : slice 0 8 b = str_bytes "MICAIDX1").
  { unfold b, index_head. rewrite <- !app_assoc. apply (slice_at 0 8 []); done. }
  assert (H2 : slice 8 72 b = str_bytes (a_sha256 object)).
  { unfold b, index_head. rewrite <- !app_assoc. apply slice_at; [done|]. rewrite len_str_bytes. lia. }
  assert (H3 : slice 72 80 b = to_be 8 (a_bytes object)).
  { unfold b, index_head. rewrite <- !app_assoc. rewrite (app_assoc (str_bytes "MICAIDX1")). apply slice_at; [|done].
    rewrite len_app, !len_str_bytes, Hsha. done. }
  assert (H4 : slice 80 84 b = to_be 4 (len cs)).
  { unfold b, index_head. rewrite <- !app_assoc. rewrite (app_assoc (str_bytes "MICAIDX1")), (app_assoc _ (to_be 8 _)).
    apply slice_at; [|done]. rewrite !len_app, !len_str_bytes, Hsha. done. }
  rewrite H1, H2, H3, H4, Hbl, !from_to_be.
  2: { change (256 ^ Z.of_nat 4) with 4294967296. lia. }
  2: { change (256 ^ Z.of_nat 8) with 18446744073709551616. unfold is_u64, U64_MAX in Hb. lia. }
  assert (INDEX_HEADER + INDEX_ENTRY * len cs <=? index_limit (a_bytes object) = true) as ->.
  { apply Z.leb_le. unfold index_limit, INDEX_ENTRY. lia. }
  assert (INDEX_HEADER <=? INDEX_HEADER + INDEX_ENTRY * len cs = true) as -> by (apply Z.leb_le; unfold INDEX_ENTRY; lia).
  rewrite !bool_decide_eq_true_2, !Z.eqb_refl by done. cbn [andb].
  assert (Hn : Z.to_nat (len cs) = length cs) by (unfold len; lia). rewrite Hn.
  pose proof (parse_written (index_head object (len cs)) cs [] 0 [] Hh) as Hp. cbn [app] in Hp. change (len []) with 0 in Hp.
  unfold b. rewrite Hp; [|constructor|done|lia|unfold is_u64 in Hb; lia]. cbn [rbind fst snd].
  by rewrite Z.add_0_l, Hsum, Z.eqb_refl.
Qed.

Lemma parse_index_ok b object cs :
  0 ≤ a_bytes object → parse_index b object = Ok cs →
  b = write_index object cs ∧ index_ok object cs ∧ is_u64 (a_bytes object) ∧ str_len (a_sha256 object) = 64
  ∧ len cs < 4294967296.
Proof.
  intros Hpos H. unfold parse_index in H.
  apply if_ok in H as [H0 H]. apply if_ok in H as [H1 H]. apply if_ok in H as [H2 H]. apply if_ok in H as [H3 H].
  set (count := from_be (slice 80 84 b)) in *. apply if_ok in H as [H4 H]. bools.
  assert (Hs : ∀ x y, 0 ≤ x → x ≤ y → y ≤ 84 → len (slice x y b) = y - x).
  { intros x y Hx Hxy Hy. apply slice_len; [done..|]. unfold INDEX_HEADER in *. lia. }
  assert (Hcount : 0 ≤ count < 4294967296).
  { unfold count. pose proof (from_be_bound (slice 80 84 b)) as Hf. rewrite Hs in Hf by lia. done. }
  destruct (parse_entries _ _ _ _ _) as [[cs' sum]|] eqn:Hp; cbn [rbind fst snd] in H; [|done].
  apply if_ok in H as [Hsum H]. injection H as ->. apply Z.eqb_eq in Hsum.
  destruct (parse_entries_ok (Z.to_nat count) 0 b 0 [] cs sum) as (rest & Hrest & Hr & Hn & Htot & Hd);
    [lia|lia|rewrite Z2Nat.id by lia; lia| |exact Hp|].
  { rewrite Z2Nat.id by lia. unfold MAX_CHUNK, U64_MAX. lia. }
  cbn [app] in Hrest. subst rest.
  assert (Hlc : len cs = count) by (unfold len; rewrite Hn; lia).
  assert (Hbytes : is_u64 (a_bytes object)).
  { match goal with H : from_be (slice 72 80 b) = _ |- _ => rewrite <- H end.
    pose proof (from_be_bound (slice 72 80 b)) as Hf. rewrite Hs in Hf by lia.
    change (256 ^ (80 - 72)) with 18446744073709551616 in Hf. unfold is_u64, U64_MAX. lia. }
  assert (Hsha : str_len (a_sha256 object) = 64).
  { rewrite <- len_str_bytes. match goal with H : slice 8 72 b = _ |- _ => rewrite <- H end. by rewrite Hs by lia. }
  split; [|split; [split; [done|split; [lia|]]|by split; [|split; [|lia]]]].
  - rewrite write_index_head. unfold index_head.
    assert (Hto : ∀ x y n, 0 ≤ x → x ≤ y → y ≤ 84 → y - x = Z.of_nat n → to_be n (from_be (slice x y b)) = slice x y b).
    { intros x y n Hx Hxy Hy E. assert (List.length (slice x y b) = n) as <-; [|apply to_from_be].
      pose proof (Hs x y Hx Hxy Hy) as Hl. unfold len in Hl. lia. }
    rewrite Hlc. unfold count. rewrite (Hto 80 84) by lia.
    match goal with H : from_be (slice 72 80 b) = _ |- _ => rewrite <- H end. rewrite (Hto 72 80) by lia.
    match goal with H : slice 8 72 b = _ |- _ => rewrite <- H end.
    match goal with H : slice 0 8 b = _ |- _ => rewrite <- H end.
    rewrite <- Hd, <- !app_assoc.
    assert (E84 : drop (Z.to_nat (INDEX_HEADER + 0 * INDEX_ENTRY)) b = drop (Z.to_nat 84) b) by done. rewrite E84.
    rewrite <- (drop_slice 80 84), <- (drop_slice 72 80), <- (drop_slice 8 72), <- (drop_slice 0 8) by lia. done.
  - unfold index_limit, INDEX_ENTRY in *. lia.
Qed.

(** * Properties *)

(** C36: the streaming chunker refines the declarative cut. However a reader's
    bytes fall into reads, [chunk] reports exactly the one cut of the whole
    input into chunks that each end at their first boundary (the last one, when
    it has none, ends with the input), in order, with each chunk's offset,
    length and digest, and the length read. The chunks make up the input, none
    is empty or longer than 65536 bytes, and there is at most one per 4096 bytes
    and one more. Beyond the smallest length, whether a chunk ends after a byte
    depends on its last 64 bytes and its length alone. *)
Theorem chunk_refines_cut {CR : Crypto} blocks :
  Forall (λ b, b ≠ []) blocks → len (concat blocks) ≤ U64_MAX →
  ∃ cs, cut_into (concat blocks) cs ∧ (∀ ds, cut_into (concat blocks) ds → ds = cs)
    ∧ chunk (map Ok blocks) = Ok (reports 0 cs, len (concat blocks))
    ∧ concat cs = concat blocks ∧ Forall (λ c, 0 < len c ≤ MAX_CHUNK) cs
    ∧ len cs ≤ div_ceil (len (concat blocks)) MIN_CHUNK
    ∧ ∀ p s, 64 ≤ len s → MIN_CHUNK ≤ len (p ++ s) →
        boundary (p ++ s) = (Z.land (gear_hash s) MASK =? 0) || (len (p ++ s) =? MAX_CHUNK).
Proof.
  intros Hne Hl. destruct (chunk_cuts blocks Hne Hl) as (cs & Hcut & Hrun). exists cs.
  destruct (cut_sizes _ _ Hcut) as [Hsizes Hcount].
  split; [done|]. split; [intros ds Hd; by eapply cut_unique|]. split; [done|].
  split; [by apply cut_concat|]. split; [done|]. split.
  - unfold div_ceil. apply Z.div_le_lower_bound; unfold MIN_CHUNK in *; lia.
  - intros p s Hs Hmin. unfold boundary, cuts. rewrite (hash_window p s Hs).
    by rewrite (proj2 (Z.leb_le _ _) Hmin).
Qed.

Lemma chunk_refines_cut_witness :
  let blocks := [str_bytes "ab"; str_bytes "c"] in
  ∃ cs, cut_into (CR := sample_crypto) (concat blocks) cs
    ∧ chunk (CR := sample_crypto) (map Ok blocks) = Ok ([(0, 3, sample_hex)], 3) ∧ concat cs = str_bytes "abc".
Proof.
  intros blocks. destruct (chunk_refines_cut (CR := sample_crypto) blocks) as (cs & H1 & _ & _ & H2 & _);
    [by repeat constructor|by vm_compute|]. exists cs. split; [exact H1|]. split; [vm_compute; reflexivity|exact H2].
Defined.

(** An index's bytes and its chunks determine each other. [parse_index]
    accepts exactly the bytes [write_index] gives for the signed object and a
    list of chunks with well-formed digests, of 1 to 65536 bytes each, that sum to
    the object's length and are at most one per 4096 bytes of it and one more; and
    it reads those chunks. *)
Theorem parse_index_exact b object cs :
  0 ≤ a_bytes object →
  (parse_index b object = Ok cs ↔
   b = write_index object cs ∧ index_ok object cs ∧ is_u64 (a_bytes object) ∧ str_len (a_sha256 object) = 64
   ∧ len cs < 4294967296).
Proof.
  intros Hpos. split; [by apply parse_index_ok|]. intros (-> & H1 & H2 & H3 & H4). by apply parse_index_written.
Qed.

Lemma parse_index_exact_witness :
  let object := {| a_bytes := 5000; a_sha256 := sample_hex |} in
  let cs := [(sample_hex, 4096); (sample_hex, 904)] in
  0 ≤ a_bytes object ∧ parse_index (write_index object cs) object = Ok cs.
Proof.
  intros object cs. split; [by vm_compute|]. apply parse_index_exact; [by vm_compute|].
  split; [reflexivity|]. split; [|split; [by vm_compute|split; [reflexivity|reflexivity]]].
  split; [|split; [reflexivity|by vm_compute]]. repeat constructor; by vm_compute.
Defined.

End Chunks.
