(* ===== verification/Transfer.v ===== *)
(** One HTTP transfer into a file
    ([src/crates/mica-deploy/src/acquisition/transfer.rs]): the response head, the
    three framings of a body, and the bounds a hostile server is held to. A
    connection is an endless sequence of socket reads on the download's clock,
    which [Paced] ends; what arrived is then its bytes in order, cut into reads
    in any way, and its end or an error. TLS is what the connection makes of its
    socket's bytes; it, connecting and redirect resolution are outside. *)
From Stdlib Require Import Ascii.
From S2P Require Import Prelude Text.

Module Transfer.

Definition MAX_RESPONSE_HEAD : Z := 16384.
Definition MAX_REDIRECTS : nat := 10.

(** * The connection *)

(** [io::Error], by its kind: a read that timed out, or any other. *)
Inductive io_error := TimedOut | OtherError.
Inductive io (A : Type) := IoOk (a : A) | IoErr (e : io_error).
Arguments IoOk {A} a.
Arguments IoErr {A} e.

Record Stream := { s_bytes : bytes; s_end : option io_error }.
Definition rest_of (b : bytes) (s : Stream) : Stream := {| s_bytes := b; s_end := s_end s |}.
Definition at_end {A} (a : A) (s : Stream) : io A :=
  match s_end s with None => IoOk a | Some e => IoErr e end.

(** [BufRead::read_until] of a line feed within [n] bytes: what was read, what
    is left, and whether it stopped by itself. *)
Fixpoint until_lf (n : nat) (b : bytes) : bytes * bytes * bool :=
  match n, b with
  | O, _ => ([], b, true)
  | S _, [] => ([], [], false)
  | S n', c :: b' =>
      if bool_decide (c = LF) then ([c], b', true)
      else let '(l, r, stopped) := until_lf n' b' in (c :: l, r, stopped)
  end.

(** ** The socket *)

Definition NANOS : Z := 1000000000.
Definition TRANSFER_TIMEOUT : Z := 1800 * NANOS.
Definition LOW_SPEED_BYTES : Z := 1024.
Definition LOW_SPEED_WINDOW : Z := 30 * NANOS.

(** One [read] of the socket: when it starts and when it is back, since the
    download started; the count it gives, none at the socket's end, or its
    error; and what the reader above has of it, the bytes themselves or what TLS
    makes of all there is, with whether that reader is at its end. *)
Record Turn := { tn_at : Z; tn_after : Z; tn_count : io Z; tn_plain : io (bytes * bool) }.
(** A connection: when its window opened, when the request was sent, its reads. *)
Record Conn := { cn_opened : Z; cn_sent : Z; cn_reads : nat → Turn }.

(** [Paced::deadline]. *)
Definition deadline (now : Z) : io unit := if now <? TRANSFER_TIMEOUT then IoOk tt else IoErr OtherError.
(** [<Paced as Read>::read]: its window is when it began and what came since. *)
Definition paced_read (t : Turn) (window : Z * Z) : io Z * (Z * Z) :=
  match deadline (tn_at t) with
  | IoErr e => (IoErr e, window)
  | IoOk _ =>
      match tn_count t with
      | IoErr e => (IoErr e, window)
      | IoOk count =>
          let window := (window.1, wrap64 (window.2 + count)) in
          if (0 <? count) && (LOW_SPEED_WINDOW <=? tn_after t - window.1) then
            if window.2 <? LOW_SPEED_BYTES * (LOW_SPEED_WINDOW / NANOS) then (IoErr OtherError, window)
            else (IoOk count, (tn_after t, 0))
          else (IoOk count, window)
      end
  end.
(** What a connection delivers, from its [k]th read; [None] when out of fuel. *)
Fixpoint arrive (turns k : nat) (window : Z * Z) (c : Conn) : option Stream :=
  match turns with
  | O => None
  | S turns' =>
      match paced_read (cn_reads c k) window with
      | (IoErr e, _) => Some {| s_bytes := []; s_end := Some e |}
      | (IoOk _, window') =>
          match tn_plain (cn_reads c k) with
          | IoErr e => Some {| s_bytes := []; s_end := Some e |}
          | IoOk (b, true) => Some {| s_bytes := b; s_end := None |}
          | IoOk (b, false) => s ← arrive turns' (S k) window' c; Some {| s_bytes := b ++ s_bytes s; s_end := s_end s |}
          end
      end
  end.

Definition CRLF : string := String CR (String LF EmptyString).

(** [Chunked::line]. *)
Definition line (s : Stream) : io string * Stream :=
  let '(l, r, stopped) := until_lf 1024 (s_bytes s) in
  let s' := rest_of r s in
  match (if (stopped : bool) then IoOk l else at_end l s) with
  | IoErr e => (IoErr e, s')
  | IoOk l =>
      match (if valid_utf8 l then strip_suffix CRLF (bytes_str l) else None) with
      | Some text => (IoOk text, s')
      | None => (IoErr OtherError, s')
      end
  end.

(** [u64::from_str_radix(.., 16)]. *)
Definition hex_digit (c : ascii) : option Z :=
  if is_digit c then Some (byte_val c - 48)
  else if in_range "a" "f" c then Some (byte_val c - 87)
  else if in_range "A" "F" c then Some (byte_val c - 55)
  else None.
Fixpoint hex_digits (s : string) (acc : Z) : option Z :=
  match s with
  | EmptyString => Some acc
  | String c s' =>
      match hex_digit c with
      | Some d => let v := acc * 16 + d in if v <=? U64_MAX then hex_digits s' v else None
      | None => None
      end
  end.
Definition parse_hex (s : string) : option Z :=
  match s with
  | EmptyString => None
  | String "+" EmptyString => None
  | String "+" s' => hex_digits s' 0
  | _ => hex_digits s 0
  end.

(** The size a chunk's line gives, its extensions aside. *)
Definition chunk_size (text : string) : option Z :=
  parse_hex (trim_ws (match split ";" text with size :: _ => size | [] => "" end)).

Section transfer.
(** How many of the bytes that have arrived the next read gives. *)
Context (grain : bytes → Z).

(** [Read::read] into a buffer of [n] bytes: at least one byte, until the end. *)
Definition read (n : Z) (s : Stream) : io bytes * Stream :=
  match s_bytes s with
  | [] => (at_end [] s, s)
  | b => let k := Z.to_nat (Z.max 1 (Z.min (grain b) n)) in (IoOk (take k b), rest_of (drop k b) s)
  end.

(** * Bodies *)

(** How a body is framed: [Transfer-Encoding: chunked] (what is left of the
    chunk, and whether the last one was read), a [Content-Length] (what is left
    of it), or until the connection ends. *)
Inductive Body :=
| Chunked (remaining : Z) (done : bool)
| Sized (left_ : Z)
| ToEnd.

(** The trailers after the last chunk, discarded; [None] when out of fuel. *)
Fixpoint skip_trailers (fuel : nat) (s : Stream) : option (io unit * Stream) :=
  match fuel with
  | O => None
  | S fuel' =>
      match line s with
      | (IoErr e, s') => Some (IoErr e, s')
      | (IoOk text, s') => if is_empty text then Some (IoOk tt, s') else skip_trailers fuel' s'
      end
  end.

(** The data of the chunk in hand, and the line after its last byte. *)
Definition chunk_data (n remaining : Z) (s : Stream) : io bytes * Body * Stream :=
  match read (Z.min n remaining) s with
  | (IoErr e, s') => (IoErr e, Chunked remaining false, s')
  | (IoOk [], s') => (IoErr OtherError, Chunked remaining false, s')
  | (IoOk b, s') =>
      let left_ := remaining - len b in
      if left_ =? 0 then
        match line s' with
        | (IoErr e, s'') => (IoErr e, Chunked left_ false, s'')
        | (IoOk text, s'') =>
            (if is_empty text then IoOk b else IoErr OtherError, Chunked left_ false, s'')
        end
      else (IoOk b, Chunked left_ false, s')
  end.

(** [<Chunked as Read>::read]. *)
Definition chunked_read (n remaining : Z) (done : bool) (s : Stream) : option (io bytes * Body * Stream) :=
  if done || (n =? 0) then Some (IoOk [], Chunked remaining done, s)
  else if remaining =? 0 then
    match line s with
    | (IoErr e, s') => Some (IoErr e, Chunked 0 false, s')
    | (IoOk text, s') =>
        match chunk_size text with
        | None => Some (IoErr OtherError, Chunked 0 false, s')
        | Some size =>
            if size =? 0 then
              match skip_trailers (S (length (s_bytes s'))) s' with
              | None => None
              | Some (IoErr e, s'') => Some (IoErr e, Chunked 0 false, s'')
              | Some (IoOk _, s'') => Some (IoOk [], Chunked 0 true, s'')
              end
            else Some (chunk_data n size s')
        end
    end
  else Some (chunk_data n remaining s).

Definition body_read (n : Z) (body : Body) (s : Stream) : option (io bytes * Body * Stream) :=
  match body with
  | Chunked remaining done => chunked_read n remaining done s
  | Sized left_ =>
      if left_ =? 0 then Some (IoOk [], body, s)
      else match read (Z.min n left_) s with
           | (IoOk b, s') => Some (IoOk b, Sized (left_ - len b), s')
           | (IoErr e, s') => Some (IoErr e, body, s')
           end
  | ToEnd => match read n s with (r, s') => Some (r, body, s') end
  end.

(** The loop that writes the body: the bytes received and the file, or what
    stopped it and the file as far as it got. *)
Fixpoint receive (fuel : nat) (limit : Z) (body : Body) (s : Stream) (written received : Z) (file : bytes) :
    option (result Z * bytes) :=
  match fuel with
  | O => None
  | S fuel' =>
      match body_read 65536 body s with
      | None => None
      | Some (IoErr TimedOut, _, _) => Some (Err (Msg "component transfer stalled"), file)
      | Some (IoErr OtherError, _, _) => Some (Err (Msg "component transfer interrupted"), file)
      | Some (IoOk [], _, _) => Some (Ok received, file)
      | Some (IoOk b, body', s') =>
          let written := wrap64 (written + len b) in
          let received := wrap64 (received + len b) in
          if written <=? limit then receive fuel' limit body' s' written received (file ++ b)
          else Some (Err (Msg "transfer exceeded byte bound"), file)
      end
  end.

(** * The response head *)

Definition HEAD_END : bytes := str_bytes (CRLF +:+ CRLF).
Definition ends_head (head : bytes) : bool := bool_decide (drop (length head - 4) head = HEAD_END).

(** A byte at a time up to the empty line. *)
Fixpoint read_head (b : bytes) (head : bytes) (s : Stream) : result bytes * Stream :=
  if ends_head head then (Ok head, rest_of b s)
  else if negb (len head <? MAX_RESPONSE_HEAD) then (Err (Msg "excessive response head"), rest_of b s)
  else match b with
       | [] => (Err (Msg "component transfer interrupted"), rest_of b s)
       | c :: b' => read_head b' (head ++ [c]) s
       end.

Record Head := {
  h_status : string;
  h_length : option Z;
  h_chunked : bool;
  h_range : option string;
  h_location : option string;
}.

(** [s.split("\r\n")]. *)
Fixpoint split_crlf (fuel : nat) (s : string) : list string :=
  match fuel with
  | O => [s]
  | S fuel' =>
      match split_once_str CRLF s with
      | Some (a, b) => a :: split_crlf fuel' b
      | None => [s]
      end
  end.

Definition lower (c : ascii) : ascii := if is_upper c then val_byte (byte_val c + 32) else c.
Fixpoint to_ascii_lowercase (s : string) : string :=
  match s with EmptyString => EmptyString | String c s' => String (lower c) (to_ascii_lowercase s') end.

Definition header (h : Head) (text : string) : result Head :=
  let? nv := with_context (split_once ":" text) "invalid response header" in
  let value := trim_ws nv.2 in
  let name := to_ascii_lowercase nv.1 in
  if bool_decide (name = "content-length") then
    let? n := with_context (parse_u64 value) "invalid digit found in string" in
    Ok {| h_status := h_status h; h_length := Some n; h_chunked := h_chunked h; h_range := h_range h;
          h_location := h_location h |}
  else if bool_decide (name = "transfer-encoding") then
    Ok {| h_status := h_status h; h_length := h_length h;
          h_chunked := bool_decide (to_ascii_lowercase value = "chunked"); h_range := h_range h;
          h_location := h_location h |}
  else if bool_decide (name = "content-range") then
    Ok {| h_status := h_status h; h_length := h_length h; h_chunked := h_chunked h; h_range := Some value;
          h_location := h_location h |}
  else if bool_decide (name = "location") then
    Ok {| h_status := h_status h; h_length := h_length h; h_chunked := h_chunked h; h_range := h_range h;
          h_location := Some value |}
  else Ok h.
Fixpoint headers (h : Head) (ls : list string) : result Head :=
  match ls with
  | [] => Ok h
  | l :: rest => if is_empty l then headers h rest else let? h' := header h l in headers h' rest
  end.

(** [line.get(2..5)], on what follows the version's major. *)
Definition status_of (text : string) : option string :=
  match strip_prefix "HTTP/1." text with
  | Some (String _ (String _ (String a (String b (String c rest))))) =>
      let s := String a (String b (String c "")) in
      if valid_utf8 (str_bytes s) && valid_utf8 (str_bytes rest) then Some s else None
  | _ => None
  end.

Definition parse_head (head : bytes) : result Head :=
  ensure valid_utf8 head else "invalid response head" in
  let text := bytes_str head in
  match split_crlf (length head) text with
  | [] => Err (Msg "invalid response status line")
  | first :: rest =>
      let? status := with_context (status_of first) "invalid response status line" in
      headers {| h_status := status; h_length := None; h_chunked := false; h_range := None; h_location := None |} rest
  end.

Definition redirects (status : string) : bool := bool_decide (status ∈ ["301"; "302"; "303"; "307"; "308"]).

(** * One transfer *)

(** The status and range a transfer from an offset must have, and a length
    within its bound. *)
Definition response_ok (offset limit : Z) (h : Head) : result unit :=
  let? _ := (if 0 <? offset then
               ensure bool_decide (h_status h = "206")
                      && match h_range h with
                         | Some range => starts_with ("bytes " +:+ to_dec offset +:+ "-") range
                         | None => false
                         end
                 else ("unexpected transfer status " +:+ h_status h +:+ ": the server did not resume") in Ok tt
             else ensure bool_decide (h_status h = "200") else ("unexpected transfer status " +:+ h_status h) in Ok tt) in
  match h_chunked h, h_length h with
  | false, Some length =>
      ensure (offset + length <=? U64_MAX) && (offset + length <=? limit) else "transfer exceeded byte bound" in Ok tt
  | _, _ => Ok tt
  end.

Definition body_of (h : Head) : Body :=
  if h_chunked h then Chunked 0 false
  else match h_length h with Some length => Sized length | None => ToEnd end.

(** [Transfer::run], the request sent: the location of a redirect, or [None]
    once the body is in the file; and the file, which a transfer from an offset
    appends to and any other creates. *)
Definition run (offset limit : Z) (held : option bytes) (s : Stream) : option (result (option string) * option bytes) :=
  match read_head (s_bytes s) [] s with
  | (Err e, _) => Some (Err e, held)
  | (Ok head, s') =>
      match parse_head head with
      | Err e => Some (Err e, held)
      | Ok h =>
          if redirects (h_status h) then
            Some (let? location := with_context (h_location h) ("transfer redirect " +:+ h_status h +:+ " without a location") in
                  Ok (Some location), held)
          else match response_ok offset limit h with
          | Err e => Some (Err e, held)
          | Ok _ =>
              let start := if 0 <? offset then default [] held else [] in
              match receive (S (length (s_bytes s'))) limit (body_of h) s' offset 0 start with
              | None => None
              | Some (Err e, file') => Some (Err e, Some file')
              | Some (Ok received, file') =>
                  Some (match h_chunked h, h_length h with
                        | false, Some length =>
                            ensure received =? length else "component transfer interrupted" in Ok None
                        | _, _ => Ok None
                        end, Some file')
              end
          end
      end
  end.

End transfer.

(** * Redirects *)

Section download.
(** A parsed URL, and one connection: the attempt, its URL and the offset asked
    for decide how its reads go. The fuel is for the reads of a connection. *)
Context {Url : Type} (url_parse : string → option Url) (url_join : Url → string → option Url)
  (url_ok : Url → bool) (connect : nat → Url → Z → result Conn) (turns : nat) (grain : nat → bytes → Z).

(** [transfer_once]. *)
Definition transfer_once (attempt : nat) (url : Url) (offset limit : Z) (held : option bytes) :
    option (result (option string) * option bytes) :=
  if negb (url_ok url) then Some (Err (Msg "unsupported transfer URL"), held)
  else match connect attempt url offset with
       | Err e => Some (Err e, held)
       | Ok c =>
           match deadline (cn_sent c) with
           | IoErr _ => Some (Err (Msg "component transfer timed out"), held)
           | IoOk _ => s ← arrive turns 0 (cn_opened c, 0) c; run (grain attempt) offset limit held s
           end
       end.

Fixpoint follow (requests attempt : nat) (url : Url) (offset limit : Z) (held : option bytes) :
    option (result unit * option bytes) :=
  match requests with
  | O => Some (Err (Msg "component transfer redirected more than 10 times"), held)
  | S requests' =>
      match transfer_once attempt url offset limit held with
      | None => None
      | Some (Err e, held') => Some (Err e, held')
      | Some (Ok None, held') => Some (Ok tt, held')
      | Some (Ok (Some location), held') =>
          match url_join url location with
          | Some url' => follow requests' (S attempt) url' offset limit held'
          | None => Some (Err (Msg "invalid transfer redirect location"), held')
          end
      end
  end.

(** [download], where [held] is what the file holds, [None] when there is none. *)
Definition download (url : string) (held : option bytes) (limit : Z) (resume : bool) :
    option (result unit * option bytes) :=
  let offset := match held with Some b => if resume then len b else 0 | None => 0 end in
  if negb (offset <=? limit) then Some (Err (Msg "transfer exceeded byte bound"), held)
  else match url_parse url with
       | None => Some (Err (Msg "invalid URL"), held)
       | Some url => follow (S MAX_REDIRECTS) 0 url offset limit held
       end.

End download.

(** * Lemmas *)

(** A connection's reads that go past the deadline. *)
Definition outlasts (turns : nat) (c : Conn) : Prop := ∃ k, (k < turns)%nat ∧ TRANSFER_TIMEOUT ≤ tn_at (cn_reads c k).
(** The deadline ends whatever goes past it. *)
Lemma arrive_ends turns k window c n : (k ≤ n < k + turns)%nat → TRANSFER_TIMEOUT ≤ tn_at (cn_reads c n) → is_Some (arrive turns k window c).
Proof.
  revert k window. induction turns as [|turns IH]; intros k window Hn Hlate; [lia|]. cbn [arrive]. unfold paced_read, deadline.
  destruct (Z.ltb_spec (tn_at (cn_reads c k)) TRANSFER_TIMEOUT) as [Hlt|]; [|by eexists].
  assert (Hrest : ∀ window', is_Some (arrive turns (S k) window' c)).
  { intros window'. apply IH; [|done]. destruct (decide (n = k)) as [->|]; lia. }
  assert (Hgo : ∀ window', is_Some (match tn_plain (cn_reads c k) with
    | IoErr e => Some {| s_bytes := []; s_end := Some e |} | IoOk (b, true) => Some {| s_bytes := b; s_end := None |}
    | IoOk (b, false) => s ← arrive turns (S k) window' c; Some {| s_bytes := b ++ s_bytes s; s_end := s_end s |} end)).
  { intros window'. destruct (tn_plain (cn_reads c k)) as [[b []]|e]; [by eexists| |by eexists]. destruct (Hrest window') as [s ->]. by eexists. }
  destruct (tn_count (cn_reads c k)) as [count|e]; [|by eexists]. destruct (_ && _); [|apply Hgo]. destruct (_ <? _); [by eexists|apply Hgo].
Qed.

(** Reading [l] off a stream. *)
Definition eats (l : bytes) (s s' : Stream) : Prop := s_bytes s = l ++ s_bytes s' ∧ s_end s' = s_end s.

Lemma eats_refl s : eats [] s s.
Proof. done. Qed.
Lemma eats_trans l m s1 s2 s3 : eats l s1 s2 → eats m s2 s3 → eats (l ++ m) s1 s3.
Proof. intros [H1 E1] [H2 E2]. split; [by rewrite H1, H2, app_assoc|congruence]. Qed.
Lemma eats_len l s s' : eats l s s' → length (s_bytes s) = (length l + length (s_bytes s'))%nat.
Proof. intros [H _]. by rewrite H, length_app. Qed.

Lemma until_lf_spec n b l r stopped :
  until_lf n b = (l, r, stopped) → b = l ++ r.
Proof.
  revert b l r stopped. induction n as [|n IH]; intros b l r stopped H; cbn in H; [by simplify_eq|].
  destruct b as [|c b]; [by simplify_eq|]. case_bool_decide; [by simplify_eq|].
  destruct (until_lf n b) as [[l' r'] st] eqn:E. simplify_eq. cbn. f_equal. by eapply IH.
Qed.

Lemma until_lf_line n t r :
  contains_byte LF t = false → (String.length t < n)%nat →
  until_lf n (str_bytes t ++ LF :: r) = (str_bytes t ++ [LF], r, true).
Proof.
  revert n. induction t as [|c t IH]; intros n Ht Hn.
  - destruct n as [|n]; [cbn in Hn; lia|]. cbn. by rewrite bool_decide_eq_true_2.
  - destruct n as [|n]; [cbn in Hn; lia|]. cbn [contains_byte] in Ht. apply orb_false_iff in Ht as [Hc Ht].
    apply bool_decide_eq_false in Hc. change (str_bytes (String c t)) with (c :: str_bytes t). cbn [app until_lf].
    rewrite bool_decide_eq_false_2 by congruence. rewrite IH; [done..|cbn in Hn; lia].
Qed.

Lemma line_spec s r s' :
  line s = (r, s') → ∃ l, eats l s s' ∧ match r with IoOk text => l = str_bytes (text +:+ CRLF) | IoErr _ => True end.
Proof.
  unfold line. destruct (until_lf 1024 (s_bytes s)) as [[l rest] stopped] eqn:E. apply until_lf_spec in E.
  assert (Heat : eats l s (rest_of rest s)) by done. intros H. exists l.
  destruct (if stopped then IoOk l else at_end l s) as [l'|e] eqn:El; [|by simplify_eq].
  assert (l' = l) as -> by (destruct stopped; [by simplify_eq|]; unfold at_end in El; destruct (s_end s); by simplify_eq).
  destruct (if valid_utf8 l then strip_suffix CRLF (bytes_str l) else None) as [text|] eqn:Et; simplify_eq; [|done].
  split; [done|]. destruct (valid_utf8 l); [|done]. apply strip_suffix_spec in Et. by rewrite <- Et, bytes_str_bytes.
Qed.

(** A line that reads as its text. *)
Definition text_ok (t : string) : Prop :=
  contains_byte LF t = false ∧ str_len t ≤ 1022 ∧ valid_utf8 (str_bytes (t +:+ CRLF)) = true.

Lemma line_reads t r s : text_ok t → s_bytes s = str_bytes (t +:+ CRLF) ++ r → line s = (IoOk t, rest_of r s).
Proof.
  intros (Hf & Hl & Hu) Hs. unfold line.
  assert (E : until_lf 1024 (s_bytes s) = (str_bytes (t +:+ CRLF), r, true)).
  { rewrite Hs. assert (Hsplit : str_bytes (t +:+ CRLF) = str_bytes (t +:+ String CR "") ++ [LF]).
    { rewrite !str_bytes_app, <- app_assoc. done. }
    rewrite Hsplit, <- app_assoc. cbn [app]. apply until_lf_line.
    - rewrite contains_byte_app, Hf. done.
    - unfold str_len in Hl. rewrite <- str_bytes_length, str_bytes_app, length_app, str_bytes_length. cbn. lia. }
  rewrite E, Hu, str_bytes_str, strip_suffix_app. done.
Qed.

Section laws.
Context (grain : bytes → Z).

Lemma read_spec n s r s' :
  1 ≤ n → read grain n s = (r, s') →
  match r with
  | IoOk [] => s_bytes s = [] ∧ s' = s
  | IoOk b => eats b s s' ∧ len b ≤ n
  | IoErr _ => s' = s
  end.
Proof.
  intros Hn H. unfold read in H. destruct (s_bytes s) as [|c b] eqn:E.
  { unfold at_end in H. destruct (s_end s); by simplify_eq. }
  set (k := Z.to_nat _) in H. injection H as <- <-.
  assert (Hk : (1 ≤ k)%nat ∧ Z.of_nat k ≤ n) by (unfold k; lia).
  clearbody k. destruct k as [|k']; [lia|]. cbn [take]. split.
  - unfold eats. cbn [rest_of s_bytes s_end drop]. rewrite E. cbn. by rewrite take_drop.
  - unfold len. cbn [length]. rewrite length_take. lia.
Qed.

Lemma skip_trailers_some fuel s :
  (length (s_bytes s) < fuel)%nat → ∃ r s', skip_trailers fuel s = Some (r, s') ∧ ∃ l, eats l s s'.
Proof.
  revert s. induction fuel as [|fuel IH]; intros s Hs; [lia|]. cbn.
  destruct (line s) as [[text|e] s'] eqn:El.
  - apply line_spec in El as (l & Hl & ->). destruct (is_empty text); [by eauto 10|].
    pose proof (eats_len _ _ _ Hl) as Hlen. rewrite str_bytes_app, length_app in Hlen. cbn in Hlen.
    destruct (IH s') as (r & s'' & Hr & m & Hm); [lia|]. exists r, s''. split; [done|]. eexists. by eapply eats_trans.
  - apply line_spec in El as (l & Hl & _). eauto 10.
Qed.

(** What a read of a body is: bytes of the stream in order, and of a sized body
    no more than its length. *)
Definition body_step (n : Z) (body : Body) (b : bytes) (body' : Body) (s s' : Stream) : Prop :=
  (length (s_bytes s') + length b ≤ length (s_bytes s))%nat ∧ len b ≤ n
  ∧ match body with
    | Sized left_ => body' = Sized (left_ - len b) ∧ eats b s s' ∧ len b ≤ left_
    | ToEnd => body' = ToEnd ∧ eats b s s'
    | Chunked _ _ => ∃ r d, body' = Chunked r d ∧ 0 ≤ r
    end.
Definition body_inv (body : Body) : Prop :=
  match body with Chunked r _ => 0 ≤ r | Sized left_ => 0 ≤ left_ | ToEnd => True end.

Lemma hex_digits_bound s acc v : 0 ≤ acc → hex_digits s acc = Some v → 0 ≤ v.
Proof.
  revert acc. induction s as [|c s IH]; intros acc Ha H; cbn in H; [by simplify_eq|].
  unfold hex_digit in H. pose proof (byte_val_bound c).
  assert (Hcase : ∀ d, 0 ≤ d → (if acc * 16 + d <=? U64_MAX then hex_digits s (acc * 16 + d) else None) = Some v → 0 ≤ v).
  { intros d Hd Hv. destruct (_ <=? _); [|done]. eapply IH; [|exact Hv]. lia. }
  destruct (is_digit c) eqn:Hd; [eapply Hcase; [|exact H]|].
  { unfold is_digit, in_range in Hd. bools. change (byte_val "0") with 48 in *. lia. }
  destruct (in_range "a" "f" c) eqn:Hl; [eapply Hcase; [|exact H]|].
  { unfold in_range in Hl. bools. change (byte_val "a") with 97 in *. lia. }
  destruct (in_range "A" "F" c) eqn:Hh; [eapply Hcase; [|exact H]|done].
  unfold in_range in Hh. bools. change (byte_val "A") with 65 in *. lia.
Qed.

Lemma chunk_size_pos t v : chunk_size t = Some v → 0 ≤ v.
Proof.
  unfold chunk_size, parse_hex. generalize (trim_ws match split ";" t with size :: _ => size | [] => "" end). intros s H.
  destruct s as [|c s]; [done|]. destruct (decide (c = "+"%char)) as [->|Hc].
  - destruct s; [done|]. by eapply hex_digits_bound in H.
  - assert (H' : hex_digits (String c s) 0 = Some v).
    { destruct c as [[] [] [] [] [] [] [] []]; try exact H; by destruct Hc. }
    by eapply hex_digits_bound in H'.
Qed.

Lemma line_shrinks s r s' : line s = (r, s') → (length (s_bytes s') ≤ length (s_bytes s))%nat.
Proof. intros H. apply line_spec in H as (l & Hl & _). apply eats_len in Hl. lia. Qed.

Lemma chunk_data_spec n remaining s r body' s' :
  1 ≤ n → 0 < remaining → chunk_data grain n remaining s = (r, body', s') →
  match r with
  | IoOk b => b ≠ [] ∧ body_step n (Chunked remaining false) b body' s s'
  | IoErr _ => True
  end.
Proof.
  unfold chunk_data. intros Hn Hr H.
  destruct (read grain (Z.min n remaining) s) as [[b|e] s1] eqn:E; [|by simplify_eq].
  apply read_spec in E; [|lia]. destruct b as [|c b]; [by simplify_eq|]. destruct E as [Heat Hlen].
  apply eats_len in Heat.
  destruct (remaining - len (c :: b) =? 0).
  - destruct (line s1) as [[text|e] s2] eqn:El; [|by simplify_eq]. apply line_shrinks in El.
    destruct (is_empty text); simplify_eq; [|done]. split; [done|]. split_and!; [lia|lia|]. exists (remaining - len (c :: b)), false. split; [done|lia].
  - simplify_eq. split; [done|]. split_and!; [lia|lia|]. exists (remaining - len (c :: b)), false. split; [done|lia].
Qed.

Lemma body_read_some n body s :
  1 ≤ n → body_inv body →
  ∃ r body' s', body_read grain n body s = Some (r, body', s')
  ∧ match r with
    | IoOk [] => match body with
                 | Chunked _ _ => True
                 | Sized left_ => left_ = 0 ∨ s_bytes s = []
                 | ToEnd => s_bytes s = []
                 end
    | IoOk b => body_step n body b body' s s'
    | IoErr _ => True
    end.
Proof.
  intros Hn Hinv. destruct body as [remaining done|left_|]; cbn [body_read body_inv] in *.
  - unfold chunked_read. rewrite (proj2 (Z.eqb_neq n 0)) by lia. rewrite orb_false_r.
    destruct done; [by eexists _, _, _|]. destruct (Z.eqb_spec remaining 0) as [->|Hr].
    + destruct (line s) as [[text|e] s1] eqn:El; [|by eexists _, _, _]. apply line_shrinks in El.
      destruct (chunk_size text) as [size|] eqn:Es; [|by eexists _, _, _]. apply chunk_size_pos in Es.
      destruct (Z.eqb_spec size 0) as [->|Hs].
      * destruct (skip_trailers_some (S (length (s_bytes s1))) s1) as (r & s2 & Et & _); [lia|]. rewrite Et.
        destruct r; by eexists _, _, _.
      * destruct (chunk_data grain n size s1) as [[r b'] s2] eqn:Ed. exists r, b', s2. split; [done|].
        apply chunk_data_spec in Ed; [|cbn in *; lia..]. destruct r as [b|]; [|done]. destruct Ed as (Hb & Hlen & Hbn & Hbody).
        destruct b; [done|]. split_and!; [lia|done|done].
    + destruct (chunk_data grain n remaining s) as [[r b'] s2] eqn:Ed. exists r, b', s2. split; [done|].
      apply chunk_data_spec in Ed; [|cbn in *; lia..]. destruct r as [b|]; [|done]. destruct Ed as (Hb & Hstep). by destruct b.
  - destruct (Z.eqb_spec left_ 0) as [->|Hl]; [by eexists _, _, _; split; [done|left]|].
    destruct (read grain (Z.min n left_) s) as [[b|e] s1] eqn:E; [|by eexists _, _, _].
    apply read_spec in E; [|lia]. eexists _, _, _. split; [done|]. destruct b as [|c b]; [right; apply E|].
    destruct E as [Heat Hlen]. pose proof (eats_len _ _ _ Heat). split_and!; [lia|lia|done|done|lia].
  - destruct (read grain n s) as [[b|e] s1] eqn:E; [|by eexists _, _, _].
    apply read_spec in E; [|lia]. eexists _, _, _. split; [done|]. destruct b as [|c b]; [apply E|].
    destruct E as [Heat Hlen]. pose proof (eats_len _ _ _ Heat). split_and!; [lia|lia|done|done].
Qed.

(** What the receiving loop did to the file, whatever the server sent: the loop
    ends, what it wrote it appended, the bound holds, and a body that says how
    long it is was read no further. *)
Definition received_within (limit : Z) (body : Body) (s : Stream) (received : Z) (file : bytes)
    (r : result Z * bytes) : Prop :=
  ∃ data, r.2 = file ++ data ∧ len r.2 ≤ limit
  ∧ match body with
    | Chunked _ _ => True
    | Sized left_ => data `prefix_of` s_bytes s ∧ len data ≤ left_
    | ToEnd => data `prefix_of` s_bytes s
    end
  ∧ ∀ n, r.1 = Ok n → n = received + len data
         ∧ match body with
           | Sized left_ => len data = left_ ∨ data = s_bytes s
           | ToEnd => data = s_bytes s
           | Chunked _ _ => True
           end.

Lemma received_stop limit body s received file r :
  len file ≤ limit → body_inv body →
  (∀ n, r = Ok n → n = received ∧ match body with
                                  | Sized left_ => left_ = 0 ∨ s_bytes s = []
                                  | ToEnd => s_bytes s = []
                                  | Chunked _ _ => True
                                  end) →
  received_within limit body s received file (r, file).
Proof.
  intros Hl Hi Hr. exists []. cbn [fst snd]. rewrite app_nil_r. change (len (@nil ascii)) with 0.
  split_and!; [done|done| |].
  - destruct body; cbn in Hi; [done|split; [apply prefix_nil|done]|apply prefix_nil].
  - intros n Hn. destruct (Hr n Hn) as [-> H]. split; [by rewrite Z.add_0_r|]. destruct body; [done| |done].
    destruct H as [->|H]; [by left|by right].
Qed.

Lemma received_more limit n body b body' s s' received file r :
  body_step n body b body' s s' → received_within limit body' s' (received + len b) (file ++ b) r →
  received_within limit body s received file r.
Proof.
  intros (_ & _ & Hb) (data & Hfile & Hlim & Hpre & Hok). exists (b ++ data).
  assert (Hlen : len (b ++ data) = len b + len data) by (unfold len; rewrite length_app; lia).
  split_and!; [by rewrite Hfile, app_assoc|done| |].
  - destruct body as [| |]; [done| |].
    + destruct Hb as (-> & [Heq _] & Hle). destruct Hpre as [Hpre Hdl]. split; [rewrite Heq; by apply prefix_app|lia].
    + destruct Hb as (-> & [Heq _]). rewrite Heq. by apply prefix_app.
  - intros m Hm. destruct (Hok m Hm) as [-> Hex]. split; [lia|]. destruct body as [| |]; [done| |].
    + destruct Hb as (-> & [Heq _] & Hle). destruct Hex as [Hex| ->]; [left; lia|right; done].
    + destruct Hb as (-> & [Heq _]). by rewrite Heq, Hex.
Qed.

Lemma receive_bounded fuel limit body s written received file :
  (length (s_bytes s) < fuel)%nat → body_inv body → limit + 65536 ≤ U64_MAX →
  written = len file → 0 ≤ received ≤ written → written ≤ limit →
  ∃ r, receive grain fuel limit body s written received file = Some r ∧ received_within limit body s received file r.
Proof.
  revert body s written received file. induction fuel as [|fuel IH]; intros body s written received file Hf Hi Hu -> Hr Hl; [lia|].
  cbn [receive]. destruct (body_read_some 65536 body s) as (r & body' & s' & Hread & Hspec); [lia|done|]. rewrite Hread.
  destruct r as [[|c b]|[]].
  - eexists. split; [done|]. apply received_stop; [done|done|]. by intros n [= ->].
  - set (b' := c :: b) in *. assert (Hb' : b' ≠ []) by done. clearbody b'. destruct Hspec as (Hlen & Hbn & Hbody).
    assert (Hpos : (1 ≤ length b')%nat) by (destruct b'; cbn; [done|lia]).
    assert (Hw : wrap64 (len file + len b') = len (file ++ b')).
    { rewrite len_app. apply wrap64_small. unfold is_u64, len in *. lia. }
    assert (Hrec : wrap64 (received + len b') = received + len b') by (apply wrap64_small; unfold is_u64, len in *; lia).
    destruct b' as [|c' b'']; [done|]. rewrite Hw, Hrec. set (b' := c' :: b'') in *. clearbody b'.
    destruct (Z.leb_spec (len (file ++ b')) limit) as [Hle|Hgt].
    + destruct (IH body' s' (len (file ++ b')) (received + len b') (file ++ b')) as (r & Hr' & Hwithin); [lia| |done|done| |done|].
      * destruct body as [| |]; [destruct Hbody as (? & ? & -> & ?)|destruct Hbody as (-> & _ & ?)|destruct Hbody as (-> & _)]; cbn; lia || done.
      * unfold len in *. rewrite length_app. lia.
      * exists r. split; [done|]. by eapply received_more.
    + eexists. split; [done|]. by apply received_stop.
  - eexists. split; [done|]. by apply received_stop.
  - eexists. split; [done|]. by apply received_stop.
Qed.

Lemma read_head_some b head s : ∃ r s', read_head b head s = (r, s') ∧ s_end s' = s_end s.
Proof.
  revert head. induction b as [|c b IH]; intros head; cbn [read_head]; destruct (ends_head head); [by eauto| |by eauto|];
    destruct (negb _); eauto.
Qed.

Lemma parse_digits_nonneg max t acc v : 0 ≤ acc → parse_digits max t acc = Some v → 0 ≤ v.
Proof.
  revert acc. induction t as [|c t IH]; intros acc Ha H; cbn in H; [by simplify_eq|].
  destruct (is_digit c) eqn:Hd; [|done]. destruct (_ <=? _); [|done]. refine (IH _ _ H).
  apply is_digit_val in Hd. lia.
Qed.
Lemma parse_u64_nonneg t v : parse_u64 t = Some v → 0 ≤ v.
Proof.
  unfold parse_u64, parse_uint. generalize (match t with String "+" t' => t' | _ => t end). intros [|c b] H; [done|].
  exact (parse_digits_nonneg _ _ 0 _ (Z.le_refl 0) H).
Qed.

Lemma header_inv h text h' :
  (∀ n, h_length h = Some n → 0 ≤ n) → header h text = Ok h' → ∀ n, h_length h' = Some n → 0 ≤ n.
Proof.
  unfold header. intros Hh H n Hn. destruct (split_once ":" text) as [[name value]|]; [|done]. cbn [with_context if_ok] in H.
  cbn [with_context rbind fst snd] in H. case_bool_decide.
  - destruct (parse_u64 (trim_ws value)) as [m|] eqn:E; [|done]. cbn in H. simplify_eq. cbn in Hn. simplify_eq.
    exact (parse_u64_nonneg _ _ E).
  - repeat case_bool_decide; simplify_eq; cbn in Hn; eauto.
Qed.

Lemma headers_inv ls h h' :
  (∀ n, h_length h = Some n → 0 ≤ n) → headers h ls = Ok h' → ∀ n, h_length h' = Some n → 0 ≤ n.
Proof.
  revert h. induction ls as [|l ls IH]; intros h Hh H; cbn in H; [by simplify_eq|].
  destruct (is_empty l); [by eapply IH|]. destruct (header h l) as [h1|] eqn:E; [|done].
  eapply IH; [|exact H]. by eapply header_inv.
Qed.

Lemma parse_head_inv head h : parse_head head = Ok h → body_inv (body_of h).
Proof.
  unfold parse_head. destruct (valid_utf8 head); [|done]. destruct (split_crlf _ _) as [|first rest]; [done|].
  destruct (status_of first) as [status|]; [|done]. cbn [with_context]. intros H.
  assert (Hl : ∀ n, h_length h = Some n → 0 ≤ n) by (eapply headers_inv; [|exact H]; by intros n [=]).
  unfold body_of. destruct (h_chunked h); [cbn; lia|]. destruct (h_length h); [by apply Hl|done].
Qed.

(** What a transfer leaves in its file: what it held, or, its start kept, what
    arrived within the bound. *)
Definition arrived (limit : Z) (start : bytes) (held' : option bytes) : Prop :=
  ∃ data, held' = Some (start ++ data) ∧ len (start ++ data) ≤ limit.

Definition offset_of (held : option bytes) (resume : bool) : Z :=
  match held with Some b => if resume then len b else 0 | None => 0 end.
Definition start_of (held : option bytes) (resume : bool) : bytes := if resume then default [] held else [].
Lemma start_of_offset held resume :
  (if 0 <? offset_of held resume then default [] held else []) = start_of held resume.
Proof. destruct held as [b|], resume; [|done..]. cbn. by destruct b. Qed.
Lemma start_of_len held resume : len (start_of held resume) = offset_of held resume.
Proof. by destruct held, resume. Qed.

Lemma run_bounded limit resume held s :
  limit + 65536 ≤ U64_MAX → offset_of held resume ≤ limit →
  ∃ r held', run grain (offset_of held resume) limit held s = Some (r, held')
  ∧ match r with
    | Ok None => arrived limit (start_of held resume) held'
    | Ok (Some _) => held' = held
    | Err _ => held' = held ∨ arrived limit (start_of held resume) held'
    end.
Proof.
  intros Hu Hl. unfold run. rewrite start_of_offset.
  destruct (read_head (s_bytes s) [] s) as [[head|e] s']; [|eexists _, _; split; [done|by left]].
  destruct (parse_head head) as [h|e] eqn:Eh; [|eexists _, _; split; [done|by left]]. apply parse_head_inv in Eh.
  destruct (redirects (h_status h)); [eexists _, _; split; [done|destruct (h_location h); [done|by left]]|].
  destruct (response_ok _ limit h) as [[]|e]; [|eexists _, _; split; [done|by left]].
  destruct (receive_bounded (S (length (s_bytes s'))) limit (body_of h) s' (offset_of held resume) 0 (start_of held resume))
    as ([r file] & Hr & data & Hd & Hlim & _); [lia|done|done|by rewrite start_of_len| |done|].
  { rewrite <- start_of_len. pose proof (len_nonneg (start_of held resume)). lia. }
  rewrite Hr. cbn [fst snd] in *. subst file.
  assert (Ha : arrived limit (start_of held resume) (Some (start_of held resume ++ data))) by by exists data.
  destruct r as [n|e]; eexists _, _; (split; [done|]); [|by right].
  destruct (h_chunked h); [done|]. destruct (h_length h) as [length|]; [|done]. destruct (n =? length); [done|by right].
Qed.

(** ** Chunked bodies *)

(** A chunk as it is sent: the line that gives its size, its data, and a line
    feed; and a whole body, with the line of its last chunk and its trailers. *)
Definition frame (f : string * bytes) : bytes := str_bytes (f.1 +:+ CRLF) ++ f.2 ++ str_bytes CRLF.
Definition frame_ok (f : string * bytes) : Prop := text_ok f.1 ∧ chunk_size f.1 = Some (len f.2) ∧ f.2 ≠ [].
Definition trailer_ok (t : string) : Prop := text_ok t ∧ t ≠ EmptyString.
Definition chunked_bytes (frames : list (string * bytes)) (last : string) (trailers : list string) : bytes :=
  concat (map frame frames) ++ str_bytes (last +:+ CRLF)
  ++ concat (map (λ t, str_bytes (t +:+ CRLF)) trailers) ++ str_bytes CRLF.

(** What is on the connection while [d] is left of the chunk in hand. *)
Definition pending (d : bytes) (r : bytes) : bytes := match d with [] => r | _ => d ++ str_bytes CRLF ++ r end.

Lemma empty_text_ok : text_ok "".
Proof. by vm_compute. Qed.

Lemma chunk_data_reads n d r s :
  1 ≤ n → d ≠ [] → s_bytes s = pending d r →
  ∃ b d' s', chunk_data grain n (len d) s = (IoOk b, Chunked (len d') false, s')
  ∧ d = b ++ d' ∧ b ≠ [] ∧ len b ≤ n ∧ s_bytes s' = pending d' r.
Proof.
  intros Hn Hd Hs. assert (Hp : s_bytes s = d ++ str_bytes CRLF ++ r) by (rewrite Hs; by destruct d). clear Hs.
  assert (Hlen : 1 ≤ len d) by (destruct d; [done|unfold len; cbn; lia]).
  unfold chunk_data, read. rewrite Hp. destruct (d ++ str_bytes CRLF ++ r) as [|c w] eqn:Ew; [by destruct d|]. rewrite <- Ew.
  set (k := Z.to_nat _).
  assert (Hk : (1 ≤ k ≤ length d)%nat ∧ Z.of_nat k ≤ n) by (unfold k, len in *; lia). clearbody k.
  rewrite take_app_le, drop_app_le by lia. destruct (take k d) as [|x b] eqn:Eb; [destruct d, k; cbn in *; done || lia|].
  assert (Hsplit : d = (x :: b) ++ drop k d) by (rewrite <- Eb; by rewrite take_drop).
  assert (Hb : len (x :: b) = Z.of_nat k) by (rewrite <- Eb; unfold len; rewrite length_take; lia).
  assert (Hrest : len d - len (x :: b) = len (drop k d)).
  { rewrite Hsplit at 1. rewrite len_app. lia. }
  rewrite Hrest. exists (x :: b), (drop k d).
  destruct (Z.eqb_spec (len (drop k d)) 0) as [E|E].
  - assert (Hnil : drop k d = []) by (destruct (drop k d); [done|unfold len in E; cbn in E; lia]). rewrite Hnil in *.
    rewrite (line_reads "" r) by (exact empty_text_ok || done). cbn [is_empty].
    eexists. split; [done|]. split_and!; [done|done|lia|done].
  - eexists. split; [done|]. split_and!; [done|done|lia|]. cbn [rest_of s_bytes]. destruct (drop k d); done.
Qed.

Lemma skip_trailers_reads trailers r fuel s :
  Forall trailer_ok trailers → (length trailers < fuel)%nat →
  s_bytes s = concat (map (λ t, str_bytes (t +:+ CRLF)) trailers) ++ str_bytes CRLF ++ r →
  skip_trailers fuel s = Some (IoOk tt, rest_of r s).
Proof.
  intros Ht. revert fuel s. induction Ht as [|t trailers [Hok Hne] Ht IH]; intros [|fuel] s Hf Hs; cbn in Hf; [lia| |lia|]; cbn [skip_trailers].
  - by rewrite (line_reads "" r) by (exact empty_text_ok || done).
  - cbn [map concat] in Hs. rewrite <- app_assoc in Hs. rewrite (line_reads t _ s Hok Hs).
    destruct t as [|c t]; [done|]. cbn [is_empty]. rewrite IH; [done|lia|done].
Qed.

(** A read of a chunked body that has more to give. *)
Lemma chunked_read_more n d frames last trailers r s :
  1 ≤ n → Forall frame_ok frames → (d ≠ [] ∨ frames ≠ []) →
  s_bytes s = pending d (chunked_bytes frames last trailers ++ r) →
  ∃ b d' frames' s', chunked_read grain n (len d) false s = Some (IoOk b, Chunked (len d') false, s')
  ∧ d ++ concat (map snd frames) = b ++ d' ++ concat (map snd frames') ∧ b ≠ [] ∧ len b ≤ n ∧ Forall frame_ok frames'
  ∧ s_bytes s' = pending d' (chunked_bytes frames' last trailers ++ r).
Proof.
  intros Hn Hfs Hmore Hs. unfold chunked_read. rewrite (proj2 (Z.eqb_neq n 0)) by lia. cbn [orb].
  destruct d as [|c d].
  - change (len (@nil ascii)) with 0. rewrite Z.eqb_refl. destruct Hfs as [|[t w] fs (Ht & Hsize & Hw) Hfs]; [by destruct Hmore|].
    assert (Hs' : s_bytes s = str_bytes (t +:+ CRLF) ++ pending w (chunked_bytes fs last trailers ++ r)).
    { rewrite Hs. unfold pending, chunked_bytes. cbn [map concat]. unfold frame at 1. cbn [fst snd] in *.
      destruct w; [done|]. by rewrite <- !app_assoc. }
    cbn [fst snd] in *. rewrite (line_reads t _ s Ht Hs'), Hsize. clear Hs Hs'.
    assert (Hlen : 1 ≤ len w) by (destruct w; [done|unfold len; cbn; lia]).
    rewrite (proj2 (Z.eqb_neq (len w) 0)) by lia.
    edestruct (chunk_data_reads n w (chunked_bytes fs last trailers ++ r)
      (rest_of (pending w (chunked_bytes fs last trailers ++ r)) s)) as (b & d' & s' & E & Hsplit & Hb & Hbn & Hs');
      [exact Hn|exact Hw|done|].
    rewrite E. exists b, d', fs, s'. split_and!; [done| |done|done|done|done].
    cbn [app map concat fst snd]. by rewrite Hsplit, <- app_assoc.
  - assert (Hd : len (c :: d) ≠ 0) by (unfold len; cbn; lia). rewrite (proj2 (Z.eqb_neq _ 0) Hd).
    destruct (chunk_data_reads n (c :: d) _ s Hn (ltac:(done)) Hs) as (b & d' & s' & E & Hsplit & Hb & Hbn & Hs').
    rewrite E. exists b, d', frames, s'. split_and!; [done|by rewrite Hsplit, <- app_assoc|done|done|done|done].
Qed.

Lemma receive_chunked fuel limit d frames last trailers r s written received file :
  (length (s_bytes s) < fuel)%nat → Forall frame_ok frames → text_ok last → chunk_size last = Some 0 →
  Forall trailer_ok trailers → limit ≤ U64_MAX → 0 ≤ received ≤ written →
  written + len (d ++ concat (map snd frames)) ≤ limit →
  s_bytes s = pending d (chunked_bytes frames last trailers ++ r) →
  receive grain fuel limit (Chunked (len d) false) s written received file
  = Some (Ok (received + len (d ++ concat (map snd frames))), file ++ d ++ concat (map snd frames)).
Proof.
  intros Hfuel Hfs Hlast Hzero Htr Hu. revert d frames s written received file Hfuel Hfs.
  induction fuel as [|fuel IH]; intros d frames s written received file Hfuel Hfs Hrec Hlim Hs; [lia|].
  cbn [receive body_read].
  destruct (decide (d = [] ∧ frames = [])) as [[-> ->]|Hmore].
  - change (len (@nil ascii)) with 0. cbn [pending] in Hs. unfold chunked_bytes in Hs. cbn [map concat app] in Hs.
    rewrite <- !app_assoc in Hs. unfold chunked_read. cbn [orb Z.eqb]. rewrite (line_reads last _ s Hlast Hs), Hzero. cbn [Z.eqb].
    rewrite (skip_trailers_reads trailers r); [|done| |done].
    + cbn. by rewrite app_nil_r, Z.add_0_r.
    + cbn [rest_of s_bytes]. clear. rewrite length_app.
      assert (length trailers ≤ length (concat (map (λ t, str_bytes (t +:+ CRLF)) trailers)))%nat; [|lia].
      induction trailers as [|t l IH]; cbn; [lia|]. rewrite length_app, str_bytes_app, length_app. cbn. lia.
  - destruct (chunked_read_more 65536 d frames last trailers r s) as (b & d' & fs' & s' & E & Hsplit & Hb & Hbn & Hfs' & Hs');
      [lia|done| |done|].
    { destruct d; [right|by left]. intros ->. by apply Hmore. }
    rewrite E, Hsplit in *. rewrite !len_app in *.
    assert (Hpos : 1 ≤ len b) by (destruct b; [done|unfold len; cbn; lia]).
    pose proof (len_nonneg d'). pose proof (len_nonneg (concat (map snd fs'))).
    destruct b as [|c b]; [done|]. set (b' := c :: b) in *.
    rewrite !wrap64_small by (unfold is_u64; lia). rewrite (proj2 (Z.leb_le _ _)) by lia.
    destruct (body_read_some 65536 (Chunked (len d) false) s) as (r' & body' & s'' & E' & Hstep); [lia|cbn; apply len_nonneg|].
    cbn [body_read] in E'. rewrite E in E'. simplify_eq. destruct Hstep as [Hshrink _].
    rewrite (IH d' fs'); [|unfold len in Hpos; lia|done|lia|rewrite len_app, <- Z.add_assoc; exact Hlim|done]. rewrite len_app, <- !app_assoc, <- Z.add_assoc. reflexivity.
Qed.

(** A body that is not chunked, delivered. *)
Lemma unchunked_delivered limit h s received file start :
  received_within limit (body_of h) s 0 start (Ok received, file) → h_chunked h = false → body_inv (body_of h) →
  (∀ n, h_length h = Some n → received = n) →
  file = start ++ match h_length h with Some n => take (Z.to_nat n) (s_bytes s) | None => s_bytes s end
  ∧ ∀ n, h_length h = Some n → n ≤ len (s_bytes s).
Proof.
  intros (data & Hd & _ & Hpre & Hok) Hc Hinv Hex. cbn [fst snd] in *. subst file.
  destruct (Hok _ eq_refl) as [Hr Hend]. unfold body_of in *. rewrite Hc in *.
  destruct (h_length h) as [n|]; [|by subst data].
  specialize (Hex n eq_refl). destruct Hpre as [[rest Hpre] _]. cbn [body_inv] in Hinv.
  assert (Hn : n = len data) by lia. rewrite Hpre. split.
  - f_equal. rewrite Hn. unfold len. rewrite Nat2Z.id. by rewrite take_app_length.
  - intros m [= <-]. rewrite len_app. pose proof (len_nonneg rest). lia.
Qed.

End laws.

Section download_laws.
Context {Url : Type} (url_parse : string → option Url) (url_join : Url → string → option Url)
  (url_ok : Url → bool) (connect : nat → Url → Z → result Conn) (turns : nat) (grain : nat → bytes → Z)
  (Hclock : ∀ attempt u offset c, connect attempt u offset = Ok c → outlasts turns c).
Notation follow := (follow url_join url_ok connect turns grain).

Lemma follow_bounded requests attempt url limit resume held :
  limit + 65536 ≤ U64_MAX → offset_of held resume ≤ limit →
  ∃ r held', follow requests attempt url (offset_of held resume) limit held = Some (r, held')
  ∧ match r with
    | Ok _ => arrived limit (start_of held resume) held'
    | Err _ => held' = held ∨ arrived limit (start_of held resume) held'
    end.
Proof.
  intros Hu Hl. revert attempt url. induction requests as [|requests IH]; intros attempt url; cbn [Transfer.follow].
  { eexists _, _. split; [done|by left]. }
  unfold transfer_once. destruct (url_ok url); cbn [negb]; [|eexists _, _; split; [done|by left]].
  destruct (connect _ _ _) as [c|e] eqn:Ec; [|eexists _, _; split; [done|by left]]. apply Hclock in Ec as (k & Hk & Hlate).
  destruct (deadline (cn_sent c)); [|eexists _, _; split; [done|by left]].
  destruct (arrive_ends turns 0 (cn_opened c, 0) c k ltac:(lia) Hlate) as [s ->]. cbn [mbind option_bind].
  destruct (run_bounded (grain attempt) limit resume held s Hu Hl) as (r & held' & Hr & Hf). rewrite Hr.
  destruct r as [[location|]|e]; [|by eexists _, _..]. subst held'.
  destruct (url_join url location); [apply IH|]. eexists _, _. split; [done|by left].
Qed.

End download_laws.

(** * Properties *)

(** C37: whatever the servers and their connections do (any attempt failing, any
    bytes, endless or not, in any reads at any times, cut for the reader any way,
    then an end or an error), a download comes to an end once the clock has gone
    past its deadline by some read of each connection; its file is what it was,
    or what it was continued from followed by what arrived, within the byte
    bound; and a download that succeeds never leaves the file unfetched. *)
Theorem download_bounded {Url} (url_parse : string → option Url) url_join url_ok connect turns grain url held limit resume
  (Hlimit : limit + 65536 ≤ U64_MAX) (Hclock : ∀ attempt u offset c, connect attempt u offset = Ok c → outlasts turns c) :
  ∃ r held', download url_parse url_join url_ok connect turns grain url held limit resume = Some (r, held')
  ∧ match r with
    | Ok _ => arrived limit (start_of held resume) held'
    | Err _ => held' = held ∨ arrived limit (start_of held resume) held'
    end.
Proof.
  unfold download. fold (offset_of held resume). destruct (Z.leb_spec (offset_of held resume) limit) as [Hle|Hgt]; cbn [negb].
  - destruct (url_parse url) as [u|]; [by apply follow_bounded|]. eexists _, _. split; [done|by left].
  - eexists _, _. split; [done|by left].
Qed.

(** A body sent in chunks is received as the data of its chunks in order:
    for any cut of the connection into reads, any extensions and capitals in the
    sizes' lines, any trailers, and whatever follows on the connection. *)
Theorem chunked_body_roundtrip grain limit frames last trailers r stop
  (Hframes : Forall frame_ok frames) (Hlast : text_ok last) (Hzero : chunk_size last = Some 0)
  (Htrailers : Forall trailer_ok trailers) (Hlimit : len (concat (map snd frames)) ≤ limit ≤ U64_MAX) :
  let s := {| s_bytes := chunked_bytes frames last trailers ++ r; s_end := stop |} in
  receive grain (S (length (s_bytes s))) limit (Chunked 0 false) s 0 0 []
  = Some (Ok (len (concat (map snd frames))), concat (map snd frames)).
Proof.
  intros s. exact (receive_chunked grain (S (length (s_bytes s))) limit [] frames last trailers r s 0 0 []
    (Nat.lt_succ_diag_r _) Hframes Hlast Hzero Htrailers (proj2 Hlimit) (conj (Z.le_refl 0) (Z.le_refl 0)) (proj1 Hlimit) eq_refl).
Qed.

(** A transfer that reports success, its body not chunked, left in the file
    exactly its start followed by the body: the [Content-Length] bytes after the
    head, all of them there, or with no length everything up to the end; and the
    status and range were those of a transfer from that offset. *)
Theorem run_delivers grain limit held resume s held'
  (Hlimit : limit + 65536 ≤ U64_MAX) (Hoffset : offset_of held resume ≤ limit)
  (Hrun : run grain (offset_of held resume) limit held s = Some (Ok None, held')) :
  ∃ head h s', read_head (s_bytes s) [] s = (Ok head, s') ∧ parse_head head = Ok h
  ∧ h_status h = (if 0 <? offset_of held resume then "206" else "200")
  ∧ (h_chunked h = false →
     held' = Some (start_of held resume ++ match h_length h with Some n => take (Z.to_nat n) (s_bytes s') | None => s_bytes s' end)
     ∧ ∀ n, h_length h = Some n → n ≤ len (s_bytes s')).
Proof.
  unfold run in Hrun. rewrite start_of_offset in Hrun.
  destruct (read_head (s_bytes s) [] s) as [[head|e] s']; [|done].
  destruct (parse_head head) as [h|e] eqn:Eh; [|done]. pose proof (parse_head_inv _ _ Eh) as Hinv.
  destruct (redirects (h_status h)); [by destruct (h_location h)|].
  destruct (response_ok _ limit h) as [[]|e] eqn:Eok; [|done].
  destruct (receive_bounded grain (S (length (s_bytes s'))) limit (body_of h) s' (offset_of held resume) 0 (start_of held resume))
    as ([r file] & Hr & Hwithin); [lia|done|done|by rewrite start_of_len| |done|].
  { rewrite <- start_of_len. pose proof (len_nonneg (start_of held resume)). lia. }
  rewrite Hr in Hrun. destruct r as [received|e]; [|done].
  exists head, h, s'. split_and!; [done|done| |].
  - unfold response_ok in Eok. destruct (0 <? _).
    + destruct (bool_decide (h_status h = "206")) eqn:E; [by apply bool_decide_eq_true in E|done].
    + destruct (bool_decide (h_status h = "200")) eqn:E; [by apply bool_decide_eq_true in E|done].
  - intros Hc. rewrite Hc in Hrun.
    destruct (unchunked_delivered limit h s' received file (start_of held resume) Hwithin Hc Hinv) as [-> Hn].
    + intros n Hn. rewrite Hn in Hrun. destruct (Z.eqb_spec received n); [done|done].
    + split; [|done]. destruct (h_length h) as [n|]; [|by simplify_eq].
      destruct (received =? n); by simplify_eq.
Qed.

(** ** Witnesses *)

Definition lines (l : list string) : bytes := concat (map (λ t, str_bytes (t +:+ CRLF)) l).
Definition quiet (b : bytes) : Stream := {| s_bytes := b; s_end := None |}.

(** A connection that has its bytes at once, then ends. *)
Definition delivers (b : bytes) : Conn :=
  {| cn_opened := 0; cn_sent := 0;
     cn_reads k := match k with
                   | O => {| tn_at := 0; tn_after := 0; tn_count := IoOk (len b); tn_plain := IoOk (b, false) |}
                   | 1%nat => {| tn_at := 0; tn_after := 0; tn_count := IoOk 0; tn_plain := IoOk ([], true) |}
                   | _ => {| tn_at := TRANSFER_TIMEOUT; tn_after := TRANSFER_TIMEOUT; tn_count := IoOk 0; tn_plain := IoOk ([], true) |}
                   end |}.
(** One that sends a chunk and goes on with trailers for good, fast enough. *)
Definition endless : Conn :=
  let trailers := concat (replicate 32 (str_bytes "X: " ++ replicate 1000 "y"%char ++ str_bytes CRLF)) in
  let sends k b := {| tn_at := Z.of_nat k * 600 * NANOS; tn_after := Z.of_nat k * 600 * NANOS + 1; tn_count := IoOk (len b); tn_plain := IoOk (b, false) |} in
  {| cn_opened := 0; cn_sent := 0;
     cn_reads k := sends k (match k with
       | O => lines ["HTTP/1.1 200 OK"; "Transfer-Encoding: chunked"; ""; "3"] ++ str_bytes "abc" ++ lines [""; "0"] | _ => trailers end) |}.

(** A server that redirects, serves three bytes, two at a time, or never ends. *)
Definition served (attempt : nat) (url : string) (offset : Z) : result Conn :=
  Ok (match attempt with
      | O => delivers (lines ["HTTP/1.1 302 Found"; "Location: " +:+ url; ""])
      | _ => if bool_decide (url = "/endless") then endless else delivers (lines ["HTTP/1.1 200 OK"; "Content-Length: 3"; ""] ++ str_bytes "abc")
      end).
Definition fetch_it (url : string) := download Some (λ _ l, Some l) (λ _, true) served 4 (λ _ _, 2) url None 100 false.
Lemma served_outlasts attempt u offset c : served attempt u offset = Ok c → outlasts 4 c.
Proof.
  assert (Hd : ∀ b, outlasts 4 (delivers b)) by (intros b; exists 2%nat; split; [lia|by cbn]). assert (He : outlasts 4 endless) by (exists 3%nat; split; [lia|by vm_compute]).
  unfold served. intros [= <-]. destruct attempt; [apply Hd|]. destruct (bool_decide _); [exact He|apply Hd].
Qed.

Lemma download_bounded_witness :
  fetch_it "/here" = Some (Ok tt, Some (str_bytes "abc"))
  ∧ fetch_it "/endless" = Some (Err (Msg "component transfer interrupted"), Some (str_bytes "abc"))
  ∧ ∃ r held', fetch_it "/endless" = Some (r, held')
  ∧ match r with Ok _ => arrived 100 [] held' | Err _ => held' = None ∨ arrived 100 [] held' end.
Proof.
  split; [vm_compute; reflexivity|]. split; [vm_compute; reflexivity|].
  exact (download_bounded Some (λ _ l, Some l) (λ _, true) served 4 (λ _ _, 2) "/endless" None 100 false
           ltac:(vm_compute; discriminate) served_outlasts).
Defined.

Definition some_frames : list (string * bytes) := [("3;ext=1", str_bytes "abc"); ("00B", str_bytes "hello world")].
Lemma chunked_body_roundtrip_witness :
  let s := {| s_bytes := chunked_bytes some_frames "0" ["Digest: x"] ++ str_bytes "left"; s_end := Some TimedOut |} in
  receive (λ _, 2) (S (length (s_bytes s))) 14 (Chunked 0 false) s 0 0 [] = Some (Ok 14, str_bytes "abchello world").
Proof.
  refine (chunked_body_roundtrip (λ _, 2) 14 some_frames "0" ["Digest: x"] (str_bytes "left") (Some TimedOut) _ _ _ _ _).
  - repeat (apply List.Forall_cons; [split_and!; [by vm_compute|vm_compute; reflexivity|done]|]). apply List.Forall_nil.
  - by vm_compute.
  - vm_compute. reflexivity.
  - apply List.Forall_cons; [split; [by vm_compute|done]|]. apply List.Forall_nil.
  - by vm_compute.
Defined.

Definition resumed : Stream :=
  quiet (lines ["HTTP/1.1 206 Partial Content"; "Content-Range: bytes 2-4/5"; "content-length: 3"; ""] ++ str_bytes "cde").
Lemma run_delivers_witness :
  ∃ head h s', read_head (s_bytes resumed) [] resumed = (Ok head, s') ∧ parse_head head = Ok h
  ∧ h_status h = "206"
  ∧ (h_chunked h = false →
     Some (str_bytes "abcde") = Some (str_bytes "ab" ++ match h_length h with Some n => take (Z.to_nat n) (s_bytes s') | None => s_bytes s' end)
     ∧ ∀ n, h_length h = Some n → n ≤ len (s_bytes s')).
Proof.
  refine (run_delivers (λ _, 2) 5 (Some (str_bytes "ab")) true resumed (Some (str_bytes "abcde")) _ _ _).
  - vm_compute. discriminate.
  - vm_compute. discriminate.
  - vm_compute. reflexivity.
Defined.

End Transfer.
