(* ===== verification/Catalog.v ===== *)
(** The server's catalog ([src/crates/mica-deploy/src/catalog.rs] and
    [catalog/sets.rs]): the unsigned documents that say which release is current
    and where its files are, and what a device takes from them. A URL is the
    [url] crate's and a class of parameters; fetching a document is an operation
    of the caller's. *)
From Stdlib Require Import Ascii Sorted.
From S2P Require Import Prelude Text Order Boot Components UpdateSet.
Import Boot Components UpdateSet.

Module Catalog.

(** * Third-party code *)

(** The [url] crate: parsing, resolving a reference, and a URL's parts. *)
Class UrlLib := {
  url : Type;
  url_parse : string → option url;
  url_join : url → string → option url;
  url_str : url → string;
  url_scheme : url → string;
  url_has_host : url → bool;
  url_username : url → string;
  url_password : url → option string;
  url_query : url → option string;
  url_fragment : url → option string;
  url_path : url → string;
  url_with_path : string → url → url;
}.

(** * Documents *)

Definition MANIFEST_PATH : string := "v1/manifest.json".
Definition MAX_CATALOG_BYTES : Z := 1024 * 1024.
Definition MAX_ENTRIES : Z := 128.
Definition MAX_ID_LEN : Z := 128.
Definition MAX_NOTES_CHARS : Z := 10000.
Definition MAX_URL_LEN : Z := 2048.

Record CatalogCheckpoint := { cp_source : string; cp_revision : Z; cp_payload_digest : string }.

Record Latest := { lt_id : string; lt_generation : Z; lt_notes : string; lt_path : string }.
Record ProductLine := { ln_product : string; ln_board : string; ln_latest : Latest }.
Record SetLatest := { sl_id : string; sl_generation : Z; sl_path : string }.
Record SetLine := { sn_kind : string; sn_channel : string; sn_arch : string; sn_latest : SetLatest }.
Record Manifest := {
  mf_schema : string;
  mf_revision : Z;
  mf_base_url : string;
  mf_products : list ProductLine;
  mf_sets : list SetLine;
}.

Record DescriptorLink := { dl_path : string; dl_sha256 : string; dl_bytes : Z }.
Record ObjectLink := { ol_sha256 : string; ol_bytes : Z; ol_path : string }.
Record ReleaseDocument := {
  rd_schema : string; rd_base_url : string; rd_id : string; rd_product : string; rd_board : string;
  rd_generation : Z; rd_notes : string; rd_deployment : DescriptorLink; rd_objects : list ObjectLink;
}.
Record SetReleaseDocument := {
  sd_schema : string; sd_base_url : string; sd_id : string; sd_kind : string; sd_channel : string;
  sd_arch : string; sd_generation : Z; sd_set : DescriptorLink; sd_objects : list ObjectLink;
}.

(** * What a device asks for and takes *)

Record SourceObject := { so_sha256 : string; so_bytes : Z; so_url : string }.
Record SelectedRelease := {
  sr_deployment_id : string;
  sr_deployment : Deployment;
  sr_envelope : string;
  sr_objects : list SourceObject;
  sr_notes : string;
}.
Record VerifiedCatalog := { vc_checkpoint : CatalogCheckpoint; vc_selected : option SelectedRelease }.
Record CatalogRequest := {
  rq_source : string; rq_board : string; rq_arch : string; rq_product : string;
  rq_checkpoint : option CatalogCheckpoint; rq_highest_generation : Z;
}.

Record SelectedSet := {
  ss_id : string; ss_set_id : string; ss_set : UpdateSet; ss_envelope : string; ss_objects : list SourceObject;
}.
Record WaitingSet := { ws_id : string; ws_generation : Z; ws_reason : string }.
Record VerifiedSetCatalog := {
  vs_checkpoint : CatalogCheckpoint; vs_selected : option SelectedSet; vs_waits_for_system : option WaitingSet;
}.
Record SetCatalogRequest := {
  sq_source : string; sq_kind : SetKind; sq_arch : string; sq_channel : string;
  sq_checkpoint : option CatalogCheckpoint; sq_highest_generation : Z;
}.

(** The objects by digest, one length each. *)
Fixpoint add_artifacts (l : list Artifact) (objects : smap Z) : result (smap Z) :=
  match l with
  | [] => Ok objects
  | a :: rest =>
      let previous := smap_get (a_sha256 a) objects in
      let objects := smap_insert (a_sha256 a) (a_bytes a) objects in
      match previous with
      | Some b => ensure b =? a_bytes a else "conflicting object lengths" in add_artifacts rest objects
      | None => add_artifacts rest objects
      end
  end.
Definition artifacts (x : Deployment) : result (smap Z) := add_artifacts (deployment_artifacts x) [].

Definition sha256_hex (v : string) : bool := (str_len v =? 64) && all_bytes is_hex_lower v.

(** [chars().count()]: a character starts at every byte that continues none. *)
Fixpoint char_count (s : string) : Z :=
  match s with
  | EmptyString => 0
  | String c s' => (if utf8_cont c then 0 else 1) + char_count s'
  end.

Section catalog.
Context {UL : UrlLib} {CR : Crypto} {JS : Json} {CD : Codec Deployment} {CS : Codec UpdateSet}
  {CM : Codec Manifest} {CRel : Codec ReleaseDocument} {CSet : Codec SetReleaseDocument}
  (envelope_parse : bytes → option Envelope) (envelope_print : Envelope → bytes).

(** * Addresses *)

Definition plain (u : url) : bool :=
  url_has_host u && is_empty (url_username u) && bool_decide (url_password u = None)
  && bool_decide (url_query u = None) && bool_decide (url_fragment u = None).
Definition is_http (u : url) : bool := bool_decide (url_scheme u = "http") || bool_decide (url_scheme u = "https").

Definition source_url (source : string) : result url :=
  ensure str_len source <=? MAX_URL_LEN else "source URL too long" in
  let? u := with_context (url_parse source) "invalid URL" in
  ensure is_http u && plain u else "invalid catalog source URL" in
  ensure ends_with "/" (url_path u)
    else "the catalog source is an update root: an http(s) URL ending in `/`; this reader fetches v1/manifest.json below it" in
  Ok u.

Definition manifest_url (source : string) : result url :=
  let? u := source_url source in
  with_context (url_join u MANIFEST_PATH) "invalid URL".

Definition base_url (base : string) (source : url) : result url :=
  ensure str_len base <=? MAX_URL_LEN else "baseUrl too long" in
  let? u := with_context (url_parse base) "invalid baseUrl" in
  ensure (bool_decide (url_scheme u = "https")
          || (bool_decide (url_scheme u = "http") && bool_decide (url_scheme source = "http")))
         && plain u && ends_with "/" (url_path u) && bool_decide (url_str u = base)
    else "invalid baseUrl" in
  Ok u.

(** A path that stays below its base. *)
Definition below_base (path : string) : bool :=
  negb (is_empty path) && (str_len path <=? MAX_URL_LEN) && negb (starts_with "/" path)
  && negb (contains_byte "?" path || contains_byte "#" path || contains_byte "\" path)
  && forallb (λ segment, negb (bool_decide (segment = ".")) && negb (bool_decide (segment = ".."))) (split "/" path).

Definition link (base : url) (path : string) : result url :=
  ensure below_base path else ("invalid path " +:+ path) in
  let? u := with_context (url_join base path) "invalid URL" in
  ensure starts_with (url_str base) (url_str u) else ("path " +:+ path +:+ " leaves its baseUrl") in
  Ok u.

(** * Documents in their canonical form *)

Definition canonical {T} {CT : Codec T} (b : bytes) (what : string) : result T :=
  ensure len b <=? MAX_CATALOG_BYTES else (what +:+ " too large") in
  let? raw := with_context (json_parse b) "invalid JSON" in
  ensure bool_decide (json_print raw = b) else ("noncanonical " +:+ what) in
  with_context (from_value raw) "unknown, missing or invalid fields".

(** A manifest against the checkpoint of an earlier read. *)
Definition check_manifest (source_text : string) (source : url) (previous : option CatalogCheckpoint) (b : bytes) :
    result (Manifest * CatalogCheckpoint * url * url) :=
  let? m := canonical (T := Manifest) b "catalog" in
  ensure bool_decide (mf_schema m = "mica/catalog/v1") && (0 <? mf_revision m) && (mf_revision m <=? MAX_INTEGER)
         && (len (mf_products m) <=? MAX_ENTRIES) && (len (mf_sets m) <=? MAX_ENTRIES)
    else "invalid catalog schema or bounds" in
  let checkpoint := {| cp_source := source_text; cp_revision := mf_revision m; cp_payload_digest := sha256 b |} in
  let? _ := match previous with
            | Some p =>
                if bool_decide (cp_source p = source_text) then
                  ensure cp_revision p <=? cp_revision checkpoint else "catalog revision rollback" in
                  ensure negb (cp_revision checkpoint =? cp_revision p)
                         || bool_decide (cp_payload_digest checkpoint = cp_payload_digest p)
                    else "catalog revision changed its contents" in
                  Ok tt
                else Ok tt
            | None => Ok tt
            end in
  let? base := base_url (mf_base_url m) source in
  Ok (m, checkpoint, source, base).

(** * A release *)

Definition id_ok (v : string) : bool := negb (is_empty v) && (str_len v <=? MAX_ID_LEN).

(** The device's own product line, every line being well formed and alone. *)
Fixpoint product_lines (rq : CatalogRequest) (base : url) (ls : list ProductLine) (seen : gset (string * string))
    (own : option (ProductLine * url)) : result (option (ProductLine * url)) :=
  match ls with
  | [] => Ok own
  | line :: rest =>
      ensure forallb id_ok [ln_product line; ln_board line; lt_id (ln_latest line)]
             && (char_count (lt_notes (ln_latest line)) <=? MAX_NOTES_CHARS)
        else "invalid product line" in
      let? u := link base (lt_path (ln_latest line)) in
      ensure bool_decide ((ln_board line, ln_product line) ∉ seen) else "two lines for one board and product" in
      product_lines rq base rest ({[(ln_board line, ln_product line)]} ∪ seen)
        (if bool_decide (ln_board line = rq_board rq) && bool_decide (ln_product line = rq_product rq)
         then Some (line, u) else own)
  end.

(** The line, when it names a newer generation. *)
Definition newer_line (rq : CatalogRequest) (own : option (ProductLine * url)) : option (ProductLine * url) :=
  match own with
  | Some (line, u) => if rq_highest_generation rq <? lt_generation (ln_latest line) then own else None
  | None => None
  end.

Definition descriptor_ok (l : DescriptorLink) : bool :=
  sha256_hex (dl_sha256 l) && (0 <? dl_bytes l) && (dl_bytes l <=? MAX_CATALOG_BYTES).

Definition check_release (source : url) (line : ProductLine) (b : bytes) : result (ReleaseDocument * url * url) :=
  let? release := canonical (T := ReleaseDocument) b "release document" in
  ensure bool_decide (rd_schema release = "mica/release/v1") else "invalid release document schema" in
  ensure bool_decide (rd_id release = lt_id (ln_latest line)) && bool_decide (rd_board release = ln_board line)
         && bool_decide (rd_product release = ln_product line)
         && (rd_generation release =? lt_generation (ln_latest line))
         && (char_count (rd_notes release) <=? MAX_NOTES_CHARS)
    else "the release document does not match its manifest line" in
  ensure len (rd_objects release) <=? MAX_ENTRIES else "invalid release document bounds" in
  let? base := base_url (rd_base_url release) source in
  ensure descriptor_ok (rd_deployment release) else "invalid descriptor link" in
  let? u := link base (dl_path (rd_deployment release)) in
  Ok (release, base, u).

(** The objects listed, each taken off the required ones: [extra] takes one that
    is not among them, and [distinct] refuses a digest listed twice. *)
Fixpoint take_objects (extra distinct : bool) (base : url) (ls : list ObjectLink) (required : smap Z)
    (listed : gset string) : result (list SourceObject * smap Z) :=
  match ls with
  | [] => Ok ([], required)
  | object :: rest =>
      ensure bool_decide (smap_get (ol_sha256 object) required = Some (ol_bytes object))
             || (extra && sha256_hex (ol_sha256 object) && (0 <? ol_bytes object))
        else "component object substitution" in
      ensure negb distinct || bool_decide (ol_sha256 object ∉ listed) else "component object substitution" in
      let? u := link base (ol_path object) in
      let? taken := take_objects extra distinct base rest (smap_remove (ol_sha256 object) required)
                      ({[ol_sha256 object]} ∪ listed) in
      Ok ({| so_sha256 := ol_sha256 object; so_bytes := ol_bytes object; so_url := url_str u |} :: taken.1, taken.2)
  end.

(** The signed bytes a document's link names. *)
Definition linked (l : DescriptorLink) (b : bytes) : bool :=
  (len b =? dl_bytes l) && bool_decide (sha256 b = dl_sha256 l).

(** What a release must list: its deployment's objects, and the envelope of the
    image's set, whose components' objects may then follow. *)
Definition required_objects (x : Deployment) : result (smap Z * bool) :=
  let? required := artifacts x in
  match d_core_set x with
  | Some core =>
      let previous := smap_get (cs_sha256 core) required in
      Ok (smap_insert (cs_sha256 core) (cs_bytes core) required,
          match previous with Some b => b =? cs_bytes core | None => true end)
  | None => Ok (required, false)
  end.

Definition select_release (keys : list key) (rq : CatalogRequest) (line : ProductLine) (release : ReleaseDocument)
    (base : url) (envelope : bytes) : result SelectedRelease :=
  ensure linked (rd_deployment release) envelope else "the descriptor does not match its digest and length" in
  let? x := authenticate_deployment envelope_parse envelope_print envelope keys in
  ensure bool_decide (d_board x = ln_board line) && bool_decide (d_product x = ln_product line)
         && (d_generation x =? lt_generation (ln_latest line)) && bool_decide (d_arch x = rq_arch rq)
    else "the signed descriptor does not match its manifest line" in
  let? rc := required_objects x in
  let '(required, carries_set) := rc in
  ensure (len (rd_objects release) =? len required) || (carries_set && (len required <? len (rd_objects release)))
    else "missing or extra component objects" in
  let? taken := take_objects carries_set true base (rd_objects release) required ∅ in
  ensure is_nil taken.2 else "missing or extra component objects" in
  let? the_id := component_id (to_value x) in
  ensure valid_utf8 envelope else "descriptor is not UTF-8" in
  Ok {| sr_deployment_id := the_id; sr_deployment := x; sr_envelope := bytes_str envelope; sr_objects := taken.1;
        sr_notes := rd_notes release |}.

(** * A set's release *)

Fixpoint set_lines (rq : SetCatalogRequest) (base : url) (ls : list SetLine) (seen : gset (string * string * string))
    (own : option (SetLine * url)) : result (option (SetLine * url)) :=
  match ls with
  | [] => Ok own
  | line :: rest =>
      ensure forallb id_ok [sn_kind line; sn_channel line; sn_arch line; sl_id (sn_latest line)] else "invalid set line" in
      let? u := link base (sl_path (sn_latest line)) in
      ensure bool_decide ((sn_kind line, sn_channel line, sn_arch line) ∉ seen)
        else "two set lines for one kind, channel and architecture" in
      set_lines rq base rest ({[(sn_kind line, sn_channel line, sn_arch line)]} ∪ seen)
        (if bool_decide (sn_kind line = kind_str (sq_kind rq)) && bool_decide (sn_channel line = sq_channel rq)
            && bool_decide (sn_arch line = sq_arch rq)
         then Some (line, u) else own)
  end.

Definition newer_set_line (rq : SetCatalogRequest) (own : option (SetLine * url)) : option (SetLine * url) :=
  match own with
  | Some (line, u) => if sq_highest_generation rq <? sl_generation (sn_latest line) then own else None
  | None => None
  end.

Definition check_set_release (source : url) (line : SetLine) (b : bytes) : result (SetReleaseDocument * url * url) :=
  let? release := canonical (T := SetReleaseDocument) b "set release document" in
  ensure bool_decide (sd_schema release = "mica/set-release/v1") else "invalid set release document schema" in
  ensure bool_decide (sd_id release = sl_id (sn_latest line)) && bool_decide (sd_kind release = sn_kind line)
         && bool_decide (sd_channel release = sn_channel line) && bool_decide (sd_arch release = sn_arch line)
         && (sd_generation release =? sl_generation (sn_latest line))
    else "the set release document does not match its manifest line" in
  ensure len (sd_objects release) <=? MAX_ENTRIES else "invalid set release document bounds" in
  let? base := base_url (sd_base_url release) source in
  ensure descriptor_ok (sd_set release) else "invalid set link" in
  let? u := link base (dl_path (sd_set release)) in
  Ok (release, base, u).

Definition select_set (keys : list key) (rq : SetCatalogRequest) (line : SetLine) (release : SetReleaseDocument)
    (base : url) (envelope : bytes) : result SelectedSet :=
  ensure linked (sd_set release) envelope else "the set does not match its digest and length" in
  let? s := authenticate envelope_parse envelope_print envelope keys in
  ensure bool_decide (us_kind s = sq_kind rq) && bool_decide (us_channel s = sn_channel line)
         && bool_decide (us_arch s = sn_arch line) && (us_generation s =? sl_generation (sn_latest line))
    else "the signed set does not match its manifest line" in
  let? required := add_artifacts (set_artifacts s) [] in
  ensure len (sd_objects release) =? len required else "missing or extra component objects" in
  let? taken := take_objects false false base (sd_objects release) required ∅ in
  ensure valid_utf8 envelope else "set is not UTF-8" in
  Ok {| ss_id := sd_id release; ss_set_id := set_id s; ss_set := s; ss_envelope := bytes_str envelope;
        ss_objects := taken.1 |}.

(** * Reading the catalog *)

Context {W : Type} (fetch : url → Z → M W bytes).

Definition read_manifest (source_text : string) (previous : option CatalogCheckpoint) :
    M W (Manifest * CatalogCheckpoint * url * url) :=
  let! source := slift (λ _, source_url source_text) in
  let! at_ := slift (λ _, manifest_url source_text) in
  let! b := fetch at_ MAX_CATALOG_BYTES in
  slift (λ _, check_manifest source_text source previous b).

Definition verify_catalog (keys : list key) (rq : CatalogRequest) : M W VerifiedCatalog :=
  let! read := read_manifest (rq_source rq) (rq_checkpoint rq) in
  let '(manifest, checkpoint, source, base) := read in
  let! own := slift (λ _, product_lines rq base (mf_products manifest) ∅ None) in
  match newer_line rq own with
  | None => sret {| vc_checkpoint := checkpoint; vc_selected := None |}
  | Some (line, release_url) =>
      let! b := fetch release_url MAX_CATALOG_BYTES in
      let! checked := slift (λ _, check_release source line b) in
      let '(release, release_base, descriptor_url) := checked in
      let! envelope := fetch descriptor_url (dl_bytes (rd_deployment release)) in
      let! selected := slift (λ _, select_release keys rq line release release_base envelope) in
      sret {| vc_checkpoint := checkpoint; vc_selected := Some selected |}
  end.

Definition verify_set_catalog (keys : list key) (rq : SetCatalogRequest) : M W VerifiedSetCatalog :=
  let! read := read_manifest (sq_source rq) (sq_checkpoint rq) in
  let '(manifest, checkpoint, source, base) := read in
  let! own := slift (λ _, set_lines rq base (mf_sets manifest) ∅ None) in
  match newer_set_line rq own with
  | None => sret {| vs_checkpoint := checkpoint; vs_selected := None; vs_waits_for_system := None |}
  | Some (line, release_url) =>
      let! b := fetch release_url MAX_CATALOG_BYTES in
      let! checked := slift (λ _, check_set_release source line b) in
      let '(release, release_base, set_url) := checked in
      let! envelope := fetch set_url (dl_bytes (sd_set release)) in
      let! selected := slift (λ _, select_set keys rq line release release_base envelope) in
      sret {| vs_checkpoint := checkpoint; vs_selected := Some selected; vs_waits_for_system := None |}
  end.

End catalog.

(** * Lemmas *)

(** The map of a list of artifacts: one length for each digest. *)
Lemma add_artifacts_spec l objects required :
  keys_sorted objects → add_artifacts l objects = Ok required →
  keys_sorted required
  ∧ (∀ k b, smap_get k required = Some b ↔
       smap_get k objects = Some b ∨ (∃ a, a ∈ l ∧ a_sha256 a = k ∧ a_bytes a = b)).
Proof.
  revert objects. induction l as [|a l IH]; intros objects Hs H; cbn [add_artifacts] in H.
  { injection H as <-. split; [done|]. intros k b. split; [by left|]. intros [?|(a & Ha%elem_of_nil & _)]; done. }
  set (objects' := smap_insert (a_sha256 a) (a_bytes a) objects) in *.
  assert (Hprev : smap_get (a_sha256 a) objects = None ∨ smap_get (a_sha256 a) objects = Some (a_bytes a)).
  { destruct (smap_get (a_sha256 a) objects) as [b|]; [|by left]. destruct (Z.eqb_spec b (a_bytes a)); [subst; by right|done]. }
  assert (Hrec : add_artifacts l objects' = Ok required).
  { destruct Hprev as [Hp|Hp]; rewrite Hp in H; [done|]. by rewrite Z.eqb_refl in H. }
  destruct (IH objects' (insert_sorted _ _ _ Hs) Hrec) as [Hsorted Hget]. split; [done|].
  intros k b. rewrite Hget. unfold objects'. rewrite smap_get_insert. setoid_rewrite elem_of_cons. case_bool_decide.
  - subst k. split.
    + intros [[= <-]|(a' & ? & ? & ?)]; right; [by exists a; eauto|by exists a'; eauto].
    + intros [Hb|(a' & [->|Hin] & Ha & Hb)]; [|by left; rewrite Hb|right; by exists a'].
      destruct Hprev as [Hp|Hp]; rewrite Hp in Hb; [done|left; exact Hb].
  - split.
    + intros [?|(a' & ? & ? & ?)]; [by left|right; by exists a'; eauto].
    + intros [?|(a' & [->|Hin] & Ha & Hb)]; [by left|done|right; by exists a'].
Qed.

(** ** Objects listed *)

Section laws.
Context {UL : UrlLib} {CR : Crypto} {JS : Json} {CD : Codec Deployment} {CS : Codec UpdateSet}
  {CM : Codec Manifest} {CRel : Codec ReleaseDocument} {CSet : Codec SetReleaseDocument}
  (envelope_parse : bytes → option Envelope) (envelope_print : Envelope → bytes).
Implicit Types (required : smap Z) (o : SourceObject).

Lemma link_ok base path u : link base path = Ok u → starts_with (url_str base) (url_str u) = true.
Proof.
  unfold link. intros [_ H]%if_ok. destruct (url_join base path) as [u'|]; [|done]. cbn [with_context rbind] in H.
  apply if_ok in H as [Hs H]. by injection H as <-.
Qed.

Lemma base_url_ok base source u :
  base_url base source = Ok u → url_scheme u = "https" ∨ url_scheme u = "http" ∧ url_scheme source = "http".
Proof.
  unfold base_url. intros [_ H]%if_ok. destruct (url_parse base) as [u'|]; [|done]. cbn [with_context rbind] in H.
  apply if_ok in H as [Hs H]. injection H as <-. bools.
  match goal with H : _ || _ = true |- _ => apply orb_true_iff in H as [H|H] end; bools; auto.
Qed.

(** What was taken: the objects listed, at addresses below the base; the ones
    required that were not listed are left. *)
Lemma take_objects_spec extra distinct base ls required listed out rest :
  take_objects extra distinct base ls required listed = Ok (out, rest) →
  let shas := map so_sha256 out in
  Forall (λ o, starts_with (url_str base) (so_url o) = true) out
  ∧ (∀ k, smap_get k rest = if bool_decide (k ∈ shas) then None else smap_get k required)
  ∧ Forall (λ o, so_sha256 o ∈ map ol_sha256 ls) out
  ∧ (distinct = true → NoDup shas ∧ ∀ k, k ∈ shas → k ∉ listed)
  ∧ (extra = false → NoDup shas ∧ (∀ o, o ∈ out → smap_get (so_sha256 o) required = Some (so_bytes o))
       ∧ (keys_sorted required → len required = len rest + len out))
  ∧ len out = len ls.
Proof.
  revert required listed out rest. induction ls as [|object ls IH]; intros required listed out rest H; cbn [take_objects] in H.
  { injection H as <- <-. cbn. split; [constructor|]. split; [done|]. split; [constructor|].
    split; [intros _; split; [constructor|intros k Hk; by apply elem_of_nil in Hk]|]. split; [|done].
    intros _. split; [constructor|]. split; [intros o Ho; by apply elem_of_nil in Ho|]. intros _. unfold len. cbn. lia. }
  apply if_ok in H as [Hreq H]. apply if_ok in H as [Hdis H].
  apply rbind_ok in H as (u & Hu & H). apply rbind_ok in H as ([out' rest'] & Ht & H). cbn [fst snd] in H.
  injection H as <- <-. destruct (IH _ _ _ _ Ht) as (Hurls & Hget & Hin & Hd & He & Hl). clear IH Ht.
  apply link_ok in Hu. set (k0 := ol_sha256 object) in *.
  assert (Hnotin : k0 ∉ map so_sha256 out' → NoDup (map so_sha256 out') → NoDup (k0 :: map so_sha256 out')) by (intros; by apply NoDup_cons).
  cbn [map so_sha256 so_url so_bytes]. split; [by constructor|]. split; [|split; [|split; [|split]]].
  - intros k. rewrite Hget, smap_get_remove. destruct (decide (k = k0)) as [->|Hk].
    + rewrite (bool_decide_eq_true_2 (k0 = k0)) by done. rewrite (bool_decide_eq_true_2 (k0 ∈ k0 :: _)) by by left. by case (bool_decide (k0 ∈ map so_sha256 out')).
    + rewrite (bool_decide_eq_false_2 (k0 = k)) by done.
      rewrite (bool_decide_ext (k ∈ k0 :: map so_sha256 out') (k ∈ map so_sha256 out')) by (rewrite elem_of_cons; naive_solver). done.
  - constructor; [by left|]. eapply Forall_impl; [exact Hin|]. intros o. cbn. by right.
  - intros ->. destruct (Hd eq_refl) as [Hn Hf]. cbn [negb orb] in Hdis. bools. split.
    + apply NoDup_cons. split; [|done]. intros Hk. by apply (Hf _ Hk), elem_of_union_l, elem_of_singleton.
    + intros k [->|Hk]%elem_of_cons; [done|]. intros Hk'. apply (Hf _ Hk). by apply elem_of_union_r.
  - intros ->. cbn [andb] in Hreq. rewrite orb_false_r in Hreq. bools. destruct (He eq_refl) as (Hn & Ho & Hs).
    assert (Hk0 : k0 ∉ map so_sha256 out').
    { intros Hk. apply list_elem_of_fmap in Hk as (o & Hk & Hoin). specialize (Ho o Hoin).
      rewrite smap_get_remove in Ho. case_bool_decide; [done|congruence]. }
    split; [by apply NoDup_cons|]. split.
    + intros o [->|Hoin]%elem_of_cons; [done|]. specialize (Ho o Hoin). rewrite smap_get_remove in Ho.
      by case_bool_decide.
    + intros Hsort. rewrite (remove_length k0 (ol_bytes object)) by done. rewrite (Hs (remove_sorted _ _ Hsort)).
      unfold len. cbn [length]. lia.
  - unfold len in *. cbn [length]. lia.
Qed.

(** What each object taken passed. *)
Lemma take_objects_each extra distinct base ls required listed out rest :
  take_objects extra distinct base ls required listed = Ok (out, rest) →
  ∀ o, o ∈ out → smap_get (so_sha256 o) required = Some (so_bytes o) ∨ extra = true ∧ sha256_hex (so_sha256 o) = true ∧ 0 < so_bytes o.
Proof.
  revert required listed out rest. induction ls as [|object ls IH]; intros required listed out rest H; cbn [take_objects] in H.
  { injection H as <- <-. by intros o Ho%elem_of_nil. }
  apply if_ok in H as [Hreq H]. apply if_ok in H as [_ H].
  apply rbind_ok in H as (u & _ & H). apply rbind_ok in H as ([out' rest'] & Ht & H). injection H as <- <-.
  intros o [->|Ho]%elem_of_cons.
  - cbn. apply orb_true_iff in Hreq as [Hr|Hr]; bools; [by left|right]. split_and!; [done|done|lia].
  - destruct (IH _ _ _ _ Ht o Ho) as [Hr|Hr]; [left|by right]. rewrite smap_get_remove in Hr. by case_bool_decide.
Qed.

(** ** What is selected *)

Definition secure_objects (source : string) (objects : list SourceObject) : Prop :=
  ∃ base, Forall (λ o, starts_with (url_str base) (so_url o) = true) objects
  ∧ (url_scheme base = "https" ∨ url_scheme base = "http" ∧ ∃ u, url_parse source = Some u ∧ url_scheme u = "http").

Lemma source_url_ok source u : source_url source = Ok u → url_parse source = Some u.
Proof.
  unfold source_url. intros [_ H]%if_ok. destruct (url_parse source) as [u'|]; [|done]. cbn [with_context rbind] in H.
  apply if_ok in H as [_ H]. apply if_ok in H as [_ H]. by injection H as <-.
Qed.

(** An object a release must list: one of the deployment's, or the envelope of
    the image's set, whose length stands for its digest. *)
Definition needed (x : Deployment) (k : string) (b : Z) : Prop :=
  match d_core_set x with
  | Some core => if bool_decide (k = cs_sha256 core) then b = cs_bytes core else ∃ a, a ∈ deployment_artifacts x ∧ a_sha256 a = k ∧ a_bytes a = b
  | None => ∃ a, a ∈ deployment_artifacts x ∧ a_sha256 a = k ∧ a_bytes a = b
  end.
(** Whether a release may list more, the components' objects of the set: it
    names a set, whose envelope is no object of the deployment of another
    length. *)
Definition carries (x : Deployment) : Prop :=
  ∃ core, d_core_set x = Some core ∧ ∀ a, a ∈ deployment_artifacts x → a_sha256 a = cs_sha256 core → a_bytes a = cs_bytes core.
Definition release_sound (keys : list key) (rq : CatalogRequest) (r : SelectedRelease) : Prop :=
  let x := sr_deployment r in
  authenticate_deployment envelope_parse envelope_print (str_bytes (sr_envelope r)) keys = Ok x
  ∧ component_id (to_value x) = Ok (sr_deployment_id r)
  ∧ d_board x = rq_board rq ∧ d_product x = rq_product rq ∧ d_arch x = rq_arch rq
  ∧ rq_highest_generation rq < d_generation x
  ∧ NoDup (map so_sha256 (sr_objects r))
  ∧ (∀ k b, needed x k b → ∃ o, o ∈ sr_objects r ∧ so_sha256 o = k)
  ∧ (∀ o, o ∈ sr_objects r → needed x (so_sha256 o) (so_bytes o) ∨ carries x ∧ sha256_hex (so_sha256 o) = true ∧ 0 < so_bytes o)
  ∧ (¬ carries x → ∀ k b, needed x k b → ∃ o, o ∈ sr_objects r ∧ so_sha256 o = k ∧ so_bytes o = b).

Lemma required_objects_spec x required extra :
  required_objects x = Ok (required, extra) →
  keys_sorted required ∧ (∀ k b, smap_get k required = Some b ↔ needed x k b) ∧ (extra = true ↔ carries x).
Proof.
  unfold required_objects, artifacts, needed, carries. intros H. apply rbind_ok in H as (m & Hm & H).
  destruct (add_artifacts_spec _ [] _ (SSorted_nil _) Hm) as [Hs Hget].
  assert (Hall : ∀ k b, smap_get k m = Some b ↔ ∃ a, a ∈ deployment_artifacts x ∧ a_sha256 a = k ∧ a_bytes a = b).
  { intros k b. rewrite Hget. cbn [smap_get]. split; [by intros [?|?]|by right]. }
  destruct (d_core_set x) as [core|]; injection H as <- <-.
  - split; [by apply insert_sorted|]. split.
    + intros k b. rewrite smap_get_insert. rewrite (bool_decide_ext (cs_sha256 core = k) (k = cs_sha256 core)) by done.
      case_bool_decide; [split; [by intros [= ->]|by intros ->]|apply Hall].
    + destruct (smap_get (cs_sha256 core) m) as [b|] eqn:Eb.
      * split; [intros Hb; exists core; split; [done|]; intros a Ha Hk|intros (core' & [= <-] & H)].
        -- assert (Hg : smap_get (cs_sha256 core) m = Some (a_bytes a)) by (apply Hall; by exists a). apply Z.eqb_eq in Hb. congruence.
        -- apply Hall in Eb as (a & Ha & Hk & <-). by apply Z.eqb_eq, H.
      * split; [intros _; exists core; split; [done|]; intros a Ha Hk|done].
        assert (Hg : smap_get (cs_sha256 core) m = Some (a_bytes a)) by (apply Hall; by exists a). congruence.
  - split; [done|]. split; [exact Hall|]. split; [done|]. by intros (core & ? & _).
Qed.

Lemma taken_all extra base ls required out :
  take_objects extra true base ls required ∅ = Ok (out, []) →
  NoDup (map so_sha256 out) ∧ (∀ k, is_Some (smap_get k required) → k ∈ map so_sha256 out)
  ∧ (extra = false → ∀ o, o ∈ out → smap_get (so_sha256 o) required = Some (so_bytes o)).
Proof.
  intros H. destruct (take_objects_spec _ _ _ _ _ _ _ _ H) as (_ & Hget & _ & Hd & He & _).
  split; [by apply Hd|]. split; [|intros Hx; by apply He].
  intros k [b Hb]. specialize (Hget k). cbn in Hget. case_bool_decide; [done|]. congruence.
Qed.

Lemma select_release_ok keys rq line release base envelope r :
  select_release envelope_parse envelope_print keys rq line release base envelope = Ok r →
  rq_highest_generation rq < lt_generation (ln_latest line) → ln_board line = rq_board rq → ln_product line = rq_product rq →
  release_sound keys rq r ∧ Forall (λ o, starts_with (url_str base) (so_url o) = true) (sr_objects r).
Proof.
  unfold select_release. intros H Hgen Hboard Hproduct. apply if_ok in H as [_ H].
  apply rbind_ok in H as (x & Hx & H). apply if_ok in H as [Hmatch H]. apply rbind_ok in H as ([required extra] & Hr & H).
  apply if_ok in H as [_ H]. apply rbind_ok in H as ([out rest] & Ht & H). apply if_ok in H as [Hnil H].
  cbn [snd] in Hnil. destruct rest; [|done]. apply rbind_ok in H as (the_id & Hid & H). apply if_ok in H as [_ H].
  injection H as <-. bools. unfold release_sound. cbn.
  pose proof (take_objects_spec _ _ _ _ _ _ _ _ Ht) as [Hurls _].
  destruct (required_objects_spec _ _ _ Hr) as (_ & Hget & Hcarries). destruct (taken_all _ _ _ _ _ Ht) as (Hn & Hin & Heq).
  assert (Hlisted : ∀ k b, needed x k b → ∃ o, o ∈ out ∧ so_sha256 o = k).
  { intros k b Hk%Hget. destruct (proj1 (list_elem_of_fmap _ _ _) (Hin k (ex_intro _ b Hk))) as (o & -> & Ho). by exists o. }
  split; [|done]. rewrite bytes_str_bytes. split_and!; [done|done|congruence|congruence|congruence|lia|done|exact Hlisted| |].
  - intros o Ho. destruct (take_objects_each _ _ _ _ _ _ _ _ Ht o Ho) as [Hk|(He & ? & ?)]; [left; by apply Hget|right]. split; [by apply Hcarries|done].
  - intros Hc k b Hk. destruct (Hlisted k b Hk) as (o & Ho & <-). exists o. split_and!; [done|done|]. apply Hget in Hk.
    destruct extra; [by destruct Hc; apply Hcarries|]. specialize (Heq eq_refl o Ho). congruence.
Qed.

Definition set_sound (keys : list key) (rq : SetCatalogRequest) (r : SelectedSet) : Prop :=
  let x := ss_set r in
  authenticate envelope_parse envelope_print (str_bytes (ss_envelope r)) keys = Ok x
  ∧ ss_set_id r = set_id x
  ∧ us_kind x = sq_kind rq ∧ us_channel x = sq_channel rq ∧ us_arch x = sq_arch rq
  ∧ sq_highest_generation rq < us_generation x
  ∧ NoDup (map so_sha256 (ss_objects r))
  ∧ (∀ k b, (∃ o, o ∈ ss_objects r ∧ so_sha256 o = k ∧ so_bytes o = b)
            ↔ (∃ a, a ∈ set_artifacts x ∧ a_sha256 a = k ∧ a_bytes a = b)).

(** As many listed as required, each of them required: all of them are. *)
Lemma taken_exactly base ls required out rest :
  take_objects false false base ls required ∅ = Ok (out, rest) → keys_sorted required → len ls = len required →
  NoDup (map so_sha256 out)
  ∧ ∀ k b, smap_get k required = Some b ↔ ∃ o, o ∈ out ∧ so_sha256 o = k ∧ so_bytes o = b.
Proof.
  intros H Hs Hl. destruct (take_objects_spec _ _ _ _ _ _ _ _ H) as (_ & Hget & _ & _ & He & Hlen).
  destruct (He eq_refl) as (Hn & Ho & Hcount). split; [done|]. specialize (Hcount Hs).
  assert (rest = []) as -> by (destruct rest; [done|unfold len in *; cbn in *; lia]).
  intros k b. split.
  - intros Hk. specialize (Hget k). cbn in Hget. case_bool_decide as Hin; [|congruence].
    apply list_elem_of_fmap in Hin as (o & -> & Hin). exists o. specialize (Ho o Hin). split_and!; [done|done|congruence].
  - intros (o & Hin & <- & <-). by apply Ho.
Qed.

Lemma select_set_ok keys rq line release base envelope r :
  select_set envelope_parse envelope_print keys rq line release base envelope = Ok r →
  sq_highest_generation rq < sl_generation (sn_latest line) → sn_channel line = sq_channel rq → sn_arch line = sq_arch rq →
  set_sound keys rq r ∧ Forall (λ o, starts_with (url_str base) (so_url o) = true) (ss_objects r).
Proof.
  unfold select_set. intros H Hgen Hchannel Harch. apply if_ok in H as [_ H].
  apply rbind_ok in H as (x & Hx & H). apply if_ok in H as [Hmatch H]. apply rbind_ok in H as (required & Hr & H).
  apply if_ok in H as [Hlen H]. apply rbind_ok in H as ([out rest] & Ht & H). apply if_ok in H as [_ H].
  injection H as <-. bools. destruct (add_artifacts_spec _ [] _ (SSorted_nil _) Hr) as [Hs Hget].
  destruct (taken_exactly _ _ _ _ _ Ht Hs) as [Hn Hall]; [done|].
  pose proof (take_objects_spec _ _ _ _ _ _ _ _ Ht) as [Hurls _]. unfold set_sound. cbn. split; [|done].
  rewrite bytes_str_bytes. split_and!; [done|done|done|congruence|congruence|lia|done|].
  intros k b. rewrite <- Hall, Hget. cbn [smap_get]. split; [by intros [?|?]|by right].
Qed.

(** ** The lines *)

Lemma product_lines_own rq base ls seen own line u :
  product_lines rq base ls seen own = Ok (Some (line, u)) →
  own = Some (line, u) ∨ (ln_board line = rq_board rq ∧ ln_product line = rq_product rq).
Proof.
  revert seen own. induction ls as [|l ls IH]; intros seen own H; cbn [product_lines] in H; [injection H as ->; by left|].
  apply if_ok in H as [_ H]. apply rbind_ok in H as (u' & _ & H). apply if_ok in H as [_ H]. apply IH in H as [H|H]; [|by right].
  destruct (bool_decide (ln_board l = rq_board rq) && _) eqn:E; [|by left]. injection H as -> ->. bools. by right.
Qed.

Lemma set_lines_own rq base ls seen own line u :
  set_lines rq base ls seen own = Ok (Some (line, u)) →
  own = Some (line, u) ∨ (sn_channel line = sq_channel rq ∧ sn_arch line = sq_arch rq).
Proof.
  revert seen own. induction ls as [|l ls IH]; intros seen own H; cbn [set_lines] in H; [injection H as ->; by left|].
  apply if_ok in H as [_ H]. apply rbind_ok in H as (u' & _ & H). apply if_ok in H as [_ H]. apply IH in H as [H|H]; [|by right].
  destruct (bool_decide (sn_kind l = kind_str (sq_kind rq)) && _ && _) eqn:E; [|by left]. injection H as -> ->. bools. by right.
Qed.

(** A checkpoint against the one of an earlier read: of the same source, its
    revision is no older, and one revision has one content. *)
Definition checkpoint_follows (source : string) (previous : option CatalogCheckpoint) (c : CatalogCheckpoint) : Prop :=
  cp_source c = source
  ∧ ∀ p, previous = Some p → cp_source p = source →
    cp_revision p ≤ cp_revision c ∧ (cp_revision c = cp_revision p → cp_payload_digest c = cp_payload_digest p).

Lemma check_manifest_ok source_text source previous b m c source' base :
  check_manifest source_text source previous b = Ok (m, c, source', base) →
  source' = source ∧ checkpoint_follows source_text previous c.
Proof.
  unfold check_manifest. intros H. apply rbind_ok in H as (m' & _ & H). apply if_ok in H as [_ H].
  apply rbind_ok in H as ([] & Hp & H). apply rbind_ok in H as (base' & _ & H). injection H as _ <- <- _.
  split; [done|]. split; [done|]. intros p -> Hsource. cbn [cp_source cp_revision cp_payload_digest] in *.
  rewrite (bool_decide_eq_true_2 _ Hsource) in Hp. apply if_ok in Hp as [Hle Hp]. apply if_ok in Hp as [Heq _]. bools.
  split; [done|]. intros Hr. rewrite Hr, Z.eqb_refl in Heq. cbn in Heq. by bools.
Qed.

Context {W : Type} (fetch : url → Z → M W bytes).

Lemma read_manifest_ok source_text previous (w : W) m c source base :
  o_result (read_manifest fetch source_text previous w) = Ok (m, c, source, base) →
  url_parse source_text = Some source ∧ checkpoint_follows source_text previous c.
Proof.
  unfold read_manifest. intros H. apply sbind_ok in H as (s & Hs & H & _). apply sbind_ok in H as (at_ & _ & H & _).
  apply sbind_ok in H as (b & _ & H & _). cbn in H. apply check_manifest_ok in H as [-> Hc]. by apply source_url_ok in Hs.
Qed.

Lemma check_release_base source line b release base u :
  check_release source line b = Ok (release, base, u) →
  url_scheme base = "https" ∨ url_scheme base = "http" ∧ url_scheme source = "http".
Proof.
  unfold check_release. intros H. apply rbind_ok in H as (r & _ & H). do 3 apply if_ok in H as [_ H].
  apply rbind_ok in H as (base' & Hb & H). apply if_ok in H as [_ H]. apply rbind_ok in H as (u' & _ & H).
  injection H as _ <- _. by apply base_url_ok in Hb.
Qed.

Lemma check_set_release_base source line b release base u :
  check_set_release source line b = Ok (release, base, u) →
  url_scheme base = "https" ∨ url_scheme base = "http" ∧ url_scheme source = "http".
Proof.
  unfold check_set_release. intros H. apply rbind_ok in H as (r & _ & H). do 3 apply if_ok in H as [_ H].
  apply rbind_ok in H as (base' & Hb & H). apply if_ok in H as [_ H]. apply rbind_ok in H as (u' & _ & H).
  injection H as _ <- _. by apply base_url_ok in Hb.
Qed.

End laws.

(** * Properties *)

(** C38: whatever a catalog's server sends, what a device takes from it is signed,
    for this device and newer than what it runs: the selected release's envelope
    authenticates as the deployment it gives, of the requested board, product and
    architecture and above the highest generation; its objects are listed once
    each, at addresses below one base that is https unless the source is http,
    and cover every object the deployment names and the envelope of the set it
    names. Without a set they are exactly those, lengths included; with one they
    may be more, or of other lengths, which acquisition holds to the set. The
    checkpoint is of the source asked, and against an earlier one of the same
    source it never goes back a revision nor changes the content of one. *)
Theorem catalog_selects_signed {UL : UrlLib} {CR : Crypto} {JS : Json} {CD : Codec Deployment} {CM : Codec Manifest}
  {CRel : Codec ReleaseDocument} (envelope_parse : bytes → option Envelope) (envelope_print : Envelope → bytes) {W}
  (fetch : url → Z → M W bytes) keys rq (w : W) v
  (Hread : o_result (verify_catalog envelope_parse envelope_print fetch keys rq w) = Ok v) :
  checkpoint_follows (rq_source rq) (rq_checkpoint rq) (vc_checkpoint v)
  ∧ ∀ r, vc_selected v = Some r →
      release_sound envelope_parse envelope_print keys rq r ∧ secure_objects (rq_source rq) (sr_objects r).
Proof.
  unfold verify_catalog in Hread. apply sbind_ok in Hread as ([[[m c] source] base] & Hm & H & _).
  apply read_manifest_ok in Hm as [Hsource Hc]. apply sbind_ok in H as (own & Hown & H & _).
  destruct own as [[line u]|]; cbn [newer_line] in H; [|injection H as <-; by split].
  destruct (Z.ltb_spec (rq_highest_generation rq) (lt_generation (ln_latest line))) as [Hgen|_]; [|injection H as <-; by split].
  apply product_lines_own in Hown as [?|[Hboard Hproduct]]; [done|].
  apply sbind_ok in H as (b & _ & H & _). apply sbind_ok in H as ([[release rbase] durl] & Hrel & H & _).
  apply sbind_ok in H as (envelope & _ & H & _). apply sbind_ok in H as (selected & Hsel & H & _).
  injection H as <-. cbn. split; [done|]. intros r [= <-].
  destruct (select_release_ok _ _ _ _ _ _ _ _ _ Hsel Hgen Hboard Hproduct) as [Hsound Hurls]. split; [done|].
  exists rbase. split; [done|]. apply check_release_base in Hrel as [?|[? ?]]; [by left|right; eauto].
Qed.

(** The same of a channel's set: it is signed, of the requested kind, channel
    and architecture, above the generation the device holds on that channel, and
    its objects are exactly the set's, each once with its length. *)
Theorem set_catalog_selects_signed {UL : UrlLib} {CR : Crypto} {JS : Json} {CS : Codec UpdateSet} {CM : Codec Manifest}
  {CSet : Codec SetReleaseDocument} (envelope_parse : bytes → option Envelope) (envelope_print : Envelope → bytes) {W}
  (fetch : url → Z → M W bytes) keys rq (w : W) v
  (Hread : o_result (verify_set_catalog envelope_parse envelope_print fetch keys rq w) = Ok v) :
  checkpoint_follows (sq_source rq) (sq_checkpoint rq) (vs_checkpoint v)
  ∧ ∀ r, vs_selected v = Some r →
      set_sound envelope_parse envelope_print keys rq r ∧ secure_objects (sq_source rq) (ss_objects r).
Proof.
  unfold verify_set_catalog in Hread. apply sbind_ok in Hread as ([[[m c] source] base] & Hm & H & _).
  apply read_manifest_ok in Hm as [Hsource Hc]. apply sbind_ok in H as (own & Hown & H & _).
  destruct own as [[line u]|]; cbn [newer_set_line] in H; [|injection H as <-; by split].
  destruct (Z.ltb_spec (sq_highest_generation rq) (sl_generation (sn_latest line))) as [Hgen|_]; [|injection H as <-; by split].
  apply set_lines_own in Hown as [?|[Hchannel Harch]]; [done|].
  apply sbind_ok in H as (b & _ & H & _). apply sbind_ok in H as ([[release rbase] durl] & Hrel & H & _).
  apply sbind_ok in H as (envelope & _ & H & _). apply sbind_ok in H as (selected & Hsel & H & _).
  injection H as <-. cbn. split; [done|]. intros r [= <-].
  destruct (select_set_ok _ _ _ _ _ _ _ _ _ Hsel Hgen Hchannel Harch) as [Hsound Hurls]. split; [done|].
  exists rbase. split; [done|]. apply check_set_release_base in Hrel as [?|[? ?]]; [by left|right; eauto].
Qed.

(** ** Witnesses *)

(** Addresses as they are written, and a server of fixed documents. *)
Definition plain_urls : UrlLib :=
  {| url := string; url_parse := Some; url_join := λ b p, Some (b +:+ p); url_str := λ u, u;
     url_scheme := λ _, "https"; url_has_host := λ _, true; url_username := λ _, ""; url_password := λ _, None;
     url_query := λ _, None; url_fragment := λ _, None; url_path := λ u, u; url_with_path := λ p _, p |}.
Definition serve (u : string) (limit : Z) : M unit bytes := sret (str_bytes "{}").

Definition hex_of (c : ascii) : string := bytes_str (replicate 64 c).
Definition image_of (image signature : ascii) : VerityImage :=
  {| vi_image := {| a_bytes := a_bytes (vi_image sample_image); a_sha256 := hex_of image |};
     vi_root_hash := vi_root_hash sample_image;
     vi_signature := {| a_bytes := 512; a_sha256 := hex_of signature |}; vi_verity := vi_verity sample_image |}.
Definition offered : Deployment :=
  let k := d_kernel sample_deployment in
  let r := d_rootfs sample_deployment in
  {| d_schema := d_schema sample_deployment; d_board := d_board sample_deployment; d_arch := d_arch sample_deployment;
     d_generation := d_generation sample_deployment; d_version := d_version sample_deployment;
     d_product := d_product sample_deployment; d_data_policy := d_data_policy sample_deployment;
     d_kernel := {| k_schema := k_schema k; k_id := k_id k; k_board := k_board k; k_arch := k_arch k;
                    k_build_id := k_build_id k; k_release := k_release k; k_boot_format := k_boot_format k;
                    k_boot_artifact := {| a_bytes := 4096; a_sha256 := hex_of "a" |};
                    k_support := image_of "b" "c"; k_features := k_features k |};
     d_rootfs := {| r_schema := r_schema r; r_id := r_id r; r_arch := r_arch r; r_content := image_of "d" "e";
                    r_interface_level := r_interface_level r; r_provides := r_provides r |};
     d_core_set := None |}.
Definition links (l : list Artifact) : list ObjectLink :=
  map (λ a, {| ol_sha256 := a_sha256 a; ol_bytes := a_bytes a; ol_path := a_sha256 a |}) l.
Definition sample_manifest : Manifest :=
  {| mf_schema := "mica/catalog/v1"; mf_revision := 3; mf_base_url := "https://x/";
     mf_products := [{| ln_product := "mica"; ln_board := "x86-64";
                        ln_latest := {| lt_id := "r7"; lt_generation := 7; lt_notes := "notes"; lt_path := "r7.json" |} |}];
     mf_sets := [{| sn_kind := "core"; sn_channel := "general"; sn_arch := "amd64";
                    sn_latest := {| sl_id := "s4"; sl_generation := 4; sl_path := "s4.json" |} |}] |}.
Definition sample_link : DescriptorLink := {| dl_path := "d"; dl_sha256 := sample_hex; dl_bytes := 2 |}.
Definition sample_release : ReleaseDocument :=
  {| rd_schema := "mica/release/v1"; rd_base_url := "https://x/"; rd_id := "r7"; rd_product := "mica"; rd_board := "x86-64";
     rd_generation := 7; rd_notes := "notes"; rd_deployment := sample_link;
     rd_objects := links (deployment_artifacts offered) |}.
Definition sample_request : CatalogRequest :=
  {| rq_source := "https://x/"; rq_board := "x86-64"; rq_arch := "amd64"; rq_product := "mica";
     rq_checkpoint := Some {| cp_source := "https://x/"; cp_revision := 2; cp_payload_digest := "" |};
     rq_highest_generation := 6 |}.
Definition sample_read : outcome unit VerifiedCatalog :=
  verify_catalog (UL := plain_urls) (CR := sample_crypto) (JS := sample_json) (CD := sample_codec offered)
    (CM := sample_codec sample_manifest) (CRel := sample_codec sample_release) (λ _, Some sample_envelope)
    (λ _, str_bytes "{}") serve [str_bytes "key"] sample_request tt.

Lemma catalog_selects_signed_witness :
  ∃ v r, o_result sample_read = Ok v ∧ vc_selected v = Some r ∧ sr_deployment r = offered ∧ len (sr_objects r) = 5
  ∧ 6 < d_generation (sr_deployment r) ∧ 2 ≤ cp_revision (vc_checkpoint v).
Proof.
  destruct (o_result sample_read) as [v|e] eqn:H; [|exfalso; vm_compute in H; discriminate H].
  destruct (catalog_selects_signed (UL := plain_urls) (CR := sample_crypto) (JS := sample_json) (CD := sample_codec offered)
    (CM := sample_codec sample_manifest) (CRel := sample_codec sample_release) (λ _, Some sample_envelope)
    (λ _, str_bytes "{}") serve [str_bytes "key"] sample_request tt v H) as [[_ Hc] Hr].
  assert (E : (λ v, (sr_deployment <$> vc_selected v, (λ r, len (sr_objects r)) <$> vc_selected v)) <$> o_result sample_read
              = Ok (Some offered, Some 5)) by (vm_compute; reflexivity).
  rewrite H in E. cbn in E. destruct (vc_selected v) as [r|] eqn:Es; [|discriminate E].
  exists v, r. split; [reflexivity|]. split; [exact Es|]. cbn in E. injection E as E1 E2. split; [exact E1|].
  split; [exact E2|]. split.
  - destruct (Hr r eq_refl) as [(_ & _ & _ & _ & _ & Hgen & _) _]. exact Hgen.
  - exact (proj1 (Hc _ eq_refl eq_refl)).
Defined.

Definition sample_set_release (s : UpdateSet) : SetReleaseDocument :=
  {| sd_schema := "mica/set-release/v1"; sd_base_url := "https://x/"; sd_id := "s4"; sd_kind := "core"; sd_channel := "general";
     sd_arch := "amd64"; sd_generation := 4; sd_set := sample_link; sd_objects := links (set_artifacts s) |}.
Definition offered_set : UpdateSet :=
  {| us_schema := "mica/set/v1"; us_kind := Core; us_channel := "general"; us_arch := "amd64";
     us_generation := 4; us_version := "4";
     us_components := [{| c_schema := "mica/core/v1"; c_id := sample_hex; c_arch := "amd64"; c_package := "micad";
                          c_version := "1.2"; c_features := ["base"]; c_needs := []; c_root := None; c_requires := [];
                          c_content := image_of "f" "0" |}] |}.
Definition sample_set_request : SetCatalogRequest :=
  {| sq_source := "https://x/"; sq_kind := Core; sq_arch := "amd64"; sq_channel := "general"; sq_checkpoint := None;
     sq_highest_generation := 3 |}.
Definition sample_set_read : outcome unit VerifiedSetCatalog :=
  verify_set_catalog (UL := plain_urls) (CR := sample_crypto) (JS := sample_json) (CS := sample_codec offered_set)
    (CM := sample_codec sample_manifest) (CSet := sample_codec (sample_set_release offered_set)) (λ _, Some sample_envelope)
    (λ _, str_bytes "{}") serve [str_bytes "key"] sample_set_request tt.

Lemma set_catalog_selects_signed_witness :
  ∃ v r, o_result sample_set_read = Ok v ∧ vs_selected v = Some r ∧ ss_set r = offered_set ∧ len (ss_objects r) = 2
  ∧ 3 < us_generation (ss_set r).
Proof.
  destruct (o_result sample_set_read) as [v|e] eqn:H; [|exfalso; vm_compute in H; discriminate H].
  destruct (set_catalog_selects_signed (UL := plain_urls) (CR := sample_crypto) (JS := sample_json)
    (CS := sample_codec offered_set) (CM := sample_codec sample_manifest)
    (CSet := sample_codec (sample_set_release offered_set)) (λ _, Some sample_envelope)
    (λ _, str_bytes "{}") serve [str_bytes "key"] sample_set_request tt v H) as [_ Hr].
  assert (E : (λ v, (ss_set <$> vs_selected v, (λ r, len (ss_objects r)) <$> vs_selected v)) <$> o_result sample_set_read
              = Ok (Some offered_set, Some 2)) by (vm_compute; reflexivity).
  rewrite H in E. cbn in E. destruct (vs_selected v) as [r|] eqn:Es; [|discriminate E].
  exists v, r. split; [reflexivity|]. split; [exact Es|]. cbn in E. injection E as E1 E2. split; [exact E1|].
  split; [exact E2|]. destruct (Hr r eq_refl) as [(_ & _ & _ & _ & _ & Hgen & _) _]. exact Hgen.
Defined.

End Catalog.
