(* ===== verification/Acquire.v ===== *)
(** Acquiring a release or a set
    ([src/crates/mica-deploy/src/acquisition.rs] and [acquisition/sets.rs]): the
    workspace on DATA, its budget, what is missing, transfer by delta or whole,
    archives, and the promotion of a verified object. The network, and what a
    removable archive holds, are the adversary's: the network is any sequence of
    connections, an archive any bytes. *)
From Stdlib Require Import Ascii.
From S2P Require Import Prelude Text Order Files Boot FitEnv RecordStore Deployments Components UpdateSet SetState Ubi CoreSet Objects CoreChoice Collect InstallSet Chunks Transfer Catalog.
Import Files Boot FitEnv RecordStore Components UpdateSet SetState Ubi CoreSet Objects CoreChoice Collect InstallSet Chunks Catalog.

Module Acquire.

Create HintDb keeps discriminated.

(** One transfer's network: how each of its attempts connects, how many reads of
    a connection are followed, and how its bytes come in reads. *)
Record Wire {UL : UrlLib} := {
  wire_connect : nat → url → Z → result Transfer.Conn;
  wire_turns : nat;
  wire_grain : nat → bytes → Z;
}.

(** What acquisition works on: the device, DATA's filesystem, the files of it
    whose content is not flushed yet, and the transfers made so far. *)
Record World (R : Type) := {
  aw_device : device R;
  aw_disk : tree;
  aw_dirty : gset string;
  aw_calls : nat;
}.
Arguments aw_device {R}.
Arguments aw_disk {R}.
Arguments aw_dirty {R}.
Arguments aw_calls {R}.

Section world.
Context {R : Type}.
Implicit Types w : World R.

Definition set_disk (t : tree) w : World R :=
  {| aw_device := aw_device w; aw_disk := t; aw_dirty := aw_dirty w; aw_calls := aw_calls w |}.
Definition set_device (d : device R) w : World R :=
  {| aw_device := d; aw_disk := aw_disk w; aw_dirty := aw_dirty w; aw_calls := aw_calls w |}.
Definition set_dirty (paths : gset string) w : World R :=
  {| aw_device := aw_device w; aw_disk := aw_disk w; aw_dirty := paths; aw_calls := aw_calls w |}.
Definition set_calls (n : nat) w : World R :=
  {| aw_device := aw_device w; aw_disk := aw_disk w; aw_dirty := aw_dirty w; aw_calls := n |}.

Definition on_disk {A} (m : M tree A) : M (World R) A := szoom aw_disk set_disk m.
Definition on_device {A} (m : M (device R) A) : M (World R) A := szoom aw_device set_device m.

(** What a power cut leaves of DATA: every file but those not flushed. *)
Definition after_cut w (t : tree) : Prop := ∀ p, p ∉ aw_dirty w → t !! p = aw_disk w !! p.

(** A file with content not flushed: written whole, and at any moment before. *)
Definition with_file (path : string) (b : bytes) w : World R :=
  set_dirty ({[path]} ∪ aw_dirty w) (set_disk (<[path := Regular b]> (aw_disk w)) w).
Definition write_file (path : string) (b : bytes) : M (World R) unit := λ w,
  Outcome (Ok tt) (with_file path b w) (λ w', w' = w ∨ ∃ c, w' = with_file path c w).

(** [File::create], on a name that is free or a file's. *)
Definition create (path : string) : M (World R) unit := λ w,
  match aw_disk w !! path with
  | Some (Regular _) | None => swrite (with_file path []) w
  | Some _ => slift (λ _, Err (Msg "Is a directory")) w
  end.
(** [create_new]. *)
Definition create_fresh (path : string) : M (World R) unit := λ w,
  match aw_disk w !! path with
  | None => swrite (with_file path []) w
  | Some _ => slift (λ _, Err (Msg "File exists")) w
  end.
(** [write_all] on an open file. *)
Definition append (path : string) (b : bytes) : M (World R) unit := λ w,
  match aw_disk w !! path with
  | Some (Regular c) => write_file path (c ++ b) w
  | _ => slift (λ _, Err (Msg "No such file or directory")) w
  end.
(** [sync_all]. *)
Definition sync_all (path : string) : M (World R) unit := swrite (λ w, set_dirty (aw_dirty w ∖ {[path]}) w).
(** [fs::rename]: a file not flushed is not flushed under its new name. *)
Definition rename_file (from to_ : string) : M (World R) unit := λ w,
  match aw_disk w !! from, aw_disk w !! to_ with
  | None, _ | Some _, Some Directory => slift (λ _, Err (Msg "rename")) w
  | Some n, _ =>
      swrite (λ w, set_dirty (if bool_decide (from ∈ aw_dirty w) then {[to_]} ∪ aw_dirty w ∖ {[from]}
                              else aw_dirty w ∖ {[to_]})
                     (set_disk (<[to_ := n]> (delete from (aw_disk w))) w)) w
  end.
Definition remove (path : string) : M (World R) unit := on_disk (remove_file path).

(** A step whose failure is ignored, or looked at. *)
Definition stry {A} (m : M (World R) A) : M (World R) (result A) := λ w,
  let o := m w in Outcome (Ok (o_result o)) (o_state o) (o_crash o).
Definition ignore {A} (m : M (World R) A) : M (World R) unit := let! _ := stry m in sret tt.

End world.

(** What is left ready to install. *)
Record ReadyDeployment := {
  rdy_id : string; rdy_path : string; rdy_objects : string; rdy_version : string; rdy_generation : Z }.
Record ReadySet := {
  rs_id : string; rs_kind : SetKind; rs_path : string; rs_objects : string; rs_channel : string; rs_version : string;
  rs_generation : Z }.
Inductive Imported := ImportedDeployment (d : ReadyDeployment) | ImportedSet (s : ReadySet).

(** [Path]'s order: component by component. *)
Fixpoint parts_cmp (a b : list string) : comparison :=
  match a, b with
  | [], [] => Eq
  | [], _ => Lt
  | _, [] => Gt
  | x :: a', y :: b' => then_with (str_cmp x y) (parts_cmp a' b')
  end.
(** [sort] and [dedup], one path at a time. *)
Fixpoint insert_path (p : string) (l : list string) : list string :=
  match l with
  | [] => [p]
  | q :: l' => match parts_cmp (split "/" p) (split "/" q) with
               | Lt => p :: l
               | Eq => l
               | Gt => q :: insert_path p l'
               end
  end.
Definition sorted_paths (l : list string) : list string := foldr insert_path [] l.

(** Where a chunk's digest can be read. *)
Notation seed_index := (gmap string (string * Z * Z)).

(** [read_exact]. *)
Definition read_exact (n : Z) (b : bytes) : result (bytes * bytes) :=
  ensure n <=? len b else "failed to fill whole buffer" in
  Ok (take (Z.to_nat n) b, drop (Z.to_nat n) b).

Section acquisition.
Context {UL : UrlLib} {CR : Crypto} {JS : Json} {CD : Codec Deployment} {CS : Codec UpdateSet} {CC : Codec CatalogCheckpoint}
  {CM : Codec Manifest} {CRel : Codec ReleaseDocument} {CSet : Codec SetReleaseDocument}
  {A U : Type} {HR : Records (A + U)} {UD : UbiDevice U}
  (envelope_parse : bytes → option Envelope) (envelope_print : Envelope → bytes).
#[local] Notation World := (World (A + U)).
#[local] Notation device := (device (A + U)).
(** The network of each transfer; [statvfs] of the workspace; and for seeds,
    the mount points of SYSTEM and the ESP, a volume's device node, and what
    opening an absolute path reads in this process. *)
Context (wire : nat → Wire) (statvfs : tree → result Space) (reserves : Reserves)
  (system esp : string) (volume_path : Volume → string) (opened : World → tree).
(** [Acquisition]: the workspace, and the device it is for. *)
Context (root : string) (keys : list key) (board arch product : string) (max_bytes : option Z).
Implicit Types (w : World) (x : Deployment) (s : UpdateSet).

Definition at_root (path : string) : string := root +:+ "/" +:+ path.
Definition objects : string := at_root "verified/objects".
Definition object (sha : string) : string := objects +:+ "/" +:+ sha.
Definition download_file (sha ext : string) : string := at_root ("downloads/" +:+ sha +:+ "." +:+ ext).

Definition prepare : M World unit :=
  let! _ := on_disk (directory (at_root "downloads")) in
  let! _ := on_disk (directory objects) in
  on_disk (directory (at_root "staging")).

(** * The workspace *)

(** The entries of one directory: directories to visit, and files with their
    lengths. *)
Fixpoint walk_entries (t : tree) (path : string) (depth : Z) (names : list string)
    (stack : list (string * Z)) (entries : Z) (files : list (string * Z)) :
    result (list (string * Z) * Z * list (string * Z)) :=
  match names with
  | [] => Ok (stack, entries, files)
  | name :: rest =>
      ensure entries + 1 <=? 4096 else "workspace entry bound exceeded" in
      let p := path +:+ "/" +:+ name in
      if is_dir p t then walk_entries t path depth rest ((p, depth + 1) :: stack) (entries + 1) files
      else match t !! p with
           | Some (Regular b) => walk_entries t path depth rest stack (entries + 1) (files ++ [(p, len b)])
           | _ => Err (Msg "unexpected workspace file type")
           end
  end.
Fixpoint walk_files (fuel : nat) (t : tree) (stack : list (string * Z)) (entries : Z) (files : list (string * Z)) :
    option (result (list (string * Z))) :=
  match fuel, stack with
  | _, [] => Some (Ok files)
  | O, _ => None
  | S fuel', (path, depth) :: stack' =>
      if depth <=? 3 then
        match walk_entries t path depth (read_dir path t) stack' entries files with
        | Err e => Some (Err e)
        | Ok (stack'', entries', files') => walk_files fuel' t stack'' entries' files'
        end
      else Some (Err (Msg "workspace directory depth exceeded"))
  end.
(** At most 4096 entries, and the root: that many directories. *)
Definition WALK_FUEL : nat := Z.to_nat 4097.
Definition files w : result (list (string * Z)) :=
  default (Err (Msg "out of fuel")) (walk_files WALK_FUEL (aw_disk w) [(root, 0)] 0 []).

Definition DEFAULT_DATA : Z := 128 * MIB.
Definition data_reserve : Z := default DEFAULT_DATA (rv_data reserves).

Definition budget : result Z :=
  let? budget := with_context max_bytes "no workspace budget" in
  ensure (0 <? budget) && (budget <=? 8 * 1024 * 1024 * 1024) else "invalid workspace budget" in
  Ok budget.

Fixpoint total (sizes : list (string * Z)) (sum : Z) : result Z :=
  match sizes with
  | [] => Ok sum
  | (_, b) :: rest => ensure sum + b <=? U64_MAX else "workspace size overflow" in total rest (sum + b)
  end.
Definition saturate (z : Z) : Z := Z.min z U64_MAX.

Definition reserve (b : Z) w : result unit :=
  let? limit := budget in
  let? fs := files w in
  let? used := total fs 0 in
  ensure (used + b <=? U64_MAX) && (used + b <=? limit) else "workspace budget exhausted" in
  let? space := statvfs (aw_disk w) in
  ensure (saturate (b + data_reserve) <=? saturate (f_bavail space * f_frsize space))
         && ((f_files space =? 0) || (2048 + 32 <=? f_favail space))
    else "DATA reserve unavailable" in
  Ok tt.

Fixpoint remove_all (paths : list string) : M World unit :=
  match paths with
  | [] => sret tt
  | p :: rest => let! _ := remove p in remove_all rest
  end.
Definition discard : M World Z :=
  let! _ := prepare in
  let! fs := slift files in
  let! _ := remove_all (map fst fs) in
  sret (len fs).

Definition probe : M World unit :=
  let! _ := prepare in
  let! _ := slift (reserve 4096) in
  let! _ := on_disk (atomic_write (at_root "staging/probe") (str_bytes "workspace probe" ++ [LF])) in
  remove (at_root "staging/probe").

(** * What is missing *)

(** The objects of [wanted] that are not in the verified store. *)
Fixpoint absent_of (wanted : smap Z) w : result (smap Z) :=
  match wanted with
  | [] => Ok []
  | (sha, b) :: rest =>
      if path_exists (object sha) (aw_disk w) then
        let? _ := verify_file (aw_disk w) (object sha) {| a_bytes := b; a_sha256 := sha |} in
        absent_of rest w
      else let? l := absent_of rest w in Ok ((sha, b) :: l)
  end.

(** The objects that are not installed. *)
Fixpoint not_held (places : list (Place * Artifact)) (d : device) (acc : smap Z) : result (smap Z) :=
  match places with
  | [] => Ok acc
  | (place, a) :: rest =>
      let? there := held place d in
      if (there : bool) then let? _ := verify_held place a d in not_held rest d acc
      else not_held rest d (smap_insert (a_sha256 a) (a_bytes a) acc)
  end.
Definition missing x w : result (smap Z) :=
  let? _ := artifacts x in
  let? l := not_held (object_paths (aw_device w) x) (aw_device w) [] in
  absent_of l w.

Fixpoint set_not_held (places : list (Place * Artifact)) w (acc : smap Z) : result (smap Z) :=
  match places with
  | [] => Ok acc
  | (place, a) :: rest =>
      let? there := held place (aw_device w) in
      if (there : bool) then let? _ := verify_held place a (aw_device w) in set_not_held rest w acc
      else if path_exists (object (a_sha256 a)) (aw_disk w) then
        let? _ := verify_file (aw_disk w) (object (a_sha256 a)) a in set_not_held rest w acc
      else
        let previous := smap_get (a_sha256 a) acc in
        ensure match previous with Some b => b =? a_bytes a | None => true end else "conflicting object lengths" in
        set_not_held rest w (smap_insert (a_sha256 a) (a_bytes a) acc)
  end.
Definition set_missing s w : result (smap Z) := set_not_held (set_objects (aw_device w) s) w [].

Definition validate x w : result unit :=
  ensure bool_decide (d_board x = board) && bool_decide (d_arch x = arch) else "deployment targets another device" in
  ensure bool_decide (d_product x = product) else "deployment targets another product" in
  let? state := Deployments.effective_state (dv_store (aw_device w)) in
  ensure bool_decide (Deployments.candidate state = None) else "another deployment is pending" in
  ensure Deployments.highest_generation state <? d_generation x else "deployment generation is not newer" in
  Ok tt.

Definition held_generation (kind : SetKind) (channel : string) w : result Z :=
  let? state := SetState.read_state (dv_sets (aw_device w)) in
  match ss_current state with
  | None => Ok 0
  | Some current =>
      let? loaded := load_set envelope_parse envelope_print kind current keys arch (dv_sets (aw_device w)) in
      Ok (if bool_decide (us_channel loaded.1 = channel) then us_generation loaded.1 else 0)
  end.

Definition set_validate s w : result unit :=
  ensure bool_decide (us_arch s = arch) else "set targets another architecture" in
  let? state := Deployments.effective_state (dv_store (aw_device w)) in
  ensure bool_decide (Deployments.candidate state = None)
    else "a deployment is on trial; confirm it before a set update" in
  let? sets := SetState.read_state (dv_sets (aw_device w)) in
  ensure bool_decide (ss_pending sets = None) else "another set is pending" in
  let? held := held_generation (us_kind s) (us_channel s) w in
  ensure held <? us_generation s else "set generation is not newer" in
  Ok tt.

(** * Ready *)

Definition deployment_json (the_id : string) : string := at_root ("verified/" +:+ the_id +:+ ".json").
Definition set_json (kind : SetKind) (the_id : string) : string :=
  at_root ("verified/set-" +:+ kind_str kind +:+ "-" +:+ the_id +:+ ".json").

Definition ready (envelope : bytes) x : M World ReadyDeployment :=
  let! m := slift (missing x) in
  ensure! is_nil m else "deployment objects are incomplete" in
  let! the_id := slift (λ _, component_id (to_value x)) in
  let! _ := on_disk (atomic_write (deployment_json the_id) envelope) in
  sret {| rdy_id := the_id; rdy_path := deployment_json the_id; rdy_objects := objects; rdy_version := d_version x;
          rdy_generation := d_generation x |}.

Definition set_ready (envelope : bytes) s : M World ReadySet :=
  let! m := slift (set_missing s) in
  ensure! is_nil m else "set objects are incomplete" in
  let the_id := set_id s in
  let! _ := on_disk (atomic_write (set_json (us_kind s) the_id) envelope) in
  sret {| rs_id := the_id; rs_kind := us_kind s; rs_path := set_json (us_kind s) the_id; rs_objects := objects;
          rs_channel := us_channel s; rs_version := us_version s; rs_generation := us_generation s |}.

(** * Transfers *)

Definition transferable (u : url) : bool :=
  is_http u && is_empty (url_username u) && bool_decide (url_password u = None).

(** [download], into DATA: not flushed, and at any moment holding anything. *)
Definition download (u target : string) (limit : Z) (resume : bool) : M World unit := λ w,
  match aw_disk w !! target with
  | Some Directory | Some Special => slift (λ _, Err (Msg "invalid download target")) w
  | there =>
      let held := match there with Some (Regular b) => Some b | _ => None end in
      let net := wire (aw_calls w) in
      match Transfer.download url_parse url_join transferable (wire_connect net) (wire_turns net) (wire_grain net) u held limit resume with
      | None => slift (λ _, Err (Msg "out of fuel")) w
      | Some (r, held') =>
          let w1 := set_calls (S (aw_calls w)) w in
          Outcome r (match held' with Some b => with_file target b w1 | None => w1 end)
            (λ w', w' = w ∨ ∃ c, w' = with_file target c w1)
      end
  end.

(** One document at a time, through the same staging file. *)
Definition fetch_document (path : string) (u : url) (limit : Z) : M World bytes :=
  let! _ := download (url_str u) path limit false in
  let! b := slift (λ w, read_bounded (aw_disk w) path limit) in
  let! _ := remove path in
  sret b.

Definition checkpoint w : result (option CatalogCheckpoint) :=
  match dv_meta (aw_device w) !! "catalog.json" with
  | Some _ =>
      let? b := read_bounded (dv_meta (aw_device w)) "catalog.json" 4096 in
      let? c := with_context (json_parse b ≫= from_value) "invalid JSON" in
      Ok (Some c)
  | None => Ok None
  end.
Definition save_checkpoint (c : CatalogCheckpoint) : M World unit :=
  on_device (on_meta (atomic_write "catalog.json" (json_print (to_value c)))).

Definition check (source : string) : M World VerifiedCatalog :=
  let! _ := slift (λ _, source_url source) in
  let! _ := prepare in
  let! _ := slift (reserve MAX_CATALOG_BYTES) in
  let! previous := slift checkpoint in
  let! state := slift (λ w, Deployments.effective_state (dv_store (aw_device w))) in
  let! result := verify_catalog envelope_parse envelope_print (fetch_document (at_root "staging/catalog.partial")) keys
    {| rq_source := source; rq_board := board; rq_arch := arch; rq_product := product; rq_checkpoint := previous;
       rq_highest_generation := Deployments.highest_generation state |} in
  let! _ := save_checkpoint (vc_checkpoint result) in
  sret result.

(** A newer set that does not run on the root waits for a system update. *)
Definition offered_on (features : list string) (facts : RootFacts) (v : VerifiedSetCatalog) : VerifiedSetCatalog :=
  match vs_selected v with
  | Some selected =>
      match select (ss_set selected) features facts with
      | inl refusal =>
          {| vs_checkpoint := vs_checkpoint v; vs_selected := None;
             vs_waits_for_system := Some {| ws_id := ss_set_id selected; ws_generation := us_generation (ss_set selected);
                                            ws_reason := se_reason refusal +:+ ": " +:+ se_package refusal
                                                         +:+ " (" +:+ se_constraint refusal +:+ ")" |} |}
      | inr _ => v
      end
  | None => v
  end.

Definition set_check (kind : SetKind) (source channel : string) (target : SetTarget) : M World VerifiedSetCatalog :=
  let! _ := slift (λ _, source_url source) in
  let! _ := prepare in
  let! _ := slift (reserve MAX_CATALOG_BYTES) in
  let! previous := slift checkpoint in
  let! held := slift (held_generation kind channel) in
  let! result := verify_set_catalog envelope_parse envelope_print (fetch_document (at_root "staging/catalog.partial")) keys
    {| sq_source := source; sq_kind := kind; sq_arch := arch; sq_channel := channel; sq_checkpoint := previous;
       sq_highest_generation := held |} in
  let! _ := save_checkpoint (vs_checkpoint result) in
  sret (offered_on (st_features target) (st_root target) result).

(** Room for what is missing, less what its partials already hold. *)
Fixpoint still_needed (missing : smap Z) w (needed : Z) : result Z :=
  match missing with
  | [] => Ok needed
  | (sha, b) :: rest =>
      let? held := match aw_disk w !! download_file sha "partial" with
                   | Some (Regular c) => ensure len c <=? b else "invalid partial object" in Ok (len c)
                   | Some _ => Err (Msg "invalid partial object")
                   | None => Ok 0
                   end in
      ensure needed + (b - held) <=? U64_MAX else "object size overflow" in
      still_needed rest w (needed + (b - held))
  end.
Definition reserve_missing (missing : smap Z) w : result unit :=
  let? needed := still_needed missing w 0 in
  reserve (wrap64 (needed + 24576)) w.

(** ** Deltas *)

Definition readable (p : Place) (d : device) : result (option string) :=
  match p with
  | OnSystem path => Ok (Some (system +:+ "/" +:+ path))
  | OnEsp path => Ok (Some (esp +:+ "/" +:+ path))
  | InVolume name => ubi_read (λ u, let? v := Ubi.find u name in Ok (volume_path <$> v)) d
  end.

(** The files a chunk may be copied from; what cannot be read is passed over. *)
Definition installed_objects w (e : Deployments.Entry) : list string :=
  let d := aw_device w in
  match read_bounded (dv_system d) (descriptor_path (Deployments.e_id e)) 24576 with
  | Err _ => []
  | Ok b =>
      match authenticate_deployment envelope_parse envelope_print b keys with
      | Err _ => []
      | Ok x => omap (λ pa, mjoin (ok_or_none (readable pa.1 d))) (object_paths d x)
      end
  end.
Definition seeds w : list string :=
  let es := default [] (ok_or_none (Deployments.entries (dv_store (aw_device w)))) in
  sorted_paths (concat (map (installed_objects w) es)
                ++ map (λ name, objects +:+ "/" +:+ name) (read_dir objects (aw_disk w))).

(** A chunk from the origin, whole and of its digest. *)
Definition fetch_chunk (source : url) (sha chunk : string) (length : Z) : M World bytes :=
  let! u := slift (λ _, with_context (url_join source ("../chunks/" +:+ chunk)) "invalid URL") in
  let! _ := download (url_str u) (download_file sha "chunk") length false in
  let! _ := slift (λ w, verify_file (aw_disk w) (download_file sha "chunk") {| a_bytes := length; a_sha256 := chunk |}) in
  slift (λ w, read_bounded (aw_disk w) (download_file sha "chunk") length).

(** The chunks of an index, each from a seed or the origin, in the assembly. *)
Fixpoint assemble (source : url) (sha : string) (index : list (string * Z)) (cut : seed_index) : M World unit :=
  match index with
  | [] => sret tt
  | (chunk, length) :: rest =>
      let! b := match cut !! chunk with
                | Some (path, offset, held) =>
                    if held =? length then slift (λ w, read_seed (opened w) path offset length chunk)
                    else fetch_chunk source sha chunk length
                | None => fetch_chunk source sha chunk length
                end in
      let! _ := append (download_file sha "assembly") b in
      assemble source sha rest cut
  end.

Definition index_url (source : url) : url := url_with_path (url_path source +:+ ".index") source.

Definition delta (o : SourceObject) (cut : seed_index) : M World unit :=
  let sha := so_sha256 o in
  let a := {| a_bytes := so_bytes o; a_sha256 := sha |} in
  let limit := index_limit (so_bytes o) in
  let! _ := slift (reserve (wrap64 (limit + MAX_CHUNK))) in
  let! source := slift (λ _, with_context (url_parse (so_url o)) "invalid URL") in
  let! _ := download (url_str (index_url source)) (download_file sha "index") limit false in
  let! index := slift (λ w, let? b := read_bounded (aw_disk w) (download_file sha "index") limit in parse_index b a) in
  let! _ := remove (download_file sha "index") in
  let! _ := create (download_file sha "assembly") in
  let! _ := assemble source sha index cut in
  let! _ := sync_all (download_file sha "assembly") in
  let! _ := ignore (remove (download_file sha "chunk")) in
  rename_file (download_file sha "assembly") (download_file sha "partial").

(** ** Objects *)

Definition promote (partial : string) (a : Artifact) : M World unit := λ w,
  match verify_file (aw_disk w) partial a with
  | Err e => (let! _ := remove partial in slift (λ _, Err e)) w
  | Ok _ => (let! _ := sync_all partial in rename_file partial (object (a_sha256 a))) w
  end.

(** The length of what is at a path, a directory's being no file's. *)
Definition held_bytes (path : string) w : Z :=
  match aw_disk w !! path with Some (Regular b) => len b | Some _ => 4096 | None => 0 end.

(** A delta for one object where nothing of it is held yet; afterwards, the seeds
    cut so far and whether the origin still has indexes. *)
Definition try_delta (o : SourceObject) (cut : option seed_index) (indexed : bool) :
    M World (option seed_index * bool) := λ w,
  let sha := so_sha256 o in
  if (held_bytes (download_file sha "partial") w =? 0) && indexed then
    (let! cut := match cut with
                 | Some cut => sret cut
                 | None => slift (λ w, seed_map (seeds w) (opened w) ∅)
                 end in
     let! tried := stry (delta o cut) in
     match tried with
     | Ok _ => sret (Some cut, true)
     | Err _ =>
         let! _ := ignore (remove (download_file sha "assembly")) in
         let! _ := ignore (remove (download_file sha "index")) in
         let! _ := ignore (remove (download_file sha "chunk")) in
         sret (Some cut, false)
     end) w
  else sret (cut, indexed) w.

(** The transfer of the rest, unless it is all there. *)
Definition fetch_rest (o : SourceObject) : M World unit := λ w,
  let partial := download_file (so_sha256 o) "partial" in
  if negb (path_exists partial (aw_disk w)) || (held_bytes partial w <? so_bytes o)
  then download (so_url o) partial (so_bytes o) true w
  else sret tt w.

Fixpoint fetch_objects (missing : smap Z) (from : list SourceObject) (cut : option seed_index) (indexed : bool) :
    M World unit :=
  match missing with
  | [] => sret tt
  | (sha, b) :: rest =>
      let! o := slift (λ _, with_context
        (List.find (λ o, bool_decide (so_sha256 o = sha) && (so_bytes o =? b)) from) "missing acquisition URL") in
      let! after := try_delta o cut indexed in
      let! _ := fetch_rest o in
      let! _ := promote (download_file sha "partial") {| a_bytes := b; a_sha256 := sha |} in
      fetch_objects rest from after.1 after.2
  end.
Definition fetch_missing (missing : smap Z) (from : list SourceObject) : M World unit :=
  let! _ := slift (reserve_missing missing) in
  fetch_objects missing from None true.

(** The verified store by digest. *)
Definition stored (t : tree) : tree :=
  list_to_map (omap (λ pn, (λ name, (name, pn.2)) <$> below objects pn.1) (map_to_list t)).

Definition image_of_store (image : CoreSetRef) w : result UpdateSet :=
  let? loaded := image_set envelope_parse envelope_print image (stored (aw_disk w)) keys arch in Ok loaded.1.

(** The image's set, when installing the deployment takes it: its envelope, then
    what it names. *)
Definition fetch_image_set (x : Deployment) (from : list SourceObject) : M World unit :=
  let! newer := slift (λ w, newer_image_set envelope_parse envelope_print x keys arch (dv_sets (aw_device w))) in
  match newer with
  | None => sret tt
  | Some image =>
      let! m := slift (absent_of [(cs_sha256 image, cs_bytes image)]) in
      let! _ := fetch_missing m from in
      let! s := slift (image_of_store image) in
      let! m := slift (set_missing s) in
      fetch_missing m from
  end.

Definition fetch (selected : SelectedRelease) : M World ReadyDeployment :=
  let x := sr_deployment selected in
  let! _ := slift (validate x) in
  let! _ := prepare in
  let! m := slift (missing x) in
  let! _ := fetch_missing m (sr_objects selected) in
  let! _ := fetch_image_set x (sr_objects selected) in
  ready (str_bytes (sr_envelope selected)) x.

Definition set_fetch (selected : SelectedSet) : M World ReadySet :=
  let s := ss_set selected in
  let! _ := slift (set_validate s) in
  let! _ := prepare in
  let! m := slift (set_missing s) in
  let! _ := fetch_missing m (ss_objects selected) in
  set_ready (str_bytes (ss_envelope selected)) s.

(** * Archives *)

(** The bytes of one object: into its partial file, when it is to be written, in
    whole reads of 64 KiB until they run out. *)
Definition take_content (partial : string) (write : bool) (size : Z) (input : bytes) : M World (bytes * bytes) := λ w,
  match read_exact size input with
  | Ok (data, rest) =>
      if write then (let! _ := append partial data in sret (data, rest)) w else sret (data, rest) w
  | Err e =>
      if write then (let! _ := append partial (take (Z.to_nat (len input / 65536 * 65536)) input) in slift (λ _, Err e)) w
      else slift (λ _, Err e) w
  end.

(** Whether an object is written, and what is taken beyond what was required. *)
Definition admit_object (sha : string) (size : Z) (required missing : smap Z) (extras : bool) (seen : gset string)
    (taken : smap Z) w : result (bool * smap Z) :=
  let extra := negb (bool_decide (smap_get sha required = Some size)) in
  ensure bool_decide (sha ∉ seen)
         && (negb extra || (extras && sha256_hex sha && (0 <? size) && bool_decide (smap_get sha missing = None)))
    else "unlisted, duplicate or wrong-sized archive object" in
  if extra then
    let there := path_exists (object sha) (aw_disk w)
                 && is_ok (verify_file (aw_disk w) (object sha) {| a_bytes := size; a_sha256 := sha |}) in
    if there then Ok (false, taken)
    else let? _ := reserve size w in Ok (true, smap_insert sha size taken)
  else Ok (bool_decide (is_Some (smap_get sha missing)), taken).

(** A fresh partial file. *)
Definition fresh_partial (partial : string) : M World unit := λ w,
  match aw_disk w !! partial with
  | None => create_fresh partial w
  | Some (Regular _) => (let! _ := remove partial in create_fresh partial) w
  | Some _ => slift (λ _, Err (Msg "invalid partial object")) w
  end.

(** One object of an archive. *)
Definition import_object (required missing : smap Z) (extras : bool) (seen : gset string) (taken : smap Z) (input : bytes) :
    M World (string * smap Z * bytes) :=
  let! name := slift (λ _, read_exact 64 input) in
  ensure! valid_utf8 name.1 else "invalid utf-8 sequence" in
  let sha := bytes_str name.1 in
  let! size := slift (λ _, read_exact 8 name.2) in
  let n := from_be size.1 in
  let! admitted := slift (admit_object sha n required missing extras seen taken) in
  let partial := download_file sha "partial" in
  let! _ := (if admitted.1 then fresh_partial partial else sret tt) in
  let! content := take_content partial admitted.1 n size.2 in
  ensure! bool_decide (sha256 content.1 = sha) else "archive object digest mismatch" in
  let! _ := (if admitted.1 then
               let! _ := sync_all partial in promote partial {| a_bytes := n; a_sha256 := sha |}
             else sret tt) in
  sret (sha, admitted.2, content.2).

Fixpoint import_each (count : nat) (required missing : smap Z) (extras : bool) (seen : gset string) (taken : smap Z)
    (input : bytes) : M World (smap Z * bytes) :=
  match count with
  | O => sret (taken, input)
  | S count' =>
      let! one := import_object required missing extras seen taken input in
      let '(sha, taken, rest) := one in
      import_each count' (smap_remove sha required) missing extras ({[sha]} ∪ seen) taken rest
  end.

Definition import_objects (input : bytes) (required missing : smap Z) (extras : bool) : M World (smap Z) :=
  let! head := slift (λ _, read_exact 4 input) in
  let count := from_be head.1 in
  ensure! (count <=? len required) || (extras && (count <=? MAX_ENTRIES))
    else "archive carries more objects than its descriptor names" in
  let! _ := slift (reserve_missing missing) in
  let! after := import_each (Z.to_nat count) required missing extras ∅ [] head.2 in
  ensure! is_nil after.2 else "trailing archive bytes" in
  sret after.1.

(** The objects taken beyond the descriptor, against the image's set. *)
Fixpoint remove_extras (l : smap Z) : M World unit :=
  match l with
  | [] => sret tt
  | (sha, _) :: rest => let! _ := ignore (remove (object sha)) in remove_extras rest
  end.
Definition named_by_set (image : CoreSetRef) w : smap Z :=
  match image_of_store image w with
  | Ok s => foldl (λ m a, smap_insert (a_sha256 a) (a_bytes a) m) [] (set_artifacts s)
  | Err _ => []
  end.
Definition check_extras (image : CoreSetRef) (extras : smap Z) : M World unit := λ w,
  if forallb (λ '(sha, b), bool_decide (smap_get sha (named_by_set image w) = Some b)) extras then sret tt w
  else (let! _ := remove_extras extras in
        slift (λ _, Err (Msg "archive carries objects its core set does not name"))) w.

(** What the image's set still lacks, when installing the deployment takes it. *)
Definition check_image_set (x : Deployment) w : result unit :=
  let? newer := newer_image_set envelope_parse envelope_print x keys arch (dv_sets (aw_device w)) in
  match newer with
  | None => Ok tt
  | Some image =>
      let? s := image_of_store image w in
      let? m := set_missing s w in
      ensure is_nil m else "set objects are incomplete" in Ok tt
  end.

(** What an archive's descriptor requires, its image's envelope with it. *)
Definition with_image (image : option CoreSetRef) (required : smap Z) : result (smap Z) :=
  match image with
  | None => Ok required
  | Some image =>
      match smap_get (cs_sha256 image) required with
      | Some b => ensure b =? cs_bytes image else "conflicting object lengths" in Ok required
      | None => Ok (smap_insert (cs_sha256 image) (cs_bytes image) required)
      end
  end.
Definition with_absent_image (image : option CoreSetRef) (m : smap Z) w : result (smap Z) :=
  match image with
  | None => Ok m
  | Some image =>
      let? l := absent_of [(cs_sha256 image, cs_bytes image)] w in
      Ok (foldl (λ m '(sha, b), smap_insert sha b m) m l)
  end.

Definition import_descriptor (envelope input : bytes) : M World ReadyDeployment :=
  let! x := slift (λ _, authenticate_deployment envelope_parse envelope_print envelope keys) in
  let! _ := slift (validate x) in
  let! required := slift (λ _, artifacts x) in
  let! _ := prepare in
  let! m := slift (missing x) in
  let! m := slift (with_absent_image (d_core_set x) m) in
  let! required := slift (λ _, with_image (d_core_set x) required) in
  let! extras := import_objects input required m (bool_decide (is_Some (d_core_set x))) in
  let! _ := match d_core_set x with
            | Some image => let! _ := check_extras image extras in slift (check_image_set x)
            | None => sret tt
            end in
  ready envelope x.

(** An archive's envelope, after its magic. *)
Definition archive_envelope (limit : Z) (input : bytes) : result (bytes * bytes) :=
  let? magic := read_exact 8 input in
  ensure bool_decide (magic.1 = str_bytes "MICAUPD1") else "invalid component archive" in
  let? head := read_exact 4 magic.2 in
  let length := from_be head.1 in
  ensure (0 <? length) && (length <=? limit) else "archive descriptor exceeds bound" in
  read_exact length head.2.

Definition import (input : bytes) : M World ReadyDeployment :=
  let! read := slift (λ _, archive_envelope 24576 input) in
  import_descriptor read.1 read.2.

(** The schema an envelope's payload names, nothing of it authenticated. *)
Definition payload_schema (envelope : bytes) : option string :=
  outer ← json_parse envelope;
  text ← json_text (json_field "payload" outer);
  payload ← base64_decode text;
  inner ← json_parse payload;
  json_text (json_field "schema" inner).

Definition import_any (input : bytes) : M World Imported :=
  let! read := slift (λ _, archive_envelope MAX_SET_ENVELOPE input) in
  let '(envelope, rest) := read in
  if bool_decide (payload_schema envelope = Some "mica/set/v1") then
    let! s := slift (λ _, authenticate envelope_parse envelope_print envelope keys) in
    let! _ := slift (set_validate s) in
    let! required := slift (λ _, add_artifacts (set_artifacts s) []) in
    let! _ := prepare in
    let! m := slift (set_missing s) in
    let! _ := import_objects rest required m false in
    let! r := set_ready envelope s in
    sret (ImportedSet r)
  else
    ensure! len envelope <=? 24576 else "archive descriptor exceeds bound" in
    let! r := import_descriptor envelope rest in
    sret (ImportedDeployment r).

(** * Commands *)

(** What [mica-deploy] and [micad] ask of acquisition. *)
Inductive Command :=
| Probe
| Discard
| Check (source : string)
| SetCheck (kind : SetKind) (source channel : string) (target : SetTarget)
| Fetch (selected : SelectedRelease)
| SetFetch (selected : SelectedSet)
| ImportDeployment (archive : bytes)
| ImportAny (archive : bytes).

Definition forget {B} (m : M World B) : M World unit := let! _ := m in sret tt.
Definition run_command (c : Command) : M World unit :=
  match c with
  | Probe => probe
  | Discard => forget discard
  | Check source => forget (check source)
  | SetCheck kind source channel target => forget (set_check kind source channel target)
  | Fetch selected => forget (fetch selected)
  | SetFetch selected => forget (set_fetch selected)
  | ImportDeployment archive => forget (import archive)
  | ImportAny archive => forget (import_any archive)
  end.

(** The life of a workspace: commands run to their end, well or not; a command
    cut short by a loss of power, after which everything there is is flushed; and
    whatever else changes the device between them. *)
Inductive history (w0 : World) : World → Prop :=
| history_start : history w0 w0
| history_command w c : history w0 w → history w0 (o_state (run_command c w))
| history_cut w c w' t n :
    history w0 w → durable (run_command c w) w' → after_cut w' t →
    history w0 {| aw_device := aw_device w'; aw_disk := t; aw_dirty := ∅; aw_calls := n |}
| history_device w d : history w0 w → history w0 (set_device d w).

End acquisition.

(** * The verified store *)

Section laws.
Context {UL : UrlLib} {CR : Crypto} {JS : Json} {CD : Codec Deployment} {CS : Codec UpdateSet} {CC : Codec CatalogCheckpoint}
  {CM : Codec Manifest} {CRel : Codec ReleaseDocument} {CSet : Codec SetReleaseDocument}
  {A U : Type} {HR : Records (A + U)} {UD : UbiDevice U}
  (envelope_parse : bytes → option Envelope) (envelope_print : Envelope → bytes).
#[local] Notation World := (World (A + U)).
#[local] Notation device := (device (A + U)).
Context (wire : nat → Wire) (statvfs : tree → result Space) (reserves : Reserves)
  (system esp : string) (volume_path : Volume → string) (opened : World → tree).
Context (root : string) (keys : list key) (board arch product : string) (max_bytes : option Z).
Implicit Types (w : World) (x : Deployment) (s : UpdateSet).
#[local] Notation object := (object root).
#[local] Notation at_root := (at_root root).
#[local] Notation download_file := (download_file root).

(** SHA-256 as hex is 64 lower-case hex digits. *)
Hypothesis sha256_hex_id : ∀ b, hex_id (sha256 b) = true.

(** Every object is a file whose digest is its name. *)
Definition sound_store (t : tree) : Prop :=
  ∀ name n, t !! object name = Some n → ∃ b, n = Regular b ∧ sha256 b = name.

(** A path that is not below the verified directory. *)
Definition outside (p : string) : Prop := ∀ rest, p ≠ at_root ("verified/" +:+ rest).

(** The store is sound, and nothing of the verified directory is unflushed. *)
Definition inv w : Prop := sound_store (aw_disk w) ∧ ∀ p, p ∈ aw_dirty w → outside p.

(** ** Paths *)

Lemma at_root_inj a b : at_root a = at_root b → a = b.
Proof. intros H%append_cut. by injection H. Qed.

Lemma object_path name : object name = at_root ("verified/" +:+ "objects/" +:+ name).
Proof. unfold Acquire.object, objects, Acquire.at_root. by rewrite !append_assoc. Qed.

Lemma outside_object p name : outside p → object name ≠ p.
Proof. intros H E. rewrite object_path in E. by apply (H ("objects/" +:+ name)). Qed.

Lemma outside_download sha ext : outside (download_file sha ext).
Proof. intros rest H%at_root_inj. discriminate H. Qed.

(** A file of the verified directory itself. *)
Definition vfile (f : string) : string := at_root ("verified/" +:+ f).

Lemma vfile_object f name : slash_free f → object name ≠ vfile f.
Proof.
  intros Hf E. rewrite object_path in E. apply at_root_inj, append_cut in E. unfold slash_free in Hf. rewrite <- E in Hf.
  rewrite contains_byte_app in Hf. done.
Qed.

Lemma with_extension_dir dir f ext :
  slash_free f → ∃ stem, slash_free stem ∧ with_extension (dir +:+ "/" +:+ f) ext = dir +:+ "/" +:+ stem +:+ "." +:+ ext.
Proof.
  intros Hf. unfold with_extension. change (dir +:+ "/" +:+ f) with (dir +:+ String "/" f).
  rewrite (proj2 (rsplit_once_spec "/" (dir +:+ String "/" f) dir f) (conj eq_refl Hf)).
  destruct (rsplit_once "." f) as [[a b]|] eqn:E.
  - apply rsplit_once_spec in E as [-> _]. destruct (is_empty a).
    + exists (a +:+ String "." b). split; [done|]. by rewrite append_assoc.
    + exists a. split; [|by rewrite append_assoc]. unfold slash_free in *. rewrite contains_byte_app in Hf.
      by apply orb_false_iff in Hf as [Hf _].
  - exists f. split; [done|]. by rewrite append_assoc.
Qed.

Lemma vfile_pending f :
  slash_free f → ∃ f', slash_free f' ∧ with_extension (vfile f) "pending" = vfile f'.
Proof.
  intros Hf. destruct (with_extension_dir (root +:+ "/verified") f "pending" Hf) as (stem & Hs & E).
  exists (stem +:+ ".pending"). split; [unfold slash_free in *; by rewrite contains_byte_app, Hs|].
  assert (Hv : ∀ g, vfile g = (root +:+ "/verified") +:+ "/" +:+ g) by (intros g; unfold vfile, Acquire.at_root; by rewrite append_assoc).
  by rewrite !Hv, E.
Qed.

(** ** What keeps the store sound *)

Definition keeps {B} (m : M World B) : Prop := ∀ w, inv w → safe (m w) (λ _ w', inv w') inv.

Lemma keeps_bind {B C} (m : M World B) (k : B → M World C) : keeps m → (∀ b, keeps (k b)) → keeps (sbind m k).
Proof. intros Hm Hk w Hw. apply safe_bind with (R := λ _ w', inv w'); [by apply Hm|]. intros b w' Hb _. by apply Hk. Qed.
Lemma keeps_lift {B} (f : World → result B) : keeps (slift f).
Proof. intros w Hw. by apply safe_lift. Qed.
Lemma keeps_ret {B} (b : B) : keeps (sret b).
Proof. intros w Hw. by apply safe_ret. Qed.
Lemma keeps_stry {B} (m : M World B) : keeps m → keeps (stry m).
Proof.
  intros Hm w Hw. destruct (Hm w Hw) as (_ & H2 & H3). unfold stry. split; [|split; [exact H2|exact H3]].
  cbn. by intros _ [= <-].
Qed.

Lemma inv_set_calls n w : inv w → inv (set_calls n w).
Proof. done. Qed.

(** A change of one path outside the verified directory, flushed or not. *)
Lemma sound_alter t p o : sound_store t → outside p → sound_store (partial_alter (λ _, o) p t).
Proof.
  intros Ht Hp name n. rewrite lookup_partial_alter_ne; [apply Ht|]. apply not_eq_sym. by apply outside_object.
Qed.
Lemma inv_with_file p b w : inv w → outside p → inv (with_file p b w).
Proof.
  intros [H1 H2] Hp. split; [by apply (sound_alter _ p (Some (Regular b)))|]. cbn.
  intros q [->%elem_of_singleton|Hq]%elem_of_union; [done|by apply H2].
Qed.

Lemma keeps_write_file p b : outside p → keeps (write_file p b).
Proof.
  intros Hp w Hw. split; [intros [] _; by apply inv_with_file|]. split; [by apply inv_with_file|].
  intros w' [->|(c & ->)]; [done|by apply inv_with_file].
Qed.
Lemma keeps_create p : outside p → keeps (create p).
Proof.
  intros Hp w Hw. unfold create. pose proof (inv_with_file p [] w Hw Hp).
  destruct (aw_disk w !! p) as [[c| |]|]; (by apply safe_write) || by apply safe_lift.
Qed.
Lemma keeps_create_fresh p : outside p → keeps (create_fresh p).
Proof.
  intros Hp w Hw. unfold create_fresh. pose proof (inv_with_file p [] w Hw Hp).
  destruct (aw_disk w !! p); (by apply safe_write) || by apply safe_lift.
Qed.
Lemma keeps_append p b : outside p → keeps (append p b).
Proof.
  intros Hp w Hw. unfold append. destruct (aw_disk w !! p) as [[c| |]|]; [by apply keeps_write_file|by apply safe_lift..].
Qed.
Lemma keeps_sync p : keeps (sync_all p).
Proof.
  intros w Hw. assert (H : inv (set_dirty (aw_dirty w ∖ {[p]}) w)).
  { split; [apply Hw|]. cbn. intros q [Hq _]%elem_of_difference. by apply Hw. }
  by apply safe_write.
Qed.
Lemma keeps_rename p q : outside p → outside q → keeps (rename_file p q).
Proof.
  intros Hp Hq w Hw. unfold rename_file. destruct (aw_disk w !! p) as [n|]; [|by apply safe_lift].
  assert (H : inv (set_dirty (if bool_decide (p ∈ aw_dirty w) then {[q]} ∪ aw_dirty w ∖ {[p]} else aw_dirty w ∖ {[q]})
                     (set_disk (<[q := n]> (delete p (aw_disk w))) w))).
  { split.
    - apply (sound_alter _ q (Some n)); [|done]. apply (sound_alter _ p None); [apply Hw|done].
    - cbn. intros r Hr. destruct Hw as [_ Hd]. case_bool_decide; [|by apply elem_of_difference in Hr as [Hr _]; apply Hd].
      apply elem_of_union in Hr as [->%elem_of_singleton|[Hr _]%elem_of_difference]; [done|by apply Hd]. }
  destruct (aw_disk w !! q) as [[c| |]|]; (by apply safe_write) || by apply safe_lift.
Qed.

Lemma sound_delete t p : sound_store t → sound_store (delete p t).
Proof. intros Ht name n [_ Hn]%lookup_delete_Some. by apply Ht. Qed.

Lemma keeps_remove p : keeps (remove p).
Proof.
  intros w Hw. apply safe_zoom. eapply safe_mono; [apply remove_file_safe| |].
  - intros [] t ->. split; [apply sound_delete|]; apply Hw.
  - intros t [->| ->]; [by destruct w|]. split; [apply sound_delete|]; apply Hw.
Qed.

Lemma ancestors_len path p : p ∈ ancestors path → str_len p ≤ str_len path.
Proof.
  unfold ancestors. destruct (is_empty path); [by intros ?%elem_of_nil|]. intros H%ancestors_from_len.
  cbn [is_empty] in H. rewrite split_parts_len in H. change (str_len "") with 0 in H. lia.
Qed.

Lemma object_len name : str_len (at_root "verified/objects") < str_len (object name).
Proof.
  assert (H : object name = at_root "verified/objects" +:+ "/" +:+ name) by done.
  rewrite H, (str_len_app _ ("/" +:+ name)), (str_len_app "/" name). change (str_len "/") with 1.
  pose proof (str_len_nonneg name). lia.
Qed.

Lemma keeps_directory path : str_len path ≤ str_len (at_root "verified/objects") → keeps (on_disk (directory path)).
Proof.
  intros Hl w Hw. apply safe_zoom.
  assert (H : ∀ t, with_dirs (ancestors path) (aw_disk w) t → inv (set_disk t w)).
  { intros t Ht. split; [|apply Hw]. intros name n Hn. destruct (Ht (object name)) as [E|(Hin & _)].
    - cbn in Hn. rewrite E in Hn. by apply Hw in Hn.
    - apply ancestors_len in Hin. pose proof (object_len name). lia. }
  eapply safe_mono; [exact (make_dirs_safe (ancestors path) (ancestors path) (aw_disk w) (aw_disk w) (reflexivity _) (with_dirs_refl _ _))| |];
    intros; by apply H.
Qed.

Lemma keeps_atomic_write path b :
  not_pending path → (∀ name, object name ≠ path) → (∀ name, object name ≠ with_extension path "pending") →
  keeps (on_disk (atomic_write path b)).
Proof.
  intros Hp H1 H2 w Hw. apply safe_zoom.
  assert (H : ∀ t, replacing path (with_extension path "pending") b (aw_disk w) t → inv (set_disk t w)).
  { intros t [_ Ht]. split; [|apply Hw]. intros name n Hn. cbn in Hn. rewrite Ht in Hn by done. by apply Hw in Hn. }
  destruct (atomic_write_safe path b (aw_disk w) Hp) as (K1 & K2 & K3). split; [|split].
  - intros u Hu. by apply H.
  - by apply H.
  - intros t Ht. by apply H, K3.
Qed.

Lemma keeps_device {B} (m : M device B) : keeps (on_device m).
Proof. intros w Hw. apply safe_zoom. split; [|split]; intros; exact Hw. Qed.

(** A promotion: what is moved is flushed, and of the digest it is named by. *)
Lemma keeps_promote partial a : outside partial → keeps (promote root partial a).
Proof.
  intros Hp w Hw. unfold promote. destruct (verify_file (aw_disk w) partial a) as [[]|e] eqn:E.
  - apply verify_file_ok in E as (n & Hn & b & -> & Hl & Hs).
    assert (H1 : inv (set_dirty (aw_dirty w ∖ {[partial]}) w)).
    { split; [apply Hw|]. cbn. intros q [Hq _]%elem_of_difference. by apply Hw. }
    apply safe_step with (R := λ _ w', w' = set_dirty (aw_dirty w ∖ {[partial]}) w) (C' := inv); [by apply safe_write|done|].
    intros [] w' ->. unfold rename_file. cbn [aw_disk set_dirty]. rewrite Hn.
    assert (H : inv (set_dirty (if bool_decide (partial ∈ aw_dirty w ∖ {[partial]})
                                then {[object (a_sha256 a)]} ∪ (aw_dirty w ∖ {[partial]}) ∖ {[partial]}
                                else (aw_dirty w ∖ {[partial]}) ∖ {[object (a_sha256 a)]})
                       (set_disk (<[object (a_sha256 a) := Regular b]> (delete partial (aw_disk w)))
                          (set_dirty (aw_dirty w ∖ {[partial]}) w)))).
    { split.
      - intros name n Hl'. cbn in Hl'. apply lookup_insert_Some in Hl' as [[Heq <-]|[_ Hl']].
        + exists b. split; [done|]. apply append_cut in Heq. apply (append_cut "/") in Heq as <-. done.
        + by apply (sound_delete _ partial (proj1 Hw)) in Hl'.
      - rewrite bool_decide_eq_false_2 by set_solver. cbn. intros q [[Hq _]%elem_of_difference _]%elem_of_difference.
        by apply Hw. }
    destruct (aw_disk w !! object (a_sha256 a)) as [[c| |]|]; (by apply safe_write) || by apply safe_lift.
  - apply keeps_bind; [apply keeps_remove|intros; apply keeps_lift|done].
Qed.

Lemma keeps_download u target limit resume : outside target → keeps (download wire u target limit resume).
Proof.
  intros Hp w Hw. unfold download.
  assert (Hnet : ∀ held, keeps (λ w,
      match Transfer.download url_parse url_join transferable (wire_connect (wire (aw_calls w))) (wire_turns (wire (aw_calls w))) (wire_grain (wire (aw_calls w)))
              u held limit resume with
      | None => slift (λ _, Err (Msg "out of fuel")) w
      | Some (r, held') =>
          let w1 := set_calls (S (aw_calls w)) w in
          Outcome r (match held' with Some b => with_file target b w1 | None => w1 end)
            (λ w', w' = w ∨ ∃ c, w' = with_file target c w1)
      end)).
  { intros held w0 Hw0. destruct (Transfer.download _ _ _ _ _ _ _ _ _ _) as [[r held']|]; [|by apply safe_lift].
    pose proof (λ b, inv_with_file target b _ (inv_set_calls (S (aw_calls w0)) w0 Hw0) Hp) as Hf.
    assert (Hend : inv (match held' with Some b => with_file target b (set_calls (S (aw_calls w0)) w0) | None => set_calls (S (aw_calls w0)) w0 end))
      by (destruct held'; [apply Hf|done]).
    split; [done|]. split; [done|]. intros w' [->|(c & ->)]; [done|apply Hf]. }
  destruct (aw_disk w !! target) as [[c| |]|]; [by apply (Hnet (Some c))|by apply safe_lift..|by apply (Hnet None)].
Qed.

(** Every step of an operation in turn. *)
Ltac keep :=
  repeat (cbn beta iota zeta; match goal with
  | |- ∀ _, _ => intros ?
  | |- keeps (sbind _ _) => apply keeps_bind
  | |- keeps (slift _) => apply keeps_lift
  | |- keeps (sret _) => apply keeps_ret
  | |- keeps (remove _) => apply keeps_remove
  | |- keeps (sync_all _) => apply keeps_sync
  | |- keeps (on_device _) => apply keeps_device
  | |- keeps (stry _) => apply keeps_stry
  | |- keeps (ignore _) => unfold ignore
  | |- keeps (download _ _ _ _ _) => apply keeps_download
  | |- keeps (promote _ _ _) => apply keeps_promote
  | |- keeps (match ?d with _ => _ end) => destruct d
  | |- keeps _ => solve [eauto with keeps]
  | |- outside (Acquire.download_file _ _ _) => apply outside_download
  | |- _ => solve [eauto with keeps]
  end).

Ltac keep_at Hw := match goal with |- safe (?m ?w) _ _ => refine ((_ : keeps m) w Hw) end; keep.

Lemma keeps_prepare : keeps (prepare root).
Proof.
  assert (H : ∀ d, str_len d ≤ str_len "verified/objects" → str_len (at_root d) ≤ str_len (at_root "verified/objects")).
  { intros d Hd. unfold Acquire.at_root. rewrite !str_len_app. lia. }
  unfold prepare. keep; apply keeps_directory; [by apply H|done|by apply H].
Qed.

Lemma keeps_fetch_document path u limit : outside path → keeps (fetch_document wire path u limit).
Proof. intros Hp. unfold fetch_document. by keep. Qed.

Lemma keeps_fetch_chunk source sha chunk length : keeps (fetch_chunk wire root source sha chunk length).
Proof. unfold fetch_chunk. keep. Qed.
Hint Resolve keeps_prepare keeps_fetch_document keeps_fetch_chunk keeps_append keeps_create keeps_create_fresh : keeps.

Lemma keeps_assemble source sha index cut : keeps (assemble wire opened root source sha index cut).
Proof.
  induction index as [|[chunk length] index IH]; cbn [assemble]; [keep|]. apply keeps_bind.
  - destruct (cut !! chunk) as [[[path offset] held]|]; [|keep]. destruct (held =? length); keep.
  - intros b. apply keeps_bind; [apply keeps_append, outside_download|done].
Qed.

Lemma keeps_delta o cut : keeps (delta wire statvfs reserves opened root max_bytes o cut).
Proof.
  unfold delta. keep.
  - apply keeps_create, outside_download.
  - apply keeps_assemble.
  - apply keeps_rename; apply outside_download.
Qed.
Hint Resolve keeps_delta : keeps.

#[local] Notation try_delta := (try_delta envelope_parse envelope_print wire statvfs reserves system esp volume_path opened root keys max_bytes).
#[local] Notation fetch_objects := (fetch_objects envelope_parse envelope_print wire statvfs reserves system esp volume_path opened root keys max_bytes).
#[local] Notation fetch_missing := (fetch_missing envelope_parse envelope_print wire statvfs reserves system esp volume_path opened root keys max_bytes).

Lemma keeps_try_delta o cut indexed : keeps (try_delta o cut indexed).
Proof.
  intros w Hw. unfold Acquire.try_delta. destruct (_ && _); keep_at Hw.
Qed.
Lemma keeps_fetch_rest o : keeps (fetch_rest wire root o).
Proof. intros w Hw. unfold fetch_rest. destruct (_ || _); keep_at Hw. Qed.
Hint Resolve keeps_try_delta keeps_fetch_rest : keeps.

Lemma keeps_fetch_objects missing from cut indexed : keeps (fetch_objects missing from cut indexed).
Proof.
  revert cut indexed. induction missing as [|[sha b] missing IH]; intros cut indexed; cbn [Acquire.fetch_objects]; keep.
Qed.
Lemma keeps_fetch_missing missing from : keeps (fetch_missing missing from).
Proof. unfold Acquire.fetch_missing. keep. apply keeps_fetch_objects. Qed.

Lemma keeps_take_content partial write size input : outside partial → keeps (take_content partial write size input).
Proof.
  intros Hp w Hw. unfold take_content. destruct (read_exact size input) as [[data rest]|e]; destruct write; keep_at Hw.
Qed.
Lemma keeps_fresh_partial partial : outside partial → keeps (fresh_partial partial).
Proof.
  intros Hp w Hw. unfold fresh_partial. destruct (aw_disk w !! partial) as [[c| |]|]; keep_at Hw.
Qed.
Hint Resolve keeps_fetch_missing keeps_take_content keeps_fresh_partial outside_download : keeps.

Lemma keeps_import_object required missing extras seen taken input :
  keeps (import_object statvfs reserves root max_bytes required missing extras seen taken input).
Proof. unfold import_object. keep. Qed.
Lemma keeps_import_each count required missing extras seen taken input :
  keeps (import_each statvfs reserves root max_bytes count required missing extras seen taken input).
Proof.
  revert required seen taken input. induction count as [|count IH]; intros required seen taken input; cbn [import_each]; [keep|].
  apply keeps_bind; [apply keeps_import_object|]. intros [[sha taken'] rest]. apply IH.
Qed.
Lemma keeps_import_objects input required missing extras :
  keeps (import_objects statvfs reserves root max_bytes input required missing extras).
Proof. unfold import_objects. keep. apply keeps_import_each. Qed.
Hint Resolve keeps_import_objects : keeps.

Lemma keeps_remove_extras l : keeps (remove_extras root l).
Proof. induction l as [|[sha b] l IH]; cbn [remove_extras]; keep. Qed.
Hint Resolve keeps_remove_extras : keeps.
Lemma keeps_check_extras image extras : keeps (check_extras envelope_parse envelope_print root keys arch image extras).
Proof. intros w Hw. unfold check_extras. destruct (forallb _ _); keep_at Hw. Qed.
Hint Resolve keeps_check_extras : keeps.

(** ** The walk of the workspace *)

Lemma workspace_entries_spec t path depth names stack entries fs stack' entries' fs' :
  walk_entries t path depth names stack entries fs = Ok (stack', entries', fs') →
  len stack' - len stack ≤ entries' - entries ∧ entries ≤ entries' ∧ (entries' = entries ∨ entries' ≤ 4096).
Proof.
  revert stack entries fs. induction names as [|name names IH]; intros stack entries fs H; cbn [walk_entries] in H.
  { injection H as <- <- <-. split; [lia|]. split; [lia|by left]. }
  apply if_ok in H as [Hle H]. bools. destruct (is_dir _ t).
  - apply IH in H as (H1 & H2 & H3). unfold len in *. cbn [length] in *. split_and!; [lia|lia|right; lia].
  - destruct (t !! _) as [[b| |]|]; [|done..]. apply IH in H as (H1 & H2 & H3).
    split_and!; [lia|lia|right; lia].
Qed.

(** The walk always answers: the fuel is enough for every directory it may see. *)
Lemma walk_files_some fuel t stack entries fs :
  0 ≤ entries ≤ 4096 → len stack + (4096 - entries) ≤ Z.of_nat fuel → ∃ r, walk_files fuel t stack entries fs = Some r.
Proof.
  revert stack entries fs. induction fuel as [|fuel IH]; intros stack entries fs He Hf.
  - destruct stack as [|d stack]; [by eexists|]. unfold len in Hf. cbn [length] in Hf. lia.
  - destruct stack as [|[path depth] stack]; [by eexists|]. cbn [walk_files]. destruct (depth <=? 3); [|by eexists].
    destruct (walk_entries t path depth (read_dir path t) stack entries fs) as [[[stack' entries'] fs']|e] eqn:E; [|by eexists].
    pose proof (workspace_entries_spec _ _ _ _ _ _ _ _ _ _ E) as (H1 & H2 & H3). apply IH.
    + lia.
    + assert (len ((path, depth) :: stack) = len stack + 1) by (unfold len; cbn [length]; lia). lia.
Qed.

Lemma files_answer w : ∃ r, walk_files WALK_FUEL (aw_disk w) [(root, 0)] 0 [] = Some r ∧ files root w = r.
Proof.
  assert (HF : Z.of_nat WALK_FUEL = 4097) by (unfold WALK_FUEL; by rewrite Z2Nat.id).
  destruct (walk_files_some WALK_FUEL (aw_disk w) [(root, 0)] 0 []) as [r Hr]; [lia|rewrite HF; unfold len; cbn [length]; lia|].
  exists r. split; [exact Hr|]. unfold files. by rewrite Hr.
Qed.

(** ** The documents *)

Lemma hex_name the_id ext : hex_id the_id = true → slash_free ext → slash_free (the_id +:+ ext).
Proof. intros H He. unfold slash_free in *. by rewrite contains_byte_app, (hex_slash_free _ H), He. Qed.

Lemma keeps_json f b : slash_free (f +:+ ".json") → keeps (on_disk (atomic_write (vfile (f +:+ ".json")) b)).
Proof.
  intros Hf. destruct (vfile_pending _ Hf) as (f' & Hf' & E). apply keeps_atomic_write.
  - apply stable_not_pending. unfold vfile, Acquire.at_root.
    replace (root +:+ "/" +:+ "verified/" +:+ f +:+ ".json") with ((root +:+ "/" +:+ "verified/" +:+ f) +:+ ".json")
      by (by rewrite !append_assoc). apply stable_json.
  - intros name. by apply vfile_object.
  - intros name. rewrite E. by apply vfile_object.
Qed.

Lemma component_id_hex v the_id : component_id v = Ok the_id → hex_id the_id = true.
Proof. unfold component_id. destruct (json_without "id" v); [|done]. cbn. intros [= <-]. apply sha256_hex_id. Qed.

Lemma deployment_json_vfile the_id : deployment_json root the_id = vfile (the_id +:+ ".json").
Proof. done. Qed.
Lemma set_json_vfile kind the_id : set_json root kind the_id = vfile (("set-" +:+ kind_str kind +:+ "-" +:+ the_id) +:+ ".json").
Proof. unfold set_json, vfile, Acquire.at_root. by rewrite !append_assoc. Qed.

Lemma keeps_deployment_json the_id b :
  hex_id the_id = true → keeps (on_disk (atomic_write (deployment_json root the_id) b)).
Proof. intros H. rewrite deployment_json_vfile. apply keeps_json. by apply hex_name. Qed.
Lemma keeps_set_json kind s b : keeps (on_disk (atomic_write (set_json root kind (set_id s)) b)).
Proof.
  rewrite set_json_vfile. apply keeps_json. unfold slash_free. rewrite !contains_byte_app.
  rewrite (hex_slash_free (set_id s) (sha256_hex_id _)). by destruct kind.
Qed.

Lemma keeps_ready envelope x : keeps (ready root envelope x).
Proof.
  intros w Hw. unfold ready. apply safe_read; [done|]. intros m _. apply safe_ensure; [done|]. intros _.
  apply safe_read; [done|]. intros the_id H%component_id_hex. keep_at Hw. by apply keeps_deployment_json.
Qed.
Lemma keeps_set_ready envelope s : keeps (set_ready root envelope s).
Proof. unfold set_ready. keep. apply keeps_set_json. Qed.
Hint Resolve keeps_ready keeps_set_ready : keeps.

Lemma keeps_probe_write b : keeps (on_disk (atomic_write (at_root "staging/probe") b)).
Proof.
  assert (Hout : ∀ f, outside (at_root ("staging/" +:+ f))) by (intros f rest H%at_root_inj; discriminate H).
  assert (Hs : at_root "staging/probe" = (root +:+ "/staging") +:+ "/" +:+ "probe").
  { unfold Acquire.at_root. by rewrite append_assoc. }
  destruct (with_extension_dir (root +:+ "/staging") "probe" "pending") as (stem & _ & E); [done|].
  assert (Hp : with_extension (at_root "staging/probe") "pending" = at_root ("staging/" +:+ stem +:+ ".pending")).
  { rewrite Hs, E. unfold Acquire.at_root. by rewrite append_assoc. }
  apply keeps_atomic_write.
  - apply stable_not_pending. unfold stable, Acquire.at_root. change (root +:+ "/" +:+ "staging/probe") with (root +:+ "/staging/probe").
    split; rewrite ends_with_app by (cbn; lia); done.
  - intros name. apply outside_object. apply (Hout "probe").
  - intros name. rewrite Hp. apply outside_object. apply Hout.
Qed.

(** ** The operations *)

Lemma keeps_verify_catalog (get : url → Z → M World bytes) ks rq :
  (∀ u l, keeps (get u l)) → keeps (verify_catalog envelope_parse envelope_print get ks rq).
Proof. intros H. unfold verify_catalog, read_manifest. keep. Qed.
Lemma keeps_verify_set_catalog (get : url → Z → M World bytes) ks rq :
  (∀ u l, keeps (get u l)) → keeps (verify_set_catalog envelope_parse envelope_print get ks rq).
Proof. intros H. unfold verify_set_catalog, read_manifest. keep. Qed.

Lemma keeps_staged u l : keeps (fetch_document wire (at_root "staging/catalog.partial") u l).
Proof. apply keeps_fetch_document. intros rest H%at_root_inj. discriminate H. Qed.

Lemma keeps_check source :
  keeps (check envelope_parse envelope_print wire statvfs reserves root keys board arch product max_bytes source).
Proof. unfold check, save_checkpoint. keep. apply keeps_verify_catalog, keeps_staged. Qed.
Lemma keeps_set_check kind source channel target :
  keeps (set_check envelope_parse envelope_print wire statvfs reserves root keys arch max_bytes kind source channel target).
Proof. unfold set_check, save_checkpoint. keep. apply keeps_verify_set_catalog, keeps_staged. Qed.

Lemma keeps_fetch_image_set x from :
  keeps (fetch_image_set envelope_parse envelope_print wire statvfs reserves system esp volume_path opened root keys arch max_bytes x from).
Proof. unfold fetch_image_set. keep. Qed.
Hint Resolve keeps_fetch_image_set : keeps.
Lemma keeps_fetch selected :
  keeps (fetch envelope_parse envelope_print wire statvfs reserves system esp volume_path opened root keys board arch product
           max_bytes selected).
Proof. unfold fetch. keep. Qed.
Lemma keeps_set_fetch selected :
  keeps (set_fetch envelope_parse envelope_print wire statvfs reserves system esp volume_path opened root keys arch max_bytes selected).
Proof. unfold set_fetch. keep. Qed.
Lemma keeps_import_descriptor envelope input :
  keeps (import_descriptor envelope_parse envelope_print statvfs reserves root keys board arch product max_bytes envelope input).
Proof. unfold import_descriptor. keep. Qed.
Hint Resolve keeps_import_descriptor : keeps.
Lemma keeps_import_any input :
  keeps (import_any envelope_parse envelope_print statvfs reserves root keys board arch product max_bytes input).
Proof. unfold import_any. keep. Qed.
Lemma keeps_import input :
  keeps (import envelope_parse envelope_print statvfs reserves root keys board arch product max_bytes input).
Proof. unfold import. keep. Qed.

Lemma keeps_remove_all l : keeps (remove_all l).
Proof. induction l as [|p l IH]; cbn [remove_all]; keep. Qed.
Hint Resolve keeps_remove_all : keeps.
Lemma keeps_discard : keeps (discard root).
Proof. unfold discard. keep. Qed.
Lemma keeps_probe : keeps (probe statvfs reserves root max_bytes).
Proof. unfold probe. keep. apply keeps_probe_write. Qed.

#[local] Notation run_command := (run_command envelope_parse envelope_print wire statvfs reserves system esp volume_path
  opened root keys board arch product max_bytes).
Lemma keeps_command c : keeps (run_command c).
Proof.
  assert (Hf : ∀ B (m : M World B), keeps m → keeps (forget m)) by (intros B m Hm; unfold forget; keep; done).
  destruct c; cbn [Acquire.run_command]; [apply keeps_probe|apply Hf..];
    [apply keeps_discard|apply keeps_check|apply keeps_set_check|apply keeps_fetch|apply keeps_set_fetch|apply keeps_import
    |apply keeps_import_any].
Qed.

Lemma inv_after_cut w t n :
  inv w → after_cut w t → inv {| aw_device := aw_device w; aw_disk := t; aw_dirty := ∅; aw_calls := n |}.
Proof.
  intros [H1 H2] Ht. split; [|done]. intros name m Hm. cbn in Hm. rewrite Ht in Hm; [by apply H1|].
  intros Hd%H2. by apply (outside_object _ name) in Hd.
Qed.

(** ** What is ready is complete *)

(** An object is installed and verified, or in the verified store. *)
Definition obtained (d : device) (t : tree) (pa : Place * Artifact) : Prop :=
  (held pa.1 d = Ok true ∧ verify_held pa.1 pa.2 d = Ok tt)
  ∨ ∃ n, t !! object (a_sha256 pa.2) = Some n ∧ is_artifact pa.2 n.

(** A deployment left ready, surviving a power cut: its descriptor, and every
    object it names. *)
Definition complete (envelope : bytes) x (r : ReadyDeployment) w : Prop :=
  component_id (to_value x) = Ok (rdy_id r) ∧ rdy_path r = deployment_json root (rdy_id r)
  ∧ rdy_version r = d_version x ∧ rdy_generation r = d_generation x
  ∧ ∀ t, after_cut w t →
      t !! rdy_path r = Some (Regular envelope) ∧ Forall (obtained (aw_device w) t) (object_paths (aw_device w) x).

Lemma absent_of_nil (l : smap Z) w :
  absent_of root l w = Ok [] →
  ∀ sha b, (sha, b) ∈ l → ∃ n, aw_disk w !! object sha = Some n ∧ is_artifact {| a_bytes := b; a_sha256 := sha |} n.
Proof.
  induction l as [|[sha b] l IH]; cbn [absent_of]; intros H k v Hin; [by apply elem_of_nil in Hin|].
  destruct (path_exists _ _); [|by destruct (absent_of root l w)].
  apply rbind_unit in H as [Hv H]. apply verify_file_ok in Hv. apply elem_of_cons in Hin as [[= -> ->]|Hin]; [exact Hv|by apply IH].
Qed.

Lemma not_held_spec places (d : device) acc m :
  not_held places d acc = Ok m →
  (∀ k b, smap_get k m = Some b → smap_get k acc = Some b ∨ ∃ pa, pa ∈ places ∧ a_sha256 pa.2 = k ∧ a_bytes pa.2 = b)
  ∧ (∀ k, is_Some (smap_get k acc) → is_Some (smap_get k m))
  ∧ ∀ pa, pa ∈ places →
      (held pa.1 d = Ok true ∧ verify_held pa.1 pa.2 d = Ok tt) ∨ is_Some (smap_get (a_sha256 pa.2) m).
Proof.
  revert acc. induction places as [|[place a] places IH]; intros acc H; cbn [not_held] in H.
  { injection H as <-. split; [by left|]. split; [done|]. by intros pa ?%elem_of_nil. }
  apply rbind_ok in H as (there & Hheld & H). destruct there.
  - apply rbind_unit in H as [Hv H]. destruct (IH _ H) as (H1 & H2 & H3). split; [|split; [done|]].
    + intros k b Hk. destruct (H1 k b Hk) as [?|(pa & Hin & ? & ?)]; [by left|right; exists pa; split; [by right|done]].
    + intros pa [->|Hin]%elem_of_cons; [left; by split|by apply H3].
  - destruct (IH _ H) as (H1 & H2 & H3).
    assert (Hs : ∀ k, smap_get k (smap_insert (a_sha256 a) (a_bytes a) acc) = if bool_decide (a_sha256 a = k) then Some (a_bytes a) else smap_get k acc)
      by (intros k; apply smap_get_insert).
    split; [|split].
    + intros k b Hk. destruct (H1 k b Hk) as [Hk'|(pa & Hin & ? & ?)]; [|right; exists pa; split; [by right|done]].
      rewrite Hs in Hk'. case_bool_decide; [|by left]. injection Hk' as <-. right. exists (place, a). split; [by left|done].
    + intros k Hk. apply H2. rewrite Hs. by case_bool_decide.
    + intros pa [->|Hin]%elem_of_cons; [|by apply H3]. right. apply H2. rewrite Hs. cbn. by rewrite bool_decide_eq_true_2.
Qed.

Lemma object_paths_artifacts (d : device) x pa : pa ∈ object_paths d x → pa.2 ∈ deployment_artifacts x.
Proof.
  unfold object_paths, deployment_artifacts. rewrite !elem_of_cons, elem_of_nil.
  intros [->|[->|[->|[->|[->|[]]]]]]; cbn; set_solver.
Qed.

Lemma missing_nil x w :
  missing root x w = Ok [] → Forall (obtained (aw_device w) (aw_disk w)) (object_paths (aw_device w) x).
Proof.
  unfold missing. intros H. apply rbind_ok in H as (all & Hall & H). apply rbind_ok in H as (m & Hm & H).
  destruct (add_artifacts_spec _ [] _ (Sorted.SSorted_nil _) Hall) as [_ Hget].
  destruct (not_held_spec _ _ _ _ Hm) as (H1 & _ & H3). apply Forall_forall. intros pa Hin.
  destruct (H3 pa Hin) as [?|[b Hb]]; [by left|]. right.
  assert (Hsame : b = a_bytes pa.2).
  { destruct (H1 _ _ Hb) as [?|(pa' & Hin' & Hk & Hb')]; [done|].
    assert (E1 : smap_get (a_sha256 pa.2) all = Some b) by (apply Hget; right; exists pa'.2; split; [by eapply object_paths_artifacts|done]).
    assert (E2 : smap_get (a_sha256 pa.2) all = Some (a_bytes pa.2)) by (apply Hget; right; exists pa.2; split; [by eapply object_paths_artifacts|done]).
    congruence. }
  destruct (absent_of_nil _ _ H _ _ (smap_get_in _ _ _ Hb)) as (n & Hn & Ha). exists n. split; [exact Hn|].
  by rewrite Hsame in Ha.
Qed.

Lemma ready_complete envelope x w : inv w → safe (ready root envelope x w) (λ r w', complete envelope x r w') inv.
Proof.
  intros Hw. unfold ready. apply safe_read; [done|]. intros m Hm. apply safe_ensure; [done|]. intros Hnil.
  destruct m; [|done]. apply missing_nil in Hm. apply safe_read; [done|]. intros the_id Hid.
  pose proof (component_id_hex _ _ Hid) as Hhex. rewrite deployment_json_vfile.
  assert (Hfree : slash_free (the_id +:+ ".json")) by by apply hex_name.
  destruct (vfile_pending (the_id +:+ ".json") Hfree) as (f' & Hf' & Hp).
  assert (Hnp : not_pending (vfile (the_id +:+ ".json"))).
  { apply stable_not_pending. unfold vfile, Acquire.at_root.
    replace (root +:+ "/" +:+ "verified/" +:+ the_id +:+ ".json") with ((root +:+ "/" +:+ "verified/" +:+ the_id) +:+ ".json")
      by (by rewrite !append_assoc). apply stable_json. }
  apply safe_bind with (R := λ _ w', aw_disk w' !! vfile (the_id +:+ ".json") = Some (Regular envelope)
     ∧ aw_device w' = aw_device w ∧ ∀ name, aw_disk w' !! object name = aw_disk w !! object name).
  - destruct (keeps_deployment_json the_id envelope Hhex w Hw) as (_ & K2 & K3). split; [|split; [exact K2|exact K3]].
    intros [] Hr. destruct (atomic_write_safe (vfile (the_id +:+ ".json")) envelope (aw_disk w) Hnp) as (L1 & [_ L2] & _).
    split; [exact (proj1 (L1 tt Hr))|]. split; [done|]. intros name. apply L2; [by apply vfile_object|].
    rewrite Hp. by apply vfile_object.
  - intros [] w' (Hfile & Hdev & Hobj) Hinv. apply safe_ret; [done|]. split_and!; [done|done|done|done|].
    intros t Ht. cbn [rdy_path]. split.
    + rewrite Ht; [done|]. intros Hd. by apply (proj2 Hinv _ Hd (the_id +:+ ".json")).
    + rewrite Hdev. eapply Forall_impl; [exact Hm|]. intros pa [?|(n & Hn & Ha)]; [by left|right]. exists n. split; [|done].
      rewrite Ht, Hobj; [done|]. intros Hd%(proj2 Hinv). by apply (outside_object _ (a_sha256 pa.2)) in Hd.
Qed.

#[local] Notation fetch := (fetch envelope_parse envelope_print wire statvfs reserves system esp volume_path
  opened root keys board arch product max_bytes).
#[local] Notation import := (import envelope_parse envelope_print statvfs reserves root keys board arch product max_bytes).

Lemma fetch_safe selected w :
  inv w →
  safe (fetch selected w) (λ r w', complete (str_bytes (sr_envelope selected)) (sr_deployment selected) r w') inv.
Proof.
  intros Hw. unfold Acquire.fetch.
  apply safe_read; [done|]. intros _ _. eapply safe_bind; [by apply keeps_prepare|]. intros _ w1 _ H1.
  apply safe_read; [done|]. intros m _. eapply safe_bind; [by apply keeps_fetch_missing|]. intros _ w2 _ H2.
  eapply safe_bind; [by apply keeps_fetch_image_set|]. intros _ w3 _ H3. by apply ready_complete.
Qed.

Lemma import_safe input w :
  inv w →
  safe (import input w)
    (λ r w', ∃ envelope rest x, archive_envelope 24576 input = Ok (envelope, rest)
       ∧ authenticate_deployment envelope_parse envelope_print envelope keys = Ok x ∧ complete envelope x r w') inv.
Proof.
  intros Hw. unfold Acquire.import. apply safe_read; [done|]. intros [envelope rest] Hread. cbn [fst snd].
  unfold import_descriptor. apply safe_read; [done|]. intros x Hx. apply safe_read; [done|]. intros _ _.
  apply safe_read; [done|]. intros required _. eapply safe_bind; [by apply keeps_prepare|]. intros _ w1 _ H1.
  apply safe_read; [done|]. intros m _. apply safe_read; [done|]. intros m' _. apply safe_read; [done|]. intros required' _.
  eapply safe_bind; [by apply keeps_import_objects|]. intros extras w2 _ H2.
  eapply safe_bind with (R := λ _ w', inv w').
  { destruct (d_core_set x) as [image|]; [|by apply safe_ret]. keep_at H2. }
  intros _ w3 _ H3. eapply safe_mono; [by apply ready_complete| |done]. intros r w' Hc. by exists envelope, rest, x.
Qed.

End laws.

(** * Properties *)

(** C15: whatever the network serves and whatever an archive holds, in any sequence
    of commands, each ending well or not or cut short by a loss of power at any
    moment, every object in the verified store is a regular file whose SHA-256 is
    its name. *)
Theorem verified_store_sound {UL : UrlLib} {CR : Crypto} {JS : Json} {CD : Codec Deployment} {CS : Codec UpdateSet}
  {CC : Codec CatalogCheckpoint} {CM : Codec Manifest} {CRel : Codec ReleaseDocument} {CSet : Codec SetReleaseDocument}
  {A U : Type} {HR : Records (A + U)} {UD : UbiDevice U} envelope_parse envelope_print wire statvfs reserves system esp
  volume_path opened root keys board arch product max_bytes (w0 w : World (A + U))
  (Hsha : ∀ b, hex_id (sha256 b) = true)
  (Hstart : sound_store root (aw_disk w0)) (Hflushed : aw_dirty w0 = ∅)
  (Hlife : history envelope_parse envelope_print wire statvfs reserves system esp volume_path opened root keys board arch
             product max_bytes w0 w) :
  sound_store root (aw_disk w).
Proof.
  enough (inv root w) by apply H. induction Hlife as [|w c H IH|w c w' t n H IH Hd Hcut|w d H IH].
  - split; [done|]. rewrite Hflushed. by intros p ?%elem_of_empty.
  - destruct (keeps_command envelope_parse envelope_print wire statvfs reserves system esp volume_path opened root keys
      board arch product max_bytes Hsha c w IH) as (_ & Hend & _). exact Hend.
  - apply inv_after_cut; [|done]. eapply safe_durable; [|exact Hd].
    exact (keeps_command envelope_parse envelope_print wire statvfs reserves system esp volume_path opened root keys
      board arch product max_bytes Hsha c w IH).
  - exact IH.
Qed.

(** C16: a deployment that [fetch] or [import] leaves ready is complete, and stays so
    through a loss of power: its descriptor is the file named by its id, every
    object it names is installed and verified or in the verified store with the
    signed length and digest, and, imported, its descriptor is the archive's and
    authentic. *)
Theorem ready_is_complete {UL : UrlLib} {CR : Crypto} {JS : Json} {CD : Codec Deployment} {CS : Codec UpdateSet}
  {A U : Type} {HR : Records (A + U)} {UD : UbiDevice U} envelope_parse envelope_print wire statvfs reserves system esp
  volume_path opened root keys board arch product max_bytes (w : World (A + U))
  (Hsha : ∀ b, hex_id (sha256 b) = true) (Hstart : sound_store root (aw_disk w)) (Hflushed : aw_dirty w = ∅) :
  (∀ selected r,
     let o := fetch envelope_parse envelope_print wire statvfs reserves system esp volume_path opened root keys board arch
                product max_bytes selected w in
     o_result o = Ok r → complete root (str_bytes (sr_envelope selected)) (sr_deployment selected) r (o_state o))
  ∧ ∀ input r,
     let o := import envelope_parse envelope_print statvfs reserves root keys board arch product max_bytes input w in
     o_result o = Ok r →
     ∃ envelope rest x, archive_envelope 24576 input = Ok (envelope, rest)
       ∧ authenticate_deployment envelope_parse envelope_print envelope keys = Ok x ∧ complete root envelope x r (o_state o).
Proof.
  assert (Hw : inv root w) by (split; [done|]; rewrite Hflushed; by intros p ?%elem_of_empty).
  split.
  - intros selected r o Hr. exact (proj1 (fetch_safe envelope_parse envelope_print wire statvfs reserves system esp
      volume_path opened root keys board arch product max_bytes Hsha selected w Hw) r Hr).
  - intros input r o Hr. exact (proj1 (import_safe envelope_parse envelope_print statvfs reserves
      opened root keys board arch product max_bytes Hsha input w Hw) r Hr).
Qed.

(** ** Witnesses *)

(** A digest that tells a few contents apart, and a deployment of three objects. *)
Definition toy_crypto : Crypto :=
  {| sha256 := λ b, hex_of (digit_of (len b mod 10)); base64_decode := λ s, Some (str_bytes s); base64_encode := bytes_str;
     ed25519_verify := λ _ _ _, true |}.
Definition toy_object (n : Z) : Artifact := {| a_bytes := n; a_sha256 := hex_of (digit_of (n mod 10)) |}.
Definition toy_image : VerityImage :=
  {| vi_image := toy_object 4096; vi_root_hash := sample_hex; vi_signature := toy_object 5;
     vi_verity := vi_verity small_image |}.
Definition toy_deployment : Deployment :=
  let k := d_kernel sample_deployment in
  let r := d_rootfs sample_deployment in
  {| d_schema := d_schema sample_deployment; d_board := d_board sample_deployment; d_arch := d_arch sample_deployment;
     d_generation := 8; d_version := d_version sample_deployment;
     d_product := d_product sample_deployment; d_data_policy := d_data_policy sample_deployment;
     d_kernel := {| k_schema := k_schema k; k_id := hex_of "2"; k_board := k_board k; k_arch := k_arch k;
                    k_build_id := k_build_id k; k_release := k_release k; k_boot_format := k_boot_format k;
                    k_boot_artifact := toy_object 10; k_support := toy_image; k_features := k_features k |};
     d_rootfs := {| r_schema := r_schema r; r_id := hex_of "2"; r_arch := r_arch r; r_content := toy_image;
                    r_interface_level := r_interface_level r; r_provides := r_provides r |};
     d_core_set := None |}.
Definition toy_envelope : Envelope :=
  {| env_schema := "mica/update-envelope/v1"; env_key_id := hex_of "3"; env_payload := "{}"; env_signature := sample_hex |}.
Definition toy_content (n : Z) : bytes := replicate (Z.to_nat n) "x"%char.

(** Its release: three objects, on a server without indexes. *)
Definition toy_selected : SelectedRelease :=
  {| sr_deployment_id := hex_of "2"; sr_deployment := toy_deployment; sr_envelope := "{}";
     sr_objects := map (λ n, {| so_sha256 := a_sha256 (toy_object n); so_bytes := n; so_url := "o/" +:+ to_dec n |}) [10; 5; 4096];
     sr_notes := "" |}.
Definition toy_wire (call : nat) : Wire (UL := plain_urls) :=
  {| wire_connect := λ _ (u : url (UrlLib := plain_urls)) _,
       Ok (Transfer.delivers
         (match List.find (λ n, bool_decide ((u : string) = "o/" +:+ to_dec n)) [10; 5; 4096] with
          | Some n => Transfer.lines ["HTTP/1.1 200 OK"; "Content-Length: " +:+ to_dec n; ""] ++ toy_content n
          | None => Transfer.lines ["HTTP/1.1 404 Not Found"; ""]
          end));
     wire_turns := 3; wire_grain := λ _ _, 1000 |}.
Definition toy_world : World (region + bench) :=
  {| aw_device := collect_device; aw_disk := ∅; aw_dirty := ∅; aw_calls := 0 |}.
Definition toy_space (t : tree) : result Space :=
  Ok {| f_bavail := 1048576; f_frsize := 4096; f_files := 0; f_favail := 0 |}.
Definition no_reserves : Reserves := {| rv_system := None; rv_esp := None; rv_data := None |}.

(** An archive of two of them, a third being fetched before. *)
Definition toy_archive : bytes :=
  str_bytes "MICAUPD1" ++ to_be 4 2 ++ str_bytes "{}" ++ to_be 4 3
  ++ concat (map (λ n, str_bytes (a_sha256 (toy_object n)) ++ to_be 8 n ++ toy_content n) [4096; 10; 5]).

Definition toy_fetch : M (World (region + bench)) ReadyDeployment :=
  fetch (UL := plain_urls) (CR := toy_crypto) (JS := sample_json) (CD := sample_codec toy_deployment)
    (CS := sample_codec small_set) (HR := collect_store) (UD := bench_device) (λ _, Some toy_envelope) (λ _, str_bytes "{}")
    toy_wire toy_space no_reserves "system" "esp" (λ _, "ubi") aw_disk "ota" [str_bytes "key"] "x86-64" "amd64" "mica"
    (Some (64 * MIB)) toy_selected.
Definition toy_import : M (World (region + bench)) ReadyDeployment :=
  import (CR := toy_crypto) (JS := sample_json) (CD := sample_codec toy_deployment)
    (CS := sample_codec small_set) (HR := collect_store) (UD := bench_device) (λ _, Some toy_envelope) (λ _, str_bytes "{}")
    toy_space no_reserves "ota" [str_bytes "key"] "x86-64" "amd64" "mica" (Some (64 * MIB)) toy_archive.

Lemma toy_sha b : hex_id (sha256 (Crypto := toy_crypto) b) = true.
Proof.
  cbn [sha256 toy_crypto]. assert (0 ≤ len b mod 10 < 10) by (apply Z.mod_pos_bound; lia).
  assert (H10 : len b mod 10 ∈ [0; 1; 2; 3; 4; 5; 6; 7; 8; 9]).
  { rewrite !elem_of_cons. lia. }
  revert H10. generalize (len b mod 10). intros n Hn. apply (proj1 (Forall_forall (λ n, hex_id (hex_of (digit_of n)) = true) _)) with (2 := Hn).
  repeat (apply List.Forall_cons; [vm_compute; reflexivity|]). apply List.Forall_nil.
Qed.

Lemma toy_start : sound_store "ota" (aw_disk toy_world) (CR := toy_crypto).
Proof. intros name n H. discriminate H. Qed.

Lemma verified_store_sound_witness :
  let w := o_state (run_command (UL := plain_urls) (CR := toy_crypto) (JS := sample_json) (CD := sample_codec toy_deployment)
    (CS := sample_codec small_set) (CC := sample_codec {| cp_source := ""; cp_revision := 1; cp_payload_digest := "" |})
    (CM := sample_codec sample_manifest) (CRel := sample_codec sample_release)
    (CSet := sample_codec (sample_set_release small_set))
    (HR := collect_store) (UD := bench_device) (λ _, Some toy_envelope) (λ _, str_bytes "{}")
    toy_wire toy_space no_reserves "system" "esp" (λ _, "ubi") aw_disk "ota" [str_bytes "key"] "x86-64" "amd64" "mica"
    (Some (64 * MIB)) (Fetch toy_selected) toy_world) in
  aw_disk w !! object "ota" (a_sha256 (toy_object 10)) = Some (Regular (toy_content 10))
  ∧ sound_store "ota" (aw_disk w) (CR := toy_crypto).
Proof.
  intros w. split; [vm_compute; reflexivity|].
  apply (verified_store_sound (UL := plain_urls) (CR := toy_crypto) (JS := sample_json) (CD := sample_codec toy_deployment)
    (CS := sample_codec small_set) (CC := sample_codec {| cp_source := ""; cp_revision := 1; cp_payload_digest := "" |})
    (CM := sample_codec sample_manifest) (CRel := sample_codec sample_release)
    (CSet := sample_codec (sample_set_release small_set))
    (HR := collect_store) (UD := bench_device) (λ _, Some toy_envelope) (λ _, str_bytes "{}")
    toy_wire toy_space no_reserves "system" "esp" (λ _, "ubi") aw_disk "ota" [str_bytes "key"] "x86-64" "amd64" "mica"
    (Some (64 * MIB)) toy_world w toy_sha toy_start eq_refl).
  apply history_command, history_start.
Defined.

Lemma ready_is_complete_witness :
  ∃ fetched imported envelope rest x,
    o_result (toy_fetch toy_world) = Ok fetched
    ∧ complete (CR := toy_crypto) (JS := sample_json) (CD := sample_codec toy_deployment) (UD := bench_device) "ota"
        (str_bytes "{}") toy_deployment fetched (o_state (toy_fetch toy_world))
    ∧ o_result (toy_import toy_world) = Ok imported
    ∧ archive_envelope 24576 toy_archive = Ok (envelope, rest)
    ∧ complete (CR := toy_crypto) (JS := sample_json) (CD := sample_codec toy_deployment) (UD := bench_device) "ota"
        envelope x imported (o_state (toy_import toy_world)).
Proof.
  destruct (ready_is_complete (UL := plain_urls) (CR := toy_crypto) (JS := sample_json) (CD := sample_codec toy_deployment)
    (CS := sample_codec small_set) (HR := collect_store) (UD := bench_device) (λ _, Some toy_envelope) (λ _, str_bytes "{}")
    toy_wire toy_space no_reserves "system" "esp" (λ _, "ubi") aw_disk "ota" [str_bytes "key"] "x86-64" "amd64" "mica"
    (Some (64 * MIB)) toy_world toy_sha toy_start eq_refl) as [Hf Hi].
  set (ready := {| rdy_id := hex_of "2"; rdy_path := "ota/verified/" +:+ hex_of "2" +:+ ".json";
                   rdy_objects := "ota/verified/objects"; rdy_version := "1.2"; rdy_generation := 8 |}).
  assert (E1 : o_result (toy_fetch toy_world) = Ok ready) by (vm_compute; reflexivity).
  assert (E2 : o_result (toy_import toy_world) = Ok ready) by (vm_compute; reflexivity).
  destruct (Hi toy_archive ready E2) as (envelope & rest & x & Hread & _ & Hc).
  exists ready, ready, envelope, rest, x. split; [exact E1|]. split; [exact (Hf toy_selected ready E1)|].
  split; [exact E2|]. split; [exact Hread|exact Hc].
Defined.

End Acquire.
