(* ===== verification/Chars.v ===== *)
(** The operations of [str] that work on characters rather than bytes:
    [chars], [char::is_whitespace] and [char::is_control], and with them
    [trim], [split_whitespace] and [chars().count()]. *)
From Stdlib Require Import Ascii.
From S2P Require Import Prelude Text.

(** * Definitions *)

(** [s.chars()], each as its bytes: a character starts at every byte that
    continues none. *)
Definition continues (s : string) : bool := match s with String d _ => utf8_cont d | EmptyString => false end.
Fixpoint chars (s : string) : list string :=
  match s with
  | EmptyString => []
  | String c s' =>
      match chars s' with
      | h :: t => if continues s' then String c h :: t else String c EmptyString :: h :: t
      | [] => [String c EmptyString]
      end
  end.
Definition unchars (l : list string) : string := foldr String.append EmptyString l.

(** A character of one to three bytes by their values. *)
Definition char1 (a : Z) : string := String (val_byte a) EmptyString.
Definition char2 (a b : Z) : string := String (val_byte a) (char1 b).
Definition char3 (a b c : Z) : string := String (val_byte a) (char2 b c).

(** [char::is_whitespace]: U+0009 to U+000D, U+0020, U+0085, U+00A0, U+1680,
    U+2000 to U+200A, U+2028, U+2029, U+202F, U+205F and U+3000. *)
Definition wide_spaces : list string :=
  [char2 194 133; char2 194 160; char3 225 154 128]
  ++ map (char3 226 128) [128; 129; 130; 131; 132; 133; 134; 135; 136; 137; 138; 168; 169; 175]
  ++ [char3 226 129 159; char3 227 128 128].
Definition is_whitespace (c : string) : bool :=
  match c with
  | String a EmptyString => is_space a
  | _ => bool_decide (c ∈ wide_spaces)
  end.

(** [char::is_control]: U+0000 to U+001F and U+007F to U+009F. *)
Definition is_control (c : string) : bool :=
  match c with
  | String a EmptyString => (byte_val a <? 32) || (byte_val a =? 127)
  | String a (String b EmptyString) => (byte_val a =? 194) && (byte_val b <? 160)
  | _ => false
  end.

Fixpoint drop_while {A} (p : A → bool) (l : list A) : list A :=
  match l with
  | [] => []
  | a :: l' => if p a then drop_while p l' else l
  end.

(** [s.trim_start()] and [s.trim()]. *)
Definition trim_left (s : string) : string := unchars (drop_while is_whitespace (chars s)).
Definition trim (s : string) : string :=
  unchars (rev (drop_while is_whitespace (rev (drop_while is_whitespace (chars s))))).

(** [s.split_whitespace()]. *)
Fixpoint words_of (cur : string) (l : list string) : list string :=
  match l with
  | [] => if is_empty cur then [] else [cur]
  | c :: l' =>
      if is_whitespace c then (if is_empty cur then [] else [cur]) ++ words_of EmptyString l'
      else words_of (cur +:+ c) l'
  end.
Definition split_whitespace (s : string) : list string := words_of EmptyString (chars s).

(** [s.chars().count()] and [s.chars().any(char::is_control)]. *)
Definition chars_count (s : string) : Z := len (chars s).
Definition has_control (s : string) : bool := existsb is_control (chars s).

(** [u8::to_ascii_lowercase] and [eq_ignore_ascii_case]. *)
Definition lower_byte (c : ascii) : ascii := if is_upper c then val_byte (byte_val c + 32) else c.
Fixpoint to_ascii_lowercase (s : string) : string :=
  match s with
  | EmptyString => EmptyString
  | String c s' => String (lower_byte c) (to_ascii_lowercase s')
  end.
Definition eq_ignore_ascii_case (a b : string) : bool :=
  bool_decide (to_ascii_lowercase a = to_ascii_lowercase b).

(** * Lemmas *)

Lemma unchars_cons c l : unchars (c :: l) = c +:+ unchars l.
Proof. done. Qed.

Lemma unchars_chars s : unchars (chars s) = s.
Proof.
  induction s as [|c s IH]; cbn [chars]; [done|].
  destruct (chars s) as [|h t]; [by rewrite <- IH|].
  destruct (continues s); rewrite !unchars_cons in *; rewrite append_cons, ?append_nil_l; by f_equal.
Qed.
