(* ===== verification/Features.v ===== *)
(** What the product carries ([src/crates/micad-settings/src/features.rs]): the
    init, the container engine and the features of [product.conf], and the
    settings subtree each feature owns. *)
From Stdlib Require Import Ascii.
From S2P Require Import Prelude Text Chars.

Module Features.

Inductive Init := Systemd | Openrc.
Inductive ContainerEngine := Podman | Docker.
Inductive ClaimDeviceCode := Required | Off.
Inductive Feature := Wifi | Bluetooth | Ssh | Containers | Mqtt.
#[export] Instance init_eq : EqDecision Init.
Proof. solve_decision. Defined.
#[export] Instance engine_eq : EqDecision ContainerEngine.
Proof. solve_decision. Defined.
#[export] Instance feature_eq : EqDecision Feature.
Proof. solve_decision. Defined.

Definition QUOTE : ascii := "034".
Definition quote_str : string := String QUOTE EmptyString.

(** * [product.conf] *)

Definition line_value (product_conf key : string) : option string :=
  value ← head (omap (λ line, strip_prefix key (trim line)) (lines product_conf));
  let value := trim value in
  Some (default value (strip_prefix quote_str value ≫= strip_suffix quote_str)).

Definition init_str (i : Init) : string := match i with Systemd => "systemd" | Openrc => "openrc" end.
Definition init_try_parse (product_conf : string) : result Init :=
  match line_value product_conf "INIT=" with
  | None => Ok Systemd
  | Some value =>
      if bool_decide (value = "systemd") then Ok Systemd
      else if bool_decide (value = "openrc") then Ok Openrc
      else Err (Msg ("INIT=" +:+ value +:+ " names no init this build drives"))
  end.
Definition init_parse (product_conf : string) : Init :=
  match init_try_parse product_conf with Ok i => i | Err _ => Systemd end.

Definition engine_str (e : ContainerEngine) : string := match e with Podman => "podman" | Docker => "docker" end.
Definition engine_try_parse (product_conf : string) : result ContainerEngine :=
  match line_value product_conf "CONTAINER_ENGINE=" with
  | None => Ok Podman
  | Some value =>
      if bool_decide (value = "podman") then Ok Podman
      else if bool_decide (value = "docker") then Ok Docker
      else Err (Msg ("CONTAINER_ENGINE=" +:+ value +:+ " names no container engine this build drives"))
  end.

Definition claim_device_code (product_conf : string) : option ClaimDeviceCode :=
  (λ value, if bool_decide (value = "off") then Off else Required)
    <$> line_value product_conf "CLAIM_DEVICE_CODE=".
Definition product_switch (product_conf key : string) : bool :=
  negb (bool_decide (line_value product_conf key = Some "off")).
Definition product_ssh (product_conf : string) : bool :=
  bool_decide (line_value product_conf "SSH=" = Some "on").
Definition product_name (product_conf : string) : option string :=
  name ← line_value product_conf "PRODUCT=";
  if is_empty name then None else Some name.

(** * Features *)

Definition ALL : list Feature := [Wifi; Bluetooth; Ssh; Containers; Mqtt].
Definition feature_str (f : Feature) : string :=
  match f with
  | Wifi => "wifi" | Bluetooth => "bluetooth" | Ssh => "ssh" | Containers => "containers" | Mqtt => "mqtt"
  end.
Definition from_word (word : string) : option Feature :=
  head (filter (λ f, feature_str f = word) ALL).
Definition subtree (f : Feature) : string :=
  match f with
  | Wifi => "wifi" | Bluetooth => "bluetooth" | Ssh => "access.ssh" | Containers => "container" | Mqtt => "mqtt"
  end.
Definition owns (path : string) (f : Feature) : bool :=
  bool_decide (path = subtree f)
  || match strip_prefix (subtree f) path with
     | Some rest => first_byte (λ c, bool_decide (c = "."%char)) rest
     | None => false
     end.
Definition owning (path : string) : option Feature := head (filter (λ f, owns path f = true) ALL).

(** A [BTreeSet<Feature>], by membership. *)
Notation Features := (list Feature).
Definition features_parse (product_conf : string) : Features :=
  match line_value product_conf "FEATURES=" with
  | Some value => omap from_word (split_whitespace value)
  | None => ALL
  end.
Definition has (fs : Features) (f : Feature) : bool := bool_decide (f ∈ fs).
Definition refuses (fs : Features) (path : string) : option Feature :=
  f ← owning path;
  if has fs f then None else Some f.
Definition words (fs : Features) : list string :=
  map feature_str (filter (λ f, has fs f = true) ALL).

Definition demo_conf : string :=
  "PRODUCT=demo" +:+ String LF ("  FEATURES=" +:+ quote_str +:+ "wifi mqtt nosuch" +:+ quote_str +:+ String LF "INIT=openrc").
Example demo_features : features_parse demo_conf = [Wifi; Mqtt] ∧ init_parse demo_conf = Openrc.
Proof. by vm_compute. Qed.

End Features.
