(* ===== verification/DotPath.v ===== *)
(** Dot paths into the settings tree ([src/crates/micad-settings/src/path.rs],
    [error.rs], and [paths_overlap] and [shared_path] of
    [src/crates/micad/src/bus.rs] and [bus/interface.rs]): splitting and
    quoting, reading and writing a node, and which subtrees a path touches. *)
From Stdlib Require Import Ascii.
From S2P Require Import Prelude Text Order Maps Features.
Import Features.

Module DotPath.

(** * Errors *)

(** [SettingsError]. *)
Inductive settings_error :=
| NotFound (path : string)
| ReadOnly (path : string)
| NotServed (path : string) (feature : Feature)
| Validation (path message : string)
| Claimed
| Io (e : error)
| Parse (message : string)
| SchemaVersion (message : string)
| Unavailable (directory mount : string).

(** [Result<A, SettingsError>]. *)
Notation sresult A := (settings_error + A)%type.
Definition then_do {A B} (m : sresult A) (k : A → sresult B) : sresult B :=
  match m with inr a => k a | inl e => inl e end.
Notation "'let/' x ':=' m 'in' k" := (then_do m (fun x => k))
  (at level 200, x pattern, m at level 100, k at level 200,
   format "'[v' 'let/'  x  ':='  m  'in' '/' k ']'") : mica_scope.
Open Scope mica_scope.

(** * Trees *)

(** [serde_json::Value]; a number is kept as its text, and an object is a map
    sorted by key. *)
Inductive value :=
| Null
| Bool (b : bool)
| Number (text : string)
| Str (s : string)
| Array (l : list value)
| Object (m : smap value).

#[global] Instance value_eq_dec : EqDecision value.
Proof.
  refine (fix go (x y : value) : Decision (x = y) :=
    match x, y with
    | Null, Null => left eq_refl
    | Bool a, Bool b => cast_if (decide (a = b))
    | Number a, Number b => cast_if (decide (a = b))
    | Str a, Str b => cast_if (decide (a = b))
    | Array a, Array b => cast_if (@list_eq_dec value go a b)
    | Object a, Object b => cast_if (@list_eq_dec (string * value) (@prod_eq_dec string _ value go) a b)
    | _, _ => right _
    end); abstract congruence.
Defined.

(** [json!] of an object's members, and [Value]'s index by a key. *)
Definition obj (l : list (string * value)) : value := Object (foldl (λ m e, smap_insert e.1 e.2 m) [] l).
Definition member (v : value) (key : string) : value :=
  match v with Object m => default Null (smap_get key m) | _ => Null end.
Definition as_object (v : value) : option (smap value) :=
  match v with Object m => Some m | _ => None end.

(** * Paths *)

Definition is_root (path : string) : bool := is_empty path || bool_decide (path = ".").

Definition quote_path_segment (segment : string) : string :=
  if contains_byte "." segment || contains_byte QUOTE segment
  then String QUOTE (segment +:+ quote_str) else segment.
Definition join_path (segments : list string) : string := join "." (map quote_path_segment segments).

(** One turn of [split_path]'s loop: a segment and what follows its separator. *)
Definition next_segment (rest : string) : option (string * option string) :=
  match strip_prefix quote_str rest with
  | Some quoted =>
      '(segment, tail) ← split_once QUOTE quoted;
      match strip_prefix "." tail with
      | Some tail => Some (segment, Some tail)
      | None => if is_empty tail then Some (segment, None) else None
      end
  | None =>
      match split_once "." rest with
      | Some (segment, tail) => Some (segment, Some tail)
      | None => Some (rest, None)
      end
  end.
Definition checked_segment (rest : string) : option (string * option string) :=
  '(segment, tail) ← next_segment rest;
  if is_empty segment || contains_byte QUOTE segment then None else Some (segment, tail).
Fixpoint split_loop (fuel : nat) (rest : string) : option (list string) :=
  match fuel with
  | O => None
  | S fuel =>
      '(segment, tail) ← checked_segment rest;
      match tail with
      | Some tail => cons segment <$> split_loop fuel tail
      | None => Some [segment]
      end
  end.
Definition path_segments (path : string) : option (list string) := split_loop (S (String.length path)) path.
Definition split_path (path : string) : sresult (list string) :=
  match path_segments path with Some l => inr l | None => inl (NotFound path) end.

(** * Reading and writing a node *)

Fixpoint walk (node : value) (segments : list string) : option value :=
  match segments with
  | [] => Some node
  | segment :: rest => m ← as_object node; child ← smap_get segment m; walk child rest
  end.
Definition json_path_get (root : value) (path : string) : option value :=
  if is_root path then Some root else path_segments path ≫= walk root.

Definition not_a_table (path : string) : settings_error := Validation path "not a table".

(** The walk down [parents] and the final insert; [walked] is the path so far. *)
Fixpoint set_below (walked : string) (node : value) (parents : list string) (last : string) (v : value) :
    sresult value :=
  match as_object node with
  | None => inl (not_a_table walked)
  | Some object =>
      match parents with
      | [] => inr (Object (smap_insert last v object))
      | segment :: rest =>
          let child := default (Object []) (smap_get segment object) in
          let walked := (if is_empty walked then "" else walked +:+ ".") +:+ quote_path_segment segment in
          let/ child := set_below walked child rest last v in
          inr (Object (smap_insert segment child object))
      end
  end.
Definition json_path_set (root : value) (segments : list string) (v : value) : sresult value :=
  match last segments with
  | None => inl (Validation "" "an empty path names no node")
  | Some final => set_below "" root (removelast segments) final v
  end.

(** * Overlap *)

Fixpoint pieces_overlap (a b : list string) : bool :=
  match a, b with
  | x :: a', y :: b' => bool_decide (x = y) && pieces_overlap a' b'
  | _, _ => true
  end.
Definition paths_overlap (a b : string) : bool :=
  let a := if bool_decide (a = ".") then "" else a in
  let b := if bool_decide (b = ".") then "" else b in
  if is_empty a || is_empty b then true else pieces_overlap (split "." a) (split "." b).

Fixpoint common_prefix (a b : list string) : list string :=
  match a, b with
  | x :: a', y :: b' => if bool_decide (x = y) then x :: common_prefix a' b' else []
  | _, _ => []
  end.
(** What the paths of one write share, spelled as a path. *)
Definition shared_segments (paths : list string) : list string :=
  let segments path := default [] (path_segments path) in
  match paths with
  | [] => []
  | path :: rest => foldl (λ prefix path, common_prefix prefix (segments path)) (segments path) rest
  end.
Definition shared_path (paths : list string) : string := join_path (shared_segments paths).

Example quoted_path :
  path_segments ("network." +:+ quote_str +:+ "eth0.100" +:+ quote_str +:+ ".dhcp") = Some ["network"; "eth0.100"; "dhcp"]
  ∧ path_segments "a..b" = None ∧ path_segments (quote_str +:+ "a" +:+ quote_str +:+ "b") = None.
Proof. by vm_compute. Qed.

(** * Lemmas *)

(** A segment a path can carry, and one it carries bare. *)
Definition good (segment : string) : Prop := segment ≠ "" ∧ contains_byte QUOTE segment = false.
Definition plain (segment : string) : Prop := good segment ∧ contains_byte "." segment = false.
Definition comparable (a b : list string) : Prop := a `prefix_of` b ∨ b `prefix_of` a.

(** ** Splitting *)

Lemma checked_shorter rest segment tail :
  checked_segment rest = Some (segment, Some tail) → (String.length tail < String.length rest)%nat.
Proof.
  unfold checked_segment. destruct (next_segment rest) as [[s t]|] eqn:E; cbn [mbind option_bind]; [|done].
  intros H. assert (Ht : t = Some tail) by by destruct (is_empty s || _); simplify_eq. subst t. clear H. unfold next_segment in E.
  destruct (strip_prefix quote_str rest) as [quoted|] eqn:Eq; cbn [mbind option_bind] in E.
  - apply strip_prefix_length in Eq. destruct (split_once QUOTE quoted) as [[s' t]|] eqn:Es; cbn [mbind option_bind] in E; [|done].
    apply split_once_length in Es. destruct (strip_prefix "." t) as [t'|] eqn:Et; [|by destruct (is_empty t)].
    apply strip_prefix_length in Et. simplify_eq. lia.
  - destruct (split_once "." rest) as [[s' t]|] eqn:Es; [|done]. apply split_once_length in Es. by simplify_eq.
Qed.

(** The fuel is enough: the loop's own equation holds without it. *)
Lemma split_loop_enough n m rest :
  (String.length rest < n)%nat → (String.length rest < m)%nat → split_loop n rest = split_loop m rest.
Proof.
  revert m rest. induction n as [|n IH]; intros [|m] rest Hn Hm; [lia..|]. cbn [split_loop].
  destruct (checked_segment rest) as [[segment [tail|]]|] eqn:E; cbn; [|done..].
  apply checked_shorter in E. by rewrite (IH m) by lia.
Qed.

Lemma path_segments_eqn path :
  path_segments path =
    match checked_segment path with
    | Some (segment, Some tail) => cons segment <$> path_segments tail
    | Some (segment, None) => Some [segment]
    | None => None
    end.
Proof.
  unfold path_segments at 1. cbn [split_loop].
  destruct (checked_segment path) as [[segment [tail|]]|] eqn:E; cbn; [|done..].
  apply checked_shorter in E. unfold path_segments. by rewrite (split_loop_enough _ (S (String.length tail))) by lia.
Qed.

Lemma checked_good rest segment tail : checked_segment rest = Some (segment, tail) → good segment.
Proof.
  unfold checked_segment. destruct (next_segment rest) as [[s t]|]; cbn; [|done].
  destruct (is_empty s || contains_byte QUOTE s) eqn:E; intros; simplify_eq.
  apply orb_false_iff in E as [E1 E2]. split; [|done]. by intros ->.
Qed.

Lemma path_segments_good path l : path_segments path = Some l → l ≠ [] ∧ Forall good l.
Proof.
  intros H. assert (Hn : (String.length path < S (String.length path))%nat) by lia. revert Hn l H.
  generalize (S (String.length path)) as n. intros n. revert path. induction n as [|n IH]; intros path Hn l H; [lia|].
  rewrite path_segments_eqn in H. destruct (checked_segment path) as [[s [t|]]|] eqn:E; [..|done].
  - pose proof (checked_shorter _ _ _ E) as Hlt. destruct (path_segments t) as [l'|] eqn:El; [|done]. injection H as <-.
    split; [done|]. constructor; [by eapply checked_good|]. apply (IH t); [lia|done].
  - injection H as <-. split; [done|]. constructor; [by eapply checked_good|constructor].
Qed.

Lemma path_segments_not_root path l : path_segments path = Some l → is_root path = false.
Proof.
  unfold is_root. intros H. destruct (is_empty path) eqn:E; [by apply is_empty_spec in E as ->|].
  case_bool_decide; [by subst|done].
Qed.

(** ** Quoting *)

Lemma good_not_empty s : good s → is_empty s = false.
Proof. intros [H _]. destruct (is_empty s) eqn:E; [|done]. by apply is_empty_spec in E. Qed.

Lemma quote_plain s : plain s → quote_path_segment s = s.
Proof. intros [[_ Hq] Hd]. unfold quote_path_segment. by rewrite Hd, Hq. Qed.

Lemma not_quoted s rest : good s → strip_prefix quote_str (s +:+ rest) = None.
Proof.
  intros [Hne Hq]. destruct s as [|c s]; [done|]. cbn [contains_byte] in Hq. apply orb_false_iff in Hq as [Hc _].
  apply bool_decide_eq_false in Hc. unfold quote_str. rewrite append_cons. cbn [strip_prefix]. by rewrite bool_decide_eq_false_2.
Qed.

Lemma next_quoted s rest :
  good s →
  next_segment (quote_path_segment s +:+ String "." rest) = Some (s, Some rest)
  ∧ next_segment (quote_path_segment s) = Some (s, None).
Proof.
  intros Hg. pose proof Hg as [_ Hq]. unfold quote_path_segment, next_segment. rewrite Hq, orb_false_r.
  destruct (contains_byte "." s) eqn:Hd.
  - rewrite append_cons, append_assoc. change (String QUOTE (s +:+ ?x)) with (quote_str +:+ (s +:+ x)).
    assert (H1 : split_once QUOTE (s +:+ quote_str +:+ String "." rest) = Some (s, String "." rest))
      by by apply split_once_spec.
    assert (H2 : split_once QUOTE (s +:+ quote_str) = Some (s, "")) by by apply split_once_spec.
    rewrite !strip_prefix_app. split; [etransitivity; [by rewrite H1|]|etransitivity; [by rewrite H2|]]; reflexivity.
  - rewrite not_quoted by done. assert (Hs : strip_prefix quote_str s = None) by (rewrite <- (append_nil_r s); by apply not_quoted).
    rewrite Hs. rewrite (proj2 (split_once_spec "." (s +:+ String "." rest) s rest)) by done.
    by rewrite (proj2 (split_once_none "." s)) by done.
Qed.

Lemma checked_quoted s rest :
  good s →
  checked_segment (quote_path_segment s +:+ String "." rest) = Some (s, Some rest)
  ∧ checked_segment (quote_path_segment s) = Some (s, None).
Proof.
  intros Hg. destruct (next_quoted s rest Hg) as [H1 H2]. unfold checked_segment. rewrite H1, H2.
  cbn [mbind option_bind]. by rewrite (good_not_empty s Hg), (proj2 Hg).
Qed.

Lemma segments_join segs : segs ≠ [] → Forall good segs → path_segments (join_path segs) = Some segs.
Proof.
  unfold join_path. induction segs as [|s segs IH]; [done|]. intros _ H. apply Forall_cons in H as [Hs Hsegs].
  rewrite path_segments_eqn. destruct segs as [|s' segs].
  - cbn [map join]. by rewrite (proj2 (checked_quoted s "" Hs)).
  - cbn [map]. rewrite join_cons by done. rewrite (proj1 (checked_quoted s _ Hs)).
    cbn [map] in IH. by rewrite IH by done.
Qed.

(** ** Reading and writing *)

Lemma walk_app node a b : walk node (a ++ b) = walk node a ≫= λ n, walk n b.
Proof.
  revert node. induction a as [|s a IH]; intros node; cbn [walk app]; [done|].
  destruct (as_object node) as [m|]; cbn; [|done]. destruct (smap_get s m); cbn; [apply IH|done].
Qed.

Lemma set_below_spec walked node parents last v root' :
  set_below walked node parents last v = inr root' →
  (∀ rest, walk root' (parents ++ last :: rest) = walk v rest)
  ∧ (∀ other, ¬ comparable (parents ++ [last]) other → walk root' other = walk node other).
Proof.
  revert walked node root'. induction parents as [|s parents IH]; intros walked node root' H; cbn [set_below] in H;
    destruct (as_object node) as [m|] eqn:Em; [|done| |done].
  - simplify_eq. split.
    + intros rest. cbn. rewrite smap_get_insert, bool_decide_eq_true_2 by done. done.
    + intros [|o other] Hc; [destruct Hc; right; apply prefix_nil|]. cbn. rewrite Em. cbn.
      rewrite smap_get_insert. case_bool_decide; [|done]. subst. destruct Hc. left. cbn. by exists other.
  - destruct (set_below _ _ parents last v) as [|child] eqn:E; [done|]. cbn in H. simplify_eq.
    apply IH in E as [E1 E2]. split.
    + intros rest. cbn. rewrite smap_get_insert, bool_decide_eq_true_2 by done. apply E1.
    + intros [|o other] Hc; [destruct Hc; right; apply prefix_nil|]. cbn. rewrite Em. cbn.
      rewrite smap_get_insert. case_bool_decide; [|done]. subst o. cbn. rewrite E2.
      * destruct (smap_get s m) as [n|]; cbn; [done|]. destruct other; [|done]. destruct Hc. right. apply prefix_cons, prefix_nil.
      * intros [Hp|Hp]; apply Hc; [left|right]; by apply prefix_cons.
Qed.

Lemma set_below_refused walked node parents last v :
  (∃ e, set_below walked node parents last v = inl e)
  ↔ ∃ pre n, pre `prefix_of` parents ∧ walk node pre = Some n ∧ as_object n = None.
Proof.
  revert walked node. induction parents as [|s parents IH]; intros walked node; cbn [set_below].
  - destruct (as_object node) as [m|] eqn:Em.
    + split; [by intros [e ?]|]. intros (pre & n & Hp & Hw & Hn). apply prefix_nil_inv in Hp as ->. cbn in Hw. congruence.
    + split; [|by eexists]. intros _. by exists [], node.
  - destruct (as_object node) as [m|] eqn:Em.
    2: { split; [|by eexists]. intros _. exists [], node. split; [apply prefix_nil|done]. }
    match goal with |- context [set_below ?w ?c parents last v] => specialize (IH w c); set (r := set_below w c parents last v) in * end.
    transitivity (∃ e, r = inl e).
    { destruct r; cbn; split; intros [e He]; simplify_eq; by eexists. }
    rewrite IH. split.
    + intros (pre & n & Hp & Hw & Hn). destruct (smap_get s m) as [c|] eqn:Es; cbn in Hw.
      * exists (s :: pre), n. split; [by apply prefix_cons|]. cbn. rewrite Em. cbn. by rewrite Es.
      * destruct pre; cbn in Hw; by simplify_eq.
    + intros (pre & n & Hp & Hw & Hn). destruct pre as [|s' pre]; [cbn in Hw; congruence|].
      apply prefix_cons_inv_1 in Hp as Hs. apply prefix_cons_inv_2 in Hp. subst s'. cbn in Hw. rewrite Em in Hw. cbn in Hw.
      destruct (smap_get s m) as [c|]; cbn in Hw; [|done]. by exists pre, n.
Qed.

Lemma prefix_snoc_inv {A} (pre l : list A) x : pre `prefix_of` l ++ [x] → pre = l ++ [x] ∨ pre `prefix_of` l.
Proof.
  intros [k Hk]. destruct k as [|y k _] using rev_ind; [left; by rewrite app_nil_r in Hk|right].
  rewrite app_assoc in Hk. apply app_inj_tail in Hk as [-> _]. by exists k.
Qed.

Lemma split_last (segs : list string) final : last segs = Some final → segs = removelast segs ++ [final].
Proof.
  intros H. apply last_Some in H as [l ->]. by rewrite removelast_last.
Qed.

(** ** Overlap *)

Lemma comparable_cons s y a b : comparable (s :: a) (y :: b) ↔ s = y ∧ comparable a b.
Proof.
  unfold comparable. split.
  - intros [H|H]; pose proof (prefix_cons_inv_1 _ _ _ _ H); apply prefix_cons_inv_2 in H; by split; [|auto].
  - intros [-> [H|H]]; [left|right]; by apply prefix_cons.
Qed.

Lemma split_app c s t : split c (s +:+ String c t) = split c s ++ split c t.
Proof.
  induction s as [|d s IH]; [rewrite append_nil_l; cbn [split]; by rewrite bool_decide_eq_true_2|].
  rewrite append_cons. cbn [split]. rewrite IH.
  case_bool_decide; [done|]. pose proof (split_nonempty c s). by destruct (split c s).
Qed.

Lemma split_pieces c l : l ≠ [] → split c (join c l) = concat (map (split c) l).
Proof.
  induction l as [|s l IH]; [done|]. intros _. destruct l as [|s' l]; [cbn; by rewrite app_nil_r|].
  rewrite join_cons by done. rewrite split_app. cbn [map concat]. f_equal. by apply IH.
Qed.

Lemma quoted_piece s y : plain y → contains_byte "." s = true →
  ∃ p l, split "." (quote_path_segment s) = p :: l ∧ p ≠ y.
Proof.
  intros [[_ Hy] _] Hs. unfold quote_path_segment. rewrite Hs. cbn [orb split].
  rewrite (bool_decide_eq_false_2 (QUOTE = "."%char)) by done.
  pose proof (split_nonempty "." (s +:+ quote_str)). destruct (split "." (s +:+ quote_str)) as [|h t]; [done|].
  exists (String QUOTE h), t. split; [done|]. intros <-. cbn in Hy. done.
Qed.

Lemma overlap_pieces segs sub :
  Forall good segs → Forall plain sub →
  pieces_overlap (concat (map (split ".") (map quote_path_segment segs))) sub = true ↔ comparable segs sub.
Proof.
  intros Hsegs. revert sub. induction Hsegs as [|s segs Hs Hsegs IH]; intros sub Hsub.
  { split; [intros _; left; apply prefix_nil|by destruct sub]. }
  destruct sub as [|y sub].
  { cbn. destruct (_ ++ _); split; try done; intros _; right; apply prefix_nil. }
  apply Forall_cons in Hsub as [Hy Hsub]. rewrite comparable_cons. cbn [map concat].
  destruct (contains_byte "." s) eqn:Hd.
  - destruct (quoted_piece s y Hy Hd) as (p & l & -> & Hp). cbn. rewrite bool_decide_eq_false_2 by done.
    split; [done|]. intros [-> _]. destruct Hy as [_ Hy]. congruence.
  - rewrite quote_plain by done. rewrite split_no_sep by done. cbn [app pieces_overlap].
    rewrite andb_true_iff, bool_decide_eq_true, IH by done. done.
Qed.

Lemma join_not_root l : l ≠ [] → Forall (λ s, s ≠ "" ∧ s ≠ ".") l → is_empty (join "." l) = false ∧ join "." l ≠ ".".
Proof.
  destruct l as [|s [|s' l]]; [done|..]; intros _ H; apply Forall_cons in H as [[H1 H2] H].
  - cbn. split; [|done]. destruct (is_empty s) eqn:E; [by apply is_empty_spec in E|done].
  - rewrite join_cons by done. destruct s as [|c s]; [done|]. split; [done|]. rewrite append_cons. intros [= _ E].
    by destruct s.
Qed.

Lemma quoted_not_dot s : good s → quote_path_segment s ≠ "" ∧ quote_path_segment s ≠ ".".
Proof.
  intros [Hne Hq]. unfold quote_path_segment. rewrite Hq, orb_false_r. destruct (contains_byte "." s) eqn:E; [done|].
  split; [done|]. by intros ->.
Qed.

Lemma plain_not_dot s : plain s → s ≠ "" ∧ s ≠ ".".
Proof. intros [[H _] Hd]. split; [done|]. by intros ->. Qed.

(** Whether a path, the root included, touches a subtree. *)
Lemma overlap_segments segs sub :
  Forall good segs → Forall plain sub →
  paths_overlap (join_path segs) (join "." sub) = true ↔ comparable segs sub.
Proof.
  intros Hsegs Hsub. unfold paths_overlap, join_path.
  destruct (decide (segs = [])) as [->|Hn]; [split; [intros _; left; apply prefix_nil|done]|].
  destruct (decide (sub = [])) as [->|Hm]; [split; [intros _; right; apply prefix_nil|]|].
  { cbn [join]. rewrite (bool_decide_eq_false_2 ("" = ".")) by done. by rewrite orb_true_r. }
  destruct (join_not_root (map quote_path_segment segs)) as [E1 E2].
  { by destruct segs. } { apply Forall_fmap. eapply Forall_impl; [exact Hsegs|]. intros s. apply quoted_not_dot. }
  destruct (join_not_root sub) as [E3 E4]; [done|eapply Forall_impl; [exact Hsub|apply plain_not_dot]|].
  rewrite !bool_decide_eq_false_2 by done. rewrite E1, E3. cbn [orb].
  rewrite split_pieces by by destruct segs. rewrite split_join.
  - by apply overlap_pieces.
  - done.
  - eapply Forall_impl; [exact Hsub|]. by intros s [_ ?].
Qed.

(** * Properties *)

(** C40: reading and writing a settings node agree. A write at a path is
    refused exactly when a node on the way to it is not a table; otherwise,
    whatever spelling of the path was used, reading it gives the value
    written, a path below it reads inside that value, and every path that is
    neither below nor above it reads what it read before. *)
Theorem path_set_get root path segs v :
  path_segments path = Some segs →
  ((∃ e, json_path_set root segs v = inl e)
   ↔ ∃ pre n, pre `prefix_of` segs ∧ pre ≠ segs ∧ walk root pre = Some n ∧ as_object n = None)
  ∧ ∀ root', json_path_set root segs v = inr root' →
      json_path_get root' path = Some v
      ∧ ∀ path' segs', path_segments path' = Some segs' →
          (∀ rest, segs' = segs ++ rest → json_path_get root' path' = walk v rest)
          ∧ (¬ comparable segs segs' → json_path_get root' path' = json_path_get root path').
Proof.
  intros Hp. destruct (path_segments_good _ _ Hp) as [Hn _]. pose proof (path_segments_not_root _ _ Hp) as Hr.
  unfold json_path_set. destruct (last segs) as [final|] eqn:El; [|by apply last_None in El].
  pose proof (split_last _ _ El) as Hs. set (parents := removelast segs) in *. split.
  - rewrite set_below_refused. split; intros (pre & n & Hpre & Hrest).
    + exists pre, n. split; [rewrite Hs; by apply prefix_app_r|]. split; [|exact Hrest].
      intros ->. apply prefix_length in Hpre. rewrite Hs, length_app in Hpre. cbn in Hpre. lia.
    + destruct Hrest as (Hne & Hw & Ho). exists pre, n. split; [|done].
      rewrite Hs in Hpre. apply prefix_snoc_inv in Hpre as [->|?]; [congruence|done].
  - intros root' H. apply set_below_spec in H as [H1 H2]. rewrite <- Hs in H2. split.
    { unfold json_path_get. rewrite Hr, Hp. cbn [mbind option_bind]. rewrite Hs. apply (H1 []). }
    intros path' segs' Hp'. unfold json_path_get. rewrite (path_segments_not_root _ _ Hp'), Hp'. cbn [mbind option_bind].
    split; [|by apply H2]. intros rest ->. rewrite Hs, <- app_assoc. apply H1.
Qed.

Definition sample_tree : value :=
  Object [("hostname", Str "mica"); ("network", Object [("eth0.100", Object [("dhcp", Bool true)])])].
Definition sample_path : string := "network." +:+ quote_str +:+ "eth0.100" +:+ quote_str +:+ ".dhcp".

Lemma path_set_get_witness :
  ((∃ e, json_path_set sample_tree ["network"; "eth0.100"; "dhcp"] (Bool false) = inl e)
   ↔ ∃ pre n, pre `prefix_of` ["network"; "eth0.100"; "dhcp"] ∧ pre ≠ ["network"; "eth0.100"; "dhcp"]
              ∧ walk sample_tree pre = Some n ∧ as_object n = None)
  ∧ ∀ root', json_path_set sample_tree ["network"; "eth0.100"; "dhcp"] (Bool false) = inr root' →
      json_path_get root' sample_path = Some (Bool false)
      ∧ ∀ path' segs', path_segments path' = Some segs' →
          (∀ rest, segs' = ["network"; "eth0.100"; "dhcp"] ++ rest → json_path_get root' path' = walk (Bool false) rest)
          ∧ (¬ comparable ["network"; "eth0.100"; "dhcp"] segs' → json_path_get root' path' = json_path_get sample_tree path').
Proof. apply (path_set_get sample_tree sample_path). vm_compute. reflexivity. Defined.

End DotPath.
