(* ===== verification/ApplyQueue.v ===== *)
(** The queue of reconciles ([src/crates/micad/src/apply_queue.rs], and the
    worker of [src/crates/micad/src/bus/apply.rs]): jobs that fold into each
    other, a bounded task history, and the one worker that drains it. *)
From Stdlib Require Import Ascii.
From S2P Require Import Prelude Text Order Maps Features DotPath.
Import DotPath.

Module ApplyQueue.

(** * State *)

Definition MAX_TASKS : nat := 128.

Record TaskRecord := {
  t_id : string; t_operation : string; t_kind : string; t_dot_path : string; t_source : string;
  t_status : string; t_phase : string; t_enqueued_at : string; t_started_at : option string;
  t_finished_at : option string; t_outcome : option string; t_message : option string;
  t_interfaces : list string; t_folded_count : Z;
}.
Definition terminal (r : TaskRecord) : bool := bool_decide (t_status r = "finished").

Record ApplyJob := { j_id : string; j_dot_path : string }.

Record State := {
  boot_id : string; next_id : Z; pending : list ApplyJob; order : list string; records : gmap string TaskRecord;
}.
Record Enqueued := { e_record : TaskRecord; e_created : bool }.

Definition new (boot : string) : State :=
  {| boot_id := boot; next_id := 0; pending := []; order := []; records := ∅ |}.

(** * Paths *)

(** [path_subsumes]: segment-wise containment. *)
Definition subsumed_segments (path : string) : option (list string) :=
  if is_root path then Some [] else path_segments path.
Fixpoint is_prefix (a b : list string) : bool :=
  match a, b with
  | [], _ => true
  | x :: a', y :: b' => bool_decide (x = y) && is_prefix a' b'
  | _, _ => false
  end.
Definition path_subsumes (parent child : string) : bool :=
  match subsumed_segments parent, subsumed_segments child with
  | Some parent, Some child => is_prefix parent child
  | _, _ => false
  end.

Definition kind_of (dot_path : string) : string :=
  if paths_overlap dot_path "network" then "network.apply" else "settings.apply".

(** * Identifiers *)

(** [{:x}] of a [u64]: sixteen digits are enough. *)
Definition hex_digit (z : Z) : ascii := if z <? 10 then val_byte (48 + z) else val_byte (87 + z).
Fixpoint hex_go (fuel : nat) (n : Z) (acc : string) : string :=
  match fuel with
  | O => acc
  | S f => let acc := String (hex_digit (n mod 16)) acc in if n <? 16 then acc else hex_go f (n / 16) acc
  end.
Definition to_hex (n : Z) : string := hex_go 16 n "".
Definition task_id (boot : string) (n : Z) : string := boot +:+ "-" +:+ to_hex n.

(** * Operations *)

Definition set_kind_path (dot_path : string) (r : TaskRecord) : TaskRecord :=
  {| t_id := t_id r; t_operation := t_operation r; t_kind := kind_of dot_path; t_dot_path := dot_path;
     t_source := t_source r; t_status := t_status r; t_phase := t_phase r; t_enqueued_at := t_enqueued_at r;
     t_started_at := t_started_at r; t_finished_at := t_finished_at r; t_outcome := t_outcome r;
     t_message := t_message r; t_interfaces := t_interfaces r; t_folded_count := wrap64 (t_folded_count r + 1) |}.

(** Fold a request into the pending job at [index], whose path becomes
    [dot_path]; [None] is the panic of a job without a record. *)
Definition fold_into (index : nat) (dot_path : string) (s : State) : option (Enqueued * State) :=
  job ← pending s !! index;
  record ← records s !! j_id job;
  let record := set_kind_path dot_path record in
  Some ({| e_record := record; e_created := false |},
        {| boot_id := boot_id s; next_id := next_id s;
           pending := <[index := {| j_id := j_id job; j_dot_path := dot_path |}]> (pending s);
           order := order s; records := <[j_id job := record]> (records s) |}).

(** The oldest finished task, with its place in the order. *)
Definition oldest_terminal (s : State) : option (nat * string) :=
  list_find (λ id, bool_decide (terminal <$> records s !! id = Some true) = true) (order s).
Definition drop_task (at_ : nat * string) (s : State) : State :=
  {| boot_id := boot_id s; next_id := next_id s; pending := pending s;
     order := delete at_.1 (order s); records := delete at_.2 (records s) |}.

Definition queued_record (id now operation kind dot_path source : string) : TaskRecord :=
  {| t_id := id; t_operation := operation; t_kind := kind; t_dot_path := dot_path; t_source := source;
     t_status := "queued"; t_phase := "saved"; t_enqueued_at := now; t_started_at := None; t_finished_at := None;
     t_outcome := None; t_message := None; t_interfaces := []; t_folded_count := 0 |}.

(** A new task; [queued] adds the job the worker takes. *)
Definition add_task (queued : bool) (now operation kind dot_path source : string) (s : State) : TaskRecord * State :=
  let n := wrap64 (next_id s + 1) in
  let id := task_id (boot_id s) n in
  let record := queued_record id now operation kind dot_path source in
  (record,
   {| boot_id := boot_id s; next_id := n;
      pending := pending s ++ (if queued then [{| j_id := id; j_dot_path := dot_path |}] else []);
      order := order s ++ [id]; records := <[id := record]> (records s) |}).

Definition foldable (dot_path : string) (job : ApplyJob) : bool :=
  path_subsumes (j_dot_path job) dot_path || path_subsumes dot_path (j_dot_path job).

Definition enqueue (now operation dot_path source : string) (s : State) : option (Enqueued * State) :=
  match list_find (λ job, foldable dot_path job = true) (pending s) with
  | Some (index, job) =>
      fold_into index (if path_subsumes dot_path (j_dot_path job) then dot_path else j_dot_path job) s
  | None =>
      let insert s :=
        let '(record, s) := add_task true now operation (kind_of dot_path) dot_path source s in
        Some ({| e_record := record; e_created := true |}, s) in
      if (MAX_TASKS <=? size (records s))%nat then
        match oldest_terminal s with
        | Some at_ => insert (drop_task at_ s)
        | None => match pending s with [] => insert s | _ => fold_into 0 "" s end
        end
      else insert s
  end.

Definition open (now operation kind dot_path source : string) (s : State) : TaskRecord * State :=
  let s :=
    if (MAX_TASKS <=? size (records s))%nat
    then match oldest_terminal s with Some at_ => drop_task at_ s | None => s end
    else s in
  add_task false now operation kind dot_path source s.

(** [next], once a job is there. *)
Definition next (s : State) : option (ApplyJob * State) :=
  match pending s with
  | [] => None
  | job :: rest =>
      Some (job, {| boot_id := boot_id s; next_id := next_id s; pending := rest; order := order s; records := records s |})
  end.

Definition with_record (id : string) (f : TaskRecord → TaskRecord) (s : State) : option (TaskRecord * State) :=
  record ← records s !! id;
  Some (f record, {| boot_id := boot_id s; next_id := next_id s; pending := pending s; order := order s;
                     records := <[id := f record]> (records s) |}).
Definition start (now id : string) : State → option (TaskRecord * State) :=
  with_record id (λ r,
    {| t_id := t_id r; t_operation := t_operation r; t_kind := t_kind r; t_dot_path := t_dot_path r;
       t_source := t_source r; t_status := "running"; t_phase := "applying"; t_enqueued_at := t_enqueued_at r;
       t_started_at := Some now; t_finished_at := t_finished_at r; t_outcome := t_outcome r;
       t_message := t_message r; t_interfaces := t_interfaces r; t_folded_count := t_folded_count r |}).
Definition finish (now id outcome : string) (message : option string) (interfaces : list string) :
    State → option (TaskRecord * State) :=
  with_record id (λ r,
    {| t_id := t_id r; t_operation := t_operation r; t_kind := t_kind r; t_dot_path := t_dot_path r;
       t_source := t_source r; t_status := "finished"; t_phase := "applied"; t_enqueued_at := t_enqueued_at r;
       t_started_at := t_started_at r; t_finished_at := Some now; t_outcome := Some outcome;
       t_message := message; t_interfaces := interfaces; t_folded_count := t_folded_count r |}).

Definition get (id : string) (s : State) : option TaskRecord := records s !! id.
Definition snapshot (s : State) : list TaskRecord := omap (λ id, records s !! id) (order s).

(** * The daemon around the queue *)

(** What a reconciler owns and reads, and whether an apply at a path runs it. *)
Record Reconciler := { r_name : string; r_subtree : string; r_reads : list string }.
Definition runs (path : string) (r : Reconciler) : bool :=
  existsb (paths_overlap path) (r_subtree r :: r_reads r).

(** The queue, the job the one worker is running, and the tasks of app flows. *)
Record Daemon := { d_queue : State; d_working : option string; d_flows : gset string }.
Definition daemon (boot : string) : Daemon := {| d_queue := new boot; d_working := None; d_flows := ∅ |}.

Inductive label :=
| Enqueue (dot_path : string) (answer : Enqueued)
| Open (id : string)
| Take (job : ApplyJob)
| Start (id : string)
| Finish (id : string)
| Panic.

(** One call under the queue's lock: a settings write enqueues; the worker,
    when idle, takes the oldest job, and starts and finishes it; an app flow
    opens a task, and starts and finishes it itself. *)
Inductive step : Daemon → label → Daemon → Prop :=
| step_enqueue d now operation dot_path source answer q :
    enqueue now operation dot_path source (d_queue d) = Some (answer, q) →
    step d (Enqueue dot_path answer) {| d_queue := q; d_working := d_working d; d_flows := d_flows d |}
| step_panic d now operation dot_path source :
    enqueue now operation dot_path source (d_queue d) = None → step d Panic d
| step_open d now operation kind dot_path source record q :
    open now operation kind dot_path source (d_queue d) = (record, q) →
    step d (Open (t_id record))
      {| d_queue := q; d_working := d_working d; d_flows := {[t_id record]} ∪ d_flows d |}
| step_take d job q :
    d_working d = None → next (d_queue d) = Some (job, q) →
    step d (Take job) {| d_queue := q; d_working := Some (j_id job); d_flows := d_flows d |}
| step_start d now id record q :
    d_working d = Some id ∨ id ∈ d_flows d → start now id (d_queue d) = Some (record, q) →
    step d (Start id) {| d_queue := q; d_working := d_working d; d_flows := d_flows d |}
| step_skip d now id :
    d_working d = Some id → start now id (d_queue d) = None →
    step d (Start id) {| d_queue := d_queue d; d_working := None; d_flows := d_flows d |}
| step_finish d now id outcome message interfaces record q :
    d_working d = Some id → finish now id outcome message interfaces (d_queue d) = Some (record, q) →
    step d (Finish id) {| d_queue := q; d_working := None; d_flows := d_flows d |}
| step_finish_flow d now id outcome message interfaces record q :
    id ∈ d_flows d → finish now id outcome message interfaces (d_queue d) = Some (record, q) →
    step d (Finish id) {| d_queue := q; d_working := d_working d; d_flows := d_flows d |}.

Inductive steps : Daemon → list label → Daemon → Prop :=
| steps_nil d : steps d [] d
| steps_snoc d t d' l d'' : steps d t d' → step d' l d'' → steps d (t ++ [l]) d''.

(** * Lemmas *)

(** ** Identifiers *)

Definition hex_digit_val (c : ascii) : Z := if byte_val c <? 58 then byte_val c - 48 else byte_val c - 87.
Fixpoint hex_value (s : string) (acc : Z) : Z :=
  match s with EmptyString => acc | String c s' => hex_value s' (acc * 16 + hex_digit_val c) end.

Lemma hex_digit_spec z : 0 ≤ z < 16 → hex_digit_val (hex_digit z) = z.
Proof.
  intros Hz. unfold hex_digit_val, hex_digit.
  destruct (Z.ltb_spec z 10); rewrite byte_val_val_byte, Z.mod_small by lia; case_match; bools; try lia.
Qed.

Lemma hex_go_value fuel n acc :
  (0 < fuel)%nat → 0 ≤ n < 16 ^ Z.of_nat fuel → hex_value (hex_go fuel n acc) 0 = hex_value acc n.
Proof.
  revert n acc. induction fuel as [|f IH]; intros n acc Hf Hn; [lia|]. cbn [hex_go].
  pose proof (Z.mod_pos_bound n 16 ltac:(lia)) as Hm. pose proof (Z.div_mod n 16 ltac:(lia)) as Hd.
  destruct (Z.ltb_spec n 16) as [Hlt|Hge].
  - cbn [hex_value]. rewrite hex_digit_spec by lia. by rewrite Z.mod_small by lia.
  - assert (Hf0 : (0 < f)%nat). { destruct f; [|lia]. change (16 ^ Z.of_nat 1) with 16 in Hn. lia. }
    rewrite IH; [|done|].
    + cbn [hex_value]. rewrite hex_digit_spec by lia. f_equal. lia.
    + rewrite Nat2Z.inj_succ, Z.pow_succ_r in Hn by lia. split; [apply Z.div_pos; lia|apply Z.div_lt_upper_bound; lia].
Qed.

Lemma task_id_inj boot m n : is_u64 m → is_u64 n → task_id boot m = task_id boot n → m = n.
Proof.
  unfold is_u64, U64_MAX, task_id. intros Hm Hn H. apply append_cut in H. apply append_cut in H.
  apply (f_equal (λ s, hex_value s 0)) in H. unfold to_hex in H.
  assert (Hp : 16 ^ Z.of_nat 16 = 18446744073709551616) by reflexivity.
  rewrite !hex_go_value in H by lia. exact H.
Qed.

(** ** Coverage *)

(** What a job at [parent] reconciles includes what a write at [child] changed. *)
Definition covers (parent child : string) : Prop :=
  parent = child ∨ is_root parent = true ∨ path_subsumes parent child = true.

Lemma is_prefix_spec a b : is_prefix a b = true ↔ a `prefix_of` b.
Proof.
  revert b. induction a as [|x a IH]; intros [|y b]; cbn.
  - split; [intros _; apply prefix_nil|done].
  - split; [intros _; apply prefix_nil|done].
  - split; [done|]. intros H. by apply prefix_nil_inv in H.
  - rewrite andb_true_iff, bool_decide_eq_true, IH. split; [intros [-> H]; by apply prefix_cons|].
    intros H. split; [by eapply prefix_cons_inv_1|by eapply prefix_cons_inv_2].
Qed.

Lemma subsumes_spec a b :
  path_subsumes a b = true ↔
  ∃ la lb, subsumed_segments a = Some la ∧ subsumed_segments b = Some lb ∧ la `prefix_of` lb.
Proof.
  unfold path_subsumes. destruct (subsumed_segments a) as [la|], (subsumed_segments b) as [lb|];
    try (by split; [|intros (? & ? & ? & ? & ?)]).
  rewrite is_prefix_spec. split; [intros H; by exists la, lb|by intros (? & ? & [= <-] & [= <-] & ?)].
Qed.

Lemma subsumed_root a : subsumed_segments a = Some [] → is_root a = true.
Proof.
  unfold subsumed_segments. destruct (is_root a); [done|]. intros H. by apply path_segments_good in H as [? _].
Qed.

Lemma covers_trans a b c : covers a b → covers b c → covers a c.
Proof.
  unfold covers. intros [->|[Ha|Hab]]; [done|by auto|]. intros [<-|[Hb|Hbc]]; [by auto|..].
  - apply subsumes_spec in Hab as (la & lb & Ea & Eb & Hp). right. left. unfold subsumed_segments in Eb. rewrite Hb in Eb.
    injection Eb as <-. apply prefix_nil_inv in Hp as ->. by apply subsumed_root.
  - right. right. apply subsumes_spec in Hab as (la & lb & Ea & Eb & Hp), Hbc as (lb' & lc & Eb' & Ec & Hp').
    apply subsumes_spec. simplify_eq. exists la, lc. split; [done|]. split; [done|]. by etransitivity.
Qed.

(** The paths whose segments are quoted only where they must be. *)
Definition canonical (path : string) : Prop := path = "." ∨ ∃ segs, Forall good segs ∧ path = join_path segs.

Lemma canonical_segments path :
  canonical path → ∃ segs, Forall good segs ∧ subsumed_segments path = Some segs
    ∧ ∀ sub, paths_overlap path sub = paths_overlap (join_path segs) sub.
Proof.
  intros [->|(segs & Hs & ->)]; [by exists []|]. exists segs. split; [done|]. split; [|done]. unfold subsumed_segments.
  destruct (decide (segs = [])) as [->|Hn]; [done|]. rewrite (path_segments_not_root _ segs); by apply segments_join.
Qed.

Lemma prefix_comparable (a b c : list string) : a `prefix_of` b → comparable b c → comparable a c.
Proof.
  intros Hab [H|H]; [left; by etransitivity|]. by apply (prefix_weak_total a c b).
Qed.

(** A job whose path covers a written one runs every reconciler the write touches. *)
Lemma covers_overlap parent child sub :
  canonical parent → canonical child → covers parent child → Forall plain sub →
  paths_overlap child (join "." sub) = true → paths_overlap parent (join "." sub) = true.
Proof.
  intros Hp Hc [->|H] Hs Ho; [done|].
  destruct (canonical_segments _ Hp) as (ps & Hps & Eps & Ops), (canonical_segments _ Hc) as (cs & Hcs & Ecs & Ocs).
  rewrite Ops. rewrite Ocs in Ho. apply overlap_segments in Ho; [|done..]. apply overlap_segments; [done..|].
  assert (Hpre : ps `prefix_of` cs); [|by eapply prefix_comparable].
  destruct H as [Hr|H].
  - unfold subsumed_segments in Eps. rewrite Hr in Eps. injection Eps as <-. apply prefix_nil.
  - apply subsumes_spec in H as (? & ? & ? & ? & ?). by simplify_eq.
Qed.

(** ** The state *)

Definition job_ids (s : State) : list string := map j_id (pending s).
Definition issued (s : State) (id : string) : Prop := ∃ k, 1 ≤ k ≤ next_id s ∧ id = task_id (boot_id s) k.

(** [held]: the tasks the worker and the app flows are running. *)
Record inv (s : State) (held : gset string) : Prop := {
  v_next : 0 ≤ next_id s;
  v_issued : ∀ id, is_Some (records s !! id) → issued s id;
  v_held : ∀ id, id ∈ held → issued s id ∧ id ∉ job_ids s;
  v_order : NoDup (order s);
  v_listed : ∀ id, id ∈ order s ↔ is_Some (records s !! id);
  v_jobs : NoDup (job_ids s);
  v_queued : ∀ job, job ∈ pending s →
    ∃ r, records s !! j_id job = Some r ∧ t_status r = "queued" ∧ t_dot_path r = j_dot_path job;
  v_busy : ∀ id r, records s !! id = Some r → terminal r = false → id ∈ job_ids s ∨ id ∈ held;
}.

Lemma inv_new boot : inv (new boot) ∅.
Proof.
  assert (Hempty : ∀ id, ¬ is_Some ((∅ : gmap string TaskRecord) !! id)) by (intros id [? H]; by rewrite lookup_empty in H).
  split; cbn; [lia|..|constructor| |constructor| |].
  - by intros id H%Hempty.
  - set_solver.
  - intros id. split; [by intros ?%elem_of_nil|by intros H%Hempty].
  - by intros job ?%elem_of_nil.
  - by intros id r H.
Qed.

Lemma inv_shrink s held held' :
  inv s held → held' ⊆ held →
  (∀ id r, id ∈ held → id ∉ held' → records s !! id = Some r → terminal r = true) → inv s held'.
Proof.
  intros [] Hsub Hdone. split; try done; [set_solver|]. intros id r Hr Ht.
  destruct (v_busy0 id r Hr Ht) as [?|Hh]; [by left|right].
  destruct (decide (id ∈ held')); [done|]. exfalso. specialize (Hdone id r Hh ltac:(done) Hr). congruence.
Qed.

Lemma queued_not_terminal r : t_status r = "queued" → terminal r = false.
Proof. unfold terminal. by intros ->. Qed.

Lemma job_listed s job : job ∈ pending s → j_id job ∈ job_ids s.
Proof. intros H. by apply list_elem_of_fmap_2. Qed.

Lemma fold_ok s held i path :
  inv s held → (i < length (pending s))%nat →
  ∃ job e q, pending s !! i = Some job ∧ fold_into i path s = Some (e, q) ∧ inv q held
    ∧ pending q = <[i := {| j_id := j_id job; j_dot_path := path |}]> (pending s)
    ∧ dom (records q) = dom (records s) ∧ next_id q = next_id s.
Proof.
  intros [] Hi. apply lookup_lt_is_Some_2 in Hi as [job Hj]. unfold fold_into. rewrite Hj. cbn [mbind option_bind].
  destruct (v_queued0 job) as (r & Hr & Hs & Hp); [by eapply list_elem_of_lookup_2|]. rewrite Hr. cbn [mbind option_bind].
  set (job' := {| j_id := j_id job; j_dot_path := path |}). set (r' := set_kind_path path r).
  exists job. eexists _, _. split; [done|]. split; [reflexivity|].
  assert (Hids : map j_id (<[i := job']> (pending s)) = job_ids s).
  { unfold job_ids. change (map j_id (<[i := job']> (pending s))) with (j_id <$> <[i := job']> (pending s)).
    rewrite list_fmap_insert. apply list_insert_id. by rewrite list_lookup_fmap, Hj. }
  split; [|by split; [|split; [cbn; rewrite dom_insert_lookup_L by (by eexists)|]]].
  split; cbn; unfold job_ids; cbn; rewrite ?Hids; try done.
  - intros id Hid. apply v_issued0. destruct (decide (id = j_id job)) as [->|]; [by eexists|by rewrite lookup_insert_ne in Hid].
  - intros id. rewrite v_listed0. destruct (decide (id = j_id job)) as [->|]; [|by rewrite lookup_insert_ne].
    rewrite lookup_insert_eq, Hr. split; by eexists.
  - intros job2 H2. apply list_elem_of_lookup in H2 as [k Hk]. destruct (decide (i = k)) as [->|Hne].
    + rewrite list_lookup_insert_eq in Hk by by eapply lookup_lt_Some. injection Hk as <-. exists r'.
      split; [apply lookup_insert_eq|done].
    + rewrite list_lookup_insert_ne in Hk by done.
      assert (Hd : j_id job2 ≠ j_id job).
      { intros E. apply Hne. eapply (NoDup_lookup _ _ _ _ v_jobs0); unfold job_ids;
          change (map j_id (pending s)) with (j_id <$> pending s); rewrite list_lookup_fmap; [by rewrite Hj|by rewrite Hk; cbn; rewrite E]. }
      destruct (v_queued0 job2) as (r2 & Hr2 & H2); [by eapply list_elem_of_lookup_2|]. exists r2.
      by rewrite lookup_insert_ne.
  - intros id r2 H2 Ht. destruct (decide (id = j_id job)) as [->|]; [|rewrite lookup_insert_ne in H2 by done; by eapply v_busy0].
    left. apply job_listed. by eapply list_elem_of_lookup_2.
Qed.

Lemma elem_of_delete_nodup {A} (l : list A) i x y :
  NoDup l → l !! i = Some x → y ∈ delete i l ↔ y ∈ l ∧ y ≠ x.
Proof.
  intros Hn Hi. rewrite delete_take_drop. pose proof (take_drop_middle l i x Hi) as E. rewrite <- E in Hn.
  assert (Hy : y ∈ l ↔ y ∈ take i l ++ x :: drop (S i) l) by by rewrite E.
  rewrite Hy, !elem_of_app, elem_of_cons. apply NoDup_app in Hn as (_ & H1 & H2). apply NoDup_cons in H2 as [H2 _].
  split; [intros [H|H]|intros [[?|[?|?]] ?]; by auto].
  - split; [by left|]. intros ->. eapply H1; [exact H|by left].
  - split; [by auto|]. by intros ->.
Qed.

Lemma oldest_terminal_some s at_ :
  oldest_terminal s = Some at_ →
  order s !! at_.1 = Some at_.2 ∧ ∃ r, records s !! at_.2 = Some r ∧ terminal r = true.
Proof.
  unfold oldest_terminal. destruct at_ as [i id]. intros H. apply list_find_Some in H as (Hi & H & _).
  apply bool_decide_eq_true in H. split; [exact Hi|]. cbn. destruct (records s !! id) as [r|]; [|done].
  exists r. split; [done|]. by injection H.
Qed.

Lemma drop_ok s held at_ :
  inv s held → oldest_terminal s = Some at_ →
  inv (drop_task at_ s) held ∧ size (records s) = S (size (records (drop_task at_ s))).
Proof.
  intros [] H. destruct (oldest_terminal_some _ _ H) as (Hi & r & Hr & Ht). destruct at_ as [i id]. cbn in *.
  assert (Hnot : ∀ job, job ∈ pending s → j_id job ≠ id).
  { intros job Hj <-. destruct (v_queued0 job Hj) as (r' & Hr' & Hs & _). rewrite Hr in Hr'. injection Hr' as <-.
    apply queued_not_terminal in Hs. congruence. }
  split.
  - split; unfold drop_task; cbn; try done.
    + intros id' [r' Hr']. apply lookup_delete_Some in Hr' as [_ Hr']. apply v_issued0. by eexists.
    + eapply sublist_NoDup; [exact v_order0|apply sublist_delete].
    + intros id'. rewrite (elem_of_delete_nodup _ _ id) by done. rewrite v_listed0.
      split; [intros [? ?]; by rewrite lookup_delete_ne|]. intros [r' Hr']. apply lookup_delete_Some in Hr' as [? Hr'].
      split; [by eexists|done].
    + intros job Hj. destruct (v_queued0 job Hj) as (r' & ? & ?). exists r'. rewrite lookup_delete_ne; [done|].
      intros E. by apply (Hnot job).
    + intros id' r' Hr'. apply lookup_delete_Some in Hr' as [_ Hr']. by apply v_busy0.
  - unfold drop_task. cbn. rewrite map_size_delete_Some by by eexists.
    assert (size (records s) ≠ 0%nat). { intros E. apply map_size_empty_inv in E. rewrite E in Hr. by rewrite lookup_empty in Hr. }
    lia.
Qed.

Lemma wrap64_next n : 0 ≤ n < U64_MAX → wrap64 (n + 1) = n + 1.
Proof. intros H. apply wrap64_small. unfold is_u64. lia. Qed.

Lemma fresh_id s id : 0 ≤ next_id s < U64_MAX → issued s id → id ≠ task_id (boot_id s) (next_id s + 1).
Proof.
  intros Hn (k & Hk & ->) E. apply task_id_inj in E; unfold is_u64; lia.
Qed.

Lemma issued_later s s' id :
  boot_id s' = boot_id s → next_id s ≤ next_id s' → issued s id → issued s' id.
Proof. intros Hb Hn (k & Hk & ->). exists k. rewrite Hb. split; [lia|done]. Qed.

(** The tasks being run once [id] is added: itself, unless the worker takes it. *)
Definition held_after (queued : bool) (id : string) (held : gset string) : gset string :=
  if queued then held else {[id]} ∪ held.

Lemma add_ok s held queued now operation kind dot_path source record q :
  inv s held → next_id s < U64_MAX →
  add_task queued now operation kind dot_path source s = (record, q) →
  inv q (held_after queued (t_id record) held)
  ∧ size (records q) = S (size (records s)) ∧ next_id q = next_id s + 1
  ∧ pending q = pending s ++ (if queued then [{| j_id := t_id record; j_dot_path := dot_path |}] else [])
  ∧ t_dot_path record = dot_path.
Proof.
  intros [] Hmax H. unfold add_task in H. rewrite wrap64_next in H by lia.
  set (id := task_id (boot_id s) (next_id s + 1)) in *. set (r := queued_record id now operation kind dot_path source) in *.
  injection H as <- <-. cbn [t_id r queued_record].
  assert (Hfresh : ∀ x, issued s x → x ≠ id) by (intros x; apply fresh_id; lia).
  assert (Hnone : records s !! id = None).
  { apply eq_None_not_Some. intros Hs. by apply (Hfresh id (v_issued0 id Hs)). }
  assert (Hlater : ∀ x p o rs, issued s x →
    issued {| boot_id := boot_id s; next_id := next_id s + 1; pending := p; order := o; records := rs |} x).
  { intros. eapply (issued_later s); [done|cbn; lia|done]. }
  assert (Hjobs : ∀ x, x ∈ job_ids s → issued s x).
  { intros x (job & -> & Hj)%list_elem_of_fmap. destruct (v_queued0 job Hj) as (r' & Hr' & _). apply v_issued0. by eexists. }
  assert (Hmap : map j_id (pending s ++ (if queued then [{| j_id := id; j_dot_path := dot_path |}] else []))
                 = job_ids s ++ (if queued then [id] else [])) by (rewrite map_app; by destruct queued).
  split; [|split; [|done]]; [|cbn; by apply map_size_insert_None].
  split; cbn; unfold job_ids; cbn; rewrite ?Hmap; [lia|..].
  - intros x Hx. destruct (decide (x = id)) as [->|]; [exists (next_id s + 1); split; [cbn; lia|done]|].
    rewrite lookup_insert_ne in Hx by done. apply Hlater. by apply v_issued0.
  - intros x Hx. destruct (decide (x = id)) as [->|Hne].
    + destruct queued; cbn in Hx; [by destruct (Hfresh id (proj1 (v_held0 id Hx)))|].
      split; [exists (next_id s + 1); split; [cbn; lia|done]|]. rewrite app_nil_r. intros Hj. by apply (Hfresh id (Hjobs id Hj)).
    + assert (Hh : x ∈ held) by (destruct queued; cbn in Hx; set_solver).
      destruct (v_held0 x Hh) as [Hi Hn]. split; [by apply Hlater|]. rewrite elem_of_app.
      intros [?|Hl]; [done|]. destruct queued; [by apply list_elem_of_singleton in Hl|by apply elem_of_nil in Hl].
  - apply NoDup_app. split; [done|]. split; [|apply NoDup_singleton]. intros x Hx ->%list_elem_of_singleton.
    apply v_listed0 in Hx. by apply (Hfresh id (v_issued0 id Hx)).
  - intros x. rewrite elem_of_app, list_elem_of_singleton, v_listed0. destruct (decide (x = id)) as [->|].
    + rewrite lookup_insert_eq. split; [by eexists|by right].
    + rewrite lookup_insert_ne by done. split; [by intros [?|?]|by left].
  - apply NoDup_app. split; [done|]. destruct queued; [|split; [by intros ? _ ?%elem_of_nil|constructor]].
    split; [|apply NoDup_singleton]. intros x Hx ->%list_elem_of_singleton. by apply (Hfresh id (Hjobs id Hx)).
  - intros job [Hj|Hj]%elem_of_app.
    + destruct (v_queued0 job Hj) as (r' & Hr' & Hrest). exists r'. rewrite lookup_insert_ne; [done|].
      intros E. apply (Hfresh (j_id job)); [|done]. apply Hjobs. by apply job_listed.
    + destruct queued; [|by apply elem_of_nil in Hj]. apply list_elem_of_singleton in Hj as ->. exists r.
      split; [apply lookup_insert_eq|done].
  - intros x r' Hr' Ht. rewrite elem_of_app. destruct (decide (x = id)) as [->|Hne].
    + destruct queued; cbn; [left; right; by apply list_elem_of_singleton|right; set_solver].
    + rewrite lookup_insert_ne in Hr' by done. destruct (v_busy0 x r' Hr' Ht) as [?|?]; [auto|].
      right. destruct queued; cbn; set_solver.
Qed.

Lemma take_ok s held job q :
  inv s held → next s = Some (job, q) →
  inv q ({[j_id job]} ∪ held) ∧ pending s = job :: pending q ∧ records q = records s ∧ next_id q = next_id s.
Proof.
  intros [] H. unfold next in H. destruct (pending s) as [|job' rest] eqn:Ep; [done|]. injection H as -> <-.
  unfold job_ids in *. rewrite Ep in *. cbn in v_jobs0. apply NoDup_cons in v_jobs0 as [Hnot Hnd]. split; [|done].
  split; cbn; try done.
  - intros id [->%elem_of_singleton|Hid]%elem_of_union.
    + split; [|exact Hnot]. destruct (v_queued0 job ltac:(by left)) as (r & Hr & _). apply v_issued0. by eexists.
    + destruct (v_held0 id Hid) as [Hi Hn]. split; [done|]. intros ?. apply Hn. by right.
  - intros job' Hj. apply v_queued0. by right.
  - intros id r Hr Ht. destruct (v_busy0 id r Hr Ht) as [Hi|?]; [|right; set_solver].
    cbn in Hi. apply elem_of_cons in Hi as [->|?]; [right; set_solver|by left].
Qed.

Lemma record_ok s held id f record q :
  inv s held → id ∈ held → (∀ r, t_dot_path (f r) = t_dot_path r) → with_record id f s = Some (record, q) →
  inv q held ∧ pending q = pending s ∧ next_id q = next_id s ∧ dom (records q) = dom (records s)
  ∧ records q !! id = Some record ∧ ∃ r, record = f r.
Proof.
  intros [] Hid Hf H. unfold with_record in H. destruct (records s !! id) as [r|] eqn:Er; [|done]. cbn in H. injection H as <- <-.
  destruct (v_held0 id Hid) as [Hi Hn]. split; [|split; [done|split; [done|split; [cbn; by rewrite dom_insert_lookup_L by (by eexists)|split; [apply lookup_insert_eq|by eexists]]]]].
  split; cbn; try done.
  - intros x Hx. destruct (decide (x = id)) as [->|]; [done|]. rewrite lookup_insert_ne in Hx by done. by apply v_issued0.
  - intros x. rewrite v_listed0. destruct (decide (x = id)) as [->|]; [|by rewrite lookup_insert_ne].
    rewrite lookup_insert_eq, Er. split; by eexists.
  - intros job Hj. destruct (v_queued0 job Hj) as (r' & Hr' & Hrest). exists r'. rewrite lookup_insert_ne; [done|].
    intros ->. apply Hn. by apply job_listed.
  - intros x r' Hr' Ht. destruct (decide (x = id)) as [->|]; [by right|]. rewrite lookup_insert_ne in Hr' by done.
    by eapply v_busy0.
Qed.

(** With no finished task and no queued one, every task is one being run. *)
Lemma all_held s held :
  inv s held → oldest_terminal s = None → pending s = [] → (size (records s) ≤ size held)%nat.
Proof.
  intros [] Hold Hp. rewrite <- size_dom. apply subseteq_size. intros id Hid. apply elem_of_dom in Hid as [r Hr].
  unfold oldest_terminal in Hold. apply list_find_None in Hold. rewrite Forall_forall in Hold.
  specialize (Hold id). rewrite v_listed0, bool_decide_eq_true, Hr in Hold.
  destruct (v_busy0 id r Hr) as [Hj|?]; [|unfold job_ids in Hj; rewrite Hp in Hj; by apply elem_of_nil in Hj|done].
  destruct (terminal r) eqn:Et; [|done]. destruct Hold; [by eexists|]. cbn. by rewrite Et.
Qed.

(** ** Steps *)

(** What an enqueue does to the jobs: those before are still covered, the
    written path is, and a job's path is the root, the written one or an old one. *)
Definition carried (dot_path : string) (before after : list ApplyJob) : Prop :=
  (∃ job, job ∈ after ∧ covers (j_dot_path job) dot_path)
  ∧ (∀ job, job ∈ before → ∃ job', job' ∈ after ∧ covers (j_dot_path job') (j_dot_path job))
  ∧ (∀ job, job ∈ after →
       j_dot_path job = "" ∨ j_dot_path job = dot_path ∨ ∃ old, old ∈ before ∧ j_dot_path old = j_dot_path job).

Lemma carried_fold dot_path jobs i job path :
  jobs !! i = Some job → covers path (j_dot_path job) → covers path dot_path →
  path = "" ∨ path = dot_path ∨ path = j_dot_path job →
  carried dot_path jobs (<[i := {| j_id := j_id job; j_dot_path := path |}]> jobs).
Proof.
  intros Hi Hold Hnew Hpath. set (job' := {| j_id := j_id job; j_dot_path := path |}).
  assert (Hj' : job' ∈ <[i:=job']> jobs).
  { eapply list_elem_of_lookup_2. apply list_lookup_insert_eq. by eapply lookup_lt_Some. }
  split; [by exists job'|]. split.
  - intros x Hx. apply list_elem_of_lookup in Hx as [k Hk]. destruct (decide (i = k)) as [->|Hne].
    + exists job'. split; [done|]. by simplify_eq.
    + exists x. split; [|by left]. eapply list_elem_of_lookup_2. by rewrite list_lookup_insert_ne.
  - intros x Hx. apply list_elem_of_lookup in Hx as [k Hk]. destruct (decide (i = k)) as [->|Hne].
    + rewrite list_lookup_insert_eq in Hk by by eapply lookup_lt_Some. injection Hk as <-. cbn.
      destruct Hpath as [->|[->| ->]]; [auto..|]. right. right. exists job. split; [by eapply list_elem_of_lookup_2|done].
    + rewrite list_lookup_insert_ne in Hk by done. right. right. exists x. split; [by eapply list_elem_of_lookup_2|done].
Qed.

Lemma carried_add dot_path jobs id :
  carried dot_path jobs (jobs ++ [{| j_id := id; j_dot_path := dot_path |}]).
Proof.
  split; [eexists; split; [apply elem_of_app; right; by left|by left]|]. split.
  - intros job Hj. exists job. split; [apply elem_of_app; by left|by left].
  - intros job [Hj|Hj]%elem_of_app; [by eauto|]. apply list_elem_of_singleton in Hj as ->. by auto.
Qed.

Lemma enqueue_ok s held opens now operation dot_path source :
  inv s held → next_id s < U64_MAX → (size (records s) ≤ MAX_TASKS + opens)%nat → (size held ≤ S opens)%nat →
  ∃ e q, enqueue now operation dot_path source s = Some (e, q) ∧ inv q held
    ∧ next_id s ≤ next_id q ≤ next_id s + 1 ∧ (size (records q) ≤ MAX_TASKS + opens)%nat
    ∧ carried dot_path (pending s) (pending q).
Proof.
  intros Hinv Hmax Hsize Hheld. unfold enqueue.
  destruct (list_find _ (pending s)) as [[i job]|] eqn:Ef.
  { apply list_find_Some in Ef as (Hi & Hfold & _).
    set (path := if path_subsumes dot_path (j_dot_path job) then dot_path else j_dot_path job).
    destruct (fold_ok s held i path Hinv) as (job' & e & q & Hj & -> & Hq & Hp & Hd & Hn); [by eapply lookup_lt_Some|].
    rewrite Hi in Hj. injection Hj as <-. exists e, q. split; [done|]. split; [done|]. split; [lia|].
    split; [by rewrite <- size_dom, Hd, size_dom|]. rewrite Hp. unfold foldable in Hfold. apply orb_true_iff in Hfold.
    unfold path in *. destruct (path_subsumes dot_path (j_dot_path job)) eqn:Es; apply carried_fold; try done; auto.
    - right. by right.
    - by left.
    - by left.
    - right. right. by destruct Hfold. }
  assert (Hadd : ∀ s', inv s' held → next_id s' = next_id s → pending s' = pending s → (S (size (records s')) ≤ MAX_TASKS + opens)%nat →
    ∃ e q, (let '(record, q) := add_task true now operation (kind_of dot_path) dot_path source s' in
            Some ({| e_record := record; e_created := true |}, q)) = Some (e, q) ∧ inv q held
      ∧ next_id s ≤ next_id q ≤ next_id s + 1 ∧ (size (records q) ≤ MAX_TASKS + opens)%nat
      ∧ carried dot_path (pending s) (pending q)).
  { intros s' Hs' Hn Hp Hsz. destruct (add_task true now operation (kind_of dot_path) dot_path source s') as [record q] eqn:Ea.
    apply (add_ok s' held) in Ea as (Hq & Hsize' & Hnext & Hpend & _); [|done|lia]. cbn in Hq.
    eexists _, q. split; [reflexivity|]. split; [done|]. split; [lia|]. split; [lia|]. rewrite Hpend, Hp. apply carried_add. }
  destruct (Nat.leb_spec MAX_TASKS (size (records s))) as [Hfull|Hroom]; [|apply Hadd; try done; lia].
  destruct (oldest_terminal s) as [at_|] eqn:Eo.
  { destruct (drop_ok s held at_ Hinv Eo) as [Hd Hsd]. apply Hadd; try done; lia. }
  destruct (pending s) as [|job rest] eqn:Ep.
  { pose proof (all_held s held Hinv Eo Ep). rewrite <- Ep in Hadd. rewrite <- Ep. apply Hadd; try done. unfold MAX_TASKS in *. lia. }
  destruct (fold_ok s held 0 "" Hinv) as (job' & e & q & Hj & -> & Hq & Hp & Hd & Hn); [rewrite Ep; cbn; lia|].
  rewrite Ep in Hj, Hp. cbn in Hj. injection Hj as <-. exists e, q. split; [done|]. split; [done|]. split; [lia|].
  split; [by rewrite <- size_dom, Hd, size_dom|]. rewrite Hp. apply carried_fold; try done; auto; right; by left.
Qed.

Definition held (d : Daemon) : gset string := list_to_set (option_list (d_working d)) ∪ d_flows d.

Definition is_open (l : label) : bool := match l with Open _ => true | _ => false end.
Definition opened (t : list label) : nat := length (filter (λ l, is_open l = true) t).

(** What holds of the daemon after [n] steps, [opens] of them opening a task. *)
Record sound (n opens : nat) (d : Daemon) : Prop := {
  s_inv : inv (d_queue d) (held d);
  s_count : next_id (d_queue d) ≤ Z.of_nat n;
  s_flows : (size (d_flows d) ≤ opens)%nat;
  s_bound : (size (records (d_queue d)) ≤ MAX_TASKS + opens)%nat;
}.

Lemma held_size d opens : (size (d_flows d) ≤ opens)%nat → (size (held d) ≤ S opens)%nat.
Proof.
  intros H. unfold held. rewrite union_comm_L, size_union_alt.
  assert (Hle : (size ((list_to_set (option_list (d_working d)) : gset string) ∖ d_flows d) ≤ 1)%nat); [|lia].
  etransitivity; [apply subseteq_size, subseteq_difference_l; reflexivity|].
  destruct (d_working d); cbn; [rewrite union_empty_r_L, size_singleton; lia|rewrite size_empty; lia].
Qed.

Lemma step_sound n opens d l d' :
  sound n opens d → step d l d' → Z.of_nat n < U64_MAX →
  sound (S n) (opens + (if is_open l then 1 else 0)) d' ∧ l ≠ Panic.
Proof.
  intros [Hinv Hcount Hflows Hbound] Hstep Hn. pose proof (held_size d opens Hflows) as Hheld.
  destruct Hstep as [d now op path source e q Hq|d now op path source Hq|d now op kind path source record q Hq
    |d job q Hw Hq|d now id record q Hid Hq|d now id Hid Hq|d now id outcome message ifs record q Hid Hq
    |d now id outcome message ifs record q Hid Hq]; cbn [is_open]; rewrite ?Nat.add_0_r.
  - destruct (enqueue_ok (d_queue d) (held d) opens now op path source) as (e' & q' & He & Hi & ? & ? & _); [done|lia|done..|].
    rewrite Hq in He. simplify_eq. split; [|done]. split; cbn [d_queue d_flows d_working]; [exact Hi|lia|done..].
  - destruct (enqueue_ok (d_queue d) (held d) opens now op path source) as (e' & q' & He & _); [done|lia|done..|]. congruence.
  - split; [|done].
    assert (Hpre : ∃ s', inv s' (held d) ∧ next_id s' = next_id (d_queue d) ∧ (size (records s') ≤ MAX_TASKS + opens)%nat
      ∧ add_task false now op kind path source s' = (record, q)).
    { unfold open in Hq. destruct (MAX_TASKS <=? _)%nat; [|by exists (d_queue d)].
      destruct (oldest_terminal (d_queue d)) as [at_|] eqn:Eo; [|by exists (d_queue d)].
      destruct (drop_ok _ _ _ Hinv Eo) as [Hd Hs]. exists (drop_task at_ (d_queue d)). split; [done|]. split; [done|].
      split; [lia|done]. }
    destruct Hpre as (s' & Hs' & Hn' & Hz & Ha). apply (add_ok s' (held d)) in Ha as (Hi & Hsz & Hnx & _); [|done|lia].
    split; cbn [d_queue d_flows d_working].
    + unfold held. cbn. cbn in Hi. by rewrite (assoc_L (∪)), (comm_L (∪) _ {[t_id record]}), <- (assoc_L (∪)).
    + lia.
    + etransitivity; [rewrite size_union_alt; apply Nat.add_le_mono_l, subseteq_size, subseteq_difference_l; reflexivity|].
      rewrite size_singleton. lia.
    + lia.
  - apply (take_ok _ (held d)) in Hq as (Hi & _ & Hr & Hnx); [|done]. split; [|done].
    split; cbn [d_queue d_flows d_working]; [|lia|done|by rewrite Hr]. eapply inv_shrink; [exact Hi|unfold held; cbn; set_solver|].
    intros id r. unfold held. cbn. rewrite Hw. set_solver.
  - assert (Hh : id ∈ held d) by (unfold held; destruct Hid as [->|?]; set_solver).
    apply (record_ok _ (held d)) in Hq as (Hi & _ & Hnx & Hd & _); [|done..]. split; [|done].
    split; cbn [d_queue d_flows d_working]; [exact Hi|lia|done|by rewrite <- size_dom, Hd, size_dom].
  - split; [|done]. split; cbn [d_queue d_flows d_working]; [|lia|done..]. eapply inv_shrink; [exact Hinv|unfold held; cbn; set_solver|].
    intros id' r. unfold held. cbn. rewrite Hid. cbn. intros H1 H2 Hr. exfalso.
    assert (id' = id) as -> by set_solver. unfold start, with_record in Hq. by rewrite Hr in Hq.
  - assert (Hh : id ∈ held d) by (unfold held; rewrite Hid; set_solver).
    apply (record_ok _ (held d)) in Hq as (Hi & _ & Hnx & Hd & Hrec & r & ->); [|done..]. split; [|done].
    split; cbn [d_queue d_flows d_working]; [|lia|done|by rewrite <- size_dom, Hd, size_dom].
    eapply inv_shrink; [exact Hi|unfold held; cbn; set_solver|].
    intros id' r'. unfold held. cbn. rewrite Hid. cbn. intros H1 H2 Hr. assert (id' = id) as -> by set_solver.
    rewrite Hrec in Hr. by injection Hr as <-.
  - assert (Hh : id ∈ held d) by (unfold held; set_solver).
    apply (record_ok _ (held d)) in Hq as (Hi & _ & Hnx & Hd & _); [|done..]. split; [|done].
    split; cbn [d_queue d_flows d_working]; [exact Hi|lia|done|by rewrite <- size_dom, Hd, size_dom].
Qed.

Lemma steps_sound boot t d :
  steps (daemon boot) t d → Z.of_nat (length t) ≤ U64_MAX → sound (length t) (opened t) d ∧ Panic ∉ t.
Proof.
  remember (daemon boot) as d0 eqn:E. intros H. induction H as [d|d t d' l d'' Hsteps IH Hstep]; intros Hlen.
  - subst. split; [|by intros ?%elem_of_nil]. split; cbn; [apply inv_new|lia|done|apply Nat.le_0_l].
  - rewrite length_app in Hlen. cbn in Hlen. destruct IH as [IH Hp]; [done|lia|].
    destruct (step_sound _ _ _ _ _ IH Hstep) as [Hs Hl]; [lia|]. split.
    + rewrite length_app, Nat.add_1_r. unfold opened in *. rewrite filter_app, length_app. cbn in *.
      by destruct (is_open l).
    + rewrite elem_of_app, list_elem_of_singleton. intros [?|<-]; done.
Qed.

(** ** Traces *)

Lemma take_label d job d' : step d (Take job) d' → next (d_queue d) = Some (job, d_queue d').
Proof. intros H. by inversion H. Qed.

Lemma open_pending now operation kind dot_path source s :
  pending (open now operation kind dot_path source s).2 = pending s.
Proof.
  unfold open, add_task. destruct (MAX_TASKS <=? size (records s))%nat; [destruct (oldest_terminal s)|];
    unfold drop_task; cbn [pending snd]; by rewrite app_nil_r.
Qed.

Lemma other_pending n opens d l d' :
  sound n opens d → step d l d' → Z.of_nat n < U64_MAX →
  match l with Enqueue path _ => carried path (pending (d_queue d)) (pending (d_queue d'))
  | Take job => pending (d_queue d) = job :: pending (d_queue d')
  | _ => pending (d_queue d') = pending (d_queue d) end.
Proof.
  intros [Hinv Hcount Hflows Hbound] Hstep Hn. pose proof (held_size d opens Hflows) as Hheld.
  assert (Hrec : ∀ id f record q, with_record id f (d_queue d) = Some (record, q) → pending q = pending (d_queue d)).
  { unfold with_record. intros id f record q H. destruct (records (d_queue d) !! id); [|done]. cbn in H. by injection H as _ <-. }
  destruct Hstep as [d now op path source e q Hq|d now op path source Hq|d now op kind path source record q Hq
    |d job q Hw Hq|d now id record q Hid Hq|d now id Hid Hq|d now id outcome message ifs record q Hid Hq
    |d now id outcome message ifs record q Hid Hq]; cbn [d_queue]; try done; try by eapply Hrec.
  - destruct (enqueue_ok (d_queue d) (held d) opens now op path source) as (e' & q' & He & _ & _ & _ & Hc); [done|lia|done..|].
    rewrite Hq in He. by simplify_eq.
  - pose proof (open_pending now op kind path source (d_queue d)) as Ho. by rewrite Hq in Ho.
  - unfold next in Hq. destruct (pending (d_queue d)); [done|]. by injection Hq as -> <-.
Qed.

Definition covered (path : string) (d : Daemon) : Prop :=
  ∃ job, job ∈ pending (d_queue d) ∧ covers (j_dot_path job) path.

Lemma covered_step n opens d l d' path :
  sound n opens d → step d l d' → Z.of_nat n < U64_MAX → covered path d →
  covered path d' ∨ ∃ job, l = Take job ∧ covers (j_dot_path job) path.
Proof.
  intros Hs Hstep Hn (job & Hj & Hc). pose proof (other_pending _ _ _ _ _ Hs Hstep Hn) as H. unfold covered.
  destruct l as [p e|id|job'|id|id|]; try (rewrite H; left; by exists job).
  - left. destruct H as (_ & H & _). destruct (H job Hj) as (job' & Hj' & Hc'). exists job'. split; [done|]. by eapply covers_trans.
  - rewrite H in Hj. apply elem_of_cons in Hj as [->|Hj]; [right|left]; by eexists.
Qed.

Lemma steps_inv d t d'' :
  steps d t d'' → t = [] ∧ d'' = d ∨ ∃ t' l d', t = t' ++ [l] ∧ steps d t' d' ∧ step d' l d''.
Proof. destruct 1 as [d|d t d' l d'']; [by left|right]. by exists t, l, d'. Qed.

Lemma steps_app d t t' d'' : steps d (t ++ t') d'' → ∃ d', steps d t d' ∧ steps d' t' d''.
Proof.
  revert d''. induction t' as [|l t' IH] using rev_ind; intros d'' H; [rewrite app_nil_r in H; exists d''; split; [done|constructor]|].
  rewrite app_assoc in H. apply steps_inv in H as [[E _]|(t0 & l0 & d0 & E & H1 & H2)]; [by destruct (t ++ t')|].
  apply app_inj_tail in E as [<- <-]. apply IH in H1 as (d' & Ha & Hb). exists d'. split; [done|]. by econstructor.
Qed.

Lemma steps_one d l t d'' : steps d (l :: t) d'' → ∃ d', step d l d' ∧ steps d' t d''.
Proof.
  intros H. apply (steps_app d [l] t) in H as (d' & H1 & H2). exists d'. split; [|done].
  apply steps_inv in H1 as [[E _]|(t0 & l0 & d0 & E & H0 & H1)]; [done|].
  destruct t0 as [|? [|]]; [|done..]. injection E as <-. by apply steps_inv in H0 as [[_ ->]|([|] & ? & ? & ? & _)].
Qed.

Lemma covered_steps boot t d t' d' path :
  steps (daemon boot) t d → steps d t' d' → Z.of_nat (length (t ++ t')) ≤ U64_MAX → covered path d →
  covered path d' ∨ ∃ job, Take job ∈ t' ∧ covers (j_dot_path job) path.
Proof.
  intros Ht Ht'. revert t Ht. induction Ht' as [d|d t' d1 l d2 Ht' IH Hstep]; intros t Ht Hlen Hc; [by left|].
  rewrite app_assoc, length_app in Hlen. cbn in Hlen. destruct (IH t Ht) as [H|(job & Hj & H)]; [lia|done|..].
  - assert (Hsteps : steps (daemon boot) (t ++ t') d1).
    { clear -Ht Ht'. induction Ht' as [|d t' d1 l d2 _ IH Hs]; [by rewrite app_nil_r|]. rewrite app_assoc. econstructor; [by apply IH|done]. }
    destruct (steps_sound _ _ _ Hsteps) as [Hs _]; [lia|].
    destruct (covered_step _ _ _ _ _ path Hs Hstep) as [?|(job & -> & ?)]; [lia|done|by left|right].
    exists job. split; [apply elem_of_app; right; by left|done].
  - right. exists job. split; [apply elem_of_app; by left|done].
Qed.

(** Every queued path is the root's or a written one. *)
Lemma queued_canonical boot t d :
  steps (daemon boot) t d → Z.of_nat (length t) ≤ U64_MAX → (∀ p a, Enqueue p a ∈ t → canonical p) →
  (∀ job, job ∈ pending (d_queue d) → canonical (j_dot_path job)) ∧ ∀ job, Take job ∈ t → canonical (j_dot_path job).
Proof.
  remember (daemon boot) as d0 eqn:E. intros H. induction H as [d|d t d1 l d2 Hsteps IH Hstep]; intros Hlen Hcan.
  { subst. split; intros job ?%elem_of_nil; done. }
  rewrite length_app in Hlen. cbn in Hlen. subst d.
  destruct IH as [IHp IHt]; [done|lia|intros p a Hp; apply (Hcan p a), elem_of_app; by left|].
  destruct (steps_sound _ _ _ Hsteps) as [Hs _]; [lia|].
  pose proof (other_pending _ _ _ _ _ Hs Hstep ltac:(lia)) as Hl. split.
  - intros job Hj. destruct l as [p e|id|job'|id|id|]; try (rewrite Hl in Hj; by apply IHp).
    + destruct Hl as (_ & _ & Hl). destruct (Hl job Hj) as [->|[->|(old & Ho & <-)]]; [right; by exists []| |by apply IHp].
      apply (Hcan p e), elem_of_app. right. by left.
    + apply IHp. rewrite Hl. by right.
  - intros job [Hj|Hj]%elem_of_app; [by apply IHt|]. apply list_elem_of_singleton in Hj as <-. apply IHp. rewrite Hl. by left.
Qed.

(** * Properties *)

(** C28: no settings write misses its reconcile. After any interleaving of
    writes, of the worker's takes, starts and finishes and of app flows, a
    write that was enqueued is covered by a job that is still queued or that
    the worker has taken since: however it was folded into other requests,
    and even once the full table broadened a job to the root, that job runs
    every reconciler the written path touches. *)
Theorem write_is_reconciled boot t path answer t' d :
  let trace := t ++ Enqueue path answer :: t' in
  steps (daemon boot) trace d → Z.of_nat (length trace) ≤ U64_MAX →
  (∀ p a, Enqueue p a ∈ trace → canonical p) →
  ∃ job, (job ∈ pending (d_queue d) ∨ Take job ∈ t')
    ∧ ∀ r, Forall (λ watched, ∃ sub, Forall plain sub ∧ watched = join "." sub) (r_subtree r :: r_reads r) →
        runs path r = true → runs (j_dot_path job) r = true.
Proof.
  intros trace Hsteps Hlen Hcan. unfold trace in *. pose proof Hsteps as Hall.
  apply steps_app in Hsteps as (d1 & H1 & H2). apply steps_one in H2 as (d2 & Hstep & H2).
  rewrite length_app in Hlen. cbn in Hlen. destruct (steps_sound _ _ _ H1) as [Hs _]; [lia|].
  pose proof (other_pending _ _ _ _ _ Hs Hstep ltac:(lia)) as ((job0 & Hj0 & Hc0) & _).
  assert (H12 : steps (daemon boot) (t ++ [Enqueue path answer]) d2) by by econstructor.
  destruct (queued_canonical _ _ _ Hall) as [Hcp Hct]; [rewrite length_app; cbn; lia|exact Hcan|].
  assert (Hpath : canonical path) by (apply (Hcan path answer), elem_of_app; right; by left).
  assert (Hfinal : ∃ job, (job ∈ pending (d_queue d) ∨ Take job ∈ t') ∧ covers (j_dot_path job) path ∧ canonical (j_dot_path job)).
  { destruct (covered_steps _ _ _ _ _ path H12 H2) as [(job & Hj & Hc)|(job & Hj & Hc)].
    - rewrite !length_app. cbn. lia.
    - by exists job0.
    - exists job. by auto.
    - exists job. split; [by right|]. split; [done|]. apply Hct, elem_of_app. right. by right. }
  destruct Hfinal as (job & Hwhere & Hc & Hj). exists job. split; [done|]. intros r Hr. unfold runs.
  rewrite !existsb_exists. intros (sub & Hin & Ho). exists sub. split; [done|]. rewrite Forall_forall in Hr.
  apply list_elem_of_In in Hin. destruct (Hr sub Hin) as (segs & Hsegs & ->). exact (covers_overlap _ _ _ Hj Hpath Hc Hsegs Ho).
Qed.

(** The queue's invariants hold after any interleaving: the expectation
    that every pending job has a task record never fails, each pending job's
    record is queued at the job's path, no job and no task is listed twice,
    the snapshot shows exactly the tasks that have a record, and the history
    holds at most [MAX_TASKS] tasks and one for each app flow that was opened. *)
Theorem queue_sound boot t d :
  steps (daemon boot) t d → Z.of_nat (length t) ≤ U64_MAX →
  Panic ∉ t
  ∧ (∀ job, job ∈ pending (d_queue d) →
       ∃ r, get (j_id job) (d_queue d) = Some r ∧ t_status r = "queued" ∧ t_dot_path r = j_dot_path job)
  ∧ NoDup (job_ids (d_queue d)) ∧ NoDup (order (d_queue d))
  ∧ (∀ r, r ∈ snapshot (d_queue d) ↔ ∃ id, get id (d_queue d) = Some r)
  ∧ (size (records (d_queue d)) ≤ MAX_TASKS + opened t)%nat.
Proof.
  intros H Hlen. destruct (steps_sound _ _ _ H Hlen) as [[[] _ _ Hbound] Hp]. split; [done|]. split; [done|].
  split; [done|]. split; [done|]. split; [|done]. intros r. unfold snapshot. rewrite list_elem_of_omap. split.
  - intros (id & _ & Hid). by exists id.
  - intros [id Hid]. exists id. split; [apply v_listed0; by exists r|done].
Qed.

(** A trace: a write of one interface, a second one folded into it, and the
    worker's take. *)
Definition demo_jobs (s : State) : list string := map j_dot_path (pending s).
Definition queue_after (paths : list string) : option State :=
  foldl (λ s path, s ← s; snd <$> enqueue "now" "settings-write" path "test" s) (Some (new "b")) paths.
Example folding :
  demo_jobs <$> queue_after ["network.eth0"; "hostname"; "network"; "network.eth1"] = Some ["network"; "hostname"].
Proof. by vm_compute. Qed.

Definition reconciler_of (sub : string) : Reconciler := {| r_name := sub; r_subtree := sub; r_reads := [] |}.

Lemma network_write_witness :
  ∃ answer d, steps (daemon "b") ([] ++ Enqueue "network.eth0" answer :: []) d
    ∧ runs "network.eth0" (reconciler_of "network") = true
    ∧ ∃ job, (job ∈ pending (d_queue d) ∨ Take job ∈ []) ∧ runs (j_dot_path job) (reconciler_of "network") = true.
Proof.
  destruct (enqueue "now" "settings-write" "network.eth0" "test" (new "b")) as [[answer q]|] eqn:E; [|by vm_compute in E].
  set (d := {| d_queue := q; d_working := None; d_flows := ∅ |}).
  assert (Hs : steps (daemon "b") ([] ++ Enqueue "network.eth0" answer :: []) d).
  { eapply (steps_snoc _ [] (daemon "b")); [constructor|]. by eapply (step_enqueue (daemon "b") "now" "settings-write" "network.eth0" "test"). }
  exists answer, d. split; [exact Hs|]. split; [by vm_compute|].
  destruct (write_is_reconciled "b" [] "network.eth0" answer [] d Hs) as (job & Hj & Hr).
  - by vm_compute.
  - intros p a Hp. apply list_elem_of_singleton in Hp as [= -> _]. right. exists ["network"; "eth0"].
    split; [|done]. by repeat constructor.
  - exists job. split; [exact Hj|]. apply (Hr (reconciler_of "network")).
    + constructor; [|constructor]. exists ["network"]. split; [|done]. by repeat constructor.
    + by vm_compute.
Defined.

Lemma queue_sound_witness :
  ∃ answer d, steps (daemon "b") [Enqueue "network.eth0" answer] d ∧ (size (records (d_queue d)) ≤ MAX_TASKS)%nat.
Proof.
  destruct (enqueue "now" "settings-write" "network.eth0" "test" (new "b")) as [[answer q]|] eqn:E; [|by vm_compute in E].
  set (d := {| d_queue := q; d_working := None; d_flows := ∅ |}).
  assert (Hs : steps (daemon "b") [Enqueue "network.eth0" answer] d).
  { eapply (steps_snoc _ [] (daemon "b")); [constructor|]. by eapply (step_enqueue (daemon "b") "now" "settings-write" "network.eth0" "test"). }
  exists answer, d. split; [exact Hs|]. apply (queue_sound "b" [Enqueue "network.eth0" answer] d Hs). by vm_compute.
Defined.

(** A path whose first segment is quoted without need reaches the same node and
    subsumes the same writes, but [paths_overlap] compares the text: the job a
    later canonical write is folded into runs no reconciler for it. *)
Definition quoted_network : string := Features.quote_str +:+ "network" +:+ Features.quote_str.
Example quoted_write_is_lost :
  path_segments quoted_network = Some ["network"]
  ∧ demo_jobs <$> queue_after [quoted_network; "network.eth0"] = Some [quoted_network]
  ∧ runs "network.eth0" (reconciler_of "network") = true
  ∧ runs quoted_network (reconciler_of "network") = false.
Proof. by vm_compute. Qed.

End ApplyQueue.
