(* ===== verification/Addresses.v ===== *)
(** IP addresses as the sources read them: [str::parse] of [Ipv4Addr],
    [Ipv6Addr] and [IpAddr] as the standard library's parser runs, a cursor at a
    time, and the address tests the validators use. *)
From Stdlib Require Import Ascii.
From S2P Require Import Prelude Text.

Module Addresses.

(** * Reading numbers *)

(** [char::to_digit(radix)], for the two radices an address is written in. *)
Definition hex_digit_of (c : ascii) : option Z :=
  if is_digit c then Some (byte_val c - 48)
  else if in_range "a" "f" c then Some (byte_val c - 87)
  else if in_range "A" "F" c then Some (byte_val c - 55)
  else None.
Definition to_digit (radix : Z) (c : ascii) : option Z :=
  d ← hex_digit_of c; if d <? radix then Some d else None.

(** The digits at the cursor: their value, their count, and the rest. *)
Fixpoint read_digits (radix : Z) (s : string) (acc : Z) (count : Z) : Z * Z * string :=
  match s with
  | EmptyString => (acc, count, s)
  | String c s' =>
      match to_digit radix c with
      | Some d => read_digits radix s' (acc * radix + d) (count + 1)
      | None => (acc, count, s)
      end
  end.
Definition read_number (radix max_digits : Z) (zero_prefix : bool) (max : Z) (s : string) : option (Z * string) :=
  let '(v, count, rest) := read_digits radix s 0 0 in
  if (max_digits <? count) || (count =? 0) then None
  else if negb zero_prefix && first_byte (λ c, bool_decide (c = "0"%char)) s && (1 <? count) then None
  else if v <=? max then Some (v, rest) else None.

Definition read_char (c : ascii) (s : string) : option string :=
  match s with
  | String d s' => if bool_decide (d = c) then Some s' else None
  | EmptyString => None
  end.
(** [read_separator]: the separator, but before the first of several. *)
Definition read_separator (sep : ascii) (first : bool) (s : string) : option string :=
  if first then Some s else read_char sep s.

(** * Addresses *)

(** An [Ipv4Addr] is its 32-bit value. *)
Fixpoint read_octets (count : nat) (first : bool) (acc : Z) (s : string) : option (Z * string) :=
  match count with
  | O => Some (acc, s)
  | S count =>
      s ← read_separator "." first s;
      '(octet, s) ← read_number 10 3 false 255 s;
      read_octets count false (acc * 256 + octet) s
  end.
Definition read_ipv4 (s : string) : option (Z * string) := read_octets 4 true 0 s.
Definition parse_ipv4 (s : string) : option Z :=
  if 15 <? str_len s then None
  else '(a, rest) ← read_ipv4 s; if is_empty rest then Some a else None.

(** An [Ipv6Addr] is its eight groups; a group list ends early at [::], or with
    two groups written as an IPv4 address. *)
Fixpoint read_groups (limit : nat) (first : bool) (s : string) : list Z * bool * string :=
  match limit with
  | O => ([], false, s)
  | S limit' =>
      let ipv4 :=
        match limit' with O => None | S _ => read_separator ":" first s ≫= read_ipv4 end in
      match ipv4 with
      | Some (a, rest) => ([a / 65536; a mod 65536], true, rest)
      | None =>
          match read_separator ":" first s ≫= read_number 16 4 true 65535 with
          | Some (g, rest) => let '(gs, v4, rest) := read_groups limit' false rest in (g :: gs, v4, rest)
          | None => ([], false, s)
          end
      end
  end.
Definition read_ipv6 (s : string) : option (list Z * string) :=
  let '(head, head_ipv4, rest) := read_groups 8 true s in
  if (len head =? 8) then Some (head, rest)
  else if head_ipv4 then None
  else
    rest ← read_char ":" rest;
    rest ← read_char ":" rest;
    let '(tail, _, rest) := read_groups (8 - (length head + 1)) true rest in
    Some (head ++ replicate (8 - (length head + length tail)) 0 ++ tail, rest).
Definition parse_ipv6 (s : string) : option (list Z) :=
  '(groups, rest) ← read_ipv6 s; if is_empty rest then Some groups else None.

Inductive IpAddr := V4 (a : Z) | V6 (groups : list Z).
#[export] Instance ip_eq : EqDecision IpAddr.
Proof. solve_decision. Defined.
Definition is_ipv4 (a : IpAddr) : bool := match a with V4 _ => true | V6 _ => false end.

Definition read_ip (s : string) : option (IpAddr * string) :=
  match read_ipv4 s with
  | Some (a, rest) => Some (V4 a, rest)
  | None => '(groups, rest) ← read_ipv6 s; Some (V6 groups, rest)
  end.
Definition parse_ip (s : string) : option IpAddr :=
  '(a, rest) ← read_ip s; if is_empty rest then Some a else None.

Definition is_loopback (a : Z) : bool := a / 16777216 =? 127.
Definition is_unspecified (a : Z) : bool := a =? 0.

(** [Ipv4Addr]'s [Display]. *)
Definition ipv4_str (a : Z) : string :=
  to_dec (a / 16777216) +:+ "." +:+ to_dec (a / 65536 mod 256) +:+ "." +:+ to_dec (a / 256 mod 256) +:+ "."
  +:+ to_dec (a mod 256).

Example addresses :
  parse_ipv4 "192.168.4.1" = Some 3232236545 ∧ parse_ipv4 "1.2.3" = None ∧ parse_ipv4 "01.2.3.4" = None
  ∧ parse_ipv4 "1.2.3.256" = None ∧ parse_ipv6 "fd00::1" = Some [64768; 0; 0; 0; 0; 0; 0; 1]
  ∧ parse_ipv6 "::" = Some [0; 0; 0; 0; 0; 0; 0; 0] ∧ parse_ipv6 "::ffff:1.2.3.4" = Some [0; 0; 0; 0; 0; 65535; 258; 772]
  ∧ parse_ipv6 "1:2:3:4:5:6:7:8" = Some [1; 2; 3; 4; 5; 6; 7; 8] ∧ parse_ipv6 "1:2:3:4:5:6:7::" = Some [1; 2; 3; 4; 5; 6; 7; 0]
  ∧ parse_ipv6 "1::2::3" = None ∧ parse_ipv6 "1:2:3:4:5:6:7:8:9" = None ∧ parse_ip "10.0.0.1" = Some (V4 167772161)
  ∧ ipv4_str 3232236545 = "192.168.4.1".
Proof. by vm_compute. Qed.

(** * Lemmas *)

Lemma read_digits_count radix s acc count : count ≤ (read_digits radix s acc count).1.2.
Proof.
  revert acc count. induction s as [|c s IH]; intros acc count; cbn; [lia|].
  destruct (to_digit radix c) as [d|]; cbn; [|lia]. specialize (IH (acc * radix + d) (count + 1)). lia.
Qed.

Lemma read_digits_pos radix s acc count : 0 < radix → 0 ≤ acc → 0 ≤ (read_digits radix s acc count).1.1.
Proof.
  intros Hr. revert acc count. induction s as [|c s IH]; intros acc count Ha; cbn; [done|].
  destruct (to_digit radix c) as [d|] eqn:E; cbn; [|done]. apply IH. unfold to_digit, hex_digit_of, is_digit, in_range in E.
  assert (0 ≤ d); [|nia]. pose proof (byte_val_bound c).
  change (byte_val "0") with 48 in E. change (byte_val "9") with 57 in E.
  change (byte_val "a") with 97 in E. change (byte_val "f") with 102 in E.
  change (byte_val "A") with 65 in E. change (byte_val "F") with 70 in E.
  repeat case_match; cbn in E; repeat case_match; simplify_eq; bools; lia.
Qed.

Lemma read_number_bound radix digits zp max s v rest :
  0 < radix → read_number radix digits zp max s = Some (v, rest) → 0 ≤ v ≤ max.
Proof.
  unfold read_number. intros Hr H. pose proof (read_digits_pos radix s 0 0 Hr ltac:(lia)) as Hp.
  destruct (read_digits radix s 0 0) as [[v' count] rest']. cbn in Hp.
  repeat case_match; simplify_eq; bools; lia.
Qed.

Lemma read_octets_bound count first acc s a rest :
  0 ≤ acc → read_octets count first acc s = Some (a, rest) →
  acc * 256 ^ Z.of_nat count ≤ a < (acc + 1) * 256 ^ Z.of_nat count.
Proof.
  revert first acc s. induction count as [|n IH]; intros first acc s Ha H; cbn [read_octets] in H.
  { injection H as <- _. cbn. lia. }
  destruct (read_separator "." first s) as [s1|]; [|done]. cbn [mbind option_bind] in H.
  destruct (read_number 10 3 false 255 s1) as [[octet s2]|] eqn:E; [|done]. cbn [mbind option_bind] in H.
  apply read_number_bound in E; [|lia]. apply IH in H; [|nia].
  rewrite Nat2Z.inj_succ, Z.pow_succ_r by lia. nia.
Qed.

(** A parsed address is a 32-bit value. *)
Lemma parse_ipv4_bound s a : parse_ipv4 s = Some a → 0 ≤ a < 4294967296.
Proof.
  unfold parse_ipv4. case_match; [done|]. destruct (read_ipv4 s) as [[b rest]|] eqn:E; [|done]. cbn.
  apply read_octets_bound in E; [|lia]. change (256 ^ Z.of_nat 4) with 4294967296 in E.
  case_match; [|done]. intros [= <-]. lia.
Qed.

End Addresses.
