(* ===== verification/SettingsModel.v ===== *)
(** The settings tree and the rules a write of it is held to
    ([src/crates/micad-settings/src/model.rs] and [model/]): the types of every
    subtree with their defaults, and their validators. *)
From Stdlib Require Import Ascii.
From S2P Require Import Prelude Text Order Maps Chars Features Addresses.
Import Features Addresses.

Module SettingsModel.

(** * Access *)

Inductive ClaimChannel := Setup | ProvisioningDocument | Ble.
Record ClaimSettings := { cl_via : ClaimChannel; cl_at : Z; cl_rotation_required : bool }.
Record WebAdminSettings := { wa_password_hash : string }.
Record AuthorizedKey := { ak_key : string; ak_comment : option string }.
Record SshSettings := {
  ssh_enabled : bool; ssh_port : Z; ssh_permit_root_login : bool; ssh_password_authentication : bool;
  ssh_listen_addresses : list string; ssh_authorized_keys : list AuthorizedKey;
}.
Definition default_ssh : SshSettings :=
  {| ssh_enabled := false; ssh_port := 22; ssh_permit_root_login := true; ssh_password_authentication := true;
     ssh_listen_addresses := []; ssh_authorized_keys := [] |}.
Record LanDiscoverySettings := { ld_enabled : option bool }.
Definition is_unset (s : LanDiscoverySettings) : bool := match ld_enabled s with None => true | Some _ => false end.
Definition effective (s : LanDiscoverySettings) (product_default : bool) : bool := default product_default (ld_enabled s).
Record ConsoleSettings := { shell_enabled : bool }.
Inductive WebMode := Network | Local | WebOff.
Record WebSettings := { web_mode : WebMode; http_port : Z; https_enabled : bool; https_port : Z }.
Definition default_web : WebSettings :=
  {| web_mode := Network; http_port := 8080; https_enabled := false; https_port := 8443 |}.
Record DeviceCredentialSettings := { dc_password_hash : option string; dc_generation : Z }.
Record ApiToken := { tk_id : string; tk_name : string; tk_hash : string; tk_created : Z }.
Record AccessSettings := {
  ac_web_admin : option WebAdminSettings; ac_claim : option ClaimSettings; ac_ssh : SshSettings;
  ac_console : ConsoleSettings; ac_web : WebSettings; ac_mdns : LanDiscoverySettings; ac_ssdp : LanDiscoverySettings;
  ac_device : DeviceCredentialSettings; ac_api_tokens : list ApiToken;
}.
Definition default_access : AccessSettings :=
  {| ac_web_admin := None; ac_claim := None; ac_ssh := default_ssh; ac_console := {| shell_enabled := false |};
     ac_web := default_web; ac_mdns := {| ld_enabled := None |}; ac_ssdp := {| ld_enabled := None |};
     ac_device := {| dc_password_hash := None; dc_generation := 0 |}; ac_api_tokens := [] |}.

(** * Bluetooth, containers, MQTT *)

Record PairedDevice := { pd_name : string; pd_trusted : bool; pd_blocked : bool }.
Record BleProvisioningSettings := { auto_when_offline : bool }.
(** The retired members ([discoverable], [alias], [pin]) carry no value. *)
Record BluetoothSettings := {
  bt_enabled : bool; bt_devices : smap PairedDevice; bt_provisioning : BleProvisioningSettings;
}.
Definition default_bluetooth : BluetoothSettings :=
  {| bt_enabled := true; bt_devices := []; bt_provisioning := {| auto_when_offline := true |} |}.

Record ContainerSettings := { ct_enabled : bool; ct_projects : smap string; ct_project_dirs : smap string }.
Record MqttListenSettings := { ml_address : string; ml_port : Z }.
Record MqttAuthSettings := { ma_enabled : bool }.
Record MqttSettings := { mq_enabled : bool; mq_listen : MqttListenSettings; mq_auth : MqttAuthSettings }.
Definition default_mqtt : MqttSettings :=
  {| mq_enabled := false; mq_listen := {| ml_address := "127.0.0.1"; ml_port := 1883 |};
     mq_auth := {| ma_enabled := false |} |}.

(** * DNS and the network *)

Record GlobalDns := { gd_enabled : bool; gd_servers : list string }.
Record StaticRecord := { sr_id : string; sr_hostname : string; sr_address : string; sr_comment : option string }.
Record DnsSettings := { dns_global : GlobalDns; dns_static_records : list StaticRecord }.

Inductive IfaceKind := Physical | Vlan | Bridge | Wireguard | Can.
Record RouteConfig := { rt_destination : string; rt_gateway : option string; rt_metric : option Z }.
Record VlanConfig := { vl_parent : string; vl_id : Z }.
Record CanConfig := {
  can_bitrate : Z; can_restart_ms : option Z; can_fd : option bool; can_data_bitrate : option Z;
}.
Record BridgeConfig := { br_ports : list string }.
Record WireguardPeer := {
  wp_public_key : string; wp_allowed_ips : list string; wp_endpoint : option string;
  wp_persistent_keepalive : option Z; wp_name : option string; wp_preshared_key : option string;
}.
Record WireguardConfig := { wg_listen_port : option Z; wg_peers : list WireguardPeer }.
Record StaticConfig := { st_address : string; st_gateway : option string; st_dns : list string }.
Record IfaceSettings := {
  if_kind : IfaceKind; if_dhcp : bool; if_static : option StaticConfig; if_dns : list string;
  if_vlan : option VlanConfig; if_bridge : option BridgeConfig; if_wireguard : option WireguardConfig;
  if_can : option CanConfig; if_routes : list RouteConfig; if_internet : option bool;
}.
Definition default_iface : IfaceSettings :=
  {| if_kind := Physical; if_dhcp := false; if_static := None; if_dns := []; if_vlan := None; if_bridge := None;
     if_wireguard := None; if_can := None; if_routes := []; if_internet := None |}.
Definition internet (cfg : IfaceSettings) : bool := negb (bool_decide (if_internet cfg = Some false)).
Notation network_map := (smap IfaceSettings).

(** * Provisioning, reset, services, time, Wi-Fi *)

Inductive ProvisioningState := Pending | Complete.
Record ProvisioningImport := { pi_source : string; pi_outcome : string; pi_reason : option string; pi_at : Z }.
Record ProvisioningDocumentSettings := {
  pv_applied_version : option Z; pv_applied_digest : option string; pv_last_import : option ProvisioningImport;
}.
Record ProvisioningSettings := {
  pv_state : ProvisioningState; pv_device_id : option string; pv_seeded_generation : Z;
  pv_document : option ProvisioningDocumentSettings;
}.
Inductive ResetTier := Configuration | ApplicationData.
Record ResetSettings := { rs_tier : ResetTier; rs_requested : Z; rs_presence : option string }.

Record UserUnit := { un_kind : Init; un_text : string; un_conf : option string; un_enabled : bool }.
Record ServicesSettings := { sv_units : smap UserUnit }.

Record NtpSettings := { ntp_servers : list string }.
Record TimeSettings := { tm_ntp : NtpSettings; tm_timezone : string }.

Record WifiNetwork := {
  wn_ssid : string; wn_psk : option string; wn_hidden : bool; wn_priority : Z; wn_auto_connect : option bool;
}.
Record WifiClientSettings := { wc_enabled : bool; wc_interface : string; wc_networks : list WifiNetwork }.
Inductive ApMode := ApOff | Provisioning | Always.
Inductive ApSecurity := Wpa2Psk | Wpa2Wpa3 | OpenAp.
Record ApPool := { pool_offset : Z; pool_size : Z }.
Record WifiApSettings := {
  ap_mode : ApMode; ap_interface : string; ap_ssid : option string; ap_psk : option string; ap_channel : Z;
  ap_country_code : string; ap_address : string; ap_hold_down_seconds : Z; ap_grace_seconds : Z;
  ap_security : ApSecurity; ap_pool : option ApPool; ap_lease_seconds : option Z;
}.
Definition default_ap : WifiApSettings :=
  {| ap_mode := ApOff; ap_interface := "wlan0"; ap_ssid := None; ap_psk := None; ap_channel := 6;
     ap_country_code := "US"; ap_address := "192.168.4.1/24"; ap_hold_down_seconds := 120; ap_grace_seconds := 60;
     ap_security := Wpa2Psk; ap_pool := None; ap_lease_seconds := None |}.
Record WifiSettings := { wf_client : WifiClientSettings; wf_ap : WifiApSettings }.

Record Settings := {
  s_hostname : string; s_network : network_map; s_dns : DnsSettings; s_access : AccessSettings;
  s_provisioning : ProvisioningSettings; s_wifi : WifiSettings; s_container : ContainerSettings;
  s_mqtt : MqttSettings; s_bluetooth : BluetoothSettings; s_time : TimeSettings; s_services : ServicesSettings;
  s_reset : option ResetSettings;
}.
Definition default_settings : Settings :=
  {| s_hostname := "mica"; s_network := [];
     s_dns := {| dns_global := {| gd_enabled := false; gd_servers := [] |}; dns_static_records := [] |};
     s_access := default_access;
     s_provisioning := {| pv_state := Pending; pv_device_id := None; pv_seeded_generation := 0; pv_document := None |};
     s_wifi := {| wf_client := {| wc_enabled := true; wc_interface := "wlan0"; wc_networks := [] |}; wf_ap := default_ap |};
     s_container := {| ct_enabled := false; ct_projects := []; ct_project_dirs := [] |};
     s_mqtt := default_mqtt; s_bluetooth := default_bluetooth;
     s_time := {| tm_ntp := {| ntp_servers := [] |}; tm_timezone := "UTC" |};
     s_services := {| sv_units := [] |}; s_reset := None |}.

(** ** Decidable equality, as [PartialEq] derives it *)

#[export] Instance claim_channel_eq : EqDecision ClaimChannel. Proof. solve_decision. Defined.
#[export] Instance claim_eq : EqDecision ClaimSettings. Proof. solve_decision. Defined.
#[export] Instance web_admin_eq : EqDecision WebAdminSettings. Proof. solve_decision. Defined.
#[export] Instance authorized_key_eq : EqDecision AuthorizedKey. Proof. solve_decision. Defined.
#[export] Instance ssh_eq : EqDecision SshSettings. Proof. solve_decision. Defined.
#[export] Instance lan_eq : EqDecision LanDiscoverySettings. Proof. solve_decision. Defined.
#[export] Instance console_eq : EqDecision ConsoleSettings. Proof. solve_decision. Defined.
#[export] Instance web_mode_eq : EqDecision WebMode. Proof. solve_decision. Defined.
#[export] Instance web_eq : EqDecision WebSettings. Proof. solve_decision. Defined.
#[export] Instance credential_eq : EqDecision DeviceCredentialSettings. Proof. solve_decision. Defined.
#[export] Instance token_eq : EqDecision ApiToken. Proof. solve_decision. Defined.
#[export] Instance access_eq : EqDecision AccessSettings. Proof. solve_decision. Defined.
#[export] Instance paired_eq : EqDecision PairedDevice. Proof. solve_decision. Defined.
#[export] Instance ble_eq : EqDecision BleProvisioningSettings. Proof. solve_decision. Defined.
#[export] Instance bluetooth_eq : EqDecision BluetoothSettings. Proof. solve_decision. Defined.
#[export] Instance container_eq : EqDecision ContainerSettings. Proof. solve_decision. Defined.
#[export] Instance mqtt_listen_eq : EqDecision MqttListenSettings. Proof. solve_decision. Defined.
#[export] Instance mqtt_auth_eq : EqDecision MqttAuthSettings. Proof. solve_decision. Defined.
#[export] Instance mqtt_eq : EqDecision MqttSettings. Proof. solve_decision. Defined.
#[export] Instance global_dns_eq : EqDecision GlobalDns. Proof. solve_decision. Defined.
#[export] Instance static_record_eq : EqDecision StaticRecord. Proof. solve_decision. Defined.
#[export] Instance dns_eq : EqDecision DnsSettings. Proof. solve_decision. Defined.
#[export] Instance kind_eq : EqDecision IfaceKind. Proof. solve_decision. Defined.
#[export] Instance route_eq : EqDecision RouteConfig. Proof. solve_decision. Defined.
#[export] Instance vlan_eq : EqDecision VlanConfig. Proof. solve_decision. Defined.
#[export] Instance can_eq : EqDecision CanConfig. Proof. solve_decision. Defined.
#[export] Instance bridge_eq : EqDecision BridgeConfig. Proof. solve_decision. Defined.
#[export] Instance peer_eq : EqDecision WireguardPeer. Proof. solve_decision. Defined.
#[export] Instance wireguard_eq : EqDecision WireguardConfig. Proof. solve_decision. Defined.
#[export] Instance static_eq : EqDecision StaticConfig. Proof. solve_decision. Defined.
#[export] Instance iface_eq : EqDecision IfaceSettings. Proof. solve_decision. Defined.
#[export] Instance unit_eq : EqDecision UserUnit. Proof. solve_decision. Defined.
#[export] Instance services_eq : EqDecision ServicesSettings. Proof. solve_decision. Defined.
#[export] Instance ntp_eq : EqDecision NtpSettings. Proof. solve_decision. Defined.
#[export] Instance time_eq : EqDecision TimeSettings. Proof. solve_decision. Defined.
#[export] Instance provisioning_state_eq : EqDecision ProvisioningState. Proof. solve_decision. Defined.
#[export] Instance provisioning_import_eq : EqDecision ProvisioningImport. Proof. solve_decision. Defined.
#[export] Instance provisioning_document_eq : EqDecision ProvisioningDocumentSettings. Proof. solve_decision. Defined.
#[export] Instance provisioning_settings_eq : EqDecision ProvisioningSettings. Proof. solve_decision. Defined.
#[export] Instance reset_tier_eq : EqDecision ResetTier. Proof. solve_decision. Defined.
#[export] Instance reset_settings_eq : EqDecision ResetSettings. Proof. solve_decision. Defined.
#[export] Instance wifi_network_eq : EqDecision WifiNetwork. Proof. solve_decision. Defined.
#[export] Instance wifi_client_eq : EqDecision WifiClientSettings. Proof. solve_decision. Defined.
#[export] Instance ap_mode_eq : EqDecision ApMode. Proof. solve_decision. Defined.
#[export] Instance ap_security_eq : EqDecision ApSecurity. Proof. solve_decision. Defined.
#[export] Instance ap_pool_eq : EqDecision ApPool. Proof. solve_decision. Defined.
#[export] Instance wifi_ap_eq : EqDecision WifiApSettings. Proof. solve_decision. Defined.
#[export] Instance wifi_settings_eq : EqDecision WifiSettings. Proof. solve_decision. Defined.
#[export] Instance settings_eq : EqDecision Settings. Proof. solve_decision. Defined.

End SettingsModel.
