(* ===== verification/SettingsRules.v ===== *)
(** The rules a write of the settings tree is held to
    ([src/crates/micad-settings/src/model/*.rs]): one validator per subtree,
    with what each one's acceptance means. *)
From Stdlib Require Import Ascii.
From S2P Require Import Prelude Text Order Maps Chars Features Addresses SettingsModel.
Import Features Addresses SettingsModel.

Module SettingsRules.

(** * Listeners and Bluetooth *)

(** The ports in use, in order, each checked against those before it. *)
Fixpoint ports_apart (taken : list Z) (claimed : list (string * Z)) : result unit :=
  match claimed with
  | [] => Ok tt
  | (name, port) :: rest =>
      ensure negb (bool_decide (port ∈ taken)) else "port already in use" in ports_apart (taken ++ [port]) rest
  end.
Definition claimed_ports (web : WebSettings) (ssh : SshSettings) (mqtt : MqttSettings) : list (string * Z) :=
  (if bool_decide (web_mode web = Network)
   then ("access.web.httpPort", http_port web)
        :: (if https_enabled web then [("access.web.httpsPort", https_port web)] else [])
   else [])
  ++ (if ssh_enabled ssh then [("access.ssh.port", ssh_port ssh)] else [])
  ++ (if mq_enabled mqtt then [("mqtt.listen.port", ml_port (mq_listen mqtt))] else []).
Definition validate_listeners (web : WebSettings) (ssh : SshSettings) (mqtt : MqttSettings) : result unit :=
  ensure negb ((http_port web =? 0) || (https_port web =? 0)) else "access.web ports must be between 1 and 65535" in
  ports_apart [] (claimed_ports web ssh mqtt).

Definition is_hexdigit (c : ascii) : bool := is_digit c || in_range "a" "f" c || in_range "A" "F" c.
Definition is_bluetooth_address (value : string) : bool :=
  let octets := split ":" value in
  (len octets =? 6) && forallb (λ octet, (str_len octet =? 2) && all_bytes is_hexdigit octet) octets.
Definition validate_bluetooth (settings : BluetoothSettings) : result unit :=
  each (λ address, ensure is_bluetooth_address address else "not a Bluetooth address" in Ok tt)
    (map fst (bt_devices settings)).

(** * Containers *)

Definition MAX_CONTAINER_PROJECTS : Z := 32.
Definition MAX_CONTAINER_PROJECT_BYTES : Z := 65536.
Definition MAX_CONTAINER_PROJECTS_BYTES : Z := 262144.
Definition MAX_PROJECT_DIR_LEN : Z := 4096.
Definition MAX_PROJECT_NAME_LEN : Z := 40.

Definition is_project_name (name : string) : bool :=
  negb (is_empty name) && (str_len name <=? MAX_PROJECT_NAME_LEN)
  && first_byte (λ b, is_lower b || is_digit b) name
  && all_bytes (λ b, is_lower b || is_digit b || one_of "_-" b) name.

Fixpoint project_bytes (total : Z) (projects : smap string) : result Z :=
  match projects with
  | [] => Ok total
  | (name, text) :: rest =>
      ensure is_project_name name else "not a project name" in
      ensure negb (is_empty (trim text)) else "project is empty" in
      ensure str_len text <=? MAX_CONTAINER_PROJECT_BYTES else "a project is at most 64 KiB" in
      project_bytes (total + str_len text) rest
  end.
Definition validate_container_projects (projects : smap string) : result unit :=
  ensure len projects <=? MAX_CONTAINER_PROJECTS else "too many projects" in
  let? total := project_bytes 0 projects in
  ensure total <=? MAX_CONTAINER_PROJECTS_BYTES else "together they are at most 256 KiB" in Ok tt.

Definition NUL : ascii := "000".
Definition validate_container_project_dirs (container : ContainerSettings) : result unit :=
  each (λ '(name, dir),
      ensure bool_decide (is_Some (smap_get name (ct_projects container))) else "not a declared project" in
      ensure starts_with "/" dir && (str_len dir <=? MAX_PROJECT_DIR_LEN) && negb (contains_byte NUL dir)
        else "not an absolute path" in Ok tt)
    (ct_project_dirs container).

(** * DNS *)

Definition MAX_GLOBAL_DNS_SERVERS : Z := 3.
Definition MAX_STATIC_RECORDS : Z := 100.
Definition MAX_RECORD_COMMENT_CHARS : Z := 64.
Definition MAX_RECORD_ID_LEN : Z := 32.

Definition label_ok (label : string) : bool :=
  negb (is_empty label) && (str_len label <=? 63) && negb (starts_with "-" label) && negb (ends_with "-" label)
  && all_bytes (λ b, is_alphanumeric b || bool_decide (b = "-"%char)) label.
Definition is_host_name (name : string) : bool :=
  negb (is_empty name) && (str_len name <=? 253) && forallb label_ok (split "." name).

(** The device's own addresses: an entry's static address before its prefix. *)
Definition own_address (cfg : IfaceSettings) : option IpAddr :=
  st ← if_static cfg; first ← head (split "/" (st_address st)); parse_ip first.
Definition own_addresses (network : network_map) : list IpAddr := omap own_address (map snd network).

Fixpoint servers_ok (own : list IpAddr) (seen : list Z) (servers : list string) : result unit :=
  match servers with
  | [] => Ok tt
  | server :: rest =>
      match parse_ipv4 server with
      | None => Err (Msg "dns.global server is not an IPv4 address")
      | Some addr =>
          ensure negb (is_loopback addr || is_unspecified addr) else "dns.global server is this device itself" in
          ensure negb (bool_decide (V4 addr ∈ own)) else "dns.global server is an address of this device's own" in
          ensure negb (bool_decide (addr ∈ seen)) else "dns.global lists a server twice" in
          servers_ok own (addr :: seen) rest
      end
  end.

Definition id_ok (id : string) : bool :=
  negb (is_empty id) && (str_len id <=? MAX_RECORD_ID_LEN) && all_bytes (λ b, is_alphanumeric b || one_of "-_" b) id.
Definition comment_ok (comment : option string) : bool :=
  match comment with
  | Some text => negb ((MAX_RECORD_COMMENT_CHARS <? chars_count text) || has_control text)
  | None => true
  end.
Fixpoint records_ok (hostname : string) (names ids : list string) (records : list StaticRecord) : result unit :=
  match records with
  | [] => Ok tt
  | record :: rest =>
      ensure id_ok (sr_id record) else "dns.staticRecords id" in
      ensure negb (bool_decide (sr_id record ∈ ids)) else "dns.staticRecords lists an id twice" in
      let name := to_ascii_lowercase (sr_hostname record) in
      ensure is_host_name name else "not a host name" in
      ensure negb (bool_decide (name = "localhost") || ends_with ".localhost" name) else "localhost" in
      ensure negb (bool_decide (name = to_ascii_lowercase hostname)) else "this device's own hostname" in
      ensure bool_decide (is_Some (parse_ipv4 (sr_address record))) else "not an IPv4 address" in
      ensure comment_ok (sr_comment record) else "comment" in
      ensure negb (bool_decide (name ∈ names)) else "dns.staticRecords lists a name twice" in
      records_ok hostname (name :: names) (sr_id record :: ids) rest
  end.
Definition validate_dns (dns : DnsSettings) (hostname : string) (network : network_map) : result unit :=
  let global := dns_global dns in
  ensure len (gd_servers global) <=? MAX_GLOBAL_DNS_SERVERS else "too many servers" in
  ensure negb (gd_enabled global && is_nil (gd_servers global)) else "dns.global is switched on with no server" in
  let? _ := servers_ok (own_addresses network) [] (gd_servers global) in
  ensure len (dns_static_records dns) <=? MAX_STATIC_RECORDS else "too many records" in
  records_ok hostname [] [] (dns_static_records dns).

(** * Identity and services *)

Definition DEVICE_ID_LEN : Z := 32.
Definition validate_device_id (device_id : string) : result unit :=
  ensure (str_len device_id =? DEVICE_ID_LEN) && all_bytes is_hex_lower device_id else "device identifier" in Ok tt.

Definition MAX_USER_UNITS : Z := 32.
Definition MAX_USER_UNIT_BYTES : Z := 65536.
Definition MAX_USER_UNIT_CONF_BYTES : Z := 16384.
Definition MAX_USER_UNITS_BYTES : Z := 262144.
Definition MAX_SYSTEMD_NAME_LEN : Z := 255.
Definition MAX_OPENRC_NAME_LEN : Z := 64.
Definition SYSTEMD_SUFFIXES : list string := [".service"; ".socket"; ".timer"; ".path"; ".target"; ".mount"].
Definition OPENRC_SHEBANGS : list string := ["#!/sbin/openrc-run"; "#!/usr/sbin/openrc-run"; "#! /sbin/openrc-run"].

Definition BACKSLASH : ascii := "092".
Definition is_systemd_unit_name (name : string) : bool :=
  match head (omap (λ suffix, strip_suffix suffix name) SYSTEMD_SUFFIXES) with
  | None => false
  | Some stem =>
      let prefix := default stem (strip_suffix "@" stem) in
      (str_len name <=? MAX_SYSTEMD_NAME_LEN) && negb (is_empty prefix)
      && all_bytes (λ b, is_alphanumeric b || one_of ":_.-" b || bool_decide (b = BACKSLASH)) prefix
  end.
Definition is_systemd_template (name : string) : bool :=
  match rsplit_once "." name with Some (stem, _) => ends_with "@" stem | None => false end.
Definition is_openrc_script_name (name : string) : bool :=
  negb (is_empty name) && (str_len name <=? MAX_OPENRC_NAME_LEN) && negb (starts_with "." name)
  && all_bytes (λ b, is_alphanumeric b || one_of "._-" b) name.

(** The values of [key] in the [Install] sections. *)
Fixpoint install_values (key section : string) (ls : list string) : list string :=
  match ls with
  | [] => []
  | line :: rest =>
      if starts_with "[" (trim_left line)
      then install_values key (unchars (filter (λ c, is_whitespace c = false) (chars line))) rest
      else
        (if bool_decide (section = "[Install]")
         then match strip_prefix key line ≫= strip_prefix "=" with
              | Some value => split_whitespace value
              | None => []
              end
         else []) ++ install_values key section rest
  end.
Definition unit_install_values (text key : string) : list string := install_values key "" (lines text).

Definition validate_user_unit (name : string) (u : UserUnit) : result unit :=
  ensure negb (is_empty (trim (un_text u))) else "service is empty" in
  ensure str_len (un_text u) <=? MAX_USER_UNIT_BYTES else "a service is at most 64 KiB" in
  match un_kind u with
  | Systemd =>
      ensure is_systemd_unit_name name else "not a unit file name" in
      ensure negb (bool_decide (is_Some (un_conf u))) else "only an OpenRC script has a conf" in
      ensure negb (un_enabled u && is_systemd_template name) else "a template is not enabled itself" in
      ensure negb (un_enabled u
                   && forallb (λ key, is_nil (unit_install_values (un_text u) key)) ["WantedBy"; "RequiredBy"; "Alias"])
        else "nothing would start it" in Ok tt
  | Openrc =>
      ensure is_openrc_script_name name else "not a script name" in
      let first := default "" (head (lines (un_text u))) in
      ensure existsb (λ shebang, starts_with shebang first) OPENRC_SHEBANGS else "not an openrc-run script" in
      ensure match un_conf u with Some conf => str_len conf <=? MAX_USER_UNIT_CONF_BYTES | None => true end
        else "a conf is at most 16 KiB" in Ok tt
  end.
Fixpoint units_bytes (total : Z) (units : smap UserUnit) : result Z :=
  match units with
  | [] => Ok total
  | (name, u) :: rest =>
      let? _ := validate_user_unit name u in
      units_bytes (total + (str_len (un_text u) + match un_conf u with Some c => str_len c | None => 0 end)) rest
  end.
Definition validate_services (services : ServicesSettings) : result unit :=
  ensure len (sv_units services) <=? MAX_USER_UNITS else "too many services" in
  let? total := units_bytes 0 (sv_units services) in
  ensure total <=? MAX_USER_UNITS_BYTES else "together they are at most 256 KiB" in Ok tt.

(** * Time *)

Definition MAX_NTP_SERVERS : Z := 8.
Definition MAX_NTP_SERVER_LEN : Z := 253.
Definition MAX_TIMEZONE_LEN : Z := 64.

Fixpoint ntp_ok (seen : list string) (servers : list string) : result unit :=
  match servers with
  | [] => Ok tt
  | server :: rest =>
      ensure negb (is_empty server) else "NTP server is empty" in
      ensure str_len server <=? MAX_NTP_SERVER_LEN else "NTP server is too long" in
      ensure all_bytes (λ b, is_alphanumeric b || one_of ".-:" b) server else "NTP server character" in
      ensure negb (bool_decide (server ∈ seen)) else "NTP server is listed twice" in
      ntp_ok (seen ++ [server]) rest
  end.
Definition validate_ntp_servers (servers : list string) : result unit :=
  ensure len servers <=? MAX_NTP_SERVERS else "too many NTP servers" in ntp_ok [] servers.
Definition validate_timezone_name (zone : string) : result unit :=
  ensure negb (is_empty zone || (MAX_TIMEZONE_LEN <? str_len zone)) else "timezone length" in
  each (λ component,
      ensure negb (is_empty component || bool_decide (component = ".") || bool_decide (component = ".."))
        else "timezone component" in
      ensure all_bytes (λ b, is_alphanumeric b || one_of "._+-" b) component else "timezone character" in Ok tt)
    (split "/" zone).
Definition validate_time_settings (time : TimeSettings) : result unit :=
  let? _ := validate_ntp_servers (ntp_servers (tm_ntp time)) in validate_timezone_name (tm_timezone time).

(** * Wi-Fi *)

Definition RAW_PMK_LEN : Z := 64.
Definition MIN_PASSPHRASE_LEN : Z := 8.
Definition MAX_PASSPHRASE_LEN : Z := 63.
Definition is_wpa_quotable (value : string) : bool :=
  all_bytes (λ b, (32 <=? byte_val b) && (byte_val b <=? 126) && negb (bool_decide (b = QUOTE))
                  && negb (bool_decide (b = BACKSLASH))) value.
Definition validate_wifi_psk (psk : string) : result unit :=
  if (str_len psk =? RAW_PMK_LEN) && all_bytes is_hexdigit psk then Ok tt
  else
    ensure negb ((str_len psk <? MIN_PASSPHRASE_LEN) || (MAX_PASSPHRASE_LEN <? str_len psk)) else "passphrase length" in
    ensure is_wpa_quotable psk else "pre-shared key character" in Ok tt.

Definition FCC_PLAN_COUNTRIES : list string := ["US"; "CA"; "MX"; "TW"; "CO"; "PE"; "AR"; "CL"].
(** The channels of [2.4 GHz], first and last. *)
Definition ap_channels (country_code : string) : Z * Z :=
  if existsb (λ country, eq_ignore_ascii_case country country_code) FCC_PLAN_COUNTRIES then (1, 11) else (1, 13).

(** [network_rules::ipv4_cidr]. *)
Definition ipv4_cidr (cidr : string) : option (Z * Z) :=
  '(addr, prefix) ← split_once "/" cidr;
  prefix ← parse_uint 255 prefix;
  if prefix <=? 32 then addr ← parse_ipv4 addr; Some (addr, prefix) else None.

Definition MIN_LEASE_SECONDS : Z := 60.
Definition validate_ap_pool (ap : WifiApSettings) : result unit :=
  ensure match ap_lease_seconds ap with Some seconds => MIN_LEASE_SECONDS <=? seconds | None => true end
    else "wifi.ap.leaseSeconds" in
  match ap_pool ap, ipv4_cidr (ap_address ap) with
  | Some pool, Some (host, prefix) =>
      let span := Z.shiftl 1 (32 - prefix) in
      let host_index := Z.land host (span - 1) in
      let first := pool_offset pool in
      let end_ := pool_offset pool + pool_size pool in
      ensure negb ((pool_size pool =? 0) || (first =? 0) || (span - 1 <? end_)) else "wifi.ap.pool is empty" in
      ensure negb ((first <=? host_index) && (host_index <? end_)) else "wifi.ap.pool holds the access point's own address" in
      Ok tt
  | _, _ => Ok tt
  end.

(** * What acceptance means *)

Ltac passed H := repeat (let E := fresh "E" in apply if_ok in H as [E H]; bools).

Lemma ports_apart_ok taken claimed :
  ports_apart taken claimed = Ok tt → NoDup (map snd claimed) ∧ ∀ p, p ∈ map snd claimed → p ∉ taken.
Proof.
  revert taken. induction claimed as [|[name port] rest IH]; intros taken H; cbn [ports_apart map snd] in *.
  { split; [constructor|by intros p ?%elem_of_nil]. }
  apply if_ok in H as [E H]. bools. apply IH in H as [Hnd Hout]. split.
  - constructor; [|done]. intros Hp. apply (Hout port Hp). apply elem_of_app. right. by left.
  - intros p [->|Hp]%elem_of_cons; [done|]. intros Ht. apply (Hout p Hp). apply elem_of_app. by left.
Qed.

Lemma servers_ok_ok own seen servers :
  servers_ok own seen servers = Ok tt →
  ∃ addrs, Forall2 (λ s a, parse_ipv4 s = Some a) servers addrs ∧ NoDup addrs ∧ (∀ a, a ∈ addrs → a ∉ seen ∧ V4 a ∉ own).
Proof.
  revert seen. induction servers as [|server servers IH]; intros seen H; cbn [servers_ok] in H.
  { exists []. split; [constructor|]. split; [constructor|by intros a ?%elem_of_nil]. }
  destruct (parse_ipv4 server) as [a|] eqn:Ea; [|done]. apply if_ok in H as [_ H].
  apply if_ok in H as [E1 H]. apply if_ok in H as [E2 H]. bools.
  apply IH in H as (addrs & H1 & H2 & H3). exists (a :: addrs). split; [by constructor|]. split.
  - constructor; [|done]. intros Ha. destruct (H3 a Ha) as [Hn _]. apply Hn. by left.
  - intros b [->|Hb]%elem_of_cons; [done|]. destruct (H3 b Hb) as [Hn Ho]. split; [|done]. intros Hs. apply Hn. by right.
Qed.

Definition record_name (r : StaticRecord) : string := to_ascii_lowercase (sr_hostname r).
Lemma records_ok_ok hostname names ids records :
  records_ok hostname names ids records = Ok tt →
  NoDup (map record_name records) ∧ NoDup (map sr_id records)
  ∧ Forall (λ r, is_host_name (record_name r) = true ∧ record_name r ≠ to_ascii_lowercase hostname
                 ∧ is_Some (parse_ipv4 (sr_address r)) ∧ record_name r ∉ names ∧ sr_id r ∉ ids) records.
Proof.
  revert names ids. induction records as [|r records IH]; intros names ids H; cbn [records_ok map] in *.
  { split; [constructor|]. split; constructor. }
  apply if_ok in H as [_ H]. apply if_ok in H as [E1 H]. apply if_ok in H as [E2 H]. apply if_ok in H as [_ H].
  apply if_ok in H as [E3 H]. apply if_ok in H as [E4 H]. apply if_ok in H as [_ H]. apply if_ok in H as [E5 H]. bools.
  apply IH in H as (H1 & H2 & H3). rewrite Forall_forall in H3. split; [|split].
  - constructor; [|done]. intros (x & Hx & Hin)%list_elem_of_fmap. destruct (H3 x Hin) as (_ & _ & _ & Hn & _).
    apply Hn. rewrite <- Hx. by left.
  - constructor; [|done]. intros (x & Hx & Hin)%list_elem_of_fmap. destruct (H3 x Hin) as (_ & _ & _ & _ & Hn).
    apply Hn. rewrite <- Hx. by left.
  - constructor; [done|]. apply Forall_forall. intros x Hx. destruct (H3 x Hx) as (? & ? & ? & Hn & Hi).
    split; [done|]. split; [done|]. split; [done|]. split; intros ?; [apply Hn|apply Hi]; by right.
Qed.

Definition text_bytes (texts : list string) : Z := foldr (λ t n, str_len t + n) 0 texts.
Lemma project_bytes_ok total projects n :
  project_bytes total projects = Ok n →
  n = total + text_bytes (map snd projects)
  ∧ Forall (λ e, is_project_name e.1 = true ∧ str_len e.2 ≤ MAX_CONTAINER_PROJECT_BYTES) projects.
Proof.
  revert total. induction projects as [|[name text] projects IH]; intros total H; cbn [project_bytes map snd] in *.
  { injection H as <-. split; [cbn; lia|constructor]. }
  apply if_ok in H as [E1 H]. apply if_ok in H as [_ H]. apply if_ok in H as [E2 H]. bools.
  apply IH in H as [-> H]. split; [|by constructor].
  change (text_bytes (text :: map snd projects)) with (str_len text + text_bytes (map snd projects)). lia.
Qed.

Lemma ntp_ok_ok seen servers :
  ntp_ok seen servers = Ok tt → NoDup servers ∧ ∀ s, s ∈ servers → s ≠ "" ∧ str_len s ≤ MAX_NTP_SERVER_LEN ∧ s ∉ seen.
Proof.
  revert seen. induction servers as [|server servers IH]; intros seen H; cbn [ntp_ok] in H.
  { split; [constructor|by intros s ?%elem_of_nil]. }
  apply if_ok in H as [E1 H]. apply if_ok in H as [E2 H]. apply if_ok in H as [_ H]. apply if_ok in H as [E3 H]. bools.
  apply IH in H as [H1 H2]. split.
  - constructor; [|done]. intros Hs. apply (H2 server Hs). apply elem_of_app. right. by left.
  - intros s [->|Hs]%elem_of_cons; [split; [by intros ->|done]|]. destruct (H2 s Hs) as (? & ? & Hn). split; [done|].
    split; [done|]. intros ?. apply Hn. apply elem_of_app. by left.
Qed.

(** ** The access point's pool *)

(** Every address of an accepted pool is a host of the access point's subnet,
    and none is its own. *)
Lemma ap_pool_sound ap pool host prefix :
  0 ≤ prefix ≤ 32 → 0 ≤ pool_size pool →
  validate_ap_pool ap = Ok tt → ap_pool ap = Some pool → ipv4_cidr (ap_address ap) = Some (host, prefix) → 0 ≤ pool_offset pool →
  ∀ i, pool_offset pool ≤ i < pool_offset pool + pool_size pool →
    0 < i < 2 ^ (32 - prefix) - 1 ∧ i ≠ host mod 2 ^ (32 - prefix).
Proof.
  intros Hp Hs H Hpool Hcidr Hoff i Hi. unfold validate_ap_pool in H. rewrite Hpool, Hcidr in H.
  apply if_ok in H as [_ H]. apply if_ok in H as [E1 H]. apply if_ok in H as [E2 _]. bools.
  rewrite Z.shiftl_1_l in *. assert (Hm : 2 ^ (32 - prefix) - 1 = Z.ones (32 - prefix)) by (rewrite Z.ones_equiv; lia).
  rewrite Hm, Z.land_ones in E2 by lia. apply andb_false_iff in E2.
  split; [lia|]. intros ->. destruct E2 as [E2|E2]; bools; lia.
Qed.

End SettingsRules.
