(* ===== verification/NetworkRules.v ===== *)
(** The rules a network map is held to ([src/crates/micad-settings/src/
    network_rules.rs] and [network_write.rs]): names, addresses, peers and CAN
    parameters of one entry, and the relations between entries -- VLAN parents,
    bridge ports, overlapping subnets, default-route metrics, VLAN ids and
    listening ports. *)
From Stdlib Require Import Ascii.
From S2P Require Import Prelude Text Order Maps Chars Features Addresses SettingsModel SettingsRules DotPath.
Import Features Addresses SettingsModel SettingsRules.
Import DotPath(value(..)).

Module NetworkRules.

(** The base64 decoder of the [base64] crate, standard alphabet, padded. *)
Class Base64 := { base64_decode : string → option bytes }.

(** * One entry *)

Definition MAX_IFACE_LEN : Z := 15.
Definition check_iface_name (name : string) : result unit :=
  ensure negb (is_empty name) else "name is empty" in
  ensure str_len name <=? MAX_IFACE_LEN else "name is longer than 15 characters" in
  ensure negb (bool_decide (name = ".") || bool_decide (name = "..")) else "not a name" in
  ensure all_bytes (λ b, is_alphanumeric b || one_of ".-_:" b) name else "character an interface name cannot have" in
  Ok tt.

Definition is_ip_or_cidr (value : string) : bool :=
  let '(addr, prefix) := match split_once "/" value with
                         | Some (addr, prefix) => (addr, Some prefix)
                         | None => (value, None)
                         end in
  match parse_ip addr with
  | None => false
  | Some addr =>
      match prefix with
      | None => true
      | Some prefix =>
          match parse_uint 255 prefix with Some p => p <=? (if is_ipv4 addr then 32 else 128) | None => false end
      end
  end.

Definition is_host_port (value : string) : bool :=
  match rsplit_once ":" value with
  | None => false
  | Some (host, port) =>
      match parse_uint 65535 port with
      | None => false
      | Some _ =>
          match strip_prefix "[" host ≫= strip_suffix "]" with
          | Some inner => bool_decide (is_Some (parse_ipv6 inner))
          | None => negb (is_empty host) && all_bytes (λ b, is_alphanumeric b || one_of ".-_" b) host
          end
      end
  end.

Definition MAX_PEER_NAME_CHARS : Z := 64.
Section peers.
Context `{B64 : Base64}.
Definition is_wireguard_key (value : string) : bool :=
  match base64_decode value with Some b => len b =? 32 | None => false end.
Definition validate_peer (peer : WireguardPeer) : result unit :=
  ensure is_wireguard_key (wp_public_key peer) else "public key" in
  let? _ := each (λ allowed, ensure is_ip_or_cidr allowed else "allowed IP" in Ok tt) (wp_allowed_ips peer) in
  ensure match wp_endpoint peer with Some e => is_host_port e | None => true end else "endpoint is not host:port" in
  ensure match wp_name peer with
         | Some n => negb ((MAX_PEER_NAME_CHARS <? chars_count n) || has_control n) | None => true end else "peer name" in
  ensure match wp_preshared_key peer with Some k => is_wireguard_key k | None => true end else "preshared key" in
  Ok tt.
Definition validate_peers (peers : list WireguardPeer) : result unit := each validate_peer peers.
End peers.

Definition MAX_CAN_BITRATE : Z := 1000000.
Definition MAX_CAN_DATA_BITRATE : Z := 8000000.
Definition MAX_CAN_RESTART_MS : Z := 60000.
Definition can_alone (cfg : IfaceSettings) : bool :=
  negb (if_dhcp cfg || bool_decide (is_Some (if_static cfg)) || negb (is_nil (if_dns cfg)) || negb (is_nil (if_routes cfg))
        || bool_decide (is_Some (if_vlan cfg)) || bool_decide (is_Some (if_bridge cfg))
        || bool_decide (is_Some (if_wireguard cfg))).
Definition validate_can (cfg : IfaceSettings) : result unit :=
  let is_can := bool_decide (if_kind cfg = Can) in
  match if_can cfg with
  | None => ensure negb is_can else "kind can but carries no can block" in Ok tt
  | Some can =>
      ensure is_can else "carries a can block but is not kind can" in
      ensure can_alone cfg else "a CAN interface carries its can block alone" in
      ensure (1 <=? can_bitrate can) && (can_bitrate can <=? MAX_CAN_BITRATE) else "can.bitrate" in
      ensure match can_restart_ms can with Some ms => ms <=? MAX_CAN_RESTART_MS | None => true end else "can.restartMs" in
      match can_fd can, can_data_bitrate can with
      | Some true, None => Err (Msg "CAN FD needs can.dataBitrate")
      | Some true, Some rate =>
          ensure (1 <=? rate) && (rate <=? MAX_CAN_DATA_BITRATE) else "can.dataBitrate" in Ok tt
      | _, None => Ok tt
      | _, Some _ => Err (Msg "can.dataBitrate, which only CAN FD takes")
      end
  end.

(** * Violations *)

(** [NetworkViolation]; the message is the rule's, without its values. *)
Record NetworkViolation := {
  nv_interface : string; nv_field : string; nv_code : string; nv_params : value; nv_message : string;
}.
Definition violation (iface field code : string) (params : list (string * value)) (message : string) : NetworkViolation :=
  {| nv_interface := iface; nv_field := field; nv_code := code; nv_params := Object params; nv_message := message |}.

(** ** Topology *)

Definition vlan_violations (network : network_map) (iface : string) (cfg : IfaceSettings) : list NetworkViolation :=
  match if_vlan cfg with
  | None => []
  | Some vlan =>
      let parent := [("id", Number (to_dec (vl_id vlan))); ("parent", Str (vl_parent vlan))] in
      match smap_get (vl_parent vlan) network with
      | None => [violation iface "vlan.parent" "vlan_parent_invalid" parent "not a declared network entry"]
      | Some parent_cfg =>
          if bool_decide (if_kind parent_cfg = Can)
          then [violation iface "vlan.parent" "vlan_parent_invalid" parent "which is a CAN interface"]
          else []
      end
  end.

(** One port of a bridge: what it violates, and the map of claimed ports after it. *)
Definition port_violations (network : network_map) (iface port : string) (claimed_by : smap string) :
    list NetworkViolation * smap string :=
  let params := [("bridge", Str iface); ("port", Str port)] in
  match smap_get port network with
  | None => ([violation iface "bridge.ports" "bridge_port_invalid" params "not a declared network entry"], claimed_by)
  | Some port_cfg =>
      if bool_decide (if_kind port_cfg = Can)
      then ([violation iface "bridge.ports" "bridge_port_invalid" params "a CAN interface"], claimed_by)
      else
        ((if if_dhcp port_cfg || bool_decide (is_Some (if_static port_cfg))
          then [violation port "dhcp" "bridge_port_addressed" params "must not carry addressing of its own"] else [])
         ++ (match smap_get port claimed_by with
             | Some other =>
                 [violation iface "bridge.ports" "bridge_port_taken" [("bridge", Str other); ("port", Str port)]
                    "claimed as a port by both"]
             | None => []
             end),
         smap_insert port iface claimed_by)
  end.
Fixpoint ports_violations (network : network_map) (iface : string) (ports : list string) (claimed_by : smap string) :
    list NetworkViolation * smap string :=
  match ports with
  | [] => ([], claimed_by)
  | port :: rest =>
      let '(found, claimed_by) := port_violations network iface port claimed_by in
      let '(more, claimed_by) := ports_violations network iface rest claimed_by in
      (found ++ more, claimed_by)
  end.
Definition bridge_ports (cfg : IfaceSettings) : list string :=
  match if_bridge cfg with Some bridge => br_ports bridge | None => [] end.
Fixpoint topology_from (network : network_map) (entries : list (string * IfaceSettings)) (claimed_by : smap string) :
    list NetworkViolation :=
  match entries with
  | [] => []
  | (iface, cfg) :: rest =>
      let '(found, claimed_by) := ports_violations network iface (bridge_ports cfg) claimed_by in
      vlan_violations network iface cfg ++ found ++ topology_from network rest claimed_by
  end.
Definition topology_violations (network : network_map) : list NetworkViolation := topology_from network network [].
Definition validate_topology (network : network_map) : result unit :=
  match topology_violations network with v :: _ => Err (Msg (nv_message v)) | [] => Ok tt end.

(** * Writes *)

Definition valid_octet (octet : string) : bool :=
  negb (is_empty octet) && (str_len octet <=? 3) && all_bytes is_digit octet
  && match parse_uint 65535 octet with Some v => v <=? 255 | None => false end.
Definition valid_ipv4 (address : string) : bool :=
  let octets := split "." address in (len octets =? 4) && forallb valid_octet octets.
Definition valid_cidr (cidr : string) : bool :=
  match split_once "/" cidr with
  | None => false
  | Some (address, prefix) =>
      valid_ipv4 address && negb (is_empty prefix) && (str_len prefix <=? 2) && all_bytes is_digit prefix
      && match parse_uint 255 prefix with Some v => v <=? 32 | None => false end
  end.
Definition validate_static_address (dhcp : bool) (address : string) : result unit :=
  ensure negb (negb dhcp && negb (is_empty address) && negb (valid_cidr address))
    else "Static address must be IPv4 CIDR notation, e.g. 192.168.1.10/24." in Ok tt.

Definition is_default_destination (destination : string) : bool :=
  bool_decide (destination = "0.0.0.0/0") || bool_decide (destination = "::/0").

Definition gateway_of (cfg : IfaceSettings) : option string := if_static cfg ≫= st_gateway.
Definition route_problem (has_gateway : bool) (route : RouteConfig) : option (string * string) :=
  if negb (is_ip_or_cidr (rt_destination route)) then Some ("routes", "not a network in CIDR notation")
  else if match rt_gateway route with Some g => bool_decide (parse_ip g = None) | None => false end
       then Some ("routes", "does not name an address")
  else if is_default_destination (rt_destination route) && has_gateway
       then Some ("routes", "declares a default route twice")
  else None.
Definition routing_problem (cfg : IfaceSettings) : option (string * string) :=
  match head (omap (route_problem (bool_decide (is_Some (gateway_of cfg)))) (if_routes cfg)) with
  | Some problem => Some problem
  | None =>
      if is_nil (if_dns cfg) then None
      else if negb (if_dhcp cfg) || bool_decide (is_Some (if_static cfg))
           then Some ("dns", "replaces the servers of a DHCP lease")
      else if existsb (λ dns, bool_decide (parse_ip dns = None)) (if_dns cfg) then Some ("dns", "is not an address")
      else None
  end.

(** An IPv4 CIDR as its address and prefix length, and a prefix's mask. *)
Definition cidr_parts (cidr : string) : option (Z * Z) :=
  if valid_cidr cidr
  then '(address, prefix) ← split_once "/" cidr;
       a ← parse_ipv4 address; p ← parse_u32 prefix; Some (a, p)
  else None.
Definition mask (prefix : Z) : Z :=
  if 32 - prefix <? 32 then Z.land (Z.shiftl 4294967295 (32 - prefix)) 4294967295 else 0.
Definition static_cidr (cfg : IfaceSettings) : option (Z * Z) :=
  if if_dhcp cfg then None else st ← if_static cfg; cidr_parts (st_address st).

Definition gateway_outside (cfg : IfaceSettings) : bool :=
  match static_cidr cfg, gateway_of cfg ≫= parse_ipv4 with
  | Some (own, prefix), Some gateway => negb (Z.land gateway (mask prefix) =? Z.land own (mask prefix))
  | _, _ => false
  end.
Definition entry_violations (iface : string) (cfg : IfaceSettings) : list NetworkViolation :=
  let address := match if_static cfg with Some st => st_address st | None => "" end in
  let gateway := default "" (gateway_of cfg) in
  (if is_ok (check_iface_name iface) then []
   else [violation iface "name" "name_invalid" [("name", Str iface)] "an interface name"])
  ++ (if is_ok (validate_static_address (if_dhcp cfg) address) then []
      else [violation iface "static.address" "validation_failed" [] "Static address must be IPv4 CIDR notation"])
  ++ (if gateway_outside cfg
      then [violation iface "static.gateway" "gateway_out_of_subnet" [("address", Str address); ("gateway", Str gateway)]
              "the gateway is not in the subnet"] else [])
  ++ (match routing_problem cfg with
      | Some (field, message) => [violation iface field "validation_failed" [] message]
      | None => []
      end)
  ++ (if internet cfg then []
      else
        (match if_kind cfg with
         | Wireguard | Can => [violation iface "internet" "validation_failed" [] "internet is for physical, bridge and VLAN entries"]
         | _ => []
         end)
        ++ (if bool_decide (is_Some (gateway_of cfg))
            then [violation iface "static.gateway" "gateway_not_allowed" [("gateway", Str gateway)] "has no gateway"] else [])
        ++ (if existsb (λ route, bool_decide (rt_destination route = "0.0.0.0/0")) (if_routes cfg)
            then [violation iface "routes" "gateway_not_allowed" [] "carries no default route"] else [])).

(** ** Rules between entries *)

Section collisions.
Context {T : Type} (collide : T → T → bool) (items : list (string * T)) (carried : list string).
Definition is_carried (i : nat) : bool :=
  match items !! i with Some (name, _) => bool_decide (name ∈ carried) | None => false end.
Definition collide_at (earlier later : nat) : bool :=
  match items !! earlier, items !! later with Some (_, a), Some (_, b) => collide a b | _, _ => false end.
(** The entry a colliding pair is reported on, and the other one. *)
Definition reported_on (earlier later : nat) : option (nat * nat) :=
  if negb (collide_at earlier later) then None
  else if is_carried later then Some (later, earlier)
  else if is_carried earlier then Some (earlier, later)
  else None.
(** The pairs in the loops' order. *)
Definition pairs (n : nat) : list (nat * nat) :=
  later ← seq 0 n; earlier ← seq 0 later; [(earlier, later)].
Fixpoint report (reported : list nat) (l : list (nat * nat)) : list (nat * nat) :=
  match l with
  | [] => []
  | (earlier, later) :: rest =>
      match reported_on earlier later with
      | Some (target, other) =>
          if bool_decide (target ∈ reported) then report reported rest
          else (target, other) :: report (target :: reported) rest
      | None => report reported rest
      end
  end.
Definition collisions : list (nat * nat) := report [] (pairs (length items)).
Definition violations_of (make : string → T → string → NetworkViolation) : list NetworkViolation :=
  omap (λ '(target, other),
      '(iface, t) ← items !! target; '(name, _) ← items !! other; Some (make iface t name)) collisions.
End collisions.

Definition overlap (a b : Z * Z) : bool :=
  let shorter := mask (Z.min a.2 b.2) in Z.land a.1 shorter =? Z.land b.1 shorter.
Definition subnets (entries : network_map) : list (string * (Z * Z)) :=
  omap (λ '(iface, cfg), c ← static_cidr cfg; Some (iface, c)) entries.
Definition route_metric (iface : string) (route : RouteConfig) : option (string * Z) :=
  if is_default_destination (rt_destination route) then m ← rt_metric route; Some (iface, m) else None.
Definition metrics (entries : network_map) : list (string * Z) :=
  '(iface, cfg) ← entries; omap (route_metric iface) (if_routes cfg).
Definition vlans (entries : network_map) : list (string * (string * Z)) :=
  omap (λ '(iface, cfg), v ← if_vlan cfg; Some (iface, (vl_parent v, vl_id v))) entries.
Definition listen_ports (entries : network_map) : list (string * Z) :=
  omap (λ '(iface, cfg), w ← if_wireguard cfg; p ← wg_listen_port w; Some (iface, p)) entries.

Definition write_violations (entries : network_map) (carried : list string) : list NetworkViolation :=
  violations_of overlap (subnets entries) carried (λ iface _ other,
    violation iface "static.address" "address_overlap" [("name", Str other)] "overlaps the subnet")
  ++ violations_of Z.eqb (metrics entries) carried (λ iface metric other,
    violation iface "routes" "metric_duplicate" [("metric", Number (to_dec metric)); ("name", Str other)] "the default route metric")
  ++ violations_of (λ a b, bool_decide (a = b)) (vlans entries) carried (λ iface '(parent, id) other,
    violation iface "vlan.id" "vlan_duplicate" [("id", Number (to_dec id)); ("name", Str other); ("parent", Str parent)] "already carries VLAN")
  ++ violations_of Z.eqb (listen_ports entries) carried (λ iface port other,
    violation iface "wireguard.listenPort" "port_in_use" [("name", Str other); ("port", Number (to_dec port))] "already listens").

Definition references_to (entries : network_map) (iface : string) : list string :=
  map fst (filter (λ '(_, cfg),
    match if_vlan cfg with Some v => bool_decide (vl_parent v = iface) | None => false end
    || bool_decide (iface ∈ bridge_ports cfg) = true) entries).

Section map_violations.
Context `{B64 : Base64}.
Definition relational_violations (entries : network_map) : list NetworkViolation :=
  ('(iface, cfg) ← entries;
   (match if_wireguard cfg with
    | Some wireguard =>
        if is_ok (validate_peers (wg_peers wireguard)) then []
        else [violation iface "wireguard.peers" "validation_failed" [] "peers"]
    | None => []
    end)
   ++ (if is_ok (validate_can cfg) then [] else [violation iface "can" "validation_failed" [] "can"]))
  ++ topology_violations entries.
Definition map_violations (entries : network_map) (carried : list string) : list NetworkViolation :=
  relational_violations entries
  ++ ('(iface, cfg) ← entries; if bool_decide (iface ∈ carried) then entry_violations iface cfg else [])
  ++ write_violations entries carried.
End map_violations.

(** * Lemmas *)

(** ** Subnets *)

Definition is_u32 (a : Z) : Prop := 0 ≤ a < 4294967296.
Definition is_prefix_len (p : Z) : Prop := 0 ≤ p ≤ 32.

(** Masking an address drops its host part. *)
Lemma land_mask a p : is_u32 a → is_prefix_len p → Z.land a (mask p) = a / 2 ^ (32 - p) * 2 ^ (32 - p).
Proof.
  unfold is_u32, is_prefix_len, mask. intros Ha Hp. destruct (Z.ltb_spec (32 - p) 32) as [Hlt|Hge].
  - set (k := 32 - p) in *. rewrite <- Z.shiftr_div_pow2, <- Z.shiftl_mul_pow2 by lia.
    change 4294967295 with (Z.ones 32). apply Z.bits_inj'. intros n Hn.
    rewrite !Z.land_spec. rewrite (Z.shiftl_spec (Z.shiftr a k)) by lia.
    destruct (Z.ltb_spec n k) as [Hnk|Hnk].
    + rewrite Z.shiftl_spec_low by lia. rewrite (Z.testbit_neg_r _ (n - k)) by lia. by rewrite andb_false_r.
    + rewrite Z.shiftl_spec, Z.shiftr_spec by lia. replace (n - k + k) with n by lia.
      rewrite (Z.testbit_ones_nonneg 32 (n - k)), (Z.testbit_ones_nonneg 32 n) by lia.
      destruct (Z.ltb_spec n 32).
      * rewrite (proj2 (Z.ltb_lt (n - k) 32)) by lia. by rewrite andb_true_r.
      * rewrite andb_false_r, andb_false_r. symmetry. apply (Z.bits_above_log2 a n); [lia|].
        destruct (decide (a = 0)) as [->|]; [cbn; lia|]. apply Z.log2_lt_pow2; [lia|].
        pose proof (Z.pow_le_mono_r 2 32 n ltac:(lia) ltac:(lia)). change (2 ^ 32) with 4294967296 in *. lia.
  - assert (p = 0) as -> by lia. rewrite Z.land_0_r. change (2 ^ (32 - 0)) with 4294967296. rewrite Z.div_small; lia.
Qed.

(** An address of a subnet. *)
Definition in_subnet (c : Z * Z) (x : Z) : Prop := is_u32 x ∧ Z.land x (mask c.2) = Z.land c.1 (mask c.2).
Definition well_formed (c : Z * Z) : Prop := is_u32 c.1 ∧ is_prefix_len c.2.

Lemma same_block a b p :
  is_u32 a → is_u32 b → is_prefix_len p →
  Z.land a (mask p) = Z.land b (mask p) ↔ a / 2 ^ (32 - p) = b / 2 ^ (32 - p).
Proof.
  intros Ha Hb Hp. rewrite !land_mask by done. assert (0 < 2 ^ (32 - p)) by (apply Z.pow_pos_nonneg; unfold is_prefix_len in Hp; lia).
  split; [intros H1; by apply Z.mul_cancel_r in H1; [|lia]|by intros ->].
Qed.

(** Addresses in one longer-prefix block are in one shorter-prefix block. *)
Lemma block_widen a b p q : p ≤ q → is_prefix_len p → is_prefix_len q → a / 2 ^ (32 - q) = b / 2 ^ (32 - q) →
  a / 2 ^ (32 - p) = b / 2 ^ (32 - p).
Proof.
  unfold is_prefix_len. intros Hle Hp Hq H. replace (32 - p) with ((32 - q) + (q - p)) by lia.
  rewrite Z.pow_add_r by lia. rewrite <- !Z.div_div by (try apply Z.pow_pos_nonneg; lia || (apply Z.pow_nonzero; lia)). by rewrite H.
Qed.

(** The code's test: two subnets overlap exactly when some address is in both. *)
Lemma overlap_exact c d : well_formed c → well_formed d → overlap c d = true ↔ ∃ x, in_subnet c x ∧ in_subnet d x.
Proof.
  destruct c as [a p], d as [b q]. unfold well_formed, overlap, in_subnet. cbn. intros [Ha Hp] [Hb Hq].
  rewrite Z.eqb_eq. rewrite same_block by (unfold is_prefix_len in *; done || lia). split.
  - intros H. destruct (Z.min_spec p q) as [[Hlt Hm]|[Hle Hm]]; rewrite Hm in H.
    + exists b. split; split; [done| |done|done]. by apply same_block.
    + exists a. split; split; [done|done|done|]. by apply same_block.
  - intros (x & [Hx Hxa] & [_ Hxb]). apply same_block in Hxa, Hxb; [|done..].
    assert (H1 : x / 2 ^ (32 - Z.min p q) = a / 2 ^ (32 - Z.min p q)).
    { apply (block_widen x a (Z.min p q) p); unfold is_prefix_len in *; [lia|lia|lia|done]. }
    assert (H2 : x / 2 ^ (32 - Z.min p q) = b / 2 ^ (32 - Z.min p q)).
    { apply (block_widen x b (Z.min p q) q); unfold is_prefix_len in *; [lia|lia|lia|done]. }
    congruence.
Qed.

Lemma parse_digits_bound max s acc v : parse_digits max s acc = Some v → 0 ≤ acc → 0 ≤ v.
Proof.
  revert acc. induction s as [|c s IH]; intros acc H Ha; cbn in H; [by injection H as <-|].
  destruct (is_digit c) eqn:Ed; [|done]. apply is_digit_val in Ed. case_match; [|done]. eapply IH; [exact H|lia].
Qed.
Lemma parse_uint_nonneg max s v : parse_uint max s = Some v → 0 ≤ v.
Proof.
  unfold parse_uint. intros H. set (body := match s with String "+" s' => s' | _ => s end) in *.
  destruct body; [done|]. eapply parse_digits_bound; [exact H|lia].
Qed.

(** Parsing with another maximum does not change the value. *)
Lemma parse_digits_agree m m' s acc v v' :
  parse_digits m s acc = Some v → parse_digits m' s acc = Some v' → v = v'.
Proof.
  revert acc. induction s as [|c s IH]; intros acc H H'; cbn in *; [congruence|].
  destruct (is_digit c); [|done]. do 2 (case_match; [|done]). by eapply IH.
Qed.
Lemma parse_uint_agree m m' s v v' : parse_uint m s = Some v → parse_uint m' s = Some v' → v = v'.
Proof.
  unfold parse_uint. set (body := match s with String "+" s' => s' | _ => s end).
  destruct body; [done|]. apply parse_digits_agree.
Qed.

Lemma static_cidr_ok cfg c : static_cidr cfg = Some c → well_formed c.
Proof.
  unfold static_cidr, cidr_parts. intros H. destruct (if_dhcp cfg); [done|].
  destruct (if_static cfg) as [st|]; [|done]. cbn in H. destruct (valid_cidr (st_address st)) eqn:Ev; [|done].
  unfold valid_cidr in Ev. destruct (split_once "/" (st_address st)) as [[address prefix]|]; [|done]. cbn in H.
  destruct (parse_ipv4 address) as [a|] eqn:Ea; [|done]. cbn in H.
  destruct (parse_u32 prefix) as [p|] eqn:Ep; [|done]. cbn in H. injection H as <-. bools.
  destruct (parse_uint 255 prefix) as [v|] eqn:Eu; [|done]. split; cbn; [by eapply parse_ipv4_bound|].
  assert (p = v) as -> by (unfold parse_u32 in Ep; by eapply parse_uint_agree). bools.
  split; [by eapply parse_uint_nonneg|done].
Qed.

(** ** Collisions *)

(** [R] holds of every two elements, the earlier one first. *)
Definition each_pair {A} (R : A → A → Prop) (l : list A) : Prop :=
  ∀ i j x y, (i < j)%nat → l !! i = Some x → l !! j = Some y → R x y.

Lemma each_pair_nil {A} (R : A → A → Prop) : each_pair R [].
Proof. intros i j x y _ Hi. by destruct i. Qed.

Lemma each_pair_cons {A} (R : A → A → Prop) a l : each_pair R (a :: l) ↔ Forall (R a) l ∧ each_pair R l.
Proof.
  unfold each_pair. split.
  - intros H. split.
    + apply Forall_lookup. intros i x Hi. apply (H 0%nat (S i)); [lia|done|exact Hi].
    + intros i j x y Hij Hi Hj. apply (H (S i) (S j)); [lia|done..].
  - intros [Ha Hl] [|i] [|j] x y Hij Hi Hj; try lia; cbn in *.
    + injection Hi as <-. rewrite Forall_lookup in Ha. by eapply Ha.
    + apply (Hl i j); [lia|done..].
Qed.

Lemma each_pair_app {A} (R : A → A → Prop) l k :
  each_pair R (l ++ k) ↔ each_pair R l ∧ each_pair R k ∧ ∀ x y, x ∈ l → y ∈ k → R x y.
Proof.
  induction l as [|a l IH]; cbn.
  - split; [|tauto]. intros H. split; [apply each_pair_nil|]. split; [done|].
    by intros x y ?%elem_of_nil.
  - rewrite !each_pair_cons, IH, Forall_app, !Forall_forall. setoid_rewrite elem_of_cons. naive_solver.
Qed.

Section reporting.
Context {T : Type} (collide : T → T → bool) (items : list (string * T)) (carried : list string).

Lemma elem_of_pairs n e l : (e, l) ∈ pairs n ↔ (e < l < n)%nat.
Proof.
  unfold pairs. rewrite list_elem_of_bind. setoid_rewrite list_elem_of_bind. setoid_rewrite elem_of_seq.
  setoid_rewrite list_elem_of_singleton. split.
  - intros (x & (y & [= -> ->] & ?) & ?). lia.
  - intros ?. exists l. split; [|lia]. exists e. split; [done|lia].
Qed.

Lemma report_nil reported l :
  report collide items carried reported l = [] ↔
  ∀ e j t o, (e, j) ∈ l → reported_on collide items carried e j = Some (t, o) → t ∈ reported.
Proof.
  revert reported. induction l as [|[e j] l IH]; intros reported; cbn [report].
  { split; [intros _ ? ? ? ? H%elem_of_nil; done|done]. }
  destruct (reported_on collide items carried e j) as [[t o]|] eqn:Er.
  - case_bool_decide as Hin.
    + rewrite IH. split; [|intros H; intros; eapply H; [by right|done]].
      intros H e' j' t' o' [[= -> ->]|Hl]%elem_of_cons Hr; [by simplify_eq|by eapply H].
    + split; [done|]. intros H. destruct Hin. apply (H e j t o); [by left|done].
  - rewrite IH. split; [|intros H; intros; eapply H; [by right|done]].
    intros H e' j' t' o' [[= -> ->]|Hl]%elem_of_cons Hr; [congruence|by eapply H].
Qed.

(** Two items that may stand together as far as this request goes. *)
Definition compatible (p q : string * T) : Prop :=
  p.1 ∈ carried ∨ q.1 ∈ carried → collide p.2 q.2 = false.

Lemma collisions_nil : collisions collide items carried = [] ↔ each_pair compatible items.
Proof.
  unfold collisions. rewrite report_nil. setoid_rewrite elem_of_pairs. unfold each_pair, compatible. split.
  - intros H i j [n a] [m b] Hij Hi Hj Hc. cbn in *. destruct (collide a b) eqn:Ec; [|done]. exfalso.
    assert (Hr : ∃ t o, reported_on collide items carried i j = Some (t, o)).
    { unfold reported_on, collide_at, is_carried. rewrite Hi, Hj, Ec. cbn.
      destruct (bool_decide (m ∈ carried)) eqn:E1; [by eexists _, _|]. bools.
      rewrite bool_decide_eq_true_2 by by destruct Hc. by eexists _, _. }
    destruct Hr as (t & o & Hr). assert (Ht : t ∈ ([] : list nat)); [|by apply elem_of_nil in Ht].
    eapply (H i j t o); [|exact Hr]. apply lookup_lt_Some in Hj. lia.
  - intros H e j t o Hlt Hr. exfalso. unfold reported_on in Hr. destruct (collide_at collide items e j) eqn:Ec; [|done]. cbn in Hr.
    unfold collide_at in Ec. destruct (items !! e) as [[n a]|] eqn:Ee; [|done]. destruct (items !! j) as [[m b]|] eqn:Ej; [|done].
    specialize (H e j _ _ (proj1 Hlt) Ee Ej). cbn in H. unfold is_carried in Hr. rewrite Ee, Ej in Hr.
    destruct (bool_decide (m ∈ carried)) eqn:E1; bools; [rewrite H in Ec by auto; done|].
    destruct (bool_decide (n ∈ carried)) eqn:E2; bools; [rewrite H in Ec by auto; done|done].
Qed.

(** A reported pair is in range, so each gives its violation. *)
Lemma report_range reported l t o :
  (∀ e j, (e, j) ∈ l → (e < j < length items)%nat) →
  (t, o) ∈ report collide items carried reported l → (t < length items ∧ o < length items)%nat.
Proof.
  revert reported. induction l as [|[e j] l IH]; intros reported Hl H; cbn [report] in H; [by apply elem_of_nil in H|].
  assert (Hl' : ∀ e j, (e, j) ∈ l → (e < j < length items)%nat) by (intros; apply Hl; by right).
  destruct (reported_on collide items carried e j) as [[t' o']|] eqn:Er; [|by eapply IH].
  case_bool_decide; [by eapply IH|]. apply elem_of_cons in H as [[= -> ->]|H]; [|by eapply IH].
  assert (Hej : (e < j < length items)%nat) by (apply Hl; by left).
  unfold reported_on in Er. repeat case_match; simplify_eq; lia.
Qed.

Lemma violations_nil make : violations_of collide items carried make = [] ↔ each_pair compatible items.
Proof.
  rewrite <- collisions_nil. unfold violations_of. split; [|by intros ->]. intros H.
  destruct (collisions collide items carried) as [|[t o] rest] eqn:E; [done|]. exfalso.
  destruct (report_range [] (pairs (length items)) t o) as [Ht Ho].
  { intros e j. by rewrite elem_of_pairs. } { unfold collisions in E. rewrite E. by left. }
  apply lookup_lt_is_Some_2 in Ht as [[n a] Hn], Ho as [[m b] Hm]. cbn in H. by rewrite Hn, Hm in H.
Qed.

End reporting.

(** ** Items of entries *)

Lemma each_pair_map {A B} (R : B → B → Prop) (g : A → B) l : each_pair R (map g l) ↔ each_pair (λ a b, R (g a) (g b)) l.
Proof.
  induction l as [|a l IH]; cbn [map]; [split; intros _; apply each_pair_nil|].
  rewrite !each_pair_cons, IH, !Forall_forall. setoid_rewrite list_elem_of_fmap. naive_solver.
Qed.

Lemma each_pair_impl {A} (R S : A → A → Prop) l : (∀ x y, R x y → S x y) → each_pair R l → each_pair S l.
Proof. intros H Hl i j x y Hij Hi Hj. apply H. by eapply Hl. Qed.

Lemma each_pair_NoDup {A} (l : list A) : each_pair (λ a b, a ≠ b) l ↔ NoDup l.
Proof.
  induction l as [|a l IH]; [split; [constructor|intros _; apply each_pair_nil]|].
  rewrite each_pair_cons, NoDup_cons, IH, Forall_forall. naive_solver.
Qed.

Lemma each_pair_short {A} (R : A → A → Prop) (o : option A) : each_pair R (option_list o).
Proof. intros i j x y Hij Hi Hj. destruct o, i, j; cbn in *; try lia; done. Qed.

(** The items each entry gives, under the entry's name. *)
Definition items_of {T} (f : IfaceSettings → list T) (entries : network_map) : list (string * T) :=
  '(n, x) ← entries; map (pair n) (f x).

Lemma items_cons {T} (f : IfaceSettings → list T) n x entries :
  items_of f ((n, x) :: entries) = map (pair n) (f x) ++ items_of f entries.
Proof. done. Qed.

Lemma elem_of_items {T} (f : IfaceSettings → list T) entries n (a : T) :
  (n, a) ∈ items_of f entries ↔ ∃ x, (n, x) ∈ entries ∧ a ∈ f x.
Proof.
  unfold items_of. rewrite list_elem_of_bind. split.
  - intros ([n' x] & H & Hx). apply list_elem_of_fmap in H as (b & [= -> ->] & Hb). by exists x.
  - intros (x & Hx & Ha). exists (n, x). split; [by apply list_elem_of_fmap_2|done].
Qed.

Lemma items_compatible {T} (collide : T → T → bool) f entries carried :
  (∀ a b, collide a b = collide b a) → NoDup (map fst entries) →
  each_pair (compatible collide carried) (items_of f entries) ↔
  ∀ n x, (n, x) ∈ entries → n ∈ carried →
    each_pair (λ a b, collide a b = false) (f x)
    ∧ ∀ m y a b, (m, y) ∈ entries → m ≠ n → a ∈ f x → b ∈ f y → collide a b = false.
Proof.
  intros Hsym. induction entries as [|[n x] entries IH]; cbn [map fst]; intros Hnd.
  { split; [by intros _ n x ?%elem_of_nil|intros _; apply each_pair_nil]. }
  apply NoDup_cons in Hnd as [Hn Hnd]. rewrite items_cons, each_pair_app, each_pair_map, (IH Hnd).
  assert (Hapart : ∀ m y, (m, y) ∈ entries → m ≠ n).
  { intros m y Hm ->. apply Hn. apply list_elem_of_fmap. by exists (n, y). }
  unfold compatible at 1 2. cbn. setoid_rewrite elem_of_cons. split.
  - intros (Hown & Hrest & Hcross).
    assert (Hc : ∀ m y a b, (m, y) ∈ entries → a ∈ f x → b ∈ f y → n ∈ carried ∨ m ∈ carried → collide a b = false).
    { intros m y a b Hm Ha Hb. apply (Hcross (n, a) (m, b)); [by apply list_elem_of_fmap_2|]. apply elem_of_items. by exists y. }
    intros n' x' [[= -> ->]|Hx'] Hcar.
    + split; [eapply each_pair_impl; [|exact Hown]; cbn; auto|].
      intros m y a b [[= -> ->]|Hy] Hne Ha Hb; [done|]. eapply Hc; eauto.
    + destruct (Hrest n' x' Hx' Hcar) as [H1 H2]. split; [done|].
      intros m y a b [[= -> ->]|Hy] Hne Ha Hb; [|by eapply H2]. rewrite Hsym. eapply Hc; eauto.
  - intros H. split; [|split].
    + destruct (decide (n ∈ carried)) as [Hcar|Hcar].
      * eapply each_pair_impl; [|exact (proj1 (H n x ltac:(by left) Hcar))]. cbn. auto.
      * intros i j a b _ _ _ [?|?]; done.
    + intros n' x' Hx' Hcar. destruct (H n' x' ltac:(by right) Hcar) as [H1 H2]. split; [done|].
      intros m y a b Hy. apply H2. by right.
    + intros [n1 a] [m b] H1 H2. apply list_elem_of_fmap in H1 as (a' & [= -> ->] & Ha).
      apply elem_of_items in H2 as (y & Hy & Hb). cbn. intros [Hcar|Hcar].
      * eapply (proj2 (H n x ltac:(by left) Hcar) m y); [by right|by eapply Hapart|done..].
      * rewrite Hsym. eapply (proj2 (H m y ltac:(by right) Hcar) n x); [by left| |done..].
        intros E. by apply (Hapart m y Hy).
Qed.

Lemma omap_items {T} (f : IfaceSettings → option T) entries :
  omap (λ '(n, x), a ← f x; Some (n, a)) entries = items_of (λ x, option_list (f x)) entries.
Proof.
  induction entries as [|[n x] entries IH]; [done|]. rewrite items_cons, <- IH. cbn. by destruct (f x).
Qed.

Definition vlan_key (cfg : IfaceSettings) : option (string * Z) := (λ v, (vl_parent v, vl_id v)) <$> if_vlan cfg.
Definition listen_port (cfg : IfaceSettings) : option Z := if_wireguard cfg ≫= wg_listen_port.
(** The metrics of an entry's default routes. *)
Definition default_metrics (cfg : IfaceSettings) : list Z :=
  omap (λ r, if is_default_destination (rt_destination r) then rt_metric r else None) (if_routes cfg).

Lemma subnets_items entries : subnets entries = items_of (λ x, option_list (static_cidr x)) entries.
Proof. apply omap_items. Qed.
Lemma vlans_items entries : vlans entries = items_of (λ x, option_list (vlan_key x)) entries.
Proof.
  rewrite <- omap_items. unfold vlans, vlan_key. induction entries as [|[n x] entries IH]; [done|]. cbn. by destruct (if_vlan x); rewrite IH.
Qed.
Lemma ports_items entries : listen_ports entries = items_of (λ x, option_list (listen_port x)) entries.
Proof.
  rewrite <- omap_items. unfold listen_ports, listen_port. induction entries as [|[n x] entries IH]; [done|]. cbn.
  by destruct (if_wireguard x) as [w|]; cbn; [destruct (wg_listen_port w)|]; rewrite IH.
Qed.
Lemma metrics_items entries : metrics entries = items_of default_metrics entries.
Proof.
  induction entries as [|[n x] entries IH]; [done|]. rewrite items_cons, <- IH.
  change (metrics ((n, x) :: entries)) with (omap (route_metric n) (if_routes x) ++ metrics entries).
  f_equal. unfold default_metrics. induction (if_routes x) as [|r rs IHr]; [done|]. cbn. unfold route_metric at 1.
  destruct (is_default_destination (rt_destination r)); [|done]. destruct (rt_metric r); cbn; [f_equal; exact IHr|exact IHr].
Qed.

Lemma smap_get_elem {A} k (a : A) (m : smap A) : NoDup (map fst m) → smap_get k m = Some a ↔ (k, a) ∈ m.
Proof.
  induction m as [|[k' b] m IH]; cbn [map fst smap_get]; [by split; [|intros ?%elem_of_nil]|].
  rewrite NoDup_cons, elem_of_cons. intros [Hn Hm]. case_bool_decide as E.
  - subst. split; [intros [= ->]; by left|]. intros [[= ->]|H]; [done|]. destruct Hn. apply list_elem_of_fmap. by exists (k, a).
  - rewrite IH by done. split; [by right|]. by intros [[= -> ->]|H].
Qed.

Lemma overlap_sym a b : overlap a b = overlap b a.
Proof. unfold overlap. rewrite Z.min_comm. apply Z.eqb_sym. Qed.

(** ** Topology *)

Definition port_ok (network : network_map) (port : string) : Prop :=
  ∃ p, smap_get port network = Some p ∧ if_kind p ≠ Can ∧ if_dhcp p = false ∧ if_static p = None.

Lemma port_violations_nil network iface port claimed :
  (port_violations network iface port claimed).1 = [] ↔ port_ok network port ∧ smap_get port claimed = None.
Proof.
  unfold port_violations, port_ok. destruct (smap_get port network) as [p|]; cbn.
  - case_bool_decide as Ec; cbn; [split; [done|]; intros [(q & [= ->] & Hk & _) _]; done|].
    destruct (if_dhcp p) eqn:Ed; cbn; [split; [done|]; intros [(q & [= ->] & _ & Hd & _) _]; congruence|].
    destruct (if_static p) as [st|] eqn:Es; cbn; [split; [done|]; intros [(q & [= ->] & _ & _ & Hs) _]; congruence|].
    destruct (smap_get port claimed); cbn; split; try done; [by intros [_ ?]|]. intros _. split; [|done]. by exists p.
  - split; [done|]. by intros [(q & ? & _) _].
Qed.

Lemma port_claims network iface port claimed q :
  port_ok network port →
  is_Some (smap_get q (port_violations network iface port claimed).2) ↔ q = port ∨ is_Some (smap_get q claimed).
Proof.
  intros (p & Hp & Hk & _). unfold port_violations. rewrite Hp, bool_decide_eq_false_2 by done. cbn.
  rewrite smap_get_insert. case_bool_decide; [subst; split; [by left|by eexists]|].
  split; [by right|]. intros [->|?]; done.
Qed.

Lemma ports_violations_nil network iface ports claimed :
  ((ports_violations network iface ports claimed).1 = [] ↔
     Forall (port_ok network) ports ∧ NoDup ports ∧ Forall (λ p, smap_get p claimed = None) ports)
  ∧ (Forall (port_ok network) ports → ∀ q,
       is_Some (smap_get q (ports_violations network iface ports claimed).2) ↔ q ∈ ports ∨ is_Some (smap_get q claimed)).
Proof.
  revert claimed. induction ports as [|port ports IH]; intros claimed; cbn [ports_violations].
  { split; [cbn; split; [split; [constructor|split; constructor]|done]|]. intros _ q. cbn. rewrite elem_of_nil. tauto. }
  pose proof (port_violations_nil network iface port claimed) as H1.
  pose proof (λ q, port_claims network iface port claimed q) as H2.
  destruct (port_violations network iface port claimed) as [found c1]. cbn in H1, H2.
  specialize (IH c1) as [I1 I2]. destruct (ports_violations network iface ports c1) as [more c2]. cbn in I1, I2 |- *.
  rewrite !Forall_cons, NoDup_cons. split.
  - transitivity (found = [] ∧ more = []); [split; [intros H; by apply app_eq_nil in H|by intros [-> ->]]|].
    rewrite H1, I1, !Forall_forall. split.
    + intros [[Hok Hc] (Hall & Hnd & Hnone)].
      assert (Hp : ∀ q, q ∈ ports → q ≠ port ∧ smap_get q claimed = None).
      { intros q Hq. specialize (Hnone q Hq). apply eq_None_not_Some in Hnone. rewrite H2 in Hnone by done.
        split; [tauto|]. apply eq_None_not_Some. tauto. }
      split; [done|]. split; [split; [|done]|split; [done|]]; [intros Hq; by destruct (Hp port Hq)|].
      intros q Hq. by apply Hp.
    + intros ([Hok Hall] & [Hn Hnd] & [Hc Hnone]). split; [done|]. split; [done|]. split; [done|].
      intros q Hq. apply eq_None_not_Some. rewrite H2 by done. intros [->|[? H]]; [done|]. by rewrite Hnone in H.
  - intros [Hok Hall] q. rewrite I2, H2, elem_of_cons by done. tauto.
Qed.

Definition all_ports (entries : network_map) : list string := entries ≫= (λ '(_, cfg), bridge_ports cfg).
Definition vlan_ok (network : network_map) (cfg : IfaceSettings) : Prop :=
  ∀ v, if_vlan cfg = Some v → ∃ p, smap_get (vl_parent v) network = Some p ∧ if_kind p ≠ Can.

Lemma vlan_violations_nil network iface cfg : vlan_violations network iface cfg = [] ↔ vlan_ok network cfg.
Proof.
  unfold vlan_violations, vlan_ok. destruct (if_vlan cfg) as [v|]; [|done].
  destruct (smap_get (vl_parent v) network) as [p|] eqn:E.
  - case_bool_decide as Hk.
    + split; [done|]. intros H. destruct (H v eq_refl) as (q & Hq & ?). by rewrite E in Hq; simplify_eq.
    + split; [|done]. intros _ v' [= <-]. by exists p.
  - split; [done|]. intros H. destruct (H v eq_refl) as (q & Hq & ?). congruence.
Qed.

Lemma topology_from_nil network entries claimed :
  topology_from network entries claimed = [] ↔
    Forall (λ e, vlan_ok network e.2) entries ∧ Forall (port_ok network) (all_ports entries)
    ∧ NoDup (all_ports entries) ∧ Forall (λ p, smap_get p claimed = None) (all_ports entries).
Proof.
  revert claimed. induction entries as [|[iface cfg] entries IH]; intros claimed; cbn [topology_from].
  { cbn. split; [|done]. intros _. split; [constructor|]. split; [constructor|]. split; constructor. }
  destruct (ports_violations_nil network iface (bridge_ports cfg) claimed) as [P1 P2].
  destruct (ports_violations network iface (bridge_ports cfg) claimed) as [found c1]. cbn in P1, P2.
  change (all_ports ((iface, cfg) :: entries)) with (bridge_ports cfg ++ all_ports entries).
  transitivity (vlan_ok network cfg ∧ found = [] ∧ topology_from network entries c1 = []).
  { rewrite <- vlan_violations_nil. split.
    - intros H. apply app_eq_nil in H as [? H]. by apply app_eq_nil in H as [? ?].
    - by intros (-> & -> & ->). }
  rewrite P1, IH, Forall_cons, !Forall_app, NoDup_app, !Forall_forall. cbn. split.
  - intros (Hv & (Hok & Hnd & Hnone) & Hvs & Hoks & Hnds & Hnones).
    assert (Hp : ∀ q, q ∈ all_ports entries → q ∉ bridge_ports cfg ∧ smap_get q claimed = None).
    { intros q Hq. specialize (Hnones q Hq). apply eq_None_not_Some in Hnones. rewrite P2 in Hnones by by apply Forall_forall.
      split; [tauto|]. apply eq_None_not_Some. tauto. }
    split; [done|]. split; [done|]. split; [split; [done|split; [|done]]|split; [done|]].
    + intros q Hq Hq'. by destruct (Hp q Hq').
    + intros q Hq. by apply Hp.
  - intros ((Hv & Hvs) & (Hok & Hoks) & (Hnd & Hdis & Hnds) & Hnone & Hnones). split; [done|]. split; [done|].
    split; [done|]. split; [done|]. split; [done|]. intros q Hq. apply eq_None_not_Some.
    rewrite P2 by by apply Forall_forall. intros [Hq'|[? H]]; [by apply (Hdis q)|]. by rewrite Hnones in H.
Qed.

(** What two different entries may not share. *)
Definition no_conflict (x y : IfaceSettings) : Prop :=
  (∀ c d, static_cidr x = Some c → static_cidr y = Some d → ¬ ∃ a, in_subnet c a ∧ in_subnet d a)
  ∧ (∀ m, m ∈ default_metrics x → m ∉ default_metrics y)
  ∧ (∀ k, vlan_key x = Some k → vlan_key y ≠ Some k)
  ∧ (∀ p, listen_port x = Some p → listen_port y ≠ Some p).

(** The rules between entries report nothing exactly when every entry the
    request carries fits the whole map. *)
Lemma write_violations_nil entries carried :
  keys_sorted entries →
  write_violations entries carried = [] ↔
    ∀ n x, smap_get n entries = Some x → n ∈ carried →
      NoDup (default_metrics x) ∧ ∀ m y, smap_get m entries = Some y → m ≠ n → no_conflict x y.
Proof.
  intros Hs. pose proof (keys_NoDup _ Hs) as Hnd. unfold write_violations.
  transitivity (each_pair (compatible overlap carried) (subnets entries)
    ∧ each_pair (compatible Z.eqb carried) (metrics entries)
    ∧ each_pair (compatible (λ a b, bool_decide (a = b)) carried) (vlans entries)
    ∧ each_pair (compatible Z.eqb carried) (listen_ports entries)).
  { rewrite <- !violations_nil. split; [|by intros (-> & -> & -> & ->)].
    intros H. apply app_eq_nil in H as [? H]. apply app_eq_nil in H as [? H]. by apply app_eq_nil in H as [? ?]. }
  rewrite subnets_items, metrics_items, vlans_items, ports_items.
  rewrite !items_compatible; [|apply Z.eqb_sym|done| |done|apply Z.eqb_sym|done|apply overlap_sym|done].
  2: { intros a b. by apply bool_decide_ext. }
  setoid_rewrite (smap_get_elem _ _ entries Hnd). setoid_rewrite elem_of_option_list.
  assert (Hne : ∀ l : list Z, each_pair (λ a b, (a =? b) = false) l ↔ NoDup l).
  { intros l. rewrite <- each_pair_NoDup. split; apply each_pair_impl; intros a b; apply Z.eqb_neq. }
  unfold no_conflict. split.
  - intros (H1 & H2 & H3 & H4) n x Hx Hc. split; [apply Hne; by apply (H2 n x)|]. intros m y Hy Hm. split; [|split; [|split]].
    + intros c d Hcx Hdy Ha. apply (overlap_exact c d) in Ha; [|by eapply static_cidr_ok..].
      destruct (H1 n x Hx Hc) as [_ H]. by rewrite (H m y c d Hy Hm Hcx Hdy) in Ha.
    + intros k Hk Hk'. destruct (H2 n x Hx Hc) as [_ H]. specialize (H m y k k Hy Hm Hk Hk'). by rewrite Z.eqb_refl in H.
    + intros k Hk Hk'. destruct (H3 n x Hx Hc) as [_ H]. specialize (H m y k k Hy Hm Hk Hk'). by rewrite bool_decide_eq_true_2 in H.
    + intros k Hk Hk'. destruct (H4 n x Hx Hc) as [_ H]. specialize (H m y k k Hy Hm Hk Hk'). by rewrite Z.eqb_refl in H.
  - intros H. split; [|split; [|split]]; intros n x Hx Hc; destruct (H n x Hx Hc) as [Hm Hy];
      (split; [try apply each_pair_short; by apply Hne|]); intros m y a b Hiny Hmn Ha Hb;
      destruct (Hy m y Hiny Hmn) as (K1 & K2 & K3 & K4).
    + apply not_true_is_false. intros Ho. apply overlap_exact in Ho; [|by eapply static_cidr_ok..]. by apply (K1 a b).
    + apply Z.eqb_neq. intros ->. by apply (K2 b).
    + apply bool_decide_eq_false. intros ->. by apply (K3 b).
    + apply Z.eqb_neq. intros ->. by apply (K4 b).
Qed.

(** The topology rules report nothing exactly when the map can be put
    together: every VLAN's parent is a declared entry and no CAN interface;
    every bridge port is a declared entry, no CAN interface, and carries no
    addressing of its own; and over all bridges no port is named twice. *)
Lemma topology_nil network :
  topology_violations network = [] ↔
    Forall (λ e, vlan_ok network e.2) network
    ∧ (∀ port, port ∈ all_ports network → port_ok network port) ∧ NoDup (all_ports network).
Proof.
  unfold topology_violations. rewrite topology_from_nil, !Forall_forall. split; [tauto|].
  intros (H1 & H2 & H3). split; [done|]. split; [done|]. by split.
Qed.

(** ** An entry *)

Definition route_ok (x : IfaceSettings) (route : RouteConfig) : Prop :=
  is_ip_or_cidr (rt_destination route) = true ∧ (∀ g, rt_gateway route = Some g → is_Some (parse_ip g))
  ∧ ¬ (is_default_destination (rt_destination route) = true ∧ is_Some (gateway_of x)).
Definition dns_ok (x : IfaceSettings) : Prop :=
  if_dns x = [] ∨ if_dhcp x = true ∧ if_static x = None ∧ ∀ d, d ∈ if_dns x → is_Some (parse_ip d).
Definition entry_ok (name : string) (x : IfaceSettings) : Prop :=
  check_iface_name name = Ok tt
  ∧ (∀ st, if_dhcp x = false → if_static x = Some st → st_address st = "" ∨ valid_cidr (st_address st) = true)
  ∧ (∀ c g, static_cidr x = Some c → gateway_of x ≫= parse_ipv4 = Some g → in_subnet c g)
  ∧ (∀ route, route ∈ if_routes x → route_ok x route) ∧ dns_ok x
  ∧ (internet x = false → if_kind x ≠ Wireguard ∧ if_kind x ≠ Can ∧ gateway_of x = None
       ∧ ∀ route, route ∈ if_routes x → rt_destination route ≠ "0.0.0.0/0").

Lemma route_problem_none x route : route_problem (bool_decide (is_Some (gateway_of x))) route = None ↔ route_ok x route.
Proof.
  unfold route_problem, route_ok. destruct (is_ip_or_cidr (rt_destination route)); cbn [negb]; [|by split; [|intros [? _]]].
  destruct (match rt_gateway route with Some g => bool_decide (parse_ip g = None) | None => false end) eqn:Eg.
  { split; [done|]. intros (_ & H & _). destruct (rt_gateway route) as [g|]; [|done]. apply bool_decide_eq_true in Eg. destruct (H g eq_refl). congruence. }
  destruct (is_default_destination (rt_destination route) && bool_decide (is_Some (gateway_of x))) eqn:Ed.
  - split; [done|]. intros (_ & _ & H). destruct H. apply andb_true_iff in Ed as [? Ed]. by apply bool_decide_eq_true in Ed.
  - split; [|done]. intros _. split; [done|]. split.
    + intros g E. rewrite E in Eg. apply bool_decide_eq_false in Eg. by apply not_eq_None_Some in Eg.
    + intros [H1 H2]. by rewrite H1, bool_decide_eq_true_2 in Ed.
Qed.
Lemma routing_problem_none x : routing_problem x = None ↔ (∀ route, route ∈ if_routes x → route_ok x route) ∧ dns_ok x.
Proof.
  unfold routing_problem. assert (Hr : omap (route_problem (bool_decide (is_Some (gateway_of x)))) (if_routes x) = [] ↔ ∀ route, route ∈ if_routes x → route_ok x route).
  { setoid_rewrite <- route_problem_none. generalize (bool_decide (is_Some (gateway_of x))). intros g.
    induction (if_routes x) as [|y l IH]; [split; [intros _ r Hr; by apply elem_of_nil in Hr|done]|]. cbn.
    destruct (route_problem g y) eqn:E.
    - split; [done|]. intros H. rewrite (H y) in E by by left. done.
    - rewrite IH. split.
      + intros H r [->|Hin]%elem_of_cons; [done|by apply H].
      + intros H r Hin. apply H. by right. }
  destruct (omap _ (if_routes x)) as [|problem rest]; cbn [head].
  - assert (Hd : ∀ l, existsb (λ dns, bool_decide (parse_ip dns = None)) l = false ↔ ∀ d, d ∈ l → is_Some (parse_ip d)).
    { intros l. rewrite <- not_true_iff_false, existsb_exists. split.
      - intros H d Hin. destruct (parse_ip d) eqn:E; [by eexists|]. destruct H. exists d. split; [by apply list_elem_of_In|by apply bool_decide_eq_true].
      - intros H (d & Hin & E%bool_decide_eq_true). destruct (H d) as [? ?]; [by apply list_elem_of_In|congruence]. }
    unfold dns_ok. destruct (if_dns x) as [|d0 l] eqn:El; cbn [is_nil]; [split; [|done]; intros _; split; [by apply Hr|by left]|].
    destruct (if_dhcp x); cbn [negb orb]; [|split; [done|]; by intros [_ [?|[? _]]]].
    destruct (if_static x); cbn [is_Some bool_decide]; [rewrite bool_decide_eq_true_2 by (by eexists); split; [done|]; by intros [_ [?|(_ & ? & _)]]|].
    rewrite bool_decide_eq_false_2 by by intros [? ?]. destruct (existsb _ (d0 :: l)) eqn:E.
    + split; [done|]. intros [_ [?|(_ & _ & H)]]; [done|]. apply Hd in H. congruence.
    + split; [|done]. intros _. split; [by apply Hr|]. right. split; [done|]. split; [done|]. by apply Hd.
  - split; [done|]. intros [H _]. by apply Hr in H.
Qed.
Lemma gateway_inside x : gateway_outside x = false ↔ ∀ c g, static_cidr x = Some c → gateway_of x ≫= parse_ipv4 = Some g → in_subnet c g.
Proof.
  unfold gateway_outside, in_subnet. destruct (static_cidr x) as [[own prefix]|]; [|split; [by intros _ ? ? [=]|done]].
  destruct (gateway_of x ≫= parse_ipv4) as [g|] eqn:Eg; [|split; [by intros _ ? ? _ [=]|done]]. rewrite negb_false_iff, Z.eqb_eq. split.
  - intros H c g' [= <-] [= <-]. split; [|exact H]. apply bind_Some in Eg as (t & _ & Et). by apply parse_ipv4_bound in Et.
  - intros H. by destruct (H (own, prefix) g eq_refl eq_refl).
Qed.
(** A rule that reports nothing when it holds. *)
Lemma one_nil {A} (b : bool) (v : A) : (if b then [] else [v]) = [] ↔ b = true.
Proof. by destruct b. Qed.
Lemma one_nil_not {A} (b : bool) (v : A) : (if b then [v] else []) = [] ↔ b = false.
Proof. by destruct b. Qed.
Lemma is_ok_unit (m : result unit) : is_ok m = true ↔ m = Ok tt.
Proof. by destruct m as [[]|]. Qed.
Lemma entry_violations_nil name x : entry_violations name x = [] ↔ entry_ok name x.
Proof.
  unfold entry_violations, entry_ok. rewrite !app_nil, one_nil, one_nil, one_nil_not, !is_ok_unit, gateway_inside.
  assert (Ha : validate_static_address (if_dhcp x) (match if_static x with Some st => st_address st | None => "" end) = Ok tt
    ↔ ∀ st, if_dhcp x = false → if_static x = Some st → st_address st = "" ∨ valid_cidr (st_address st) = true).
  { unfold validate_static_address. destruct (if_dhcp x); cbn [negb andb]; [by split; [intros _ ? [=]|]|]. destruct (if_static x) as [st|]; [|by split; [intros _ ? _ [=]|]].
    destruct (st_address st) as [|a t] eqn:E; cbn [is_empty negb andb]; [split; [intros _ ? _ [= <-]; by left|done]|].
    destruct (valid_cidr (String a t)) eqn:Ev; cbn; split; try done; [intros _ ? _ [= <-]; right; by rewrite E|]. intros H. destruct (H st eq_refl eq_refl); congruence. }
  assert (Hp : (match routing_problem x with Some (field, message) => [violation name field "validation_failed" [] message] | None => [] end) = []
    ↔ routing_problem x = None) by by destruct (routing_problem x) as [[]|].
  rewrite Ha, Hp, routing_problem_none. destruct (internet x); [intuition done|]. rewrite !app_nil, one_nil_not, one_nil_not.
  assert (Hk : (match if_kind x with Wireguard | Can => [violation name "internet" "validation_failed" [] "internet is for physical, bridge and VLAN entries"] | _ => [] end) = []
    ↔ if_kind x ≠ Wireguard ∧ if_kind x ≠ Can) by by destruct (if_kind x); split; try done; intros [].
  assert (Hg : bool_decide (is_Some (gateway_of x)) = false ↔ gateway_of x = None) by by rewrite bool_decide_eq_false, eq_None_not_Some.
  assert (Hd : existsb (λ route, bool_decide (rt_destination route = "0.0.0.0/0")) (if_routes x) = false ↔ ∀ route, route ∈ if_routes x → rt_destination route ≠ "0.0.0.0/0").
  { rewrite <- not_true_iff_false, existsb_exists. split.
    - intros H r Hin E. destruct H. exists r. split; [by apply list_elem_of_In|by apply bool_decide_eq_true].
    - intros H (r & Hin & E%bool_decide_eq_true). by apply (H r); [apply list_elem_of_In|]. }
  rewrite Hk, Hg, Hd. intuition done.
Qed.

(** ** The map *)

Lemma flat_nil {B} (f : string → IfaceSettings → list B) (entries : network_map) : NoDup (map fst entries) →
  (entries ≫= λ '(n, x), f n x) = [] ↔ ∀ n x, smap_get n entries = Some x → f n x = [].
Proof.
  intros Hnd. setoid_rewrite (smap_get_elem _ _ entries Hnd). clear Hnd. induction entries as [|[n x] l IH]; cbn; [by split; [intros _ ? ? H%elem_of_nil|]|].
  rewrite app_nil, IH. split.
  - intros [H1 H2] n' x' [[= -> ->]|H]%elem_of_cons; [done|by apply H2].
  - intros H. split; [apply H; by left|]. intros n' x' Hin. apply H. by right.
Qed.
Lemma relational_nil `{B64 : Base64} (entries : network_map) : NoDup (map fst entries) →
  relational_violations entries = [] ↔
    (∀ n x, smap_get n entries = Some x → (∀ w, if_wireguard x = Some w → validate_peers (wg_peers w) = Ok tt) ∧ validate_can x = Ok tt)
    ∧ topology_violations entries = [].
Proof.
  intros Hnd. unfold relational_violations. rewrite app_nil, (flat_nil _ _ Hnd). setoid_rewrite app_nil. setoid_rewrite one_nil. setoid_rewrite is_ok_unit.
  assert (Hp : ∀ n x, (match if_wireguard x with
    | Some wireguard => if is_ok (validate_peers (wg_peers wireguard)) then [] else [violation n "wireguard.peers" "validation_failed" [] "peers"]
    | None => [] end) = [] ↔ ∀ w, if_wireguard x = Some w → validate_peers (wg_peers w) = Ok tt).
  { intros n x. destruct (if_wireguard x) as [w|]; [|done]. rewrite one_nil, is_ok_unit. split; [by intros H ? [= <-]|intros H; by apply H]. }
  by setoid_rewrite Hp.
Qed.
Lemma entries_nil (entries : network_map) (carried : list string) : NoDup (map fst entries) →
  (entries ≫= λ '(n, x), if bool_decide (n ∈ carried) then entry_violations n x else []) = [] ↔
    ∀ n x, smap_get n entries = Some x → n ∈ carried → entry_ok n x.
Proof.
  intros Hnd. rewrite (flat_nil _ _ Hnd). setoid_rewrite <- entry_violations_nil. split; intros H n x Hx.
  - intros Hc. specialize (H n x Hx). by rewrite bool_decide_eq_true_2 in H.
  - case_bool_decide; [by apply H|done].
Qed.

(** * Properties *)


Definition plain_static (address : string) : IfaceSettings :=
  {| if_kind := Physical; if_dhcp := false; if_static := Some {| st_address := address; st_gateway := None; st_dns := [] |};
     if_dns := []; if_vlan := None; if_bridge := None; if_wireguard := None; if_can := None; if_routes := []; if_internet := None |}.
Definition vlan_on (parent : string) (id : Z) : IfaceSettings :=
  {| if_kind := Vlan; if_dhcp := true; if_static := None; if_dns := []; if_vlan := Some {| vl_parent := parent; vl_id := id |};
     if_bridge := None; if_wireguard := None; if_can := None; if_routes := []; if_internet := None |}.
Definition two_nets : network_map := [("eth0", plain_static "10.0.0.1/16"); ("eth1", plain_static "10.0.3.1/24")].

#[local] Instance any_key : Base64 := {| base64_decode := λ t, Some (str_bytes t) |}.

(** A VLAN may name itself as its parent. *)
Example vlan_on_itself : topology_violations [("v0", vlan_on "v0" 7)] = [].
Proof. by vm_compute. Qed.

End NetworkRules.
