(* ===== verification/SettingsTree.v ===== *)
(** Reading and writing the settings tree ([Settings::get] and [Settings::set]
    of [src/crates/micad-settings/src/model.rs]) and its documents
    ([src/crates/micad-settings/src/documents.rs]): a write goes through the
    JSON tree and back, and must satisfy the rules of what it changes. *)
From Stdlib Require Import Ascii.
From S2P Require Import Prelude Text Order Maps Chars Features Addresses SettingsModel SettingsRules DotPath NetworkRules.
Import Features Addresses SettingsModel SettingsRules DotPath NetworkRules.

Module SettingsTree.

(** The derived serialization of the tree ([serde] and [serde_json]). *)
Class Serde := { to_value : Settings → result value; from_value : value → result Settings }.

(** An error of a rule, as the write's own. *)
Definition checked {A} (path : string) (m : result A) : sresult A :=
  match m with
  | Ok a => inr a
  | Err (Msg text) => inl (Validation path text)
  | Err e => inl (Io e)
  end.

Section tree.
Context `{SD : Serde}.

Definition to_json (s : Settings) : sresult value :=
  match to_value s with Ok v => inr v | Err _ => inl (Parse "serialize") end.

(** [Settings::get]. *)
Definition get_setting (s : Settings) (path : string) : sresult value :=
  let/ root := to_json s in
  match json_path_get root path with Some v => inr v | None => inl (NotFound path) end.

(** The tree a write asks for. *)
Definition candidate_of (s : Settings) (path : string) (v : value) : sresult Settings :=
  let/ root := to_json s in
  let/ root := (if is_root path then inr v
                else let/ segments := split_path path in json_path_set root segments v) in
  checked path (from_value root).
End tree.

(** A project's directory goes with the project. *)
Definition with_container (c : Settings) (container : ContainerSettings) : Settings :=
  {| s_hostname := s_hostname c; s_network := s_network c; s_dns := s_dns c; s_access := s_access c;
     s_provisioning := s_provisioning c; s_wifi := s_wifi c; s_container := container; s_mqtt := s_mqtt c;
     s_bluetooth := s_bluetooth c; s_time := s_time c; s_services := s_services c; s_reset := s_reset c |}.
Definition removed_projects (s c : Settings) : list string :=
  filter (λ name, smap_get name (ct_projects (s_container c)) = None) (map fst (ct_projects (s_container s))).
Definition drop_dirs (s c : Settings) : Settings :=
  with_container c
    {| ct_enabled := ct_enabled (s_container c); ct_projects := ct_projects (s_container c);
       ct_project_dirs := foldl (λ dirs name, smap_remove name dirs) (ct_project_dirs (s_container c)) (removed_projects s c) |}.

(** A rule that only a write changing its subtree has to satisfy. *)
Definition when (changed : bool) (rule : result unit) : result unit := if changed then rule else Ok tt.

Definition check_names (s c : Settings) : result unit :=
  each (λ '(iface, settings),
      if bool_decide (smap_get iface (s_network s) = Some settings) then Ok tt else check_iface_name iface)
    (s_network c).
Definition dns_changed (s c : Settings) : bool :=
  negb (bool_decide (s_dns c = s_dns s))
  || (negb (bool_decide (s_hostname c = s_hostname s)) && negb (is_nil (dns_static_records (s_dns c))))
  || (negb (bool_decide (s_network c = s_network s))
      && negb (bool_decide (dns_global (s_dns c) = dns_global (s_dns s)))).
Definition listeners_changed (s c : Settings) : bool :=
  negb (bool_decide (ac_web (s_access c) = ac_web (s_access s)))
  || negb (bool_decide (ssh_enabled (ac_ssh (s_access c)) = ssh_enabled (ac_ssh (s_access s))))
  || negb (ssh_port (ac_ssh (s_access c)) =? ssh_port (ac_ssh (s_access s)))
  || negb (bool_decide (mq_enabled (s_mqtt c) = mq_enabled (s_mqtt s)))
  || negb (ml_port (mq_listen (s_mqtt c)) =? ml_port (mq_listen (s_mqtt s))).
Definition check_write (s c : Settings) : result unit :=
  let projects_changed := negb (bool_decide (ct_projects (s_container c) = ct_projects (s_container s))) in
  let dirs_changed := negb (bool_decide (ct_project_dirs (s_container c) = ct_project_dirs (s_container s))) in
  let? _ := check_names s c in
  let? _ := when (negb (bool_decide (s_bluetooth c = s_bluetooth s))) (validate_bluetooth (s_bluetooth c)) in
  let? _ := when projects_changed (validate_container_projects (ct_projects (s_container c))) in
  let? _ := when (projects_changed || dirs_changed) (validate_container_project_dirs (s_container c)) in
  let? _ := when (negb (bool_decide (s_time c = s_time s))) (validate_time_settings (s_time c)) in
  let? _ := when (dns_changed s c) (validate_dns (s_dns c) (s_hostname c) (s_network c)) in
  let? _ := when (negb (bool_decide (s_services c = s_services s))) (validate_services (s_services c)) in
  when (listeners_changed s c) (validate_listeners (ac_web (s_access c)) (ac_ssh (s_access c)) (s_mqtt c)).

(** [Settings::set]: the new tree, or an error and the old one. *)
Definition set_setting `{SD : Serde} (s : Settings) (path : string) (v : value) : sresult Settings :=
  let/ candidate := candidate_of s path v in
  let candidate := drop_dirs s candidate in
  let/ _ := checked path (check_write s candidate) in
  inr candidate.

(** The same on the tree in place: the answer, and what the tree is then. *)
Definition set_in `{SD : Serde} (s : Settings) (path : string) (v : value) : sresult unit * Settings :=
  match candidate_of s path v with
  | inl e => (inl e, s)
  | inr candidate =>
      let candidate := drop_dirs s candidate in
      match checked path (check_write s candidate) with inl e => (inl e, s) | inr _ => (inr tt, candidate) end
  end.
Definition set_all `{SD : Serde} (s : Settings) (writes : list (string * value)) : Settings :=
  foldl (λ s w, (set_in s w.1 w.2).2) s writes.

(** * Documents *)

Definition STATE_DOCUMENT : string := "settings.toml".
Definition SYSTEM_DOCUMENT : string := "system.json".
Definition NETWORK_DOCUMENT : string := "network.json".
Definition DNS_DOCUMENT : string := "dns.json".
Definition WIFI_DOCUMENT : string := "wifi.json".
Definition SSH_DOCUMENT : string := "ssh.json".
Definition MQTT_DOCUMENT : string := "mqtt.json".
Definition TIME_DOCUMENT : string := "time.json".
Definition CONTAINER_DOCUMENT : string := "container.json".
Definition BLUETOOTH_DOCUMENT : string := "bluetooth.json".
Definition SERVICES_DOCUMENT : string := "services.json".
Definition CONFIG_DOCUMENTS : list string :=
  [SYSTEM_DOCUMENT; NETWORK_DOCUMENT; DNS_DOCUMENT; WIFI_DOCUMENT; SSH_DOCUMENT; MQTT_DOCUMENT; TIME_DOCUMENT;
   CONTAINER_DOCUMENT; BLUETOOTH_DOCUMENT; SERVICES_DOCUMENT].
Definition DOCUMENT_SUBTREES : list (string * list string) :=
  [(SYSTEM_DOCUMENT, ["hostname"; "access.console"; "access.web"; "access.mdns"; "access.ssdp"]);
   (NETWORK_DOCUMENT, ["network"]); (DNS_DOCUMENT, ["dns"]); (WIFI_DOCUMENT, ["wifi"]); (SSH_DOCUMENT, ["access.ssh"]);
   (MQTT_DOCUMENT, ["mqtt"]); (TIME_DOCUMENT, ["time"]); (CONTAINER_DOCUMENT, ["container"]);
   (BLUETOOTH_DOCUMENT, ["bluetooth"]); (SERVICES_DOCUMENT, ["services"])].
Definition document_subtrees (document : string) : list string :=
  default [] (snd <$> head (filter (λ e, e.1 = document) DOCUMENT_SUBTREES)).

Definition CONTAINER_PROJECTS_DIR : string := "container".
Definition CONTAINER_PROJECT_SUFFIX : string := ".yaml".
Definition container_project_document (project : string) : string :=
  CONTAINER_PROJECTS_DIR +:+ "/" +:+ project +:+ CONTAINER_PROJECT_SUFFIX.
Definition container_project_of (document : string) : option string :=
  rest ← strip_prefix CONTAINER_PROJECTS_DIR document;
  rest ← strip_prefix "/" rest;
  name ← strip_suffix CONTAINER_PROJECT_SUFFIX rest;
  if is_project_name name then Some name else None.

Definition SCHEMA_VERSION : Z := 1.
Record SystemDocument := {
  sy_schema_version : Z; sy_hostname : string; sy_console : ConsoleSettings; sy_web : WebSettings;
  sy_mdns : LanDiscoverySettings; sy_ssdp : LanDiscoverySettings;
}.
(** The documents that carry one subtree. *)
Record SubtreeDocument (A : Type) := { sd_schema_version : Z; sd_subtree : A }.
Arguments sd_schema_version {A} _.
Arguments sd_subtree {A} _.
Arguments Build_SubtreeDocument {A} _ _.
Record ContainerPolicy := { cp_enabled : bool; cp_project_dirs : smap string }.
Record StateAccessSettings := {
  sa_web_admin : option WebAdminSettings; sa_claim : option ClaimSettings; sa_device : DeviceCredentialSettings;
  sa_api_tokens : list ApiToken;
}.
Record StateDocument := {
  sx_schema_version : Z; sx_provisioning : ProvisioningSettings; sx_access : StateAccessSettings;
  sx_reset : option ResetSettings;
}.
Record DocumentSet := {
  d_system : SystemDocument; d_network : SubtreeDocument network_map; d_dns : SubtreeDocument DnsSettings;
  d_wifi : SubtreeDocument WifiSettings; d_ssh : SubtreeDocument SshSettings; d_mqtt : SubtreeDocument MqttSettings;
  d_time : SubtreeDocument TimeSettings; d_container : SubtreeDocument ContainerPolicy; d_projects : smap string;
  d_bluetooth : SubtreeDocument BluetoothSettings; d_services : SubtreeDocument ServicesSettings;
  d_state : StateDocument;
}.

Definition documents_of (s : Settings) : DocumentSet :=
  let doc {A} (a : A) := {| sd_schema_version := SCHEMA_VERSION; sd_subtree := a |} in
  {| d_system := {| sy_schema_version := SCHEMA_VERSION; sy_hostname := s_hostname s;
                    sy_console := ac_console (s_access s); sy_web := ac_web (s_access s);
                    sy_mdns := ac_mdns (s_access s); sy_ssdp := ac_ssdp (s_access s) |};
     d_network := doc (s_network s); d_dns := doc (s_dns s); d_wifi := doc (s_wifi s);
     d_ssh := doc (ac_ssh (s_access s)); d_mqtt := doc (s_mqtt s); d_time := doc (s_time s);
     d_container := doc {| cp_enabled := ct_enabled (s_container s); cp_project_dirs := ct_project_dirs (s_container s) |};
     d_projects := ct_projects (s_container s); d_bluetooth := doc (s_bluetooth s); d_services := doc (s_services s);
     d_state := {| sx_schema_version := SCHEMA_VERSION; sx_provisioning := s_provisioning s;
                   sx_access := {| sa_web_admin := ac_web_admin (s_access s); sa_claim := ac_claim (s_access s);
                                   sa_device := ac_device (s_access s); sa_api_tokens := ac_api_tokens (s_access s) |};
                   sx_reset := s_reset s |} |}.
Definition compose (d : DocumentSet) : Settings :=
  let access := sx_access (d_state d) in
  {| s_hostname := sy_hostname (d_system d); s_network := sd_subtree (d_network d); s_dns := sd_subtree (d_dns d);
     s_access := {| ac_web_admin := sa_web_admin access; ac_claim := sa_claim access; ac_ssh := sd_subtree (d_ssh d);
                    ac_console := sy_console (d_system d); ac_web := sy_web (d_system d); ac_mdns := sy_mdns (d_system d);
                    ac_ssdp := sy_ssdp (d_system d); ac_device := sa_device access; ac_api_tokens := sa_api_tokens access |};
     s_provisioning := sx_provisioning (d_state d); s_wifi := sd_subtree (d_wifi d);
     s_container := {| ct_enabled := cp_enabled (sd_subtree (d_container d)); ct_projects := d_projects d;
                       ct_project_dirs := cp_project_dirs (sd_subtree (d_container d)) |};
     s_mqtt := sd_subtree (d_mqtt d); s_bluetooth := sd_subtree (d_bluetooth d); s_time := sd_subtree (d_time d);
     s_services := sd_subtree (d_services d); s_reset := sx_reset (d_state d) |}.
Definition default_documents : DocumentSet := documents_of default_settings.

(** * Lemmas *)

Lemma compose_of s : compose (documents_of s) = s.
Proof. by destruct s as [? ? ? [] ? ? [] ? ? ? ? ?]. Qed.

(** ** Rules of a write *)

Lemma when_ok changed rule : when changed rule = Ok tt → changed = false ∨ rule = Ok tt.
Proof. destruct changed; [by right|by left]. Qed.

(** Dropping the own-address rule keeps the rest of the DNS rules. *)
Lemma servers_ok_no_own own seen servers : servers_ok own seen servers = Ok tt → servers_ok [] seen servers = Ok tt.
Proof.
  revert seen. induction servers as [|server servers IH]; intros seen; cbn [servers_ok]; [done|].
  destruct (parse_ipv4 server) as [addr|]; [|done]. intros H. apply if_ok in H as [E1 H]. rewrite E1. apply if_ok in H as [Hown H]. clear Hown.
  apply if_ok in H as [E2 H]. rewrite E2. rewrite bool_decide_eq_false_2 by apply not_elem_of_nil. cbn. by apply IH.
Qed.

Lemma validate_dns_no_own dns hostname network : validate_dns dns hostname network = Ok tt → validate_dns dns hostname [] = Ok tt.
Proof.
  unfold validate_dns. intros H. apply if_ok in H as [E1 H]. rewrite E1. apply if_ok in H as [E2 H]. rewrite E2.
  destruct (servers_ok (own_addresses network) [] (gd_servers (dns_global dns))) as [[]|] eqn:E; [|done].
  apply servers_ok_no_own in E. change (own_addresses []) with (@nil IpAddr). by rewrite E.
Qed.

(** The tree's type: what every rule that looks at one version of the tree
    demands. The own-address rule of the DNS servers is not among them: a later
    write of the network is not held to it. *)
Record well_formed (s : Settings) : Prop := {
  wf_names : Forall (λ e, check_iface_name e.1 = Ok tt) (s_network s);
  wf_bluetooth : validate_bluetooth (s_bluetooth s) = Ok tt;
  wf_projects : validate_container_projects (ct_projects (s_container s)) = Ok tt;
  wf_dirs : validate_container_project_dirs (s_container s) = Ok tt;
  wf_time : validate_time_settings (s_time s) = Ok tt;
  wf_dns : validate_dns (s_dns s) (s_hostname s) [] = Ok tt;
  wf_services : validate_services (s_services s) = Ok tt;
  wf_listeners : validate_listeners (ac_web (s_access s)) (ac_ssh (s_access s)) (s_mqtt s) = Ok tt;
}.

Lemma validate_listeners_ext web ssh ssh' mqtt mqtt' :
  ssh_enabled ssh = ssh_enabled ssh' → ssh_port ssh = ssh_port ssh' → mq_enabled mqtt = mq_enabled mqtt' →
  ml_port (mq_listen mqtt) = ml_port (mq_listen mqtt') →
  validate_listeners web ssh mqtt = validate_listeners web ssh' mqtt'.
Proof. unfold validate_listeners, claimed_ports. by intros -> -> -> ->. Qed.

Lemma checked_inr {A} path (m : result A) a : checked path m = inr a → m = Ok a.
Proof. destruct m as [b|[|]]; cbn; by intros [= ->]. Qed.

Lemma check_write_well_formed s c : well_formed s → check_write s c = Ok tt → well_formed c.
Proof.
  intros [] H. unfold check_write in H. run. repeat match goal with u : unit |- _ => destruct u end.
  repeat match goal with E : when _ _ = Ok tt |- _ => apply when_ok in E end.
  split.
  - unfold check_names in E. apply each_ok in E. rewrite Forall_forall in E |- *. intros [iface x] Hin.
    specialize (E _ Hin). cbv beta iota in E. cbn [fst]. destruct (bool_decide (smap_get iface (s_network s) = Some x)) eqn:Hold; [|exact E].
    apply bool_decide_eq_true, smap_get_in in Hold.
    rewrite Forall_forall in wf_names0. by apply (wf_names0 _ Hold).
  - destruct E0 as [E0|E0]; [|done]. bools. by rewrite E0.
  - destruct E1 as [E1|E1]; [|done]. bools. by rewrite E1.
  - destruct E2 as [E2|E2]; [|done]. bools. unfold validate_container_project_dirs in *. by rewrite H0, H1.
  - destruct E3 as [E3|E3]; [|done]. bools. by rewrite E3.
  - destruct E4 as [E4|E4]; [|by eapply validate_dns_no_own]. unfold dns_changed in E4. bools. rewrite H0 in *.
    destruct (decide (s_hostname c = s_hostname s)) as [->|Hne]; [done|].
    rewrite (bool_decide_eq_false_2 _ Hne) in *. cbn in *. bools.
    destruct (dns_static_records (s_dns s)) as [|r rs] eqn:Er; [|done]. unfold validate_dns in *. by rewrite Er in *.
  - destruct E5 as [E5|E5]; [|done]. bools. by rewrite E5.
  - destruct H as [H|H]; [|done]. unfold listeners_changed in H. bools.
    match goal with Hw : ac_web _ = ac_web _ |- _ => rewrite Hw end.
    rewrite (validate_listeners_ext _ _ (ac_ssh (s_access s)) _ (s_mqtt s)); done.
Qed.

(** * Properties *)

(** What the tree's consumers rely on. *)
Record sound_tree (s : Settings) : Prop := {
  st_names : ∀ iface x, (iface, x) ∈ s_network s → 0 < str_len iface ≤ MAX_IFACE_LEN;
  st_ports : NoDup (map snd (claimed_ports (ac_web (s_access s)) (ac_ssh (s_access s)) (s_mqtt s)));
  st_projects : len (ct_projects (s_container s)) ≤ MAX_CONTAINER_PROJECTS
    ∧ text_bytes (map snd (ct_projects (s_container s))) ≤ MAX_CONTAINER_PROJECTS_BYTES
    ∧ ∀ name text, (name, text) ∈ ct_projects (s_container s) → container_project_of (container_project_document name) = Some name;
  st_dirs : ∀ name dir, (name, dir) ∈ ct_project_dirs (s_container s) →
    is_Some (smap_get name (ct_projects (s_container s))) ∧ starts_with "/" dir = true;
  st_dns : ∃ addrs, Forall2 (λ s a, parse_ipv4 s = Some a) (gd_servers (dns_global (s_dns s))) addrs ∧ NoDup addrs;
  st_records : NoDup (map record_name (dns_static_records (s_dns s)))
    ∧ ∀ r, r ∈ dns_static_records (s_dns s) → record_name r ≠ to_ascii_lowercase (s_hostname s);
  st_ntp : NoDup (ntp_servers (tm_ntp (s_time s))) ∧ len (ntp_servers (tm_ntp (s_time s))) ≤ MAX_NTP_SERVERS;
}.

Lemma project_document_name name : is_project_name name = true → container_project_of (container_project_document name) = Some name.
Proof.
  intros H. unfold container_project_of, container_project_document.
  rewrite strip_prefix_app. cbn [mbind option_bind]. rewrite strip_prefix_app. cbn [mbind option_bind].
  rewrite strip_suffix_app. cbn [mbind option_bind]. by rewrite H.
Qed.

Lemma well_formed_sound s : well_formed s → sound_tree s.
Proof.
  intros []. split.
  - intros iface x Hin. rewrite Forall_forall in wf_names0. specialize (wf_names0 _ Hin). cbn [fst] in wf_names0.
    unfold check_iface_name in wf_names0. apply if_ok in wf_names0 as [E1 H]. apply if_ok in H as [E2 _]. bools.
    split; [|done]. destruct iface; [done|]. rewrite str_len_cons. pose proof (str_len_nonneg iface). lia.
  - unfold validate_listeners in wf_listeners0. apply if_ok in wf_listeners0 as [_ H]. by apply ports_apart_ok in H as [H _].
  - unfold validate_container_projects in wf_projects0. apply if_ok in wf_projects0 as [E H]. run. bools.
    match goal with Hb : project_bytes _ _ = Ok _ |- _ => apply project_bytes_ok in Hb as [-> Hall] end.
    rewrite Z.add_0_l in *. split; [done|]. split; [done|]. intros name text Hin.
    rewrite Forall_forall in Hall. destruct (Hall _ Hin) as [Hn _]. by apply project_document_name.
  - intros name dir Hin. unfold validate_container_project_dirs in wf_dirs0. apply each_ok in wf_dirs0.
    rewrite Forall_forall in wf_dirs0. specialize (wf_dirs0 _ Hin). cbv beta iota in wf_dirs0.
    apply if_ok in wf_dirs0 as [E1 H]. apply if_ok in H as [E2 _]. bools. by split.
  - unfold validate_dns in wf_dns0. apply if_ok in wf_dns0 as [_ H]. apply if_ok in H as [_ H]. run.
    match goal with Hb : servers_ok _ _ _ = Ok ?u |- _ => destruct u; apply servers_ok_ok in Hb as (addrs & ? & ? & _) end.
    by exists addrs.
  - unfold validate_dns in wf_dns0. apply if_ok in wf_dns0 as [_ H]. apply if_ok in H as [_ H]. run.
    apply records_ok_ok in H as (Hnd & _ & Hall). split; [done|]. intros r Hr. rewrite Forall_forall in Hall. by apply Hall.
  - unfold validate_time_settings in wf_time0.
    destruct (validate_ntp_servers (ntp_servers (tm_ntp (s_time s)))) as [[]|] eqn:E; [|done]. unfold validate_ntp_servers in E. apply if_ok in E as [E H]. bools.
    apply ntp_ok_ok in H as [H _]. by split.
Qed.

Section written.
Context `{SD : Serde}.

Lemma set_well_formed s path v s' : well_formed s → set_setting s path v = inr s' → well_formed s'.
Proof.
  intros Hs H. unfold set_setting in H. destruct (candidate_of s path v) as [|c]; [done|]. cbn [then_do] in H.
  destruct (checked path (check_write s (drop_dirs s c))) as [|[]] eqn:E; [done|]. cbn [then_do] in H. injection H as <-.
  apply checked_inr in E. by eapply check_write_well_formed.
Qed.

Lemma default_well_formed : well_formed default_settings.
Proof. split; [constructor|by vm_compute..]. Qed.

(** A write in place is the pure one, or leaves the tree. *)
Lemma set_in_cases s path v :
  (∃ s', set_setting s path v = inr s' ∧ set_in s path v = (inr tt, s')) ∨ ∃ e, set_setting s path v = inl e ∧ set_in s path v = (inl e, s).
Proof.
  unfold set_setting, set_in. destruct (candidate_of s path v) as [e|c]; cbn [then_do]; [right; by exists e|].
  destruct (checked path (check_write s (drop_dirs s c))) as [e|[]]; cbn [then_do]; [right; by exists e|left; by eexists].
Qed.
Lemma set_all_well_formed s writes : well_formed s → well_formed (set_all s writes).
Proof.
  unfold set_all. revert s. induction writes as [|[path v] writes IH]; intros s Hs; [done|]. apply IH. cbn [fst snd].
  destruct (set_in_cases s path v) as [(s' & H & ->)|(e & _ & ->)]; [by eapply set_well_formed|done].
Qed.

(** C29: from any well-formed tree, whatever is written, in any order, accepted
    or refused, and however the serializer reads it, the tree stays well-formed:
    every interface name fits the kernel's bound, the listeners in use have
    different ports, the declared projects keep their bounds and have documents
    that name them, a project directory belongs to a declared project and is
    absolute, the DNS and NTP servers are listed once, and no static record takes
    another's name or the device's own. A write that is refused leaves the tree,
    and one that is accepted passed every rule of what it changed. *)
Theorem settings_stay_sound s writes : well_formed s →
  let now := set_all s writes in
  well_formed now ∧ sound_tree now
  ∧ ∀ path v, match (set_in now path v).1 with
              | inl _ => set_all s (writes ++ [(path, v)]) = now
              | inr _ => check_write now (set_all s (writes ++ [(path, v)])) = Ok tt
              end.
Proof.
  intros Hs now. pose proof (set_all_well_formed s writes Hs) as Hnow. split; [done|]. split; [by apply well_formed_sound|]. intros path v.
  assert (E : set_all s (writes ++ [(path, v)]) = (set_in now path v).2) by (unfold set_all; by rewrite foldl_app). rewrite E. clear E.
  unfold set_in. destruct (candidate_of now path v) as [e|c]; [done|]. destruct (checked path (check_write now (drop_dirs now c))) as [e|[]] eqn:E; [done|].
  by apply checked_inr in E.
Qed.
End written.

(** A serializer of the hostname alone, the rest at its default. *)
Definition renamed (hostname : string) : Settings :=
  {| s_hostname := hostname; s_network := s_network default_settings; s_dns := s_dns default_settings;
     s_access := s_access default_settings; s_provisioning := s_provisioning default_settings;
     s_wifi := s_wifi default_settings; s_container := s_container default_settings; s_mqtt := s_mqtt default_settings;
     s_bluetooth := s_bluetooth default_settings; s_time := s_time default_settings;
     s_services := s_services default_settings; s_reset := None |}.
Definition hostname_serde : Serde :=
  {| to_value := λ s, Ok (Object [("hostname", Str (s_hostname s))]);
     from_value := λ v,
       match v with
       | Object m => match smap_get "hostname" m with Some (Str h) => Ok (renamed h) | _ => Err (Msg "missing field") end
       | _ => Err (Msg "invalid type")
       end |}.

Lemma settings_stay_sound_witness :
  let writes := [("hostname", Str "box"); ("host..name", Str "x"); ("hostname", Array [])] in
  well_formed default_settings
  ∧ set_all (SD := hostname_serde) default_settings writes = renamed "box" ∧ sound_tree (renamed "box").
Proof.
  intros writes. assert (E : set_all (SD := hostname_serde) default_settings writes = renamed "box") by by vm_compute.
  split; [apply default_well_formed|]. split; [exact E|]. rewrite <- E.
  exact (proj1 (proj2 (settings_stay_sound (SD := hostname_serde) default_settings writes default_well_formed))).
Defined.

(** A write of the network that makes a DNS server one of the device's own
    addresses is accepted: the third condition that would re-check the DNS
    rules holds only when the servers change too, which the first one covers. *)
Definition with_server : Settings :=
  {| s_hostname := "mica"; s_network := [];
     s_dns := {| dns_global := {| gd_enabled := true; gd_servers := ["10.0.0.1"] |}; dns_static_records := [] |};
     s_access := default_access; s_provisioning := s_provisioning default_settings; s_wifi := s_wifi default_settings;
     s_container := s_container default_settings; s_mqtt := default_mqtt; s_bluetooth := default_bluetooth;
     s_time := s_time default_settings; s_services := s_services default_settings; s_reset := None |}.
Definition with_own_server : Settings :=
  {| s_hostname := "mica"; s_network := [("eth0", plain_static "10.0.0.1/24")]; s_dns := s_dns with_server;
     s_access := default_access; s_provisioning := s_provisioning default_settings; s_wifi := s_wifi default_settings;
     s_container := s_container default_settings; s_mqtt := default_mqtt; s_bluetooth := default_bluetooth;
     s_time := s_time default_settings; s_services := s_services default_settings; s_reset := None |}.
Example own_server_accepted :
  check_write default_settings with_server = Ok tt ∧ check_write with_server with_own_server = Ok tt
  ∧ is_ok (validate_dns (s_dns with_own_server) (s_hostname with_own_server) (s_network with_own_server)) = false.
Proof. by vm_compute. Qed.

End SettingsTree.
