(* ===== verification/Transaction.v ===== *)
(** The undo journal of the settings writer
    ([src/crates/micad-settings/src/transaction.rs]) over the atomic replace of
    [src/crates/mica-fs/src/lib.rs]: documents on two filesystems replaced
    together, with every I/O call able to fail before or after its effect, and
    with directory entries that a power cut may lose until their directory is
    synced. *)
From Stdlib Require Import Ascii.
From S2P Require Import Prelude Text Files Order Maps Chars Features Addresses SettingsModel SettingsRules DotPath NetworkRules SettingsTree.
Import Files(node(..), tree, with_extension, parent_dir).
Import SettingsRules(is_project_name).
Import SettingsTree.

Module Transaction.

(** * The disk *)

(** One I/O call: it works, it fails, or it fails once its effect is there. *)
Inductive Fault := Fine | Early | Late.

(** What programs see, what each directory durably holds, the files whose
    content is not flushed, and what the coming I/O calls do. *)
Record Disk := { seen : tree; kept : tree; loose : gset string; faults : list Fault }.
Definition at_rest (t : tree) (faults : list Fault) : Disk :=
  {| seen := t; kept := t; loose := ∅; faults := faults |}.

(** What a power cut can leave: each name as it is seen or as its directory
    last durably held it, and an unflushed file with any content or none. *)
Definition cut (d : Disk) (t : tree) : Prop :=
  ∀ p, t !! p = seen d !! p ∨ t !! p = kept d !! p
       ∨ p ∈ loose d ∧ (t !! p = None ∨ ∃ c, t !! p = Some (Regular c)).

Definition with_faults (fs : list Fault) (d : Disk) : Disk :=
  {| seen := seen d; kept := kept d; loose := loose d; faults := fs |}.
Definition with_seen (t : tree) (d : Disk) : Disk :=
  {| seen := t; kept := kept d; loose := loose d; faults := faults d |}.

(** An I/O call with the effect [f], [None] where the call itself refuses. A
    power cut falls before or after the effect. *)
Definition io {A} (f : Disk → option (A * Disk)) : M Disk A := λ d,
  let '(fault, d0) := match faults d with [] => (Fine, d) | x :: rest => (x, with_faults rest d) end in
  match fault, f d0 with
  | Early, _ | _, None => Outcome (Err (Msg "I/O error")) d0 (λ w, w = d0)
  | Late, Some (_, d') => Outcome (Err (Msg "I/O error")) d' (λ w, w = d0 ∨ w = d')
  | Fine, Some (a, d') => Outcome (Ok a) d' (λ w, w = d0 ∨ w = d')
  end.

(** * Calls *)

(** [fs::remove_file]: whether there was a file. *)
Definition unlink (path : string) : M Disk bool := io (λ d,
  match seen d !! path with
  | Some Directory => None
  | Some _ => Some (true, with_seen (delete path (seen d)) d)
  | None => Some (false, d)
  end).
Definition create_new (temp : string) : M Disk unit := io (λ d,
  match seen d !! temp with
  | Some _ => None
  | None => Some (tt, {| seen := <[temp := Regular []]> (seen d); kept := kept d; loose := {[temp]} ∪ loose d; faults := faults d |})
  end).
Definition set_mode (temp : string) : M Disk unit := io (λ d, Some (tt, d)).
Definition write_all (temp : string) (b : bytes) : M Disk unit := io (λ d,
  Some (tt, with_seen (<[temp := Regular b]> (seen d)) d)).
Definition sync_file (temp : string) : M Disk unit := io (λ d,
  Some (tt, {| seen := seen d; kept := kept d; loose := loose d ∖ {[temp]}; faults := faults d |})).
Definition rename (temp path : string) : M Disk unit := io (λ d,
  match seen d !! temp, seen d !! path with
  | None, _ | _, Some Directory => None
  | Some n, _ =>
      Some (tt, {| seen := <[path := n]> (delete temp (seen d)); kept := kept d;
                   loose := if bool_decide (temp ∈ loose d) then {[path]} ∪ loose d else loose d ∖ {[path]};
                   faults := faults d |})
  end).
(** The entries of a directory become durable. *)
Definition synced (dir : string) (now before : tree) : tree :=
  filter (λ e, parent_dir e.1 = dir) now ∪ filter (λ e, parent_dir e.1 ≠ dir) before.
Definition sync_dir (dir : string) : M Disk unit := io (λ d,
  Some (tt, {| seen := seen d; kept := synced dir (seen d) (kept d); loose := loose d; faults := faults d |})).
Definition create_dir_all (dir : string) : M Disk unit := io (λ d, Some (tt, d)).

(** [Replace::new(path, "tmp").mode(..).write(text)]. *)
Definition temp_of (path : string) : string :=
  match rsplit_once "/" path with
  | Some (dir, name) => dir +:+ "/." +:+ name +:+ ".tmp"
  | None => "." +:+ path +:+ ".tmp"
  end.
Definition write_atomically (path text : string) : M Disk unit :=
  let temp := temp_of path in
  let! _ := unlink temp in
  let! _ := create_new temp in
  let! _ := set_mode temp in
  let! _ := write_all temp (str_bytes text) in
  let! _ := sync_file temp in
  let! _ := rename temp path in
  sync_dir (parent_dir path).

Definition read_optional (path : string) : M Disk (option string) := io (λ d,
  match seen d !! path with
  | None => Some (None, d)
  | Some (Regular c) => if valid_utf8 c then Some (Some (bytes_str c), d) else None
  | Some _ => None
  end).
Definition remove_synced (path : string) : M Disk unit :=
  let! removed := unlink path in
  if removed : bool then sync_dir (parent_dir path) else sret tt.
(** [Path::exists]: an error is an absence. *)
Definition exists_ (path : string) : M Disk bool := λ d,
  let o := io (λ d, Some (bool_decide (is_Some (seen d !! path)), d)) d in
  Outcome (Ok (match o_result o with Ok b => b | Err _ => false end)) (o_state o) (o_crash o).

(** Run, and hand the result on as a value. *)
Definition attempt {W A} (m : M W A) : M W (result A) := λ w,
  let o := m w in Outcome (Ok (o_result o)) (o_state o) (o_crash o).

(** * The journal *)

Record Undo := { u_document : string; u_previous : option string }.
(** [serde_json] of the journal. *)
Class JournalCodec := { encode : list Undo → string; decode : string → option (list Undo) }.
(** A Rust [String] is valid UTF-8. *)
Definition rust_text (text : option string) : bool := from_option (λ t, valid_utf8 (str_bytes t)) true text.
Definition rust_undo (u : Undo) : bool := rust_text (Some (u_document u)) && rust_text (u_previous u).
Class JournalLaws {JC : JournalCodec} := {
  decode_encode u : forallb rust_undo u = true → decode (encode u) = Some u;
  encode_text u : forallb rust_undo u = true → rust_text (Some (encode u)) = true;
}.

Definition MAX_UNDO : Z := 4096.
Definition known_document (document : string) : bool :=
  bool_decide (document = STATE_DOCUMENT) || bool_decide (document ∈ CONFIG_DOCUMENTS)
  || bool_decide (is_Some (container_project_of document)).

Section journal.
Context `{JC : JournalCodec} (state config : string).

Definition target (document : string) : string :=
  if bool_decide (document = STATE_DOCUMENT) then state else config +:+ "/" +:+ document.
Definition journal : string := with_extension state "transaction.json".

Fixpoint each_known (before : list string) (undo : list Undo) : bool :=
  match undo with
  | [] => true
  | entry :: rest =>
      known_document (u_document entry) && negb (bool_decide (u_document entry ∈ before))
      && each_known (before ++ [u_document entry]) rest
  end.
Definition valid_undo (undo : list Undo) : bool := (len undo <=? MAX_UNDO) && each_known [] undo.

Definition restore_entry (entry : Undo) : M Disk unit :=
  let path := target (u_document entry) in
  match u_previous entry with
  | Some previous =>
      let! now := read_optional path in
      if bool_decide (now = Some previous) then sret tt else write_atomically path previous
  | None => remove_synced path
  end.
Fixpoint restore (undo : list Undo) : M Disk unit :=
  match undo with
  | [] => sret tt
  | entry :: rest => let! _ := restore_entry entry in restore rest
  end.
Definition recover : M Disk unit :=
  let! text := read_optional journal in
  match text with
  | None => sret tt
  | Some text =>
      match decode text with
      | None => slift (λ _, Err (Msg "invalid settings transaction journal"))
      | Some undo =>
          ensure! valid_undo undo else "invalid settings transaction documents" in
          let! _ := restore (rev undo) in
          remove_synced journal
      end
  end.

(** The documents that change: where, the new text, and the undo entry. *)
Fixpoint changes (documents : list (string * option string)) : M Disk (list (string * option string) * list Undo) :=
  match documents with
  | [] => sret ([], [])
  | (document, text) :: rest =>
      let! previous := read_optional (target document) in
      let! (changed, undo) := changes rest in
      sret (if bool_decide (previous = text) then (changed, undo)
            else ((target document, text) :: changed, {| u_document := document; u_previous := previous |} :: undo))
  end.
Fixpoint commit (write : string → string → M Disk unit) (changed : list (string * option string)) : M Disk unit :=
  match changed with
  | [] => sret tt
  | (path, text) :: rest =>
      let! _ := match text with Some text => write path text | None => remove_synced path end in
      commit write rest
  end.
(** The second half of [save_with]: what changes, under the journal. *)
Definition replace_documents (write : string → string → M Disk unit)
    (changed : list (string * option string)) (undo : list Undo) : M Disk unit :=
  let record := encode undo in
  let! _ := write_atomically journal record in
  let! result := attempt (let! _ := commit write changed in remove_synced journal) in
  match result with
  | Ok _ => sret tt
  | Err e =>
      let! there := exists_ journal in
      let! _ := (if there : bool then sret tt else write_atomically journal record) in
      let! rollback := attempt recover in
      match rollback with
      | Ok _ => slift (λ _, Err e)
      | Err _ => slift (λ _, Err (Msg "settings commit failed; rollback is pending"))
      end
  end.
Definition save_with (write : string → string → M Disk unit) (documents : list (string * option string)) : M Disk unit :=
  let! _ := recover in
  let! _ := create_dir_all (parent_dir state) in
  let! (changed, undo) := changes documents in
  if is_nil changed then sret tt else replace_documents write changed undo.
Definition save (documents : list (string * option string)) : M Disk unit := save_with write_atomically documents.

End journal.

(** * Lemmas *)

(** ** Calls and slots *)

Lemma with_own_faults d : with_faults (faults d) d = d.
Proof. by destruct d. Qed.

Lemma io_safe {A} (f : Disk → option (A * Disk)) d (Q : A → Disk → Prop) (C : Disk → Prop) :
  (∀ fs, C (with_faults fs d)) →
  (∀ fs a d', f (with_faults fs d) = Some (a, d') → Q a d' ∧ C d') →
  safe (io f d) Q C.
Proof.
  intros HC Hf. unfold io.
  assert (Hd : ∃ fault fs, match faults d with [] => (Fine, d) | x :: rest => (x, with_faults rest d) end = (fault, with_faults fs d)).
  { destruct (faults d) as [|x rest] eqn:E; [exists Fine, (faults d); by rewrite with_own_faults|by exists x, rest]. }
  destruct Hd as (fault & fs & ->).
  destruct fault, (f (with_faults fs d)) as [[a d']|] eqn:E; (split; [|split]); cbn; try done;
    try (by intros ? [= <-]; apply (Hf _ _ _ E)); try (by apply (Hf _ _ _ E)); try (by intros w ->);
    by intros w [->| ->]; [|apply (Hf _ _ _ E)].
Qed.

Lemma lookup_synced dir (now before : tree) p :
  synced dir now before !! p = if bool_decide (parent_dir p = dir) then now !! p else before !! p.
Proof.
  unfold synced. rewrite lookup_union, !map_lookup_filter. case_bool_decide as E.
  - destruct (now !! p) as [n|] eqn:En; cbn [mbind option_bind].
    + rewrite option_guard_True by done. by destruct (_ ≫= _).
    + destruct (before !! p); cbn [mbind option_bind]; [|done]. by rewrite option_guard_False by (cbn; tauto).
  - destruct (now !! p) as [n|]; cbn [mbind option_bind]; [rewrite option_guard_False by done|];
      (destruct (before !! p); cbn [mbind option_bind]; [by rewrite option_guard_True by done|done]).
Qed.

Section layout.
Context (state config : string).
Notation target := (target state config).
Notation journal := (journal state).

Definition tracked (p : string) : Prop := p = journal ∨ ∃ d, known_document d = true ∧ p = target d.
Definition is_temp (p : string) : Prop := ∃ q, tracked q ∧ p = temp_of q.

(** Documents and the journal have names of their own, none of them a temporary one. *)
Record layout : Prop := {
  l_target d d' : known_document d = true → known_document d' = true → target d = target d' → d = d';
  l_journal d : known_document d = true → target d ≠ journal;
  l_temp p : tracked p → ¬ is_temp p;
}.

(** A name that is no temporary one. *)
Definition steady (p : string) : Prop := ¬ is_temp p.

(** What a slot, a steady name, holds as seen and as kept. *)
Definition slot := string → option node → option node → Prop.
Record slots (R : slot) (w : Disk) : Prop := {
  sl_at p : steady p → R p (seen w !! p) (kept w !! p);
  sl_temp p : is_temp p → seen w !! p ≠ Some Directory ∧ kept w !! p ≠ Some Directory;
  sl_loose p : p ∈ loose w → is_temp p;
}.
(** Syncing another file's directory may make a slot durable. *)
Definition closed (R : slot) : Prop := ∀ p s k, steady p → R p s k → R p s s.
Definition upd (path : string) (n : option node) (R : slot) : slot := λ p s k,
  if bool_decide (p = path) then s = n ∧ k = n else R p s k.
(** While the slot changes: the new node seen, and kept or not. *)
Definition mid (path : string) (n : option node) (R : slot) : slot := λ p s k,
  R p s k ∨ p = path ∧ s = n ∧ (k = n ∨ ∃ s0, R p s0 k).
Definition sub (R S : slot) : Prop := ∀ p s k, steady p → R p s k → S p s k.
(** The durable side follows where the slot already shows the node. *)
Definition settled (path : string) (n : option node) (R : slot) : Prop := ∀ k, R path n k → k = n.

Lemma slots_sub R S w : sub R S → slots R w → slots S w.
Proof. intros HS []. split; try done. intros p Hp. apply HS; auto. Qed.
Lemma slots_faults R w fs : slots R w → slots R (with_faults fs w).
Proof. intros []. by split. Qed.
Lemma upd_mid path n R : sub (upd path n R) (mid path n R).
Proof. intros p s k _ H. unfold upd, mid in *. case_bool_decide; [right|by left]. destruct H as [-> ->]. by split; [|split; [|left]]. Qed.
Lemma upd_closed path n R : closed R → closed (upd path n R).
Proof. intros HR p s k Hp. unfold upd. case_bool_decide; [by intros [-> ->]|by apply HR]. Qed.

Context (L : layout).

Lemma tracked_steady p : tracked p → steady p.
Proof. apply (l_temp L). Qed.
Lemma sl_tracked R w : slots R w → ∀ p, tracked p → R p (seen w !! p) (kept w !! p).
Proof. intros H p Hp. by apply (sl_at _ _ H), tracked_steady. Qed.
Lemma temp_not_tracked q p : tracked q → steady p → temp_of q ≠ p.
Proof. intros Hq Hp <-. apply Hp. by exists q. Qed.

(** A change of what is seen under a temporary name. *)
Lemma temp_slots R w q x lo :
  slots R w → tracked q → x ≠ Some Directory → (∀ p, p ∈ lo → is_temp p) →
  slots R {| seen := partial_alter (λ _, x) (temp_of q) (seen w); kept := kept w; loose := lo; faults := faults w |}.
Proof.
  intros [] Hq Hx Hlo. split; cbn; [| |done].
  - intros p Hp. rewrite lookup_partial_alter_ne by by apply temp_not_tracked. by apply sl_at0.
  - intros p Hp. destruct (sl_temp0 p Hp) as [H1 H2]. split; [|done]. destruct (decide (p = temp_of q)) as [->|].
    + by rewrite lookup_partial_alter_eq.
    + by rewrite lookup_partial_alter_ne.
Qed.

Lemma sync_slots R w dir : closed R → slots R w →
  slots R {| seen := seen w; kept := synced dir (seen w) (kept w); loose := loose w; faults := faults w |}.
Proof.
  intros HR []. split; cbn; [| |done]; intros p Hp; rewrite lookup_synced; case_bool_decide; auto.
  - eapply HR; auto.
  - by destruct (sl_temp0 p Hp).
Qed.

(** The node is seen at the path, and its directory not synced. *)
Definition shown (path : string) (n : option node) (R : slot) : slot := λ p s k,
  if bool_decide (p = path) then s = n ∧ ∃ s0, R p s0 k else R p s k.
Lemma shown_mid path n R : sub (shown path n R) (mid path n R).
Proof.
  intros p s k _ H. unfold shown, mid in *. case_bool_decide; [right|by left]. destruct H as [-> ?].
  by split; [|split; [|right]].
Qed.

Lemma sync_node w path n R :
  closed R → tracked path → slots (shown path n R) w →
  safe (sync_dir (parent_dir path) w) (λ _, slots (upd path n R)) (λ d, slots (shown path n R) d ∨ slots (upd path n R) d).
Proof.
  intros HR Hp Hw. apply io_safe; [intros fs; left; by apply slots_faults|]. intros fs a d' [= _ <-].
  match goal with |- slots _ ?d ∧ _ => assert (slots (upd path n R) d); [|by split; [|right]] end.
  destruct Hw. split; cbn; [| |done]; intros p Hpt; rewrite lookup_synced.
  - specialize (sl_at0 p Hpt). unfold shown, upd in *. case_bool_decide as Epp.
    + subst. rewrite bool_decide_eq_true_2 by done. by destruct sl_at0 as [-> _].
    + case_bool_decide; [|done]. by eapply HR.
  - destruct (sl_temp0 p Hpt). by case_bool_decide.
Qed.

Lemma write_safe R w path text :
  slots R w → closed R → tracked path →
  let n := Some (Regular (str_bytes text)) in
  safe (write_atomically path text w) (λ _, slots (upd path n R)) (slots (mid path n R)).
Proof.
  intros Hw HR Hp n. unfold write_atomically. set (temp := temp_of path).
  assert (Hmid : sub R (mid path n R)) by (intros p s k _ H; by left).
  assert (Hne : temp ≠ path) by (apply temp_not_tracked; [done|by apply tracked_steady]).
  assert (Hlo : ∀ w', slots R w' → ∀ p, p ∈ loose w' → is_temp p) by (intros w' []; done).
  assert (Htemp : is_temp temp) by by exists path.
  (* Every step before the rename leaves the slots as they are. *)
  assert (Hstep : ∀ {A B} (f : Disk → option (A * Disk)) (k : A → M Disk B) (w' : Disk) (Pre Post : Disk → Prop) Q,
    slots R w' → Pre w' → (∀ fs d, Pre d → Pre (with_faults fs d)) →
    (∀ d a d', slots R d → Pre d → f d = Some (a, d') → slots R d' ∧ Post d') →
    (∀ a d', slots R d' → Post d' → safe (k a d') Q (slots (mid path n R))) →
    safe (sbind (io f) k w') Q (slots (mid path n R))).
  { intros A B f k w' Pre Post Q Hw' Hpre Hfs Hf Hk. eapply safe_step with (C' := slots R).
    - apply (io_safe _ _ (λ _ d', slots R d' ∧ Post d')); [intros fs; by apply slots_faults|]. intros fs a d' E.
      apply Hf in E as [? ?]; [done|by apply slots_faults|by apply Hfs].
    - intros d. by apply slots_sub.
    - intros a d' [H1 H2]. by apply Hk. }
  eapply (Hstep _ _ _ _ w (λ _, True) (λ _, True)); [done|done|done|..].
  { intros d a d' Hd _ E. split; [|done]. destruct (seen d !! temp) as [[c| |]|] eqn:Et; simplify_eq; try done;
      (apply (temp_slots R d path None); [done|done|done|by apply Hlo]). }
  intros _ w1 Hw1 _. eapply (Hstep _ _ _ _ w1 (λ _, True) (λ _, True)); [done|done|done|..].
  { intros d a d' Hd _ E. destruct (seen d !! temp); simplify_eq. split; [|done].
    apply (temp_slots R d path (Some (Regular []))); [done|done|done|]. intros p Hin. apply elem_of_union in Hin as [Hin|Hin].
    - by apply elem_of_singleton in Hin as ->.
    - by apply (Hlo d). }
  intros _ w2 Hw2 _. eapply (Hstep _ _ _ _ w2 (λ _, True) (λ _, True)); [done|done|done|by intros; simplify_eq|].
  intros _ w3 Hw3 _. eapply (Hstep _ _ _ _ w3 (λ _, True) (λ d, seen d !! temp = n)); [done|done|done|..].
  { intros d a d' Hd _ E. simplify_eq. split; [|apply lookup_insert_eq].
    apply (temp_slots R d path n); [done|done|done|by apply Hlo]. }
  intros _ w4 Hw4 Hn4. eapply (Hstep _ _ _ _ w4 (λ d, seen d !! temp = n) (λ d, seen d !! temp = n ∧ temp ∉ loose d)); [done|done|done|..].
  { intros d a d' Hd Hn E. simplify_eq. split; [|cbn; split; [done|set_solver]]. destruct Hd. split; [done|done|].
    intros p Hin. apply sl_loose0. cbn in Hin. set_solver. }
  intros _ w5 Hw5 [Hn5 Hl5].
  (* The rename shows the new file; the sync keeps it. *)
  set (S := shown path n R). pose proof (shown_mid path n R : sub S (mid path n R)) as HSmid.
  eapply safe_step with (R := λ _ d, slots S d) (C' := λ d, slots R d ∨ slots S d).
  - apply io_safe; [intros fs; left; by apply slots_faults|]. intros fs a d' E. cbn in E. rewrite Hn5 in E. unfold n in E. cbn in E.
    assert (Hd' : slots S d'); [|by split; [|right]].
    assert (E' : d' = {| seen := <[path := Regular (str_bytes text)]> (delete temp (seen w5)); kept := kept w5;
      loose := loose w5 ∖ {[path]}; faults := fs |}).
    { rewrite bool_decide_eq_false_2 in E by done. destruct (seen w5 !! path) as [[| |]|]; by simplify_eq. }
    subst d'. destruct Hw5. split; cbn [seen kept loose].
    + intros p Hpt. unfold S, shown. destruct (decide (p = path)) as [->|Epp].
      * rewrite bool_decide_eq_true_2 by done. rewrite lookup_insert_eq. split; [done|]. eexists. by apply sl_at0.
      * rewrite bool_decide_eq_false_2 by done. rewrite lookup_insert_ne by done.
        rewrite lookup_delete_ne by by apply temp_not_tracked. by apply sl_at0.
    + intros p Hpt. destruct (sl_temp0 p Hpt) as [H1 H2]. split; [|done].
      rewrite lookup_insert_ne by (intros <-; by apply (l_temp L path)).
      destruct (decide (p = temp)) as [->|]; [by rewrite lookup_delete_eq|by rewrite lookup_delete_ne].
    + intros p Hin. apply sl_loose0. by apply elem_of_difference in Hin as [? _].
  - intros d [H|H]; by (eapply slots_sub; [|exact H]).
  - intros _ w6 Hw6. eapply safe_mono; [apply (sync_node w6 path n R HR Hp Hw6)|done|].
    intros d [H|H]; [by (eapply slots_sub; [|exact H])|eapply slots_sub; [apply upd_mid|done]].
Qed.

(** A slot that already shows the node. *)
Lemma settled_slots R w path n :
  slots R w → tracked path → settled path n R → seen w !! path = n → slots (upd path n R) w.
Proof.
  intros [H Ht Hl] Hp Hset Hn. split; [|done..]. intros p Hpt. unfold upd. case_bool_decide as E; [subst p|by apply H].
  split; [done|]. apply Hset. rewrite <-Hn. by apply H.
Qed.

Lemma remove_safe R w path :
  slots R w → closed R → tracked path → settled path None R →
  safe (remove_synced path w) (λ _, slots (upd path None R)) (slots (mid path None R)).
Proof.
  intros Hw HR Hp Hset. unfold remove_synced.
  assert (Hmid : sub R (mid path None R)) by (intros p s k _ H; by left).
  pose proof (shown_mid path None R) as HSmid.
  eapply safe_step with (C' := λ d, slots R d ∨ slots (shown path None R) d)
    (R := λ (removed : bool) d, if removed then slots (shown path None R) d else slots R d ∧ seen d !! path = None).
  - apply io_safe; [intros fs; left; by apply slots_faults|]. intros fs a d' E. cbn [seen with_faults] in E.
    destruct (seen w !! path) as [x|] eqn:Ex.
    + assert (E' : a = true ∧ d' = with_seen (delete path (seen w)) (with_faults fs w)) by (destruct x; by simplify_eq).
      destruct E' as [-> ->]. match goal with |- ?A ∧ _ => assert A as Hd; [|by split; [|right]] end.
      destruct Hw. split; cbn [seen kept loose with_seen with_faults]; [| |done].
      * intros p Hpt. unfold shown. destruct (decide (p = path)) as [->|Epp].
        -- rewrite bool_decide_eq_true_2 by done. rewrite lookup_delete_eq. split; [done|]. eexists. by apply sl_at0.
        -- rewrite bool_decide_eq_false_2 by done. rewrite lookup_delete_ne by done. by apply sl_at0.
      * intros p Hpt. destruct (sl_temp0 p Hpt). by rewrite lookup_delete_ne by (intros <-; by apply (l_temp L path)).
    + simplify_eq. pose proof (slots_faults R w fs Hw). split; [done|by left].
  - intros d [H|H]; by (eapply slots_sub; [|exact H]).
  - intros [|] w1 H.
    + eapply safe_mono; [by apply (sync_node w1 path None R HR Hp)|done|].
      intros d [Hd|Hd]; [by (eapply slots_sub; [|exact Hd])|eapply slots_sub; [apply upd_mid|done]].
    + destruct H as [H Hn]. apply safe_ret; [by (eapply slots_sub; [|exact H])|]. by apply settled_slots.
Qed.

(** ** Replacing several nodes *)

(** One step replaces one node. *)
Definition does (m : M Disk unit) (path : string) (n : option node) : Prop :=
  ∀ R w, slots R w → closed R → tracked path → settled path n R →
  safe (m w) (λ _, slots (upd path n R)) (slots (mid path n R)).

Lemma write_does path text : does (write_atomically path text) path (Some (Regular (str_bytes text))).
Proof. intros R w Hw HR Hp _. by apply write_safe. Qed.
Lemma remove_does path : does (remove_synced path) path None.
Proof. intros R w. apply remove_safe. Qed.

Definition node_of (text : option string) : option node := (Regular ∘ str_bytes) <$> text.

Lemma read_safe R w path :
  slots R w → safe (read_optional path w) (λ text d, slots R d ∧ seen d !! path = node_of text ∧ rust_text text = true ∧ kept d = kept w ∧ seen d = seen w) (slots R).
Proof.
  intros Hw. apply io_safe; [intros fs; by apply slots_faults|]. intros fs a d' E. cbn [seen with_faults] in E.
  pose proof (slots_faults R w fs Hw) as Hw'.
  destruct (seen w !! path) as [[c| |]|] eqn:Ex; try done.
  - destruct (valid_utf8 c) eqn:Ev; [|done]. simplify_eq. unfold rust_text. cbn [from_option]. rewrite bytes_str_bytes. split; [|done].
    split; [done|]. split; [|done]. unfold node_of. cbn. by rewrite Ex, bytes_str_bytes.
  - simplify_eq. by split.
Qed.

Fixpoint run_all (l : list (M Disk unit * (string * option node))) : M Disk unit :=
  match l with [] => sret tt | (m, _) :: rest => let! _ := m in run_all rest end.
Definition upds (l : list (string * option node)) (R : slot) : slot := λ p s k,
  (∃ n, (p, n) ∈ l ∧ s = n ∧ k = n) ∨ p ∉ l.*1 ∧ R p s k.
Definition mids (l : list (string * option node)) (R : slot) : slot := λ p s k,
  R p s k ∨ ∃ n, (p, n) ∈ l ∧ s = n ∧ (k = n ∨ ∃ s0, R p s0 k).

Lemma mids_closed l R : closed R → closed (mids l R).
Proof.
  intros HR p s k Hp [H|(n & Hl & -> & _)]; [left; by eapply HR|right]. exists n. by split; [|split; [|left]].
Qed.

Lemma run_all_safe l R w :
  slots R w → closed R → NoDup (l.*2).*1 →
  Forall (λ e, does e.1 e.2.1 e.2.2 ∧ tracked e.2.1 ∧ settled e.2.1 e.2.2 R) l →
  safe (run_all l w) (λ _, slots (upds l.*2 R)) (slots (mids l.*2 R)).
Proof.
  revert R w. induction l as [|[m [path n]] l IH]; intros R w Hw HR Hnd Hl.
  { apply safe_ret; (eapply slots_sub; [|exact Hw]); intros p s k _ H; [by left|]. right. split; [apply not_elem_of_nil|done]. }
  apply Forall_cons in Hl as [(Hdo & Hp & Hset) Hl]. cbn in Hdo, Hp, Hset, Hnd. apply NoDup_cons in Hnd as [Hn Hnd].
  cbn [run_all fmap list_fmap snd]. eapply safe_step; [by apply (Hdo R w)| |].
  - intros d. apply slots_sub. intros p s k _ [H|(-> & -> & H)]; [by left|right]. exists n.
    split; [by apply list_elem_of_here|done].
  - intros [] w1 Hw1. cbn beta in Hw1. eapply safe_mono; [apply (IH (upd path n R) w1 Hw1)|..].
    + by apply upd_closed.
    + done.
    + apply Forall_forall. intros [m' [q n']] Hin. rewrite Forall_forall in Hl. destruct (Hl _ Hin) as (H1 & H2 & H3).
      cbn [fst snd] in *. split; [done|]. split; [done|]. intros k. unfold upd. rewrite bool_decide_eq_false_2; [apply H3|].
      intros ->. apply Hn. apply list_elem_of_fmap. exists (path, n'). split; [done|]. apply list_elem_of_fmap.
      by exists (m', (path, n')).
    + intros [] d. apply slots_sub. intros p s k _ [(n' & Hin & H)|[Hni H]].
      * left. exists n'. split; [by apply list_elem_of_further|done].
      * unfold upd in H. case_bool_decide as E; [subst; left; exists n; split; [by apply list_elem_of_here|done]|].
        right. split; [|done]. apply not_elem_of_cons. by split.
    + intros d. apply slots_sub. intros p s k _ H.
      assert (Hup : ∀ p' s' k', p' ≠ path → upd path n R p' s' k' → R p' s' k').
      { intros p' s' k' Hne. unfold upd. by rewrite bool_decide_eq_false_2. }
      destruct H as [H|(n' & Hin & -> & H)].
      * unfold upd in H. case_bool_decide as E; [|by left]. destruct H as [-> ->]. subst. right. exists n.
        split; [by apply list_elem_of_here|]. by split; [|left].
      * assert (Hpn : p ≠ path). { intros ->. apply Hn. apply list_elem_of_fmap. by exists (path, n'). }
        right. exists n'. split; [by apply list_elem_of_further|]. split; [done|].
        destruct H as [H|[s0 H]]; [by left|right]. exists s0. by apply Hup.
Qed.

(** ** Progress without faults *)

Definition readable (n : option node) : bool :=
  match n with None => true | Some (Regular c) => valid_utf8 c | Some _ => false end.
Definition works {A} (o : outcome Disk A) : Prop := (∃ a, o_result o = Ok a) ∧ faults (o_state o) = [].

Lemma io_works {A} (f : Disk → option (A * Disk)) w a d :
  faults w = [] → f w = Some (a, d) → o_result (io f w) = Ok a ∧ o_state (io f w) = d.
Proof. intros Hf E. unfold io. rewrite Hf. cbn. by rewrite E. Qed.

Lemma works_bind {A B} (m : M Disk A) (k : A → M Disk B) w a d :
  o_result (m w) = Ok a → o_state (m w) = d → works (k a d) → works (sbind m k w).
Proof. intros E Ed H. rewrite (step_ok _ _ _ _ E), Ed. exact H. Qed.
Lemma works_io_bind {A B} (f : Disk → option (A * Disk)) (k : A → M Disk B) w a d :
  faults w = [] → f w = Some (a, d) → works (k a d) → works (sbind (io f) k w).
Proof. intros Hf E H. destruct (io_works f w a d Hf E) as [E1 E2]. rewrite (step_ok _ _ _ _ E1), E2. exact H. Qed.
Lemma works_io {A} (f : Disk → option (A * Disk)) w a d :
  faults w = [] → f w = Some (a, d) → faults d = [] → works (io f w).
Proof. intros Hf E H. destruct (io_works f w a d Hf E) as [E1 E2]. split; [by exists a|by rewrite E2]. Qed.

Lemma works_step {A B} (m : M Disk A) (k : A → M Disk B) w R C :
  safe (m w) R C → works (m w) → (∀ a d, R a d → faults d = [] → works (k a d)) → works (sbind m k w).
Proof. intros [H _] [[a E] Hf] Hk. eapply works_bind; [exact E|done|]. apply Hk; [by apply H|done]. Qed.
Lemma works_ret {A} (a : A) w : faults w = [] → works (sret a w).
Proof. intros H. split; [by exists a|done]. Qed.

Lemma unlink_works w p {B} (k : bool → M Disk B) :
  faults w = [] → seen w !! p ≠ Some Directory →
  (∀ b d, seen d = delete p (seen w) → faults d = [] → works (k b d)) → works (sbind (unlink p) k w).
Proof.
  intros Hf Hp Hk. destruct (seen w !! p) as [[c| |]|] eqn:E; try done.
  1, 2: eapply works_io_bind; [done|by rewrite E|by apply Hk].
  eapply works_io_bind; [done|by rewrite E|]. apply Hk; [by rewrite delete_id|done].
Qed.

Lemma readable_file n : readable n = true → n ≠ Some Directory.
Proof. by intros H ->. Qed.

Lemma write_works R w path text :
  slots R w → tracked path → faults w = [] → readable (seen w !! path) = true → works (write_atomically path text w).
Proof.
  intros [_ H2 _] Hp Hf Hr%readable_file. unfold write_atomically. pose proof (temp_not_tracked path path Hp (tracked_steady _ Hp)) as Hne.
  set (temp := temp_of path) in *. destruct (H2 temp) as [Ht _]; [by exists path|]. clear H2.
  apply unlink_works; [done..|]. intros _ d1 Hs1 Hf1.
  eapply works_io_bind; [done|by rewrite Hs1, lookup_delete_eq|].
  eapply works_io_bind; [done|done|]. eapply works_io_bind; [done|done|]. eapply works_io_bind; [done|done|].
  eapply works_io_bind; [done| |].
  { cbn [seen with_seen]. rewrite lookup_insert_eq. rewrite !lookup_insert_ne by done.
    rewrite lookup_delete_ne by done. destruct (seen w !! path) as [[| |]|]; done. }
  by eapply works_io.
Qed.

Lemma remove_works w path :
  faults w = [] → readable (seen w !! path) = true → works (remove_synced path w).
Proof.
  intros Hf Hr%readable_file. apply unlink_works; [done..|]. intros [] d _ Hd; [by eapply works_io|].
  split; [by exists tt|done].
Qed.

Lemma read_works {B} w path (k : option string → M Disk B) :
  faults w = [] → readable (seen w !! path) = true →
  (∀ text, seen w !! path = node_of text → works (k text w)) → works (sbind (read_optional path) k w).
Proof.
  intros Hf Hr Hk. destruct (seen w !! path) as [[c| |]|] eqn:E; try done.
  - eapply works_io_bind; [done|rewrite E; cbn in Hr; by rewrite Hr|]. apply Hk. unfold node_of. cbn. by rewrite bytes_str_bytes.
  - eapply works_io_bind; [done|by rewrite E|]. by apply Hk.
Qed.

Lemma read_fine w path text : faults w = [] → seen w !! path = node_of text → rust_text text = true →
  o_result (read_optional path w) = Ok text ∧ o_state (read_optional path w) = w.
Proof.
  intros Hf Hs Ht. apply io_works; [done|]. rewrite Hs. destruct text as [text|]; [|done].
  unfold node_of. cbn in Ht |- *. by rewrite Ht, str_bytes_str.
Qed.

(** A step that works wherever its file can be read. *)
Definition goes (m : M Disk unit) (path : string) : Prop :=
  ∀ R w, slots R w → tracked path → faults w = [] → readable (seen w !! path) = true → works (m w).

Lemma run_all_works l R w :
  slots R w → closed R → NoDup (l.*2).*1 →
  Forall (λ e, (does e.1 e.2.1 e.2.2 ∧ tracked e.2.1 ∧ settled e.2.1 e.2.2 R)
               ∧ goes e.1 e.2.1 ∧ ∀ s k, R e.2.1 s k → readable s = true) l →
  faults w = [] → works (run_all l w).
Proof.
  revert R w. induction l as [|[m [path n]] l IH]; intros R w Hw HR Hnd Hl Hf.
  { split; [by exists tt|done]. }
  apply Forall_cons in Hl as [((Hdo & Hp & Hset) & Hgo & Hr) Hl]. cbn in Hdo, Hp, Hset, Hnd, Hgo, Hr.
  apply NoDup_cons in Hnd as [Hn Hnd]. cbn [run_all].
  destruct (Hgo R w Hw Hp Hf) as [[[] E] Hf1]; [eapply Hr; by apply (sl_tracked R w Hw)|].
  rewrite (step_ok _ _ _ _ E). destruct (Hdo R w Hw HR Hp Hset) as [H1 _]. specialize (H1 tt E).
  apply (IH (upd path n R)); [done|by apply upd_closed|done| |done].
  apply Forall_forall. intros [m' [q n']] Hin. rewrite Forall_forall in Hl. destruct (Hl _ Hin) as ((D1 & D2 & D3) & D4 & D5).
  cbn [fst snd] in *. assert (Hq : q ≠ path).
  { intros ->. apply Hn. apply list_elem_of_fmap. exists (path, n'). split; [done|]. apply list_elem_of_fmap. by exists (m', (path, n')). }
  split; [split; [done|]; split; [done|]|split; [done|]].
  - intros k. unfold upd. rewrite bool_decide_eq_false_2 by done. apply D3.
  - intros s k. unfold upd. rewrite bool_decide_eq_false_2 by done. apply D5.
Qed.

(** ** The calls of the journal *)

Lemma write_goes path text : goes (write_atomically path text) path.
Proof. intros R w Hw. by apply (write_works R). Qed.
Lemma remove_goes path : goes (remove_synced path) path.
Proof. intros R w _ _. apply remove_works. Qed.

Lemma node_of_inj a b : node_of a = node_of b → a = b.
Proof.
  unfold node_of. destruct a as [a|], b as [b|]; cbn; intros H; try done. f_equal. apply str_bytes_inj.
  by injection H.
Qed.
Lemma node_of_readable text : rust_text text = true → readable (node_of text) = true.
Proof. by destruct text. Qed.

Lemma restore_does entry : does (restore_entry state config entry) (target (u_document entry)) (node_of (u_previous entry)).
Proof.
  intros R w Hw HR Hp Hset. unfold restore_entry. destruct (u_previous entry) as [previous|]; [|by apply remove_does].
  eapply safe_step; [apply (read_safe R w _ Hw)|intros d; apply slots_sub; intros p s k _ H; by left|].
  intros now d (Hd & Hn & _). case_bool_decide as E; [|by apply write_does].
  subst. pose proof (settled_slots R d _ _ Hd Hp Hset Hn). apply safe_ret; [|done]. eapply slots_sub; [apply upd_mid|done].
Qed.
Lemma restore_goes entry : goes (restore_entry state config entry) (target (u_document entry)).
Proof.
  intros R w Hw Hp Hf Hr. unfold restore_entry. destruct (u_previous entry) as [previous|]; [|by apply (remove_goes _ R)].
  apply read_works; [done..|]. intros text _. case_bool_decide; [by split; [exists tt|]|by apply (write_goes _ _ R)].
Qed.

(** ** No journal, nothing to do *)

Lemma recover_idle `{JC : JournalCodec} t : t !! journal = None →
  o_result (recover state config (at_rest t [])) = Ok tt ∧ o_state (recover state config (at_rest t [])) = at_rest t [].
Proof.
  intros Hj. unfold recover. destruct (read_fine (at_rest t []) journal None eq_refl Hj eq_refl) as [E1 E2].
  rewrite (step_ok _ _ _ _ E1). cbn [o_result o_state]. by rewrite E2.
Qed.

(** ** A save *)

Section saving.
Context `{JC : JournalCodec} {JL : JournalLaws} (old : tree).

(** A document that changes: what it held, and what it is to hold. *)
Notation plan := (list (string * (option string * option string))).
Definition news (pl : plan) : list (string * option node) := (λ e, (target e.1, node_of e.2.2)) <$> pl.
Definition olds (pl : plan) : list (string * option node) := (λ e, (target e.1, node_of e.2.1)) <$> pl.
Definition undo_of (pl : plan) : list Undo := (λ e, {| u_document := e.1; u_previous := e.2.1 |}) <$> pl.

Definition R0 : slot := λ p s k, s = old !! p ∧ k = old !! p.
Lemma R0_closed : closed R0. Proof. by intros p s k _ [-> _]. Qed.

Record planned (documents : list (string * option string)) (pl : plan) : Prop := {
  pl_names : sublist pl.*1 documents.*1;
  pl_each d p x : (d, (p, x)) ∈ pl →
    (d, x) ∈ documents ∧ p ≠ x ∧ old !! target d = node_of p ∧ rust_text p = true;
  pl_rest d x : (d, x) ∈ documents → d ∈ pl.*1 ∨ old !! target d = node_of x;
}.

Lemma changes_safe documents w :
  slots R0 w → Forall (λ d, known_document d = true) documents.*1 →
  safe (changes state config documents w)
    (λ r d, slots R0 d ∧ ∃ pl, planned documents pl
       ∧ r = ((λ e, (target e.1, e.2.2)) <$> pl, undo_of pl)) (slots R0).
Proof.
  revert w. induction documents as [|[document text] rest IH]; intros w Hw Hk.
  { apply safe_ret; [done|]. split; [done|]. exists []. split; [|done]. split; [done|..].
    - by intros d p x ?%elem_of_nil.
    - by intros d x ?%elem_of_nil. }
  cbn [fmap list_fmap fst] in Hk. apply Forall_cons in Hk as [Hd Hk]. cbn [changes].
  eapply safe_step; [by apply read_safe|done|]. intros previous d (Hd1 & Hseen & Hvalid & _).
  eapply safe_step; [by apply IH|done|]. intros r d2 (Hd2 & pl & [P1 P2 P3] & ->).
  apply safe_ret; [done|]. split; [done|].
  assert (Hold : old !! target document = node_of previous).
  { rewrite <-Hseen. destruct (sl_tracked _ _ Hd1 (target document)) as [-> _]; [|done]. right. by exists document. }
  case_bool_decide as E; [exists pl|exists ((document, (previous, text)) :: pl)]; (split; [split|done]); cbn [fmap list_fmap fst].
  - by apply sublist_cons.
  - intros d' p x Hin. destruct (P2 d' p x Hin) as [H1 H2]. split; [by apply list_elem_of_further|done].
  - intros d' x [[= -> ->]|Hin]%elem_of_cons; [right; by rewrite Hold, E|by apply P3].
  - by apply sublist_skip.
  - intros d' p x [[= -> -> ->]|Hin]%elem_of_cons; [by split; [apply list_elem_of_here|]|].
    destruct (P2 d' p x Hin) as [H1 H2]. split; [by apply list_elem_of_further|done].
  - intros d' x [[= -> ->]|Hin]%elem_of_cons; [left; apply list_elem_of_here|].
    destruct (P3 d' x Hin); [left; by apply list_elem_of_further|by right].
Qed.

Context (documents : list (string * option string)) (pl : plan).
Context (Hnd : NoDup documents.*1) (Hknown : Forall (λ d, known_document d = true) documents.*1)
  (Hcount : len documents ≤ MAX_UNDO)
  (Hutf : Forall (λ d, rust_text (Some d.1) = true ∧ rust_text d.2 = true) documents)
  (Hjournal : old !! journal = None) (P : planned documents pl).

Lemma plan_nodup : NoDup pl.*1.
Proof. eapply sublist_NoDup; [done|apply P]. Qed.
Lemma plan_known d p x : (d, (p, x)) ∈ pl → known_document d = true.
Proof.
  intros Hin. rewrite Forall_forall in Hknown. apply Hknown. eapply elem_of_sublist; [|apply P].
  apply list_elem_of_fmap. by exists (d, (p, x)).
Qed.

(** One path is one document of the plan. *)
Lemma news_in p n : (p, n) ∈ news pl → ∃ d a x, (d, (a, x)) ∈ pl ∧ p = target d ∧ n = node_of x ∧ old !! p = node_of a ∧ a ≠ x.
Proof.
  intros ([d [a x]] & [= -> ->] & Hin)%list_elem_of_fmap. exists d, a, x. destruct (pl_each _ _ P d a x Hin) as (_ & H1 & H2 & _).
  done.
Qed.
Lemma plan_target d p x d' p' x' : (d, (p, x)) ∈ pl → (d', (p', x')) ∈ pl → target d = target d' → p = p' ∧ x = x'.
Proof.
  intros H H' E. assert (d = d') as ->. { apply (l_target L); [by eapply plan_known..|done]. }
  pose proof plan_nodup as Hn. apply list_elem_of_lookup in H as [i Hi]. apply list_elem_of_lookup in H' as [j Hj].
  assert (i = j) as ->; [|by simplify_eq]. eapply NoDup_lookup; [done|by rewrite list_lookup_fmap, Hi|by rewrite list_lookup_fmap, Hj].
Qed.
Lemma target_not_journal (l : plan) (f : string * (option string * option string) → option node) (n : option node) :
  (∀ e, e ∈ l → known_document e.1 = true) → (journal, n) ∉ ((λ e, (target e.1, f e)) <$> l : list (string * option node)).
Proof. intros Hl ([d y] & [= E _] & Hin)%list_elem_of_fmap. apply (l_journal L d); [by apply (Hl (d, y))|done]. Qed.
Lemma journal_not_new n : (journal, n) ∉ news pl.
Proof. apply target_not_journal. intros [d [p x]] Hin. by eapply plan_known. Qed.
Lemma targets_nodup (f : string * (option string * option string) → option node) : NoDup ((λ e, (target e.1, f e)) <$> pl : list (string * option node)).*1.
Proof.
  match goal with |- NoDup ?l => assert (l = target <$> pl.*1) as -> end.
  { by rewrite <-!list_fmap_compose. }
  apply NoDup_fmap_2_strong; [|apply plan_nodup]. intros d d' [[a b] [-> H]]%list_elem_of_fmap [[a' b'] [-> H']]%list_elem_of_fmap E.
  destruct b, b'. apply (l_target L); [by eapply plan_known..|done].
Qed.

Definition record : string := encode (undo_of pl).
Definition RA : slot := upd journal (node_of (Some record)) R0.
(** The documents are being replaced, or put back. *)
Definition RM : slot := mids (news pl) RA.

Lemma RA_closed : closed RA. Proof. apply upd_closed, R0_closed. Qed.
Lemma RM_closed : closed RM. Proof. apply mids_closed, RA_closed. Qed.
Lemma RA_journal s k : RA journal s k ↔ s = node_of (Some record) ∧ k = node_of (Some record).
Proof. unfold RA, upd. by rewrite bool_decide_eq_true_2. Qed.
Lemma RM_journal s k : RM journal s k ↔ s = node_of (Some record) ∧ k = node_of (Some record).
Proof.
  split; [intros [H|(n & Hin & _)]; [by apply RA_journal|by apply journal_not_new in Hin]|].
  intros H. left. by apply RA_journal.
Qed.
Lemma RA_target d s k : known_document d = true → RA (target d) s k ↔ s = old !! target d ∧ k = old !! target d.
Proof. intros Hd. unfold RA, upd. rewrite bool_decide_eq_false_2; [done|]. by apply (l_journal L). Qed.

Lemma undo_rust : forallb rust_undo (undo_of pl) = true.
Proof.
  apply forallb_forall. intros u Hu. apply list_elem_of_In in Hu. apply list_elem_of_fmap in Hu as ([d [p x]] & -> & Hin).
  destruct (pl_each _ _ P d p x Hin) as (Hd & _ & _ & Hp). rewrite Forall_forall in Hutf. destruct (Hutf _ Hd) as [H _].
  unfold rust_undo. cbn [u_document u_previous fst snd] in *. by rewrite H, Hp.
Qed.
Lemma each_known_ok before undo :
  (∀ u, u ∈ undo → known_document (u_document u) = true) → NoDup (before ++ (u_document <$> undo)) → each_known before undo = true.
Proof.
  revert before. induction undo as [|u undo IH]; intros before Hk Hn; [done|]. cbn [each_known].
  rewrite (Hk u) by apply list_elem_of_here. cbn [fmap list_fmap] in Hn. rewrite (bool_decide_eq_false_2 (u_document u ∈ before)).
  - cbn [negb andb]. apply IH; [|by rewrite <-app_assoc]. intros v Hv. apply Hk. by apply list_elem_of_further.
  - intros Hin. apply NoDup_app in Hn as (_ & Hn & _). apply (Hn _ Hin), list_elem_of_here.
Qed.
Lemma undo_valid : valid_undo (undo_of pl) = true.
Proof.
  unfold valid_undo. apply andb_true_intro. split.
  - apply Z.leb_le. assert (Hl : (length (undo_of pl) ≤ length documents)%nat); [|unfold len in *; lia].
    unfold undo_of. rewrite length_fmap. pose proof (sublist_length _ _ (pl_names _ _ P)) as Hs. by rewrite !length_fmap in Hs.
  - apply each_known_ok.
    + intros u ([d [p x]] & -> & Hin)%list_elem_of_fmap. by eapply plan_known.
    + cbn [app]. unfold undo_of. rewrite <-list_fmap_compose. apply plan_nodup.
Qed.

(** The steps of a rollback, and of a commit. *)
Definition back : list (M Disk unit * (string * option node)) :=
  (λ e : string * (option string * option string),
     (restore_entry state config {| u_document := e.1; u_previous := e.2.1 |}, (target e.1, node_of e.2.1))) <$> rev pl.
Definition forth : list (M Disk unit * (string * option node)) :=
  (λ e : string * (option string * option string),
     (match e.2.2 with Some text => write_atomically (target e.1) text | None => remove_synced (target e.1) end,
      (target e.1, node_of e.2.2))) <$> pl.

Lemma rev_fmap {A B} (f : A → B) l : rev (f <$> l) = f <$> rev l.
Proof. induction l as [|x l IH]; [done|]. cbn [fmap list_fmap rev]. by rewrite IH, fmap_app. Qed.
Lemma restore_back : restore state config (rev (undo_of pl)) = run_all back.
Proof.
  unfold back, undo_of. rewrite rev_fmap. generalize (rev pl). clear. intros l.
  induction l as [|e l IH]; [done|]. cbn [fmap list_fmap restore run_all]. by rewrite IH.
Qed.
Lemma commit_forth : commit write_atomically ((λ e, (target e.1, e.2.2)) <$> pl) = run_all forth.
Proof. unfold forth. clear. induction pl as [|[d [p x]] l IH]; [done|]. cbn [fmap list_fmap commit run_all fst snd]. by rewrite IH. Qed.
Lemma back_paths : back.*2 = olds (rev pl).
Proof. unfold back, olds. by rewrite <-list_fmap_compose. Qed.
Lemma rev_in {A} (x : A) l : x ∈ rev l ↔ x ∈ l.
Proof. by rewrite !list_elem_of_In, <-in_rev. Qed.
Lemma forth_paths : forth.*2 = news pl.
Proof. unfold forth, news. by rewrite <-list_fmap_compose. Qed.
Lemma back_nodup : NoDup (back.*2).*1.
Proof.
  rewrite back_paths. unfold olds. rewrite <-rev_fmap, <-rev_fmap. apply NoDup_ListNoDup, NoDup_rev, NoDup_ListNoDup.
  apply (targets_nodup (λ e, node_of e.2.1)).
Qed.
Lemma forth_nodup : NoDup (forth.*2).*1.
Proof. rewrite forth_paths. apply (targets_nodup (λ e, node_of e.2.2)). Qed.

Lemma plan_tracked d p x : (d, (p, x)) ∈ pl → tracked (target d).
Proof. intros Hin. right. exists d. split; [by eapply plan_known|done]. Qed.
(** A document of the plan, while it is replaced or put back. *)
Lemma RM_target d p x s k : (d, (p, x)) ∈ pl → RM (target d) s k → (s = node_of p ∨ s = node_of x) ∧ (s = node_of p → k = node_of p).
Proof.
  intros Hin H. assert (Hk : known_document d = true) by by eapply plan_known.
  destruct (pl_each _ _ P d p x Hin) as (_ & Hpx & Hold & _). destruct H as [H|(n & Hn & -> & H)].
  - apply RA_target in H as [-> ->]; [|done]. rewrite Hold. by split; [left|].
  - destruct (news_in _ _ Hn) as (d' & p' & x' & Hin' & Ht & -> & _). destruct (plan_target _ _ _ _ _ _ Hin Hin' Ht) as [<- <-].
    split; [by right|]. intros E%node_of_inj. congruence.
Qed.

Lemma back_steps :
  Forall (λ e, does e.1 e.2.1 e.2.2 ∧ tracked e.2.1 ∧ settled e.2.1 e.2.2 RM) back.
Proof.
  apply Forall_forall. intros e ([d [p x]] & -> & Hin)%list_elem_of_fmap. rewrite rev_in in Hin. cbn [fst snd].
  split; [apply restore_does|]. split; [by eapply plan_tracked|]. intros k H.
  destruct (RM_target _ _ _ _ _ Hin H) as [_ Hk]. by apply Hk.
Qed.
Lemma forth_steps :
  Forall (λ e, does e.1 e.2.1 e.2.2 ∧ tracked e.2.1 ∧ settled e.2.1 e.2.2 RA) forth.
Proof.
  apply Forall_forall. intros e ([d [p x]] & -> & Hin)%list_elem_of_fmap. cbn [fst snd].
  split; [destruct x; [apply write_does|apply remove_does]|]. split; [by eapply plan_tracked|]. intros k [H _]%RA_target.
  - destruct (pl_each _ _ P d p x Hin) as (_ & Hpx & Hold & _). rewrite Hold in H. apply node_of_inj in H. congruence.
  - by eapply plan_known.
Qed.

Definition jr (n : option node) : Prop := n = None ∨ n = node_of (Some record).
(** Before the first document is replaced, and once all are put back. *)
Definition KA : slot := λ p s k, if bool_decide (p = journal) then jr s ∧ jr k else R0 p s k.
(** In between, with the journal to put the documents back. *)
Definition KB : slot := mids (olds (rev pl)) RM.
(** Once all documents are replaced. *)
Definition RN : slot := upds (news pl) R0.
Definition KC : slot := λ p s k, if bool_decide (p = journal) then jr s ∧ jr k else RN p s k.
Definition KS (w : Disk) : Prop := slots KA w ∨ slots KB w ∨ slots KC w.

Lemma RM_KB : sub RM KB.
Proof. intros p s k _ H. by left. Qed.
Lemma RA_RM : sub RA RM.
Proof. intros p s k _ H. by left. Qed.
Lemma RA_KA : sub RA KA.
Proof.
  intros p s k _ H. unfold KA, RA, upd in *. destruct (bool_decide (p = journal)); [|done]. destruct H as [-> ->].
  by split; right.
Qed.
Lemma RN_closed : closed RN.
Proof. intros p s k Hp [(n & Hin & -> & ->)|[Hn H]]; [left; by exists n|right]. split; [done|]. by eapply R0_closed. Qed.
Lemma upd_sub p n R S : sub R S → sub (upd p n R) (upd p n S).
Proof. intros H q s k Hq. unfold upd. case_bool_decide; [done|by apply H]. Qed.

Lemma olds_news p n : (p, n) ∈ news pl → p ∈ (olds (rev pl)).*1.
Proof.
  intros (d & a & x & Hin & -> & _)%news_in. apply list_elem_of_fmap. exists (target d, node_of a). split; [done|].
  apply list_elem_of_fmap. exists (d, (a, x)). by rewrite rev_in.
Qed.
Lemma back_RA : sub (upds (olds (rev pl)) RM) RA.
Proof.
  intros p s k Hp [(n & ([d [a x]] & [= -> ->] & Hin)%list_elem_of_fmap & -> & ->)|[Hn [H|(n & Hin & _)]]].
  - rewrite rev_in in Hin. destruct (pl_each _ _ P d a x Hin) as (_ & _ & Hold & _). cbn [fst snd].
    apply RA_target; [by eapply plan_known|]. by rewrite Hold.
  - done.
  - exfalso. apply Hn. by eapply olds_news.
Qed.

Lemma read_record {B} (k : option string → M Disk B) w Q :
  slots RM w → (∀ d, slots RM d → safe (k (Some record) d) Q KS) → safe (sbind (read_optional journal) k w) Q KS.
Proof.
  intros Hw Hk. eapply safe_step; [by apply read_safe| |].
  - intros d Hd. right. left. eapply slots_sub; [apply RM_KB|done].
  - intros text d (Hd & Hs & _). assert (text = Some record) as ->; [|by apply Hk]. apply node_of_inj. rewrite <-Hs.
    apply (RM_journal _ (kept d !! journal)). apply (sl_tracked _ _ Hd). by left.
Qed.

Lemma remove_journal_safe R S w :
  closed R → (∀ k, ¬ R journal None k) → slots R w → sub (upd journal None R) S →
  (∀ d, slots (mid journal None R) d → KS d) → safe (remove_synced journal w) (λ _, slots S) KS.
Proof.
  intros HR Hn Hw HS HK. eapply safe_mono; [apply (remove_safe R w journal); [done|done|by left|]|..].
  - intros k H. by apply Hn in H.
  - intros u d. by apply slots_sub.
  - exact HK.
Qed.

Lemma recover_safe w : slots RM w → safe (recover state config w) (λ _, slots (upd journal None R0)) KS.
Proof.
  intros Hw. unfold recover. apply read_record; [done|]. intros d Hd. unfold record at 1.
  rewrite decode_encode by apply undo_rust.
  assert (HK : ∀ w', slots KB w' → KS w') by (intros w' H; right; by left).
  apply safe_ensure; [by apply HK, (slots_sub _ _ _ RM_KB)|]. intros _. rewrite restore_back.
  eapply safe_step; [apply (run_all_safe back RM d Hd RM_closed back_nodup back_steps)|..].
  - rewrite back_paths. exact HK.
  - rewrite back_paths. intros [] w1 Hw1. apply (slots_sub _ _ _ back_RA) in Hw1.
    apply (remove_journal_safe RA); [apply RA_closed| |done|..].
    + intros k [H _]%RA_journal. done.
    + intros p s k Hp. unfold RA, upd. destruct (bool_decide (p = journal)); [done|]. done.
    + intros w2 Hw2. left. eapply slots_sub; [|exact Hw2]. intros p s k Hp [H|(-> & -> & H)]; [by apply RA_KA|].
      unfold KA. rewrite bool_decide_eq_true_2 by done. split; [by left|]. destruct H as [->|[s0 H]]; [by left|].
      apply RA_journal in H as [_ ->]. by right.
Qed.

(** The documents replaced, and the journal still there. *)
Definition RX : slot := upds (news pl) RA.
Definition CD (w : Disk) : Prop := slots RM w ∨ slots (mid journal None RX) w.

Lemma RX_closed : closed RX.
Proof. intros p s k Hp [(n & Hin & -> & ->)|[Hn H]]; [left; by exists n|right]. split; [done|]. by eapply RA_closed. Qed.
Lemma RX_journal s k : RX journal s k → s = node_of (Some record) ∧ k = node_of (Some record).
Proof. intros [(n & Hin & _)|[_ H%RA_journal]]; [by apply journal_not_new in Hin|done]. Qed.
Lemma RX_other p s k : p ≠ journal → RX p s k → RN p s k.
Proof.
  intros Hp [H|[Hn H]]; [by left|right]. split; [done|]. unfold RA, upd in H. by rewrite bool_decide_eq_false_2 in H.
Qed.
Lemma RX_RM : sub RX RM.
Proof. intros p s k _ [(n & Hin & -> & ->)|[_ H]]; [right|by left]. exists n. by split; [|split; [|left]]. Qed.
Lemma mid_RX_KC : sub (mid journal None RX) KC.
Proof.
  intros p s k _ H. unfold KC. destruct (decide (p = journal)) as [->|Hp].
  - rewrite bool_decide_eq_true_2 by done. destruct H as [[-> ->]%RX_journal|(_ & -> & H)]; [by split; right|].
    split; [by left|]. destruct H as [->|[s0 [_ ->]%RX_journal]]; [by left|by right].
  - rewrite bool_decide_eq_false_2 by done. destruct H as [H|[-> _]]; [by apply RX_other|done].
Qed.
Lemma CD_KS w : CD w → KS w.
Proof.
  intros [H|H]; right; [left; by eapply slots_sub; [apply RM_KB|]|right]. by eapply slots_sub; [apply mid_RX_KC|].
Qed.

Lemma commit_safe w : slots RA w →
  safe ((let! _ := commit write_atomically ((λ e, (target e.1, e.2.2)) <$> pl) in remove_synced journal) w)
    (λ _, slots (upd journal None RN)) CD.
Proof.
  intros Hw. rewrite commit_forth.
  eapply safe_step; [apply (run_all_safe forth RA w Hw RA_closed forth_nodup forth_steps)|rewrite forth_paths; by left|].
  rewrite forth_paths. intros [] w1 Hw1. cbn beta in Hw1. fold RX in Hw1.
  eapply safe_mono; [apply (remove_safe RX w1 journal Hw1 RX_closed); [by left|]|..].
  - intros k [H _]%RX_journal. done.
  - intros [] d. apply slots_sub. intros p s k _. unfold upd. destruct (decide (p = journal)) as [->|Hp].
    + by rewrite bool_decide_eq_true_2.
    + rewrite bool_decide_eq_false_2 by done. by apply RX_other.
  - intros d Hd. by right.
Qed.

Lemma attempt_safe {W A} (m : M W A) w (Q : A → W → Prop) (C : W → Prop) :
  safe (m w) Q C → safe (attempt m w) (λ r d, match r with Ok a => Q a d | Err _ => C d end) C.
Proof.
  intros (H1 & H2 & H3). split; [|by split]. intros r [= <-]. cbn. destruct (o_result (m w)); [by apply H1|done].
Qed.

Lemma mid_closed p R : closed R → closed (mid p None R).
Proof. intros HR q s k Hq [H|(-> & -> & _)]; [left; by eapply HR|right]. by split; [|split; [|left]]. Qed.
Lemma upd_same_RM : sub (upd journal (node_of (Some record)) RM) RM.
Proof.
  intros p s k _. unfold upd. case_bool_decide as E; [|done]. subst. intros [-> ->]. by apply RM_journal.
Qed.
Lemma mid_RM : sub (mid journal (node_of (Some record)) RM) RM.
Proof.
  intros p s k _ [H|(-> & -> & H)]; [done|]. apply RM_journal. split; [done|].
  by destruct H as [H|[s0 [_ H]%RM_journal]].
Qed.
Lemma upd_RX_RM : sub (upd journal (node_of (Some record)) (mid journal None RX)) RM.
Proof.
  intros p s k Hp. unfold upd. case_bool_decide as E; [subst; intros [-> ->]; by apply RM_journal|].
  intros [H|[-> _]]; [by apply RX_RM|done].
Qed.
Lemma mid_mid_RX : sub (mid journal (node_of (Some record)) (mid journal None RX)) KC.
Proof.
  intros p s k Hp [H|(-> & -> & H)]; [by apply mid_RX_KC|]. unfold KC. rewrite bool_decide_eq_true_2 by done.
  split; [by right|]. destruct H as [->|[s0 H]]; [by right|]. apply mid_RX_KC in H; [|apply tracked_steady; by left]. unfold KC in H.
  rewrite bool_decide_eq_true_2 in H by done. by destruct H.
Qed.

(** The journal is back before the rollback. *)
Lemma marker_safe {B} (k : M Disk B) w Q : CD w →
  (∀ d, slots RM d → safe (k d) Q KS) →
  safe ((let! there := exists_ journal in
         let! _ := (if there : bool then sret tt else write_atomically journal record) in k) w) Q KS.
Proof.
  intros Hw Hk.
  assert (Hfs : ∀ fs d, CD d → CD (with_faults fs d)) by (intros fs d [H|H]; [left|right]; by apply slots_faults).
  eapply safe_step with (C' := CD) (R := λ there d, CD d ∧ (there = true → is_Some (seen d !! journal))); [|by apply CD_KS|].
  { pose proof (io_safe (λ d, Some (bool_decide (is_Some (seen d !! journal)), d)) w
      (λ there d, CD d ∧ (there = true → is_Some (seen d !! journal))) CD) as (H1 & H2 & H3).
    - intros fs. by apply Hfs.
    - intros fs a d [= <- <-]. split; [|by apply Hfs]. split; [by apply Hfs|]. intros H. by apply bool_decide_eq_true in H.
    - split; [|by split]. intros a [= <-]. cbn. destruct (o_result _) as [b|e]; [by apply H1|]. by split. }
  intros there d [Hd Hthere]. destruct there.
  - eapply safe_step with (C' := slots RM) (R := λ _, slots RM); [|intros d' H; apply CD_KS; by left|intros _ d' H; by apply Hk].
    assert (slots RM d); [|by apply safe_ret]. destruct Hd as [Hd|Hd]; [done|]. specialize (Hthere eq_refl).
    destruct Hd as [H1 H2 H3]. split; [|done..]. intros p Hp. destruct (H1 p Hp) as [H|(-> & H & _)]; [by apply RX_RM|].
    rewrite H in Hthere. by destruct Hthere.
  - assert (HC : ∃ R, closed R ∧ slots R d ∧ sub (upd journal (node_of (Some record)) R) RM
       ∧ (∀ d', slots (mid journal (node_of (Some record)) R) d' → KS d')).
    { destruct Hd as [Hd|Hd]; [exists RM|exists (mid journal None RX)]; split.
      - apply RM_closed.
      - split; [done|]. split; [apply upd_same_RM|]. intros d' H. apply CD_KS. left. eapply slots_sub; [|exact H]. apply mid_RM.
      - apply mid_closed, RX_closed.
      - split; [done|]. split; [apply upd_RX_RM|]. intros d' H. right. right. eapply slots_sub; [|exact H]. apply mid_mid_RX. }
    destruct HC as (R & HR & HRd & Hup & HK).
    eapply safe_step; [apply (write_safe R d journal record HRd HR); by left|exact HK|].
    intros [] d' Hd'. apply Hk. by eapply slots_sub.
Qed.

Lemma replace_documents_safe w :
  slots R0 w →
  safe (replace_documents state config write_atomically ((λ e, (target e.1, e.2.2)) <$> pl) (undo_of pl) w)
    (λ _, slots (upd journal None RN)) KS.
Proof.
  intros Hw. unfold replace_documents. fold record.
  eapply safe_step; [apply (write_safe R0 w journal record Hw R0_closed); by left| |].
  - intros d Hd. left. eapply slots_sub; [|exact Hd]. intros p s k Hp H. unfold KA.
    destruct H as [[-> ->]|(-> & -> & H)]; [case_bool_decide as E; [subst; rewrite Hjournal; by split; left|done]|].
    rewrite bool_decide_eq_true_2 by done. split; [by right|]. destruct H as [->|[s0 [_ ->]]]; [by right|left; done].
  - intros [] w1 Hw1. cbn beta in Hw1. change (slots RA w1) in Hw1.
    eapply safe_step; [apply attempt_safe, commit_safe; exact Hw1|apply CD_KS|].
    intros [[]|e] w2 Hw2.
    + apply safe_ret; [|done]. right. right. eapply slots_sub; [|exact Hw2]. intros p s k _. unfold upd, KC.
      destruct (bool_decide (p = journal)); [|done]. intros [-> ->]. by split; left.
    + apply marker_safe; [done|]. intros d Hd.
      eapply safe_step; [apply attempt_safe, recover_safe; exact Hd|done|].
      assert (HA : ∀ d', slots (upd journal None R0) d' → KS d').
      { intros d' H. left. eapply slots_sub; [|exact H]. intros p s k _. unfold upd, KA.
        destruct (bool_decide (p = journal)); [|done]. intros [-> ->]. by split; left. }
      intros [[]|e'] d' Hd'; apply safe_lift; try done. by apply HA.
Qed.

(** What the documents hold on a disk. *)
Definition unchanged (t : tree) : Prop := ∀ d, known_document d = true → t !! target d = old !! target d.
Definition replaced (t : tree) : Prop :=
  (∀ d x, (d, x) ∈ documents → t !! target d = node_of x)
  ∧ ∀ d, known_document d = true → d ∉ documents.*1 → t !! target d = old !! target d.

Lemma known_of d x : (d, x) ∈ documents → known_document d = true.
Proof. intros Hin. rewrite Forall_forall in Hknown. apply Hknown. apply list_elem_of_fmap. by exists (d, x). Qed.
Lemma RN_target d n : RN (target d) n n → known_document d = true →
  (∀ x, (d, x) ∈ documents → n = node_of x) ∧ (d ∉ documents.*1 → n = old !! target d).
Proof.
  intros H Hd.
  assert (Hnews : ∀ m, (target d, m) ∈ news pl → ∃ x, (d, x) ∈ documents ∧ m = node_of x).
  { intros m (d' & a & x & Hin & Ht & -> & _)%news_in. apply (l_target L) in Ht; [|done|by eapply plan_known]. subst d'.
    exists x. split; [|done]. by destruct (pl_each _ _ P d a x Hin). }
  assert (Huniq : ∀ x x', (d, x) ∈ documents → (d, x') ∈ documents → x = x').
  { intros x x' [i Hi]%list_elem_of_lookup [j Hj]%list_elem_of_lookup.
    assert (i = j) as ->; [|by simplify_eq]. eapply NoDup_lookup; [exact Hnd|by rewrite list_lookup_fmap, Hi|by rewrite list_lookup_fmap, Hj]. }
  destruct H as [(m & Hin & -> & _)|[Hn [-> _]]].
  - destruct (Hnews m Hin) as (x & Hx & ->). split; [intros x' Hx'; by rewrite (Huniq _ _ Hx Hx')|].
    intros []. apply list_elem_of_fmap. by exists (d, x).
  - split; [|done]. intros x Hx. destruct (pl_rest _ _ P d x Hx) as [[[d' [a x']] [-> Hin]]%list_elem_of_fmap|E]; [|done].
    exfalso. apply Hn. apply list_elem_of_fmap. exists (target d', node_of x'). split; [done|].
    apply list_elem_of_fmap. by exists (d', (a, x')).
Qed.

Lemma RM_diag p s k : RM p s k → RM p s s ∧ RM p k k.
Proof.
  assert (HA : ∀ s k, RA p s k → RA p s s ∧ RA p k k).
  { intros s' k'. unfold RA, upd. case_bool_decide; [intros [-> ->]; by split|]. intros [-> ->]. by split. }
  intros [H|(n & Hin & -> & H)]; [apply HA in H as [? ?]; by split; left|]. split.
  - right. exists n. by split; [|split; [|left]].
  - destruct H as [->|[s0 [_ H]%HA]]; [|by left]. right. exists n. by split; [|split; [|left]].
Qed.
Lemma KB_diag p s k : KB p s k → RM p s s ∧ RM p k k.
Proof.
  intros [H|(n & ([d [a x]] & [= -> ->] & Hin)%list_elem_of_fmap & -> & H)]; [by apply RM_diag|]. rewrite rev_in in Hin.
  assert (Ho : RM (target d) (node_of a) (node_of a)).
  { left. destruct (pl_each _ _ P d a x Hin) as (_ & _ & Hold & _). apply RA_target; [by eapply plan_known|]. by rewrite Hold. }
  split; [done|]. by destruct H as [->|[s0 [_ H]%RM_diag]].
Qed.

Lemma cut_slots (R S : slot) w t fs :
  slots R w → (∀ p s k, steady p → R p s k → S p s s ∧ S p k k) → cut w t → slots S (at_rest t fs).
Proof.
  intros [H1 H2 H3] HS Hcut. split; cbn [seen kept loose at_rest]; [| |by intros p ?%elem_of_empty].
  - intros p Hp. destruct (HS _ _ _ Hp (H1 p Hp)). destruct (Hcut p) as [->|[->|[Hl _]]]; [done..|].
    exfalso. by apply Hp, H3.
  - intros p Hp. destruct (H2 p Hp) as [Hs Hk]. assert (t !! p ≠ Some Directory); [|by split].
    destruct (Hcut p) as [->|[->|[_ [->|[c ->]]]]]; done.
Qed.

(** A name that is neither the journal's nor a document's. *)
Definition other (p : string) : Prop := steady p ∧ p ≠ journal ∧ ∀ d, known_document d = true → p ≠ target d.
Definition others_kept (t : tree) : Prop := ∀ p, other p → t !! p = old !! p.

Lemma news_other p n : other p → (p, n) ∉ news pl.
Proof. intros (_ & _ & Hp) (d & a & x & Hin & -> & _)%news_in. apply (Hp d); [by eapply plan_known|done]. Qed.
Lemma R0_RM p s k : p ≠ journal → R0 p s k → RM p s k.
Proof. intros Hp H. left. unfold RA, upd. by rewrite bool_decide_eq_false_2. Qed.
Lemma RM_other p s k : other p → RM p s k → s = old !! p.
Proof.
  intros Hp [H|(n & Hin & _)]; [|by apply news_other in Hin]. destruct Hp as (_ & Hp & _). unfold RA, upd in H.
  rewrite bool_decide_eq_false_2 in H by done. by destruct H.
Qed.
Lemma RN_other p s k : other p → RN p s k → s = old !! p.
Proof. intros Hp [(n & Hin & _)|[_ [-> _]]]; [by apply news_other in Hin|done]. Qed.
Lemma RN_RM p s k : p ≠ journal → RN p s k → RM p s s.
Proof.
  intros Hp [(n & Hin & -> & _)|[_ [-> _]]]; [right; exists n; by split; [|split; [|left]]|]. by apply R0_RM.
Qed.

(** A cut of what the journal still guards. *)
Definition guarded (V : string → option node → Prop) : slot := λ p s _, if bool_decide (p = journal) then jr s else V p s.
Lemma guarded_at V t : slots (guarded V) (at_rest t []) → jr (t !! journal) ∧ ∀ p, steady p → p ≠ journal → V p (t !! p).
Proof.
  intros Ht. split.
  - pose proof (sl_tracked _ _ Ht journal (or_introl eq_refl)) as E. unfold guarded in E. by rewrite bool_decide_eq_true_2 in E.
  - intros p Hp Hne. pose proof (sl_at _ _ Ht p Hp) as E. unfold guarded in E. by rewrite bool_decide_eq_false_2 in E.
Qed.
Lemma guarded_RM V t : slots (guarded V) (at_rest t []) → t !! journal = node_of (Some record) →
  (∀ p n, p ≠ journal → V p n → RM p n n) → slots RM (at_rest t []).
Proof.
  intros Ht Hj HV. destruct (guarded_at _ _ Ht) as [_ Hv]. destruct Ht as [_ H2 H3]. split; [|done..].
  cbn [seen kept at_rest]. intros p Hp. destruct (decide (p = journal)) as [->|Hne]; [by apply RM_journal|]. apply HV; auto.
Qed.
Lemma target_steady d : known_document d = true → steady (target d) ∧ target d ≠ journal.
Proof. intros Hd. split; [|by apply (l_journal L)]. apply tracked_steady. right. by exists d. Qed.

(** Where a power cut can leave the device: everything as before, or as it is
    to be, or the journal to put it back with. *)
Lemma cut_cases w t : KS w → cut w t →
  others_kept t ∧ (t !! journal = None ∧ (unchanged t ∨ replaced t) ∨ slots RM (at_rest t [])).
Proof.
  intros [H|[H|H]] Hcut.
  - assert (Ht : slots (guarded (λ p s, s = old !! p)) (at_rest t [])).
    { eapply cut_slots; [exact H| |exact Hcut]. intros p s k _. unfold KA, guarded. by destruct (bool_decide (p = journal)). }
    destruct (guarded_at _ _ Ht) as [Hj Hv]. split; [intros p (Hs & Hp & _); by apply Hv|].
    destruct Hj as [Hj|Hj]; [left; split; [done|left]|right].
    + intros d Hd. by apply Hv; apply target_steady.
    + eapply guarded_RM; [exact Ht|done|]. intros p n Hp ->. by apply R0_RM.
  - assert (Ht : slots RM (at_rest t [])); [|split; [|by right]].
    { eapply cut_slots; [exact H| |exact Hcut]. intros p s k _. apply KB_diag. }
    intros p Hp. eapply RM_other; [done|]. apply (sl_at _ _ Ht). by destruct Hp.
  - assert (Ht : slots (guarded (λ p s, RN p s s)) (at_rest t [])).
    { eapply cut_slots; [exact H| |exact Hcut]. intros p s k _. unfold KC, guarded. destruct (bool_decide (p = journal)); [done|].
      intros [(n & Hin & -> & ->)|[Hn [-> ->]]]; split; (left; by exists n) || by right. }
    destruct (guarded_at _ _ Ht) as [Hj Hv]. split.
    { intros p Hp. eapply RN_other; [done|]. destruct Hp as (? & ? & _). by apply Hv. }
    assert (HN : ∀ d, known_document d = true → RN (target d) (t !! target d) (t !! target d)).
    { intros d Hd. by apply Hv; apply target_steady. }
    destruct Hj as [Hj|Hj]; [left; split; [done|right]|right].
    + split; [intros d x Hx; pose proof (known_of d x Hx) as Hd|intros d Hd]; by apply (RN_target d _ (HN d Hd) Hd).
    + eapply guarded_RM; [exact Ht|done|]. intros p n Hp Hn. exact (RN_RM p n n Hp Hn).
Qed.

Lemma RM_readable d p x s k : (d, (p, x)) ∈ pl → RM (target d) s k → readable s = true.
Proof.
  intros Hin [[->| ->] _]%(RM_target _ _ _ _ _ Hin); apply node_of_readable;
    destruct (pl_each _ _ P d p x Hin) as (Hd & _ & _ & Hp); [done|].
  rewrite Forall_forall in Hutf. by apply (Hutf _ Hd).
Qed.
Lemma record_readable : readable (node_of (Some record)) = true.
Proof. apply node_of_readable. apply encode_text, undo_rust. Qed.

Lemma recover_works w : slots RM w → faults w = [] → works (recover state config w).
Proof.
  intros Hw Hf. unfold recover. assert (Hj : seen w !! journal = node_of (Some record)).
  { apply (RM_journal _ (kept w !! journal)). apply (sl_tracked _ _ Hw). by left. }
  destruct (read_fine w journal (Some record) Hf Hj) as [E1 E2]; [apply encode_text, undo_rust|].
  apply (works_bind _ _ _ _ _ E1 E2). unfold record at 1. rewrite decode_encode by apply undo_rust.
  rewrite undo_valid. rewrite restore_back.
  assert (Hrun : works (run_all back w)).
  { apply (run_all_works back RM w Hw RM_closed back_nodup); [|done]. pose proof back_steps as Hs. apply Forall_forall. intros e He.
    split; [by apply (proj1 (Forall_forall _ _) Hs)|]. apply list_elem_of_fmap in He as ([d [p x]] & -> & Hin). rewrite rev_in in Hin.
    cbn [fst snd]. split; [apply restore_goes|]. intros s k. by eapply RM_readable. }
  destruct Hrun as [[[] Er] Hfr]. eapply works_bind; [exact Er|done|].
  destruct (run_all_safe back RM w Hw RM_closed back_nodup back_steps) as [H1 _]. specialize (H1 tt Er).
  rewrite back_paths in H1. apply (slots_sub _ _ _ back_RA) in H1. apply remove_works; [done|].
  pose proof (sl_tracked _ _ H1 journal (or_introl eq_refl)) as [Es _]%RA_journal. rewrite Es. apply record_readable.
Qed.

Lemma recovered w t : KS w → cut w t →
  let o := recover state config (at_rest t []) in
  o_result o = Ok tt ∧ faults (o_state o) = [] ∧ seen (o_state o) !! journal = None ∧ others_kept (seen (o_state o))
  ∧ (unchanged (seen (o_state o)) ∨ replaced (seen (o_state o))).
Proof.
  intros HK Hcut. destruct (cut_cases w t HK Hcut) as [Hot [[Hj Hd]|H]].
  - destruct (recover_idle t Hj) as [E1 E2]. cbn zeta. rewrite E1, E2. by split.
  - destruct (recover_works _ H eq_refl) as [[[] E] Ef]. cbn zeta. split; [done|]. split; [done|].
    destruct (recover_safe _ H) as [H1 _]. specialize (H1 tt E).
    assert (Hat : ∀ p, steady p → p ≠ journal → seen (o_state (recover state config (at_rest t []))) !! p = old !! p).
    { intros p Hp Hne. pose proof (sl_at _ _ H1 p Hp) as Ed. unfold upd in Ed. rewrite bool_decide_eq_false_2 in Ed by done. by destruct Ed. }
    split; [|split; [intros p (? & ? & _); by apply Hat|left; intros d Hd; by apply Hat; apply target_steady]].
    pose proof (sl_tracked _ _ H1 journal (or_introl eq_refl)) as Ej. unfold upd in Ej.
    rewrite bool_decide_eq_true_2 in Ej by done. by destruct Ej.
Qed.

Lemma replaced_of w : slots (upd journal None RN) w → ∀ t, cut w t → t !! journal = None ∧ others_kept t ∧ replaced t.
Proof.
  intros H t Hcut. assert (HK : KS w).
  { right. right. eapply slots_sub; [|exact H]. intros p s k _. unfold upd, KC. destruct (bool_decide (p = journal)); [|done].
    intros [-> ->]. by split; left. }
  destruct (cut_cases w t HK Hcut) as [Hot Hc].
  set (SC := λ (p : string) (s k : option node), if bool_decide (p = journal) then s = None else RN p s s).
  assert (Ht : slots SC (at_rest t [])).
  { eapply cut_slots; [exact H| |exact Hcut]. intros p s k _. unfold upd, SC. destruct (bool_decide (p = journal)); [done|].
    intros [(n & Hin & -> & ->)|[Hn [-> ->]]]; split; (left; by exists n) || by right. }
  assert (HN : ∀ d, known_document d = true → RN (target d) (t !! target d) (t !! target d)).
  { intros d Hd. pose proof (sl_at _ _ Ht (target d) (proj1 (target_steady d Hd))) as E. unfold SC in E.
    rewrite bool_decide_eq_false_2 in E by by apply target_steady. exact E. }
  split; [|split; [done|]].
  - pose proof (sl_tracked _ _ Ht journal (or_introl eq_refl)) as E. unfold SC in E. by rewrite bool_decide_eq_true_2 in E.
  - split; [intros d x Hx; pose proof (known_of d x Hx) as Hd|intros d Hd]; by apply (RN_target d _ (HN d Hd) Hd).
Qed.

End saving.

(** ** The whole save *)

Section whole.
Context `{JC : JournalCodec} {JL : JournalLaws} (old : tree) (documents : list (string * option string)).

(** What a caller hands over: each document once, by a name of the store. *)
Record sound_documents : Prop := {
  sd_once : NoDup documents.*1;
  sd_known : Forall (λ d, known_document d = true) documents.*1;
  sd_count : len documents ≤ MAX_UNDO;
  sd_text : Forall (λ d, rust_text (Some d.1) = true ∧ rust_text d.2 = true) documents;
}.
(** A store at rest: no save under way, and no directory under a temporary name. *)
Record resting : Prop := {
  rt_journal : old !! journal = None;
  rt_temp p : is_temp p → old !! p ≠ Some Directory;
}.
Context (D : sound_documents) (T : resting).

Definition kept_safe (w : Disk) : Prop := slots (R0 old) w ∨ ∃ pl, planned old documents pl ∧ KS old pl w.

Lemma rest_slots fs : slots (R0 old) (at_rest old fs).
Proof.
  split; cbn [seen kept loose at_rest]; [done| |by intros p ?%elem_of_empty]. intros p Hp.
  split; by apply (rt_temp T).
Qed.
Lemma R0_target w d : slots (R0 old) w → known_document d = true → seen w !! target d = old !! target d.
Proof. intros Hw Hd. destruct (sl_tracked _ _ Hw (target d)) as [E _]; [|done]. right. by exists d. Qed.
Lemma R0_journal w : slots (R0 old) w → seen w !! journal = None.
Proof. intros Hw. destruct (sl_tracked _ _ Hw journal) as [E _]; [by left|]. by rewrite E, (rt_journal T). Qed.
Lemma idle_slots w : slots (R0 old) w → slots (upd journal None (RN old [])) w.
Proof.
  apply slots_sub. intros p s k _ [-> ->]. unfold upd. case_bool_decide as E; [subst; by rewrite (rt_journal T)|].
  right. split; [apply not_elem_of_nil|done].
Qed.

Lemma save_safe w0 : slots (R0 old) w0 →
  safe (save state config documents w0)
    (λ _ w, ∃ pl, planned old documents pl ∧ slots (upd journal None (RN old pl)) w) kept_safe.
Proof.
  intros Hw0. destruct D as [D1 D2 D3 D4]. pose proof (rt_journal T) as TJ. unfold save, save_with.
  assert (HC : ∀ d, slots (R0 old) d → kept_safe d) by (intros d H; by left).
  eapply safe_step with (C' := slots (R0 old)) (R := λ _, slots (R0 old)); [|exact HC|].
  { unfold recover. eapply safe_step; [by apply read_safe|done|]. intros text d (Hd & Hs & _).
    rewrite (R0_journal d Hd) in Hs. destruct text as [text|]; [done|]. by apply safe_ret. }
  intros [] w Hw. eapply safe_step with (C' := slots (R0 old)) (R := λ _, slots (R0 old)); [|exact HC|].
  { apply io_safe; [intros fs'; by apply slots_faults|]. intros fs' a d [= _ <-]. split; by apply slots_faults. }
  intros [] w1 Hw1. eapply safe_step; [by apply changes_safe|exact HC|].
  intros r w2 (Hw2 & pl & P & ->). destruct pl as [|e pl].
  { apply safe_ret; [by apply HC|]. exists []. split; [done|]. by apply idle_slots. }
  change (is_nil _) with false. cbn iota.
  eapply safe_mono; [apply (replace_documents_safe old documents (e :: pl)); try done|..].
  - intros [] d Hd. by exists (e :: pl).
  - intros d Hd. right. by exists (e :: pl).
Qed.

Lemma kept_recovers w t : kept_safe w → cut w t →
  let o := recover state config (at_rest t []) in
  o_result o = Ok tt ∧ faults (o_state o) = [] ∧ seen (o_state o) !! journal = None ∧ others_kept old (seen (o_state o))
  ∧ (unchanged old (seen (o_state o)) ∨ replaced old documents (seen (o_state o))).
Proof.
  intros [Hw|(pl & P & Hw)] Hcut; pose proof (rt_journal T) as TJ; destruct D as [D1 D2 D3 D4]; [|by eapply recovered].
  set (S := λ p (s : option node) (_ : option node), s = old !! p).
  assert (Ht : slots S (at_rest t [])).
  { eapply (cut_slots (R0 old)); [exact Hw| |exact Hcut]. by intros p s k _ [-> ->]. }
  assert (Hat : ∀ p, steady p → t !! p = old !! p) by (intros p Hp; apply (sl_at _ _ Ht p Hp)).
  destruct (recover_idle t) as [E1 E2].
  { rewrite Hat; [apply (rt_journal T)|apply tracked_steady; by left]. }
  cbn zeta. rewrite E1, E2. cbn [seen at_rest]. split; [done|]. split; [done|]. split; [|split].
  - rewrite Hat; [apply (rt_journal T)|apply tracked_steady; by left].
  - intros p (Hp & _). by apply Hat.
  - left. intros d Hd. apply Hat. by apply target_steady.
Qed.
Lemma kept_others w t : kept_safe w → cut w t → others_kept old t.
Proof.
  intros [Hw|(pl & P & Hw)] Hcut; pose proof (rt_journal T) as TJ; destruct D as [D1 D2 D3 D4].
  - intros p (Hp & _). destruct (sl_at _ _ Hw p Hp) as [Es Ek].
    destruct (Hcut p) as [->|[->|[Hl _]]]; [done|done|]. by apply (sl_loose _ _ Hw) in Hl.
  - by eapply cut_cases.
Qed.
Lemma saved_cut w t pl : planned old documents pl → slots (upd journal None (RN old pl)) w → cut w t →
  t !! journal = None ∧ others_kept old t ∧ replaced old documents t.
Proof. intros P Hw Hcut. pose proof (rt_journal T) as TJ. destruct D as [D1 D2 D3 D4]. by eapply replaced_of. Qed.

(** *** Without faults a save goes through *)

Lemma read_alone w path : faults w = [] → readable (seen w !! path) = true → works (read_optional path w).
Proof.
  intros Hf Hr. destruct (seen w !! path) as [[c| |]|] eqn:E; try done; cbn in Hr.
  - eapply works_io; [done|by rewrite E, Hr|done].
  - eapply works_io; [done|by rewrite E|done].
Qed.
Lemma changes_works l w : slots (R0 old) w → faults w = [] → Forall (λ d, known_document d = true) l.*1 →
  Forall (λ d, readable (old !! target d) = true) l.*1 → works (changes state config l w).
Proof.
  revert w. induction l as [|[d x] rest IH]; intros w Hw Hf Hk Hr; [by apply works_ret|].
  cbn [fmap list_fmap fst] in Hk, Hr. apply Forall_cons in Hk as [Hd Hk]. apply Forall_cons in Hr as [Hrd Hr]. cbn [changes].
  eapply works_step; [by apply read_safe|apply read_alone; [done|by rewrite R0_target]|].
  intros previous w1 (Hw1 & _) Hf1. eapply works_step; [by apply changes_safe|by apply IH|].
  intros r w2 (_ & pl & _ & ->) Hf2. by apply works_ret.
Qed.

Lemma replace_documents_works pl w :
  planned old documents pl → slots (R0 old) w → faults w = [] →
  works (replace_documents state config write_atomically ((λ e, (target e.1, e.2.2)) <$> pl) (undo_of pl) w).
Proof.
  intros P Hw Hf. destruct D as [D1 D2 D3 D4]. pose proof (rt_journal T) as TJ. unfold replace_documents.
  eapply works_step; [apply (write_safe _ _ journal _ Hw (R0_closed old)); by left| |].
  { apply (write_works (R0 old)); [done|by left|done|]. by rewrite R0_journal. }
  intros [] w1 Hw1 Hf1. cbn beta in Hw1. change (slots (RA old pl) w1) in Hw1.
  assert (Hc : works ((let! _ := commit write_atomically ((λ e, (target e.1, e.2.2)) <$> pl) in remove_synced journal) w1)).
  { rewrite commit_forth. eapply works_step.
    - apply (run_all_safe (forth pl) (RA old pl) w1 Hw1); [apply RA_closed|by eapply forth_nodup|by eapply forth_steps].
    - apply (run_all_works (forth pl) (RA old pl) w1 Hw1); [apply RA_closed|by eapply forth_nodup| |done].
      assert (Hs : Forall (λ e, does e.1 e.2.1 e.2.2 ∧ tracked e.2.1 ∧ settled e.2.1 e.2.2 (RA old pl)) (forth pl)) by by eapply forth_steps.
      apply Forall_forall. intros e He. split; [by apply (proj1 (Forall_forall _ _) Hs)|].
      apply list_elem_of_fmap in He as ([d [p x]] & -> & Hin). cbn [fst snd]. split; [destruct x; [apply write_goes|apply remove_goes]|].
      intros s k [-> _]%RA_target; [|by eapply plan_known]. destruct (pl_each _ _ _ P d p x Hin) as (_ & _ & -> & Hp).
      by apply node_of_readable.
    - rewrite forth_paths. intros [] w2 Hw2 Hf2. cbn beta in Hw2. apply remove_works; [done|].
      pose proof (sl_tracked _ _ Hw2 journal (or_introl eq_refl)) as H. change (RX old pl journal (seen w2 !! journal) (kept w2 !! journal)) in H.
      apply (RX_journal old documents) in H as [-> _]; [|done..]. by eapply record_readable. }
  destruct Hc as [[[] E] Hf2]. eapply works_bind with (a := Ok tt); [cbn; by rewrite E|done|]. by apply works_ret.
Qed.

Lemma save_works : Forall (λ d, readable (old !! target d) = true) documents.*1 →
  works (save state config documents (at_rest old [])).
Proof.
  intros Hr. destruct D as [D1 D2 D3 D4]. pose proof (rt_journal T) as TJ. unfold save, save_with.
  destruct (recover_idle old TJ) as [E1 E2]. eapply works_bind; [exact E1|exact E2|].
  eapply works_io_bind; [done|done|].
  eapply works_step; [apply changes_safe; [apply (rest_slots [])|done]|by apply changes_works; [apply (rest_slots [])| | |]|].
  intros r w (Hw & pl & P & ->) Hf. destruct pl as [|e pl]; [by apply works_ret|].
  change (is_nil _) with false. cbn iota. by apply replace_documents_works.
Qed.

End whole.

End layout.

(** ** Where the store lives *)

Definition DEFAULT_PATH : string := "/var/lib/mica/settings.toml".
Definition DEFAULT_CONFIG_DIR : string := "/mica/config".

(** The last component of a path, and that it is not hidden. *)
Definition visible (p : string) : Prop :=
  ∃ dir name, rsplit_once "/" p = Some (dir, name) ∧ first_byte (λ c, bool_decide (c ≠ "."%char)) name = true.
Definition plain_name (name : string) : bool :=
  negb (contains_byte "/" name) && first_byte (λ c, bool_decide (c ≠ "."%char)) name.

Lemma visible_at dir name : plain_name name = true → visible (dir +:+ "/" +:+ name).
Proof.
  intros [H1%negb_true_iff H2]%andb_prop. exists dir, name. split; [|done]. by apply rsplit_once_spec.
Qed.
Lemma temp_hidden p : visible p → ¬ visible (temp_of p).
Proof.
  intros (dir & name & E & _) (dir' & name' & E' & H'). unfold temp_of in E'. rewrite E in E'.
  apply rsplit_once_spec in E as [_ Hn].
  assert (E2 : rsplit_once "/" (dir +:+ "/." +:+ name +:+ ".tmp") = Some (dir, "." +:+ name +:+ ".tmp")).
  { apply rsplit_once_spec. split; [done|]. by rewrite !contains_byte_app, Hn. }
  rewrite E2 in E'. injection E' as <- <-. done.
Qed.

Lemma known_plain d : known_document d = true → visible (DEFAULT_CONFIG_DIR +:+ "/" +:+ d).
Proof.
  intros [[H%bool_decide_eq_true|H%bool_decide_eq_true]%orb_prop|H%bool_decide_eq_true]%orb_prop.
  - subst. by apply visible_at.
  - apply visible_at. assert (Hall : Forall (λ d, plain_name d = true) CONFIG_DOCUMENTS) by by repeat constructor.
    by apply (proj1 (Forall_forall _ _) Hall).
  - destruct H as [name H]. unfold container_project_of in H. apply bind_Some in H as (r & E1%strip_prefix_spec & H).
    apply bind_Some in H as (r' & E2%strip_prefix_spec & H). apply bind_Some in H as (n & E3%strip_suffix_spec & H).
    destruct (is_project_name n) eqn:En; [|done]. subst.
    change (visible ((DEFAULT_CONFIG_DIR +:+ "/" +:+ CONTAINER_PROJECTS_DIR) +:+ "/" +:+ (n +:+ CONTAINER_PROJECT_SUFFIX))).
    apply visible_at. unfold is_project_name in En. bools. unfold plain_name. apply andb_true_intro. split.
    + apply negb_true_iff. rewrite contains_byte_app. apply orb_false_intro; [|done]. by eapply all_bytes_not_contains.
    + destruct n as [|c n]; [done|]. cbn in *. apply bool_decide_eq_true. intros ->. done.
Qed.

Lemma default_target d : target DEFAULT_PATH DEFAULT_CONFIG_DIR d = DEFAULT_PATH ∧ d = STATE_DOCUMENT
  ∨ target DEFAULT_PATH DEFAULT_CONFIG_DIR d = DEFAULT_CONFIG_DIR +:+ "/" +:+ d.
Proof. unfold target. case_bool_decide; [by left|by right]. Qed.
Lemma default_visible p : tracked DEFAULT_PATH DEFAULT_CONFIG_DIR p → visible p.
Proof.
  intros [->|(d & Hd & ->)]; [by apply (visible_at "/var/lib/mica" "settings.transaction.json")|].
  destruct (default_target d) as [[-> _]| ->]; [by apply (visible_at "/var/lib/mica" "settings.toml")|by apply known_plain].
Qed.
Lemma default_layout : layout DEFAULT_PATH DEFAULT_CONFIG_DIR.
Proof.
  split.
  - intros d d' _ _ E. destruct (default_target d) as [[E1 H]|E1], (default_target d') as [[E2 H']|E2];
      rewrite E1, E2 in E; [congruence|done..|]. by injection E.
  - intros d _. by destruct (default_target d) as [[-> _]| ->].
  - intros p Hp (q & Hq & ->). apply (temp_hidden q); by apply default_visible.
Qed.

(** ** The properties *)

(** C2: a save is atomic over its documents, on both filesystems at once.
    Whatever I/O calls fail, before or after their effect, and wherever power
    is cut, the next start's recovery succeeds and leaves the documents either
    all as they were or all as the save meant them, no journal, and every other
    file (temporary ones apart) as it was; and once the save has returned [Ok], a power cut leaves them as it meant them. A save
    of readable documents in which no I/O call fails does return [Ok]. *)
Theorem save_is_atomic `{JC : JournalCodec} {JL : JournalLaws} state config old fs documents
    (L : layout state config) (D : sound_documents documents) (T : resting state config old) :
  let o := save state config documents (at_rest old fs) in
  (∀ w t, durable o w → cut w t →
     let r := recover state config (at_rest t []) in
     o_result r = Ok tt ∧ seen (o_state r) !! journal state = None ∧ others_kept state config old (seen (o_state r))
     ∧ (unchanged state config old (seen (o_state r)) ∨ replaced state config old documents (seen (o_state r))))
  ∧ (o_result o = Ok tt → ∀ t, cut (o_state o) t →
       t !! journal state = None ∧ others_kept state config old t ∧ replaced state config old documents t)
  ∧ (fs = [] → Forall (λ d, readable (old !! target state config d) = true) documents.*1 → o_result o = Ok tt).
Proof.
  intros o. pose proof (save_safe state config L old documents D T _ (rest_slots state config old T fs)) as HS. fold o in HS.
  split; [|split].
  - intros w t Hw Hcut.
    destruct (kept_recovers state config L old documents D T w t (safe_durable _ _ _ HS w Hw) Hcut) as (E & _ & H). by split.
  - intros E t Hcut. destruct HS as [H _]. destruct (H tt E) as (pl & P & Hs).
    by apply (saved_cut state config L old documents D T (o_state o) t pl).
  - intros -> R. by destruct (save_works state config L old documents D T R) as [[[] E] _].
Qed.

(** ** Witnesses *)

Section toy.
Fixpoint bits (p : positive) : string :=
  match p with xH => "" | xO p => String "0" (bits p) | xI p => String "1" (bits p) end.
Fixpoint unbits (s : string) : positive :=
  match s with "" => xH | String c s => if bool_decide (c = "0"%char) then xO (unbits s) else xI (unbits s) end.
Lemma unbits_bits p : unbits (bits p) = p.
Proof. induction p as [p IH|p IH|]; cbn; by rewrite ?IH. Qed.
Lemma bits_utf8 p : valid_utf8 (str_bytes (bits p)) = true.
Proof. apply valid_utf8_ascii. induction p as [p IH|p IH|]; cbn; [constructor; [done|exact IH]..|constructor]. Qed.

(** A journal codec: the entries' number, in binary. *)
#[local] Instance toy_codec : JournalCodec := {
  encode u := bits (countable.encode (map (λ e, (u_document e, u_previous e)) u));
  decode s :=
    match countable.decode (A := list (string * option string)) (unbits s) with
    | Some l => Some (map (λ e, {| u_document := e.1; u_previous := e.2 |}) l)
    | None => None
    end;
}.
#[local] Instance toy_laws : JournalLaws.
Proof.
  split.
  - intros u _. unfold decode, encode, toy_codec. rewrite unbits_bits, countable.decode_encode.
    f_equal. rewrite map_map. rewrite <-(map_id u) at 2. apply map_ext. by intros [].
  - intros u _. apply bits_utf8.
Qed.

Let before : tree := {[ DEFAULT_PATH := Regular (str_bytes "a"); "/mica/config/system.json" := Regular (str_bytes "b") ]}.
Let documents : list (string * option string) :=
  [("system.json", Some "B"); ("container/app.yaml", Some "C"); ("settings.toml", None)].

Lemma before_resting : resting DEFAULT_PATH DEFAULT_CONFIG_DIR before.
Proof.
  split; [done|]. intros p _ E%elem_of_map_to_list. vm_compute in E.
  repeat (apply elem_of_cons in E as [E|E]; [discriminate E|]). by apply elem_of_nil in E.
Qed.
Lemma documents_sound : sound_documents documents.
Proof. split; [by apply (bool_decide_unpack _); vm_compute|by repeat constructor|done|by repeat constructor]. Qed.

Lemma save_is_atomic_witness :
  let o := save DEFAULT_PATH DEFAULT_CONFIG_DIR documents (at_rest before [Fine; Fine; Late]) in
  (∀ w t, durable o w → cut w t →
     let r := recover DEFAULT_PATH DEFAULT_CONFIG_DIR (at_rest t []) in
     o_result r = Ok tt ∧ seen (o_state r) !! journal DEFAULT_PATH = None
     ∧ others_kept DEFAULT_PATH DEFAULT_CONFIG_DIR before (seen (o_state r))
     ∧ (unchanged DEFAULT_PATH DEFAULT_CONFIG_DIR before (seen (o_state r))
        ∨ replaced DEFAULT_PATH DEFAULT_CONFIG_DIR before documents (seen (o_state r))))
  ∧ (o_result o = Ok tt → ∀ t, cut (o_state o) t →
       t !! journal DEFAULT_PATH = None ∧ others_kept DEFAULT_PATH DEFAULT_CONFIG_DIR before t
       ∧ replaced DEFAULT_PATH DEFAULT_CONFIG_DIR before documents t)
  ∧ ([Fine; Fine; Late] = [] →
     Forall (λ d, readable (before !! target DEFAULT_PATH DEFAULT_CONFIG_DIR d) = true) documents.*1 → o_result o = Ok tt).
Proof. exact (save_is_atomic DEFAULT_PATH DEFAULT_CONFIG_DIR before _ documents default_layout documents_sound before_resting). Defined.

(** A rollback step whose removal happened but whose directory sync failed is
    passed over by the next recovery, which then removes the journal: a later
    power cut brings the file back. *)
Example removal_not_synced :
  let new := "/mica/config/time.json" in
  let undo := [{| u_document := "time.json"; u_previous := None |}] in
  let t : tree := {[ journal DEFAULT_PATH := Regular (str_bytes (encode undo)); new := Regular [] ]} in
  let first := recover DEFAULT_PATH DEFAULT_CONFIG_DIR (at_rest t [Fine; Fine; Early]) in
  let second := recover DEFAULT_PATH DEFAULT_CONFIG_DIR (with_faults [] (o_state first)) in
  o_result first = Err (Msg "I/O error") ∧ o_result second = Ok tt
  ∧ seen (o_state second) !! new = None ∧ kept (o_state second) !! new = Some (Regular [])
  ∧ kept (o_state second) !! journal DEFAULT_PATH = None.
Proof. vm_compute. repeat split. Qed.

End toy.

End Transaction.
