(* ===== verification/Store.v ===== *)
(** The settings store ([src/crates/micad-settings/src/store.rs]): the
    documents of both filesystems read into one settings tree, each refusal
    on its own, and the tree written back through the undo journal. *)
From Stdlib Require Import Ascii Sorted.
From stdpp Require Import sorting.
From S2P Require Import Prelude Text Files Order Maps Chars Features Addresses SettingsModel SettingsRules DotPath NetworkRules SettingsTree Transaction.
Import Files(node(..), tree, parent_dir).
Import SettingsModel.
Import SettingsRules(is_project_name, MAX_CONTAINER_PROJECT_BYTES).
Import DotPath SettingsTree Transaction.

Module Store.

(** * Steps that fail with a settings error *)

(** [Result<A, SettingsError>] over the disk; an I/O error is one of them. *)
Notation S A := (M Disk (sresult A)).
Definition sio {A} (m : M Disk A) : S A := λ d,
  let o := m d in
  Outcome (Ok (match o_result o with Ok a => inr a | Err e => inl (Io e) end)) (o_state o) (o_crash o).
Definition sthen {A B} (m : S A) (k : A → S B) : S B :=
  sbind m (λ r, match r with inr a => k a | inl e => sret (inl e) end).
Notation "'let^' x ':=' m 'in' k" := (sthen m (fun x => k))
  (at level 200, x pattern, m at level 100, k at level 200,
   format "'[v' 'let^'  x  ':='  m  'in' '/' k ']'") : mica_scope.

(** * Formats *)

Inductive Format := Toml | Json.
(** The parsers of [toml] and [serde_json], and one type's [serde] derives
    with both serializers. *)
Class Parsers := { parse_toml : string → result value; parse_json : string → result value }.
Class Serial (T : Type) := { of_value : value → result T; to_text : Format → T → result string }.

Definition format_parse `{Parsers} (format : Format) (text : string) : result value :=
  match format with Toml => parse_toml text | Json => parse_json text end.
(** [serde_json::to_string_pretty] gets a final line feed. *)
Definition format_render {T} `{Serial T} (format : Format) (x : T) : result string :=
  let? text := to_text format x in
  Ok (match format with Toml => text | Json => text +:+ String LF EmptyString end).

Definition declared_version (doc : value) (document : string) : sresult Z :=
  match as_object doc with
  | None => inl (Parse document)
  | Some object =>
      match smap_get "schema_version" object with
      | Some (Number number) => match parse_u32 number with Some v => inr v | None => inl (Parse document) end
      | _ => inl (Parse document)
      end
  end.

(** A document that exists: anything but this build's schema is an error. *)
Definition parse_document {T} `{Parsers, Serial T} (document : string) (format : Format) (version : Z) (text : string) : sresult T :=
  let/ doc := (match format_parse format text with Ok v => inr v | Err _ => inl (Parse document) end) in
  let/ from := declared_version doc document in
  if from =? version
  then match of_value doc with Ok x => inr x | Err _ => inl (Parse document) end
  else inl (SchemaVersion document).

Definition refusal_class (err : settings_error) : string :=
  match err with
  | SchemaVersion _ => "has an unsupported schema version"
  | Io _ => "could not be read"
  | _ => "did not parse as this build's schema"
  end.
(** [DocumentRefusal]; the detail is the error, which the code prints. *)
Record DocumentRefusal := {
  rf_document : string; rf_path : string; rf_message : string; rf_detail : settings_error; rf_subtrees : list string;
}.
Record LoadedStore := { ls_settings : Settings; ls_refusals : list DocumentRefusal }.

(** * The disk's directories *)

(** [Path::is_dir]: an error is no directory. *)
Definition is_dir (path : string) : M Disk bool := λ d,
  let o := io (λ d, Some (match seen d !! path with Some Directory => true | _ => false end, d)) d in
  Outcome (Ok (match o_result o with Ok b => b | Err _ => false end)) (o_state o) (o_crash o).
Definition names_in (dir : string) (t : tree) : list string :=
  omap (λ e, match rsplit_once "/" e.1 with
             | Some (d, name) => if bool_decide (d = dir) then Some name else None
             | None => None
             end) (map_to_list t).
(** [fs::read_dir], [None] where there is no directory. *)
Definition read_dir (dir : string) : M Disk (option (list string)) := io (λ d,
  match seen d !! dir with
  | None => Some (None, d)
  | Some Directory => Some (Some (names_in dir (seen d)), d)
  | Some _ => None
  end).
Definition make_dir (dir : string) : M Disk unit := io (λ d,
  match seen d !! dir with
  | None => Some (tt, with_seen (<[dir := Directory]> (seen d)) d)
  | Some _ => None
  end).
(** [fs::read_to_string]: an absent file is an error too. *)
Definition read_to_string (path : string) : M Disk string := io (λ d,
  match seen d !! path with
  | Some (Regular c) => if valid_utf8 c then Some (bytes_str c, d) else None
  | _ => None
  end).

(** [sort] of strings that occur once. *)
Definition sort_strings (l : list string) : list string := map fst (foldr (λ s m, smap_insert s tt m) [] l).

(** The documents among the directory's names, with their projects. *)
Definition project_entries (names : list string) : list (string * string) :=
  omap (λ file,
      if valid_utf8 (str_bytes file)
      then let document := CONTAINER_PROJECTS_DIR +:+ "/" +:+ file in
           name ← container_project_of document; Some (name, document)
      else None) names.

(** * The store *)

Class Formats := {
  fm_parsers :: Parsers;
  fm_system :: Serial SystemDocument; fm_network :: Serial (SubtreeDocument network_map);
  fm_dns :: Serial (SubtreeDocument DnsSettings); fm_wifi :: Serial (SubtreeDocument WifiSettings);
  fm_ssh :: Serial (SubtreeDocument SshSettings); fm_mqtt :: Serial (SubtreeDocument MqttSettings);
  fm_time :: Serial (SubtreeDocument TimeSettings); fm_container :: Serial (SubtreeDocument ContainerPolicy);
  fm_bluetooth :: Serial (SubtreeDocument BluetoothSettings); fm_services :: Serial (SubtreeDocument ServicesSettings);
  fm_state :: Serial StateDocument;
}.

Record StoreAt := { st_path : string; st_config : string; st_preserve : list string }.
Definition new_store (path config : string) : StoreAt := {| st_path := path; st_config := config; st_preserve := [] |}.
Definition preserving (documents : list string) (st : StoreAt) : StoreAt :=
  {| st_path := st_path st; st_config := st_config st; st_preserve := documents |}.

Section store.
Context `{FM : Formats} `{JC : JournalCodec} (st : StoreAt).

Definition config_file (document : string) : string := st_config st +:+ "/" +:+ document.
Definition projects_dir : string := config_file CONTAINER_PROJECTS_DIR.

Definition ensure_config_medium : S unit :=
  let! there := is_dir (st_config st) in
  sret (if there : bool then inr tt else inl (Unavailable (st_config st) (parent_dir (st_config st)))).

Definition read_document {T} `{Serial T} (default_ : T) (path document : string) (format : Format) : S T :=
  let^ text := sio (read_optional path) in
  sret (match text with None => inr default_ | Some text => parse_document document format SCHEMA_VERSION text end).

Definition refusal (document : string) (err : settings_error) : DocumentRefusal :=
  {| rf_document := document; rf_path := config_file document;
     rf_message := config_file document +:+ " " +:+ refusal_class err
       +:+ ", so every capability it configures is refused rather than rendered from a schema default";
     rf_detail := err; rf_subtrees := document_subtrees document |}.
Definition read_config {T} `{Serial T} (default_ : T) (document : string) (refusals : option (list DocumentRefusal)) :
    S (T * option (list DocumentRefusal)) :=
  let! read := read_document default_ (config_file document) document Json in
  sret (match read, refusals with
        | inr x, _ => inr (x, refusals)
        | inl err, None => inl err
        | inl err, Some l => inr (default_, Some (l ++ [refusal document err]))
        end).

Definition project_refusal (document : string) (err : settings_error) : DocumentRefusal :=
  {| rf_document := document; rf_path := config_file document;
     rf_message := config_file document
       +:+ " could not be read as a Compose file's text, so every capability it configures is refused rather than rendered from a schema default";
     rf_detail := err; rf_subtrees := document_subtrees CONTAINER_DOCUMENT |}.
Fixpoint read_files (files : list string) (projects : smap string) (refusals : option (list DocumentRefusal)) :
    S (smap string * option (list DocumentRefusal)) :=
  match files with
  | [] => sret (inr (projects, refusals))
  | name :: rest =>
      let document := container_project_document name in
      let! read := sio (read_to_string (config_file document)) in
      let read := (let/ text := read in
                   if MAX_CONTAINER_PROJECT_BYTES <? str_len text then inl (Parse document) else inr text) in
      match read, refusals with
      | inr text, _ => read_files rest (smap_insert name text projects) refusals
      | inl err, None => sret (inl err)
      | inl err, Some l => sret (inr ([], Some (l ++ [project_refusal document err])))
      end
  end.
Definition read_projects (refusals : option (list DocumentRefusal)) : S (smap string * option (list DocumentRefusal)) :=
  let^ entries := sio (read_dir projects_dir) in
  match entries with
  | None => sret (inr ([], refusals))
  | Some names => read_files (sort_strings (map fst (project_entries names))) [] refusals
  end.

(** The documents, in the loader's order. *)
Definition read_documents (refusals : option (list DocumentRefusal)) : S LoadedStore :=
  let dflt := default_documents in
  let^ (system, refusals) := read_config (d_system dflt) SYSTEM_DOCUMENT refusals in
  let^ (network, refusals) := read_config (d_network dflt) NETWORK_DOCUMENT refusals in
  let^ (dns, refusals) := read_config (d_dns dflt) DNS_DOCUMENT refusals in
  let^ (wifi, refusals) := read_config (d_wifi dflt) WIFI_DOCUMENT refusals in
  let^ (ssh, refusals) := read_config (d_ssh dflt) SSH_DOCUMENT refusals in
  let^ (mqtt, refusals) := read_config (d_mqtt dflt) MQTT_DOCUMENT refusals in
  let^ (time, refusals) := read_config (d_time dflt) TIME_DOCUMENT refusals in
  let^ (container, refusals) := read_config (d_container dflt) CONTAINER_DOCUMENT refusals in
  let^ (projects, refusals) := read_projects refusals in
  let^ (bluetooth, refusals) := read_config (d_bluetooth dflt) BLUETOOTH_DOCUMENT refusals in
  let^ (services, refusals) := read_config (d_services dflt) SERVICES_DOCUMENT refusals in
  let^ state := read_document (d_state dflt) (st_path st) STATE_DOCUMENT Toml in
  sret (inr {| ls_settings := compose
                 {| d_system := system; d_network := network; d_dns := dns; d_wifi := wifi; d_ssh := ssh;
                    d_mqtt := mqtt; d_time := time; d_container := container; d_projects := projects;
                    d_bluetooth := bluetooth; d_services := services; d_state := state |};
               ls_refusals := default [] refusals |}).
Definition read_store (refusals : option (list DocumentRefusal)) : S LoadedStore :=
  let^ _ := ensure_config_medium in
  let^ _ := sio (recover (st_path st) (st_config st)) in
  read_documents refusals.
Definition load : S Settings := let^ loaded := read_store None in sret (inr (ls_settings loaded)).
Definition load_with_refusals : S LoadedStore := read_store (Some []).

(** ** Saving *)

Definition rendered (d : DocumentSet) : list (string * result string) :=
  [(SYSTEM_DOCUMENT, format_render Json (d_system d)); (NETWORK_DOCUMENT, format_render Json (d_network d));
   (DNS_DOCUMENT, format_render Json (d_dns d)); (WIFI_DOCUMENT, format_render Json (d_wifi d));
   (SSH_DOCUMENT, format_render Json (d_ssh d)); (MQTT_DOCUMENT, format_render Json (d_mqtt d));
   (TIME_DOCUMENT, format_render Json (d_time d)); (CONTAINER_DOCUMENT, format_render Json (d_container d));
   (BLUETOOTH_DOCUMENT, format_render Json (d_bluetooth d)); (SERVICES_DOCUMENT, format_render Json (d_services d));
   (STATE_DOCUMENT, format_render Toml (d_state d))].
Fixpoint document_writes (l : list (string * result string)) : S (list (string * option string)) :=
  match l with
  | [] => sret (inr [])
  | (name, text) :: rest =>
      let! kept := (if bool_decide (name ∈ st_preserve st) then exists_ (config_file name) else sret false) in
      if kept : bool then document_writes rest
      else
        match text with
        | Err _ => sret (inl (Parse name))
        | Ok text => let^ writes := document_writes rest in sret (inr ((name, Some text) :: writes))
        end
  end.

(** The directory of the projects' files, made where the tree holds any. *)
Definition ensure_projects_dir (projects : smap string) : S unit :=
  if is_nil projects then sret (inr tt)
  else
    let! there := is_dir projects_dir in
    if there : bool then sret (inr tt)
    else let^ _ := sio (make_dir projects_dir) in sio (sync_dir (st_config st)).
Definition removed_projects (projects : smap string) (names : list string) : list string :=
  omap (λ e, if bool_decide (smap_get e.1 projects = None) then Some e.2 else None) (project_entries names).
Definition project_writes (projects : smap string) : S (list (string * option string)) :=
  if existsb (λ document, bool_decide (is_Some (container_project_of document))) (st_preserve st) then sret (inr [])
  else
    let^ entries := sio (read_dir projects_dir) in
    let^ _ := ensure_projects_dir projects in
    sret (inr (map (λ document, (document, None)) (sort_strings (removed_projects projects (default [] entries)))
               ++ map (λ e, (container_project_document e.1, Some e.2)) projects)).

Definition save_settings (settings : Settings) : S unit :=
  let^ _ := ensure_config_medium in
  let^ _ := sio (recover (st_path st) (st_config st)) in
  let documents := documents_of settings in
  let^ writes := document_writes (rendered documents) in
  let^ projects := project_writes (d_projects documents) in
  sio (save (st_path st) (st_config st) (writes ++ projects)).

End store.

(** * Lemmas *)

(** ** Steps without faults *)

(** A step that answers without changing the disk. *)
Definition answers {A} (m : M Disk A) (w : Disk) (a : A) : Prop := o_result (m w) = Ok a ∧ o_state (m w) = w.

Lemma answers_ret {A} (a : A) w : answers (sret a) w a.
Proof. done. Qed.
Lemma answers_bind {A B} (m : M Disk A) (k : A → M Disk B) w a b :
  answers m w a → answers (k a) w b → answers (sbind m k) w b.
Proof. intros [E1 E2] [F1 F2]. unfold answers. rewrite (step_ok _ _ _ _ E1), E2. by split. Qed.
Lemma answers_then {A B} (m : S A) (k : A → S B) w a b :
  answers m w (inr a) → answers (k a) w b → answers (sthen m k) w b.
Proof. intros H1 H2. by eapply answers_bind. Qed.
Lemma answers_fail {A B} (m : S A) (k : A → S B) w e : answers m w (inl e) → answers (sthen m k) w (inl e).
Proof. intros H. eapply answers_bind; [exact H|done]. Qed.
Lemma answers_sio {A} (m : M Disk A) w a : answers m w a → answers (sio m) w (inr a).
Proof. intros [E1 E2]. split; cbn; [by rewrite E1|done]. Qed.
Lemma answers_eq {A} (m : M Disk A) w a b : answers m w a → answers m w b → a = b.
Proof. intros [E1 _] [E2 _]. congruence. Qed.
Lemma answers_io {A} (f : Disk → option (A * Disk)) w a : faults w = [] → f w = Some (a, w) → answers (io f) w a.
Proof. apply io_works. Qed.
Lemma answers_io_none {A} (f : Disk → option (A * Disk)) w :
  faults w = [] → f w = None → answers (sio (io f)) w (inl (Io (Msg "I/O error"))).
Proof. intros Hf E. unfold answers, sio, io. cbn [o_result o_state]. rewrite Hf. cbn. by rewrite E. Qed.

(** Two disks a step cannot tell apart. *)
Definition same {A} (m : M Disk A) (w1 w2 : Disk) : Prop := ∃ a, answers m w1 a ∧ answers m w2 a.
Lemma same_ret {A} (a : A) w1 w2 : same (sret a) w1 w2.
Proof. by exists a. Qed.
Lemma same_bind {A B} (m : M Disk A) (k : A → M Disk B) w1 w2 :
  same m w1 w2 → (∀ a, answers m w1 a → same (k a) w1 w2) → same (sbind m k) w1 w2.
Proof.
  intros (a & H1 & H2) Hk. destruct (Hk a H1) as (b & K1 & K2). exists b. by split; eapply answers_bind.
Qed.
Lemma same_then {A B} (m : S A) (k : A → S B) w1 w2 :
  same m w1 w2 → (∀ a, answers m w1 (inr a) → same (k a) w1 w2) → same (sthen m k) w1 w2.
Proof. intros H Hk. apply same_bind; [done|]. intros [e|a] Ha; [apply same_ret|by apply Hk]. Qed.
Lemma same_io {A} (f : Disk → option (A * Disk)) w1 w2 :
  faults w1 = [] → faults w2 = [] → (∀ a d, f w1 = Some (a, d) → d = w1) → fst <$> f w1 = fst <$> f w2 →
  (∀ a d, f w2 = Some (a, d) → d = w2) → same (sio (io f)) w1 w2.
Proof.
  intros F1 F2 H1 E H2. destruct (f w1) as [[a d1]|] eqn:E1, (f w2) as [[b d2]|] eqn:E2; try done.
  - injection E as ->. assert (d1 = w1) as -> by by eapply H1. assert (d2 = w2) as -> by by eapply H2.
    exists (inr b). by split; apply answers_sio, answers_io.
  - exists (inl (Io (Msg "I/O error"))). by split; apply answers_io_none.
Qed.

(** ** Sorting *)

Lemma elem_of_sort_strings x l : x ∈ sort_strings l ↔ x ∈ l.
Proof.
  unfold sort_strings. rewrite <-smap_get_some. induction l as [|y l IH]; cbn [foldr].
  - split; [by intros [? ?]|by intros ?%elem_of_nil].
  - rewrite smap_get_insert, elem_of_cons, <-IH. case_bool_decide; [subst; split; [by left|by eexists]|].
    split; [by right|intros [->|?]; done].
Qed.
Lemma sort_strings_sorted l : StronglySorted (λ a b, str_lt a b = true) (sort_strings l).
Proof. unfold sort_strings. induction l as [|y l IH]; cbn [foldr]; [constructor|]. by apply insert_sorted. Qed.
(** Strictly sorted lists of the same strings are the same. *)
Lemma sorted_unique l l' :
  StronglySorted (λ a b, str_lt a b = true) l → StronglySorted (λ a b, str_lt a b = true) l' →
  (∀ x, x ∈ l ↔ x ∈ l') → l = l'.
Proof.
  revert l'. induction l as [|x l IH]; intros [|y l'] H H' E; [done|..].
  - exfalso. apply (not_elem_of_nil y), E. by left.
  - exfalso. apply (not_elem_of_nil x), E. by left.
  - apply StronglySorted_inv in H as [H Hx], H' as [H' Hy]. rewrite Forall_forall in Hx, Hy.
    assert (Hlt : ∀ a b, str_lt a b = true → str_lt b a = true → False).
    { intros a b H1 H2. pose proof (str_lt_trans _ _ _ H1 H2) as H3. by rewrite str_lt_irrefl in H3. }
    assert (x = y) as ->.
    { destruct (proj1 (elem_of_cons _ _ _) (proj1 (E x) (list_elem_of_here _ _))) as [|Hin]; [done|].
      destruct (proj1 (elem_of_cons _ _ _) (proj2 (E y) (list_elem_of_here _ _))) as [|Hin']; [done|].
      exfalso. apply (Hlt x y); auto. }
    f_equal. apply IH; [done..|]. intros z. specialize (E z). rewrite !elem_of_cons in E. split; intros Hz.
    + destruct (proj1 E) as [->|]; [by right| |done]. exfalso. by eapply Hlt; apply Hx.
    + destruct (proj2 E) as [->|]; [by right| |done]. exfalso. by eapply Hlt; apply Hy.
Qed.

(** ** The projects' files *)

Lemma project_document_inv d name :
  container_project_of d = Some name → d = container_project_document name ∧ is_project_name name = true.
Proof.
  intros H. unfold container_project_of in H. apply bind_Some in H as (r & E1%strip_prefix_spec & H).
  apply bind_Some in H as (r' & E2%strip_prefix_spec & H). apply bind_Some in H as (n & E3%strip_suffix_spec & H).
  destruct (is_project_name n) eqn:En; [|done]. simplify_eq. by subst.
Qed.
Lemma project_file_name name : is_project_name name = true →
  contains_byte "/" (name +:+ CONTAINER_PROJECT_SUFFIX) = false ∧ valid_utf8 (str_bytes (name +:+ CONTAINER_PROJECT_SUFFIX)) = true.
Proof.
  intros H. unfold is_project_name in H. bools. split.
  - rewrite contains_byte_app. apply orb_false_intro; [|done]. by eapply all_bytes_not_contains.
  - apply (all_ascii (λ c, byte_val c <? 128)); [intros c; apply Z.ltb_lt|]. rewrite all_bytes_app. apply andb_true_intro. split; [|done].
    eapply all_bytes_impl; [|eassumption]. intros c. destruct c as [[] [] [] [] [] [] [] []]; vm_compute; by intuition.
Qed.

Section listing.
Context (st : StoreAt).

Lemma document_path file : config_file st (CONTAINER_PROJECTS_DIR +:+ "/" +:+ file) = projects_dir st +:+ "/" +:+ file.
Proof. unfold projects_dir, config_file. by rewrite !append_assoc. Qed.
Lemma project_path name : config_file st (container_project_document name) = projects_dir st +:+ "/" +:+ (name +:+ CONTAINER_PROJECT_SUFFIX).
Proof. apply document_path. Qed.

Lemma project_entries_in t name document :
  (name, document) ∈ project_entries (names_in (projects_dir st) t) ↔
    document = container_project_document name ∧ is_project_name name = true ∧ is_Some (t !! config_file st document).
Proof.
  unfold project_entries, names_in. rewrite list_elem_of_omap. split.
  - intros (file & ([p n] & Hin & Hf)%list_elem_of_omap & Hd). cbn [fst] in Hf.
    destruct (rsplit_once "/" p) as [[dir f]|] eqn:E; [|done]. case_bool_decide; [|done]. simplify_eq.
    apply rsplit_once_spec in E as [-> _]. destruct (valid_utf8 (str_bytes file)); [|done].
    apply bind_Some in Hd as (m & Hm & [= -> <-]). destruct (project_document_inv _ _ Hm) as [E Hn].
    split; [done|]. split; [done|]. apply elem_of_map_to_list in Hin. exists n. rewrite document_path. exact Hin.
  - intros (-> & Hn & [n Hin]). destruct (project_file_name name Hn) as [Hs Hu].
    exists (name +:+ CONTAINER_PROJECT_SUFFIX). split.
    + apply list_elem_of_omap. exists (config_file st (container_project_document name), n).
      split; [by apply elem_of_map_to_list|]. cbn [fst]. rewrite project_path.
      assert (rsplit_once "/" (projects_dir st +:+ "/" +:+ (name +:+ CONTAINER_PROJECT_SUFFIX))
        = Some (projects_dir st, name +:+ CONTAINER_PROJECT_SUFFIX)) as -> by by apply rsplit_once_spec.
      by rewrite bool_decide_eq_true_2.
    + rewrite Hu. change (CONTAINER_PROJECTS_DIR +:+ "/" +:+ (name +:+ CONTAINER_PROJECT_SUFFIX)) with (container_project_document name).
      by rewrite project_document_name.
Qed.

(** The projects a directory lists, in the loader's order. *)
Definition listed (t : tree) : list string := sort_strings (map fst (project_entries (names_in (projects_dir st) t))).
Lemma elem_of_listed t name :
  name ∈ listed t ↔ is_project_name name = true ∧ is_Some (t !! config_file st (container_project_document name)).
Proof.
  unfold listed. rewrite elem_of_sort_strings, list_elem_of_fmap. split.
  - intros ([m d] & -> & Hin). by apply project_entries_in in Hin as (-> & Hn & Hi).
  - intros [Hn Hi]. exists (name, container_project_document name). split; [done|]. by apply project_entries_in.
Qed.
Lemma listed_same t t' :
  (∀ name, is_project_name name = true → t !! config_file st (container_project_document name) = t' !! config_file st (container_project_document name)) →
  listed t = listed t'.
Proof.
  intros H. apply sorted_unique; [apply sort_strings_sorted..|]. intros x. rewrite !elem_of_listed.
  split; intros [Hn Hi]; (split; [done|]); [rewrite <-H by done|rewrite H by done]; done.
Qed.
End listing.

(** ** Reading *)

Lemma same_read_optional p w1 w2 :
  faults w1 = [] → faults w2 = [] → seen w1 !! p = seen w2 !! p → same (sio (read_optional p)) w1 w2.
Proof.
  intros F1 F2 E. apply same_io; [done..| | |].
  - intros a d. destruct (seen w1 !! p) as [[c| |]|]; try destruct (valid_utf8 c); by intros [= _ ->].
  - rewrite E. destruct (seen w2 !! p) as [[c| |]|]; try destruct (valid_utf8 c); done.
  - intros a d. destruct (seen w2 !! p) as [[c| |]|]; try destruct (valid_utf8 c); by intros [= _ ->].
Qed.
Lemma same_read_to_string p w1 w2 :
  faults w1 = [] → faults w2 = [] → seen w1 !! p = seen w2 !! p → same (sio (read_to_string p)) w1 w2.
Proof.
  intros F1 F2 E. apply same_io; [done..| | |].
  - intros a d. destruct (seen w1 !! p) as [[c| |]|]; try destruct (valid_utf8 c); by intros [= _ ->].
  - rewrite E. destruct (seen w2 !! p) as [[c| |]|]; try destruct (valid_utf8 c); done.
  - intros a d. destruct (seen w2 !! p) as [[c| |]|]; try destruct (valid_utf8 c); by intros [= _ ->].
Qed.
Lemma answers_read_dir dir w : faults w = [] →
  answers (sio (read_dir dir)) w
    (match seen w !! dir with
     | None => inr None
     | Some Directory => inr (Some (names_in dir (seen w)))
     | Some _ => inl (Io (Msg "I/O error"))
     end).
Proof.
  intros F. destruct (seen w !! dir) as [[]|] eqn:E;
    first [apply answers_sio, answers_io; [done|by rewrite E]|apply answers_io_none; [done|by rewrite E]].
Qed.
Lemma answers_is_dir dir w : faults w = [] → answers (is_dir dir) w (match seen w !! dir with Some Directory => true | _ => false end).
Proof.
  intros F. unfold answers, is_dir, io. cbn [o_result o_state]. rewrite F. by split.
Qed.

Section reading.
Context `{FM : Formats} (st : StoreAt).

Lemma same_read_document {T} `{Serial T} (d : T) path document format w1 w2 :
  faults w1 = [] → faults w2 = [] → seen w1 !! path = seen w2 !! path → same (read_document d path document format) w1 w2.
Proof. intros. apply same_then; [by apply same_read_optional|]. intros a _. apply same_ret. Qed.
Lemma same_read_config {T} `{Serial T} (d : T) document refusals w1 w2 :
  faults w1 = [] → faults w2 = [] → seen w1 !! config_file st document = seen w2 !! config_file st document →
  same (read_config st d document refusals) w1 w2.
Proof. intros. apply same_bind; [by apply same_read_document|]. intros a _. apply same_ret. Qed.
Lemma same_read_files files projects refusals w1 w2 :
  faults w1 = [] → faults w2 = [] →
  Forall (λ name, seen w1 !! config_file st (container_project_document name) = seen w2 !! config_file st (container_project_document name)) files →
  same (read_files st files projects refusals) w1 w2.
Proof.
  intros F1 F2. revert projects. induction files as [|name files IH]; intros projects H; [apply same_ret|].
  apply Forall_cons in H as [Hn H]. cbn [read_files]. apply same_bind; [by apply same_read_to_string|]. intros read _.
  destruct read as [e|text]; cbn [then_do]; [destruct refusals; apply same_ret|].
  destruct (MAX_CONTAINER_PROJECT_BYTES <? str_len text); [destruct refusals; apply same_ret|]. by apply IH.
Qed.

(** Trees that hold the same documents; an empty projects' directory holds none. *)
Record agree (t t' : tree) : Prop := {
  ag_documents d : known_document d = true → t !! target (st_path st) (st_config st) d = t' !! target (st_path st) (st_config st) d;
  ag_projects : t !! projects_dir st = t' !! projects_dir st
    ∨ t !! projects_dir st = Some Directory ∧ t' !! projects_dir st = None
      ∧ ∀ name, is_project_name name = true → t' !! config_file st (container_project_document name) = None;
}.

Lemma config_target document : document ≠ STATE_DOCUMENT → target (st_path st) (st_config st) document = config_file st document.
Proof. intros H. unfold target. by rewrite bool_decide_eq_false_2. Qed.
Lemma config_known document : document ∈ CONFIG_DOCUMENTS → known_document document = true ∧ document ≠ STATE_DOCUMENT.
Proof.
  intros H. split.
  - unfold known_document. by rewrite (bool_decide_eq_true_2 _ H), orb_true_r.
  - intros ->. unfold CONFIG_DOCUMENTS in H. repeat (apply elem_of_cons in H as [H|H]; [discriminate H|]). by apply elem_of_nil in H.
Qed.
Lemma project_known name : is_project_name name = true →
  known_document (container_project_document name) = true ∧ container_project_document name ≠ STATE_DOCUMENT
  ∧ container_project_document name ∉ CONFIG_DOCUMENTS.
Proof.
  intros Hn. split; [|split].
  - unfold known_document. rewrite project_document_name by done. by rewrite (bool_decide_eq_true_2 (is_Some _)), orb_true_r by done.
  - intros E. pose proof (project_document_name name Hn) as H. by rewrite E in H.
  - intros H. apply project_document_name in Hn. assert (Hall : Forall (λ d, container_project_of d = None) CONFIG_DOCUMENTS) by by repeat constructor.
    rewrite Forall_forall in Hall. by rewrite (Hall _ H) in Hn.
Qed.
Lemma agree_config t t' document : agree t t' → document ∈ CONFIG_DOCUMENTS → t !! config_file st document = t' !! config_file st document.
Proof. intros [H _] [Hk Hs]%config_known. specialize (H _ Hk). by rewrite config_target in H. Qed.
Lemma agree_project t t' name : agree t t' → is_project_name name = true →
  t !! config_file st (container_project_document name) = t' !! config_file st (container_project_document name).
Proof. intros [H _] (Hk & Hs & _)%project_known. specialize (H _ Hk). by rewrite config_target in H. Qed.

Lemma same_read_projects refusals w1 w2 :
  faults w1 = [] → faults w2 = [] → agree (seen w1) (seen w2) → same (read_projects st refusals) w1 w2.
Proof.
  intros F1 F2 A. pose proof (answers_read_dir (projects_dir st) w1 F1) as A1. pose proof (answers_read_dir (projects_dir st) w2 F2) as A2.
  assert (Hl : listed st (seen w1) = listed st (seen w2)) by (apply listed_same; intros; by apply agree_project).
  assert (Hf : Forall (λ name, seen w1 !! config_file st (container_project_document name) = seen w2 !! config_file st (container_project_document name))
    (listed st (seen w1))).
  { apply Forall_forall. intros name [Hn _]%elem_of_listed. by apply agree_project. }
  unfold read_projects. destruct (ag_projects _ _ A) as [E|(E1 & E2 & E3)].
  - rewrite E in A1. destruct (seen w2 !! projects_dir st) as [[]|].
    + exists (inl (Io (Msg "I/O error"))). by split; apply answers_fail.
    + destruct (same_read_files (listed st (seen w1)) [] refusals w1 w2 F1 F2 Hf) as (a & H1 & H2). exists a.
      split; (eapply answers_then; [eassumption|]; cbn beta iota); [exact H1|].
      change (sort_strings _) with (listed st (seen w2)). by rewrite <-Hl.
    + exists (inl (Io (Msg "I/O error"))). by split; apply answers_fail.
    + exists (inr ([], refusals)). by split; (eapply answers_then; [eassumption|]).
  - rewrite E1 in A1. rewrite E2 in A2. exists (inr ([], refusals)).
    split; (eapply answers_then; [eassumption|]; cbn beta iota); [|done].
    change (sort_strings _) with (listed st (seen w1)). rewrite Hl.
    assert (listed st (seen w2) = []) as ->; [|done]. destruct (listed st (seen w2)) as [|x l] eqn:El; [done|].
    assert (Hx : x ∈ listed st (seen w2)) by (rewrite El; by left). apply elem_of_listed in Hx as [Hn [n Hx]]. by rewrite E3 in Hx.
Qed.

Lemma same_read_documents refusals w1 w2 :
  faults w1 = [] → faults w2 = [] → agree (seen w1) (seen w2) → same (read_documents st refusals) w1 w2.
Proof.
  intros F1 F2 A. unfold read_documents.
  repeat (apply same_then;
    [first [apply same_read_config; [done..|]; apply agree_config; [done|]; unfold CONFIG_DOCUMENTS; set_solver
           |by apply same_read_projects]|intros [? ?] _]).
  apply same_then; [apply same_read_document; [done..|]|intros; apply same_ret].
  by apply (ag_documents _ _ A STATE_DOCUMENT).
Qed.

(** ** Reading what was rendered *)

(** What [serde] and the document's own version field give back of [x]. *)
Definition round_trips {T} `{Serial T} (format : Format) (x : T) : Prop := ∀ text, format_render format x = Ok text →
  rust_text (Some text) = true
  ∧ ∃ v, format_parse format text = Ok v ∧ (∀ document, declared_version v document = inr SCHEMA_VERSION) ∧ of_value v = Ok x.

(** The node at the path is the rendered document. *)
Definition holds {T} `{Serial T} (t : tree) (path : string) (format : Format) (x : T) : Prop :=
  ∃ text, format_render format x = Ok text ∧ t !! path = Some (Regular (str_bytes text)).

Lemma read_file w p text : faults w = [] → seen w !! p = Some (Regular (str_bytes text)) → rust_text (Some text) = true →
  answers (sio (read_optional p)) w (inr (Some text)).
Proof.
  intros F E Hu. apply answers_sio, answers_io; [done|]. rewrite E. unfold rust_text in Hu. cbn [from_option] in Hu.
  by rewrite Hu, str_bytes_str.
Qed.
Lemma read_document_at {T} `{Serial T} (d x : T) path document format w :
  faults w = [] → holds (seen w) path format x → round_trips format x →
  answers (read_document d path document format) w (inr x).
Proof.
  intros F (text & Er & En) Hx. destruct (Hx text Er) as (Hu & v & Ep & Ev & Eo).
  eapply answers_then; [by eapply read_file|]. cbn beta iota. unfold parse_document. rewrite Ep. cbn [then_do].
  rewrite Ev. cbn [then_do]. rewrite Z.eqb_refl, Eo. apply answers_ret.
Qed.
Lemma read_config_at {T} `{Serial T} (d x : T) document refusals w :
  faults w = [] → holds (seen w) (config_file st document) Json x → round_trips Json x →
  answers (read_config st d document refusals) w (inr (x, refusals)).
Proof. intros F Hh Hx. eapply answers_bind; [by apply read_document_at|]. apply answers_ret. Qed.

Lemma insert_last {A} k (a : A) m : keys_sorted (m ++ [(k, a)]) → smap_insert k a m = m ++ [(k, a)].
Proof.
  unfold keys_sorted. induction m as [|[k' b] m IH]; cbn [smap_insert app map fst]; [done|]. intros H.
  apply StronglySorted_inv in H as [H Hk]. rewrite map_app in Hk. apply Forall_app in Hk as [_ Hk].
  apply Forall_cons in Hk as [Hk _]. cbn [fst] in Hk.
  assert (str_cmp k k' = Gt) as ->; [|by rewrite IH].
  unfold str_lt in Hk. rewrite str_cmp_antisym. by destruct (str_cmp k' k).
Qed.
Lemma read_files_at l acc refusals w : faults w = [] → keys_sorted (acc ++ l) →
  Forall (λ e, seen w !! config_file st (container_project_document e.1) = Some (Regular (str_bytes e.2))
               ∧ valid_utf8 (str_bytes e.2) = true ∧ str_len e.2 ≤ MAX_CONTAINER_PROJECT_BYTES) l →
  answers (read_files st (map fst l) acc refusals) w (inr (acc ++ l, refusals)).
Proof.
  intros F. revert acc. induction l as [|[name text] l IH]; intros acc Hs Hl; [by rewrite app_nil_r|].
  apply Forall_cons in Hl as [(En & Hu & Hlen) Hl]. cbn [map fst snd read_files] in *.
  eapply answers_bind with (a := inr text).
  - apply answers_sio, answers_io; [done|]. by rewrite En, Hu, str_bytes_str.
  - cbn [then_do]. rewrite (proj2 (Z.ltb_ge _ _) Hlen). change ((name, text) :: l) with ([(name, text)] ++ l).
    rewrite app_assoc. rewrite insert_last.
    + apply IH; [|done]. by rewrite <-app_assoc.
    + unfold keys_sorted in *. rewrite map_app in *. change (map fst ((name, text) :: l)) with ([name] ++ map fst l) in Hs.
      rewrite app_assoc in Hs. by apply StronglySorted_app_1_l in Hs.
Qed.

(** The tree the documents of [s] leave: each document as it is rendered, and
    of the projects' files exactly those of [s]. *)
Record held (s : Settings) (t : tree) : Prop := {
  he_documents : Forall (λ e, ∃ text, e.2 = Ok text ∧ t !! target (st_path st) (st_config st) e.1 = node_of (Some text))
    (rendered (documents_of s));
  he_projects name : is_project_name name = true →
    t !! config_file st (container_project_document name) = node_of (smap_get name (ct_projects (s_container s)));
  he_dir : t !! projects_dir st = Some Directory ∨ t !! projects_dir st = None ∧ ct_projects (s_container s) = [];
}.

(** A tree whose documents [serde] reads back. *)
Record storable (s : Settings) : Prop := {
  so_system : round_trips Json (d_system (documents_of s));
  so_network : round_trips Json (d_network (documents_of s));
  so_dns : round_trips Json (d_dns (documents_of s));
  so_wifi : round_trips Json (d_wifi (documents_of s));
  so_ssh : round_trips Json (d_ssh (documents_of s));
  so_mqtt : round_trips Json (d_mqtt (documents_of s));
  so_time : round_trips Json (d_time (documents_of s));
  so_container : round_trips Json (d_container (documents_of s));
  so_bluetooth : round_trips Json (d_bluetooth (documents_of s));
  so_services : round_trips Json (d_services (documents_of s));
  so_state : round_trips Toml (d_state (documents_of s));
  so_sorted : keys_sorted (ct_projects (s_container s));
  so_projects : Forall (λ e, is_project_name e.1 = true ∧ rust_text (Some e.2) = true ∧ str_len e.2 ≤ MAX_CONTAINER_PROJECT_BYTES)
    (ct_projects (s_container s));
}.

Lemma held_document {T} `{Serial T} s t name format (x : T) :
  held s t → (name, format_render format x) ∈ rendered (documents_of s) → holds t (target (st_path st) (st_config st) name) format x.
Proof.
  intros [Hd _ _] Hin. rewrite Forall_forall in Hd. destruct (Hd _ Hin) as (text & E & En). by exists text.
Qed.
Lemma smap_get_of_in {A} k (a : A) m : keys_sorted m → (k, a) ∈ m → smap_get k m = Some a.
Proof.
  unfold keys_sorted. induction m as [|[k' b] m IH]; intros Hs Hin; [by apply elem_of_nil in Hin|]. cbn [map fst] in Hs.
  apply StronglySorted_inv in Hs as [Hs Hk]. cbn [smap_get]. apply elem_of_cons in Hin as [[= -> ->]|Hin]; [by rewrite bool_decide_eq_true_2|].
  rewrite bool_decide_eq_false_2; [by apply IH|]. intros E. subst k'. rewrite Forall_forall in Hk.
  assert (Hl : str_lt k k = true); [|by rewrite str_lt_irrefl in Hl]. apply Hk, list_elem_of_fmap. by exists (k, a).
Qed.
Lemma held_listed s t : storable s → held s t → listed st t = map fst (ct_projects (s_container s)).
Proof.
  intros [] Hh. apply sorted_unique; [apply sort_strings_sorted|done|]. intros x. rewrite elem_of_listed, <-smap_get_some. split.
  - intros [Hn Hx]. rewrite (he_projects _ _ Hh x Hn) in Hx. destruct (smap_get x (ct_projects (s_container s))) as [text|]; [by exists text|by destruct Hx].
  - intros Hx. assert (Hn : is_project_name x = true).
    { apply smap_get_some, list_elem_of_fmap in Hx as ([y text] & -> & Hin). rewrite Forall_forall in so_projects0. by destruct (so_projects0 _ Hin). }
    split; [done|]. rewrite (he_projects _ _ Hh x Hn). by destruct Hx as [text ->].
Qed.

Lemma read_projects_at s refusals w : storable s → held s (seen w) → faults w = [] →
  answers (read_projects st refusals) w (inr (ct_projects (s_container s), refusals)).
Proof.
  intros Hs Hh F. pose proof (answers_read_dir (projects_dir st) w F) as A. unfold read_projects.
  destruct (he_dir _ _ Hh) as [E|[E E']].
  - rewrite E in A. eapply answers_then; [exact A|]. cbn beta iota. change (sort_strings _) with (listed st (seen w)).
    rewrite (held_listed s) by done. destruct Hs. apply (read_files_at (ct_projects (s_container s)) []); [done..|].
    apply Forall_forall. intros [name text] Hin. rewrite Forall_forall in so_projects0. destruct (so_projects0 _ Hin) as (Hn & Hu & Hl).
    cbn [fst snd] in *. split; [|done]. rewrite (he_projects _ _ Hh) by done. by rewrite (smap_get_of_in name text).
  - rewrite E in A. rewrite E'. eapply answers_then; [exact A|]. apply answers_ret.
Qed.
Lemma read_documents_at s refusals w : storable s → held s (seen w) → faults w = [] →
  answers (read_documents st refusals) w (inr {| ls_settings := s; ls_refusals := default [] refusals |}).
Proof.
  intros Hs Hh F. pose proof (read_projects_at s refusals w Hs Hh F) as Hp.
  assert (Hin : ∀ {T} {ST : Serial T} name (x : T), name ∈ CONFIG_DOCUMENTS → round_trips Json x →
    (name, format_render Json x) ∈ rendered (documents_of s) → ∀ d, answers (read_config st d name refusals) w (inr (x, refusals))).
  { intros T ST name x Hn Hx Hin d. apply read_config_at; [done| |done]. rewrite <-config_target by by apply config_known. by eapply held_document. }
  pose proof (compose_of s) as Hc. destruct Hs. unfold read_documents. cbv zeta.
  repeat (eapply answers_then; [first [exact Hp|eapply Hin; [|eassumption|]; [unfold CONFIG_DOCUMENTS|unfold rendered]; set_solver]|cbn beta iota]).
  eapply answers_then; [apply read_document_at; [done| |exact so_state0]|].
  - change (st_path st) with (target (st_path st) (st_config st) STATE_DOCUMENT). eapply held_document; [exact Hh|]. unfold rendered. set_solver.
  - cbn beta iota. exact (eq_ind _ (λ s', answers _ w (inr {| ls_settings := s'; ls_refusals := _ |})) (answers_ret _ w) _ Hc).
Qed.

End reading.

(** ** Saving *)

(** [safe] for a step that may answer with a settings error. *)
Definition tries {A} (o : outcome Disk (sresult A)) (Q : A → Disk → Prop) (C : Disk → Prop) : Prop :=
  safe o (λ r d, match r with inr a => Q a d | inl _ => C d end) C.
Lemma tries_then {A B} (m : S A) (k : A → S B) w Q R C :
  tries (m w) R C → (∀ a d, R a d → tries (k a d) Q C) → tries (sthen m k w) Q C.
Proof.
  intros Hm Hk. eapply safe_step; [exact Hm|done|]. intros [e|a] d Hd; [by apply safe_ret|by apply Hk].
Qed.
Lemma tries_sio {A} (m : M Disk A) w Q C : safe (m w) Q C → tries (sio m w) Q C.
Proof.
  intros (H1 & H2 & H3). split; [|by split]. intros r [= <-]. cbn [sio o_state]. destruct (o_result (m w)) as [a|e]; [by apply H1|done].
Qed.
Lemma tries_ret {A} (r : sresult A) w (Q : A → Disk → Prop) (C : Disk → Prop) :
  C w → (∀ a, r = inr a → Q a w) → tries (sret r w) Q C.
Proof. intros HC HQ. apply safe_ret; [done|]. destruct r; [done|by apply HQ]. Qed.

Section saving.
Context `{FM : Formats} `{JC : JournalCodec} {JL : JournalLaws} (st : StoreAt).
Notation target := (target (st_path st) (st_config st)).
Notation path_of name := (config_file st (container_project_document name)).

(** Where the store's directories are. *)
Record placed : Prop := {
  at_layout : layout (st_path st) (st_config st);
  at_config : other (st_path st) (st_config st) (st_config st);
  at_projects : other (st_path st) (st_config st) (projects_dir st);
  at_parent : parent_dir (projects_dir st) = st_config st;
}.
(** A store at rest: its directory is there, and project files only in theirs. *)
Record ready (old : tree) : Prop := {
  rd_config : old !! st_config st = Some Directory;
  rd_resting : resting (st_path st) (st_config st) old;
  rd_dir : old !! projects_dir st = Some Directory ∨ old !! projects_dir st = None;
  rd_projects : old !! projects_dir st ≠ Some Directory → ∀ name, is_project_name name = true → old !! path_of name = None;
}.
Context (P : placed) (old : tree) (R : ready old).

(** The tree as it is, or with the projects' directory made. *)
Definition made (t : tree) : Prop := t = old ∨ old !! projects_dir st = None ∧ t = <[projects_dir st := Directory]> old.
Definition undone (w : Disk) : Prop := ∀ t, cut w t → made t.
(** Nothing has changed yet; [quiet]: and no I/O call fails. *)
Definition idle (quiet : Prop) (t : tree) (w : Disk) : Prop := ∃ fs, w = at_rest t fs ∧ (quiet → fs = []).

Lemma cut_rest t fs t' : cut (at_rest t fs) t' → t' = t.
Proof. intros H. apply map_eq. intros p. by destruct (H p) as [E|[E|[?%elem_of_empty _]]]. Qed.
Lemma idle_undone q t w : made t → idle q t w → undone w.
Proof. intros Ht (fs & -> & _) t' ->%cut_rest. done. Qed.

(** A call that leaves the disk as it is. *)
Lemma idle_io {A} (f : Disk → option (A * Disk)) q t w (Q : A → Prop) :
  idle q t w → (∀ fs a d, f (at_rest t fs) = Some (a, d) → d = at_rest t fs ∧ Q a) →
  safe (io f w) (λ a d, idle q t d ∧ Q a) (idle q t).
Proof.
  intros (fs0 & -> & Hq) Hf.
  assert (Hs : safe (io f (at_rest t fs0)) (λ a d, ∃ fs, d = at_rest t fs ∧ Q a) (λ d, ∃ fs, d = at_rest t fs)).
  { apply io_safe; [intros fs; by exists fs|]. intros fs a d Hd. apply (Hf fs) in Hd as [-> Ha]. split; by exists fs. }
  destruct fs0 as [|x fs0].
  - split; [|split].
    + intros a Ha. destruct Hs as [H _]. destruct (H a Ha) as (fs & _ & Hqa). split; [|done].
      exists []. split; [|done]. unfold io in *. cbn in *. destruct (f (at_rest t [])) as [[b d]|] eqn:E; [|done].
      by apply Hf in E as [-> _].
    + exists []. split; [|done]. unfold io. cbn. destruct (f (at_rest t [])) as [[b d]|] eqn:E; [|done]. by apply Hf in E as [-> _].
    + intros d Hd. exists []. split; [|done]. unfold io in Hd. cbn in Hd. destruct (f (at_rest t [])) as [[b d']|] eqn:E; [|done].
      apply Hf in E as [-> _]. by destruct Hd.
  - assert (Hn : ¬ q) by (intros H; by apply Hq in H). eapply safe_mono; [exact Hs|..].
    + intros a d (fs & -> & Ha). split; [|done]. by exists fs.
    + intros d (fs & ->). by exists fs.
Qed.
(** The same for calls whose failure is an answer. *)
Lemma idle_test (f : Disk → bool) q t w :
  idle q t w → (∀ fs, f (at_rest t fs) = f (at_rest t [])) →
  safe ((λ d, let o := io (λ d, Some (f d, d)) d in
              Outcome (Ok (match o_result o with Ok b => b | Err _ => false end)) (o_state o) (o_crash o)) w)
    (λ b d, idle q t d ∧ (b = true → f (at_rest t []) = true) ∧ (q → b = f (at_rest t []))) (idle q t).
Proof.
  intros Hw Hf. destruct (idle_io (λ d, Some (f d, d)) q t w (λ b, b = f (at_rest t [])) Hw) as (H1 & H2 & H3).
  { intros fs a d [= <- <-]. split; [done|apply Hf]. }
  split; [|by split]. cbn [o_result o_state]. intros b [= <-].
  split; [done|]. destruct (o_result _) as [b|e] eqn:E; [by destruct (H1 b eq_refl) as [_ ->]|]. split; [done|].
  intros Hq. destruct Hw as (fs & -> & Hfs). rewrite (Hfs Hq) in E. done.
Qed.
Definition dir_at (t : tree) (dir : string) : bool := match t !! dir with Some Directory => true | _ => false end.
Lemma dir_at_true t dir : dir_at t dir = true ↔ t !! dir = Some Directory.
Proof. unfold dir_at. by destruct (t !! dir) as [[]|]. Qed.
Lemma idle_is_dir dir q t w : idle q t w →
  safe (is_dir dir w) (λ b d, idle q t d ∧ (b = true → dir_at t dir = true) ∧ (q → b = dir_at t dir)) (idle q t).
Proof. intros Hw. by apply (idle_test (λ d, dir_at (seen d) dir) q t w Hw). Qed.
Lemma idle_exists p q t w : idle q t w →
  safe (exists_ p w) (λ b d, idle q t d ∧ (b = true → is_Some (t !! p)) ∧ (q → b = bool_decide (is_Some (t !! p)))) (idle q t).
Proof.
  intros Hw. eapply safe_mono; [apply (idle_test (λ d, bool_decide (is_Some (seen d !! p))) q t w Hw); done| |done].
  intros b d (H1 & H2 & H3). cbn [seen at_rest] in *. split; [done|]. split; [|done]. intros Hb. apply H2 in Hb. by apply bool_decide_eq_true in Hb.
Qed.

Lemma idle_recover q t w : idle q t w → t !! journal (st_path st) = None →
  safe (recover (st_path st) (st_config st) w) (λ _, idle q t) (idle q t).
Proof.
  intros Hw Hj. unfold recover. eapply safe_step with (C' := idle q t) (R := λ text d, idle q t d ∧ text = None); [|done|].
  - apply idle_io; [done|]. intros fs a d. cbn [seen at_rest]. rewrite Hj. by intros [= <- <-].
  - intros text d [Hd ->]. by apply safe_ret.
Qed.

(** *** What a save hands to the journal *)

(** The rendered documents that are written: all but the preserved ones. *)
Record picked (q : Prop) (l : list (string * result string)) (writes : list (string * option string)) : Prop := {
  pk_names : sublist writes.*1 l.*1;
  pk_text d x : (d, x) ∈ writes → ∃ text, x = Some text ∧ (d, Ok text) ∈ l;
  pk_all d r : (d, r) ∈ l → d ∈ st_preserve st ∨ ∃ text, r = Ok text ∧ (d, Some text) ∈ writes;
  pk_kept d : q → d ∈ st_preserve st → is_Some (old !! config_file st d) → d ∉ writes.*1;
}.

Lemma picked_nil q : picked q [] [].
Proof. split; [done|by intros d x ?%elem_of_nil..|]. intros d _ _ _. apply not_elem_of_nil. Qed.
Lemma picked_skip q d r l writes : d ∈ st_preserve st → picked q l writes → picked q ((d, r) :: l) writes.
Proof.
  intros Hd []. split; [by apply sublist_cons| | |done].
  - intros d' x (text & -> & H)%pk_text0. exists text. split; [done|by right].
  - intros d' r' [[= -> ->]|H]%elem_of_cons; [by left|by apply pk_all0].
Qed.
Lemma picked_take q d text l writes :
  (q → d ∈ st_preserve st → ¬ is_Some (old !! config_file st d)) → picked q l writes →
  picked q ((d, Ok text) :: l) ((d, Some text) :: writes).
Proof.
  intros Hd []. split.
  - by apply sublist_skip.
  - intros d' x [[= -> ->]|(t & -> & H)%pk_text0]%elem_of_cons; [exists text; split; [done|by left]|]. exists t. split; [done|by right].
  - intros d' r' [[= -> ->]|H]%elem_of_cons; [right; exists text; split; [done|by left]|].
    destruct (pk_all0 _ _ H) as [|(t & -> & ?)]; [by left|]. right. exists t. split; [done|by right].
  - intros d' Hq Hp Ho [->|H]%elem_of_cons; [by apply Hd|by apply (pk_kept0 d')].
Qed.

Lemma document_writes_tries q l w : idle q old w →
  tries (document_writes st l w) (λ writes d, idle q old d ∧ picked q l writes) (idle q old).
Proof.
  revert w. induction l as [|[name r] l IH]; intros w Hw; cbn [document_writes].
  { apply tries_ret; [done|]. intros a [= <-]. split; [done|apply picked_nil]. }
  eapply safe_step with (C' := idle q old)
    (R := λ kept d, idle q old d ∧ (kept = true → name ∈ st_preserve st)
      ∧ (kept = false → q → name ∈ st_preserve st → ¬ is_Some (old !! config_file st name))); [|done|].
  - case_bool_decide as Hp.
    + eapply safe_mono; [by apply (idle_exists _ q old w)| |done]. intros b d (H1 & H2 & H3). split; [done|]. split; [done|].
      intros -> Hq _ Hs. specialize (H3 Hq). by rewrite bool_decide_eq_true_2 in H3.
    + apply safe_ret; [done|]. split; [done|]. split; [done|]. by intros _ _ ?.
  - intros [|] d (Hd & H1 & H2).
    + eapply safe_mono; [by apply IH| |done]. intros [e|writes] d' H; [done|]. destruct H as [H Hk]. split; [done|].
      apply picked_skip; [by apply H1|done].
    + destruct r as [text|e]; [|by apply tries_ret]. eapply tries_then; [by apply IH|]. intros writes d' [Hd' Hk].
      apply tries_ret; [done|]. intros a [= <-]. split; [done|]. apply picked_take; [by apply H2|done].
Qed.

(** The documents of the projects that the tree no longer holds. *)
Definition stale (projects : smap string) : list string :=
  sort_strings (removed_projects projects (if dir_at old (projects_dir st) then names_in (projects_dir st) old else [])).
Lemma elem_of_stale projects d :
  d ∈ stale projects ↔ ∃ name, d = container_project_document name ∧ is_project_name name = true
    ∧ is_Some (old !! path_of name) ∧ smap_get name projects = None.
Proof.
  unfold stale. rewrite elem_of_sort_strings. unfold removed_projects. rewrite list_elem_of_omap. split.
  - intros ([name d'] & Hin & Hd). cbn [fst snd] in Hd. case_bool_decide as Hg; [|done]. injection Hd as ->.
    destruct (dir_at old (projects_dir st)); [|by apply elem_of_nil in Hin].
    apply project_entries_in in Hin as (-> & Hn & Hi). by exists name.
  - intros (name & -> & Hn & Hi & Hg). exists (name, container_project_document name). cbn [fst snd].
    rewrite bool_decide_eq_true_2 by done. split; [|done]. destruct (dir_at old (projects_dir st)) eqn:E.
    + by apply project_entries_in.
    + exfalso. destruct Hi as [n Hi]. rewrite (rd_projects _ R) in Hi; [done| |done]. intros H. apply dir_at_true in H. by rewrite H in E.
Qed.
Definition project_plan (projects : smap string) : list (string * option string) :=
  map (λ document, (document, None)) (stale projects) ++ map (λ e, (container_project_document e.1, Some e.2)) projects.

Lemma made_old : made old.
Proof. by left. Qed.
Hint Resolve made_old : core.

Lemma make_dir_tries q w : idle q old w →
  tries (sthen (sio (make_dir (projects_dir st))) (λ _, sio (sync_dir (st_config st))) w)
    (λ _ d, ∃ t, idle q t d ∧ made t ∧ t !! projects_dir st = Some Directory) undone.
Proof.
  intros (fs & -> & Hq). set (t := <[projects_dir st := Directory]> old).
  destruct (decide (old !! projects_dir st = None)) as [Hn|Hn].
  - assert (Ht : made t) by by right.
    assert (Hcut : ∀ fs', undone (with_seen t (at_rest old fs'))).
    { intros fs' t' Hcut. destruct (Hcut (projects_dir st)) as [E|[E|[?%elem_of_empty _]]]; [..|done]; cbn [seen kept with_seen at_rest] in E.
      - right. split; [done|]. apply map_eq. intros p. destruct (decide (p = projects_dir st)) as [->|Hp]; [done|].
        unfold t. rewrite lookup_insert_ne by done. destruct (Hcut p) as [->|[->|[?%elem_of_empty _]]]; [|done..].
        cbn [seen with_seen]. unfold t. by rewrite lookup_insert_ne.
      - left. apply map_eq. intros p. destruct (decide (p = projects_dir st)) as [->|Hp]; [done|].
        destruct (Hcut p) as [->|[->|[?%elem_of_empty _]]]; [|done..]. cbn [seen with_seen]. unfold t. by rewrite lookup_insert_ne. }
    assert (Hsync : synced (st_config st) t old = t).
    { apply map_eq. intros p. rewrite lookup_synced. case_bool_decide as Hp; [done|]. unfold t. rewrite lookup_insert_ne; [done|].
      intros <-. apply Hp, (at_parent P). }
    eapply tries_then with (R := λ _ d, ∃ fs', d = with_seen t (at_rest old fs') ∧ (q → fs' = [])).
    + apply tries_sio.
      assert (Hs : safe (make_dir (projects_dir st) (at_rest old fs))
        (λ _ d, ∃ fs', d = with_seen t (at_rest old fs')) undone).
      { apply io_safe; [intros fs'; apply (idle_undone False old); [done|]; by exists fs'|].
        intros fs' [] d. cbn [seen at_rest with_faults]. rewrite Hn. intros [= <-]. split; [by exists fs'|apply Hcut]. }
      destruct fs as [|x fs].
      * destruct Hs as (H1 & H2 & H3). split; [|by split]. intros a Ha. exists []. split; [|done]. unfold make_dir, io in *.
        cbn [faults at_rest seen] in *. by rewrite Hn in *.
      * eapply safe_mono; [exact Hs| |done]. intros _ d (fs' & ->). exists fs'. split; [done|]. intros H. by apply Hq in H.
    + intros _ d (fs' & -> & Hq'). apply tries_sio.
      assert (Hd : ∀ fs'', {| seen := t; kept := synced (st_config st) t old; loose := ∅; faults := fs'' |} = at_rest t fs'')
        by (intros; by rewrite Hsync).
      destruct fs' as [|x fs'].
      * split; [|split]; cbn [sync_dir io faults with_seen at_rest seen kept loose o_result o_state o_crash]; rewrite Hd.
        -- intros [] _. exists t. split; [by exists []|]. split; [done|apply lookup_insert_eq].
        -- apply (idle_undone False t); [done|]. by exists [].
        -- intros d [->| ->]; [apply Hcut|]. apply (idle_undone False t); [done|]. by exists [].
      * apply io_safe; [intros fs''; apply Hcut|]. intros fs'' a d [= _ <-]. cbn [with_faults with_seen at_rest seen kept loose faults].
        rewrite Hd. split; [|apply (idle_undone False t); [done|by exists fs'']]. exists t.
        split; [exists fs''; split; [done|intros H; by apply Hq' in H]|]. split; [done|apply lookup_insert_eq].
  - eapply tries_then with (R := λ _ _, False); [|done]. apply tries_sio. apply io_safe.
    + intros fs'. apply (idle_undone False old); [done|by exists fs'].
    + intros fs' a d. cbn [seen at_rest with_faults]. by destruct (old !! projects_dir st).
Qed.

Lemma ensure_projects_dir_tries q projects w : idle q old w →
  tries (ensure_projects_dir st projects w)
    (λ _ d, ∃ t, idle q t d ∧ made t ∧ (projects ≠ [] → t !! projects_dir st = Some Directory)) undone.
Proof.
  intros Hw. pose proof (idle_undone q old w made_old Hw) as Hu. unfold ensure_projects_dir.
  destruct projects as [|e projects]; [apply tries_ret; [done|]; intros [] _; by exists old|]. change (is_nil (e :: projects)) with false. cbn iota.
  eapply safe_step; [by apply (idle_is_dir _ q old w)|intros d; by apply idle_undone|].
  intros [|] d (Hd & Ht & _).
  - apply tries_ret; [by eapply idle_undone|]. intros [] _. exists old. split; [done|]. split; [done|]. intros _. by apply dir_at_true, Ht.
  - eapply safe_mono; [by apply (make_dir_tries q d)| |done]. intros [e'|[]] d' H; [done|]. destruct H as (t & H1 & H2 & H3). by exists t.
Qed.

Definition keeps_projects : bool := existsb (λ document, bool_decide (is_Some (container_project_of document))) (st_preserve st).

Lemma project_writes_tries q projects w : idle q old w →
  tries (project_writes st projects w)
    (λ writes d, ∃ t, idle q t d ∧ made t
       ∧ if keeps_projects then writes = [] else (projects ≠ [] → t !! projects_dir st = Some Directory) ∧ writes = project_plan projects)
    undone.
Proof.
  intros Hw. pose proof (idle_undone q old w made_old Hw) as Hu. unfold project_writes. fold keeps_projects.
  destruct keeps_projects; [apply tries_ret; [done|]; intros a [= <-]; by exists old|].
  eapply tries_then with (R := λ entries d, idle q old d ∧ default [] entries = if dir_at old (projects_dir st) then names_in (projects_dir st) old else []).
  - apply tries_sio. eapply safe_mono; [apply (idle_io _ q old w (λ entries, default [] entries = if dir_at old (projects_dir st) then names_in (projects_dir st) old else []) Hw)|done|intros d; by apply idle_undone].
    intros fs a d. cbn [seen at_rest]. unfold dir_at. destruct (old !! projects_dir st) as [[]|]; [done| |done|]; by intros [= <- <-].
  - intros entries d [Hd He]. eapply tries_then; [by apply (ensure_projects_dir_tries q projects d)|].
    intros _ d' (t & Hd' & Ht & Hdir). apply tries_ret; [by eapply idle_undone|]. intros writes [= <-].
    exists t. split; [done|]. split; [done|]. split; [done|]. by rewrite He.
Qed.

(** *** The whole save *)

(** What a save hands to the journal on the tree [t]. *)
Record handed (q : Prop) (s : Settings) (t : tree) (writes : list (string * option string)) : Prop := {
  hd_made : made t;
  hd_documents : ∃ l, picked q (rendered (documents_of s)) l
    ∧ writes = l ++ if keeps_projects then [] else project_plan (ct_projects (s_container s));
  hd_dir : keeps_projects = false → ct_projects (s_container s) ≠ [] → t !! projects_dir st = Some Directory;
}.

Lemma save_settings_tries q s w (C : Disk → Prop) Q :
  idle q old w → (∀ d, undone d → C d) →
  (∀ t fs writes, (q → fs = []) → handed q s t writes →
     safe (save (st_path st) (st_config st) writes (at_rest t fs)) Q C) →
  tries (save_settings st s w) Q C.
Proof.
  intros Hw HC Hsave.
  assert (HI : ∀ d, idle q old d → C d) by (intros d Hd; apply HC; by eapply idle_undone).
  assert (Hmono : ∀ {A} (o : outcome Disk (sresult A)) Q, tries o Q (idle q old) → tries o Q C).
  { intros A o Q' H. eapply safe_mono; [exact H| |done]. intros [e|a] d Hd; [by apply HI|done]. }
  unfold save_settings.
  eapply tries_then with (R := λ _, idle q old).
  { apply Hmono. unfold ensure_config_medium. eapply safe_step; [by apply (idle_is_dir _ q old w)|done|]. intros [|] d (Hd & _); by apply tries_ret. }
  intros _ w1 Hw1. eapply tries_then with (R := λ _, idle q old).
  { apply Hmono, tries_sio, idle_recover; [done|]. apply (rt_journal _ _ _ (rd_resting _ R)). }
  intros _ w2 Hw2. cbv zeta. eapply tries_then; [apply Hmono; by apply (document_writes_tries q)|].
  intros l w3 [Hw3 Hl]. cbn beta. eapply tries_then with (C := C).
  { eapply safe_mono; [apply (project_writes_tries q (d_projects (documents_of s)) w3 Hw3)| |done]. intros [e|a] d Hd; [by apply HC|exact Hd]. }
  intros writes w4 (t & (fs & -> & Hfs) & Ht & Hp). cbn beta. apply tries_sio, Hsave; [done|].
  change (d_projects (documents_of s)) with (ct_projects (s_container s)) in Hp.
  destruct keeps_projects eqn:Ek.
  - subst writes. split; [done|exists l; split; [done|by rewrite Ek]|by rewrite Ek].
  - destruct Hp as [Hdir ->]. split; [done|exists l; split; [done|by rewrite Ek]|by rewrite Ek].
Qed.

(** *** A sound set of documents *)

Definition DOCUMENTS : Z := 11.
(** The journal has room for every document and project file. *)
Definition room (s : Settings) : Prop :=
  DOCUMENTS + len (listed st old) + len (ct_projects (s_container s)) ≤ MAX_UNDO.

Lemma sort_strings_NoDup l : NoDup (sort_strings l).
Proof. apply keys_NoDup, sort_strings_sorted. Qed.
Lemma project_document_text name : is_project_name name = true → rust_text (Some (container_project_document name)) = true.
Proof.
  intros Hn. unfold is_project_name in Hn. bools. apply (all_ascii (λ c, byte_val c <? 128)); [intros c; apply Z.ltb_lt|].
  change (container_project_document name) with ("container/" +:+ (name +:+ ".yaml")). rewrite !all_bytes_app.
  apply andb_true_intro. split; [done|]. apply andb_true_intro. split; [|done].
  eapply all_bytes_impl; [|eassumption]. intros c. destruct c as [[] [] [] [] [] [] [] []]; vm_compute; by intuition.
Qed.
Lemma project_document_inj name name' : is_project_name name = true → is_project_name name' = true →
  container_project_document name = container_project_document name' → name = name'.
Proof. intros H1%project_document_name H2%project_document_name E. rewrite E in H1. congruence. Qed.

Lemma rendered_text s d text : storable s → (d, Ok text) ∈ rendered (documents_of s) →
  rust_text (Some d) = true ∧ rust_text (Some text) = true.
Proof.
  intros [] H. unfold rendered in H.
  repeat (apply elem_of_cons in H as [[= -> E]|H];
    [split; [by vm_compute|]; symmetry in E; match goal with Hr : round_trips _ ?x, E : format_render _ ?x = _ |- _ => by apply (Hr _ E) end|]).
  by apply elem_of_nil in H.
Qed.
Lemma rendered_names s : (rendered (documents_of s)).*1 = CONFIG_DOCUMENTS ++ [STATE_DOCUMENT].
Proof. done. Qed.
Lemma rendered_names_NoDup : NoDup (CONFIG_DOCUMENTS ++ [STATE_DOCUMENT]).
Proof. apply (bool_decide_unpack _). by vm_compute. Qed.
Lemma rendered_known d : d ∈ CONFIG_DOCUMENTS ++ [STATE_DOCUMENT] → known_document d = true ∧ container_project_of d = None.
Proof.
  assert (Hall : Forall (λ d, known_document d = true ∧ container_project_of d = None) (CONFIG_DOCUMENTS ++ [STATE_DOCUMENT]))
    by by repeat constructor.
  rewrite Forall_forall in Hall. apply Hall.
Qed.

Lemma plan_names projects d : Forall (λ e, is_project_name e.1 = true) projects → d ∈ (project_plan projects).*1 →
  ∃ name, d = container_project_document name ∧ is_project_name name = true.
Proof.
  intros Hp. unfold project_plan. rewrite fmap_app, elem_of_app, !list_elem_of_fmap. intros [(e & -> & He)|(e & -> & He)].
  - apply list_elem_of_fmap in He as (d & -> & (name & -> & Hn & _)%elem_of_stale). by exists name.
  - apply list_elem_of_fmap in He as (e' & -> & He'). rewrite Forall_forall in Hp. exists e'.1. split; [done|by apply Hp].
Qed.
Lemma plan_NoDup projects : keys_sorted projects → Forall (λ e, is_project_name e.1 = true) projects → NoDup (project_plan projects).*1.
Proof.
  intros Hs Hp. unfold project_plan. rewrite fmap_app. apply NoDup_app. rewrite <-!list_fmap_compose. split; [|split].
  - rewrite (list_fmap_ext _ id) by done. rewrite list_fmap_id. apply sort_strings_NoDup.
  - intros d Hd Hd'. apply list_elem_of_fmap in Hd as (d' & -> & (name & -> & Hn & _ & Hg)%elem_of_stale).
    apply list_elem_of_fmap in Hd' as (e & E & He). rewrite Forall_forall in Hp. apply project_document_inj in E; [|done|by apply Hp].
    subst name. apply eq_None_not_Some in Hg. apply Hg, smap_get_some, list_elem_of_fmap. by exists e.
  - apply (NoDup_fmap_2_strong _ projects); [|apply (NoDup_fmap_1 fst), keys_NoDup, Hs].
    intros e e' He He' E. cbn in E. rewrite Forall_forall in Hp. apply project_document_inj in E; [|by apply Hp..].
    destruct e as [k x], e' as [k' x']. cbn in E. subst k'. apply (smap_get_of_in _ _ _ Hs) in He, He'. congruence.
Qed.
Lemma stale_length projects : len (stale projects) ≤ len (listed st old).
Proof.
  assert (Hlen : (length (stale projects) ≤ length (container_project_document <$> listed st old))%nat).
  { apply submseteq_length, NoDup_submseteq; [apply sort_strings_NoDup|]. intros d (name & -> & Hn & Hi & _)%elem_of_stale.
    apply list_elem_of_fmap. exists name. split; [done|]. by apply elem_of_listed. }
  rewrite length_fmap in Hlen. unfold len. lia.
Qed.

Lemma storable_names s : storable s → Forall (λ e, is_project_name e.1 = true) (ct_projects (s_container s)).
Proof. intros []. eapply Forall_impl; [exact so_projects0|]. by intros e []. Qed.

Lemma plan_sound s : storable s → room s →
  sound_documents (project_plan (ct_projects (s_container s))) ∧ len (project_plan (ct_projects (s_container s))) + DOCUMENTS ≤ MAX_UNDO.
Proof.
  intros Hs Hr. pose proof (storable_names s Hs) as Hn. pose proof (stale_length (ct_projects (s_container s))) as Hl.
  assert (Hc : len (project_plan (ct_projects (s_container s))) + DOCUMENTS ≤ MAX_UNDO).
  { unfold room in Hr. unfold project_plan. rewrite len_app. unfold len in *. rewrite !length_map. lia. }
  split; [|done]. split.
  - apply plan_NoDup; [apply Hs|done].
  - apply Forall_forall. intros d (name & -> & H)%plan_names; [by apply project_known|done].
  - unfold DOCUMENTS in Hc. lia.
  - apply Forall_forall. intros [d x] Hin. cbn [fst snd]. split.
    + destruct (plan_names _ d Hn) as (name & -> & H); [apply list_elem_of_fmap; by exists (d, x)|by apply project_document_text].
    + unfold project_plan in Hin. apply elem_of_app in Hin as [(d' & [= -> ->] & _)%list_elem_of_fmap|(e & [= -> ->] & He)%list_elem_of_fmap]; [done|].
      destruct Hs. rewrite Forall_forall in so_projects0. by destruct (so_projects0 _ He) as (_ & ? & _).
Qed.
Lemma picked_sound q s l : storable s → picked q (rendered (documents_of s)) l → sound_documents l ∧ len l ≤ DOCUMENTS.
Proof.
  intros Hs [Hn Ht _ _]. rewrite rendered_names in Hn.
  assert (Hlen : len l ≤ DOCUMENTS).
  { apply sublist_length in Hn. rewrite length_fmap in Hn. unfold len, DOCUMENTS. cbn in Hn. lia. }
  split; [|done]. split.
  - eapply sublist_NoDup; [apply rendered_names_NoDup|exact Hn].
  - apply Forall_forall. intros d Hd. eapply elem_of_sublist in Hd; [|exact Hn]. by apply rendered_known.
  - unfold DOCUMENTS, MAX_UNDO in *. lia.
  - apply Forall_forall. intros [d x] Hin. destruct (Ht d x Hin) as (text & -> & H). by eapply rendered_text.
Qed.

Lemma handed_sound q s t writes : storable s → room s → handed q s t writes → sound_documents writes.
Proof.
  intros Hs Hr [_ (l & Hl & ->) _]. destruct (picked_sound q s l Hs Hl) as [[A1 A2 A3 A4] Al].
  destruct keeps_projects; [by rewrite app_nil_r|].
  destruct (plan_sound s Hs Hr) as [[B1 B2 B3 B4] Bl]. split.
  - rewrite fmap_app. apply NoDup_app. split; [done|]. split; [|done]. intros d Hd (name & -> & Hn)%plan_names; [|by apply storable_names].
    eapply elem_of_sublist in Hd; [|apply (pk_names _ _ _ Hl)]. rewrite rendered_names in Hd. apply rendered_known in Hd as [_ Hd].
    by rewrite project_document_name in Hd.
  - rewrite fmap_app. by apply Forall_app.
  - rewrite len_app. lia.
  - by apply Forall_app.
Qed.

(** *** What a power cut leaves *)

Notation resting := (resting (st_path st) (st_config st)).
Notation replaced := (replaced (st_path st) (st_config st)).
Notation unchanged := (unchanged (st_path st) (st_config st)).
Notation others_kept := (others_kept (st_path st) (st_config st)).

Lemma made_resting t : made t → resting t.
Proof.
  pose proof (rd_resting _ R) as H. destruct (at_projects P) as (Hs & Hj & _). intros [->|[_ ->]]; [done|]. destruct H as [H1 H2]. split.
  - by rewrite lookup_insert_ne by done.
  - intros p Hp. rewrite lookup_insert_ne; [by apply H2|]. by intros <-.
Qed.
Lemma made_agree t : made t → agree st t old.
Proof.
  destruct (at_projects P) as (_ & _ & Hd). intros [->|[Hn ->]]; (split; [|]).
  - done.
  - by left.
  - intros d Hk. rewrite lookup_insert_ne; [done|]. by apply Hd.
  - right. rewrite lookup_insert_eq. split; [done|]. split; [done|]. apply (rd_projects _ R). by rewrite Hn.
Qed.
Lemma made_config t : made t → t !! st_config st = Some Directory.
Proof.
  pose proof (rd_config _ R). intros [->|[_ ->]]; [done|]. destruct (decide (projects_dir st = st_config st)) as [->|Hne].
  - apply lookup_insert_eq.
  - by rewrite lookup_insert_ne.
Qed.
Lemma made_dir t : made t → t !! projects_dir st = Some Directory ∨ t !! projects_dir st = None.
Proof. intros [->|[_ ->]]; [apply (rd_dir _ R)|left; apply lookup_insert_eq]. Qed.

(** The documents as some made tree has them, or as the save meant them. *)
Definition settles (q : Prop) (s : Settings) (t : tree) : Prop :=
  (∃ t1, made t1 ∧ others_kept t1 t ∧ unchanged t1 t)
  ∨ ∃ t1 writes, handed q s t1 writes ∧ others_kept t1 t ∧ replaced t1 writes t.
(** A power cut leaves a tree whose recovery settles it. *)
Definition recovers (q : Prop) (s : Settings) (w : Disk) : Prop := ∀ t, cut w t →
  let o := recover (st_path st) (st_config st) (at_rest t []) in
  t !! st_config st = Some Directory ∧ o_result o = Ok tt ∧ faults (o_state o) = [] ∧ settles q s (seen (o_state o)).

Lemma undone_recovers q s w : undone w → recovers q s w.
Proof.
  intros Hu t Ht%Hu. cbv zeta. destruct (recover_idle (st_path st) (st_config st) t) as [E1 E2]; [apply (rt_journal _ _ _ (made_resting t Ht))|].
  rewrite E1, E2. split; [by apply made_config|]. split; [done|]. split; [done|]. left. exists t. by split.
Qed.

Lemma save_settings_safe q s fs : (q → fs = []) → storable s → room s →
  tries (save_settings st s (at_rest old fs))
    (λ _ w, ∀ t, cut w t → t !! st_config st = Some Directory ∧ t !! journal (st_path st) = None
       ∧ ∃ t1 writes, handed q s t1 writes ∧ others_kept t1 t ∧ replaced t1 writes t)
    (recovers q s).
Proof.
  intros Hq Hs Hr. apply save_settings_tries with (q := q); [by exists fs|intros d; apply undone_recovers|].
  intros t1 fs1 writes Hfs Hh. pose proof (handed_sound q s t1 writes Hs Hr Hh) as D.
  pose proof (made_resting t1 (hd_made _ _ _ _ Hh)) as T. pose proof (made_config t1 (hd_made _ _ _ _ Hh)) as Hc.
  eapply safe_mono.
  - apply (save_safe (st_path st) (st_config st) (at_layout P) t1 writes D T). by apply rest_slots.
  - intros [] w (pl & Hpl & Hw) t Hcut. destruct (saved_cut _ _ (at_layout P) t1 writes D T w t pl Hpl Hw Hcut) as (E & Ho & Hrep).
    split; [by rewrite (Ho _ (at_config P))|]. split; [done|]. by exists t1, writes.
  - intros w Hw t Hcut. destruct (kept_recovers _ _ (at_layout P) t1 writes D T w t Hw Hcut) as (E & Ef & _ & Ho & H).
    split; [|split; [done|split; [done|]]].
    + by rewrite (kept_others _ _ (at_layout P) t1 writes D T w t Hw Hcut _ (at_config P)).
    + destruct H as [H|H]; [left; exists t1; split; [apply Hh|done]|right; by exists t1, writes].
Qed.

(** What a save meant is what a load reads. *)
Lemma replaced_held q s t1 writes t :
  st_preserve st = [] → storable s → handed q s t1 writes → others_kept t1 t → replaced t1 writes t → held st s t.
Proof.
  intros Hp Hs [Hm (l & Hl & ->) Hdir] Ho [Hin Hout].
  assert (Hk : keeps_projects = false) by (unfold keeps_projects; by rewrite Hp).
  rewrite Hk in *. specialize (Hdir eq_refl). pose proof (storable_names s Hs) as Hn. split.
  - apply Forall_forall. intros [d r] Hd. cbn [fst snd]. destruct (pk_all _ _ _ Hl d r Hd) as [H|(text & -> & H)].
    { rewrite Hp in H. by apply elem_of_nil in H. }
    exists text. split; [done|]. apply Hin, elem_of_app. by left.
  - intros name Hname. destruct (project_known name Hname) as (Hkn & Hst & _). rewrite <-config_target by done.
    destruct (smap_get name (ct_projects (s_container s))) as [text|] eqn:Eg.
    { apply Hin, elem_of_app. right. apply elem_of_app. right. apply list_elem_of_fmap. exists (name, text).
      split; [done|]. by apply smap_get_in. }
    destruct (decide (is_Some (old !! path_of name))) as [Hi|Hi].
    { apply (Hin _ None), elem_of_app. right. apply elem_of_app. left. apply list_elem_of_fmap.
      exists (container_project_document name). split; [done|]. apply elem_of_stale. by exists name. }
    rewrite Hout; [|done|].
    + rewrite (ag_documents _ _ _ (made_agree t1 Hm)) by done. rewrite config_target by done. by apply eq_None_not_Some.
    + rewrite fmap_app, elem_of_app. intros [H|H].
      * eapply elem_of_sublist in H; [|apply (pk_names _ _ _ Hl)]. rewrite rendered_names in H. apply rendered_known in H as [_ H].
        by rewrite project_document_name in H.
      * unfold project_plan in H. rewrite fmap_app, elem_of_app, !list_elem_of_fmap in H. destruct H as [(e & E & He)|(e & E & He)].
        -- apply list_elem_of_fmap in He as (d & -> & (name' & -> & Hn' & Hi' & _)%elem_of_stale). cbn [fst] in E.
           apply project_document_inj in E; [|done..]. by subst.
        -- apply list_elem_of_fmap in He as (e' & -> & He'). cbn [fst] in E. rewrite Forall_forall in Hn.
           apply project_document_inj in E; [|done|by apply Hn]. subst name. apply eq_None_not_Some in Eg. apply Eg, smap_get_some, list_elem_of_fmap. by exists e'.
  - rewrite (Ho _ (at_projects P)). destruct (ct_projects (s_container s)) as [|e l'] eqn:Ec; [|left; by apply Hdir].
    destruct (made_dir t1 Hm) as [->| ->]; [by left|by right].
Qed.

(** *** What a load answers *)

Definition loaded (t : tree) : result (sresult Settings) := o_result (load st (at_rest t [])).

Lemma sthen_eq {A B} (m m' : S A) (k : A → S B) w w' :
  o_result (m w) = o_result (m' w') → o_state (m w) = o_state (m' w') →
  o_result (sthen m k w) = o_result (sthen m' k w') ∧ o_state (sthen m k w) = o_state (sthen m' k w').
Proof. intros E1 E2. unfold sthen, sbind. rewrite <-E1, <-E2. by destruct (o_result (m w)) as [[e|a]|e]. Qed.
Lemma sthen_step {A B} (m : S A) (k : A → S B) w a :
  o_result (m w) = Ok (inr a) → o_result (sthen m k w) = o_result (k a (o_state (m w))) ∧ o_state (sthen m k w) = o_state (k a (o_state (m w))).
Proof. intros E. unfold sthen. by rewrite (step_ok _ _ _ _ E). Qed.

Lemma load_recovered t :
  let o := recover (st_path st) (st_config st) (at_rest t []) in
  t !! st_config st = Some Directory → o_result o = Ok tt →
  loaded t = o_result (sthen (read_documents st None) (λ l, sret (inr (ls_settings l))) (o_state o)).
Proof.
  intros o Hc Ho. unfold loaded, load.
  assert (Hm : answers (ensure_config_medium st) (at_rest t []) (inr tt)).
  { eapply answers_bind; [by apply answers_is_dir|]. cbn [seen at_rest]. rewrite Hc. apply answers_ret. }
  destruct Hm as [M1 M2].
  assert (Hr : o_result (sio (recover (st_path st) (st_config st)) (at_rest t [])) = Ok (inr tt)) by (cbn; fold o; by rewrite Ho).
  apply sthen_eq; unfold read_store.
  - rewrite (proj1 (sthen_step _ _ _ _ M1)), M2. exact (proj1 (sthen_step _ _ _ _ Hr)).
  - rewrite (proj2 (sthen_step _ _ _ _ M1)), M2. exact (proj2 (sthen_step _ _ _ _ Hr)).
Qed.
Lemma load_held s t :
  let o := recover (st_path st) (st_config st) (at_rest t []) in
  t !! st_config st = Some Directory → o_result o = Ok tt → faults (o_state o) = [] →
  storable s → held st s (seen (o_state o)) → loaded t = Ok (inr s).
Proof.
  intros o Hc Ho Hf Hs Hh. rewrite load_recovered by done. fold o.
  apply (proj1 (answers_then _ _ _ _ (inr s) (read_documents_at st s None _ Hs Hh Hf) (answers_ret _ _))).
Qed.
Lemma load_agree t t' :
  let o := recover (st_path st) (st_config st) (at_rest t []) in
  t !! st_config st = Some Directory → o_result o = Ok tt → faults (o_state o) = [] →
  t' !! st_config st = Some Directory → t' !! journal (st_path st) = None → agree st (seen (o_state o)) t' → loaded t = loaded t'.
Proof.
  intros o Hc Ho Hf Hc' Hj Ha. destruct (recover_idle (st_path st) (st_config st) t' Hj) as [E1 E2].
  rewrite (load_recovered t), (load_recovered t') by done. rewrite E2. fold o.
  destruct (same_then (read_documents st None) (λ l, sret (inr (ls_settings l))) (o_state o) (at_rest t' []) ) as (r & [R1 _] & [R2 _]).
  - by apply same_read_documents.
  - intros a _. apply same_ret.
  - congruence.
Qed.

Lemma settled_agree t1 t : made t1 → others_kept t1 t → unchanged t1 t → agree st t old.
Proof.
  intros Hm Ho Hu. pose proof (made_agree t1 Hm) as [A1 A2]. split.
  - intros d Hd. by rewrite (Hu d Hd), A1.
  - by rewrite (Ho _ (at_projects P)).
Qed.

(** *** Without faults *)

Lemma document_writes_answers l : st_preserve st = [] → Forall (λ e : string * result string, ∃ text, e.2 = Ok text) l →
  ∃ writes, answers (document_writes st l) (at_rest old []) (inr writes).
Proof.
  intros Hp. induction l as [|[name r] l IH]; intros Hl; [by exists []|]. apply Forall_cons in Hl as [[text Et] Hl]. cbn [snd] in Et. subst r.
  destruct (IH Hl) as [writes Hw]. exists ((name, Some text) :: writes). cbn [document_writes]. rewrite Hp.
  rewrite bool_decide_eq_false_2 by apply not_elem_of_nil. eapply answers_bind; [apply answers_ret|].
  eapply answers_then; [exact Hw|]. apply answers_ret.
Qed.
Lemma project_writes_answers projects : st_preserve st = [] →
  ∃ writes, o_result (project_writes st projects (at_rest old [])) = Ok (inr writes).
Proof.
  intros Hp. unfold project_writes. rewrite Hp. cbn [existsb].
  pose proof (answers_read_dir (projects_dir st) (at_rest old []) eq_refl) as A. cbn [seen at_rest] in A.
  destruct (rd_dir _ R) as [E|E]; rewrite E in A; rewrite (proj1 (sthen_step _ _ _ _ (proj1 A))), (proj2 A); unfold ensure_projects_dir;
    (destruct projects as [|e projects]; [by eexists|]; change (is_nil (e :: projects)) with false; cbn iota);
    pose proof (answers_is_dir (projects_dir st) (at_rest old []) eq_refl) as B; cbn [seen at_rest] in B; rewrite E in B.
  - assert (B' : answers (let! there := is_dir (projects_dir st) in
        if there : bool then sret (inr tt) else let^ _ := sio (make_dir (projects_dir st)) in sio (sync_dir (st_config st))) (at_rest old []) (inr tt))
      by (eapply answers_bind; [exact B|apply answers_ret]).
    rewrite (proj1 (sthen_step _ _ _ _ (proj1 B'))). by eexists.
  - eexists. refine (eq_trans (proj1 (sthen_step _ _ _ tt _)) eq_refl). rewrite (step_ok _ _ _ _ (proj1 B)), (proj2 B). cbn [o_result].
    unfold sthen, sio, sbind, make_dir, io. cbn. by rewrite E.
Qed.

Lemma save_settings_works s :
  st_preserve st = [] → storable s → room s →
  Forall (λ e, ∃ text, e.2 = Ok text) (rendered (documents_of s)) →
  (∀ d, known_document d = true → readable (old !! target d) = true) →
  o_result (save_settings st s (at_rest old [])) = Ok (inr tt).
Proof.
  intros Hp Hs Hr Htext Hread. unfold save_settings.
  assert (H1 : answers (ensure_config_medium st) (at_rest old []) (inr tt)).
  { eapply answers_bind; [by apply answers_is_dir|]. cbn [seen at_rest]. rewrite (rd_config _ R). apply answers_ret. }
  rewrite (proj1 (sthen_step _ _ _ _ (proj1 H1))), (proj2 H1).
  destruct (recover_idle (st_path st) (st_config st) old (rt_journal _ _ _ (rd_resting _ R))) as [E1 E2].
  assert (H2 : answers (sio (recover (st_path st) (st_config st))) (at_rest old []) (inr tt)) by by apply answers_sio.
  rewrite (proj1 (sthen_step _ _ _ _ (proj1 H2))), (proj2 H2). cbv zeta.
  destruct (document_writes_answers _ Hp Htext) as [l H4]. rewrite (proj1 (sthen_step _ _ _ _ (proj1 H4))), (proj2 H4).
  pose proof (document_writes_tries True (rendered (documents_of s)) (at_rest old [])) as [Hl _]; [by exists []|].
  specialize (Hl _ (proj1 H4)) as [_ Hl].
  change (d_projects (documents_of s)) with (ct_projects (s_container s)).
  destruct (project_writes_answers (ct_projects (s_container s)) Hp) as [writes H5]. rewrite (proj1 (sthen_step _ _ _ _ H5)).
  pose proof (project_writes_tries True (ct_projects (s_container s)) (at_rest old [])) as [Hw _]; [by exists []|].
  specialize (Hw _ H5) as (t & (fs & Et & Hfs) & Hm & Hw). rewrite Et, (Hfs I).
  assert (Hh : handed True s t (l ++ writes)).
  { split; [done|exists l; split; [done|]|]; destruct keeps_projects; [by rewrite Hw|by destruct Hw as [_ ->]|done|by intros _; apply Hw]. }
  pose proof (handed_sound _ s t _ Hs Hr Hh) as D.
  destruct (save_works (st_path st) (st_config st) (at_layout P) t _ D (made_resting t Hm)) as [[[] E] _].
  - apply Forall_forall. intros d Hd. rewrite (ag_documents _ _ _ (made_agree t Hm)).
    + apply Hread. by apply (proj1 (Forall_forall _ _) (sd_known _ D)).
    + by apply (proj1 (Forall_forall _ _) (sd_known _ D)).
  - cbn. by rewrite E.
Qed.

End saving.

(** * Properties *)

Section properties.
Context `{FM : Formats} `{JC : JournalCodec} {JL : JournalLaws}.

(** C3: the settings store is one cell. Whatever I/O calls of a save fail, before
    or after their effect, and wherever power is cut, the next load answers
    either what a load answered before the save (a tree or an error) or exactly
    the saved tree, projects' files included; once the save has returned
    success the next load answers the saved tree, and a save in which no I/O
    call fails succeeds when the stored documents are files of text. *)
Theorem store_is_a_cell st old fs s (P : placed st) (R : ready st old)
    (Hpreserve : st_preserve st = []) (Hs : storable s) (Hroom : room st old s) :
  let o := save_settings st s (at_rest old fs) in
  (∀ w t, durable o w → cut w t → loaded st t = loaded st old ∨ loaded st t = Ok (inr s))
  ∧ (o_result o = Ok (inr tt) → ∀ t, cut (o_state o) t → loaded st t = Ok (inr s))
  ∧ (fs = [] → Forall (λ e, ∃ text, e.2 = Ok text) (rendered (documents_of s)) →
     (∀ d, known_document d = true → readable (old !! target (st_path st) (st_config st) d) = true) →
     o_result o = Ok (inr tt)).
Proof.
  intros o. pose proof (save_settings_safe st P old R False s fs (False_ind _) Hs Hroom) as HS. fold o in HS. split; [|split].
  - intros w t Hw Hcut. destruct (safe_durable _ _ _ HS w Hw t Hcut) as (Hc & Ho & Hf & [(t1 & Hm & Hok & Hu)|(t1 & writes & Hh & Hok & Hrep)]).
    + left. apply load_agree; [done|done|done|apply (rd_config _ _ R)|apply (rt_journal _ _ _ (rd_resting _ _ R))|].
      by apply (settled_agree st P old R t1).
    + right. apply load_held; [done..|]. by eapply (replaced_held st P old R).
  - intros E t Hcut. destruct HS as [H _]. destruct (H _ E t Hcut) as (Hc & Hj & t1 & writes & Hh & Hok & Hrep).
    destruct (recover_idle (st_path st) (st_config st) t Hj) as [E1 E2].
    apply load_held; rewrite ?E1, ?E2; [done..|]. by eapply (replaced_held st P old R).
  - intros -> Ht Hr. by apply (save_settings_works st P old R).
Qed.

(** A save leaves the preserved documents. *)
Lemma preserved_at st old fs s w t (P : placed st) (R : ready st old) (Hs : storable s) (Hroom : room st old s)
    (Hw : durable (save_settings st s (at_rest old fs)) w) (Hcut : cut w t) :
  let r := seen (o_state (recover (st_path st) (st_config st) (at_rest t []))) in
  (fs = [] → ∀ d, d ∈ st_preserve st → d ∈ CONFIG_DOCUMENTS → is_Some (old !! config_file st d) →
     r !! config_file st d = old !! config_file st d)
  ∧ (keeps_projects st = true → ∀ name, is_project_name name = true →
     r !! config_file st (container_project_document name) = old !! config_file st (container_project_document name)).
Proof.
  pose proof (save_settings_safe st P old R (fs = []) s fs id Hs Hroom) as HS.
  destruct (safe_durable _ _ _ HS w Hw t Hcut) as (_ & _ & _ & [(t1 & Hm & Hok & Hu)|(t1 & writes & Hh & Hok & Hrep)]); intros r.
  - pose proof (settled_agree st P old R t1 r Hm Hok Hu) as A.
    split; [intros _ d _ Hd _; by apply agree_config|intros _ name Hn; by apply agree_project].
  - pose proof (made_agree st P old R t1 (hd_made _ _ _ _ _ _ Hh)) as A. destruct Hh as [_ (l & Hl & ->) _], Hrep as [_ Hout].
    split.
    + intros Hq d Hp Hd Hi. destruct (config_known d Hd) as [Hk Hst]. rewrite <-(agree_config st t1 old d A Hd), <-config_target by done.
      apply Hout; [done|]. rewrite fmap_app. apply not_elem_of_app. split; [by apply (pk_kept _ _ _ _ _ Hl d)|].
      destruct (keeps_projects st); [apply not_elem_of_nil|]. intros (name & -> & Hn)%plan_names; [|done|by apply storable_names].
      by destruct (project_known name Hn) as (_ & _ & ?).
    + intros Hk name Hn. destruct (project_known name Hn) as (Hkn & Hst & _). rewrite <-(agree_project st t1 old name A Hn), <-config_target by done.
      apply Hout; [done|]. rewrite Hk, app_nil_r. intros H. eapply elem_of_sublist in H; [|apply (pk_names _ _ _ _ _ Hl)].
      rewrite rendered_names in H. apply rendered_known in H as [_ H]. by rewrite project_document_name in H.
Qed.

(** A save keeps what was refused. Wherever power is cut during a save of a
    store that preserves documents, recovery leaves each preserved
    configuration document that exists as it was when no I/O call fails, and,
    whatever fails, every project's file when a project's file is preserved. *)
Theorem preserved_documents_kept st old fs s w t (P : placed st) (R : ready st old) (Hs : storable s) (Hroom : room st old s)
    (Hw : durable (save_settings st s (at_rest old fs)) w) (Hcut : cut w t) :
  let r := seen (o_state (recover (st_path st) (st_config st) (at_rest t []))) in
  (fs = [] → ∀ d, d ∈ st_preserve st → d ∈ CONFIG_DOCUMENTS → is_Some (old !! config_file st d) →
     r !! config_file st d = old !! config_file st d)
  ∧ (keeps_projects st = true → ∀ name, is_project_name name = true →
     r !! config_file st (container_project_document name) = old !! config_file st (container_project_document name)).
Proof. exact (preserved_at st old fs s w t P R Hs Hroom Hw Hcut). Qed.

End properties.

(** ** Witnesses *)

Section toy.
#[local] Existing Instances toy_codec toy_laws.
(** Every text is a document of this schema that holds the default [d]. *)
Let serial {T} (d : T) : Serial T := {| of_value := λ _, Ok d; to_text := λ _ _, Ok "d" |}.
Let document : value := Object [("schema_version", Number "1")].
#[local] Instance toy_formats : Formats := {|
  fm_parsers := {| parse_toml := λ _, Ok document; parse_json := λ _, Ok document |};
  fm_system := serial (d_system default_documents); fm_network := serial (d_network default_documents);
  fm_dns := serial (d_dns default_documents); fm_wifi := serial (d_wifi default_documents);
  fm_ssh := serial (d_ssh default_documents); fm_mqtt := serial (d_mqtt default_documents);
  fm_time := serial (d_time default_documents); fm_container := serial (d_container default_documents);
  fm_bluetooth := serial (d_bluetooth default_documents); fm_services := serial (d_services default_documents);
  fm_state := serial (d_state default_documents);
|}.

Let store : StoreAt := new_store DEFAULT_PATH DEFAULT_CONFIG_DIR.
(** A store with one project file, and settings with another project. *)
Let before : tree :=
  {[ DEFAULT_CONFIG_DIR := Directory; "/mica/config/container" := Directory;
     "/mica/config/container/old.yaml" := Regular (str_bytes "o"); "/mica/config/wifi.json" := Regular (str_bytes "?") ]}.
Let after : Settings := compose
  {| d_system := d_system default_documents; d_network := d_network default_documents; d_dns := d_dns default_documents;
     d_wifi := d_wifi default_documents; d_ssh := d_ssh default_documents; d_mqtt := d_mqtt default_documents;
     d_time := d_time default_documents; d_container := d_container default_documents; d_projects := [("app", "services: {}")];
     d_bluetooth := d_bluetooth default_documents; d_services := d_services default_documents; d_state := d_state default_documents |}.

Lemma default_other p : visible p → p ≠ DEFAULT_PATH → p ≠ journal DEFAULT_PATH →
  (∀ d, known_document d = true → p ≠ DEFAULT_CONFIG_DIR +:+ "/" +:+ d) → other DEFAULT_PATH DEFAULT_CONFIG_DIR p.
Proof.
  intros Hv Hp Hj Hd. split; [|split; [done|]].
  - intros (q & Hq & ->). apply (temp_hidden q); [|done]. by apply default_visible.
  - intros d Hk. destruct (default_target d) as [[-> _]| ->]; [done|by apply Hd].
Qed.
Lemma store_placed preserve : placed (preserving preserve store).
Proof.
  split; [apply default_layout|..|done]; cbn [st_path st_config preserving store new_store].
  - apply default_other; [by apply (visible_at "/mica" "config")|done..|]. intros d _ E.
    apply (f_equal str_len) in E. rewrite !str_len_app in E. pose proof (str_len_nonneg d). change (str_len "/") with 1 in E. lia.
  - apply default_other; [by apply (visible_at "/mica/config" "container")|done..|]. intros d Hd E.
    change (projects_dir (preserving preserve store)) with (DEFAULT_CONFIG_DIR +:+ "/" +:+ "container") in E.
    assert (d = "container") as -> by by injection E. by vm_compute in Hd.
Qed.
Lemma store_resting : resting DEFAULT_PATH DEFAULT_CONFIG_DIR before.
Proof.
  split; [done|]. intros p (q & Hq & ->) E. apply (temp_hidden q); [by apply default_visible|].
  apply elem_of_map_to_list in E. vm_compute (map_to_list before) in E.
  repeat (apply elem_of_cons in E as [E|E]; [discriminate E || (injection E as ->; by eexists _, _)|]). by apply elem_of_nil in E.
Qed.
Lemma store_ready preserve : ready (preserving preserve store) before.
Proof. split; [done|apply store_resting|by left|by intros []]. Qed.
Lemma after_storable : storable after.
Proof.
  split; try (intros text [= <-]; split; [done|]; by exists document).
  - repeat constructor.
  - by repeat constructor.
Qed.

Lemma store_is_a_cell_witness :
  let o := save_settings store after (at_rest before [Fine; Late]) in
  (∀ w t, durable o w → cut w t → loaded store t = loaded store before ∨ loaded store t = Ok (inr after))
  ∧ (o_result o = Ok (inr tt) → ∀ t, cut (o_state o) t → loaded store t = Ok (inr after))
  ∧ ([Fine; Late] = [] → Forall (λ e, ∃ text, e.2 = Ok text) (rendered (documents_of after)) →
     (∀ d, known_document d = true → readable (before !! target DEFAULT_PATH DEFAULT_CONFIG_DIR d) = true) →
     o_result o = Ok (inr tt)).
Proof.
  apply (store_is_a_cell store before [Fine; Late] after (store_placed []) (store_ready []) eq_refl after_storable).
  by vm_compute.
Defined.

Lemma preserved_documents_kept_witness :
  let st := preserving ["wifi.json"] store in
  let o := save_settings st after (at_rest before []) in
  let r := seen (o_state (recover (st_path st) (st_config st) (at_rest (seen (o_state o)) []))) in
  (@nil Fault = [] → ∀ d, d ∈ ["wifi.json"] → d ∈ CONFIG_DOCUMENTS → is_Some (before !! config_file st d) →
     r !! config_file st d = before !! config_file st d)
  ∧ (keeps_projects st = true → ∀ name, is_project_name name = true →
     r !! config_file st (container_project_document name) = before !! config_file st (container_project_document name)).
Proof.
  intros st o r. apply (preserved_documents_kept st before [] after (o_state o) (seen (o_state o)) (store_placed ["wifi.json"])
    (store_ready ["wifi.json"]) after_storable); [by vm_compute|by left|by intros p; left].
Defined.

(** A [stat] that fails reads as an absent file: the refused document is then
    overwritten by the defaults. *)
Example stat_error_overwrites :
  let st := preserving ["wifi.json"] store in
  let o := save_settings st after (at_rest before [Fine; Fine; Early]) in
  before !! config_file st "wifi.json" = Some (Regular (str_bytes "?"))
  ∧ o_result o = Ok (inr tt) ∧ seen (o_state o) !! config_file st "wifi.json" = Some (Regular (str_bytes ("d" +:+ String LF EmptyString))).
Proof. vm_compute. repeat split. Qed.
End toy.

End Store.
