(* ===== verification/Configuration.v ===== *)
(** The update configuration ([src/crates/micad-settings/src/configuration.rs]
    and its modules [updates], [updates_file], [effective], [window], [fleet]):
    the operator's documents over the baked manifest, the rules they are held
    to, patches of them, and the maintenance windows and check times they name. *)
From Stdlib Require Import Ascii.
From S2P Require Import Prelude Text Files Order Maps Chars Features DotPath Addresses SettingsModel SettingsRules NetworkRules SettingsTree Transaction.
Import Files(node(..), tree, parent_dir).
Import DotPath(value(..)).
Import Transaction.

Module Configuration.

(** * Documents *)

Inductive UpdateMode := Off | Check | Auto.
Inductive RebootPolicy := Manual | Window.
Inductive NetworkMode := Online | Metered | Offline.
#[export] Instance UpdateMode_eq_dec : EqDecision UpdateMode.
Proof. solve_decision. Defined.
#[export] Instance RebootPolicy_eq_dec : EqDecision RebootPolicy.
Proof. solve_decision. Defined.
#[export] Instance NetworkMode_eq_dec : EqDecision NetworkMode.
Proof. solve_decision. Defined.
Definition mode_str (m : UpdateMode) : string := match m with Off => "off" | Check => "check" | Auto => "auto" end.
Definition reboot_str (p : RebootPolicy) : string := match p with Manual => "manual" | Window => "window" end.

(** Absent, [null], or set. *)
Notation Override A := (option (option A)).
Definition flatten {A} (o : Override A) : option A := match o with Some (Some a) => Some a | _ => None end.

Definition UPDATES_SCHEMA_TAG : string := "mica/update-config/v1".
Definition OVERRIDE_CEILING_SECONDS : Z := 3600.
Definition ANCHOR_KEYS : list string := ["trust"; "signingKeys"; "signingKeyId"; "signingKeyIds"; "rootPath"; "keyring"].
Definition AUTO_NEEDS_A_WINDOW : string := "policy `auto` requires at least one maintenance window".

Record UpdatesSource := { us_url : Override string; us_max_bytes : Z }.
Definition default_max_bytes : Z := 500000000.
Definition default_source : UpdatesSource := {| us_url := None; us_max_bytes := default_max_bytes |}.
Record NetworkPolicy := { np_mode : NetworkMode; np_metered_allows_fetch : bool }.
Definition default_network : NetworkPolicy := {| np_mode := Online; np_metered_allows_fetch := false |}.
Record MaintenanceWindow := { mw_days : list string; mw_start : string; mw_end : string }.
Record RebootGatePolicy := { rg_blocking_statuses : list string; rg_override_max_seconds : Z }.
Definition default_reboot_gate : RebootGatePolicy :=
  {| rg_blocking_statuses := ["blocking"]; rg_override_max_seconds := OVERRIDE_CEILING_SECONDS |}.
Definition override_ceiling (g : RebootGatePolicy) : Z := Z.min (rg_override_max_seconds g) OVERRIDE_CEILING_SECONDS.

(** [maintenance] is its list of windows. *)
Record UpdatesDocument := {
  ud_schema : option string; ud_policy : Override UpdateMode; ud_check_interval_minutes : Override Z;
  ud_check_at : Override string; ud_channels : smap string; ud_reboot_policy : RebootPolicy;
  ud_source : UpdatesSource; ud_network : NetworkPolicy; ud_maintenance : list MaintenanceWindow;
  ud_reboot_gate : RebootGatePolicy;
}.
Definition default_updates : UpdatesDocument :=
  {| ud_schema := None; ud_policy := None; ud_check_interval_minutes := None; ud_check_at := None; ud_channels := [];
     ud_reboot_policy := Manual; ud_source := default_source; ud_network := default_network; ud_maintenance := [];
     ud_reboot_gate := default_reboot_gate |}.

#[export] Instance MaintenanceWindow_eq_dec : EqDecision MaintenanceWindow.
Proof. solve_decision. Defined.
#[export] Instance UpdatesSource_eq_dec : EqDecision UpdatesSource.
Proof. solve_decision. Defined.
#[export] Instance NetworkPolicy_eq_dec : EqDecision NetworkPolicy.
Proof. solve_decision. Defined.
#[export] Instance RebootGatePolicy_eq_dec : EqDecision RebootGatePolicy.
Proof. solve_decision. Defined.
#[export] Instance UpdatesDocument_eq_dec : EqDecision UpdatesDocument.
Proof. solve_decision. Defined.

(** ** The baked manifest *)

Record Product := { pr_vendor : string; pr_model : string }.
Record BakedUpdate := {
  bu_source : option string; bu_policy : UpdateMode; bu_check_interval_minutes : Z; bu_channels : smap string;
}.
Record BakedFleet := { bf_enabled : bool; bf_url : option string }.
Record BakedManifest := {
  bm_schema : string; bm_product : Product; bm_update : BakedUpdate; bm_credential_hosts : list string; bm_fleet : BakedFleet;
}.
Definition GENERAL_CHANNEL : string := "general".
Definition CORE_KIND : string := "core".
Definition MANIFEST_SCHEMA_TAG : string := "mica/meta/v1".
Definition baked_defaults : BakedUpdate :=
  {| bu_source := None; bu_policy := Check; bu_check_interval_minutes := 1440; bu_channels := [] |}.
Definition manifest_defaults : BakedManifest :=
  {| bm_schema := MANIFEST_SCHEMA_TAG; bm_product := {| pr_vendor := ""; pr_model := "" |}; bm_update := baked_defaults;
     bm_credential_hosts := []; bm_fleet := {| bf_enabled := false; bf_url := None |} |}.

(** ** Channels *)

Definition is_set_kind (s : string) : bool :=
  negb (is_empty s) && (str_len s <=? 32) && all_bytes (λ b, is_lower b || is_digit b) s.
Definition is_channel (s : string) : bool :=
  negb (is_empty s) && (str_len s <=? 64) && first_byte (λ b, is_lower b || is_digit b) s
  && all_bytes (λ b, is_lower b || is_digit b || bool_decide (b = "-"%char)) s.
Fixpoint channels_error (channels : smap string) : option string :=
  match channels with
  | [] => None
  | (kind, channel) :: rest =>
      if negb (is_set_kind kind) then Some "channels names what is not a kind of set"
      else if negb (is_channel channel) then Some "channels names what is not a channel"
      else channels_error rest
  end.

(** * Windows *)

(** An instant of [DateTime<Utc>] is its whole seconds since 1970-01-01, a Thursday. *)
Definition minute_of_day (now : Z) : Z := now mod 86400 / 60.
Definition weekday (now : Z) : Z := (now / 86400 + 3) mod 7.

Definition minutes_of_day (clock : string) : option Z :=
  '(hours, minutes) ← split_once ":" clock;
  if negb (str_len hours =? 2) || negb (str_len minutes =? 2) then None
  else
    hours ← parse_u32 hours;
    minutes ← parse_u32 minutes;
    if (hours <? 24) && (minutes <? 60) then Some (hours * 60 + minutes) else None.
Definition last_crossing (clock : string) (now : Z) : option Z :=
  minutes ← minutes_of_day clock;
  let face := now / 86400 * 86400 + minutes * 60 in
  Some (if face <=? now then face else face - 86400).
Definition day_index (day : string) : option Z :=
  let day_is s := bool_decide (day = s) in
  if day_is "mon" then Some 0 else if day_is "tue" then Some 1 else if day_is "wed" then Some 2 else if day_is "thu" then Some 3
  else if day_is "fri" then Some 4 else if day_is "sat" then Some 5 else if day_is "sun" then Some 6 else None.
Definition WEEK_MINUTES : Z := 7 * 1440.
Definition minutes_of_week (now : Z) : Z := weekday now * 1440 + minute_of_day now.
Definition window_days (w : MaintenanceWindow) : list Z :=
  if is_nil (mw_days w) then [0; 1; 2; 3; 4; 5; 6] else omap day_index (mw_days w).
Definition span (start end_ : Z) : Z := if start <? end_ then end_ - start else 1440 - start + end_.
Definition contains (w : MaintenanceWindow) (now : Z) : bool :=
  match minutes_of_day (mw_start w), minutes_of_day (mw_end w) with
  | Some start, Some end_ =>
      existsb (λ day, (minutes_of_week now + WEEK_MINUTES - (day * 1440 + start)) mod WEEK_MINUTES <? span start end_) (window_days w)
  | _, _ => false
  end.

(** * The operator's document *)

Inductive ConfigError := Read | Parse | Anchor (key : string) | Validation (message : string) | Write.

Definition named_anchor (key : string) : bool := existsb (λ anchor, eq_ignore_ascii_case anchor key) ANCHOR_KEYS.
Fixpoint anchor_key (v : value) : option string :=
  match v with
  | Object object =>
      (fix keys (m : smap value) : option string :=
         match m with
         | [] => None
         | (key, child) :: rest =>
             if named_anchor key then Some key
             else match anchor_key child with Some found => Some found | None => keys rest end
         end) object
  | Array items =>
      (fix elements (l : list value) : option string :=
         match l with [] => None | x :: rest => match anchor_key x with Some found => Some found | None => elements rest end end) items
  | _ => None
  end.

Definition validate_window (w : MaintenanceWindow) : result unit :=
  ensure bool_decide (is_Some (minutes_of_day (mw_start w))) else "maintenance window start is not HH:MM" in
  ensure bool_decide (is_Some (minutes_of_day (mw_end w))) else "maintenance window end is not HH:MM" in
  each (λ day, ensure bool_decide (is_Some (day_index day)) else "maintenance window day is not a day" in Ok tt) (mw_days w).
Definition validate (d : UpdatesDocument) : result unit :=
  ensure match ud_schema d with Some schema => bool_decide (schema = UPDATES_SCHEMA_TAG) | None => true end else "unknown schema" in
  let? _ := each validate_window (ud_maintenance d) in
  ensure match flatten (ud_check_at d) with Some clock => bool_decide (is_Some (minutes_of_day clock)) | None => true end
    else "checkAt is not HH:MM" in
  ensure bool_decide (channels_error (ud_channels d) = None) else "channels" in
  ensure negb (bool_decide (flatten (ud_policy d) = Some Auto) && is_nil (ud_maintenance d)) else AUTO_NEEDS_A_WINDOW in
  Ok tt.
Definition validated (d : UpdatesDocument) : ConfigError + unit :=
  match validate d with Ok _ => inr tt | Err _ => inl (Validation "") end.

(** ** Patches *)

Record UpdatesPatch := {
  up_policy : Override UpdateMode; up_check_interval_minutes : Override Z; up_check_at : Override string;
  up_channels : option (smap (option string)); up_reboot_policy : option RebootPolicy;
  up_source : option (Override string); up_network : option NetworkPolicy;
  up_maintenance : option (list MaintenanceWindow); up_reboot_gate : option RebootGatePolicy;
}.
Definition over {A} (patch : option A) (old : A) : A := default old patch.
Definition patch_channels (channels : smap string) (patch : smap (option string)) : smap string :=
  foldl (λ m e, match e.2 with Some channel => smap_insert e.1 channel m | None => smap_remove e.1 m end) channels patch.
Definition apply_patch (d : UpdatesDocument) (p : UpdatesPatch) : UpdatesDocument :=
  {| ud_schema := ud_schema d;
     ud_policy := match up_policy p with Some x => Some x | None => ud_policy d end;
     ud_check_interval_minutes := match up_check_interval_minutes p with Some x => Some x | None => ud_check_interval_minutes d end;
     ud_check_at := match up_check_at p with Some x => Some x | None => ud_check_at d end;
     ud_channels := patch_channels (ud_channels d) (default [] (up_channels p));
     ud_reboot_policy := over (up_reboot_policy p) (ud_reboot_policy d);
     ud_source := {| us_url := match up_source p with Some (Some url) => Some url | _ => us_url (ud_source d) end;
                     us_max_bytes := us_max_bytes (ud_source d) |};
     ud_network := over (up_network p) (ud_network d); ud_maintenance := over (up_maintenance p) (ud_maintenance d);
     ud_reboot_gate := over (up_reboot_gate p) (ud_reboot_gate d) |}.

(** ** Reading and writing *)

(** [serde] of the documents. *)
Class ConfigSerde := {
  parse_json : string → option value;
  updates_of_value : value → option UpdatesDocument; patch_of_value : value → option UpdatesPatch;
  updates_to_json : UpdatesDocument → option string;
  manifest_of_json : string → option BakedManifest;
}.
Notation C A := (M Disk (ConfigError + A)).
Definition cio {A} (e : ConfigError) (m : M Disk A) : C A := λ d,
  let o := m d in
  Outcome (Ok (match o_result o with Ok a => inr a | Err _ => inl e end)) (o_state o) (o_crash o).
Definition cthen {A B} (m : C A) (k : A → C B) : C B :=
  sbind m (λ r, match r with inr a => k a | inl e => sret (inl e) end).
Notation "'let%' x ':=' m 'in' k" := (cthen m (fun x => k))
  (at level 200, x pattern, m at level 100, k at level 200,
   format "'[v' 'let%'  x  ':='  m  'in' '/' k ']'") : mica_scope.

Section files.
Context `{CS : ConfigSerde}.

(** A document's text: its anchors, its shape and its rules. *)
Definition read_value (raw : string) : ConfigError + value :=
  match parse_json raw with
  | None => inl Parse
  | Some v => match anchor_key v with Some key => inl (Anchor key) | None => inr v end
  end.
Definition parse_updates (raw : string) : ConfigError + UpdatesDocument :=
  match read_value raw with
  | inl e => inl e
  | inr v =>
      match updates_of_value v with
      | None => inl Parse
      | Some d => match validated d with inr _ => inr d | inl e => inl e end
      end
  end.
Definition load_updates (path : string) : C UpdatesDocument :=
  let% raw := cio Read (read_optional path) in
  sret (match raw with None => inr default_updates | Some raw => parse_updates raw end).

Definition stamped (d : UpdatesDocument) : UpdatesDocument :=
  {| ud_schema := Some UPDATES_SCHEMA_TAG; ud_policy := ud_policy d; ud_check_interval_minutes := ud_check_interval_minutes d;
     ud_check_at := ud_check_at d; ud_channels := ud_channels d; ud_reboot_policy := ud_reboot_policy d;
     ud_source := ud_source d; ud_network := ud_network d; ud_maintenance := ud_maintenance d; ud_reboot_gate := ud_reboot_gate d |}.
Definition save_updates (path : string) (d : UpdatesDocument) : C unit :=
  let% _ := sret (validated d) in
  let% text := sret (match updates_to_json (stamped d) with Some text => inr text | None => inl Write end) in
  cio Write (write_atomically path (text +:+ String LF EmptyString)).

Inductive WriteRefusal := Rejected (e : ConfigError) | Unreadable (e : ConfigError) | Unwritable (e : ConfigError).
Definition refused {A} (f : ConfigError → WriteRefusal) (m : C A) : M Disk (WriteRefusal + A) :=
  sbind m (λ r, sret (match r with inr a => inr a | inl e => inl (f e) end)).
Definition write_refusal (e : ConfigError) : WriteRefusal :=
  match e with Validation _ => Rejected e | _ => Unwritable e end.
Definition write_updates (path patch_json : string) : M Disk (WriteRefusal + UpdatesDocument) :=
  match (match read_value patch_json with
         | inl e => inl e
         | inr v => match patch_of_value v with Some p => inr p | None => inl Parse end
         end) with
  | inl e => sret (inl (Rejected e))
  | inr patch =>
      let! base := refused Unreadable (load_updates path) in
      match base with
      | inl e => sret (inl e)
      | inr base =>
          let document := apply_patch base patch in
          let! saved := refused write_refusal (save_updates path document) in
          sret (match saved with inl e => inl e | inr _ => inr document end)
      end
  end.

(** [load_manifest]: the document, or the defaults and that it was not read. *)
Definition load_manifest (path : string) : M Disk (BakedManifest * bool) :=
  let! raw := attempt (read_optional path) in
  sret (match raw with
        | Ok (Some raw) =>
            match manifest_of_json raw with
            | Some m => if bool_decide (bm_schema m = MANIFEST_SCHEMA_TAG) then (m, true) else (manifest_defaults, false)
            | None => (manifest_defaults, false)
            end
        | _ => (manifest_defaults, false)
        end).
End files.

(** * The effective policy *)

Record Selection := {
  sl_url : option string; sl_mode : UpdateMode; sl_check_interval_minutes : Z; sl_channels : smap string;
}.
Record EffectivePolicy := {
  ep_selection : option Selection; ep_max_bytes : Z; ep_network : NetworkPolicy; ep_windows : list MaintenanceWindow;
  ep_reboot_gate : RebootGatePolicy; ep_reboot_policy : RebootPolicy; ep_check_at : option string;
}.
Definition channel (s : Selection) (kind : string) : string := default GENERAL_CHANNEL (smap_get kind (sl_channels s)).
Definition channels_followed (s : Selection) : smap string :=
  match smap_get CORE_KIND (sl_channels s) with
  | Some _ => sl_channels s
  | None => smap_insert CORE_KIND GENERAL_CHANNEL (sl_channels s)
  end.
Definition unknown_selection : EffectivePolicy :=
  {| ep_selection := None; ep_max_bytes := default_max_bytes; ep_network := default_network; ep_windows := [];
     ep_reboot_gate := default_reboot_gate; ep_reboot_policy := Manual; ep_check_at := None |}.
Definition auto_window_refusal (p : EffectivePolicy) : option string :=
  selection ← ep_selection p;
  if bool_decide (sl_mode selection = Auto) && is_nil (ep_windows p) then Some AUTO_NEEDS_A_WINDOW else None.
Definition resolve (baked : BakedUpdate) (d : UpdatesDocument) : EffectivePolicy :=
  {| ep_selection := Some
       {| sl_url := match flatten (us_url (ud_source d)) with Some url => Some url | None => bu_source baked end;
          sl_mode := default (bu_policy baked) (flatten (ud_policy d));
          sl_check_interval_minutes := default (bu_check_interval_minutes baked) (flatten (ud_check_interval_minutes d));
          sl_channels := foldl (λ m e, smap_insert e.1 e.2 m) (bu_channels baked) (ud_channels d) |};
     ep_max_bytes := us_max_bytes (ud_source d); ep_network := ud_network d; ep_windows := ud_maintenance d;
     ep_reboot_gate := ud_reboot_gate d; ep_reboot_policy := ud_reboot_policy d; ep_check_at := flatten (ud_check_at d) |}.

(** ** The fleet document *)

Record FleetDocument := { fd_enabled : option bool; fd_reporting : option bool; fd_url : Override string }.
Record EffectiveFleet := { ef_enabled : bool; ef_reporting : bool; ef_url : option string }.
Definition FLEET_SCHEMA_TAG : string := "mica/fleet-config/v1".
(** [url::Url], and the document as it is decoded, with its schema tag. *)
Record Url := { ul_scheme : string; ul_has_host : bool; ul_username : string; ul_password : option string }.
Class FleetSerde := { fleet_of_json : string → option (string * FleetDocument); parse_url : string → option Url }.
Definition fleet_url `{FleetSerde} (url : string) : bool :=
  match parse_url url with
  | Some u => bool_decide (ul_scheme u = "https") && ul_has_host u && is_empty (ul_username u) && bool_decide (ul_password u = None)
  | None => false
  end.
Definition parse_fleet `{ConfigSerde, FleetSerde} (raw : string) : ConfigError + FleetDocument :=
  match read_value raw with
  | inl e => inl e
  | inr _ =>
      match fleet_of_json raw with
      | None => inl Parse
      | Some (schema, d) =>
          if negb (bool_decide (schema = FLEET_SCHEMA_TAG)) then inl (Validation "unsupported schema")
          else match flatten (fd_url d) with
               | Some url => if fleet_url url then inr d else inl (Validation "not an HTTPS URL without userinfo")
               | None => inr d
               end
      end
  end.
Definition load_fleet `{ConfigSerde, FleetSerde} (path : string) : C (option FleetDocument) :=
  let% raw := cio Read (read_optional path) in
  sret (match raw with None => inr None | Some raw => match parse_fleet raw with inl e => inl e | inr d => inr (Some d) end end).
Definition effective_fleet (baked : BakedFleet) (d : option FleetDocument) : EffectiveFleet :=
  let enabled := default (bf_enabled baked) (d ≫= fd_enabled) in
  {| ef_enabled := enabled; ef_reporting := enabled && default true (d ≫= fd_reporting);
     ef_url := match flatten (d ≫= fd_url) with Some url => Some url | None => bf_url baked end |}.

(** * Lemmas *)

(** ** Time *)

Lemma minutes_of_week_spec now : minutes_of_week now = (now / 60 + 3 * 1440) mod WEEK_MINUTES.
Proof.
  unfold minutes_of_week, weekday, minute_of_day, WEEK_MINUTES.
  assert (E : now / 60 = 1440 * (now / 86400) + now mod 86400 / 60).
  { rewrite (Z.div_mod now 86400) at 1 by lia. replace (86400 * (now / 86400) + now mod 86400) with (now mod 86400 + (1440 * (now / 86400)) * 60) by lia.
    rewrite Z.div_add by lia. lia. }
  rewrite E. set (d := now / 86400). set (m := now mod 86400 / 60).
  assert (0 ≤ m < 1440).
  { subst m. pose proof (Z.mod_pos_bound now 86400). split; [apply Z.div_pos; lia|apply Z.div_lt_upper_bound; lia]. }
  apply (Z.mod_unique _ _ ((d + 3) / 7)); [left; pose proof (Z.mod_pos_bound (d + 3) 7); lia|].
  pose proof (Z.div_mod (d + 3) 7). lia.
Qed.

Lemma minutes_of_day_bound clock m : minutes_of_day clock = Some m → 0 ≤ m < 1440.
Proof.
  unfold minutes_of_day. intros H. apply bind_Some in H as ([h mi] & _ & H). destruct (_ || _); [done|].
  apply bind_Some in H as (x & Hx & H). apply bind_Some in H as (y & Hy & H). apply NetworkRules.parse_uint_nonneg in Hx, Hy.
  destruct ((x <? 24) && (y <? 60)) eqn:E; [|done]. bools. simplify_eq. lia.
Qed.
Lemma day_index_bound day d : day_index day = Some d → 0 ≤ d < 7.
Proof. unfold day_index. repeat case_bool_decide; intros; simplify_eq; lia. Qed.

(** An offset into the week falls short of the span when some week's opening covers it. *)
Lemma week_offset minute open len : 0 ≤ len ≤ WEEK_MINUTES →
  (minute mod WEEK_MINUTES + WEEK_MINUTES - open) mod WEEK_MINUTES < len
  ↔ ∃ k, open + k * WEEK_MINUTES ≤ minute < open + k * WEEK_MINUTES + len.
Proof.
  assert (HW : WEEK_MINUTES = 10080) by done. rewrite HW. intros Hl.
  assert (E : (minute mod 10080 + 10080 - open) mod 10080 = (minute - open) mod 10080).
  { replace (minute mod 10080 + 10080 - open) with (minute - open + (1 - minute / 10080) * 10080) by (pose proof (Z.div_mod minute 10080); lia).
    apply Z.mod_add. lia. }
  rewrite E. pose proof (Z.div_mod (minute - open) 10080) as D. split.
  - intros H. exists ((minute - open) / 10080). pose proof (Z.mod_pos_bound (minute - open) 10080). lia.
  - intros (k & H1 & H2). assert ((minute - open) mod 10080 = minute - open - k * 10080); [|lia].
    symmetry. apply (Z.mod_unique _ _ k); [left; lia|lia].
Qed.

(** The days a window opens on. *)
Definition opens_on (w : MaintenanceWindow) (day : Z) : Prop :=
  if is_nil (mw_days w) then 0 ≤ day < 7 else ∃ name, name ∈ mw_days w ∧ day_index name = Some day.
Lemma elem_of_window_days w day : day ∈ window_days w ↔ opens_on w day.
Proof.
  unfold window_days, opens_on. destruct (is_nil (mw_days w)).
  - rewrite !elem_of_cons, elem_of_nil. lia.
  - apply list_elem_of_omap.
Qed.

(** ** Anchors *)

(** The keys a document names, at any depth. *)
Inductive names : value → string → Prop :=
| names_key m key child : (key, child) ∈ m → names (Object m) key
| names_member m key child key' : (key, child) ∈ m → names child key' → names (Object m) key'
| names_element l x key : x ∈ l → names x key → names (Array l) key.

Fixpoint depth (v : value) : nat :=
  match v with
  | Object m => S ((fix go (m : smap value) := match m with [] => 0%nat | (_, x) :: m => Nat.max (depth x) (go m) end) m)
  | Array l => S ((fix go (l : list value) := match l with [] => 0%nat | x :: l => Nat.max (depth x) (go l) end) l)
  | _ => 0%nat
  end.
Lemma depth_member m key child : (key, child) ∈ m → (depth child < depth (Object m))%nat.
Proof.
  cbn [depth]. induction m as [|[k x] m IH]; [by intros ?%elem_of_nil|]. intros [[= <- <-]|H]%elem_of_cons; [lia|]. apply IH in H. lia.
Qed.
Lemma depth_element l x : x ∈ l → (depth x < depth (Array l))%nat.
Proof. cbn [depth]. induction l as [|y l IH]; [by intros ?%elem_of_nil|]. intros [<-|H]%elem_of_cons; [lia|]. apply IH in H. lia. Qed.

Lemma anchor_key_spec n v : (depth v < n)%nat →
  match anchor_key v with
  | Some key => names v key ∧ named_anchor key = true
  | None => ∀ key, names v key → named_anchor key = false
  end.
Proof.
  revert v. induction n as [|n IH]; intros v Hn; [lia|]. destruct v as [| | | |l|m]; cbn [anchor_key]; try (intros key H; by inversion H).
  - assert (Hl : ∀ x, x ∈ l → match anchor_key x with Some key => names x key ∧ named_anchor key = true | None => ∀ key, names x key → named_anchor key = false end).
    { intros x Hx. apply IH. apply depth_element in Hx. lia. }
    assert (H : match (fix elements l := match l with [] => None | x :: rest => match anchor_key x with Some found => Some found | None => elements rest end end) l with
      | Some key => (∃ x, x ∈ l ∧ names x key) ∧ named_anchor key = true
      | None => ∀ x key, x ∈ l → names x key → named_anchor key = false end).
    { clear Hn IH. induction l as [|x l IHl]; [by intros x key ?%elem_of_nil|]. pose proof (Hl x (list_elem_of_here _ _)) as Hx.
      destruct (anchor_key x) as [key|]; [split; [exists x; split; [by left|]|]; apply Hx|].
      specialize (IHl (λ y Hy, Hl y (list_elem_of_further _ _ _ Hy))). lazymatch goal with |- match ?e with _ => _ end => destruct e as [key|] end.
      - destruct IHl as [(y & Hy & Hk) ?]. split; [|done]. exists y. split; [by right|done].
      - intros y key [->|Hy]%elem_of_cons Hk; [by apply Hx|by eapply IHl]. }
    match type of H with match ?e with _ => _ end => destruct e as [key|] end; [destruct H as [(x & Hx & Hk) ?]; split; [by eapply names_element|done]|].
    intros key Hk. inversion Hk; subst. by eapply H.
  - assert (Hm : ∀ k x, (k, x) ∈ m → match anchor_key x with Some key => names x key ∧ named_anchor key = true | None => ∀ key, names x key → named_anchor key = false end).
    { intros k x Hx. apply IH. apply depth_member in Hx. lia. }
    assert (H : match (fix keys (m : smap value) : option string := match m with [] => None | (key, child) :: rest => if named_anchor key then Some key else match anchor_key child with Some found => Some found | None => keys rest end end) m with
      | Some key => (∃ k x, (k, x) ∈ m ∧ (k = key ∨ names x key)) ∧ named_anchor key = true
      | None => ∀ k x, (k, x) ∈ m → named_anchor k = false ∧ ∀ key, names x key → named_anchor key = false end).
    { clear Hn IH. induction m as [|[k x] m IHm]; [by intros k x ?%elem_of_nil|]. pose proof (Hm k x (list_elem_of_here _ _)) as Hx.
      destruct (named_anchor k) eqn:Ek; [split; [|done]; exists k, x; split; [by left|by left]|].
      destruct (anchor_key x) as [key|]; [split; [exists k, x; split; [by left|right]|]; apply Hx|].
      specialize (IHm (λ k' y Hy, Hm k' y (list_elem_of_further _ _ _ Hy))). lazymatch goal with |- match ?e with _ => _ end => destruct e as [key|] end.
      - destruct IHm as [(k' & y & Hy & Hk) ?]. split; [|done]. exists k', y. split; [by right|done].
      - intros k' y [[= -> ->]|Hy]%elem_of_cons; [done|by eapply IHm]. }
    match type of H with match ?e with _ => _ end => destruct e as [key|] end.
    + destruct H as [(k & x & Hx & Hk) Hn']. split; [|exact Hn']. destruct Hk as [E|Hk]; [subst k; by eapply names_key|by eapply names_member].
    + intros key Hk. inversion Hk; subst; (edestruct H as [Ha Hb]; [eassumption|]); [exact Ha|by apply Hb].
Qed.

(** ** The file *)

Lemma temp_of_ne path : temp_of path ≠ path.
Proof.
  intros E. apply (f_equal str_len) in E. unfold temp_of in E. destruct (rsplit_once "/" path) as [[dir name]|] eqn:Er.
  - apply rsplit_once_spec in Er as [-> _]. change (String "/" name) with ("/" +:+ name) in E. rewrite !str_len_app in E.
    change (str_len "/.") with 2 in E. change (str_len ".tmp") with 4 in E. change (str_len "/") with 1 in E. lia.
  - rewrite !str_len_app in E. change (str_len ".") with 1 in E. change (str_len ".tmp") with 4 in E. lia.
Qed.
(** A replace leaves the old file or the new text, seen and kept, and never
    loose; of other files only its temporary one changes. When it succeeds the
    new text is both seen and kept. *)
Record replaces (path text : string) (w d : Disk) : Prop := {
  rp_others p : p ≠ path → p ≠ temp_of path →
    seen d !! p = seen w !! p ∧ (kept d !! p = kept w !! p ∨ kept d !! p = seen w !! p) ∧ (p ∈ loose d → p ∈ loose w);
  rp_seen : seen d !! path = seen w !! path ∨ seen d !! path = Some (Regular (str_bytes text));
  rp_kept : kept d !! path = kept w !! path ∨ kept d !! path = seen w !! path ∨ kept d !! path = Some (Regular (str_bytes text));
  rp_loose : path ∈ loose d → path ∈ loose w;
}.
Definition shows (path text : string) (w d : Disk) : Prop :=
  seen d !! path = Some (Regular (str_bytes text)) ∧ kept d !! path = Some (Regular (str_bytes text)) ∧ path ∉ loose d ∧ replaces path text w d.
Lemma write_shows path text w : safe (write_atomically path text w) (λ _, shows path text w) (replaces path text w).
Proof.
  pose proof (temp_of_ne path) as Hne. unfold write_atomically.
  set (temp := temp_of path) in *. set (new := Some (Regular (str_bytes text))).
  set (before := λ d, ∀ p, p ≠ temp → seen d !! p = seen w !! p ∧ kept d !! p = kept w !! p ∧ (p ∈ loose d → p ∈ loose w)).
  assert (HC : ∀ d, before d → replaces path text w d).
  { intros d H. destruct (H path) as (H1 & H2 & H3); [done|]. split; [|by left|by left|done]. intros p _ Hp. destruct (H p Hp) as (? & ? & ?). by split; [|split; [left|]]. }
  assert (Hstep : ∀ {A B} (f : Disk → option (A * Disk)) (k : A → M Disk B) (w' : Disk) (Post : Disk → Prop) Q,
    before w' → (∀ fs a d', f (with_faults fs w') = Some (a, d') → before d' ∧ Post d') →
    (∀ a d', before d' → Post d' → safe (k a d') Q (replaces path text w)) → safe (sbind (io f) k w') Q (replaces path text w)).
  { intros A B f k w' Post Q Hw Hf Hk. eapply safe_step with (C' := before) (R := λ _ d, before d ∧ Post d); [|exact HC|intros a d []; by apply Hk].
    apply io_safe; [intros fs; exact Hw|]. intros fs a d' E. by apply (Hf fs a d') in E as [? ?]. }
  eapply (Hstep _ _ _ _ _ (λ _, True)); [done|..].
  { intros fs a d. cbn [seen with_faults]. intros H. split; [|done]. intros p Hp.
    destruct (seen w !! temp) as [[]|]; try discriminate H; injection H as _ <-; cbn; by rewrite ?lookup_delete_ne. }
  intros _ d1 H1 _. eapply (Hstep _ _ _ _ _ (λ _, True)); [done|..].
  { intros fs a d. cbn [seen with_faults]. destruct (seen d1 !! temp); [done|]. intros [= _ <-]. split; [|done].
    intros p Hp. cbn. rewrite lookup_insert_ne by done. destruct (H1 p Hp) as (? & ? & ?). split; [done|]. split; [done|]. set_solver. }
  intros _ d2 H2 _. eapply (Hstep _ _ _ _ _ (λ _, True)); [done|by intros fs a d [= _ <-]|].
  intros _ d3 H3 _. eapply (Hstep _ _ _ _ _ (λ d, seen d !! temp = new)); [done|..].
  { intros fs a d [= _ <-]. cbn [seen with_seen with_faults]. split; [|apply lookup_insert_eq]. intros p Hp. cbn. rewrite lookup_insert_ne by done. by apply H3. }
  intros _ d4 H4 E4. eapply (Hstep _ _ _ _ _ (λ d, seen d !! temp = new ∧ temp ∉ loose d)); [done|..].
  { intros fs a d [= _ <-]. cbn. split; [|split; [done|set_solver]]. intros p Hp. destruct (H4 p Hp) as (? & ? & ?). split; [done|]. split; [done|]. cbn. set_solver. }
  intros _ d5 H5 [E5 L5].
  set (renamed := λ d, replaces path text w d ∧ seen d !! path = new ∧ path ∉ loose d ∧ ∀ p, p ≠ path → p ≠ temp → kept d !! p = kept w !! p).
  eapply safe_step with (R := λ _, renamed) (C' := replaces path text w); [|done|].
  { apply io_safe; [intros fs; by apply (HC (with_faults fs d5))|]. intros fs a d. cbn [seen with_faults]. rewrite E5. cbn. rewrite bool_decide_eq_false_2 by done. intros H.
    assert (E : d = {| seen := <[path := Regular (str_bytes text)]> (delete temp (seen d5)); kept := kept d5; loose := loose d5 ∖ {[path]}; faults := fs |}).
    { destruct (seen d5 !! path) as [[]|]; try discriminate H; by injection H as _ <-. }
    cut (renamed d); [by intros [? ?]|]. rewrite E. split; [|split; [apply lookup_insert_eq|split; [cbn; set_solver|]]].
    - split; cbn.
      + intros p Hp Ht. destruct (H5 p Ht) as (? & ? & ?). rewrite lookup_insert_ne, lookup_delete_ne by done. split; [done|]. split; [by left|set_solver].
      + right. apply lookup_insert_eq.
      + left. by apply (H5 path).
      + set_solver.
    - intros p Hp Ht. by apply (H5 p). }
  intros _ d6 (H6 & E6 & L6 & K6). apply io_safe; [intros fs; by destruct H6|]. intros fs a d [= _ <-].
  assert (Hk : kept {| seen := seen d6; kept := synced (parent_dir path) (seen d6) (kept d6); loose := loose d6; faults := fs |} !! path = new)
    by (cbn; by rewrite lookup_synced, bool_decide_eq_true_2).
  cut (replaces path text w {| seen := seen d6; kept := synced (parent_dir path) (seen d6) (kept d6); loose := loose d6; faults := fs |});
    [intros H; split; [by split|exact H]|].
  destruct H6 as [Ho Hs _ Hl]. split; [|exact Hs|by do 2 right|exact Hl]. intros p Hp Ht. destruct (Ho p Hp Ht) as (Hsp & Hkp & Hlp).
  split; [exact Hsp|]. split; [|exact Hlp]. cbn. rewrite lookup_synced. case_bool_decide; [right; exact Hsp|exact Hkp].
Qed.

(** What an I/O call that only reads leaves. *)
Definition untouched (w d : Disk) : Prop := seen d = seen w ∧ kept d = kept w ∧ loose d = loose w.
Lemma untouched_replaces path text w d d' : untouched w d → replaces path text d d' → replaces path text w d'.
Proof. intros (Es & Ek & El) [H1 H2 H3 H4]. rewrite Es, Ek, ?El in *. by split. Qed.
Lemma read_untouched path w : safe (read_optional path w)
  (λ raw d, untouched w d ∧ raw = match seen w !! path with Some (Regular c) => Some (bytes_str c) | _ => None end) (untouched w).
Proof.
  apply io_safe; [done|]. intros fs a d. cbn [seen with_faults]. destruct (seen w !! path) as [[c| |]|]; [|done..|].
  - destruct (valid_utf8 c); [|done]. by intros [= <- <-].
  - by intros [= <- <-].
Qed.
(** A file a power cut cannot change. *)
Definition quiet (path : string) (w : Disk) : Prop := kept w !! path = seen w !! path ∧ path ∉ loose w.
Lemma untouched_cut w d t p : untouched w d → quiet p w → cut d t → t !! p = seen w !! p.
Proof. intros (Es & Ek & El) [Hq Hl] Hc. destruct (Hc p) as [H|[H|[H _]]]; [by rewrite H, Es|by rewrite H, Ek|by rewrite El in H]. Qed.
Lemma replaces_cut path text w d t : replaces path text w d → quiet path w → cut d t →
  t !! path = seen w !! path ∨ t !! path = Some (Regular (str_bytes text)).
Proof.
  intros [_ Hs Hk Hl] [Hq Hn] Hc. destruct (Hc path) as [H|[H|[H _]]]; [by rewrite H| |by apply Hl in H].
  rewrite H. destruct Hk as [Hk|[Hk|Hk]]; rewrite Hk; [left; exact Hq|by left|by right].
Qed.
Lemma replaces_others_cut path text w d t p : replaces path text w d → p ≠ path → p ≠ temp_of path → quiet p w → cut d t → t !! p = seen w !! p.
Proof.
  intros [Ho _ _ _] Hp Ht [Hq Hn] Hc. destruct (Ho p Hp Ht) as (Hs & Hk & Hl). destruct (Hc p) as [H|[H|[H _]]]; [by rewrite H| |by apply Hl in H].
  rewrite H. destruct Hk as [Hk|Hk]; rewrite Hk; [exact Hq|done].
Qed.

Section laws.
Context `{CS : ConfigSerde}.

(** [serde] of the documents: the channels' kinds are keys of the value, what
    is written parses back, and its other keys are the schema's. *)
Class ConfigLaws := {
  cl_channels v d k : updates_of_value v = Some d → k ∈ map fst (ud_channels d) → names v k;
  cl_patch v p k : patch_of_value v = Some p → k ∈ map fst (default [] (up_channels p)) → names v k;
  cl_text d text : updates_to_json d = Some text → valid_utf8 (str_bytes (text +:+ String LF EmptyString)) = true;
  cl_written d text : updates_to_json d = Some text → ∃ v, parse_json (text +:+ String LF EmptyString) = Some v
    ∧ updates_of_value v = Some d ∧ ∀ key, names v key → named_anchor key = true → key ∈ map fst (ud_channels d);
}.
Context {CL : ConfigLaws}.

(** No kind of channel spells an anchor. *)
Definition unanchored (channels : list string) : Prop := ∀ k, k ∈ channels → named_anchor k = false.

Lemma anchor_key_none v : anchor_key v = None ↔ ∀ key, names v key → named_anchor key = false.
Proof.
  pose proof (anchor_key_spec (S (depth v)) v ltac:(lia)) as H. destruct (anchor_key v) as [key|]; [|done].
  split; [done|]. intros Hn. destruct H as [H1 H2]. by rewrite (Hn key H1) in H2.
Qed.
Lemma read_value_ok raw v : read_value raw = inr v → parse_json raw = Some v ∧ ∀ key, names v key → named_anchor key = false.
Proof.
  unfold read_value. destruct (parse_json raw) as [v'|]; [|done]. destruct (anchor_key v') eqn:E; [done|].
  intros [= ->]. split; [done|]. by apply anchor_key_none.
Qed.
Lemma parse_updates_ok raw d : parse_updates raw = inr d → unanchored (map fst (ud_channels d)) ∧ validate d = Ok tt.
Proof.
  unfold parse_updates. destruct (read_value raw) as [e|v] eqn:Er; [done|]. apply read_value_ok in Er as [_ Hv].
  destruct (updates_of_value v) as [d'|] eqn:Eu; [|done]. unfold validated. destruct (validate d') as [[]|] eqn:Ev; [|done]. intros [= ->].
  split; [|done]. intros k Hk. apply Hv. by eapply cl_channels.
Qed.
Lemma patch_channels_keys channels patch k :
  k ∈ map fst (patch_channels channels patch) → k ∈ map fst channels ∨ k ∈ map fst patch.
Proof.
  unfold patch_channels. revert channels. induction patch as [|[k' c] patch IH]; intros channels H; [by left|]. cbn [foldl fst snd map] in *.
  apply IH in H as [H|H]; [|by right; right]. apply smap_get_some in H. destruct c as [c|].
  - rewrite smap_get_insert in H. case_bool_decide; [subst; right; by left|left; by apply smap_get_some].
  - rewrite smap_get_remove in H. case_bool_decide; [by destruct H|left; by apply smap_get_some].
Qed.

Lemma written_parses d text : unanchored (map fst (ud_channels d)) → validate (stamped d) = Ok tt →
  updates_to_json (stamped d) = Some text → parse_updates (text +:+ String LF EmptyString) = inr (stamped d).
Proof.
  intros Hu Hv Ht. destruct (cl_written _ _ Ht) as (v & Ep & Eu & Hk). unfold parse_updates, read_value. rewrite Ep.
  assert (anchor_key v = None) as ->.
  { apply anchor_key_none. intros key Hn. destruct (named_anchor key) eqn:E; [|done]. specialize (Hk key Hn E).
    rewrite (Hu key Hk) in E. done. }
  by rewrite Eu; unfold validated; rewrite Hv.
Qed.
Lemma stamped_valid d : validate d = Ok tt → validate (stamped d) = Ok tt.
Proof. unfold validate. intros H. apply if_ok in H as [_ H]. exact H. Qed.

(** Steps that always answer. *)
Definition total {A} (m : M Disk A) : Prop := ∀ w, ∃ a, o_result (m w) = Ok a.
Lemma total_ret {A} (a : A) : total (sret a).
Proof. intros w. by exists a. Qed.
Lemma total_bind {A B} (m : M Disk A) (k : A → M Disk B) : total m → (∀ a, total (k a)) → total (sbind m k).
Proof. intros Hm Hk w. destruct (Hm w) as [a E]. destruct (Hk a (o_state (m w))) as [b Eb]. exists b. by rewrite (step_ok _ _ _ _ E). Qed.
Lemma total_cio {A} e (m : M Disk A) : total (cio e m).
Proof. intros w. by eexists. Qed.
Lemma total_cthen {A B} (m : C A) (k : A → C B) : total m → (∀ a, total (k a)) → total (cthen m k).
Proof. intros Hm Hk. apply total_bind; [done|]. intros [e|a]; [apply total_ret|apply Hk]. Qed.
Lemma total_refused {A} f (m : C A) : total m → total (refused f m).
Proof. intros Hm. apply total_bind; [done|]. intros r. apply total_ret. Qed.
Lemma total_save path d : total (save_updates path d).
Proof. apply total_cthen; [apply total_ret|]. intros _. apply total_cthen; [apply total_ret|]. intros text. apply total_cio. Qed.
Lemma total_load path : total (load_updates path).
Proof. apply total_cthen; [apply total_cio|]. intros raw. apply total_ret. Qed.
Lemma total_write path patch : total (write_updates path patch).
Proof.
  unfold write_updates. destruct (match read_value patch with inl e => _ | inr v => _ end) as [e|p]; [apply total_ret|].
  apply total_bind; [apply total_refused, total_load|]. intros [e|base]; [apply total_ret|].
  apply total_bind; [apply total_refused, total_save|]. intros r. apply total_ret.
Qed.

Lemma cio_safe {A} e (m : M Disk A) w Q (C : Disk → Prop) : safe (m w) Q C →
  safe (cio e m w) (λ r d, match r with inr a => Q a d | inl e' => e' = e ∧ C d end) C.
Proof.
  intros (H1 & H2 & H3). split; [|by split]. intros r [= <-]. cbn [cio o_state]. destruct (o_result (m w)) as [a|e']; [by apply H1|done].
Qed.
Lemma cthen_safe {A B} (m : C A) (k : A → C B) w R (E : ConfigError → Disk → Prop) Q (C C' : Disk → Prop) :
  safe (m w) (λ r d, match r with inr a => R a d | inl e => E e d end) C' → (∀ d, C' d → C d) →
  (∀ e d, E e d → Q (inl e) d ∧ C d) → (∀ a d, R a d → safe (k a d) Q C) → safe (cthen m k w) Q C.
Proof.
  intros Hm HC HE Hk. eapply safe_step; [exact Hm|exact HC|]. intros [e|a] d H; [|by apply Hk].
  destruct (HE e d H). by apply safe_ret.
Qed.

(** The document a write starts from. *)
Definition current (path : string) (w : Disk) (base : UpdatesDocument) : Prop :=
  match seen w !! path with Some (Regular c) => parse_updates (bytes_str c) = inr base | _ => base = default_updates end.
Lemma load_safe path w :
  safe (load_updates path w)
    (λ r d, untouched w d ∧ match r with inr base => current path w base ∧ unanchored (map fst (ud_channels base)) | inl _ => True end) (untouched w).
Proof.
  eapply cthen_safe; [apply cio_safe, read_untouched|done|by intros e d [_ H]|]. intros raw d [Hd Hraw]. apply safe_ret; [done|]. split; [done|]. unfold current.
  destruct (seen w !! path) as [[c| |]|]; subst raw; [|by split; [|intros k Hk; apply elem_of_nil in Hk]..].
  destruct (parse_updates (bytes_str c)) as [e|base] eqn:E; [done|]. split; [done|]. by apply parse_updates_ok in E as [? _].
Qed.
(** A save: refused before anything is written, or the stamped text. *)
Definition saving (path : string) (doc : UpdatesDocument) (w d : Disk) : Prop :=
  validate doc = Ok tt ∧ ∃ text, updates_to_json (stamped doc) = Some text ∧ replaces path (text +:+ String LF EmptyString) w d.
Lemma save_updates_safe path d w :
  safe (save_updates path d w)
    (λ r w', match r with
             | inr _ => validate d = Ok tt ∧ ∃ text, updates_to_json (stamped d) = Some text ∧ shows path (text +:+ String LF EmptyString) w w'
             | inl (Validation _) => untouched w w'
             | inl _ => validate d = Ok tt
             end) (λ w', untouched w w' ∨ saving path d w w').
Proof.
  assert (Hw : untouched w w) by done. unfold save_updates, validated.
  destruct (validate d) as [[]|e] eqn:Ev; [|by eapply cthen_safe with (C' := untouched w) (R := λ _ _, False) (E := λ e w', e = Validation "" ∧ w' = w);
    [apply safe_ret|left|intros ? ? [-> ->]; split; [|left]|done]].
  eapply cthen_safe with (C' := untouched w) (R := λ _ w', w' = w) (E := λ _ _, False); [by apply safe_ret|by left|done|]. intros _ ? ->.
  destruct (updates_to_json (stamped d)) as [text|] eqn:Et.
  - eapply cthen_safe with (C' := untouched w) (R := λ t w', t = text ∧ w' = w) (E := λ _ _, False); [by apply safe_ret|by left|done|]. intros ? ? [-> ->].
    eapply safe_mono; [apply cio_safe, write_shows| |intros w' H; right; split; [done|by exists text]]. intros [e|[]] w' H.
    + by destruct H as [-> _].
    + split; [done|]. by exists text.
  - by eapply cthen_safe with (C' := untouched w) (R := λ _ _, False) (E := λ e w', e = Write ∧ w' = w);
      [apply safe_ret|left|intros ? ? [-> ->]; split; [|left]|done].
Qed.
(** What a write would make of the document. *)
Definition patched (path patch : string) (w : Disk) (doc : UpdatesDocument) : Prop :=
  ∃ v p base, read_value patch = inr v ∧ patch_of_value v = Some p ∧ current path w base ∧ doc = apply_patch base p.
Lemma write_updates_safe path patch w :
  safe (write_updates path patch w)
    (λ r d, match r with
            | inr doc => patched path patch w doc ∧ validate doc = Ok tt ∧ unanchored (map fst (ud_channels doc))
                ∧ ∃ text, updates_to_json (stamped doc) = Some text ∧ shows path (text +:+ String LF EmptyString) w d
            | inl (Unwritable _) => ∃ doc, patched path patch w doc ∧ validate doc = Ok tt
            | inl _ => untouched w d end)
    (λ d, untouched w d ∨ ∃ doc, patched path patch w doc ∧ unanchored (map fst (ud_channels doc)) ∧ saving path doc w d).
Proof.
  unfold write_updates. destruct (read_value patch) as [e|v] eqn:Er; [by apply safe_ret; [left|]|].
  pose proof Er as Er'. apply read_value_ok in Er' as [_ Hv]. destruct (patch_of_value v) as [p|] eqn:Ep; [|by apply safe_ret; [left|]].
  assert (Hp : unanchored (map fst (default [] (up_channels p)))) by (intros k Hk; apply Hv; by eapply cl_patch).
  eapply safe_step with (C' := untouched w)
    (R := λ r d, untouched w d ∧ match r with inr base => current path w base ∧ unanchored (map fst (ud_channels base)) | inl (Unreadable _) => True | inl _ => False end).
  - unfold refused. eapply safe_step; [apply load_safe|done|]. intros [e|base] d [Hd Hb]; by apply safe_ret.
  - by left.
  - intros [e|base] d [Hd Hb]; [apply safe_ret; [by left|by destruct e]|]. destruct Hb as [Hcur Hb].
    assert (Hu : unanchored (map fst (ud_channels (apply_patch base p)))).
    { intros k [Hk|Hk]%patch_channels_keys; [by apply Hb|by apply Hp]. }
    assert (Hpd : patched path patch w (apply_patch base p)) by by exists v, p, base.
    assert (Hc : ∀ d', untouched d d' ∨ saving path (apply_patch base p) d d' →
      untouched w d' ∨ ∃ doc, patched path patch w doc ∧ unanchored (map fst (ud_channels doc)) ∧ saving path doc w d').
    { intros d' [(? & ? & ?)|(Hval & text & Ht & Hr)]; [left; destruct Hd as (? & ? & ?); split; [|split]; congruence|right].
      exists (apply_patch base p). split; [done|]. split; [done|]. split; [done|]. exists text. split; [done|]. by eapply untouched_replaces. }
    eapply safe_step with (C' := λ d', untouched d d' ∨ saving path (apply_patch base p) d d')
      (R := λ r d', (untouched d d' ∨ saving path (apply_patch base p) d d') ∧ match r with
        | inr _ => validate (apply_patch base p) = Ok tt ∧ ∃ text, updates_to_json (stamped (apply_patch base p)) = Some text ∧ shows path (text +:+ String LF EmptyString) d d'
        | inl (Unwritable _) => validate (apply_patch base p) = Ok tt | inl _ => untouched d d' end); [|exact Hc|].
    { unfold refused. pose proof (save_updates_safe path (apply_patch base p) d) as (S1 & S2 & S3).
      eapply safe_step with (R := λ r d', (untouched d d' ∨ saving path (apply_patch base p) d d') ∧ match r with
        | inr _ => validate (apply_patch base p) = Ok tt ∧ ∃ text, updates_to_json (stamped (apply_patch base p)) = Some text ∧ shows path (text +:+ String LF EmptyString) d d'
        | inl (Validation _) => untouched d d' | inl _ => validate (apply_patch base p) = Ok tt end); [split; [intros r Hr; split; [exact S2|exact (S1 r Hr)]|exact (conj S2 S3)]|done|].
      intros r d' [Hc' Hr]. apply safe_ret; [done|]. split; [done|]. destruct r as [[]|[]]; by cbn. }
    intros r d' [Hc' Hr]. apply safe_ret; [by apply Hc|]. destruct r as [[| |]|[]]; cbn; try done;
      try (by exists (apply_patch base p)); try (destruct Hr as (? & ? & ?); destruct Hd as (? & ? & ?); split; [|split]; congruence).
    destruct Hr as (H1 & text & H2 & H3 & H4 & H5 & H6). split; [done|]. split; [done|]. split; [done|]. exists text. split; [done|].
    split; [done|]. split; [done|]. split; [done|]. by eapply untouched_replaces.
Qed.
(** A node that a later load reads as the document. *)
Definition reads_as (path : string) (n : option node) (doc : UpdatesDocument) : Prop :=
  ∀ later, faults later = [] → seen later !! path = n → o_result (load_updates path later) = Ok (inr doc).
Lemma written_reads path doc text : validate doc = Ok tt → unanchored (map fst (ud_channels doc)) → updates_to_json (stamped doc) = Some text →
  reads_as path (Some (Regular (str_bytes (text +:+ String LF EmptyString)))) (stamped doc).
Proof.
  intros Hv Hu Ht later Hf Hs.
  assert (Hr : o_result (cio Read (read_optional path) later) = Ok (inr (Some (text +:+ String LF EmptyString)))).
  { cbn. destruct (io_works (λ d, match seen d !! path with None => Some (None, d)
        | Some (Regular c) => if valid_utf8 c then Some (Some (bytes_str c), d) else None | Some _ => None end)
      later (Some (text +:+ String LF EmptyString)) later Hf) as [E _].
    - by rewrite Hs, (cl_text _ _ Ht), str_bytes_str.
    - unfold read_optional. by rewrite E. }
  unfold load_updates, cthen. rewrite (step_ok _ _ _ _ Hr). cbn [o_result].
  by rewrite (written_parses doc text Hu (stamped_valid doc Hv) Ht).
Qed.

End laws.

(** * Properties *)

(** A maintenance window is open exactly in its weekly spans: [now] is in
    the window when, for some day it opens on and some week, [now] is at or
    after that day's opening minute (UTC) and before the opening plus the
    window's span, which runs past midnight when the end is not after the
    start, and is a whole day when they are equal. *)
Theorem window_contains_exact w now : contains w now = true ↔
  ∃ start end_ day week, minutes_of_day (mw_start w) = Some start ∧ minutes_of_day (mw_end w) = Some end_ ∧ opens_on w day
    ∧ let open := (week * 7 + day - 3) * 1440 + start in open * 60 ≤ now < (open + span start end_) * 60.
Proof.
  unfold contains. destruct (minutes_of_day (mw_start w)) as [start|] eqn:Es, (minutes_of_day (mw_end w)) as [end_|] eqn:Ee;
    try (split; [done|intros (? & ? & ? & ? & ? & ? & _); done]).
  apply minutes_of_day_bound in Es as Bs, Ee as Be.
  assert (Hspan : 0 ≤ span start end_ ≤ WEEK_MINUTES).
  { unfold span, WEEK_MINUTES. destruct (start <? end_) eqn:E; [apply Z.ltb_lt in E|apply Z.ltb_ge in E]; lia. }
  assert (Hk : ∀ day, (minutes_of_week now + WEEK_MINUTES - (day * 1440 + start)) mod WEEK_MINUTES < span start end_
    ↔ ∃ week, ((week * 7 + day - 3) * 1440 + start) * 60 ≤ now < ((week * 7 + day - 3) * 1440 + start + span start end_) * 60).
  { intros day. rewrite minutes_of_week_spec, week_offset by done. unfold WEEK_MINUTES. pose proof (Z.div_mod now 60) as D.
    pose proof (Z.mod_pos_bound now 60) as B. split; intros (k & H); exists k; lia. }
  rewrite existsb_exists. split.
  - intros (day & Hin & H). apply list_elem_of_In, elem_of_window_days in Hin. apply Z.ltb_lt, Hk in H as [week H].
    by exists start, end_, day, week.
  - intros (s & e & day & week & [= <-] & [= <-] & Hday & H). exists day. split; [by apply list_elem_of_In, elem_of_window_days|].
    apply Z.ltb_lt, Hk. by exists week.
Qed.

(** The anchor's last crossing is the latest instant at or before [now]
    whose time of day (UTC) is the clock face. *)
Theorem last_crossing_exact clock now t : last_crossing clock now = Some t ↔
  ∃ m, minutes_of_day clock = Some m ∧ t mod 86400 = m * 60 ∧ t ≤ now < t + 86400.
Proof.
  unfold last_crossing. destruct (minutes_of_day clock) as [m|] eqn:E; cbn [mbind option_bind]; [|split; [done|by intros (? & ? & _)]].
  apply minutes_of_day_bound in E as B. pose proof (Z.div_mod now 86400) as D. pose proof (Z.mod_pos_bound now 86400) as Bn. split.
  - intros [= Ht]. exists m. split; [done|]. destruct (now / 86400 * 86400 + m * 60 <=? now) eqn:El.
    + apply Z.leb_le in El. subst t. rewrite Z.add_comm, Z.mod_add, Z.mod_small by lia. lia.
    + apply Z.leb_gt in El. subst t. replace (now / 86400 * 86400 + m * 60 - 86400) with (m * 60 + (now / 86400 - 1) * 86400) by lia.
      rewrite Z.mod_add, Z.mod_small by lia. lia.
  - intros (m' & [= <-] & Hm & Hb). f_equal. pose proof (Z.div_mod t 86400) as Dt.
    destruct (now / 86400 * 86400 + m * 60 <=? now) eqn:El; [apply Z.leb_le in El|apply Z.leb_gt in El]; lia.
Qed.

(** No anchor gets past the readers. A document or a patch that names a
    trust anchor as a key, at any depth and in any letter case, is refused, and
    refused as an anchor; a text that names none is not refused for one. *)
Theorem anchors_refused `{CS : ConfigSerde} raw v (Hraw : parse_json raw = Some v) :
  ((∃ key, names v key ∧ named_anchor key = true) → ∃ key, names v key ∧ parse_updates raw = inl (Anchor key)
     ∧ ∀ path w, o_result (write_updates path raw w) = Ok (inl (Rejected (Anchor key))))
  ∧ ((∀ key, names v key → named_anchor key = false) → ∀ key, parse_updates raw ≠ inl (Anchor key)).
Proof.
  pose proof (anchor_key_spec (S (depth v)) v ltac:(lia)) as Ha. split.
  - intros (key & Hn & Hk). destruct (anchor_key v) as [key'|] eqn:E; [|by rewrite (Ha key Hn) in Hk].
    exists key'. split; [apply Ha|]. unfold parse_updates, write_updates, read_value. rewrite Hraw, E. done.
  - intros Hn key. unfold parse_updates, read_value. rewrite Hraw. destruct (anchor_key v) as [key'|] eqn:E.
    + destruct Ha as [H1 H2]. by rewrite (Hn key' H1) in H2.
    + destruct (updates_of_value v) as [d|]; [|done]. unfold validated. by destruct (validate d) as [[]|].
Qed.

(** C26: a write of the update document is all or nothing, and what it accepts
    the reader accepts. Whatever I/O calls fail, it answers. At the end and at
    every power cut on the way, once the document is at rest, a cut leaves the
    document it was, or the patched one, valid and stamped, whole enough for the
    reader to load it; other files at rest stay as they were. An accepted
    patch's document is there after any cut; a rejected patch, or one over a
    document that does not load, changes nothing. *)
Theorem update_write_sound `{CS : ConfigSerde} {CL : ConfigLaws} path patch w (Hq : quiet path w) :
  let o := write_updates path patch w in
  (∀ d t, durable o d → cut d t →
     (t !! path = seen w !! path ∨ ∃ doc, patched path patch w doc ∧ validate doc = Ok tt ∧ reads_as path (t !! path) (stamped doc))
     ∧ ∀ p, p ≠ path → p ≠ temp_of path → quiet p w → t !! p = seen w !! p)
  ∧ match o_result o with
    | Ok (inr doc) => patched path patch w doc ∧ validate doc = Ok tt ∧ ∀ t, cut (o_state o) t → reads_as path (t !! path) (stamped doc)
    | Ok (inl (Unwritable _)) => ∃ doc, patched path patch w doc ∧ validate doc = Ok tt
    | Ok (inl _) => untouched w (o_state o)
    | Err _ => False
    end.
Proof.
  intros o. pose proof (write_updates_safe path patch w) as HS. fold o in HS. split.
  - intros d t Hd Hc. destruct (safe_durable _ _ _ HS d Hd) as [Hu|(doc & Hp & Hun & Hval & text & Ht & Hr)].
    + split; [left; by apply (untouched_cut w d)|intros p _ _ Hp; by apply (untouched_cut w d)].
    + split; [|intros p H1 H2 H3; by eapply replaces_others_cut]. destruct (replaces_cut _ _ _ _ _ Hr Hq Hc) as [E|E]; [by left|right].
      exists doc. split; [done|]. split; [done|]. rewrite E. by apply written_reads.
  - destruct HS as (H1 & _ & _). destruct (total_write path patch w) as [r Er]. fold o in Er. rewrite Er. specialize (H1 r Er). destruct r as [[]|doc]; try exact H1.
    destruct H1 as (Hp & Hv & Hu & text & Ht & Hs & Hk & Hl & _). split; [done|]. split; [done|]. intros t Hc.
    assert (E : t !! path = Some (Regular (str_bytes (text +:+ String LF EmptyString)))) by (destruct (Hc path) as [E|[E|[E _]]]; [by rewrite E..|done]).
    rewrite E. by apply written_reads.
Qed.

(** ** Witnesses *)

Section toy.
(** Two documents, and a patch that turns the first into the second. *)
Let online : UpdatesDocument := stamped default_updates.
Let patch : UpdatesPatch :=
  {| up_policy := None; up_check_interval_minutes := None; up_check_at := None; up_channels := None; up_reboot_policy := Some Window;
     up_source := None; up_network := Some {| np_mode := Offline; np_metered_allows_fetch := false |}; up_maintenance := None;
     up_reboot_gate := None |}.
Let offline : UpdatesDocument := stamped (apply_patch default_updates patch).
#[local] Instance toy_serde : ConfigSerde := {|
  parse_json raw := if bool_decide (raw = "1" +:+ String LF EmptyString) then Some (Object [("online", Null)])
                    else if bool_decide (raw = "2" +:+ String LF EmptyString) then Some (Object [("offline", Null)])
                    else if bool_decide (raw = "patch") then Some (Object [("patch", Null)])
                    else if bool_decide (raw = "anchor") then Some (Array [Object [("a", Object [("Trust", Null)])]]) else None;
  updates_of_value v := match v with Object [(k, _)] => if bool_decide (k = "online") then Some online
    else if bool_decide (k = "offline") then Some offline else None | _ => None end;
  patch_of_value v := match v with Object [(k, _)] => if bool_decide (k = "patch") then Some patch else None | _ => None end;
  updates_to_json d := if bool_decide (d = online) then Some "1" else if bool_decide (d = offline) then Some "2" else None;
  manifest_of_json _ := None;
|}.
#[local] Instance toy_laws : ConfigLaws.
Proof.
  split.
  - intros v d k H Hk. exfalso. revert H Hk. unfold updates_of_value, toy_serde. destruct v as [| | | |l|[|[k' x] []]]; try done.
    repeat case_bool_decide; try done; intros [= <-]; by intros ?%elem_of_nil.
  - intros v p k H Hk. exfalso. revert H Hk. unfold patch_of_value, toy_serde. destruct v as [| | | |l|[|[k' x] []]]; try done.
    case_bool_decide; [|done]. intros [= <-]. by intros ?%elem_of_nil.
  - intros d text. unfold updates_to_json, toy_serde. repeat case_bool_decide; by intros [= <-].
  - intros d text. unfold updates_to_json, toy_serde. repeat case_bool_decide; try done; intros [= <-]; subst d.
    + exists (Object [("online", Null)]). split; [done|]. split; [done|]. intros key Hn Ha. exfalso.
      inversion Hn as [? ? ? Hin|? ? ? ? Hin Hc|]; subst; apply list_elem_of_singleton in Hin as [= -> ->]; [done|by inversion Hc].
    + exists (Object [("offline", Null)]). split; [done|]. split; [done|]. intros key Hn Ha. exfalso.
      inversion Hn as [? ? ? Hin|? ? ? ? Hin Hc|]; subst; apply list_elem_of_singleton in Hin as [= -> ->]; [done|by inversion Hc].
Qed.

Let stored : Disk := at_rest {[ "/mica/config/updates.json" := Regular (str_bytes ("1" +:+ String LF EmptyString)) ]} [].
Lemma anchors_refused_witness :
  let v := Array [Object [("a", Object [("Trust", Null)])]] in
  ((∃ key, names v key ∧ named_anchor key = true) → ∃ key, names v key ∧ parse_updates "anchor" = inl (Anchor key)
     ∧ ∀ path w, o_result (write_updates path "anchor" w) = Ok (inl (Rejected (Anchor key))))
  ∧ ((∀ key, names v key → named_anchor key = false) → ∀ key, parse_updates "anchor" ≠ inl (Anchor key)).
Proof. exact (anchors_refused "anchor" _ eq_refl). Defined.
Lemma update_write_sound_witness :
  let path := "/mica/config/updates.json" in
  quiet path stored
  ∧ ∃ doc, o_result (write_updates path "patch" stored) = Ok (inr doc)
  ∧ ∀ t, cut (o_state (write_updates path "patch" stored)) t → reads_as path (t !! path) (stamped doc).
Proof.
  intros path. assert (Hq : quiet path stored) by (split; [reflexivity|apply not_elem_of_empty]). split; [exact Hq|].
  destruct (update_write_sound path "patch" stored Hq) as [_ H].
  assert (E : o_result (write_updates path "patch" stored) = Ok (inr (apply_patch online patch))) by (vm_compute; reflexivity).
  exists (apply_patch online patch). split; [exact E|]. rewrite E in H. apply H.
Defined.
(** A patch accepted over the stored document. *)
Example update_written :
  let o := write_updates "/mica/config/updates.json" "patch" stored in
  o_result o = Ok (inr (stamped (apply_patch default_updates patch)))
  ∧ seen (o_state o) !! "/mica/config/updates.json" = Some (Regular (str_bytes ("2" +:+ String LF EmptyString))).
Proof. vm_compute. by split. Qed.

End toy.

(** [u32::from_str] takes a sign, so a clock face need not be digits. *)
Example signed_clock : minutes_of_day "+5:+9" = Some 309 ∧ validate_window {| mw_days := []; mw_start := "+5:+9"; mw_end := "06:00" |} = Ok tt.
Proof. by split. Qed.

End Configuration.
