(* ===== verification/UpdatePolicy.v ===== *)
(** What the update policy lets a device do now
    ([src/crates/micad/src/update_policy.rs]), whether it believes its clock
    ([time_status.rs]), and the deployments' status it judges by
    ([deployment.rs]). *)
From Stdlib Require Import Ascii.
From S2P Require Import Prelude Text Maps Chars Boot DotPath Configuration.
Import DotPath(value(..), as_object).
Import Configuration.

Module UpdatePolicy.

(** * Reasons *)

Record CodedReason := { cr_code : string; cr_text : string }.
#[export] Instance CodedReason_eq_dec : EqDecision CodedReason.
Proof. solve_decision. Defined.
Definition coded (code text : string) : CodedReason := {| cr_code := code; cr_text := text |}.

Definition DEFERRALS : list string :=
  ["check-refused"; "no-newer-release"; "fetch-refused"; "clock-untrusted"; "outside-window"; "deployment-status-unknown";
   "reboot-pending"; "workspace-unready"; "recheck-failed"; "recheck-refused"; "superseded"; "install-refused"; "reboot-gate-closed"].
Definition UNKNOWN : string := "unknown".
Definition deferral_code (reason : string) : string := if bool_decide (reason ∈ DEFERRALS) then reason else UNKNOWN.

(** * Refusals *)

Record LoadedPolicy := { lp_policy : EffectivePolicy; lp_error : option string }.
(** [PolicyStore::load]: no file, the document, or why it did not load. *)
Definition load_policy (baked : BakedUpdate) (document : option (ConfigError + UpdatesDocument)) (say : ConfigError → string) : LoadedPolicy :=
  match document with
  | None => {| lp_policy := resolve baked default_updates; lp_error := None |}
  | Some (inr d) => {| lp_policy := resolve baked d; lp_error := None |}
  | Some (inl e) => {| lp_policy := unknown_selection; lp_error := Some (say e) |}
  end.

Definition auto_check_minutes (l : LoadedPolicy) : option Z :=
  selection ← ep_selection (lp_policy l);
  match sl_mode selection with
  | Off => None
  | Check | Auto => if 0 <? sl_check_interval_minutes selection then Some (sl_check_interval_minutes selection) else None
  end.
Definition auto_check_at (l : LoadedPolicy) : option string := _ ← auto_check_minutes l; ep_check_at (lp_policy l).

Definition unknown_selection_refusal : CodedReason :=
  coded "policy-not-loaded" "the update policy document did not load, so this device's update source is unknown".
Definition check_refusal (l : LoadedPolicy) : option CodedReason :=
  match lp_error l with
  | Some error => Some (coded "policy-invalid" ("update policy file is invalid (" +:+ error +:+ ")"))
  | None =>
      match ep_selection (lp_policy l) with
      | None => Some unknown_selection_refusal
      | Some selection =>
          match np_mode (ep_network (lp_policy l)) with
          | Offline => Some (coded "network-offline" "network mode is offline: updates arrive by import only")
          | Online | Metered =>
              match sl_url selection with
              | None => Some (coded "no-source-configured" "no update source configured (source.url is unset)")
              | Some _ => None
              end
          end
      end
  end.
Definition fetch_refusal (l : LoadedPolicy) : option CodedReason :=
  match check_refusal l with
  | Some refusal => Some refusal
  | None =>
      if bool_decide (np_mode (ep_network (lp_policy l)) = Metered) && negb (np_metered_allows_fetch (ep_network (lp_policy l)))
      then Some (coded "network-metered" "network mode is metered: bundle downloads are refused (set network.meteredAllowsFetch to allow them)")
      else None
  end.
Definition install_refusal (l : LoadedPolicy) (now : Z) : option string :=
  match lp_error l with
  | Some error => Some ("update policy file is invalid (" +:+ error +:+ ")")
  | None =>
      let windows := ep_windows (lp_policy l) in
      if is_nil windows || existsb (λ w, contains w now) windows then None
      else Some "outside every configured maintenance window"
  end.

(** * The reboot gate *)

Record GateVerdict := { gv_safe : bool; gv_reasons : list string; gv_codes : list string; gv_overridden : bool }.
Definition get_str (key : string) (v : value) : string :=
  match as_object v with
  | Some m => match smap_get key m with Some (Str s) => s | _ => "" end
  | None => ""
  end.
Definition health_block (policy : RebootGatePolicy) (e : string * value) : option string :=
  if bool_decide (get_str "status" e.2 ∈ rg_blocking_statuses policy)
  then Some ("health." +:+ e.1 +:+ " reports `" +:+ get_str "status" e.2 +:+ "`: " +:+ get_str "detail" e.2)
  else None.
Definition health_blocks (policy : RebootGatePolicy) (health : value) : list string :=
  match as_object health with None => [] | Some entries => omap (health_block policy) (entries : list (string * value)) end.
Definition evaluate_gate (policy : RebootGatePolicy) (health : value) (installing override_active : bool) : GateVerdict :=
  let install := if installing then ["an update install is writing the other slot; wait for it to finish"] else [] in
  let blocks := health_blocks policy health in
  let reasons := install ++ if override_active then [] else blocks in
  {| gv_safe := is_nil reasons; gv_reasons := reasons;
     gv_codes := (if installing then ["install-in-flight"] else []) ++ if override_active then [] else map (λ _, "health-blocking") blocks;
     gv_overridden := override_active && negb (is_nil blocks) && is_nil install |}.

(** * The clock *)

Inductive SyncStatus := Synchronized | Polling | OfflineDegraded | InvalidSource | Unknown.
#[export] Instance SyncStatus_eq_dec : EqDecision SyncStatus.
Proof. solve_decision. Defined.
Definition sync_str (s : SyncStatus) : string :=
  match s with
  | Synchronized => "synchronized" | Polling => "polling" | OfflineDegraded => "offline-degraded"
  | InvalidSource => "invalid-source" | Unknown => "unknown"
  end.
(** The last NTP reply; its offset is left out. *)
Record NtpSample := { ns_leap : Z; ns_stratum : Z; ns_spike : bool; ns_packet_count : Z }.
Record TimesyncEvidence := {
  te_service_reachable : bool; te_ntp_synchronized : option bool; te_server_name : option string;
  te_server_address : option string; te_sample : option NtpSample;
}.
Definition unusable (s : NtpSample) : bool := (ns_leap s =? 3) || (ns_stratum s =? 0) || (16 <=? ns_stratum s).
Definition classify (e : TimesyncEvidence) : SyncStatus :=
  if negb (te_service_reachable e) then Unknown
  else if match te_sample e with Some s => unusable s | None => false end then InvalidSource
  else
    match te_ntp_synchronized e with
    | None => Unknown
    | Some true => Synchronized
    | Some false =>
        if bool_decide (is_Some (te_server_name e)) || bool_decide (is_Some (te_server_address e)) then Polling else OfflineDegraded
    end.

Record ClockTrust := { ck_status : option SyncStatus; ck_floor_advanced : bool }.
Definition believed (c : ClockTrust) : bool := bool_decide (ck_status c = Some Synchronized) || ck_floor_advanced c.
Definition untrusted_reason (c : ClockTrust) : option string :=
  if believed c then None
  else Some ("the clock is not one this device believes: time synchronization reports `"
             +:+ match ck_status c with Some s => sync_str s | None => "unknown" end
             +:+ "` and the saved floor has not advanced since boot").

(** * Deployments *)

Definition valid_id (id : string) : bool := (str_len id =? 64) && all_bytes (λ b, is_digit b || is_hex_lower b) id.
(** [Path::file_name]: the last component, unless the path ends in [..]. *)
Definition file_name (path : string) : option string :=
  let components := filter (λ c, c ≠ "" ∧ c ≠ ".") (split "/" path) in
  name ← last components;
  if bool_decide (name = "..") then None else Some name.
Definition staged_id (path : string) : option (string * option string) :=
  name ← file_name path;
  stem ← strip_suffix ".json" name;
  '(id, kind) ← match strip_prefix "set-" stem with
                | Some rest => '(kind, id) ← split_once "-" rest; if is_set_kind kind then Some (id, Some kind) else None
                | None => Some (stem, None)
                end;
  if valid_id id then Some (id, kind) else None.
Definition staged_set_name (kind id : string) : string := "set-" +:+ kind +:+ "-" +:+ id +:+ ".json".

Inductive BootBackend := Uefi | UbootFit.
Record BootStatus := {
  bs_backend : BootBackend; bs_deployment_id : string; bs_entry : string; bs_kernel_id : string; bs_rootfs_id : string;
  bs_content_verified : bool; bs_secure_boot : bool; bs_boot_verified : bool;
}.
Record DeployState := {
  ds_highest_generation : Z; ds_current : option string; ds_fallback : option string; ds_candidate : option string;
  ds_failed : list string;
}.
Record Deployment := {
  dp_id : string; dp_generation : Z; dp_tries_left : option Z; dp_version : string; dp_kernel_id : string; dp_rootfs_id : string;
}.
Record CoreSetStatus := { cs_id : string; cs_channel : string; cs_generation : Z; cs_version : string }.
Record CoreStatus := {
  co_current : option CoreSetStatus; co_pending : option CoreSetStatus; co_boot_set_id : option string;
}.
Record Status := { st_boot : BootStatus; st_state : DeployState; st_deployments : list Deployment; st_core : CoreStatus }.

Fixpoint deployments_ok (seen : list Deployment) (l : list Deployment) : result unit :=
  match l with
  | [] => Ok tt
  | d :: rest =>
      ensure valid_id (dp_id d) && valid_id (dp_kernel_id d) && valid_id (dp_rootfs_id d) && (0 <? dp_generation d)
             && match dp_tries_left d with Some tries => tries <=? 3 | None => true end else "invalid deployment identity" in
      ensure negb (existsb (λ o, bool_decide (dp_id o = dp_id d) || (dp_generation o =? dp_generation d)) seen)
        else "ambiguous deployment status" in
      deployments_ok (seen ++ [d]) rest
  end.
Definition booted (s : Status) : option Deployment :=
  head (filter (λ d, dp_id d = bs_deployment_id (st_boot s)) (st_deployments s)).
Definition entry_ok (b : BootStatus) : result unit :=
  match bs_backend b with
  | Uefi =>
      ensure existsb (λ suffix, bool_decide (bs_entry b = "mica-" +:+ bs_deployment_id b +:+ suffix +:+ ".conf"))
               [""; "+3"; "+2-1"; "+1-2"; "+0-3"] else "running boot entry identity mismatch" in
      ensure bool_decide (bs_boot_verified b = bs_secure_boot b) else "inconsistent UEFI verification evidence" in Ok tt
  | UbootFit =>
      ensure bool_decide (bs_entry b = "fit:" +:+ bs_deployment_id b) else "running FIT entry identity mismatch" in
      ensure negb (bs_secure_boot b) else "inconsistent FIT verification evidence" in Ok tt
  end.
Definition known_id (l : list Deployment) (id : option string) : bool :=
  match id with Some id => existsb (λ d, bool_decide (dp_id d = id)) l | None => true end.
Definition set_id_ok (set : option CoreSetStatus) : bool := match set with Some set => valid_id (cs_id set) | None => true end.
(** [Status::parse] of the [size] bytes [serde_json] reads as [s]. *)
Definition status_ok (size : Z) (s : Status) : result unit :=
  ensure size <=? 65536 else "deployment status exceeds bound" in
  ensure (len (st_deployments s) <=? 16) && (len (ds_failed (st_state s)) <=? 128) else "deployment count exceeds bound" in
  let? _ := deployments_ok [] (st_deployments s) in
  ensure set_id_ok (co_current (st_core s)) && set_id_ok (co_pending (st_core s)) else "invalid core set identity" in
  match booted s with
  | None => Err (Msg "running deployment is absent")
  | Some d =>
      let? _ := entry_ok (st_boot s) in
      ensure bs_content_verified (st_boot s) && bool_decide (dp_kernel_id d = bs_kernel_id (st_boot s))
             && bool_decide (dp_rootfs_id d = bs_rootfs_id (st_boot s)) else "running component identity mismatch" in
      ensure known_id (st_deployments s) (ds_current (st_state s)) && known_id (st_deployments s) (ds_fallback (st_state s))
             && known_id (st_deployments s) (ds_candidate (st_state s)) else "state references an absent deployment" in
      ensure forallb valid_id (ds_failed (st_state s)) else "invalid failed deployment ID" in
      Ok tt
  end.

Definition update_pending (s : Status) : bool :=
  bool_decide (is_Some (ds_candidate (st_state s))) || bool_decide (is_Some (co_pending (st_core s))).
Definition core_phase (c : CoreStatus) : option (string * string) :=
  pending ← co_pending c;
  Some (if bool_decide (co_boot_set_id c = Some (cs_id pending))
        then ("validating", "The running core set awaits health confirmation")
        else ("reboot-required", "Core set " +:+ cs_version pending +:+ " (" +:+ cs_channel pending +:+ " generation "
                +:+ to_dec (cs_generation pending) +:+ ") is installed and awaits reboot")).
Definition phase (s : Status) : string * string :=
  match core_phase (st_core s) with
  | Some p => p
  | None =>
      let running := bs_deployment_id (st_boot s) in
      if bool_decide (running ∈ ds_failed (st_state s))
      then ("reboot-required", "The running deployment was rejected; reboot to the retained fallback")
      else
        match ds_candidate (st_state s) with
        | Some candidate =>
            if negb (bool_decide (candidate = running))
            then ("reboot-required", "Deployment " +:+ candidate +:+ " is installed and awaits reboot")
            else ("validating", "The running candidate awaits health confirmation")
        | None =>
            if negb (bool_decide (ds_current (st_state s) = Some running))
            then ("validating", "The running deployment awaits health confirmation")
            else if match booted s with Some d => dp_generation d <? ds_highest_generation (st_state s) | None => false end
                    && negb (is_nil (ds_failed (st_state s)))
            then ("rolled-back", "The system is running a retained deployment after a failed update")
            else ("succeeded", "The boot health gate confirmed this deployment")
        end
  end.
Definition no_usable_fallback (s : Status) : bool :=
  match ds_fallback (st_state s) with
  | None => true
  | Some id =>
      bool_decide (id = bs_deployment_id (st_boot s)) || bool_decide (id ∈ ds_failed (st_state s))
      || negb (existsb (λ d, bool_decide (dp_id d = id) && negb (bool_decide (dp_tries_left d = Some 0))) (st_deployments s))
  end.
Definition rollback_reason (s : Status) : option string :=
  if bool_decide (is_Some (ds_candidate (st_state s))) then Some "candidate_pending"
  else if negb (bool_decide (ds_current (st_state s) = Some (bs_deployment_id (st_boot s))))
          || bool_decide (bs_deployment_id (st_boot s) ∈ ds_failed (st_state s)) then Some "running_not_confirmed"
  else if no_usable_fallback s then Some "no_usable_fallback" else None.
Definition rollback_target (s : Status) : option string :=
  match rollback_reason s with None => ds_fallback (st_state s) | Some _ => None end.

(** * Properties *)

(** A component reports a status the policy blocks on. *)
Definition blocking (policy : RebootGatePolicy) (health : value) : Prop :=
  ∃ entries component entry, as_object health = Some entries ∧ (component, entry) ∈ entries
    ∧ get_str "status" entry ∈ rg_blocking_statuses policy.
Lemma blocking_blocks policy health : blocking policy health ↔ health_blocks policy health ≠ [].
Proof.
  unfold health_blocks, blocking. destruct (as_object health) as [entries|]; [|split; [by intros (? & ? & ? & ? & _)|done]]. split.
  - intros (es & c & v & [= <-] & Hin & Hb) E. apply (not_elem_of_nil ("health." +:+ c +:+ " reports `" +:+ get_str "status" v +:+ "`: " +:+ get_str "detail" v)).
    rewrite <-E. apply list_elem_of_omap. exists (c, v). split; [done|]. unfold health_block. by rewrite bool_decide_eq_true_2.
  - intros Hn. destruct (omap (health_block policy) (entries : list (string * value))) as [|x l] eqn:E; [done|].
    assert (Hx : x ∈ omap (health_block policy) (entries : list (string * value))) by (rewrite E; by left).
    apply list_elem_of_omap in Hx as ([c v] & Hin & Hc). unfold health_block in Hc. case_bool_decide; [|done]. by exists entries, c, v.
Qed.

(** The reboot gate opens exactly when no install is in flight and no
    component reports a blocking status or an override is active; the override
    never lifts an install; it is reported as what opened the gate exactly when
    it did; and each reason has its code at the same index. *)
Theorem gate_exact policy health installing override_active :
  let v := evaluate_gate policy health installing override_active in
  (gv_safe v = true ↔ installing = false ∧ (override_active = true ∨ ¬ blocking policy health))
  ∧ (gv_overridden v = true ↔ gv_safe v = true ∧ override_active = true ∧ blocking policy health)
  ∧ (gv_safe v = true ↔ gv_reasons v = []) ∧ length (gv_reasons v) = length (gv_codes v)
  ∧ (installing = true → head (gv_codes v) = Some "install-in-flight").
Proof.
  pose proof (blocking_blocks policy health) as Hb. intros v. unfold v, evaluate_gate. cbn [gv_safe gv_reasons gv_codes gv_overridden].
  assert (Hc : blocking policy health ∧ (∃ x l, health_blocks policy health = x :: l) ∨ ¬ blocking policy health ∧ health_blocks policy health = []).
  { destruct (health_blocks policy health) as [|x l]; [right|left]; (split; [|by eauto]); [by intros ?%Hb|by apply Hb]. }
  clear Hb. destruct Hc as [[HB (x & l & ->)]|[HB ->]], installing, override_active; cbn; rewrite ?length_map;
    repeat split; intros; try done; try tauto; try discriminate; by intuition.
Qed.

(** A staged file's name reads one way: [staged_id] answers an id and a
    kind exactly for the name that id and kind are staged under. *)
Theorem staged_id_exact path name id kind (Hname : file_name path = Some name) :
  staged_id path = Some (id, kind) ↔
    valid_id id = true ∧ match kind with
                         | Some kind => is_set_kind kind = true ∧ name = staged_set_name kind id
                         | None => name = id +:+ ".json"
                         end.
Proof.
  unfold staged_id. rewrite Hname. cbn [mbind option_bind].
  assert (Hset : ∀ id, valid_id id = true → strip_prefix "set-" id = None).
  { intros i Hi. destruct (strip_prefix "set-" i) as [r|] eqn:E; [|done]. apply strip_prefix_spec in E as ->.
    unfold valid_id in Hi. bools. by match goal with H : all_bytes _ _ = true |- _ => vm_compute in H end. }
  split.
  - intros H. apply bind_Some in H as (stem & Es%strip_suffix_spec & H).
    apply bind_Some in H as ([i k] & Hk & H). destruct (valid_id i) eqn:Hi; [|done]. injection H as -> ->. split; [done|].
    destruct (strip_prefix "set-" stem) as [rest|] eqn:Ep.
    + apply strip_prefix_spec in Ep. apply bind_Some in Hk as ([kd i'] & Eo & Hk). apply split_once_spec in Eo as [Eo _].
      destruct (is_set_kind kd) eqn:Ek; [|done]. injection Hk as <- <-. split; [done|].
      rewrite Es, Ep, Eo. unfold staged_set_name. rewrite !append_assoc. done.
    + injection Hk as <- <-. exact Es.
  - intros [Hi Hk]. destruct kind as [kd|].
    + destruct Hk as [Hkd ->]. unfold staged_set_name. rewrite <-!append_assoc, strip_suffix_app. cbn [mbind option_bind].
      rewrite !append_assoc, strip_prefix_app.
      assert (Eo : split_once "-" (kd +:+ "-" +:+ id) = Some (kd, id)).
      { apply split_once_spec. split; [done|]. unfold is_set_kind in Hkd. bools. by eapply all_bytes_not_contains. }
      rewrite Eo. cbn [mbind option_bind]. rewrite Hkd. cbn [mbind option_bind]. by rewrite Hi.
    + subst name. rewrite strip_suffix_app. cbn [mbind option_bind]. rewrite (Hset id Hi). cbn [mbind option_bind]. by rewrite Hi.
Qed.
Lemma staged_id_exact_witness :
  staged_id "/mica/updates/verified/set-core-00000000000000000000000000000000000000000000000000000000000000aa.json"
    = Some ("00000000000000000000000000000000000000000000000000000000000000aa", Some "core") ↔
    valid_id "00000000000000000000000000000000000000000000000000000000000000aa" = true ∧ is_set_kind "core" = true
    ∧ "set-core-00000000000000000000000000000000000000000000000000000000000000aa.json"
      = staged_set_name "core" "00000000000000000000000000000000000000000000000000000000000000aa".
Proof.
  exact (staged_id_exact "/mica/updates/verified/set-core-00000000000000000000000000000000000000000000000000000000000000aa.json"
    "set-core-00000000000000000000000000000000000000000000000000000000000000aa.json" _ (Some "core") ltac:(by vm_compute)).
Defined.

Lemma deployments_ok_spec seen l : deployments_ok seen l = Ok tt →
  Forall (λ d, valid_id (dp_id d) = true) l ∧ NoDup (map dp_id l) ∧ NoDup (map dp_generation l)
  ∧ ∀ d o, d ∈ l → o ∈ seen → dp_id o ≠ dp_id d ∧ dp_generation o ≠ dp_generation d.
Proof.
  revert seen. induction l as [|d l IH]; intros seen H.
  { split; [constructor|]. split; [constructor|]. split; [constructor|]. by intros d o ?%elem_of_nil. }
  cbn [deployments_ok] in H. apply if_ok in H as [E1 H]. apply if_ok in H as [E2 H]. bools. apply IH in H as (I1 & I2 & I3 & I4).
  assert (Hd : ∀ o, o ∈ l → dp_id d ≠ dp_id o ∧ dp_generation d ≠ dp_generation o).
  { intros o Ho. apply I4; [done|]. apply elem_of_app. right. by left. }
  split; [by constructor|]. split; [|split].
  - cbn. constructor; [|done]. intros (o & E & Ho)%list_elem_of_fmap. by destruct (Hd o Ho).
  - cbn. constructor; [|done]. intros (o & E & Ho)%list_elem_of_fmap. by destruct (Hd o Ho).
  - intros o o' [->|Ho]%elem_of_cons Hs; [|apply I4; [done|]; apply elem_of_app; by left].
    apply not_true_iff_false in E2. split; intros E; apply E2, existsb_exists; exists o'; (split; [by apply list_elem_of_In|]).
    + by rewrite bool_decide_eq_true_2.
    + by rewrite E, Z.eqb_refl, orb_true_r.
Qed.

(** A rollback that a parsed status permits has somewhere to go: its target
    is a deployment the device holds, another than the running one, never
    rejected and with tries left, and the running one is confirmed with no
    candidate pending. *)
Theorem rollback_target_usable size s target (Hs : status_ok size s = Ok tt) (Ht : rollback_target s = Some target) :
  (∃ d, d ∈ st_deployments s ∧ dp_id d = target ∧ dp_tries_left d ≠ Some 0)
  ∧ target ≠ bs_deployment_id (st_boot s) ∧ target ∉ ds_failed (st_state s)
  ∧ ds_current (st_state s) = Some (bs_deployment_id (st_boot s)) ∧ ds_candidate (st_state s) = None
  ∧ ∃ d, booted s = Some d ∧ ∀ d', d' ∈ st_deployments s → dp_id d' = dp_id d → d' = d.
Proof.
  assert (Hr : rollback_reason s = None ∧ ds_fallback (st_state s) = Some target) by (unfold rollback_target in Ht; by destruct (rollback_reason s)).
  destruct Hr as [Hr Hf]. unfold rollback_reason in Hr.
  destruct (bool_decide (is_Some (ds_candidate (st_state s)))) eqn:Ec; [done|].
  destruct (negb (bool_decide (ds_current (st_state s) = Some (bs_deployment_id (st_boot s)))) || _) eqn:Er; [done|].
  destruct (no_usable_fallback s) eqn:En; [done|]. unfold no_usable_fallback in En. rewrite Hf in En. bools.
  assert (Hx : ∃ d, d ∈ st_deployments s ∧ dp_id d = target ∧ dp_tries_left d ≠ Some 0).
  { match goal with H : existsb _ _ = true |- _ => apply existsb_exists in H as (d & Hd & Hb) end. apply list_elem_of_In in Hd. bools.
    by exists d. }
  apply eq_None_not_Some in Ec || (apply bool_decide_eq_false, eq_None_not_Some in Ec).
  split; [exact Hx|]. split; [done|]. split; [done|]. split; [done|]. split; [done|].
  unfold status_ok in Hs. apply if_ok in Hs as [_ Hs]. apply if_ok in Hs as [_ Hs].
  destruct (deployments_ok [] (st_deployments s)) as [[]|] eqn:Ed; [|done]. cbn in Hs. apply if_ok in Hs as [_ Hs].
  destruct (booted s) as [d|] eqn:Eb; [|done]. exists d. split; [done|]. apply deployments_ok_spec in Ed as (_ & Hn & _ & _).
  intros d' Hd' E. assert (Hd : d ∈ st_deployments s).
  { unfold booted in Eb. apply head_Some_elem_of in Eb. by apply list_elem_of_filter in Eb as [_ ?]. }
  apply list_elem_of_lookup in Hd as [i Hi], Hd' as [j Hj]. assert (i = j) as ->; [|by rewrite Hi in Hj; injection Hj].
  eapply NoDup_lookup; [exact Hn|by rewrite list_lookup_fmap, Hi|]. rewrite list_lookup_fmap, Hj. cbn. by rewrite E.
Qed.

Section witness.
Let id (c : ascii) : string := "000000000000000000000000000000000000000000000000000000000000000" +:+ String c EmptyString.
Let status : Status :=
  {| st_boot := {| bs_backend := Uefi; bs_deployment_id := id "a"; bs_entry := "mica-" +:+ id "a" +:+ ".conf"; bs_kernel_id := id "c";
       bs_rootfs_id := id "d"; bs_content_verified := true; bs_secure_boot := true; bs_boot_verified := true |};
     st_state := {| ds_highest_generation := 2; ds_current := Some (id "a"); ds_fallback := Some (id "b"); ds_candidate := None; ds_failed := [] |};
     st_deployments := [ {| dp_id := id "a"; dp_generation := 2; dp_tries_left := None; dp_version := "2"; dp_kernel_id := id "c"; dp_rootfs_id := id "d" |};
                         {| dp_id := id "b"; dp_generation := 1; dp_tries_left := Some 3; dp_version := "1"; dp_kernel_id := id "c"; dp_rootfs_id := id "d" |} ];
     st_core := {| co_current := None; co_pending := None; co_boot_set_id := None |} |}.
Lemma rollback_target_usable_witness :
  (∃ d, d ∈ st_deployments status ∧ dp_id d = id "b" ∧ dp_tries_left d ≠ Some 0)
  ∧ id "b" ≠ bs_deployment_id (st_boot status) ∧ id "b" ∉ ds_failed (st_state status)
  ∧ ds_current (st_state status) = Some (bs_deployment_id (st_boot status)) ∧ ds_candidate (st_state status) = None
  ∧ ∃ d, booted status = Some d ∧ ∀ d', d' ∈ st_deployments status → dp_id d' = dp_id d → d' = d.
Proof. exact (rollback_target_usable 4096 status (id "b") ltac:(by vm_compute) ltac:(by vm_compute)). Defined.
End witness.

End UpdatePolicy.
