(* ===== verification/UpdateLifecycle.v ===== *)
(** The update lifecycle ([src/crates/micad/src/update_lifecycle.rs] and its
    modules [acquisition], [outcomes], [policy], [snapshot]): what the daemon
    records of checks, fetches and imports that [mica-deploy] runs for it, the
    guard that keeps them one at a time, and the reboot gate's override. *)
From Stdlib Require Import Ascii.
From S2P Require Import Prelude Text Maps Chars Boot DotPath Configuration UpdatePolicy.
Import DotPath(value(..), as_object, obj).
Import Configuration UpdatePolicy.

Module UpdateLifecycle.

(** * Paths *)

(** [Path]'s equality: the components, empty ones and inner dots left out. *)
Definition components (path : string) : bool * list string :=
  let absolute := starts_with "/" path in
  let plain := filter (λ c, c ≠ "" ∧ c ≠ ".") in
  (absolute, match split "/" path with
             | c :: rest => if bool_decide (c = ".") && negb absolute then "." :: plain rest else plain (c :: rest)
             | [] => []
             end).
Definition same_path (a b : string) : bool := bool_decide (components a = components b).
Definition join (dir name : string) : string := dir +:+ "/" +:+ name.
(** [Path::parent]'s components. *)
Definition parent (path : string) : option (bool * list string) :=
  let '(absolute, l) := components path in if is_nil l then None else Some (absolute, removelast l).

(** * The client's answers *)

Record ClientOutput := { co_code : option Z; co_signal : option Z; co_stdout : string; co_stderr : string }.
Record Available := { av_deployment_id : string; av_version : string; av_set_kind : option string }.
Inductive CheckOutcome := Selected (a : Available) | NothingSelected.
Record Unready := { ur_status : string; ur_kind : string; ur_detail : string }.
Definition unready_reason (u : Unready) : string := ur_status u +:+ " " +:+ ur_kind u +:+ ": " +:+ ur_detail u.
Inductive ProbeOutcome := Ready (report : value) | NotReady (u : Unready).
Inductive FetchOutcome := Staged (path : string) | NothingStaged.
Inductive Settled (T : Type) := Done (t : T) | NoneCompatible | SettledUnready (u : Unready) | SettledFailed (r : CodedReason).
Arguments Done {T} _.
Arguments NoneCompatible {T}.
Arguments SettledUnready {T} _.
Arguments SettledFailed {T} _.
Inductive Failure := FailedUnready (u : Unready) | FailedError (r : CodedReason).
Inductive Refusal := RefusedPolicy (m : string) | RefusedBusy (m : string) | RefusedUnavailable (m : string) | RefusedInvalid (m : string).
Definition message (r : Refusal) : string :=
  match r with RefusedPolicy m | RefusedBusy m | RefusedUnavailable m | RefusedInvalid m => m end.

(** [serde_json] and the calendar's RFC 3339 text. *)
Class Formats := { json_of : string → option value; rfc3339 : Z → string }.

Definition signal_name (signal : Z) : option string :=
  smap_get (to_dec signal)
    [("1", "SIGHUP"); ("2", "SIGINT"); ("3", "SIGQUIT"); ("4", "SIGILL"); ("5", "SIGTRAP"); ("6", "SIGABRT"); ("7", "SIGBUS");
     ("8", "SIGFPE"); ("9", "SIGKILL"); ("11", "SIGSEGV"); ("13", "SIGPIPE"); ("15", "SIGTERM"); ("31", "SIGSYS")].
Definition exit_reason (verb : string) (o : ClientOutput) : CodedReason :=
  let reason := trim (default "" (last (lines (co_stderr o)))) in
  let killed :=
    verb +:+ match co_signal o with
             | Some signal => " was killed by signal " +:+ to_dec signal
                 +:+ match signal_name signal with Some name => " (" +:+ name +:+ ")" | None => "" end
             | None => " was killed by a signal"
             end in
  match co_code o with
  | Some code =>
      coded "client-exit-failure"
        (if is_empty reason then verb +:+ " failed with exit " +:+ to_dec code
         else verb +:+ " failed (exit " +:+ to_dec code +:+ "): " +:+ reason)
  | None => coded "client-spawn-failed" (if is_empty reason then killed else killed +:+ ": " +:+ reason)
  end.

Definition get (key : string) (v : value) : option value := m ← as_object v; smap_get key m.
Definition as_str (v : value) : option string := match v with Str s => Some s | _ => None end.
Definition get_text (key : string) (v : value) : option string := x ← get key v; as_str x.
Definition as_u64 (v : value) : option Z := match v with Number n => parse_u64 n | _ => None end.

Section client.
Context `{FM : Formats}.

Definition unparseable (text : string) : CodedReason := coded "client-output-unparseable" text.
Definition client_json (operation : string) (o : ClientOutput) : CodedReason + value :=
  if bool_decide (co_code o = Some 0) then
    match json_of (co_stdout o) with Some v => inr v | None => inl (unparseable ("invalid " +:+ operation +:+ " JSON")) end
  else inl (exit_reason operation o).

(** [parse_check] and [parse_set_check] read the same shape under two names. *)
Definition parse_selection (operation id_key body_key what : string) (kind : option string) (o : ClientOutput) : CodedReason + CheckOutcome :=
  match client_json operation o with
  | inl e => inl e
  | inr v =>
      match get "selected" v with
      | Some Null => inr NothingSelected
      | selected =>
          match (selected ← selected;
                 id ← get_text id_key selected;
                 body ← get body_key selected;
                 version ← get_text "version" body;
                 if negb (valid_id id) || is_empty version then None
                 else Some {| av_deployment_id := id; av_version := version; av_set_kind := kind |}) with
          | Some a => inr (Selected a)
          | None => inl (unparseable what)
          end
      end
  end.
Definition parse_check : ClientOutput → CodedReason + CheckOutcome :=
  parse_selection "check" "deploymentId" "deployment" "check did not return a deployment selection" None.
Definition parse_set_check (kind : string) : ClientOutput → CodedReason + CheckOutcome :=
  parse_selection "set-check" "setId" "set" "set-check did not return a set selection" (Some kind).
Definition parse_waits_for_system (o : ClientOutput) : option value :=
  v ← json_of (co_stdout o);
  waiting ← get "waitsForSystem" v;
  id ← get_text "id" waiting;
  generation ← get "generation" waiting;
  generation ← as_u64 generation;
  reason ← get_text "reason" waiting;
  if valid_id id
  then Some (obj [("id", Str id); ("generation", Number (to_dec generation)); ("reason", Str (String.concat "" (take 512 (chars reason))))])
  else None.
Definition parse_probe (o : ClientOutput) : CodedReason + ProbeOutcome :=
  if bool_decide (co_code o = Some 0) then
    match client_json "probe" o with
    | inl e => inl e
    | inr v =>
        if bool_decide (get_text "status" v = Some "ready") then inr (Ready v)
        else inl (unparseable "probe did not report a ready workspace")
    end
  else inr (NotReady {| ur_status := "degraded"; ur_kind := "probe-failed"; ur_detail := trim (co_stderr o) |}).
Definition parse_fetch (o : ClientOutput) (verified_dir : string) : CodedReason + FetchOutcome :=
  match client_json "fetch" o with
  | inl e => inl e
  | inr Null => inr NothingStaged
  | inr v =>
      match (id ← get_text "id" v;
             path ← get_text "path" v;
             objects ← get_text "objects" v;
             let name := match staged_id path with
                         | Some (staged, Some kind) => if bool_decide (staged = id) then staged_set_name kind id else id +:+ ".json"
                         | _ => id +:+ ".json"
                         end in
             if negb (valid_id id) || negb (same_path path (join verified_dir name)) || negb (same_path objects (join verified_dir "objects"))
             then None else Some path) with
      | Some path => inr (Staged path)
      | None => inl (coded "unverified-deployment-path" "fetch did not return a verified deployment descriptor")
      end
  end.
End client.

(** * The machine *)

Record Deferral := { df_reason : string; df_detail : string; df_since : Z; df_at : Z; df_count : Z }.
Record OverrideRecord := { or_expires_at : Z; or_requested_by : string }.
Record Machine := {
  mc_operation : option string; mc_failed : option CodedReason; mc_unready : option Unready; mc_workspace : option value;
  mc_available : option Available; mc_descriptor : option string; mc_last_check : option string;
  mc_boot_phase : option (string * string); mc_override : option OverrideRecord; mc_deferred : option Deferral;
  mc_waits_for_system : option value; mc_core_check_failed : option CodedReason;
}.
Definition new_machine : Machine :=
  {| mc_operation := None; mc_failed := None; mc_unready := None; mc_workspace := None; mc_available := None; mc_descriptor := None;
     mc_last_check := None; mc_boot_phase := None; mc_override := None; mc_deferred := None; mc_waits_for_system := None;
     mc_core_check_failed := None |}.

(** The daemon around the lifecycle: its policy file, the client, the live
    state, the clock, and the bus layer's install flag. *)
Class UpdateHost (W : Type) := {
  uh_policy : W → LoadedPolicy; uh_unavailable : W → option string;
  uh_run : list string → W → option ClientOutput * W;
  uh_health : W → value; uh_record : value → W → W; uh_now : W → Z; uh_installing : W → bool;
}.

(** * The snapshot *)

Definition opt {A} (f : A → value) (o : option A) : value := match o with Some a => f a | None => Null end.
Definition channels_json (channels : smap string) : value := Object (map (λ e, (e.1, Str e.2)) channels).
(** The reported state, its reason and its code. *)
Definition snapshot_state (m : Machine) (installing : bool) : string * option string * option string :=
  if installing then ("installing", None, None)
  else
    match mc_operation m, mc_unready m, mc_failed m, mc_descriptor m, mc_boot_phase m with
    | Some operation, _, _, _, _ => (operation, None, None)
    | _, Some unready, _, _, _ => ("update-unavailable", Some (unready_reason unready), Some (ur_kind unready))
    | _, _, Some failed, _, _ => ("failed", Some (cr_text failed), Some (cr_code failed))
    | _, _, _, Some _, _ => ("ready", Some "a verified descriptor is staged for install", None)
    | _, _, _, _, Some (phase, why) => (phase, Some why, None)
    | _, _, _, _, _ => ("idle", None, None)
    end.
Definition when_some {A} (o : option A) (f : A → list (string * value)) : list (string * value) :=
  match o with Some a => f a | None => [] end.
Definition kind_word {A} (kind : option A) : value := Str (match kind with Some _ => "set" | None => "deployment" end).

Section snapshot.
Context `{FM : Formats}.

Definition workspace_entry (m : Machine) (root : string) : value :=
  obj (("root", Str root) ::
       match mc_unready m, mc_workspace m with
       | Some u, _ => [("status", Str (ur_status u)); ("kind", Str (ur_kind u)); ("detail", Str (ur_detail u))]
       | None, Some report =>
           ("status", Str "ready") :: when_some (as_object report) (λ l, filter (λ e, e.1 ≠ "root") (l : list (string * value)))
       | None, None => [("status", Str "unprobed")]
       end).
Definition policy_entry (loaded : LoadedPolicy) (file : option string) (now : Z) : value :=
  let policy := lp_policy loaded in
  let selection := ep_selection policy in
  obj [("file", opt Str file);
       ("policy", opt (λ s, Str (mode_str (sl_mode s))) selection);
       ("checkIntervalMinutes", opt (λ s, Number (to_dec (sl_check_interval_minutes s))) selection);
       ("checkAt", opt Str (ep_check_at policy));
       ("sourceUrl", opt Str (selection ≫= sl_url));
       ("channels", opt (λ s, channels_json (channels_followed s)) selection);
       ("rebootPolicy", Str (reboot_str (ep_reboot_policy policy)));
       ("networkMode", Str (match np_mode (ep_network policy) with Online => "online" | Metered => "metered" | Offline => "offline" end));
       ("meteredAllowsFetch", Bool (np_metered_allows_fetch (ep_network policy)));
       ("maintenanceWindows",
        Array (map (λ w, obj [("days", Array (map Str (mw_days w))); ("start", Str (mw_start w)); ("end", Str (mw_end w))]) (ep_windows policy)));
       ("installAllowedNow", Bool (bool_decide (install_refusal loaded now = None)));
       ("blockingStatuses", Array (map Str (rg_blocking_statuses (ep_reboot_gate policy))));
       ("overrideMaxSeconds", Number (to_dec (override_ceiling (ep_reboot_gate policy))))].
Definition gate_entry (gate : GateVerdict) (override_ : option OverrideRecord) : value :=
  obj ([("safe", Bool (gv_safe gate)); ("reasons", Array (map Str (gv_reasons gate))); ("codes", Array (map Str (gv_codes gate)));
        ("overridden", Bool (gv_overridden gate))]
       ++ when_some override_ (λ r, [("override", obj [("until", Str (rfc3339 (or_expires_at r))); ("requestedBy", Str (or_requested_by r))])])).
Definition deferred_entry (d : Deferral) (now : Z) : value :=
  obj [("reason", Str (df_reason d)); ("detail", Str (df_detail d)); ("since", Str (rfc3339 (df_since d)));
       ("at", Str (rfc3339 (df_at d))); ("waitedSeconds", Number (to_dec (Z.max 0 (now - df_since d)))); ("attempts", Number (to_dec (df_count d)))].
Definition render_entry (m : Machine) (loaded : LoadedPolicy) (gate : GateVerdict) (installing : bool) (client_unavailable file : option string)
    (last_refusal : option CodedReason) (root : string) (now : Z) : value :=
  let '(state, reason, code) := snapshot_state m installing in
  obj ([("state", Str state)]
       ++ when_some reason (λ r, [("reason", Str r)]) ++ when_some code (λ c, [("code", Str c)])
       ++ when_some last_refusal (λ r, [("last_refusal", Str (cr_text r)); ("last_refusal_code", Str (cr_code r))])
       ++ when_some (mc_available m) (λ a,
            [("available", obj [("deploymentId", Str (av_deployment_id a)); ("version", Str (av_version a));
                                ("kind", kind_word (av_set_kind a)); ("setKind", opt Str (av_set_kind a))])])
       ++ when_some (mc_descriptor m) (λ d,
            let staged := staged_id d in
            [("deploymentId", opt (λ s, Str s.1) staged); ("stagedKind", opt (λ s, kind_word s.2) staged);
             ("stagedSetKind", opt Str (staged ≫= snd))])
       ++ when_some (mc_last_check m) (λ l, [("last_check", Str l)])
       ++ when_some (mc_waits_for_system m) (λ w, [("waitsForSystem", w)])
       ++ when_some (mc_core_check_failed m) (λ f, [("coreCheckFailed", obj [("code", Str (cr_code f)); ("reason", Str (cr_text f))])])
       ++ when_some (mc_deferred m) (λ d, [("deferred", deferred_entry d now)])
       ++ [("client", match client_unavailable with
                      | None => obj [("available", Bool true)]
                      | Some why => obj [("available", Bool false); ("reason", Str why)]
                      end);
           ("workspace", workspace_entry m root); ("policy", policy_entry loaded file now)]
       ++ when_some (lp_error loaded) (λ e, [("policy_error", Str e)])
       ++ [("reboot_gate", gate_entry gate (mc_override m))]).
End snapshot.

(** * The operations *)

Section lifecycle.
Context `{FM : Formats} {W : Type} {UH : UpdateHost W} (file : option string) (root : string).

Record Lifecycle := { lf_machine : Machine; lf_world : W }.
Definition verified_dir : string := join root "verified".
(** Operations run under the machine's lock, to completion or between locks. *)
Definition L A := Lifecycle → A * Lifecycle.
Definition lret {A} (a : A) : L A := λ s, (a, s).
Definition lbind {A B} (m : L A) (k : A → L B) : L B := λ s, let '(a, s) := m s in k a s.
Notation "'do' x ':=' m 'in' k" := (lbind m (fun x => k))
  (at level 200, x pattern, m at level 100, k at level 200).
Definition world {A} (f : W → A) : L A := λ s, (f (lf_world s), s).
Definition machine : L Machine := λ s, (lf_machine s, s).
Definition update (f : Machine → Machine) : L unit := λ s, (tt, {| lf_machine := f (lf_machine s); lf_world := lf_world s |}).

Definition set_operation (o : option string) (m : Machine) : Machine :=
  {| mc_operation := o; mc_failed := mc_failed m; mc_unready := mc_unready m; mc_workspace := mc_workspace m;
     mc_available := mc_available m; mc_descriptor := mc_descriptor m; mc_last_check := mc_last_check m; mc_boot_phase := mc_boot_phase m;
     mc_override := mc_override m; mc_deferred := mc_deferred m; mc_waits_for_system := mc_waits_for_system m;
     mc_core_check_failed := mc_core_check_failed m |}.
Definition set_trouble (u : option Unready) (f : option CodedReason) (m : Machine) : Machine :=
  {| mc_operation := mc_operation m; mc_failed := f; mc_unready := u; mc_workspace := mc_workspace m;
     mc_available := mc_available m; mc_descriptor := mc_descriptor m; mc_last_check := mc_last_check m; mc_boot_phase := mc_boot_phase m;
     mc_override := mc_override m; mc_deferred := mc_deferred m; mc_waits_for_system := mc_waits_for_system m;
     mc_core_check_failed := mc_core_check_failed m |}.
Definition set_found (a : option Available) (d : option string) (m : Machine) : Machine :=
  {| mc_operation := mc_operation m; mc_failed := mc_failed m; mc_unready := mc_unready m; mc_workspace := mc_workspace m;
     mc_available := a; mc_descriptor := d; mc_last_check := mc_last_check m; mc_boot_phase := mc_boot_phase m;
     mc_override := mc_override m; mc_deferred := mc_deferred m; mc_waits_for_system := mc_waits_for_system m;
     mc_core_check_failed := mc_core_check_failed m |}.
Definition set_checked (l : option string) (m : Machine) : Machine :=
  {| mc_operation := mc_operation m; mc_failed := mc_failed m; mc_unready := mc_unready m; mc_workspace := mc_workspace m;
     mc_available := mc_available m; mc_descriptor := mc_descriptor m; mc_last_check := l; mc_boot_phase := mc_boot_phase m;
     mc_override := mc_override m; mc_deferred := mc_deferred m; mc_waits_for_system := mc_waits_for_system m;
     mc_core_check_failed := mc_core_check_failed m |}.
Definition set_core (w : option value) (f : option CodedReason) (m : Machine) : Machine :=
  {| mc_operation := mc_operation m; mc_failed := mc_failed m; mc_unready := mc_unready m; mc_workspace := mc_workspace m;
     mc_available := mc_available m; mc_descriptor := mc_descriptor m; mc_last_check := mc_last_check m; mc_boot_phase := mc_boot_phase m;
     mc_override := mc_override m; mc_deferred := mc_deferred m; mc_waits_for_system := w; mc_core_check_failed := f |}.
Definition set_gate (o : option OverrideRecord) (d : option Deferral) (m : Machine) : Machine :=
  {| mc_operation := mc_operation m; mc_failed := mc_failed m; mc_unready := mc_unready m; mc_workspace := mc_workspace m;
     mc_available := mc_available m; mc_descriptor := mc_descriptor m; mc_last_check := mc_last_check m; mc_boot_phase := mc_boot_phase m;
     mc_override := o; mc_deferred := d; mc_waits_for_system := mc_waits_for_system m; mc_core_check_failed := mc_core_check_failed m |}.
Definition set_seen (w : option value) (p : option (string * string)) (m : Machine) : Machine :=
  {| mc_operation := mc_operation m; mc_failed := mc_failed m; mc_unready := mc_unready m; mc_workspace := w;
     mc_available := mc_available m; mc_descriptor := mc_descriptor m; mc_last_check := mc_last_check m; mc_boot_phase := p;
     mc_override := mc_override m; mc_deferred := mc_deferred m; mc_waits_for_system := mc_waits_for_system m;
     mc_core_check_failed := mc_core_check_failed m |}.

Definition prune_override (now : Z) (record : option OverrideRecord) : option OverrideRecord :=
  match record with Some active => if or_expires_at active <=? now then None else Some active | None => None end.

Definition record_snapshot_with (last_refusal : option CodedReason) : L unit := λ s,
  let w := lf_world s in
  let now := uh_now w in
  let loaded := uh_policy w in
  let m := set_gate (prune_override now (mc_override (lf_machine s))) (mc_deferred (lf_machine s)) (lf_machine s) in
  let gate := evaluate_gate (ep_reboot_gate (lp_policy loaded)) (uh_health w) (uh_installing w) (bool_decide (is_Some (mc_override m))) in
  let entry := render_entry m loaded gate (uh_installing w) (uh_unavailable w) file last_refusal root now in
  (tt, {| lf_machine := m; lf_world := uh_record entry w |}).
Definition record_snapshot : L unit := record_snapshot_with None.
Definition record_refusal (action : string) (refusal : CodedReason) : L unit :=
  record_snapshot_with (Some (coded (cr_code refusal) (action +:+ " refused: " +:+ cr_text refusal))).

(** ** Admission *)

Definition begin (operation : string) : L (Refusal + unit) :=
  do installing := world uh_installing in
  if installing : bool then lret (inl (RefusedBusy "an update install is running; query GetUpdateState and retry"))
  else
    do m := machine in
    match mc_operation m with
    | Some running => lret (inl (RefusedBusy ("an update operation is already " +:+ running +:+ "; query GetUpdateState and retry")))
    | None =>
        do _ := update (λ m, set_trouble None None (set_operation (Some operation) m)) in
        do _ := record_snapshot in lret (inr tt)
    end.
(** The refusals an action asks first, then the client, then the slot. *)
Definition admit_ {A} (action operation : string) (refusal : LoadedPolicy → option CodedReason) (answer : LoadedPolicy → A) : L (Refusal + A) :=
  do loaded := world uh_policy in
  match refusal loaded with
  | Some r => do _ := record_refusal action r in lret (inl (RefusedPolicy (cr_text r)))
  | None =>
      do unavailable := world uh_unavailable in
      match unavailable with
      | Some reason => do _ := record_refusal action (coded "client-unavailable" reason) in lret (inl (RefusedUnavailable reason))
      | None =>
          do begun := begin operation in
          lret (match begun with inl r => inl r | inr _ => inr (answer loaded) end)
      end
  end.
Definition admit_check : L (Refusal + EffectivePolicy) := admit_ "check" "checking" check_refusal lp_policy.
Definition admit_fetch : L (Refusal + EffectivePolicy) := admit_ "fetch" "downloading" fetch_refusal lp_policy.
(** Nothing about the network; the workspace budget is read after. *)
Definition admit_import : L (Refusal + Z) := admit_ "import" "importing" (λ _, None) (λ l, ep_max_bytes (lp_policy l)).

(** ** Running the client *)

Definition run_client (verb : string) (args : list string) : L (CodedReason + ClientOutput) := λ s,
  let '(out, w) := uh_run args (lf_world s) in
  (match out with Some o => inr o | None => inl (coded "client-spawn-failed" verb) end, {| lf_machine := lf_machine s; lf_world := w |}).
Definition fail {A} (e : CodedReason) : Failure + A := inl (FailedError e).
Definition acquisition_args (verb : string) (s : Selection) (max_bytes : Z) : Failure + list string :=
  match sl_url s with
  | None => fail (coded "no-source-configured" "no update source configured")
  | Some source => inr ["--max-bytes"; to_dec max_bytes; verb; "--source"; source]
  end.
Definition set_args (verb kind : string) (s : Selection) (max_bytes : Z) : Failure + list string :=
  match acquisition_args verb s max_bytes with
  | inl e => inl e
  | inr args => inr (args ++ ["--kind"; kind; "--channel"; channel s kind])
  end.
Definition selection_of (p : EffectivePolicy) : Failure + Selection :=
  match ep_selection p with
  | Some s => inr s
  | None => fail (coded "policy-not-loaded" "the update policy document did not load, so there is no source to check")
  end.

Definition lthen {A B} (m : L (Failure + A)) (k : A → L (Failure + B)) : L (Failure + B) :=
  lbind m (λ r, match r with inr a => k a | inl e => lret (inl e) end).
Notation "'try' x ':=' m 'in' k" := (lthen m (fun x => k))
  (at level 200, x pattern, m at level 100, k at level 200).
Definition run_parsed {A} (verb : string) (args : list string) (parse : ClientOutput → CodedReason + A) : L (Failure + A) :=
  do out := run_client verb args in
  lret (match out with inl e => fail e | inr o => match parse o with inl e => fail e | inr a => inr a end end).

Definition probe (max_bytes : Z) : L (Failure + unit) :=
  try outcome := run_parsed "probe" ["--max-bytes"; to_dec max_bytes; "probe"] parse_probe in
  match outcome with
  | Ready report => do _ := update (λ m, set_seen (Some report) (mc_boot_phase m) m) in lret (inr tt)
  | NotReady u => lret (inl (FailedUnready u))
  end.
Definition run_import (max_bytes : Z) (archive : string) : L (Failure + FetchOutcome) :=
  try _ := probe max_bytes in
  run_parsed "import" ["--max-bytes"; to_dec max_bytes; "import"; archive] (λ o, parse_fetch o verified_dir).

(** The core line: its outcome, none when it could not be read. *)
Definition check_core (args : list string) : L (option CheckOutcome) :=
  do out := run_client "set-check" args in
  match (match out with inl e => inl e | inr o => match parse_set_check CORE_KIND o with inl e => inl e | inr c => inr (c, parse_waits_for_system o) end end) with
  | inr (core, waits) => do _ := update (set_core waits None) in lret (Some core)
  | inl reason => do _ := update (set_core None (Some reason)) in lret None
  end.
Definition run_check (p : EffectivePolicy) : L (Failure + CheckOutcome) :=
  try _ := probe (ep_max_bytes p) in
  try selection := lret (selection_of p) in
  try args := lret (set_args "set-check" CORE_KIND selection (ep_max_bytes p)) in
  do core := check_core args in
  match core with
  | Some (Selected a) => lret (inr (Selected a))
  | _ =>
      try args := lret (acquisition_args "check" selection (ep_max_bytes p)) in
      run_parsed "check" args parse_check
  end.
(** A system update's own core set, fetched when it can be. *)
Definition fetch_core_beside (p : EffectivePolicy) (selection : Selection) (descriptor : string) : L (Failure + unit) :=
  if bool_decide (channel selection CORE_KIND = "general") then
    try args := lret (set_args "set-fetch" CORE_KIND selection (ep_max_bytes p)) in
    do _ := run_client "set-fetch" (args ++ ["--deployment"; descriptor]) in
    lret (inr tt)
  else lret (inr tt).
Definition run_fetch (p : EffectivePolicy) : L (Failure + FetchOutcome) :=
  try _ := probe (ep_max_bytes p) in
  try selection := lret (selection_of p) in
  try args := lret (set_args "set-fetch" CORE_KIND selection (ep_max_bytes p)) in
  try core := run_parsed "set-fetch" args (λ o, parse_fetch o verified_dir) in
  match core with
  | Staged path => lret (inr (Staged path))
  | NothingStaged =>
      try args := lret (acquisition_args "fetch" selection (ep_max_bytes p)) in
      try fetched := run_parsed "fetch" args (λ o, parse_fetch o verified_dir) in
      match fetched with
      | Staged descriptor => try _ := fetch_core_beside p selection descriptor in lret (inr fetched)
      | NothingStaged => lret (inr fetched)
      end
  end.

(** ** Settling *)

Definition settle_check (r : Failure + CheckOutcome) : L (Settled Available) :=
  do now := world uh_now in
  do _ := update (set_operation None) in
  do settled :=
    match r with
    | inr (Selected a) => do _ := update (λ m, set_found (Some a) (mc_descriptor m) (set_checked (Some (rfc3339 now)) m)) in lret (Done a)
    | inr NothingSelected => do _ := update (λ m, set_found None (mc_descriptor m) (set_checked (Some (rfc3339 now)) m)) in lret NoneCompatible
    | inl (FailedUnready u) => do _ := update (λ m, set_trouble (Some u) (mc_failed m) m) in lret (SettledUnready u)
    | inl (FailedError e) => do _ := update (λ m, set_trouble (mc_unready m) (Some e) (set_checked (Some (rfc3339 now)) m)) in lret (SettledFailed e)
    end in
  do _ := record_snapshot in lret settled.
Definition settle_fetch (r : Failure + FetchOutcome) : L (Settled string) :=
  do _ := update (set_operation None) in
  do settled :=
    match r with
    | inr (Staged path) => do _ := update (λ m, set_found (mc_available m) (Some path) m) in lret (Done path)
    | inr NothingStaged => do _ := update (λ m, set_found None (mc_descriptor m) m) in lret NoneCompatible
    | inl (FailedUnready u) => do _ := update (λ m, set_trouble (Some u) (mc_failed m) m) in lret (SettledUnready u)
    | inl (FailedError e) => do _ := update (λ m, set_trouble (mc_unready m) (Some e) m) in lret (SettledFailed e)
    end in
  do _ := record_snapshot in lret settled.

Definition admitted {P A} (entry : L (Refusal + P)) (run : P → L A) : L (Refusal + A) :=
  do p := entry in
  match p with inl r => lret (inl r) | inr p => do a := run p in lret (inr a) end.
Definition check_now : L (Refusal + Settled Available) := admitted admit_check (λ p, do r := run_check p in settle_check r).
Definition fetch_now : L (Refusal + Settled string) := admitted admit_fetch (λ p, do r := run_fetch p in settle_fetch r).
Definition import_now (archive : string) : L (Refusal + Settled string) :=
  admitted admit_import (λ b, do r := run_import b archive in settle_fetch r).

(** ** The rest *)

(** The discard itself, once it holds the slot: the client, then the record. *)
Definition run_discard : L (option CodedReason) :=
  do out := run_client "discard" ["discard"] in
  lret match out with inl e => Some e | inr o => match client_json "discard" o with inl e => Some e | inr _ => None end end.
Definition settle_discard (why : string) (error : option CodedReason) : L unit :=
  do _ := update (λ m, set_trouble (mc_unready m) error (set_found None None (set_operation None m))) in
  record_snapshot_with (Some (coded "deployment-discarded" ("staged deployment discarded: " +:+ why))).
Definition discard_descriptor (why : string) : L unit :=
  do m := machine in
  match mc_descriptor m with
  | None => lret tt
  | Some _ =>
      do begun := begin "discarding" in
      match begun with inl _ => lret tt | inr _ => do error := run_discard in settle_discard why error end
  end.
Definition installed (status : Status) : L unit :=
  do _ := (if update_pending status then update (set_found None None) else lret tt) in
  do _ := update (λ m, set_seen (mc_workspace m) (Some (phase status)) m) in
  record_snapshot.
Definition refresh (status : Status) : L unit :=
  do _ := update (λ m, set_seen (mc_workspace m) (Some (phase status)) m) in record_snapshot.

Definition defer (reason detail : string) : L unit :=
  let code := deferral_code reason in
  do now := world uh_now in
  do _ := update (λ m, set_gate (mc_override m) (Some
      match mc_deferred m with
      | Some d => if bool_decide (df_reason d = code)
                  then {| df_reason := df_reason d; df_detail := detail; df_since := df_since d; df_at := now; df_count := Z.min (df_count d + 1) U64_MAX |}
                  else {| df_reason := code; df_detail := detail; df_since := now; df_at := now; df_count := 1 |}
      | None => {| df_reason := code; df_detail := detail; df_since := now; df_at := now; df_count := 1 |}
      end) m) in
  record_snapshot.
Definition resume (only : option string) : L unit :=
  do m := machine in
  match mc_deferred m with
  | Some d =>
      if match only with Some reason => bool_decide (df_reason d = reason) | None => true end
      then do _ := update (λ m, set_gate (mc_override m) None m) in record_snapshot
      else lret tt
  | None => lret tt
  end.

Definition set_reboot_override (sender : string) (seconds : Z) : L (Refusal + OverrideRecord) :=
  do loaded := world uh_policy in
  let ceiling := override_ceiling (ep_reboot_gate (lp_policy loaded)) in
  if seconds =? 0 then lret (inl (RefusedInvalid "override TTL must be at least 1 second"))
  else if ceiling <? seconds then lret (inl (RefusedInvalid ("override TTL must be at most " +:+ to_dec ceiling +:+ " seconds")))
  else
    do now := world uh_now in
    let record := {| or_expires_at := now + seconds; or_requested_by := sender |} in
    do _ := update (λ m, set_gate (Some record) (mc_deferred m) m) in
    do _ := record_snapshot in lret (inr record).
Definition gate_verdict : L GateVerdict :=
  do loaded := world uh_policy in
  do health := world uh_health in
  do installing := world uh_installing in
  do now := world uh_now in
  do _ := update (λ m, set_gate (prune_override now (mc_override m)) (mc_deferred m) m) in
  do m := machine in
  lret (evaluate_gate (ep_reboot_gate (lp_policy loaded)) health installing (bool_decide (is_Some (mc_override m)))).
Definition reboot_refusal : L (option string) :=
  do verdict := gate_verdict in
  lret (if gv_safe verdict then None
        else Some ("reboot refused by the safe-to-reboot gate: " +:+ String.concat "; " (gv_reasons verdict))).

Definition installable (regular : string → option bool) (path : string) : result unit :=
  ensure starts_with "/" path && bool_decide (parent path = Some (components verified_dir)) else "not inside the verified directory" in
  ensure bool_decide (is_Some (staged_id path)) else "not a deployment descriptor or a set" in
  match regular path with
  | Some true => Ok tt
  | Some false => Err (Msg "not a regular file")
  | None => Err (Msg "descriptor path")
  end.
(** ** Interleavings *)

(** The bus layer runs an operation's client in a task of its own: between its
    admission, the client's end and its settling, other calls and the world
    move on. *)
Inductive Task :=
| TCheck (p : EffectivePolicy) | TChecked (r : Failure + CheckOutcome)
| TFetch (p : EffectivePolicy) | TImport (b : Z) (archive : string) | TFetched (r : Failure + FetchOutcome)
| TDiscard (why : string) | TDiscarded (why : string) (error : option CodedReason).
Definition advance (t : Task) : L (option Task) :=
  match t with
  | TCheck p => do r := run_check p in lret (Some (TChecked r))
  | TChecked r => do _ := settle_check r in lret None
  | TFetch p => do r := run_fetch p in lret (Some (TFetched r))
  | TImport b archive => do r := run_import b archive in lret (Some (TFetched r))
  | TFetched r => do _ := settle_fetch r in lret None
  | TDiscard why => do error := run_discard in lret (Some (TDiscarded why error))
  | TDiscarded why error => do _ := settle_discard why error in lret None
  end.
Inductive Call :=
| CallCheck | CallFetch | CallImport (archive : string) | CallDiscard (why : string)
| CallInstalled (s : Status) | CallRefresh (s : Status) | CallDefer (reason detail : string) | CallResume (only : option string)
| CallOverride (sender : string) (seconds : Z) | CallGate.
(** A call's first part, and the task it starts. *)
Definition start {P} (entry : L (Refusal + P)) (task : P → Task) : L (list Task) :=
  do r := entry in lret (match r with inr p => [task p] | inl _ => [] end).
Definition call (c : Call) : L (list Task) :=
  match c with
  | CallCheck => start admit_check TCheck
  | CallFetch => start admit_fetch TFetch
  | CallImport archive => start admit_import (λ b, TImport b archive)
  | CallDiscard why =>
      do m := machine in
      match mc_descriptor m with None => lret [] | Some _ => start (begin "discarding") (λ _, TDiscard why) end
  | CallInstalled s => do _ := installed s in lret []
  | CallRefresh s => do _ := refresh s in lret []
  | CallDefer reason detail => do _ := defer reason detail in lret []
  | CallResume only => do _ := resume only in lret []
  | CallOverride sender seconds => do _ := set_reboot_override sender seconds in lret []
  | CallGate => do _ := gate_verdict in lret []
  end.
Inductive step : Lifecycle * list Task → Lifecycle * list Task → Prop :=
| step_call c s tasks started s' : call c s = (started, s') → step (s, tasks) (s', tasks ++ started)
| step_advance s before t next after s' : advance t s = (next, s') → step (s, before ++ t :: after) (s', before ++ option_list next ++ after)
| step_world s tasks w : step (s, tasks) ({| lf_machine := lf_machine s; lf_world := w |}, tasks).
Inductive reachable (w : W) : Lifecycle * list Task → Prop :=
| reach_start : reachable w ({| lf_machine := new_machine; lf_world := w |}, [])
| reach_step x y : reachable w x → step x y → reachable w y.

(** ** Invariant *)

(** A staged file's name, directly inside [verified]. *)
Definition verified (path : string) : Prop := ∃ id name, valid_id id = true ∧ same_path path (join verified_dir name) = true
  ∧ (name = id +:+ ".json" ∨ ∃ kind, is_set_kind kind = true ∧ name = staged_set_name kind id).
Definition published (d : Deferral) : Prop := df_reason d ∈ DEFERRALS ∨ df_reason d = UNKNOWN.
Definition sound (m : Machine) : Prop :=
  (∀ path, mc_descriptor m = Some path → verified path) ∧ ∀ d, mc_deferred m = Some d → published d ∧ 1 ≤ df_count d ≤ U64_MAX.

Definition triple {A} (P : Machine → Prop) (m : L A) (Q : A → Machine → Prop) : Prop :=
  ∀ s, P (lf_machine s) → Q (m s).1 (lf_machine (m s).2).
Lemma triple_ret {A} (a : A) (P : Machine → Prop) Q : (∀ m, P m → Q a m) → triple P (lret a) Q.
Proof. intros H s Hs. by apply H. Qed.
Lemma triple_bind {A B} P (m : L A) (k : A → L B) R Q : triple P m R → (∀ a, triple (R a) (k a) Q) → triple P (lbind m k) Q.
Proof. intros Hm Hk s Hs. specialize (Hm s Hs). unfold lbind. destruct (m s) as [a s']. by apply Hk. Qed.
Lemma triple_pre {A} (P P' : Machine → Prop) (m : L A) Q : triple P' m Q → (∀ m, P m → P' m) → triple P m Q.
Proof. intros H HP s Hs. by apply H, HP. Qed.
Lemma triple_post {A} P (m : L A) (Q Q' : A → Machine → Prop) : triple P m Q → (∀ a m, Q a m → Q' a m) → triple P m Q'.
Proof. intros H HQ s Hs. by apply HQ, H. Qed.
Lemma triple_world {A} (f : W → A) P : triple P (world f) (λ _, P).
Proof. by intros s Hs. Qed.
Lemma triple_machine P : triple P machine (λ a m, P m ∧ a = m).
Proof. by intros s Hs. Qed.
Lemma triple_update f (P : Machine → Prop) (Q : Machine → Prop) : (∀ m, P m → Q (f m)) → triple P (update f) (λ _, Q).
Proof. intros H s Hs. by apply H. Qed.
Lemma triple_run verb args P : triple P (run_client verb args) (λ _, P).
Proof. intros s Hs. unfold run_client. by destruct (uh_run args (lf_world s)). Qed.

(** What the operations' slot, their result and the deferral are. *)
Definition view (m : Machine) : option string * option string * option Deferral := (mc_operation m, mc_descriptor m, mc_deferred m).
Definition seen_as (P : option string * option string * option Deferral → Prop) (m : Machine) : Prop := P (view m).
Lemma triple_record last P : triple (seen_as P) (record_snapshot_with last) (λ _, seen_as P).
Proof. by intros s Hs. Qed.
Lemma triple_run_parsed {A} verb args (parse : ClientOutput → CodedReason + A) P :
  triple P (run_parsed verb args parse) (λ r m, P m ∧ ∀ a, r = inr a → ∃ o, parse o = inr a).
Proof.
  eapply triple_bind; [apply triple_run|]. intros out. apply triple_ret. intros m Hm. split; [done|].
  destruct out as [e|o]; [done|]. destruct (parse o) as [e|a] eqn:E; [done|]. intros a' Ha'. exists o. congruence.
Qed.
Lemma triple_then {A B} P (m : L (Failure + A)) (k : A → L (Failure + B)) R Q :
  triple P m R → (∀ e m, R (inl e) m → Q (inl e) m) → (∀ a, triple (R (inr a)) (k a) Q) → triple P (lthen m k) Q.
Proof. intros Hm He Hk. eapply triple_bind; [exact Hm|]. intros [e|a]; [apply triple_ret; intros m' Hm'; by apply He|apply Hk]. Qed.
Lemma triple_probe b P : triple (seen_as P) (probe b) (λ _, seen_as P).
Proof.
  eapply triple_then; [apply triple_run_parsed|by intros e m []|]. intros [report|u]; cbn beta.
  - eapply triple_bind; [apply (triple_update _ _ (seen_as P)); intros m Hm; exact (proj1 Hm)|]. intros ?. by apply triple_ret.
  - apply triple_ret. intros m Hm. exact (proj1 Hm).
Qed.
Lemma triple_check_core args P : triple (seen_as P) (check_core args) (λ _, seen_as P).
Proof.
  eapply triple_bind; [apply triple_run|]. intros out. cbn beta.
  destruct (match out with inl e => _ | inr o => _ end) as [e|[c w]]; (eapply triple_bind; [apply (triple_update _ _ (seen_as P)); done|]);
    intros ?; by apply triple_ret.
Qed.

Lemma parse_fetch_verified o path : parse_fetch o verified_dir = inr (Staged path) → verified path.
Proof.
  unfold parse_fetch. destruct (client_json "fetch" o) as [e|v]; [done|].
  destruct v as [| | | | |]; [done|..];
    (match goal with |- match ?m with Some _ => _ | None => _ end = _ → _ => destruct m as [x|] eqn:E; [|done] end; intros [= ->];
     apply bind_Some in E as (id & _ & E); apply bind_Some in E as (p & _ & E); apply bind_Some in E as (obj & _ & E); cbv zeta in E;
     destruct (_ || negb (same_path obj _)) eqn:Eb; [done|]; injection E as ->; bools; eexists id, _; split; [done|]; split; [eassumption|];
     destruct (staged_id path) as [[staged [kind|]]|] eqn:Es; [|by left..]; case_bool_decide; [right|by left]; subst;
     exists kind; split; [|done]).
  all: unfold staged_id in Es; apply bind_Some in Es as (nm & _ & Es); apply bind_Some in Es as (stem & _ & Es);
    apply bind_Some in Es as ([i k] & Hk & Es); destruct (valid_id i); [|done]; injection Es as -> ->;
    destruct (strip_prefix "set-" stem); [|done]; apply bind_Some in Hk as ([kd i'] & _ & Hk); destruct (is_set_kind kd) eqn:Ek; [|done];
    by injection Hk as <- <-.
Qed.

Lemma triple_lift {A} (r : Failure + A) P : triple (seen_as P) (lret r) (λ _, seen_as P).
Proof. by apply triple_ret. Qed.
Lemma triple_run_check p P : triple (seen_as P) (run_check p) (λ _, seen_as P).
Proof.
  eapply triple_then; [apply triple_probe|done|]. intros ?. eapply triple_then; [apply triple_lift|done|]. intros selection.
  eapply triple_then; [apply triple_lift|done|]. intros args. eapply triple_bind; [apply triple_check_core|]. intros core. cbn beta.
  assert (Hrest : triple (seen_as P) (lthen (lret (acquisition_args "check" selection (ep_max_bytes p))) (λ args, run_parsed "check" args parse_check)) (λ _, seen_as P)).
  { eapply triple_then; [apply triple_lift|done|]. intros xa. eapply triple_post; [apply triple_run_parsed|]. by intros r m []. }
  destruct core as [[xx|]|]; [by apply triple_ret|exact Hrest|exact Hrest].
Qed.
Definition fetched_verified (P : option string * option string * option Deferral → Prop) (r : Failure + FetchOutcome) (m : Machine) : Prop :=
  seen_as P m ∧ ∀ path, r = inr (Staged path) → verified path.
Lemma triple_parsed_fetch verb args P :
  triple (seen_as P) (run_parsed verb args (λ o, parse_fetch o verified_dir)) (fetched_verified P).
Proof.
  eapply triple_post; [apply triple_run_parsed|]. intros r m [Hm Hr]. split; [done|]. intros path ->.
  destruct (Hr _ eq_refl) as [o Ho]. by eapply parse_fetch_verified.
Qed.
Lemma triple_run_import b archive P : triple (seen_as P) (run_import b archive) (fetched_verified P).
Proof. eapply triple_then; [apply triple_probe|by split|]. intros ?. apply triple_parsed_fetch. Qed.
Lemma triple_run_fetch p P : triple (seen_as P) (run_fetch p) (fetched_verified P).
Proof.
  eapply triple_then; [apply triple_probe|by split|]. intros ?. eapply triple_then; [apply triple_lift|by split|]. intros selection.
  eapply triple_then; [apply triple_lift|by split|]. intros args. eapply triple_then; [apply triple_parsed_fetch|done|]. intros [path|]; [by apply triple_ret|].
  eapply triple_then; [eapply triple_pre; [apply triple_lift|by intros m []]|by split|]. intros args'.
  eapply triple_then; [apply triple_parsed_fetch|done|]. intros [path|]; [|by apply triple_ret].
  eapply triple_then with (R := λ _, fetched_verified P (inr (Staged path))).
  - unfold fetch_core_beside. case_bool_decide; [|by apply triple_ret]. eapply triple_then with (R := λ _, fetched_verified P (inr (Staged path))); [by apply triple_ret|done|]. intros xa.
    eapply triple_bind; [apply triple_run|]. intros ?. by apply triple_ret.
  - intros e m [Hm _]. by split.
  - intros ?. by apply triple_ret.
Qed.

(** *** The slot *)

Notation at_view v := (seen_as (λ u, u = v)).
(** A view whose slot the operation has taken. *)
Definition taken (operation : string) (v : option string * option string * option Deferral) := (Some operation, v.1.2, v.2).
Definition begun {A} (operation : string) (v : option string * option string * option Deferral) (r : Refusal + A) (m : Machine) : Prop :=
  match r with inl _ => view m = v | inr _ => v.1.1 = None ∧ view m = taken operation v end.
Lemma triple_begin operation v : triple (at_view v) (begin operation) (begun operation v).
Proof.
  eapply triple_bind; [apply triple_world|]. intros [|]; [by apply triple_ret|].
  eapply triple_bind; [apply triple_machine|]. intros m. destruct (mc_operation m) as [running|] eqn:E.
  - apply triple_ret. by intros m' [Hm _].
  - eapply triple_bind with (R := λ _, seen_as (λ u, v.1.1 = None ∧ u = taken operation v)).
    + apply triple_update. intros m' [Hm ->]. unfold seen_as in *. rewrite <-Hm. cbn. by rewrite E.
    + intros ?. eapply triple_bind; [apply triple_record|]. intros ?. by apply triple_ret.
Qed.
Lemma triple_admit {A} action operation refusal (answer : LoadedPolicy → A) v :
  triple (at_view v) (admit_ action operation refusal answer) (begun operation v).
Proof.
  eapply triple_bind; [apply triple_world|]. intros loaded. destruct (refusal loaded).
  { eapply triple_bind; [apply triple_record|]. intros ?. by apply triple_ret. }
  eapply triple_bind; [apply triple_world|]. intros [reason|].
  { eapply triple_bind; [apply triple_record|]. intros ?. by apply triple_ret. }
  eapply triple_bind; [apply triple_begin|]. intros [r|[]]; by apply triple_ret.
Qed.
Lemma triple_start {A} operation (entry : L (Refusal + A)) (task : A → Task) v :
  triple (at_view v) entry (begun operation v) →
  triple (at_view v) (start entry task) (λ l m, match l with [] => view m = v | [t] => v.1.1 = None ∧ view m = taken operation v ∧ ∃ x, t = task x | _ => False end).
Proof. intros H. eapply triple_bind; [exact H|]. intros [r|p]; apply triple_ret; [done|]. intros m []. split; [done|]. split; [done|]. by exists p. Qed.

(** A finished task gives the slot back. *)
Definition released (v : option string * option string * option Deferral) (m : Machine) : Prop :=
  ∃ d, view m = (None, d, v.2) ∧ (d = v.1.2 ∨ ∀ path, d = Some path → verified path).
Lemma triple_released v (m : L unit) : triple (at_view v) m (λ _, seen_as (λ u, ∃ d, u = (None, d, v.2) ∧ (d = v.1.2 ∨ ∀ path, d = Some path → verified path))) →
  triple (at_view v) m (λ _, released v).
Proof. intros H. eapply triple_post; [exact H|]. intros ? m' Hm. exact Hm. Qed.
Lemma triple_settle_check r v : triple (at_view v) (settle_check r) (λ _, released v).
Proof.
  eapply triple_bind; [apply triple_world|]. intros now.
  eapply triple_bind; [apply (triple_update _ _ (at_view (None, v.1.2, v.2))); by intros m <-|]. intros ?.
  eapply triple_bind with (R := λ _, at_view (None, v.1.2, v.2)).
  - destruct r as [[u|e]|[xx|]]; (eapply triple_bind; [apply (triple_update _ _ (at_view (None, v.1.2, v.2))); intros m Hm; exact Hm|]); intros ?; by apply triple_ret.
  - intros settled. eapply triple_bind; [apply triple_record|]. intros ?. apply triple_ret. intros m Hm. exists v.1.2. split; [exact Hm|by left].
Qed.
Lemma triple_settle_fetch r v : triple (fetched_verified (λ u, u = v) r) (settle_fetch r) (λ _, released v).
Proof.
  set (Q := λ u : option string * option string * option Deferral, ∃ d, u = (None, d, v.2) ∧ (d = v.1.2 ∨ ∀ path, d = Some path → verified path)).
  eapply triple_bind with (R := λ _, λ m, at_view (None, v.1.2, v.2) m ∧ ∀ path, r = inr (Staged path) → verified path).
  { apply triple_update. intros m [Hm Hr]. split; [|done]. unfold seen_as in *. by rewrite <-Hm. }
  intros ?. eapply triple_bind with (R := λ _, seen_as Q).
  - destruct r as [[u|e]|[path|]]; (eapply triple_bind; [apply (triple_update _ _ (seen_as Q))|intros ?; by apply triple_ret]); intros m [Hm Hr];
      unfold seen_as, view in Hm; cbn in Hm; unfold seen_as, view, Q; cbn.
    1, 2, 4: exists v.1.2; split; [exact Hm|by left].
    exists (Some path). split; [congruence|]. right. intros p' [= <-]. by apply Hr.
  - intros settled. eapply triple_bind; [apply triple_record|]. intros ?. by apply triple_ret.
Qed.
(** What a fetch's task may settle. *)
Definition task_ok (t : Task) : Prop := match t with TFetched (inr (Staged path)) => verified path | _ => True end.
Definition advanced (v : option string * option string * option Deferral) (next : option Task) (m : Machine) : Prop :=
  match next with Some t => view m = v ∧ task_ok t | None => released v m end.
Lemma triple_advance t v : task_ok t → triple (at_view v) (advance t) (advanced v).
Proof.
  assert (Hf : ∀ r, fetched_verified (λ u, u = v) r = fetched_verified (λ u, u = v) r → triple (fetched_verified (λ u, u = v) r) (lret (Some (TFetched r))) (advanced v)).
  { intros r _. apply triple_ret. intros m [Hm Hr]. split; [exact Hm|]. destruct r as [|[path|]]; [done| |done]. by apply Hr. }
  intros Ht. destruct t as [p|r|p|b archive|r|why|why error]; cbn [advance].
  - eapply triple_bind; [apply triple_run_check|]. intros r. by apply triple_ret.
  - eapply triple_bind; [apply triple_settle_check|]. intros ?. by apply triple_ret.
  - eapply triple_bind; [apply triple_run_fetch|]. intros r. by apply Hf.
  - eapply triple_bind; [apply triple_run_import|]. intros r. by apply Hf.
  - eapply triple_bind; [eapply triple_pre; [apply triple_settle_fetch|]|intros ?; by apply triple_ret].
    intros m Hm. split; [exact Hm|]. by intros path ->.
  - eapply triple_bind with (R := λ _, at_view v); [eapply triple_bind; [apply triple_run|]; intros out; by apply triple_ret|]. intros error. by apply triple_ret.
  - set (Q := λ u : option string * option string * option Deferral, ∃ d, u = (None, d, v.2) ∧ (d = v.1.2 ∨ ∀ path, d = Some path → verified path)).
    eapply triple_bind with (R := λ _, released v); [|intros ?; by apply triple_ret].
    eapply triple_bind; [apply (triple_update _ _ (seen_as Q))|].
    + intros m <-. exists None. split; [done|by right].
    + intros ?. eapply triple_post; [apply triple_record|]. intros ? m Hm. exact Hm.
Qed.

(** *** The deferral *)

Definition deferral_ok (d : option Deferral) : Prop := ∀ d', d = Some d' → published d' ∧ 1 ≤ df_count d' ≤ U64_MAX.
Lemma deferral_code_published reason : deferral_code reason ∈ DEFERRALS ∨ deferral_code reason = UNKNOWN.
Proof. unfold deferral_code. case_bool_decide; [by left|by right]. Qed.
Definition same_but_deferral (v : option string * option string * option Deferral) (m : Machine) : Prop :=
  mc_operation m = v.1.1 ∧ (mc_descriptor m = v.1.2 ∨ mc_descriptor m = None) ∧ (deferral_ok v.2 → deferral_ok (mc_deferred m)).
Lemma at_view_same v m : at_view v m → same_but_deferral v m.
Proof. intros <-. split; [done|]. split; [by left|done]. Qed.
Lemma triple_defer reason detail v : triple (at_view v) (defer reason detail) (λ _, same_but_deferral v).
Proof.
  eapply triple_bind; [apply triple_world|]. intros now.
  set (P := λ u : option string * option string * option Deferral, u.1.1 = v.1.1 ∧ (u.1.2 = v.1.2 ∨ u.1.2 = None) ∧ (deferral_ok v.2 → deferral_ok u.2)).
  eapply triple_bind; [apply (triple_update _ _ (seen_as P))|intros ?; eapply triple_post; [apply triple_record|]; intros ? m Hm; exact Hm].
  intros m <-. split; [done|]. split; [by left|]. intros Hd d' Hd'. cbn in Hd'.
  assert (HU : 1 ≤ U64_MAX) by by vm_compute. pose proof (deferral_code_published reason) as Hp.
  destruct (mc_deferred m) as [d|] eqn:E; [|injection Hd' as <-; by split; [|cbn; lia]].
  destruct (Hd d E) as [H1 H2]. case_bool_decide as Er; injection Hd' as <-; [|by split; [|cbn; lia]].
  split; [exact H1|cbn; lia].
Qed.

Definition slots (tasks : list Task) (m : Machine) : Prop :=
  match tasks with [] => mc_operation m = None | [t] => is_Some (mc_operation m) ∧ task_ok t | _ => False end.
Lemma call_same c v : match c with CallCheck | CallFetch | CallImport _ | CallDiscard _ => False | _ => True end →
  triple (at_view v) (call c) (λ l m, l = [] ∧ same_but_deferral v m).
Proof.
  assert (Hr : ∀ last, triple (same_but_deferral v) (record_snapshot_with last) (λ _, same_but_deferral v)) by by intros last s Hs.
  assert (Hk : ∀ (m : L unit), triple (at_view v) m (λ _, same_but_deferral v) → triple (at_view v) (do _ := m in lret []) (λ (l : list Task) m, l = [] ∧ same_but_deferral v m)).
  { intros m Hm. eapply triple_bind; [exact Hm|]. intros ?. by apply triple_ret. }
  destruct c as [| |archive|why|st|st|reason detail|only|sender seconds|]; intros Hc; try done; cbn [call].
  - apply Hk. eapply triple_bind with (R := λ _, same_but_deferral v).
    + destruct (update_pending st); [apply triple_update|apply triple_ret]; intros m Hm; apply at_view_same in Hm as (H1 & H2 & H3); [|done].
      split; [done|]. split; [by right|done].
    + intros ?. eapply triple_bind; [by apply (triple_update _ _ (same_but_deferral v))|]. intros ?. apply Hr.
  - apply Hk. eapply triple_bind; [apply (triple_update _ _ (same_but_deferral v)); intros m Hm; by apply at_view_same in Hm|]. intros ?. apply Hr.
  - apply Hk, triple_defer.
  - apply Hk. eapply triple_bind; [apply triple_machine|]. intros m. destruct (mc_deferred m).
    + destruct (match only with Some _ => _ | None => _ end).
      * eapply triple_bind; [apply (triple_update _ _ (same_but_deferral v))|intros ?; apply Hr].
        intros m' [Hm _]. apply at_view_same in Hm as (H1 & H2 & H3). split; [done|]. by split.
      * apply triple_ret. intros m' [Hm _]. by apply at_view_same.
    + apply triple_ret. intros m' [Hm _]. by apply at_view_same.
  - eapply triple_bind with (R := λ _, same_but_deferral v); [|intros ?; by apply triple_ret].
    unfold set_reboot_override. eapply triple_bind; [apply triple_world|]. intros loaded. cbv zeta.
    destruct (seconds =? 0); [apply triple_ret, at_view_same|]. destruct (_ <? seconds); [apply triple_ret, at_view_same|].
    eapply triple_bind; [apply triple_world|]. intros now.
    eapply triple_bind; [apply (triple_update _ _ (same_but_deferral v)); intros m Hm; by apply at_view_same in Hm|]. intros ?.
    eapply triple_bind; [apply Hr|]. intros ?. by apply triple_ret.
  - eapply triple_bind with (R := λ _, same_but_deferral v); [|intros ?; by apply triple_ret].
    unfold gate_verdict. do 4 (eapply triple_bind; [apply triple_world|]; intros ?).
    eapply triple_bind; [apply (triple_update _ _ (same_but_deferral v)); intros m Hm; by apply at_view_same in Hm|]. intros ?.
    eapply triple_bind; [apply triple_machine|]. intros m'. apply triple_ret. by intros m'' [Hm _].
Qed.

Definition settled_or_started (v : option string * option string * option Deferral) (l : list Task) (m : Machine) : Prop :=
  match l with
  | [] => same_but_deferral v m
  | [t] => v.1.1 = None ∧ task_ok t ∧ ∃ operation, view m = taken operation v
  | _ => False
  end.
Lemma triple_call c v : triple (at_view v) (call c) (settled_or_started v).
Proof.
  assert (Hs : ∀ operation {P} (entry : L (Refusal + P)) task, (∀ x, task_ok (task x)) → triple (at_view v) entry (begun operation v) →
    triple (at_view v) (start entry task) (settled_or_started v)).
  { intros operation P entry task Hok H. eapply triple_post; [by apply triple_start|]. intros [|t [|]] m; [apply at_view_same| |done].
    intros (Ho & Hv & x & ->). split; [exact Ho|]. split; [apply Hok|by exists operation]. }
  assert (Hr : match c with CallCheck | CallFetch | CallImport _ | CallDiscard _ => False | _ => True end → triple (at_view v) (call c) (settled_or_started v)).
  { intros Hc. eapply triple_post; [by apply call_same|]. by intros l m [-> Hm]. }
  destruct c; try (by apply Hr); cbn [call]; try (eapply Hs; [done|apply triple_admit]).
  eapply triple_bind; [apply triple_machine|]. intros m. destruct (mc_descriptor m).
  - eapply triple_pre; [eapply Hs; [done|apply triple_begin]|]. by intros m' [].
  - apply triple_ret. intros m' [Hm _]. by apply at_view_same.
Qed.

(** The record is truthful about its results, and its slot is taken exactly
    while a task runs. *)
Definition invariant (m : Machine) (tasks : list Task) : Prop := sound m ∧ slots tasks m.
Lemma call_invariant c s tasks started s' :
  invariant (lf_machine s) tasks → call c s = (started, s') → invariant (lf_machine s') (tasks ++ started).
Proof.
  intros [[Hd Hf] Hs] E. pose proof (triple_call c (view (lf_machine s)) s eq_refl) as H. rewrite E in H. cbn [fst snd] in H.
  destruct started as [|t [|]]; [| |done]; cbn in H.
  - destruct H as (Ho & Hde & Hde'). rewrite app_nil_r. split; [split|].
    + intros path Hp. destruct Hde as [Hde|Hde]; [apply Hd; cbn in Hde; congruence|congruence].
    + by apply Hde'.
    + cbn in Ho. destruct tasks as [|t [|]]; cbn in Hs |- *; [by rewrite Ho..|done].
  - destruct H as (Ho & Ht & operation & Hv). injection Hv as Hv1 Hv2 Hv3.
    destruct tasks as [|t' [|]]; cbn in Hs; [|destruct Hs as [Hs _]; rewrite Ho in Hs; by destruct Hs|done].
    split; [split|].
    + intros path Hp. apply Hd. congruence.
    + intros d Hd'. apply Hf. congruence.
    + cbn. by rewrite Hv1.
Qed.
Lemma advance_invariant t s before next after s' :
  invariant (lf_machine s) (before ++ t :: after) → advance t s = (next, s') → invariant (lf_machine s') (before ++ option_list next ++ after).
Proof.
  intros [[Hd Hf] Hs] E.
  assert (before = [] ∧ after = []) as [-> ->].
  { destruct before as [|x [|]]; [destruct after; by cbn in Hs|done..]. }
  destruct Hs as [Hs Ht]. pose proof (triple_advance t (view (lf_machine s)) Ht s eq_refl) as H. rewrite E in H. destruct next as [t'|]; cbn in H.
  - destruct H as [Hv Ht']. injection Hv as Hv1 Hv2 Hv3. split; [split|].
    + intros path Hp. apply Hd. congruence.
    + intros d Hd'. apply Hf. congruence.
    + cbn. split; [by rewrite Hv1|exact Ht'].
  - destruct H as (d & Hv & H). injection Hv as Hv1 Hv2 Hv3. split; [split|exact Hv1].
    + intros path Hp. destruct H as [->|H]; [apply Hd; cbn in Hv2; congruence|apply H; congruence].
    + intros d' Hd'. apply Hf. congruence.
Qed.

(** C18: however the bus calls, the spawned operations and the rest of the
    daemon interleave, the update record stays truthful: at most one client
    operation runs, the record names an operation exactly while one runs, a
    staged descriptor is always a deployment's or a set's document directly
    inside the workspace's [verified] directory, and the deferral it reports
    carries a published code (or the unknown one) and a count within a [u64]. *)
Theorem lifecycle_sound w s tasks : reachable w (s, tasks) → invariant (lf_machine s) tasks.
Proof.
  intros H. remember (s, tasks) as x eqn:E. revert s tasks E.
  induction H as [|x y Hx IH Hxy]; intros s tasks E.
  - injection E as <- <-. by split.
  - destruct Hxy as [c s1 t1 started s2 Hc|s1 before t next after s2 Hf|s1 t1 w']; injection E as <- <-.
    + eapply call_invariant; [by apply IH|exact Hc].
    + eapply advance_invariant; [by apply IH|exact Hf].
    + exact (IH _ _ eq_refl).
Qed.

End lifecycle.

(** * A bench *)

Definition bench_id : string := String.concat "" (repeat "a" 64).
Definition bench_root : string := "/mica/data/mica-deploy".
(** The client's answers are keys of a small document table. *)
#[local] Instance bench_formats : Formats := {|
  json_of := λ text, smap_get text
    [("ready", Object [("status", Str "ready")]);
     ("none", Object [("selected", Null)]);
     ("product", Object [("selected", Object [("deployment", Object [("version", Str "2.0")]); ("deploymentId", Str bench_id)])]);
     ("null", Null);
     ("staged", Object [("id", Str bench_id); ("objects", Str (bench_root +:+ "/verified/objects"));
                        ("path", Str (bench_root +:+ "/verified/" +:+ bench_id +:+ ".json"))])];
  rfc3339 := λ now, "t" +:+ to_dec now |}.
Definition answer (code : Z) (stdout stderr : string) : option ClientOutput :=
  Some {| co_code := Some code; co_signal := None; co_stdout := stdout; co_stderr := stderr |}.
Definition bench_policy : EffectivePolicy :=
  {| ep_selection := Some {| sl_url := Some "https://updates"; sl_mode := Auto; sl_check_interval_minutes := 60; sl_channels := [] |};
     ep_max_bytes := default_max_bytes; ep_network := default_network; ep_windows := [];
     ep_reboot_gate := default_reboot_gate; ep_reboot_policy := Manual; ep_check_at := None |}.
(** The world is whether the core line can be read. *)
#[local] Instance bench_host : UpdateHost bool := {|
  uh_policy := λ _, {| lp_policy := bench_policy; lp_error := None |};
  uh_unavailable := λ _, None;
  uh_run := λ args core_ok,
    let has w := existsb (λ a, bool_decide (a = w)) args in
    (if has "probe" then answer 0 "ready" ""
     else if has "set-check" then (if core_ok : bool then answer 0 "none" "" else answer 1 "" "bad core line")
     else if has "set-fetch" then (if core_ok : bool then answer 0 "null" "" else answer 1 "" "bad core line")
     else if has "check" then answer 0 "product" ""
     else if has "fetch" then answer 0 "staged" ""
     else answer 0 "null" "", core_ok);
  uh_health := λ _, Object []; uh_record := λ _ w, w; uh_now := λ _, 100; uh_installing := λ _, false |}.
Definition bench_start (core_ok : bool) : Lifecycle (W := bool) := {| lf_machine := new_machine; lf_world := core_ok |}.

(** A check and a fetch that stages a product's descriptor. *)
Example fetched_product :
  let '(r, s) := check_now None bench_root (bench_start true) in
  let '(f, s) := fetch_now None bench_root s in
  r = inr (Done {| av_deployment_id := bench_id; av_version := "2.0"; av_set_kind := None |})
  ∧ f = inr (Done (bench_root +:+ "/verified/" +:+ bench_id +:+ ".json")) ∧ mc_operation (lf_machine s) = None.
Proof. by vm_compute. Qed.
(** The check goes on past a core line that cannot be read, and names the
    product's deployment; the fetch of that deployment stops at the core line. *)
Example broken_core_line_blocks_fetch :
  let '(r, s) := check_now None bench_root (bench_start false) in
  let '(f, s) := fetch_now None bench_root s in
  r = inr (Done {| av_deployment_id := bench_id; av_version := "2.0"; av_set_kind := None |})
  ∧ f = inr (SettledFailed (coded "client-exit-failure" "fetch failed (exit 1): bad core line")).
Proof. by vm_compute. Qed.

(** A fetch admitted and not settled, while a check is refused. *)
Definition bench_fetching : Lifecycle (W := bool) * list Task :=
  let '(started, s) := call None bench_root CallFetch (bench_start true) in
  let '(more, s) := call None bench_root CallCheck s in (s, started ++ more).
Lemma lifecycle_sound_witness :
  reachable None bench_root true bench_fetching ∧ mc_operation (lf_machine bench_fetching.1) = Some "downloading"
  ∧ invariant bench_root (lf_machine bench_fetching.1) bench_fetching.2.
Proof.
  assert (H : reachable None bench_root true bench_fetching).
  { eapply reach_step; [eapply reach_step; [apply reach_start|]|]; [by apply (step_call _ _ CallFetch)|by apply (step_call _ _ CallCheck)]. }
  split; [exact H|]. split; [reflexivity|]. exact (lifecycle_sound None bench_root true _ _ H).
Defined.

End UpdateLifecycle.
