(* ===== verification/UpdateAuto.v ===== *)
(** The automatic update driver ([src/crates/micad/src/update_auto.rs]): the
    tick that checks, fetches, installs and reboots without an operator. The
    routes it drives are a type class over the daemon's world, and every call
    it makes is kept with its answer in a trace, so that what the driver asked
    before it acted is stated about the calls themselves. *)
From S2P Require Import Prelude Text Maps Configuration UpdatePolicy UpdateLifecycle.
Import Configuration UpdatePolicy.
Import UpdateLifecycle(Available, av_deployment_id, av_version, Settled(..), Refusal(..), message, unready_reason).

Module UpdateAuto.

(** [micad_settings::audit]'s names of the driver's actions. *)
Definition UPDATE_CHECK_EVENT : string := "update-check".
Definition UPDATE_FETCH_EVENT : string := "update-fetch".
Definition UPDATE_INSTALL_EVENT : string := "update-install".
Definition SENDER : string := "auto-update".
(** The driver sleeps a minute between ticks. *)
Definition TICK_NANOS : Z := 60 * 1000000000.

Record UpdateFacts := { uf_reboot_pending : bool; uf_install_status : option string }.

(** [AutoRoutes] and [Cadence]: monotonic instants in nanoseconds, wall times
    in seconds. Every call may move the world. *)
Class AutoRoutes (W : Type) := {
  ar_policy : W → LoadedPolicy * W;
  ar_check : string → W → (Refusal + Settled Available) * W;
  ar_fetch : string → W → (Refusal + Settled string) * W;
  ar_available : W → option Available * W;
  ar_staged : W → option string * W;
  ar_discard_staged : string → W → W;
  ar_facts : W → option UpdateFacts * W;
  ar_install : string → string → W → (string + unit) * W;
  ar_reboot : string → W → (string + unit) * W;
  ar_clock : W → ClockTrust * W;
  ar_audit : string → W → W;
  ar_defer : string → string → W → W;
  ar_resume : option string → W → W;
  ar_now : W → Z * W;
  ar_wall : W → Z * W;
  ar_utc_now : W → Z * W;
}.

Inductive Stage := Idle | Installing | RebootPending.
#[export] Instance Stage_eq_dec : EqDecision Stage.
Proof. solve_decision. Defined.

(** A call with its answer. *)
Inductive event :=
| EPolicy (l : LoadedPolicy) | EChecked (r : Refusal + Settled Available) | EFetched (r : Refusal + Settled string)
| EAvailable (a : option Available) | EStaged (d : option string) | EDiscarded (why : string) | EFacts (f : option UpdateFacts)
| EInstalled (descriptor : string) (r : string + unit) | ERebooted (r : string + unit) | EClock (c : ClockTrust) | EAudit (name : string)
| EDeferred (reason detail : string) | EResumed (only : option string) | ENow (now : Z) | EWall (now : Z) | EUtc (now : Z).

Definition descriptor_id (descriptor : string) : option string := '(id, _) ← staged_id descriptor; Some id.

Section driver.
Context {W : Type} {AR : AutoRoutes W}.

Record AutoDriver := {
  au_last_check : Z; au_anchor_floor : Z; au_stage : Stage;
  au_world : W; au_trace : list event;
}.
Definition A T := AutoDriver → T * AutoDriver.
Definition aret {T} (t : T) : A T := λ s, (t, s).
Definition abind {T U} (m : A T) (k : T → A U) : A U := λ s, let '(t, s) := m s in k t s.
#[local] Notation "'do' x ':=' m 'in' k" := (abind m (fun x => k))
  (at level 200, x pattern, m at level 100, k at level 200).
Definition asked {T} (f : W → T * W) (e : T → event) : A T := λ s,
  let '(t, w) := f (au_world s) in
  (t, {| au_last_check := au_last_check s; au_anchor_floor := au_anchor_floor s; au_stage := au_stage s;
         au_world := w; au_trace := au_trace s ++ [e t] |}).
Definition told (f : W → W) (e : event) : A unit := asked (λ w, (tt, f w)) (λ _, e).

Definition policy : A LoadedPolicy := asked ar_policy EPolicy.
Definition check : A (Refusal + Settled Available) := asked (ar_check SENDER) EChecked.
Definition fetch : A (Refusal + Settled string) := asked (ar_fetch SENDER) EFetched.
Definition available : A (option Available) := asked ar_available EAvailable.
Definition staged : A (option string) := asked ar_staged EStaged.
Definition discard_staged (why : string) : A unit := told (ar_discard_staged why) (EDiscarded why).
Definition facts : A (option UpdateFacts) := asked ar_facts EFacts.
Definition install (descriptor : string) : A (string + unit) := asked (ar_install SENDER descriptor) (EInstalled descriptor).
Definition reboot : A (string + unit) := asked (ar_reboot SENDER) ERebooted.
Definition clock : A ClockTrust := asked ar_clock EClock.
Definition audit (name : string) : A unit := told (ar_audit name) (EAudit name).
Definition defer (reason detail : string) : A unit := told (ar_defer reason detail) (EDeferred reason detail).
Definition resume (only : option string) : A unit := told (ar_resume only) (EResumed only).
Definition now : A Z := asked ar_now ENow.
Definition wall : A Z := asked ar_wall EWall.
Definition utc_now : A Z := asked ar_utc_now EUtc.

Definition set_stage (stage : Stage) : A unit := λ s,
  (tt, {| au_last_check := au_last_check s; au_anchor_floor := au_anchor_floor s; au_stage := stage; au_world := au_world s; au_trace := au_trace s |}).
Definition set_last_check (t : Z) : A unit := λ s,
  (tt, {| au_last_check := t; au_anchor_floor := au_anchor_floor s; au_stage := au_stage s; au_world := au_world s; au_trace := au_trace s |}).
Definition set_anchor_floor (t : Z) : A unit := λ s,
  (tt, {| au_last_check := au_last_check s; au_anchor_floor := t; au_stage := au_stage s; au_world := au_world s; au_trace := au_trace s |}).
Definition state : A AutoDriver := λ s, (s, s).

(** [AutoDriver::new]. *)
Definition new_driver (w : W) : AutoDriver :=
  let '(last_check, w) := ar_now w in
  let '(anchor_floor, w) := ar_wall w in
  {| au_last_check := last_check; au_anchor_floor := anchor_floor; au_stage := Idle; au_world := w; au_trace := [] |}.

(** * The cadence *)

Definition anchored_crossing (loaded : LoadedPolicy) : A (option Z) :=
  match auto_check_at loaded with
  | None => aret None
  | Some anchor =>
      do c := clock in
      if believed c then do w := wall in aret (last_crossing anchor w) else aret None
  end.
(** The interval in nanoseconds: the minutes are multiplied as a saturating [u64]. *)
Definition interval_nanos (minutes : Z) : Z := Z.min (minutes * 60) U64_MAX * 1000000000.
Definition duration_since (t earlier : Z) : Z := Z.max 0 (t - earlier).

Definition check_now (t : Z) : A unit :=
  do _ := set_last_check t in
  do _ := audit UPDATE_CHECK_EVENT in
  do r := check in
  match r with
  | inr NoneCompatible => defer "no-newer-release" "the source publishes nothing newer for this product than the running system"
  | inr _ => resume (Some "no-newer-release")
  | inl refusal => defer "check-refused" (message refusal)
  end.
Definition check_if_due (loaded : LoadedPolicy) : A unit :=
  match auto_check_minutes loaded with
  | None => aret tt
  | Some interval =>
      do t := now in
      do crossing := anchored_crossing loaded in
      do s := state in
      match crossing with
      | Some crossing =>
          if crossing <=? au_anchor_floor s then aret tt
          else do _ := set_anchor_floor crossing in check_now t
      | None =>
          if duration_since t (au_last_check s) <? interval_nanos interval then aret tt else check_now t
      end
  end.

(** * The pass *)

Definition reboot_if_allowed (loaded : LoadedPolicy) : A unit :=
  if negb (bool_decide (ep_reboot_policy (lp_policy loaded) = Window)) then set_stage Idle
  else
    do t := utc_now in
    match install_refusal loaded t with
    | Some reason => defer "outside-window" reason
    | None =>
        do r := reboot in
        match r with
        | inl refusal => defer "reboot-gate-closed" refusal
        | inr _ => do _ := resume None in set_stage Idle
        end
    end.
Definition await_install (loaded : LoadedPolicy) : A unit :=
  do f := facts in
  match f with
  | None => aret tt
  | Some f =>
      if bool_decide (uf_install_status f = Some "running") then aret tt
      else if bool_decide (uf_install_status f = Some "done") then do _ := set_stage RebootPending in reboot_if_allowed loaded
      else set_stage Idle
  end.
Definition install_named (descriptor : string) : A unit :=
  do _ := audit UPDATE_INSTALL_EVENT in
  do r := install descriptor in
  match r with
  | inr _ => do _ := set_stage Installing in resume None
  | inl refusal => defer "install-refused" refusal
  end.
Definition install_if_allowed (loaded : LoadedPolicy) (descriptor : string) : A unit :=
  do c := clock in
  match untrusted_reason c with
  | Some reason => defer "clock-untrusted" reason
  | None =>
  do t := utc_now in
  match install_refusal loaded t with
  | Some reason => defer "outside-window" reason
  | None =>
  do f := facts in
  match f with
  | None => defer "deployment-status-unknown" "the native backend did not answer the deployment query"
  | Some f =>
  if uf_reboot_pending f then defer "reboot-pending" "a deployment is already installed and waiting for its first boot"
  else
    do _ := audit UPDATE_CHECK_EVENT in
    do r := check in
    match r with
    | inr (Done candidate) =>
        if bool_decide (Some (av_deployment_id candidate) = descriptor_id descriptor) then install_named descriptor
        else defer "superseded" ("the check now names " +:+ av_deployment_id candidate)
    | inr NoneCompatible => discard_staged "the current metadata no longer names it"
    | inr (SettledUnready u) => defer "workspace-unready" (unready_reason u)
    | inr (SettledFailed e) => defer "recheck-failed" (cr_text e)
    | inl refusal => defer "recheck-refused" (message refusal)
    end
  end end end.
(** The fetch of what the check named; whether the pass goes on. *)
Definition fetch_if_needed : A bool :=
  do a := available in
  match a with
  | None => aret true
  | Some candidate =>
      do d := staged in
      if bool_decide ((d ← d; descriptor_id d) = Some (av_deployment_id candidate)) then aret true
      else
        do _ := audit UPDATE_FETCH_EVENT in
        do r := fetch in
        match r with
        | inl refusal => do _ := defer "fetch-refused" (message refusal) in aret false
        | inr _ => aret true
        end
  end.
Definition drive (loaded : LoadedPolicy) : A unit :=
  do s := state in
  match au_stage s with
  | Installing => await_install loaded
  | RebootPending => reboot_if_allowed loaded
  | Idle =>
      do _ := check_if_due loaded in
      do on := fetch_if_needed in
      if on : bool then
        do d := staged in
        match d with Some descriptor => install_if_allowed loaded descriptor | None => aret tt end
      else aret tt
  end.
Definition tick : A unit :=
  do loaded := policy in
  match ep_selection (lp_policy loaded) with
  | None => aret tt
  | Some selection =>
      match sl_mode selection with
      | Off => set_stage Idle
      | Check => check_if_due loaded
      | Auto =>
          match auto_window_refusal (lp_policy loaded) with
          | Some _ => check_if_due loaded
          | None => drive loaded
          end
      end
  end.

(** The driver's runs: its ticks, and a world that moves between them. *)
Inductive reachable (w : W) : AutoDriver → Prop :=
| reach_start : reachable w (new_driver w)
| reach_tick s : reachable w s → reachable w (tick s).2
| reach_world s w' : reachable w s →
    reachable w {| au_last_check := au_last_check s; au_anchor_floor := au_anchor_floor s; au_stage := au_stage s;
                   au_world := w'; au_trace := au_trace s |}.
End driver.

(** * What the driver asked before it acted *)

Definition is_policy (e : event) : option LoadedPolicy := match e with EPolicy l => Some l | _ => None end.
(** The policy the running tick loaded. *)
Definition current_policy (t : list event) : option LoadedPolicy := last (omap is_policy t).
Definition automatic (l : LoadedPolicy) : Prop := ∃ selection, ep_selection (lp_policy l) = Some selection ∧ sl_mode selection = Auto.
Definition may_check (l : LoadedPolicy) : Prop := ∃ selection, ep_selection (lp_policy l) = Some selection ∧ sl_mode selection ≠ Off.
(** A configured window is open. *)
Definition in_window (l : LoadedPolicy) (t : Z) : Prop := lp_error l = None ∧ ∃ w, w ∈ ep_windows (lp_policy l) ∧ contains w t = true.
Definition installed_before (t : list event) : Prop := ∃ before d after, t = before ++ EInstalled d (inr tt) :: after.
(** An install of the driver's own that the backend since reported done. *)
Definition owed (t : list event) : Prop :=
  ∃ before d between f after, t = before ++ EInstalled d (inr tt) :: between ++ EFacts (Some f) :: after ∧ uf_install_status f = Some "done".

Definition justified (t : list event) (e : event) : Prop :=
  match e with
  | EChecked _ => ∃ l before, current_policy t = Some l ∧ may_check l ∧ t = before ++ [EAudit UPDATE_CHECK_EVENT]
  | EFetched _ => ∃ l before a d, current_policy t = Some l ∧ automatic l
      ∧ t = before ++ [EAvailable (Some a); EStaged d; EAudit UPDATE_FETCH_EVENT] ∧ (d ≫= descriptor_id) ≠ Some (av_deployment_id a)
  | EInstalled d _ => ∃ l before c now f a, current_policy t = Some l ∧ automatic l
      ∧ t = before ++ [EStaged (Some d); EClock c; EUtc now; EFacts (Some f); EAudit UPDATE_CHECK_EVENT; EChecked (inr (Done a)); EAudit UPDATE_INSTALL_EVENT]
      ∧ believed c = true ∧ in_window l now ∧ uf_reboot_pending f = false ∧ descriptor_id d = Some (av_deployment_id a)
  | EDiscarded _ => ∃ l before, current_policy t = Some l ∧ automatic l ∧ t = before ++ [EChecked (inr NoneCompatible)]
  | ERebooted _ => ∃ l before now, current_policy t = Some l ∧ automatic l ∧ t = before ++ [EUtc now]
      ∧ ep_reboot_policy (lp_policy l) = Window ∧ in_window l now ∧ owed before
  | _ => True
  end.
Definition trace_ok (t : list event) : Prop := ∀ before e after, t = before ++ e :: after → justified before e.

Lemma trace_ok_snoc t e : trace_ok t → justified t e → trace_ok (t ++ [e]).
Proof.
  intros Ht He before x after E. destruct after as [|y after' _] using rev_ind.
  - apply app_inj_tail in E as [<- <-]. exact He.
  - rewrite app_comm_cons, app_assoc in E. apply app_inj_tail in E as [-> <-]. by eapply Ht.
Qed.
Lemma current_policy_snoc t e : current_policy (t ++ [e]) = match e with EPolicy l => Some l | _ => current_policy t end.
Proof.
  unfold current_policy. rewrite omap_app. destruct e; cbn; try by rewrite app_nil_r. by rewrite last_snoc.
Qed.
Lemma installed_before_snoc t e : installed_before t → installed_before (t ++ [e]).
Proof. intros (b & d & a & ->). exists b, d, (a ++ [e]). by rewrite <-app_assoc. Qed.
Lemma owed_snoc t e : owed t → owed (t ++ [e]).
Proof. intros (b & d & m & f & a & -> & H). exists b, d, m, f, (a ++ [e]). split; [|done]. by rewrite <-app_assoc, <-app_comm_cons, <-app_assoc. Qed.
Lemma owed_done t f : installed_before t → uf_install_status f = Some "done" → owed (t ++ [EFacts (Some f)]).
Proof. intros (b & d & a & ->) H. exists b, d, a, f, []. split; [|done]. by rewrite <-app_assoc. Qed.

Section guard.
Context {W : Type} {AR : AutoRoutes W}.

#[local] Notation "'do' x ':=' m 'in' k" := (abind m (fun x => k))
  (at level 200, x pattern, m at level 100, k at level 200).
Definition stage_ok (stage : Stage) (t : list event) : Prop :=
  match stage with Idle => True | Installing => installed_before t | RebootPending => owed t end.
Definition guarded (s : AutoDriver (W := W)) : Prop := trace_ok (au_trace s) ∧ stage_ok (au_stage s) (au_trace s).
(** In a tick under [l]. *)
Definition in_tick (l : LoadedPolicy) (s : AutoDriver (W := W)) : Prop := guarded s ∧ current_policy (au_trace s) = Some l.
Lemma stage_ok_snoc stage t e : stage_ok stage t → stage_ok stage (t ++ [e]).
Proof. destruct stage; cbn; [done|apply installed_before_snoc|apply owed_snoc]. Qed.

Lemma install_refusal_window l t : ep_windows (lp_policy l) ≠ [] → install_refusal l t = None → in_window l t.
Proof.
  unfold install_refusal. destruct (lp_error l) eqn:E; [done|]. intros Hw. destruct (is_nil _) eqn:En; [by destruct (ep_windows (lp_policy l))|].
  cbn [orb]. destruct (existsb _ _) eqn:Ex; [|done]. intros _. split; [done|]. apply existsb_exists in Ex as (w & Hin & Hc).
  exists w. split; [by apply list_elem_of_In|done].
Qed.

(** The pass so far ends in [suf]. *)
Definition mid (l : LoadedPolicy) (suf : list event) (s : AutoDriver (W := W)) : Prop :=
  in_tick l s ∧ ∃ before, au_trace s = before ++ suf.
Definition hold {T} (P : AutoDriver (W := W) → Prop) (m : A (W := W) T) (Q : T → AutoDriver (W := W) → Prop) : Prop :=
  ∀ s, P s → Q (m s).1 (m s).2.
Lemma hold_ret {T} (t : T) P : hold P (aret t) (λ _, P).
Proof. by intros s Hs. Qed.
Lemma hold_bind {T U} P (m : A T) (k : T → A U) R Q : hold P m R → (∀ t, hold (R t) (k t) Q) → hold P (abind m k) Q.
Proof. intros Hm Hk s Hs. specialize (Hm s Hs). unfold abind. destruct (m s) as [t s']. by apply Hk. Qed.
Lemma hold_pre {T} (P P' : AutoDriver → Prop) (m : A T) Q : hold P' m Q → (∀ s, P s → P' s) → hold P m Q.
Proof. intros H HP s Hs. by apply H, HP. Qed.
Lemma hold_ask {T} (f : W → T * W) (e : T → event) l suf :
  (∀ x, is_policy (e x) = None) → (∀ x before, current_policy (before ++ suf) = Some l → justified (before ++ suf) (e x)) →
  hold (mid l suf) (asked f e) (λ x, mid l (suf ++ [e x])).
Proof.
  intros Hp Hj s [[[Ht Hs] Hc] [before Hb]]. unfold asked. destruct (f (au_world s)) as [x w]. cbn. split; [split; [split|]|].
  - cbn. apply trace_ok_snoc; [exact Ht|]. rewrite Hb in *. by apply Hj.
  - cbn. by apply stage_ok_snoc.
  - cbn. rewrite current_policy_snoc. specialize (Hp x). destruct (e x); [done|exact Hc..].
  - cbn. rewrite Hb, <-app_assoc. by eexists.
Qed.
Lemma mid_nil l s suf : mid l suf s → mid l [] s.
Proof. intros [H _]. split; [exact H|]. exists (au_trace s). by rewrite app_nil_r. Qed.
Lemma hold_trivial {T} (f : W → T * W) (e : T → event) l suf :
  (∀ x t, is_policy (e x) = None ∧ justified t (e x)) → hold (mid l suf) (asked f e) (λ _, mid l []).
Proof.
  intros H. eapply hold_pre with (P' := mid l suf); [|done].
  intros s Hs. eapply mid_nil, (hold_ask f e l suf); [|intros; apply H|exact Hs]. intros x. apply (H x []).
Qed.
Lemma hold_stage stage l suf : (∀ before, stage_ok stage (before ++ suf)) → hold (mid l suf) (set_stage stage) (λ _, mid l suf).
Proof. intros H s [[[Ht _] Hc] [b Hb]]. split; [split; [split|]|]; [exact Ht| |exact Hc|by exists b]. cbn. rewrite Hb. apply H. Qed.
Lemma hold_clocks (m : A (W := W) unit) P : (∀ s, au_trace (m s).2 = au_trace s ∧ au_stage (m s).2 = au_stage s) →
  hold (mid P []) m (λ _, mid P []).
Proof. intros H s Hs. destruct (H s) as [E1 E2]. unfold mid, in_tick, guarded in *. by rewrite E1, E2. Qed.

Ltac easy_ask := first [ by apply hold_trivial | apply hold_ask; [done|done] ].
Lemma hold_defer l suf reason detail : hold (mid l suf) (defer reason detail) (λ _, mid l []).
Proof. by apply hold_trivial. Qed.
Lemma hold_checks l before_suf : may_check l →
  hold (mid l before_suf) (do _ := audit UPDATE_CHECK_EVENT in check) (λ r, mid l (before_suf ++ [EAudit UPDATE_CHECK_EVENT; EChecked r])).
Proof.
  intros Hl. eapply hold_bind; [by apply hold_ask|]. intros ?. cbn beta.
  intros s Hs. change [EAudit UPDATE_CHECK_EVENT; EChecked (check s).1] with ([EAudit UPDATE_CHECK_EVENT] ++ [EChecked (check s).1]).
  rewrite app_assoc. refine (hold_ask (ar_check SENDER) EChecked l _ _ _ s Hs); [done|]. intros x before Hc. rewrite app_assoc in *.
  by exists l, (before ++ before_suf).
Qed.

(** ** The cadence *)

Lemma hold_check_now l t : may_check l → hold (mid l []) (check_now t) (λ _, mid l []).
Proof.
  intros Hl. eapply hold_bind; [by apply hold_clocks|]. intros ?. cbn beta.
  pose proof (hold_checks l [] Hl) as H. intros s Hs. specialize (H s Hs). revert H. unfold abind.
  destruct (audit UPDATE_CHECK_EVENT s) as [[] s1]. destruct (check s1) as [r s2]. cbn. intros H.
  destruct r as [refusal|[| |u|e]]; by (eapply hold_trivial; [|exact H]).
Qed.
Lemma hold_check_if_due l : may_check l → hold (mid l []) (check_if_due l) (λ _, mid l []).
Proof.
  intros Hl. unfold check_if_due. destruct (auto_check_minutes l) as [interval|]; [|apply hold_ret].
  eapply hold_bind; [by apply hold_trivial|]. intros t. eapply hold_bind with (R := λ _, mid l []).
  - unfold anchored_crossing. destruct (auto_check_at l); [|apply hold_ret]. eapply hold_bind; [by apply hold_trivial|]. intros c.
    destruct (believed c); [|apply hold_ret]. eapply hold_bind; [by apply hold_trivial|]. intros w. apply hold_ret.
  - intros crossing. eapply hold_bind with (R := λ _, mid l []); [by intros s Hs|]. intros s. destruct crossing as [crossing|].
    + destruct (_ <=? _); [apply hold_ret|]. eapply hold_bind; [by apply hold_clocks|]. intros ?. by apply hold_check_now.
    + destruct (_ <? _); [apply hold_ret|by apply hold_check_now].
Qed.

(** ** The pass *)

Lemma hold_reboot l : automatic l → ep_windows (lp_policy l) ≠ [] →
  hold (λ s, mid l [] s ∧ owed (au_trace s)) (reboot_if_allowed l) (λ _, mid l []).
Proof.
  intros Ha Hw. unfold reboot_if_allowed. case_bool_decide as Hp; cbn [negb].
  2: { eapply hold_pre; [by apply (hold_stage Idle)|]. by intros s []. }
  intros s [Hs Ho]. unfold abind at 1. pose proof (hold_ask ar_utc_now EUtc l [] ltac:(done) ltac:(done) s Hs) as H.
  assert (Ht : au_trace (utc_now s).2 = au_trace s ++ [EUtc (utc_now s).1]).
  { unfold utc_now, asked. by destruct (ar_utc_now (au_world s)). }
  change (asked ar_utc_now EUtc s) with (utc_now s) in H. destruct (utc_now s) as [t s1]. cbn in H, Ht.
  destruct (install_refusal l t) as [reason|] eqn:Er; [by eapply hold_trivial; [|exact H]|].
  assert (Hr : ∀ r s2, reboot s1 = (r, s2) → mid l [] s2).
  { intros r s2 E. destruct H as [[[Hk Hst] Hc] _]. unfold reboot, asked in E. destruct (ar_reboot SENDER (au_world s1)) as [x w].
    injection E as <- <-. split; [split; [split|]|by exists (au_trace s1 ++ [ERebooted x]); rewrite app_nil_r]; cbn.
    - apply trace_ok_snoc; [exact Hk|]. exists l, (au_trace s), t. split; [exact Hc|]. split; [exact Ha|]. split; [exact Ht|]. split; [exact Hp|].
      split; [by apply install_refusal_window|exact Ho].
    - by apply stage_ok_snoc.
    - by rewrite current_policy_snoc. }
  unfold abind. destruct (reboot s1) as [r s2]. specialize (Hr r s2 eq_refl). destruct r as [refusal|[]]; [by eapply hold_trivial; [|exact Hr]|].
  refine (hold_bind _ _ _ _ _ (hold_trivial (λ w, (tt, ar_resume None w)) (λ _, EResumed None) l [] _) (λ _, hold_stage Idle l [] _) s2 Hr); done.
Qed.
Lemma hold_await l : automatic l → ep_windows (lp_policy l) ≠ [] →
  hold (λ s, mid l [] s ∧ au_stage s = Installing) (await_install l) (λ _, mid l []).
Proof.
  intros Ha Hw s [Hs Hi]. unfold await_install, abind at 1.
  assert (Hf : mid l [] (facts s).2 ∧ au_trace (facts s).2 = au_trace s ++ [EFacts (facts s).1]).
  { split; [by eapply hold_trivial; [|exact Hs]|]. unfold facts, asked. by destruct (ar_facts (au_world s)). }
  destruct (facts s) as [[f|] s1]; destruct Hf as [Hf Ht]; cbn in Hf, Ht; [|exact Hf].
  destruct (bool_decide (_ = Some "running")); [exact Hf|]. case_bool_decide as Hd; [|by apply (hold_stage Idle)].
  assert (Ho : owed (au_trace s1)).
  { rewrite Ht. apply owed_done; [|exact Hd]. destruct Hs as [[[_ Hst] _] _]. by rewrite Hi in Hst. }
  destruct Hf as [[[Hk _] Hc] _]. apply (hold_reboot l Ha Hw). split; [|exact Ho].
  split; [split; [split|]|by exists (au_trace s1); rewrite app_nil_r]; [exact Hk|exact Ho|exact Hc].
Qed.

Lemma hold_install_named l d c t f a : automatic l → believed c = true → in_window l t → uf_reboot_pending f = false →
  descriptor_id d = Some (av_deployment_id a) →
  hold (mid l [EStaged (Some d); EClock c; EUtc t; EFacts (Some f); EAudit UPDATE_CHECK_EVENT; EChecked (inr (Done a))])
    (install_named d) (λ _, mid l []).
Proof.
  intros Ha Hc Hw Hf Hd. eapply hold_bind; [by apply hold_ask|]. intros ?. cbn beta. eapply hold_bind.
  - apply hold_ask; [done|]. intros r before Hl. by exists l, before, c, t, f, a.
  - cbn beta. intros r. destruct r as [refusal|[]]; [by apply hold_trivial|].
    eapply hold_bind; [apply hold_stage|intros ?; by apply hold_trivial].
    intros before. eexists _, d, []. by rewrite app_assoc.
Qed.
Lemma may_check_auto l : automatic l → may_check l.
Proof. intros (selection & Hs & Hm). exists selection. split; [exact Hs|by rewrite Hm]. Qed.
Lemma hold_install l d : automatic l → ep_windows (lp_policy l) ≠ [] →
  hold (mid l [EStaged (Some d)]) (install_if_allowed l d) (λ _, mid l []).
Proof.
  intros Ha Hw. eapply hold_bind; [by apply hold_ask|]. intros c. cbn beta.
  destruct (untrusted_reason c) as [reason|] eqn:Hc; [by apply hold_trivial|].
  assert (Hb : believed c = true) by (unfold untrusted_reason in Hc; by destruct (believed c)).
  eapply hold_bind; [by apply hold_ask|]. intros t. cbn beta.
  destruct (install_refusal l t) as [reason|] eqn:Ht; [by apply hold_trivial|]. apply install_refusal_window in Ht; [|exact Hw].
  eapply hold_bind; [by apply hold_ask|]. intros [f|]; cbn beta; [|by apply hold_trivial].
  destruct (uf_reboot_pending f) eqn:Hf; [by apply hold_trivial|].
  set (suf := [EStaged (Some d); EClock c; EUtc t; EFacts (Some f)]).
  intros s Hs. pose proof (hold_checks l suf (may_check_auto l Ha) s Hs) as H. revert H. unfold abind.
  destruct (audit UPDATE_CHECK_EVENT s) as [[] s1]. destruct (check s1) as [r s2]. cbn [fst snd]. intros H.
  destruct r as [refusal|[candidate| |u|e]]; try by (eapply hold_trivial; [|exact H]).
  - case_bool_decide as Hd; [|by (eapply hold_trivial; [|exact H])].
    exact (hold_install_named l d c t f candidate Ha Hb Ht Hf (eq_sym Hd) s2 H).
  - eapply mid_nil, (hold_ask _ (λ _, EDiscarded _) l); [done| |exact H]. intros ? before Hc'.
    eexists l, (before ++ suf ++ [EAudit UPDATE_CHECK_EVENT]). split; [exact Hc'|]. split; [exact Ha|]. by rewrite <-!app_assoc.
Qed.
Lemma hold_fetch_if_needed l : automatic l → hold (mid l []) fetch_if_needed (λ _, mid l []).
Proof.
  intros Ha. eapply hold_bind; [by apply hold_ask|]. intros [a|]; cbn beta; [|intros s Hs; by eapply mid_nil].
  eapply hold_bind; [by apply hold_ask|]. intros d. cbn beta. case_bool_decide as Hd; [intros s Hs; by eapply mid_nil|].
  eapply hold_bind; [by apply hold_ask|]. intros ?. cbn beta. eapply hold_bind.
  - apply hold_ask; [done|]. intros r before Hc. by exists l, before, a, d.
  - intros [refusal|r]; cbn beta.
    + eapply hold_bind; [by apply hold_trivial|]. intros ?. apply hold_ret.
    + intros s Hs. by eapply mid_nil.
Qed.
Lemma hold_drive l : automatic l → ep_windows (lp_policy l) ≠ [] → hold (mid l []) (drive l) (λ _, mid l []).
Proof.
  intros Ha Hw s Hs. unfold drive, abind at 1, state. destruct (au_stage s) eqn:Est.
  - apply (hold_bind (mid l []) _ _ (λ _, mid l []) (λ _, mid l [])); [by apply hold_check_if_due, may_check_auto| |exact Hs]. intros ?.
    eapply hold_bind; [by apply hold_fetch_if_needed|]. intros [|]; [|apply hold_ret].
    eapply hold_bind; [by apply hold_ask|]. intros [d|]; cbn beta; [by apply hold_install|]. intros s' Hs'. by eapply mid_nil.
  - by apply (hold_await l Ha Hw).
  - apply (hold_reboot l Ha Hw). split; [exact Hs|]. destruct Hs as [[[_ Hst] _] _]. by rewrite Est in Hst.
Qed.
Lemma tick_guarded s : guarded s → guarded (tick s).2.
Proof.
  intros [Ht Hst]. unfold tick, abind, policy, asked at 1. destruct (ar_policy (au_world s)) as [l w].
  set (s1 := {| au_world := w |}).
  assert (H1 : mid l [] s1).
  { split; [split; [split|]|by exists (au_trace s1); rewrite app_nil_r]; cbn.
    - by apply trace_ok_snoc.
    - by apply stage_ok_snoc.
    - by rewrite current_policy_snoc. }
  assert (Hg : ∀ (m : A unit), hold (mid l []) m (λ _, mid l []) → guarded (m s1).2) by (intros m Hm; apply (Hm s1 H1)).
  destruct (ep_selection (lp_policy l)) as [selection|] eqn:Es; [|apply (Hg _ (hold_ret tt _))].
  assert (Hcheck : sl_mode selection ≠ Off → guarded (check_if_due l s1).2) by (intros Hm; apply Hg, hold_check_if_due; by exists selection).
  destruct (sl_mode selection) eqn:Em; [by apply (Hg _ (hold_stage Idle l [] ltac:(done)))|by apply Hcheck|].
  destruct (auto_window_refusal (lp_policy l)) eqn:Er; [by apply Hcheck|]. apply Hg, hold_drive; [by exists selection|].
  unfold auto_window_refusal in Er. rewrite Es in Er. cbn in Er. rewrite Em in Er. by destruct (ep_windows (lp_policy l)).
Qed.

(** C17: over any run of the automatic driver, whatever the routes answer and
    however the world moves between ticks, every call it made was justified by
    what it had just asked. A check follows its audit line under a mode that
    is not [off]; a fetch is made in [auto] mode only, for a selection whose
    descriptor is not the staged one; an install is made in [auto] mode only,
    of the staged descriptor, after a believed clock, an open maintenance
    window, a backend with no reboot pending and a fresh check that names
    exactly that descriptor's id; a staged descriptor is discarded only after
    a check that found nothing; a reboot is asked for in [auto] mode with the
    [window] reboot policy only, inside an open window, after an install of
    the driver's own that the backend reported done. *)
Theorem driver_guarded w s : reachable w s → trace_ok (au_trace s).
Proof.
  intros H. cut (guarded s); [by intros []|]. induction H as [|s _ IH|s w' _ IH].
  - unfold new_driver. destruct (ar_now w) as [t w1]. destruct (ar_wall w1) as [t' w2]. split; [|done]. by intros [|] ? ?.
  - by apply tick_guarded.
  - exact IH.
Qed.
End guard.

(** * A bench *)

Definition bench_id : string := String.concat "" (repeat "b" 64).
Definition bench_descriptor : string := "/mica/data/mica-deploy/verified/" +:+ bench_id +:+ ".json".
Definition bench_policy : EffectivePolicy :=
  {| ep_selection := Some {| sl_url := Some "https://updates"; sl_mode := Auto; sl_check_interval_minutes := 60; sl_channels := [] |};
     ep_max_bytes := default_max_bytes; ep_network := default_network;
     ep_windows := [{| mw_days := []; mw_start := "02:00"; mw_end := "04:00" |}];
     ep_reboot_gate := default_reboot_gate; ep_reboot_policy := Window; ep_check_at := None |}.
Definition bench_available : Available := {| UpdateLifecycle.av_deployment_id := bench_id; UpdateLifecycle.av_version := "2.0"; UpdateLifecycle.av_set_kind := None |}.
(** The world: the hour of the day, and whether a descriptor is staged and an
    install has run. *)
Record Bench := { bn_hour : Z; bn_staged : bool; bn_installed : bool }.
#[local] Instance bench_routes : AutoRoutes Bench := {|
  ar_policy := λ w, ({| lp_policy := bench_policy; lp_error := None |}, w);
  ar_check := λ _ w, (inr (Done bench_available), w);
  ar_fetch := λ _ w, (inr (Done bench_descriptor), {| bn_hour := bn_hour w; bn_staged := true; bn_installed := bn_installed w |});
  ar_available := λ w, (Some bench_available, w);
  ar_staged := λ w, (if bn_staged w && negb (bn_installed w) then Some bench_descriptor else None, w);
  ar_discard_staged := λ _ w, w;
  ar_facts := λ w, (Some {| uf_reboot_pending := bn_installed w; uf_install_status := if bn_installed w then Some "done" else None |}, w);
  ar_install := λ _ _ w, (inr tt, {| bn_hour := bn_hour w; bn_staged := bn_staged w; bn_installed := true |});
  ar_reboot := λ _ w, (inr tt, w);
  ar_clock := λ w, ({| ck_status := Some Synchronized; ck_floor_advanced := false |}, w);
  ar_audit := λ _ w, w; ar_defer := λ _ _ w, w; ar_resume := λ _ w, w;
  ar_now := λ w, (bn_hour w * 3600 * 1000000000, w); ar_wall := λ w, (bn_hour w * 3600, w); ar_utc_now := λ w, (bn_hour w * 3600, w) |}.
Definition at_hour (hour : Z) (s : AutoDriver (W := Bench)) : AutoDriver (W := Bench) :=
  {| au_last_check := au_last_check s; au_anchor_floor := au_anchor_floor s; au_stage := au_stage s;
     au_world := {| bn_hour := hour; bn_staged := bn_staged (au_world s); bn_installed := bn_installed (au_world s) |};
     au_trace := au_trace s |}.
Definition bench_new : AutoDriver (W := Bench) := new_driver {| bn_hour := 0; bn_staged := false; bn_installed := false |}.
(** At one the window is shut; at two the driver installs, then reboots. *)
Definition bench_run : AutoDriver (W := Bench) := (tick (tick (at_hour 2 (tick (at_hour 1 bench_new)).2)).2).2.
Definition acted (e : event) : bool :=
  match e with EFetched _ | EInstalled _ _ | ERebooted _ | EDeferred _ _ => true | _ => false end.
Example bench_acts : List.filter acted (au_trace bench_run) =
  [EFetched (inr (Done bench_descriptor)); EDeferred "outside-window" "outside every configured maintenance window";
   EInstalled bench_descriptor (inr tt); ERebooted (inr tt)].
Proof. by vm_compute. Qed.
Lemma driver_guarded_witness :
  reachable {| bn_hour := 0; bn_staged := false; bn_installed := false |} bench_run ∧ trace_ok (au_trace bench_run).
Proof.
  assert (H : reachable {| bn_hour := 0; bn_staged := false; bn_installed := false |} bench_run).
  { apply reach_tick, reach_tick, reach_world, reach_tick, reach_world, reach_start. }
  split; [exact H|]. exact (driver_guarded _ _ H).
Defined.

End UpdateAuto.
