(* ===== verification/Sessions.v ===== *)
(** Browser sessions ([src/crates/mica-apid/src/session.rs]): signed cookies
    over an in-memory table. HMAC is a parameter: [aws_lc_rs]'s [verify] checks
    the tag [sign] answers. Random bytes and the monotonic clock are arguments
    of the operations that draw them. *)
From Stdlib Require Import Ascii.
From S2P Require Import Prelude Text Chars.

Module Sessions.

(** * Hexadecimal ([hex::encode], [hex::decode]) *)

Definition hex_digit (n : Z) : ascii := val_byte (if n <? 10 then 48 + n else 87 + n).
Definition hex_value (c : ascii) : option Z :=
  let v := byte_val c in
  if is_digit c then Some (v - 48)
  else if in_range "a" "f" c then Some (v - 87)
  else if in_range "A" "F" c then Some (v - 55)
  else None.
Fixpoint hex_encode (b : bytes) : string :=
  match b with
  | [] => EmptyString
  | c :: rest => String (hex_digit (byte_val c / 16)) (String (hex_digit (byte_val c mod 16)) (hex_encode rest))
  end.
Fixpoint hex_decode (s : string) : option bytes :=
  match s with
  | EmptyString => Some []
  | String a (String b rest) =>
      h ← hex_value a; l ← hex_value b; tail ← hex_decode rest; Some (val_byte (16 * h + l) :: tail)
  | String _ EmptyString => None
  end.

(** * The store *)

Definition COOKIE_NAME : string := "apid_session".
(** A day, in nanoseconds. *)
Definition SESSION_TTL : Z := 24 * 60 * 60 * 1000000000.

Class Hmac := { hmac_key : Type; hmac : hmac_key → bytes → bytes }.

Record StoredSession := { ss_expires_at : Z; ss_csrf_token : string }.
Record SessionStore `{Hmac} := { st_key : hmac_key; st_sessions : gmap string StoredSession; st_generation : Z }.
Record CreatedSession := { cs_cookie : string; cs_csrf_token : string }.

Section store.
Context `{HM : Hmac}.
Implicit Types st : SessionStore.

Definition new_store (key : hmac_key) : SessionStore := {| st_key := key; st_sessions := ∅; st_generation := 0 |}.
Definition with_sessions (sessions : gmap string StoredSession) st : SessionStore :=
  {| st_key := st_key st; st_sessions := sessions; st_generation := st_generation st |}.
Definition tag st (id : string) : bytes := hmac (st_key st) (str_bytes id).

(** [id_bytes] and [csrf_bytes] are the bytes drawn from the system. *)
Definition create (id_bytes csrf_bytes : bytes) (now : Z) st : CreatedSession * SessionStore :=
  let id := hex_encode id_bytes in
  let csrf_token := hex_encode csrf_bytes in
  let mac := hex_encode (tag st id) in
  ({| cs_cookie := id +:+ "." +:+ mac; cs_csrf_token := csrf_token |},
   with_sessions (<[id := {| ss_expires_at := now + SESSION_TTL; ss_csrf_token := csrf_token |}]> (st_sessions st)) st).
Definition create_if_current (generation : Z) (id_bytes csrf_bytes : bytes) (now : Z) st : option CreatedSession * SessionStore :=
  if st_generation st =? generation
  then let '(created, st) := create id_bytes csrf_bytes now st in (Some created, st)
  else (None, st).

Definition verify_signature st (value : string) : option string :=
  '(id, mac_hex) ← split_once "." value;
  mac_bytes ← hex_decode mac_hex;
  if bool_decide (mac_bytes = tag st id) then Some id else None.
(** The table's answer for an id: an expired session is dropped. *)
Definition live (now : Z) (id : string) st : option StoredSession * SessionStore :=
  match st_sessions st !! id with
  | Some session => if now <? ss_expires_at session then (Some session, st) else (None, with_sessions (delete id (st_sessions st)) st)
  | None => (None, st)
  end.
Definition verify (now : Z) (value : string) st : bool * SessionStore :=
  match verify_signature st value with
  | None => (false, st)
  | Some id => let '(session, st) := live now id st in (bool_decide (is_Some session), st)
  end.
Definition csrf_token (now : Z) (value : string) st : option string * SessionStore :=
  match verify_signature st value with
  | None => (None, st)
  | Some id => let '(session, st) := live now id st in (ss_csrf_token <$> session, st)
  end.
Definition verify_csrf (now : Z) (value presented : string) st : bool * SessionStore :=
  let '(expected, st) := csrf_token now value st in
  (match expected with
   | None => false
   | Some expected => bool_decide (tag st expected = hmac (st_key st) (str_bytes presented))
   end, st).
Definition remove_all_except (value : string) st : SessionStore :=
  let keep := verify_signature st value in
  {| st_key := st_key st;
     st_sessions := match keep with Some id => filter (λ e, e.1 = id) (st_sessions st) | None => ∅ end;
     st_generation := wrap64 (st_generation st + 1) |}.
Definition remove (value : string) st : SessionStore :=
  match verify_signature st value with
  | Some id => with_sessions (delete id (st_sessions st)) st
  | None => st
  end.
End store.

Definition session_cookie (value : string) (secure : bool) : string :=
  COOKIE_NAME +:+ "=" +:+ value +:+ "; Path=/; HttpOnly;" +:+ (if secure then " Secure;" else "") +:+ " SameSite=Lax; Max-Age=86400".
Definition clear_cookie (secure : bool) : string :=
  COOKIE_NAME +:+ "=; Path=/; HttpOnly;" +:+ (if secure then " Secure;" else "") +:+ " SameSite=Lax; Max-Age=0".
(** The Cookie headers in order, none for one that is not text. *)
Definition cookie_from_headers (headers : list (option string)) : option string :=
  head (omap (λ pair, strip_prefix (COOKIE_NAME +:+ "=") (trim pair)) (concat (map (split ";") (omap id headers)))).

(** * Histories *)

(** The calls the console makes, in the order its lock serializes them. *)
Inductive op :=
| OCreate (id_bytes csrf_bytes : bytes) (now : Z)
| OCreateIf (generation : Z) (id_bytes csrf_bytes : bytes) (now : Z)
| OVerify (now : Z) (value : string)
| OCsrf (now : Z) (value : string)
| OKeep (value : string)
| ORemove (value : string).

Section history.
Context `{HM : Hmac}.
Implicit Types st : SessionStore.

Definition apply (o : op) st : SessionStore :=
  match o with
  | OCreate id csrf now => (create id csrf now st).2
  | OCreateIf g id csrf now => (create_if_current g id csrf now st).2
  | OVerify now value => (verify now value st).2
  | OCsrf now value => (csrf_token now value st).2
  | OKeep value => remove_all_except value st
  | ORemove value => remove value st
  end.
Definition run (key : hmac_key) (l : list op) : SessionStore := foldl (λ st o, apply o st) (new_store key) l.

(** What an operation does to the session [id]: issues it with an expiry and a
    token, or revokes it, or neither. *)
Definition issues (id : string) (o : op) st : option StoredSession :=
  match o with
  | OCreate i c now => if bool_decide (hex_encode i = id) then Some {| ss_expires_at := now + SESSION_TTL; ss_csrf_token := hex_encode c |} else None
  | OCreateIf g i c now =>
      if bool_decide (hex_encode i = id) && (st_generation st =? g)
      then Some {| ss_expires_at := now + SESSION_TTL; ss_csrf_token := hex_encode c |} else None
  | _ => None
  end.
Definition revokes (id : string) (o : op) st : Prop :=
  match o with
  | OKeep value => verify_signature st value ≠ Some id
  | ORemove value => verify_signature st value = Some id
  | _ => False
  end.

(** [id] was issued as [s] and nothing revoked it since. *)
Inductive stands (key : hmac_key) (id : string) (s : StoredSession) : list op → Prop :=
| stands_issued l o : issues id o (run key l) = Some s → stands key id s (l ++ [o])
| stands_kept l o : stands key id s l → issues id o (run key l) = None → ¬ revokes id o (run key l) → stands key id s (l ++ [o]).

Definition op_time (o : op) : option Z :=
  match o with OCreate _ _ now | OCreateIf _ _ _ now | OVerify now _ | OCsrf now _ => Some now | OKeep _ | ORemove _ => None end.
(** No call ran later than [now]. *)
Definition until (now : Z) (l : list op) : Prop := Forall (λ o, ∀ t, op_time o = Some t → t ≤ now) l.

(** ** Lemmas *)

Lemma run_snoc key l o : run key (l ++ [o]) = apply o (run key l).
Proof. unfold run. by rewrite foldl_app. Qed.
Lemma live_spec now id st : live now id st =
  (match st_sessions st !! id with Some s => if now <? ss_expires_at s then Some s else None | None => None end,
   if match st_sessions st !! id with Some s => now <? ss_expires_at s | None => true end then st else with_sessions (delete id (st_sessions st)) st).
Proof. unfold live. destruct (st_sessions st !! id); [|done]. by destruct (_ <? _). Qed.
Lemma live_key now id st : st_key (live now id st).2 = st_key st.
Proof. rewrite live_spec. cbn. by destruct (match _ with Some _ => _ | None => _ end). Qed.
Lemma verify_state now value st : (verify now value st).2 = match verify_signature st value with Some id => (live now id st).2 | None => st end.
Proof. unfold verify. destruct (verify_signature st value); [|done]. by destruct (live now s st). Qed.
Lemma csrf_state now value st : (csrf_token now value st).2 = match verify_signature st value with Some id => (live now id st).2 | None => st end.
Proof. unfold csrf_token. destruct (verify_signature st value); [|done]. by destruct (live now s st). Qed.
Lemma apply_key o st : st_key (apply o st) = st_key st.
Proof.
  destruct o; cbn [apply]; try done.
  - unfold create_if_current. by destruct (_ =? _).
  - rewrite verify_state. destruct (verify_signature st value); [apply live_key|done].
  - rewrite csrf_state. destruct (verify_signature st value); [apply live_key|done].
  - unfold remove. by destruct (verify_signature st value).
Qed.
Lemma run_key key l : st_key (run key l) = key.
Proof. induction l as [|o l IH] using rev_ind; [done|]. by rewrite run_snoc, apply_key. Qed.

(** What an operation does to the table at [id]. *)
Lemma live_lookup now i id st : st_sessions (live now i st).2 !! id =
  if bool_decide (i = id) then match st_sessions st !! id with Some s => if now <? ss_expires_at s then Some s else None | None => None end
  else st_sessions st !! id.
Proof.
  rewrite live_spec. cbn [snd]. case_bool_decide as E; [subst i|].
  - destruct (st_sessions st !! id) as [s|] eqn:Es; [|exact Es]. destruct (now <? ss_expires_at s); [exact Es|]. apply lookup_delete_eq.
  - destruct (st_sessions st !! i) as [s|]; [|done]. destruct (now <? ss_expires_at s); [done|]. by apply lookup_delete_ne.
Qed.
Definition expired_by (o : op) (s : StoredSession) : Prop := ∃ t, op_time o = Some t ∧ ss_expires_at s ≤ t.
Lemma apply_lookup id o st :
  match issues id o st with
  | Some s => st_sessions (apply o st) !! id = Some s
  | None =>
      (revokes id o st → st_sessions (apply o st) !! id = None)
      ∧ (¬ revokes id o st → st_sessions (apply o st) !! id = st_sessions st !! id
           ∨ ∃ s, st_sessions st !! id = Some s ∧ expired_by o s ∧ st_sessions (apply o st) !! id = None)
  end.
Proof.
  assert (Hlive : ∀ now value (o' : op), op_time o' = Some now →
    let st' := match verify_signature st value with Some i => (live now i st).2 | None => st end in
    st_sessions st' !! id = st_sessions st !! id ∨ ∃ s, st_sessions st !! id = Some s ∧ expired_by o' s ∧ st_sessions st' !! id = None).
  { intros now value o' Ho st'. subst st'. destruct (verify_signature st value) as [i|]; [|by left]. rewrite live_lookup.
    case_bool_decide; [|by left]. destruct (st_sessions st !! id) as [s|]; [|by left]. destruct (now <? ss_expires_at s) eqn:E; [by left|].
    right. exists s. apply Z.ltb_ge in E. split; [done|]. split; [|done]. by exists now. }
  destruct o as [i c now|g i c now|now value|now value|value|value]; cbn [issues].
  - case_bool_decide as E; cbn.
    + subst id. apply lookup_insert_eq.
    + split; [done|]. intros _. left. by apply lookup_insert_ne.
  - case_bool_decide as E; cbn; unfold create_if_current; [destruct (st_generation st =? g) eqn:Eg; cbn|].
    + subst id. apply lookup_insert_eq.
    + split; [done|]. by left.
    + split; [done|]. intros _. left. destruct (st_generation st =? g); [|done]. by apply lookup_insert_ne.
  - split; [done|]. intros _. cbn [apply]. rewrite verify_state. by apply Hlive.
  - split; [done|]. intros _. cbn [apply]. rewrite csrf_state. by apply Hlive.
  - cbn [apply revokes]. unfold remove_all_except. cbn. destruct (verify_signature st value) as [i|]; cbn; split; intros H.
    + apply map_lookup_filter_None. right. intros s _ E. cbn in E. by subst i.
    + left. assert (i = id) as -> by (apply dec_stable; intros Hn; apply H; congruence). destruct (st_sessions st !! id) as [s|] eqn:Es.
      * by apply map_lookup_filter_Some.
      * apply map_lookup_filter_None. by left.
    + by apply lookup_empty.
    + exfalso. by apply H.
  - cbn [apply revokes]. unfold remove. split; intros H.
    + rewrite H. apply lookup_delete_eq.
    + left. destruct (verify_signature st value) as [i|]; [|done]. apply lookup_delete_ne. congruence.
Qed.
Lemma signature_key st st' value : st_key st = st_key st' → verify_signature st value = verify_signature st' value.
Proof. intros E. unfold verify_signature, tag. by rewrite E. Qed.

Lemma hex_digit_value n : 0 ≤ n < 16 → hex_value (hex_digit n) = Some n.
Proof.
  intros H. assert (∀ m : nat, (m < 16)%nat → hex_value (hex_digit (Z.of_nat m)) = Some (Z.of_nat m)) as Hm.
  { intros m Hm. do 16 (destruct m as [|m]; [by vm_compute|]). lia. }
  specialize (Hm (Z.to_nat n)). rewrite Z2Nat.id in Hm by lia. apply Hm. lia.
Qed.
Lemma hex_decode_encode b : hex_decode (hex_encode b) = Some b.
Proof.
  induction b as [|c b IH]; [done|]. cbn [hex_encode hex_decode]. pose proof (byte_val_bound c) as Hc.
  rewrite !hex_digit_value by (split; [apply Z.div_pos; lia|apply Z.div_lt_upper_bound; lia] || (apply Z.mod_pos_bound; lia)). cbn. rewrite IH. cbn.
  rewrite <-Z.div_mod by lia. by rewrite val_byte_val.
Qed.
Lemma hex_digit_not_dot n : 0 ≤ n < 16 → hex_digit n ≠ "."%char.
Proof. intros H E. pose proof (hex_digit_value n H) as Hv. rewrite E in Hv. by vm_compute in Hv. Qed.
Lemma hex_no_dot b : contains_byte "." (hex_encode b) = false.
Proof.
  induction b as [|c b IH]; [done|]. cbn [hex_encode contains_byte]. pose proof (byte_val_bound c) as Hc. rewrite IH.
  rewrite !bool_decide_eq_false_2; [done|..]; apply not_eq_sym, hex_digit_not_dot;
    [apply Z.mod_pos_bound; lia|split; [apply Z.div_pos; lia|apply Z.div_lt_upper_bound; lia]].
Qed.
(** A cookie names the session it was made for. *)
Lemma cookie_signature i c now st st' : st_key st' = st_key st →
  verify_signature st' (cs_cookie (create i c now st).1) = Some (hex_encode i).
Proof.
  intros E. unfold verify_signature. cbn [create cs_cookie fst].
  rewrite (proj2 (split_once_spec _ _ (hex_encode i) (hex_encode (tag st (hex_encode i))))) by (split; [done|apply hex_no_dot]).
  cbn. rewrite hex_decode_encode. cbn. unfold tag. by rewrite E, bool_decide_eq_true_2.
Qed.
Lemma stands_inv key id s l o : stands key id s (l ++ [o]) →
  issues id o (run key l) = Some s ∨ (stands key id s l ∧ issues id o (run key l) = None ∧ ¬ revokes id o (run key l)).
Proof.
  intros H. inversion H as [l' o' Hi E|l' o' Hs Hi Hr E]; apply app_inj_tail in E as [-> ->]; [by left|by right].
Qed.
Lemma stands_nil key id s : ¬ stands key id s [].
Proof. intros H. inversion H as [l o _ E|l o _ _ _ E]; by destruct l. Qed.
Lemma until_snoc now l o : until now (l ++ [o]) ↔ until now l ∧ ∀ t, op_time o = Some t → t ≤ now.
Proof. unfold until. by rewrite Forall_app, Forall_singleton. Qed.
(** The table holds what stands, but for sessions that had expired when one
    was asked about. *)
Lemma table_spec key id l now : until now l →
  (∀ s, st_sessions (run key l) !! id = Some s → stands key id s l)
  ∧ (∀ s, stands key id s l → now < ss_expires_at s → st_sessions (run key l) !! id = Some s).
Proof.
  induction l as [|o l IH] using rev_ind; intros Hu.
  { split; intros s H; [by apply (lookup_empty_Some (M := gmap string) id s) in H|by apply stands_nil in H]. }
  apply until_snoc in Hu as [Hu Ho]. destruct (IH Hu) as [H1 H2]. rewrite run_snoc. pose proof (apply_lookup id o (run key l)) as Ha.
  destruct (issues id o (run key l)) as [s0|] eqn:Ei.
  { split; intros s Hs; [|intros _].
    - apply stands_issued. congruence.
    - apply stands_inv in Hs as [Hs|(_ & Hs & _)]; congruence. }
  destruct Ha as [Hr Hk]. split; intros s Hs.
  - assert (Hn : ¬ revokes id o (run key l)) by (intros Hn; apply Hr in Hn; congruence).
    apply stands_kept; [|done..]. destruct (Hk Hn) as [E|(s' & _ & _ & E)]; [apply H1; congruence|congruence].
  - intros Hlt. apply stands_inv in Hs as [Hs|(Hs & _ & Hn)]; [congruence|]. destruct (Hk Hn) as [E|(s' & Es & (t & Ht & Hle) & E)].
    + rewrite E. by apply H2.
    + specialize (H2 s Hs Hlt). apply Ho in Ht. assert (s' = s) as -> by congruence. lia.
Qed.

(** After any history of calls -- sessions created, asked about, logged
    out and revoked in any order -- a presented cookie is accepted exactly
    when its MAC is the store's tag of its id and that id was issued, less than
    a day ago, and neither logged out nor left behind by a revocation since.
    A CSRF token passes exactly when, besides, it has the tag of the token
    issued with that session. *)
Theorem session_exact key l now value presented (Hu : until now l) :
  ((verify now value (run key l)).1 = true ↔
     ∃ id s, verify_signature (run key l) value = Some id ∧ stands key id s l ∧ now < ss_expires_at s)
  ∧ ((verify_csrf now value presented (run key l)).1 = true ↔
     ∃ id s, verify_signature (run key l) value = Some id ∧ stands key id s l ∧ now < ss_expires_at s
       ∧ hmac key (str_bytes presented) = hmac key (str_bytes (ss_csrf_token s))).
Proof.
  unfold verify, verify_csrf, csrf_token. destruct (verify_signature (run key l) value) as [id|] eqn:Es; [|split; (split; [done|]); by intros (? & ? & ? & _)].
  rewrite live_spec. destruct (table_spec key id l now Hu) as [H1 H2]. cbn.
  assert (Hiff : ∀ P : StoredSession → Prop, (∃ id' s, Some id = Some id' ∧ stands key id' s l ∧ now < ss_expires_at s ∧ P s)
    ↔ ∃ s, st_sessions (run key l) !! id = Some s ∧ now < ss_expires_at s ∧ P s).
  { intros P. split; [intros (id' & s & [= <-] & Hs & Hlt & HP); eauto 10|]. intros (s & Hs & Hlt & HP). eauto 10. }
  rewrite Hiff. assert (Ht : (∃ id' s, Some id = Some id' ∧ stands key id' s l ∧ now < ss_expires_at s) ↔ ∃ s, st_sessions (run key l) !! id = Some s ∧ now < ss_expires_at s).
  { specialize (Hiff (λ _, True)). naive_solver. }
  rewrite Ht. unfold tag.
  destruct (st_sessions (run key l) !! id) as [s|]; [destruct (Z.ltb_spec now (ss_expires_at s)) as [Hlt|Hge]|]; cbn.
  - rewrite run_key. split; [naive_solver|]. rewrite bool_decide_eq_true. naive_solver.
  - split; (split; [done|]); intros (s' & [= <-] & Hlt'); [|destruct Hlt' as [Hlt' _]]; lia.
  - split; (split; [done|]); by intros (s' & Hs' & _).
Qed.
End history.

(** * A bench *)

(** A tag that is its key and message: enough to compute with. *)
#[local] Instance plain_hmac : Hmac := {| hmac_key := bytes; hmac := λ key m, key ++ m |}.
Definition bench_key : bytes := str_bytes "key".
Definition bench_id : bytes := str_bytes "0123456789abcdef".
Definition bench_csrf : bytes := str_bytes "secret".
Definition bench_cookie : string := cs_cookie (create bench_id bench_csrf 0 (new_store bench_key)).1.
(** A session, asked about, kept through a password change. *)
Definition bench_history : list op := [OCreate bench_id bench_csrf 5; OVerify 7 bench_cookie; OKeep bench_cookie].
Lemma session_exact_witness : until 100 bench_history
  ∧ (verify 100 bench_cookie (run bench_key bench_history)).1 = true
  ∧ (verify 100 bench_cookie (run bench_key (bench_history ++ [ORemove bench_cookie]))).1 = false
  ∧ ((verify 100 bench_cookie (run bench_key bench_history)).1 = true ↔
     ∃ id s, verify_signature (run bench_key bench_history) bench_cookie = Some id ∧ stands bench_key id s bench_history ∧ 100 < ss_expires_at s).
Proof.
  assert (H : until 100 bench_history) by (repeat constructor; intros t [= <-]; lia).
  split; [exact H|]. split; [by vm_compute|]. split; [by vm_compute|].
  exact (proj1 (session_exact bench_key bench_history 100 bench_cookie "" H)).
Defined.

End Sessions.
