(* ===== verification/LoginGuard.v ===== *)
(** The login backoff ([src/crates/mica-apid/src/auth.rs], with the clock and
    the write of [persist.rs]): every password guess doubles the wait before
    the next one, up to five minutes, across restarts. Times are nanoseconds of
    one clock that restarts do not stop; the wall clock is that clock at an
    offset. *)
From S2P Require Import Prelude Text.

Module LoginGuard.

Definition SECOND : Z := 1000000000.
Definition BACKOFF_BASE : Z := 1.
Definition BACKOFF_MAX : Z := 300.
Definition U32_MAX : Z := 4294967295.

(** [1u64.checked_shl(failures - 1)], and the wait in nanoseconds. *)
Definition backoff_for (failures : Z) : Z :=
  if failures =? 0 then 0
  else
    let factor := if failures - 1 <? 64 then Z.shiftl 1 (failures - 1) else U64_MAX in
    let secs := Z.min (BACKOFF_BASE * factor) U64_MAX in
    Z.min secs BACKOFF_MAX * SECOND.

Record Guard := { gd_failures : Z; gd_locked_until : option Z }.
Definition new_guard : Guard := {| gd_failures := 0; gd_locked_until := None |}.
#[export] Instance Guard_eq_dec : EqDecision Guard.
Proof. solve_decision. Defined.

Definition check (now : Z) (g : Guard) : bool * Guard :=
  match gd_locked_until g with
  | Some until => if now <? until then (false, g) else (true, {| gd_failures := gd_failures g; gd_locked_until := None |})
  | None => (true, g)
  end.
Definition record_failure (now : Z) (g : Guard) : Guard :=
  let failures := Z.min (gd_failures g + 1) U32_MAX in
  {| gd_failures := failures; gd_locked_until := Some (now + backoff_for failures) |}.
Definition begin_attempt (now : Z) (g : Guard) : bool * Guard :=
  let '(open, g) := check now g in
  if open : bool then (true, record_failure now g) else (false, g).
Definition confirm_failure (now : Z) (g : Guard) : Guard :=
  {| gd_failures := gd_failures g; gd_locked_until := Some (now + backoff_for (gd_failures g)) |}.
Definition record_success (g : Guard) : Guard := new_guard.

(** * Persistence *)

Record Persisted := { pg_failures : Z; pg_locked_until_unix : Z }.
(** [login_guard.json]: absent, the record, or something that is not one. *)
Inductive File := Absent | Held (p : Persisted) | Damaged.

Section clock.
(** The wall clock minus the monotonic one. *)
Variable offset : Z.

(** [persist::now_unix]. *)
Definition now_unix (now : Z) : Z := Z.max 0 ((offset + now) / SECOND).
Definition to_persisted (now : Z) (g : Guard) : Persisted :=
  let remaining := match gd_locked_until g with Some until => Z.max 0 (until - now) | None => 0 end in
  {| pg_failures := gd_failures g;
     pg_locked_until_unix := if remaining =? 0 then 0 else Z.min (now_unix now + Z.max (remaining / SECOND) 1) U64_MAX |}.
Definition from_persisted (now : Z) (p : Persisted) : Guard :=
  let remaining := Z.min (Z.max 0 (pg_locked_until_unix p - now_unix now)) BACKOFF_MAX in
  {| gd_failures := pg_failures p; gd_locked_until := if remaining =? 0 then None else Some (now + remaining * SECOND) |}.

(** [GuardStore]: the guard under its lock, and its file. *)
Record GuardStore := { gs_guard : Guard; gs_file : File }.
Definition load (now : Z) (file : File) : GuardStore :=
  {| gs_guard := match file with Held p => from_persisted now p | Absent | Damaged => new_guard end; gs_file := file |}.
(** A call at [now]; a changed guard is written at [later], when [written]. *)
Definition with_ {R} (mutate : Guard → R * Guard) (later : Z) (written : bool) (s : GuardStore) : R * GuardStore :=
  let '(r, g) := mutate (gs_guard s) in
  (r, {| gs_guard := g;
         gs_file := if bool_decide (g ≠ gs_guard s) && written then Held (to_persisted later g) else gs_file s |}).

(** * Runs *)

Inductive call := Begin | Confirm | Success.
Inductive event := Called (c : call) (now later : Z) (written : bool) | Restarted (now : Z).
Definition step (e : event) (s : GuardStore) : bool * GuardStore :=
  match e with
  | Called Begin now later written => with_ (begin_attempt now) later written s
  | Called Confirm now later written => with_ (λ g, (false, confirm_failure now g)) later written s
  | Called Success _ later written => with_ (λ g, (false, record_success g)) later written s
  | Restarted now => (false, load now (gs_file s))
  end.
Definition starts (e : event) : Z := match e with Called _ now _ _ => now | Restarted now => now end.
Definition ends (e : event) : Z := match e with Called _ _ later _ => later | Restarted now => now end.
(** The times of the admitted attempts. *)
Fixpoint admitted (l : list event) (s : GuardStore) : list Z :=
  match l with
  | [] => []
  | e :: rest => let '(r, s) := step e s in (if r : bool then [starts e] else []) ++ admitted rest s
  end.

(** One event after the other, no success among them, every changed guard
    written, and a clock within a [u64] of seconds. *)
Definition in_clock (t : Z) : Prop := 0 ≤ offset + t ∧ (offset + t) / SECOND + 300 ≤ U64_MAX.
Inductive timeline : Z → list event → Prop :=
| timeline_nil t : timeline t []
| timeline_cons t e l : t ≤ starts e → starts e ≤ ends e → in_clock (starts e) → in_clock (ends e) → timeline (ends e) l → timeline t (e :: l).
Definition no_success (e : event) : Prop := match e with Called Success _ _ _ => False | _ => True end.
Definition kept (e : event) : Prop := match e with Called _ _ _ written => written = true | Restarted _ => True end.
Definition is_restart (e : event) : bool := match e with Restarted _ => true | _ => false end.
(** What the whole seconds of the file can lose of a window. *)
Definition slack (l : list event) : Z := if existsb is_restart l then 2 * SECOND else 0.

(** ** Lemmas *)

Lemma backoff_positive n : 1 ≤ n → SECOND ≤ backoff_for n.
Proof.
  intros H. unfold backoff_for. destruct (Z.eqb_spec n 0); [lia|]. destruct (Z.ltb_spec (n - 1) 64).
  - rewrite Z.shiftl_1_l. pose proof (Z.pow_pos_nonneg 2 (n - 1) ltac:(lia) ltac:(lia)). unfold SECOND, BACKOFF_BASE, BACKOFF_MAX, U64_MAX. lia.
  - unfold SECOND, BACKOFF_BASE, BACKOFF_MAX, U64_MAX. lia.
Qed.
Lemma backoff_max n : backoff_for n ≤ 300 * SECOND.
Proof. unfold backoff_for, BACKOFF_MAX. destruct (n =? 0); unfold SECOND; [lia|]. cbv zeta. lia. Qed.
Lemma backoff_capped n : 10 ≤ n → backoff_for n = 300 * SECOND.
Proof.
  intros H. unfold backoff_for. destruct (Z.eqb_spec n 0); [lia|]. cbv zeta. destruct (Z.ltb_spec (n - 1) 64).
  - rewrite Z.shiftl_1_l. assert (2 ^ 9 ≤ 2 ^ (n - 1)) by (apply Z.pow_le_mono_r; lia). change (2 ^ 9) with 512 in *.
    unfold BACKOFF_BASE, BACKOFF_MAX, U64_MAX. lia.
  - unfold BACKOFF_BASE, BACKOFF_MAX, U64_MAX. lia.
Qed.
Lemma backoff_saturated n : 0 ≤ n → backoff_for (Z.min n U32_MAX) = backoff_for n.
Proof.
  intros H. destruct (Z.le_gt_cases n U32_MAX); [by rewrite Z.min_l|]. rewrite Z.min_r by lia.
  rewrite !backoff_capped; unfold U32_MAX in *; lia.
Qed.

Section run.
(** The slack allowed, and whether restarts are. *)
Variable sl : Z.
Hypothesis Hsl : sl = 0 ∨ sl = 2 * SECOND.

(** When the next attempt may come at the earliest after [k] admitted ones,
    the last at [last]. *)
Definition due (k last : Z) : Z := last + backoff_for k - sl.
Definition window_ok (b now : Z) (until : option Z) : Prop := match until with Some u => b ≤ u | None => b ≤ now end.
Definition file_ok (b now : Z) (f : File) : Prop :=
  match f with Held p => b ≤ pg_locked_until_unix p * SECOND - offset ∨ b ≤ now | _ => False end.
(** After [k] admitted attempts, at [now]. *)
Definition charged (k : Z) (last : option Z) (now : Z) (s : GuardStore) : Prop :=
  gd_failures (gs_guard s) = Z.min k U32_MAX
  ∧ match last with
    | None => k = 0 ∧ (gs_file s = Absent ∨ ∃ p, gs_file s = Held p ∧ pg_failures p = 0)
    | Some last => 1 ≤ k ∧ last ≤ now ∧ window_ok (due k last) now (gd_locked_until (gs_guard s))
        ∧ (sl = 0 ∨ ∃ p, gs_file s = Held p ∧ pg_failures p = Z.min k U32_MAX ∧ file_ok (due k last) now (gs_file s))
    end.

Lemma window_later b now later u : now ≤ later → window_ok b now u → window_ok b later u.
Proof. destruct u; cbn; lia. Qed.
Lemma file_later b now later f : now ≤ later → file_ok b now f → file_ok b later f.
Proof. destruct f; cbn; lia. Qed.
Lemma charged_later k last now later s : now ≤ later → charged k last now s → charged k last later s.
Proof.
  intros Hl [Hf H]. split; [exact Hf|]. destruct last as [last|]; [|exact H]. destruct H as (H1 & H2 & H3 & H4).
  split; [exact H1|]. split; [lia|]. split; [by eapply window_later|]. destruct H4 as [H4|(p & Hp & Hpf & Hfo)]; [by left|right].
  exists p. split; [exact Hp|]. split; [exact Hpf|by eapply file_later].
Qed.
(** A window written down loses less than two seconds. *)
Lemma persisted_window g later until b : gd_locked_until g = Some until → in_clock later → b + 2 * SECOND ≤ until → until ≤ later + 300 * SECOND →
  file_ok b later (Held (to_persisted later g)).
Proof.
  intros Hg [Hc1 Hc2] Hb Hu. cbn. unfold to_persisted. rewrite Hg. cbn [pg_locked_until_unix]. set (remaining := Z.max 0 (until - later)).
  destruct (Z.eqb_spec remaining 0) as [E|E]; [right; subst remaining; unfold SECOND in *; lia|]. left.
  assert (Hnow : now_unix later = (offset + later) / SECOND) by (unfold now_unix; pose proof (Z.div_pos (offset + later) SECOND); unfold SECOND in *; lia).
  rewrite Hnow. pose proof (Z.div_mod (offset + later) SECOND ltac:(done)) as H1. pose proof (Z.mod_pos_bound (offset + later) SECOND ltac:(done)) as H1'.
  pose proof (Z.div_mod remaining SECOND ltac:(done)) as H2. pose proof (Z.mod_pos_bound remaining SECOND ltac:(done)) as H2'.
  assert (remaining / SECOND ≤ 300) by (apply Z.div_le_upper_bound; unfold SECOND in *; lia).
  rewrite Z.min_l by lia. unfold SECOND in *. subst remaining. lia.
Qed.
(** A file read back opens no window before it was due. *)
Lemma restored_window p now b last : in_clock now → file_ok b now (Held p) → b ≤ last + 300 * SECOND → last ≤ now →
  window_ok b now (gd_locked_until (from_persisted now p)).
Proof.
  intros [Hc1 Hc2] Hf Hb Hl. unfold from_persisted. cbn [gd_locked_until]. cbn in Hf.
  assert (Hnow : now_unix now = (offset + now) / SECOND) by (unfold now_unix; pose proof (Z.div_pos (offset + now) SECOND); unfold SECOND in *; lia).
  rewrite Hnow. pose proof (Z.div_mod (offset + now) SECOND ltac:(done)) as H1. pose proof (Z.mod_pos_bound (offset + now) SECOND ltac:(done)) as H1'.
  unfold BACKOFF_MAX, SECOND in *. destruct (Z.eqb_spec (Z.min (Z.max 0 (pg_locked_until_unix p - (offset + now) / 1000000000)) 300) 0); cbn; lia.
Qed.
Lemma due_bound k last : due k last + sl ≤ last + 300 * SECOND.
Proof. unfold due. pose proof (backoff_max k). lia. Qed.

Lemma charged_written k last t later g : 1 ≤ k → last ≤ t → t ≤ later → in_clock later →
  gd_failures g = Z.min k U32_MAX → gd_locked_until g = Some (t + backoff_for k) →
  charged k (Some last) later {| gs_guard := g; gs_file := Held (to_persisted later g) |}.
Proof.
  intros Hk Hl Ht Hc Hf Hu. split; [exact Hf|]. split; [exact Hk|]. split; [lia|]. cbn [gs_guard gs_file]. rewrite Hu. split.
  - cbn. unfold due. destruct Hsl as [-> | ->]; unfold SECOND; lia.
  - destruct Hsl as [H0|H2]; [by left|right]. eexists. split; [done|]. split; [exact Hf|].
    eapply persisted_window; [exact Hu|exact Hc|unfold due; rewrite H2; unfold SECOND; lia|pose proof (backoff_max k); unfold SECOND in *; lia].
Qed.
Lemma recorded_failures k g t : 0 ≤ k → gd_failures g = Z.min k U32_MAX →
  gd_failures (record_failure t g) = Z.min (k + 1) U32_MAX ∧ gd_locked_until (record_failure t g) = Some (t + backoff_for (k + 1)).
Proof.
  intros Hk Hf. unfold record_failure. cbn. rewrite Hf.
  replace (Z.min (Z.min k U32_MAX + 1) U32_MAX) with (Z.min (k + 1) U32_MAX) by (unfold U32_MAX; lia). by rewrite backoff_saturated by lia.
Qed.
(** An attempt is admitted only when due, and charged. *)
Lemma begin_charged k last t later s : charged k last t s → t ≤ later → in_clock later → 0 ≤ k →
  let '(r, s') := with_ (begin_attempt t) later true s in
  if r : bool then (∀ l, last = Some l → due k l ≤ t) ∧ charged (k + 1) (Some t) later s' else charged k last later s'.
Proof.
  intros Hch Ht Hc Hk. unfold with_, begin_attempt, check.
  assert (Hadm : ∀ g, gd_failures g = gd_failures (gs_guard s) → record_failure t g ≠ gs_guard s →
    (∀ l, last = Some l → due k l ≤ t) → (∀ l, last = Some l → due k l ≤ t) ∧
    charged (k + 1) (Some t) later {| gs_guard := record_failure t g;
      gs_file := if bool_decide (record_failure t g ≠ gs_guard s) && true then Held (to_persisted later (record_failure t g)) else gs_file s |}).
  { intros g Hg Hne Hd. split; [exact Hd|]. rewrite bool_decide_eq_true_2 by exact Hne. cbn [andb].
    destruct (recorded_failures k g t Hk) as [H1 H2]; [rewrite Hg; apply Hch|]. by apply (charged_written _ _ t); [lia|..]. }
  destruct (gd_locked_until (gs_guard s)) as [until|] eqn:Eu; [destruct (Z.ltb_spec t until) as [Hlt|Hge]|].
  - rewrite bool_decide_eq_false_2 by (intros H; by apply H). cbn [andb]. eapply charged_later; [exact Ht|]. by destruct s.
  - apply Hadm; [done|intros E; rewrite <-E in Eu; cbn in Eu; injection Eu as Eu|].
    + destruct (recorded_failures k (gs_guard s) t Hk) as [_ H2]; [apply Hch|]. cbn in H2. injection H2 as H2. pose proof (backoff_positive (k + 1)). unfold SECOND in *. lia.
    + intros l ->. destruct Hch as (_ & _ & _ & Hw & _). rewrite Eu in Hw. cbn in Hw. lia.
  - apply Hadm; [done|intros E; by rewrite <-E in Eu|]. intros l ->. destruct Hch as (_ & _ & _ & Hw & _). by rewrite Eu in Hw.
Qed.
Lemma confirm_charged k last t later s : charged k last t s → t ≤ later → in_clock later → 0 ≤ k →
  charged k last later (with_ (λ g, (false, confirm_failure t g)) later true s).2.
Proof.
  intros Hch Ht Hc Hk. unfold with_. cbn [snd]. destruct (decide (confirm_failure t (gs_guard s) = gs_guard s)) as [E|E].
  { rewrite E, bool_decide_eq_false_2 by (intros H; by apply H). cbn [andb]. eapply charged_later; [exact Ht|]. by destruct s. }
  rewrite bool_decide_eq_true_2 by exact E. cbn [andb]. destruct Hch as [Hf Hch]. destruct last as [last|].
  - destruct Hch as (H1 & H2 & _ & _). apply (charged_written _ _ t); [done..|exact Hf|]. cbn. by rewrite Hf, backoff_saturated.
  - destruct Hch as [-> _]. split; [exact Hf|]. split; [done|]. right. eexists. split; [done|]. cbn. by rewrite Hf.
Qed.
Lemma load_charged k last t s : charged k last t s → in_clock t → sl = 2 * SECOND → charged k last t (load t (gs_file s)).
Proof.
  intros [Hf Hch] Hc H2. unfold load. destruct last as [last|].
  - destruct Hch as (H1 & Hl & Hw & [H0|(p & Hp & Hpf & Hfo)]); [unfold SECOND in *; lia|]. rewrite Hp. split; [exact Hpf|].
    split; [exact H1|]. split; [exact Hl|]. rewrite Hp in Hfo. split; [|right; by exists p].
    cbn [gs_guard]. eapply (restored_window _ _ _ last); [exact Hc|exact Hfo|pose proof (due_bound k last); unfold SECOND in *; lia|exact Hl].
  - destruct Hch as [-> [E|(p & E & Hp)]]; rewrite E; (split; [cbn; by rewrite ?Hp|]); (split; [done|]); [by left|right; by exists p].
Qed.
Lemma step_charged e k last now s : charged k last now s → now ≤ starts e → starts e ≤ ends e → in_clock (starts e) → in_clock (ends e) →
  no_success e → kept e → (sl = 2 * SECOND ∨ is_restart e = false) → 0 ≤ k →
  let '(r, s') := step e s in
  if r : bool then (∀ l, last = Some l → due k l ≤ starts e) ∧ charged (k + 1) (Some (starts e)) (ends e) s' else charged k last (ends e) s'.
Proof.
  intros Hch Hnow Hse Hcs Hce Hns Hk Hre Hk0. apply (charged_later _ _ _ (starts e)) in Hch; [|exact Hnow].
  destruct e as [[| |] t later written|t]; cbn [step starts ends is_restart no_success kept] in *; subst; [by apply begin_charged| |done|].
  - by apply confirm_charged.
  - destruct Hre as [Hre|]; [|done]. by apply load_charged.
Qed.

Lemma spaced_from l k last now s : charged k last now s → timeline now l → Forall no_success l → Forall kept l →
  (sl = 2 * SECOND ∨ existsb is_restart l = false) → 0 ≤ k →
  ∀ i t t', (option_list last ++ admitted l s) !! i = Some t → (option_list last ++ admitted l s) !! S i = Some t' →
    due (k + Z.of_nat i + (if last then 0 else 1)) t ≤ t'.
Proof.
  revert k last now s. induction l as [|e l IH]; intros k last now s Hch Htl Hns Hk Hre Hk0 i t t' Hi Hi'.
  { cbn in Hi'. rewrite app_nil_r in Hi'. by destruct last, i. }
  inversion Htl as [|? ? ? Hnow Hse Hcs Hce Htl']; subst. apply Forall_cons in Hns as [Hn Hns]. apply Forall_cons in Hk as [Hke Hk].
  cbn in Hre. assert (Hre' : (sl = 2 * SECOND ∨ is_restart e = false) ∧ (sl = 2 * SECOND ∨ existsb is_restart l = false)).
  { destruct Hre as [|Hre]; [auto|]. apply orb_false_iff in Hre as []. auto. }
  pose proof (step_charged e k last now s Hch Hnow Hse Hcs Hce Hn Hke (proj1 Hre') Hk0) as Hst.
  cbn [admitted] in Hi, Hi'. destruct (step e s) as [[|] s']; [|cbn in Hi, Hi'; by eapply IH; [exact Hst|exact Htl'|exact Hns|exact Hk|apply Hre'|exact Hk0|..]].
  destruct Hst as [Hd Hst]. specialize (IH (k + 1) (Some (starts e)) (ends e) s' Hst Htl' Hns Hk (proj2 Hre') ltac:(lia)). cbn in IH.
  destruct last as [last|]; cbn in Hi, Hi'.
  - destruct i as [|i]; cbn in Hi, Hi'.
    + injection Hi as ->. injection Hi' as <-. replace (k + Z.of_nat 0 + 0) with k by lia. by apply Hd.
    + specialize (IH i t t' Hi Hi'). by replace (k + Z.of_nat (S i) + 0) with (k + 1 + Z.of_nat i + 0) by lia.
  - specialize (IH i t t' Hi Hi'). by replace (k + Z.of_nat i + 1) with (k + 1 + Z.of_nat i + 0) by lia.
Qed.
End run.

Definition fresh : GuardStore := {| gs_guard := new_guard; gs_file := Absent |}.
Lemma spaced l : timeline 0 l → Forall no_success l → Forall kept l →
  ∀ i t t', admitted l fresh !! i = Some t → admitted l fresh !! S i = Some t' → t + backoff_for (Z.of_nat i + 1) - slack l ≤ t'.
Proof.
  intros Ht Hn Hk i t t' Hi Hi'. assert (Hsl : slack l = 0 ∨ slack l = 2 * SECOND) by (unfold slack; destruct (existsb is_restart l); auto).
  pose proof (spaced_from (slack l) Hsl l 0 None 0 fresh) as H. cbn in H. eapply H; try done.
  - split; [done|]. split; [done|]. by left.
  - unfold slack. destruct (existsb is_restart l); [by left|by right].
Qed.

(** The wait of the [i]-th failure, counted from none: one second doubling up to
    five minutes. *)
Lemma backoff_doubles i : backoff_for (Z.of_nat i + 1) = Z.min (2 ^ Z.of_nat i) 300 * SECOND.
Proof.
  unfold backoff_for. destruct (Z.eqb_spec (Z.of_nat i + 1) 0); [lia|]. cbv zeta. replace (Z.of_nat i + 1 - 1) with (Z.of_nat i) by lia. destruct (Z.ltb_spec (Z.of_nat i) 64).
  - rewrite Z.shiftl_1_l. assert (2 ^ Z.of_nat i ≤ 2 ^ 63) by (apply Z.pow_le_mono_r; lia). change (2 ^ 63) with 9223372036854775808 in *.
    unfold BACKOFF_BASE, BACKOFF_MAX, U64_MAX. f_equal. lia.
  - assert (2 ^ 9 ≤ 2 ^ Z.of_nat i) by (apply Z.pow_le_mono_r; lia). change (2 ^ 9) with 512 in *. unfold BACKOFF_BASE, BACKOFF_MAX, U64_MAX. f_equal. lia.
Qed.

(** C20: whatever the calls and the restarts between them, while no attempt
    succeeds and every changed guard is written, the guard admits the guess
    after the first no sooner than one second after it, the one after the second
    no sooner than two, and so on: the wait doubles up to five minutes. In a run
    in which micad's console restarts, each wait can be two seconds shorter,
    because the file holds whole seconds, so that the first one can be none. So
    once ten guesses were made, fewer than 291 more are admitted in a day. *)
Theorem guesses_bounded l (Ht : timeline 0 l) (Hn : Forall no_success l) (Hk : Forall kept l) :
  (∀ i t t', admitted l fresh !! i = Some t → admitted l fresh !! S i = Some t' →
     t + Z.min (2 ^ Z.of_nat i) 300 * SECOND - (if existsb is_restart l then 2 * SECOND else 0) ≤ t')
  ∧ (∀ i t t', (9 ≤ i)%nat → admitted l fresh !! i = Some t → admitted l fresh !! (i + 290)%nat = Some t' → t + 86400 * SECOND ≤ t').
Proof.
  pose proof (spaced l Ht Hn Hk) as Hs. split; [intros i t t' H1 H2; rewrite <- backoff_doubles; by apply Hs|]. intros i t t' H9 Hi Hi'.
  assert (Hn' : ∀ n u, admitted l fresh !! (i + n)%nat = Some u → t + Z.of_nat n * 298 * SECOND ≤ u).
  { induction n as [|n IH]; intros u Hu; [rewrite Nat.add_0_r in Hu; assert (u = t) as -> by congruence; lia|].
    destruct (lookup_lt_is_Some_2 (admitted l fresh) (i + n)) as [v Hv]; [apply lookup_lt_Some in Hu; lia|]. specialize (IH v Hv).
    rewrite Nat.add_succ_r in Hu. specialize (Hs _ _ _ Hv Hu). rewrite backoff_capped in Hs by lia.
    assert (slack l ≤ 2 * SECOND) by (unfold slack; destruct (existsb is_restart l); unfold SECOND; lia). unfold SECOND in *. lia. }
  specialize (Hn' 290%nat t' Hi'). unfold SECOND in *. lia.
Qed.
End clock.

(** * A bench *)

(** Two guesses, the second refused a second early and again admitted after a
    restart read the window back. *)
Definition bench : list event :=
  [Called Begin 0 10 true; Called Confirm 20 30 true; Called Begin (SECOND / 2) (SECOND / 2) true;
   Restarted (3 * SECOND); Called Begin (4 * SECOND) (4 * SECOND + 5) true].
Lemma guesses_bounded_witness :
  timeline 0 0 bench ∧ admitted 0 bench fresh = [0; 4 * SECOND]
  ∧ ∀ i t t', admitted 0 bench fresh !! i = Some t → admitted 0 bench fresh !! S i = Some t' → t + Z.min (2 ^ Z.of_nat i) 300 * SECOND - 2 * SECOND ≤ t'.
Proof.
  assert (Hin : ∀ t, 0 ≤ t ≤ 5 * SECOND → in_clock 0 t).
  { intros t Ht. split; [lia|]. assert (t / SECOND ≤ 5) by (apply Z.div_le_upper_bound; [done|]; unfold SECOND in *; lia).
    rewrite Z.add_0_l. unfold U64_MAX. lia. }
  assert (H : timeline 0 0 bench) by (repeat constructor; cbn; first [apply Hin; vm_compute; by split|vm_compute; by (done || intros)]).
  split; [exact H|]. split; [by vm_compute|].
  refine (proj1 (guesses_bounded 0 bench H _ _)); repeat constructor.
Defined.

(** A guess at the end of a wall-clock second is written with a window that
    ends at the next whole second: a restart five milliseconds later admits
    the next guess at once. *)
Example restart_forgives_first_window :
  let offset := 10 * SECOND in
  let guess := 995000000 in
  admitted offset [Called Begin guess guess true; Restarted SECOND; Called Begin SECOND SECOND true] fresh = [guess; SECOND].
Proof. by vm_compute. Qed.

End LoginGuard.
