(* ===== verification/Credentials.v ===== *)
(** The console's credentials ([src/crates/mica-apid/src]): API tokens
    ([token.rs]), what a request presents ([routes/credential.rs], [routes/claim.rs]), and the
    handlers that create, change and revoke credentials ([routes/login.rs],
    [routes/password.rs], [routes/reset.rs], [routes/setup.rs],
    [routes/tokens.rs]), cut where they wait for micad, so that any number of
    them interleave over one settings tree, one session table and one guard. *)
From Stdlib Require Import Ascii.
From S2P Require Import Prelude Text Chars SettingsModel Sessions LoginGuard.
Import SettingsModel(ClaimChannel(..), ClaimSettings, Build_ClaimSettings, cl_via, cl_at, cl_rotation_required, WebAdminSettings, Build_WebAdminSettings,
  wa_password_hash, ApiToken, Build_ApiToken, tk_id, tk_name, tk_hash, tk_created, AccessSettings, Build_AccessSettings, default_access,
  ac_web_admin, ac_claim, ac_ssh, ac_console, ac_web, ac_mdns, ac_ssdp, ac_device, ac_api_tokens, DeviceCredentialSettings,
  Build_DeviceCredentialSettings, dc_password_hash, dc_generation).
Import Sessions(Hmac, hmac, hmac_key, hex_encode, SessionStore, st_key, st_sessions, st_generation, StoredSession, CreatedSession, cs_cookie,
  cs_csrf_token, create, create_if_current, verify, verify_csrf, verify_signature, remove_all_except, remove, new_store, cookie_from_headers).
Import LoginGuard(U32_MAX, GuardStore, gs_guard, gs_file, with_, begin_attempt, confirm_failure, record_success, Guard).

Module Credentials.

(** * The stored list ([micad-settings/src/api_token.rs]) *)

Definition MAX_TOKENS : Z := 32.
Definition MAX_NAME_BYTES : Z := 256.
Definition HASH_HEX_LEN : Z := 64.
Definition MAX_ID_CHARS : Z := 64.
Definition check_id (id : string) : result unit :=
  ensure negb (is_empty id) else "id is empty" in
  ensure chars_count id <=? MAX_ID_CHARS else "id is longer than the maximum" in
  ensure all_bytes is_hex_lower id else "id is not lowercase hex" in Ok tt.
Definition is_api_token_id (id : string) : bool := is_ok (check_id id).
Definition check_name (name : string) : result unit :=
  ensure negb (is_empty name) else "name is empty; it is the only thing that tells one token from another in a listing" in
  ensure str_len name <=? MAX_NAME_BYTES else "name is above the maximum" in
  ensure all_bytes (λ c, (32 <=? byte_val c) && negb (byte_val c =? 127)) name else "name holds a control character" in Ok tt.
Definition check_hash (hash : string) : result unit :=
  ensure str_len hash =? HASH_HEX_LEN else "hash is not of a SHA-256 hex digest's length" in
  ensure all_bytes is_hex_lower hash else "hash is not lowercase hex" in Ok tt.
Fixpoint check_entries (seen : list ApiToken) (tokens : list ApiToken) : result unit :=
  match tokens with
  | [] => Ok tt
  | entry :: rest =>
      let? _ := check_id (tk_id entry) in
      let? _ := check_name (tk_name entry) in
      let? _ := check_hash (tk_hash entry) in
      ensure negb (existsb (λ e, bool_decide (tk_id e = tk_id entry)) seen) else "the id is already held" in
      ensure negb (existsb (λ e, bool_decide (tk_hash e = tk_hash entry)) seen) else "the digest is already held" in
      check_entries (seen ++ [entry]) rest
  end.
Definition validate_api_tokens (tokens : list ApiToken) : result unit :=
  ensure len tokens <=? MAX_TOKENS else "list is above the maximum" in check_entries [] tokens.

(** * Tokens *)

Definition SCHEME : string := "mica".
Definition MINT_ATTEMPTS : nat := 8.
Class Sha := { sha256 : bytes → bytes }.

Record Presented := { pr_id : string; pr_secret : string }.
Record Minted := { mt_id : string; mt_hash : string; mt_wire : string }.

(** The Authorization header's text. *)
Definition bearer_from_headers (header : option string) : option string :=
  value ← header;
  '(scheme, credential) ← split_once " " value;
  if eq_ignore_ascii_case scheme "Bearer" then Some (trim credential) else None.
Definition is_token_hex (field : string) : bool := negb (is_empty field) && all_bytes is_hex_lower field.
Definition parse (token : string) : option Presented :=
  match split "_" token with
  | [scheme; id; secret] =>
      if bool_decide (scheme = SCHEME) && is_token_hex id && is_token_hex secret then Some {| pr_id := id; pr_secret := secret |} else None
  | _ => None
  end.

Section tokens.
Context `{HM : Hmac} {SH : Sha}.

Definition digest (secret : string) : string := hex_encode (sha256 (str_bytes secret)).
(** [key] is drawn for the comparison. *)
Definition digests_match (key : hmac_key) (left right : string) : bool :=
  bool_decide (hmac key (str_bytes left) = hmac key (str_bytes right)).
Definition verify_token (key : hmac_key) (tokens : list ApiToken) (presented : string) : bool :=
  match parse presented with
  | None => false
  | Some parsed =>
      match List.find (λ entry, bool_decide (tk_id entry = pr_id parsed)) tokens with
      | None => false
      | Some entry => digests_match key (tk_hash entry) (digest (pr_secret parsed))
      end
  end.
(** The ids drawn, one for each attempt. *)
Definition free_id (existing : list ApiToken) (draws : list bytes) : option string :=
  List.find (λ id, negb (existsb (λ entry, bool_decide (tk_id entry = id)) existing)) (map hex_encode (take MINT_ATTEMPTS draws)).
Definition mint (existing : list ApiToken) (secret_bytes : bytes) (draws : list bytes) : option Minted :=
  let secret := hex_encode secret_bytes in
  id ← free_id existing draws;
  Some {| mt_id := id; mt_hash := digest secret; mt_wire := SCHEME +:+ "_" +:+ id +:+ "_" +:+ secret |}.
End tokens.

(** * What a request presents *)

(** argon2: the salt is drawn, and hashing can fail. *)
Class Passwords := { hash_password : string → string → option string; verify_password : string → string → bool }.
Definition MIN_ADMIN_PASSWORD_LEN : Z := 8.
Definition password_under_floor (password : string) : bool := str_len password <? MIN_ADMIN_PASSWORD_LEN.
Definition password_hash (access : AccessSettings) : option string := wa_password_hash <$> ac_web_admin access.

Record ClaimStatus := { cls_claimed : bool; cls_via : option ClaimChannel; cls_at : option Z; cls_rotation_required : bool }.
(** micad's answer for [provisioning]: none when the read failed; whether a
    document applied, and when it was imported. *)
Definition Provisioning : Type := option (bool * option Z).
Definition claim_status (provisioning : Provisioning) (access : AccessSettings) : ClaimStatus :=
  let claimed via at_ required := {| cls_claimed := true; cls_via := via; cls_at := at_; cls_rotation_required := required |} in
  match password_hash access with
  | None => {| cls_claimed := false; cls_via := None; cls_at := None; cls_rotation_required := false |}
  | Some _ =>
      match ac_claim access with
      | Some claim => claimed (Some (cl_via claim)) (Some (cl_at claim)) (cl_rotation_required claim)
      | None =>
          match provisioning with
          | None | Some (false, _) => claimed None None false
          | Some (true, at_) => claimed (Some ProvisioningDocument) at_ true
          end
      end
  end.

Inductive ApiCredential := Bearer | Session (cookie : string) | Local.
Inductive Rejection := CsrfInvalid | NotAuthenticated | RotationRequired.
(** A request's headers and route; the [access] and [provisioning] it was
    answered, none where the read failed. *)
Record Request := {
  rq_local : bool; rq_bearer : option string; rq_cookies : list (option string); rq_csrf : option string;
  rq_mutation : bool; rq_bound : bool;
  rq_access : option AccessSettings; rq_provisioning : Provisioning;
}.

Section credentials.
Context `{HM : Hmac} {SH : Sha} {PW : Passwords}.
(** The wall clock's offset, and the key the token comparisons draw. *)
Context (offset : Z) (key : hmac_key).

Definition bearer_is_stored (access : option AccessSettings) (header : option string) : bool :=
  match bearer_from_headers header with
  | None => false
  | Some presented => match access with Some a => verify_token key (ac_api_tokens a) presented | None => false end
  end.
Definition rotation_required (rq : Request) : bool :=
  match rq_access rq with Some a => cls_rotation_required (claim_status (rq_provisioning rq) a) | None => false end.
(** [ApiCredential::from_request_parts]. *)
Definition authenticate (now : Z) (rq : Request) (st : SessionStore) : (Rejection + ApiCredential) * SessionStore :=
  let '(credential, st) :=
    if rq_local rq then (inr Local, st)
    else if bearer_is_stored (rq_access rq) (rq_bearer rq) then (inr Bearer, st)
    else
      match cookie_from_headers (rq_cookies rq) with
      | None => (inl NotAuthenticated, st)
      | Some cookie =>
          let '(live, st) := verify now cookie st in
          if negb live then (inl NotAuthenticated, st)
          else if rq_mutation rq then
            match rq_csrf rq with
            | None => (inl CsrfInvalid, st)
            | Some token => let '(valid, st) := verify_csrf now cookie token st in (if valid : bool then inr (Session cookie) else inl CsrfInvalid, st)
            end
          else (inr (Session cookie), st)
      end in
  match credential with
  | inl e => (inl e, st)
  | inr c => (if rq_mutation rq && rq_bound rq && rotation_required rq then inl RotationRequired else inr c, st)
  end.

(** * The handlers *)

(** What the handlers share: micad's [access], the session table, the guard. *)
Record Console := { co_access : AccessSettings; co_sessions : SessionStore; co_guard : GuardStore }.
Definition set_access (a : AccessSettings) (c : Console) : Console := {| co_access := a; co_sessions := co_sessions c; co_guard := co_guard c |}.
Definition set_sessions (st : SessionStore) (c : Console) : Console := {| co_access := co_access c; co_sessions := st; co_guard := co_guard c |}.
Definition set_guard (g : GuardStore) (c : Console) : Console := {| co_access := co_access c; co_sessions := co_sessions c; co_guard := g |}.

(** How a write to micad ends: answered, refused or failed before it was made,
    or made and not answered (a timeout of the call). *)
Inductive Outcome := Answered | NotMade | Unanswered.
#[local] Instance Outcome_eq_dec : EqDecision Outcome.
Proof. solve_decision. Defined.
(** What a handler's segment draws and is answered: the time, whether the
    guard's file is written, random bytes and a salt, micad's outcome and
    [provisioning], the device code it knows, the clock, whether presence is
    asserted and its channel takes the secret. *)
Record Input := {
  in_now : Z; in_written : bool; in_id : bytes; in_csrf : bytes; in_draws : list bytes; in_salt : string; in_outcome : Outcome;
  in_provisioning : Provisioning; in_code : option string; in_clock : Z; in_present : bool; in_published : bool;
}.

(** A handler between two of its segments. *)
Inductive Task :=
| LoginRead (generation : Z) (password : string)
| LoginVerify (generation : Z) (password hash : string)
| ChangeRead (acting : option string) (current new : string)
| ChangeWrite (acting : option string) (hash : string) (access : AccessSettings)
| ChangeRevoke (acting : option string) (hash : string)
| RecoverRead
| RecoverWrite (access : AccessSettings)
| RecoverRevoke
| SetupRead (code : option string) (password : string)
| SetupClaim (access : AccessSettings)
| SetupIssue
| MintRead (name : string)
| RevokeRead (id : string)
| TokensWrite (tokens : list ApiToken).

Definition guard_call {R} (i : Input) (f : Guard → R * Guard) (c : Console) : R * Console :=
  let '(r, g) := with_ offset f (in_now i) (in_written i) (co_guard c) in (r, set_guard g c).
Definition fails (i : Input) (c : Console) : Console := (guard_call i (λ g, (tt, confirm_failure (in_now i) g)) c).2.
Definition succeeds (i : Input) (c : Console) : Console := (guard_call i (λ g, (tt, record_success g)) c).2.
(** [set_settings], of the subtree or of the token list alone. *)
Definition put (i : Input) (f : AccessSettings → AccessSettings) (c : Console) : bool * Console :=
  match in_outcome i with
  | Answered => (true, set_access (f (co_access c)) c)
  | Unanswered => (false, set_access (f (co_access c)) c)
  | NotMade => (false, c)
  end.
(** [Claim]: the same write, which micad refuses once an administrator exists. *)
Definition put_claim (i : Input) (a : AccessSettings) (c : Console) : bool * Console :=
  if bool_decide (is_Some (ac_web_admin (co_access c))) then (false, c) else put i (λ _, a) c.
Definition with_admin (hash : string) (claim : option ClaimSettings) (a : AccessSettings) : AccessSettings :=
  {| ac_web_admin := Some (Build_WebAdminSettings hash); ac_claim := claim; ac_ssh := ac_ssh a; ac_console := ac_console a; ac_web := ac_web a;
     ac_mdns := ac_mdns a; ac_ssdp := ac_ssdp a; ac_device := ac_device a; ac_api_tokens := ac_api_tokens a |}.
Definition with_tokens (tokens : list ApiToken) (a : AccessSettings) : AccessSettings :=
  {| ac_web_admin := ac_web_admin a; ac_claim := ac_claim a; ac_ssh := ac_ssh a; ac_console := ac_console a; ac_web := ac_web a;
     ac_mdns := ac_mdns a; ac_ssdp := ac_ssdp a; ac_device := ac_device a; ac_api_tokens := tokens |}.
Definition with_device (d : DeviceCredentialSettings) (a : AccessSettings) : AccessSettings :=
  {| ac_web_admin := ac_web_admin a; ac_claim := ac_claim a; ac_ssh := ac_ssh a; ac_console := ac_console a; ac_web := ac_web a;
     ac_mdns := ac_mdns a; ac_ssdp := ac_ssdp a; ac_device := d; ac_api_tokens := ac_api_tokens a |}.
Definition canonical_code (code : string) : string :=
  String.concat "" (map (λ c, if is_lower c then String (val_byte (byte_val c - 32)) "" else String c "")
    (filter (λ c, c ≠ "-"%char ∧ c ≠ " "%char) (str_bytes code))).

(** A request that starts a handler. *)
Inductive Start := SLogin (password : string) | SChange (rq : Request) (current new : string) | SRecover (rq : Request) | SSetup (code : option string) (password : string)
| SMint (rq : Request) (name : string) | SRevoke (rq : Request) (id : string) | SLogout (rq : Request) | SOther (rq : Request).
Definition credentialed (i : Input) (rq : Request) (c : Console) (task : option Task) : option Task * Console :=
  let '(r, st) := authenticate (in_now i) rq (co_sessions c) in
  (match r with inr _ => task | inl _ => None end, set_sessions st c).
Definition login_begin (i : Input) (password : string) (c : Console) : option Task * Console :=
  let '(open, c) := guard_call i (begin_attempt (in_now i)) c in
  (if open : bool then Some (LoginRead (st_generation (co_sessions c)) password) else None, c).
Definition change_begin (i : Input) (rq : Request) (current new : string) (c : Console) : option Task * Console :=
  credentialed i rq c (if password_under_floor new then None else Some (ChangeRead (cookie_from_headers (rq_cookies rq)) current new)).
Definition recover_begin (i : Input) (rq : Request) (c : Console) : option Task * Console :=
  if bearer_is_stored (rq_access rq) (rq_bearer rq) then (None, c)
  else
    match cookie_from_headers (rq_cookies rq) with
    | None => (Some RecoverRead, c)
    | Some cookie => let '(live, st) := verify (in_now i) cookie (co_sessions c) in (if live : bool then None else Some RecoverRead, set_sessions st c)
    end.
Definition logout (i : Input) (rq : Request) (c : Console) : option Task * Console :=
  let '(r, st) := authenticate (in_now i) rq (co_sessions c) in
  (None, set_sessions (match r with inr (Session cookie) => remove cookie st | _ => st end) c).
Definition start (i : Input) (r : Start) (c : Console) : option Task * Console :=
  match r with
  | SLogin password => login_begin i password c
  | SChange rq current new => change_begin i rq current new c
  | SRecover rq => recover_begin i rq c
  | SSetup code password => (Some (SetupRead code password), c)
  | SMint rq name => credentialed i rq c (Some (MintRead name))
  | SRevoke rq id => credentialed i rq c (if is_api_token_id id then Some (RevokeRead id) else None)
  | SLogout rq => logout i rq c
  | SOther rq => credentialed i rq c None
  end.

Definition change_read (i : Input) (acting : option string) (current new : string) (c : Console) : option Task * Console :=
  let access := co_access c in
  match password_hash access with
  | None => (None, c)
  | Some hash =>
      if negb (verify_password hash current) then (None, c)
      else
        match hash_password (in_salt i) new with
        | None => (None, c)
        | Some hash =>
            let claim := claim_status (in_provisioning i) access in
            let record := match cls_via claim with
                          | Some via => Some (Build_ClaimSettings via (default 0 (cls_at claim)) false)
                          | None => ac_claim access
                          end in
            (Some (ChangeWrite acting hash (with_admin hash record access)), c)
        end
  end.
Definition recover_read (i : Input) (c : Console) : option Task * Console :=
  let access := co_access c in
  match password_hash access with
  | None => (None, c)
  | Some _ =>
      let claim := claim_status (in_provisioning i) access in
      let secret := hex_encode (in_id i) in
      match hash_password (in_salt i) secret with
      | None => (None, c)
      | Some hash =>
          let generation := Z.min (dc_generation (ac_device access) + 1) U32_MAX in
          let record := Build_ClaimSettings (default ProvisioningDocument (cls_via claim)) (default 0 (cls_at claim)) false in
          (Some (RecoverWrite (with_device (Build_DeviceCredentialSettings (dc_password_hash (ac_device access)) generation)
             (with_tokens [] (with_admin hash (Some record) access)))), c)
      end
  end.
(** Setup's checks, up to its claim: the device's code counts in the guard. *)
Definition setup_read (i : Input) (code : option string) (password : string) (c : Console) : option Task * Console :=
  let access := co_access c in
  match password_hash access with
  | Some _ => (None, c)
  | None =>
      let '(passed, c) :=
        match in_code i with
        | None => (true, c)
        | Some known =>
            match code with
            | None => (false, c)
            | Some typed =>
                let '(open, c) := guard_call i (begin_attempt (in_now i)) c in
                if negb open then (false, c)
                else if negb (bool_decide (canonical_code typed = known)) then (false, fails i c)
                else (true, succeeds i c)
            end
        end in
      if negb passed || password_under_floor password then (None, c)
      else
        match hash_password (in_salt i) password with
        | None => (None, c)
        | Some hash => (Some (SetupClaim (with_admin hash (Some (Build_ClaimSettings Setup (in_clock i) false)) access)), c)
        end
  end.
Definition checked_tokens (tokens : list ApiToken) : option Task := if is_ok (validate_api_tokens tokens) then Some (TokensWrite tokens) else None.
Definition mint_read (i : Input) (name : string) (c : Console) : option Task * Console :=
  let tokens := ac_api_tokens (co_access c) in
  if MAX_TOKENS <=? len tokens then (None, c)
  else
    match mint tokens (in_csrf i) (in_draws i) with
    | None => (None, c)
    | Some m => (checked_tokens (tokens ++ [Build_ApiToken (mt_id m) name (mt_hash m) (in_clock i)]), c)
    end.
Fixpoint remove_id (id : string) (tokens : list ApiToken) : option (list ApiToken) :=
  match tokens with
  | [] => None
  | e :: rest => if bool_decide (tk_id e = id) then Some rest else rest ← remove_id id rest; Some (e :: rest)
  end.
Definition revoke_read (id : string) (c : Console) : option Task * Console :=
  match remove_id id (ac_api_tokens (co_access c)) with None => (None, c) | Some tokens => (checked_tokens tokens, c) end.

Definition login_read (i : Input) (generation : Z) (password : string) (c : Console) : option Task * Console :=
  if bool_decide (in_outcome i = NotMade) then (None, c)
  else match password_hash (co_access c) with Some hash => (Some (LoginVerify generation password hash), c) | None => (None, c) end.
Definition login_verify (i : Input) (generation : Z) (password hash : string) (c : Console) : option Task * Console :=
  if verify_password hash password then
    match create_if_current generation (in_id i) (in_csrf i) (in_now i) (co_sessions c) with
    | (None, _) => (None, c)
    | (Some _, st) => (None, succeeds i (set_sessions st c))
    end
  else (None, fails i c).
Definition change_write (i : Input) (acting : option string) (hash : string) (access : AccessSettings) (c : Console) : option Task * Console :=
  let '(ok, c) := put i (λ _, access) c in (if ok : bool then Some (ChangeRevoke acting hash) else None, c).
Definition change_revoke (acting : option string) (c : Console) : option Task * Console :=
  (None, set_sessions (remove_all_except (default "" acting) (co_sessions c)) c).
Definition recover_write (i : Input) (access : AccessSettings) (c : Console) : option Task * Console :=
  let '(ok, c) := put i (λ _, access) c in (if ok : bool then Some RecoverRevoke else None, c).
Definition recover_revoke (i : Input) (c : Console) : option Task * Console :=
  (None, succeeds i (set_sessions (remove_all_except "" (co_sessions c)) c)).
Definition setup_claim (i : Input) (access : AccessSettings) (c : Console) : option Task * Console :=
  let '(ok, c) := put_claim i access c in (if ok : bool then Some SetupIssue else None, c).
Definition setup_issue (i : Input) (c : Console) : option Task * Console :=
  (None, set_sessions (create (in_id i) (in_csrf i) (in_now i) (co_sessions c)).2 c).
Definition write_tokens (i : Input) (tokens : list ApiToken) (c : Console) : option Task * Console := (None, (put i (with_tokens tokens) c).2).
(** A handler's next segment; a read of micad that fails ends it ([NotMade]). *)
Definition advance (i : Input) (t : Task) (c : Console) : option Task * Console :=
  let failed := bool_decide (in_outcome i = NotMade) in
  match t with
  | LoginRead generation password => login_read i generation password c
  | LoginVerify generation password hash => login_verify i generation password hash c
  | ChangeRead acting current new => if failed then (None, c) else change_read i acting current new c
  | ChangeWrite acting hash access => change_write i acting hash access c
  | ChangeRevoke acting _ => change_revoke acting c
  | RecoverRead => if failed || negb (in_present i) || negb (in_published i) then (None, c) else recover_read i c
  | RecoverWrite access => recover_write i access c
  | RecoverRevoke => recover_revoke i c
  | SetupRead code password => if failed then (None, c) else setup_read i code password c
  | SetupClaim access => setup_claim i access c
  | SetupIssue => setup_issue i c
  | MintRead name => if failed then (None, c) else mint_read i name c
  | RevokeRead id => if failed then (None, c) else revoke_read id c
  | TokensWrite tokens => write_tokens i tokens c
  end.

(** * Runs *)

(** What a run's history says of its sessions, read by no handler: the
    password hashes each session's holder has shown or set the password of,
    the hash the first setup claimed the device with, the sessions setup issued
    although the password had been written again since its claim, how many
    password writes micad made, whether the handler that made the last one has
    revoked since, and whether the answer to one was lost. *)
Record Ghost := { gh_vouched : gmap string (gset string); gh_claimed : option string; gh_late : gset string;
  gh_writes : Z; gh_settled : bool; gh_lost : bool }.
Definition new_ghost : Ghost := {| gh_vouched := ∅; gh_claimed := None; gh_late := ∅; gh_writes := 0; gh_settled := true; gh_lost := false |}.
Definition vouch (id : string) (hashes : gset string) (gh : Ghost) : Ghost :=
  {| gh_vouched := <[id := hashes]> (gh_vouched gh); gh_claimed := gh_claimed gh; gh_late := gh_late gh ∖ {[id]};
     gh_writes := gh_writes gh; gh_settled := gh_settled gh; gh_lost := gh_lost gh |}.
Definition note_write (i : Input) (gh : Ghost) : Ghost :=
  match in_outcome i with
  | NotMade => gh
  | o => {| gh_vouched := gh_vouched gh; gh_claimed := gh_claimed gh; gh_late := gh_late gh; gh_writes := gh_writes gh + 1; gh_settled := false;
            gh_lost := gh_lost gh || bool_decide (o = Unanswered) |}
  end.
Definition note_revoke (n : Z) (gh : Ghost) : Ghost :=
  {| gh_vouched := gh_vouched gh; gh_claimed := gh_claimed gh; gh_late := gh_late gh; gh_writes := gh_writes gh;
     gh_settled := gh_settled gh || (n =? gh_writes gh); gh_lost := gh_lost gh |}.
Definition note_claim (i : Input) (a : AccessSettings) (c : Console) (gh : Ghost) : Ghost :=
  if bool_decide (in_outcome i = Answered) && bool_decide (ac_web_admin (co_access c) = None) then
    {| gh_vouched := gh_vouched gh; gh_claimed := password_hash a; gh_late := gh_late gh; gh_writes := gh_writes gh;
       gh_settled := gh_settled gh; gh_lost := gh_lost gh |}
  else gh.
(** Setup's session belongs to whoever set the claimed password; it is late
    when another write of the password, past the [n]th, came first. *)
Definition note_issue (id : string) (n : Z) (gh : Ghost) : Ghost :=
  let gh' := vouch id (list_to_set (option_list (gh_claimed gh))) gh in
  if n =? gh_writes gh then gh' else
    {| gh_vouched := gh_vouched gh'; gh_claimed := gh_claimed gh; gh_late := {[id]} ∪ gh_late gh; gh_writes := gh_writes gh;
       gh_settled := gh_settled gh; gh_lost := gh_lost gh |}.
(** A segment of a handler whose own write was the [n]th. *)
Definition note (i : Input) (t : Task) (n : Z) (c : Console) (gh : Ghost) : Ghost :=
  match t with
  | LoginVerify generation password hash =>
      if verify_password hash password && (st_generation (co_sessions c) =? generation) then vouch (hex_encode (in_id i)) {[hash]} gh else gh
  | ChangeWrite _ _ _ | RecoverWrite _ => note_write i gh
  | ChangeRevoke acting hash =>
      let gh := note_revoke n gh in
      match verify_signature (co_sessions c) (default "" acting) with
      | Some id =>
          {| gh_vouched := <[id := {[hash]} ∪ default ∅ (gh_vouched gh !! id)]> (gh_vouched gh); gh_claimed := gh_claimed gh; gh_late := gh_late gh;
             gh_writes := gh_writes gh; gh_settled := gh_settled gh; gh_lost := gh_lost gh |}
      | None => gh
      end
  | RecoverRevoke => note_revoke n gh
  | SetupClaim a => note_claim i a c gh
  | SetupIssue => note_issue (hex_encode (in_id i)) n gh
  | _ => gh
  end.

Record System := { sy_console : Console; sy_ghost : Ghost; sy_tasks : list (Task * Z) }.
Inductive step : System → System → Prop :=
| step_start i r next c' s : start i r (sy_console s) = (next, c') →
    step s {| sy_console := c'; sy_ghost := sy_ghost s; sy_tasks := sy_tasks s ++ map (λ t, (t, 0)) (option_list next) |}
| step_advance i before t n after next c' s : sy_tasks s = before ++ (t, n) :: after → advance i t (sy_console s) = (next, c') →
    let gh := note i t n (sy_console s) (sy_ghost s) in
    step s {| sy_console := c'; sy_ghost := gh; sy_tasks := before ++ map (λ t, (t, gh_writes gh)) (option_list next) ++ after |}
| step_world a s : (* another writer of the tree: it may claim the device, and changes no password *)
    ac_web_admin (co_access (sy_console s)) = None ∨ ac_web_admin a = ac_web_admin (co_access (sy_console s)) →
    step s {| sy_console := set_access a (sy_console s); sy_ghost := sy_ghost s; sy_tasks := sy_tasks s |}.
(** Runs of fewer than 2^64 revocations, from an unclaimed device. *)
Inductive reachable (c : Console) : System → Prop :=
| reach_start : reachable c {| sy_console := c; sy_ghost := new_ghost; sy_tasks := [] |}
| reach_step s s' : reachable c s → st_generation (co_sessions (sy_console s)) < U64_MAX → step s s' → reachable c s'.
Definition unclaimed (c : Console) : Prop :=
  ac_web_admin (co_access c) = None ∧ st_sessions (co_sessions c) = ∅ ∧ st_generation (co_sessions c) = 0.

Definition revoking (t : Task) : bool := match t with ChangeRevoke _ _ | RecoverRevoke => true | _ => false end.
(** Nothing a handler holds before it has seen a claimed device. *)
Definition early (t : Task) : bool :=
  match t with LoginVerify _ _ _ | ChangeWrite _ _ _ | ChangeRevoke _ _ | RecoverWrite _ | RecoverRevoke | SetupIssue => false | _ => true end.
Definition vouched (gh : Ghost) (id hash : string) : Prop := ∃ hashes, gh_vouched gh !! id = Some hashes ∧ hash ∈ hashes.
Definition stands (gh : Ghost) (id hash : string) : Prop := vouched gh id hash ∨ id ∈ gh_late gh.
(** What each task in flight holds. *)
Definition task_ok (c : Console) (gh : Ghost) (t : Task) (n : Z) : Prop :=
  n ≤ gh_writes gh ∧
  match t with
  | LoginRead g _ => g ≤ st_generation (co_sessions c)
  | LoginVerify g _ hash => g ≤ st_generation (co_sessions c)
      ∧ (gh_settled gh = true → g = st_generation (co_sessions c) → password_hash (co_access c) = Some hash)
  | ChangeWrite _ hash a => password_hash a = Some hash
  | RecoverWrite a | SetupClaim a => is_Some (ac_web_admin a)
  | ChangeRevoke _ hash => n = gh_writes gh → password_hash (co_access c) = Some hash
  | SetupIssue => n = gh_writes gh → password_hash (co_access c) = gh_claimed gh
  | _ => True
  end.
Record good (s : System) : Prop := {
  good_unclaimed : ac_web_admin (co_access (sy_console s)) = None →
    st_sessions (co_sessions (sy_console s)) = ∅ ∧ ∀ t n, (t, n) ∈ sy_tasks s → early t = true;
  good_sessions : gh_settled (sy_ghost s) = true → ∀ id x h, st_sessions (co_sessions (sy_console s)) !! id = Some x →
    password_hash (co_access (sy_console s)) = Some h → stands (sy_ghost s) id h;
  good_tasks : ∀ t n, (t, n) ∈ sy_tasks s → task_ok (sy_console s) (sy_ghost s) t n;
  good_settled : gh_settled (sy_ghost s) = false → gh_lost (sy_ghost s) = true ∨ ∃ t, (t, gh_writes (sy_ghost s)) ∈ sy_tasks s ∧ revoking t = true;
  good_bounds : 0 ≤ gh_writes (sy_ghost s) ∧ 0 ≤ st_generation (co_sessions (sy_console s));
}.

(** ** Lemmas *)

Definition shrinks (st st' : SessionStore) : Prop :=
  st_key st' = st_key st ∧ st_generation st' = st_generation st ∧ ∀ id x, st_sessions st' !! id = Some x → st_sessions st !! id = Some x.
Lemma shrinks_refl st : shrinks st st.
Proof. done. Qed.
Lemma shrinks_trans st1 st2 st3 : shrinks st1 st2 → shrinks st2 st3 → shrinks st1 st3.
Proof. intros (E1 & E2 & H1) (E3 & E4 & H2). split; [congruence|]. split; [congruence|]. auto. Qed.
Lemma delete_shrinks id st : shrinks st (Sessions.with_sessions (delete id (st_sessions st)) st).
Proof. split; [done|]. split; [done|]. intros id' x. cbn. intros H. by apply lookup_delete_Some in H as [_ H]. Qed.
Lemma live_shrinks now id st : shrinks st (Sessions.live now id st).2.
Proof. rewrite Sessions.live_spec. cbn. destruct (match _ with Some _ => _ | None => _ end); [done|apply delete_shrinks]. Qed.
Lemma verify_shrinks now value st : shrinks st (verify now value st).2.
Proof. rewrite Sessions.verify_state. destruct (verify_signature st value); [apply live_shrinks|done]. Qed.
Lemma verify_csrf_shrinks now value presented st : shrinks st (verify_csrf now value presented st).2.
Proof.
  unfold verify_csrf. pose proof (Sessions.csrf_state now value st) as E. destruct (Sessions.csrf_token now value st) as [expected st']. cbn in E |- *.
  subst st'. destruct (verify_signature st value); [apply live_shrinks|done].
Qed.
Lemma remove_shrinks value st : shrinks st (remove value st).
Proof. unfold remove. destruct (verify_signature st value); [apply delete_shrinks|done]. Qed.
Lemma authenticate_shrinks now rq st : shrinks st (authenticate now rq st).2.
Proof.
  unfold authenticate. destruct (rq_local rq); [done|]. destruct (bearer_is_stored _ _); [done|].
  destruct (cookie_from_headers _) as [cookie|]; [|done]. pose proof (verify_shrinks now cookie st) as Hv. destruct (verify now cookie st) as [[|] st1]; cbn in Hv |- *; [|done].
  destruct (rq_mutation rq); [|done]. destruct (rq_csrf rq) as [token|]; [|done].
  pose proof (verify_csrf_shrinks now cookie token st1) as Hc. destruct (verify_csrf now cookie token st1) as [[|] st2]; cbn in Hc |- *; by eapply shrinks_trans.
Qed.

(** The handlers that change neither the tree's administrator nor what the
    sessions are vouched by. *)
Definition framed (c c' : Console) : Prop := ac_web_admin (co_access c') = ac_web_admin (co_access c) ∧ shrinks (co_sessions c) (co_sessions c').
Lemma framed_refl c : framed c c.
Proof. done. Qed.
Lemma framed_sessions c st : shrinks (co_sessions c) st → framed c (set_sessions st c).
Proof. by split. Qed.
Lemma framed_guard {R} i (f : Guard → R * Guard) c : framed c (guard_call i f c).2.
Proof. unfold guard_call. by destruct (with_ offset f _ _ _). Qed.
Lemma framed_fails i c : framed c (fails i c).
Proof. apply framed_guard. Qed.
Lemma framed_succeeds i c : framed c (succeeds i c).
Proof. apply framed_guard. Qed.
Lemma framed_trans c1 c2 c3 : framed c1 c2 → framed c2 c3 → framed c1 c3.
Proof. intros [E1 H1] [E2 H2]. split; [congruence|by eapply shrinks_trans]. Qed.
Lemma guard_sessions {R} i (f : Guard → R * Guard) c : co_sessions (guard_call i f c).2 = co_sessions c.
Proof. unfold guard_call. by destruct (with_ offset f _ _ _). Qed.

Lemma start_framed i r c : framed c (start i r c).2 ∧ ∀ t, (start i r c).1 = Some t →
  early t = true ∧ match t with LoginRead g _ => g = st_generation (co_sessions c) | SetupClaim _ | TokensWrite _ => False | _ => True end.
Proof.
  assert (Hc : ∀ rq task, framed c (credentialed i rq c task).2 ∧ ((credentialed i rq c task).1 = task ∨ (credentialed i rq c task).1 = None)).
  { intros rq task. unfold credentialed. pose proof (authenticate_shrinks (in_now i) rq (co_sessions c)) as H. destruct (authenticate _ _ _) as [[e|cr] st]; cbn in H |- *;
      (split; [by apply framed_sessions|]); [by right|by left]. }
  destruct r as [password|rq current new|rq|code password|rq name|rq id|rq|rq]; cbn [start]; unfold login_begin, change_begin, recover_begin, logout.
  - pose proof (framed_guard i (begin_attempt (in_now i)) c) as Hg. pose proof (guard_sessions i (begin_attempt (in_now i)) c) as Hs.
    destruct (guard_call i _ c) as [[|] c1]; cbn in Hg, Hs |- *; (split; [exact Hg|]); intros t Ht; [|done]. injection Ht as <-. split; [done|by rewrite Hs].
  - destruct (Hc rq (if password_under_floor new then None else Some (ChangeRead (cookie_from_headers (rq_cookies rq)) current new))) as [H1 H2].
    split; [exact H1|]. intros t Ht. destruct H2 as [H2|H2]; rewrite H2 in Ht; [|done]. destruct (password_under_floor new); [done|]. by injection Ht as <-.
  - destruct (bearer_is_stored _ _); [done|]. destruct (cookie_from_headers _) as [cookie|]; [|split; [done|]; by intros t [= <-]].
    pose proof (verify_shrinks (in_now i) cookie (co_sessions c)) as Hv. destruct (verify _ _ _) as [[|] st]; cbn in Hv |- *;
      (split; [by apply framed_sessions|]); intros t Ht; [done|]. by injection Ht as <-.
  - split; [done|]. by intros t [= <-].
  - destruct (Hc rq (Some (MintRead name))) as [H1 H2]. split; [exact H1|]. intros t Ht. destruct H2 as [H2|H2]; rewrite H2 in Ht; [|done]. by injection Ht as <-.
  - destruct (Hc rq (if is_api_token_id id then Some (RevokeRead id) else None)) as [H1 H2]. split; [exact H1|]. intros t Ht.
    destruct H2 as [H2|H2]; rewrite H2 in Ht; [|done]. destruct (is_api_token_id id); [|done]. by injection Ht as <-.
  - pose proof (authenticate_shrinks (in_now i) rq (co_sessions c)) as H. destruct (authenticate _ _ _) as [[e|[|cookie|]] st]; cbn in H |- *;
      (split; [|done]); apply framed_sessions; try done. eapply shrinks_trans; [exact H|apply remove_shrinks].
  - destruct (Hc rq None) as [H1 H2]. split; [exact H1|]. intros t Ht. by destruct H2 as [H2|H2]; rewrite H2 in Ht.
Qed.

Lemma password_hash_admin a a' : ac_web_admin a' = ac_web_admin a → password_hash a' = password_hash a.
Proof. unfold password_hash. by intros ->. Qed.
Lemma task_ok_framed c c' gh t n : framed c c' → task_ok c gh t n → task_ok c' gh t n.
Proof.
  intros [Ea (Ek & Eg & _)] [Hn H]. split; [exact Hn|]. destruct t; try done; rewrite ?Eg; try done;
    rewrite (password_hash_admin (co_access c) (co_access c')) by done; done.
Qed.
(** A frame, and tasks that are kept or new. *)
Lemma good_framed s c' ts : good s → framed (sy_console s) c' →
  (∀ t n, (t, n) ∈ ts → (t, n) ∈ sy_tasks s ∨ task_ok c' (sy_ghost s) t n ∧ (ac_web_admin (co_access c') = None → early t = true)) →
  (∀ t n, (t, n) ∈ sy_tasks s → revoking t = true → (t, n) ∈ ts) →
  good {| sy_console := c'; sy_ghost := sy_ghost s; sy_tasks := ts |}.
Proof.
  intros [G1 G2 G3 G4 G5] Hf Hnew Hkept. pose proof Hf as [Ea (Ek & Eg & Hs)]. split; cbn.
  - intros Hn. rewrite Ea in Hn. destruct (G1 Hn) as [H1 H2]. split.
    + apply map_eq. intros id. destruct (st_sessions (co_sessions c') !! id) as [x|] eqn:E; [|by rewrite lookup_empty]. apply Hs in E. rewrite H1 in E. by apply lookup_empty_Some in E.
    + intros t n Ht. destruct (Hnew t n Ht) as [H|[_ H]]; [by eapply H2|apply H; by rewrite Ea].
  - intros Hst id x h Hx Hh. rewrite (password_hash_admin (co_access (sy_console s))) in Hh by done. by apply (G2 Hst id x h (Hs _ _ Hx)).
  - intros t n Ht. destruct (Hnew t n Ht) as [H|[H _]]; [|exact H]. eapply task_ok_framed; [exact Hf|by apply G3].
  - intros Hst. destruct (G4 Hst) as [H|(t & Ht & Hr)]; [by left|right]. exists t. split; [by apply Hkept|exact Hr].
  - by rewrite Eg.
Qed.

(** ** The segments *)

Lemma elem_of_middle {X} (x : X) before l after : x ∈ before ++ l ++ after ↔ x ∈ l ∨ x ∈ before ++ after.
Proof. rewrite !elem_of_app. tauto. Qed.
Lemma middle_other (t t0 : Task) (n n0 : Z) before after : (t0, n0) ∈ before ++ (t, n) :: after → revoking t = false → revoking t0 = true → (t0, n0) ∈ before ++ after.
Proof. rewrite !elem_of_app, elem_of_cons. intros [H|[[= -> ->]|H]]; [auto|congruence|auto]. Qed.

(** A segment that frames: it leaves the tree's administrator and the ghost. *)
Lemma good_segment s before t n after c' next :
  good s → sy_tasks s = before ++ (t, n) :: after → revoking t = false → framed (sy_console s) c' →
  (∀ t', next = Some t' → task_ok c' (sy_ghost s) t' (gh_writes (sy_ghost s)) ∧ (ac_web_admin (co_access c') = None → early t' = true)) →
  good {| sy_console := c'; sy_ghost := sy_ghost s; sy_tasks := before ++ map (λ t, (t, gh_writes (sy_ghost s))) (option_list next) ++ after |}.
Proof.
  intros G Et Hr Hf Hn. apply good_framed; [exact G|exact Hf|..].
  - intros t0 n0 H. apply elem_of_middle in H as [H|H].
    + right. destruct next as [t'|]; cbn in H; [|by apply elem_of_nil in H]. apply list_elem_of_singleton in H as [= -> ->]. by apply Hn.
    + left. rewrite Et, elem_of_app, elem_of_cons. apply elem_of_app in H as [H|H]; auto.
  - intros t0 n0 H Hr0. apply elem_of_middle. right. rewrite Et in H. by eapply middle_other.
Qed.
Lemma change_read_next i acting current new c :
  (change_read i acting current new c).2 = c ∧ ∀ t, (change_read i acting current new c).1 = Some t →
    ac_web_admin (co_access c) ≠ None ∧ ∃ a hash access, t = ChangeWrite a hash access ∧ password_hash access = Some hash.
Proof.
  unfold change_read. destruct (password_hash (co_access c)) as [h|] eqn:E; [|done]. destruct (verify_password h current); [|done]. cbn.
  destruct (hash_password (in_salt i) new) as [hash|]; [|done]. split; [done|]. intros t [= <-]. split; [|by eexists _, _, _].
  unfold password_hash in E. by destruct (ac_web_admin (co_access c)).
Qed.
Lemma recover_read_next i c :
  (recover_read i c).2 = c ∧ ∀ t, (recover_read i c).1 = Some t → ac_web_admin (co_access c) ≠ None ∧ ∃ a, t = RecoverWrite a ∧ is_Some (ac_web_admin a).
Proof.
  unfold recover_read. destruct (password_hash (co_access c)) as [h|] eqn:E; [|done]. destruct (hash_password _ _) as [hash|]; [|done].
  split; [done|]. intros t [= <-]. split; [|by eexists]. unfold password_hash in E. by destruct (ac_web_admin (co_access c)).
Qed.
Lemma setup_read_next i code password c :
  framed c (setup_read i code password c).2 ∧ ∀ t, (setup_read i code password c).1 = Some t → ∃ a, t = SetupClaim a ∧ is_Some (ac_web_admin a).
Proof.
  unfold setup_read. destruct (password_hash (co_access c)); [done|].
  set (checked := match in_code i with Some _ => _ | None => _ end).
  assert (Hf : framed c checked.2).
  { subst checked. destruct (in_code i); [|done]. destruct code; [|done]. pose proof (framed_guard i (begin_attempt (in_now i)) c) as Hg.
    destruct (guard_call i (begin_attempt (in_now i)) c) as [[|] c1]; cbn in Hg |- *; [|done].
    destruct (bool_decide _); cbn [negb fst snd]; (eapply framed_trans; [exact Hg|]); [apply framed_succeeds|apply framed_fails]. }
  destruct checked as [passed c1]. cbn in Hf. destruct (negb passed || password_under_floor password); [done|].
  destruct (hash_password (in_salt i) password); [|done]. split; [exact Hf|]. intros t [= <-]. by eexists.
Qed.
Lemma tokens_next tokens t : checked_tokens tokens = Some t → t = TokensWrite tokens.
Proof. unfold checked_tokens. destruct (is_ok _); [|done]. by intros [= <-]. Qed.
Lemma mint_read_next i name c : (mint_read i name c).2 = c ∧ ∀ t, (mint_read i name c).1 = Some t → ∃ tokens, t = TokensWrite tokens.
Proof.
  unfold mint_read. destruct (_ <=? _); [done|]. destruct (mint _ _ _) as [m|]; [|done]. split; [done|]. intros t Ht. apply tokens_next in Ht. eauto.
Qed.
Lemma revoke_read_next id c : (revoke_read id c).2 = c ∧ ∀ t, (revoke_read id c).1 = Some t → ∃ tokens, t = TokensWrite tokens.
Proof.
  unfold revoke_read. destruct (remove_id _ _) as [tokens|]; [|done]. split; [done|]. intros t Ht. apply tokens_next in Ht. eauto.
Qed.

Lemma succeeds_sessions i c : co_sessions (succeeds i c) = co_sessions c.
Proof. apply guard_sessions. Qed.
Lemma succeeds_access i c : co_access (succeeds i c) = co_access c.
Proof. unfold succeeds, guard_call. by destruct (with_ offset _ _ _ _). Qed.

(** The write of a password. *)
Lemma good_write s before t n after i a next :
  good s → sy_tasks s = before ++ (t, n) :: after → early t = false → in_outcome i ≠ NotMade → is_Some (ac_web_admin a) →
  (in_outcome i = Answered → ∃ t', next = Some t' ∧ revoking t' = true ∧ match t' with ChangeRevoke _ hash => password_hash a = Some hash | _ => True end) →
  (in_outcome i = Unanswered → next = None) →
  good {| sy_console := set_access a (sy_console s); sy_ghost := note_write i (sy_ghost s);
          sy_tasks := before ++ map (λ t, (t, gh_writes (note_write i (sy_ghost s)))) (option_list next) ++ after |}.
Proof.
  intros [G1 G2 G3 G4 [G5 G6]] Et He Ho Ha Hn Hl.
  assert (Hw : gh_writes (note_write i (sy_ghost s)) = gh_writes (sy_ghost s) + 1 ∧ gh_settled (note_write i (sy_ghost s)) = false)
    by (unfold note_write; by destruct (in_outcome i)). destruct Hw as [Hw Hst].
  split; cbn [sy_console sy_ghost sy_tasks set_access co_access co_sessions].
  - intros Hnone. rewrite Hnone in Ha. by destruct Ha.
  - rewrite Hst. done.
  - intros t0 n0 H. apply elem_of_middle in H as [H|H].
    + destruct next as [t'|]; cbn in H; [|by apply elem_of_nil in H]. apply list_elem_of_singleton in H as [= -> ->]. split; [lia|].
      destruct (in_outcome i); [|done|by specialize (Hl eq_refl)]. destruct (Hn eq_refl) as (t'' & [= <-] & Hr & Hh). by destruct t'.
    + assert (H' : (t0, n0) ∈ sy_tasks s) by (rewrite Et, elem_of_app, elem_of_cons; apply elem_of_app in H as [H|H]; auto).
      destruct (G3 t0 n0 H') as [Hle Hok]. split; [lia|]. destruct t0; try exact Hok.
      * split; [apply Hok|]. rewrite Hst. done.
      * intros E. lia.
      * intros E. lia.
  - intros _. unfold note_write in *. destruct (in_outcome i) eqn:Eo; [right|done|left; cbn; by rewrite orb_true_r]. destruct (Hn eq_refl) as (t' & -> & Hr & _).
    exists t'. split; [|exact Hr]. apply elem_of_middle. left. by apply list_elem_of_singleton.
  - split; [lia|exact G6].
Qed.

(** A revocation of every session but the one kept. *)
Lemma good_revoke s before t n after keep gh' :
  good s → sy_tasks s = before ++ (t, n) :: after → early t = false → revoking t = true → st_generation (co_sessions (sy_console s)) < U64_MAX →
  gh_writes gh' = gh_writes (sy_ghost s) → gh_settled gh' = gh_settled (sy_ghost s) || (n =? gh_writes (sy_ghost s)) → gh_lost gh' = gh_lost (sy_ghost s) →
  gh_claimed gh' = gh_claimed (sy_ghost s) → (∀ id h, stands (sy_ghost s) id h → stands gh' id h) →
  (∀ id, verify_signature (co_sessions (sy_console s)) keep = Some id → n = gh_writes (sy_ghost s) → ∀ h, password_hash (co_access (sy_console s)) = Some h → stands gh' id h) →
  good {| sy_console := set_sessions (remove_all_except keep (co_sessions (sy_console s))) (sy_console s); sy_ghost := gh'; sy_tasks := before ++ after |}.
Proof.
  intros [G1 G2 G3 G4 [G5 G6]] Et He Hr Hb Hw Hst Hl Hc Hv Hk.
  assert (Hgen : st_generation (remove_all_except keep (co_sessions (sy_console s))) = st_generation (co_sessions (sy_console s)) + 1).
  { unfold remove_all_except. cbn. unfold wrap64. rewrite Z.mod_small; [done|unfold U64_MAX in Hb; lia]. }
  split; cbn [sy_console sy_ghost sy_tasks set_sessions co_access co_sessions].
  - intros Hn. destruct (G1 Hn) as [_ Hearly]. specialize (Hearly t n). rewrite Hearly in He; [done|]. rewrite Et. apply elem_of_app. right. by left.
  - intros Hset id x h Hx Hh. rewrite Hst in Hset. unfold remove_all_except in Hx. cbn in Hx.
    destruct (verify_signature (co_sessions (sy_console s)) keep) as [k|] eqn:Ek; [|by apply lookup_empty_Some in Hx].
    apply map_lookup_filter_Some in Hx as [Hx E]. cbn in E. subst k. apply orb_true_iff in Hset as [Hset|Hset].
    + by apply Hv, (G2 Hset id x h).
    + apply Z.eqb_eq in Hset. by apply Hk.
  - intros t0 n0 H. assert (H' : (t0, n0) ∈ sy_tasks s) by (rewrite Et, elem_of_app, elem_of_cons; apply elem_of_app in H as [H|H]; auto).
    destruct (G3 t0 n0 H') as [Hle Hok]. split; [by rewrite Hw|]. destruct t0; cbn [set_sessions co_access co_sessions]; rewrite ?Hgen; try exact Hok.
    + lia.
    + destruct Hok as [Hg _]. split; [lia|]. intros _ E. lia.
    + by rewrite Hw.
    + by rewrite Hw, Hc.
  - rewrite Hst, Hw, Hl. intros Hset. apply orb_false_iff in Hset as [Hset Hne]. apply Z.eqb_neq in Hne. destruct (G4 Hset) as [H|(t0 & H & Hr0)]; [by left|right].
    exists t0. split; [|exact Hr0]. rewrite Et in H. rewrite elem_of_app, elem_of_cons in H. apply elem_of_app. destruct H as [H|[[= _ E]|H]]; [by left|by symmetry in E|by right].
  - split; [by rewrite Hw|]. rewrite Hgen. lia.
Qed.

(** A session issued: by a login, vouched by its hash; or by setup, by the
    claimed one. *)
Lemma good_issue s before t n after c' id x gh' :
  good s → sy_tasks s = before ++ (t, n) :: after → early t = false → revoking t = false →
  co_access c' = co_access (sy_console s) →
  st_key (co_sessions c') = st_key (co_sessions (sy_console s)) → st_generation (co_sessions c') = st_generation (co_sessions (sy_console s)) →
  st_sessions (co_sessions c') = <[id := x]> (st_sessions (co_sessions (sy_console s))) →
  gh_writes gh' = gh_writes (sy_ghost s) → gh_settled gh' = gh_settled (sy_ghost s) → gh_lost gh' = gh_lost (sy_ghost s) →
  gh_claimed gh' = gh_claimed (sy_ghost s) → (∀ id' h, id' ≠ id → stands (sy_ghost s) id' h → stands gh' id' h) →
  (gh_settled (sy_ghost s) = true → ∀ h, password_hash (co_access (sy_console s)) = Some h → stands gh' id h) →
  good {| sy_console := c'; sy_ghost := gh'; sy_tasks := before ++ after |}.
Proof.
  intros [G1 G2 G3 G4 G5] Et He Hr Ea Ek Eg Es Hw Hst Hl Hc Hv Hi.
  split; cbn [sy_console sy_ghost sy_tasks].
  - rewrite Ea. intros Hn. destruct (G1 Hn) as [_ Hearly]. specialize (Hearly t n). rewrite Hearly in He; [done|]. rewrite Et. apply elem_of_app. right. by left.
  - rewrite Hst, Ea, Es. intros Hset id' x' h Hx Hh. apply lookup_insert_Some in Hx as [[<- _]|[Hne Hx]]; [by apply Hi|].
    apply Hv; [done|]. by apply (G2 Hset id' x' h).
  - intros t0 n0 H. assert (H' : (t0, n0) ∈ sy_tasks s) by (rewrite Et, elem_of_app, elem_of_cons; apply elem_of_app in H as [H|H]; auto).
    destruct (G3 t0 n0 H') as [Hle Hok]. split; [by rewrite Hw|]. by destruct t0; rewrite ?Eg, ?Ea, ?Hst, ?Hw, ?Hc.
  - rewrite Hst, Hw, Hl. intros Hset. destruct (G4 Hset) as [H|(t0 & H & Hr0)]; [by left|right]. exists t0. split; [|exact Hr0]. rewrite Et in H.
    by eapply middle_other.
  - by rewrite Hw, Eg.
Qed.
(** The claim, of a device that had no administrator. *)
Lemma good_claimed s c' ts gh' : good s → ac_web_admin (co_access (sy_console s)) = None → co_sessions c' = co_sessions (sy_console s) →
  gh_writes gh' = gh_writes (sy_ghost s) → gh_settled gh' = gh_settled (sy_ghost s) → gh_lost gh' = gh_lost (sy_ghost s) →
  (∀ t n, (t, n) ∈ ts → (t, n) ∈ sy_tasks s ∨ t = SetupIssue ∧ n = gh_writes (sy_ghost s) ∧ password_hash (co_access c') = gh_claimed gh') →
  is_Some (ac_web_admin (co_access c')) →
  good {| sy_console := c'; sy_ghost := gh'; sy_tasks := ts |}.
Proof.
  intros [G1 G2 G3 G4 G5] Hn Es Hw Hst Hl Hts Ha. destruct (G1 Hn) as [H0 Hearly]. split; cbn; rewrite ?Hw, ?Hst, ?Hl.
  - intros Hn'. rewrite Hn' in Ha. by destruct Ha.
  - rewrite Es, H0. intros _ id x h Hx. by apply lookup_empty_Some in Hx.
  - intros t n Ht. destruct (Hts t n Ht) as [H|(-> & -> & Hc)]; [|by split; [rewrite Hw|]]. destruct (G3 t n H) as [Hle Hok]. split; [by rewrite Hw|].
    specialize (Hearly t n H). destruct t; try done; by rewrite Es.
  - intros Hset. destruct (G4 Hset) as [H|(t & Ht & Hr)]; [by left|]. specialize (Hearly t _ Ht). by destruct t.
  - by rewrite Es.
Qed.
Lemma good_world s a : good s → ac_web_admin (co_access (sy_console s)) = None ∨ ac_web_admin a = ac_web_admin (co_access (sy_console s)) →
  good {| sy_console := set_access a (sy_console s); sy_ghost := sy_ghost s; sy_tasks := sy_tasks s |}.
Proof.
  intros G Ha. assert (Hsame : ac_web_admin a = ac_web_admin (co_access (sy_console s)) →
    good {| sy_console := set_access a (sy_console s); sy_ghost := sy_ghost s; sy_tasks := sy_tasks s |}).
  { intros E. apply good_framed; [exact G|by split|by left|done]. }
  destruct Ha as [Ha|Ha]; [|by apply Hsame]. destruct (ac_web_admin a) as [w|] eqn:E; [|apply Hsame; congruence].
  apply (good_claimed s); [exact G|exact Ha|done|done|done|done|by left|]. cbn. rewrite E. by eexists.
Qed.

Lemma stands_vouch id hashes gh id' h : id' ≠ id → stands gh id' h → stands (vouch id hashes gh) id' h.
Proof. intros Hne [(hs & H & Hin)|H]; [left; exists hs; split; [cbn; by rewrite lookup_insert_ne|done]|right; cbn; set_solver]. Qed.
Lemma stands_issue id n gh id' h : id' ≠ id → stands gh id' h → stands (note_issue id n gh) id' h.
Proof.
  intros Hne H. apply (stands_vouch id (list_to_set (option_list (gh_claimed gh)))) in H; [|done]. unfold note_issue.
  destruct (n =? gh_writes gh); [exact H|]. destruct H as [H|H]; [by left|right; cbn in *; set_solver].
Qed.
Lemma note_issue_frame id n gh : let gh' := note_issue id n gh in
  gh_writes gh' = gh_writes gh ∧ gh_settled gh' = gh_settled gh ∧ gh_lost gh' = gh_lost gh ∧ gh_claimed gh' = gh_claimed gh.
Proof. unfold note_issue. by destruct (n =? gh_writes gh). Qed.
Lemma note_claim_frame i a c gh : let gh' := note_claim i a c gh in
  gh_writes gh' = gh_writes gh ∧ gh_settled gh' = gh_settled gh ∧ gh_lost gh' = gh_lost gh.
Proof. unfold note_claim. by destruct (_ && _). Qed.

Lemma step_good s s' : good s → st_generation (co_sessions (sy_console s)) < U64_MAX → step s s' → good s'.
Proof.
  intros G Hb Hst. destruct Hst as [i r next c' s E|i before t n after next c' s Et E gh|a s Ha]; [| |by apply good_world].
  { destruct (start_framed i r (sy_console s)) as [Hf Hn]. rewrite E in Hf, Hn. cbn in Hf, Hn. apply good_framed; [exact G|exact Hf|..].
    - intros t n Ht. apply elem_of_app in Ht as [Ht|Ht]; [by left|right]. destruct next as [t'|]; cbn in Ht; [|by apply elem_of_nil in Ht].
      apply list_elem_of_singleton in Ht as [= -> ->]. destruct (Hn t' eq_refl) as [He Ht']. split; [|done]. split; [apply G|].
      destruct t'; try done. destruct Hf as [_ (_ & Eg & _)]. rewrite Eg, Ht'. lia.
    - intros t n Ht _. apply elem_of_app. by left. }
  pose proof (good_tasks s G t n) as Hok. rewrite Et in Hok. specialize (Hok ltac:(apply elem_of_app; right; by left)). destruct Hok as [Hle Hok].
  assert (Hclaimed : early t = false → ac_web_admin (co_access (sy_console s)) ≠ None).
  { intros He Hn. destruct (good_unclaimed s G Hn) as [_ Hearly]. specialize (Hearly t n). rewrite Et in Hearly. rewrite Hearly in He; [done|]. apply elem_of_app. right. by left. }
  assert (Hseg : ∀ c1 next1, (next1, c1) = (next, c') → revoking t = false → framed (sy_console s) c1 → gh = sy_ghost s →
    (∀ t', next1 = Some t' → task_ok c1 (sy_ghost s) t' (gh_writes (sy_ghost s)) ∧ (ac_web_admin (co_access c1) = None → early t' = true)) →
    good {| sy_console := c'; sy_ghost := gh; sy_tasks := before ++ map (λ t, (t, gh_writes gh)) (option_list next) ++ after |}).
  { intros c1 next1 [= -> ->] Hr Hf -> Hn. by eapply good_segment. }
  destruct t as [g pw|g pw hash|acting cur new|acting hash acc|acting hash| |acc| |code pw|acc| |name|id|tokens]; cbn [advance] in E; cbn [task_ok] in Hok;
    unfold login_read, login_verify, change_write, change_revoke, recover_write, recover_revoke, setup_claim, setup_issue, write_tokens in E.
  - (* LoginRead *)
    destruct (bool_decide _); [eapply Hseg; [exact E|done|done|done|done]|]. destruct (password_hash (co_access (sy_console s))) as [h|] eqn:Eh; (eapply Hseg; [exact E|done|done|done|]); intros t' [= <-].
    split; [split; [lia|by split]|]. intros Hn. unfold password_hash in Eh. by rewrite Hn in Eh.
  - (* LoginVerify *)
    destruct (verify_password hash pw) eqn:Ev; [|eapply Hseg; [exact E|done|apply framed_fails|by subst gh; cbn; rewrite Ev|done]].
    unfold create_if_current in E. destruct (st_generation (co_sessions (sy_console s)) =? g) eqn:Eg; [|eapply Hseg; [exact E|done|done|by subst gh; cbn; rewrite Ev, Eg|done]].
    apply Z.eqb_eq in Eg. destruct Hok as [_ Hok]. injection E as <- <-. cbn [option_list map app].
    assert (Hgh : gh = vouch (hex_encode (in_id i)) {[hash]} (sy_ghost s)) by (subst gh; cbn; by rewrite Ev, Eg, Z.eqb_refl). rewrite Hgh.
    eapply good_issue; [exact G|exact Et|done|done|by rewrite succeeds_access|by rewrite succeeds_sessions|by rewrite succeeds_sessions|by rewrite succeeds_sessions|done|done|done|done|..].
    + intros id' h Hne. by apply stands_vouch.
    + intros Hset h Hh. rewrite Hok in Hh by done. injection Hh as <-. left. eexists. split; [apply lookup_insert_eq|set_solver].
  - (* ChangeRead *)
    destruct (bool_decide _); [eapply Hseg; [exact E|done|done|done|done]|]. destruct (change_read_next i acting cur new (sy_console s)) as [Hc Hn].
    rewrite E in Hc, Hn. cbn in Hc, Hn. subst c'. eapply Hseg; [done|done|done|done|]. intros t' Ht. destruct (Hn t' Ht) as [Ha (a & h & access & -> & Hh)].
    split; [split; [lia|exact Hh]|done].
  - (* ChangeWrite *)
    unfold put in E. destruct (in_outcome i) eqn:Eo; injection E as <- <-.
    + eapply good_write; [exact G|exact Et|done|by rewrite Eo|unfold password_hash in Hok; by destruct (ac_web_admin acc)|intros _|by rewrite Eo].
      eexists. split; [done|]. by split.
    + eapply Hseg; [done|done|done|by subst gh; cbn; unfold note_write; rewrite Eo|done].
    + eapply good_write; [exact G|exact Et|done|by rewrite Eo|unfold password_hash in Hok; by destruct (ac_web_admin acc)|by rewrite Eo|done].
  - (* ChangeRevoke *)
    injection E as <- <-. cbn [option_list map app].
    eapply good_revoke; [exact G|exact Et|done|done|exact Hb|subst gh; cbn; by destruct (verify_signature _ _)|subst gh; cbn; by destruct (verify_signature _ _)|subst gh; cbn; by destruct (verify_signature _ _)|subst gh; cbn; by destruct (verify_signature _ _)|subst gh; cbn|subst gh; cbn].
    + intros id h Hv. destruct (verify_signature _ _) as [k|]; [|exact Hv]. destruct Hv as [(hs & H & Hin)|H]; [left|by right]. unfold vouched. cbn.
      destruct (decide (id = k)) as [->|Hne]; [eexists; split; [apply lookup_insert_eq|rewrite H; set_solver]|].
      exists hs. split; [by rewrite lookup_insert_ne|done].
    + intros id Hid Hn h Hh. rewrite Hid. left. unfold vouched. cbn. eexists. split; [apply lookup_insert_eq|]. rewrite Hok in Hh by done. injection Hh as <-. set_solver.
  - (* RecoverRead *)
    destruct (bool_decide _ || _ || _); [eapply Hseg; [exact E|done|done|done|done]|]. destruct (recover_read_next i (sy_console s)) as [Hc Hn].
    rewrite E in Hc, Hn. cbn in Hc, Hn. subst c'. eapply Hseg; [done|done|done|done|]. intros t' Ht. destruct (Hn t' Ht) as [Ha (a & -> & Hh)].
    split; [split; [lia|exact Hh]|done].
  - (* RecoverWrite *)
    unfold put in E. destruct (in_outcome i) eqn:Eo; injection E as <- <-.
    + eapply good_write; [exact G|exact Et|done|by rewrite Eo|exact Hok|intros _|by rewrite Eo]. eexists. split; [done|]. by split.
    + eapply Hseg; [done|done|done|by subst gh; cbn; unfold note_write; rewrite Eo|done].
    + eapply good_write; [exact G|exact Et|done|by rewrite Eo|exact Hok|by rewrite Eo|done].
  - (* RecoverRevoke *)
    injection E as <- <-. cbn [option_list map app].
    assert (Gr : good {| sy_console := set_sessions (remove_all_except "" (co_sessions (sy_console s))) (sy_console s); sy_ghost := gh; sy_tasks := before ++ after |}).
    { eapply good_revoke; [exact G|exact Et|done|done|exact Hb|done|done|done|done|done|]. intros id Hid. done. }
    apply (good_framed _ (succeeds i (set_sessions (remove_all_except "" (co_sessions (sy_console s))) (sy_console s))) (before ++ after) Gr);
      [apply framed_succeeds|by left|done].
  - (* SetupRead *)
    destruct (bool_decide _); [eapply Hseg; [exact E|done|done|done|done]|]. destruct (setup_read_next i code pw (sy_console s)) as [Hf Hn].
    rewrite E in Hf, Hn. cbn in Hf, Hn. eapply Hseg; [done|done|exact Hf|done|]. intros t' Ht. destruct (Hn t' Ht) as (a & -> & Ha). split; [split; [lia|exact Ha]|done].
  - (* SetupClaim *)
    unfold put_claim, put in E. cbn [note] in gh.
    destruct (bool_decide (is_Some (ac_web_admin (co_access (sy_console s))))) eqn:Eb.
    { apply bool_decide_eq_true in Eb as Ha. eapply Hseg; [exact E|done|done| |done]. subst gh. unfold note_claim.
      rewrite (bool_decide_eq_false_2 (ac_web_admin _ = None)), andb_false_r; [done|]. intros H. rewrite H in Ha. by destruct Ha. }
    apply bool_decide_eq_false in Eb as Ha.
    assert (Hnone : ac_web_admin (co_access (sy_console s)) = None) by (destruct (ac_web_admin (co_access (sy_console s))); [by destruct Ha; eexists|done]).
    assert (Hgood : ∀ next0, (next0 = Some SetupIssue ∨ next0 = None) →
      (is_Some next0 → in_outcome i = Answered) →
      good {| sy_console := set_access acc (sy_console s); sy_ghost := gh; sy_tasks := before ++ map (λ t, (t, gh_writes gh)) (option_list next0) ++ after |}).
    { destruct (note_claim_frame i acc (sy_console s) (sy_ghost s)) as (Hw & Hs & Hl).
      intros next0 Hn Ho. apply (good_claimed s); [exact G|exact Hnone|done|done|done|done| |exact Hok]. intros t0 n0 H. apply elem_of_middle in H as [H|H].
      - destruct Hn as [-> | ->]; cbn in H; [apply list_elem_of_singleton in H as [= -> ->]; right|by apply elem_of_nil in H].
        split; [done|]. split; [exact Hw|]. subst gh. unfold note_claim. by rewrite !bool_decide_eq_true_2 by eauto.
      - left. rewrite Et, elem_of_app, elem_of_cons. apply elem_of_app in H as [H|H]; auto. }
    destruct (in_outcome i) eqn:Eo; injection E as <- <-; [apply Hgood; [by left|done]|eapply Hseg; [done|done|done| |done]|apply Hgood; [by right|by intros [? ?]]].
    subst gh. unfold note_claim. by rewrite Eo.
  - (* SetupIssue *)
    injection E as <- <-. cbn [option_list map app]. destruct (note_issue_frame (hex_encode (in_id i)) n (sy_ghost s)) as (Hw & Hs & Hl & Hcl).
    eapply good_issue; [exact G|exact Et|done|done|done|done|done|done|exact Hw|exact Hs|exact Hl|exact Hcl|..].
    + intros id' h Hne. by apply stands_issue.
    + intros _ h Hh. subst gh. cbn [note]. unfold note_issue. destruct (n =? gh_writes (sy_ghost s)) eqn:En; [left|right; cbn; set_solver].
      apply Z.eqb_eq in En. eexists. split; [apply lookup_insert_eq|]. rewrite <- (Hok En), Hh. cbn. set_solver.
  - (* MintRead *)
    destruct (bool_decide _); [eapply Hseg; [exact E|done|done|done|done]|]. destruct (mint_read_next i name (sy_console s)) as [Hc Hn].
    rewrite E in Hc, Hn. cbn in Hc, Hn. subst c'. eapply Hseg; [done|done|done|done|]. intros t' Ht. destruct (Hn t' Ht) as [ts ->]. split; [by split|done].
  - (* RevokeRead *)
    destruct (bool_decide _); [eapply Hseg; [exact E|done|done|done|done]|]. destruct (revoke_read_next id (sy_console s)) as [Hc Hn].
    rewrite E in Hc, Hn. cbn in Hc, Hn. subst c'. eapply Hseg; [done|done|done|done|]. intros t' Ht. destruct (Hn t' Ht) as [ts ->]. split; [by split|done].
  - (* TokensWrite *)
    eapply Hseg; [exact E|done| |done|done]. unfold put. by destruct (in_outcome i).
Qed.

(** C19: whatever requests arrive and however the handlers of logins, logouts,
    password changes, recoveries, the first setup and token changes
    interleave, once no handler stands between its write of a password and its
    revocation of sessions, and no such write went unanswered, every session
    the console accepts is vouched for by the password of record: its holder
    signed in with that password, kept the session by setting it, or claimed
    the device with it. The one exception is a session setup issued after the
    password had been written again since its claim
    ([setup_session_survives_recovery]). Before the device is claimed there is
    no session. *)
Theorem sessions_follow_credential c s (Hc : unclaimed c) (Hs : reachable c s)
    (Hidle : ∀ t n, (t, n) ∈ sy_tasks s → revoking t = false) (Hlost : gh_lost (sy_ghost s) = false) :
  ∀ id x, st_sessions (co_sessions (sy_console s)) !! id = Some x →
    ∃ h, password_hash (co_access (sy_console s)) = Some h ∧ (vouched (sy_ghost s) id h ∨ id ∈ gh_late (sy_ghost s)).
Proof.
  assert (G : good s).
  { clear Hidle Hlost. induction Hs as [|s s' _ IH Hb Hst]; [|by eapply step_good].
    destruct Hc as (H1 & H2 & H3). split; cbn; [|rewrite H2; intros _ id x h Hx; by apply lookup_empty_Some in Hx|by intros t n H; apply elem_of_nil in H|done|by rewrite H3].
    intros _. split; [exact H2|]. intros t n H. by apply elem_of_nil in H. }
  intros id x Hx. destruct (ac_web_admin (co_access (sy_console s))) as [w|] eqn:Ew.
  - exists (wa_password_hash w). assert (Hh : password_hash (co_access (sy_console s)) = Some (wa_password_hash w)) by (unfold password_hash; by rewrite Ew).
    split; [exact Hh|]. apply (good_sessions s G) with x; [|exact Hx|exact Hh].
    destruct (gh_settled (sy_ghost s)) eqn:E; [done|]. destruct (good_settled s G E) as [H|(t & Ht & Hr)]; [congruence|]. rewrite (Hidle _ _ Ht) in Hr. done.
  - destruct (good_unclaimed s G Ew) as [H0 _]. rewrite H0 in Hx. by apply lookup_empty_Some in Hx.
Qed.
End credentials.

(** * A bench *)

(** A schedule: the requests that arrive, and which handler goes on. *)
Inductive Move := Arrive (i : Input) (r : Start) | Resume (i : Input) (k : nat).
Definition play_move `{Hmac} `{Sha} `{Passwords} (offset : Z) (key : hmac_key) (m : Move) (s : System) : option System :=
  match m with
  | Arrive i r =>
      let '(next, c) := start offset key i r (sy_console s) in
      Some {| sy_console := c; sy_ghost := sy_ghost s; sy_tasks := sy_tasks s ++ map (λ t, (t, 0)) (option_list next) |}
  | Resume i k =>
      '(t, n) ← sy_tasks s !! k;
      let '(next, c) := advance offset i t (sy_console s) in
      let gh := note i t n (sy_console s) (sy_ghost s) in
      Some {| sy_console := c; sy_ghost := gh; sy_tasks := take k (sy_tasks s) ++ map (λ t, (t, gh_writes gh)) (option_list next) ++ drop (S k) (sy_tasks s) |}
  end.
Fixpoint play `{Hmac} `{Sha} `{Passwords} (offset : Z) (key : hmac_key) (l : list Move) (s : System) : option System :=
  match l with
  | [] => Some s
  | m :: l => if st_generation (co_sessions (sy_console s)) <? U64_MAX then s ← play_move offset key m s; play offset key l s else None
  end.
Lemma play_reachable `{Hmac} `{Sha} `{Passwords} offset key c l s s' : reachable offset key c s → play offset key l s = Some s' → reachable offset key c s'.
Proof.
  revert s. induction l as [|m l IH]; intros s Hs Hp; [by injection Hp as <-|]. cbn [play] in Hp.
  destruct (Z.ltb_spec (st_generation (co_sessions (sy_console s))) U64_MAX) as [Hb|]; [|done].
  destruct (play_move offset key m s) as [s1|] eqn:E; [|done]. apply (IH s1); [|exact Hp]. apply (reach_step _ _ _ s); [exact Hs|exact Hb|].
  destruct m as [i r|i k]; cbn in E.
  - destruct (start offset key i r (sy_console s)) as [next c'] eqn:Es. injection E as <-. by eapply step_start.
  - destruct (sy_tasks s !! k) as [[t n]|] eqn:Ek; [|done]. cbn in E. destruct (advance offset i t (sy_console s)) as [next c'] eqn:Ea. injection E as <-.
    eapply step_advance; [|exact Ea]. by rewrite take_drop_middle.
Qed.

#[local] Instance plain_hmac : Hmac := {| hmac_key := unit; hmac := λ _ b, b |}.
(** The only key. *)
Definition k0 : @hmac_key plain_hmac := tt.
#[local] Instance plain_sha : Sha := {| sha256 := λ b, take 32 (b ++ repeat "0"%char 32) |}.
#[local] Instance plain_passwords : Passwords :=
  {| hash_password := λ salt p, Some (salt +:+ p); verify_password := λ h p, bool_decide (h = "s" +:+ p) |}.
Definition bench_input (id : bytes) (outcome : Outcome) : Input :=
  {| in_now := 0; in_written := true; in_id := id; in_csrf := str_bytes "c"; in_draws := [str_bytes "i"]; in_salt := "s"; in_outcome := outcome;
     in_provisioning := None; in_code := None; in_clock := 7; in_present := true; in_published := true |}.
Definition go : Input := bench_input (str_bytes "new-secret") Answered.
Definition bare : Console := {| co_access := default_access; co_sessions := new_store k0; co_guard := {| gs_guard := LoginGuard.new_guard; gs_file := LoginGuard.Absent |} |}.
Definition bench_start : System := {| sy_console := bare; sy_ghost := new_ghost; sy_tasks := [] |}.
(** Setup with [password1], whose browser keeps the session "s1". *)
Definition claimed : list Move :=
  [Arrive go (SSetup None "password1"); Resume go 0; Resume go 0; Resume (bench_input (str_bytes "s1") Answered) 0].
Definition cookie_of (id : string) : string := let h := hex_encode (str_bytes id) in h +:+ "." +:+ hex_encode (str_bytes h).
Definition from_session (id : string) : Request :=
  {| rq_local := false; rq_bearer := None; rq_cookies := [Some ("apid_session=" +:+ cookie_of id)]; rq_csrf := Some (hex_encode (str_bytes "c"));
     rq_mutation := true; rq_bound := false; rq_access := None; rq_provisioning := None |}.
Definition anyone : Request :=
  {| rq_local := false; rq_bearer := None; rq_cookies := []; rq_csrf := None; rq_mutation := true; rq_bound := false; rq_access := None; rq_provisioning := None |}.
Definition login (id password : string) : list Move :=
  [Arrive go (SLogin password); Resume go 0; Resume (bench_input (str_bytes id) Answered) 0].
Definition hash_of (s : option System) : option string := s ← s; password_hash (co_access (sy_console s)).
Definition ids_of (s : option System) : option (list string) := s ← s; Some (map fst (map_to_list (st_sessions (co_sessions (sy_console s))))).

(** A second sign-in changes the password: setup's session goes. *)
Definition changed : list Move := claimed ++ login "s2" "password1" ++
  [Arrive go (SChange (from_session "s2") "password1" "password2"); Resume go 0; Resume go 0; Resume go 0].
Lemma sessions_follow_credential_witness :
  hash_of (play 0 k0 changed bench_start) = Some "spassword2"
  ∧ ids_of (play 0 k0 changed bench_start) = Some [hex_encode (str_bytes "s2")]
  ∧ ∃ s, play 0 k0 changed bench_start = Some s ∧ ∀ id x, st_sessions (co_sessions (sy_console s)) !! id = Some x →
      ∃ h, password_hash (co_access (sy_console s)) = Some h ∧ (vouched (sy_ghost s) id h ∨ id ∈ gh_late (sy_ghost s)).
Proof.
  split; [by vm_compute|]. split; [by vm_compute|]. assert (Hu : unclaimed bare) by done.
  assert (Ht : sy_tasks <$> play 0 k0 changed bench_start = Some []) by (by vm_compute).
  assert (Hl : gh_lost ∘ sy_ghost <$> play 0 k0 changed bench_start = Some false) by (by vm_compute).
  assert (Hp : ∀ s, play 0 k0 changed bench_start = Some s → reachable 0 k0 bare s) by (intros s; apply play_reachable, reach_start).
  destruct (play 0 k0 changed bench_start) as [s|]; [|done]. exists s. split; [reflexivity|]. injection Ht as Ht. injection Hl as Hl.
  apply (sessions_follow_credential 0 k0 bare s); [exact Hu|by apply Hp| |exact Hl]. rewrite Ht. intros t n H. by apply elem_of_nil in H.
Defined.

(** A password change that read [access] before a recovery and writes it after:
    the recovered password is replaced by one the old holder chose, and the API
    tokens the recovery revoked are back. *)
Definition overtaken : list Move := claimed ++
  [Arrive go (SMint (from_session "s1") "laptop"); Resume go 0; Resume go 0;
   Arrive go (SChange (from_session "s1") "password1" "attacker"); Resume go 0;
   Arrive go (SRecover anyone); Resume go 1; Resume go 1; Resume go 1].
Example change_overtakes_recovery :
  let tokens (s : option System) := s ← s; Some (len (ac_api_tokens (co_access (sy_console s)))) in
  let recovered := play 0 k0 overtaken bench_start in
  let after := play 0 k0 (overtaken ++ [Resume go 0; Resume go 0]) bench_start in
  (hash_of recovered = Some ("s" +:+ hex_encode (str_bytes "new-secret")) ∧ tokens recovered = Some 0)
  ∧ hash_of after = Some "sattacker" ∧ tokens after = Some 1.
Proof. by vm_compute. Qed.

(** A password write that micad made and did not answer: the handler ends, and
    the sessions of the old password live on. *)
Example unanswered_change_keeps_sessions :
  let s := play 0 k0 (claimed ++ login "s2" "password1" ++
    [Arrive go (SChange (from_session "s2") "password1" "password2"); Resume go 0; Resume (bench_input [] Unanswered) 0]) bench_start in
  hash_of s = Some "spassword2" ∧ (s ← s; Some (sy_tasks s)) = Some []
  ∧ (len <$> ids_of s) = Some 2.
Proof. by vm_compute. Qed.

(** Setup issues its session whatever was revoked since its claim: one issued
    after a recovery is accepted beside the recovered password. *)
Example setup_session_survives_recovery :
  let s := play 0 k0 ([Arrive go (SSetup None "password1"); Resume go 0; Resume go 0; Arrive go (SRecover anyone); Resume go 1; Resume go 1; Resume go 1;
    Resume (bench_input (str_bytes "s1") Answered) 0]) bench_start in
  hash_of s = Some ("s" +:+ hex_encode (str_bytes "new-secret")) ∧ ids_of s = Some [hex_encode (str_bytes "s1")].
Proof. by vm_compute. Qed.

(** A subscription, a read that starts, is answered and fills the cache. *)

End Credentials.
