(* ===== verification/BleChannel.v ===== *)
(** The framing and the record layer of BLE provisioning
    ([src/crates/micad/src/ble_provisioning/channel.rs]): fragments, their
    reassembly, and the AES-256-GCM records under a counter. AEAD, HKDF, X25519
    and SHA-256 are [aws_lc_rs]'s, a class of parameters. *)
From Stdlib Require Import Ascii.
From S2P Require Import Prelude Text.

Module BleChannel.

(** * Fragments *)

Definition MAX_MESSAGE : Z := 16 * 1024.
Definition HEADER : Z := 3.
Definition LAST : Z := 1.
Definition MIN_FRAGMENT : Z := 20.
Definition MAX_FRAGMENT : Z := 512.

(** [usize::clamp]. *)
Definition clamp (lo hi z : Z) : Z := if z <? lo then lo else if hi <? z then hi else z.
(** [slice::chunks], by the slice's length. *)
Fixpoint chunks_go (fuel : nat) (n : nat) (l : bytes) : list bytes :=
  match fuel, l with
  | _, [] | O, _ => []
  | S fuel, _ => take n l :: chunks_go fuel n (drop n l)
  end.
Definition chunks (n : nat) (l : bytes) : list bytes := chunks_go (length l) n l.

Definition fragment (seq : Z) (last : bool) (chunk : bytes) : bytes :=
  to_be 2 (seq mod 65536) ++ [val_byte (if last then LAST else 0)] ++ chunk.
Fixpoint number (seq count : Z) (l : list bytes) : list bytes :=
  match l with
  | [] => []
  | chunk :: rest => fragment seq (seq + 1 =? count) chunk :: number (seq + 1) count rest
  end.
Definition fragments (message : bytes) (size : Z) : list bytes :=
  let body := clamp MIN_FRAGMENT MAX_FRAGMENT size - HEADER in
  let l := if is_nil message then [[]] else chunks (Z.to_nat body) message in
  number 0 (len l) l.

Record Reassembly := { ra_buffer : bytes; ra_next : Z }.
Definition new_reassembly : Reassembly := {| ra_buffer := []; ra_next := 0 |}.

Definition accept (f : bytes) (r : Reassembly) : result (option bytes) * Reassembly :=
  match f with
  | hi :: lo :: flags :: body =>
      if negb (Z.land (byte_val flags) (Z.lnot LAST) =? 0) then (Err (Msg "unknown fragment flags"), r)
      else if negb (from_be [hi; lo] =? ra_next r) then (Err (Msg "a fragment out of order"), r)
      else if MAX_MESSAGE <? len (ra_buffer r) + len f - HEADER then (Err (Msg "the message is over 16384 bytes"), r)
      else
        let buffer := ra_buffer r ++ body in
        if negb (Z.land (byte_val flags) LAST =? 0) then (Ok (Some buffer), {| ra_buffer := []; ra_next := ra_next r |})
        else if ra_next r =? 65535 then (Err (Msg "too many fragments"), {| ra_buffer := buffer; ra_next := ra_next r |})
        else (Ok None, {| ra_buffer := buffer; ra_next := ra_next r + 1 |})
  | _ => (Err (Msg "a fragment is at least its 3-byte header"), r)
  end.
Definition push (f : bytes) (r : Reassembly) : result (option bytes) * Reassembly :=
  let '(outcome, r) := accept f r in
  (outcome, match outcome with Ok None => r | _ => new_reassembly end).

(** What a sequence of fragments yields. *)
Fixpoint push_all (l : list bytes) (r : Reassembly) : list (result (option bytes)) * Reassembly :=
  match l with
  | [] => ([], r)
  | f :: rest => let '(o, r) := push f r in let '(os, r) := push_all rest r in (o :: os, r)
  end.

(** ** Lemmas *)

Lemma chunks_go_spec n l fuel : (0 < n)%nat → (length l ≤ fuel)%nat →
  concat (chunks_go fuel n l) = l ∧ Forall (λ c, (length c ≤ n)%nat) (chunks_go fuel n l)
  ∧ (length (chunks_go fuel n l) ≤ length l)%nat ∧ (l ≠ [] → chunks_go fuel n l ≠ []).
Proof.
  intros Hn. revert l. induction fuel as [|fuel IH]; intros l Hl; [destruct l; [done|cbn in Hl; lia]|].
  destruct l as [|a l]; [done|]. cbn [chunks_go]. destruct (IH (drop n (a :: l))) as (H1 & H2 & H3 & _).
  { rewrite length_drop. cbn in Hl |- *. lia. }
  cbn [concat]. rewrite H1, take_drop. split; [done|]. split; [constructor; [rewrite length_take; lia|exact H2]|].
  split; [|done]. cbn [length]. rewrite length_drop in H3. cbn [length] in H3. lia.
Qed.
Lemma from_be_pair seq hi lo : to_be 2 seq = [hi; lo] → 0 ≤ seq < 65536 → from_be [hi; lo] = seq.
Proof.
  intros <- H. apply from_to_be. change (256 ^ Z.of_nat 2) with 65536. lia.
Qed.
Lemma accept_fragment seq last chunk buffer : 0 ≤ seq < 65536 → len buffer + len chunk ≤ MAX_MESSAGE → (last = false → seq < 65535) →
  accept (fragment seq last chunk) {| ra_buffer := buffer; ra_next := seq |} =
  if last then (Ok (Some (buffer ++ chunk)), {| ra_buffer := []; ra_next := seq |}) else (Ok None, {| ra_buffer := buffer ++ chunk; ra_next := seq + 1 |}).
Proof.
  intros Hs Hl Hlast. unfold fragment. rewrite Z.mod_small by lia. destruct (to_be 2 seq) as [|hi [|lo [|x t]]] eqn:E; try (unfold to_be in E; cbn in E; done).
  cbn [app]. unfold accept. cbn [ra_next ra_buffer]. rewrite (from_be_pair seq hi lo E Hs).
  assert (Hf : byte_val (val_byte (if last then LAST else 0)) = if last then 1 else 0) by (rewrite byte_val_val_byte; by destruct last).
  rewrite Hf, Z.eqb_refl. assert (Hlen : (MAX_MESSAGE <? len buffer + len (hi :: lo :: val_byte (if last then LAST else 0) :: chunk) - HEADER) = false).
  { rewrite !len_cons. apply Z.ltb_ge. unfold HEADER. lia. }
  rewrite Hlen. destruct last; cbn [negb].
  - by vm_compute (Z.land 1 (Z.lnot LAST)).
  - vm_compute (negb (Z.land 0 _ =? 0)). destruct (Z.eqb_spec seq 65535); [specialize (Hlast eq_refl); lia|done].
Qed.
Lemma push_numbered l seq count buffer : l ≠ [] → seq + len l = count → 0 ≤ seq → count ≤ 65536 → len buffer + len (concat l) ≤ MAX_MESSAGE →
  push_all (number seq count l) {| ra_buffer := buffer; ra_next := seq |} = (replicate (length l - 1) (Ok None) ++ [Ok (Some (buffer ++ concat l))], new_reassembly).
Proof.
  revert seq buffer. induction l as [|c l IH]; intros seq buffer Hn Hc Hs Hb Hm; [done|]. cbn [concat] in Hm. rewrite len_app in Hm. rewrite len_cons in Hc.
  pose proof (len_nonneg l). pose proof (len_nonneg (concat l)). cbn [number push_all]. unfold push.
  rewrite accept_fragment; [|lia|lia|intros E; apply Z.eqb_neq in E; lia]. destruct (Z.eqb_spec (seq + 1) count) as [E|E].
  - assert (l = []) as -> by (destruct l as [|d l']; [done|]; rewrite len_cons in Hc; pose proof (len_nonneg l'); lia). cbn. by rewrite app_nil_r.
  - assert (Hl : l ≠ []) by (intros ->; apply E; unfold len in Hc; cbn in Hc; lia). cbn [length].
    rewrite (IH (seq + 1) (buffer ++ c)); [|done|lia|lia|lia|rewrite len_app; lia].
    destruct l as [|d l']; [done|]. cbn [length]. replace (S (S (length l')) - 1)%nat with (S (length l')) by lia.
    replace (S (length l') - 1)%nat with (length l') by lia. cbn [replicate app concat]. by rewrite <-app_assoc.
Qed.

(** A message of at most 16384 bytes, cut for any size the link asks for,
    is joined again by its fragments in order: every one but the last asks for
    more, the last answers the message, and nothing is left behind. *)
Theorem fragments_join message size (H : len message ≤ MAX_MESSAGE) :
  let fs := fragments message size in
  push_all fs new_reassembly = (replicate (length fs - 1) (Ok None) ++ [Ok (Some message)], new_reassembly)
  ∧ Forall (λ f, len f ≤ clamp MIN_FRAGMENT MAX_FRAGMENT size) fs.
Proof.
  intros fs. subst fs. unfold fragments. cbv zeta. set (body := Z.to_nat (clamp MIN_FRAGMENT MAX_FRAGMENT size - HEADER)).
  assert (Hcl : 20 ≤ clamp MIN_FRAGMENT MAX_FRAGMENT size) by (unfold clamp, MIN_FRAGMENT, MAX_FRAGMENT; destruct (Z.ltb_spec size 20); [lia|]; destruct (Z.ltb_spec 512 size); lia).
  assert (Hbody : (0 < body)%nat) by (subst body; unfold HEADER; lia).
  set (l := if is_nil message then [[]] else chunks body message).
  assert (Hl : l ≠ [] ∧ concat l = message ∧ len l ≤ 65536 ∧ Forall (λ c, (length c ≤ body)%nat) l).
  { subst l. destruct message as [|a m]; [split; [done|]; split; [done|]; split; [by vm_compute|]; constructor; [cbn; lia|constructor]|].
    cbn [is_nil]. unfold chunks. destruct (chunks_go_spec body (a :: m) (length (a :: m)) Hbody) as (H1 & H2 & H3 & H4); [done|].
    split; [by apply H4|]. split; [exact H1|]. split; [|exact H2]. unfold len, MAX_MESSAGE in *. cbv [bytes] in *. lia. }
  destruct Hl as (H1 & H2 & H3 & H4). clearbody l.
  assert (Hlen : ∀ k seq count, length (number seq count k) = length k) by (induction k as [|c k IH]; intros; cbn; [done|by rewrite IH]).
  split.
  - rewrite Hlen. unfold new_reassembly at 1. rewrite (push_numbered l 0 (len l) []); [by rewrite H2|done|lia|lia|lia|rewrite H2; change (len (@nil ascii)) with 0; lia].
  - generalize 0 at 1. generalize (len l). clear - H4 Hcl. induction l as [|c l IH]; intros count seq; [constructor|]. apply Forall_cons in H4 as [Hc H4].
    cbn [number]. constructor; [|by apply IH]. unfold fragment, to_be. rewrite !len_app. unfold len in *. rewrite length_rev. cbn. subst body. unfold HEADER in *. lia.
Qed.
Lemma fragments_join_witness : len (str_bytes "twenty-two bytes here!") ≤ MAX_MESSAGE
  ∧ length (fragments (str_bytes "twenty-two bytes here!") 0) = 2%nat
  ∧ push_all (fragments (str_bytes "twenty-two bytes here!") 0) new_reassembly = ([Ok None; Ok (Some (str_bytes "twenty-two bytes here!"))], new_reassembly).
Proof.
  split; [by vm_compute|]. split; [by vm_compute|]. exact (proj1 (fragments_join (str_bytes "twenty-two bytes here!") 0 ltac:(by vm_compute))).
Defined.

(** Whatever a phone writes, the buffer and the counter stay bounded. *)
Definition reassembly_ok (r : Reassembly) : Prop := len (ra_buffer r) ≤ MAX_MESSAGE ∧ 0 ≤ ra_next r ≤ 65535.
Lemma push_bounded f r : reassembly_ok r → reassembly_ok (push f r).2 ∧ ∀ m, (push f r).1 = Ok (Some m) → len m ≤ MAX_MESSAGE.
Proof.
  assert (Hnew : reassembly_ok new_reassembly) by (unfold reassembly_ok, new_reassembly, len, MAX_MESSAGE; cbn; lia).
  intros [H1 H2]. unfold push, accept. destruct f as [|hi [|lo [|flags body]]]; try done.
  destruct (negb (_ =? 0)); [done|]. destruct (negb (from_be _ =? _)); [done|]. destruct (Z.ltb_spec MAX_MESSAGE (len (ra_buffer r) + len (hi :: lo :: flags :: body) - HEADER)) as [|Hm]; [done|].
  rewrite !len_cons in Hm. unfold HEADER in Hm. destruct (negb (Z.land (byte_val flags) LAST =? 0)).
  - split; [done|]. intros m [= <-]. rewrite len_app. lia.
  - destruct (Z.eqb_spec (ra_next r) 65535); [done|]. split; [|done]. split; cbn; [rewrite len_app|]; lia.
Qed.

(** * Session keys and records *)

Definition AAD : bytes := str_bytes "mica-provisioning/1".
Definition KEYS_INFO : bytes := str_bytes "mica-provisioning/1 session keys".
Definition NONE_SALT_LABEL : bytes := str_bytes "mica-provisioning/1 none".

(** What the record layer takes from [aws_lc_rs]: HKDF-SHA256 of a salt, a
    secret and an info filling so many bytes, SHA-256, X25519, and AES-256-GCM
    under a key it accepted, a nonce and associated data. *)
Class Primitives := {
  hkdf : bytes → bytes → bytes → nat → option bytes;
  sha256 : bytes → bytes;
  x25519_public : bytes → option bytes;
  x25519 : bytes → bytes → option bytes;
  aead_key : Type;
  aead_new : bytes → option aead_key;
  aead_seal : aead_key → bytes → bytes → bytes → option bytes;
  aead_open : aead_key → bytes → bytes → bytes → option bytes;
}.
Class PrimitiveLaws `{Primitives} := {
  aead_opens k nonce aad plaintext sealed : aead_seal k nonce aad plaintext = Some sealed → aead_open k nonce aad sealed = Some plaintext;
}.

Record SessionKeys := { sk_phone_to_device : bytes; sk_device_to_phone : bytes }.
Record Records `{Primitives} := { rc_key : aead_key; rc_counter : Z }.

Section records.
Context `{PR : Primitives}.

Definition session_keys (salt ikm : bytes) : option SessionKeys :=
  out ← hkdf salt ikm KEYS_INFO 64;
  Some {| sk_phone_to_device := take 32 out; sk_device_to_phone := drop 32 out |}.
(** [device] is the private key. *)
Definition none_exchange (device phone_public : bytes) : option (bytes * SessionKeys) :=
  if negb (len phone_public =? 32) then None
  else
    public ← x25519_public device;
    secret ← x25519 device phone_public;
    if forallb (λ c, byte_val c =? 0) secret then None
    else
      keys ← session_keys (sha256 (NONE_SALT_LABEL ++ phone_public ++ public)) secret;
      Some (public, keys).

Definition new_records (key : bytes) : option Records := k ← aead_new key; Some {| rc_key := k; rc_counter := 0 |}.
Definition nonce_of (counter : Z) : bytes := replicate 4 (val_byte 0) ++ to_be 8 counter.
Definition take_nonce (r : Records) : option (bytes * Records) :=
  if rc_counter r =? U64_MAX then None
  else Some (nonce_of (rc_counter r), {| rc_key := rc_key r; rc_counter := rc_counter r + 1 |}).
(** The state is kept also where the answer is an error. *)
Definition seal (plaintext : bytes) (r : Records) : option bytes * Records :=
  match take_nonce r with
  | None => (None, r)
  | Some (nonce, r) => (aead_seal (rc_key r) nonce AAD plaintext, r)
  end.
Definition open (record : bytes) (r : Records) : option bytes * Records :=
  match take_nonce r with
  | None => (None, r)
  | Some (nonce, r) => (aead_open (rc_key r) nonce AAD record, r)
  end.

(** One side's records, or none when one cannot be sealed; and the other's
    reading of them. *)
Fixpoint seal_all (l : list bytes) (r : Records) : option (list bytes) :=
  match l with
  | [] => Some []
  | p :: rest => let '(o, r) := seal p r in c ← o; cs ← seal_all rest r; Some (c :: cs)
  end.
Fixpoint open_all (l : list bytes) (r : Records) : option (list bytes) :=
  match l with
  | [] => Some []
  | c :: rest => let '(o, r) := open c r in p ← o; ps ← open_all rest r; Some (p :: ps)
  end.
(** The nonces a run of operations uses. *)
Definition nonces (n : nat) (start : Z) : list bytes := map (λ i, nonce_of (start + Z.of_nat i)) (seq 0 n).

Lemma nonce_inj a b : 0 ≤ a ≤ U64_MAX → 0 ≤ b ≤ U64_MAX → nonce_of a = nonce_of b → a = b.
Proof.
  intros Ha Hb H. apply app_inv_head, (f_equal from_be) in H.
  rewrite !from_to_be in H; [done|unfold U64_MAX in *; change (256 ^ Z.of_nat 8) with 18446744073709551616; lia..].
Qed.
Lemma seal_all_counter l r out : 0 ≤ rc_counter r ≤ U64_MAX → seal_all l r = Some out → rc_counter r + len l ≤ U64_MAX ∧ length out = length l.
Proof.
  revert r out. induction l as [|p l IH]; intros r out Hr H; [injection H as <-; split; [change (len (@nil bytes)) with 0; lia|done]|]. cbn [seal_all] in H. unfold seal, take_nonce in H.
  destruct (Z.eqb_spec (rc_counter r) U64_MAX); [done|]. destruct (aead_seal _ _ _ _) as [c|]; [|done]. cbn in H.
  destruct (seal_all l _) as [cs|] eqn:E; [|done]. injection H as <-. destruct (λ H, IH _ _ H E) as [H1 H2]; [cbn [rc_counter]; lia|]. cbn [rc_counter length] in H1 |- *. rewrite len_cons. split; [lia|by rewrite H2].
Qed.
(** What one end of a session seals, the other opens in the same order and
    reads back, and no two of the records are under one nonce. *)
Theorem records_in_order `{!PrimitiveLaws} l r out (Hr : 0 ≤ rc_counter r ≤ U64_MAX) (Hs : seal_all l r = Some out) :
  open_all out r = Some l ∧ NoDup (nonces (length out) (rc_counter r)).
Proof.
  split.
  - revert r out Hr Hs. induction l as [|p l IH]; intros r out Hr Hs; [by injection Hs as <-|]. cbn [seal_all] in Hs. unfold seal, take_nonce in Hs.
    destruct (Z.eqb_spec (rc_counter r) U64_MAX) as [|Hne]; [done|]. destruct (aead_seal _ _ _ _) as [c|] eqn:Es; [|done]. cbn in Hs.
    destruct (seal_all l _) as [cs|] eqn:E; [|done]. injection Hs as <-. cbn [open_all]. unfold open, take_nonce.
    destruct (Z.eqb_spec (rc_counter r) U64_MAX) as [|_]; [done|]. cbn [rc_key] in Es |- *. rewrite (aead_opens _ _ _ _ _ Es). cbn. rewrite (IH _ cs); [done|cbn [rc_counter]; lia|exact E].
  - destruct (seal_all_counter l r out Hr Hs) as [Hc Hlen]. unfold nonces. apply NoDup_fmap_2_strong; [|apply NoDup_seq]. intros i j Hi Hj E.
    apply elem_of_seq in Hi, Hj. unfold len in Hc. rewrite Hlen in Hi, Hj. apply nonce_inj in E; lia.
Qed.
End records.

(** A bench with primitives that keep their input: a record is the nonce and
    the plaintext. *)
#[local] Instance plain : Primitives := {|
  hkdf _ ikm _ n := Some (take n (ikm ++ replicate 64 "0"%char)); sha256 b := b; x25519_public k := Some k; x25519 a b := Some (a ++ b);
  aead_key := bytes; aead_new := Some; aead_seal _ n _ p := Some (n ++ p);
  aead_open _ n _ c := if bool_decide (take (length n) c = n) then Some (drop (length n) c) else None |}.
#[local] Instance plain_laws : PrimitiveLaws.
Proof. split. intros k nonce aad p c [= <-]. cbn. by rewrite take_app_length, bool_decide_eq_true_2, drop_app_length. Qed.
Lemma records_in_order_witness :
  let l := [str_bytes "one"; str_bytes "two"] in
  ∃ r out, new_records (str_bytes "k") = Some r ∧ seal_all l r = Some out ∧ open_all out r = Some l ∧ NoDup (nonces (length out) (rc_counter r)).
Proof.
  intros l. eexists _, _. split; [reflexivity|]. split; [reflexivity|]. apply (records_in_order l); [vm_compute; split; congruence|reflexivity].
Defined.

End BleChannel.
