(* ===== verification/Spake.v ===== *)
(** SPAKE2+ (RFC 9383), the device's side
    ([src/crates/micad/src/ble_provisioning/spake2plus.rs]): records, shares
    and the key schedule over P-256, whose arithmetic and encodings are a class
    of parameters, as are PBKDF2, HKDF, HMAC and SHA-256. The phone's side, as
    the file's tests and the protocol's document have it, is the reference. *)
From Stdlib Require Import Ascii.
From S2P Require Import Prelude Text.

Module Spake.

(** P-256: a group of [order] elements with SEC1 encodings of its points. *)
Class P256 := {
  point : Type;
  point_eq_dec :: EqDecision point;
  order : Z;
  identity : point;
  generator : point;
  add : point → point → point;
  opp : point → point;
  mul : point → Z → point;
  from_sec1 : bytes → option point;
  to_sec1 : point → bytes; (* uncompressed; the identity is one byte *)
}.
Class P256Laws `{P256} := {
  order_bound : 0 < order < 256 ^ 32;
  add_assoc x y z : add x (add y z) = add (add x y) z;
  add_comm x y : add x y = add y x;
  add_identity x : add x identity = x;
  add_opp x : add x (opp x) = identity;
  mul_add x a b : mul x (a + b) = add (mul x a) (mul x b);
  mul_mul x a b : mul (mul x a) b = mul x (a * b);
  mul_one x : mul x 1 = x;
  sec1_length x : x ≠ identity → length (to_sec1 x) = 65%nat ∧ head (to_sec1 x) = Some (val_byte 4);
  sec1_round x : x ≠ identity → from_sec1 (to_sec1 x) = Some x;
}.
Class Hashes := {
  pbkdf2 : Z → bytes → bytes → nat → bytes;
  sha256 : bytes → bytes;
  hkdf : bytes → bytes → bytes → nat → option bytes;
  hmac : bytes → bytes → bytes;
}.

Definition HALF : nat := 40.
Definition POINT_LEN : nat := 65.
Definition M_CONSTANT : bytes := map val_byte
  [2; 136; 110; 47; 151; 172; 228; 110; 85; 186; 157; 215; 36; 37; 121; 242;
   153; 59; 100; 225; 110; 243; 220; 171; 149; 175; 212; 151; 51; 61; 143; 161; 47].
Definition N_CONSTANT : bytes := map val_byte
  [3; 216; 187; 214; 198; 57; 198; 41; 55; 176; 77; 153; 127; 56; 195; 119;
   7; 25; 198; 41; 215; 1; 77; 73; 162; 75; 79; 152; 186; 161; 41; 43; 73].

(** What the device keeps of a password: its salt and iterations, [w0] as 32
    bytes and [L] as 65. *)
Record Registered := { rg_salt : bytes; rg_iterations : Z; rg_w0 : bytes; rg_l : bytes }.
Record Transcript := { tr_context : bytes; tr_id_prover : bytes; tr_id_verifier : bytes }.
Record Keys := { ky_confirm_p : bytes; ky_confirm_v : bytes; ky_shared : bytes }.
Record Answer := { an_share_v : bytes; an_keys : Keys }.

Section spake.
Context `{PC : P256} {HS : Hashes}.

Definition constant (b : bytes) : option point := from_sec1 b.
Definition encode (p : point) : bytes :=
  let encoded := to_sec1 p in
  if bool_decide (length encoded = POINT_LEN) then encoded else replicate POINT_LEN (val_byte 0).
Definition decode_share (b : bytes) : option point :=
  if bool_decide (length b = POINT_LEN) && bool_decide (head b = Some (val_byte 4)) then
    p ← from_sec1 b;
    if bool_decide (p = identity) then None else Some p
  else None.
(** Scalars are reduced modulo [order]. *)
Definition reduce_wide (b : bytes) : Z := foldl (λ acc byte, (acc * 256 + byte_val byte) mod order) 0 b.
Definition to_repr (scalar : Z) : bytes := to_be 32 scalar.
Definition from_repr (b : bytes) : option Z := let z := from_be b in if z <? order then Some z else None.
Definition len8 (part : bytes) : bytes := to_le 8 (len part) ++ part.

Definition derive (pw salt : bytes) (iterations : Z) (id_prover id_verifier : bytes) : Z * Z :=
  let out := pbkdf2 iterations salt (len8 pw ++ len8 id_prover ++ len8 id_verifier) (2 * HALF) in
  (reduce_wide (take HALF out), reduce_wide (drop HALF out)).
Definition register (pw salt : bytes) (iterations : Z) (id_prover id_verifier : bytes) : Registered :=
  let '(w0, w1) := derive pw salt iterations id_prover id_verifier in
  {| rg_salt := salt; rg_iterations := iterations; rg_w0 := to_repr w0; rg_l := encode (mul generator w1) |}.

Definition schedule (t : Transcript) (share_p share_v : bytes) (z v : point) (w0 : Z) : option Keys :=
  m ← constant M_CONSTANT;
  n ← constant N_CONSTANT;
  let tt := len8 (tr_context t) ++ len8 (tr_id_prover t) ++ len8 (tr_id_verifier t) ++ len8 (encode m) ++ len8 (encode n)
            ++ len8 share_p ++ len8 share_v ++ len8 (encode z) ++ len8 (encode v) ++ len8 (to_repr w0) in
  let k_main := sha256 tt in
  confirmation ← hkdf [] k_main (str_bytes "ConfirmationKeys") 64;
  shared ← hkdf [] k_main (str_bytes "SharedKey") 32;
  Some {| ky_confirm_p := hmac (take 32 confirmation) share_v; ky_confirm_v := hmac (drop 32 confirmation) share_p; ky_shared := shared |}.
(** [y] is drawn. *)
Definition answer_with (record : Registered) (t : Transcript) (share_p : bytes) (y : Z) : option Answer :=
  w0 ← from_repr (rg_w0 record);
  l ← decode_share (rg_l record);
  x ← decode_share share_p;
  n ← constant N_CONSTANT;
  let share_v := encode (add (mul generator y) (mul n w0)) in
  m ← constant M_CONSTANT;
  let z := mul (add x (opp (mul m w0))) y in
  keys ← schedule t share_p share_v z (mul l y) w0;
  Some {| an_share_v := share_v; an_keys := keys |}.

(** The phone: its share for [x], and its keys once it has the device's. *)
Definition phone_share (w0 x : Z) : option bytes := m ← constant M_CONSTANT; Some (encode (add (mul generator x) (mul m w0))).
Definition phone_finish (t : Transcript) (w0 w1 x : Z) (share_v : bytes) : option Keys :=
  share_p ← phone_share w0 x;
  v ← decode_share share_v;
  n ← constant N_CONSTANT;
  let y := add v (opp (mul n w0)) in
  schedule t share_p share_v (mul y x) (mul y w1) w0.

(** ** Lemmas *)

Context {PL : P256Laws}.

Lemma share_round p : p ≠ identity → decode_share (encode p) = Some p.
Proof.
  intros H. destruct (sec1_length p H) as [H1 H2]. unfold decode_share, encode. rewrite (bool_decide_eq_true_2 (length (to_sec1 p) = POINT_LEN)) by exact H1.
  rewrite !bool_decide_eq_true_2 by done. cbn. rewrite sec1_round by done. cbn. by rewrite bool_decide_eq_false_2.
Qed.
Lemma cancel x y : add (add x y) (opp y) = x.
Proof. by rewrite <-add_assoc, add_opp, add_identity. Qed.
Lemma reduce_wide_bound b : 0 ≤ reduce_wide b < order.
Proof.
  pose proof order_bound as Ho. assert (H : ∀ z, 0 ≤ z < order → 0 ≤ foldl (λ acc byte, (acc * 256 + byte_val byte) mod order) z b < order); [|apply H; lia].
  induction b as [|c b IH]; intros z Hz; [exact Hz|]. cbn [foldl]. apply IH, Z.mod_pos_bound. lia.
Qed.
Lemma repr_round s : 0 ≤ s < order → from_repr (to_repr s) = Some s.
Proof.
  intros H. pose proof order_bound. unfold from_repr, to_repr. rewrite from_to_be by (change (Z.of_nat 32) with 32; lia). destruct (Z.ltb_spec s order); [done|lia].
Qed.
Lemma mul_swap p a b : mul (mul p a) b = mul (mul p b) a.
Proof. by rewrite !mul_mul, Z.mul_comm. Qed.

(** C25: a phone that knows the password and the device that keeps its record
    agree: for every salt, iterations, identities and random scalars whose
    shares are no identity, the device answers, and the phone computes the
    device's keys from that answer. Of HKDF only the two lengths the schedule
    asks for need an answer. *)
Theorem exchange_agrees pw salt iterations t x y m n
    (Hm : constant M_CONSTANT = Some m) (Hn : constant N_CONSTANT = Some n) (Hk : ∀ k info l, l ∈ [64; 32]%nat → is_Some (hkdf [] k info l))
    (Hl : mul generator (derive pw salt iterations (tr_id_prover t) (tr_id_verifier t)).2 ≠ identity)
    (Hp : add (mul generator x) (mul m (derive pw salt iterations (tr_id_prover t) (tr_id_verifier t)).1) ≠ identity)
    (Hv : add (mul generator y) (mul n (derive pw salt iterations (tr_id_prover t) (tr_id_verifier t)).1) ≠ identity) :
  let '(w0, w1) := derive pw salt iterations (tr_id_prover t) (tr_id_verifier t) in
  ∃ share_p a, phone_share w0 x = Some share_p
    ∧ answer_with (register pw salt iterations (tr_id_prover t) (tr_id_verifier t)) t share_p y = Some a
    ∧ phone_finish t w0 w1 x (an_share_v a) = Some (an_keys a).
Proof.
  assert (Hw : 0 ≤ (derive pw salt iterations (tr_id_prover t) (tr_id_verifier t)).1 < order) by apply reduce_wide_bound.
  unfold register. destruct (derive pw salt iterations (tr_id_prover t) (tr_id_verifier t)) as [w0 w1]. cbn [fst snd] in *.
  set (sp := encode (add (mul generator x) (mul m w0))). set (sv := encode (add (mul generator y) (mul n w0))).
  assert (Hs : ∃ keys, schedule t sp sv (mul (mul generator x) y) (mul (mul generator w1) y) w0 = Some keys).
  { unfold schedule. rewrite Hm, Hn. cbn [mbind option_bind].
    repeat match goal with |- context [hkdf [] ?k ?i ?l] => let c := fresh "c" in destruct (Hk k i l ltac:(set_solver)) as [c ->]; cbn [mbind option_bind] end. by eexists. }
  destruct Hs as [keys Hs]. exists sp, {| an_share_v := sv; an_keys := keys |}.
  assert (Hsp : phone_share w0 x = Some sp) by (unfold phone_share; by rewrite Hm). split; [exact Hsp|]. split.
  - unfold answer_with. cbn [rg_w0 rg_l]. rewrite repr_round by done. cbn [mbind option_bind]. rewrite share_round by done. cbn [mbind option_bind]. rewrite (share_round _ Hp : decode_share sp = _). cbn [mbind option_bind].
    rewrite Hn. cbn [mbind option_bind]. rewrite Hm. cbn [mbind option_bind]. rewrite cancel. fold sv. by rewrite Hs.
  - cbn [an_share_v an_keys]. unfold phone_finish. rewrite Hsp. cbn [mbind option_bind]. rewrite (share_round _ Hv : decode_share sv = _). cbn [mbind option_bind]. rewrite Hn. cbn [mbind option_bind]. rewrite cancel.
    by rewrite (mul_swap generator y x), (mul_swap generator y w1).
Qed.
End spake.

(** * A bench: the group of two elements *)

#[local] Instance toy_group : P256 := {|
  point := bool; order := 2; identity := false; generator := true; add := xorb; opp a := a; mul p k := p && Z.odd k;
  from_sec1 _ := Some true;
  to_sec1 p := if p : bool then val_byte 4 :: replicate 64 (val_byte 0) else [val_byte 0] |}.
#[local] Instance toy_laws : P256Laws.
Proof.
  split; cbn; try by vm_compute.
  - by intros [] [] [].
  - by intros [] [].
  - by intros [].
  - by intros [].
  - intros [] a b; cbn; [|done]. by rewrite Z.odd_add.
  - intros [] a b; cbn; [|done]. by rewrite Z.odd_mul.
  - by intros [].
  - by intros [].
  - by intros [].
Qed.
#[local] Instance toy_hashes : Hashes :=
  {| pbkdf2 _ _ _ n := replicate n (val_byte 1); sha256 b := b; hkdf _ k _ n := Some (take n (k ++ replicate 64 (val_byte 0))); hmac k b := k ++ b |}.
Definition sample_transcript : Transcript :=
  {| tr_context := str_bytes "mica-provisioning/1 password"; tr_id_prover := str_bytes "mica-provisioning phone"; tr_id_verifier := str_bytes "mica-provisioning device" |}.
Lemma exchange_agrees_witness : ∃ share_p a, phone_share 1 2 = Some share_p
  ∧ answer_with (register (str_bytes "pw") [] 300000 (tr_id_prover sample_transcript) (tr_id_verifier sample_transcript)) sample_transcript share_p 4 = Some a
  ∧ phone_finish sample_transcript 1 1 2 (an_share_v a) = Some (an_keys a).
Proof.
  exact (exchange_agrees (str_bytes "pw") [] 300000 sample_transcript 2 4 true true eq_refl eq_refl
    (λ k info l _, ltac:(by eexists)) ltac:(by vm_compute) ltac:(by vm_compute) ltac:(by vm_compute)).
Defined.

End Spake.
