(* ===== verification/BleWindow.v ===== *)
(** What BLE provisioning keeps ([src/crates/micad/src/ble_provisioning]): the
    windows of a boot ([window.rs]), the failure count and lockout
    ([store.rs]), and the verifier as the daemon replaces it ([runtime.rs]),
    with the makers of verifiers running beside the calls. *)
From S2P Require Import Prelude Text.

Module BleWindow.

(** * The windows *)

Definition BOOT_SECONDS : Z := 10 * 60.
Definition OFFLINE_DELAY : Z := 120.
Definition MANUAL_SECONDS : list Z := [5 * 60; 10 * 60; 30 * 60].

Inductive Trigger := Unclaimed | Boot | Offline | Manual.
Inductive Auth := NoAuth | Password | TempCode.
#[global] Instance Trigger_eq_dec : EqDecision Trigger.
Proof. solve_decision. Defined.
#[global] Instance Auth_eq_dec : EqDecision Auth.
Proof. solve_decision. Defined.
Definition auth_text (a : Auth) : string := match a with NoAuth => "none" | Password => "password" | TempCode => "temp-code" end.
(** [serde]'s name of a trigger. *)
Definition trigger_text (t : Trigger) : string :=
  match t with Unclaimed => "unclaimed" | Boot => "boot" | Offline => "offline" | Manual => "manual" end.

Record Open := { op_trigger : Trigger; op_auth : Auth; op_closes_at : option Z }.
Record Windows := { wd_claimed_at_boot : bool; wd_boot_closed : bool; wd_had_route : bool; wd_lost_since : option Z; wd_manual_until : option Z }.
Definition new_windows (claimed_at_boot : bool) : Windows :=
  {| wd_claimed_at_boot := claimed_at_boot; wd_boot_closed := false; wd_had_route := false; wd_lost_since := None; wd_manual_until := None |}.

Definition route (now : Z) (present : bool) (w : Windows) : Windows :=
  if present then
    {| wd_claimed_at_boot := wd_claimed_at_boot w; wd_boot_closed := wd_boot_closed w; wd_had_route := true; wd_lost_since := None;
       wd_manual_until := wd_manual_until w |}
  else
    {| wd_claimed_at_boot := wd_claimed_at_boot w; wd_boot_closed := wd_boot_closed w; wd_had_route := wd_had_route w;
       wd_lost_since := if wd_had_route w && negb (bool_decide (is_Some (wd_lost_since w))) then Some now else wd_lost_since w;
       wd_manual_until := wd_manual_until w |}.
Definition set_manual (until : option Z) (w : Windows) : Windows :=
  {| wd_claimed_at_boot := wd_claimed_at_boot w; wd_boot_closed := wd_boot_closed w; wd_had_route := wd_had_route w;
     wd_lost_since := wd_lost_since w; wd_manual_until := until |}.
Definition open_manual (now seconds : Z) (w : Windows) : Windows := set_manual (Some (wrap64 (now + seconds))) w.
Definition close_manual (w : Windows) : Windows := set_manual None w.
Definition finish (now : Z) (w : Windows) : Windows :=
  {| wd_claimed_at_boot := wd_claimed_at_boot w; wd_boot_closed := true; wd_had_route := wd_had_route w;
     wd_lost_since := if wd_lost_since w then Some now else None; wd_manual_until := None |}.
Definition current (now : Z) (claimed auto_when_offline : bool) (w : Windows) : option Open :=
  let boot := negb (wd_boot_closed w) && (now <? BOOT_SECONDS) in
  if negb claimed then
    if boot && negb (wd_claimed_at_boot w) then Some {| op_trigger := Unclaimed; op_auth := NoAuth; op_closes_at := Some BOOT_SECONDS |} else None
  else
    match (until ← wd_manual_until w; if now <? until then Some until else None) with
    | Some until => Some {| op_trigger := Manual; op_auth := TempCode; op_closes_at := Some until |}
    | None =>
        let boot := boot && wd_claimed_at_boot w in
        let offline := auto_when_offline && match wd_lost_since w with Some since => wrap64 (since + OFFLINE_DELAY) <=? now | None => false end in
        match boot, offline with
        | true, _ => Some {| op_trigger := Boot; op_auth := Password; op_closes_at := if negb offline then Some BOOT_SECONDS else None |}
        | false, true => Some {| op_trigger := Offline; op_auth := Password; op_closes_at := None |}
        | false, false => None
        end
    end.

(** ** A boot's history *)

Inductive event := Routed (now : Z) (present : bool) | Opened (now seconds : Z) | Closed | Finished (now : Z).
Definition apply (e : event) (w : Windows) : Windows :=
  match e with
  | Routed now present => route now present w
  | Opened now seconds => open_manual now seconds w
  | Closed => close_manual w
  | Finished now => finish now w
  end.
Definition after (claimed_at_boot : bool) (l : list event) : Windows := foldl (λ w e, apply e w) (new_windows claimed_at_boot) l.

(** What a history says, from the protocol's table of windows: a manual window
    lasts until its time, the console or [finish]; a route is present, or gone
    since it was lost or since the [finish] after that. *)
Definition finished (l : list event) : Prop := ∃ now, Finished now ∈ l.
Inductive manual_until : list event → Z → Prop :=
| manual_opened l now seconds : manual_until (l ++ [Opened now seconds]) (wrap64 (now + seconds))
| manual_kept l now present until : manual_until l until → manual_until (l ++ [Routed now present]) until.
Inductive has_route : list event → Prop :=
| route_came l now : has_route (l ++ [Routed now true])
| route_kept l e : has_route l → (∀ now present, e ≠ Routed now present) → has_route (l ++ [e]).
Inductive gone_since : list event → Z → Prop :=
| route_lost l now : has_route l → gone_since (l ++ [Routed now false]) now
| gone_finished l now since : gone_since l since → gone_since (l ++ [Finished now]) now
| gone_kept l e since : gone_since l since → (∀ now, e ≠ Routed now true ∧ e ≠ Finished now) → gone_since (l ++ [e]) since.

Lemma after_snoc c l e : after c (l ++ [e]) = apply e (after c l).
Proof. unfold after. by rewrite foldl_app. Qed.
Lemma after_claimed c l : wd_claimed_at_boot (after c l) = c.
Proof. induction l as [|e l IH] using rev_ind; [done|]. rewrite after_snoc. destruct e; cbn; try done. by destruct present. Qed.
Lemma after_closed c l : wd_boot_closed (after c l) = true ↔ finished l.
Proof.
  induction l as [|e l IH] using rev_ind; [split; [done|intros [now H]; by apply elem_of_nil in H]|]. rewrite after_snoc.
  assert (Hsnoc : finished (l ++ [e]) ↔ finished l ∨ ∃ now, e = Finished now).
  { unfold finished. setoid_rewrite elem_of_app. setoid_rewrite list_elem_of_singleton. split; [intros [now [H|H]]|intros [[now H]|[now H]]]; eauto. }
  rewrite Hsnoc, <-IH. destruct e as [now [|]|now s| |now]; cbn; naive_solver.
Qed.
Lemma after_manual c l u : wd_manual_until (after c l) = Some u ↔ manual_until l u.
Proof.
  revert u. induction l as [|e l IH] using rev_ind; intros u.
  - split; [done|]. intros H. inversion H as [l' ? ? E|l' ? ? ? ? E]; by destruct l'.
  - rewrite after_snoc. split.
    + destruct e as [now present|now s| |now]; cbn; intros H; try done.
      * apply manual_kept, IH. by destruct present.
      * injection H as <-. apply manual_opened.
    + intros H. inversion H as [l' now s E|l' now present u' Hu E]; apply app_inj_tail in E as [-> <-]; cbn; [done|]. destruct present; by apply IH.
Qed.
Lemma after_route c l : wd_had_route (after c l) = true ∧ wd_lost_since (after c l) = None ↔ has_route l.
Proof.
  induction l as [|e l IH] using rev_ind.
  - split; [by intros [? _]|]. intros H. inversion H as [l' ? E|l' ? ? ? E]; by destruct l'.
  - rewrite after_snoc. split.
    + destruct e as [now [|]|now s| |now]; cbn; intros [H1 H2].
      * apply route_came.
      * rewrite H1 in H2. cbn in H2. destruct (wd_lost_since (after c l)); [by rewrite bool_decide_eq_true_2 in H2 by (by eexists)|done].
      * apply route_kept; [by apply IH|done].
      * apply route_kept; [by apply IH|done].
      * apply route_kept; [apply IH; by destruct (wd_lost_since (after c l))|done].
    + intros H. inversion H as [l' now E|l' e' Hl He E]; apply app_inj_tail in E as [-> <-]; cbn; [done|].
      apply IH in Hl as [H1 H2]. destruct e' as [now present|now s| |now]; cbn; [by destruct (He now present)|done..|]. by rewrite H2.
Qed.
Lemma lost_had c l s : wd_lost_since (after c l) = Some s → wd_had_route (after c l) = true.
Proof.
  revert s. induction l as [|e l IH] using rev_ind; intros s; [done|]. rewrite after_snoc. destruct e as [now [|]|now s'| |now]; cbn; try done; try by apply IH.
  - destruct (wd_had_route (after c l)); [done|]. cbn. by apply IH.
  - destruct (wd_lost_since (after c l)) as [s'|]; [intros _; by apply (IH s')|done].
Qed.
Lemma after_gone c l s : wd_lost_since (after c l) = Some s ↔ gone_since l s.
Proof.
  revert s. induction l as [|e l IH] using rev_ind; intros s.
  - split; [done|]. intros H. inversion H as [l' ? ? E|l' ? ? ? E|l' ? ? ? ? E]; by destruct l'.
  - rewrite after_snoc. split.
    + destruct e as [now [|]|now s'| |now]; cbn; intros H; [done|..].
      * destruct (wd_lost_since (after c l)) as [s'|] eqn:E.
        { rewrite bool_decide_eq_true_2, andb_false_r in H by (by eexists). apply gone_kept; [by apply IH|naive_solver]. }
        rewrite bool_decide_eq_false_2, andb_true_r in H by (by intros []). destruct (wd_had_route (after c l)) eqn:Eh; [|done]. injection H as <-.
        apply route_lost, (after_route c). done.
      * apply gone_kept; [by apply IH|naive_solver].
      * apply gone_kept; [by apply IH|naive_solver].
      * destruct (wd_lost_since (after c l)) as [s'|]; [|done]. injection H as <-. apply (gone_finished _ _ s'). by apply IH.
    + intros H. inversion H as [l' now Hp E|l' now since Hg E|l' e' since Hg He E]; apply app_inj_tail in E as [-> <-]; simplify_eq.
      * apply (after_route c) in Hp as [Hr1 Hr2]. cbn. by rewrite Hr1, Hr2.
      * apply IH in Hg. cbn. by rewrite Hg.
      * apply IH in Hg. destruct e' as [now [|]|now s'| |now]; cbn; try done; [by destruct (He now)|..|by destruct (He now) as [_ ?]].
        rewrite Hg. by rewrite bool_decide_eq_true_2, andb_false_r by (by eexists).
Qed.

(** [current] reads its history through three answers. *)
Lemma current_reads c l now auto : ∃ (boot offline : bool) (until : option Z),
  (boot = true ↔ ¬ finished l ∧ now < BOOT_SECONDS)
  ∧ (offline = true ↔ auto = true ∧ ∃ since, gone_since l since ∧ wrap64 (since + OFFLINE_DELAY) ≤ now)
  ∧ (∀ u, until = Some u ↔ manual_until l u ∧ now < u)
  ∧ (∀ u, until = Some u → now < u)
  ∧ ∀ claimed, current now claimed auto (after c l) =
      if negb claimed then if boot && negb c then Some {| op_trigger := Unclaimed; op_auth := NoAuth; op_closes_at := Some BOOT_SECONDS |} else None
      else match until with
           | Some u => Some {| op_trigger := Manual; op_auth := TempCode; op_closes_at := Some u |}
           | None =>
               match boot && c, offline with
               | true, _ => Some {| op_trigger := Boot; op_auth := Password; op_closes_at := if negb offline then Some BOOT_SECONDS else None |}
               | false, true => Some {| op_trigger := Offline; op_auth := Password; op_closes_at := None |}
               | false, false => None
               end
           end.
Proof.
  exists (negb (wd_boot_closed (after c l)) && (now <? BOOT_SECONDS)).
  exists (auto && match wd_lost_since (after c l) with Some since => wrap64 (since + OFFLINE_DELAY) <=? now | None => false end).
  exists (until ← wd_manual_until (after c l); if now <? until then Some until else None).
  assert (Hu : ∀ u, (until ← wd_manual_until (after c l); if now <? until then Some until else None) = Some u ↔ manual_until l u ∧ now < u).
  { intros u. rewrite <-(after_manual c). destruct (wd_manual_until (after c l)) as [v|]; cbn; [|naive_solver].
    destruct (Z.ltb_spec now v); split; [intros [= ->]; done|intros [[= ->] _]; done|done|intros [[= ->] ?]; lia]. }
  split; [rewrite andb_true_iff, Z.ltb_lt, <-(after_closed c); destruct (wd_boot_closed (after c l)); naive_solver|]. split; [|split; [exact Hu|]].
  - rewrite andb_true_iff. destruct (wd_lost_since (after c l)) as [s|] eqn:Es.
    + assert (Hg : ∀ v, gone_since l v ↔ v = s) by (intros v; rewrite <-(after_gone c), Es; naive_solver). rewrite Z.leb_le. setoid_rewrite Hg. naive_solver.
    + assert (Hg : ∀ v, ¬ gone_since l v) by (intros v; by rewrite <-(after_gone c), Es). naive_solver.
  - split; [intros u H; by apply Hu in H as [_ ?]|]. intros claimed. unfold current. by rewrite after_claimed.
Qed.
(** Whatever a boot's history of routes, manual windows and finished
    sessions, the window open is the one of the protocol's table: a claimed
    device's manual window first, then its boot window, then, when it is
    allowed, the one for a route gone two minutes; an unclaimed device's only
    in the first ten minutes of a boot it began unclaimed, before any finish. *)
Theorem window_exact c l now claimed auto o :
  current now claimed auto (after c l) = Some o ↔
  let boot := ¬ finished l ∧ now < BOOT_SECONDS in
  let offline := auto = true ∧ ∃ since, gone_since l since ∧ wrap64 (since + OFFLINE_DELAY) ≤ now in
  let manual := ∃ until, manual_until l until ∧ now < until in
  if claimed then
    (∃ until, manual_until l until ∧ now < until ∧ o = {| op_trigger := Manual; op_auth := TempCode; op_closes_at := Some until |})
    ∨ (¬ manual ∧ boot ∧ c = true ∧ op_trigger o = Boot ∧ op_auth o = Password
       ∧ (offline ∧ op_closes_at o = None ∨ ¬ offline ∧ op_closes_at o = Some BOOT_SECONDS))
    ∨ (¬ manual ∧ ¬ (boot ∧ c = true) ∧ offline ∧ o = {| op_trigger := Offline; op_auth := Password; op_closes_at := None |})
  else boot ∧ c = false ∧ o = {| op_trigger := Unclaimed; op_auth := NoAuth; op_closes_at := Some BOOT_SECONDS |}.
Proof.
  cbv zeta. set (P := ¬ finished l ∧ now < BOOT_SECONDS). set (Q := auto = true ∧ ∃ since, gone_since l since ∧ wrap64 (since + OFFLINE_DELAY) ≤ now).
  destruct (current_reads c l now auto) as (boot & offline & until & Hb & Ho & Hm & Hu & E). rewrite E. clear E. fold P in Hb. fold Q in Ho.
  assert (Hman : (∃ u, manual_until l u ∧ now < u) ↔ is_Some until) by (split; [intros (u & H1 & H2); exists u; by apply Hm|intros [u ->]; exists u; by apply Hm]).
  destruct claimed; cbn [negb].
  - destruct until as [u|].
    + split; [intros [= <-]; left; exists u; by destruct (proj1 (Hm u) eq_refl)|].
      intros [(u' & H1 & H2 & ->)|[(H & _)|(H & _)]]; [|by destruct H; apply Hman; eexists..]. assert (E : Some u = Some u') by (by apply Hm). by injection E as ->.
    + assert (Hno : ¬ ∃ u, manual_until l u ∧ now < u) by (intros H; apply Hman in H as [u H]; done).
      assert (Hnone : ∀ o, ¬ ∃ u, manual_until l u ∧ now < u ∧ o = {| op_trigger := Manual; op_auth := TempCode; op_closes_at := Some u |}) by (intros o' (u & H1 & H2 & _); apply Hno; eauto).
      destruct o as [tr au cl]. cbn [op_trigger op_auth op_closes_at]. specialize (Hnone {| op_trigger := tr; op_auth := au; op_closes_at := cl |}).
      destruct boot, c, offline; cbn [andb negb]; (split; [intros [= <- <- <-]; right|intros [H|[H|H]]; [by destruct Hnone|..]]); naive_solver.
  - destruct boot, c; cbn [andb negb]; naive_solver.
Qed.
(** * The lockout *)

Definition MAX_FAILURES : Z := 5.
Definition LOCKOUTS : list Z := [10 * 60; 60 * 60; 24 * 60 * 60].

Record Lockout := { lk_failures : Z; lk_level : Z; lk_locked_until : option Z }.
Definition no_lockout : Lockout := {| lk_failures := 0; lk_level := 0; lk_locked_until := None |}.
#[global] Instance Lockout_eq_dec : EqDecision Lockout.
Proof. solve_decision. Defined.
Definition remaining (now : Z) (l : Lockout) : option Z :=
  until ← lk_locked_until l; if now <? until then Some (until - now) else None.
Definition attempts_left (l : Lockout) : Z := Z.max 0 (MAX_FAILURES - lk_failures l).
Definition U32_MAX : Z := 4294967295.
(** A failure counted at [now]; the count is a wrapping [u32]. *)
Definition charge (now : Z) (l : Lockout) : Lockout :=
  let failures := (lk_failures l + 1) mod 4294967296 in
  if MAX_FAILURES <=? failures then
    {| lk_failures := 0; lk_level := Z.min (lk_level l + 1) U32_MAX;
       lk_locked_until := Some (wrap64 (now + default 0 (LOCKOUTS !! Z.to_nat (Z.min (lk_level l) (len LOCKOUTS - 1))))) |}
  else {| lk_failures := failures; lk_level := lk_level l; lk_locked_until := lk_locked_until l |}.
Definition succeed (before l : Lockout) : Lockout := {| lk_failures := 0; lk_level := lk_level before; lk_locked_until := lk_locked_until before |}.

(** ** A lock's times *)

Definition lockout_ok (l : Lockout) : Prop := 0 ≤ lk_failures l < MAX_FAILURES ∧ 0 ≤ lk_level l.
Lemma no_lockout_ok : lockout_ok no_lockout.
Proof. by vm_compute. Qed.
Lemma succeed_ok before l : lockout_ok before → lockout_ok (succeed before l).
Proof. intros [_ H]. split; [by vm_compute|exact H]. Qed.
(** Either the count goes up by one, or the fifth failure locks for the level's
    time, at least ten minutes, and a day from the third lockout on. *)
Lemma charge_cases now l : lockout_ok l → 0 ≤ now → now + 86400 ≤ U64_MAX →
  (lk_failures l < 4 ∧ charge now l = {| lk_failures := lk_failures l + 1; lk_level := lk_level l; lk_locked_until := lk_locked_until l |})
  ∨ (lk_failures l = 4 ∧ ∃ d, 600 ≤ d ∧ (1 ≤ lk_level l → 3600 ≤ d) ∧ (2 ≤ lk_level l → d = 86400)
      ∧ charge now l = {| lk_failures := 0; lk_level := Z.min (lk_level l + 1) U32_MAX; lk_locked_until := Some (now + d) |}).
Proof.
  intros [[Hf0 Hf] Hl] H0 Hn. unfold charge, MAX_FAILURES in *. rewrite Z.mod_small by lia. cbv zeta.
  assert (Hw : ∀ d, 0 ≤ d ≤ 86400 → wrap64 (now + d) = now + d) by (intros d Hd; unfold wrap64; apply Z.mod_small; unfold U64_MAX in Hn; lia).
  destruct (Z.leb_spec 5 (lk_failures l + 1)).
  - right. split; [lia|]. change (len LOCKOUTS - 1) with 2.
    assert (Hc : lk_level l = 0 ∨ lk_level l = 1 ∨ 2 ≤ lk_level l) by lia. destruct Hc as [E|[E|E]].
    + rewrite E. exists 600. change (LOCKOUTS !! Z.to_nat (Z.min 0 2)) with (Some 600). cbn [default]; unfold id. rewrite Hw by lia. split; [lia|]. split; [lia|]. split; [lia|done].
    + rewrite E. exists 3600. change (LOCKOUTS !! Z.to_nat (Z.min 1 2)) with (Some 3600). cbn [default]; unfold id. rewrite Hw by lia. split; [lia|]. split; [lia|]. split; [lia|done].
    + rewrite (Z.min_r (lk_level l) 2) by lia. exists 86400. change (LOCKOUTS !! Z.to_nat 2) with (Some 86400). cbn [default]; unfold id. rewrite Hw by lia. split; [lia|]. split; [lia|]. split; [lia|done].
  - left. split; [lia|done].
Qed.
Lemma charge_ok now l : lockout_ok l → 0 ≤ now → now + 86400 ≤ U64_MAX → lockout_ok (charge now l).
Proof.
  intros Hl H0 Hn. destruct (charge_cases now l Hl H0 Hn) as [(Hf & ->)|(Hf & d & _ & _ & _ & ->)]; destruct Hl as [[H1 H2] H3]; split; cbn; unfold MAX_FAILURES, U32_MAX in *; lia.
Qed.

(** * The verifier *)

(** The record of the password the device keeps, by the password it is of; a
    maker is on its way with a password and the generation it was made for. *)
Record Verifiers := { vf_stored : option string; vf_generation : Z; vf_makers : list (string * Z) }.
Inductive stored_read := ReadFailed | Read (o : option string).

(** Removing the old record can fail, and reading it. *)
Definition password_set (password : string) (removed : bool) (v : Verifiers) : Verifiers :=
  if removed then
    let generation := wrap64 (vf_generation v + 1) in
    {| vf_stored := None; vf_generation := generation; vf_makers := vf_makers v ++ [(password, generation)] |}
  else v.
Definition logged_in (password : string) (readable : bool) (v : Verifiers) : Verifiers :=
  if readable && bool_decide (vf_stored v = None)
  then {| vf_stored := vf_stored v; vf_generation := vf_generation v; vf_makers := vf_makers v ++ [(password, vf_generation v)] |} else v.
(** The [k]th maker ends: its record is made and written, or not. *)
Definition made (k : nat) (written : bool) (v : Verifiers) : Verifiers :=
  match vf_makers v !! k with
  | None => v
  | Some (password, generation) =>
      {| vf_stored := if written && (vf_generation v =? generation) then Some password else vf_stored v;
         vf_generation := vf_generation v; vf_makers := delete k (vf_makers v) |}
  end.

Inductive call := PasswordSet (password : string) (removed : bool) | LoggedIn (password : string) (readable : bool) | Made (k : nat) (written : bool).
Definition call_step (c : call) (v : Verifiers) : Verifiers :=
  match c with
  | PasswordSet password removed => password_set password removed v
  | LoggedIn password readable => logged_in password readable v
  | Made k written => made k written v
  end.
Definition new_verifiers : Verifiers := {| vf_stored := None; vf_generation := 0; vf_makers := [] |}.
Definition calls (l : list call) : Verifiers := foldl (λ v c, call_step c v) new_verifiers l.

(** The password last set, and those told at a login since. *)
Fixpoint since_set (l : list call) (told : list string) : list string :=
  match l with
  | [] => told
  | PasswordSet password true :: rest => since_set rest [password]
  | PasswordSet _ false :: rest | Made _ _ :: rest => since_set rest told
  | LoggedIn password _ :: rest => since_set rest (told ++ [password])
  end.
Definition is_set (c : call) : bool := match c with PasswordSet _ true => true | _ => false end.
Definition set_count (l : list call) : Z := len (List.filter is_set l).

Record told_ok (told : list string) (n : Z) (v : Verifiers) : Prop := {
  told_stored : ∀ p, vf_stored v = Some p → p ∈ told;
  told_makers : ∀ p g, (p, g) ∈ vf_makers v → g ≤ vf_generation v ∧ (g = vf_generation v → p ∈ told);
  told_count : vf_generation v = n;
}.
Lemma since_set_snoc l c told : since_set (l ++ [c]) told =
  match c with PasswordSet p true => [p] | PasswordSet _ false | Made _ _ => since_set l told | LoggedIn p _ => since_set l told ++ [p] end.
Proof. revert told. induction l as [|[p [|]|p r|k w] l IH]; intros told; cbn; try apply IH. by destruct c as [p [|]|p r|k w]. Qed.
Lemma set_count_snoc l c : set_count (l ++ [c]) = set_count l + match c with PasswordSet _ true => 1 | _ => 0 end.
Proof. unfold set_count. rewrite List.filter_app, len_app. by destruct c as [p [|]|p r|k w]. Qed.
(** C24: the verifier BLE provisioning accepts is of the password last set, or
    of one that a login told of since, however the makers of verifiers, which
    take seconds, overtake each other. *)
Theorem verifier_follows_password l p (Hn : set_count l ≤ U64_MAX) : vf_stored (calls l) = Some p → p ∈ since_set l [].
Proof.
  assert (H : told_ok (since_set l []) (set_count l) (calls l)); [|apply H].
  induction l as [|c l IH] using rev_ind.
  - split; [done| |done]. intros q g H. by apply elem_of_nil in H.
  - rewrite set_count_snoc in Hn. rewrite since_set_snoc, set_count_snoc. unfold calls. rewrite foldl_app. cbn [foldl]. fold (calls l).
    assert (Hpos : 0 ≤ set_count l) by apply len_nonneg.
    destruct IH as [H1 H2 H3]; [destruct c as [q [|]|q r|k w]; lia|]. destruct c as [q [|]|q r|k w]; cbn [call_step].
    + unfold password_set. assert (E : wrap64 (vf_generation (calls l) + 1) = set_count l + 1) by (rewrite H3; apply Z.mod_small; unfold U64_MAX in Hn; lia).
      split; cbn; [done| |exact E]. intros r g Hin. apply elem_of_app in Hin as [Hin|Hin].
      * destruct (H2 r g Hin). split; [lia|]. intros Eg. lia.
      * apply list_elem_of_singleton in Hin as [= -> ->]. split; [lia|]. intros _. by left.
    + rewrite Z.add_0_r. by split.
    + unfold logged_in. rewrite Z.add_0_r. assert (Hsub : ∀ x, x ∈ since_set l [] → x ∈ since_set l [] ++ [q]) by (intros x Hx; apply elem_of_app; by left).
      destruct (r && _).
      * split; cbn; [intros x Hx; by apply Hsub, H1| |exact H3]. intros x g Hin. apply elem_of_app in Hin as [Hin|Hin].
        { destruct (H2 x g Hin). split; [done|]. intros Eg. by apply Hsub; auto. }
        apply list_elem_of_singleton in Hin as [= -> ->]. split; [lia|]. intros _. apply elem_of_app. right. by left.
      * split; [intros x Hx; by apply Hsub, H1| |exact H3]. intros x g Hin. destruct (H2 x g Hin). split; [done|]. intros Eg. by apply Hsub; auto.
    + unfold made. rewrite Z.add_0_r. destruct (vf_makers (calls l) !! k) as [[q g]|] eqn:Ek; [|by split]. split; cbn; [| |exact H3].
      * intros x. destruct (w && _) eqn:E; [|apply H1]. intros [= <-]. apply andb_true_iff in E as [_ E]. apply Z.eqb_eq in E.
        apply (H2 q g); [by eapply list_elem_of_lookup_2|done].
      * intros x h Hin. apply H2. rewrite delete_take_drop in Hin. apply elem_of_app in Hin as [Hin|Hin]; apply list_elem_of_lookup_1 in Hin as [i Hi].
        { apply lookup_take_Some in Hi as [Hi _]. by eapply list_elem_of_lookup_2. }
        rewrite lookup_drop in Hi. by eapply list_elem_of_lookup_2.
Qed.
Lemma verifier_follows_password_witness :
  let l := [PasswordSet "one" true; PasswordSet "two" true; Made 0 true; Made 0 true] in
  set_count l ≤ U64_MAX ∧ vf_stored (calls l) = Some "two" ∧ "two" ∈ since_set l [].
Proof. split; [by vm_compute|]. split; [by vm_compute|]. apply verifier_follows_password; by vm_compute. Defined.

(** A login told late: its password was replaced meanwhile, and the new one's
    verifier is still being made. The old password's record can be written
    last, and stays. *)
Example stale_login_restores_verifier :
  vf_stored (calls [PasswordSet "old" true; Made 0 true; PasswordSet "new" true; LoggedIn "old" true; Made 0 true; Made 0 true]) = Some "old".
Proof. by vm_compute. Qed.

End BleWindow.
