(* ===== verification/BleEngine.v ===== *)
(** The BLE provisioning engine
    ([src/crates/micad/src/ble_provisioning/engine.rs]): one task that owns the
    windows, the connection, the session protocol and what a session changed.
    Handling an input is a function of the engine and of the moment it is
    handled at; what it does to the world is a list of effects in their order.
    The operations it spawns run beside it and come back as inputs. *)
From Stdlib Require Import Ascii.
From S2P Require Import Prelude Text Maps DotPath SettingsModel SettingsRules BleChannel Spake BleWindow.
Import DotPath(value(..), as_object, obj, member).
Import BleChannel(Reassembly, new_reassembly, push, fragments, Primitives, Records, new_records, seal, open, session_keys, none_exchange,
  SessionKeys, sk_phone_to_device, sk_device_to_phone, MIN_FRAGMENT, MAX_FRAGMENT, clamp).
Import Spake(P256, Hashes, Registered, rg_salt, rg_iterations, Transcript, Build_Transcript, Keys, ky_confirm_p, ky_confirm_v, ky_shared, Answer, an_share_v, an_keys, answer_with).
Import BleWindow(Auth(..), Trigger(..), auth_text, trigger_text, Windows, new_windows, wd_claimed_at_boot, Open, op_trigger, op_auth, op_closes_at, route, open_manual, close_manual,
  current, Lockout, no_lockout, remaining, charge, succeed, attempts_left, lk_failures, lk_level, lk_locked_until, LOCKOUTS, U32_MAX, lockout_ok, charge_ok, charge_cases).

Module BleEngine.

Definition IDLE_SECONDS : Z := 120.
Definition RECONNECT_SECONDS : Z := 120.
Definition PROTOCOL : Z := 1.
Definition OPS : list string := ["getStatus"; "scanWifi"; "setWifi"; "setNetwork"; "finish"].
Definition DEFAULT_MTU : Z := 23.
Definition HISTORY_LEN : Z := 10.
Definition ID_PROVER : bytes := str_bytes "mica-provisioning phone".
Definition ID_VERIFIER : bytes := str_bytes "mica-provisioning device".
Definition CONTEXT_PASSWORD : bytes := str_bytes "mica-provisioning/1 password".
Definition CONTEXT_TEMP_CODE : bytes := str_bytes "mica-provisioning/1 temp-code".

(** [serde_json]'s text and parser, and base64 with padding. *)
Class BleCodec := {
  json_text : value → bytes; json_of : bytes → option value;
  base64 : bytes → string; base64_decode : string → option bytes;
}.

(** * Data *)

Inductive Notify := NotifySession | NotifyEvent.
Inductive Written := WriteSession | WriteCommand.
Inductive Refused := Busy | Closed.
Record Facts := {
  fa_claimed : bool; fa_hostname : string; fa_model : string; fa_auto_when_offline : bool; fa_has_wifi : bool;
  fa_web : SettingsModel.WebSettings;
}.
Inductive Reached := ReachedWifi | ReachedWired (name : string).
(** A session ended: when, its trigger and how. *)
Record Entry := { hs_at : Z; hs_trigger : string; hs_outcome : string }.
(** What the store keeps; the verifier's file can be unreadable. *)
Record Store := { sr_verifier : result (option Registered); sr_lockout : Lockout; sr_history : list Entry }.

Inductive Input :=
| Read (device : string) (mtu : option Z)
| Write (device : string) (mtu : option Z) (characteristic : Written) (value : bytes)
| Disconnected (device : string)
| Route (present : bool)
| ClaimedElsewhere
| OpenManual (seconds : Z) (code : string) (record : Registered)
| CloseManual
| Status
| Tick
| WifiSaved (serial : Z) (ssid : string) (added : bool)
| NetworkSaved (serial : Z) (interface : string) (previous : value)
| Pushed (serial : Z) (event : value)
| Done (serial : Z) (id : value) (op : string) (event : value).

(** The operations it spawns. *)
Inductive Op :=
| OpStatus
| OpScan (rescan : bool)
| OpWifi (ssid psk : string) (hidden : bool) (hostname : string)
| OpNetwork (interface : string) (entry : value)
| OpFinish (reached : option Reached).
Inductive Effect :=
| Advertise (name : option string)
| HoldRadio (on : bool)
| Notified (characteristic : Notify) (fragment : bytes)
| Disconnect (device : string)
| Audit (event outcome : string)
| Warm
| PushStatus (serial : Z)
| Spawn (serial : Z) (id : value) (op : Op)
| RestoreWifi (snapshot : value) (remove : list string)
| RestoreNetwork (previous : list (string * value))
| ReplyRead (answer : Refused + bytes)
| ReplyWrite (answer : Refused + unit)
| ReplyOpen (answer : string + unit)
| ReplyClosed
| ReplyStatus (status : value).

Section data.
Context `{PR : Primitives}.

Inductive Phase :=
| Idle
| Params (auth : Auth) (record : Registered)
| Confirm (auth : Auth) (answer : Answer) (before : Lockout)
| Ready (auth : Auth) (from_phone to_phone : Records).
Record Connection := {
  cn_serial : Z; cn_device : string; cn_mtu : Z; cn_trigger : Trigger; cn_auth : Auth;
  cn_session_in : Reassembly; cn_command_in : Reassembly; cn_phase : Phase; cn_op : option string;
  cn_last_active : Z; cn_finished : bool; cn_failed : bool; cn_push_status : bool; cn_reached : option Reached;
}.
Record Hold := {
  hd_snapshot : option value; hd_added : list string; hd_connected : bool; hd_replaced : list (string * value);
  hd_unclaimed : bool; hd_away_since : option Z;
}.
Record Engine := {
  en_store : Store; en_windows : Windows; en_temp_code : option (string * Registered); en_advertised : option string;
  en_holding : bool; en_connection : option Connection; en_hold : option Hold; en_serial : Z; en_done : bool;
  en_facts : Facts; en_wifi_locked : bool;
}.
Definition new_engine (store : Store) (facts : Facts) (wifi_locked : bool) : Engine :=
  {| en_store := store; en_windows := new_windows (fa_claimed facts); en_temp_code := None; en_advertised := None; en_holding := false;
     en_connection := None; en_hold := None; en_serial := 0; en_done := false; en_facts := facts; en_wifi_locked := wifi_locked |}.

Definition with_store (x : Store) (e : Engine) : Engine :=
  {| en_store := x; en_windows := en_windows e; en_temp_code := en_temp_code e; en_advertised := en_advertised e; en_holding := en_holding e;
     en_connection := en_connection e; en_hold := en_hold e; en_serial := en_serial e; en_done := en_done e; en_facts := en_facts e; en_wifi_locked := en_wifi_locked e |}.
Definition with_windows (x : Windows) (e : Engine) : Engine :=
  {| en_store := en_store e; en_windows := x; en_temp_code := en_temp_code e; en_advertised := en_advertised e; en_holding := en_holding e;
     en_connection := en_connection e; en_hold := en_hold e; en_serial := en_serial e; en_done := en_done e; en_facts := en_facts e; en_wifi_locked := en_wifi_locked e |}.
Definition with_temp_code (x : option (string * Registered)) (e : Engine) : Engine :=
  {| en_store := en_store e; en_windows := en_windows e; en_temp_code := x; en_advertised := en_advertised e; en_holding := en_holding e;
     en_connection := en_connection e; en_hold := en_hold e; en_serial := en_serial e; en_done := en_done e; en_facts := en_facts e; en_wifi_locked := en_wifi_locked e |}.
Definition with_radio (advertised : option string) (holding wifi_locked : bool) (e : Engine) : Engine :=
  {| en_store := en_store e; en_windows := en_windows e; en_temp_code := en_temp_code e; en_advertised := advertised; en_holding := holding;
     en_connection := en_connection e; en_hold := en_hold e; en_serial := en_serial e; en_done := en_done e; en_facts := en_facts e; en_wifi_locked := wifi_locked |}.
Definition with_connection (x : option Connection) (e : Engine) : Engine :=
  {| en_store := en_store e; en_windows := en_windows e; en_temp_code := en_temp_code e; en_advertised := en_advertised e; en_holding := en_holding e;
     en_connection := x; en_hold := en_hold e; en_serial := en_serial e; en_done := en_done e; en_facts := en_facts e; en_wifi_locked := en_wifi_locked e |}.
Definition with_hold (x : option Hold) (e : Engine) : Engine :=
  {| en_store := en_store e; en_windows := en_windows e; en_temp_code := en_temp_code e; en_advertised := en_advertised e; en_holding := en_holding e;
     en_connection := en_connection e; en_hold := x; en_serial := en_serial e; en_done := en_done e; en_facts := en_facts e; en_wifi_locked := en_wifi_locked e |}.
Definition with_serial (x : Z) (e : Engine) : Engine :=
  {| en_store := en_store e; en_windows := en_windows e; en_temp_code := en_temp_code e; en_advertised := en_advertised e; en_holding := en_holding e;
     en_connection := en_connection e; en_hold := en_hold e; en_serial := x; en_done := en_done e; en_facts := en_facts e; en_wifi_locked := en_wifi_locked e |}.
Definition with_done (x : bool) (e : Engine) : Engine :=
  {| en_store := en_store e; en_windows := en_windows e; en_temp_code := en_temp_code e; en_advertised := en_advertised e; en_holding := en_holding e;
     en_connection := en_connection e; en_hold := en_hold e; en_serial := en_serial e; en_done := x; en_facts := en_facts e; en_wifi_locked := en_wifi_locked e |}.
Definition with_facts (x : Facts) (e : Engine) : Engine :=
  {| en_store := en_store e; en_windows := en_windows e; en_temp_code := en_temp_code e; en_advertised := en_advertised e; en_holding := en_holding e;
     en_connection := en_connection e; en_hold := en_hold e; en_serial := en_serial e; en_done := en_done e; en_facts := x; en_wifi_locked := en_wifi_locked e |}.

Definition set_phase (x : Phase) (c : Connection) : Connection :=
  {| cn_serial := cn_serial c; cn_device := cn_device c; cn_mtu := cn_mtu c; cn_trigger := cn_trigger c; cn_auth := cn_auth c;
     cn_session_in := cn_session_in c; cn_command_in := cn_command_in c; cn_phase := x; cn_op := cn_op c;
     cn_last_active := cn_last_active c; cn_finished := cn_finished c; cn_failed := cn_failed c; cn_push_status := cn_push_status c; cn_reached := cn_reached c |}.
(** The phase, and the window it was entered in. *)
Definition set_window (auth : Auth) (trigger : Trigger) (c : Connection) : Connection :=
  {| cn_serial := cn_serial c; cn_device := cn_device c; cn_mtu := cn_mtu c; cn_trigger := trigger; cn_auth := auth;
     cn_session_in := cn_session_in c; cn_command_in := cn_command_in c; cn_phase := cn_phase c; cn_op := cn_op c;
     cn_last_active := cn_last_active c; cn_finished := cn_finished c; cn_failed := cn_failed c; cn_push_status := cn_push_status c; cn_reached := cn_reached c |}.
Definition set_mtu (x : Z) (c : Connection) : Connection :=
  {| cn_serial := cn_serial c; cn_device := cn_device c; cn_mtu := x; cn_trigger := cn_trigger c; cn_auth := cn_auth c;
     cn_session_in := cn_session_in c; cn_command_in := cn_command_in c; cn_phase := cn_phase c; cn_op := cn_op c;
     cn_last_active := cn_last_active c; cn_finished := cn_finished c; cn_failed := cn_failed c; cn_push_status := cn_push_status c; cn_reached := cn_reached c |}.
Definition set_in (session command : Reassembly) (c : Connection) : Connection :=
  {| cn_serial := cn_serial c; cn_device := cn_device c; cn_mtu := cn_mtu c; cn_trigger := cn_trigger c; cn_auth := cn_auth c;
     cn_session_in := session; cn_command_in := command; cn_phase := cn_phase c; cn_op := cn_op c;
     cn_last_active := cn_last_active c; cn_finished := cn_finished c; cn_failed := cn_failed c; cn_push_status := cn_push_status c; cn_reached := cn_reached c |}.
Definition set_op (x : option string) (c : Connection) : Connection :=
  {| cn_serial := cn_serial c; cn_device := cn_device c; cn_mtu := cn_mtu c; cn_trigger := cn_trigger c; cn_auth := cn_auth c;
     cn_session_in := cn_session_in c; cn_command_in := cn_command_in c; cn_phase := cn_phase c; cn_op := x;
     cn_last_active := cn_last_active c; cn_finished := cn_finished c; cn_failed := cn_failed c; cn_push_status := cn_push_status c; cn_reached := cn_reached c |}.
Definition set_active (x : Z) (c : Connection) : Connection :=
  {| cn_serial := cn_serial c; cn_device := cn_device c; cn_mtu := cn_mtu c; cn_trigger := cn_trigger c; cn_auth := cn_auth c;
     cn_session_in := cn_session_in c; cn_command_in := cn_command_in c; cn_phase := cn_phase c; cn_op := cn_op c;
     cn_last_active := x; cn_finished := cn_finished c; cn_failed := cn_failed c; cn_push_status := cn_push_status c; cn_reached := cn_reached c |}.
Definition set_ended (finished failed : bool) (c : Connection) : Connection :=
  {| cn_serial := cn_serial c; cn_device := cn_device c; cn_mtu := cn_mtu c; cn_trigger := cn_trigger c; cn_auth := cn_auth c;
     cn_session_in := cn_session_in c; cn_command_in := cn_command_in c; cn_phase := cn_phase c; cn_op := cn_op c;
     cn_last_active := cn_last_active c; cn_finished := finished; cn_failed := failed; cn_push_status := cn_push_status c; cn_reached := cn_reached c |}.
Definition set_push (x : bool) (c : Connection) : Connection :=
  {| cn_serial := cn_serial c; cn_device := cn_device c; cn_mtu := cn_mtu c; cn_trigger := cn_trigger c; cn_auth := cn_auth c;
     cn_session_in := cn_session_in c; cn_command_in := cn_command_in c; cn_phase := cn_phase c; cn_op := cn_op c;
     cn_last_active := cn_last_active c; cn_finished := cn_finished c; cn_failed := cn_failed c; cn_push_status := x; cn_reached := cn_reached c |}.
Definition set_reached (x : option Reached) (c : Connection) : Connection :=
  {| cn_serial := cn_serial c; cn_device := cn_device c; cn_mtu := cn_mtu c; cn_trigger := cn_trigger c; cn_auth := cn_auth c;
     cn_session_in := cn_session_in c; cn_command_in := cn_command_in c; cn_phase := cn_phase c; cn_op := cn_op c;
     cn_last_active := cn_last_active c; cn_finished := cn_finished c; cn_failed := cn_failed c; cn_push_status := cn_push_status c; cn_reached := x |}.
End data.

(** * Running *)

(** The instant an input is handled at: the clocks, what the device answers
    meanwhile and when the engine settles, the random scalar and X25519 key
    drawn, and whether the store's files are written. *)
Record Moment := {
  mo_uptime : Z; mo_unix : Z; mo_facts : Facts; mo_settled : Facts; mo_snapshot : value;
  mo_scalar : option Z; mo_private : option bytes; mo_lockout_written : bool; mo_history_written : bool;
}.

Definition is_integer (v : value) : bool :=
  match v with
  | Number text =>
      match strip_prefix "-" text with
      | Some digits => match parse_uint 9223372036854775808 digits with Some n => 0 <? n | None => false end
      | None => bool_decide (is_Some (parse_u64 text))
      end
  | _ => false
  end.
Definition as_str (v : value) : option string := match v with Str t => Some t | _ => None end.
Definition is_true (v : value) : bool := match v with Bool true => true | _ => false end.
Definition set_member (key : string) (x : value) (v : value) : value := match v with Object m => Object (smap_insert key x m) | _ => v end.
Definition has_verifier (st : Store) : bool := match sr_verifier st with Ok (Some _) => true | _ => false end.
Definition same_auth (a b : Auth) : bool := bool_decide (a = b).

Section run.
Context `{PR : Primitives}.
Definition Run (A : Type) := Engine → A * Engine * list Effect.
Definition ret {A} (a : A) : Run A := λ e, (a, e, []).
Definition bind {A B} (x : Run A) (k : A → Run B) : Run B :=
  λ e, let '(a, e, l) := x e in let '(b, e, l') := k a e in (b, e, l ++ l').
End run.
Notation "'let*' x ':=' c 'in' k" := (bind c (fun x => k)) (at level 200, x pattern, c at level 100, k at level 200).

Section engine.
Context `{PR : Primitives} `{PC : P256} `{HS : Hashes} `{BC : BleCodec}.
Variable m : Moment.

Definition get : Run Engine := λ e, (e, e, []).
Definition modify (f : Engine → Engine) : Run unit := λ e, (tt, f e, []).
Definition emit (l : list Effect) : Run unit := λ e, (tt, e, l).
(** The connection, where there is one. *)
Definition update (f : Connection → Connection) : Run unit := modify (λ e, with_connection (f <$> en_connection e) e).
Definition with_conn (k : Connection → Run unit) : Run unit := let* e := get in match en_connection e with Some c => k c | None => ret tt end.

Definition window (e : Engine) : option Open :=
  current (mo_uptime m) (fa_claimed (en_facts e)) (fa_auto_when_offline (en_facts e)) (en_windows e).
Definition locked_for (e : Engine) : option Z := remaining (mo_unix m) (sr_lockout (en_store e)).
Definition auth_name (auth : Auth) (e : Engine) : string :=
  if same_auth auth Password && negb (has_verifier (en_store e)) then "password-unavailable" else auth_text auth.
Definition current_serial (e : Engine) : option Z := cn_serial <$> en_connection e.
Definition binary (v : value) : option bytes := text ← as_str v; base64_decode text.
Definition put_store (f : Store → Store) : Run unit := modify (λ e, with_store (f (en_store e)) e).
Definition set_lockout (l : Lockout) : Run bool :=
  if mo_lockout_written m
  then let* _ := put_store (λ st, {| sr_verifier := sr_verifier st; sr_lockout := l; sr_history := sr_history st |}) in ret true
  else ret false.
Definition push_history (x : Entry) : Run unit :=
  if mo_history_written m
  then put_store (λ st,
         let history := sr_history st ++ [x] in
         {| sr_verifier := sr_verifier st; sr_lockout := sr_lockout st; sr_history := drop (Z.to_nat (len history - HISTORY_LEN)) history |})
  else ret tt.

Definition info (e : Engine) : bytes :=
  let '(auth, mtu) := match en_connection e with Some c => (cn_auth c, cn_mtu c) | None => (NoAuth, DEFAULT_MTU) end in
  json_text (obj [("protocol", Number (to_dec PROTOCOL)); ("model", Str (fa_model (en_facts e))); ("hostname", Str (fa_hostname (en_facts e)));
    ("claimed", Bool (fa_claimed (en_facts e))); ("auth", Str (auth_name auth e)); ("ops", Array (map Str OPS));
    ("maxWrite", Number (to_dec (clamp MIN_FRAGMENT MAX_FRAGMENT (Z.max 0 (mtu - 3)))))]).

(** ** The link *)

Definition send (characteristic : Notify) (message : bytes) : Run unit :=
  let* e := get in
  let mtu := match en_connection e with Some c => cn_mtu c | None => DEFAULT_MTU end in
  emit (map (Notified characteristic) (fragments message (Z.max 0 (mtu - 3)))).
Definition send_session (message : value) : Run unit := send NotifySession (json_text message).
Definition session_error (reason : string) : Run unit := send_session (obj [("t", Str "error"); ("reason", Str reason)]).

Definition abandon_exchange : Run unit :=
  with_conn (λ c, match cn_phase c with
                  | Confirm _ _ _ => let* _ := update (λ c, set_ended (cn_finished c) true (set_phase Idle c)) in emit [Audit "ble-auth" "failed"]
                  | _ => ret tt
                  end).
Definition session_outcome (c : Connection) (hold : option Hold) : string :=
  if cn_finished c then "finished"
  else if match hold with Some h => hd_connected h | None => false end then "wifi-connected"
  else if cn_failed c && match cn_phase c with Ready _ _ _ => false | _ => true end then "auth-failed"
  else "abandoned".
Definition set_away (since : option Z) (h : Hold) : Hold :=
  {| hd_snapshot := hd_snapshot h; hd_added := hd_added h; hd_connected := hd_connected h; hd_replaced := hd_replaced h;
     hd_unclaimed := hd_unclaimed h; hd_away_since := since |}.
Definition end_connection : Run unit :=
  let* _ := abandon_exchange in
  with_conn (λ c,
    let* _ := modify (with_connection None) in
    let* e := get in
    let outcome := session_outcome c (en_hold e) in
    let* _ := push_history {| hs_at := mo_unix m; hs_trigger := trigger_text (cn_trigger c); hs_outcome := outcome |} in
    let* _ := emit [Audit "ble-session" outcome] in
    modify (λ e, with_hold (set_away (Some (mo_uptime m)) <$> en_hold e) e)).
Definition drop_connection : Run unit :=
  let* _ := with_conn (λ c, emit [Disconnect (cn_device c)]) in end_connection.
Definition send_event (event : value) : Run unit :=
  with_conn (λ c, match cn_phase c with
    | Ready auth from_phone to_phone =>
        let '(record, to_phone) := seal (json_text event) to_phone in
        let* _ := update (set_phase (Ready auth from_phone to_phone)) in
        match record with Some record => send NotifyEvent record | None => drop_connection end
    | _ => ret tt
    end).
Definition failed (id : value) (reason : string) : Run unit :=
  send_event (obj [("id", id); ("event", Str "failed"); ("reason", Str reason)]).

Definition admit_phone (device : string) (mtu : option Z) : Run (Refused + unit) :=
  let* e := get in
  match en_connection e with
  | Some c =>
      if negb (bool_decide (cn_device c = device)) then ret (inl Busy)
      else let* _ := match mtu with Some mtu => update (set_mtu mtu) | None => ret tt end in ret (inr tt)
  | None =>
      match window e with
      | None => ret (inl Closed)
      | Some o =>
          let serial := wrap64 (en_serial e + 1) in
          let* _ := modify (λ e, with_connection (Some
            {| cn_serial := serial; cn_device := device; cn_mtu := default DEFAULT_MTU mtu; cn_trigger := op_trigger o; cn_auth := op_auth o;
               cn_session_in := new_reassembly; cn_command_in := new_reassembly; cn_phase := Idle; cn_op := None; cn_last_active := mo_uptime m;
               cn_finished := false; cn_failed := false; cn_push_status := false; cn_reached := None |}) (with_serial serial e)) in
          let* _ := modify (λ e, with_hold (set_away None <$> en_hold e) e) in
          let* _ := if fa_has_wifi (en_facts e) then emit [Warm] else ret tt in
          ret (inr tt)
      end
  end.

(** ** The session *)

Definition ready (message : list (string * value)) : Run unit :=
  with_conn (λ c,
    let push := cn_push_status c in
    let* _ := send_session (obj (message ++ if push then [("status", Bool true)] else [])) in
    if push then emit [PushStatus (cn_serial c)] else ret tt).
Definition start_none (message : value) : Run unit :=
  match binary (member message "pub") with
  | None => session_error "bad_message"
  | Some phone =>
      match (key ← mo_private m; none_exchange key phone) with
      | None => session_error "bad_message"
      | Some (public, keys) =>
          match new_records (sk_phone_to_device keys), new_records (sk_device_to_phone keys) with
          | Some from_phone, Some to_phone =>
              let* _ := update (λ c, set_active (mo_uptime m) (set_phase (Ready NoAuth from_phone to_phone) c)) in
              ready [("t", Str "ready"); ("pub", Str (base64 public))]
          | _, _ => session_error "bad_message"
          end
      end
  end.
Definition start (message : value) : Run unit :=
  let* _ := abandon_exchange in
  let* _ := update (set_push (is_true (member message "status"))) in
  match as_str (member message "auth") with
  | None => session_error "bad_message"
  | Some requested =>
      let* e := get in
      match (o ← window e; if bool_decide (auth_text (op_auth o) = requested) then Some o else None) with
      | None => session_error "unsupported_auth"
      | Some o =>
          let exchange record :=
            match locked_for e with
            | Some retry_after =>
                send_session (obj [("t", Str "error"); ("reason", Str "locked"); ("retryAfter", Number (to_dec retry_after))])
            | None =>
                let* _ := update (λ c, set_phase (Params (op_auth o) record) (set_window (op_auth o) (op_trigger o) c)) in
                send_session (obj [("t", Str "params"); ("salt", Str (base64 (rg_salt record))); ("iterations", Number (to_dec (rg_iterations record)))])
            end in
          match op_auth o with
          | NoAuth => start_none message
          | Password => match sr_verifier (en_store e) with Ok (Some record) => exchange record | _ => session_error "password_unavailable" end
          | TempCode => match en_temp_code e with Some (_, record) => exchange record | None => session_error "unsupported_auth" end
          end
      end
  end.
Definition transcript (auth : Auth) : Transcript :=
  Build_Transcript (if same_auth auth TempCode then CONTEXT_TEMP_CODE else CONTEXT_PASSWORD) ID_PROVER ID_VERIFIER.
Definition share (message : value) : Run unit :=
  with_conn (λ c,
    let* _ := update (set_phase Idle) in
    match cn_phase c with
    | Params auth record =>
        match binary (member message "shareP") with
        | None => session_error "bad_message"
        | Some share_p =>
            match (y ← mo_scalar m; answer_with record (transcript auth) share_p y) with
            | None => session_error "bad_message"
            | Some answer =>
                let* e := get in
                let before := sr_lockout (en_store e) in
                let charged := charge (mo_unix m) before in
                let* written := set_lockout charged in
                if negb written then session_error "bad_message"
                else
                  let* _ := update (set_phase (Confirm auth answer before)) in
                  send_session (obj [("t", Str "share"); ("shareV", Str (base64 (an_share_v answer)));
                    ("confirmV", Str (base64 (ky_confirm_v (an_keys answer)))); ("attemptsLeft", Number (to_dec (attempts_left charged)))])
            end
        end
    | _ => session_error "bad_message"
    end).
Definition confirm (message : value) : Run unit :=
  with_conn (λ c,
    let* _ := update (set_phase Idle) in
    match cn_phase c with
    | Confirm auth answer before =>
        if negb (bool_decide (binary (member message "confirmP") = Some (ky_confirm_p (an_keys answer)))) then
          let* _ := update (λ c, set_ended (cn_finished c) true c) in
          let* _ := emit [Audit "ble-auth" "failed"] in
          let* e := get in
          match locked_for e with
          | Some retry_after =>
              let* _ := modify (λ e, with_temp_code None (with_windows (close_manual (en_windows e)) e)) in
              let* _ := emit [Audit "ble-lockout" "locked"] in
              send_session (obj [("t", Str "error"); ("reason", Str "locked"); ("retryAfter", Number (to_dec retry_after))])
          | None =>
              send_session (obj [("t", Str "error"); ("reason", Str "auth_failed"); ("attemptsLeft", Number (to_dec (attempts_left (sr_lockout (en_store e)))))])
          end
        else
          let* e := get in
          let* _ := set_lockout (succeed before (sr_lockout (en_store e))) in
          match (keys ← session_keys [] (ky_shared (an_keys answer));
                 from_phone ← new_records (sk_phone_to_device keys); to_phone ← new_records (sk_device_to_phone keys); Some (from_phone, to_phone)) with
          | None => session_error "bad_message"
          | Some (from_phone, to_phone) =>
              let* _ := update (λ c, set_active (mo_uptime m) (set_phase (Ready auth from_phone to_phone) c)) in
              let* _ := emit [Audit "ble-auth" "succeeded"] in
              ready [("t", Str "ready")]
          end
    | _ => session_error "bad_message"
    end).
Definition on_session (fragment : bytes) : Run unit :=
  with_conn (λ c,
    let '(outcome, session_in) := push fragment (cn_session_in c) in
    let* _ := update (λ c, set_active (mo_uptime m) (set_in session_in (cn_command_in c) c)) in
    match outcome with
    | Ok None => ret tt
    | Err _ => session_error "bad_message"
    | Ok (Some message) =>
        match json_of message with
        | None => session_error "bad_message"
        | Some message =>
            let t := as_str (member message "t") in
            if bool_decide (t = Some "start") then start message
            else if bool_decide (t = Some "share") then share message
            else if bool_decide (t = Some "confirm") then confirm message
            else session_error "bad_message"
        end
    end).

(** ** Commands *)

Definition session_auth (e : Engine) : option Auth :=
  c ← en_connection e; match cn_phase c with Ready auth _ _ => Some auth | _ => None end.
(** The task's own event comes back as [Done]. *)
Definition spawn_op (id : value) (name : string) (op : Op) : Run unit :=
  with_conn (λ c, let* _ := update (set_op (Some name)) in emit [Spawn (cn_serial c) id op]).
Definition still_unclaimed (e : Engine) : bool := negb (bool_decide (session_auth e = Some NoAuth) && fa_claimed (mo_facts m)).
Definition new_hold (e : Engine) : Hold :=
  {| hd_snapshot := None; hd_added := []; hd_connected := false; hd_replaced := [];
     hd_unclaimed := bool_decide (session_auth e = Some NoAuth); hd_away_since := None |}.
(** The hold, begun if it was not, and changed. *)
Definition on_hold (f : Hold → Hold) : Run unit := modify (λ e, with_hold (Some (f (default (new_hold e) (en_hold e)))) e).
Definition set_snapshot (snapshot : option value) (h : Hold) : Hold :=
  {| hd_snapshot := snapshot; hd_added := hd_added h; hd_connected := hd_connected h; hd_replaced := hd_replaced h;
     hd_unclaimed := hd_unclaimed h; hd_away_since := hd_away_since h |}.
Definition set_replaced (replaced : list (string * value)) (h : Hold) : Hold :=
  {| hd_snapshot := hd_snapshot h; hd_added := hd_added h; hd_connected := hd_connected h; hd_replaced := replaced;
     hd_unclaimed := hd_unclaimed h; hd_away_since := hd_away_since h |}.
Definition add_network (ssid : string) (h : Hold) : Hold :=
  {| hd_snapshot := hd_snapshot h; hd_added := hd_added h ++ [ssid]; hd_connected := hd_connected h; hd_replaced := hd_replaced h;
     hd_unclaimed := hd_unclaimed h; hd_away_since := hd_away_since h |}.
(** What came up leaves the hold. *)
Definition commit (op : string) (event : value) (h : Hold) : Hold :=
  match as_str (member event "event"), as_str (member event "interface") with
  | Some result, interface =>
      if bool_decide (op = "setWifi" ∧ result = "connected") then
        {| hd_snapshot := None; hd_added := []; hd_connected := true; hd_replaced := hd_replaced h;
           hd_unclaimed := hd_unclaimed h; hd_away_since := hd_away_since h |}
      else
        match interface with
        | Some name => if bool_decide (op = "setNetwork" ∧ result = "up") then set_replaced (List.filter (λ r, negb (bool_decide (r.1 = name))) (hd_replaced h)) h else h
        | None => h
        end
  | None, _ => h
  end.
Definition reached_by (op : string) (event : value) (reached : option Reached) : option Reached :=
  match as_str (member event "event"), as_str (member event "interface") with
  | Some result, interface =>
      if bool_decide (op = "setWifi" ∧ result = "connected") then Some ReachedWifi
      else
        match interface with
        | Some name => if bool_decide (op = "setNetwork" ∧ result = "up") then Some (ReachedWired name) else reached
        | None => reached
        end
  | None, _ => reached
  end.

Definition set_wifi (id command : value) : Run unit :=
  match as_str (member command "ssid"), as_str (member command "psk") with
  | Some ssid, Some psk =>
      let hidden := is_true (member command "hidden") in
      let* e := get in
      if negb (still_unclaimed e) then failed id "already_claimed"
      else if is_empty ssid || (32 <? str_len ssid) then failed id "invalid_ssid"
      else if negb (is_empty psk) && negb (is_ok (SettingsRules.validate_wifi_psk psk)) then failed id "invalid_psk"
      else if negb (fa_has_wifi (en_facts e)) then failed id "no_radio"
      else
        let* _ := match h ← en_hold e; hd_snapshot h with
                  | None => on_hold (set_snapshot (Some (mo_snapshot m)))
                  | Some _ => ret tt
                  end in
        let* _ := spawn_op id "setWifi" (OpWifi ssid psk hidden (fa_hostname (en_facts e))) in
        send_event (obj [("id", id); ("event", Str "connecting")])
  | _, _ => failed id "bad_request"
  end.
Definition network_entry (command : value) : option value :=
  match member command "dhcp", member command "static" with
  | Bool true, Null => Some (obj [("dhcp", Bool true)])
  | Null, Object static | Bool false, Object static => Some (obj [("static", Object static)])
  | _, _ => None
  end.
Definition set_network (id command : value) : Run unit :=
  match as_str (member command "interface"), network_entry command with
  | Some interface, Some entry =>
      let* e := get in
      if negb (still_unclaimed e) then failed id "already_claimed"
      else
        let* _ := on_hold (λ h, h) in
        let* _ := spawn_op id "setNetwork" (OpNetwork interface entry) in
        send_event (obj [("id", id); ("event", Str "applying")])
  | _, _ => failed id "bad_request"
  end.
Definition finish (id : value) : Run unit :=
  let* e := get in
  if negb (still_unclaimed e) then failed id "already_claimed"
  else with_conn (λ c, spawn_op id "finish" (OpFinish (cn_reached c))).
Definition run_command (id command : value) : Run unit :=
  match as_str (member command "op") with
  | None => failed id "bad_request"
  | Some op =>
      if bool_decide (op = "getStatus") then spawn_op id "getStatus" OpStatus
      else if bool_decide (op = "scanWifi") then
        match member command "rescan" with
        | Null => spawn_op id "scanWifi" (OpScan false)
        | Bool rescan => spawn_op id "scanWifi" (OpScan rescan)
        | _ => failed id "bad_request"
        end
      else if bool_decide (op = "setWifi") then set_wifi id command
      else if bool_decide (op = "setNetwork") then set_network id command
      else if bool_decide (op = "finish") then finish id
      else failed id "unknown_op"
  end.
Definition on_command (fragment : bytes) : Run unit :=
  with_conn (λ c,
    match cn_phase c with
    | Ready auth from_phone to_phone =>
        let '(outcome, command_in) := push fragment (cn_command_in c) in
        let* _ := update (λ c, set_in (cn_session_in c) command_in c) in
        match outcome with
        | Ok None => ret tt
        | Err _ => drop_connection
        | Ok (Some record) =>
            let '(plaintext, from_phone) := open record from_phone in
            let* _ := update (set_phase (Ready auth from_phone to_phone)) in
            match plaintext with
            | None => drop_connection
            | Some plaintext =>
                let* _ := update (set_active (mo_uptime m)) in
                match json_of plaintext with
                | None => failed Null "bad_request"
                | Some command =>
                    let id := member command "id" in
                    if negb (is_integer id) then failed Null "bad_request"
                    else if bool_decide (is_Some (cn_op c)) then failed id "busy"
                    else run_command id command
                end
            end
        end
    | _ => ret tt
    end).

(** ** The end of a session *)

Definition end_hold (finished : bool) : Run unit :=
  let* e := get in
  match en_hold e with
  | None => ret tt
  | Some h =>
      let* _ := modify (with_hold None) in
      let abandoned := hd_unclaimed h && negb finished in
      let* _ := match hd_snapshot h with
                | Some snapshot => emit [RestoreWifi snapshot (if abandoned then hd_added h else [])]
                | None => ret tt
                end in
      if abandoned && negb (is_nil (hd_replaced h)) then emit [RestoreNetwork (hd_replaced h)] else ret tt
  end.
Definition done_op (serial : Z) (id : value) (op : string) (event : value) : Run unit :=
  let* _ := modify (λ e, with_hold (commit op event <$> en_hold e) e) in
  let* e := get in
  if negb (bool_decide (current_serial e = Some serial)) then ret tt
  else
    let* _ := update (λ c, set_active (mo_uptime m) (set_op None (set_reached (reached_by op event (cn_reached c)) c))) in
    let finished := bool_decide (op = "finish" ∧ as_str (member event "event") = Some "finished") in
    let* _ := if finished then update (λ c, set_ended true (cn_failed c) c) else ret tt in
    let* _ := send_event (set_member "id" id event) in
    if finished then
      let* _ := modify (λ e, with_facts (mo_facts m) (with_done true (with_temp_code None (with_windows (BleWindow.finish (mo_uptime m) (en_windows e)) e)))) in
      let* _ := end_hold true in
      drop_connection
    else ret tt.
Definition claimed_elsewhere : Run unit :=
  let* _ := modify (with_facts (mo_facts m)) in
  let* e := get in
  let* _ := if match en_connection e with Some c => same_auth (cn_auth c) NoAuth | None => false end
            then let* _ := send_event (obj [("event", Str "closing"); ("reason", Str "claimed_elsewhere")]) in drop_connection
            else ret tt in
  let* e := get in
  if match en_hold e with Some h => hd_unclaimed h | None => false end then end_hold false else ret tt.

(** ** The timers, the advertisement and the radio *)

Definition settle (refresh : bool) : Run unit :=
  let* _ := if refresh then modify (with_facts (mo_settled m)) else ret tt in
  let now := mo_uptime m in
  let* e := get in
  let window := window e in
  let* _ := match window with
            | Some o => if bool_decide (op_trigger o = Manual) then ret tt else modify (with_temp_code None)
            | None => modify (with_temp_code None)
            end in
  let* _ := if match en_connection e with
               | Some c => negb (bool_decide (is_Some (cn_op c))) && (wrap64 (cn_last_active c + IDLE_SECONDS) <=? now)
               | None => false
               end
            then let* _ := send_event (obj [("event", Str "closing"); ("reason", Str "idle")]) in drop_connection
            else ret tt in
  let* e := get in
  let* _ := if match h ← en_hold e; hd_away_since h with
               | Some since => (wrap64 (since + RECONNECT_SECONDS) <=? now) || negb (bool_decide (is_Some window))
               | None => false
               end
            then end_hold false else ret tt in
  let* e := get in
  let connected := bool_decide (is_Some (en_connection e)) in
  let* _ := if bool_decide (is_Some window) && negb connected then modify (with_done false) else ret tt in
  let locked := bool_decide (is_Some (locked_for e)) in
  let advertise := o ← window; if negb connected && negb (negb (same_auth (op_auth o) NoAuth) && locked) then Some (fa_hostname (en_facts e)) else None in
  let* _ := if bool_decide (advertise = en_advertised e) then ret tt else emit [Advertise advertise] in
  let hold := bool_decide (is_Some window) || connected in
  let* _ := if Bool.eqb hold (en_holding e) then ret tt else emit [HoldRadio hold] in
  modify (with_radio advertise hold (bool_decide (is_Some (session_auth e)) || bool_decide (is_Some (en_hold e)))).

Definition entry_json (x : Entry) : value :=
  obj [("at", Number (to_dec (hs_at x))); ("trigger", Str (hs_trigger x)); ("outcome", Str (hs_outcome x))].
Definition status (e : Engine) : value :=
  let window := window e in
  let state := if bool_decide (is_Some (en_connection e)) then "connected"
               else if bool_decide (is_Some window) then "waiting"
               else if en_done e then "done" else "off" in
  let unix := mo_unix m in
  let lockout := sr_lockout (en_store e) in
  let number o := match o with Some z => Number (to_dec z) | None => Null end in
  obj ([("state", Str state);
        ("trigger", match window with Some o => Str (trigger_text (op_trigger o)) | None => Null end);
        ("expiresAt", number (o ← window; at_ ← op_closes_at o; Some (wrap64 (unix + Z.max 0 (at_ - mo_uptime m)))));
        ("autoWhenOffline", Bool (fa_auto_when_offline (en_facts e)));
        ("verifierReady", Bool (has_verifier (en_store e)));
        ("lockedUntil", number (until ← lk_locked_until lockout; if unix <? until then Some until else None));
        ("wifiLocked", Bool (en_wifi_locked e));
        ("history", Array (rev (map entry_json (sr_history (en_store e)))))]
       ++ match en_temp_code e with Some (code, _) => [("code", Str code)] | None => [] end).

(** * Inputs *)

Definition refreshes (i : Input) : bool := match i with Read _ _ | Write _ _ _ _ => false | _ => true end.
Definition handle_input (i : Input) : Run unit :=
  match i with
  | Read device mtu =>
      let* answer := admit_phone device mtu in
      let* e := get in
      emit [ReplyRead (match answer with inr _ => inr (info e) | inl r => inl r end)]
  | Write device mtu characteristic value =>
      let* admitted := admit_phone device mtu in
      let* _ := emit [ReplyWrite admitted] in
      match admitted, characteristic with
      | inr _, WriteSession => on_session value
      | inr _, WriteCommand => on_command value
      | inl _, _ => ret tt
      end
  | Disconnected device => with_conn (λ c, if bool_decide (cn_device c = device) then end_connection else ret tt)
  | Route present => modify (λ e, with_windows (route (mo_uptime m) present (en_windows e)) e)
  | ClaimedElsewhere => claimed_elsewhere
  | OpenManual seconds code record =>
      let* e := get in
      if negb (fa_claimed (en_facts e)) then emit [ReplyOpen (inl "not_claimed")]
      else if bool_decide (is_Some (locked_for e)) then emit [ReplyOpen (inl "locked")]
      else
        let* _ := modify (λ e, with_done false (with_temp_code (Some (code, record)) (with_windows (open_manual (mo_uptime m) seconds (en_windows e)) e))) in
        emit [Audit "ble-window" "opened"; ReplyOpen (inr tt)]
  | CloseManual =>
      let* _ := modify (λ e, with_temp_code None (with_windows (close_manual (en_windows e)) e)) in
      emit [Audit "ble-window" "closed"; ReplyClosed]
  | Status => let* e := get in emit [ReplyStatus (status e)]
  | Tick => ret tt
  | WifiSaved serial ssid added =>
      modify (λ e, if added && bool_decide (current_serial e = Some serial) then with_hold (add_network ssid <$> en_hold e) e else e)
  | NetworkSaved serial interface previous =>
      modify (λ e,
        if bool_decide (current_serial e = Some serial)
        then with_hold ((λ h, if existsb (λ r, bool_decide (r.1 = interface)) (hd_replaced h) then h
                              else set_replaced (hd_replaced h ++ [(interface, previous)]) h) <$> en_hold e) e
        else e)
  | Pushed serial event =>
      let* e := get in if bool_decide (current_serial e = Some serial) then send_event event else ret tt
  | Done serial id op event => done_op serial id op event
  end.
Definition handle (i : Input) : Run unit := let* _ := handle_input i in settle (refreshes i).
End engine.

(** * The operations' answers *)

Definition console_urls (web : SettingsModel.WebSettings) (host : option string) (hostname : string) : list string :=
  match SettingsModel.web_mode web with
  | SettingsModel.Network =>
      let '(scheme, port, default_port) :=
        if SettingsModel.https_enabled web then ("https", SettingsModel.https_port web, 443) else ("http", SettingsModel.http_port web, 80) in
      let port := if port =? default_port then "" else ":" +:+ to_dec port in
      let bracketed := (λ host, if contains_byte ":" host then "[" +:+ host +:+ "]" else host) <$> host in
      map (λ host, scheme +:+ "://" +:+ host +:+ port) (match bracketed with Some h => [h] | None => [] end ++ [hostname +:+ ".local"])
  | _ => []
  end.
Definition is_text (text : string) (v : value) : bool := match v with Str t => bool_decide (t = text) | _ => false end.
(** The first Ethernet port with an address, or the first port with one. *)
Definition first_addressed (links : list value) : option value :=
  let addressed := List.filter (λ l, match member l "address" with Str _ => true | _ => false end) links in
  match List.find (λ l, is_text "ethernet" (member l "kind")) addressed with Some l => Some l | None => head addressed end.
Definition console (status : value) (reached : option Reached) (hostname : string) (web : SettingsModel.WebSettings) : value * list string :=
  let interfaces := match member status "interfaces" with Array l => l | _ => [] end in
  let found := match reached with
               | Some (ReachedWired name) => List.find (λ l, is_text name (member l "name")) interfaces
               | Some ReachedWifi => List.find (λ l, is_text "wifi" (member l "kind")) interfaces
               | None => first_addressed interfaces
               end in
  let host := link ← found; address ← as_str (member link "address"); head (split "/" address) in
  (match found with
   | Some link => obj [("name", member link "name"); ("kind", member link "kind"); ("address", member link "address")]
   | None => Null
   end, console_urls web host hostname).
Definition finished_event (facts : Facts) (status : value) (reached : option Reached) : value :=
  let '(interface, urls) := console status reached (fa_hostname facts) (fa_web facts) in
  obj [("event", Str "finished"); ("claimed", Bool (fa_claimed facts)); ("hostname", Str (fa_hostname facts)); ("interface", interface);
       ("consoleUrls", Array (map Str urls));
       ("ap", match member status "ap" with Object ap => Object ap | _ => obj [("on", Bool false)] end)].
(** What the tasks send: a status, a scan's networks with their age in seconds
    or a reason, and the ends of the two writes. *)
Definition status_event (status : value) : value := set_member "event" (Str "status") status.
Definition failed_event (reason : string) : value := obj [("event", Str "failed"); ("reason", Str reason)].
Definition scan_event (scanned : string + list value * option Z) : value :=
  match scanned with
  | inl reason => failed_event reason
  | inr (networks, age) =>
      obj ([("event", Str "networks"); ("networks", Array networks); ("stale", Bool (bool_decide (is_Some age)))]
           ++ match age with Some seconds => [("ageSeconds", Number (to_dec seconds))] | None => [] end)
  end.
Definition wifi_event (joined : string + bool) (address : string + string) (hostname : string) : value :=
  match joined, address with
  | inl reason, _ | inr _, inl reason => failed_event reason
  | inr _, inr ip => obj [("event", Str "connected"); ("ip", Str ip); ("hostname", Str hostname)]
  end.
Definition network_event (interface : string) (written : string + value) (address : string + option string) : value :=
  match written, address with
  | inl reason, _ | inr _, inl reason => failed_event reason
  | inr _, inr address => obj [("event", Str "up"); ("interface", Str interface); ("address", match address with Some a => Str a | None => Null end)]
  end.

(** * What a step leaves alone *)

Section frames.
Context `{PR : Primitives} `{PC : P256} `{HS : Hashes} `{BC : BleCodec}.
Implicit Types e : Engine.

Definition kept_phase (p p' : Phase) : Prop :=
  p' = p ∨ p' = Idle ∨ ∃ auth f t f' t', p = Ready auth f t ∧ p' = Ready auth f' t'.
Definition kept_connection e e' : Prop :=
  ∀ c', en_connection e' = Some c' →
    cn_phase c' = Idle ∨ ∃ c, en_connection e = Some c ∧ cn_serial c' = cn_serial c ∧ kept_phase (cn_phase c) (cn_phase c').
(** The session goes nowhere but back, and the lockout stays. *)
Record quiet e e' (l : list Effect) : Prop := {
  quiet_connection : kept_connection e e';
  quiet_lockout : sr_lockout (en_store e') = sr_lockout (en_store e);
  quiet_verifier : sr_verifier (en_store e') = sr_verifier (en_store e);
  quiet_spawns : ∀ s id op, Spawn s id op ∉ l;
  quiet_audit : Audit "ble-auth" "succeeded" ∉ l;
}.
Definition Quiet {A} (x : Run A) : Prop := ∀ e, quiet e (x e).1.2 (x e).2.

Lemma kept_phase_trans p q r : kept_phase p q → kept_phase q r → kept_phase p r.
Proof. intros [->|[->|(a & f & t & f' & t' & -> & ->)]] [->|[->|(b & g & u & g' & u' & E & ->)]]; unfold kept_phase; try naive_solver. Qed.
Lemma kept_connection_refl e : kept_connection e e.
Proof. intros c H. right. exists c. by repeat split; try left. Qed.
Lemma kept_connection_trans e1 e2 e3 : kept_connection e1 e2 → kept_connection e2 e3 → kept_connection e1 e3.
Proof.
  intros H1 H2 c3 E3. destruct (H2 c3 E3) as [H|(c2 & E2 & Es & Hp)]; [by left|]. destruct (H1 c2 E2) as [H|(c1 & E1 & Es1 & Hp1)].
  - left. rewrite H in Hp. destruct Hp as [Hp|[Hp|(a & f & t & f' & t' & Hp & _)]]; [congruence|done|done].
  - right. exists c1. split; [done|]. split; [congruence|by eapply kept_phase_trans].
Qed.
Lemma quiet_refl e : quiet e e [].
Proof. split; [apply kept_connection_refl|done|done|intros; apply not_elem_of_nil|apply not_elem_of_nil]. Qed.
Lemma quiet_trans e1 e2 e3 l l' : quiet e1 e2 l → quiet e2 e3 l' → quiet e1 e3 (l ++ l').
Proof.
  intros [H1 H2 H3 H4 H5] [K1 K2 K3 K4 K5]. split; [by eapply kept_connection_trans|congruence|congruence|..].
  - intros s id op H. apply elem_of_app in H as [H|H]; [by eapply H4|by eapply K4].
  - intros H. by apply elem_of_app in H as [H|H].
Qed.
Lemma quiet_same e e' l : en_connection e' = en_connection e → sr_lockout (en_store e') = sr_lockout (en_store e) → sr_verifier (en_store e') = sr_verifier (en_store e) →
  (∀ s id op, Spawn s id op ∉ l) → Audit "ble-auth" "succeeded" ∉ l → quiet e e' l.
Proof. intros H1 H2 H3 H4 H5. split; try done. intros c H. rewrite H1 in H. right. exists c. by repeat split; try left. Qed.

Lemma bind_run {A B} (x : Run A) (k : A → Run B) e :
  bind x k e = ((k (x e).1.1 (x e).1.2).1.1, (k (x e).1.1 (x e).1.2).1.2, (x e).2 ++ (k (x e).1.1 (x e).1.2).2).
Proof. unfold bind. destruct (x e) as [[a e1] l]. cbn. by destruct (k a e1) as [[b e2] l2]. Qed.
Lemma Quiet_ret {A} (a : A) : Quiet (ret a).
Proof. intros e. apply quiet_refl. Qed.
Lemma Quiet_get : Quiet get.
Proof. intros e. apply quiet_refl. Qed.
Lemma Quiet_bind {A B} (x : Run A) (k : A → Run B) : Quiet x → (∀ a, Quiet (k a)) → Quiet (bind x k).
Proof. intros Hx Hk e. rewrite bind_run. cbn. eapply quiet_trans; [apply Hx|apply Hk]. Qed.
(** A computation that starts by reading the state. *)
Lemma Quiet_reads {A} (k : Engine → Run A) : (∀ e, quiet e (k e e).1.2 (k e e).2) → Quiet (bind get k).
Proof. intros H e. rewrite bind_run. cbn. apply H. Qed.
Lemma Quiet_conn (k : Connection → Run unit) : (∀ c, Quiet (k c)) → Quiet (with_conn k).
Proof. intros H. apply Quiet_reads. intros e. destruct (en_connection e); [apply H|apply quiet_refl]. Qed.
(** The same, where the connection matters. *)
Lemma Quiet_conn_at (k : Connection → Run unit) : (∀ e c, en_connection e = Some c → quiet e (k c e).1.2 (k c e).2) → Quiet (with_conn k).
Proof. intros H. apply Quiet_reads. intros e. destruct (en_connection e) eqn:E; [by apply H|apply quiet_refl]. Qed.
Lemma quiet_bind_at {A B} (x : Run A) (k : A → Run B) e : quiet e (x e).1.2 (x e).2 → Quiet (k (x e).1.1) → quiet e (bind x k e).1.2 (bind x k e).2.
Proof. intros Hx Hk. rewrite bind_run. cbn. eapply quiet_trans; [exact Hx|apply Hk]. Qed.
Lemma Quiet_emit l : (∀ s id op, Spawn s id op ∉ l) → Audit "ble-auth" "succeeded" ∉ l → Quiet (emit l).
Proof. intros H1 H2 e. by apply quiet_same. Qed.
Lemma Quiet_modify f : (∀ e, en_connection (f e) = en_connection e ∧ en_store (f e) = en_store e) → Quiet (modify f).
Proof. intros H e. destruct (H e) as [H1 H2]. cbn. apply quiet_same; rewrite ?H2; try done; intros; apply not_elem_of_nil. Qed.
Lemma Quiet_update f : (∀ c, cn_serial (f c) = cn_serial c ∧ kept_phase (cn_phase c) (cn_phase (f c))) → Quiet (update f).
Proof.
  intros H e. cbn. split; try done; try (intros; apply not_elem_of_nil). intros c' E. cbn in E. destruct (en_connection e) as [c|]; [|done]. injection E as <-.
  right. exists c. by destruct (H c).
Qed.
Lemma quiet_update_at f e c : en_connection e = Some c → cn_serial (f c) = cn_serial c → kept_phase (cn_phase c) (cn_phase (f c)) →
  quiet e (update f e).1.2 (update f e).2.
Proof.
  intros E Hs Hp. cbn. split; try done; try (intros; apply not_elem_of_nil). intros c' E'. cbn in E'. rewrite E in E'. injection E' as <-. right. by exists c.
Qed.
Lemma Quiet_if {A} (b : bool) (x y : Run A) : Quiet x → Quiet y → Quiet (if b then x else y).
Proof. by destruct b. Qed.
Lemma notified_quiet ch l : (∀ s id op, Spawn s id op ∉ map (Notified ch) l) ∧ Audit "ble-auth" "succeeded" ∉ map (Notified ch) l.
Proof. split; intros; intros H; apply list_elem_of_fmap in H as (x & H & _); done. Qed.

Create HintDb quiet.
#[local] Hint Resolve Quiet_ret Quiet_get Quiet_bind Quiet_conn Quiet_if : quiet.
#[local] Hint Extern 1 (Quiet (modify _)) => (apply Quiet_modify; intros ?; split; reflexivity) : quiet.
#[local] Hint Extern 1 (Quiet (update _)) => (apply Quiet_update; intros ?; split; [reflexivity|by left]) : quiet.
#[local] Hint Extern 1 (Quiet (emit _)) => (apply Quiet_emit; [intros ? ? ?; rewrite ?elem_of_cons; set_solver|rewrite ?elem_of_cons; set_solver]) : quiet.
#[local] Hint Extern 2 (Quiet (match ?x with _ => _ end)) => destruct x : quiet.
Ltac quiet := auto 20 with quiet.
Variable m : Moment.

Lemma Quiet_send ch message : Quiet (send ch message).
Proof. unfold send. apply Quiet_bind; [quiet|]. intros e. apply Quiet_emit; apply notified_quiet. Qed.
Lemma Quiet_send_session message : Quiet (send_session message).
Proof. apply Quiet_send. Qed.
Lemma Quiet_error reason : Quiet (session_error reason).
Proof. apply Quiet_send. Qed.
#[local] Hint Resolve Quiet_send Quiet_send_session Quiet_error : quiet.
Lemma Quiet_store f : (∀ st, sr_lockout (f st) = sr_lockout st ∧ sr_verifier (f st) = sr_verifier st) → Quiet (put_store f).
Proof. intros H e. cbn. destruct (H (en_store e)). apply quiet_same; try done; intros; apply not_elem_of_nil. Qed.
Lemma Quiet_history x : Quiet (push_history m x).
Proof. unfold push_history. destruct (mo_history_written m); [by apply Quiet_store|quiet]. Qed.
Lemma Quiet_abandon : Quiet abandon_exchange.
Proof.
  unfold abandon_exchange. apply Quiet_conn. intros c. destruct (cn_phase c); [quiet..| |quiet]. apply Quiet_bind; [|quiet].
  apply Quiet_update. intros c'. split; [done|]. right. by left.
Qed.
#[local] Hint Resolve Quiet_history Quiet_abandon : quiet.
Lemma Quiet_end : Quiet (end_connection m).
Proof.
  unfold end_connection. apply Quiet_bind; [quiet|]. intros _. apply Quiet_conn. intros c. apply Quiet_bind.
  - intros e. cbn. split; try done; try (intros; apply not_elem_of_nil).
  - intros _. apply Quiet_bind; [quiet|]. intros e. apply Quiet_bind; [quiet|]. intros _. apply Quiet_bind; [quiet|]. intros _. quiet.
Qed.
#[local] Hint Resolve Quiet_end : quiet.
Lemma Quiet_drop : Quiet (drop_connection m).
Proof. unfold drop_connection. quiet. Qed.
#[local] Hint Resolve Quiet_drop : quiet.
Lemma Quiet_event event : Quiet (send_event m event).
Proof.
  unfold send_event. apply Quiet_conn_at. intros e c E. destruct (cn_phase c) as [|a r|a an b|a f t] eqn:Ep; [apply quiet_refl..|].
  destruct (seal (json_text event) t) as [o t']. apply quiet_bind_at; [|by destruct o; quiet]. eapply quiet_update_at; [exact E|done|].
  rewrite Ep. right. right. by exists a, f, t, f, t'.
Qed.
#[local] Hint Resolve Quiet_event : quiet.
Lemma Quiet_failed id reason : Quiet (failed m id reason).
Proof. apply Quiet_event. Qed.
#[local] Hint Resolve Quiet_failed : quiet.
Lemma Quiet_admit device mtu : Quiet (admit_phone m device mtu).
Proof.
  unfold admit_phone. apply Quiet_reads. intros e. destruct (en_connection e) as [c|] eqn:E.
  - destruct (negb _); [apply quiet_refl|]. apply quiet_bind_at; [|quiet]. by destruct mtu; [apply Quiet_update|apply quiet_refl]; try (intros; split; [|left]).
  - destruct (window m e) as [o|]; [|apply quiet_refl]. apply quiet_bind_at.
    + cbn. split; try done; try (intros; apply not_elem_of_nil). intros c' [= <-]. by left.
    + apply Quiet_bind; [quiet|]. intros _. apply Quiet_bind; [|quiet]. destruct (fa_has_wifi _); quiet.
Qed.
(** It leaves what a new session is judged by. *)
Lemma admit_frame device mtu e : let e' := (admit_phone m device mtu e).1.2 in
  en_windows e' = en_windows e ∧ en_temp_code e' = en_temp_code e ∧ en_facts e' = en_facts e ∧ en_store e' = en_store e.
Proof.
  unfold admit_phone. rewrite bind_run. cbn. destruct (en_connection e) as [c|].
  - destruct (negb _); [done|]. rewrite bind_run. by destruct mtu.
  - destruct (window m e) as [o|]; [|done]. rewrite !bind_run. cbn. by destruct (fa_has_wifi _).
Qed.
Lemma Quiet_ready l : Quiet (ready l).
Proof. unfold ready. apply Quiet_conn. intros c. apply Quiet_bind; [quiet|]. intros _. destruct (cn_push_status c); quiet. Qed.
Lemma Quiet_end_hold finished : Quiet (end_hold finished).
Proof.
  unfold end_hold. apply Quiet_bind; [quiet|]. intros e. destruct (en_hold e) as [h|]; [|quiet]. apply Quiet_bind; [quiet|]. intros _.
  apply Quiet_bind; [destruct (hd_snapshot h); quiet|]. intros _. destruct (_ && _); quiet.
Qed.
#[local] Hint Resolve Quiet_admit Quiet_ready Quiet_end_hold : quiet.
Lemma Quiet_done serial id op event : Quiet (done_op m serial id op event).
Proof.
  unfold done_op. apply Quiet_bind; [quiet|]. intros _. apply Quiet_bind; [quiet|]. intros e. apply Quiet_if; [quiet|].
  apply Quiet_bind; [quiet|]. intros _. apply Quiet_bind; [quiet|]. intros _. apply Quiet_bind; [quiet|]. intros _. quiet.
Qed.
Lemma Quiet_claimed : Quiet (claimed_elsewhere m).
Proof.
  unfold claimed_elsewhere. apply Quiet_bind; [quiet|]. intros _. apply Quiet_bind; [quiet|]. intros e. apply Quiet_bind; [quiet|]. intros _.
  apply Quiet_bind; [quiet|]. intros e'. quiet.
Qed.
Lemma Quiet_settle refresh : Quiet (settle m refresh).
Proof.
  unfold settle. apply Quiet_bind; [quiet|]. intros _. apply Quiet_bind; [quiet|]. intros e. apply Quiet_bind; [quiet|]. intros _.
  apply Quiet_bind; [quiet|]. intros _. apply Quiet_bind; [quiet|]. intros e1. apply Quiet_bind; [quiet|]. intros _. apply Quiet_bind; [quiet|]. intros e2.
  apply Quiet_bind; [quiet|]. intros _. apply Quiet_bind; [quiet|]. intros _. apply Quiet_bind; [quiet|]. intros _. quiet.
Qed.
#[local] Hint Resolve Quiet_done Quiet_claimed Quiet_settle : quiet.

(** ** The moves of a session *)

(** What an engine judges a session by. *)
Definition same_world e e1 : Prop :=
  en_windows e1 = en_windows e ∧ en_temp_code e1 = en_temp_code e ∧ en_facts e1 = en_facts e ∧ en_store e1 = en_store e.
(** Of the window open at [e], under [record]. *)
Definition began_at e auth record : Prop :=
  auth ≠ NoAuth ∧ (∃ o, window m e = Some o ∧ op_auth o = auth)
  ∧ (auth = Password → sr_verifier (en_store e) = Ok (Some record))
  ∧ (auth = TempCode → ∃ code, en_temp_code e = Some (code, record))
  ∧ locked_for m e = None.
Definition anonymous_at e : Prop := ∃ o, window m e = Some o ∧ op_auth o = NoAuth.
(** A connection is at [p], where there still is one that is not idle. *)
Definition at_phase e' (serial : Z) (p : Phase → Prop) : Prop :=
  ∀ c', en_connection e' = Some c' → cn_phase c' = Idle ∨ (cn_serial c' = serial ∧ p (cn_phase c')).
Definition silent (l : list Effect) : Prop := (∀ s id op, Spawn s id op ∉ l) ∧ Audit "ble-auth" "succeeded" ∉ l.
Definition changes (op : Op) : bool := match op with OpWifi _ _ _ _ | OpNetwork _ _ | OpFinish _ => true | _ => false end.

Inductive moves (said : value → Prop) e e' (l : list Effect) : Prop :=
| moved_quiet : quiet e e' l → moves said e e' l
| moved_began serial auth record :
    began_at e auth record → at_phase e' serial (λ p, p = Params auth record) → sr_lockout (en_store e') = sr_lockout (en_store e) →
    silent l → moves said e e' l
| moved_anonymous serial :
    anonymous_at e → at_phase e' serial (λ p, ∃ f t, p = Ready NoAuth f t) → sr_lockout (en_store e') = sr_lockout (en_store e) →
    silent l → moves said e e' l
| moved_guess c auth record share_p y answer :
    en_connection e = Some c → cn_phase c = Params auth record → answer_with record (transcript auth) share_p y = Some answer →
    sr_lockout (en_store e') = charge (mo_unix m) (sr_lockout (en_store e)) →
    at_phase e' (cn_serial c) (λ p, p = Confirm auth answer (sr_lockout (en_store e))) → silent l → moves said e e' l
| moved_accepted c auth answer before message :
    en_connection e = Some c → cn_phase c = Confirm auth answer before → said message →
    binary (member message "confirmP") = Some (ky_confirm_p (an_keys answer)) →
    at_phase e' (cn_serial c) (λ p, ∃ f t, p = Ready auth f t) → (∀ s id op, Spawn s id op ∉ l) → Audit "ble-auth" "succeeded" ∈ l → moves said e e' l
| moved_unsealed c auth answer before :
    en_connection e = Some c → cn_phase c = Confirm auth answer before →
    (keys ← session_keys [] (ky_shared (an_keys answer)); _ ← new_records (sk_phone_to_device keys); new_records (sk_device_to_phone keys)) = None →
    at_phase e' (cn_serial c) (λ _, False) → silent l → moves said e e' l
| moved_spawned c auth f t :
    en_connection e = Some c → cn_phase c = Ready auth f t → kept_connection e e' → sr_lockout (en_store e') = sr_lockout (en_store e) →
    (∀ s id op, Spawn s id op ∈ l → s = cn_serial c ∧ (changes op = true → auth = NoAuth → fa_claimed (mo_facts m) = false)) →
    Audit "ble-auth" "succeeded" ∉ l → moves said e e' l.

Lemma silent_app l l' : silent l → silent l' → silent (l ++ l').
Proof. intros [H1 H2] [K1 K2]. split; [intros s id op|]; rewrite elem_of_app; intros [H|H]; try done; [by eapply H1|by eapply K1]. Qed.
Lemma quiet_silent e e' l : quiet e e' l → silent l.
Proof. intros H. split; apply H. Qed.
Lemma at_phase_kept e1 e2 serial P : (∀ p p', P p → kept_phase p p' → p' = Idle ∨ P p') → kept_connection e1 e2 → at_phase e1 serial P → at_phase e2 serial P.
Proof.
  intros Hst Hk H c' E. destruct (Hk c' E) as [Hi|(c & Ec & Es & Hp)]; [by left|]. destruct (H c Ec) as [Hi|[Hs Hc]].
  - left. rewrite Hi in Hp. destruct Hp as [->|[->|(a & f & t & f' & t' & Hp & _)]]; [done|done|congruence].
  - destruct (Hst _ _ Hc Hp) as [H'|H']; [by left|right]. split; [congruence|done].
Qed.
Lemma kept_params auth record p p' : p = Params auth record → kept_phase p p' → p' = Idle ∨ p' = Params auth record.
Proof. intros -> [->|[->|(a & f & t & f' & t' & H & _)]]; auto. done. Qed.
Lemma kept_confirm auth answer before p p' : p = Confirm auth answer before → kept_phase p p' → p' = Idle ∨ p' = Confirm auth answer before.
Proof. intros -> [->|[->|(a & f & t & f' & t' & H & _)]]; auto. done. Qed.
Lemma kept_ready auth p p' : (∃ f t, p = Ready auth f t) → kept_phase p p' → p' = Idle ∨ ∃ f t, p' = Ready auth f t.
Proof. intros (f & t & ->) [->|[->|(a & f1 & t1 & f' & t' & [= <- <- <-] & ->)]]; eauto. Qed.
Lemma moves_post said e e1 e2 l l' : moves said e e1 l → quiet e1 e2 l' → moves said e e2 (l ++ l').
Proof.
  intros H Q. pose proof (quiet_silent _ _ _ Q) as Hs. pose proof (quiet_connection _ _ _ Q) as Hk. pose proof (quiet_lockout _ _ _ Q) as Hl.
  destruct H as [H|s a r H1 H2 H3 H4|s H1 H2 H3 H4|c a r sp y an H1 H2 H3 H4 H5 H6|c a an b msg H1 H2 H3 H4 H5 H6 H7|c a an b H1 H2 H3 H4 H5|c a f t H1 H2 H3 H4 H5 H6].
  - apply moved_quiet. by eapply quiet_trans.
  - eapply moved_began; [exact H1|eapply at_phase_kept; [apply kept_params|exact Hk|exact H2]|congruence|by apply silent_app].
  - eapply moved_anonymous; [exact H1|eapply at_phase_kept; [apply kept_ready|exact Hk|exact H2]|congruence|by apply silent_app].
  - eapply moved_guess; [exact H1|exact H2|exact H3|congruence|eapply at_phase_kept; [apply kept_confirm|exact Hk|exact H5]|by apply silent_app].
  - eapply moved_accepted; [exact H1|exact H2|exact H3|exact H4|eapply at_phase_kept; [apply kept_ready|exact Hk|exact H5]| |apply elem_of_app; by left].
    intros s id op H. apply elem_of_app in H as [H|H]; [by eapply H6|by destruct (proj1 Hs s id op)].
  - eapply moved_unsealed; [exact H1|exact H2|exact H3|eapply at_phase_kept; [|exact Hk|exact H4]; done|by apply silent_app].
  - eapply moved_spawned; [exact H1|exact H2|by eapply kept_connection_trans|congruence| |intros H; apply elem_of_app in H as [H|H]; [done|by apply Hs]].
    intros s id op H. apply elem_of_app in H as [H|H]; [by eapply H5|by destruct (proj1 Hs s id op)].
Qed.
Lemma connection_back e e1 c1 : kept_connection e e1 → en_connection e1 = Some c1 → cn_phase c1 ≠ Idle →
  ∃ c, en_connection e = Some c ∧ cn_serial c1 = cn_serial c ∧ kept_phase (cn_phase c) (cn_phase c1).
Proof. intros Hk E Hn. destruct (Hk c1 E) as [H|H]; [done|exact H]. Qed.
Lemma moves_pre said e e1 e2 l l' : quiet e e1 l → same_world e e1 → moves said e1 e2 l' → moves said e e2 (l ++ l').
Proof.
  intros Q (Hw & Ht & Hf & Hst) H. pose proof (quiet_silent _ _ _ Q) as Hs. pose proof (quiet_connection _ _ _ Q) as Hk.
  assert (Hwin : window m e1 = window m e) by (unfold window; by rewrite Hw, Hf).
  assert (Hlock : locked_for m e1 = locked_for m e) by (unfold locked_for; by rewrite Hst).
  destruct H as [H|s a r H1 H2 H3 H4|s H1 H2 H3 H4|c a r sp y an H1 H2 H3 H4 H5 H6|c a an b msg H1 H2 H3 H4 H5 H6 H7|c a an b H1 H2 H3 H4 H5|c a f t H1 H2 H3 H4 H5 H6].
  - apply moved_quiet. by eapply quiet_trans.
  - eapply moved_began; [|exact H2|congruence|by apply silent_app]. unfold began_at in *. by rewrite Hwin, Hlock, Ht, Hst in H1.
  - eapply moved_anonymous; [|exact H2|congruence|by apply silent_app]. unfold anonymous_at in *. by rewrite Hwin in H1.
  - destruct (connection_back e e1 c Hk H1) as (c0 & E0 & Es & Hp); [by rewrite H2|]. rewrite H2 in Hp.
    assert (Hp0 : cn_phase c0 = Params a r) by (destruct Hp as [Hp|[Hp|(? & ? & ? & ? & ? & _ & Hp)]]; done).
    rewrite Hst in *. rewrite Es in H5. by eapply moved_guess; [exact E0|exact Hp0|exact H3|exact H4|exact H5|apply silent_app].
  - destruct (connection_back e e1 c Hk H1) as (c0 & E0 & Es & Hp); [by rewrite H2|]. rewrite H2 in Hp.
    assert (Hp0 : cn_phase c0 = Confirm a an b) by (destruct Hp as [Hp|[Hp|(? & ? & ? & ? & ? & _ & Hp)]]; done).
    rewrite Es in H5. eapply moved_accepted; [exact E0|exact Hp0|exact H3|exact H4|exact H5| |apply elem_of_app; by right].
    intros s id op H. apply elem_of_app in H as [H|H]; [by destruct (proj1 Hs s id op)|by eapply H6].
  - destruct (connection_back e e1 c Hk H1) as (c0 & E0 & Es & Hp); [by rewrite H2|]. rewrite H2 in Hp.
    assert (Hp0 : cn_phase c0 = Confirm a an b) by (destruct Hp as [Hp|[Hp|(? & ? & ? & ? & ? & _ & Hp)]]; done).
    rewrite Es in H4. by eapply moved_unsealed; [exact E0|exact Hp0|exact H3|exact H4|apply silent_app].
  - destruct (connection_back e e1 c Hk H1) as (c0 & E0 & Es & Hp); [by rewrite H2|]. rewrite H2 in Hp.
    assert (Hp0 : ∃ f0 t0, cn_phase c0 = Ready a f0 t0) by (destruct Hp as [Hp|[Hp|(a1 & f0 & t0 & f' & t' & Hp & [= <- <- <-])]]; [eauto|done|eauto]).
    destruct Hp0 as (f0 & t0 & Hp0). eapply moved_spawned; [exact E0|exact Hp0|by eapply kept_connection_trans|congruence| |intros H; apply elem_of_app in H as [H|H]; [by apply Hs|done]].
    intros s id op H. rewrite <-Es. apply elem_of_app in H as [H|H]; [by destruct (proj1 Hs s id op)|by eapply H5].
Qed.

(** ** The handlers' moves *)

Definition Moves (said : value → Prop) (x : Run unit) : Prop := ∀ e, moves said e (x e).1.2 (x e).2.
Lemma Quiet_moves said x : Quiet x → Moves said x.
Proof. intros H e. apply moved_quiet, H. Qed.
Lemma moves_bind_pre {A} said (x : Run A) (k : A → Run unit) e :
  quiet e (x e).1.2 (x e).2 → same_world e (x e).1.2 → moves said (x e).1.2 (k (x e).1.1 (x e).1.2).1.2 (k (x e).1.1 (x e).1.2).2 →
  moves said e (bind x k e).1.2 (bind x k e).2.
Proof. intros Q W H. rewrite bind_run. cbn. by eapply moves_pre. Qed.
Lemma moves_bind_post {A} said (x : Run unit) (k : unit → Run A) e :
  moves said e (x e).1.2 (x e).2 → (∀ a, Quiet (k a)) → moves said e (bind x k e).1.2 (bind x k e).2.
Proof. intros H Q. rewrite bind_run. cbn. by eapply moves_post; [exact H|apply Q]. Qed.
Lemma update_world f e : same_world e (update f e).1.2.
Proof. done. Qed.
Lemma emit_silent e l e' l' : silent l → quiet e e' l' → quiet e e' (l ++ l').
Proof. intros Hs Q. change (l ++ l') with (l ++ l'). eapply quiet_trans; [|exact Q]. apply quiet_same; try done; apply Hs. Qed.

Lemma abandon_world e : same_world e (abandon_exchange e).1.2.
Proof.
  unfold abandon_exchange, with_conn. rewrite bind_run. cbn. destruct (en_connection e) as [c|]; [|done]. by destruct (cn_phase c).
Qed.
(** A connection that is there is moved to a phase. *)
Lemma update_at f e serial P : (∀ c, en_connection e = Some c → cn_serial (f c) = serial ∧ P (cn_phase (f c))) → at_phase (update f e).1.2 serial P.
Proof. intros H c' E. cbn in E. destruct (en_connection e) as [c|]; [|done]. injection E as <-. right. by apply H. Qed.

Lemma quiet_update_none f e : en_connection e = None → quiet e (update f e).1.2 (update f e).2.
Proof. intros E. apply quiet_same; try done; try (intros; apply not_elem_of_nil). cbn. by rewrite E. Qed.
Lemma Quiet_ret_bind {A B} (a : A) (k : A → Run B) : Quiet (k a) → Quiet (bind (ret a) k).
Proof. intros H e. rewrite bind_run. cbn. apply H. Qed.
Lemma silent_nil : silent [].
Proof. split; intros; apply not_elem_of_nil. Qed.

Lemma start_none_moves said message e : anonymous_at e → moves said e (start_none m message e).1.2 (start_none m message e).2.
Proof.
  intros Ha. unfold start_none. destruct (binary _) as [phone|]; [|by apply moved_quiet, Quiet_error].
  destruct (key ← mo_private m; none_exchange key phone) as [[public keys]|]; [|by apply moved_quiet, Quiet_error].
  destruct (new_records _) as [from_phone|]; [|by apply moved_quiet, Quiet_error]. destruct (new_records _) as [to_phone|]; [|by apply moved_quiet, Quiet_error].
  apply moves_bind_post; [|intros _; apply Quiet_ready]. destruct (en_connection e) as [c|] eqn:E.
  - apply (moved_anonymous _ _ _ _ (cn_serial c)); [exact Ha| |done|split; intros; apply not_elem_of_nil].
    apply update_at. intros c' E'. rewrite E in E'. injection E' as <-. split; [done|by eauto].
  - by apply moved_quiet, quiet_update_none.
Qed.
Lemma start_moves said message : Moves said (start m message).
Proof.
  intros e. unfold start. apply moves_bind_pre; [apply Quiet_abandon|apply abandon_world|]. set (e1 := (abandon_exchange e).1.2).
  apply moves_bind_pre; [by apply Quiet_update; intros; split; [|left]|done|]. clearbody e1. clear e. generalize ((update (set_push (is_true (member message "status"))) e1).1.2). clear e1. intros e.
  destruct (as_str _) as [requested|]; [|by apply moved_quiet, Quiet_error].
  rewrite bind_run. cbn [get fst snd]. change ([] ++ ?l) with l. set (w := window m e ≫= _).
  assert (Hw : ∀ o, w = Some o → window m e = Some o) by (intros o; subst w; destruct (window m e) as [o'|]; cbn; [by case_bool_decide|done]).
  destruct w as [o|] eqn:Eo; [|by apply moved_quiet, Quiet_error]. specialize (Hw o eq_refl). clear Eo.
  assert (Hex : ∀ record, op_auth o ≠ NoAuth → (op_auth o = Password → sr_verifier (en_store e) = Ok (Some record)) → (op_auth o = TempCode → ∃ code, en_temp_code e = Some (code, record)) →
    let x := match locked_for m e with
             | Some retry_after => send_session (obj [("t", Str "error"); ("reason", Str "locked"); ("retryAfter", Number (to_dec retry_after))])
             | None => let* _ := update (λ c, set_phase (Params (op_auth o) record) (set_window (op_auth o) (op_trigger o) c)) in
                       send_session (obj [("t", Str "params"); ("salt", Str (base64 (rg_salt record))); ("iterations", Number (to_dec (rg_iterations record)))])
             end in moves said e (x e).1.2 (x e).2).
  { intros record Hn Hp Ht x. subst x. destruct (locked_for m e) eqn:El; [by apply moved_quiet, Quiet_send|]. apply moves_bind_post; [|intros _; apply Quiet_send].
    destruct (en_connection e) as [c|] eqn:E.
    - eapply (moved_began _ _ _ _ (cn_serial c)); [by split; [exact Hn|]; split; [by exists o|]| |done|split; intros; apply not_elem_of_nil].
      apply update_at. intros c' E'. rewrite E in E'. injection E' as <-. by split.
    - by apply moved_quiet, quiet_update_none. }
  destruct (op_auth o) eqn:Ea.
  - apply start_none_moves. by exists o.
  - destruct (sr_verifier (en_store e)) as [[record|]|] eqn:Ev; [|by apply moved_quiet, Quiet_error..]. by apply Hex.
  - destruct (en_temp_code e) as [[code record]|] eqn:Et; [|by apply moved_quiet, Quiet_error]. apply Hex; [done|done|]. intros _. by exists code.
Qed.
Lemma idle_then_quiet said (x : Run unit) : Quiet x → Moves said (let* _ := update (set_phase Idle) in x).
Proof. intros Q. apply Quiet_moves, Quiet_bind; [|done]. apply Quiet_update. intros c. split; [done|]. right. by left. Qed.
Lemma share_moves said message : Moves said (share m message).
Proof.
  intros e. unfold share, with_conn. rewrite bind_run. cbn [get fst snd]. change ([] ++ ?l) with l. destruct (en_connection e) as [c|] eqn:E; [|apply moved_quiet, quiet_refl].
  destruct (cn_phase c) as [|auth record|a an b|a f t] eqn:Ep; try by apply idle_then_quiet, Quiet_error.
  destruct (binary _) as [share_p|]; [|by apply idle_then_quiet, Quiet_error].
  destruct (y ← mo_scalar m; answer_with record (transcript auth) share_p y) as [answer|] eqn:Ea; [|by apply idle_then_quiet, Quiet_error].
  unfold set_lockout. destruct (mo_lockout_written m).
  - rewrite !bind_run. cbn [fst snd get put_store modify ret update app negb]. destruct (mo_scalar m) as [y|]; [|done]. cbn in Ea.
    match goal with |- moves _ _ ?e1 ?l => set (e2 := e1); set (l2 := l) end.
    eapply (moved_guess _ _ _ _ c auth record share_p y answer); [exact E|exact Ep|exact Ea| | |].
    + done.
    + intros c' E'. cbn in E'. rewrite E in E'. injection E' as <-. right. by split.
    + apply notified_quiet.
  - apply idle_then_quiet, Quiet_bind; [apply Quiet_get|]. intros e'. apply Quiet_ret_bind, Quiet_error.
Qed.
Lemma accept_moves said message e e1 c auth answer before :
  en_connection e = Some c → cn_phase c = Confirm auth answer before → said message →
  binary (member message "confirmP") = Some (ky_confirm_p (an_keys answer)) →
  (∀ c1, en_connection e1 = Some c1 → cn_serial c1 = cn_serial c ∧ cn_phase c1 = Idle) →
  let x := match (keys ← session_keys [] (ky_shared (an_keys answer));
                  from_phone ← new_records (sk_phone_to_device keys); to_phone ← new_records (sk_device_to_phone keys); Some (from_phone, to_phone)) with
           | None => session_error "bad_message"
           | Some (from_phone, to_phone) =>
               let* _ := update (λ c, set_active (mo_uptime m) (set_phase (Ready auth from_phone to_phone) c)) in
               let* _ := emit [Audit "ble-auth" "succeeded"] in
               ready [("t", Str "ready")]
           end in
  moves said e (x e1).1.2 (x e1).2.
Proof.
  intros E Ep Hsaid Hc H1 x. subst x.
  destruct (session_keys [] _) as [keys|] eqn:Ek; cbn [mbind option_bind].
  1: destruct (new_records (sk_phone_to_device keys)) as [f|] eqn:Ef; cbn [mbind option_bind]; [destruct (new_records (sk_device_to_phone keys)) as [t|] eqn:Et; cbn [mbind option_bind]|].
  1: { rewrite bind_run. cbn [fst snd]. rewrite bind_run. cbn [fst snd emit].
    set (e2 := (update _ e1).1.2). eapply moved_accepted; [exact E|exact Ep|exact Hsaid|exact Hc| | |].
    - eapply at_phase_kept; [apply (kept_ready auth)|apply Quiet_ready|]. apply update_at. intros c1 E1. destruct (H1 c1 E1). by split; [|eauto].
    - intros s id op. cbn. rewrite elem_of_cons. intros [H|H]; [done|]. by apply (proj1 (quiet_silent _ _ _ (Quiet_ready [("t", Str "ready")] e2)) s id op).
    - cbn. apply list_elem_of_here. }
  all: eapply moved_unsealed;
    [exact E|exact Ep|by rewrite Ek; cbn; rewrite ?Ef; cbn; rewrite ?Et| |by eapply quiet_silent, Quiet_error].
  all: intros c2 E2; destruct (Quiet_error "bad_message" e1) as [Hk _ _ _ _]; destruct (Hk c2 E2) as [H|(c1 & E1 & Es & Hp)]; [by left|left];
    destruct (H1 c1 E1) as [_ Hi]; rewrite Hi in Hp; destruct Hp as [->|[->|(? & ? & ? & ? & ? & Hp & _)]]; done.
Qed.
Lemma confirm_moves said message : said message → Moves said (confirm m message).
Proof.
  intros Hsaid e. unfold confirm, with_conn. rewrite bind_run. cbn [get fst snd]. change ([] ++ ?l) with l. destruct (en_connection e) as [c|] eqn:E; [|apply moved_quiet, quiet_refl].
  destruct (cn_phase c) as [|a r|auth answer before|a f t] eqn:Ep; try by apply idle_then_quiet, Quiet_error.
  case_bool_decide as Hc; cbn [negb].
  - rewrite bind_run. cbn [fst snd]. rewrite bind_run. cbn [get fst snd]. rewrite bind_run. set (e0 := (update _ e).1.2).
    assert (H0 : ∀ c1, en_connection e0 = Some c1 → cn_serial c1 = cn_serial c ∧ cn_phase c1 = Idle).
    { intros c1 E1. subst e0. cbn in E1. rewrite E in E1. injection E1 as <-. by split. }
    unfold set_lockout. destruct (mo_lockout_written m); cbn [bind ret put_store modify fst snd update app]; by eapply accept_moves.
  - apply idle_then_quiet. apply Quiet_bind; [quiet|]. intros _. apply Quiet_bind; [quiet|]. intros _. apply Quiet_bind; [quiet|]. intros e'.
    destruct (locked_for m e'); quiet.
Qed.
(** What the phone says in a fragment it writes: the message it completes. *)
Definition session_of e : Reassembly := match en_connection e with Some c => cn_session_in c | None => new_reassembly end.
Definition spoken e (fragment : bytes) (message : value) : Prop :=
  ∃ raw session_in, push fragment (session_of e) = (Ok (Some raw), session_in) ∧ json_of raw = Some message.
Lemma on_session_moves fragment e : moves (spoken e fragment) e (on_session m fragment e).1.2 (on_session m fragment e).2.
Proof.
  unfold on_session, with_conn. rewrite bind_run. cbn [get fst snd]. change ([] ++ ?l) with l. destruct (en_connection e) as [c|] eqn:E; [|apply moved_quiet, quiet_refl].
  destruct (push fragment (cn_session_in c)) as [outcome session_in] eqn:Ep.
  apply moves_bind_pre; [by apply Quiet_update; intros c'; split; [|left]|done|]. set (e1 := (update _ e).1.2).
  destruct outcome as [[raw|]|]; [|apply Quiet_moves, Quiet_ret|apply Quiet_moves, Quiet_error].
  destruct (json_of raw) as [message|] eqn:Ej; [|apply Quiet_moves, Quiet_error].
  case_bool_decide; [apply start_moves|]. case_bool_decide; [apply share_moves|]. case_bool_decide; [|apply Quiet_moves, Quiet_error].
  apply confirm_moves. exists raw, session_in. split; [|done]. unfold session_of. by rewrite E.
Qed.

Lemma spawn_moves said e c auth f t id name op (k : unit → Run unit) : en_connection e = Some c → cn_phase c = Ready auth f t →
  (changes op = true → auth = NoAuth → fa_claimed (mo_facts m) = false) → (∀ a, Quiet (k a)) →
  moves said e (bind (spawn_op id name op) k e).1.2 (bind (spawn_op id name op) k e).2.
Proof.
  intros E Ep Hc Q. apply moves_bind_post; [|exact Q]. unfold spawn_op, with_conn. rewrite bind_run. cbn [get fst snd]. rewrite E. rewrite bind_run. cbn [fst snd emit].
  eapply moved_spawned; [exact E|exact Ep| |done| |].
  - apply (Quiet_update (set_op (Some name))). intros c'. by split; [|left].
  - intros s id' op' H. cbn in H. apply elem_of_cons in H as [[= -> -> ->]|H]; [by split|by apply not_elem_of_nil in H].
  - cbn. rewrite elem_of_cons. intros [H|H]; [done|by apply not_elem_of_nil in H].
Qed.
Lemma unclaimed_still e c auth f t : en_connection e = Some c → cn_phase c = Ready auth f t → still_unclaimed m e = true → auth = NoAuth → fa_claimed (mo_facts m) = false.
Proof.
  intros E Ep H ->. unfold still_unclaimed, session_auth in H. rewrite E in H. cbn in H. rewrite Ep in H. rewrite bool_decide_eq_true_2 in H by done.
  by apply negb_true_iff in H.
Qed.
Lemma on_hold_pre said f (k : unit → Run unit) e : moves said (on_hold f e).1.2 (k tt (on_hold f e).1.2).1.2 (k tt (on_hold f e).1.2).2 →
  moves said e (bind (on_hold f) k e).1.2 (bind (on_hold f) k e).2.
Proof. intros H. apply moves_bind_pre; [by apply quiet_same; try done; intros; apply not_elem_of_nil|done|exact H]. Qed.
Lemma set_wifi_moves said e c auth f t id command : en_connection e = Some c → cn_phase c = Ready auth f t →
  moves said e (set_wifi m id command e).1.2 (set_wifi m id command e).2.
Proof.
  intros E Ep. unfold set_wifi. destruct (as_str (member command "ssid")) as [ssid|]; [|by apply moved_quiet, Quiet_failed].
  destruct (as_str (member command "psk")) as [psk|]; [|by apply moved_quiet, Quiet_failed]. rewrite bind_run. cbn [get fst snd]. change ([] ++ ?l) with l.
  destruct (still_unclaimed m e) eqn:Eu; cbn [negb]; [|by apply moved_quiet, Quiet_failed]. pose proof (unclaimed_still e c auth f t E Ep Eu) as Hu.
  do 3 (case_match; [by apply moved_quiet, Quiet_failed|]). destruct (h ← en_hold e; hd_snapshot h).
  - apply moves_bind_pre; [apply quiet_refl|done|]. eapply spawn_moves; [exact E|exact Ep|done|]. intros _. apply Quiet_event.
  - apply on_hold_pre. eapply spawn_moves; [exact E|exact Ep|done|]. intros _. apply Quiet_event.
Qed.
Lemma set_network_moves said e c auth f t id command : en_connection e = Some c → cn_phase c = Ready auth f t →
  moves said e (set_network m id command e).1.2 (set_network m id command e).2.
Proof.
  intros E Ep. unfold set_network. destruct (as_str (member command "interface")) as [interface|]; [|by apply moved_quiet, Quiet_failed].
  destruct (network_entry command) as [entry|]; [|by apply moved_quiet, Quiet_failed]. rewrite bind_run. cbn [get fst snd]. change ([] ++ ?l) with l.
  destruct (still_unclaimed m e) eqn:Eu; cbn [negb]; [|by apply moved_quiet, Quiet_failed]. pose proof (unclaimed_still e c auth f t E Ep Eu) as Hu.
  apply on_hold_pre. eapply spawn_moves; [exact E|exact Ep|done|]. intros _. apply Quiet_event.
Qed.
Lemma spawn_only_moves said e c auth f t id name op : en_connection e = Some c → cn_phase c = Ready auth f t →
  (changes op = true → auth = NoAuth → fa_claimed (mo_facts m) = false) → moves said e (spawn_op id name op e).1.2 (spawn_op id name op e).2.
Proof.
  intros E Ep Hc. pose proof (spawn_moves said e c auth f t id name op ret E Ep Hc (λ a, Quiet_ret a)) as H. rewrite bind_run in H. cbn in H. by rewrite app_nil_r in H.
Qed.
Lemma run_command_moves said e c auth f t id command : en_connection e = Some c → cn_phase c = Ready auth f t →
  moves said e (run_command m id command e).1.2 (run_command m id command e).2.
Proof.
  intros E Ep. unfold run_command. destruct (as_str (member command "op")) as [op|]; [|by apply moved_quiet, Quiet_failed].
  case_bool_decide; [by eapply spawn_only_moves|]. case_bool_decide; [destruct (member command "rescan"); try (by apply moved_quiet, Quiet_failed); by eapply spawn_only_moves|].
  case_bool_decide; [by eapply set_wifi_moves|]. case_bool_decide; [by eapply set_network_moves|]. case_bool_decide; [|by apply moved_quiet, Quiet_failed].
  unfold finish. rewrite bind_run. cbn [get fst snd]. change ([] ++ ?l) with l.
  destruct (still_unclaimed m e) eqn:Eu; cbn [negb]; [|by apply moved_quiet, Quiet_failed]. unfold with_conn. rewrite bind_run. cbn [get fst snd]. change ([] ++ ?l) with l. rewrite E.
  eapply spawn_only_moves; [exact E|exact Ep|]. intros _. by eapply unclaimed_still.
Qed.
Lemma on_command_moves said fragment : Moves said (on_command m fragment).
Proof.
  intros e. unfold on_command, with_conn. rewrite bind_run. cbn [get fst snd]. change ([] ++ ?l) with l. destruct (en_connection e) as [c|] eqn:E; [|apply moved_quiet, quiet_refl].
  destruct (cn_phase c) as [|a r|a an b|auth f t] eqn:Ep; try apply moved_quiet, quiet_refl. destruct (push fragment (cn_command_in c)) as [outcome command_in].
  apply moves_bind_pre; [by apply Quiet_update; intros c'; split; [|left]|done|]. set (e1 := (update _ e).1.2).
  assert (E1 : en_connection e1 = Some (set_in (cn_session_in c) command_in c)) by (subst e1; cbn; by rewrite E). clearbody e1.
  destruct outcome as [[record|]|]; [|apply Quiet_moves, Quiet_ret|apply Quiet_moves, Quiet_drop].
  destruct (open record f) as [plaintext f'].
  apply moves_bind_pre; [eapply quiet_update_at; [exact E1|done|cbn; rewrite Ep; right; right; by exists auth, f, t, f', t]|done|]. set (e2 := (update _ e1).1.2).
  destruct plaintext as [plaintext|]; [|apply Quiet_moves, Quiet_drop].
  apply moves_bind_pre; [by apply Quiet_update; intros c'; split; [|left]|done|]. set (e3 := (update _ e2).1.2).
  assert (E3 : ∃ c3, en_connection e3 = Some c3 ∧ cn_phase c3 = Ready auth f' t) by (subst e3 e2; cbn; rewrite E1; by eexists).
  destruct E3 as (c3 & E3 & Ep3). destruct (json_of plaintext) as [command|]; [|apply Quiet_moves, Quiet_failed].
  case_match; [apply Quiet_moves, Quiet_failed|]. case_bool_decide; [apply Quiet_moves, Quiet_failed|]. by eapply run_command_moves.
Qed.
Lemma moves_mono (said said' : value → Prop) e e' l : (∀ v, said v → said' v) → moves said e e' l → moves said' e e' l.
Proof.
  intros H [Q|s a r H1 H2 H3 H4|s H1 H2 H3 H4|c a r sp y an H1 H2 H3 H4 H5 H6|c a an b msg H1 H2 H3 H4 H5 H6 H7|c a an b H1 H2 H3 H4 H5|c a f t H1 H2 H3 H4 H5 H6].
  - by apply moved_quiet.
  - by eapply moved_began.
  - by eapply moved_anonymous.
  - by eapply moved_guess.
  - eapply moved_accepted; try done. by apply H.
  - by eapply moved_unsealed.
  - by eapply moved_spawned.
Qed.
Lemma admit_session device mtu e : session_of (admit_phone m device mtu e).1.2 = session_of e.
Proof.
  unfold admit_phone. rewrite bind_run. cbn [get fst snd]. unfold session_of. destruct (en_connection e) as [c|] eqn:E.
  - destruct (negb _); [cbn; by rewrite E|]. rewrite bind_run. destruct mtu; cbn; by rewrite E.
  - destruct (window m e) as [o|]; [|cbn; by rewrite E]. rewrite !bind_run. cbn. by destruct (fa_has_wifi _).
Qed.
(** What an input says in the session. *)
Definition said_by e (i : Input) (message : value) : Prop :=
  match i with Write _ _ WriteSession fragment => spoken e fragment message | _ => False end.
Lemma handle_input_moves i e : moves (said_by e i) e (handle_input m i e).1.2 (handle_input m i e).2.
Proof.
  destruct i as [device mtu|device mtu ch fragment|device|present| |seconds code record| | | |serial ssid added|serial interface previous|serial event|serial id op event];
    cbn [handle_input].
  2: { set (x := admit_phone m device mtu). rewrite bind_run. cbn [fst snd]. eapply moves_pre; [apply Quiet_admit|apply admit_frame|].
    set (e1 := (admit_phone m device mtu e).1.2). rewrite bind_run. cbn [fst snd emit]. eapply moves_pre; [apply quiet_same; try done; set_solver|done|].
    destruct (x e).1.1 as [r|u]; [apply Quiet_moves, Quiet_ret|]. destruct ch; [|apply on_command_moves].
    eapply moves_mono; [|apply on_session_moves]. intros v (raw & session_in & H & Hj). exists raw, session_in. by rewrite <-(admit_session device mtu e). }
  all: apply Quiet_moves.
  - apply Quiet_bind; [quiet|]. intros a. apply Quiet_bind; [quiet|]. intros e'. apply Quiet_emit; intros; rewrite list_elem_of_singleton; done.
  - quiet.
  - quiet.
  - quiet.
  - apply Quiet_bind; [quiet|]. intros e'. apply Quiet_if; [quiet|]. apply Quiet_if; [quiet|]. quiet.
  - quiet.
  - apply Quiet_bind; [quiet|]. intros e'. apply Quiet_emit; intros; rewrite list_elem_of_singleton; done.
  - quiet.
  - apply Quiet_modify. intros e'. by case_match.
  - apply Quiet_modify. intros e'. by case_match.
  - quiet.
  - quiet.
Qed.
(** What one input does to a session. *)
Lemma handle_moves i e : moves (said_by e i) e (handle m i e).1.2 (handle m i e).2.
Proof. unfold handle. apply moves_bind_post; [apply handle_input_moves|]. intros _. apply Quiet_settle. Qed.
End frames.

(** * Runs *)

Section runs.
Context `{PR : Primitives} `{PC : P256} `{HS : Hashes} `{BC : BleCodec}.
Implicit Types e : Engine.

(** What happens to an engine: an input at an instant, a restart over the same
    store, and what the console's logins and password changes write there. *)
Inductive Deed :=
| Handled (m : Moment) (i : Input)
| Restarted (facts : Facts) (wifi_locked : bool)
| VerifierWritten (v : result (option Registered))
| LockoutReset.
Definition deed (d : Deed) : Run unit :=
  match d with
  | Handled m i => handle m i
  | Restarted facts wifi_locked => modify (λ e, new_engine (en_store e) facts wifi_locked)
  | VerifierWritten v => put_store (λ st, {| sr_verifier := v; sr_lockout := sr_lockout st; sr_history := sr_history st |})
  | LockoutReset => put_store (λ st, {| sr_verifier := sr_verifier st; sr_lockout := no_lockout; sr_history := sr_history st |})
  end.
Fixpoint deeds (l : list Deed) : Run unit := match l with [] => ret tt | d :: l => let* _ := deed d in deeds l end.
(** The same, one deed at a time, with what came before and at which state. *)
Inductive ran : list (Engine * Deed) → Engine → Prop :=
| ran_new store facts wifi_locked : ran [] (new_engine store facts wifi_locked)
| ran_deed h e d : ran h e → ran ((e, d) :: h) (deed d e).1.2.

(** ** Who may spawn an operation *)

(** Some step of the history, and what was before it. *)
Definition step_of (h : list (Engine * Deed)) (P : Moment → Engine → Input → list (Engine * Deed) → Prop) : Prop :=
  ∃ h1 m e i h0, h = h1 ++ (e, Handled m i) :: h0 ∧ P m e i h0.
Definition leaves_at (serial : Z) m e i : Prop := current_serial (handle m i e).1.2 = Some serial.
(** An exchange under [auth] began while its window was open and the lockout
    was over, with the record that was the verifier or the manual window's. *)
Definition Began h serial auth record : Prop := step_of h (λ m e i _, leaves_at serial m e i ∧ began_at m e auth record).
(** Then it was answered, and the answer counted. *)
Definition Guessed h serial auth answer : Prop := step_of h (λ m e i h0, current_serial e = Some serial
  ∧ sr_lockout (en_store (handle m i e).1.2) = charge (mo_unix m) (sr_lockout (en_store e))
  ∧ ∃ record share_p y, Began h0 serial auth record ∧ answer_with record (transcript auth) share_p y = Some answer).
(** Then the phone said the confirmation the keys give. *)
Definition Proved h serial auth : Prop := step_of h (λ m e i h0, current_serial e = Some serial
  ∧ ∃ answer message, Guessed h0 serial auth answer ∧ said_by e i message ∧ binary (member message "confirmP") = Some (ky_confirm_p (an_keys answer))).
(** The unclaimed device's window was open. *)
Definition Opened h serial : Prop := step_of h (λ m e i _, leaves_at serial m e i ∧ anonymous_at m e ∧ fa_claimed (en_facts e) = false).
Definition founded h serial (p : Phase) : Prop :=
  match p with
  | Idle => True
  | Params auth record => Began h serial auth record
  | Confirm auth answer _ => Guessed h serial auth answer
  | Ready NoAuth _ _ => Opened h serial
  | Ready auth _ _ => Proved h serial auth
  end.

Lemma step_of_cons x h P : step_of h P → step_of (x :: h) P.
Proof. intros (h1 & m & e & i & h0 & -> & H). by exists (x :: h1), m, e, i, h0. Qed.
Lemma step_of_here e m i h (P : Moment → Engine → Input → list (Engine * Deed) → Prop) : P m e i h → step_of ((e, Handled m i) :: h) P.
Proof. intros H. by exists [], m, e, i, h. Qed.
Lemma founded_cons x h serial p : founded h serial p → founded (x :: h) serial p.
Proof. destruct p as [|a r|a an b|[] f t]; cbn; [done|apply step_of_cons..]. Qed.
Lemma founded_kept h serial p p' : kept_phase p p' → founded h serial p → founded h serial p'.
Proof. by intros [->|[->|(a & f & t & f' & t' & -> & ->)]]. Qed.
Lemma anonymous_unclaimed m e : anonymous_at m e → fa_claimed (en_facts e) = false.
Proof.
  intros (o & Hw & Ha). unfold window, current in Hw. destruct (fa_claimed (en_facts e)); [|done]. cbn [negb] in Hw. exfalso.
  destruct (_ ≫= _); [by injection Hw as <-|]. cbv zeta in Hw. destruct (_ && wd_claimed_at_boot _); [by injection Hw as <-|]. destruct (_ && _); [by injection Hw as <-|done].
Qed.
Lemma began_not_none h serial auth record : Began h serial auth record → auth ≠ NoAuth.
Proof. intros (h1 & m & e & i & h0 & _ & _ & H & _). exact H. Qed.
Lemma guessed_not_none h serial auth answer : Guessed h serial auth answer → auth ≠ NoAuth.
Proof. intros (h1 & m & e & i & h0 & _ & _ & _ & r & sp & y & H & _). by eapply began_not_none. Qed.
(** The session of every run is founded. *)
Lemma ran_founded h e : ran h e → ∀ c, en_connection e = Some c → founded h (cn_serial c) (cn_phase c).
Proof.
  induction 1 as [store facts wl|h e d Hr IH]; [done|]. intros c' E'. destruct d as [m i|facts wl|v|]; [|done|by apply founded_cons, IH..]. cbn [deed] in E'.
  pose proof (handle_moves m i e) as H. set (e' := (handle m i e).1.2) in *.
  assert (Hs : ∀ s, cn_serial c' = s → leaves_at s m e i) by (intros s <-; unfold leaves_at, current_serial; fold e'; by rewrite E').
  assert (Hq : kept_connection e e' → founded ((e, Handled m i) :: h) (cn_serial c') (cn_phase c')).
  { intros Hk. destruct (Hk c' E') as [->|(c & E & -> & Hp)]; [done|]. by eapply founded_kept, founded_cons, IH. }
  destruct H as [H|s a r H1 H2 H3 H4|s H1 H2 H3 H4|c a r sp y an H1 H2 H3 H4 H5 H6|c a an b msg H1 H2 H3 H4 H5 H6 H7|c a an b H1 H2 H3 H4 H5|c a f t H1 H2 H3 H4 H5 H6].
  - apply Hq, H.
  - destruct (H2 c' E') as [->|[Es ->]]; [done|]. apply step_of_here. split; [by apply Hs|exact H1].
  - destruct (H2 c' E') as [->|[Es (f & t & ->)]]; [done|]. apply step_of_here. split; [by apply Hs|]. split; [exact H1|by apply (anonymous_unclaimed m)].
  - destruct (H5 c' E') as [->|[Es ->]]; [done|]. rewrite Es. pose proof (IH c H1) as Hb. rewrite H2 in Hb. apply step_of_here. split; [unfold current_serial; by rewrite H1|].
    split; [exact H4|]. by exists r, sp, y.
  - destruct (H5 c' E') as [->|[Es (f & t & ->)]]; [done|]. rewrite Es. pose proof (IH c H1) as Hg. rewrite H2 in Hg. cbn in Hg. pose proof (guessed_not_none _ _ _ _ Hg) as Hn.
    assert (Hp : Proved ((e, Handled m i) :: h) (cn_serial c) a).
    { apply step_of_here. split; [unfold current_serial; by rewrite H1|]. by exists an, msg. }
    by destruct a.
  - by destruct (H4 c' E') as [->|[_ []]].
  - by apply Hq.
Qed.

(** C22: an operation a phone starts is of the session of the connection it is
    on. One on a claimed device, or one that changes anything on a device that
    was claimed meanwhile, was preceded on that connection by an exchange begun
    in an open window under its record with no lockout, by an answer that was
    counted, and by the confirmation only that answer's keys give; a session
    with none of that was opened on an unclaimed device, and changes it only
    while it is unclaimed. *)
Theorem provisioning_authorized h e m i serial id op (Hr : ran h e) (Hs : Spawn serial id op ∈ (handle m i e).2) :
  ∃ c auth f t, en_connection e = Some c ∧ cn_serial c = serial ∧ cn_phase c = Ready auth f t
    ∧ match auth with
      | NoAuth => Opened h serial ∧ (changes op = true → fa_claimed (mo_facts m) = false)
      | _ => Proved h serial auth
      end.
Proof.
  pose proof (ran_founded h e Hr) as IH.
  destruct (handle_moves m i e) as [H|s a r H1 H2 H3 H4|s H1 H2 H3 H4|c a r sp y an H1 H2 H3 H4 H5 H6|c a an b msg H1 H2 H3 H4 H5 H6 H7|c a an b H1 H2 H3 H4 H5|c a f t H1 H2 H3 H4 H5 H6];
    try by (match goal with H : silent _ |- _ => destruct (proj1 H serial id op Hs) end).
  - by destruct (quiet_spawns _ _ _ H serial id op).
  - by destruct (H6 serial id op).
  - destruct (H5 serial id op Hs) as [-> Hc]. exists c, a, f, t. split; [exact H1|]. split; [done|]. split; [exact H2|].
    pose proof (IH c H1) as Hf. rewrite H2 in Hf. destruct a; [|exact Hf..]. split; [exact Hf|]. intros Hch. by apply Hc.
Qed.

(** ** How often the code may be guessed *)

Definition confirming e : bool := match en_connection e with Some c => match cn_phase c with Confirm _ _ _ => true | _ => false end | None => false end.
(** The device answers an exchange: its confirmation tells the phone whether
    the code it used was right. *)
Definition answered (d : Deed) e : bool :=
  match d with Handled m i => negb (confirming e) && confirming (handle_input m i e).1.2 | _ => false end.
Fixpoint answers (l : list Deed) e : Z :=
  match l with [] => 0 | d :: l => (if answered d e then 1 else 0) + answers l (deed d e).1.2 end.
(** The clock at the end, where it never steps back nor near the end of the [u64]. *)
Fixpoint ends_at (t : Z) (l : list Deed) : option Z :=
  match l with
  | [] => Some t
  | Handled m _ :: l => if (t <=? mo_unix m) && (mo_unix m + 86400 <=? U64_MAX) then ends_at (mo_unix m) l else None
  | _ :: l => ends_at t l
  end.
(** What the first [n] lockouts last. *)
Fixpoint locked_time (n : nat) : Z :=
  match n with O => 0 | S n => locked_time n + default 0 (LOCKOUTS !! Z.to_nat (Z.min (Z.of_nat n) (len LOCKOUTS - 1))) end.

Lemma locked_time_S n : locked_time (S n) = locked_time n + (if (n =? 0)%nat then 600 else if (n =? 1)%nat then 3600 else 86400).
Proof.
  cbn [locked_time]. change (len LOCKOUTS - 1) with 2. destruct n as [|[|n]]; [done..|]. rewrite Z.min_r by lia. done.
Qed.
Lemma locked_time_mono a b : (a ≤ b)%nat → locked_time a ≤ locked_time b.
Proof. induction 1 as [|b _ IH]; [lia|]. rewrite locked_time_S. repeat case_match; lia. Qed.

(** After [k] lockouts since [t0] and at most [n] answers: an exchange that may
    still be answered began when the last lockout was over. *)
Definition exchanging e : Prop := ∃ c auth record, en_connection e = Some c ∧ cn_phase c = Params auth record.
Definition paced (t0 now n : Z) e : Prop :=
  let l := sr_lockout (en_store e) in
  ∃ k : nat, lockout_ok l ∧ Z.min (Z.of_nat k) 2 ≤ lk_level l ∧ n ≤ 5 * Z.of_nat k + lk_failures l ∧ t0 + locked_time (k - 1) ≤ now
    ∧ (k ≠ 0%nat → ∃ u, lk_locked_until l = Some u ∧ t0 + locked_time k ≤ u)
    ∧ (exchanging e → t0 + locked_time k ≤ now).

Lemma paced_later t0 now now' n e : now ≤ now' → paced t0 now n e → paced t0 now' n e.
Proof. intros Hn (k & H1 & H2 & H3 & H4 & H5 & H6). exists k. split_and!; try done; [lia|]. intros H. specialize (H6 H). lia. Qed.
Lemma paced_same t0 now n e e' : sr_lockout (en_store e') = sr_lockout (en_store e) → (exchanging e' → exchanging e) → paced t0 now n e → paced t0 now n e'.
Proof. intros Hl Hx (k & H1 & H2 & H3 & H4 & H5 & H6). exists k. rewrite Hl. split_and!; try done. intros H. by apply H6, Hx. Qed.
Lemma kept_exchanging e e' : kept_connection e e' → exchanging e' → exchanging e.
Proof.
  intros Hk (c' & a & r & E' & Ep). destruct (Hk c' E') as [H|(c & E & _ & Hp)]; [congruence|]. rewrite Ep in Hp.
  destruct Hp as [Hp|[Hp|(? & ? & ? & ? & ? & _ & Hp)]]; [|done..]. by exists c, a, r.
Qed.
Lemma quiet_paced t0 now n e e' l : quiet e e' l → paced t0 now n e → paced t0 now n e'.
Proof. intros H. apply paced_same; [apply H|]. apply kept_exchanging, H. Qed.
(** It began: the lockout was over. *)
Lemma began_paced t0 m n e e' auth record : 0 ≤ t0 → began_at m e auth record → sr_lockout (en_store e') = sr_lockout (en_store e) →
  t0 ≤ mo_unix m → paced t0 (mo_unix m) n e → paced t0 (mo_unix m) n e'.
Proof.
  intros H0 (_ & _ & _ & _ & Hl) He Ht (k & H1 & H2 & H3 & H4 & H5 & H6). exists k. rewrite He. split_and!; try done. intros _.
  destruct (decide (k = 0%nat)) as [->|Hk]; [cbn; lia|]. destruct (H5 Hk) as (u & Hu & Hle). unfold locked_for, remaining in Hl. rewrite Hu in Hl. cbn in Hl.
  destruct (Z.ltb_spec (mo_unix m) u); [done|lia].
Qed.
(** It was answered: the count goes up, or a longer lockout begins. *)
Lemma guess_paced t0 m n e e' : 0 ≤ t0 ≤ mo_unix m → mo_unix m + 86400 ≤ U64_MAX → exchanging e → ¬ exchanging e' →
  sr_lockout (en_store e') = charge (mo_unix m) (sr_lockout (en_store e)) → paced t0 (mo_unix m) n e → paced t0 (mo_unix m) (n + 1) e'.
Proof.
  intros H0 Hb Hx Hx' He (k & H1 & H2 & H3 & H4 & H5 & H6). specialize (H6 Hx).
  pose proof (charge_ok (mo_unix m) _ H1 ltac:(lia) Hb) as Hok. rewrite <-He in Hok.
  destruct (charge_cases (mo_unix m) _ H1 ltac:(lia) Hb) as [(Hf & Hc)|(Hf & d & Hd1 & Hd2 & Hd3 & Hc)]; rewrite Hc in He.
  - exists k. rewrite He. cbn [lk_failures lk_level lk_locked_until] in *. rewrite He in Hok. split_and!; try done; lia.
  - exists (S k). rewrite He in Hok |- *. cbn [lk_failures lk_level lk_locked_until].
    assert (Hdk : locked_time (S k) ≤ locked_time k + d).
    { rewrite locked_time_S. destruct k as [|[|k]]; cbn [Nat.eqb]; [lia|specialize (Hd2 ltac:(lia)); lia|]. rewrite Hd3 by lia. lia. }
    replace (S k - 1)%nat with k by lia. unfold U32_MAX. destruct H1 as [_ H1]. split_and!; try done; try lia. intros _. eexists. split; [reflexivity|]. lia.
Qed.
Lemma paced_fewer t0 now n n' e : n' ≤ n → paced t0 now n e → paced t0 now n' e.
Proof. intros Hn (k & H1 & H2 & H3 & H4 & H5 & H6). exists k. split_and!; try done. lia. Qed.
Lemma kept_confirming e e' : kept_connection e e' → confirming e' = true → confirming e = true.
Proof.
  intros Hk. unfold confirming. destruct (en_connection e') as [c'|] eqn:E'; [|done]. destruct (cn_phase c') as [| |a an b|] eqn:Ep; try done. intros _.
  destruct (Hk c' E') as [H|(c & E & _ & Hp)]; [congruence|]. rewrite E. rewrite Ep in Hp. destruct Hp as [<-|[Hp|(? & ? & ? & ? & ? & _ & Hp)]]; done.
Qed.
Lemma at_confirming e' serial (P : Phase → Prop) : at_phase e' serial P → (∀ a an b, ¬ P (Confirm a an b)) → confirming e' = false.
Proof.
  intros H Hn. unfold confirming. destruct (en_connection e') as [c'|] eqn:E'; [|done]. destruct (H c' E') as [->|[_ Hp]]; [done|].
  destruct (cn_phase c'); try done. by destruct (Hn _ _ _ Hp).
Qed.

(** A hash that expands to any length, and an AEAD that takes keys of 32 bytes. *)
Definition keys_always : Prop := (∀ ikm, ∃ out, BleChannel.hkdf [] ikm BleChannel.KEYS_INFO 64 = Some out ∧ length out = 64%nat)
  ∧ ∀ key, length key = 32%nat → is_Some (BleChannel.aead_new key).
Lemma keys_always_seal shared : keys_always →
  (keys ← session_keys [] shared; _ ← new_records (sk_phone_to_device keys); new_records (sk_device_to_phone keys)) ≠ None.
Proof.
  intros [Hh Ha]. destruct (Hh shared) as (out & Eo & Hl). unfold session_keys. rewrite Eo. cbn [mbind option_bind]. unfold new_records. cbn [sk_phone_to_device sk_device_to_phone].
  destruct (Ha (take 32 out)) as [k ->]; [rewrite length_take; lia|]. cbn. destruct (Ha (drop 32 out)) as [k' E]; [rewrite length_drop; lia|]. cbn in E. by rewrite E.
Qed.
Lemma handle_paced t0 t n m i e : keys_always → 0 ≤ t0 ≤ t → t ≤ mo_unix m → mo_unix m + 86400 ≤ U64_MAX →
  Audit "ble-auth" "succeeded" ∉ (handle m i e).2 → paced t0 t n e → paced t0 (mo_unix m) (n + if answered (Handled m i) e then 1 else 0) (handle m i e).1.2.
Proof.
  intros Hk H0 Ht Hb Hs Hp. apply (paced_later _ _ (mo_unix m)) in Hp; [|done]. unfold handle in *. rewrite bind_run in *. cbn [fst snd] in *.
  set (e1 := (handle_input m i e).1.2) in *. eapply quiet_paced; [apply Quiet_settle|]. unfold answered. fold e1.
  assert (Hkeep : confirming e1 = false ∨ confirming e = true → negb (confirming e) && confirming e1 = false) by (intros [->| ->]; [apply andb_false_r|done]).
  assert (Hq : kept_connection e e1 → confirming e1 = false ∨ confirming e = true).
  { intros H. destruct (confirming e1) eqn:E; [right|by left]. by eapply kept_confirming. }
  destruct (handle_input_moves m i e) as [H|s a r H1 H2 H3 H4|s H1 H2 H3 H4|c a r sp y an H1 H2 H3 H4 H5 H6|c a an b msg H1 H2 H3 H4 H5 H6 H7|c a an b H1 H2 H3 H4 H5|c a f t1 H1 H2 H3 H4 H5 H6].
  - rewrite Hkeep by apply Hq, H. rewrite Z.add_0_r. by eapply quiet_paced.
  - rewrite Hkeep by (left; eapply at_confirming; [exact H2|done]). rewrite Z.add_0_r. eapply began_paced; [|exact H1|exact H3| |exact Hp]; lia.
  - rewrite Hkeep by (left; eapply at_confirming; [exact H2|by intros ? ? ? (? & ? & ?)]). rewrite Z.add_0_r. eapply paced_same; [exact H3| |exact Hp].
    intros (c' & a & r & E' & Ep). destruct (H2 c' E') as [Hi|[_ (f & u & Hi)]]; congruence.
  - eapply (paced_fewer _ _ (n + 1)); [case_match; lia|]. eapply guess_paced; [lia|exact Hb|by exists c, a, r| |exact H4|exact Hp].
    intros (c' & a' & r' & E' & Ep). destruct (H5 c' E') as [Hi|[_ Hi]]; congruence.
  - destruct Hs. apply elem_of_app. by left.
  - by destruct (keys_always_seal (ky_shared (an_keys an)) Hk).
  - rewrite Hkeep by by apply Hq. rewrite Z.add_0_r. eapply paced_same; [exact H4|by apply kept_exchanging|exact Hp].
Qed.
Lemma deeds_paced l t0 t n e t' : keys_always → 0 ≤ t0 ≤ t → ends_at t l = Some t' → LockoutReset ∉ l →
  Audit "ble-auth" "succeeded" ∉ (deeds l e).2 → paced t0 t n e → ∃ e', paced t0 t' (n + answers l e) e'.
Proof.
  intros Hk. revert t n e. induction l as [|d l IH]; intros t n e H0 Ht Hr Hs Hp; [injection Ht as <-; exists e; by rewrite Z.add_0_r|].
  cbn [deeds] in Hs. rewrite bind_run in Hs. cbn [snd] in Hs. apply not_elem_of_app in Hs as [Hs1 Hs2]. apply not_elem_of_cons in Hr as [Hd Hr]. cbn [answers]. rewrite Z.add_assoc.
  destruct d as [m i|facts wl|v|]; cbn [ends_at] in Ht.
  - destruct (Z.leb_spec t (mo_unix m)); [|done]. destruct (Z.leb_spec (mo_unix m + 86400) U64_MAX); [|done]. apply (IH (mo_unix m)); [lia|exact Ht|exact Hr|exact Hs2|].
    by eapply handle_paced.
  - apply (IH t); [lia|exact Ht|exact Hr|exact Hs2|]. rewrite Z.add_0_r. apply (paced_same _ _ _ e); [done| |exact Hp]. by intros (c & a & r & E & _).
  - apply (IH t); [lia|exact Ht|exact Hr|exact Hs2|]. rewrite Z.add_0_r. apply (paced_same _ _ _ e); [done| |exact Hp]. by intros (c & a & r & E & Ep); exists c, a, r.
  - done.
Qed.

(** C23: however a phone guesses, restarts of the device and changes of the
    password included, [n] answers since the last success take at least what
    the first [n / 5 - 1] lockouts last: ten minutes, an hour, then a day each. *)
Theorem ble_guesses_bounded l e t0 t (Hk : keys_always) (Hok : lockout_ok (sr_lockout (en_store e))) (He : ¬ exchanging e) (H0 : 0 ≤ t0)
    (Ht : ends_at t0 l = Some t) (Hr : LockoutReset ∉ l) (Hs : Audit "ble-auth" "succeeded" ∉ (deeds l e).2) :
  locked_time (Z.to_nat (answers l e / 5) - 1) ≤ t - t0.
Proof.
  destruct (deeds_paced l t0 t0 0 e t Hk ltac:(lia) Ht Hr Hs) as [e' (k & H1 & H2 & H3 & H4 & H5 & H6)].
  - exists 0%nat. split_and!; try done; try lia; [apply Hok|destruct Hok; lia|cbn; lia].
  - assert (Hd : answers l e / 5 ≤ Z.of_nat k) by (destruct H1 as [[_ H1] _]; unfold BleWindow.MAX_FAILURES in H1; apply Z.lt_succ_r, Z.div_lt_upper_bound; lia).
    pose proof (locked_time_mono (Z.to_nat (answers l e / 5) - 1) (k - 1) ltac:(lia)). lia.
Qed.
End runs.

(** * A bench: the toy primitives, and a codec that knows a phone's messages *)

#[local] Existing Instance BleChannel.plain.
#[local] Existing Instance Spake.toy_group.
#[local] Existing Instance Spake.toy_hashes.
Definition bench_record : Registered := Spake.register (str_bytes "pw") [] 300000 ID_PROVER ID_VERIFIER.
Definition bench_share : bytes := default [] (Spake.phone_share 1 2).
Definition bench_proof (auth : Auth) : string :=
  match answer_with bench_record (transcript auth) bench_share 4 with Some a => bytes_str (ky_confirm_p (an_keys a)) | None => "" end.
Definition bench_message (text : string) : option value :=
  List.find (λ r, bool_decide (r.1 = text))
    [("none", obj [("t", Str "start"); ("auth", Str "none"); ("pub", Str "0123456789abcdef0123456789abcdef")]);
     ("password", obj [("t", Str "start"); ("auth", Str "password")]);
     ("temp", obj [("t", Str "start"); ("auth", Str "temp-code")]);
     ("share", obj [("t", Str "share"); ("shareP", Str (bytes_str bench_share))]);
     ("proof", obj [("t", Str "confirm"); ("confirmP", Str (bench_proof Password))]);
     ("code proof", obj [("t", Str "confirm"); ("confirmP", Str (bench_proof TempCode))]);
     ("net", obj [("id", Number "1"); ("op", Str "setNetwork"); ("interface", Str "lan0"); ("dhcp", Bool true)])] ≫= λ r, Some r.2.
#[local] Instance bench_codec : BleCodec :=
  {| json_text _ := []; json_of b := bench_message (bytes_str b); base64 := bytes_str; base64_decode t := Some (str_bytes t) |}.
Definition bench_facts (claimed : bool) : Facts :=
  {| fa_claimed := claimed; fa_hostname := "mica"; fa_model := "m"; fa_auto_when_offline := true; fa_has_wifi := true; fa_web := SettingsModel.default_web |}.
Definition bench_moment (claimed : bool) (uptime unix : Z) : Moment :=
  {| mo_uptime := uptime; mo_unix := unix; mo_facts := bench_facts claimed; mo_settled := bench_facts claimed; mo_snapshot := Null;
     mo_scalar := Some 4; mo_private := Some (str_bytes "key"); mo_lockout_written := true; mo_history_written := true |}.
Definition bench_engine (claimed : bool) : Engine :=
  new_engine {| sr_verifier := Ok (Some bench_record); sr_lockout := no_lockout; sr_history := [] |} (bench_facts claimed) false.
Definition in_one (message : bytes) : bytes := default [] (head (fragments message 500)).
Definition says (text : string) : Input := Write "phone" (Some 517) WriteSession (in_one (str_bytes text)).
(** The [n]th record of a session, sealed. *)
Definition orders (n : Z) (text : string) : Input := Write "phone" (Some 517) WriteCommand (in_one (BleChannel.nonce_of n ++ str_bytes text)).
Definition is_success (x : Effect) : bool := match x with Audit event outcome => bool_decide (event = "ble-auth" ∧ outcome = "succeeded") | _ => false end.
Definition is_restore (x : Effect) : bool := match x with RestoreNetwork _ => true | _ => false end.
Lemma no_success l : existsb is_success l = false → Audit "ble-auth" "succeeded" ∉ l.
Proof. intros H Hin. apply not_true_iff_false in H. apply H, existsb_exists. eexists. split; [by apply list_elem_of_In|done]. Qed.

Lemma provisioning_authorized_witness :
  let m := bench_moment true 10 1000 in
  let e0 := bench_engine true in
  let e1 := (deed (Handled m (says "password")) e0).1.2 in
  let e2 := (deed (Handled m (says "share")) e1).1.2 in
  let e3 := (deed (Handled m (says "proof")) e2).1.2 in
  let h := [(e2, Handled m (says "proof")); (e1, Handled m (says "share")); (e0, Handled m (says "password"))] in
  ∃ c auth f t, en_connection e3 = Some c ∧ cn_serial c = 1 ∧ cn_phase c = Ready auth f t
    ∧ match auth with NoAuth => Opened h 1 ∧ (true = true → fa_claimed (mo_facts m) = false) | _ => Proved h 1 auth end.
Proof.
  intros m e0 e1 e2 e3 h. apply (provisioning_authorized h e3 m (orders 0 "net") 1 (Number "1") (OpNetwork "lan0" (obj [("dhcp", Bool true)]))).
  - exact (ran_deed _ e2 _ (ran_deed _ e1 _ (ran_deed [] e0 _ (ran_new _ _ _)))).
  - apply (list_elem_of_lookup_2 _ 1). vm_compute. reflexivity.
Defined.

(** Five answers, a restart, and five more once the first lockout is over. *)
Definition bench_guesses (unix : Z) : list Deed :=
  concat (replicate 5 [Handled (bench_moment true 10 unix) (says "password"); Handled (bench_moment true 10 unix) (says "share")]).
Lemma ble_guesses_bounded_witness :
  let l := bench_guesses 1000 ++ [Restarted (bench_facts true) false] ++ bench_guesses 1600 in
  answers l (bench_engine true) = 10 ∧ locked_time (Z.to_nat (10 / 5) - 1) ≤ 1600 - 1000.
Proof.
  intros l. assert (H : answers l (bench_engine true) = 10) by (vm_compute; reflexivity). split; [exact H|]. rewrite <-H.
  apply (ble_guesses_bounded l (bench_engine true) 1000 1600).
  - split; [intros ikm; eexists; split; [reflexivity|]|by eexists]. rewrite length_take, length_app, length_replicate. lia.
  - vm_compute. intuition congruence.
  - by intros (c & a & r & E & _).
  - lia.
  - reflexivity.
  - rewrite list_elem_of_In. vm_compute. intuition congruence.
  - apply no_success. vm_compute. reflexivity.
Defined.

(** * What the order of things does *)

(** The phone leaves while its wired entry is being written: the entry it
    replaced is put back two minutes later where the write ended first, and
    stays replaced where the write ended after the phone left. *)
Definition leaves (late : bool) : list Deed :=
  let m := bench_moment false 10 1000 in
  let saved := Handled m (NetworkSaved 1 "lan0" Null) in
  let gone := Handled m (Disconnected "phone") in
  [Handled m (says "none"); Handled m (orders 0 "net")] ++ (if late then [gone; saved] else [saved; gone]) ++ [Handled (bench_moment false 200 1200) Tick].
Example late_write_is_kept :
  existsb is_restore (deeds (leaves false) (bench_engine false)).2 = true ∧ existsb is_restore (deeds (leaves true) (bench_engine false)).2 = false.
Proof. split; vm_compute; reflexivity. Qed.

(** A phone that has begun an exchange under the manual window's code ends it
    after the console closed the window. *)
Definition closed_early : list Deed :=
  let m := bench_moment true 700 1000 in
  [Handled m (OpenManual 300 "code" bench_record); Handled m (says "temp"); Handled m CloseManual].
Example closed_code_still_proves : let e := (deeds closed_early (bench_engine true)).1.2 in
  en_temp_code e = None ∧ window (bench_moment true 700 1000) e = None
  ∧ existsb is_success (deeds (map (Handled (bench_moment true 700 1000)) [says "share"; says "code proof"]) e).2 = true.
Proof. split_and!; vm_compute; reflexivity. Qed.

(** Five answers the phone does not follow up lock, and the manual window and
    its code stay. *)
Definition given_up : list Deed :=
  let m := bench_moment true 700 1000 in
  Handled m (OpenManual 1800 "code" bench_record) :: concat (replicate 5 [Handled m (says "temp"); Handled m (says "share")]) ++ [Handled m (Disconnected "phone")].
Example given_up_lockout_keeps_code : let e := (deeds given_up (bench_engine true)).1.2 in
  locked_for (bench_moment true 700 1000) e = Some 600
  ∧ en_temp_code e = Some ("code", bench_record) ∧ window (bench_moment true 1301 1601) e = Some {| op_trigger := Manual; op_auth := TempCode; op_closes_at := Some 2500 |}
  ∧ locked_for (bench_moment true 1301 1601) e = None.
Proof. split_and!; vm_compute; reflexivity. Qed.
End BleEngine.
