(* ===== verification/Persist.v ===== *)
(** Settings writes in micad ([src/crates/micad/src/bus/apply.rs]): what one
    write is held to before it is stored, how calls interleave around the locks
    it takes, and how the apply worker records a reconcile and puts a network
    map that could not be brought up back in the store. *)
From Stdlib Require Import Ascii.
From S2P Require Import Prelude Text Files Order Maps Chars Features Addresses SettingsModel SettingsRules DotPath NetworkRules SettingsTree Transaction Store ApplyQueue CoreSet.
Import Features SettingsModel DotPath SettingsTree Transaction.
Import Files(node(..), tree) CoreSet(quoted).
Import Store(DocumentRefusal, rf_document, rf_message, rf_subtrees, rf_path, StoreAt, st_preserve, st_path, st_config, preserving, save_settings,
  Formats, config_file).

Module Persist.

(** * The daemon's data *)

(** The device's configuration, fixed while the daemon runs. *)
Record Device := { dv_features : list Feature; dv_engine : ContainerEngine; dv_init : Init; dv_store : StoreAt }.
(** The settings tree and the live state under one lock, the refusals of the
    load under another, and the disk the store writes. *)
Record Service := {
  sv_disk : Disk; sv_settings : Settings; sv_live : smap value; sv_applied : option (smap IfaceSettings);
  sv_refusals : list DocumentRefusal;
}.
Definition with_disk (d : Disk) (sv : Service) : Service :=
  {| sv_disk := d; sv_settings := sv_settings sv; sv_live := sv_live sv; sv_applied := sv_applied sv; sv_refusals := sv_refusals sv |}.
Definition with_settings (s : Settings) (sv : Service) : Service :=
  {| sv_disk := sv_disk sv; sv_settings := s; sv_live := sv_live sv; sv_applied := sv_applied sv; sv_refusals := sv_refusals sv |}.
Definition with_live (live : smap value) (sv : Service) : Service :=
  {| sv_disk := sv_disk sv; sv_settings := sv_settings sv; sv_live := live; sv_applied := sv_applied sv; sv_refusals := sv_refusals sv |}.
Definition with_applied (network : smap IfaceSettings) (sv : Service) : Service :=
  {| sv_disk := sv_disk sv; sv_settings := sv_settings sv; sv_live := sv_live sv; sv_applied := Some network; sv_refusals := sv_refusals sv |}.
Definition with_refusals (l : list DocumentRefusal) (sv : Service) : Service :=
  {| sv_disk := sv_disk sv; sv_settings := sv_settings sv; sv_live := sv_live sv; sv_applied := sv_applied sv; sv_refusals := l |}.

Definition refusal_covers (refusal : DocumentRefusal) (path : string) : bool := existsb (paths_overlap path) (rf_subtrees refusal).
Definition Writes := list (string * value).
Definition repairs (writes : Writes) (refusal : DocumentRefusal) : bool := existsb (λ w, refusal_covers refusal w.1) writes.
(** The path a refusal of the write as a whole names. *)
Definition first_path (writes : Writes) : string := match writes with (path, _) :: _ => path | [] => "" end.
Definition refuse {A} (writes : Writes) (message : string) : sresult A := inl (Validation (first_path writes) message).

(** * What a write is held to *)

(** A project's text and directory. *)
Definition Project := (string * option string)%type.
Definition project_of (s : Settings) (name : string) : option Project :=
  text ← smap_get name (ct_projects (s_container s)); Some (text, smap_get name (ct_project_dirs (s_container s))).
Definition changed_projects (current next : Settings) : list (string * Project) :=
  omap (λ name, now ← project_of next name; if bool_decide (project_of current name = Some now) then None else Some (name, now))
    (map fst (ct_projects (s_container next))).

(** The sentence a refused check is written as. *)
Definition compose_refusal (project : string) (outcome : value) : option string :=
  match member outcome "ok" with
  | Bool true => None
  | _ => Some ("container project " +:+ quoted project +:+ " is refused: "
               +:+ match member outcome "detail" with Str detail => detail | _ => "the Compose file is refused" end)
  end.
(** mica-containerd's answers on the changed projects, in their order; an answer
    can be that the check could not run. The first refusal ends the checking. *)
Fixpoint check_answers (path : string) (check : string → Project → string + value) (changed : list (string * Project)) (checked : smap Project) : sresult (smap Project) :=
  match changed with
  | [] => inr checked
  | (name, project) :: changed =>
      match match check name project with
            | inr outcome => compose_refusal name outcome
            | inl err => Some ("container project " +:+ quoted name +:+ " cannot be checked: " +:+ err)
            end with
      | Some message => inl (Validation path message)
      | None => check_answers path check changed (smap_insert name project checked)
      end
  end.

(** What the device ships: whether it has [mica-unit], the names the root
    ships, and the units of installed apps by their app. *)
Record Host := { ho_mica_unit : bool; ho_shipped : string → bool; ho_owners : smap string }.
(** [UserUnits::check_written]. *)
Definition check_unit (dv : Device) (ho : Host) (current : ServicesSettings) (e : string * UserUnit) : result unit :=
  let '(name, unit) := e in
  if bool_decide (smap_get name (sv_units current) = Some unit) then Ok tt
  else
    ensure bool_decide (un_kind unit = dv_init dv) else "service is for another init" in
    ensure ho_mica_unit ho else "this root has no /usr/sbin/mica-unit, which keeps the user's services" in
    let aliases := match dv_init dv with Systemd => SettingsRules.unit_install_values (un_text unit) "Alias" | Openrc => [] end in
    ensure negb (existsb (ho_shipped ho) (name :: aliases)) else "is shipped by the root; a user service cannot replace it" in
    Ok tt.
Definition check_written (dv : Device) (ho : Host) (current next : ServicesSettings) : result unit :=
  each (check_unit dv ho current) (sv_units next).
(** The first new unit under an installed app's name, and the app. *)
Definition taken_unit (ho : Host) (current next : ServicesSettings) : option (string * string) :=
  head (omap (λ name, app ← smap_get name (ho_owners ho); Some (name, app))
    (List.filter (λ name, bool_decide (smap_get name (sv_units current) = None)) (map fst (sv_units next)))).

Section writes.
Context `{SD : Serde} (dv : Device).

(** Each write in order, or the first refusal. *)
Fixpoint apply_writes (s : Settings) (writes : Writes) : sresult Settings :=
  match writes with
  | [] => inr s
  | (path, v) :: rest => let/ s := set_setting s path v in apply_writes s rest
  end.

(** Before any lock: a path inside a feature the product does not carry; then
    the documents this write must leave alone. *)
Fixpoint not_served (writes : Writes) : sresult unit :=
  match writes with
  | [] => inr tt
  | (path, _) :: rest => match refuses (dv_features dv) path with Some f => inl (NotServed path f) | None => not_served rest end
  end.
Definition preserved (writes : Writes) (refusals : list DocumentRefusal) : list string :=
  map rf_document (List.filter (λ r, negb (repairs writes r)) refusals).
Definition persist_begin (writes : Writes) (sv : Service) : sresult (list string) :=
  let/ _ := not_served writes in inr (preserved writes (sv_refusals sv)).

(** The projects to check, of the tree as it is now; a write that does not
    parse is left to the tree to refuse. *)
Definition check_begin (writes : Writes) (sv : Service) : sresult (list (string * Project)) :=
  let current := sv_settings sv in
  match apply_writes current writes with
  | inl _ => inr []
  | inr candidate =>
      let before := s_container current in
      let after := s_container candidate in
      if bool_decide (dv_engine dv = Docker)
         && (negb (bool_decide (ct_projects before = ct_projects after)) || negb (bool_decide (ct_project_dirs before = ct_project_dirs after)))
         && negb (is_nil (ct_projects after) && is_nil (ct_project_dirs after))
      then refuse writes "this is a docker product: containers are made with docker and docker compose, not declared to micad"
      else inr (changed_projects current candidate)
  end.

(** A feature the product does not carry keeps whatever it holds. *)
Fixpoint features_kept (path : string) (features : list Feature) (current candidate : Settings) : sresult unit :=
  match features with
  | [] => inr tt
  | f :: rest =>
      if has (dv_features dv) f then features_kept path rest current candidate
      else
        let/ a := get_setting candidate (subtree f) in
        let/ b := get_setting current (subtree f) in
        if bool_decide (a = b) then features_kept path rest current candidate else inl (NotServed path f)
  end.
(** The tree a write stores, decided under the lock. *)
Definition commit_candidate (ho : Host) (writes : Writes) (claim : bool) (checked : smap Project) (current : Settings) : sresult Settings :=
  if claim && bool_decide (is_Some (ac_web_admin (s_access current))) then inl Claimed
  else
    let/ candidate := apply_writes current writes in
    match check_written dv ho (s_services current) (s_services candidate) with
    | Err (Msg message) => refuse writes message
    | Err e => inl (Io e)
    | Ok _ =>
        match taken_unit ho (s_services current) (s_services candidate) with
        | Some (unit, app) => refuse writes ("unit_taken: " +:+ unit +:+ " is app " +:+ app +:+ "'s")
        | None =>
            if existsb (λ e, negb (bool_decide (smap_get e.1 checked = Some e.2))) (changed_projects current candidate)
            then refuse writes "the container projects changed while this write was checked; send it again"
            else let/ _ := features_kept (first_path writes) ALL current candidate in inr candidate
        end
    end.
End writes.
(** * Storing a write *)

Section store.
Context `{SD : Serde} `{FM : Formats} `{JC : JournalCodec} (dv : Device).

(** A step on the service's disk. *)
Definition on_disk {A} (m : M Disk A) : M Service A := λ sv,
  let o := m (sv_disk sv) in
  Outcome (o_result o) (with_disk (o_state o) sv) (λ sv', ∃ d, o_crash o d ∧ sv' = with_disk d sv).
(** Save a tree beside the documents to leave alone; it is the tree then. *)
Definition store_tree (preserve : list string) (candidate : Settings) : M Service (sresult unit) :=
  let! saved := on_disk (save_settings (preserving preserve (dv_store dv)) candidate) in
  match saved with
  | inl e => sret (inl e)
  | inr _ => let! _ := swrite (with_settings candidate) in sret (inr tt)
  end.
(** The critical section of [persist_settings_as]. *)
Definition persist_commit (ho : Host) (writes : Writes) (claim : bool) (preserve : list string) (checked : smap Project) : M Service (sresult unit) := λ sv,
  match commit_candidate dv ho writes claim checked (sv_settings sv) with
  | inl e => sret (inl e) sv
  | inr candidate => store_tree preserve candidate sv
  end.

(** The refusals in the live state, under [configuration]. *)
Definition refusal_json (r : DocumentRefusal) : value :=
  obj [("document", Str (rf_document r)); ("path", Str (rf_path r)); ("message", Str (rf_message r)); ("subtrees", Array (map Str (rf_subtrees r)))].
Definition publish_refusals (refusals : list DocumentRefusal) (sv : Service) : Service :=
  with_live (smap_insert "configuration" (obj [("refused", Array (map refusal_json refusals))]) (sv_live sv)) sv.
(** The write landed: the refusals of the documents it reached are over;
    whether there were any. *)
Definition persist_finish (writes : Writes) (sv : Service) : Service * bool :=
  let kept := List.filter (λ r, negb (repairs writes r)) (sv_refusals sv) in
  (with_refusals kept sv, negb (Nat.eqb (length kept) (length (sv_refusals sv)))).

(** * Reconciling *)

(** What an apply of one reconciler answers: its state, or an error that may
    say it rolled back. *)
Inductive Applied := AppliedOk (state : value) | AppliedErr (message : string) (rolled_back : bool).
Definition record (name : string) (a : Applied) (live : smap value) : smap value * option string :=
  match a with
  | AppliedOk state => (smap_insert name state live, None)
  | AppliedErr message rolled_back =>
      (smap_insert name (obj ([("error", Str message)] ++ if rolled_back then [("rolledBack", Bool true)] else [])) live,
       Some (name +:+ ": " +:+ message))
  end.
Definition reconciler_runs (path : string) (keep : string → bool) (r : ApplyQueue.Reconciler) : bool := ApplyQueue.runs path r && keep (ApplyQueue.r_name r).
(** One reconciler of the loop, over the settings and refusals it started with. *)
Definition reconcile_one (path : string) (keep : string → bool) (settings : Settings) (refused : list DocumentRefusal)
    (apply : ApplyQueue.Reconciler → Settings → Applied) (r : ApplyQueue.Reconciler) (st : Service * list string) : Service * list string :=
  let '(sv, failures) := st in
  if negb (reconciler_runs path keep r) then (sv, failures)
  else
    match List.find (λ refusal, refusal_covers refusal (ApplyQueue.r_subtree r)) refused with
    | Some refusal => (with_live (smap_insert (ApplyQueue.r_name r) (obj [("refused", Str (rf_message refusal))]) (sv_live sv)) sv, failures)
    | None =>
        let result := apply r settings in
        let sv := if bool_decide (ApplyQueue.r_subtree r = "network") && match result with AppliedOk _ => true | _ => false end
                  then with_applied (s_network settings) sv else sv in
        let '(live, failure) := record (ApplyQueue.r_name r) result (sv_live sv) in
        (with_live live sv, failures ++ match failure with Some f => [f] | None => [] end)
    end.
Definition reconcile_matching (reconcilers : list ApplyQueue.Reconciler) (path : string) (keep : string → bool)
    (apply : ApplyQueue.Reconciler → Settings → Applied) (sv : Service) : Service * list string :=
  foldl (λ st r, reconcile_one path keep (sv_settings sv) (sv_refusals sv) apply r st) (sv, []) reconcilers.
Definition DEFERRED : list string :=
  ["web"; "mdns"; "ssdp"; "dns"; "sshd"; "wifiClient"; "wifiAp"; "container"; "mqtt"; "time"; "services"; "bluetooth"].
Definition is_deferred (name : string) : bool := bool_decide (name ∈ DEFERRED).
Definition reconcile_subtree reconcilers path apply sv := reconcile_matching reconcilers path (λ _, true) apply sv.
(** Before micad is on the bus, and after. *)
Definition apply_startup reconcilers apply sv := reconcile_matching reconcilers "" (λ name, negb (is_deferred name)) apply sv.
Definition apply_before_scan reconcilers apply sv := reconcile_matching reconcilers "" (λ name, is_deferred name && negb (bool_decide (name = "wifiAp"))) apply sv.
Definition apply_deferred reconcilers apply sv := reconcile_matching reconcilers "" is_deferred apply sv.
(** [DeferredApply::run]'s loop: an attempt at each time of its clock, what the
    daemons answer to it, until one has no failures or the next would be late. *)
Fixpoint deferred_loop (reconcilers : list ApplyQueue.Reconciler) (deadline pause : Z) (attempts : list (Z * (ApplyQueue.Reconciler → Settings → Applied))) (sv : Service) : Service :=
  match attempts with
  | [] => sv
  | (now, apply) :: rest =>
      let '(sv, failures) := apply_deferred reconcilers apply sv in
      if is_nil failures || (deadline <? now + pause) then sv else deferred_loop reconcilers deadline pause rest sv
  end.

(** * The network map that could not be brought up *)

Definition changed_interfaces (applied : option (smap IfaceSettings)) (attempted : smap IfaceSettings) : list string :=
  let applied := default [] applied in
  map fst (foldr (λ name m, smap_insert name tt m) ([] : smap unit)
    (List.filter (λ name, negb (bool_decide (smap_get name applied = smap_get name attempted))) (map fst applied ++ map fst attempted))).
Definition with_network (network : smap IfaceSettings) (c : Settings) : Settings :=
  {| s_hostname := s_hostname c; s_network := network; s_dns := s_dns c; s_access := s_access c;
     s_provisioning := s_provisioning c; s_wifi := s_wifi c; s_container := s_container c; s_mqtt := s_mqtt c;
     s_bluetooth := s_bluetooth c; s_time := s_time c; s_services := s_services c; s_reset := s_reset c |}.
Definition rolled_back (live : smap value) : bool :=
  match smap_get "network" live with Some state => match member state "rolledBack" with Bool true => true | _ => false end | None => false end.
(** Store [applied] again, unless the apply was not rolled back or a write has
    landed since; [preserve] was read before the lock. *)
Definition restore_network (attempted applied : smap IfaceSettings) (preserve : list string) : M Service bool := λ sv,
  if negb (rolled_back (sv_live sv)) || negb (bool_decide (s_network (sv_settings sv) = attempted)) then sret false sv
  else
    (let! saved := store_tree preserve (with_network applied (sv_settings sv)) in
     sret (match saved with inr _ => true | inl _ => false end)) sv.
End store.
(** * Calls and the worker, interleaved *)

(** A call of [persist_settings_as] between its locks. *)
Inductive Stage :=
| Begun (preserve : list string)
| Checking (preserve : list string) (changed : list (string * Project))
| Checked (preserve : list string) (checked : smap Project)
| Landed
| Repaired
| Publishing (refusals : list DocumentRefusal).
Record Call := { ca_writes : Writes; ca_claim : bool; ca_stage : Stage }.
Definition at_stage (s : Stage) (c : Call) : Call := {| ca_writes := ca_writes c; ca_claim := ca_claim c; ca_stage := s |}.
(** A pass under the apply lock, the worker's or another's: the reconcilers it
    keeps to, what it read when it began, the settings and the refusals it then
    reconciles with, the reconcilers left, and the documents a worker's pass
    leaves alone when it restores. *)
Record Pass := {
  ps_path : string; ps_keep : string → bool; ps_job : bool; ps_applied : option (smap IfaceSettings); ps_attempted : smap IfaceSettings;
  ps_settings : option Settings; ps_refused : option (list DocumentRefusal);
  ps_left : list ApplyQueue.Reconciler; ps_failures : list string; ps_preserve : option (list string);
}.
Record World := { wo_service : Service; wo_calls : list Call; wo_worker : option Pass }.
Definition boot (sv : Service) : World := {| wo_service := sv; wo_calls := []; wo_worker := None |}.

(** What happened, as the properties tell it. *)
Inductive label :=
| Answered (answers : list (string * Project * (string + value)))
| Stored (claim : bool)
| BroughtUp (network : smap IfaceSettings)
| Restored (network : smap IfaceSettings)
| Quietly.

Section steps.
Context `{SD : Serde} `{FM : Formats} `{JC : JournalCodec} (dv : Device) (reconcilers : list ApplyQueue.Reconciler).

Definition landed {A} (o : outcome Service (sresult A)) : bool := match o_result o with Ok (inr _) => true | _ => false end.
Definition restored (o : outcome Service bool) : bool := match o_result o with Ok b => b | Err _ => false end.
Definition is_applied (a : Applied) : bool := match a with AppliedOk _ => true | AppliedErr _ _ => false end.
(** Whether this step of the pass applies its reconciler, and it is the
    network's. *)
Definition brings_up (path : string) (keep : string → bool) (refused : list DocumentRefusal) (r : ApplyQueue.Reconciler) (a : Applied) : bool :=
  reconciler_runs path keep r && bool_decide (ApplyQueue.r_subtree r = "network") && is_applied a
  && negb (existsb (λ refusal, refusal_covers refusal (ApplyQueue.r_subtree r)) refused).
Definition take_pass (path : string) (keep : string → bool) (job : bool) (sv : Service) : Pass :=
  {| ps_path := path; ps_keep := keep; ps_job := job; ps_applied := sv_applied sv; ps_attempted := s_network (sv_settings sv); ps_settings := None; ps_refused := None;
     ps_left := reconcilers; ps_failures := []; ps_preserve := None |}.
Definition pass_reads (settings : option Settings) (refused : option (list DocumentRefusal)) (p : Pass) : Pass :=
  {| ps_path := ps_path p; ps_keep := ps_keep p; ps_job := ps_job p; ps_applied := ps_applied p; ps_attempted := ps_attempted p; ps_settings := settings; ps_refused := refused;
     ps_left := ps_left p; ps_failures := ps_failures p; ps_preserve := ps_preserve p |}.
Definition pass_on (left : list ApplyQueue.Reconciler) (failures : list string) (p : Pass) : Pass :=
  {| ps_path := ps_path p; ps_keep := ps_keep p; ps_job := ps_job p; ps_applied := ps_applied p; ps_attempted := ps_attempted p; ps_settings := ps_settings p; ps_refused := ps_refused p;
     ps_left := left; ps_failures := failures; ps_preserve := ps_preserve p |}.
Definition pass_preserves (preserve : list string) (p : Pass) : Pass :=
  {| ps_path := ps_path p; ps_keep := ps_keep p; ps_job := ps_job p; ps_applied := ps_applied p; ps_attempted := ps_attempted p; ps_settings := ps_settings p; ps_refused := ps_refused p;
     ps_left := ps_left p; ps_failures := ps_failures p; ps_preserve := Some preserve |}.

Inductive step : World → label → World → Prop :=
| step_begin sv calls worker writes claim preserve :
    persist_begin dv writes sv = inr preserve →
    step {| wo_service := sv; wo_calls := calls; wo_worker := worker |} Quietly
         {| wo_service := sv; wo_calls := calls ++ [{| ca_writes := writes; ca_claim := claim; ca_stage := Begun preserve |}]; wo_worker := worker |}
| step_check sv calls worker k c preserve changed :
    calls !! k = Some c → ca_stage c = Begun preserve → check_begin dv (ca_writes c) sv = inr changed →
    step {| wo_service := sv; wo_calls := calls; wo_worker := worker |} Quietly
         {| wo_service := sv; wo_calls := <[k := at_stage (Checking preserve changed) c]> calls; wo_worker := worker |}
| step_checked sv calls worker k c preserve changed check checked :
    calls !! k = Some c → ca_stage c = Checking preserve changed → check_answers (first_path (ca_writes c)) check changed [] = inr checked →
    step {| wo_service := sv; wo_calls := calls; wo_worker := worker |} (Answered (map (λ e, (e.1, e.2, check e.1 e.2)) changed))
         {| wo_service := sv; wo_calls := <[k := at_stage (Checked preserve checked) c]> calls; wo_worker := worker |}
| step_store sv calls worker k c preserve checked ho o :
    calls !! k = Some c → ca_stage c = Checked preserve checked → o = persist_commit dv ho (ca_writes c) (ca_claim c) preserve checked sv → landed o = true →
    step {| wo_service := sv; wo_calls := calls; wo_worker := worker |} (Stored (ca_claim c))
         {| wo_service := o_state o; wo_calls := <[k := at_stage Landed c]> calls; wo_worker := worker |}
| step_refuse sv calls worker k c preserve checked ho o :
    calls !! k = Some c → ca_stage c = Checked preserve checked → o = persist_commit dv ho (ca_writes c) (ca_claim c) preserve checked sv → landed o = false →
    step {| wo_service := sv; wo_calls := calls; wo_worker := worker |} Quietly
         {| wo_service := o_state o; wo_calls := delete k calls; wo_worker := worker |}
| step_finish sv calls worker k c sv' repaired :
    calls !! k = Some c → ca_stage c = Landed → persist_finish (ca_writes c) sv = (sv', repaired) →
    step {| wo_service := sv; wo_calls := calls; wo_worker := worker |} Quietly
         {| wo_service := sv'; wo_calls := if repaired then <[k := at_stage Repaired c]> calls else delete k calls; wo_worker := worker |}
| step_published sv calls worker k c :
    calls !! k = Some c → ca_stage c = Repaired →
    step {| wo_service := sv; wo_calls := calls; wo_worker := worker |} Quietly
         {| wo_service := sv; wo_calls := <[k := at_stage (Publishing (sv_refusals sv)) c]> calls; wo_worker := worker |}
| step_publish sv calls worker k c refusals :
    calls !! k = Some c → ca_stage c = Publishing refusals →
    step {| wo_service := sv; wo_calls := calls; wo_worker := worker |} Quietly
         {| wo_service := publish_refusals refusals sv; wo_calls := delete k calls; wo_worker := worker |}
| step_end sv calls worker k :
    step {| wo_service := sv; wo_calls := calls; wo_worker := worker |} Quietly
         {| wo_service := sv; wo_calls := delete k calls; wo_worker := worker |}
| step_take sv calls path keep job :
    (job = true → keep = λ _, true) →
    step {| wo_service := sv; wo_calls := calls; wo_worker := None |} Quietly
         {| wo_service := sv; wo_calls := calls; wo_worker := Some (take_pass path keep job sv) |}
| step_settings sv calls p :
    ps_settings p = None →
    step {| wo_service := sv; wo_calls := calls; wo_worker := Some p |} Quietly
         {| wo_service := sv; wo_calls := calls; wo_worker := Some (pass_reads (Some (sv_settings sv)) None p) |}
| step_refused sv calls p settings :
    ps_settings p = Some settings → ps_refused p = None →
    step {| wo_service := sv; wo_calls := calls; wo_worker := Some p |} Quietly
         {| wo_service := sv; wo_calls := calls; wo_worker := Some (pass_reads (Some settings) (Some (sv_refusals sv)) p) |}
| step_apply sv calls p settings refused r left a sv' failures :
    ps_settings p = Some settings → ps_refused p = Some refused → ps_left p = r :: left →
    reconcile_one (ps_path p) (ps_keep p) settings refused (λ _ _, a) r (sv, ps_failures p) = (sv', failures) →
    step {| wo_service := sv; wo_calls := calls; wo_worker := Some p |} (if brings_up (ps_path p) (ps_keep p) refused r a then BroughtUp (s_network settings) else Quietly)
         {| wo_service := sv'; wo_calls := calls; wo_worker := Some (pass_on left failures p) |}
| step_preserve sv calls p :
    is_Some (ps_refused p) → ps_left p = [] → ps_preserve p = None → ps_job p = true → paths_overlap (ps_path p) "network" = true →
    step {| wo_service := sv; wo_calls := calls; wo_worker := Some p |} Quietly
         {| wo_service := sv; wo_calls := calls; wo_worker := Some (pass_preserves (map rf_document (sv_refusals sv)) p) |}
| step_restore sv calls p preserve applied o :
    ps_preserve p = Some preserve → ps_applied p = Some applied → o = restore_network dv (ps_attempted p) applied preserve sv →
    step {| wo_service := sv; wo_calls := calls; wo_worker := Some p |} (if restored o then Restored applied else Quietly)
         {| wo_service := o_state o; wo_calls := calls; wo_worker := None |}
| step_done sv calls p :
    is_Some (ps_refused p) → ps_left p = [] → ps_job p = false ∨ paths_overlap (ps_path p) "network" = false ∨ ps_applied p = None →
    step {| wo_service := sv; wo_calls := calls; wo_worker := Some p |} Quietly {| wo_service := sv; wo_calls := calls; wo_worker := None |}.

Inductive run (w0 : World) : list label → World → Prop :=
| run_nil : run w0 [] w0
| run_snoc t w l w' : run w0 t w → step w l w' → run w0 (t ++ [l]) w'.
End steps.
(** * Lemmas *)

Section lemmas.
Context `{SD : Serde} `{FM : Formats} `{JC : JournalCodec} (dv : Device) (reconcilers : list ApplyQueue.Reconciler).

(** Storing a tree changes the tree, where the save succeeds, and the disk. *)
Lemma store_tree_cases preserve candidate sv : let o := store_tree dv preserve candidate sv in
  sv_live (o_state o) = sv_live sv ∧ sv_applied (o_state o) = sv_applied sv ∧ sv_refusals (o_state o) = sv_refusals sv
  ∧ (o_result o = Ok (inr tt) ∧ sv_settings (o_state o) = candidate ∨ landed o = false ∧ sv_settings (o_state o) = sv_settings sv).
Proof.
  unfold store_tree, sbind, on_disk. destruct (save_settings _ candidate (sv_disk sv)) as [[[e|[]]|e] d crash]; cbn; split_and!; try done; [by right|by left|by right].
Qed.
Lemma commit_cases ho writes claim preserve checked sv : let o := persist_commit dv ho writes claim preserve checked sv in
  sv_live (o_state o) = sv_live sv ∧ sv_applied (o_state o) = sv_applied sv ∧ sv_refusals (o_state o) = sv_refusals sv
  ∧ (commit_candidate dv ho writes claim checked (sv_settings sv) = inr (sv_settings (o_state o)) ∧ landed o = true
     ∨ landed o = false ∧ sv_settings (o_state o) = sv_settings sv).
Proof.
  unfold persist_commit. destruct (commit_candidate dv ho writes claim checked (sv_settings sv)) as [e|c] eqn:E; [split_and!; try done; by right|].
  destruct (store_tree_cases preserve c sv) as (H1 & H2 & H3 & [[H4 H5]|[H4 H5]]); split_and!; try done; [left|by right]. rewrite H5. split; [done|]. unfold landed. by rewrite H4.
Qed.
Lemma restore_cases attempted applied preserve sv : let o := restore_network dv attempted applied preserve sv in
  sv_live (o_state o) = sv_live sv ∧ sv_applied (o_state o) = sv_applied sv ∧ sv_refusals (o_state o) = sv_refusals sv
  ∧ (restored o = true ∧ rolled_back (sv_live sv) = true ∧ s_network (sv_settings sv) = attempted ∧ sv_settings (o_state o) = with_network applied (sv_settings sv)
     ∨ restored o = false ∧ sv_settings (o_state o) = sv_settings sv).
Proof.
  unfold restore_network. destruct (rolled_back (sv_live sv)) eqn:Er; cbn [negb orb]; [|split_and!; try done; by right].
  case_bool_decide as Ha; cbn [negb]; [|split_and!; try done; by right].
  destruct (store_tree_cases preserve (with_network applied (sv_settings sv)) sv) as (H1 & H2 & H3 & Hc). unfold sbind.
  destruct (store_tree dv preserve (with_network applied (sv_settings sv)) sv) as [[[e|[]]|e] sv' crash]; cbn in *; split_and!; try done; destruct Hc as [[H4 H5]|[H4 H5]]; try done; [by right|by left|by right].
Qed.
Lemma reconcile_one_cases path keep settings refused apply r sv failures sv' failures' :
  reconcile_one path keep settings refused apply r (sv, failures) = (sv', failures') →
  sv_settings sv' = sv_settings sv ∧ sv_refusals sv' = sv_refusals sv ∧ sv_disk sv' = sv_disk sv
  ∧ (sv_applied sv' = sv_applied sv ∨ sv_applied sv' = Some (s_network settings) ∧ reconciler_runs path keep r = true
     ∧ ApplyQueue.r_subtree r = "network" ∧ is_applied (apply r settings) = true ∧ existsb (λ refusal, refusal_covers refusal (ApplyQueue.r_subtree r)) refused = false).
Proof.
  unfold reconcile_one. destruct (reconciler_runs path keep r) eqn:Er; cbn [negb]; [|intros [= <- <-]; split_and!; try done; by left].
  destruct (List.find _ refused) as [refusal|] eqn:Ef; [intros [= <- <-]; split_and!; try done; by left|].
  assert (Hn : existsb (λ refusal, refusal_covers refusal (ApplyQueue.r_subtree r)) refused = false).
  { apply not_true_iff_false. intros H. apply existsb_exists in H as (x & Hx & Hc). by rewrite (List.find_none _ _ Ef x Hx) in Hc. }
  destruct (apply r settings) as [state|message rb] eqn:Ea; cbn [record]; case_bool_decide as Hs; cbn [andb]; intros [= <- <-]; split_and!; try done; try (by left).
  right. by split_and!.
Qed.

Lemma apply_writes_well_formed writes s s' : well_formed s → apply_writes s writes = inr s' → well_formed s'.
Proof.
  revert s. induction writes as [|[path v] writes IH]; intros s Hs; cbn; [by intros [= <-]|]. destruct (set_setting s path v) as [e|s1] eqn:E; [done|]. cbn.
  apply IH. by eapply set_well_formed.
Qed.
Lemma features_kept_ok path l current candidate f : features_kept dv path l current candidate = inr tt → f ∈ l → has (dv_features dv) f = false →
  get_setting candidate (subtree f) = get_setting current (subtree f).
Proof.
  induction l as [|g l IH]; cbn; [by intros _ H%elem_of_nil|]. intros H Hin Hf. destruct (has (dv_features dv) g) eqn:Eg.
  - apply elem_of_cons in Hin as [->|Hin]; [congruence|]. by apply IH.
  - destruct (get_setting candidate (subtree g)) as [e|a] eqn:Ea; [done|]. destruct (get_setting current (subtree g)) as [e|b] eqn:Eb; [done|]. cbn in H.
    case_bool_decide as Hab; [|done]. apply elem_of_cons in Hin as [->|Hin]; [congruence|]. by apply IH.
Qed.
Lemma changed_projects_in current next name p : project_of next name = Some p → project_of current name = Some p ∨ (name, p) ∈ changed_projects current next.
Proof.
  intros Hn. destruct (decide (project_of current name = Some p)) as [H|H]; [by left|right]. unfold changed_projects. apply list_elem_of_omap. exists name. split.
  - unfold project_of in Hn. destruct (smap_get name (ct_projects (s_container next))) as [text|] eqn:E; [|done]. apply list_elem_of_fmap. exists (name, text). split; [done|]. by apply smap_get_in.
  - rewrite Hn. cbn [mbind option_bind]. by rewrite bool_decide_eq_false_2.
Qed.
Lemma check_answers_ok path check changed acc checked name p : check_answers path check changed acc = inr checked →
  smap_get name checked = Some p →
  smap_get name acc = Some p ∨ ∃ outcome, (name, p) ∈ changed ∧ check name p = inr outcome ∧ member outcome "ok" = Bool true.
Proof.
  revert acc. induction changed as [|[n q] changed IH]; intros acc; cbn; [intros [= ->]; by left|].
  destruct (check n q) as [err|outcome] eqn:Ea; [done|]. destruct (compose_refusal n outcome) eqn:Er; [done|].
  intros H Hg. destruct (IH _ H Hg) as [Hi|(o & Hi & Ho)]; [|right; exists o; split; [by apply elem_of_cons; right|done]].
  rewrite smap_get_insert in Hi. case_bool_decide as Hn; [|by left]. subst n. injection Hi as ->. right. exists outcome.
  split; [apply elem_of_cons; by left|]. split; [done|]. unfold compose_refusal in Er. by destruct (member outcome "ok") as [|[]| | | |].
Qed.
Lemma commit_candidate_ok ho writes claim checked current candidate : commit_candidate dv ho writes claim checked current = inr candidate →
  (claim = true → ac_web_admin (s_access current) = None)
  ∧ apply_writes current writes = inr candidate
  ∧ (∀ name p, project_of candidate name = Some p → project_of current name = Some p ∨ smap_get name checked = Some p)
  ∧ (∀ f, has (dv_features dv) f = false → get_setting candidate (subtree f) = get_setting current (subtree f)).
Proof.
  unfold commit_candidate. destruct (claim && _) eqn:Ec; [done|]. destruct (apply_writes current writes) as [e|c] eqn:Ew; cbn [then_do]; [done|].
  destruct (check_written _ _ _ _) as [[]|[]]; try done. destruct (taken_unit _ _ _) as [[]|]; [done|].
  destruct (existsb _ _) eqn:Ep; [done|]. destruct (features_kept dv (first_path writes) ALL current c) as [e|[]] eqn:Ef; cbn [then_do]; [done|]. intros [= <-]. split_and!.
  - intros ->. cbn in Ec. apply bool_decide_eq_false in Ec. destruct (ac_web_admin (s_access current)); [by destruct Ec; eexists|done].
  - done.
  - intros name p Hp. destruct (changed_projects_in current c name p Hp) as [H|H]; [by left|right]. apply not_true_iff_false in Ep.
    destruct (decide (smap_get name checked = Some p)) as [H'|H']; [done|]. destruct Ep. apply existsb_exists. exists (name, p).
    split; [by apply list_elem_of_In|]. cbn. by rewrite bool_decide_eq_false_2.
  - intros f Hf. eapply features_kept_ok; [exact Ef| |exact Hf]. destruct f; unfold ALL; set_solver.
Qed.
End lemmas.
(** * What every interleaving keeps *)

Section sound.
Context `{SD : Serde} `{FM : Formats} `{JC : JournalCodec} (dv : Device) (reconcilers : list ApplyQueue.Reconciler) (sv0 : Service).
(** The derives serialize each member of the tree by itself: another network
    map changes nothing under a feature's path. *)
Definition network_apart : Prop := ∀ s n f, get_setting (with_network n s) (subtree f) = get_setting s (subtree f).
Definition named (network : smap IfaceSettings) : Prop := Forall (λ e, NetworkRules.check_iface_name e.1 = Ok tt) network.
(** mica-containerd was asked about the project as it is, and said it is fine. *)
Definition vouched (t : list label) (name : string) (p : Project) : Prop := ∃ l outcome, Answered l ∈ t ∧ (name, p, inr outcome) ∈ l ∧ member outcome "ok" = Bool true.
(** The documents a call leaves alone, until it has landed. *)
Definition leaves (s : Stage) : option (list string) := match s with Begun p | Checking p _ | Checked p _ => Some p | Landed | Repaired | Publishing _ => None end.

Record sound (t : list label) (w : World) : Prop := {
  so_tree : well_formed (sv_settings (wo_service w));
  so_features f : has (dv_features dv) f = false → get_setting (sv_settings (wo_service w)) (subtree f) = get_setting (sv_settings sv0) (subtree f);
  so_projects name p : project_of (sv_settings (wo_service w)) name = Some p → project_of (sv_settings sv0) name = Some p ∨ vouched t name p;
  so_checked c preserve checked name p : c ∈ wo_calls w → ca_stage c = Checked preserve checked → smap_get name checked = Some p → vouched t name p;
  so_preserve c preserve r : c ∈ wo_calls w → leaves (ca_stage c) = Some preserve → r ∈ sv_refusals (wo_service w) → repairs (ca_writes c) r = false → rf_document r ∈ preserve;
  so_refusals r : r ∈ sv_refusals (wo_service w) → r ∈ sv_refusals sv0;
  so_applied n : sv_applied (wo_service w) = Some n → named n ∧ BroughtUp n ∈ t;
  so_worker p : wo_worker w = Some p → (∀ n, ps_applied p = Some n → named n ∧ BroughtUp n ∈ t)
    ∧ (∀ s, ps_settings p = Some s → named (s_network s))
    ∧ (∀ preserve r, ps_preserve p = Some preserve → r ∈ sv_refusals (wo_service w) → rf_document r ∈ preserve);
}.

Lemma vouched_more t t' name p : vouched t name p → vouched (t ++ t') name p.
Proof. intros (l & o & H & Hp). exists l, o. split; [apply elem_of_app; by left|done]. Qed.
Lemma sound_boot : sv_applied sv0 = None → well_formed (sv_settings sv0) → sound [] (boot sv0).
Proof.
  intros Ha Hw. split; cbn; try done; try (by intros ? ? ? ? ? H%elem_of_nil).
  - intros name p H. by left.
  - by intros c preserve r H%elem_of_nil.
  - by rewrite Ha.
Qed.
(** A step that leaves the service and the worker as they are, or only changes
    parts the invariant does not mention. *)
Lemma sound_service t l w w' : sound t w →
  sv_settings (wo_service w') = sv_settings (wo_service w) →
  sv_applied (wo_service w') = sv_applied (wo_service w) ∨ (∃ n, sv_applied (wo_service w') = Some n ∧ named n ∧ l = BroughtUp n) →
  (∀ r, r ∈ sv_refusals (wo_service w') → r ∈ sv_refusals (wo_service w)) →
  (∀ c, c ∈ wo_calls w' → c ∈ wo_calls w ∨
     (∀ preserve r, leaves (ca_stage c) = Some preserve → r ∈ sv_refusals (wo_service w) → repairs (ca_writes c) r = false → rf_document r ∈ preserve)
     ∧ (∀ preserve checked name p, ca_stage c = Checked preserve checked → smap_get name checked = Some p → vouched (t ++ [l]) name p)) →
  (∀ p, wo_worker w' = Some p → wo_worker w = Some p ∨
     (∀ n, ps_applied p = Some n → named n ∧ BroughtUp n ∈ t) ∧ (∀ s, ps_settings p = Some s → named (s_network s))
     ∧ (∀ preserve r, ps_preserve p = Some preserve → r ∈ sv_refusals (wo_service w') → rf_document r ∈ preserve)) →
  sound (t ++ [l]) w'.
Proof.
  intros [H1 H2 H3 H4 H5 H6 H7 H8] Es Ea Er Hc Hw. split; rewrite ?Es.
  - done.
  - done.
  - intros name p Hp. destruct (H3 name p Hp) as [H|H]; [by left|right; by apply vouched_more].
  - intros c preserve checked name p Hin Hst Hg. destruct (Hc c Hin) as [H|[_ H]]; [apply vouched_more; by eapply H4|by eapply H].
  - intros c preserve r Hin Hst Hr Hn. destruct (Hc c Hin) as [H|[H _]]; [by eapply H5; eauto|by eapply H; eauto].
  - intros r Hr. by apply H6, Er.
  - intros n Hn. destruct Ea as [Ea|(n' & Ea & Hnn & ->)]; rewrite Ea in Hn.
    + destruct (H7 n Hn) as [Hnn Hb]. split; [done|apply elem_of_app; by left].
    + injection Hn as <-. split; [done|apply elem_of_app; right; by apply list_elem_of_singleton].
  - intros p Hp. destruct (Hw p Hp) as [H|(A & B & C)].
    + destruct (H8 p H) as (A & B & C). split_and!; [|done|intros preserve r Hpr Hr; by eapply C, Er].
      intros n Hn. destruct (A n Hn). split; [done|apply elem_of_app; by left].
    + split_and!; [|done|done]. intros n Hn. destruct (A n Hn). split; [done|apply elem_of_app; by left].
Qed.
Lemma elem_of_delete {A} (l : list A) k x : x ∈ delete k l → x ∈ l.
Proof. intros H. apply list_elem_of_lookup in H as [i H]. rewrite list_lookup_delete in H. case_decide; by eapply list_elem_of_lookup_2. Qed.
Lemma elem_of_set {A} (l : list A) k x y : x ∈ <[k := y]> l → x = y ∨ x ∈ l.
Proof. intros H. apply list_elem_of_lookup in H as [i H]. apply list_lookup_insert_Some in H as [(_ & -> & _)|[_ H]]; [by left|right; by eapply list_elem_of_lookup_2]. Qed.
Lemma preserved_covers writes refusals r : r ∈ refusals → repairs writes r = false → rf_document r ∈ preserved writes refusals.
Proof.
  intros Hr Hn. apply list_elem_of_fmap. exists r. split; [done|]. apply list_elem_of_In, List.filter_In. split; [by apply list_elem_of_In|by rewrite Hn].
Qed.
Lemma finish_refusals writes sv r : r ∈ sv_refusals (persist_finish writes sv).1 ↔ r ∈ sv_refusals sv ∧ repairs writes r = false.
Proof. cbn. by rewrite list_elem_of_In, List.filter_In, <-list_elem_of_In, negb_true_iff. Qed.
(** A tree that was stored. *)
Lemma sound_stored t l w sv' calls worker : sound t w → well_formed (sv_settings sv') →
  (∀ f, has (dv_features dv) f = false → get_setting (sv_settings sv') (subtree f) = get_setting (sv_settings (wo_service w)) (subtree f)) →
  (∀ name p, project_of (sv_settings sv') name = Some p → project_of (sv_settings (wo_service w)) name = Some p ∨ vouched t name p) →
  sv_applied sv' = sv_applied (wo_service w) → sv_refusals sv' = sv_refusals (wo_service w) →
  (∀ c, c ∈ calls → c ∈ wo_calls w ∨ ca_stage c = Landed) → worker = wo_worker w ∨ worker = None →
  sound (t ++ [l]) {| wo_service := sv'; wo_calls := calls; wo_worker := worker |}.
Proof.
  intros HS Hwf Hf Hp Ea Er Hc Hw. set (w1 := {| wo_service := with_settings (sv_settings (wo_service w)) sv'; wo_calls := calls; wo_worker := worker |}).
  assert (H1 : sound (t ++ [l]) w1).
  { apply (sound_service t l w); try done; cbn.
    - by left.
    - by rewrite Er.
    - intros c Hin. destruct (Hc c Hin) as [H|H]; [by left|right]. by rewrite H.
    - intros p Hp'. left. destruct Hw as [<- | ->]; done. }
  destruct H1 as [A1 A2 A3 A4 A5 A6 A7 A8], HS as [B1 B2 B3 B4 B5 B6 B7 B8]. split; try done; cbn.
  - intros f H. rewrite Hf by done. by apply B2.
  - intros name p H. destruct (Hp name p H) as [H'|H']; [|right; by apply vouched_more]. destruct (B3 name p H'); [by left|right; by apply vouched_more].
Qed.

Lemma restored_well_formed n s : well_formed s → named n → well_formed (with_network n s).
Proof. by intros [] Hn. Qed.
Lemma worker_sound t w p : sound t w → wo_worker w = Some p → ∀ q l, ps_applied q = ps_applied p →
  (∀ s, ps_settings q = Some s → ps_settings p = Some s ∨ s = sv_settings (wo_service w)) →
  (∀ preserve, ps_preserve q = Some preserve → ps_preserve p = Some preserve ∨ preserve = map rf_document (sv_refusals (wo_service w))) →
  ∀ sv' calls', sv_settings sv' = sv_settings (wo_service w) → calls' = wo_calls w → sv_refusals sv' = sv_refusals (wo_service w) →
  sv_applied sv' = sv_applied (wo_service w) ∨ (∃ n, sv_applied sv' = Some n ∧ named n ∧ l = BroughtUp n) →
  sound (t ++ [l]) {| wo_service := sv'; wo_calls := calls'; wo_worker := Some q |}.
Proof.
  intros HS Ew q l Ha Hs Hp sv' calls' Es -> Er Hb. destruct (so_worker _ _ HS p Ew) as (A & B & C). apply (sound_service t l w _ HS); cbn; try done.
  - by rewrite Er.
  - intros c Hc. by left.
  - intros ? [= <-]. right. rewrite Ha. split_and!; [exact A|..].
    + intros s E. destruct (Hs s E) as [H| ->]; [by apply B|]. apply (wf_names _ (so_tree _ _ HS)).
    + intros preserve r E Hr. rewrite Er in Hr. destruct (Hp preserve E) as [H| ->]; [by eapply C|]. by apply list_elem_of_fmap_2.
Qed.
Lemma world_step_sound t w l w' : network_apart → sound t w → step dv reconcilers w l w' → sound (t ++ [l]) w'.
Proof.
  intros Hnet HS Hstep. destruct Hstep.
  - apply (sound_service t _ _ _ HS); cbn; try done; [by left| |by left]. intros c [Hc|Hc%list_elem_of_singleton]%elem_of_app; [by left|right]. subst c. cbn.
    split; [|done]. intros p r [= <-] Hr Hn. unfold persist_begin in H. destruct (not_served dv writes) as [|[]]; [done|]. injection H as <-. by apply preserved_covers.
  - apply (sound_service t _ _ _ HS); cbn; try done; [by left| |by left]. intros c' [-> |Hc]%elem_of_set; [right|by left]. cbn. split; [|done].
    intros p r [= <-] Hr Hn. eapply (so_preserve _ _ HS c); cbn; eauto using list_elem_of_lookup_2. by rewrite H0.
  - apply (sound_service t _ _ _ HS); cbn; try done; [by left| |by left]. intros c' [-> |Hc]%elem_of_set; [right|by left]. cbn. split.
    + intros p r [= <-] Hr Hn. eapply (so_preserve _ _ HS c); cbn; eauto using list_elem_of_lookup_2. by rewrite H0.
    + intros p ch name q [= <- <-] Hg. destruct (check_answers_ok _ _ _ _ _ name q H1 Hg) as [Hq|(o & Hq & Hc & Ho)]; [done|].
      exists (map (λ e, (e.1, e.2, check e.1 e.2)) changed), o. split; [apply elem_of_app; right; by apply list_elem_of_singleton|]. split; [|done].
      apply list_elem_of_fmap. exists (name, q). cbn. by rewrite Hc.
  - destruct (commit_cases dv ho (ca_writes c) (ca_claim c) preserve checked0 sv) as (_ & Ha & Hr & [[Hc _]|[Hc _]]); rewrite <-H1 in *; [|congruence].
    destruct (commit_candidate_ok dv _ _ _ _ _ _ Hc) as (_ & Hw & Hp & Hf).
    eapply (sound_stored t _ _ _ _ _ HS); cbn; try done; [by eapply apply_writes_well_formed, Hw; apply (so_tree _ _ HS)| | |by left].
    + intros name p E. destruct (Hp name p E) as [E'|E']; [by left|right]. eapply (so_checked _ _ HS c); cbn; eauto using list_elem_of_lookup_2.
    + intros c' [-> |Hc']%elem_of_set; [by right|by left].
  - destruct (commit_cases dv ho (ca_writes c) (ca_claim c) preserve checked0 sv) as (_ & Ha & Hr & [[_ Hc]|[_ Hc]]); rewrite <-H1 in *; [congruence|].
    apply (sound_service t _ _ _ HS); cbn; try done; [by left|by rewrite Hr| |by left]. intros c' Hc'%elem_of_delete. by left.
  - pose proof (f_equal fst H1) as E. cbn in E. subst sv'. apply (sound_service t _ _ _ HS); try done; cbn; [by left|by intros r [Hr _]%(finish_refusals (ca_writes c))| |by left].
    intros c' Hc'. destruct repaired; [|left; by eapply elem_of_delete]. apply elem_of_set in Hc' as [-> |Hc']; [by right|by left].
  - apply (sound_service t _ _ _ HS); cbn; try done; [by left| |by left]. intros c' [-> |Hc']%elem_of_set; [by right|by left].
  - apply (sound_service t _ _ _ HS); cbn; try done; [by left| |by left]. intros c' Hc'%elem_of_delete. by left.
  - apply (sound_service t _ _ _ HS); cbn; try done; [by left| |by left]. intros c' Hc'%elem_of_delete. by left.
  - apply (sound_service t _ _ _ HS); cbn; try done; [by left|by left|]. intros p [= <-]. right. cbn. split_and!; try done. apply (so_applied _ _ HS).
  - eapply (worker_sound t _ p HS); try done; cbn; try by left. intros s [= <-]. by right.
  - eapply (worker_sound t _ p HS); try done; cbn; try by left. intros s [= <-]. by left.
  - destruct (reconcile_one_cases _ _ _ _ _ _ _ _ _ _ H2) as (E1 & E2 & _ & E3).
    eapply (worker_sound t _ p HS); try done; cbn; try by left. destruct E3 as [E3|(E3 & Er & En & Ea & Ex)]; [by left|right]. exists (s_network settings). split_and!; [done| |].
    + destruct (so_worker _ _ HS p eq_refl) as (_ & B & _). by apply B.
    + unfold brings_up. rewrite Er, Ea, Ex. by rewrite bool_decide_eq_true_2.
  - eapply (worker_sound t _ p HS); try done; cbn; try by left. intros pr [= <-]. by right.
  - destruct (restore_cases dv (ps_attempted p) applied preserve sv) as (_ & Ha & Hr & [(Ho & _ & _ & Hs)|[Ho Hs]]); rewrite <-H1 in *.
    + destruct (so_worker _ _ HS p eq_refl) as (A & _ & _). destruct (A applied H0) as [Hn _].
      eapply (sound_stored t _ _ _ _ _ HS); cbn; try done; rewrite ?Hs.
      * apply restored_well_formed; [apply (so_tree _ _ HS)|done].
      * intros f _. apply Hnet.
      * intros name q E. by left.
      * intros c Hc. by left.
      * by right.
    + apply (sound_service t _ _ _ HS); cbn; try done; [by left|by rewrite Hr|by left].
  - apply (sound_service t _ _ _ HS); cbn; try done; [by left|by left].
Qed.
Lemma run_sound t w : network_apart → sv_applied sv0 = None → well_formed (sv_settings sv0) → run dv reconcilers (boot sv0) t w → sound t w.
Proof. intros Hn Ha Hw. induction 1 as [|t w l w' _ IH Hs]; [by apply sound_boot|by eapply world_step_sound]. Qed.
End sound.
(** * Properties *)

Section properties.
Context `{SD : Serde} `{FM : Formats} `{JC : JournalCodec} {JL : JournalLaws} (dv : Device) (reconcilers : list ApplyQueue.Reconciler).

(** C4: however writes, claims and applies interleave, the tree keeps its type;
    what the product does not carry keeps its settings; and every container
    project in the tree was there at the start or is, text and directory, one
    that mica-containerd was asked about and answered to be fine. *)
Theorem writes_sound sv0 t w (Hnet : network_apart) (Ha : sv_applied sv0 = None) (Hw : well_formed (sv_settings sv0)) (Hr : run dv reconcilers (boot sv0) t w) :
  sound_tree (sv_settings (wo_service w))
  ∧ (∀ f, has (dv_features dv) f = false → get_setting (sv_settings (wo_service w)) (subtree f) = get_setting (sv_settings sv0) (subtree f))
  ∧ (∀ name p, project_of (sv_settings (wo_service w)) name = Some p → project_of (sv_settings sv0) name = Some p ∨ vouched t name p).
Proof. destruct (run_sound dv reconcilers sv0 t w Hnet Ha Hw Hr) as [H1 H2 H3 _ _ _ _ _]. split_and!; [by apply well_formed_sound|done|done]. Qed.

(** An administrator goes only by a write that is no claim. *)
Definition admin_of (w : World) : option WebAdminSettings := ac_web_admin (s_access (sv_settings (wo_service w))).
Lemma step_admin w l w' : step dv reconcilers w l w' → is_Some (admin_of w) → l = Stored false ∨ is_Some (admin_of w') ∧ l ≠ Stored true.
Proof.
  intros Hs Ha. destruct Hs; unfold admin_of in *; cbn in *; try by right.
  - destruct (commit_cases dv ho (ca_writes c) (ca_claim c) preserve checked0 sv) as (_ & _ & _ & [[Hc _]|[Hc _]]); rewrite <-H1 in *; [|congruence].
    destruct (commit_candidate_ok dv _ _ _ _ _ _ Hc) as (Hn & _). destruct (ca_claim c); [|by left]. rewrite Hn in Ha by done. by destruct Ha.
  - destruct (commit_cases dv ho (ca_writes c) (ca_claim c) preserve checked0 sv) as (_ & _ & _ & [[_ Hc]|[_ Hc]]); rewrite <-H1 in *; [congruence|]. right. by rewrite Hc.
  - right. pose proof (f_equal fst H1) as E. cbn in E. by subst sv'.
  - destruct (reconcile_one_cases _ _ _ _ _ _ _ _ _ _ H2) as (E1 & _). right. rewrite E1. split; [done|]. by destruct (brings_up _ _ _ _ _).
  - destruct (restore_cases dv (ps_attempted p) applied preserve sv) as (_ & _ & _ & [(_ & _ & _ & Hs)|[_ Hs]]); rewrite <-H1 in *; right; rewrite Hs; (split; [done|by destruct (restored o)]).
Qed.
(** C6: of two claims one lands: each claim that lands found the device without
    an administrator, and after one that left an administrator another lands
    only if an ordinary write landed in between. *)
Theorem claims_apart w0 t1 w1 w2 t2 w3 w4 (H1 : run dv reconcilers w0 t1 w1) (Hc1 : step dv reconcilers w1 (Stored true) w2)
    (Hadmin : is_Some (admin_of w2)) (H2 : run dv reconcilers w2 t2 w3) (Hc2 : step dv reconcilers w3 (Stored true) w4) :
  admin_of w1 = None ∧ admin_of w3 = None ∧ Stored false ∈ t2.
Proof.
  assert (Hnone : ∀ w w', step dv reconcilers w (Stored true) w' → admin_of w = None).
  { intros w w' Hs. destruct (admin_of w) eqn:E; [|done]. by destruct (step_admin w _ w' Hs) as [?|[_ ?]]. }
  split; [by eapply Hnone|]. pose proof (Hnone _ _ Hc2) as H3. split; [exact H3|]. clear -H2 Hadmin H3.
  assert (H : Stored false ∈ t2 ∨ is_Some (admin_of w3)).
  { clear H3. induction H2 as [|t w l w' Hr IH Hs]; [by right|]. destruct IH as [H|H]; [left; apply elem_of_app; by left|].
    destruct (step_admin w l w' Hs H) as [->|[H' _]]; [left; apply elem_of_app; right; by apply list_elem_of_singleton|by right]. }
  destruct H as [H|H]; [done|]. rewrite H3 in H. by destruct H.
Qed.

(** The disks a commit can leave are those of its save. *)
Lemma commit_durable ho writes claim preserve checked sv sv' : durable (persist_commit dv ho writes claim preserve checked sv) sv' →
  sv_disk sv' = sv_disk sv ∨ ∃ candidate, commit_candidate dv ho writes claim checked (sv_settings sv) = inr candidate
    ∧ durable (save_settings (preserving preserve (dv_store dv)) candidate (sv_disk sv)) (sv_disk sv').
Proof.
  unfold persist_commit. destruct (commit_candidate dv ho writes claim checked (sv_settings sv)) as [e|c] eqn:Ec; [by intros [-> | ->]; left|].
  intros H. right. exists c. split; [done|]. unfold store_tree, sbind, on_disk, durable in *. destruct (save_settings _ c (sv_disk sv)) as [[[e|[]]|e] d crash]; cbn in *; naive_solver.
Qed.
Lemma project_document_of document name : container_project_of document = Some name → document = container_project_document name ∧ SettingsRules.is_project_name name = true.
Proof.
  unfold container_project_of. intros (r1 & H1 & H)%bind_Some. apply bind_Some in H as (r2 & H2 & H). apply bind_Some in H as (n & H3 & H).
  destruct (SettingsRules.is_project_name n) eqn:En; [|done]. injection H as <-. apply strip_prefix_spec in H1 as ->. apply strip_prefix_spec in H2 as ->. apply strip_suffix_spec in H3 as ->. done.
Qed.
(** C5: a document that was refused at the load keeps its bytes until a write
    reaches what it configures: in every interleaving, wherever power is cut
    while a write is stored on a disk at rest, recovery leaves the document of
    each refusal that the write does not reach as it was. Of a container
    project's file that is so whatever calls of the file system fail; of the
    other documents, when none fails. *)
Theorem refused_documents_kept sv0 t w k c preserve checked ho old fs sv' cutted r
    (Hnet : network_apart) (Ha : sv_applied sv0 = None) (Hw : well_formed (sv_settings sv0)) (Hr : run dv reconcilers (boot sv0) t w)
    (Hk : wo_calls w !! k = Some c) (Hc : ca_stage c = Checked preserve checked) (Hd : sv_disk (wo_service w) = at_rest old fs)
    (P : Store.placed (preserving preserve (dv_store dv))) (R : Store.ready (preserving preserve (dv_store dv)) old)
    (Hs : ∀ candidate, commit_candidate dv ho (ca_writes c) (ca_claim c) checked (sv_settings (wo_service w)) = inr candidate →
       Store.storable candidate ∧ Store.room (preserving preserve (dv_store dv)) old candidate)
    (Hsv : durable (persist_commit dv ho (ca_writes c) (ca_claim c) preserve checked (wo_service w)) sv') (Hcut : cut (sv_disk sv') cutted)
    (Hin : r ∈ sv_refusals (wo_service w)) (Hn : repairs (ca_writes c) r = false) :
  let after := seen (o_state (recover (st_path (dv_store dv)) (st_config (dv_store dv)) (at_rest cutted []))) in
  let file := config_file (dv_store dv) (rf_document r) in
  (is_Some (container_project_of (rf_document r)) → after !! file = old !! file)
  ∧ (fs = [] → rf_document r ∈ CONFIG_DOCUMENTS → is_Some (old !! file) → after !! file = old !! file).
Proof.
  pose proof (run_sound dv reconcilers sv0 t w Hnet Ha Hw Hr) as HS.
  assert (Hp : rf_document r ∈ preserve) by (eapply (so_preserve _ _ _ _ HS c); eauto using list_elem_of_lookup_2; by rewrite Hc).
  destruct (commit_durable _ _ _ _ _ _ _ Hsv) as [E|(candidate & Ec & Hdur)]; rewrite Hd in *.
  - rewrite E in Hcut. apply Store.cut_rest in Hcut as ->.
    destruct (recover_idle (st_path (dv_store dv)) (st_config (dv_store dv)) old (rt_journal _ _ _ (Store.rd_resting _ _ R))) as [_ ->]. done.
  - destruct (Hs candidate Ec) as [Hst Hroom]. destruct (Store.preserved_at _ old fs candidate (sv_disk sv') cutted P R Hst Hroom Hdur Hcut) as [H1 H2]. split.
    + intros [name Hname]. destruct (project_document_of _ _ Hname) as [Hdoc Hproject]. cbv zeta. rewrite Hdoc. apply H2; [|done].
      unfold Store.keeps_projects. apply existsb_exists. exists (rf_document r). split; [by apply list_elem_of_In|]. apply bool_decide_eq_true. by eexists.
    + intros Hf Hdoc Hold. by apply H1.
Qed.

(** C7: the network map that is stored again after a failed apply is one the
    network's reconciler has brought up, and only where the map that failed is
    still the stored one and the apply said it rolled back; nothing else of
    the tree changes. *)
Theorem restored_came_up sv0 t w n w' (Hnet : network_apart) (Ha : sv_applied sv0 = None) (Hw : well_formed (sv_settings sv0))
    (Hr : run dv reconcilers (boot sv0) t w) (Hs : step dv reconcilers w (Restored n) w') :
  BroughtUp n ∈ t ∧ rolled_back (sv_live (wo_service w)) = true
  ∧ (∃ p, wo_worker w = Some p ∧ ps_attempted p = s_network (sv_settings (wo_service w)))
  ∧ sv_settings (wo_service w') = with_network n (sv_settings (wo_service w)).
Proof.
  pose proof (run_sound dv reconcilers sv0 t w Hnet Ha Hw Hr) as HS. clear Hr. remember (Restored n) as l eqn:El.
  destruct Hs; try done; [by destruct (brings_up _ _ _ _ _)|]. destruct (so_worker _ _ _ _ HS p eq_refl) as (A & _ & _). cbn in *.
  destruct (restore_cases dv (ps_attempted p) applied preserve sv) as (_ & _ & _ & [(Hok & Hrb & Hat & Hset)|[Hok _]]); rewrite <-H1 in *; rewrite Hok in El; [|done].
  injection El as ->. destruct (A n H0) as [_ Hb]. split_and!; try done. by exists p.
Qed.
End properties.

(** * Witnesses *)

Section bench.
#[local] Existing Instances toy_codec toy_laws Store.toy_formats.
(** A tree of which the hostname, whether there is a port in the network map
    and whether there is an administrator are serialized. *)
Definition bench_admin (on : bool) : AccessSettings :=
  {| ac_web_admin := if on then Some {| wa_password_hash := "h" |} else None; ac_claim := None; ac_ssh := ac_ssh default_access;
     ac_console := ac_console default_access; ac_web := ac_web default_access; ac_mdns := ac_mdns default_access;
     ac_ssdp := ac_ssdp default_access; ac_device := ac_device default_access; ac_api_tokens := [] |}.
Definition bench_tree (hostname : string) (network admin : bool) : Settings :=
  let d := default_settings in
  {| s_hostname := hostname; s_network := if network then [("eth0", default_iface)] else []; s_dns := s_dns d; s_access := bench_admin admin;
     s_provisioning := s_provisioning d; s_wifi := s_wifi d; s_container := s_container d; s_mqtt := s_mqtt d;
     s_bluetooth := s_bluetooth d; s_time := s_time d; s_services := s_services d; s_reset := s_reset d |}.
#[local] Instance bench_serde : Serde := {|
  to_value s := Ok (Object [("admin", Bool (bool_decide (is_Some (ac_web_admin (s_access s))))); ("hostname", Str (s_hostname s));
                            ("mqtt", Bool true); ("network", Bool (negb (is_nil (s_network s))))]);
  from_value v :=
    match member v "hostname", member v "network", member v "admin" with
    | Str h, Bool n, Bool a => Ok (bench_tree h n a)
    | _, _, _ => Err (Msg "invalid type")
    end;
|}.
(** A device without MQTT, its disk and one document that was refused. *)
Definition bench_device : Device :=
  {| dv_features := [Wifi; Bluetooth; Ssh; Containers]; dv_engine := Podman; dv_init := Systemd; dv_store := Store.new_store DEFAULT_PATH DEFAULT_CONFIG_DIR |}.
Definition bench_disk : tree :=
  {[ DEFAULT_CONFIG_DIR := Directory; "/mica/config/container" := Directory;
     "/mica/config/container/old.yaml" := Regular (str_bytes "o"); "/mica/config/wifi.json" := Regular (str_bytes "?") ]}.
Definition bench_refusal : DocumentRefusal :=
  Store.Build_DocumentRefusal "wifi.json" "/mica/config/wifi.json" "m" (Io (Msg "e")) ["wifi"].
Definition bench_boot (s : Settings) : Service :=
  {| sv_disk := at_rest bench_disk []; sv_settings := s; sv_live := []; sv_applied := None; sv_refusals := [bench_refusal] |}.
Definition bench_host : Host := {| ho_mica_unit := true; ho_shipped := λ _, false; ho_owners := [] |}.
Definition idle (sv : Service) : World := {| wo_service := sv; wo_calls := []; wo_worker := None |}.

Lemma bench_apart : network_apart.
Proof. by intros s n []. Qed.
(** One write at a time, from the request to its end. *)
Definition written (writes : Writes) (claim : bool) (sv : Service) : Service :=
  (persist_finish writes (o_state (persist_commit bench_device bench_host writes claim [rf_document bench_refusal] [] sv))).1.
Definition writes_well (writes : Writes) (claim : bool) (sv : Service) : Prop :=
  persist_begin bench_device writes sv = inr [rf_document bench_refusal] ∧ check_begin bench_device writes sv = inr []
  ∧ landed (persist_commit bench_device bench_host writes claim [rf_document bench_refusal] [] sv) = true
  ∧ (persist_finish writes (o_state (persist_commit bench_device bench_host writes claim [rf_document bench_refusal] [] sv))).2 = false.
Definition begun (writes : Writes) (claim : bool) (s : Stage) : Call := {| ca_writes := writes; ca_claim := claim; ca_stage := s |}.
Lemma checked_runs l w0 t writes claim sv : writes_well writes claim sv → run bench_device l w0 t (idle sv) →
  run bench_device l w0 (t ++ [Quietly] ++ [Quietly] ++ [Answered []])
    {| wo_service := sv; wo_calls := [begun writes claim (Checked [rf_document bench_refusal] [])]; wo_worker := None |}.
Proof.
  intros (H1 & H2 & _) Hr. rewrite !app_assoc.
  eapply run_snoc; [eapply run_snoc; [eapply run_snoc; [exact Hr|by apply (step_begin _ _ _ _ _ writes claim)]|]|].
  - by apply (step_check bench_device l sv [begun writes claim (Begun [rf_document bench_refusal])] None 0 (begun writes claim (Begun [rf_document bench_refusal])) [rf_document bench_refusal] []).
  - by apply (step_checked bench_device l sv [begun writes claim (Checking [rf_document bench_refusal] [])] None 0
      (begun writes claim (Checking [rf_document bench_refusal] [])) [rf_document bench_refusal] [] (λ _ _, inl "") []).
Qed.
Lemma store_step l writes claim sv : writes_well writes claim sv →
  step bench_device l {| wo_service := sv; wo_calls := [begun writes claim (Checked [rf_document bench_refusal] [])]; wo_worker := None |} (Stored claim)
    {| wo_service := o_state (persist_commit bench_device bench_host writes claim [rf_document bench_refusal] [] sv);
       wo_calls := [begun writes claim Landed]; wo_worker := None |}.
Proof.
  intros (_ & _ & H & _). by apply (step_store bench_device l sv [begun writes claim (Checked [rf_document bench_refusal] [])] None 0
    (begun writes claim (Checked [rf_document bench_refusal] [])) [rf_document bench_refusal] [] bench_host
    (persist_commit bench_device bench_host writes claim [rf_document bench_refusal] [] sv)).
Qed.
Lemma finish_step l writes claim sv : writes_well writes claim sv →
  step bench_device l {| wo_service := o_state (persist_commit bench_device bench_host writes claim [rf_document bench_refusal] [] sv);
                         wo_calls := [begun writes claim Landed]; wo_worker := None |} Quietly (idle (written writes claim sv)).
Proof.
  intros (_ & _ & _ & H).
  by apply (step_finish bench_device l _ [begun writes claim Landed] None 0 (begun writes claim Landed) (written writes claim sv) false);
    [| |rewrite <-H; apply surjective_pairing].
Qed.
Lemma write_runs l w0 t writes claim sv : writes_well writes claim sv → run bench_device l w0 t (idle sv) →
  run bench_device l w0 (((t ++ [Quietly] ++ [Quietly] ++ [Answered []]) ++ [Stored claim]) ++ [Quietly]) (idle (written writes claim sv)).
Proof. intros Hw Hr. eapply run_snoc; [eapply run_snoc; [by apply checked_runs|by apply store_step]|by apply finish_step]. Qed.

Definition rename : Writes := [("hostname", Str "box")].
Definition bench_start : Service := bench_boot (bench_tree "mica" true false).
Lemma rename_well : writes_well rename false bench_start.
Proof. by vm_compute. Qed.
Lemma bench_well_formed : well_formed (bench_tree "mica" true false).
Proof. split; [by repeat constructor|by vm_compute..]. Qed.

Lemma bench_idle l : run bench_device l (boot bench_start) [] (idle bench_start).
Proof. constructor. Qed.

Lemma writes_sound_witness : let w := idle (written rename false bench_start) in
  sv_settings (wo_service w) = bench_tree "box" true false ∧ sound_tree (sv_settings (wo_service w))
  ∧ (∀ f, has (dv_features bench_device) f = false → get_setting (sv_settings (wo_service w)) (subtree f) = get_setting (sv_settings bench_start) (subtree f)).
Proof.
  pose proof (writes_sound bench_device [] bench_start _ _ bench_apart eq_refl bench_well_formed
    (write_runs [] _ [] rename false bench_start rename_well (bench_idle []))) as (H1 & H2 & _).
  split; [by vm_compute|by split].
Defined.

(** An administrator comes by a claim, goes by a write, and comes by another
    claim. *)
Definition the_claim : Writes := [("admin", Bool true)].
Definition unclaim : Writes := [("admin", Bool false)].
Definition claimed : Service := written the_claim true bench_start.
Definition unclaimed : Service := written unclaim false claimed.
Lemma claims_well : writes_well the_claim true bench_start ∧ writes_well unclaim false claimed ∧ writes_well the_claim true unclaimed.
Proof. by vm_compute. Qed.
Lemma claim_admin : is_Some (admin_of {| wo_service := o_state (persist_commit bench_device bench_host the_claim true [rf_document bench_refusal] [] bench_start);
  wo_calls := [begun the_claim true Landed]; wo_worker := None |}).
Proof. vm_compute. by eexists. Qed.
Lemma second_claim_refused : o_result (persist_commit bench_device bench_host the_claim true [rf_document bench_refusal] [] claimed) = Ok (inl Claimed).
Proof. by vm_compute. Qed.
Definition at_claim (sv : Service) : World :=
  {| wo_service := sv; wo_calls := [begun the_claim true (Checked [rf_document bench_refusal] [])]; wo_worker := None |}.
Lemma claims_apart_witness : ∃ t2 : list label, Stored false ∈ t2 ∧ admin_of (at_claim bench_start) = None ∧ admin_of (at_claim unclaimed) = None
  ∧ o_result (persist_commit bench_device bench_host the_claim true [rf_document bench_refusal] [] claimed) = Ok (inl Claimed).
Proof.
  pose proof second_claim_refused as Hno. destruct claims_well as (W1 & W2 & W3).
  destruct (claims_apart bench_device [] (boot bench_start) _ (at_claim bench_start) _ _ (at_claim unclaimed) _
    (checked_runs [] _ [] the_claim true bench_start W1 (bench_idle [])) (store_step [] the_claim true bench_start W1) claim_admin
    (checked_runs [] _ _ the_claim true unclaimed W3
      (write_runs [] _ _ unclaim false claimed W2 (run_snoc _ _ _ [] _ _ _ (run_nil _ _ _) (finish_step [] the_claim true bench_start W1))))
    (store_step [] the_claim true unclaimed W3)) as (H1 & H3 & Hin).
  eexists. split; [exact Hin|split; [exact H1|split; [exact H3|exact Hno]]].
Defined.

(** The refused [wifi.json], under a write of the hostname. *)
Definition keep : Writes := [("hostname", Str (s_hostname default_settings))].
Definition kept_start : Service := bench_boot (bench_tree "mica" false false).
Lemma kept_default : apply_writes (sv_settings kept_start) keep = inr default_settings.
Proof. by vm_compute. Qed.
Lemma kept_storable : Store.storable default_settings.
Proof.
  split; try (intros text [= <-]; split; [done|]; by eexists (Object [("schema_version", Number "1")])).
  - repeat constructor.
  - by constructor.
Qed.
Definition kept_saved : Service := o_state (persist_commit bench_device bench_host keep false [rf_document bench_refusal] [] kept_start).
Lemma keep_well : writes_well keep false kept_start.
Proof. by vm_compute. Qed.
Lemma kept_well_formed : well_formed (bench_tree "mica" false false).
Proof. split; [constructor|by vm_compute..]. Qed.
Lemma keep_candidate ho candidate : commit_candidate bench_device ho keep false [] (sv_settings kept_start) = inr candidate → candidate = default_settings.
Proof. intros (_ & H & _)%commit_candidate_ok. rewrite kept_default in H. by injection H. Qed.
Lemma kept_committed : durable (persist_commit bench_device bench_host keep false [rf_document bench_refusal] [] kept_start) kept_saved.
Proof. by left. Qed.
Lemma kept_room : Store.room (preserving [rf_document bench_refusal] (dv_store bench_device)) bench_disk default_settings.
Proof. by vm_compute. Qed.
Lemma refused_documents_kept_witness :
  seen (o_state (recover (st_path (dv_store bench_device)) (st_config (dv_store bench_device)) (at_rest (seen (sv_disk kept_saved)) [])))
    !! config_file (dv_store bench_device) (rf_document bench_refusal)
  = bench_disk !! config_file (dv_store bench_device) (rf_document bench_refusal).
Proof.
  eapply (proj2 (refused_documents_kept bench_device [] kept_start _ _ 0 (begun keep false (Checked [rf_document bench_refusal] [])) [rf_document bench_refusal] [] bench_host bench_disk
    [] kept_saved (seen (sv_disk kept_saved)) bench_refusal bench_apart eq_refl kept_well_formed (checked_runs [] _ [] keep false kept_start keep_well (run_nil _ _ _)) eq_refl eq_refl eq_refl
    (Store.store_placed _) (Store.store_ready _) _ kept_committed (λ p, or_introl eq_refl) (list_elem_of_here _ _) eq_refl)).
  - done.
  - by do 3 right; left.
  - by eexists.
  Unshelve.
  intros candidate Hc. rewrite (keep_candidate _ _ Hc). split; [exact kept_storable|exact kept_room].
Defined.

(** The map with [eth0] comes up; one without ports is stored, fails and rolls
    back; the first is stored again. *)
Definition network_reconciler : ApplyQueue.Reconciler := ApplyQueue.reconciler_of "network".
Definition drop_ports : Writes := [("network", Bool false)].
Definition applied_to (a : Applied) (sv : Service) : Service * list string :=
  reconcile_one "network" (λ _, true) (sv_settings sv) (sv_refusals sv) (λ _ _, a) network_reconciler (sv, []).
Definition passed (a : Applied) (sv : Service) : Pass :=
  pass_on [] (applied_to a sv).2 (pass_reads (Some (sv_settings sv)) (Some (sv_refusals sv)) (take_pass [network_reconciler] "network" (λ _, true) true sv)).
Lemma pass_runs w0 t sv a : run bench_device [network_reconciler] w0 t (idle sv) →
  run bench_device [network_reconciler] w0
    ((((t ++ [Quietly]) ++ [Quietly]) ++ [Quietly]) ++ [if brings_up "network" (λ _, true) (sv_refusals sv) network_reconciler a then BroughtUp (s_network (sv_settings sv)) else Quietly])
    {| wo_service := (applied_to a sv).1; wo_calls := []; wo_worker := Some (passed a sv) |}.
Proof.
  intros Hr. eapply run_snoc; [eapply run_snoc; [eapply run_snoc; [eapply run_snoc; [exact Hr|by apply step_take]|]|]|].
  - by apply step_settings.
  - by apply (step_refused bench_device [network_reconciler] sv [] _ (sv_settings sv)).
  - by apply (step_apply bench_device [network_reconciler] sv [] (pass_reads (Some (sv_settings sv)) (Some (sv_refusals sv)) (take_pass [network_reconciler] "network" (λ _, true) true sv))
      (sv_settings sv) (sv_refusals sv) network_reconciler [] a); [| | |apply surjective_pairing].
Qed.
Definition came_up : Service := (applied_to (AppliedOk Null) bench_start).1.
Definition dropped : Service := written drop_ports false came_up.
Definition fails : Applied := AppliedErr "no carrier" true.
Definition to_restore : World :=
  {| wo_service := (applied_to fails dropped).1; wo_calls := []; wo_worker := Some (pass_preserves [rf_document bench_refusal] (passed fails dropped)) |}.
Lemma drop_well : writes_well drop_ports false came_up.
Proof. by vm_compute. Qed.
Lemma came_up_runs : run bench_device [network_reconciler] (boot bench_start) (((([] ++ [Quietly]) ++ [Quietly]) ++ [Quietly]) ++ [BroughtUp [("eth0", default_iface)]] ++ [Quietly]) (idle came_up).
Proof.
  rewrite app_assoc. eapply run_snoc; [exact (pass_runs _ [] bench_start (AppliedOk Null) (run_nil _ _ _))|].
  apply (step_done bench_device [network_reconciler] came_up [] (passed (AppliedOk Null) bench_start)); [by eexists|done|by right; right].
Qed.
Definition restore_trace : list label :=
  (((((((((((([] ++ [Quietly]) ++ [Quietly]) ++ [Quietly]) ++ [BroughtUp [("eth0", default_iface)]] ++ [Quietly]) ++ [Quietly] ++ [Quietly] ++ [Answered []]) ++ [Stored false]) ++ [Quietly])
    ++ [Quietly]) ++ [Quietly]) ++ [Quietly]) ++ [Quietly]) ++ [Quietly]).
Lemma to_restore_runs : run bench_device [network_reconciler] (boot bench_start) restore_trace to_restore.
Proof.
  unfold restore_trace. eapply run_snoc; [exact (pass_runs _ _ dropped fails (write_runs _ _ _ drop_ports false came_up drop_well came_up_runs))|].
  apply (step_preserve bench_device [network_reconciler] (applied_to fails dropped).1 [] (passed fails dropped)); [by eexists|done|done|done|done].
Qed.
Definition bench_restored : World :=
  {| wo_service := o_state (restore_network bench_device (ps_attempted (passed fails dropped)) [("eth0", default_iface)] [rf_document bench_refusal] (wo_service to_restore));
     wo_calls := []; wo_worker := None |}.
Lemma restores : restored (restore_network bench_device (ps_attempted (passed fails dropped)) [("eth0", default_iface)] [rf_document bench_refusal] (wo_service to_restore)) = true.
Proof. by vm_compute. Qed.
Lemma restore_step : step bench_device [network_reconciler] to_restore (Restored [("eth0", default_iface)]) bench_restored.
Proof.
  pose proof (step_restore bench_device [network_reconciler] (wo_service to_restore) [] (pass_preserves [rf_document bench_refusal] (passed fails dropped)) [rf_document bench_refusal]
    [("eth0", default_iface)] _ eq_refl ltac:(by vm_compute) eq_refl) as H.
  change (ps_attempted (pass_preserves [rf_document bench_refusal] (passed fails dropped))) with (ps_attempted (passed fails dropped)) in H. rewrite restores in H. exact H.
Qed.
Lemma restored_came_up_witness :
  BroughtUp [("eth0", default_iface)] ∈ restore_trace ∧ rolled_back (sv_live (wo_service to_restore)) = true
  ∧ sv_settings (wo_service bench_restored) = with_network [("eth0", default_iface)] (sv_settings (wo_service to_restore)).
Proof.
  destruct (restored_came_up bench_device [network_reconciler] bench_start restore_trace to_restore [("eth0", default_iface)] bench_restored bench_apart eq_refl bench_well_formed
    to_restore_runs restore_step) as (H1 & H2 & _ & H3).
  split; [exact H1|split; [exact H2|exact H3]].
Defined.

(** Two writes that landed, each on its own refused document: the refusals one
    read before the other's were dropped are published last, and the live state
    keeps a refusal that is over. *)
Definition dns_refusal : DocumentRefusal := Store.Build_DocumentRefusal "dns.json" "/mica/config/dns.json" "m" (Io (Msg "e")) ["dns"].
Definition landed_at (path : string) (s : Stage) : Call := begun [(path, Null)] false s.
Definition refused_service (live : smap value) (refusals : list DocumentRefusal) : Service :=
  with_live live (with_refusals refusals bench_start).
Definition both_landed : World :=
  {| wo_service := refused_service [] [bench_refusal; dns_refusal]; wo_calls := [landed_at "wifi" Landed; landed_at "dns" Landed]; wo_worker := None |}.
Definition one_refused : value := obj [("refused", Array [refusal_json dns_refusal])].
Example stale_refusals_published :
  run bench_device [] both_landed [Quietly; Quietly; Quietly; Quietly; Quietly; Quietly]
    {| wo_service := refused_service [("configuration", one_refused)] []; wo_calls := []; wo_worker := None |}.
Proof.
  change [Quietly; Quietly; Quietly; Quietly; Quietly; Quietly] with (((((([] ++ [Quietly]) ++ [Quietly]) ++ [Quietly]) ++ [Quietly]) ++ [Quietly]) ++ [Quietly]).
  eapply run_snoc; [eapply run_snoc; [eapply run_snoc; [eapply run_snoc; [eapply run_snoc; [eapply run_snoc; [constructor|]|]|]|]|]|].
  - by apply (step_finish bench_device [] _ _ None 0 (landed_at "wifi" Landed) (refused_service [] [dns_refusal]) true).
  - by apply (step_published bench_device [] _ _ None 0 (landed_at "wifi" Repaired)).
  - by apply (step_finish bench_device [] _ _ None 1 (landed_at "dns" Landed) (refused_service [] []) true).
  - by apply (step_published bench_device [] _ _ None 1 (landed_at "dns" Repaired)).
  - by apply (step_publish bench_device [] _ _ None 1 (landed_at "dns" (Publishing [])) []).
  - exact (step_publish bench_device [] (publish_refusals [] (refused_service [] [])) [landed_at "wifi" (Publishing [dns_refusal])] None 0
      (landed_at "wifi" (Publishing [dns_refusal])) [dns_refusal] eq_refl eq_refl).
Qed.
End bench.
End Persist.
