(* ===== verification/AccessGate.v ===== *)
(** The auth gate's cache of [access] ([src/crates/mica-apid/src/
    access_cache.rs], [watch_connection] of [bus_client.rs] and
    [access_settings] of [routes/credential.rs]) over micad's settings tree and
    the signals of what is written to it. *)
From Stdlib Require Import Ascii.
From S2P Require Import Prelude Text Maps Features SettingsModel DotPath SettingsTree Persist.
Import Features SettingsModel DotPath SettingsTree.
Import Persist(Writes, apply_writes).

Module AccessGate.

(** * The cache *)

Definition ACCESS_PATH : string := "access".
Definition touches_access (path : string) : bool :=
  is_empty path || bool_decide (path = ".") || bool_decide (path = ACCESS_PATH)
  || match strip_prefix ACCESS_PATH path with Some rest => starts_with "." rest | None => false end.

Record AccessCache := { ca_synchronised : bool; ca_generation : Z; ca_value : option AccessSettings }.
Definition new_cache : AccessCache := {| ca_synchronised := false; ca_generation := 0; ca_value := None |}.
Definition cache_get (c : AccessCache) : option AccessSettings := if ca_synchronised c then ca_value c else None.
Definition fill (generation : Z) (value : AccessSettings) (c : AccessCache) : AccessCache :=
  if ca_synchronised c && (ca_generation c =? generation)
  then {| ca_synchronised := ca_synchronised c; ca_generation := ca_generation c; ca_value := Some value |} else c.
Definition invalidate (c : AccessCache) : AccessCache :=
  {| ca_synchronised := ca_synchronised c; ca_generation := wrap64 (ca_generation c + 1); ca_value := None |}.
Definition subscribed (c : AccessCache) : AccessCache :=
  {| ca_synchronised := true; ca_generation := wrap64 (ca_generation c + 1); ca_value := None |}.
Definition lapsed (c : AccessCache) : AccessCache :=
  {| ca_synchronised := false; ca_generation := wrap64 (ca_generation c + 1); ca_value := None |}.

(** * The gate and micad *)

(** micad's tree; the signals a live subscription has still to deliver, by
    their paths; the cache; the direct reads on their way, each with the
    generation it sampled and its answer; and whether, since the cache was last
    emptied, a write that reaches [access] went without a signal that says so. *)
Record Gate := {
  gt_settings : Settings; gt_signals : list string; gt_cache : AccessCache; gt_reads : list (Z * option AccessSettings); gt_unannounced : bool;
}.
(** Whether a write at a path can change [access]: its first segment, unquoted. *)
Definition reaches_access (path : string) : bool := is_root path || bool_decide ((path_segments path ≫= head) = Some ACCESS_PATH).
(** A write's signals: one per path, those that were sent. *)
Definition signals_of (sent : list (string * bool)) : list string := map fst (List.filter snd sent).
Definition unannounced (sent : list (string * bool)) : bool := existsb (λ e, reaches_access e.1 && negb (e.2 && touches_access e.1)) sent.
(** [watch_connection]'s turn on a signal. *)
Definition on_signal (path : string) (g : Gate) : Gate :=
  if touches_access path
  then {| gt_settings := gt_settings g; gt_signals := gt_signals g; gt_cache := invalidate (gt_cache g); gt_reads := gt_reads g; gt_unannounced := false |}
  else g.
Definition with_signals (signals : list string) (g : Gate) : Gate :=
  {| gt_settings := gt_settings g; gt_signals := signals; gt_cache := gt_cache g; gt_reads := gt_reads g; gt_unannounced := gt_unannounced g |}.
Definition with_reads (reads : list (Z * option AccessSettings)) (g : Gate) : Gate :=
  {| gt_settings := gt_settings g; gt_signals := gt_signals g; gt_cache := gt_cache g; gt_reads := reads; gt_unannounced := gt_unannounced g |}.
Definition emptied (f : AccessCache → AccessCache) (g : Gate) : Gate :=
  {| gt_settings := gt_settings g; gt_signals := gt_signals g; gt_cache := f (gt_cache g); gt_reads := gt_reads g; gt_unannounced := false |}.
Definition filled (gen : Z) (a : AccessSettings) (g : Gate) : Gate :=
  {| gt_settings := gt_settings g; gt_signals := gt_signals g; gt_cache := fill gen a (gt_cache g); gt_reads := gt_reads g; gt_unannounced := gt_unannounced g |}.

Section gate.
Context `{SD : Serde}.

Inductive gate_step : Gate → Gate → Prop :=
| gate_write (writes : Writes) sent s' g : (* micad stores a write, then signals each path, where that does not fail *)
    apply_writes (gt_settings g) writes = inr s' → map fst sent = map fst writes →
    gate_step g {| gt_settings := s'; gt_signals := gt_signals g ++ signals_of sent; gt_cache := gt_cache g; gt_reads := gt_reads g;
                   gt_unannounced := gt_unannounced g || unannounced sent |}
| gate_signal before path after g : gt_signals g = before ++ path :: after → (* in the order they were sent, which need not be the writes' *)
    gate_step g (on_signal path (with_signals (before ++ after) g))
| gate_own_write g : gate_step g (emptied invalidate g) (* the console wrote under [access] *)
| gate_lapsed g : gate_step g (emptied lapsed (with_signals [] g))
| gate_subscribed signals g : signals `sublist_of` gt_signals g → (* those since the match rule *)
    gate_step g (emptied subscribed (with_signals signals g))
| gate_read_starts g : gate_step g (with_reads ((ca_generation (gt_cache g), None) :: gt_reads g) g)
| gate_read_answers g before gen after : gt_reads g = before ++ (gen, None) :: after →
    gate_step g (with_reads (before ++ (gen, Some (s_access (gt_settings g))) :: after) g)
| gate_read_fills g before gen a after : gt_reads g = before ++ (gen, Some a) :: after → gate_step g (filled gen a (with_reads (before ++ after) g))
| gate_read_fails g before gen o after : gt_reads g = before ++ (gen, o) :: after → gate_step g (with_reads (before ++ after) g).
Definition gate_boot (s : Settings) : Gate := {| gt_settings := s; gt_signals := []; gt_cache := new_cache; gt_reads := []; gt_unannounced := false |}.
(** Runs of fewer than 2^64 invalidations. *)
Inductive gate_reachable (s : Settings) : Gate → Prop :=
| gate_start : gate_reachable s (gate_boot s)
| gate_next g g' : gate_reachable s g → ca_generation (gt_cache g) < U64_MAX → gate_step g g' → gate_reachable s g'.
End gate.

(** The derives of the tree ([serde]): what was serialized is read back as it
    was, and [access] is read from the member of that name alone. *)
Record SerdeLaws `{SD : Serde} : Prop := {
  sl_back : ∀ s v, to_value s = Ok v → from_value v = Ok s;
  sl_access : ∀ v v' s s', from_value v = Ok s → from_value v' = Ok s' → member v ACCESS_PATH = member v' ACCESS_PATH → s_access s = s_access s';
}.

(** * Lemmas *)

(** ** What a write reaches *)

Lemma set_below_member walked node parents last v node' key : set_below walked node parents last v = inr node' →
  head (parents ++ [last]) ≠ Some key → member node' key = member node key.
Proof.
  unfold member. destruct parents as [|segment rest]; cbn [set_below]; destruct (as_object node) as [m|] eqn:En; try done; destruct node; try done; cbn in En; injection En as ->.
  - intros [= <-]. cbn. intros Hk. rewrite smap_get_insert, bool_decide_eq_false_2; [done|]. by intros ->.
  - destruct (set_below _ _ rest last v) as [|child]; [done|]. cbn [then_do]. intros [= <-]. cbn. intros Hk. rewrite smap_get_insert, bool_decide_eq_false_2; [done|]. by intros ->.
Qed.
Lemma json_set_member root segments v root' key : json_path_set root segments v = inr root' → head segments ≠ Some key → member root' key = member root key.
Proof.
  unfold json_path_set. destruct (last segments) as [final|] eqn:El; [|done]. intros H Hk. apply (set_below_member _ _ _ _ _ _ key H).
  assert (E : segments = removelast segments ++ [final]); [|by rewrite <- E]. clear -El.
  apply last_Some in El as [l ->]. by rewrite removelast_last.
Qed.
Lemma set_access `{SD : Serde} (L : SerdeLaws) s path v s' : set_setting s path v = inr s' → reaches_access path = false → s_access s' = s_access s.
Proof.
  intros H Hr. unfold reaches_access in Hr. apply orb_false_iff in Hr as [Hroot Hseg]. apply bool_decide_eq_false in Hseg.
  unfold set_setting, candidate_of in H. unfold to_json in H. destruct (to_value s) as [root|] eqn:Ev; [|done]. cbn [then_do] in H. rewrite Hroot in H.
  unfold split_path in H. destruct (path_segments path) as [segments|]; [|done]. cbn [then_do] in H. destruct (json_path_set root segments v) as [|root'] eqn:Es; [done|]. cbn [then_do] in H.
  destruct (checked path (from_value root')) as [|c] eqn:Ec; [done|]. apply checked_inr in Ec. cbn [then_do] in H.
  destruct (checked path (check_write s (drop_dirs s c))) as [|[]]; [done|]. cbn [then_do] in H. injection H as <-.
  change (s_access (drop_dirs s c)) with (s_access c). apply (sl_access L root' root); [done|by apply (sl_back L)|]. by apply (json_set_member _ _ _ _ ACCESS_PATH Es).
Qed.
Lemma writes_access `{SD : Serde} (L : SerdeLaws) writes s s' : apply_writes s writes = inr s' → s_access s' = s_access s ∨ ∃ path, path ∈ map fst writes ∧ reaches_access path = true.
Proof.
  revert s. induction writes as [|[path v] writes IH]; intros s; cbn [apply_writes map fst]; [intros [= <-]; by left|]. destruct (set_setting s path v) as [|s1] eqn:E; [done|]. cbn [then_do].
  intros H. destruct (reaches_access path) eqn:Er; [right; exists path; split; [by left|done]|].
  destruct (IH s1 H) as [H1|(p & Hp & Hr)]; [left; rewrite H1; by eapply set_access|right; exists p; split; [by right|done]].
Qed.

(** ** The invariant *)

(** A value that is current, or whose change is on its way or was not told. *)
Definition announced (g : Gate) (a : AccessSettings) : Prop := a = s_access (gt_settings g) ∨ (∃ path, path ∈ gt_signals g ∧ touches_access path = true) ∨ gt_unannounced g = true.
Record gate_ok (g : Gate) : Prop := {
  gate_value : ∀ a, ca_synchronised (gt_cache g) = true → ca_value (gt_cache g) = Some a → announced g a;
  gate_reads : ∀ gen a, (gen, Some a) ∈ gt_reads g → ca_synchronised (gt_cache g) = true → gen = ca_generation (gt_cache g) → announced g a;
  gate_old : ∀ gen o, (gen, o) ∈ gt_reads g → gen ≤ ca_generation (gt_cache g);
  gate_bound : 0 ≤ ca_generation (gt_cache g);
}.
Lemma next_generation z : 0 ≤ z → z < U64_MAX → wrap64 (z + 1) = z + 1.
Proof. intros H1 H2. unfold wrap64. rewrite Z.mod_small; [done|unfold U64_MAX in H2; lia]. Qed.
(** A bump empties the cache and outdates every read under way. *)
Lemma gate_bumped (f : AccessCache → AccessCache) signals g : gate_ok g → ca_generation (gt_cache g) < U64_MAX →
  (∀ c, ca_value (f c) = None) → (∀ c, ca_generation (f c) = wrap64 (ca_generation c + 1)) → gate_ok (emptied f (with_signals signals g)).
Proof.
  intros [_ _ Ho H0] Hb Hv Hg. assert (E : ca_generation (f (gt_cache g)) = ca_generation (gt_cache g) + 1) by by rewrite Hg, next_generation. split; cbn.
  - intros a _ H. by rewrite Hv in H.
  - intros gen a Hin _ Eg. apply Ho in Hin. lia.
  - intros gen o Hin. apply Ho in Hin. lia.
  - lia.
Qed.
(** The same reads, or fewer, of a gate no less announced. *)
Lemma gate_kept g g' : gate_ok g → gt_cache g' = gt_cache g → (∀ x, x ∈ gt_reads g' → x ∈ gt_reads g) → (∀ a, announced g a → announced g' a) → gate_ok g'.
Proof. intros [Hv Hr Ho H0] E Hin Ha. split; rewrite ?E; [by intros; apply Ha, Hv|by intros; eapply Ha, Hr; [apply Hin|..]|by intros; eapply Ho, Hin|done]. Qed.
Lemma reads_without {A} (before after : list A) x : ∀ y, y ∈ before ++ after → y ∈ before ++ x :: after.
Proof. intros y. rewrite !elem_of_app, elem_of_cons. tauto. Qed.
Lemma write_announces `{SD : Serde} (L : SerdeLaws) writes sent s' g a : apply_writes (gt_settings g) writes = inr s' → map fst sent = map fst writes → announced g a →
  announced {| gt_settings := s'; gt_signals := gt_signals g ++ signals_of sent; gt_cache := gt_cache g; gt_reads := gt_reads g; gt_unannounced := gt_unannounced g || unannounced sent |} a.
Proof.
  intros Hw Hs Ha. unfold announced in *. cbn. destruct (writes_access L writes _ s' Hw) as [->|(path & Hp & Hr)].
  { destruct Ha as [?|[(p & Hp & Ht)| ->]]; [by left|right; left; exists p; split; [apply elem_of_app; by left|done]|by do 2 right]. }
  right. rewrite <- Hs in Hp. apply list_elem_of_fmap in Hp as ([p ok] & -> & Hin). cbn in Hr. destruct (ok && touches_access p) eqn:E.
  - apply andb_true_iff in E as [-> Ht]. left. exists p. split; [|done]. apply elem_of_app. right. unfold signals_of. apply list_elem_of_fmap. exists (p, true). split; [done|].
    by apply list_elem_of_In, filter_In; split; [apply list_elem_of_In|].
  - right. apply orb_true_iff. right. unfold unannounced. apply existsb_exists. exists (p, ok). split; [by apply list_elem_of_In|]. cbn. by rewrite Hr, E.
Qed.
Lemma gate_step_ok `{SD : Serde} (L : SerdeLaws) g g' : gate_ok g → ca_generation (gt_cache g) < U64_MAX → gate_step g g' → gate_ok g'.
Proof.
  intros Hok Hb Hst. destruct Hst as [writes sent s' g Hw Hs|before path after g Hq|g|g|signals g Hq|g|g before gen after Er|g before gen a after Er|g before gen o after Er].
  - apply (gate_kept g); [done|done|done|]. intros a. by apply (write_announces L writes).
  - unfold on_signal. destruct (touches_access path) eqn:Et; [by apply (gate_bumped invalidate (before ++ after) g)|]. apply (gate_kept g); [done|done|done|]. unfold announced. cbn. rewrite Hq.
    intros a [?|[(p & Hp & Ht)|?]]; [by left| |by do 2 right]. right. left. exists p. split; [|done].
    apply elem_of_app in Hp as [Hp|[->|Hp]%elem_of_cons]; [apply elem_of_app; by left|congruence|apply elem_of_app; by right].
  - pose proof (gate_bumped invalidate (gt_signals g) g Hok Hb) as H. by apply H.
  - by apply gate_bumped.
  - by apply gate_bumped.
  - destruct Hok as [Hv Hr Ho H0]. split; cbn; [exact Hv| | |exact H0].
    + intros gen a [[=]|H]%elem_of_cons. by apply Hr.
    + intros gen o [[= -> ->]|H]%elem_of_cons; [lia|by eapply Ho].
  - destruct Hok as [Hv Hr Ho H0]. split; cbn; [exact Hv| | |exact H0].
    + intros gen' a [H|[[= -> ->]|H]%elem_of_cons]%elem_of_app; [|by left|]; apply Hr; rewrite Er, elem_of_app, elem_of_cons; auto.
    + intros gen' o [H|[[= -> ->]|H]%elem_of_cons]%elem_of_app; eapply Ho; rewrite Er, elem_of_app, elem_of_cons; eauto.
  - assert (Hin : ∀ x, x ∈ before ++ after → x ∈ gt_reads g) by (rewrite Er; apply reads_without).
    pose proof (gate_kept g (with_reads (before ++ after) g) Hok eq_refl Hin (λ _ H, H)) as [Hv Hr Ho H0]. cbn in *. unfold filled, fill.
    destruct (ca_synchronised (gt_cache (with_reads (before ++ after) g)) && _) eqn:E; [|by split]. apply andb_true_iff in E as [Es E]. apply Z.eqb_eq in E. cbn in Es, E. split; cbn.
    + intros a' _ [= <-]. destruct Hok as [_ Hr' _ _]. apply (Hr' gen); [|done|done]. rewrite Er. apply elem_of_app. right. by left.
    + exact Hr.
    + exact Ho.
    + exact H0.
  - apply (gate_kept g); [done|done| |done]. cbn. rewrite Er. apply reads_without.
Qed.

(** * Properties *)

(** C21: however micad's writes, the signals of their paths, subscriptions that
    come and go, the console's own invalidations and direct reads interleave, a
    value the gate answers from its cache is micad's current [access], unless
    the signal of a write that the filter takes for one of [access] is still on
    its way, or, since the cache was last emptied, a write that reaches [access]
    was stored without such a signal: it could not be sent, or the path it names
    spells [access] in a way the filter does not know. *)
Theorem cache_fresh `{SD : Serde} (L : SerdeLaws) s g a : gate_reachable s g → cache_get (gt_cache g) = Some a →
  a = s_access (gt_settings g) ∨ (∃ path, path ∈ gt_signals g ∧ touches_access path = true) ∨ gt_unannounced g = true.
Proof.
  intros H. cut (gate_ok g).
  - intros [Hv _ _ _] Ha. unfold cache_get in Ha. destruct (ca_synchronised (gt_cache g)) eqn:E; [|done]. by apply Hv.
  - induction H as [|g g' _ IH Hb Hst]; [|by eapply gate_step_ok]. split; cbn; [done|by intros gen a' H%elem_of_nil..|lia].
Qed.

(** ** A device *)

(** A serializer of the administrator alone, the rest at its default. *)
Definition with_admin (hash : option string) : Settings :=
  {| s_hostname := s_hostname default_settings; s_network := s_network default_settings; s_dns := s_dns default_settings;
     s_access := {| ac_web_admin := (λ h, {| wa_password_hash := h |}) <$> hash; ac_claim := None; ac_ssh := ac_ssh default_access; ac_console := ac_console default_access;
                    ac_web := ac_web default_access; ac_mdns := ac_mdns default_access; ac_ssdp := ac_ssdp default_access; ac_device := ac_device default_access; ac_api_tokens := [] |};
     s_provisioning := s_provisioning default_settings; s_wifi := s_wifi default_settings; s_container := s_container default_settings; s_mqtt := s_mqtt default_settings;
     s_bluetooth := s_bluetooth default_settings; s_time := s_time default_settings; s_services := s_services default_settings; s_reset := None |}.
Definition admin_hash (s : Settings) : option string := wa_password_hash <$> ac_web_admin (s_access s).
Definition admin_value (s : Settings) : value := Object [(ACCESS_PATH, Object [("webAdmin", match admin_hash s with Some h => Str h | None => Null end)])].
Definition admin_serde : Serde :=
  {| to_value := λ s, if bool_decide (s = with_admin (admin_hash s)) then Ok (admin_value s) else Err (Msg "not this sample's");
     from_value := λ v, match DotPath.member (DotPath.member v ACCESS_PATH) "webAdmin" with
                        | Null => Ok (with_admin None) | Str h => Ok (with_admin (Some h)) | _ => Err (Msg "invalid type") end |}.
Lemma admin_laws : SerdeLaws (SD := admin_serde).
Proof.
  split.
  - intros s v. cbn. case_bool_decide as E; [|done]. intros [= <-]. rewrite E. cbn. destruct (admin_hash s); by cbn.
  - intros v v' s s'. cbn. intros H1 H2 E. rewrite E in H1. congruence.
Qed.
Definition unclaimed : Settings := with_admin None.
(** The console has read [access] and holds it. *)
Definition holding (s : Settings) (a : AccessSettings) (signals : list string) (lost : bool) : Gate :=
  {| gt_settings := s; gt_signals := signals; gt_cache := {| ca_synchronised := true; ca_generation := 1; ca_value := Some a |}; gt_reads := []; gt_unannounced := lost |}.
Lemma holding_reached : gate_reachable (SD := admin_serde) unclaimed (holding unclaimed (s_access unclaimed) [] false).
Proof.
  assert (H1 : gate_reachable (SD := admin_serde) unclaimed (emptied subscribed (with_signals [] (gate_boot unclaimed)))).
  { eapply gate_next; [apply gate_start|done|by apply gate_subscribed]. }
  pose proof (gate_next _ _ _ H1 eq_refl (gate_read_starts _)) as H2. eapply gate_next in H2; [|done|by apply (gate_read_answers _ [] 1 [])].
  eapply gate_next in H2; [|done|by apply (gate_read_fills _ [] 1 (s_access unclaimed) [])]. exact H2.
Qed.
(** A write, and what it makes of the held value. *)
Lemma written_reached path (sent : bool) s' : set_setting (SD := admin_serde) unclaimed path (Str "h") = inr s' →
  gate_reachable (SD := admin_serde) unclaimed (holding s' (s_access unclaimed) (signals_of [(path, sent)]) (unannounced [(path, sent)])).
Proof.
  intros H. refine (gate_next _ _ _ holding_reached eq_refl (gate_write [(path, Str "h")] [(path, sent)] s' _ _ eq_refl)).
  cbn [holding gt_settings apply_writes]. by rewrite H.
Qed.
Lemma cache_fresh_witness :
  let g := holding (with_admin (Some "h")) (s_access unclaimed) ["access.webAdmin"] false in
  gate_reachable (SD := admin_serde) unclaimed g ∧ cache_get (gt_cache g) = Some (s_access unclaimed) ∧ s_access unclaimed ≠ s_access (gt_settings g)
  ∧ ∃ path, path ∈ gt_signals g ∧ touches_access path = true.
Proof.
  intros g. assert (H : gate_reachable (SD := admin_serde) unclaimed g) by (apply (written_reached "access.webAdmin" true); by vm_compute).
  split; [exact H|]. split; [done|]. split; [done|].
  destruct (cache_fresh (SD := admin_serde) admin_laws unclaimed g (s_access unclaimed) H eq_refl) as [E|[E|E]]; [discriminate E|exact E|discriminate E].
Defined.
(** A write that quotes the first segment changes [access] and its signal, once
    delivered, leaves the cache: the console goes on with the value before it. *)
Definition quoted_access : string := quote_str +:+ "access" +:+ quote_str +:+ ".webAdmin".
Example quoted_write_is_missed :
  set_setting (SD := admin_serde) unclaimed quoted_access (Str "h") = inr (with_admin (Some "h"))
  ∧ let g := holding (with_admin (Some "h")) (s_access unclaimed) [] true in
    gate_reachable (SD := admin_serde) unclaimed g ∧ cache_get (gt_cache g) = Some (s_access unclaimed) ∧ ac_web_admin (s_access (gt_settings g)) ≠ ac_web_admin (s_access unclaimed).
Proof.
  assert (H : set_setting (SD := admin_serde) unclaimed quoted_access (Str "h") = inr (with_admin (Some "h"))) by by vm_compute.
  split; [exact H|]. split; [|by split]. set (g := holding (with_admin (Some "h")) (s_access unclaimed) (signals_of [(quoted_access, true)]) (unannounced [(quoted_access, true)])).
  exact (gate_next _ g _ (written_reached quoted_access true _ H) eq_refl (gate_signal (SD := admin_serde) [] quoted_access [] g eq_refl)).
Qed.
End AccessGate.
