(* ===== verification/Effects.v ===== *)
(** Computations that change a state and may fail: the outcome and the state it
    ends in. What the flows of the daemon over files and programs are written
    in, and how a property of the state is carried through one. *)
From S2P Require Import Prelude.

Module Effects.

(** * Computations *)

Definition M (W E A : Type) := W → (E + A) * W.
Definition ret {W} {E A} (a : A) : M W E A := λ w, (inr a, w).
Definition throw {W} {E A} (e : E) : M W E A := λ w, (inl e, w).
Definition bind {W} {E A B} (m : M W E A) (k : A → M W E B) : M W E B := λ w, match m w with (inr a, w) => k a w | (inl e, w) => (inl e, w) end.
Notation "'let*' x ':=' m 'in' k" := (bind m (λ x, k)) (at level 200, x pattern, m at level 100, k at level 200).
Definition gets {W} {E A} (f : W → A) : M W E A := λ w, (inr (f w), w).
Definition modify {W} {E} (f : W → W) : M W E unit := λ w, (inr tt, f w).
(** The outcome as a value: [let _ =], or a match on it. *)
Definition try {W} {E E' A} (m : M W E A) : M W E' (E + A) := λ w, let '(r, w) := m w in (inr r, w).
Definition lift {W} {E E' A} (f : E → E') (m : M W E A) : M W E' A := λ w, match m w with (inl e, w) => (inl (f e), w) | (inr a, w) => (inr a, w) end.
Definition under {W} {A} (context : string) (m : M W string A) : M W string A := lift (λ e, context +:+ ": " +:+ e) m.
Definition of_result {W} {A} (context : string) (r : result A) : M W string A := match r with Ok a => ret a | Err _ => throw context end.
Definition of_sum {W} {E A} (r : E + A) : M W E A := match r with inr a => ret a | inl e => throw e end.
Fixpoint each_ {W} {E A} (f : A → M W E unit) (l : list A) : M W E unit :=
  match l with
  | [] => ret tt
  | a :: l => let* _ := f a in each_ f l
  end.
(** [let _ = ...]. *)
Definition dismiss {W} {E E' A} (m : M W E A) : M W E' unit := let* _ := try m in ret tt.

(** * What a computation keeps *)

Definition holds {W E A} (P : W → Prop) (m : M W E A) : Prop := ∀ w, P w → P (m w).2.
(** What it leads to, on either outcome. *)
Definition leads_to {W E A} (P : W → Prop) (m : M W E A) (Q : E + A → W → Prop) : Prop := ∀ w, P w → Q (m w).1 (m w).2.
(** It has no result. *)
Definition fails {W E A} (m : M W E A) : Prop := ∀ w a w', m w ≠ (inr a, w').
Create HintDb holds.

Section keeps.
Context {W : Type}.
Lemma fails_bind {E A B} (m : M W E A) (k : A → M W E B) : (∀ a, fails (k a)) → fails (bind m k).
Proof. intros Hk w a w'. unfold bind. destruct (m w) as [[e|b] w1]; [done|]. apply Hk. Qed.
Lemma fails_throw {E A} (e : E) : fails (throw (W := W) (A := A) e).
Proof. by intros w a w'. Qed.
(** What its result went through. *)
Lemma bind_inr {E A B} (m : M W E A) (k : A → M W E B) w b w' : bind m k w = (inr b, w') → ∃ a w1, m w = (inr a, w1) ∧ k a w1 = (inr b, w').
Proof. unfold bind. destruct (m w) as [[e|a] w1]; [done|]. intros H. by exists a, w1. Qed.
Lemma lift_inr {E E' A} (f : E → E') (m : M W E A) w a w' : lift f m w = (inr a, w') → m w = (inr a, w').
Proof. unfold lift. by destruct (m w) as [[]]; intros [= <- <-]. Qed.
Lemma try_inr {E E' A} (m : M W E A) w r w' : try (E' := E') m w = (inr r, w') → m w = (r, w').
Proof. unfold try. destruct (m w). by intros [= <- <-]. Qed.
Lemma dismiss_world {E E' A} (m : M W E A) w u w' : dismiss (E' := E') m w = (inr u, w') → w' = (m w).2.
Proof. unfold dismiss, bind, try. destruct (m w). by intros [= _ <-]. Qed.

Section holds.
Context (P : W → Prop).
Lemma holds_ret {E A} (a : A) : holds P (ret (E := E) a).
Proof. by intros w. Qed.
Lemma holds_throw {E A} (e : E) : holds P (throw (A := A) e).
Proof. by intros w. Qed.
Lemma holds_gets {E A} (f : W → A) : holds P (gets (E := E) f).
Proof. by intros w. Qed.
Lemma holds_bind {E A B} (m : M W E A) (k : A → M W E B) : holds P m → (∀ a, holds P (k a)) → holds P (bind m k).
Proof. intros Hm Hk w Hw. unfold bind. specialize (Hm w Hw). destruct (m w) as [[e|a] w']; [done|]. by apply Hk. Qed.
Lemma holds_try {E E' A} (m : M W E A) : holds P m → holds P (try (E' := E') m).
Proof. intros Hm w Hw. unfold try. specialize (Hm w Hw). by destruct (m w). Qed.
Lemma holds_lift {E E' A} (f : E → E') (m : M W E A) : holds P m → holds P (lift f m).
Proof. intros Hm w Hw. unfold lift. specialize (Hm w Hw). by destruct (m w) as [[]]. Qed.
Lemma holds_under {A} context (m : M W string A) : holds P m → holds P (under context m).
Proof. apply holds_lift. Qed.
Lemma holds_dismiss {E E' A} (m : M W E A) : holds P m → holds P (dismiss (E' := E') m).
Proof. intros Hm. apply holds_bind; [by apply holds_try|]. intros _. apply holds_ret. Qed.
Lemma holds_of_sum {E A} (r : E + A) : holds P (of_sum r).
Proof. by destruct r; intros w. Qed.
Lemma holds_of_result {A} context (r : result A) : holds P (of_result context r).
Proof. by destruct r; intros w. Qed.
Lemma holds_each {E A} (f : A → M W E unit) l : (∀ a, a ∈ l → holds P (f a)) → holds P (each_ f l).
Proof.
  induction l as [|a l IH]; intros Hf; cbn [each_]; [apply holds_ret|].
  apply holds_bind; [apply Hf; by left|]. intros _. apply IH. intros b Hb. apply Hf. by right.
Qed.
Lemma leads_bind {E A B} (m : M W E A) (k : A → M W E B) Q R :
  leads_to P m R → (∀ a, leads_to (R (inr a)) (k a) Q) → (∀ e w, R (inl e) w → Q (inl e) w) → leads_to P (bind m k) Q.
Proof. intros Hm Hk He w Hw. unfold bind. specialize (Hm w Hw). destruct (m w) as [[e|a] w']; cbn in *; [by apply He|by apply Hk]. Qed.
Lemma holds_leads {E A} (m : M W E A) : holds P m → leads_to P m (λ _, P).
Proof. done. Qed.
End holds.
End keeps.
#[export] Hint Resolve holds_ret holds_throw holds_gets holds_bind holds_try holds_lift holds_under holds_dismiss holds_of_sum holds_of_result holds_each : holds.
(** Through the steps of a computation: its matches, and what its parts keep. *)
Ltac holds_step :=
  match goal with
  | |- ∀ _, _ => intros ?
  | |- holds _ (match ?x with _ => _ end) => destruct x
  | |- holds _ (let '(_, _) := ?x in _) => destruct x
  | |- holds _ (bind _ _) => apply holds_bind
  | |- holds _ _ => solve [eauto with holds]
  | |- holds _ (lift _ _) => apply holds_lift
  | |- holds _ (under _ _) => apply holds_under
  | |- holds _ (try _) => apply holds_try
  | |- holds _ (dismiss _) => apply holds_dismiss
  | |- holds _ (each_ _ _) => apply holds_each
  end.
Ltac holds := cbv zeta; repeat holds_step.

End Effects.
