(* ===== verification/AppManifest.v ===== *)
(** The manifest of an app bundle ([src/crates/micad/src/apps/manifest.rs]), the
    devices it declares ([apps/devices.rs]) and its mDNS entries
    ([reconciler/mdns/entries.rs]): what a device accepts of an app, and what
    one version asks for beyond another ([apps/flow.rs]). *)
From Stdlib Require Import Ascii.
From S2P Require Import Prelude Text Maps DebianVersion Boot Chars Features SettingsModel SettingsRules.
Import Boot(QUOTE) Features SettingsModel.

Module AppManifest.

(** * Constants *)

Definition SCHEMA_VERSION : Z := 1.
Definition MAX_UNITS : Z := 16.
Definition MAX_ENV : Z := 64.
Definition MAX_VERSION_LEN : Z := 64.
Definition MAX_NAME_LEN : Z := 32.
Definition MAX_APP_NAME_LEN : Z := 23.
Definition ARCHES : list string := ["amd64"; "arm64"; "armhf"; "all"].
Definition MAX_SERVICES : Z := 16.
Definition MAX_DEVICES : Z := 16.
Definition MAX_ARGS : Z := 64.
Definition MAX_ARG_LEN : Z := 4096.
Definition APP_VARIABLES : list string := ["APP_NAME"; "APP_VERSION"; "APP_DIR"; "APP_DATA"].
Definition CAPABILITIES : list string :=
  ["CAP_CHOWN"; "CAP_DAC_OVERRIDE"; "CAP_DAC_READ_SEARCH"; "CAP_FOWNER"; "CAP_FSETID"; "CAP_KILL"; "CAP_SETGID"; "CAP_SETUID"; "CAP_SETPCAP";
   "CAP_LINUX_IMMUTABLE"; "CAP_NET_BIND_SERVICE"; "CAP_NET_BROADCAST"; "CAP_NET_ADMIN"; "CAP_NET_RAW"; "CAP_IPC_LOCK"; "CAP_IPC_OWNER";
   "CAP_SYS_MODULE"; "CAP_SYS_RAWIO"; "CAP_SYS_CHROOT"; "CAP_SYS_PTRACE"; "CAP_SYS_PACCT"; "CAP_SYS_ADMIN"; "CAP_SYS_BOOT"; "CAP_SYS_NICE";
   "CAP_SYS_RESOURCE"; "CAP_SYS_TIME"; "CAP_SYS_TTY_CONFIG"; "CAP_MKNOD"; "CAP_LEASE"; "CAP_AUDIT_WRITE"; "CAP_AUDIT_CONTROL"; "CAP_SETFCAP";
   "CAP_MAC_OVERRIDE"; "CAP_MAC_ADMIN"; "CAP_SYSLOG"; "CAP_WAKE_ALARM"; "CAP_BLOCK_SUSPEND"; "CAP_AUDIT_READ"; "CAP_PERFMON"; "CAP_BPF";
   "CAP_CHECKPOINT_RESTORE"].
Definition ALLOWED_CAPABILITIES : list string :=
  ["CAP_NET_ADMIN"; "CAP_NET_RAW"; "CAP_NET_BIND_SERVICE"; "CAP_NET_BROADCAST"; "CAP_IPC_LOCK"; "CAP_WAKE_ALARM"; "CAP_BLOCK_SUSPEND"].

(** * The manifest *)

(** An mDNS entry. *)
Record Entry := { en_instance : option string; en_kind : string; en_port : Z; en_txt : smap string; en_service : option string }.
(** An app's own user, or root ([App], [Root]). *)
Inductive RunAs := AsApp | AsRoot.
Record Privileges := { pv_user : RunAs; pv_capabilities : list string; pv_devices : list string }.
Record Service := { as_name : string; as_exec : list string; as_enable : bool }.
Record UnitEntry := { ue_systemd : option string; ue_openrc : option string; ue_enable : bool }.
Record UpdateSpec := { us_url : string; us_auto : bool }.
Inductive SeedPolicy := FollowImage | Once.
Record Manifest := {
  mf_schema_version : Z; mf_name : string; mf_version : string; mf_arch : list string; mf_description : string;
  mf_units : list UnitEntry; mf_env : smap string; mf_first_run : option string; mf_update : option UpdateSpec;
  mf_seed_policy : SeedPolicy; mf_privileges : Privileges; mf_services : list Service; mf_mdns : list Entry;
}.
#[export] Instance run_as_eq : EqDecision RunAs. Proof. solve_decision. Defined.
#[export] Instance privileges_eq : EqDecision Privileges. Proof. solve_decision. Defined.
#[export] Instance entry_eq : EqDecision Entry. Proof. solve_decision. Defined.
#[export] Instance service_eq : EqDecision Service. Proof. solve_decision. Defined.
#[export] Instance unit_entry_eq : EqDecision UnitEntry. Proof. solve_decision. Defined.
#[export] Instance update_spec_eq : EqDecision UpdateSpec. Proof. solve_decision. Defined.
#[export] Instance seed_policy_eq : EqDecision SeedPolicy. Proof. solve_decision. Defined.
#[export] Instance manifest_eq : EqDecision Manifest. Proof. solve_decision. Defined.

(** One rule a bundle breaks; the detail without the value it prints. *)
Record Problem := { pr_rule : string; pr_detail : string }.
Definition problem (rule detail : string) : Problem := {| pr_rule := rule; pr_detail := detail |}.
Definition fail_if (c : bool) (rule detail : string) : list Problem := if c then [problem rule detail] else [].

(** The scheme of a URL, where it parses: the [url] package. *)
Class Urls := { scheme_of : string → option string }.

(** * Names and paths *)

Definition is_service_name (name : string) : bool :=
  negb (is_empty name) && (str_len name <=? MAX_NAME_LEN) && negb (starts_with "-" name)
  && all_bytes (λ b, is_lower b || is_digit b || bool_decide (b = "-"%char)) name.
Definition is_app_name (name : string) : bool := (str_len name <=? MAX_APP_NAME_LEN) && is_service_name name.
Definition is_version (version : string) : bool :=
  (str_len version <=? MAX_VERSION_LEN) && negb (contains_byte "/" version) && bool_decide (is_Some (DebianVersion.compare version version)).

(** A path's part: not empty, and not a step. *)
Definition plain_part (part : string) : bool := negb (is_empty part) && negb (bool_decide (part = ".")) && negb (bool_decide (part = "..")).
Definition is_bundle_file (path : string) : bool :=
  match strip_prefix "files/" path with
  | Some rest => negb (is_empty rest) && forallb plain_part (split "/" rest)
  | None => false
  end.

(** A class of devices: its drivers and the group that opens its nodes. *)
Record Class_ := { cl_drivers : list string; cl_group : string }.
Fixpoint letters (s : string) : string :=
  match s with
  | String c s' => if is_alphabetic c then String c (letters s') else EmptyString
  | EmptyString => EmptyString
  end.
Definition class (device : string) : option Class_ :=
  if starts_with "/dev/serial/by-id/" device || starts_with "/dev/serial/by-path/" device
  then Some {| cl_drivers := ["ttyUSB"; "ttyACM"]; cl_group := "dialout" |}
  else if starts_with "/dev/gpiochip" device then Some {| cl_drivers := ["gpiochip"]; cl_group := "gpio" |}
  else if starts_with "/dev/i2c-" device then Some {| cl_drivers := ["i2c"]; cl_group := "i2c" |}
  else if starts_with "/dev/spidev" device then Some {| cl_drivers := ["spi"]; cl_group := "spi" |}
  else
    rest ← strip_prefix "/dev/tty" device;
    let name := letters rest in
    let number := trim_start is_alphabetic rest in
    if negb (is_empty name) && negb (is_empty number) && (bool_decide (number = "*") || all_bytes is_digit number)
    then Some {| cl_drivers := ["tty" +:+ name]; cl_group := "dialout" |} else None.
Definition device_byte (b : ascii) : bool := is_alphanumeric b || one_of "._-:" b.
Definition is_device (path : string) : bool :=
  let node := default path (strip_suffix "*" path) in
  (bool_decide (node = path) || bool_decide (is_Some (class path)))
  && match strip_prefix "/dev/" node with
     | Some rest => forallb (λ part, plain_part part && all_bytes device_byte part) (split "/" rest)
     | None => false
     end.

(** [expand]: each [${VAR}] by its value. The fuel is the text's length. *)
Definition DOLLAR : ascii := "$".
Fixpoint expand_go (vars : smap string) (fuel : nat) (rest : string) : option string :=
  match fuel with
  | O => None
  | S fuel =>
      match split_once DOLLAR rest with
      | None => Some rest
      | Some (before, after) =>
          inner ← strip_prefix "{" after;
          '(name, tail) ← split_once "}" inner;
          value ← smap_get name vars;
          out ← expand_go vars fuel tail;
          Some (before +:+ value +:+ out)
      end
  end.
Definition expand (arg : string) (vars : smap string) : option string := expand_go vars (S (String.length arg)) arg.

(** * Units *)

Definition side (init : Init) (u : UnitEntry) : option string := match init with Systemd => ue_systemd u | Openrc => ue_openrc u end.
Definition service_unit (name : string) (init : Init) : string := match init with Systemd => name +:+ ".service" | Openrc => name end.
Definition units_for (m : Manifest) (init : Init) : list (string * bool) :=
  omap (λ u, (λ name, (name, ue_enable u)) <$> side init u) (mf_units m)
  ++ map (λ s, (service_unit (as_name s) init, as_enable s)) (mf_services m).
Definition unit_of (m : Manifest) (name : string) (init : Init) : option string :=
  if existsb (λ s, bool_decide (as_name s = name)) (mf_services m) then Some (service_unit name init)
  else
    u ← List.find (λ u, bool_decide (ue_systemd u = Some name) || bool_decide (ue_openrc u = Some name)) (mf_units m);
    side init u.

(** * mDNS entries *)

Definition MICA_TYPE : string := "_mica._tcp".
Definition MDNS_SERVICES : Z := 8.
Definition MAX_TXT_KEYS : Z := 16.
Definition MAX_TXT_ITEM : Z := 255.
Definition MAX_TXT_BYTES : Z := 1300.
Definition MAX_INSTANCE : Z := 63.
Fixpoint double_dash (s : string) : bool :=
  match s with
  | String c s' => starts_with "--" s || double_dash s'
  | EmptyString => false
  end.
Definition is_type (kind : string) : bool :=
  match match strip_suffix "._tcp" kind with Some rest => Some rest | None => strip_suffix "._udp" kind end ≫= strip_prefix "_" with
  | None => false
  | Some name =>
      (1 <=? str_len name) && (str_len name <=? 15)
      && all_bytes (λ b, is_lower b || is_digit b || bool_decide (b = "-"%char)) name
      && negb (all_bytes (λ b, negb (is_lower b)) name)
      && negb (starts_with "-" name) && negb (ends_with "-" name) && negb (double_dash name)
  end.
Fixpoint txt_bytes (bytes : Z) (txt : smap string) : result Z :=
  match txt with
  | [] => Ok bytes
  | (key, value) :: rest =>
      ensure negb (is_empty key) && all_bytes (λ b, in_z 32 126 b && negb (bool_decide (b = "="%char))) key else "txt key is not printable ASCII without =" in
      let item := str_len key + 1 + str_len value in
      ensure item <=? MAX_TXT_ITEM else "txt is above its bytes" in
      txt_bytes (bytes + (item + 1)) rest
  end.
Definition check_entry (e : Entry) : result unit :=
  ensure match en_instance e with
         | Some instance => negb (is_empty instance || (MAX_INSTANCE <? str_len instance) || existsb (λ c, bool_decide (c = ".") || is_control c) (chars instance))
         | None => true
         end else "instance is not 1 to 63 bytes without a dot or a control character" in
  ensure is_type (en_kind e) else "type is not _<name>._tcp or _<name>._udp" in
  ensure negb (bool_decide (en_kind e = MICA_TYPE)) else "type is the device's own" in
  ensure negb (en_port e =? 0) else "port is 1 to 65535" in
  ensure len (en_txt e) <=? MAX_TXT_KEYS else "txt has more than 16 keys" in
  let? bytes := txt_bytes 0 (en_txt e) in
  ensure bytes <=? MAX_TXT_BYTES else "txt is above 1300 bytes" in Ok tt.
Definition check_entries (l : list Entry) : result unit :=
  ensure len l <=? MDNS_SERVICES else "more than 8 services" in each check_entry l.

(** * The rules *)

Section rules.
Context `{UR : Urls}.

Definition unit_rules (u : UnitEntry) : list Problem :=
  fail_if (bool_decide (ue_systemd u = None) && bool_decide (ue_openrc u = None)) "manifest" "a unit names neither a systemd nor an openrc file"
  ++ match ue_systemd u with
     | Some name => fail_if (negb (SettingsRules.is_systemd_unit_name name) || SettingsRules.is_systemd_template name) "manifest" "not a systemd unit name"
     | None => []
     end
  ++ match ue_openrc u with
     | Some name => fail_if (negb (SettingsRules.is_openrc_script_name name)) "manifest" "not an OpenRC script name"
     | None => []
     end.
Definition env_key_ok (key : string) : bool :=
  first_byte (λ b, is_upper b || bool_decide (b = "_"%char)) key
  && all_bytes (λ b, is_upper b || is_digit b || bool_decide (b = "_"%char)) key && negb (starts_with "APP_" key).
(** A quote, a backslash or a backquote, as one character's bytes. *)
Definition quoting (c : string) : bool :=
  bool_decide (c = String QUOTE EmptyString) || bool_decide (c = "'") || bool_decide (c = String SettingsRules.BACKSLASH EmptyString) || bool_decide (c = "`").
Definition env_rules (e : string * string) : list Problem :=
  fail_if (negb (env_key_ok e.1)) "manifest" "env is not an upper-case name outside APP_"
  ++ fail_if (existsb (λ c, quoting c || bool_decide (c = "$") || is_control c) (chars e.2)) "manifest"
       "env carries a quote, a backslash, a $, a ` or a control character".
Definition is_hook (hook : string) : bool :=
  match strip_prefix "hooks/" hook with
  | Some rest => negb (is_empty rest) && negb (contains_byte "/" rest) && negb (bool_decide (rest = ".."))
  | None => false
  end.

Definition user_rules (m : Manifest) : list Problem :=
  let p := mf_privileges m in
  match pv_user p with
  | AsRoot =>
      fail_if (negb (is_nil (pv_capabilities p)) || negb (is_nil (pv_devices p))) "privileges"
        "capabilities and devices are for an app that runs as its own user; root has them all"
      ++ fail_if (negb (is_nil (mf_services m))) "services_need_app"
           "services are for an app that runs as its own user; a root app ships units/"
  | AsApp =>
      fail_if (negb (is_nil (mf_units m))) "units_need_root"
        "units are for an app that runs as root; an app that runs as its own user declares services"
  end.
Definition capability_rules (cap : string) : list Problem :=
  if negb (bool_decide (cap ∈ CAPABILITIES)) then [problem "capability" "not a capability"]
  else fail_if (negb (bool_decide (cap ∈ ALLOWED_CAPABILITIES))) "capability" "reaches past the app; an app that needs it runs as root".
Definition device_rules (device : string) : list Problem :=
  fail_if (negb (is_device device)) "device" "not a device under /dev, or a pattern of a serial port, a GPIO chip, an I2C or an SPI bus".
Definition arg_plain (arg : string) : bool :=
  (str_len arg <=? MAX_ARG_LEN) && negb (existsb (λ c, quoting c || is_control c) (chars arg)).
Definition arg_rules (vars : smap string) (arg : string) : list Problem :=
  fail_if (negb (arg_plain arg) || bool_decide (expand arg vars = None)) "manifest"
    "argument carries a quote, a backslash, a ` or a control character, or a $ that is not ${VAR} of APP_* or env".
Definition exec_rules (vars : smap string) (s : Service) : list Problem :=
  match as_exec s with
  | [] => [problem "manifest" "service runs nothing"]
  | file :: _ => fail_if (negb (is_bundle_file file)) "manifest" "service runs what is not a file in files/"
  end
  ++ fail_if (MAX_ARGS <? len (as_exec s)) "too_many" "service has more than 64 arguments"
  ++ concat (map (arg_rules vars) (as_exec s)).
(** The services in order, with the names taken by those before. *)
Fixpoint services_rules (vars : smap string) (names : list string) (l : list Service) : list Problem :=
  match l with
  | [] => []
  | s :: l =>
      let fine := is_service_name (as_name s) in
      (if negb fine then [problem "manifest" "service is not 1 to 32 of a-z, 0-9 and -"]
       else fail_if (bool_decide (as_name s ∈ names)) "manifest" "service is there twice")
      ++ exec_rules vars s ++ services_rules vars (if fine then as_name s :: names else names) l
  end.
(** The variables an argument may name. *)
Definition check_vars (m : Manifest) : smap string :=
  foldl (λ vars name, smap_insert name "" vars) [] (APP_VARIABLES ++ map fst (mf_env m)).
Definition check_privileges (m : Manifest) : list Problem :=
  let p := mf_privileges m in
  user_rules m
  ++ concat (map capability_rules (pv_capabilities p))
  ++ fail_if (MAX_DEVICES <? len (pv_devices p)) "too_many" "more than 16 devices"
  ++ concat (map device_rules (pv_devices p))
  ++ fail_if (MAX_SERVICES <? len (mf_services m)) "too_many" "more than 16 services"
  ++ services_rules (check_vars m) [] (mf_services m).

Definition arch_rules (m : Manifest) (arch : string) : list Problem :=
  if is_nil (mf_arch m) || existsb (λ a, negb (bool_decide (a ∈ ARCHES))) (mf_arch m) then [problem "manifest" "arch is a list of amd64, arm64, armhf, all"]
  else fail_if (negb (existsb (λ a, bool_decide (a = arch) || bool_decide (a = "all")) (mf_arch m))) "arch" "the bundle is for other devices".
Definition mdns_rules (m : Manifest) (e : Entry) : list Problem :=
  match en_service e with
  | Some name => fail_if (forallb (λ init, bool_decide (unit_of m name init = None)) [Systemd; Openrc]) "mdns" "mdns names none of the app's services or units"
  | None => []
  end.
Definition check_fields (m : Manifest) (init : Init) (arch : string) : list Problem :=
  fail_if (negb (mf_schema_version m =? SCHEMA_VERSION)) "manifest" "schemaVersion is not 1"
  ++ fail_if (negb (is_app_name (mf_name m))) "manifest" "name is not 1 to 23 of a-z, 0-9 and -"
  ++ fail_if (negb (is_version (mf_version m))) "manifest" "version is not a version"
  ++ arch_rules m arch
  ++ fail_if (MAX_UNITS <? len (mf_units m)) "too_many" "more than 16 units"
  ++ concat (map unit_rules (mf_units m))
  ++ fail_if (negb (is_nil (mf_units m)) && negb (existsb (λ u, bool_decide (is_Some (side init u))) (mf_units m))) "init" "the bundle has no unit for this init"
  ++ fail_if (MAX_ENV <? len (mf_env m)) "too_many" "more than 64 env variables"
  ++ concat (map env_rules (mf_env m))
  ++ match mf_first_run m with
     | Some hook => fail_if (negb (is_hook hook)) "manifest" "firstRun is not a file in hooks/"
     | None => []
     end
  ++ match mf_update m with
     | Some update => fail_if (negb (bool_decide (scheme_of (us_url update) = Some "https"))) "manifest" "update.url is an https URL"
     | None => []
     end
  ++ check_privileges m
  ++ match check_entries (mf_mdns m) with Err _ => [problem "mdns" "an entry breaks a rule of the responder"] | Ok _ => [] end
  ++ concat (map (mdns_rules m) (mf_mdns m)).
End rules.

(** * What a version asks for beyond another *)

Record PrivilegeDelta := { dl_root : bool; dl_capabilities : list string; dl_devices : list string }.
#[export] Instance delta_eq : EqDecision PrivilegeDelta. Proof. solve_decision. Defined.
Definition no_delta : PrivilegeDelta := {| dl_root := false; dl_capabilities := []; dl_devices := [] |}.
Definition new_items (had : option (list string)) (now : list string) : list string :=
  List.filter (λ item, negb (match had with Some had => bool_decide (item ∈ had) | None => false end)) now.
Definition privilege_delta (installed : option Privileges) (next : Privileges) : option PrivilegeDelta :=
  if match installed with Some p => bool_decide (pv_user p = AsRoot) | None => false end then None
  else
    let delta := if bool_decide (pv_user next = AsRoot) then {| dl_root := true; dl_capabilities := []; dl_devices := [] |}
                 else {| dl_root := false; dl_capabilities := new_items (pv_capabilities <$> installed) (pv_capabilities next);
                         dl_devices := new_items (pv_devices <$> installed) (pv_devices next) |} in
    if bool_decide (delta = no_delta) then None else Some delta.

(** * Lemmas *)

Lemma fail_if_nil c rule detail : fail_if c rule detail = [] ↔ c = false.
Proof. by destruct c. Qed.
Lemma app_nil {A} (l k : list A) : l ++ k = [] ↔ l = [] ∧ k = [].
Proof. destruct l; cbn; naive_solver. Qed.
Lemma concat_map_nil {A B} (f : A → list B) l : concat (map f l) = [] ↔ ∀ a, a ∈ l → f a = [].
Proof.
  induction l as [|a l IH]; cbn; [split; [intros _ a H%elem_of_nil; done|done]|]. rewrite app_nil, IH. split.
  - intros [H1 H2] b [->|H]%elem_of_cons; [done|by apply H2].
  - intros H. split; [apply H; by left|intros b Hb; apply H; by right].
Qed.

(** ** Privileges as an order: what an app may do. *)
Definition within (p q : Privileges) : Prop :=
  pv_user q = AsRoot ∨ pv_user p = AsApp ∧ pv_capabilities p ⊆ pv_capabilities q ∧ pv_devices p ⊆ pv_devices q.
Lemma within_refl p : within p p.
Proof. unfold within. destruct (pv_user p); [by right|by left]. Qed.
Lemma within_trans p q r : within p q → within q r → within p r.
Proof. unfold within. intros [H|(H1 & H2 & H3)] [K|(K1 & K2 & K3)]; [by left|congruence|by left|right]. split_and!; [done|set_solver..]. Qed.
Lemma new_items_nil had now : new_items (Some had) now = [] ↔ now ⊆ had.
Proof.
  unfold new_items. split.
  - intros H x Hx. destruct (decide (x ∈ had)) as [Hi|Hi]; [done|]. exfalso.
    assert (Hin : x ∈ List.filter (λ item, negb (bool_decide (item ∈ had))) now).
    { apply list_elem_of_In, filter_In. split; [by apply list_elem_of_In|]. by rewrite bool_decide_eq_false_2. }
    rewrite H in Hin. by apply elem_of_nil in Hin.
  - intros H. destruct (List.filter _ now) as [|x l] eqn:E; [done|]. exfalso.
    assert (Hin : In x (List.filter (λ item, negb (bool_decide (item ∈ had))) now)) by (rewrite E; by left).
    apply filter_In in Hin as [Hi Hn]. apply list_elem_of_In in Hi. rewrite bool_decide_eq_true_2 in Hn by by apply H. done.
Qed.
Lemma privilege_delta_none p q : privilege_delta (Some q) p = None ↔ within p q.
Proof.
  unfold privilege_delta, within. destruct (decide (pv_user q = AsRoot)) as [Hq|Hq]; [rewrite bool_decide_eq_true_2 by done; by split; [left|]|].
  rewrite bool_decide_eq_false_2 by done. destruct (decide (pv_user p = AsRoot)) as [Hp|Hp].
  - rewrite (bool_decide_eq_true_2 (pv_user p = AsRoot)) by done. cbn. split; [done|]. intros [?|[? _]]; congruence.
  - rewrite (bool_decide_eq_false_2 (pv_user p = AsRoot)) by done. cbn. case_bool_decide as Hd.
    + injection Hd as H1 H2. rewrite new_items_nil in H1, H2. split; [|done]. intros _. right. by destruct (pv_user p).
    + split; [done|]. intros [?|(H1 & H2 & H3)]; [done|]. exfalso. apply Hd. unfold no_delta. f_equal; by apply new_items_nil.
Qed.

(** ** What acceptance means *)

Section accepted.
Context `{UR : Urls}.

Record service_accepted (vars : smap string) (s : Service) : Prop := {
  sc_name : is_service_name (as_name s) = true;
  sc_exec : ∃ file args, as_exec s = file :: args ∧ is_bundle_file file = true;
  sc_args : len (as_exec s) ≤ MAX_ARGS;
  sc_arg arg : arg ∈ as_exec s → arg_plain arg = true ∧ is_Some (expand arg vars);
}.
Lemma services_accepted vars l : ∀ names, services_rules vars names l = [] →
  (∀ s, s ∈ l → service_accepted vars s) ∧ NoDup (map as_name l) ∧ ∀ n, n ∈ names → n ∉ map as_name l.
Proof.
  induction l as [|s l IH]; intros names; cbn [services_rules map].
  - intros _. split_and!; [by intros s H%elem_of_nil|constructor|by intros n _ H%elem_of_nil].
  - intros H. apply app_nil in H as [Hn H]. apply app_nil in H as [He H]. destruct (is_service_name (as_name s)) eqn:En; [|done]. cbn [negb] in *.
    rewrite fail_if_nil, bool_decide_eq_false in Hn. destruct (IH _ H) as (H1 & H2 & H3). split_and!.
    + intros x [->|Hx]%elem_of_cons; [|by apply H1]. unfold exec_rules in He. apply app_nil in He as [Hf He]. apply app_nil in He as [Hl Ha].
      rewrite fail_if_nil in Hl. apply Z.ltb_ge in Hl. split; [done| |done|].
      * destruct (as_exec s) as [|file args]; [done|]. rewrite fail_if_nil, negb_false_iff in Hf. by exists file, args.
      * intros arg Harg. rewrite concat_map_nil in Ha. specialize (Ha arg Harg). unfold arg_rules in Ha. rewrite fail_if_nil in Ha.
        apply orb_false_iff in Ha as [Hp Hx]. apply negb_false_iff in Hp. split; [done|]. apply bool_decide_eq_false in Hx. destruct (expand arg vars); [by eexists|done].
    + constructor; [|done]. apply (H3 (as_name s)). by left.
    + intros n Hin. rewrite not_elem_of_cons. split; [by intros ->|]. apply H3. by right.
Qed.

(** An app a device takes. *)
Record accepted (m : Manifest) (arch : string) : Prop := {
  ap_schema : mf_schema_version m = SCHEMA_VERSION;
  ap_name : is_app_name (mf_name m) = true;
  ap_version : is_version (mf_version m) = true;
  ap_arch : arch ∈ mf_arch m ∨ "all" ∈ mf_arch m;
  ap_user : pv_user (mf_privileges m) = AsApp → mf_units m = [];
  ap_root : pv_user (mf_privileges m) = AsRoot → pv_capabilities (mf_privileges m) = [] ∧ pv_devices (mf_privileges m) = [] ∧ mf_services m = [];
  ap_capabilities cap : cap ∈ pv_capabilities (mf_privileges m) → cap ∈ ALLOWED_CAPABILITIES;
  ap_devices device : device ∈ pv_devices (mf_privileges m) → is_device device = true;
  ap_services s : s ∈ mf_services m → service_accepted (check_vars m) s;
  ap_distinct : NoDup (map as_name (mf_services m));
  ap_env k v : (k, v) ∈ mf_env m → env_key_ok k = true ∧ existsb (λ c, quoting c || bool_decide (c = "$") || is_control c) (chars v) = false;
  ap_hook hook : mf_first_run m = Some hook → is_hook hook = true;
  ap_update u : mf_update m = Some u → scheme_of (us_url u) = Some "https";
}.
Lemma check_fields_accepted m init arch : check_fields m init arch = [] → accepted m arch.
Proof.
  unfold check_fields, check_privileges. intros H. rewrite !app_nil, !fail_if_nil, !concat_map_nil in H.
  destruct H as (H1 & H2 & H3 & H4 & _ & _ & _ & _ & H5 & H6 & H7 & (H8 & H9 & _ & H10 & _ & H11) & _ & _).
  apply negb_false_iff in H1, H2, H3. apply Z.eqb_eq in H1. apply services_accepted in H11 as (H11 & H12 & _). split; try done.
  - unfold arch_rules in H4. destruct (is_nil (mf_arch m) || _); [done|]. rewrite fail_if_nil, negb_false_iff in H4. apply existsb_exists in H4 as (a & Ha & Hor).
    apply list_elem_of_In in Ha. apply orb_true_iff in Hor as [E|E]; apply bool_decide_eq_true in E as ->; [by left|by right].
  - intros Hu. unfold user_rules in H8. rewrite Hu, fail_if_nil, negb_false_iff in H8. by apply is_nil_spec.
  - intros Hu. unfold user_rules in H8. rewrite Hu, app_nil, !fail_if_nil in H8. destruct H8 as [Ha Hb]. apply orb_false_iff in Ha as [Ha Hc].
    apply negb_false_iff, is_nil_spec in Ha, Hb, Hc. done.
  - intros cap Hc. specialize (H9 cap Hc). unfold capability_rules in H9. destruct (negb _); [done|]. by rewrite fail_if_nil, negb_false_iff, bool_decide_eq_true in H9.
  - intros d Hd. specialize (H10 d Hd). unfold device_rules in H10. by rewrite fail_if_nil, negb_false_iff in H10.
  - intros k v Hin. specialize (H5 (k, v) Hin). unfold env_rules in H5. rewrite app_nil, !fail_if_nil, negb_false_iff in H5. done.
  - intros hook Eh. rewrite Eh, fail_if_nil, negb_false_iff in H6. done.
  - intros u Eu. rewrite Eu, fail_if_nil, negb_false_iff, bool_decide_eq_true in H7. done.
Qed.
(** The variables an accepted argument names are the app's. *)
Lemma check_vars_keys m k : is_Some (smap_get k (check_vars m)) ↔ k ∈ APP_VARIABLES ++ map fst (mf_env m).
Proof.
  unfold check_vars. generalize (APP_VARIABLES ++ map fst (mf_env m)). intros l.
  assert (H : ∀ (l : list string) (m : smap string), is_Some (smap_get k (foldl (λ vars name, smap_insert name "" vars) m l)) ↔ is_Some (smap_get k m) ∨ k ∈ l).
  { clear. induction l as [|n l IH]; intros m; cbn [foldl]; [rewrite elem_of_nil; naive_solver|]. rewrite IH, smap_get_insert, elem_of_cons. case_bool_decide; naive_solver. }
  rewrite H. cbn. split; [intros [[? [=]]|]; done|by right].
Qed.
End accepted.
End AppManifest.
