(* ===== verification/AppRender.v ===== *)
(** The services of an app that runs as its own user: the devices they are
    granted ([src/crates/micad/src/apps/devices.rs]) and the units micad writes
    for them ([apps/render.rs]), with what the init reads out of such a unit. *)
From Stdlib Require Import Ascii.
From S2P Require Import Prelude Text Maps DebianVersion Boot Chars Features SettingsModel SettingsRules AppManifest.
Import Boot(QUOTE) Features AppManifest.

Module AppRender.

(** * Devices *)

Definition ALLOWED_GROUPS : list string := ["dialout"; "gpio"; "i2c"; "spi"].
(** The third field of the first line that names [name]. *)
Definition gid_of (groups name : string) : option Z :=
  head (omap (λ line, match split ":" line with
                      | field :: _ :: gid :: _ => if bool_decide (field = name) then parse_u32 gid else None
                      | _ => None
                      end) (lines groups)).
Definition group_name (groups : string) (gid : Z) : option string :=
  head (omap (λ line, match split ":" line with
                      | name :: _ :: id :: _ => if bool_decide (id = to_dec gid) then Some name else None
                      | _ => None
                      end) (lines groups)).
Definition group_refusal (gid : Z) (groups : option string) : option string :=
  if gid =? 0 then None
  else
    match text ← groups; group_name text gid with
    | Some name => if bool_decide (name ∈ ALLOWED_GROUPS) then None
                   else Some ("belongs to group " +:+ name +:+ ", which an app of its own user may not join")
    | None => Some ("belongs to gid " +:+ to_dec gid +:+ ", which has no name in /etc/group")
    end.

(** [sort_unstable] of gids, and [Vec::dedup]. *)
Fixpoint insert_gid (g : Z) (l : list Z) : list Z :=
  match l with
  | [] => [g]
  | h :: t => if g <=? h then g :: l else h :: insert_gid g t
  end.
Definition sort_gids (l : list Z) : list Z := foldr insert_gid [] l.
Fixpoint dedup {A} `{EqDecision A} (l : list A) : list A :=
  match l with
  | a :: ((b :: _) as t) => if decide (a = b) then dedup t else a :: dedup t
  | _ => l
  end.
Record Grants := { gr_groups : list Z; gr_allow : list string }.
(** [node]: the group of the file a path names, where there is one. *)
Definition grants (node : string → option Z) (devices : list string) (groups : option string) : Grants :=
  let each_ := λ g device,
    match class device with
    | Some c => {| gr_groups := gr_groups g ++ option_list (text ← groups; gid_of text (cl_group c)); gr_allow := gr_allow g ++ map (λ d, "char-" +:+ d) (cl_drivers c) |}
    | None => {| gr_groups := gr_groups g ++ List.filter (λ gid, negb (gid =? 0) && bool_decide (group_refusal gid groups = None)) (option_list (node device));
                 gr_allow := gr_allow g ++ [device] |}
    end in
  let g := foldl each_ {| gr_groups := []; gr_allow := [] |} devices in
  {| gr_groups := dedup (sort_gids (gr_groups g)); gr_allow := dedup (gr_allow g) |}.

(** * The command *)

Definition SETPRIV : string := "/usr/bin/setpriv".
Definition ENV : string := "/usr/bin/env".
Definition PATH : string := "/usr/local/sbin:/usr/local/bin:/usr/sbin:/usr/bin:/sbin:/bin".

Definition env_args (file : string) (vars : list (string * string)) : result (list string) :=
  let? home := with_context (snd <$> List.find (λ e, bool_decide (e.1 = "APP_DATA")) vars) "APP_DATA" in
  Ok ([ENV; "-i"; "PATH=" +:+ PATH; "HOME=" +:+ home] ++ map (λ e, e.1 +:+ "=" +:+ e.2) vars ++ [file]).

Record Account := { ac_uid : Z; ac_groups : list Z; ac_capabilities : list string }.
(** [trim_start_matches] of a text. *)
Fixpoint trim_text (fuel : nat) (p s : string) : string :=
  match fuel with
  | O => s
  | S fuel => match strip_prefix p s with Some rest => trim_text fuel p rest | None => s end
  end.
Definition cap_word (cap : string) : string := "+" +:+ to_ascii_lowercase (trim_text (String.length cap) "CAP_" cap).
Definition setpriv_args (a : Account) : list string :=
  let caps := join "," ("-all" :: map cap_word (ac_capabilities a)) in
  ["--reuid=" +:+ to_dec (ac_uid a); "--regid=" +:+ to_dec (ac_uid a);
   if is_nil (ac_groups a) then "--clear-groups" else "--groups=" +:+ join "," (map to_dec (ac_groups a));
   "--bounding-set=" +:+ caps; "--inh-caps=" +:+ caps; "--ambient-caps=" +:+ caps; "--no-new-privs"; "--"].
Definition marked (c : string) : bool := quoting c || bool_decide (c = "$") || is_control c.
Definition plain (value : string) : result unit := ensure negb (existsb marked (chars value)) else "is not plain text" in Ok tt.
Definition command (s : Service) (a : Account) (vars : smap string) : result (list string) :=
  let? dir := with_context (smap_get "APP_DIR" vars) "APP_DIR" in
  match as_exec s with
  | [] => Err (Msg "the service runs nothing")
  | file :: exec =>
      let? env := env_args (dir +:+ "/" +:+ file) vars in
      let? rest := collect (λ arg, with_context (expand arg vars) "expand") exec in
      Ok (SETPRIV :: setpriv_args a ++ env ++ rest)
  end.

(** * The unit *)

Fixpoint double_percent (s : string) : string :=
  match s with
  | String c s' => if bool_decide (c = "%"%char) then String c (String c (double_percent s')) else String c (double_percent s')
  | EmptyString => EmptyString
  end.
Definition quote_str : string := String QUOTE EmptyString.
Definition exec_word (arg : string) : string := quote_str +:+ double_percent arg +:+ quote_str.
Definition sh_word (arg : string) : string := "'" +:+ arg +:+ "'".
(** Lines, each with its newline. *)
Definition unlines (l : list string) : string := foldr (λ line s, line +:+ String LF s) EmptyString l.

Definition systemd_lines (app : string) (s : Service) (a : Account) (devices args : list string) (data : string) : list string :=
  ["# Written by micad for app " +:+ app +:+ ": setpriv runs it as uid " +:+ to_dec (ac_uid a) +:+ "."; "[Unit]";
   "Description=" +:+ app +:+ ": " +:+ as_name s; "Wants=network-online.target"; "After=network-online.target";
   "RequiresMountsFor=/mica/apps/" +:+ app +:+ " " +:+ data; ""; "[Service]"; "WorkingDirectory=" +:+ data;
   "ExecStart=" +:+ join " " (map exec_word args); "SyslogIdentifier=" +:+ as_name s; "Restart=on-failure"; "RestartSec=5"; "NoNewPrivileges=yes";
   "ProtectSystem=strict"; "ReadWritePaths=" +:+ data; "PrivateTmp=yes"; "ProtectHome=yes"; "ProtectKernelTunables=yes"; "ProtectKernelModules=yes";
   "ProtectControlGroups=yes"; "RestrictSUIDSGID=yes";
   "CapabilityBoundingSet=" +:+ join " " (["CAP_SETUID"; "CAP_SETGID"; "CAP_SETPCAP"] ++ ac_capabilities a); "DevicePolicy=closed"]
  ++ map (λ device, "DeviceAllow=" +:+ device +:+ " rw") devices ++ [""; "[Install]"; "WantedBy=multi-user.target"].
Definition TAB : string := String "009" EmptyString.
Definition openrc_lines (app : string) (s : Service) (a : Account) (args : list string) (data : string) : list string :=
  ["#!/sbin/openrc-run"; "# Written by micad for app " +:+ app +:+ ": setpriv runs it as uid " +:+ to_dec (ac_uid a) +:+ "."; "";
   "description=" +:+ quote_str +:+ app +:+ ": " +:+ as_name s +:+ quote_str; "supervisor=supervise-daemon"; "command=" +:+ SETPRIV;
   "command_args=" +:+ quote_str +:+ join " " (map sh_word (tail args)) +:+ quote_str;
   "supervise_daemon_args=" +:+ quote_str +:+ "--chdir " +:+ sh_word data +:+ quote_str; "";
   "depend() {"; TAB +:+ "need mica-mounts"; TAB +:+ "after net"; "}"].
Definition unit (init : Init) (app : string) (s : Service) (a : Account) (devices : list string) (vars : smap string) : result string :=
  let? args := command s a vars in
  let? _ := each plain (args ++ map fst vars ++ map snd vars ++ devices) in
  let? data := with_context (smap_get "APP_DATA" vars) "APP_DATA" in
  Ok (unlines (match init with Systemd => systemd_lines app s a devices args data | Openrc => openrc_lines app s a args data end)).

(** [Apps::env_of], with the device's paths of an app named [name], and the
    map its callers collect it into. *)
Definition env_of (name : string) (m : Manifest) : list (string * string) :=
  [("APP_NAME", name); ("APP_VERSION", mf_version m); ("APP_DIR", "/mica/apps/" +:+ name +:+ "/current"); ("APP_DATA", "/srv/apps/" +:+ name)] ++ mf_env m.
Definition env_map (env : list (string * string)) : smap string := foldl (λ vars e, smap_insert e.1 e.2 vars) [] env.

(** * What the init reads *)

(** systemd's reading of a command line of quoted words: a specifier other than
    [%%], a variable, an escape or an unquoted character reads as nothing here. *)
Inductive reading := Between | Inside (word : string) | After.
Fixpoint systemd_words (st : reading) (s : string) : option (list string) :=
  match s with
  | EmptyString => match st with Inside _ => None | _ => Some [] end
  | String c s' =>
      match st with
      | Between => if bool_decide (c = " "%char) then systemd_words Between s'
                   else if bool_decide (c = QUOTE) then systemd_words (Inside "") s' else None
      | After => if bool_decide (c = " "%char) then systemd_words Between s' else None
      | Inside word =>
          if bool_decide (c = QUOTE) then cons word <$> systemd_words After s'
          else if bool_decide (c = "%"%char) then
            match s' with
            | String d s'' => if bool_decide (d = "%"%char) then systemd_words (Inside (word +:+ "%")) s'' else None
            | EmptyString => None
            end
          else if bool_decide (c = "$"%char) || bool_decide (c = SettingsRules.BACKSLASH) then None
          else systemd_words (Inside (word +:+ String c EmptyString)) s'
      end
  end.
(** The shell's reading of an assigned word in double quotes, and of the words
    in single quotes it is split into. *)
Fixpoint double_quoted (s : string) : option string :=
  match s with
  | EmptyString => None
  | String c s' =>
      if bool_decide (c = QUOTE) then (if is_empty s' then Some EmptyString else None)
      else if bool_decide (c = "$"%char) || bool_decide (c = SettingsRules.BACKSLASH) || bool_decide (c = "`"%char) then None
      else String c <$> double_quoted s'
  end.
Fixpoint sh_words (st : reading) (s : string) : option (list string) :=
  match s with
  | EmptyString => match st with Inside _ => None | _ => Some [] end
  | String c s' =>
      match st with
      | Between => if bool_decide (c = " "%char) then sh_words Between s'
                   else if bool_decide (c = "'"%char) then sh_words (Inside "") s' else None
      | After => if bool_decide (c = " "%char) then sh_words Between s' else None
      | Inside word => if bool_decide (c = "'"%char) then cons word <$> sh_words After s' else sh_words (Inside (word +:+ String c EmptyString)) s'
      end
  end.

(** * Plain text *)

(** No ASCII character of the text is followed by a byte that continues one, as
    in every text Rust holds. *)
Fixpoint aligned_after (ascii : bool) (s : string) : bool :=
  match s with
  | EmptyString => true
  | String c s' => negb (ascii && utf8_cont c) && aligned_after (byte_val c <? 128) s'
  end.
Definition aligned (s : string) : bool := aligned_after true s.
Lemma cont_not_ascii c : utf8_cont c = true → (byte_val c <? 128) = false.
Proof. unfold utf8_cont, in_z. intros H. bools. lia. Qed.
Lemma valid_aligned b : ∀ s, b = str_bytes s → valid_utf8 b = true → aligned s = true.
Proof.
  intros s. remember (String.length s) as n eqn:En. assert (Hn : (String.length s ≤ n)%nat) by lia. clear En. revert s b Hn.
  induction n as [|n IH]; intros s b Hn ->; destruct s as [|c s]; cbn in Hn; try done; [lia|]. unfold aligned. cbn [str_bytes String.list_ascii_of_string valid_utf8 aligned_after].
  assert (Hcont : ∀ d, in_z 128 191 d = true → (byte_val d <? 128) = false) by (intros d; apply cont_not_ascii).
  assert (Hhigh : ∀ lo hi d, 192 <= lo → in_z lo hi d = true → utf8_cont d = false ∧ (byte_val d <? 128) = false).
  { intros lo hi d Hlo H. unfold utf8_cont, in_z in *. bools. split; [|lia]. apply andb_false_iff. right. lia. }
  assert (Hmore : ∀ t, aligned t = true → ∀ b, aligned_after b t = true).
  { intros [|d t] Ht b; [done|]. unfold aligned in Ht. cbn in *. destruct (utf8_cont d); [done|]. by rewrite andb_false_r. }
  destruct (in_z 0 127 c) eqn:E0.
  { intros H. assert (Hc : utf8_cont c = false) by (unfold utf8_cont, in_z in *; bools; apply andb_false_iff; left; lia). rewrite Hc. cbn.
    apply Hmore. eapply IH; [|reflexivity|exact H]. cbn in Hn. lia. }
  destruct s as [|c1 s]; [done|]. cbn in Hn. cbn [String.list_ascii_of_string]. destruct (in_z 194 223 c) eqn:E2.
  { intros H. bools. destruct (Hhigh 194 223 c ltac:(lia) E2) as [-> ->]. cbn. rewrite (cont_not_ascii c1) by done. cbn.
    apply Hmore. eapply IH; [|reflexivity|done]. lia. }
  destruct s as [|c2 s]; [done|]. cbn in Hn. cbn [String.list_ascii_of_string]. destruct (in_z 224 239 c) eqn:E3.
  { intros H. bools. destruct (Hhigh 224 239 c ltac:(lia) E3) as [-> ->]. cbn.
    assert (Hc1 : (byte_val c1 <? 128) = false).
    { destruct (in_z 224 224 c); [unfold in_z in *; bools; lia|]. destruct (in_z 237 237 c); [unfold in_z in *; bools; lia|by apply cont_not_ascii]. }
    rewrite Hc1. cbn. rewrite (cont_not_ascii c2) by done. apply Hmore. eapply IH; [|reflexivity|done]. lia. }
  destruct s as [|c3 s]; [done|]. cbn in Hn. cbn [String.list_ascii_of_string]. intros H. bools.
  match goal with H4 : in_z 240 244 c = true |- _ => destruct (Hhigh 240 244 c ltac:(lia) H4) as [-> ->] end. cbn.
  assert (Hc1' : (byte_val c1 <? 128) = false).
  { destruct (in_z 240 240 c); [unfold in_z in *; bools; lia|]. destruct (in_z 244 244 c); [unfold in_z in *; bools; lia|by apply cont_not_ascii]. }
  rewrite Hc1'. cbn. rewrite (cont_not_ascii c2) by done. cbn. rewrite (cont_not_ascii c3) by done. cbn. apply Hmore. eapply IH; [|reflexivity|done]. lia.
Qed.
Lemma text_aligned s : valid_utf8 (str_bytes s) = true → aligned s = true.
Proof. by apply (valid_aligned (str_bytes s)). Qed.
Lemma aligned_weaken s b : aligned s = true → aligned_after b s = true.
Proof. destruct s as [|c s]; [done|]. unfold aligned. cbn. destruct (utf8_cont c); [done|]. by rewrite andb_false_r. Qed.
Lemma aligned_app b s t : aligned_after b s = true → aligned t = true → aligned_after b (s +:+ t) = true.
Proof.
  revert b. induction s as [|c s IH]; intros b; [intros _; apply aligned_weaken|]. rewrite append_cons. cbn. intros H Ht. apply andb_true_iff in H as [-> H]. cbn. by apply IH.
Qed.
(** Around an ASCII character. *)
Lemma aligned_around b s c t : byte_val c < 128 → aligned_after b (s +:+ String c t) = true → aligned_after b s = true ∧ aligned t = true.
Proof.
  intros Hc. revert b. induction s as [|d s IH]; intros b; rewrite ?append_cons, ?append_nil_l; cbn.
  - intros H. apply andb_true_iff in H as [_ H]. split; [done|]. by rewrite (proj2 (Z.ltb_lt _ _) Hc) in H.
  - intros H. apply andb_true_iff in H as [-> H]. destruct (IH _ H) as [-> H2]. done.
Qed.
Lemma aligned_continues s : aligned s = true → continues s = false.
Proof. destruct s as [|c s]; [done|]. unfold aligned. cbn. by destruct (utf8_cont c). Qed.
Lemma chars_app s t : continues t = false → chars (s +:+ t) = chars s ++ chars t.
Proof.
  intros Ht. induction s as [|c s IH]; [done|]. change (String c s +:+ t) with (String c (s +:+ t)). cbn [chars]. rewrite IH.
  destruct s as [|d s].
  - cbn [chars app]. change ("" +:+ t) with t. destruct (chars t) eqn:E; [done|]. by rewrite Ht.
  - change (continues (String d s +:+ t)) with (continues (String d s)). destruct (chars (String d s)) as [|h l] eqn:E; [|cbn [app]; by destruct (continues (String d s))].
    cbn [chars] in E. destruct (chars s); [done|]. by destruct (continues s).
Qed.
Lemma chars_ascii c s : aligned (String c s) = true → byte_val c < 128 → chars (String c s) = String c EmptyString :: chars s.
Proof.
  intros Ha Hc. unfold aligned in Ha. cbn in Ha. rewrite (proj2 (Z.ltb_lt _ _) Hc) in Ha. apply andb_true_iff in Ha as [_ Ha]. apply aligned_continues in Ha.
  cbn [chars]. destruct (chars s); [done|]. by rewrite Ha.
Qed.

(** A text without the characters [p] picks, as the manifest's rules and
    [plain] test it. *)
Definition free (p : string → bool) (s : string) : Prop := aligned s = true ∧ existsb p (chars s) = false.
Section free.
Variable p : string → bool.
Lemma free_nil : free p "".
Proof. done. Qed.
Lemma free_app s t : free p s → free p t → free p (s +:+ t).
Proof.
  intros [H1 H2] [H3 H4]. split; [by apply aligned_app|]. rewrite chars_app by by apply aligned_continues. by rewrite existsb_app, H2, H4.
Qed.
Lemma free_around s c t : byte_val c < 128 → free p (s +:+ String c t) → free p s ∧ p (String c EmptyString) = false ∧ free p t.
Proof.
  intros Hc [H1 H2]. destruct (aligned_around _ _ _ _ Hc H1) as [H3 H4].
  assert (Ht : aligned (String c t) = true).
  { unfold aligned in *. cbn. rewrite (proj2 (Z.ltb_lt _ _) Hc), H4. rewrite andb_true_r. apply negb_true_iff. destruct (utf8_cont c) eqn:E; [|done].
    apply cont_not_ascii in E. apply Z.ltb_ge in E. lia. }
  rewrite chars_app in H2 by by apply aligned_continues. rewrite chars_ascii in H2 by done.
  rewrite existsb_app in H2. cbn [existsb] in H2. apply orb_false_iff in H2 as [H2 H5]. apply orb_false_iff in H5 as [H5 H6]. done.
Qed.
Lemma free_tail c s : byte_val c < 128 → free p (String c s) → p (String c EmptyString) = false ∧ free p s.
Proof. intros Hc H. destruct (free_around "" c s Hc H) as (_ & ? & ?). done. Qed.
Lemma free_byte c s : byte_val c < 128 → p (String c EmptyString) = true → free p s → contains_byte c s = false.
Proof.
  intros Hc Hp Hf. destruct (contains_byte c s) eqn:E; [|done]. exfalso.
  assert (∃ a b, s = a +:+ String c b) as (a & b & ->).
  { clear Hf. induction s as [|d s IH]; [done|]. cbn in E. apply orb_true_iff in E as [E|E].
    - apply bool_decide_eq_true in E as ->. by exists "", s.
    - destruct (IH E) as (a & b & ->). by exists (String d a), b. }
  destruct (free_around _ _ _ Hc Hf) as (_ & H & _). congruence.
Qed.
Lemma free_bytes (q : ascii → bool) s : (∀ c, q c = true → byte_val c < 128 ∧ p (String c EmptyString) = false) → all_bytes q s = true → free p s.
Proof.
  intros Hq. induction s as [|c s IH]; [done|]. cbn. intros H. apply andb_true_iff in H as [Hc Hs]. destruct (Hq c Hc) as [H1 H2]. destruct (IH Hs) as [H3 H4].
  assert (Ht : aligned (String c s) = true).
  { unfold aligned. cbn. rewrite (proj2 (Z.ltb_lt _ _) H1). unfold aligned in H3. rewrite H3, andb_true_r. apply negb_true_iff. destruct (utf8_cont c) eqn:E; [|done].
    apply cont_not_ascii in E. apply Z.ltb_ge in E. lia. }
  split; [done|]. rewrite chars_ascii by done. cbn [existsb]. by rewrite H2, H4.
Qed.
End free.
Lemma free_mono (p q : string → bool) s : (∀ c, q c = true → p c = true) → free p s → free q s.
Proof.
  intros Hpq [H1 H2]. split; [done|]. apply not_true_iff_false. intros H. apply existsb_exists in H as (c & Hc & Hq).
  apply not_true_iff_false in H2. apply H2, existsb_exists. exists c. split; [done|]. by apply Hpq.
Qed.

Lemma plain_ok s : aligned s = true → plain s = Ok tt ↔ free marked s.
Proof. intros Ha. unfold plain, free. destruct (existsb marked (chars s)); cbn; naive_solver. Qed.
Lemma free_marked s : aligned s = true → existsb marked (chars s) = false → free marked s.
Proof. done. Qed.
(** The bytes names, versions, numbers and paths are made of. *)
Definition name_byte (c : ascii) : bool := is_alphanumeric c || one_of "-._:~+/,=*%@ #[]" c.
Lemma name_bytes s : all_bytes name_byte s = true → free marked s.
Proof. apply free_bytes. intros c. destruct c as [[] [] [] [] [] [] [] []]; vm_compute; by intuition. Qed.
Create HintDb tidy.
#[export] Hint Resolve free_nil : tidy.
Ltac tidy_lit := apply name_bytes; vm_compute; reflexivity.
Ltac tidy := repeat (apply free_app); try (tidy_lit); auto with tidy.

(** ** Reading back *)

Definition unread (c : ascii) (s : string) : Prop := contains_byte c s = false.
Lemma unread_cons c d s : unread c (String d s) → d ≠ c ∧ unread c s.
Proof. unfold unread. cbn. intros H. apply orb_false_iff in H as [H1 H2]. split; [|done]. apply bool_decide_eq_false in H1. congruence. Qed.
Lemma append_end w c a : (w +:+ String c EmptyString) +:+ a = w +:+ String c a.
Proof. by rewrite append_assoc. Qed.
Lemma inside_word a t : ∀ w, unread QUOTE a → unread "$" a → unread SettingsRules.BACKSLASH a →
  systemd_words (Inside w) (double_percent a +:+ String QUOTE t) = cons (w +:+ a) <$> systemd_words After t.
Proof.
  induction a as [|c a IH]; intros w H1 H2 H3; [by rewrite append_nil_r|].
  apply unread_cons in H1 as [N1 H1], H2 as [N2 H2], H3 as [N3 H3]. cbn [double_percent]. destruct (decide (c = "%"%char)) as [->|Hp].
  - rewrite bool_decide_eq_true_2 by done. rewrite !append_cons. cbn [systemd_words]. rewrite bool_decide_eq_false_2 by done. rewrite !bool_decide_eq_true_2 by done.
    rewrite IH by done. by rewrite append_end.
  - rewrite (bool_decide_eq_false_2 (c = "%"%char)) by done. rewrite append_cons. cbn [systemd_words].
    rewrite (bool_decide_eq_false_2 (c = QUOTE)), (bool_decide_eq_false_2 (c = "%"%char)), (bool_decide_eq_false_2 (c = "$"%char)), (bool_decide_eq_false_2 (c = SettingsRules.BACKSLASH)) by done.
    cbn [orb]. rewrite IH by done. by rewrite append_end.
Qed.
Lemma exec_word_read a t : unread QUOTE a → unread "$" a → unread SettingsRules.BACKSLASH a →
  systemd_words Between (exec_word a +:+ t) = cons a <$> systemd_words After t.
Proof.
  intros H1 H2 H3. unfold exec_word, quote_str. rewrite !append_assoc, !append_cons, !append_nil_l. cbn [systemd_words].
  rewrite bool_decide_eq_false_2 by done. rewrite bool_decide_eq_true_2 by done. rewrite inside_word by done. done.
Qed.
Lemma sh_inside a t : ∀ w, unread "'" a → sh_words (Inside w) (a +:+ String "'" t) = cons (w +:+ a) <$> sh_words After t.
Proof.
  induction a as [|c a IH]; intros w H; [by rewrite append_nil_r|]. apply unread_cons in H as [N H]. rewrite append_cons. cbn [sh_words].
  rewrite bool_decide_eq_false_2 by done. rewrite IH by done. by rewrite append_end.
Qed.
Lemma sh_word_read a t : unread "'" a → sh_words Between (sh_word a +:+ t) = cons a <$> sh_words After t.
Proof.
  intros H. unfold sh_word. rewrite !append_assoc, !append_cons, !append_nil_l. cbn [sh_words].
  rewrite bool_decide_eq_false_2 by done. rewrite bool_decide_eq_true_2 by done. rewrite sh_inside by done. done.
Qed.
(** Words that a reader reads one by one, separated by spaces. *)
Lemma join_read (read : reading → string → option (list string)) (word : string → string) args :
  read Between "" = Some [] → read After "" = Some [] → (∀ t, read After (String " " t) = read Between t) →
  (∀ a t, a ∈ args → read Between (word a +:+ t) = cons a <$> read After t) →
  read Between (join " " (map word args)) = Some args.
Proof.
  intros R1 R2 R3. induction args as [|a args IH]; intros Hw; [done|]. destruct args as [|b args].
  - cbn [map join]. rewrite <-(append_nil_r (word a)), Hw by by left. by rewrite R2.
  - cbn [map]. rewrite join_cons by done. rewrite Hw by by left. rewrite R3. change (word b :: map word args) with (map word (b :: args)).
    rewrite IH by (intros c t Hc; apply Hw; by right). done.
Qed.
Lemma free_unread c s : byte_val c < 128 → marked (String c EmptyString) = true → free marked s → unread c s.
Proof. intros. by apply (free_byte marked). Qed.
Lemma systemd_reads args : (∀ a, a ∈ args → free marked a) → systemd_words Between (join " " (map exec_word args)) = Some args.
Proof. intros H. apply join_read; [done..|]. intros a t Ha. apply H in Ha. apply exec_word_read; by apply free_unread. Qed.
Lemma sh_reads args : (∀ a, a ∈ args → free marked a) → sh_words Between (join " " (map sh_word args)) = Some args.
Proof. intros H. apply join_read; [done..|]. intros a t Ha. apply H in Ha. apply sh_word_read. by apply free_unread. Qed.
Lemma double_quoted_read s : unread QUOTE s → unread "$" s → unread SettingsRules.BACKSLASH s → unread "`" s → double_quoted (s +:+ quote_str) = Some s.
Proof.
  induction s as [|c s IH]; [done|]. intros H1 H2 H3 H4. apply unread_cons in H1 as [N1 H1], H2 as [N2 H2], H3 as [N3 H3], H4 as [N4 H4].
  rewrite append_cons. cbn [double_quoted]. rewrite !bool_decide_eq_false_2 by done. cbn [orb]. by rewrite IH.
Qed.

(** ** Lines *)

Definition line_ok (s : string) : Prop := contains_byte LF s = false ∧ drop_cr s = s.
Lemma split_unlines l : Forall line_ok l → split LF (unlines l) = l ++ [""].
Proof. induction 1 as [|s l [Hs _] _ IH]; [done|]. change (unlines (s :: l)) with (s +:+ String LF (unlines l)). rewrite split_app_sep by done. by rewrite IH. Qed.
Lemma crs_ok l : Forall line_ok l → crs (l ++ [""]) = l ++ [""].
Proof. induction 1 as [|s l [_ Hs] _ IH]; [done|]. cbn [app crs]. destruct (l ++ [""]) eqn:E; [by destruct l|]. by rewrite Hs, IH. Qed.
Lemma drop_last_ok l : drop_last_empty (l ++ [""]) = l.
Proof. induction l as [|s l IH]; [done|]. cbn [app drop_last_empty]. rewrite IH. destruct s; [|done]. by destruct l. Qed.
Lemma lines_unlines l : Forall line_ok l → lines (unlines l) = l.
Proof. intros H. unfold lines. by rewrite split_unlines, crs_ok, drop_last_ok. Qed.
Lemma unread_line s : unread LF s → unread CR s → line_ok s.
Proof.
  intros H1 H2. split; [done|]. unfold drop_cr. destruct (strip_suffix (String CR EmptyString) s) as [r|] eqn:E; [|done]. apply strip_suffix_spec in E as ->.
  unfold unread in H2. rewrite contains_byte_app in H2. apply orb_false_iff in H2 as [_ H2]. cbn in H2. done.
Qed.
Lemma unread_app c s t : unread c (s +:+ t) ↔ unread c s ∧ unread c t.
Proof. unfold unread. rewrite contains_byte_app. apply orb_false_iff. Qed.
Lemma free_line s : free marked s → line_ok s.
Proof. intros H. apply unread_line; by apply free_unread. Qed.

(** ** Expansion *)

Definition special (c : string) : bool := quoting c || is_control c.
Lemma special_marked c : special c = true → marked c = true.
Proof. unfold special, marked. intros H. apply orb_true_iff in H as [-> | ->]; [done|]. by rewrite !orb_true_r. Qed.
Lemma no_dollar s : free special s → unread "$" s → free marked s.
Proof.
  intros [H1 H2] Hd. split; [done|]. apply not_true_iff_false. intros H. apply existsb_exists in H as (c & Hc & Hm). unfold marked in Hm.
  apply not_true_iff_false in H2. destruct (special c) eqn:E; [apply H2, existsb_exists; by exists c|]. unfold special in E. apply orb_false_iff in E as [E1 E2].
  rewrite E1, E2, orb_false_r in Hm. cbn in Hm. apply bool_decide_eq_true in Hm as ->.
  assert (Hin : ∀ t, In "$" (chars t) → contains_byte "$" t = true).
  { induction t as [|d t IH]; [done|]. cbn [chars contains_byte]. destruct (chars t) as [|h l] eqn:Et.
    - intros [[= ->]|[]]. by rewrite bool_decide_eq_true_2.
    - destruct (continues t); intros [Hh|Hl].
      + injection Hh as -> ->. by rewrite bool_decide_eq_true_2.
      + rewrite IH by by right. by rewrite orb_true_r.
      + injection Hh as ->. by rewrite bool_decide_eq_true_2.
      + rewrite IH by done. by rewrite orb_true_r. }
  apply Hin in Hc. unfold unread in Hd. congruence.
Qed.
Lemma expand_go_free vars fuel arg out : (∀ k v, smap_get k vars = Some v → free marked v) → free special arg → expand_go vars fuel arg = Some out → free marked out.
Proof.
  intros Hv. revert arg out. induction fuel as [|fuel IH]; [done|]. intros arg out Ha. cbn [expand_go]. destruct (split_once DOLLAR arg) as [[before after]|] eqn:E.
  - intros H. apply bind_Some in H as (inner & E1%strip_prefix_spec & H). apply bind_Some in H as ([name tail] & E2%split_once_spec & H).
    apply bind_Some in H as (value & E3 & H). apply bind_Some in H as (rest & E4 & [= <-]). apply split_once_spec in E as [-> Hb]. destruct E2 as [-> _]. subst after.
    destruct (free_around special before DOLLAR _ eq_refl Ha) as (F1 & _ & F2). rewrite append_cons, append_nil_l in F2. apply free_tail in F2 as [_ F2]; [|done].
    destruct (free_around special name "}" _ eq_refl F2) as (_ & _ & F3). apply free_app; [by apply no_dollar|]. apply free_app; [by eapply Hv|by eapply IH].
  - intros [= <-]. apply split_once_none in E. by apply no_dollar.
Qed.
Lemma expand_go_defined v1 v2 fuel arg : (∀ k, is_Some (smap_get k v1) → is_Some (smap_get k v2)) → is_Some (expand_go v1 fuel arg) → is_Some (expand_go v2 fuel arg).
Proof.
  intros Hk. revert arg. induction fuel as [|fuel IH]; intros arg; cbn [expand_go]; [done|]. destruct (split_once DOLLAR arg) as [[before after]|]; [|done].
  destruct (strip_prefix "{" after) as [inner|]; cbn; [|done]. destruct (split_once "}" inner) as [[name tail]|]; cbn; [|done].
  destruct (smap_get name v1) as [x|] eqn:E; cbn; [|by intros []]. destruct (Hk name) as [y Hy]; [by rewrite E|]. rewrite Hy. cbn.
  destruct (expand_go v1 fuel tail) as [o|] eqn:Eo; cbn; [|by intros []]. intros _. destruct (IH tail) as [z Hz]; [by rewrite Eo|]. by rewrite Hz.
Qed.
(** The fuel is enough: more of it answers the same. *)
Lemma expand_go_enough vars fuel arg : (String.length arg < fuel)%nat → expand_go vars fuel arg = expand arg vars.
Proof.
  unfold expand. intros H. assert (H' : (String.length arg < S (String.length arg))%nat) by lia. revert H H'. generalize (S (String.length arg)) as k. revert arg.
  induction fuel as [|fuel IH]; intros arg [|k] H1 H2; [lia..|]. cbn [expand_go]. destruct (split_once DOLLAR arg) as [[before after]|] eqn:E1; [|done].
  destruct (strip_prefix "{" after) as [inner|] eqn:E2; [cbn|done]. destruct (split_once "}" inner) as [[name tail]|] eqn:E3; [cbn|done].
  assert (String.length tail < String.length arg)%nat.
  { apply split_once_length in E1, E3. apply strip_prefix_length in E2. lia. }
  destruct (smap_get name vars); [cbn|done]. by rewrite (IH tail k) by lia.
Qed.
Lemma expand_total vars arg : unread "$" arg → expand arg vars = Some arg.
Proof. intros H. unfold expand. cbn [expand_go]. unfold DOLLAR. apply split_once_none in H. by rewrite H. Qed.

(** ** The environment as a map *)

Lemma env_map_get k (env : list (string * string)) : ∀ m : smap string, smap_get k (foldl (λ vars e, smap_insert e.1 e.2 vars) m env) =
  match List.find (λ e, bool_decide (e.1 = k)) (rev env) with Some e => Some e.2 | None => smap_get k m end.
Proof.
  induction env as [|[k' v] env IH]; intros m; cbn [foldl rev]; [done|]. rewrite IH. clear IH.
  assert (Hf : ∀ (l : list (string * string)), List.find (λ e, bool_decide (e.1 = k)) (l ++ [(k', v)]) = match List.find (λ e, bool_decide (e.1 = k)) l with Some e => Some e | None => if bool_decide (k' = k) then Some (k', v) else None end).
  { induction l as [|e l IH]; cbn; [by destruct (bool_decide _)|]. by destruct (bool_decide (e.1 = k)). }
  rewrite Hf. destruct (List.find _ (rev env)); [done|]. cbn [fst snd]. rewrite smap_get_insert. destruct (decide (k' = k)) as [->|N].
  - by rewrite !bool_decide_eq_true_2.
  - rewrite !bool_decide_eq_false_2 by congruence. done.
Qed.
Lemma env_map_some k (env : list (string * string)) : is_Some (smap_get k (env_map env)) ↔ k ∈ map fst env.
Proof.
  unfold env_map. rewrite env_map_get. destruct (List.find _ (rev env)) as [e|] eqn:E.
  - apply List.find_some in E as [Hin He]. apply bool_decide_eq_true in He. split; [intros _|by eexists]. apply list_elem_of_fmap. exists e. split; [done|]. by apply list_elem_of_In, in_rev.
  - split; [by intros []|]. intros ([k' v] & -> & Hin)%list_elem_of_fmap. apply list_elem_of_In, in_rev in Hin. pose proof (List.find_none _ _ E _ Hin) as H. cbn in H. by rewrite bool_decide_eq_true_2 in H.
Qed.
Lemma env_map_value k v (env : list (string * string)) : smap_get k (env_map env) = Some v → (k, v) ∈ env.
Proof.
  unfold env_map. rewrite env_map_get. destruct (List.find _ (rev env)) as [[k' v']|] eqn:E; [|done]. intros [= ->].
  apply List.find_some in E as [Hin He]. apply bool_decide_eq_true in He. cbn in He. subst k'. by apply list_elem_of_In, in_rev.
Qed.
Lemma env_map_entry (e : string * string) env : e ∈ env_map env → e ∈ env.
Proof.
  unfold env_map. assert (H : ∀ env m, e ∈ foldl (λ vars e, smap_insert e.1 e.2 vars) m env → e ∈ m ∨ e ∈ env).
  { clear env. induction env as [|[k v] env IH]; intros m; cbn [foldl]; [by left|]. intros Hin. destruct (IH _ Hin) as [Hi|Hi]; [|right; by right].
    cut (e = (k, v) ∨ e ∈ m); [intros [->|Hm]; [right; by left|by left]|]. clear -Hi. induction m as [|[k' v'] m IH]; cbn [smap_insert fst snd] in *.
    - apply list_elem_of_singleton in Hi. by left.
    - destruct (str_cmp k k').
      + apply elem_of_cons in Hi as [->|Hi]; [by left|by right; right].
      + apply elem_of_cons in Hi as [->|Hi]; [by left|by right].
      + apply elem_of_cons in Hi as [->|Hi]; [by right; left|]. destruct (IH Hi) as [?|?]; [by left|by right; right]. }
  intros Hin. by destruct (H env [] Hin) as [?%elem_of_nil|?].
Qed.

(** ** What an accepted app's unit is made of *)

Lemma service_name_free name : is_service_name name = true → free marked name.
Proof. unfold is_service_name. intros H. bools. apply name_bytes. eapply all_bytes_impl; [|eassumption]. intros c Hc. destruct c as [[] [] [] [] [] [] [] []]; vm_compute in Hc |- *; done. Qed.
Lemma app_name_free name : is_app_name name = true → free marked name.
Proof. unfold is_app_name. intros H. apply andb_true_iff in H as [_ H]. by apply service_name_free. Qed.
Lemma split_once_bytes p c s a b : p c = true → split_once c s = Some (a, b) → all_bytes p a = true → all_bytes p b = true → all_bytes p s = true.
Proof. intros Hc [-> _]%split_once_spec Ha Hb. rewrite all_bytes_app, Ha. cbn. by rewrite Hc. Qed.
Lemma version_free version : is_version version = true → free marked version.
Proof.
  unfold is_version. intros H. apply andb_true_iff in H as [_ H]. apply bool_decide_eq_true in H. unfold DebianVersion.compare in H.
  destruct (DebianVersion.parts version) as [p|] eqn:Ep; [clear H|by destruct H]. apply name_bytes. unfold DebianVersion.parts in Ep. destruct (_ || _); [done|].
  apply bind_Some in Ep as ([e rest] & Es & Ep).
  assert (Hr : all_bytes name_byte rest = true).
  { destruct (rsplit_once "-" rest) as [[up rev]|] eqn:Er; cbn [default] in Ep; unfold id in Ep.
    - destruct (first_byte is_digit up && _ && _) eqn:Eb in Ep; [|done]. bools. apply rsplit_once_spec in Er as [-> _]. rewrite all_bytes_app. cbn [all_bytes].
      assert (all_bytes name_byte up = true) as ->.
      { eapply all_bytes_impl; [|eassumption]. intros c Hc. destruct c as [[] [] [] [] [] [] [] []]; vm_compute in Hc |- *; done. }
      cbn. match goal with H : _ || _ = true |- _ => apply orb_true_iff in H as [H|H]; bools end.
      + destruct rev; done.
      + eapply all_bytes_impl; [|eassumption]. intros c Hc. destruct c as [[] [] [] [] [] [] [] []]; vm_compute in Hc |- *; done.
    - destruct (first_byte is_digit rest && _ && _) eqn:Eb in Ep; [|done]. bools. eapply all_bytes_impl; [|eassumption]. intros c Hc. destruct c as [[] [] [] [] [] [] [] []]; vm_compute in Hc |- *; done. }
  unfold DebianVersion.split_epoch in Es. destruct (split_once ":" version) as [[d rest']|] eqn:Eo.
  - destruct (_ || _) eqn:Eb in Es; [done|]. bools. destruct (parse_u64 d); [|done]. injection Es as <- <-.
    eapply split_once_bytes; [|exact Eo| |exact Hr]; [done|]. eapply all_bytes_impl; [|eassumption]. intros c Hc. destruct c as [[] [] [] [] [] [] [] []]; vm_compute in Hc |- *; done.
  - by injection Es as <- <-.
Qed.
Lemma dec_free n : 0 ≤ n → free marked (to_dec n).
Proof. intros H. apply name_bytes. eapply all_bytes_impl; [|by apply to_dec_digits]. intros c Hc. destruct c as [[] [] [] [] [] [] [] []]; vm_compute in Hc |- *; done. Qed.
Lemma join_free (c : ascii) l : free marked (String c EmptyString) → Forall (free marked) l → free marked (join c l).
Proof.
  intros Hc. induction 1 as [|s l Hs Hl IH]; [done|]. destruct l as [|t l]; [done|]. rewrite join_cons by done. apply free_app; [done|].
  change (String c (join c (t :: l))) with (String c EmptyString +:+ join c (t :: l)). by apply free_app.
Qed.
Lemma caps_free caps : caps ⊆ ALLOWED_CAPABILITIES → Forall (free marked) (map cap_word caps) ∧ Forall (free marked) caps.
Proof.
  assert (H : Forall (λ c, free marked (cap_word c) ∧ free marked c) ALLOWED_CAPABILITIES) by (repeat constructor; tidy_lit).
  intros Hs. rewrite Forall_forall in H. split; apply Forall_forall; [intros x (c & -> & Hc)%list_elem_of_fmap|intros c Hc]; by destruct (H c (Hs c Hc)).
Qed.
Lemma setpriv_free a : 0 ≤ ac_uid a → Forall (λ g, 0 ≤ g) (ac_groups a) → ac_capabilities a ⊆ ALLOWED_CAPABILITIES → Forall (free marked) (setpriv_args a).
Proof.
  intros Hu Hg Hc. destruct (caps_free _ Hc) as [Hw _].
  assert (Hj : free marked (join "," ("-all" :: map cap_word (ac_capabilities a)))) by (apply join_free; [tidy_lit|]; constructor; [tidy_lit|done]).
  pose proof (dec_free _ Hu) as Hd. unfold setpriv_args. revert Hj Hd. generalize (join "," ("-all" :: map cap_word (ac_capabilities a))), (to_dec (ac_uid a)). intros caps uid Hj Hd.
  apply List.Forall_cons; [apply free_app; [tidy_lit|exact Hd]|]. apply List.Forall_cons; [apply free_app; [tidy_lit|exact Hd]|].
  apply List.Forall_cons; [destruct (is_nil (ac_groups a)); [tidy_lit|]; apply free_app; [tidy_lit|]; apply join_free; [tidy_lit|]; apply Forall_fmap; eapply Forall_impl; [exact Hg|]; intros g; apply dec_free|].
  do 3 (apply List.Forall_cons; [apply free_app; [tidy_lit|exact Hj]|]). do 2 (apply List.Forall_cons; [tidy_lit|]). apply List.Forall_nil.
Qed.
(** Every path made of a device's parts is plain. *)
Lemma parts_bytes (q : ascii → bool) s : q "/"%char = true → forallb (all_bytes q) (split "/" s) = true → all_bytes q s = true.
Proof.
  intros Hq H. rewrite <-(join_split "/" s). revert H. generalize (split "/" s). induction l as [|x l IH]; [done|]. cbn [forallb]. intros H. apply andb_true_iff in H as [Hx Hl].
  destruct l as [|y l]; [done|]. rewrite join_cons by done. rewrite all_bytes_app, Hx. cbn. rewrite Hq. by apply IH.
Qed.
Lemma device_free device : is_device device = true → class device = None → free marked device.
Proof.
  unfold is_device. intros H Hc. rewrite Hc in H. apply andb_true_iff in H as [H1 H2]. rewrite (bool_decide_eq_false_2 (is_Some None)), orb_false_r in H1 by by intros [].
  apply bool_decide_eq_true in H1. rewrite H1 in H2. destruct (strip_prefix "/dev/" device) as [rest|] eqn:E; [|done]. apply strip_prefix_spec in E as ->.
  apply free_app; [tidy_lit|]. apply name_bytes. apply parts_bytes; [done|]. rewrite forallb_forall in *. intros x Hx. specialize (H2 x Hx). apply andb_true_iff in H2 as [_ H2].
  eapply all_bytes_impl; [|exact H2]. intros c Hb. destruct c as [[] [] [] [] [] [] [] []]; vm_compute in Hb |- *; done.
Qed.
Lemma letters_bytes s : all_bytes is_alphabetic (letters s) = true.
Proof. induction s as [|c s IH]; [done|]. cbn. destruct (is_alphabetic c) eqn:E; cbn; [by rewrite E|done]. Qed.
Lemma class_free device c : class device = Some c → Forall (free marked) (map (λ d, "char-" +:+ d) (cl_drivers c)).
Proof.
  unfold class. destruct (_ || _); [intros [= <-]; repeat constructor; tidy_lit|]. destruct (starts_with _ _); [intros [= <-]; repeat constructor; tidy_lit|].
  destruct (starts_with _ _); [intros [= <-]; repeat constructor; tidy_lit|]. destruct (starts_with _ _); [intros [= <-]; repeat constructor; tidy_lit|].
  intros H. apply bind_Some in H as (rest & _ & H). destruct (_ && _); [|done]. injection H as <-. cbn [map cl_drivers]. apply List.Forall_cons; [|apply List.Forall_nil]. apply name_bytes. change ("char-" +:+ "tty" +:+ letters rest) with ("char-tty" +:+ letters rest).
  rewrite all_bytes_app. cbn [andb all_bytes]. eapply all_bytes_impl; [|apply letters_bytes]. intros x Hb. destruct x as [[] [] [] [] [] [] [] []]; vm_compute in Hb |- *; done.
Qed.
Lemma dedup_incl {A} `{EqDecision A} (l : list A) : dedup l ⊆ l.
Proof.
  induction l as [|a l IH]; [done|]. cbn. destruct l as [|b l]; [done|]. destruct (decide (a = b)); [set_solver|]. intros x [->|Hx]%elem_of_cons; [by left|right; by apply IH].
Qed.
Lemma grants_free node devices groups : (∀ d, d ∈ devices → is_device d = true) → Forall (free marked) (gr_allow (grants node devices groups)).
Proof.
  intros Hd. unfold grants. cbn [gr_allow]. apply Forall_forall. intros x Hx%dedup_incl. revert x Hx. rewrite <-Forall_forall.
  assert (H : ∀ g, Forall (free marked) (gr_allow g) → Forall (free marked) (gr_allow (foldl (λ g device,
    match class device with
    | Some c => {| gr_groups := gr_groups g ++ option_list (text ← groups; gid_of text (cl_group c)); gr_allow := gr_allow g ++ map (λ d, "char-" +:+ d) (cl_drivers c) |}
    | None => {| gr_groups := gr_groups g ++ List.filter (λ gid, negb (gid =? 0) && bool_decide (group_refusal gid groups = None)) (option_list (node device));
                 gr_allow := gr_allow g ++ [device] |}
    end) g devices))); [|apply H; constructor].
  induction devices as [|d devices IH]; intros g Hg; cbn [foldl]; [done|]. apply IH; [intros y Hy; apply Hd; by right|].
  destruct (class d) as [c|] eqn:Ec; cbn [gr_allow]; apply Forall_app; split; [done|by eapply class_free|done|]. apply List.Forall_cons; [|apply List.Forall_nil]. apply device_free; [apply Hd; by left|done].
Qed.

(** ** The lines of a unit *)

Lemma unread_double c s : c ≠ "%"%char → unread c s → unread c (double_percent s).
Proof.
  intros Hc. induction s as [|d s IH]; [done|]. intros [N H]%unread_cons. cbn [double_percent].
  assert (Hd : unread c (String d (double_percent s))) by (unfold unread; cbn; rewrite bool_decide_eq_false_2 by done; by apply IH).
  case_bool_decide; [|done]. unfold unread in *. cbn in *. apply orb_false_iff. split; [by apply bool_decide_eq_false|exact Hd].
Qed.
Lemma unread_join c d l : c ≠ d → (∀ s, s ∈ l → unread c s) → unread c (join d l).
Proof.
  intros Hc. induction l as [|s l IH]; [done|]. intros H. destruct l as [|t l]; [apply H; by left|]. rewrite join_cons by done. apply unread_app. split; [apply H; by left|].
  unfold unread. cbn. rewrite bool_decide_eq_false_2 by congruence. apply IH. intros x Hx. apply H. by right.
Qed.
Lemma exec_line_ok args : (∀ a, a ∈ args → free marked a) → line_ok ("ExecStart=" +:+ join " " (map exec_word args)).
Proof.
  intros H. assert (Hc : ∀ c, c ≠ "%"%char → c ≠ " "%char → c ≠ QUOTE → (∀ a, a ∈ args → unread c a) → unread c (join " " (map exec_word args))).
  { intros c N1 N2 N3 Ha. apply unread_join; [done|]. intros s (a & -> & Hin)%list_elem_of_fmap. unfold exec_word, quote_str. rewrite !unread_app.
    unfold unread at 1 3. cbn. rewrite bool_decide_eq_false_2 by congruence. split_and!; [done|by apply unread_double, Ha|done]. }
  apply unread_line; (apply unread_app; split; [done|]; apply Hc; [done..|]; intros a Ha; apply free_unread; [done..|by apply H]).
Qed.
Lemma sh_line_ok args : (∀ a, a ∈ args → free marked a) → line_ok ("command_args=" +:+ quote_str +:+ join " " (map sh_word args) +:+ quote_str).
Proof.
  intros H. assert (Hc : ∀ c, c ≠ " "%char → c ≠ "'"%char → (∀ a, a ∈ args → unread c a) → unread c (join " " (map sh_word args))).
  { intros c N1 N2 Ha. apply unread_join; [done|]. intros s (a & -> & Hin)%list_elem_of_fmap. unfold sh_word. rewrite !unread_app.
    unfold unread at 1 3. cbn. rewrite bool_decide_eq_false_2 by congruence. split_and!; [done|by apply Ha|done]. }
  apply unread_line; (rewrite !unread_app; split_and!; [done|done| |done]; apply Hc; [done..|]; intros a Ha; apply free_unread; [done..|by apply H]).
Qed.
(** A line of literals and plain texts. *)
Ltac plain_line := apply free_line; repeat (apply free_app); (assumption || tidy_lit).
Lemma literal_line s : all_bytes (λ c, negb (bool_decide (c = LF)) && negb (bool_decide (c = CR))) s = true → line_ok s.
Proof.
  intros H. apply unread_line; eapply all_bytes_not_contains; try exact H; done.
Qed.
Lemma systemd_lines_ok app s a devices args data : free marked app → free marked (as_name s) → 0 ≤ ac_uid a → free marked data →
  (∀ x, x ∈ args → free marked x) → Forall (free marked) devices → ac_capabilities a ⊆ ALLOWED_CAPABILITIES → Forall line_ok (systemd_lines app s a devices args data).
Proof.
  intros Ha Hs Hu%dec_free Hd Hargs Hdev Hc. destruct (caps_free _ Hc) as [_ Hcaps].
  assert (Hj : free marked (join " " (["CAP_SETUID"; "CAP_SETGID"; "CAP_SETPCAP"] ++ ac_capabilities a))).
  { apply join_free; [tidy_lit|]. do 3 (apply List.Forall_cons; [tidy_lit|]). exact Hcaps. }
  unfold systemd_lines. generalize dependent (join " " (["CAP_SETUID"; "CAP_SETGID"; "CAP_SETPCAP"] ++ ac_capabilities a)). intros caps Hj.
  pose proof (exec_line_ok args Hargs) as He. generalize dependent (to_dec (ac_uid a)). intros uid Hu. apply Forall_app. split; [|apply Forall_app; split].
  - do 9 (apply List.Forall_cons; [first [apply literal_line; vm_compute; reflexivity|plain_line]|]). apply List.Forall_cons; [exact He|].
    repeat (apply List.Forall_cons; [first [apply literal_line; vm_compute; reflexivity|plain_line]|]). apply List.Forall_nil.
  - apply Forall_fmap. eapply Forall_impl; [exact Hdev|]. intros d Hfd. cbn. apply free_line. apply free_app; [tidy_lit|]. apply free_app; [exact Hfd|tidy_lit].
  - repeat (apply List.Forall_cons; [apply literal_line; vm_compute; reflexivity|]). apply List.Forall_nil.
Qed.
Lemma unread_quoted c pre s post : unread c pre → unread c s → unread c post → c ≠ QUOTE → unread c (pre +:+ quote_str +:+ s +:+ post +:+ quote_str).
Proof. intros H1 H2 H3 H4. rewrite !unread_app. unfold quote_str, unread at 2 5. cbn. rewrite bool_decide_eq_false_2 by congruence. by split_and!. Qed.
Lemma openrc_lines_ok app s a args data : free marked app → free marked (as_name s) → 0 ≤ ac_uid a → free marked data →
  (∀ x, x ∈ args → free marked x) → Forall line_ok (openrc_lines app s a args data).
Proof.
  intros Ha Hs Hu%dec_free Hd Hargs. unfold openrc_lines. generalize dependent (to_dec (ac_uid a)). intros uid Hu.
  assert (Hl : ∀ c x, byte_val c < 128 → marked (String c EmptyString) = true → free marked x → unread c x) by (intros; by apply free_unread).
  apply List.Forall_cons; [by apply literal_line|]. apply List.Forall_cons; [plain_line|]. apply List.Forall_cons; [by apply literal_line|].
  apply List.Forall_cons; [apply unread_line; rewrite !unread_app; split_and!; try done; by apply Hl|].
  do 2 (apply List.Forall_cons; [by apply literal_line|]).
  apply List.Forall_cons; [apply sh_line_ok; intros x Hx; apply Hargs; by destruct args; [|right]|].
  apply List.Forall_cons; [apply unread_line; unfold sh_word; rewrite !unread_app; split_and!; try done; by apply Hl|].
  repeat (apply List.Forall_cons; [by apply literal_line|]). apply List.Forall_nil.
Qed.

(** ** The service of an accepted app *)

Section service.
Context `{UR : Urls} (m : Manifest) (arch : string) (s : Service) (a : Account) (node : string → option Z) (groups : option string).
Context (HA : accepted m arch) (Hs : s ∈ mf_services m).
(** Texts are Rust's, and the account is one the app may have. *)
Context (Henv : ∀ k v, (k, v) ∈ mf_env m → valid_utf8 (str_bytes v) = true).
Context (Hexec : ∀ arg, arg ∈ as_exec s → valid_utf8 (str_bytes arg) = true).
Context (Hu : 0 ≤ ac_uid a) (Hg : Forall (λ g, 0 ≤ g) (ac_groups a)) (Hcaps : ac_capabilities a = pv_capabilities (mf_privileges m)).

Let vars : smap string := env_map (env_of (mf_name m) m).
Let app_data : string := "/srv/apps/" +:+ mf_name m.
Let app_dir : string := "/mica/apps/" +:+ mf_name m +:+ "/current".
Lemma key_bytes k : env_key_ok k = true → all_bytes (λ b, is_upper b || is_digit b || bool_decide (b = "_"%char)) k = true ∧ starts_with "APP_" k = false.
Proof. unfold env_key_ok. intros H. by bools. Qed.
Lemma var_free k v : (k, v) ∈ env_of (mf_name m) m → free marked k ∧ free marked v.
Proof.
  unfold env_of. pose proof (app_name_free _ (ap_name _ _ HA)) as Hn. pose proof (version_free _ (ap_version _ _ HA)) as Hv.
  intros H. apply elem_of_app in H as [H|H].
  - repeat (apply elem_of_cons in H as [[= -> ->]|H]); [..|by apply elem_of_nil in H]; (split; [tidy_lit|]); [done|done| |]; repeat (apply free_app); (exact Hn || tidy_lit).
  - destruct (ap_env _ _ HA k v H) as [Hk Hf]. destruct (key_bytes k Hk) as [Hb _]. split.
    + apply name_bytes. eapply all_bytes_impl; [|exact Hb]. intros c Hc. destruct c as [[] [] [] [] [] [] [] []]; vm_compute in Hc |- *; done.
    + split; [by eapply text_aligned, Henv|exact Hf].
Qed.
Lemma own_variable k v : (k, v) ∈ [("APP_NAME", mf_name m); ("APP_VERSION", mf_version m); ("APP_DIR", app_dir); ("APP_DATA", app_data)] → smap_get k vars = Some v.
Proof.
  intros H. assert (Hin : (k, v) ∈ env_of (mf_name m) m) by (apply elem_of_app; by left).
  assert (Hk : is_Some (smap_get k vars)) by (apply env_map_some, list_elem_of_fmap; by exists (k, v)). destruct Hk as [v' Hv']. rewrite Hv'. f_equal.
  apply env_map_value in Hv'. unfold env_of in Hv'. apply elem_of_app in Hv' as [H'|H'].
  - repeat (apply elem_of_cons in H as [[= -> ->]|H]); [..|by apply elem_of_nil in H]; repeat (apply elem_of_cons in H' as [E|H']; [by injection E as ?|]); by apply elem_of_nil in H'.
  - destruct (ap_env _ _ HA k v' H') as [[_ Hk]%key_bytes _]. exfalso. repeat (apply elem_of_cons in H as [[= -> ->]|H]); [..|by apply elem_of_nil in H]; by vm_compute in Hk.
Qed.
Lemma find_get k (l : smap string) : snd <$> List.find (λ e, bool_decide (e.1 = k)) l = smap_get k l.
Proof. induction l as [|[k' v] l IH]; [done|]. cbn. by destruct (bool_decide (k' = k)). Qed.
Lemma capabilities_allowed : ac_capabilities a ⊆ ALLOWED_CAPABILITIES.
Proof. rewrite Hcaps. intros cap. apply (ap_capabilities _ _ HA). Qed.

(** The arguments, expanded: they are, and are plain. *)
Lemma args_expand l : (∀ arg, arg ∈ l → arg ∈ as_exec s) → ∃ out, collect (λ arg, with_context (expand arg vars) "expand") l = Ok out ∧ Forall (free marked) out.
Proof.
  induction l as [|arg l IH]; intros Hl; [by exists []|]. destruct IH as (out & Ho & Hf); [intros x Hx; apply Hl; by right|].
  assert (Harg : arg ∈ as_exec s) by (apply Hl; by left). destruct (sc_arg _ _ (ap_services _ _ HA s Hs) arg Harg) as [Hp Hx].
  assert (Hx' : is_Some (expand arg vars)).
  { eapply expand_go_defined; [|exact Hx]. intros k Hk. apply env_map_some. apply check_vars_keys in Hk. unfold env_of. by rewrite map_app. }
  destruct Hx' as [v Hv]. exists (v :: out). cbn [collect]. rewrite Hv. cbn [with_context rbind]. rewrite Ho. split; [done|]. apply List.Forall_cons; [|done].
  unfold arg_plain in Hp. apply andb_true_iff in Hp as [_ Hp]. apply negb_true_iff in Hp.
  apply (expand_go_free vars (S (String.length arg)) arg v); [|split; [by eapply text_aligned, Hexec|exact Hp]|exact Hv]. intros k x Hkx. apply env_map_value in Hkx. by destruct (var_free _ _ Hkx).
Qed.

(** What runs: setpriv, then [env] with the app's variables alone, then the
    app's file with its arguments. *)
Definition service_args (file : string) (rest : list string) : list string :=
  SETPRIV :: setpriv_args a ++ [ENV; "-i"; "PATH=" +:+ PATH; "HOME=" +:+ app_data] ++ map (λ e, e.1 +:+ "=" +:+ e.2) vars ++ [app_dir +:+ "/" +:+ file] ++ rest.
Lemma command_runs file args : as_exec s = file :: args → unread "$" file →
  ∃ rest, collect (λ arg, with_context (expand arg vars) "expand") args = Ok rest ∧ command s a vars = Ok (service_args file rest) ∧ Forall (free marked) (service_args file rest).
Proof.
  intros He Hd. destruct (args_expand args) as (rest & Hr & Hf); [intros x Hx; rewrite He; by right|]. exists rest. split; [done|]. split.
  - unfold command. rewrite (own_variable "APP_DIR" app_dir) by by do 2 right; left. cbn [with_context rbind]. rewrite He. unfold env_args. rewrite find_get.
    rewrite (own_variable "APP_DATA" app_data) by by do 3 right; left. cbn [with_context rbind]. rewrite Hr. cbn [rbind]. unfold service_args. by rewrite <-!app_assoc.
  - pose proof (app_name_free _ (ap_name _ _ HA)) as Hn. unfold service_args. apply List.Forall_cons; [tidy_lit|]. rewrite !Forall_app. split_and!.
    + apply setpriv_free; [done..|apply capabilities_allowed].
    + do 3 (apply List.Forall_cons; [tidy_lit|]). apply List.Forall_cons; [|apply List.Forall_nil]. unfold app_data. repeat apply free_app; (exact Hn || tidy_lit).
    + apply Forall_forall. intros x ([k v] & -> & Hin)%list_elem_of_fmap. apply env_map_entry, var_free in Hin as [H1 H2]. cbn [fst snd]. apply free_app; [done|]. apply free_app; [tidy_lit|done].
    + apply List.Forall_cons; [|apply List.Forall_nil]. unfold app_dir. repeat apply free_app; try (exact Hn || tidy_lit).
      assert (Hin : file ∈ as_exec s) by (rewrite He; by left). destruct (sc_arg _ _ (ap_services _ _ HA s Hs) file Hin) as [Hp _].
      unfold arg_plain in Hp. apply andb_true_iff in Hp as [_ Hp]. apply negb_true_iff in Hp. apply no_dollar; [|done]. split; [by eapply text_aligned, Hexec|exact Hp].
    + done.
Qed.
Lemma unit_written init file args : as_exec s = file :: args → unread "$" file →
  ∃ rest, collect (λ arg, with_context (expand arg vars) "expand") args = Ok rest ∧ Forall (free marked) (service_args file rest)
  ∧ unit init (mf_name m) s a (gr_allow (grants node (pv_devices (mf_privileges m)) groups)) vars
    = Ok (unlines (match init with
                   | Systemd => systemd_lines (mf_name m) s a (gr_allow (grants node (pv_devices (mf_privileges m)) groups)) (service_args file rest) app_data
                   | Openrc => openrc_lines (mf_name m) s a (service_args file rest) app_data end)).
Proof.
  intros He Hd. destruct (command_runs file args He Hd) as (rest & Hr & Hc & Hf). exists rest. split; [done|]. split; [done|]. unfold unit. rewrite Hc. cbn [rbind].
  assert (Hp : each plain (service_args file rest ++ map fst vars ++ map snd vars ++ gr_allow (grants node (pv_devices (mf_privileges m)) groups)) = Ok tt).
  { apply each_ok. assert (Hfree : ∀ l, Forall (free marked) l → Forall (λ x, plain x = Ok tt) l) by (intros l Hl; eapply Forall_impl; [exact Hl|]; intros x Hx; apply plain_ok; [apply Hx|done]).
    apply Hfree. rewrite !Forall_app. split_and!; [done|..].
    - apply Forall_forall. intros x ([k v] & -> & Hin)%list_elem_of_fmap. by apply env_map_entry, var_free in Hin as [H1 _].
    - apply Forall_forall. intros x ([k v] & -> & Hin)%list_elem_of_fmap. by apply env_map_entry, var_free in Hin as [_ H2].
    - apply grants_free. intros d. apply (ap_devices _ _ HA). }
  rewrite Hp. cbn [rbind]. rewrite (own_variable "APP_DATA" app_data) by by do 3 right; left. done.
Qed.
End service.

(** ** The lines an init takes the command from *)

Lemma systemd_exec_line app s a devices args data line w : line ∈ systemd_lines app s a devices args data → strip_prefix "ExecStart=" line = Some w →
  w = join " " (map exec_word args).
Proof.
  intros Hin Hw. unfold systemd_lines in Hin. apply elem_of_app in Hin as [Hin|Hin]; [|apply elem_of_app in Hin as [Hin|Hin]].
  - do 9 (apply elem_of_cons in Hin as [->|Hin]; [by cbn in Hw|]). apply elem_of_cons in Hin as [->|Hin]; [apply strip_prefix_spec in Hw; by apply append_cut in Hw|].
    repeat (apply elem_of_cons in Hin as [->|Hin]; [by cbn in Hw|]). by apply elem_of_nil in Hin.
  - apply list_elem_of_fmap in Hin as (d & -> & _). by cbn in Hw.
  - repeat (apply elem_of_cons in Hin as [->|Hin]; [by cbn in Hw|]). by apply elem_of_nil in Hin.
Qed.
Lemma openrc_exec_line app s a args data line w : line ∈ openrc_lines app s a args data → strip_prefix "command_args=" line = Some w →
  w = quote_str +:+ join " " (map sh_word (tail args)) +:+ quote_str.
Proof.
  intros Hin Hw. unfold openrc_lines in Hin. do 6 (apply elem_of_cons in Hin as [->|Hin]; [by cbn in Hw|]).
  apply elem_of_cons in Hin as [->|Hin]; [apply strip_prefix_spec in Hw; by apply append_cut in Hw|].
  repeat (apply elem_of_cons in Hin as [->|Hin]; [by cbn in Hw|]). by apply elem_of_nil in Hin.
Qed.
Lemma sh_args_read args : (∀ a, a ∈ args → free marked a) →
  (content ← double_quoted (join " " (map sh_word args) +:+ quote_str); sh_words Between content) = Some args.
Proof.
  intros H. assert (Hc : ∀ c, c ≠ " "%char → c ≠ "'"%char → (∀ a, a ∈ args → unread c a) → unread c (join " " (map sh_word args))).
  { intros c N1 N2 Ha. apply unread_join; [done|]. intros s (a & -> & Hin)%list_elem_of_fmap. unfold sh_word. rewrite !unread_app.
    unfold unread at 1 3. cbn. rewrite bool_decide_eq_false_2 by congruence. split_and!; [done|by apply Ha|done]. }
  rewrite double_quoted_read by (apply Hc; [done..|]; intros a Ha; apply free_unread; [done..|by apply H]). cbn. by apply sh_reads.
Qed.
(** What the init runs of a unit: systemd its one command line; OpenRC's
    [command] with the words of [command_args]. *)
Definition init_runs (init : Init) (text : string) (args : list string) : Prop :=
  match init with
  | Systemd => (∃ line w, line ∈ lines text ∧ strip_prefix "ExecStart=" line = Some w)
               ∧ ∀ line w, line ∈ lines text → strip_prefix "ExecStart=" line = Some w → systemd_words Between w = Some args
  | Openrc => ("command=" +:+ SETPRIV) ∈ lines text ∧ head args = Some SETPRIV
              ∧ (∃ line w, line ∈ lines text ∧ strip_prefix "command_args=" line = Some w)
              ∧ ∀ line w, line ∈ lines text → strip_prefix "command_args=" line = Some w →
                  ∃ v, strip_prefix quote_str w = Some v ∧ (content ← double_quoted v; sh_words Between content) = Some (tail args)
  end.

(** C12: the unit micad writes for a service of an accepted app is read by the
    init as exactly one command, whatever the manifest holds: setpriv to the
    app's uid and groups with the declared capabilities, each one allowed, and
    no new privileges; then [env -i] with the app's variables; then the app's
    own file with its arguments expanded. Nothing of the manifest adds a line
    to the unit or a word to the command. *)
Theorem accepted_service_runs `{UR : Urls} m init arch s a node groups file args
    (HA : check_fields m init arch = []) (Hs : s ∈ mf_services m)
    (Henv : ∀ k v, (k, v) ∈ mf_env m → valid_utf8 (str_bytes v) = true) (Hexec : ∀ arg, arg ∈ as_exec s → valid_utf8 (str_bytes arg) = true)
    (Hu : 0 ≤ ac_uid a) (Hg : Forall (λ g, 0 ≤ g) (ac_groups a)) (Hcaps : ac_capabilities a = pv_capabilities (mf_privileges m))
    (He : as_exec s = file :: args) (Hd : contains_byte "$" file = false) :
  let vars := env_map (env_of (mf_name m) m) in
  let devices := gr_allow (grants node (pv_devices (mf_privileges m)) groups) in
  ∃ rest text, collect (λ arg, with_context (expand arg vars) "expand") args = Ok rest
    ∧ unit init (mf_name m) s a devices vars = Ok text
    ∧ init_runs init text (service_args m a file rest)
    ∧ lines text = match init with
                   | Systemd => systemd_lines (mf_name m) s a devices (service_args m a file rest) ("/srv/apps/" +:+ mf_name m)
                   | Openrc => openrc_lines (mf_name m) s a (service_args m a file rest) ("/srv/apps/" +:+ mf_name m)
                   end
    ∧ ac_capabilities a ⊆ ALLOWED_CAPABILITIES.
Proof.
  intros vars devices. apply check_fields_accepted in HA.
  destruct (unit_written m arch s a node groups HA Hs Henv Hexec Hu Hg Hcaps init file args He Hd) as (rest & Hr & Hf & Hw).
  pose proof (app_name_free _ (ap_name _ _ HA)) as Hn. pose proof (service_name_free _ (sc_name _ _ (ap_services _ _ HA s Hs))) as Hsn.
  assert (Hdata : free marked ("/srv/apps/" +:+ mf_name m)) by (apply free_app; [tidy_lit|done]).
  assert (Hall : ∀ x, x ∈ service_args m a file rest → free marked x) by by apply Forall_forall.
  assert (Hdev : Forall (free marked) devices) by (apply grants_free; intros d; apply (ap_devices _ _ HA)).
  assert (Hal : ac_capabilities a ⊆ ALLOWED_CAPABILITIES) by by eapply capabilities_allowed.
  eexists rest, _. split; [exact Hr|]. split; [exact Hw|]. destruct init.
  - rewrite lines_unlines by by apply systemd_lines_ok. split; [|done]. unfold init_runs. rewrite lines_unlines by by apply systemd_lines_ok. split.
    + eexists _, _. split; [do 9 right; left|]. by apply strip_prefix_app.
    + intros line w Hin Hx. rewrite (systemd_exec_line _ _ _ _ _ _ _ _ Hin Hx). by apply systemd_reads.
  - rewrite lines_unlines by by apply openrc_lines_ok. split; [|done]. unfold init_runs. rewrite lines_unlines by by apply openrc_lines_ok. split_and!.
    + by do 5 right; left.
    + done.
    + eexists _, _. split; [do 6 right; left|]. by apply strip_prefix_app.
    + intros line w Hin Hx. rewrite (openrc_exec_line _ _ _ _ _ _ _ Hin Hx). eexists. split; [by apply strip_prefix_app|]. apply sh_args_read.
      intros x Hin'. apply Hall. destruct (service_args m a file rest); [done|by right].
Qed.

(** ** A manifest *)

Definition url_scheme : Urls := {| scheme_of := λ url, if starts_with "https:" url then Some "https" else None |}.
Definition daemon : Service :=
  {| as_name := "tailscaled"; as_exec := ["files/tailscaled"; "--socket=${TS_SOCKET}"; "--state=${APP_DATA}/s"]; as_enable := true |}.
Definition own_user (services : list Service) : Manifest :=
  {| mf_schema_version := 1; mf_name := "tailscale"; mf_version := "1.104.2"; mf_arch := ["arm64"]; mf_description := ""; mf_units := [];
     mf_env := [("TS_SOCKET", "/srv/apps/tailscale/tailscaled.sock")]; mf_first_run := None; mf_update := None; mf_seed_policy := FollowImage;
     mf_privileges := {| pv_user := AsApp; pv_capabilities := ["CAP_NET_ADMIN"; "CAP_NET_RAW"]; pv_devices := ["/dev/net/tun"; "/dev/ttyUSB*"] |};
     mf_services := services; mf_mdns := [] |}.
Definition app_account : Account := {| ac_uid := 30000; ac_groups := [20]; ac_capabilities := ["CAP_NET_ADMIN"; "CAP_NET_RAW"] |}.
Lemma accepted_service_runs_witness :
  let m := own_user [daemon] in
  let vars := env_map (env_of "tailscale" m) in
  let devices := gr_allow (grants (λ _, None) ["/dev/net/tun"; "/dev/ttyUSB*"] None) in
  devices = ["/dev/net/tun"; "char-ttyUSB"]
  ∧ ∃ rest text, rest = ["--socket=/srv/apps/tailscale/tailscaled.sock"; "--state=/srv/apps/tailscale/s"]
    ∧ unit Systemd "tailscale" daemon app_account devices vars = Ok text ∧ init_runs Systemd text (service_args m app_account "files/tailscaled" rest).
Proof.
  intros m vars devices. split; [by vm_compute|].
  assert (Henv : ∀ k v, (k, v) ∈ mf_env m → valid_utf8 (str_bytes v) = true) by by intros k v [= -> ->]%list_elem_of_singleton.
  assert (Hexec : ∀ arg, arg ∈ as_exec daemon → valid_utf8 (str_bytes arg) = true).
  { intros arg H. repeat (apply elem_of_cons in H as [->|H]; [by vm_compute|]). by apply elem_of_nil in H. }
  assert (Hu0 : 0 ≤ ac_uid app_account) by done. assert (Hg : Forall (λ g, 0 ≤ g) (ac_groups app_account)) by by repeat constructor.
  destruct (accepted_service_runs (UR := url_scheme) m Systemd "arm64" daemon app_account (λ _, None) None "files/tailscaled" ["--socket=${TS_SOCKET}"; "--state=${APP_DATA}/s"]
    eq_refl (list_elem_of_here _ _) Henv Hexec Hu0 Hg eq_refl eq_refl eq_refl) as (rest & text & Hr & Hu & Hi & _).
  exists rest, text. split; [|by split]. vm_compute in Hr. by injection Hr as <-.
Defined.

(** A file named with a variable is accepted, but its unit is never written. *)
Definition varied : Service := {| as_name := "tailscaled"; as_exec := ["files/${APP_NAME}"]; as_enable := true |}.
Example variable_file_not_written :
  check_fields (UR := url_scheme) (own_user [varied]) Systemd "arm64" = []
  ∧ is_ok (unit Systemd "tailscale" varied app_account [] (env_map (env_of "tailscale" (own_user [varied])))) = false.
Proof. by vm_compute. Qed.
End AppRender.
