(* ===== verification/AppBundle.v ===== *)
(** App bundles ([src/crates/micad/src/apps/bundle.rs]): an archive's members
    checked one by one while they are unpacked, and the manifest's files
    ([apps/manifest.rs], [check_files]). The tar and gzip readers are outside
    the repository: a bundle is the list of members they give. *)
From Stdlib Require Import Ascii.
From S2P Require Import Prelude Text Maps Chars Features SettingsModel AppManifest.
Import Features AppManifest.

Module AppBundle.

(** * Paths and files *)

(** [Path::components]. A [.] counts only at the start. *)
Inductive Component := RootDir | CurDir | ParentDir | Normal (part : string).
#[export] Instance component_eq : EqDecision Component. Proof. solve_decision. Defined.
Definition part_of (part : string) : option Component :=
  if is_empty part || bool_decide (part = ".") then None else if bool_decide (part = "..") then Some ParentDir else Some (Normal part).
Definition components (path : string) : list Component :=
  (if starts_with "/" path then [RootDir]
   else match split "/" path with part :: _ => if bool_decide (part = ".") then [CurDir] else [] | [] => [] end)
  ++ omap part_of (split "/" path).

Definition MAX_ARCHIVE_BYTES : Z := 268435456.
Definition MAX_UNPACKED_BYTES : Z := 1073741824.
Definition MAX_ENTRIES : Z := 20000.
Definition MAX_MANIFEST_BYTES : Z := 65536.
Definition MANIFEST : string := "mica-app.json".
Definition TOP : list string := ["files"; "units"; "hooks"].

(** What is on the disk below the directory a bundle is unpacked into, by its
    path from there; and whether a call went through a link, wherever that
    leads. *)
Inductive Node := Directory | File (mode : Z) (content : bytes) | Link (target : string).
Notation tree := (gmap (list string) Node).
Record Dest := { ds_tree : tree; ds_elsewhere : bool }.
Definition is_link (n : option Node) : bool := match n with Some (Link _) => true | _ => false end.
(** The proper prefixes of a path, the top first. *)
Definition above (path : list string) : list (list string) := map (λ k, take k path) (seq 1 (pred (length path))).
Definition through (t : tree) (path : list string) : bool := existsb (λ p, is_link (t !! p)) (above path).
(** Change the file at a path, unless its directory is elsewhere. *)
Definition at_path (path : list string) (f : tree → tree) (d : Dest) : Dest :=
  if through (ds_tree d) path then {| ds_tree := ds_tree d; ds_elsewhere := true |} else {| ds_tree := f (ds_tree d); ds_elsewhere := ds_elsewhere d |}.

(** Why a bundle is refused. *)
Inductive Refusal := Invalid (problems : list Problem) | RefusalIo (message : string).
Definition refused {A} (rule detail : string) : Refusal + A := inl (Invalid [problem rule detail]).

(** A member as the tar reader gives it: its header, and the bytes reading its
    data gives, with whether that was all of them. *)
Inductive Kind := KindFile | KindDir | KindLink | KindOther.
#[export] Instance kind_eq : EqDecision Kind. Proof. solve_decision. Defined.
Record Member := { mb_path : string; mb_kind : Kind; mb_mode : result Z; mb_size : Z; mb_data : bytes * bool; mb_link : result (option string) }.

Fixpoint normal_parts (l : list Component) : option (list string) :=
  match l with
  | [] => Some []
  | Normal part :: l => cons part <$> normal_parts l
  | CurDir :: l => normal_parts l
  | _ :: _ => None
  end.
Definition member_path (raw : string) : option (list string) :=
  match normal_parts (components raw) with Some (part :: rest) => Some (part :: rest) | _ => None end.
Fixpoint stays_from (depth : Z) (l : list Component) : bool :=
  match l with
  | [] => true
  | Normal _ :: l => stays_from (depth + 1) l
  | CurDir :: l => stays_from depth l
  | ParentDir :: l => if depth =? 0 then false else stays_from (depth - 1) l
  | RootDir :: _ => false
  end.
Definition link_stays_inside (member : list string) (link : string) : bool :=
  if starts_with "/" link || is_empty link then false else stays_from (len member - 1) (components link).

(** * Unpacking *)

(** [DirBuilder::recursive(true).create]: each directory of a path that is not
    there; [leads]: whether a link leads to a directory. *)
Section unpack.
Context (leads : list string → bool).
Fixpoint make_dirs (paths : list (list string)) (d : Dest) : (string + unit) * Dest :=
  match paths with
  | [] => (inr tt, d)
  | p :: rest =>
      match ds_tree d !! p with
      | None => make_dirs rest (at_path p <[p := Directory]> d)
      | Some Directory => make_dirs rest d
      | Some (File _ _) => (inl "not a directory", d)
      | Some (Link _) => if leads p then make_dirs rest d else (inl "not a directory", d)
      end
  end.
Definition create_dirs (path : list string) : Dest → (string + unit) * Dest := make_dirs (above path ++ [path]).

(** What a loop over the members holds. *)
Record Unpacking := { up_dest : Dest; up_problems : list Problem; up_entries : Z; up_bytes : Z }.
Definition noted (rule detail : string) (u : Unpacking) : Unpacking :=
  {| up_dest := up_dest u; up_problems := up_problems u ++ [problem rule detail]; up_entries := up_entries u; up_bytes := up_bytes u |}.
Definition with_dest (d : Dest) (u : Unpacking) : Unpacking :=
  {| up_dest := d; up_problems := up_problems u; up_entries := up_entries u; up_bytes := up_bytes u |}.
Definition with_bytes (n : Z) (u : Unpacking) : Unpacking :=
  {| up_dest := up_dest u; up_problems := up_problems u; up_entries := up_entries u; up_bytes := n |}.
Definition counted (u : Unpacking) : Unpacking :=
  {| up_dest := up_dest u; up_problems := up_problems u; up_entries := up_entries u + 1; up_bytes := up_bytes u |}.
Definition allowed (kind : Kind) (path : list string) : bool :=
  let top := default "" (head path) in
  if len path =? 1
  then bool_decide (top = MANIFEST) && bool_decide (kind = KindFile) || bool_decide (top ∈ TOP) && bool_decide (kind = KindDir)
  else bool_decide (top ∈ TOP).

(** A file's data, written under a private mode and then given the member's. *)
Definition unpack_file (mb : Member) (mode : Z) (path : list string) (u : Unpacking) : (Refusal + unit) * Unpacking :=
  let u := with_bytes (wrap64 (up_bytes u + mb_size mb)) u in
  if MAX_UNPACKED_BYTES <? up_bytes u then (refused "too_large" "the bundle unpacks to more than 1024 MiB", u)
  else if bool_decide (default "" (head path) = MANIFEST) && (MAX_MANIFEST_BYTES <? mb_size mb)
  then (inr tt, noted "manifest" "mica-app.json is above 64 KiB" u)
  else
    match ds_tree (up_dest u) !! path with
    | Some _ => (refused "manifest" "is in the bundle twice", u)
    | None =>
        let '(data, whole) := mb_data mb in
        if whole then (inr tt, with_dest (at_path path <[path := File (Z.land mode 493) data]> (up_dest u)) u)
        else (inl (RefusalIo "write"), with_dest (at_path path <[path := File 384 data]> (up_dest u)) u)
    end.
Definition unpack_link (mb : Member) (path : list string) (u : Unpacking) : (Refusal + unit) * Unpacking :=
  match mb_link mb with
  | Err _ => (inl (RefusalIo "read a link"), u)
  | Ok link =>
      let link := default "" link in
      if negb (link_stays_inside path link) then (inr tt, noted "link_outside" "points outside the bundle" u)
      else
        match ds_tree (up_dest u) !! path with
        | Some _ => (inl (RefusalIo "link"), u)
        | None => (inr tt, with_dest (at_path path <[path := Link link]> (up_dest u)) u)
        end
  end.
Definition unpack_member (mb : Member) (u : Unpacking) : (Refusal + unit) * Unpacking :=
  let u := counted u in
  if MAX_ENTRIES <? up_entries u then (refused "too_many" "more than 20000 members", u)
  else
    match member_path (mb_path mb) with
    | None => (inr tt, noted "path_outside" "leaves the bundle" u)
    | Some path =>
        match mb_mode mb with
        | Err _ => (inl (RefusalIo "read a member's mode"), u)
        | Ok mode =>
            if negb (Z.land mode 3072 =? 0) then (inr tt, noted "setuid" "is setuid or setgid" u)
            else if negb (allowed (mb_kind mb) path) then (inr tt, noted "path_outside" "is outside mica-app.json, files/, units/ and hooks/" u)
            else if through (ds_tree (up_dest u)) path then (inr tt, noted "link_outside" "is under a link" u)
            else
              let '(made, d) := make_dirs (above path) (up_dest u) in
              let u := with_dest d u in
              match made with
              | inl e => (inl (RefusalIo e), u)
              | inr _ =>
                  match mb_kind mb with
                  | KindDir =>
                      let '(made, d) := create_dirs path (up_dest u) in
                      (match made with inl e => inl (RefusalIo e) | inr _ => inr tt end, with_dest d u)
                  | KindFile => unpack_file mb mode path u
                  | KindLink => unpack_link mb path u
                  | KindOther => (inr tt, noted "special_file" "is not a file, a directory or a symbolic link" u)
                  end
              end
        end
    end.
Fixpoint unpack_members (members : list (result Member)) (u : Unpacking) : (Refusal + unit) * Unpacking :=
  match members with
  | [] => (inr tt, u)
  | Err _ :: _ => (inl (RefusalIo "read the bundle"), u)
  | Ok mb :: rest =>
      match unpack_member mb u with
      | (inl e, u) => (inl e, u)
      | (inr _, u) => unpack_members rest u
      end
  end.
End unpack.

(** * Looking at what was unpacked *)

(** Where a path leads, its links followed as Linux follows them ([last]: the
    last part's too), or that it leaves the directory; at the link after the
    fortieth the kernel answers an error. *)
Inductive Place := Inside (path : list string) | Outside | Nowhere.
#[export] Instance place_eq : EqDecision Place. Proof. solve_decision. Defined.
Fixpoint resolve (links : nat) (t : tree) (last : bool) : list string → list Component → Place :=
  fix walk cur todo :=
    match todo with
    | [] => Inside cur
    | RootDir :: _ => Outside
    | CurDir :: todo => walk cur todo
    | ParentDir :: todo => match cur with [] => Outside | _ => walk (removelast cur) todo end
    | Normal part :: todo =>
        match t !! (cur ++ [part]) with
        | Some (Link target) =>
            if is_nil todo && negb last then Inside (cur ++ [part])
            else
              match links with
              | O => Nowhere
              | S links => if starts_with "/" target then Outside else resolve links t last cur (components target ++ todo)
              end
        | Some Directory => walk (cur ++ [part]) todo
        | _ => if is_nil todo then Inside (cur ++ [part]) else Nowhere
        end
    end.
Definition LINKS : nat := 40.
(** [symlink_metadata]; [elsewhere]: what is at a path that leaves. *)
Definition symlink_metadata (elsewhere : string → option Node) (t : tree) (path : string) : option Node :=
  match resolve LINKS t false [] (components path) with
  | Inside p => t !! p
  | Outside => elsewhere path
  | Nowhere => None
  end.
Definition is_file (n : option Node) : bool := match n with Some (File _ _) => true | _ => false end.
Definition is_executable (n : option Node) : bool := match n with Some (File mode _) => negb (Z.land mode 64 =? 0) | _ => false end.

(** The JSON of a manifest: [serde_json] over the manifest's derives. *)
Class ManifestJson := { manifest_of : bytes → result Manifest }.

Section bundle.
Context `{UR : Urls} `{MJ : ManifestJson} (elsewhere : string → option Node).

Definition check_files (m : Manifest) (t : tree) (init : Init) : list Problem :=
  concat (map (λ name, fail_if (negb (is_file (symlink_metadata elsewhere t ("units/" +:+ init_str init +:+ "/" +:+ name)))) "manifest" "a unit is not in the bundle")
    (omap (side init) (mf_units m)))
  ++ match mf_first_run m with
     | Some hook => fail_if (negb (is_executable (symlink_metadata elsewhere t hook))) "manifest" "firstRun is not an executable file in the bundle"
     | None => []
     end
  ++ concat (map (λ s, match head (as_exec s) with
                       | Some file => fail_if (is_bundle_file file && negb (is_executable (symlink_metadata elsewhere t file))) "manifest"
                                        "service runs what is not an executable file in the bundle"
                       | None => []
                       end) (mf_services m))
  ++ fail_if (bool_decide (pv_user (mf_privileges m) = AsApp) && is_nil (mf_units m) && bool_decide (is_Some (t !! ["units"]))) "units_need_root"
       "units/ is for an app that runs as root".
Definition check (m : Manifest) (t : tree) (init : Init) (arch : string) : list Problem := check_fields m init arch ++ check_files m t init.

Definition read_manifest (t : tree) : Refusal + Manifest :=
  match t !! [MANIFEST] with
  | None => refused "manifest" "the bundle has no mica-app.json"
  | Some (File _ text) => match manifest_of text with Ok m => inr m | Err _ => refused "manifest" "mica-app.json" end
  | Some _ => inl (RefusalIo "read mica-app.json")
  end.

(** An archive: its size, its digest where it can be read, and its members. *)
Record Archive := { ar_size : Z; ar_sha256 : string; ar_members : list (result Member) }.
Record Unpacked := { un_manifest : Manifest; un_sha256 : string }.
Definition empty_dest : Unpacking := {| up_dest := {| ds_tree := ∅; ds_elsewhere := false |}; up_problems := []; up_entries := 0; up_bytes := 0 |}.
(** [unpack] into a directory it makes. *)
Definition unpack (leads : list string → bool) (ar : Archive) (init : Init) (arch : string) : (Refusal + Unpacked) * Unpacking :=
  if MAX_ARCHIVE_BYTES <? ar_size ar then (refused "too_large" "the bundle is above 256 MiB", empty_dest)
  else
    match unpack_members leads (ar_members ar) empty_dest with
    | (inl e, u) => (inl e, u)
    | (inr _, u) =>
        (if negb (is_nil (up_problems u)) then inl (Invalid (up_problems u))
         else match read_manifest (ds_tree (up_dest u)) with
              | inl e => inl e
              | inr m =>
                  let problems := check m (ds_tree (up_dest u)) init arch in
                  if negb (is_nil problems) then inl (Invalid problems) else inr {| un_manifest := m; un_sha256 := ar_sha256 ar |}
              end, u)
    end.

(** What the headers say, to the first that passes the bound. *)
Fixpoint unpacked_size_from (total : Z) (members : list (result Member)) : Refusal + Z :=
  match members with
  | [] => inr total
  | Err _ :: _ => inl (RefusalIo "read the bundle")
  | Ok mb :: rest =>
      let total := Z.min U64_MAX (total + mb_size mb) in
      if MAX_UNPACKED_BYTES <? total then inr total else unpacked_size_from total rest
  end.
Definition unpacked_size (ar : Archive) : Refusal + Z := unpacked_size_from 0 (ar_members ar).
Definition ensure_room (free : Z) (ar : Archive) : Refusal + unit :=
  match unpacked_size ar with
  | inl e => inl e
  | inr needed => if free <? needed then refused "too_large" "the bundle does not fit" else inr tt
  end.

(** The manifest without unpacking: the first member of its name, among the
    first 20000. *)
Fixpoint peek_from (n : nat) (members : list (result Member)) : Refusal + Manifest :=
  match n, members with
  | O, _ | _, [] => refused "manifest" "the bundle has no mica-app.json"
  | S _, Err _ :: _ => refused "manifest" "not a gzip tar"
  | S n, Ok mb :: rest =>
      if bool_decide (member_path (mb_path mb) = Some [MANIFEST]) then
        let '(data, whole) := mb_data mb in
        let text := take (Z.to_nat (MAX_MANIFEST_BYTES + 1)) data in
        if MAX_MANIFEST_BYTES <? len text then refused "manifest" "mica-app.json is above 64 KiB"
        else if negb whole then inl (RefusalIo "read mica-app.json")
        else match manifest_of text with Ok m => inr m | Err _ => refused "manifest" "mica-app.json" end
      else peek_from n rest
  end.
Definition peek_manifest (ar : Archive) : Refusal + Manifest :=
  if MAX_ARCHIVE_BYTES <? ar_size ar then refused "too_large" "the bundle is above 256 MiB"
  else peek_from (Z.to_nat MAX_ENTRIES) (ar_members ar).
End bundle.

(** * What a bundle leaves *)

Definition node_len (n : Node) : Z := match n with File _ content => len content | _ => 0 end.
Definition total (t : tree) : Z := map_fold (λ _ n acc, node_len n + acc) 0 t.
(** A name a directory can hold. *)
Definition good_part (part : string) : Prop := part ≠ "" ∧ part ≠ "." ∧ part ≠ ".." ∧ contains_byte "/" part = false.
Definition node_ok (path : list string) (n : Node) : Prop :=
  match n with
  | File mode _ => 0 ≤ mode ∧ Z.land mode 493 = mode ∨ mode = 384
  | Link target => link_stays_inside path target = true
  | Directory => True
  end.
(** A file of the bundle: the manifest, or below one of the three directories,
    under real directories alone. *)
Record placed (t : tree) (path : list string) (n : Node) : Prop := {
  pl_parts : Forall good_part path;
  pl_top : path = [MANIFEST] ∧ is_file (Some n) = true ∨ ∃ top rest, path = top :: rest ∧ top ∈ TOP ∧ (rest = [] → n = Directory);
  pl_above q : q ∈ above path → t !! q = Some Directory;
  pl_node : node_ok path n;
}.
Definition confined (t : tree) : Prop := ∀ path n, t !! path = Some n → placed t path n.
Definition dest_ok (d : Dest) : Prop := ds_elsewhere d = false ∧ confined (ds_tree d).

Lemma above_elem q path : q ∈ above path ↔ ∃ k, (1 ≤ k < length path)%nat ∧ q = take k path.
Proof.
  unfold above. rewrite list_elem_of_fmap. split.
  - intros (k & -> & H%elem_of_seq). exists k. split; [lia|done].
  - intros (k & H & ->). exists k. split; [done|]. apply elem_of_seq. lia.
Qed.
Lemma above_take k path q : (k ≤ length path)%nat → q ∈ above (take k path) → q ∈ above path ∧ ∃ j, (1 ≤ j < k)%nat ∧ q = take j path.
Proof.
  intros Hk (j & Hj & ->)%above_elem. rewrite length_take in Hj. rewrite take_take. replace (j `min` k)%nat with j by lia. split; [apply above_elem|]; exists j; split; lia || done.
Qed.
Lemma through_false t path : through t path = false ↔ ∀ q, q ∈ above path → is_link (t !! q) = false.
Proof.
  unfold through. split.
  - intros H q Hq. apply not_true_iff_false in H. destruct (is_link (t !! q)) eqn:E; [|done]. exfalso. apply H, existsb_exists. exists q. split; [by apply list_elem_of_In|done].
  - intros H. apply not_true_iff_false. intros (q & Hq & E)%existsb_exists. apply list_elem_of_In in Hq. by rewrite (H q Hq) in E.
Qed.
(** A fresh file in a real directory. *)
Lemma node_insert_ok d path n : dest_ok d → ds_tree d !! path = None → placed (ds_tree d) path n → dest_ok (at_path path <[path := n]> d) ∧ ds_tree (at_path path <[path := n]> d) = <[path := n]> (ds_tree d).
Proof.
  intros [He Hc] Hn Hp. assert (Ht : through (ds_tree d) path = false) by (apply through_false; intros q Hq; by rewrite (pl_above _ _ _ Hp q Hq)).
  unfold at_path. rewrite Ht. cbn [ds_tree]. split; [|done]. split; [done|]. cbn [ds_tree]. intros p' n' Hp'.
  assert (Hk : ∀ q, ds_tree d !! q = Some Directory → <[path := n]> (ds_tree d) !! q = Some Directory) by (intros q Hq; rewrite lookup_insert_ne; [done|congruence]).
  destruct (decide (p' = path)) as [->|N].
  - rewrite lookup_insert_eq in Hp'. injection Hp' as <-. destruct Hp as [H1 H2 H3 H4]. split; [done..| |done]. intros q Hq. by apply Hk, H3.
  - rewrite lookup_insert_ne in Hp' by done. destruct (Hc _ _ Hp') as [H1 H2 H3 H4]. split; [done..| |done]. intros q Hq. by apply Hk, H3.
Qed.
Lemma total_insert t path n : t !! path = None → total (<[path := n]> t) = node_len n + total t.
Proof. intros H. unfold total. rewrite map_fold_insert_L; [done| |done]. intros. lia. Qed.

(** Members go under the three directories. *)
Definition goes (path : list string) : Prop := Forall good_part path ∧ ∃ top rest, path = top :: rest ∧ top ∈ TOP.
Lemma goes_take path k : (1 ≤ k)%nat → goes path → goes (take k path).
Proof.
  intros Hk [H1 (top & rest & -> & H2)]. split; [by apply Forall_take|]. destruct k as [|k]; [lia|]. by exists top, (take k rest).
Qed.
Lemma make_dirs_ok leads path : goes path → ∀ n i d, (1 ≤ i)%nat → (i + n ≤ S (length path))%nat → dest_ok d → through (ds_tree d) path = false →
  (∀ j, (1 ≤ j < i)%nat → ds_tree d !! take j path = Some Directory) →
  let '(made, d') := make_dirs leads (map (λ k, take k path) (seq i n)) d in
  dest_ok d' ∧ total (ds_tree d') = total (ds_tree d) ∧ through (ds_tree d') path = false ∧ (made = inr tt → ∀ j, (1 ≤ j < i + n)%nat → (j < length path)%nat → ds_tree d' !! take j path = Some Directory)
  ∧ ∀ q, ds_tree d' !! q ≠ None → ds_tree d !! q ≠ None ∨ ∃ k, (k < i + n)%nat ∧ q = take k path.
Proof.
  intros Hg. induction n as [|n IH]; intros i d Hi Hl Hd Ht Hj; cbn [seq map make_dirs].
  { split_and!; [done..| |by left]. intros _ j Hj'. intros _. apply Hj. lia. }
  destruct (ds_tree d !! take i path) as [[|mode content|target]|] eqn:E.
  - specialize (IH (S i) d ltac:(lia) ltac:(lia) Hd Ht). replace (S i + n)%nat with (i + S n)%nat in IH by lia. apply IH.
    intros j Hj'. destruct (decide (j = i)) as [->|]; [done|]. apply Hj. lia.
  - split_and!; [done..|by left].
  - destruct (decide (i < length path)%nat) as [Hlt|Hge].
    + exfalso. rewrite through_false in Ht. specialize (Ht (take i path) ltac:(apply above_elem; exists i; split; lia || done)). by rewrite E in Ht.
    + assert (n = 0%nat) as -> by lia. cbn [seq map make_dirs]. destruct (leads (take i path)); (split_and!; [done..| |by left]); [|done].
      intros _ j Hj1 Hj2. apply Hj. lia.
  - assert (Hp : placed (ds_tree d) (take i path) Directory).
    { destruct (goes_take path i Hi Hg) as [H1 (top & rest & E' & H2)]. split; [done| | |done].
      - right. by exists top, rest.
      - intros q Hq. destruct (above_take i path q) as [_ (j & Hj' & ->)]; [lia|done|]. by apply Hj. }
    destruct (node_insert_ok d _ Directory Hd E Hp) as [Hd' Ht'].
    assert (Hthr : through (ds_tree (at_path (take i path) <[take i path := Directory]> d)) path = false).
    { rewrite Ht'. rewrite through_false in Ht |- *. intros q Hq. destruct (decide (q = take i path)) as [->|N]; [by rewrite lookup_insert_eq|rewrite lookup_insert_ne by done; by apply Ht]. }
    specialize (IH (S i) _ ltac:(lia) ltac:(lia) Hd' Hthr). replace (S i + n)%nat with (i + S n)%nat in IH by lia.
    assert (Hj'' : ∀ j, (1 ≤ j < S i)%nat → ds_tree (at_path (take i path) <[take i path := Directory]> d) !! take j path = Some Directory).
    { rewrite Ht'. intros j Hj'. destruct (decide (take j path = take i path)) as [->|N]; [by rewrite lookup_insert_eq|]. rewrite lookup_insert_ne by done. apply Hj.
      destruct (decide (j = i)); [by subst|lia]. }
    specialize (IH Hj''). destruct (make_dirs leads (map (λ k, take k path) (seq (S i) n)) _) as [made d']. destruct IH as (I1 & I2 & I3 & I4 & I5). split_and!; [done| |done|done|].
    + rewrite I2, Ht', total_insert by done. cbn. lia.
    + intros q Hq. destruct (I5 q Hq) as [H|H]; [|by right]. rewrite Ht' in H. destruct (decide (q = take i path)) as [->|N]; [right; exists i; split; [lia|done]|left]. by rewrite lookup_insert_ne in H.
Qed.

Lemma split_parts c s x : x ∈ split c s → contains_byte c x = false.
Proof.
  induction s as [|d s IH] in x |- *; cbn [split]; [intros ->%list_elem_of_singleton; done|]. case_bool_decide as E.
  - intros [->|H]%elem_of_cons; [done|by apply IH].
  - destruct (split c s) as [|h t] eqn:Es; [by destruct (split_nonempty c s)|]. intros [->|H]%elem_of_cons.
    + cbn. rewrite bool_decide_eq_false_2 by congruence. apply IH. by left.
    + apply IH. by right.
Qed.
Lemma normal_parts_good l path : (∀ part, Normal part ∈ l → good_part part) → normal_parts l = Some path → Forall good_part path.
Proof.
  revert path. induction l as [|c l IH]; intros path Hl; cbn; [intros [= <-]; constructor|]. destruct c as [| | |part]; try done.
  - intros H. apply (IH path); [|done]. intros q Hq. apply Hl. by right.
  - destruct (normal_parts l) as [r|] eqn:E; cbn; [|done]. intros [= <-]. constructor; [apply Hl; by left|]. apply (IH r); [|done]. intros q Hq. apply Hl. by right.
Qed.
Lemma member_path_good raw path : member_path raw = Some path → Forall good_part path ∧ path ≠ [].
Proof.
  unfold member_path. destruct (normal_parts (components raw)) as [[|p l]|] eqn:E; try done. intros [= <-]. split; [|done]. eapply normal_parts_good; [|exact E].
  intros part Hp. unfold components in Hp. apply elem_of_app in Hp as [Hp|Hp].
  - destruct (starts_with _ _); [by apply list_elem_of_singleton in Hp|]. destruct (split "/" raw); [by apply elem_of_nil in Hp|]. case_bool_decide; [by apply list_elem_of_singleton in Hp|by apply elem_of_nil in Hp].
  - apply list_elem_of_omap in Hp as (x & Hx & Ho). unfold part_of in Ho. destruct (is_empty x) eqn:Ee; cbn in Ho; [done|]. case_bool_decide; [done|]. case_bool_decide; [done|].
    injection Ho as ->. split_and!; [by intros ->|done|done|by eapply split_parts].
Qed.
Lemma allowed_goes kind path : Forall good_part path → path ≠ [] → allowed kind path = true → path = [MANIFEST] ∧ kind = KindFile ∨ goes path ∧ (length path = 1%nat → kind = KindDir).
Proof.
  intros Hg Hn. unfold allowed. destruct path as [|top rest]; [done|]. cbn [head default]. case_match eqn:El; unfold id.
  - apply Z.eqb_eq in El. assert (rest = []) as ->. { destruct rest; [done|]. unfold len in El. cbn in El. lia. }
    intros H. apply orb_true_iff in H as [H|H]; apply andb_true_iff in H as [H1 H2]; apply bool_decide_eq_true in H1, H2; subst; [by left|right]. split; [|done]. split; [done|]. by exists top, [].
  - intros H%bool_decide_eq_true. right. split; [split; [done|by exists top, rest]|]. intros Hl. cbn in Hl. apply Z.eqb_neq in El. unfold len in El. cbn in El. lia.
Qed.

(** A member a tar reader can give: its data is at most its size; and the
    members' sizes, which it adds up to offsets that it checks. *)
Definition member_ok (mb : Member) : Prop :=
  0 ≤ mb_size mb ∧ len (mb_data mb).1 ≤ mb_size mb ∧ ∀ mode, mb_mode mb = Ok mode → 0 ≤ mode.
Definition sizes (members : list (result Member)) : Z := foldr (λ mb n, match mb with Ok mb => mb_size mb + n | Err _ => n end) 0 members.
Definition left_ok (u : Unpacking) : Prop := dest_ok (up_dest u) ∧ total (ds_tree (up_dest u)) ≤ MAX_UNPACKED_BYTES.
Definition going (u : Unpacking) : Prop := dest_ok (up_dest u) ∧ total (ds_tree (up_dest u)) ≤ up_bytes u ∧ 0 ≤ up_bytes u ≤ MAX_UNPACKED_BYTES.
Lemma going_left u : going u → left_ok u.
Proof. intros (H1 & H2 & H3). split; [done|]. lia. Qed.
(** What a step leaves, its files at most [n] bytes if it goes on. *)
Definition kept (n : Z) (r : (Refusal + unit) * Unpacking) : Prop := left_ok r.2 ∧ (r.1 = inr tt → going r.2 ∧ up_bytes r.2 ≤ n).
Lemma kept_noted n rule detail u : going u → up_bytes u ≤ n → kept n (inr tt, noted rule detail u).
Proof. intros H Hn. split; [by apply going_left in H|]. by intros _. Qed.
Lemma kept_refused n e u : left_ok u → kept n (inl e, u).
Proof. intros H. by split. Qed.
Lemma mode_ok mode : 0 ≤ mode → 0 ≤ Z.land mode 493 ∧ Z.land (Z.land mode 493) 493 = Z.land mode 493.
Proof. intros H. split; [apply Z.land_nonneg; by left|]. by rewrite <-Z.land_assoc, Z.land_diag. Qed.
Lemma unpack_file_kept mb mode path u : member_ok mb → up_bytes u + mb_size mb ≤ U64_MAX → 0 ≤ mode → going u → Forall good_part path →
  path = [MANIFEST] ∨ goes path ∧ length path ≠ 1%nat → (∀ q, q ∈ above path → ds_tree (up_dest u) !! q = Some Directory) → kept (up_bytes u + mb_size mb) (unpack_file mb mode path u).
Proof.
  intros (Hs & Hdata & _) Hfit Hm (Hd & Ht & Hb) Hg Hp Ha. unfold unpack_file. cbn [up_bytes with_bytes].
  assert (Hw : wrap64 (up_bytes u + mb_size mb) = up_bytes u + mb_size mb) by (apply wrap64_small; unfold is_u64; lia). rewrite Hw.
  destruct (MAX_UNPACKED_BYTES <? _) eqn:El; [apply kept_refused; split; [done|cbn; lia]|]. apply Z.ltb_ge in El.
  assert (Hgo : going (with_bytes (up_bytes u + mb_size mb) u)) by (split_and!; [done|cbn; lia..]).
  destruct (_ && _); [by apply kept_noted|]. cbn [up_dest with_bytes]. destruct (ds_tree (up_dest u) !! path) eqn:E; [by apply kept_refused, going_left|].
  assert (Hpl : ∀ m c, node_ok path (File m c) → placed (ds_tree (up_dest u)) path (File m c)).
  { intros m c Hn. split; [done| |done|done]. destruct Hp as [->|[(_ & top & rest & -> & Hin) Hlen]]; [by left|right]. exists top, rest. split_and!; [done|done|]. intros ->. by destruct Hlen. }
  destruct (mb_data mb) as [data [|]]; cbn [fst] in Hdata.
  - destruct (node_insert_ok (up_dest u) path (File (Z.land mode 493) data) Hd E) as [Hd' Ht']; [apply Hpl; left; by apply mode_ok|].
    assert (Hgo' : going (with_dest (at_path path <[path := File (Z.land mode 493) data]> (up_dest u)) (with_bytes (up_bytes u + mb_size mb) u))).
    { split_and!; [done| |cbn; lia..]. cbn [up_dest with_dest up_bytes with_bytes]. rewrite Ht', total_insert by done. cbn [node_len]. lia. }
    split; [by apply going_left|]. intros _. by split.
  - destruct (node_insert_ok (up_dest u) path (File 384 data) Hd E) as [Hd' Ht']; [apply Hpl; by right|]. apply kept_refused. split; [done|]. cbn [up_dest with_dest]. rewrite Ht', total_insert by done. cbn [node_len]. lia.
Qed.
Lemma unpack_link_kept mb path u : going u → goes path → length path ≠ 1%nat → (∀ q, q ∈ above path → ds_tree (up_dest u) !! q = Some Directory) → kept (up_bytes u) (unpack_link mb path u).
Proof.
  intros Hgo [Hg (top & rest & -> & Hin)] Hlen Ha. unfold unpack_link. destruct (mb_link mb) as [link|e]; [|by apply kept_refused, going_left].
  destruct (link_stays_inside (top :: rest) (default "" link)) eqn:El; cbn [negb]; [|by apply kept_noted].
  destruct (ds_tree (up_dest u) !! (top :: rest)) eqn:E; [by apply kept_refused, going_left|]. destruct Hgo as (Hd & Ht & Hb).
  destruct (node_insert_ok (up_dest u) (top :: rest) (Link (default "" link)) Hd E) as [Hd' Ht'].
  { split; [done| |done|done]. right. exists top, rest. split_and!; [done|done|]. intros ->. by destruct Hlen. }
  assert (Hgo : going (with_dest (at_path (top :: rest) <[top :: rest := Link (default "" link)]> (up_dest u)) u)).
  { split_and!; [done| |cbn; lia..]. cbn [up_dest with_dest up_bytes]. rewrite Ht', total_insert by done. cbn. lia. }
  split; [by apply going_left|]. intros _. by split.
Qed.
Lemma kept_up n n' r : n ≤ n' → kept n r → kept n' r.
Proof. intros Hn [H1 H2]. split; [done|]. intros E. destruct (H2 E) as [H3 H4]. split; [done|lia]. Qed.
Lemma unpack_member_kept leads mb u : member_ok mb → up_bytes u + mb_size mb ≤ U64_MAX → going u → kept (up_bytes u + mb_size mb) (unpack_member leads mb u).
Proof.
  intros Hmb Hfit Hgo. assert (Hsize : 0 ≤ mb_size mb) by (destruct Hmb; lia). unfold unpack_member. assert (Hc : going (counted u)) by done. destruct (MAX_ENTRIES <? _); [by apply kept_refused, going_left|].
  destruct (member_path (mb_path mb)) as [path|] eqn:Ep; [|apply kept_noted; [done|cbn; lia]]. destruct (member_path_good _ _ Ep) as [Hg Hn].
  destruct (mb_mode mb) as [mode|e] eqn:Em; [|by apply kept_refused, going_left]. destruct (negb (Z.land mode 3072 =? 0)); [apply kept_noted; [done|cbn; lia]|].
  destruct (allowed (mb_kind mb) path) eqn:Ea; cbn [negb]; [|apply kept_noted; [done|cbn; lia]]. destruct (through _ path) eqn:Et; [apply kept_noted; [done|cbn; lia]|].
  assert (Hmode : 0 ≤ mode) by by eapply (proj2 (proj2 Hmb)).
  destruct (allowed_goes _ _ Hg Hn Ea) as [[-> Hk]|[Hgp Hlen]].
  { cbn [above map seq pred length make_dirs]. rewrite Hk. apply (unpack_file_kept mb mode [MANIFEST] (counted u)); [done..|by left|by intros q Hq%elem_of_nil]. }
  destruct Hc as (Hd & Htot & Hb). pose proof (make_dirs_ok leads path Hgp (pred (length path)) 1 (up_dest (counted u)) ltac:(lia) ltac:(destruct path; cbn; lia) Hd Et ltac:(lia)) as Hmk.
  fold (above path) in Hmk. change (map (λ k, take k path) (seq 1 (pred (length path)))) with (above path) in Hmk.
  destruct (make_dirs leads (above path) (up_dest (counted u))) as [made d]. destruct Hmk as (M1 & M2 & M3 & M4 & _).
  assert (Hgo' : going (with_dest d (counted u))) by (split_and!; [done|cbn in *; lia..]). destruct made as [e|[]]; [by apply kept_refused, going_left|].
  assert (Hab : ∀ q, q ∈ above path → ds_tree (up_dest (with_dest d (counted u))) !! q = Some Directory).
  { intros q (k & Hk & ->)%above_elem. cbn. apply M4; [done|lia..]. }
  destruct (mb_kind mb) eqn:Ekind.
  - apply (unpack_file_kept mb mode path (with_dest d (counted u))); [done..| |done]. right. split; [done|]. intros H1. by specialize (Hlen H1).
  - unfold create_dirs. cbn [up_dest with_dest].
    pose proof (make_dirs_ok leads path Hgp (length path) 1 d ltac:(lia) ltac:(lia) M1 M3 ltac:(lia)) as Hmk2.
    replace (map (λ k, take k path) (seq 1 (length path))) with (above path ++ [path]) in Hmk2.
    2: { unfold above. destruct path as [|a l]; [done|]. cbn [pred length]. rewrite seq_S, map_app. cbn [map]. f_equal. apply (f_equal (λ x, [x])). symmetry. apply (take_ge (a :: l)). cbn. lia. }
    destruct (make_dirs leads (above path ++ [path]) d) as [made2 d2]. destruct Hmk2 as (N1 & N2 & _).
    assert (Hgo2 : going (with_dest d2 (with_dest d (counted u)))) by (split_and!; [done|cbn in *; lia..]). destruct made2 as [e|[]]; [by apply kept_refused, going_left|]. split; [by apply going_left|]. intros _. split; [done|cbn; lia].
  - apply (kept_up (up_bytes (with_dest d (counted u)))); [cbn; lia|]. apply unpack_link_kept; [done..| |done]. intros H1. by specialize (Hlen H1).
  - apply kept_noted; [done|cbn; lia].
Qed.
Lemma unpack_members_kept leads members u : (∀ mb, Ok mb ∈ members → member_ok mb) → up_bytes u + sizes members ≤ U64_MAX → going u → left_ok (unpack_members leads members u).2.
Proof.
  revert u. induction members as [|[mb|e] members IH]; intros u Hm Hfit Hgo; cbn [unpack_members sizes foldr] in *; [by apply going_left| |by apply going_left].
  assert (Hpos : 0 ≤ sizes members).
  { assert (Hall : ∀ l, (∀ mb, Ok mb ∈ l → member_ok mb) → 0 ≤ sizes l); [|apply Hall; intros x Hx; apply Hm; by right].
    clear. induction l as [|[mb|] l IH]; intros Hl; cbn; [done| |apply IH; intros x Hx; apply Hl; by right].
    destruct (Hl mb ltac:(by left)) as [H _]. specialize (IH ltac:(intros x Hx; apply Hl; by right)). unfold sizes in IH. lia. }
  fold (sizes members) in *. pose proof (unpack_member_kept leads mb u (Hm mb ltac:(by left)) ltac:(lia) Hgo) as [H1 H2]. destruct (unpack_member leads mb u) as [[e|[]] u']; [done|].
  destruct (H2 eq_refl) as [H3 H4]. cbn [snd] in H4. apply IH; [intros x Hx; apply Hm; by right|lia|done].
Qed.

(** The files of a manifest that breaks no rule. *)
Lemma fail_if_guard a b rule detail : a = true → fail_if (a && negb b) rule detail = [] → b = true.
Proof. intros ->. by destruct b. Qed.
Lemma check_files_service `{UR : Urls} elsewhere m t init s file args : check_files elsewhere m t init = [] → s ∈ mf_services m → as_exec s = file :: args →
  is_bundle_file file = true → is_executable (symlink_metadata elsewhere t file) = true.
Proof.
  unfold check_files. intros H Hs He Hb. generalize (symlink_metadata elsewhere t) as meta, H. clear H. intros meta H.
  apply app_nil in H as [_ H]. apply app_nil in H as [_ H]. apply app_nil in H as [H _]. rewrite concat_map_nil in H. specialize (H s Hs). rewrite He in H.
  exact (fail_if_guard _ _ _ _ Hb H).
Qed.
Lemma check_files_runs `{UR : Urls} elsewhere m t init arch s file args : check elsewhere m t init arch = [] → s ∈ mf_services m → as_exec s = file :: args →
  is_executable (symlink_metadata elsewhere t file) = true.
Proof.
  unfold check. intros [Hf Hfiles]%app_nil Hs He. apply (check_files_service _ _ _ _ _ _ _ Hfiles Hs He).
  apply check_fields_accepted in Hf. destruct (sc_exec _ _ (ap_services _ _ Hf s Hs)) as (f & a & E & Hb). rewrite He in E. by injection E as <- <-.
Qed.
(** * Properties *)

(** C11: whatever the archive holds, and whether it is accepted, refused or
    breaks off, unpacking writes nothing through a link: every file is below
    the bundle's directory, under real directories, the manifest at the top or
    below files/, units/ or hooks/; no file is setuid, setgid or writable by
    others; the files' bytes stay within the bound. What is accepted broke no
    rule: its manifest is the one unpacked, and each service's file is there to
    run. *)
Theorem unpack_confined `{UR : Urls} `{MJ : ManifestJson} elsewhere leads ar init arch (Hm : ∀ mb, Ok mb ∈ ar_members ar → member_ok mb) (Hsizes : sizes (ar_members ar) ≤ U64_MAX) :
  let o := unpack elsewhere leads ar init arch in
  let t := ds_tree (up_dest o.2) in
  ds_elsewhere (up_dest o.2) = false ∧ confined t ∧ total t ≤ MAX_UNPACKED_BYTES
  ∧ ∀ un, o.1 = inr un →
      up_problems o.2 = [] ∧ accepted (un_manifest un) arch
      ∧ (∃ mode text, t !! [MANIFEST] = Some (File mode text) ∧ manifest_of text = Ok (un_manifest un))
      ∧ ∀ s file args, s ∈ mf_services (un_manifest un) → as_exec s = file :: args → is_executable (symlink_metadata elsewhere t file) = true.
Proof.
  cbv zeta. assert (Hgo : going empty_dest) by (split; [split; [done|intros p n H; cbn in H; by rewrite lookup_empty in H]|done]).
  pose proof (unpack_members_kept leads _ empty_dest Hm Hsizes Hgo) as Hl. unfold unpack.
  assert (Hempty : left_ok empty_dest) by by apply going_left. destruct (MAX_ARCHIVE_BYTES <? ar_size ar); [destruct Hempty as [[H1 H2] H3]; by split_and!|].
  destruct (unpack_members leads (ar_members ar) empty_dest) as [[e|[]] u]; cbn [fst snd] in *; destruct Hl as [[H1 H2] H3]; split_and!; try done.
  intros un. destruct (is_nil (up_problems u)) eqn:Ep; cbn [negb]; [|done]. apply is_nil_spec in Ep.
  destruct (read_manifest (ds_tree (up_dest u))) as [|m] eqn:Er; [done|]. destruct (is_nil (check elsewhere m (ds_tree (up_dest u)) init arch)) eqn:Ec; cbn [negb]; [|done].
  intros [= <-]. cbn [un_manifest]. apply is_nil_spec in Ec. split_and!; [done|unfold check in Ec; apply app_nil in Ec as [Hf _]; by eapply check_fields_accepted| |].
  - unfold read_manifest in Er. destruct (ds_tree (up_dest u) !! [MANIFEST]) as [[|mode text|]|]; try done. destruct (manifest_of text) as [m'|] eqn:Em; [|done]. injection Er as <-. by exists mode, text.
  - intros s file args. by apply check_files_runs with init arch.
Qed.

(** ** A bundle *)

Definition bench_service : Service := {| as_name := "demo"; as_exec := ["files/run"]; as_enable := true |}.
Definition bench_manifest : Manifest :=
  {| mf_schema_version := 1; mf_name := "demo"; mf_version := "1.0"; mf_arch := ["all"]; mf_description := ""; mf_units := []; mf_env := []; mf_first_run := None;
     mf_update := None; mf_seed_policy := FollowImage; mf_privileges := {| pv_user := AsApp; pv_capabilities := []; pv_devices := [] |};
     mf_services := [bench_service]; mf_mdns := [] |}.
Definition bench_urls : Urls := {| scheme_of := λ _, None |}.
Definition bench_json : ManifestJson := {| manifest_of := λ _, Ok bench_manifest |}.
Definition member (path : string) (kind : Kind) (mode : Z) (data link : string) : result Member :=
  Ok {| mb_path := path; mb_kind := kind; mb_mode := Ok mode; mb_size := str_len data; mb_data := (str_bytes data, true); mb_link := Ok (Some link) |}.
Definition bench_archive (more : list (result Member)) : Archive :=
  {| ar_size := 100; ar_sha256 := "s";
     ar_members := [member "./mica-app.json" KindFile 420 "{}" ""; member "files/run" KindFile 493 "x" ""; member "files/bin" KindLink 511 "" "run"] ++ more |}.
Lemma unpack_confined_witness :
  let o := unpack (UR := bench_urls) (MJ := bench_json) (λ _, None) (λ _, false) (bench_archive []) Systemd "arm64" in
  is_Some (match o.1 with inr un => Some un | inl _ => None end)
  ∧ ds_tree (up_dest o.2) !! ["files"; "run"] = Some (File 493 (str_bytes "x")) ∧ ds_elsewhere (up_dest o.2) = false.
Proof.
  intros o. assert (Hm : ∀ mb, Ok mb ∈ ar_members (bench_archive []) → member_ok mb).
  { intros mb H. repeat (apply elem_of_cons in H as [H|H]; [injection H as ->; split; [done|split; [done|by intros ? [= <-]]]|]). by apply elem_of_nil in H. }
  destruct (unpack_confined (UR := bench_urls) (MJ := bench_json) (λ _, None) (λ _, false) (bench_archive []) Systemd "arm64" Hm ltac:(done)) as (H1 & _).
  split; [by eexists|split; [by vm_compute|exact H1]].
Defined.

(** A link through another link is accepted although it leads outside: the
    test counts the parts of its text, not where they lead. *)
Definition escape : list (result Member) := [member "files/a" KindLink 511 "" "."; member "files/x" KindLink 511 "" "a/../../etc"].
Example link_leads_outside :
  let o := unpack (UR := bench_urls) (MJ := bench_json) (λ _, None) (λ _, false) (bench_archive escape) Systemd "arm64" in
  is_Some (match o.1 with inr un => Some un | inl _ => None end)
  ∧ resolve LINKS (ds_tree (up_dest o.2)) true [] (components "files/x") = Outside.
Proof. split; [by eexists|by vm_compute]. Qed.
End AppBundle.
