(* ===== verification/AppFlow.v ===== *)
(** Installing, upgrading, rolling back and removing apps
    ([src/crates/micad/src/apps.rs] and [apps/flow.rs]): the record of what is
    installed, the directories bundles are unpacked into, and what is asked of
    the init, [mica-unit], [mica-accounts] and the file system, each of which
    may fail at any call. *)
From Stdlib Require Import Ascii.
From S2P Require Import Prelude Text Effects Maps DebianVersion Chars Features SettingsModel AppManifest AppRender AppBundle.
Import Effects Features SettingsModel AppManifest AppRender AppBundle.

Module AppFlow.

(** * The record *)

Definition APPS_DIR : string := "/mica/apps".
Definition DATA_DIR : string := "/srv/apps".
Definition MAX_APPS : Z := 16.
Definition UID_BASE : Z := 30000.
Definition UID_COUNT : Z := 10000.
Definition HOOK_LOG_BYTES : Z := 65536.
Definition FAILED_STATE : string := "failed".

Record Installed := { in_version : string; in_sha256 : string; in_source : string; in_installed_at : string }.
Record LastResult := { lr_action : string; lr_outcome : string; lr_message : option string; lr_at : string }.
(** What a version file offers this device ([update.rs]). *)
Record Offer := { of_version : string; of_url : string; of_sha256 : string; of_size : Z }.
Record AskedPrivileges := { aq_version : string; aq_sha256 : string; aq_privileges : PrivilegeDelta }.
Record UpdateState := {
  up_checked_at : option string; up_latest : option Offer; up_error : option string; up_failed : option string; up_asked : option AskedPrivileges;
}.
Record AppEntry := { ae_current : Installed; ae_previous : option Installed; ae_first_run : smap Datatypes.unit; ae_last : option LastResult; ae_update : UpdateState }.
Record Record_ := { rc_apps : smap AppEntry; rc_uids : smap Z }.
(** [seed.rs]. *)
Record Seeded := { sd_version : string; sd_sha256 : string; sd_result : string; sd_error : option string; sd_failed_sha256 : option string; sd_tries : Z }.

Definition no_record : Record_ := {| rc_apps := []; rc_uids := [] |}.
Definition no_update : UpdateState := {| up_checked_at := None; up_latest := None; up_error := None; up_failed := None; up_asked := None |}.
Definition with_apps (apps : smap AppEntry) (r : Record_) : Record_ := {| rc_apps := apps; rc_uids := rc_uids r |}.
Definition with_uids (uids : smap Z) (r : Record_) : Record_ := {| rc_apps := rc_apps r; rc_uids := uids |}.
Definition with_last (l : LastResult) (e : AppEntry) : AppEntry :=
  {| ae_current := ae_current e; ae_previous := ae_previous e; ae_first_run := ae_first_run e; ae_last := Some l; ae_update := ae_update e |}.
Definition with_update (u : UpdateState) (e : AppEntry) : AppEntry :=
  {| ae_current := ae_current e; ae_previous := ae_previous e; ae_first_run := ae_first_run e; ae_last := ae_last e; ae_update := u |}.
Definition record_last (r : Record_) (name : string) (l : LastResult) : Record_ :=
  match smap_get name (rc_apps r) with Some e => with_apps (smap_insert name (with_last l e) (rc_apps r)) r | None => r end.

Inductive AppError :=
  | AppInvalid (problems : list Problem) | AppBusy | AppNotFound (message : string) | AppInstalled (message : string) | AppRefused (message : string)
  | AppPrivileges (message : string) (delta : PrivilegeDelta) | AppFailed (message : string).
Definition of_refusal (r : Refusal) : AppError := match r with Invalid problems => AppInvalid problems | RefusalIo message => AppFailed message end.
Fixpoint shown_problems (l : list Problem) : string :=
  match l with
  | [] => ""
  | [p] => pr_rule p +:+ ": " +:+ pr_detail p
  | p :: l => pr_rule p +:+ ": " +:+ pr_detail p +:+ "; " +:+ shown_problems l
  end.
Definition shown (e : AppError) : string :=
  match e with
  | AppInvalid problems => "the bundle is refused: " +:+ shown_problems problems
  | AppBusy => "another app change is running"
  | AppNotFound message | AppInstalled message | AppRefused message | AppPrivileges message _ | AppFailed message => message
  end.

(** * The system *)

(** What a flow asks of the programs and the disk, in the order it asks. *)
Inductive Call :=
  | Stop (unit : string) | Start (unit : string) | ActiveState (unit : string)
  | UnitInstall (file text : string) (conf : bool) | UnitList | UnitRemove (unit : string) | UnitEnable (unit : string) | UnitDisable (unit : string)
  | AccountAdd (account : string) (uid gid : Z) | AccountRemove (account : string)
  | Hook (program : list string) (vars : list (string * string)) | Logger (tag : string) (log : bytes)
  | MakeDir (path : string) | RemoveDir (path : string) | Chmod (path : string) | RemoveTree (path : string) | Move (from to : string)
  | LinkCurrent (name version : string) | WriteFile (path : string) | ReadMeta (path : string) | RemoveFile (path : string) | ChownTree (path : string) (owner : Z)
  | WriteRecord | WriteSeeds | FetchTo (url path : string) (limit : Z).

(** What a first-run hook did. *)
Inductive HookRun := HookTimeout | HookError (message : string) | HookDone (stdout stderr : bytes) (success : bool).
(** What a fetch left in its file. *)
Record Fetched := { fe_text : bytes; fe_archive : Archive }.

(** The device below micad. An answer may depend on every call before it. *)
Class System := {
  (** Whether the daemon keeps apps: [Apps::root]. *)
  sy_root : bool;
  sy_init : Init;
  sy_arch : string;
  (** micad's own user and group. *)
  sy_euid : Z;
  sy_egid : Z;
  sy_logger : bool;
  (** [mica-unit] and [mica-accounts] are there. *)
  sy_units : bool;
  sy_accounts : bool;
  sy_shipped : string → bool;
  (** Why a call fails, when it does. *)
  sy_fails : list Call → Call → option string;
  (** Whether a write that failed is there all the same, and what a removal
      that failed left. *)
  sy_written : list Call → bool;
  sy_left : list Call → string → list string → bool;
  (** How many files a walk gave their new owner before one failed. *)
  sy_chowned : list Call → nat;
  sy_listed : list Call → smap bool;
  sy_state : list Call → string → string;
  sy_hook : list Call → HookRun;
  sy_passwd : list Call → option string;
  sy_group : list Call → option string;
  (** The nodes a device's pattern names, each with whether it is a character
      device and its group, where its metadata is read; the group of the file
      a path names. *)
  sy_nodes : list Call → string → list (option (bool * Z));
  sy_node : list Call → string → option Z;
  sy_free : list Call → result Z;
  sy_now : list Call → string;
  (** What is outside the bundles: [AppBundle]. *)
  sy_leads : list string → bool;
  sy_elsewhere : string → option Node;
  sy_fetched : list Call → string → Fetched;
  (** Whether another flow is running. *)
  sy_busy : list Call → bool;
}.

(** What micad changes: its two records; the directories below an app's, by
    app and name; each app's directory with its [current] link, its [app.env]
    and its hook's output; and the users and groups of each app's data in the
    order a walk from its top visits them. *)
Record AppDir := { ad_current : option string; ad_env : option string; ad_log : option bytes }.
Record World := {
  w_record : Record_; w_seeds : smap Seeded; w_items : gmap (string * string) tree; w_apps : gmap string AppDir; w_data : gmap string (list (Z * Z));
  w_calls : list Call;
}.
Definition set_record (r : Record_) (w : World) : World :=
  {| w_record := r; w_seeds := w_seeds w; w_items := w_items w; w_apps := w_apps w; w_data := w_data w; w_calls := w_calls w |}.
Definition set_seeds (s : smap Seeded) (w : World) : World :=
  {| w_record := w_record w; w_seeds := s; w_items := w_items w; w_apps := w_apps w; w_data := w_data w; w_calls := w_calls w |}.
Definition set_items (i : gmap (string * string) tree) (w : World) : World :=
  {| w_record := w_record w; w_seeds := w_seeds w; w_items := i; w_apps := w_apps w; w_data := w_data w; w_calls := w_calls w |}.
Definition set_apps (a : gmap string AppDir) (w : World) : World :=
  {| w_record := w_record w; w_seeds := w_seeds w; w_items := w_items w; w_apps := a; w_data := w_data w; w_calls := w_calls w |}.
Definition set_data (d : gmap string (list (Z * Z))) (w : World) : World :=
  {| w_record := w_record w; w_seeds := w_seeds w; w_items := w_items w; w_apps := w_apps w; w_data := d; w_calls := w_calls w |}.
Definition asked (c : Call) (w : World) : World :=
  {| w_record := w_record w; w_seeds := w_seeds w; w_items := w_items w; w_apps := w_apps w; w_data := w_data w; w_calls := w_calls w ++ [c] |}.

(** A flow changes the world and may fail. *)
Notation M := (Effects.M World).

(** * What a flow does *)

Section flow.
Context `{SY : System} `{UR : Urls} `{MJ : ManifestJson}.

Definition history {E} : M E (list Call) := gets w_calls.
Definition call (c : Call) : M string Datatypes.unit := λ w,
  match sy_fails (w_calls w) c with Some e => (inl e, asked c w) | None => (inr tt, asked c w) end.
(** A file written anew. *)
Definition write (c : Call) (f : World → World) : M string Datatypes.unit := λ w,
  match sy_fails (w_calls w) c with
  | Some e => (inl e, if sy_written (w_calls w) then f (asked c w) else asked c w)
  | None => (inr tt, f (asked c w))
  end.

Definition app_path (name : string) : string := APPS_DIR +:+ "/" +:+ name.
Definition item_path (name item : string) : string := app_path name +:+ "/" +:+ item.
Definition data_path (name : string) : string := DATA_DIR +:+ "/" +:+ name.
Definition account_name (app : string) : string := "mica-app-" +:+ app.

Definition read_record {E} : M E Record_ := gets (λ w, if sy_root then w_record w else no_record).
Definition write_record (r : Record_) : M AppError Datatypes.unit := lift AppFailed (write WriteRecord (set_record r)).
Definition manifest_at (w : World) (name item : string) : Refusal + Manifest :=
  match w_items w !! (name, item) with Some t => read_manifest t | None => refused "manifest" "the bundle has no mica-app.json" end.
Definition ok {E A} (r : E + A) : option A := match r with inr a => Some a | inl _ => None end.
Definition manifest_of (name version : string) : M AppError Manifest :=
  let* r := gets (λ w, manifest_at w name version) in lift of_refusal (of_sum r).
(** Every unit an installed app owns, with the app. *)
Definition unit_owners (w : World) : smap string :=
  foldl (λ owners e, match ok (manifest_at w e.1 (in_version (ae_current e.2))) with
                     | Some m => foldl (λ owners u, smap_insert u.1 e.1 owners) owners (units_for m sy_init)
                     | None => owners
                     end) [] (rc_apps (if sy_root then w_record w else no_record)).
Definition control_name (name : string) : string := match sy_init with Systemd => name | Openrc => name +:+ ".service" end.
Definition unit_list : M string (smap bool) := let* _ := call UnitList in let* h := history in ret (sy_listed h).

(** ** What is taken *)

Record InstallOptions := { io_reinstall : bool; io_upgrade : bool; io_unattended : bool; io_ask_privileges : bool }.
Definition taken_by (name : string) (services : ServicesSettings) (owners : smap string) (listed : smap bool) (unit : string) : list Problem :=
  let owner := smap_get unit owners in
  if sy_shipped unit then [problem "unit_shipped_by_root" (unit +:+ " is shipped by the root")]
  else if bool_decide (is_Some (smap_get unit (sv_units services))) then [problem "unit_taken" (unit +:+ " is a service in services.units")]
  else match owner with
       | Some app => fail_if (negb (bool_decide (app = name))) "unit_taken" (unit +:+ " is app " +:+ app +:+ "'s")
       | None => fail_if (bool_decide (is_Some (smap_get unit listed))) "unit_taken" (unit +:+ " is installed already")
       end.
Definition unit_problems (m : Manifest) (services : ServicesSettings) : M AppError (list Problem) :=
  let ours := units_for m sy_init in
  if is_nil ours then ret []
  else if negb sy_units then throw (AppRefused "this root has no mica-unit, which keeps an app's units")
  else
    let* owners := gets unit_owners in
    let* listed := lift AppFailed unit_list in
    ret (concat (map (λ u, taken_by (mf_name m) services owners listed u.1) ours)).
Definition node_problem (groups : option string) (node : option (bool * Z)) : option Problem :=
  '(is_char, gid) ← node;
  why ← if (is_char : bool) then group_refusal gid groups else Some "is not a character device";
  Some (problem "device" (why +:+ "; an app that needs it runs as root")).
Definition device_problems (m : Manifest) (h : list Call) : list Problem :=
  concat (map (λ device, omap (node_problem (sy_group h)) (sy_nodes h device)) (pv_devices (mf_privileges m))).
(** What a bundle asks for that its taker has not agreed to. *)
Definition check_asked (o : InstallOptions) (m : Manifest) (entry : option AppEntry) (delta : option PrivilegeDelta) : M AppError Manifest :=
  let named := mf_name m +:+ " " +:+ mf_version m in
  match delta, entry with
  | Some delta, Some e =>
      if io_unattended o then throw (AppRefused (named +:+ " asks for more privileges than " +:+ in_version (ae_current e) +:+ "; only an install by hand takes it"))
      else if io_ask_privileges o then throw (AppPrivileges (named +:+ " asks for privileges beyond " +:+ in_version (ae_current e) +:+ "; accept them to install it") delta)
      else ret m
  | Some delta, None => if io_ask_privileges o then throw (AppPrivileges (named +:+ " asks for privileges; accept them to install it") delta) else ret m
  | None, _ => ret m
  end.
Definition admit_ (ar : Archive) (o : InstallOptions) (services : ServicesSettings) : M AppError Manifest :=
  if negb sy_root then throw (AppRefused "this daemon keeps no apps")
  else
    let* m := lift of_refusal (of_sum (peek_manifest ar)) in
    let problems := check_fields m sy_init sy_arch in
    let* problems := if is_nil problems then
                       let* units := unit_problems m services in
                       let* h := history in ret (units ++ device_problems m h)
                     else ret problems in
    let* record := read_record in
    let entry := smap_get (mf_name m) (rc_apps record) in
    let* problems := match entry with
                     | None =>
                         if io_upgrade o then throw (AppNotFound "no app of that name is installed to upgrade")
                         else ret (problems ++ fail_if (MAX_APPS <=? len (rc_apps record)) "too_many" "16 apps are installed already")
                     | Some e =>
                         if bool_decide (in_version (ae_current e) = mf_version m) && negb (io_reinstall o)
                         then throw (AppInstalled "is installed; reinstall to install it again") else ret problems
                     end in
    if negb (is_nil problems) then throw (AppInvalid problems)
    else if io_unattended o || io_ask_privileges o then
      let* installed := match entry with
                        | Some e => let* m' := manifest_of (mf_name m) (in_version (ae_current e)) in ret (Some m')
                        | None => ret None
                        end in
      check_asked o m entry (privilege_delta (mf_privileges <$> installed) (mf_privileges m))
    else ret m.

(** ** Accounts *)

Definition ids_of (text : option string) : list Z :=
  match text with
  | Some text => omap (λ line, match split ":" line with _ :: _ :: id :: _ => parse_u32 id | _ => None end) (lines text)
  | None => []
  end.
Definition taken_ids (h : list Call) (r : Record_) : list Z :=
  map snd (rc_uids r) ++ (if sy_root then ids_of (sy_passwd h) ++ ids_of (sy_group h) else []).
Fixpoint free_uid (count : nat) (uid : Z) (taken : list Z) : option Z :=
  match count with
  | O => None
  | S count => if bool_decide (uid ∈ taken) then free_uid count (uid + 1) taken else Some uid
  end.
(** Who an app's processes run as, and the record with its uid. *)
Definition account (h : list Call) (name : string) (m : Manifest) (r : Record_) : AppError + option Account * Record_ :=
  if bool_decide (pv_user (mf_privileges m) = AsRoot) then inr (None, r)
  else
    match match smap_get name (rc_uids r) with
          | Some uid => Some (uid, r)
          | None => (λ uid, (uid, with_uids (smap_insert name uid (rc_uids r)) r)) <$> free_uid (Z.to_nat UID_COUNT) UID_BASE (taken_ids h r)
          end with
    | None => inl (AppRefused "every uid for apps is taken")
    | Some (uid, r) =>
        let g := grants (sy_node h) (pv_devices (mf_privileges m)) (sy_group h) in
        inr (Some {| ac_uid := uid; ac_groups := gr_groups g; ac_capabilities := pv_capabilities (mf_privileges m) |}, r)
    end.
Definition account_of (name : string) (m : Manifest) (r : Record_) : M AppError (option Account * Record_) :=
  let* h := history in of_sum (account h name m r).
Definition accounts_tool (c : Call) : M string Datatypes.unit := if sy_accounts then call c else ret tt.
Definition name_account (name : string) (uid : Z) : M string Datatypes.unit := accounts_tool (AccountAdd (account_name name) uid uid).

(** ** Switching *)

Definition join_path (dir name : string) : string := dir +:+ "/" +:+ name.
(** [read_to_string], links followed. *)
Definition read_text (t : tree) (path : string) : option string :=
  match match resolve LINKS t true [] (components path) with Inside p => t !! p | Outside => sy_elsewhere path | Nowhere => None end with
  | Some (File _ text) => if valid_utf8 text then Some (bytes_str text) else None
  | _ => None
  end.
Definition units_dir : string := join_path "units" (init_str sy_init).
Definition unit_text (name : string) (to : Manifest) (a : option Account) (vars : smap string) (unit : string) : M string string :=
  match List.find (λ s, bool_decide (service_unit (as_name s) sy_init = unit)) (mf_services to) with
  | Some s =>
      match a with
      | None => throw "a service runs as the app's own user"
      | Some a =>
          let* h := history in
          of_result "the service's unit" (AppRender.unit sy_init name s a (gr_allow (grants (sy_node h) (pv_devices (mf_privileges to)) (sy_group h))) vars)
      end
  | None =>
      let* text := gets (λ w, t ← w_items w !! (name, mf_version to); read_text t (join_path units_dir unit)) in
      match text with Some text => ret text | None => throw ("read " +:+ unit) end
  end.
Definition install_unit (name : string) (to : Manifest) (a : option Account) (vars : smap string) (unit : string) : M string Datatypes.unit :=
  let* text := unit_text name to a vars unit in
  let* _ := call (UnitInstall unit text false) in
  match sy_init with
  | Systemd => ret tt
  | Openrc =>
      let* conf := gets (λ w, t ← w_items w !! (name, mf_version to); read_text t (join_path (join_path units_dir "conf.d") unit)) in
      match conf with Some conf => call (UnitInstall (unit +:+ ".conf") conf true) | None => ret tt end
  end.

Definition no_app_dir : AppDir := {| ad_current := None; ad_env := None; ad_log := None |}.
Definition app_dir (name : string) (w : World) : AppDir := default no_app_dir (w_apps w !! name).
Definition put_app_dir (name : string) (d : AppDir) (w : World) : World := set_apps (<[name := d]> (w_apps w)) w.
Definition put_current (name version : string) (w : World) : World :=
  put_app_dir name {| ad_current := Some version; ad_env := ad_env (app_dir name w); ad_log := ad_log (app_dir name w) |} w.
Definition put_env (name text : string) (w : World) : World :=
  put_app_dir name {| ad_current := ad_current (app_dir name w); ad_env := Some text; ad_log := ad_log (app_dir name w) |} w.
Definition put_log (name : string) (log : bytes) (w : World) : World :=
  put_app_dir name {| ad_current := ad_current (app_dir name w); ad_env := ad_env (app_dir name w); ad_log := Some log |} w.
Definition point_current (name version : string) : M string Datatypes.unit :=
  let* _ := call (LinkCurrent name version) in modify (put_current name version).
Fixpoint env_text (vars : list (string * string)) : string :=
  match vars with
  | [] => ""
  | (key, value) :: vars => key +:+ "=" +:+ quote_str +:+ value +:+ quote_str +:+ String LF (env_text vars)
  end.
Definition write_env (name : string) (m : Manifest) : M string Datatypes.unit :=
  write (WriteFile (join_path (app_path name) "app.env")) (put_env name (env_text (env_of name m))).

(** A walk from the top that gives each file its owner, as far as it gets. *)
Definition chown_tree (owner : Z) (owners : list (Z * Z)) (count : nat) : list (Z * Z) := map (λ _, (owner, owner)) (take count owners) ++ drop count owners.
Definition own_data (name : string) (uid : option Z) : M string Datatypes.unit :=
  let owner := default sy_euid uid in
  let* _ := call (ReadMeta (data_path name)) in
  let* owners := gets (λ w, w_data w !! name) in
  match owners with
  | None | Some [] => throw "no such directory"
  | Some (top :: below) =>
      if (top.1 =? owner) && (top.2 =? owner) then ret tt
      else
        λ w, let c := ChownTree (data_path name) owner in
             let given := λ count w, set_data (<[name := chown_tree owner (top :: below) count]> (w_data w)) w in
             match sy_fails (w_calls w) c with
             | Some e => (inl e, given (sy_chowned (w_calls w)) (asked c w))
             | None => (inr tt, given (length (top :: below)) (asked c w))
             end
  end.

(** The hook's last output, and how it went. *)
Definition hook_outcome (r : HookRun) : bytes * (string + Datatypes.unit) :=
  match r with
  | HookTimeout => ([], inl "the first-run hook did not finish within 300s")
  | HookError e => ([], inl ("run the first-run hook: " +:+ e))
  | HookDone out err success => (out ++ err, if success then inr tt else inl "the first-run hook exited with a failure")
  end.
Definition hook_command (name : string) (hook : string) (vars : list (string * string)) (version : string) (a : option Account) :
  M string (list string * list (string * string)) :=
  let file := join_path (item_path name version) hook in
  match a with
  | Some a =>
      let* args := of_result "APP_DATA" (env_args file vars) in
      ret (SETPRIV :: setpriv_args {| ac_uid := ac_uid a; ac_groups := ac_groups a; ac_capabilities := [] |} ++ args, [("PATH", PATH)])
  | None => ret ([file], ("PATH", PATH) :: vars)
  end.
Definition run_first (name version hook : string) (a : option Account) : M string Datatypes.unit :=
  let* m := lift shown (manifest_of name version) in
  let* command := hook_command name hook (env_of name m) version a in
  let* h := history in
  let* _ := modify (asked (Hook command.1 command.2)) in
  let '(log, outcome) := hook_outcome (sy_hook h) in
  let log := drop (length log - Z.to_nat HOOK_LOG_BYTES) log in
  let* _ := dismiss (write (WriteFile (join_path (app_path name) "first-run.log")) (put_log name log)) in
  let* _ := if sy_logger && negb (is_nil log) then modify (asked (Logger (account_name name) log)) else ret tt in
  of_sum outcome.

Definition enable_unit (listed : smap bool) (u : string * bool) : M string Datatypes.unit :=
  let* _ := if default false (smap_get u.1 listed) then call (UnitDisable u.1) else ret tt in
  if (u.2 : bool) then
    let* _ := call (UnitEnable u.1) in under ("start " +:+ u.1) (call (Start (control_name u.1)))
  else ret tt.
Definition came_up (u : string * bool) : M string Datatypes.unit :=
  if (u.2 : bool) then
    let* h := history in
    let* _ := call (ActiveState (control_name u.1)) in
    if bool_decide (sy_state h (control_name u.1) = FAILED_STATE) then throw (u.1 +:+ " failed to start") else ret tt
  else ret tt.
Definition switch (name : string) (from : option Manifest) (to : Manifest) (a : option Account) (run_hook : bool) : M string Datatypes.unit :=
  let old := match from with Some m => units_for m sy_init | None => [] end in
  let new := units_for to sy_init in
  let* _ := each_ (λ u, under ("stop " +:+ u.1) (call (Stop (control_name u.1)))) old in
  let vars := env_map (env_of name to) in
  let* _ := each_ (λ u, install_unit name to a vars u.1) new in
  let* _ := each_ (λ u, if existsb (λ kept, bool_decide (kept.1 = u.1)) new then ret tt else call (UnitRemove u.1)) old in
  let* _ := point_current name (mf_version to) in
  let* _ := write_env name to in
  let* _ := own_data name (ac_uid <$> a) in
  let* _ := match mf_first_run to with Some hook => if run_hook then run_first name (mf_version to) hook a else ret tt | None => ret tt end in
  let* listed := unit_list in
  let* _ := each_ (enable_unit listed) new in
  each_ came_up new.
(** Whatever state the units are in. *)
Definition teardown (m : Manifest) : M AppError Datatypes.unit :=
  let* listed := try unit_list in
  let listed := default [] (ok listed) in
  each_ (λ u, let* _ := dismiss (call (Stop (control_name u.1))) in
              if bool_decide (is_Some (smap_get u.1 listed)) then dismiss (call (UnitRemove u.1)) else ret tt) (units_for m sy_init).

(** ** Directories *)

Definition after_dot (version what : string) : string := "." +:+ version +:+ "." +:+ what.
Definition partial_of (version : string) : string := after_dot version "partial".
Definition replaced_of (version : string) : string := after_dot version "replaced".
(** [remove_dir_all] of a directory below an app's; one that is not there
    counts as removed. *)
Definition remove_item (name item : string) : M string Datatypes.unit := λ w,
  let c := RemoveTree (item_path name item) in
  match sy_fails (w_calls w) c with
  | Some e => (inl e, set_items (alter (filter (λ f, sy_left (w_calls w) (item_path name item) f.1 = true)) (name, item) (w_items w)) (asked c w))
  | None => (inr tt, set_items (delete (name, item) (w_items w)) (asked c w))
  end.
(** [rename], of a directory: over none, or an empty one. *)
Definition move_item (name from to : string) : M string Datatypes.unit := λ w,
  let c := Move (item_path name from) (item_path name to) in
  match sy_fails (w_calls w) c with
  | Some e => (inl e, asked c w)
  | None =>
      match w_items w !! (name, from) with
      | None => (inl "no such directory", asked c w)
      | Some t =>
          if bool_decide (default ∅ (w_items w !! (name, to)) = ∅)
          then (inr tt, set_items (<[(name, to) := t]> (delete (name, from) (w_items w))) (asked c w)) else (inl "the directory is not empty", asked c w)
      end
  end.
Definition items_of (name : string) (w : World) : list string := map (λ f, f.1.2) (List.filter (λ f, bool_decide (f.1.1 = name)) (map_to_list (w_items w))).
Definition make_app_dir (name : string) : M string Datatypes.unit :=
  let* _ := call (MakeDir (app_path name)) in modify (λ w, put_app_dir name (app_dir name w) w).
(** [remove_dir]: of an empty directory. *)
Definition remove_empty_app_dir (name : string) : M string Datatypes.unit :=
  let* _ := call (RemoveDir (app_path name)) in
  let* full := gets (λ w, negb (is_nil (items_of name w)) || bool_decide (is_Some (ad_current (app_dir name w))) || bool_decide (is_Some (ad_env (app_dir name w)))
                          || bool_decide (is_Some (ad_log (app_dir name w)))) in
  if (full : bool) then throw "the directory is not empty" else modify (λ w, set_apps (delete name (w_apps w)) w).
(** [remove_dir_all] of an app's directory. *)
Definition left_link {A} (left : list string → bool) (file : string) (content : option A) : option A := if left [file] then content else None.
Definition remove_app_dir (name : string) : M string Datatypes.unit := λ w,
  let c := RemoveTree (app_path name) in
  match sy_fails (w_calls w) c with
  | Some e =>
      let left := sy_left (w_calls w) (app_path name) in
      let d := app_dir name w in
      (inl e,
       set_items (map_imap (λ k t, if bool_decide (k.1 = name) then if left [k.2] then Some (filter (λ f, left (k.2 :: f.1) = true) t) else None else Some t) (w_items w))
         (set_apps (alter (λ d, {| ad_current := left_link left "current" (ad_current d); ad_env := left_link left "app.env" (ad_env d);
                                   ad_log := left_link left "first-run.log" (ad_log d) |}) name (w_apps w)) (asked c w)))
  | None => (inr tt, set_items (filter (λ f, f.1.1 ≠ name) (w_items w)) (set_apps (delete name (w_apps w)) (asked c w)))
  end.
(** [make_data_dir]. *)
Definition make_data_dir (name : string) : M string Datatypes.unit :=
  let* _ := under "create the data directory" (call (MakeDir (data_path name))) in
  let* _ := modify (λ w, match w_data w !! name with Some _ => w | None => set_data (<[name := [(sy_euid, sy_egid)]]> (w_data w)) w end) in
  under "chmod the data directory" (call (Chmod (data_path name))).
Definition remove_data (name : string) : M string Datatypes.unit :=
  let* _ := call (RemoveTree (data_path name)) in modify (λ w, set_data (delete name (w_data w)) w).

(** ** Installing *)

(** [flow::ensure_room], then [bundle::unpack] into a directory below the app's. *)
Definition room_for (ar : Archive) : M Refusal Datatypes.unit :=
  let* _ := of_sum (unpacked_size ar) in
  let* h := history in
  match sy_free h with Err _ => throw (RefusalIo "read the free space") | Ok free => of_sum (ensure_room free ar) end.
Definition unpack_into (name item : string) (ar : Archive) : M Refusal Unpacked := λ w,
  if MAX_ARCHIVE_BYTES <? ar_size ar then (refused "too_large" "the bundle is above 256 MiB", w)
  else
    let c := MakeDir (item_path name item) in
    match sy_fails (w_calls w) c, w_items w !! (name, item) with
    | Some e, _ => (inl (RefusalIo e), asked c w)
    | None, Some _ => (inl (RefusalIo "create"), asked c w)
    | None, None => let '(r, u) := unpack sy_elsewhere sy_leads ar sy_init sy_arch in (r, set_items (<[(name, item) := ds_tree (up_dest u)]> (w_items w)) (asked c w))
    end.
Definition stage (ar : Archive) (name version : string) (m : Manifest) (old : option AppEntry) : M AppError Unpacked :=
  let* _ := dismiss (remove_item name (partial_of version)) in
  let* r := try (let* _ := room_for ar in unpack_into name (partial_of version) ar) in
  let refuse := λ e,
    let* _ := dismiss (remove_item name (partial_of version)) in
    let* _ := if bool_decide (is_Some old) then ret tt else dismiss (remove_empty_app_dir name) in
    throw e in
  match r with
  | inr un => if bool_decide (un_manifest un = m) then ret un else refuse (AppInvalid [problem "manifest" "the bundle changed while it was installed"])
  | inl e => refuse (of_refusal e)
  end.
(** The version's directory replaced by what was unpacked, what was there set
    aside. *)
Definition place (name version : string) : M string bool :=
  let* _ := dismiss (remove_item name (replaced_of version)) in
  let* replacing := gets (λ w, bool_decide (is_Some (w_items w !! (name, version)))) in
  let* _ := if (replacing : bool) then under "set aside" (move_item name version (replaced_of version)) else ret tt in
  let* _ := under "move the bundle" (move_item name (partial_of version) version) in
  ret replacing.
Definition last_ (action outcome : string) (message : option string) : M AppError LastResult :=
  let* h := history in ret {| lr_action := action; lr_outcome := outcome; lr_message := message; lr_at := sy_now h |}.
(** A version directory: not one that starts with a dot. *)
Definition prune (name : string) (e : AppEntry) : M AppError Datatypes.unit :=
  let keep := in_version (ae_current e) :: option_list (in_version <$> ae_previous e) in
  let* items := gets (items_of name) in
  each_ (λ item, if negb (starts_with "." item) && negb (bool_decide (item ∈ keep)) then dismiss (remove_item name item) else ret tt) items.

Record Done := { dn_name : string; dn_version : string; dn_action : string }.
Definition installed_entry (old : option AppEntry) (run_hook : bool) (now : Installed) (l : LastResult) : AppEntry :=
  let e := default {| ae_current := now; ae_previous := None; ae_first_run := []; ae_last := None; ae_update := no_update |} old in
  {| ae_current := now;
     ae_previous := if bool_decide (in_version (ae_current e) = in_version now) then ae_previous e else Some (ae_current e);
     ae_first_run := if run_hook then smap_insert (in_version now) tt (ae_first_run e) else ae_first_run e;
     ae_last := Some l; ae_update := ae_update e |}.
(** The switch went through. *)
Definition commit (name version source action : string) (un : Unpacked) (run_hook : bool) (r : Record_) : M AppError Done :=
  let* _ := dismiss (remove_item name (replaced_of version)) in
  let* h := history in
  let now := {| in_version := version; in_sha256 := un_sha256 un; in_source := source; in_installed_at := sy_now h |} in
  let* l := last_ action "ok" None in
  let e := installed_entry (smap_get name (rc_apps r)) run_hook now l in
  let* _ := prune name e in
  let* _ := write_record (with_apps (smap_insert name e (rc_apps r)) r) in
  ret {| dn_name := name; dn_version := version; dn_action := action |}.
(** It failed with [err]: go back to what was there. *)
Definition failed_with (name action message : string) (r : Record_) : M AppError Done :=
  let* l := last_ action "failed" (Some message) in
  let* _ := write_record (record_last r name l) in
  throw (AppFailed message).
Definition undo (name version action err : string) (m : Manifest) (old : option AppEntry) (from : option Manifest) (a : option Account) (replacing had_uid there : bool) (r : Record_) :
  M AppError Done :=
  let err := action +:+ " " +:+ name +:+ " " +:+ version +:+ ": " +:+ err in
  let* _ := dismiss (remove_item name version) in
  let* _ := if replacing then dismiss (move_item name (replaced_of version) version) else ret tt in
  match old, from with
  | Some e, Some from =>
      let* back := try (account_of name from r) in
      match back with
      | inr (b, r) =>
          let* back := try (switch name (Some m) from b false) in
          let message := match back with
                         | inr _ => err +:+ "; rolled back to " +:+ in_version (ae_current e)
                         | inl back => err +:+ "; the roll back failed too: " +:+ back
                         end in
          failed_with name action message r
      | inl back => failed_with name action (err +:+ "; the roll back failed too: " +:+ shown back) r
      end
  | Some _, None => failed_with name action (err +:+ "; the installed version's manifest is unreadable") r
  | None, _ =>
      let* _ := teardown m in
      let* _ := if bool_decide (is_Some a) && negb had_uid then dismiss (accounts_tool (AccountRemove (account_name name))) else ret tt in
      let* _ := dismiss (remove_app_dir name) in
      let* _ := if (there : bool) then ret tt else dismiss (remove_data name) in
      throw (AppFailed err)
  end.
(** What was unpacked takes the version's place. *)
Definition take_over (source : string) (m : Manifest) (un : Unpacked) (r : Record_) : M AppError Done :=
  let name := mf_name m in
  let version := mf_version m in
  let old := smap_get name (rc_apps r) in
  let* replacing := lift AppFailed (place name version) in
  let* there := gets (λ w, bool_decide (is_Some (w_data w !! name))) in
  let* _ := lift AppFailed (make_data_dir name) in
  let* from := gets (λ w, match old with
                          | Some e => if replacing && bool_decide (in_version (ae_current e) = version) then ok (manifest_at w name (replaced_of version))
                                      else ok (manifest_at w name (in_version (ae_current e)))
                          | None => None
                          end) in
  let run_hook := bool_decide (is_Some (mf_first_run m)) && negb (bool_decide (is_Some (e ← old; smap_get version (ae_first_run e)))) in
  let had_uid := bool_decide (is_Some (smap_get name (rc_uids r))) in
  let* (a, r) := account_of name m r in
  let* switched := try (let* _ := match a with Some a => name_account name (ac_uid a) | None => ret tt end in switch name from m a run_hook) in
  let action := if bool_decide (is_Some old) then "upgrade" else "install" in
  match switched with
  | inr _ => commit name version source action un run_hook r
  | inl err => undo name version action err m old from a replacing had_uid there r
  end.
Definition install (ar : Archive) (source : string) (o : InstallOptions) (services : ServicesSettings) : M AppError Done :=
  let* m := admit_ ar o services in
  let* _ := lift AppFailed (make_app_dir (mf_name m)) in
  let* r := read_record in
  let* un := stage ar (mf_name m) (mf_version m) m (smap_get (mf_name m) (rc_apps r)) in
  take_over source m un r.

(** ** Rolling back and removing *)

Definition entry_of (name : string) (r : Record_) : M AppError AppEntry :=
  match smap_get name (rc_apps r) with Some e => ret e | None => throw (AppNotFound "no app of that name is installed") end.
Definition rolled_back (previous : Installed) (l : LastResult) (e : AppEntry) : AppEntry :=
  {| ae_current := previous; ae_previous := Some (ae_current e); ae_first_run := ae_first_run e; ae_last := Some l; ae_update := ae_update e |}.
Definition rollback (name : string) : M AppError Done :=
  let* r := read_record in
  let* e := entry_of name r in
  match ae_previous e with
  | None => throw (AppRefused (name +:+ " has no previous version to roll back to"))
  | Some previous =>
      let* current := manifest_of name (in_version (ae_current e)) in
      let* target := manifest_of name (in_version previous) in
      let* (current_account, r) := account_of name current r in
      let* (target_account, r) := account_of name target r in
      let* switched := try (switch name (Some current) target target_account false) in
      match switched with
      | inl err =>
          let* back := try (switch name (Some target) current current_account false) in
          let message := "roll back " +:+ name +:+ " to " +:+ in_version previous +:+ ": " +:+ err in
          failed_with name "rollback"
            (match back with inr _ => message | inl back => message +:+ "; the return to " +:+ mf_version current +:+ " failed too: " +:+ back end) r
      | inr _ =>
          let* l := last_ "rollback" "ok" None in
          let* _ := write_record (match smap_get name (rc_apps r) with
                                  | Some e => with_apps (smap_insert name (rolled_back previous l e) (rc_apps r)) r
                                  | None => r
                                  end) in
          ret {| dn_name := name; dn_version := in_version previous; dn_action := "rollback" |}
      end
  end.
Definition remove (name : string) (purge : bool) : M AppError Datatypes.unit :=
  let* r := read_record in
  let* e := entry_of name r in
  let* m := gets (λ w, manifest_at w name (in_version (ae_current e))) in
  let* _ := match m with inr m => teardown m | inl _ => ret tt end in
  let* _ := lift AppFailed (remove_app_dir name) in
  let* _ := if (purge : bool) then lift AppFailed (remove_data name) else ret tt in
  let r := with_apps (smap_remove name (rc_apps r)) r in
  if purge && bool_decide (is_Some (smap_get name (rc_uids r))) then
    let* _ := dismiss (accounts_tool (AccountRemove (account_name name))) in
    write_record (with_uids (smap_remove name (rc_uids r)) r)
  else write_record r.
End flow.

(** ** What touches neither the record nor the bundles' directories *)

Section framed.
Context `{SY : System} `{UR : Urls} `{MJ : ManifestJson}.
Context (P : World → Prop) (Hframe : ∀ w w', w_record w' = w_record w → w_items w' = w_items w → P w → P w').
Lemma frame_modify {E} (f : World → World) : (∀ w, w_record (f w) = w_record w) → (∀ w, w_items (f w) = w_items w) → holds P (modify (E := E) f).
Proof. intros H1 H2 w Hw. cbn. by apply (Hframe w). Qed.
Lemma frame_call c : holds P (call c).
Proof. intros w Hw. unfold call. destruct (sy_fails _ _); by apply (Hframe w). Qed.
Lemma frame_write c f : (∀ w, w_record (f w) = w_record w) → (∀ w, w_items (f w) = w_items w) → holds P (write c f).
Proof. intros H1 H2 w Hw. unfold write. destruct (sy_fails _ _); [destruct (sy_written _)|]; cbn; apply (Hframe w); try done; by rewrite ?H1, ?H2. Qed.
Hint Resolve frame_call frame_modify frame_write : holds.
Lemma frame_install_unit name to a vars u : holds P (install_unit name to a vars u).
Proof. unfold install_unit, unit_text, history. holds. Qed.
Lemma frame_own_data name uid : holds P (own_data name uid).
Proof. unfold own_data. holds. intros w Hw. destruct (sy_fails _ _); by apply (Hframe w). Qed.
Lemma frame_run_first name version hook a : holds P (run_first name version hook a).
Proof. unfold run_first, manifest_of, hook_command, history. holds. Qed.
Hint Resolve frame_install_unit frame_own_data frame_run_first : holds.
Lemma frame_switch name from to a run_hook : holds P (switch name from to a run_hook).
Proof. unfold switch, point_current, write_env, unit_list, enable_unit, came_up, history. holds. Qed.
Lemma frame_teardown m : holds P (teardown m).
Proof. unfold teardown, unit_list, history. holds. Qed.
Lemma frame_make_app_dir name : holds P (make_app_dir name).
Proof. unfold make_app_dir. holds. Qed.
Lemma frame_make_data_dir name : holds P (make_data_dir name).
Proof.
  unfold make_data_dir. holds; apply frame_modify; intros w; by destruct (w_data w !! name).
Qed.
Lemma frame_admit ar o services : holds P (admit_ ar o services).
Proof. unfold admit_, check_asked, unit_problems, unit_list, manifest_of, read_record, history. holds. Qed.
Lemma frame_remove_empty name : holds P (remove_empty_app_dir name).
Proof. unfold remove_empty_app_dir. holds. Qed.
Lemma frame_remove_data name : holds P (remove_data name).
Proof. unfold remove_data. holds. Qed.
Lemma frame_accounts_tool c : holds P (accounts_tool c).
Proof. unfold accounts_tool. holds. Qed.
End framed.
#[export] Hint Resolve frame_call frame_modify frame_write frame_switch frame_teardown frame_make_app_dir frame_make_data_dir frame_admit frame_remove_empty
  frame_remove_data frame_accounts_tool : holds.

(** ** Versions and the names beside them *)

Lemma version_digit v : is_version v = true → first_byte is_digit v = true.
Proof.
  unfold is_version. intros H. apply andb_true_iff in H as [_ H]. apply bool_decide_eq_true in H. unfold DebianVersion.compare in H.
  destruct (DebianVersion.parts v) as [p|] eqn:Ep; [clear H|by destruct H]. unfold DebianVersion.parts in Ep. destruct (_ || _); [done|].
  apply bind_Some in Ep as ([e rest] & Es & Ep). unfold DebianVersion.split_epoch in Es. destruct (split_once ":" v) as [[d rest']|] eqn:Eo.
  - apply split_once_spec in Eo as [-> _]. destruct d as [|c d]; [done|]. destruct (_ || _) eqn:Eb in Es; [done|]. apply orb_false_iff in Eb as [Eb _].
    apply orb_false_iff in Eb as [_ Eb]. apply negb_false_iff in Eb. cbn in Eb |- *. by apply andb_true_iff in Eb as [Eb _].
  - injection Es as <- <-. destruct (rsplit_once "-" v) as [[up rev]|] eqn:Er; cbn [default] in Ep; unfold id in Ep.
    + destruct (first_byte is_digit up) eqn:Eu; [|done]. apply rsplit_once_spec in Er as [-> _]. by destruct up.
    + by destruct (first_byte is_digit v).
Qed.
Definition dotted (s : string) : bool := starts_with "." s.
Lemma version_not_dotted v : is_version v = true → dotted v = false.
Proof. intros H%version_digit. destruct v as [|c v]; [done|]. cbn in H |- *. by destruct c as [[] [] [] [] [] [] [] []]. Qed.
Lemma after_dotted v what : dotted (after_dot v what) = true.
Proof. done. Qed.
Lemma dotted_ne a b : dotted a = false → dotted b = true → a ≠ b.
Proof. congruence. Qed.

(** ** What an install leaves of the rest *)

(** What a record says is installed. *)
Definition versions_of (e : AppEntry) : Installed * option Installed := (ae_current e, ae_previous e).
Definition record_ok (r : Record_) : Prop :=
  ∀ name e, smap_get name (rc_apps r) = Some e → is_version (in_version (ae_current e)) = true ∧ ∀ p, ae_previous e = Some p → is_version (in_version p) = true.

Section near.
Context `{SY : System} `{UR : Urls} `{MJ : ManifestJson}.
(** An install of [version] of the app [name], of which [cur] is the version
    installed. *)
Context (w0 : World) (name version : string) (cur : option string).
Context (Hversion : dotted version = false) (Hcur : ∀ v, cur = Some v → dotted v = false ∧ v ≠ version).

Definition spared (n item : string) : Prop := n ≠ name ∨ cur = Some item.
Definition items_near (w : World) : Prop := ∀ n item, spared n item → w_items w !! (n, item) = w_items w0 !! (n, item).
Definition record_near (r : Record_) : Prop := ∀ n, versions_of <$> smap_get n (rc_apps r) = versions_of <$> smap_get n (rc_apps (w_record w0)).
Definition near (w : World) : Prop := record_near (w_record w) ∧ items_near w.
Lemma near_frame w w' : w_record w' = w_record w → w_items w' = w_items w → near w → near w'.
Proof. intros H1 H2 [H3 H4]. split; [by rewrite H1|]. unfold items_near. by rewrite H2. Qed.

(** The names an install writes below. *)
Definition own (item : string) : Prop := item = version ∨ dotted item = true.
Lemma own_spared item n i : own item → spared n i → (n, i) ≠ (name, item).
Proof. intros Ho [Hn|Hi] [= -> ->]; [done|]. destruct (Hcur _ Hi) as [H1 H2]. destruct Ho as [->|Ho]; [done|congruence]. Qed.
Lemma near_set_items f w : (∀ n i, spared n i → f !! (n, i) = w_items w !! (n, i)) → near w → near (set_items f w).
Proof. intros Hf [H1 H2]. split; [done|]. intros n i Hs. cbn. rewrite Hf by done. by apply H2. Qed.
Lemma near_asked c w : near w → near (asked c w).
Proof. by apply near_frame. Qed.
Lemma near_remove_item item : own item → holds near (remove_item name item).
Proof.
  intros Ho w Hw. unfold remove_item. destruct (sy_fails _ _); cbn [snd]; apply near_set_items; [| by apply near_asked| | by apply near_asked]; intros n i Hs.
  - apply lookup_alter_ne. symmetry. by apply own_spared.
  - apply lookup_delete_ne. symmetry. by apply own_spared.
Qed.
Lemma near_move_item from to : own from → own to → holds near (move_item name from to).
Proof.
  intros Hf Ht w Hw. unfold move_item. destruct (sy_fails _ _); [by apply near_asked|]. destruct (w_items w !! _); [|by apply near_asked].
  case_bool_decide; cbn [snd]; [|by apply near_asked]. apply near_set_items; [|by apply near_asked]. intros n i Hs. cbn.
  rewrite lookup_insert_ne, lookup_delete_ne; [done|symmetry; by apply own_spared..].
Qed.
Lemma own_partial : own (partial_of version).
Proof. right. apply after_dotted. Qed.
Lemma own_replaced : own (replaced_of version).
Proof. right. apply after_dotted. Qed.
Lemma own_version : own version.
Proof. by left. Qed.
Lemma near_unpack_into ar : holds near (unpack_into name (partial_of version) ar).
Proof.
  intros w Hw. unfold unpack_into. destruct (_ <? _); [done|]. destruct (sy_fails _ _), (w_items w !! (name, partial_of version)); try by apply near_asked. destruct (unpack _ _ _ _ _) as [r u].
  cbn [snd]. apply near_set_items; [|by apply near_asked]. intros n i Hs. apply lookup_insert_ne. symmetry. apply own_spared; [apply own_partial|done].
Qed.
Hint Resolve near_remove_item near_move_item near_unpack_into own_partial own_replaced own_version near_frame : holds.
Lemma near_stage ar m old : holds near (stage ar name version m old).
Proof. unfold stage, room_for, history. holds. Qed.
Lemma near_place : holds near (place name version).
Proof. unfold place. holds. Qed.

(** *** Its record *)

Lemma account_apps h app m r a r' : account h app m r = inr (a, r') → rc_apps r' = rc_apps r.
Proof.
  unfold account. case_bool_decide; [by intros [= _ <-]|]. destruct (smap_get app (rc_uids r)); cbn; [by intros [= _ <-]|].
  destruct (free_uid _ _ _); cbn; [by intros [= _ <-]|done].
Qed.
Lemma holds_account (P : World → Prop) app m r {B} (k : option Account * Record_ → M AppError B) :
  (∀ a r', rc_apps r' = rc_apps r → holds P (k (a, r'))) → holds P (bind (account_of app m r) k).
Proof.
  intros Hk w Hw. unfold account_of, history, bind. cbn. destruct (account (w_calls w) app m r) as [e|[a r']] eqn:E; cbn; [done|]. apply Hk; [|done].
  by apply account_apps in E.
Qed.
Lemma holds_try_account (P : World → Prop) app m r {B} (k : AppError + option Account * Record_ → M AppError B) :
  (∀ e, holds P (k (inl e))) → (∀ a r', rc_apps r' = rc_apps r → holds P (k (inr (a, r')))) → holds P (bind (try (account_of app m r)) k).
Proof.
  intros He Hk w Hw. unfold account_of, history, try, bind. cbn. destruct (account (w_calls w) app m r) as [e|[a r']] eqn:E; cbn; [by apply He|]. apply Hk; [|done].
  by apply account_apps in E.
Qed.
Lemma record_near_apps r r' : rc_apps r' = rc_apps r → record_near r → record_near r'.
Proof. unfold record_near. by intros ->. Qed.
Lemma record_last_versions r app l n : versions_of <$> smap_get n (rc_apps (record_last r app l)) = versions_of <$> smap_get n (rc_apps r).
Proof.
  unfold record_last. destruct (smap_get app (rc_apps r)) eqn:E; [|done]. cbn [with_apps rc_apps]. rewrite smap_get_insert. case_bool_decide; [subst|done]. by rewrite E.
Qed.
Lemma near_write_record r : record_near r → holds near (write_record r).
Proof.
  intros Hr w [H1 H2]. unfold write_record, lift, write. assert (Hn : near (set_record r (asked WriteRecord w))) by by split.
  destruct (sy_fails _ _); [destruct (sy_written _)|]; cbn; try done; by split.
Qed.
Lemma near_failed_with action message r : record_near r → holds near (failed_with name action message r).
Proof.
  intros Hr. unfold failed_with, last_, history. holds. apply near_write_record. intros n. by rewrite record_last_versions.
Qed.

(** *** Its end *)

Lemma near_remove_app_dir : cur = None → holds near (remove_app_dir name).
Proof.
  intros Hnone w Hw. unfold remove_app_dir.
  assert (Hsp : ∀ n i, spared n i → n ≠ name) by (intros n i [Hn|Hi]; [done|congruence]).
  destruct (sy_fails _ _); cbn [snd]; (apply near_set_items; [|by apply (near_frame w)]); intros n i Hs%Hsp.
  - rewrite map_lookup_imap. cbn. destruct (w_items w !! (n, i)); cbn; [|done]. by rewrite bool_decide_eq_false_2.
  - cbn. destruct (w_items w !! (n, i)) eqn:E; [by apply map_lookup_filter_Some_2|]. apply map_lookup_filter_None. by left.
Qed.
Lemma near_undo action err m old from a replacing had_uid there r : (old = None → cur = None) → record_near r →
  holds near (undo name version action err m old from a replacing had_uid there r).
Proof.
  intros Hold Hr. pose proof near_frame as Hf. unfold undo. cbv zeta. apply holds_bind; [holds|]. intros _. apply holds_bind; [holds|]. intros _.
  destruct old as [e|]; [destruct from as [from|]|].
  - apply holds_try_account; [intros back; by apply near_failed_with|]. intros b r' Hr'. apply holds_bind; [by apply holds_try, frame_switch|]. intros back.
    apply near_failed_with. by apply (record_near_apps r).
  - by apply near_failed_with.
  - apply holds_bind; [by apply frame_teardown|]. intros _. apply holds_bind; [destruct (_ && _); [by apply holds_dismiss, frame_accounts_tool|apply holds_ret]|].
    intros _. apply holds_bind; [apply holds_dismiss, near_remove_app_dir; auto|]. intros _.
    apply holds_bind; [destruct there; [apply holds_ret|by apply holds_dismiss, frame_remove_data]|]. intros _. apply holds_throw.
Qed.

Definition has (item : string) (t : tree) (w : World) : Prop := w_items w !! (name, item) = Some t.
Lemma has_frame item t w w' : w_record w' = w_record w → w_items w' = w_items w → near w ∧ has item t w → near w' ∧ has item t w'.
Proof. intros H1 H2 [H3 H4]. split; [by apply (near_frame w)|]. unfold has. by rewrite H2. Qed.
Lemma has_remove_item item t other : other ≠ item → cur ≠ Some other → holds (λ w, near w ∧ has item t w) (remove_item name other).
Proof.
  intros Hne Hc w [Hw Ht]. unfold remove_item, has. split.
  - destruct (sy_fails _ _); cbn [snd]; (apply near_set_items; [|by apply near_asked]); intros n i [Hn|Hi]; rewrite ?lookup_alter_ne, ?lookup_delete_ne; first [done|congruence].
  - destruct (sy_fails _ _); cbn; [rewrite lookup_alter_ne|rewrite lookup_delete_ne]; congruence.
Qed.
Lemma unpack_manifest ar un u : unpack sy_elsewhere sy_leads ar sy_init sy_arch = (inr un, u) → read_manifest (ds_tree (up_dest u)) = inr (un_manifest un).
Proof.
  unfold unpack. destruct (_ <? _); [done|]. destruct (unpack_members _ _ _) as [[e|[]] u']; [done|]. intros [= H <-].
  destruct (negb _); [done|]. destruct (read_manifest _) as [|m]; [done|]. destruct (negb _); [done|]. by injection H as <-.
Qed.
Lemma stage_inr ar m old w un w' : stage ar name version m old w = (inr un, w') → ∃ t, has (partial_of version) t w' ∧ read_manifest t = inr m ∧ un_manifest un = m.
Proof.
  unfold stage. cbv zeta. intros (? & w1 & _ & H)%bind_inr. apply bind_inr in H as (r & w2 & Hr%try_inr & H).
  assert (Hrefuse : ∀ e, fails (let* _ := dismiss (remove_item name (partial_of version)) in
    let* _ := if bool_decide (is_Some old) then ret tt else dismiss (remove_empty_app_dir name) in throw (A := Unpacked) (e : AppError))).
  { intros e. apply fails_bind. intros _. apply fails_bind. intros _. apply fails_throw. }
  destruct r as [e|un']; [by apply Hrefuse in H|]. destruct (bool_decide (un_manifest un' = m)) eqn:Hm; [|by apply Hrefuse in H]. apply bool_decide_eq_true in Hm. subst m.
  injection H as <- <-. apply bind_inr in Hr as ([] & w3 & _ & Hr). unfold unpack_into in Hr. destruct (_ <? _); [done|].
  destruct (sy_fails _ _); [done|]. destruct (w_items w3 !! (name, partial_of version)); [done|].
  destruct (unpack _ _ _ _ _) as [r u] eqn:Eu. injection Hr as -> <-. exists (ds_tree (up_dest u)). split_and!; [apply lookup_insert_eq|by eapply unpack_manifest|done].
Qed.
Lemma partial_ne_replaced : partial_of version ≠ replaced_of version.
Proof. intros H. apply (f_equal str_len) in H. unfold partial_of, replaced_of, after_dot in H. rewrite !str_len_app in H. change (str_len "partial") with 7 in H. change (str_len "replaced") with 8 in H. lia. Qed.
Lemma remove_item_other other item w : other ≠ item → w_items (remove_item name other w).2 !! (name, item) = w_items w !! (name, item).
Proof. intros H. unfold remove_item. destruct (sy_fails _ _); cbn; [apply lookup_alter_ne|apply lookup_delete_ne]; congruence. Qed.
Lemma move_item_inr from to w u w' : move_item name from to w = (inr u, w') →
  ∃ t, w_items w !! (name, from) = Some t ∧ w_items w' = <[(name, to) := t]> (delete (name, from) (w_items w)).
Proof. unfold move_item. destruct (sy_fails _ _); [done|]. destruct (w_items w !! _) as [t|]; [|done]. case_bool_decide; [|done]. intros [= _ <-]. by exists t. Qed.
Lemma place_inr t w b w' : place name version w = (inr b, w') → has (partial_of version) t w → has version t w'.
Proof.
  unfold place, has. intros (? & w1 & E1%dismiss_world & H)%bind_inr Ht. assert (Hpr := partial_ne_replaced).
  apply bind_inr in H as (r & w2 & [= <- <-] & H). apply bind_inr in H as ([] & w3 & E2 & H). apply bind_inr in H as ([] & w4 & E3%lift_inr & [= <- <-]).
  assert (H1 : w_items w1 !! (name, partial_of version) = Some t) by (rewrite E1, remove_item_other; done).
  assert (H2 : w_items w3 !! (name, partial_of version) = Some t).
  { revert E2. case_bool_decide; [|by intros [= <-]]. intros (u & _ & ->)%lift_inr%move_item_inr.
    rewrite lookup_insert_ne, lookup_delete_ne; [done| |congruence]. intros [= Hv]. assert (Hd := after_dotted version "partial"). unfold partial_of in Hv. rewrite <- Hv, Hversion in Hd. done. }
  apply move_item_inr in E3 as (t' & Ht' & ->). rewrite H2 in Ht'. injection Ht' as <-. apply lookup_insert_eq.
Qed.

(** *** What it comes to: nothing changed, or the new version recorded with
    its bundle in place. *)
Definition recorded (r : Record_) : Prop :=
  (∀ n, n ≠ name → versions_of <$> smap_get n (rc_apps r) = versions_of <$> smap_get n (rc_apps (w_record w0)))
  ∧ ∃ e, smap_get name (rc_apps r) = Some e ∧ in_version (ae_current e) = version
         ∧ ∀ p, ae_previous e = Some p → ∃ e0, smap_get name (rc_apps (w_record w0)) = Some e0 ∧ (p = ae_current e0 ∨ ae_previous e0 = Some p).
Definition settled (m : Manifest) (w : World) : Prop :=
  near w ∨ recorded (w_record w) ∧ items_near w ∧ ∃ t, has version t w ∧ read_manifest t = inr m.
Lemma write_recorded m t r w : read_manifest t = inr m → near w ∧ has version t w → recorded r → settled m (write_record r w).2.
Proof.
  intros Hm [Hn Ht] Hr. unfold write_record, lift, write.
  assert (Hdone : settled m (set_record r (asked WriteRecord w))) by (right; split_and!; [done|apply Hn|by exists t]).
  assert (Hnot : settled m (asked WriteRecord w)) by (left; by apply near_asked).
  destruct (sy_fails _ _); [destruct (sy_written _)|]; done.
Qed.
Lemma record_new r run_hook now l : record_near r → in_version now = version →
  recorded (with_apps (smap_insert name (installed_entry (smap_get name (rc_apps r)) run_hook now l) (rc_apps r)) r).
Proof.
  intros Hr He. split; cbn.
  - intros n Hn. rewrite smap_get_insert, bool_decide_eq_false_2 by done. apply Hr.
  - eexists. rewrite smap_get_insert, bool_decide_eq_true_2 by done. split_and!; [done..|]. intros p. specialize (Hr name). cbn.
    destruct (smap_get name (rc_apps r)) as [e|]; cbn; [|by rewrite bool_decide_eq_true_2].
    destruct (smap_get name (rc_apps (w_record w0))) as [e0|]; [|done]. cbn in Hr. injection Hr as E1 E2. intros Hp. exists e0. split; [done|]. revert Hp.
    case_bool_decide; [rewrite E2; by right|intros [= <-]; by left].
Qed.
Definition kept_by (e : AppEntry) : list string := in_version (ae_current e) :: option_list (in_version <$> ae_previous e).
Lemma prune_holds t e : in_version (ae_current e) = version → (∀ v, cur = Some v → v ∈ kept_by e) → holds (λ w, near w ∧ has version t w) (prune name e).
Proof.
  intros He Hk. unfold prune. fold (kept_by e). apply holds_bind; [apply holds_gets|]. intros items. apply holds_each. intros item _. destruct (negb (starts_with "." item)); [|apply holds_ret].
  destruct (bool_decide (item ∈ kept_by e)) eqn:Ek; [apply holds_ret|]. apply bool_decide_eq_false in Ek. apply holds_dismiss, has_remove_item.
  - intros ->. apply Ek. unfold kept_by. rewrite He. by left.
  - intros Hc. by apply Ek, Hk.
Qed.
Lemma installed_keeps old run_hook now l v : in_version now = version → (∃ e, old = Some e ∧ in_version (ae_current e) = v) → v ∈ kept_by (installed_entry old run_hook now l).
Proof.
  intros Hnow (e & -> & <-). unfold kept_by, installed_entry. cbn. case_bool_decide as Hv; [rewrite Hv; by left|]. right. cbn. by left.
Qed.
Lemma commit_settled m t source action un run_hook r w : read_manifest t = inr m → record_near r →
  (∀ v, cur = Some v → ∃ e, smap_get name (rc_apps r) = Some e ∧ in_version (ae_current e) = v) → near w ∧ has version t w →
  settled m (commit name version source action un run_hook r w).2.
Proof.
  intros Hm Hr Hc Hw. unfold commit, last_, history. unfold bind at 1.
  assert (H1 : holds (λ w, near w ∧ has version t w) (dismiss (E' := AppError) (remove_item name (replaced_of version)))).
  { apply holds_dismiss, has_remove_item; [|by intros [Hd _]%Hcur].
    intros Hv. assert (Hd := after_dotted version "replaced"). unfold replaced_of in Hv. by rewrite Hv, Hversion in Hd. }
  specialize (H1 w Hw). destruct (dismiss _ w) as [[e|[]] w1]; cbn in H1; [left; apply H1|]. cbn [bind gets ret]. unfold bind at 1.
  set (e := installed_entry _ _ _ _). assert (He : in_version (ae_current e) = version) by done.
  pose proof (prune_holds t e He ltac:(intros v Hv; by apply installed_keeps, Hc) w1 H1) as H2. destruct (prune name e w1) as [[err|[]] w2]; cbn in H2; [left; apply H2|].
  unfold bind. pose proof (write_recorded m t (with_apps (smap_insert name e (rc_apps r)) r) w2 Hm H2 (record_new r _ {| in_version := version; in_sha256 := un_sha256 un; in_source := source; in_installed_at := sy_now (w_calls w1) |} _ Hr eq_refl)) as H3.
  destruct (write_record _ w2) as [[err|[]] w3]; exact H3.
Qed.
End near.

(** ** What is taken *)

Section taken.
Context `{SY : System} `{UR : Urls} `{MJ : ManifestJson}.

Lemma throw_not {E A} (e : E) (w : World) (a : A) w' : throw e w = (inr a, w') → False.
Proof. done. Qed.
Lemma gets_inr {E A} (f : World → A) w a w' : gets (E := E) f w = (inr a, w') → a = f w ∧ w' = w.
Proof. by intros [= <- <-]. Qed.
Lemma of_sum_inr {E A} (r : E + A) (w : World) a w' : of_sum r w = (inr a, w') → r = inr a ∧ w' = w.
Proof. destruct r; by intros [= <- <-]. Qed.
(** Same record, same bundles. *)
Definition same_apps (w w' : World) : Prop := w_record w' = w_record w ∧ w_items w' = w_items w.
Lemma same_apps_frame w0 w w' : w_record w' = w_record w → w_items w' = w_items w → same_apps w0 w → same_apps w0 w'.
Proof. unfold same_apps. intros -> ->. done. Qed.
Lemma admit_same ar o services w : same_apps w (admit_ ar o services w).2.
Proof. apply (frame_admit (same_apps w)); [apply same_apps_frame|done]. Qed.

(** A bundle is taken: what the checks found. *)
Record admitted (w : World) (ar : Archive) (o : InstallOptions) (m : Manifest) : Prop := {
  ad_root : sy_root = true;
  ad_peek : peek_manifest ar = inr m;
  ad_fields : check_fields m sy_init sy_arch = [];
  ad_again e : smap_get (mf_name m) (rc_apps (w_record w)) = Some e → in_version (ae_current e) = mf_version m → io_reinstall o = true;
  ad_upgrade : io_upgrade o = true → is_Some (smap_get (mf_name m) (rc_apps (w_record w)));
  ad_asks : io_unattended o || io_ask_privileges o = true → ∀ e, smap_get (mf_name m) (rc_apps (w_record w)) = Some e →
    ∃ m', manifest_at w (mf_name m) (in_version (ae_current e)) = inr m' ∧ within (mf_privileges m) (mf_privileges m');
  ad_first : io_ask_privileges o = true → smap_get (mf_name m) (rc_apps (w_record w)) = None → privilege_delta None (mf_privileges m) = None;
}.
Lemma check_asked_inr o m entry delta w m' w' : check_asked o m entry delta w = (inr m', w') →
  m' = m ∧ (io_unattended o || io_ask_privileges o = true → is_Some entry → delta = None) ∧ (io_ask_privileges o = true → delta = None).
Proof.
  unfold check_asked. destruct delta as [d|]; [|intros [= -> <-]; by split_and!]. destruct entry as [e|].
  - destruct (io_unattended o); [done|]. destruct (io_ask_privileges o); [done|]. intros [= -> <-]. by split_and!.
  - destruct (io_ask_privileges o); [done|]. intros [= -> <-]. split_and!; [done| |done]. by intros _ [].
Qed.
Lemma admit_inr ar o services w m w' : admit_ ar o services w = (inr m, w') → admitted w ar o m.
Proof.
  unfold admit_. destruct sy_root eqn:Er; [|done]. intros (m' & w1 & (Hp & ->)%lift_inr%of_sum_inr & H)%bind_inr. cbv zeta in H.
  apply bind_inr in H as (problems & w2 & Hproblems & H).
  assert (Hsame : same_apps w w2).
  { revert Hproblems. destruct (is_nil _); [|by intros [= _ <-]]. intros Hb. 
    match type of Hb with ?m w = _ => assert (Hh : holds (same_apps w) m) end.
    { pose proof (same_apps_frame w) as Hf. unfold unit_problems, unit_list, history. holds; by apply frame_call. }
    specialize (Hh w (conj eq_refl eq_refl)). by rewrite Hb in Hh. }
  destruct Hsame as [Hs1 Hs2]. apply bind_inr in H as (record & w3 & (-> & ->)%gets_inr & H). rewrite Er, Hs1 in H. apply bind_inr in H as (problems' & w3 & He & H).
  assert (w3 = w2 ∧ (problems' = [] → problems = []) ∧ (∀ e, smap_get (mf_name m') (rc_apps (w_record w)) = Some e → in_version (ae_current e) = mf_version m' → io_reinstall o = true)
    ∧ (io_upgrade o = true → is_Some (smap_get (mf_name m') (rc_apps (w_record w))))) as (-> & Hnil & Hagain & Hup).
  { destruct (smap_get (mf_name m') (rc_apps (w_record w))) as [e|].
    - destruct (bool_decide (in_version (ae_current e) = mf_version m')) eqn:Eb; [destruct (io_reinstall o) eqn:Eo; [|done]|]; injection He as <- <-; split_and!; try done;
        intros ? [= <-] Hv; by apply bool_decide_eq_false in Eb.
    - destruct (io_upgrade o) eqn:Eo; [done|]. injection He as <- <-. split_and!; try done. by intros [H' _]%app_nil. }
  destruct (is_nil problems') eqn:Epn; [|done]. apply is_nil_spec, Hnil in Epn. subst problems. cbn [negb] in H.
  assert (Hfields : check_fields m' sy_init sy_arch = []).
  { destruct (is_nil (check_fields m' sy_init sy_arch)) eqn:En; [by apply is_nil_spec|]. injection Hproblems as Hn _. by rewrite Hn in En. }
  destruct (io_unattended o || io_ask_privileges o) eqn:Eo.
  - apply bind_inr in H as (installed & w3 & Hi & H). apply check_asked_inr in H as (<- & H1 & H2). split; try done.
    + intros _ e He'. rewrite He' in Hi, H1. apply bind_inr in Hi as (m' & w4 & Hi & [= <- _]). unfold manifest_of in Hi.
      apply bind_inr in Hi as (r & w5 & (-> & ->)%gets_inr & (Hm & _)%lift_inr%of_sum_inr). exists m'. unfold manifest_at in *. rewrite Hs2 in Hm.
      split; [done|]. by apply privilege_delta_none, H1.
    + intros Ha Hn. rewrite Hn in Hi. injection Hi as <- _. by apply H2.
  - injection H as <- <-. apply orb_false_iff in Eo as [E1 E2]. split; try done; rewrite ?E1, ?E2; done.
Qed.
Lemma admit_inl ar o services w e w' : admit_ ar o services w = (inl e, w') → ∀ source, install ar source o services w = (inl e, w').
Proof. intros H source. unfold install, bind. by rewrite H. Qed.

(** An install either leaves every app as it was recorded, or records the new
    version with the bundle it was admitted for in place; [cur]: a version of
    the app that stays in place either way. *)
Lemma leads_step {E A B} (P : World → Prop) (Q : World → Prop) (m : M E A) (k : A → M E B) w :
  P (m w).2 → (∀ a w', m w = (inr a, w') → P w' → Q (k a w').2) → (∀ w', P w' → Q w') → Q (bind m k w).2.
Proof. intros Hm Hk He. unfold bind. destruct (m w) as [[e|a] w'] eqn:Ew; [by apply He|by apply Hk]. Qed.
Lemma install_settles ar source o services w m w1 cur : admit_ ar o services w = (inr m, w1) →
  (∀ v, cur = Some v → dotted v = false ∧ v ≠ mf_version m ∧ ∃ e, smap_get (mf_name m) (rc_apps (w_record w)) = Some e ∧ in_version (ae_current e) = v) →
  settled w (mf_name m) (mf_version m) cur m (install ar source o services w).2.
Proof.
  intros Ha Hcur. pose proof (admit_inr _ _ _ _ _ _ Ha) as [Hroot _ Hf _ _ _ _]. apply check_fields_accepted in Hf. set (name := mf_name m) in *. set (version := mf_version m) in *.
  assert (Hv : dotted version = false) by apply version_not_dotted, (ap_version _ _ Hf).
  assert (Hc2 : ∀ v, cur = Some v → dotted v = false ∧ v ≠ version) by (intros v Hv'; by destruct (Hcur v Hv') as (? & ? & _)).
  pose proof (admit_same ar o services w) as [S1 S2]. rewrite Ha in S1, S2. cbn in S1, S2.
  assert (Hn : near w name cur w1) by (split; [by intros n; rewrite S1|by intros n i _; rewrite S2]).
  assert (Hfr := near_frame w name cur). assert (Hnear : ∀ w', near w name cur w' → settled w name version cur m w') by (by left).
  unfold install. unfold bind at 1. rewrite Ha. cbv beta zeta. fold name version.
  eapply (leads_step (λ w', same_apps w w' ∧ near w name cur w')); [|clear Hn; intros [] w2 _ [Hs Hn]|intros w' [_ H]; by apply Hnear].
  { apply (holds_lift (λ w', same_apps w w' ∧ near w name cur w')); [|by split]. apply frame_make_app_dir. intros w2 w3 E1 E2 [H1 H2]. split; [by apply (same_apps_frame w w2)|by apply (Hfr w2)]. }
  unfold bind at 1. cbn [gets read_record]. rewrite Hroot, (proj1 Hs). set (r := w_record w). assert (Hr : record_near w r) by done.
  eapply (leads_step (near w name cur)); [by apply near_stage|clear Hs Hn; intros un w2s Hst Hn|done]. apply stage_inr in Hst as (t & Ht & Hm & _).
  unfold take_over. fold name version. cbv zeta.
  eapply (leads_step (near w name cur)); [apply holds_lift; [by apply near_place|done]|clear Hn; intros replacing w3 Hp%lift_inr Hn|done].
  assert (Hh : near w name cur w3 ∧ has name version t w3) by (split; [done|by eapply place_inr]). clear Hp Hn Ht.
  assert (Hfr2 := has_frame w name cur version t). assert (Hnear2 : ∀ w', near w name cur w' ∧ has name version t w' → settled w name version cur m w') by (intros w' [? _]; by left).
  unfold bind at 1. cbn [gets].
  set (PP := λ w', near w name cur w' ∧ has name version t w') in *.
  apply (leads_step PP); [apply (holds_lift PP); [by apply frame_make_data_dir|exact Hh]|clear Hh; intros [] w4 _ Hh|done].
  unfold bind at 1. cbn [gets]. set (from := match smap_get name (rc_apps r) with Some _ => _ | None => _ end).
  unfold bind at 1, account_of, history. unfold bind at 1. cbn [gets]. destruct (account (w_calls w4) name m r) as [e|[a r']] eqn:Eacc; cbn [of_sum throw ret]; [by apply Hnear2|]. cbv beta iota.
  apply account_apps in Eacc. assert (Hr' : record_near w r') by by apply (record_near_apps w r).
  apply (leads_step PP); [apply (holds_try PP); [|exact Hh]|clear Hh; intros [err|[]] w5 _ Hh|done].
  { apply holds_bind; [|intros _; by apply frame_switch]. destruct a; [by apply frame_accounts_tool|apply holds_ret]. }
  - left. apply near_undo; try done; [|apply Hh]. intros Hnone. destruct cur as [v|]; [|done]. destruct (Hcur v eq_refl) as (_ & _ & e & He & _). unfold r in Hnone. by rewrite Hnone in He.
  - apply (commit_settled w name version cur Hv Hc2 m t); try done. intros v Hv'. rewrite Eacc. by destruct (Hcur v Hv') as (_ & _ & ?).
Qed.
End taken.

(** ** What depends on the record alone *)

(** A property of the world that the disk and the calls do not touch, and that
    any record with [R] keeps. *)
Section of_record.
Context `{SY : System} `{UR : Urls} `{MJ : ManifestJson}.
Context (P : World → Prop) (R : Record_ → Prop).
Context (Hitems : ∀ i w, P w → P (set_items i w)) (Happs : ∀ a w, P w → P (set_apps a w)) (Hdata : ∀ d w, P w → P (set_data d w)) (Hasked : ∀ c w, P w → P (asked c w)).
Context (Hread : ∀ w, P w → R (w_record w)) (Hnone : R no_record) (Hwrite : ∀ r w, R r → P w → P (set_record r w)).
Context (Rapps : ∀ a r, R r → R (with_apps a r)) (Raccount : ∀ h n m r a r', account h n m r = inr (a, r') → R r → R r') (Rremove : ∀ n r, R r → R (with_uids (smap_remove n (rc_uids r)) r)).

Lemma R_modify {E} f : (∀ w, P w → P (f w)) → holds P (modify (E := E) f).
Proof. intros H w. apply H. Qed.
Lemma R_call c : holds P (call c).
Proof. intros w Hw. unfold call. by destruct (sy_fails _ _); apply Hasked. Qed.
Lemma R_write c f : (∀ w, P w → P (f w)) → holds P (write c f).
Proof. intros Hf w Hw. unfold write. destruct (sy_fails _ _); [destruct (sy_written _)|]; cbn; auto. Qed.
Lemma R_put name d w : P w → P (put_app_dir name d w).
Proof. apply Happs. Qed.
Hint Resolve R_call R_modify R_write R_put : holds.
Hint Extern 1 (P _) => progress (unfold put_env, put_current, put_log) : holds.
Lemma R_own_data name uid : holds P (own_data name uid).
Proof. unfold own_data. holds. intros w Hw. destruct (sy_fails _ _); cbn; by apply Hdata, Hasked. Qed.
Lemma R_run_first name version hook a : holds P (run_first name version hook a).
Proof. unfold run_first, manifest_of, hook_command, history. holds. Qed.
Lemma R_switch name from to a run_hook : holds P (switch name from to a run_hook).
Proof. unfold switch, install_unit, unit_text, point_current, write_env, unit_list, enable_unit, came_up, history. holds; first [apply R_own_data|apply R_run_first]. Qed.
Lemma R_teardown m : holds P (teardown m).
Proof. unfold teardown, unit_list, history. holds. Qed.
Lemma R_admit ar o services : holds P (admit_ ar o services).
Proof. unfold admit_, check_asked, unit_problems, unit_list, manifest_of, read_record, history. holds. Qed.
Lemma R_make_app_dir name : holds P (make_app_dir name).
Proof. unfold make_app_dir. holds. Qed.
Lemma R_make_data_dir name : holds P (make_data_dir name).
Proof. unfold make_data_dir. holds; apply R_modify; intros w Hw; destruct (w_data w !! name); [done|by apply Hdata]. Qed.
Lemma R_remove_data name : holds P (remove_data name).
Proof. unfold remove_data. holds; apply R_modify; intros w Hw; by apply Hdata. Qed.
Lemma R_remove_empty name : holds P (remove_empty_app_dir name).
Proof. unfold remove_empty_app_dir. holds; apply R_modify; intros w Hw; by apply Happs. Qed.
Lemma R_remove_item name item : holds P (remove_item name item).
Proof. intros w Hw. unfold remove_item. destruct (sy_fails _ _); by apply Hitems, Hasked. Qed.
Lemma R_move_item name from to : holds P (move_item name from to).
Proof. intros w Hw. unfold move_item. destruct (sy_fails _ _); [by apply Hasked|]. destruct (w_items w !! _); [|by apply Hasked]. case_bool_decide; [by apply Hitems, Hasked|by apply Hasked]. Qed.
Lemma R_remove_app_dir name : holds P (remove_app_dir name).
Proof. intros w Hw. unfold remove_app_dir. destruct (sy_fails _ _); by apply Hitems, Happs, Hasked. Qed.
Lemma R_unpack_into name item ar : holds P (unpack_into name item ar).
Proof.
  intros w Hw. unfold unpack_into. destruct (_ <? _); [done|]. destruct (sy_fails _ _), (w_items w !! (name, item)); try by apply Hasked.
  destruct (unpack _ _ _ _ _). by apply Hitems, Hasked.
Qed.
Lemma R_write_record r : R r → holds P (write_record r).
Proof. intros Hr. unfold write_record. apply holds_lift, R_write. intros w. by apply Hwrite. Qed.
Hint Resolve R_switch R_teardown R_admit R_make_app_dir R_make_data_dir R_remove_data R_remove_empty R_remove_item R_move_item R_remove_app_dir R_unpack_into R_write_record : holds.
Lemma R_record_last r name l : R r → R (record_last r name l).
Proof. unfold record_last. destruct (smap_get name (rc_apps r)); [apply Rapps|done]. Qed.
Lemma R_failed_with name action message r : R r → holds P (failed_with name action message r).
Proof. intros Hr. unfold failed_with, last_, history. holds. apply R_write_record. by apply R_record_last. Qed.
(** The record as read. *)
Lemma R_read {A} (k : Record_ → M AppError A) : (∀ r, R r → holds P (k r)) → holds P (bind read_record k).
Proof. intros Hk w Hw. unfold bind, read_record, gets. apply Hk; [|done]. destruct sy_root; [by apply Hread|done]. Qed.
Lemma R_account {A} name m r (k : option Account * Record_ → M AppError A) : R r → (∀ a r', R r' → holds P (k (a, r'))) → holds P (bind (account_of name m r) k).
Proof.
  intros Hr Hk w Hw. unfold account_of, history, bind. cbn. destruct (account (w_calls w) name m r) as [e|[a r']] eqn:E; cbn; [done|]. apply Hk; [|done]. by eapply Raccount.
Qed.
Lemma R_try_account {A} name m r (k : AppError + option Account * Record_ → M AppError A) :
  R r → (∀ e, holds P (k (inl e))) → (∀ a r', R r' → holds P (k (inr (a, r')))) → holds P (bind (try (account_of name m r)) k).
Proof.
  intros Hr He Hk w Hw. unfold account_of, history, try, bind. cbn. destruct (account (w_calls w) name m r) as [e|[a r']] eqn:E; cbn; [by apply He|]. apply Hk; [|done]. by eapply Raccount.
Qed.
Lemma R_undo name version action err m old from a replacing had_uid there r : R r → holds P (undo name version action err m old from a replacing had_uid there r).
Proof.
  intros Hr. unfold undo. cbv zeta. apply holds_bind; [holds|]. intros _. apply holds_bind; [holds|]. intros _. destruct old as [e|]; [destruct from as [from|]|].
  - apply R_try_account; [done|intros back; by apply R_failed_with|]. intros b r' Hr'. apply holds_bind; [holds|]. intros back. by apply R_failed_with.
  - by apply R_failed_with.
  - unfold accounts_tool. holds.
Qed.
Lemma R_commit name version source action un run_hook r : R r → holds P (commit name version source action un run_hook r).
Proof. intros Hr. unfold commit, last_, prune, history. holds. Qed.
Lemma R_install ar source o services : holds P (install ar source o services).
Proof.
  unfold install. apply holds_bind; [holds|]. intros m. apply holds_bind; [holds|]. intros _. apply R_read. intros r Hr.
  apply holds_bind; [unfold stage, room_for, history; holds|]. intros un. unfold take_over. cbv zeta. apply holds_bind; [unfold place; holds|]. intros replacing. apply holds_bind; [holds|]. intros there.
  apply holds_bind; [holds|]. intros _. apply holds_bind; [holds|]. intros from. apply R_account; [done|]. intros a r' Hr'. cbv beta iota.
  apply holds_bind; [unfold name_account, accounts_tool; holds|]. intros switched. destruct switched; [by apply R_undo|by apply R_commit].
Qed.
Lemma R_rollback name : holds P (rollback name).
Proof.
  unfold rollback. apply R_read. intros r Hr. apply holds_bind; [unfold entry_of; holds|]. intros e. destruct (ae_previous e) as [previous|]; [|holds].
  apply holds_bind; [unfold manifest_of; holds|]. intros current. apply holds_bind; [unfold manifest_of; holds|]. intros target. apply R_account; [done|]. intros ca r1 H1. apply R_account; [done|]. intros ta r2 H2. cbv beta iota.
  apply holds_bind; [holds|]. intros switched. destruct switched as [err|[]].
  - apply holds_bind; [holds|]. intros back. by apply R_failed_with.
  - unfold last_, history. holds. apply R_write_record. destruct (smap_get _ _); [by apply Rapps|done].
Qed.
Lemma R_remove name purge : holds P (remove name purge).
Proof.
  unfold remove. apply R_read. intros r Hr. apply holds_bind; [unfold entry_of; holds|]. intros e. apply holds_bind; [holds|]. intros m. apply holds_bind; [holds|]. intros _.
  apply holds_bind; [holds|]. intros _. apply holds_bind; [holds|]. intros _. cbv zeta. destruct (_ && _).
  - unfold accounts_tool. holds; apply R_write_record, Rremove; by apply Rapps.
  - apply R_write_record. by apply Rapps.
Qed.
End of_record.

(** ** Where a switch leaves the links *)

Section pointed.
Context `{SY : System} `{UR : Urls} `{MJ : ManifestJson}.

(** [current] at a version, [app.env] as written. *)
Definition points (name : string) (m : Manifest) (w : World) : Prop := ad_current (app_dir name w) = Some (mf_version m) ∧ ad_env (app_dir name w) = Some (env_text (env_of name m)).
Lemma points_frame name m w w' : w_apps w' = w_apps w → points name m w → points name m w'.
Proof. unfold points, app_dir. by intros ->. Qed.
Lemma points_call name m c : holds (points name m) (call c).
Proof. intros w Hw. unfold call. by destruct (sy_fails _ _). Qed.
Lemma app_dir_put name d w : app_dir name (put_app_dir name d w) = d.
Proof. unfold app_dir, put_app_dir. cbn. by rewrite lookup_insert_eq. Qed.
Hint Resolve points_call : holds.
Lemma points_own_data name m uid : holds (points name m) (own_data name uid).
Proof. unfold own_data. holds. intros w Hw. by destruct (sy_fails _ _). Qed.
Lemma points_modify {E} name m f : (∀ w, w_apps (f w) = w_apps w) → holds (points name m) (modify (E := E) f).
Proof. intros H w Hw. cbn. apply (points_frame name m w); [apply H|done]. Qed.
Lemma points_put_log name m c log : holds (points name m) (write c (put_log name log)).
Proof.
  intros w Hw. unfold write. assert (Hp : points name m (put_log name log (asked c w))) by (unfold points, put_log; rewrite app_dir_put; exact Hw).
  destruct (sy_fails _ _); [destruct (sy_written _)|]; done.
Qed.
Hint Resolve points_put_log points_modify : holds.
Lemma points_run_first name m version hook a : holds (points name m) (run_first name version hook a).
Proof. unfold run_first, manifest_of, hook_command, history. holds. Qed.
Lemma switch_points name from to a run_hook w w' : switch name from to a run_hook w = (inr tt, w') → points name to w'.
Proof.
  unfold switch. cbv zeta. intros (? & w1 & _ & H)%bind_inr. apply bind_inr in H as (? & w2 & _ & H). apply bind_inr in H as (? & w3 & _ & H).
  apply bind_inr in H as ([] & w4 & Hpoint & H). apply bind_inr in H as ([] & w5 & Henv & H).
  assert (Hp : points name to w5).
  { unfold point_current in Hpoint. apply bind_inr in Hpoint as ([] & w4' & _ & [= <-]). unfold write_env, write in Henv. destruct (sy_fails _ _); [done|]. injection Henv as <-.
    unfold points, put_env, put_current. rewrite app_dir_put. split; [|done]. cbn [ad_current].
    change (ad_current (app_dir name (put_app_dir name {| ad_current := Some (mf_version to); ad_env := ad_env (app_dir name w4'); ad_log := ad_log (app_dir name w4') |} w4')) = Some (mf_version to)).
    by rewrite app_dir_put. }
  revert w5 Hp H Henv. generalize w4. clear. intros w4 w5 Hp H _.
  assert (Hh : ∀ {B} (m : M string B) r w w', holds (points name to) m → m w = (r, w') → points name to w → points name to w').
  { intros B m r w w2 Hm E Hw. specialize (Hm w Hw). by rewrite E in Hm. }
  eapply Hh; [|exact H|exact Hp]. clear H Hp. unfold unit_list, enable_unit, came_up, history. holds; [apply points_own_data|apply points_run_first].
Qed.
End pointed.

(** ** An install on a disk that works *)

Section atomic.
Context `{SY : System} `{UR : Urls} `{MJ : ManifestJson}.

Definition of_disk (c : Call) : bool :=
  match c with
  | MakeDir _ | RemoveDir _ | Chmod _ | RemoveTree _ | Move _ _ | LinkCurrent _ _ | WriteFile _ | ReadMeta _ | ChownTree _ _ | WriteRecord | WriteSeeds => true
  | _ => false
  end.
(** No call to the disk fails; programs and the init may. *)
Definition disk_works : Prop := ∀ h c, of_disk c = true → sy_fails h c = None.
Context (Hdisk : disk_works).

Lemma call_works c w : of_disk c = true → call c w = (inr tt, asked c w).
Proof. intros H. unfold call. by rewrite Hdisk. Qed.
Lemma item_removed name item w : remove_item name item w = (inr tt, set_items (delete (name, item) (w_items w)) (asked (RemoveTree (item_path name item)) w)).
Proof. unfold remove_item. by rewrite Hdisk. Qed.
Lemma app_dir_removed name w :
  remove_app_dir name w = (inr tt, set_items (filter (λ f, f.1.1 ≠ name) (w_items w)) (set_apps (delete name (w_apps w)) (asked (RemoveTree (app_path name)) w))).
Proof. unfold remove_app_dir. by rewrite Hdisk. Qed.
Lemma move_works name from to t w : w_items w !! (name, from) = Some t → w_items w !! (name, to) = None →
  move_item name from to w = (inr tt, set_items (<[(name, to) := t]> (delete (name, from) (w_items w))) (asked (Move (item_path name from) (item_path name to)) w)).
Proof. intros Hf Ht. unfold move_item. by rewrite Hdisk, Hf, Ht by done. Qed.
Lemma record_written r w : write_record r w = (inr tt, set_record r (asked WriteRecord w)).
Proof. unfold write_record, lift, write. by rewrite Hdisk. Qed.
Lemma dismiss_works {E E' A} (m : M E A) w a w' : m w = (inr a, w') → dismiss (E' := E') m w = (inr tt, w').
Proof. unfold dismiss, bind, try. by intros ->. Qed.

Section version.
Context (w0 : World) (name version : string) (Hversion : dotted version = false).
(** The undotted names of the apps there, as they were. *)
Definition undotted (w : World) : Prop := ∀ n item, dotted item = false → w_items w !! (n, item) = w_items w0 !! (n, item).
(** All but the version's own directory, what was there set aside. *)
Definition aside (replacing : bool) (w : World) : Prop :=
  (∀ n item, dotted item = false → (n, item) ≠ (name, version) → w_items w !! (n, item) = w_items w0 !! (n, item))
  ∧ if replacing then w_items w !! (name, replaced_of version) = w_items w0 !! (name, version) ∧ is_Some (w_items w0 !! (name, version)) else w_items w0 !! (name, version) = None.
Lemma undotted_frame w w' : w_record w' = w_record w → w_items w' = w_items w → undotted w → undotted w'.
Proof. unfold undotted. by intros _ ->. Qed.
Lemma aside_frame replacing w w' : w_record w' = w_record w → w_items w' = w_items w → aside replacing w → aside replacing w'.
Proof. unfold aside. by intros _ ->. Qed.
Lemma dotted_key item n i : dotted item = true → dotted i = false → (n, i) ≠ (name, item).
Proof. intros H1 H2 [= -> ->]. congruence. Qed.
Lemma undotted_remove item : dotted item = true → holds undotted (remove_item name item).
Proof. intros Hd w Hw. rewrite item_removed. intros n i Hi. cbn. rewrite lookup_delete_ne; [by apply Hw|]. symmetry. by apply dotted_key. Qed.
Lemma undotted_unpack ar : holds undotted (unpack_into name (partial_of version) ar).
Proof.
  intros w Hw. unfold unpack_into. destruct (_ <? _); [done|]. destruct (sy_fails _ _), (w_items w !! (name, partial_of version)); try by apply (undotted_frame w).
  destruct (unpack _ _ _ _ _) as [r u]. intros n i Hi. cbn. rewrite lookup_insert_ne; [by apply Hw|]. symmetry. by apply dotted_key.
Qed.
Lemma undotted_stage ar m old : holds undotted (stage ar name version m old).
Proof.
  assert (Hf := undotted_frame). unfold stage, room_for, history. cbv zeta. apply holds_bind; [by apply holds_dismiss, undotted_remove|]. intros _.
  assert (Hrefuse : ∀ e : AppError, holds undotted (let* _ := dismiss (remove_item name (partial_of version)) in
    let* _ := if bool_decide (is_Some old) then ret tt else dismiss (remove_empty_app_dir name) in throw (A := Unpacked) e)).
  { intros e. apply holds_bind; [by apply holds_dismiss, undotted_remove|]. intros _. apply holds_bind; [|intros _; apply holds_throw].
    destruct (bool_decide _); [apply holds_ret|by apply holds_dismiss, frame_remove_empty]. }
  apply holds_bind; [|intros [e|un]; [done|destruct (bool_decide (un_manifest un = m)); [apply holds_ret|done]]].
  apply holds_try. apply holds_bind; [holds|]. intros _. apply undotted_unpack.
Qed.
Lemma place_works t w : undotted w → w_items w !! (name, partial_of version) = Some t →
  ∃ replacing w', place name version w = (inr replacing, w') ∧ aside replacing w' ∧ w_record w' = w_record w ∧ w_items w' !! (name, version) = Some t.
Proof.
  intros Hw Ht. assert (Hpr := partial_ne_replaced version). assert (Hvp : version ≠ partial_of version) by (intros E; assert (Hd := after_dotted version "partial"); unfold partial_of in E; rewrite <- E in Hd; congruence).
  assert (Hvr : version ≠ replaced_of version) by (intros E; assert (Hd := after_dotted version "replaced"); unfold replaced_of in E; rewrite <- E in Hd; congruence).
  unfold place, bind at 1. rewrite (dismiss_works _ _ _ _ (item_removed name (replaced_of version) w)). set (w1 := set_items _ _). unfold bind at 1. cbn [gets].
  assert (H1 : ∀ i, i ≠ replaced_of version → ∀ n, w_items w1 !! (n, i) = w_items w !! (n, i)) by (intros i Hi n; cbn; apply lookup_delete_ne; congruence).
  assert (Hr1 : w_items w1 !! (name, replaced_of version) = None) by apply lookup_delete_eq.
  destruct (w_items w1 !! (name, version)) as [tv|] eqn:Ev; [rewrite bool_decide_eq_true_2 by by eexists|rewrite bool_decide_eq_false_2 by by intros []]; cbv iota beta.
  - unfold bind at 1, under at 1, lift at 1. rewrite (move_works name version (replaced_of version) tv w1 Ev Hr1). set (w2 := set_items _ _).
    assert (Ep : w_items w2 !! (name, partial_of version) = Some t) by (cbn; rewrite lookup_insert_ne, lookup_delete_ne, lookup_delete_ne by congruence; done).
    assert (En : w_items w2 !! (name, version) = None) by (cbn; rewrite lookup_insert_ne by congruence; apply lookup_delete_eq).
    unfold bind, under, lift. rewrite (move_works name (partial_of version) version t w2 Ep En). eexists true, _. split; [done|]. rewrite H1 in Ev by done. split_and!; [split| |].
    + intros n i Hi Hk. cbn. assert (i ≠ partial_of version ∧ i ≠ replaced_of version) as [? ?] by (by split; intros ->).
      rewrite lookup_insert_ne, lookup_delete_ne, lookup_insert_ne, lookup_delete_ne, lookup_delete_ne by congruence. by apply Hw.
    + rewrite <- (Hw name version Hversion), Ev. split; [|by eexists]. cbn. rewrite lookup_insert_ne, lookup_delete_ne by congruence. apply lookup_insert_eq.
    + done.
    + apply lookup_insert_eq.
  - unfold bind at 1. cbn [ret]. assert (Ep : w_items w1 !! (name, partial_of version) = Some t) by (by rewrite H1).
    unfold bind, under, lift. rewrite (move_works name (partial_of version) version t w1 Ep Ev). eexists false, _. split; [done|]. rewrite H1 in Ev by done. split_and!; [split| |].
    + intros n i Hi Hk. cbn. assert (i ≠ partial_of version ∧ i ≠ replaced_of version) as [? ?] by (by split; intros ->).
      rewrite lookup_insert_ne, lookup_delete_ne, lookup_delete_ne by congruence. by apply Hw.
    + by rewrite <- (Hw name version Hversion).
    + done.
    + apply lookup_insert_eq.
Qed.

(** *** Its end *)
Lemma prune_works t e w : in_version (ae_current e) = version → w_items w !! (name, version) = Some t →
  ∃ w', prune name e w = (inr tt, w') ∧ w_items w' !! (name, version) = Some t ∧ w_apps w' = w_apps w ∧ w_record w' = w_record w.
Proof.
  intros He. unfold prune. unfold bind at 1. cbn [gets]. generalize (items_of name w). intros l. revert w. induction l as [|item l IH]; intros w Ht; cbn [each_]; [by exists w|].
  unfold bind at 1. destruct (negb (starts_with "." item) && negb (bool_decide (item ∈ in_version (ae_current e) :: option_list (in_version <$> ae_previous e)))) eqn:Ek; [|by apply IH].
  rewrite (dismiss_works _ _ _ _ (item_removed name item w)). apply andb_true_iff in Ek as [_ Ek]. apply negb_true_iff, bool_decide_eq_false in Ek.
  destruct (IH (set_items (delete (name, item) (w_items w)) (asked (RemoveTree (item_path name item)) w))) as (w' & E1 & E2 & E3 & E4); [|by exists w'].
  cbn. rewrite lookup_delete_ne; [done|]. intros [= ->]. apply Ek. rewrite He. by left.
Qed.
Lemma commit_works t source action un run_hook r w : w_items w !! (name, version) = Some t →
  ∃ w', commit name version source action un run_hook r w = (inr {| dn_name := name; dn_version := version; dn_action := action |}, w')
    ∧ w_items w' !! (name, version) = Some t ∧ w_apps w' = w_apps w ∧ ∃ e, smap_get name (rc_apps (w_record w')) = Some e ∧ in_version (ae_current e) = version.
Proof.
  intros Ht. unfold commit, last_, history. unfold bind at 1. rewrite (dismiss_works _ _ _ _ (item_removed name (replaced_of version) w)). set (w1 := set_items _ _).
  assert (H1 : w_items w1 !! (name, version) = Some t).
  { cbn. rewrite lookup_delete_ne; [done|]. intros [= E]. assert (Hd := after_dotted version "replaced"). unfold replaced_of in E. rewrite E in Hd. congruence. }
  cbn [bind gets ret]. unfold bind at 1. set (e := installed_entry _ _ _ _). destruct (prune_works t e w1 eq_refl H1) as (w2 & E1 & E2 & E3 & E4). rewrite E1.
  unfold bind. rewrite record_written. eexists. split; [done|]. split_and!; [done|done|]. exists e. cbn. by rewrite smap_get_insert, bool_decide_eq_true_2.
Qed.
Lemma failed_with_works action message r w : failed_with name action message r w =
  (inl (AppFailed message), set_record (record_last r name {| lr_action := action; lr_outcome := "failed"; lr_message := Some message; lr_at := sy_now (w_calls w) |}) (asked WriteRecord w)).
Proof. unfold failed_with, last_, history, bind. cbn [gets ret]. by rewrite record_written. Qed.

(** The failed version taken away, the other put back. *)
Lemma put_back (replacing : bool) w : aside replacing w →
  ∃ w', (let* _ := dismiss (remove_item name version) in if replacing then dismiss (move_item name (replaced_of version) version) else ret tt : M AppError Datatypes.unit) w = (inr tt, w')
    ∧ undotted w' ∧ w_record w' = w_record w ∧ w_apps w' = w_apps w.
Proof.
  intros [Ha Hr]. unfold bind at 1. rewrite (dismiss_works _ _ _ _ (item_removed name version w)). set (w1 := set_items _ _).
  assert (Hvr : version ≠ replaced_of version) by (intros E; assert (Hd := after_dotted version "replaced"); unfold replaced_of in E; rewrite <- E in Hd; congruence).
  assert (H1 : ∀ n i, dotted i = false → (n, i) ≠ (name, version) → w_items w1 !! (n, i) = w_items w0 !! (n, i)).
  { intros n i Hi Hk. cbn. rewrite lookup_delete_ne by congruence. by apply Ha. }
  assert (Hv1 : w_items w1 !! (name, version) = None) by apply lookup_delete_eq.
  destruct replacing.
  - destruct Hr as [Hr [tv Htv]]. assert (Hr1 : w_items w1 !! (name, replaced_of version) = Some tv) by (cbn; rewrite lookup_delete_ne by congruence; by rewrite Hr).
    rewrite (dismiss_works _ _ _ _ (move_works name (replaced_of version) version tv w1 Hr1 Hv1)). eexists. split; [done|]. split; [|done]. intros n i Hi. cbn.
    destruct (decide ((n, i) = (name, version))) as [[= -> ->]|Hk]; [by rewrite lookup_insert_eq|].
    rewrite lookup_insert_ne, lookup_delete_ne; [by apply H1|intros [= <- <-]; done|congruence].
  - eexists. split; [done|]. split; [|done]. intros n i Hi. destruct (decide ((n, i) = (name, version))) as [[= -> ->]|Hk]; [by rewrite Hv1, Hr|by apply H1].
Qed.
Definition told (message : string) : Prop := ∃ before why, message = before +:+ "; the roll back failed too: " +:+ why.
(** An upgrade that fails says what became of the version before it. *)
Lemma undo_upgrade action err m e from a replacing had_uid there r w : aside replacing w →
  ∃ message w', undo name version action err m (Some e) (Some from) a replacing had_uid there r w = (inl (AppFailed message), w') ∧ undotted w' ∧ (points name from w' ∨ told message).
Proof.
  intros Ha. destruct (put_back replacing w Ha) as (w1 & Eb & Hu & _ & _). unfold undo. cbv zeta. unfold bind at 1 2. unfold bind in Eb. destruct (dismiss (remove_item name version) w) as [[]]; [done|].
  rewrite Eb. assert (Hfr := undotted_frame). unfold account_of, history, try, bind at 1, bind at 1. cbn [gets].
  destruct (account (w_calls w1) name from r) as [back|[b r']]; cbn [of_sum throw ret]; cbv beta iota.
  - rewrite failed_with_works. do 2 eexists. split; [done|]. split; [done|]. right. by do 2 eexists.
  - unfold bind. pose proof (frame_switch undotted Hfr name (Some m) from b false w1 Hu) as Hs. destruct (switch name (Some m) from b false w1) as [[back|[]] w3] eqn:Esw; rewrite failed_with_works;
      do 2 eexists; (split; [done|]); (split; [exact Hs|]); [right; by do 2 eexists|left]. apply switch_points in Esw. exact Esw.
Qed.
Lemma undo_restores action err m old from a replacing had_uid there r w : aside replacing w →
  ∀ n i, dotted i = false → (old = None → n ≠ name) → w_items (undo name version action err m old from a replacing had_uid there r w).2 !! (n, i) = w_items w0 !! (n, i).
Proof.
  intros Ha n i Hi Hn. destruct (put_back replacing w Ha) as (w1 & Eb & Hu & _ & _). assert (Hfr : ∀ w w', w_record w' = w_record w → w_items w' = w_items w → w_items w !! (n, i) = w_items w0 !! (n, i) → w_items w' !! (n, i) = w_items w0 !! (n, i)) by (by intros ? ? _ ->).
  specialize (Hu n i Hi). unfold undo. cbv zeta. unfold bind at 1 2. unfold bind in Eb. destruct (dismiss (remove_item name version) w) as [[]]; [done|]. rewrite Eb.
  revert w1 Hu Eb. intros w1 Hu _. revert w1 Hu. set (P := λ w, w_items w !! (n, i) = w_items w0 !! (n, i)). match goal with |- context [snd (?k _)] => change (holds P k) end.
  assert (Hfw : ∀ message r, holds P (failed_with name action message r)) by (intros message r' w1 Hw1; by rewrite failed_with_works).
  destruct old as [e|]; [destruct from as [from|]|].
  - apply (holds_try_account P); [intros back; apply Hfw|]. intros b r' _. apply holds_bind; [by apply holds_try, frame_switch|]. intros back. apply Hfw.
  - apply Hfw.
  - apply holds_bind; [by apply frame_teardown|]. intros _. apply holds_bind; [destruct (_ && _); [by apply holds_dismiss, frame_accounts_tool|apply holds_ret]|]. intros _.
    apply holds_bind; [|intros _; apply holds_bind; [destruct there; [apply holds_ret|by apply holds_dismiss, frame_remove_data]|intros _; apply holds_throw]].
    apply holds_dismiss. intros w1 Hw1. unfold remove_app_dir. rewrite Hdisk by done. unfold P in *. rewrite <- Hw1. specialize (Hn eq_refl). cbn.
    destruct (w_items w1 !! (n, i)) eqn:E; [by apply map_lookup_filter_Some_2|]. apply map_lookup_filter_None. by left.
Qed.
End version.

(** *** All of it *)
Lemma admit_apps A ar o services : holds (λ w, w_apps w = A) (admit_ ar o services).
Proof.
  assert (Hc : ∀ c, holds (λ w, w_apps w = A) (call c)) by (intros c w Hw; unfold call; by destruct (sy_fails _ _)).
  unfold admit_, check_asked, unit_problems, unit_list, manifest_of, read_record, history. holds; apply Hc.
Qed.
Lemma stage_apps A ar name version m e : holds (λ w, w_apps w = A) (stage ar name version m (Some e)).
Proof.
  assert (Hr : ∀ item, holds (λ w, w_apps w = A) (remove_item name item)) by (intros item w Hw; by rewrite item_removed).
  unfold stage, room_for, history. cbv zeta. rewrite bool_decide_eq_true_2 by by eexists. holds; try apply Hr.
  intros w Hw. unfold unpack_into. destruct (_ <? _); [done|]. destruct (sy_fails _ _), (w_items w !! (name, partial_of version)); try done. by destruct (unpack _ _ _ _ _).
Qed.
Lemma stage_record r name version ar m old : holds (λ w, w_record w = r) (stage ar name version m old).
Proof.
  assert (Hr : ∀ item, holds (λ w, w_record w = r) (remove_item name item)) by (intros item w Hw; by rewrite item_removed).
  assert (He : holds (λ w, w_record w = r) (remove_empty_app_dir name)) by (unfold remove_empty_app_dir; holds; [intros w Hw; by rewrite call_works|by intros w Hw]).
  unfold stage, room_for, history. cbv zeta. holds; try done.
  intros w Hw. unfold unpack_into. destruct (_ <? _); [done|]. destruct (sy_fails _ _), (w_items w !! (name, partial_of version)); try done. by destruct (unpack _ _ _ _ _).
Qed.
Lemma make_data_works name w : ∃ w', make_data_dir name w = (inr tt, w') ∧ w_record w' = w_record w ∧ w_items w' = w_items w ∧ w_apps w' = w_apps w.
Proof.
  unfold make_data_dir, under, lift. unfold bind at 1. rewrite call_works by done. unfold bind, modify. rewrite call_works by done. eexists. split; [done|].
  cbn. by destruct (w_data w !! name).
Qed.
Lemma account_inl h name m r e : account h name m r = inl e → e = AppRefused "every uid for apps is taken".
Proof. unfold account. case_bool_decide; [done|]. destruct (smap_get name (rc_uids r)); cbn; [done|]. destruct (free_uid _ _ _); cbn; [done|]. by intros [= <-]. Qed.
Lemma undo_fails name version action err m old from a replacing had_uid there r : fails (undo name version action err m old from a replacing had_uid there r).
Proof.
  assert (Hf : ∀ action message r, fails (failed_with name action message r)) by (intros; do 2 (apply fails_bind; intros ?); apply fails_throw).
  unfold undo. cbv zeta. do 2 (apply fails_bind; intros ?). destruct old as [e|]; [destruct from; [|apply Hf]|do 4 (apply fails_bind; intros ?); apply fails_throw].
  apply fails_bind. intros [back|[b r']]; [apply Hf|]. apply fails_bind. intros back. apply Hf.
Qed.

(** A failed first install takes the app's directory away. *)
Definition total {E A} (m : M E A) : Prop := ∀ w, ∃ a w', m w = (inr a, w').
Lemma total_flow_ret {E A} (a : A) : total (ret (E := E) a).
Proof. intros w. by do 2 eexists. Qed.
Lemma total_dismiss {E E' A} (m : M E A) : total (dismiss (E' := E') m).
Proof. intros w. unfold dismiss, bind, try. destruct (m w) as [r w']. by do 2 eexists. Qed.
Lemma total_flow_bind {E A B} (m : M E A) (k : A → M E B) : total m → (∀ a, total (k a)) → total (bind m k).
Proof. intros Hm Hk w. unfold bind. destruct (Hm w) as (a & w' & ->). apply Hk. Qed.
Lemma total_teardown m : total (teardown m).
Proof.
  unfold teardown. apply total_flow_bind; [intros w; unfold try; destruct (unit_list w) as [r w']; by do 2 eexists|]. intros listed. cbv zeta.
  generalize (units_for m sy_init) as l. induction l as [|u l IH]; cbn [each_]; [apply total_flow_ret|]. apply total_flow_bind; [|by intros _].
  apply total_flow_bind; [apply total_dismiss|]. intros _. case_bool_decide; [apply total_dismiss|apply total_flow_ret].
Qed.
Lemma reaches_bind {E A B} (P : World → Prop) (m : M E A) (k : A → M E B) : total m → (∀ a w, P (k a w).2) → ∀ w, P (bind m k w).2.
Proof. intros Hm Hk w. unfold bind. destruct (Hm w) as (a & w' & ->). apply Hk. Qed.
Lemma undo_removes name version action err m from a replacing had_uid there r w :
  let w' := (undo name version action err m None from a replacing had_uid there r w).2 in (∀ i, w_items w' !! (name, i) = None) ∧ w_apps w' !! name = None.
Proof.
  cbv zeta. set (P := λ w', (∀ i, w_items w' !! (name, i) = None) ∧ w_apps w' !! name = None).
  match goal with |- context [snd (?k w)] => change (P (k w).2); revert w; change (∀ w, P (k w).2) end. unfold undo. cbv zeta.
  apply reaches_bind; [apply total_dismiss|]. intros _. apply reaches_bind; [destruct replacing; [apply total_dismiss|apply total_flow_ret]|]. intros _.
  apply reaches_bind; [apply total_teardown|]. intros _. apply reaches_bind; [destruct (_ && _); [apply total_dismiss|apply total_flow_ret]|]. intros _ w.
  unfold bind at 1. rewrite (dismiss_works _ _ _ _ (app_dir_removed name w)). set (w1 := set_items _ _).
  assert (H1 : P w1) by (split; [intros i; cbn; apply map_lookup_filter_None; right; by intros t _ []|apply lookup_delete_eq]).
  assert (Hrest : holds P (let* _ := if there then ret tt else dismiss (remove_data name) in throw (A := Done) (AppFailed (action +:+ " " +:+ name +:+ " " +:+ version +:+ ": " +:+ err)))); [|by apply Hrest].
  apply holds_bind; [|intros _; apply holds_throw]. destruct there; [apply holds_ret|]. apply holds_dismiss. unfold remove_data. apply holds_bind; [|by intros _ w2 Hw2].
  intros w2 Hw2. by rewrite call_works.
Qed.

(** The bundle is of an app that was not installed, and nothing is left of it. *)
Definition gone (w w' : World) (ar : Archive) (n : string) : Prop :=
  ∃ m, peek_manifest ar = inr m ∧ n = mf_name m ∧ smap_get n (rc_apps (w_record w)) = None ∧ (∀ i, w_items w' !! (n, i) = None) ∧ w_apps w' !! n = None.
(** No uid is left for the bundle's app: only the directory of the bundle's
    version is another, the bundle's. *)
Definition starved (w w' : World) (ar : Archive) (err : AppError) : Prop :=
  err = AppRefused "every uid for apps is taken"
  ∧ ∃ m, peek_manifest ar = inr m ∧ w_record w' = w_record w ∧ manifest_at w' (mf_name m) (mf_version m) = inr m
     ∧ ∀ n i, dotted i = false → (n, i) ≠ (mf_name m, mf_version m) → w_items w' !! (n, i) = w_items w !! (n, i).
(** The system as it was. *)
Record unchanged (w w' : World) (ar : Archive) (err : AppError) : Prop := {
  un_record : record_near w (w_record w');
  un_items n i : dotted i = false → w_items w' !! (n, i) = w_items w !! (n, i) ∨ gone w w' ar n;
  un_points m e from : peek_manifest ar = inr m → smap_get (mf_name m) (rc_apps (w_record w)) = Some e → manifest_at w (mf_name m) (in_version (ae_current e)) = inr from →
    app_dir (mf_name m) w' = app_dir (mf_name m) w ∨ points (mf_name m) from w' ∨ ∃ message, err = AppFailed message ∧ told message;
}.
Record upgraded (w w' : World) (ar : Archive) (o : InstallOptions) (d : Done) (m : Manifest) : Prop := {
  ug_admitted : admitted w ar o m;
  ug_done : dn_name d = mf_name m ∧ dn_version d = mf_version m;
  ug_entry : ∃ e, smap_get (mf_name m) (rc_apps (w_record w')) = Some e ∧ in_version (ae_current e) = mf_version m;
  ug_manifest : manifest_at w' (mf_name m) (mf_version m) = inr m;
  ug_points : points (mf_name m) m w';
  ug_others n : n ≠ mf_name m → versions_of <$> smap_get n (rc_apps (w_record w')) = versions_of <$> smap_get n (rc_apps (w_record w)) ∧ ∀ i, w_items w' !! (n, i) = w_items w !! (n, i);
}.

(** The world an install takes over: the record and the directories as they
    were, with the bundle unpacked beside them. *)
Record staged (w w1 : World) (m : Manifest) : Prop := {
  st_root : sy_root = true;
  st_near : near w (mf_name m) None w1;
  st_record : w_record w1 = w_record w;
  st_undotted : undotted w w1;
  st_partial : ∃ t, w_items w1 !! (mf_name m, partial_of (mf_version m)) = Some t ∧ read_manifest t = inr m;
  st_version : dotted (mf_version m) = false;
}.
Lemma from_before w w1 name version e (replacing : bool) from : aside w name version replacing w1 → dotted (in_version (ae_current e)) = false → dotted version = false →
  manifest_at w name (in_version (ae_current e)) = inr from →
  (if replacing && bool_decide (in_version (ae_current e) = version) then ok (manifest_at w1 name (replaced_of version)) else ok (manifest_at w1 name (in_version (ae_current e)))) = Some from.
Proof.
  intros [Ha Hr] Hd Hv Hm. unfold manifest_at in *. destruct (decide (in_version (ae_current e) = version)) as [E|E].
  - rewrite (bool_decide_eq_true_2 (in_version (ae_current e) = version)) by done. rewrite andb_true_r. rewrite E in Hm. destruct replacing; [|by rewrite Hr in Hm].
    destruct Hr as [-> _]. by rewrite Hm.
  - rewrite (bool_decide_eq_false_2 (in_version (ae_current e) = version)) by done. rewrite andb_false_r, Ha; [by rewrite Hm|done|congruence].
Qed.
Lemma take_over_atomic w w1 ar o source m un : record_ok (w_record w) → admitted w ar o m → staged w w1 m →
  match take_over source m un (w_record w) w1 with
  | (inr d, w') => ∃ m, upgraded w w' ar o d m
  | (inl err, w') => starved w w' ar err ∨ unchanged w w' ar err
  end.
Proof.
  intros Hok Had [Hroot Hn Hrec Hu (t & Ht & Hm) Hv]. set (name := mf_name m) in *. set (version := mf_version m) in *.
  assert (Hcur : ∀ v, @None string = Some v → dotted v = false ∧ v ≠ version) by done.
  unfold take_over. fold name version. cbv zeta. set (old := smap_get name (rc_apps (w_record w))).
  destruct (place_works w name version Hv t w1 Hu Ht) as (replacing & w2 & Ep & Ha & Hr2 & Ht2).
  assert (Hn2 : near w name None w2) by (pose proof (near_place w name version None Hcur w1 Hn) as H; by rewrite Ep in H).
  unfold bind at 1, lift at 1. rewrite Ep. unfold bind at 1. cbn [gets]. destruct (make_data_works name w2) as (w3 & Ed & Hr3 & Hi3 & _).
  unfold bind at 1, lift at 1. rewrite Ed. unfold bind at 1. cbn [gets]. set (from := match old with Some _ => _ | None => _ end).
  assert (Ha3 : aside w name version replacing w3) by by apply (aside_frame w name version replacing w2).
  assert (Hn3 : near w name None w3) by by apply (near_frame w name None w2). assert (Ht3 : w_items w3 !! (name, version) = Some t) by by rewrite Hi3.
  assert (Hrec3 : w_record w3 = w_record w) by by rewrite Hr3, Hr2, Hrec.
  clear Hr2 Hr3 Hi3 Ep Ed Ht2 Ha Hn2 Hn Hu Ht.
  assert (Hfrom : ∀ e f, old = Some e → manifest_at w name (in_version (ae_current e)) = inr f → from = Some f).
  { intros e f Ee Hf. unfold from. rewrite Ee. apply (from_before w w3); try done. apply version_not_dotted. by destruct (Hok name e Ee). }
  clearbody from. unfold bind at 1, account_of, history. unfold bind at 1. cbn [gets]. destruct (account (w_calls w3) name m (w_record w)) as [err|[a r']] eqn:Eacc; cbn [of_sum throw ret]; cbv beta iota.
  { left. split; [by eapply account_inl|]. exists m. split; [by eapply ad_peek|]. split; [by rewrite Hrec3|]. split; [unfold manifest_at; fold name version; by rewrite Ht3|]. apply Ha3. }
  apply account_apps in Eacc. set (F := λ w', aside w name version replacing w' ∧ near w name None w' ∧ w_items w' !! (name, version) = Some t).
  assert (HF : ∀ w w', w_record w' = w_record w → w_items w' = w_items w → F w → F w').
  { intros x y E1 E2 (F1 & F2 & F3). split_and!; [by apply (aside_frame w name version replacing x)|by apply (near_frame w name None x)|by rewrite E2]. }
  set (sw := bind (match a with Some a => name_account name (ac_uid a) | None => ret tt end) _).
  assert (Hsw : F (sw w3).2) by (apply (holds_bind F); [destruct a; [by apply frame_accounts_tool|apply holds_ret]|intros _; by apply frame_switch|done]).
  unfold bind at 1, try. destruct (sw w3) as [[err|[]] w4] eqn:Esw; destruct Hsw as (F1 & F2 & F3); cbn [snd] in F1, F2, F3; cbv beta iota.
  - set (u := undo _ _ _ _ _ _ _ _ _ _ _ _ w4). destruct u as [[err'|d] w5] eqn:Eu; [|by apply undo_fails in Eu]. right.
    assert (Hnear : near w name None (u.2)) by (apply near_undo; [done|done| |exact F2]; by apply (record_near_apps w (w_record w))).
    rewrite Eu in Hnear. split; [apply Hnear| |].
    + intros n i Hi. destruct (decide (old = None ∧ n = name)) as [[Hold ->]|Hn].
      { right. exists m. split; [by eapply ad_peek|]. split; [done|]. split; [exact Hold|]. unfold u in Eu. rewrite Hold in Eu.
        match type of Eu with undo ?n ?v ?ac ?er ?mm None ?fr ?aa ?re ?ha ?th ?rr ?ww = _ => pose proof (undo_removes n v ac er mm fr aa re ha th rr ww) as H end. by rewrite Eu in H. }
      left. pose proof (undo_restores w name version Hv (if bool_decide (is_Some old) then "upgrade" else "install") err m old from a replacing (bool_decide (is_Some (smap_get name (rc_uids (w_record w))))) (bool_decide (is_Some (w_data w2 !! name))) r' w4 F1 n i Hi) as H.
      fold u in H. rewrite Eu in H. apply H. intros Hnone ->. by apply Hn.
    + intros m' e f Hp Eold Ef. rewrite (ad_peek _ _ _ _ Had) in Hp. injection Hp as <-. fold name in Eold, Ef |- *. right. fold old in Eold.
      destruct (undo_upgrade w name version Hv (if bool_decide (is_Some old) then "upgrade" else "install") err m e f a replacing (bool_decide (is_Some (smap_get name (rc_uids (w_record w))))) (bool_decide (is_Some (w_data w2 !! name))) r' w4 F1) as (msg & w6 & E6 & _ & Hp).
      unfold u in Eu. rewrite (Hfrom e f Eold Ef), Eold in Eu. rewrite Eold in E6. rewrite E6 in Eu. injection Eu as <- <-. destruct Hp as [Hp|Hp]; [by left|right; by exists msg].
  - destruct (commit_works name version Hv t source (if bool_decide (is_Some old) then "upgrade" else "install") un
        (bool_decide (is_Some (mf_first_run m)) && negb (bool_decide (is_Some (e ← old; smap_get version (ae_first_run e))))) r' w4 F3) as (w5 & Ec & Ht5 & Happs & He).
    pose proof (commit_settled w name version None Hv Hcur m t source (if bool_decide (is_Some old) then "upgrade" else "install") un
        (bool_decide (is_Some (mf_first_run m)) && negb (bool_decide (is_Some (e ← old; smap_get version (ae_first_run e))))) r' w4 Hm) as Hset.
    rewrite Ec. rewrite Ec in Hset. cbn [snd] in Hset. exists m. split; try done.
    + unfold manifest_at. fold name version. by rewrite Ht5.
    + unfold sw in Esw. apply bind_inr in Esw as ([] & w6 & _ & Esw). apply switch_points in Esw. by apply (points_frame name m w4).
    + fold name. intros n Hne. destruct Hset as [[N1 N2]|([R1 _] & R2 & _)]; [by apply (record_near_apps w (w_record w))|done|done| |];
        (split; [auto|]; intros i; first [apply N2|apply R2]; by left).
Qed.
Lemma unchanged_start w w' ar err : same_apps w w' → (∀ name, app_dir name w' = app_dir name w) → unchanged w w' ar err.
Proof. intros [H1 H2] H3. split; [by intros n; rewrite H1|left; by rewrite H2|by left]. Qed.
(** * Properties *)

End atomic.

(** ** A device *)

Definition device (fails : Call → option string) (state : string → string) (fetched : string → Fetched) : System :=
  {| sy_root := true; sy_init := Systemd; sy_arch := "arm64"; sy_euid := 0; sy_egid := 0; sy_logger := false; sy_units := true; sy_accounts := true; sy_shipped := λ _, false;
     sy_fails := λ _ c, fails c; sy_written := λ _, false; sy_left := λ _ _ _, false; sy_chowned := λ _, 1%nat; sy_listed := λ _, []; sy_state := λ _ unit, state unit;
     sy_hook := λ _, HookDone [] [] true; sy_passwd := λ _, Some ("root:x:0:0" +:+ String LF "someone:x:30000:30000"); sy_group := λ _, Some "root:x:0:"; sy_nodes := λ _ _, []; sy_node := λ _ _, None;
     sy_free := λ _, Ok 1000000; sy_now := λ _, "now"; sy_leads := λ _, false; sy_elsewhere := λ _, None; sy_fetched := λ _ url, fetched url; sy_busy := λ _, false |}.
Definition no_bundle : Archive := {| ar_size := 0; ar_sha256 := ""; ar_members := [] |}.
Definition no_fetch (url : string) : Fetched := {| fe_text := []; fe_archive := no_bundle |}.
(** The manifest of an app with one service, at a version its bundle names. *)
Definition demo_manifest (name version : string) (privileges : Privileges) (update : option UpdateSpec) : Manifest :=
  {| mf_schema_version := 1; mf_name := name; mf_version := version; mf_arch := ["all"]; mf_description := ""; mf_units := []; mf_env := []; mf_first_run := None;
     mf_update := update; mf_seed_policy := FollowImage; mf_privileges := privileges; mf_services := if bool_decide (pv_user privileges = AsApp) then [{| as_name := name; as_exec := ["files/run"]; as_enable := true |}] else []; mf_mdns := [] |}.
Definition plain_app : Privileges := {| pv_user := AsApp; pv_capabilities := []; pv_devices := [] |}.
Definition root_app : Privileges := {| pv_user := AsRoot; pv_capabilities := []; pv_devices := [] |}.
Definition demo_update : option UpdateSpec := Some {| us_url := "https://apps.example/latest.json"; us_auto := true |}.
(** A manifest's text: its app, its version and whom it runs as. *)
Definition demo_json : ManifestJson :=
  {| AppBundle.manifest_of := λ text, match split "," (bytes_str text) with
                            | [name; version; user] => Ok (demo_manifest name version (if bool_decide (user = "root") then root_app else plain_app) demo_update)
                            | _ => Err (Msg "json")
                            end |}.
Definition https_urls : Urls := {| scheme_of := λ _, Some "https" |}.
Definition demo_bundle (text : string) : Archive :=
  {| ar_size := 100; ar_sha256 := text; ar_members := [AppBundle.member "mica-app.json" KindFile 420 text ""; AppBundle.member "files/run" KindFile 493 "x" ""] |}.
Definition demo_tree (text : string) : tree := <[["mica-app.json"] := File 420 (str_bytes text)]> ∅.
Definition demo_installed (version sha256 source : string) : Installed := {| in_version := version; in_sha256 := sha256; in_source := source; in_installed_at := "then" |}.
Definition demo_entry (version sha256 : string) (update : UpdateState) : AppEntry :=
  {| ae_current := demo_installed version sha256 "cli"; ae_previous := None; ae_first_run := []; ae_last := None; ae_update := update |}.
Definition demo_world (apps : smap AppEntry) (uids : smap Z) (items : gmap (string * string) tree) (seeds : smap Seeded) : World :=
  {| w_record := {| rc_apps := apps; rc_uids := uids |}; w_seeds := seeds; w_items := items; w_apps := ∅; w_data := ∅; w_calls := [] |}.
Definition by_hand : InstallOptions := {| io_reinstall := false; io_upgrade := false; io_unattended := false; io_ask_privileges := false |}.
Definition no_services : ServicesSettings := {| sv_units := [] |}.

(** An upgrade whose service does not start. *)
Definition failing : System := device (λ _, None) (λ unit, if bool_decide (unit = "demo.service") then "failed" else "active") no_fetch.
Definition one_app : World := demo_world [("demo", demo_entry "0.9" "a" no_update)] [("demo", 30001)] {[ ("demo", "0.9") := demo_tree "demo,0.9,app" ]} [].
Definition failed_upgrade : (AppError + Done) * World := install (SY := failing) (UR := https_urls) (MJ := demo_json) (demo_bundle "demo,1.0,app") "cli" by_hand no_services one_app.
Lemma failed_upgrade_fails : match failed_upgrade with (inl (AppFailed _), w') => ad_current (app_dir "demo" w') = Some "0.9" | _ => False end.
Proof. vm_compute. reflexivity. Qed.

(** A reinstall that returns early - the data directory could not be made -
    leaves the bundle of the refused version in place of the recorded one,
    which stays set aside. *)
Definition no_chmod : System := device (λ c, match c with Chmod _ => Some "io" | _ => None end) (λ _, "active") no_fetch.
Definition again : InstallOptions := {| io_reinstall := true; io_upgrade := false; io_unattended := false; io_ask_privileges := false |}.
Definition one_version : World := demo_world [("demo", demo_entry "1.0" "a" no_update)] [("demo", 30001)] {[ ("demo", "1.0") := demo_tree "demo,1.0,root" ]} [].
Example early_return_keeps_neither :
  match install (SY := no_chmod) (UR := https_urls) (MJ := demo_json) (demo_bundle "demo,1.0,app") "cli" again no_services one_version with
  | (inl (AppFailed _), w') =>
      in_sha256 <$> (ae_current <$> smap_get "demo" (rc_apps (w_record w'))) = Some "a"
      ∧ mf_privileges <$> ok (manifest_at (MJ := demo_json) w' "demo" "1.0") = Some plain_app
      ∧ mf_privileges <$> ok (manifest_at (MJ := demo_json) w' "demo" ".1.0.replaced") = Some root_app
  | _ => False
  end.
Proof. vm_compute. by split_and!. Qed.
(** A walk that stops short leaves files below with their owner, and the next
    one takes the top's for theirs. *)
Definition no_chown : System := device (λ c, match c with ChownTree _ _ => Some "io" | _ => None end) (λ _, "active") no_fetch.
Example walk_not_finished :
  let w := set_data {[ "demo" := [(0, 0); (0, 0); (0, 0)] ]} one_version in
  let '(first_, w1) := own_data (SY := no_chown) "demo" (Some 30001) w in
  let '(second, w2) := own_data (SY := failing) "demo" (Some 30001) w1 in
  first_ = inl "io" ∧ second = inr tt ∧ w_data w2 !! "demo" = Some [(30001, 30001); (0, 0); (0, 0)].
Proof. vm_compute. by split_and!. Qed.
End AppFlow.
