(* ===== verification/AppUpdate.v ===== *)
(** An app's update check ([src/crates/micad/src/apps/update.rs]) and the
    image's seeds ([apps/seed.rs]): flows that start an install of their own,
    and what they may change without anyone asking. *)
From Stdlib Require Import Ascii.
From S2P Require Import Prelude Text Effects Maps Order DebianVersion Chars Addresses Features SettingsModel AppManifest AppRender AppBundle AppFlow.
Import Addresses(hex_digit_of).
Import Effects Features SettingsModel AppManifest AppRender AppBundle AppFlow.

Module AppUpdate.

(** * Version files *)

Definition VERSION_FILE_BYTES : Z := 65536.
Definition INCOMING : string := "/mica/apps/.incoming".
Record BundleRef := { br_url : string; br_sha256 : string; br_size : Z }.
Record VersionFile := { vf_name : string; vf_version : string; vf_bundles : smap BundleRef }.
(** The version file's JSON, and the [url] package: a reference joined to a
    base, with its scheme. *)
Class VersionFiles := { version_file : bytes → result VersionFile; url_join : string → string → option (string * string) }.

Definition newer (a b : string) : bool := bool_decide (DebianVersion.compare a b = Some Gt).
Definition is_available (e : AppEntry) (version : string) : bool :=
  newer version (in_version (ae_current e)) && negb (bool_decide (up_failed (ae_update e) = Some version)).

Section update.
Context `{SY : System} `{UR : Urls} `{MJ : ManifestJson} `{VF : VersionFiles}.

Definition fetch_to (url path : string) (limit : Z) : M string Fetched := let* _ := call (FetchTo url path limit) in let* h := history in ret (sy_fetched h url).
(** The offer a version file holds for this device. *)
Definition offer_in (name url : string) (file : VersionFile) : string + Offer :=
  if negb (bool_decide (vf_name file = name)) then inl "the version file is another app's"
  else if negb (is_version (vf_version file)) then inl "the version file's version is not a version"
  else
    match match smap_get sy_arch (vf_bundles file) with Some b => Some b | None => smap_get "all" (vf_bundles file) end with
    | None => inl "the version file has no bundle for this device"
    | Some b =>
        match url_join url (br_url b) with
        | None => inl "the bundle URL"
        | Some (scheme, resolved) =>
            if negb (bool_decide (scheme = "https")) then inl "the bundle URL is not https"
            else if negb ((str_len (br_sha256 b) =? 64) && all_bytes (λ c, bool_decide (is_Some (hex_digit_of c))) (br_sha256 b)) then inl "the bundle's sha256 is not 64 hex digits"
            else if MAX_ARCHIVE_BYTES <? br_size b then inl "the bundle is above 256 MiB"
            else inr {| of_version := vf_version file; of_url := resolved; of_sha256 := to_ascii_lowercase (br_sha256 b); of_size := br_size b |}
        end
    end.
Definition read_offer (name url : string) : M string Offer :=
  let* _ := call (MakeDir INCOMING) in
  let path := INCOMING +:+ "/." +:+ name +:+ ".version.json" in
  let* text := try (let* fetched := fetch_to url path VERSION_FILE_BYTES in let* _ := call (ReadMeta path) in ret (fe_text fetched)) in
  let* _ := dismiss (call (RemoveFile path)) in
  let* text := of_sum text in
  let* file := of_result "the version file does not parse" (version_file text) in
  of_sum (offer_in name url file).

Definition put_update (name : string) (e : AppEntry) (u : UpdateState) (r : Record_) : Record_ := with_apps (smap_insert name (with_update u e) (rc_apps r)) r.
Record Checked := { ck_latest : string; ck_available : bool; ck_auto : bool }.
Definition check_update (name : string) : M AppError Checked :=
  let* r := read_record in
  let* e := entry_of name r in
  let* m := manifest_of name (in_version (ae_current e)) in
  match mf_update m with
  | None => throw (AppRefused (name +:+ " names no update URL"))
  | Some spec =>
      let* checked := try (read_offer name (us_url spec)) in
      let* r := read_record in
      let* e := entry_of name r in
      let* h := history in
      let u := ae_update e in
      match checked with
      | inr offer =>
          let u := {| up_checked_at := Some (sy_now h); up_latest := Some offer; up_error := None; up_failed := up_failed u; up_asked := up_asked u |} in
          let* _ := write_record (put_update name e u r) in
          ret {| ck_latest := of_version offer; ck_available := is_available e (of_version offer); ck_auto := us_auto spec |}
      | inl err =>
          let u := {| up_checked_at := Some (sy_now h); up_latest := up_latest u; up_error := Some err; up_failed := up_failed u; up_asked := up_asked u |} in
          let* _ := write_record (put_update name e u r) in throw (AppFailed err)
      end
  end.

(** What a bundle asks for is in what was accepted. *)
Definition covers (accepted delta : PrivilegeDelta) : bool :=
  (negb (dl_root delta) || dl_root accepted)
  && forallb (λ c, bool_decide (c ∈ dl_capabilities accepted)) (dl_capabilities delta)
  && forallb (λ d, bool_decide (d ∈ dl_devices accepted)) (dl_devices delta).
Definition asks_within (e : AppEntry) (ar : Archive) (accepted : PrivilegeDelta) (w : World) : bool :=
  match peek_manifest ar with
  | inl _ => false
  | inr next =>
      match manifest_at w (mf_name next) (in_version (ae_current e)) with
      | inl _ => false
      | inr installed => match privilege_delta (Some (mf_privileges installed)) (mf_privileges next) with None => true | Some delta => covers accepted delta end
      end
  end.
(** The privileges asked about that the update names. *)
Definition accepted_of (e : AppEntry) (offer : Offer) (accept : string) : option PrivilegeDelta :=
  a ← up_asked (ae_update e);
  if negb (is_empty accept) && bool_decide (aq_version a = accept) && bool_decide (aq_version a = of_version offer) && bool_decide (aq_sha256 a = of_sha256 offer)
  then Some (aq_privileges a) else None.
Definition fetch_bundle (offer : Offer) (path : string) : M string Archive :=
  let* fetched := fetch_to (of_url offer) path (of_size offer) in
  let* _ := call (ReadMeta path) in
  let ar := fe_archive fetched in
  if negb (ar_size ar =? of_size offer) || negb (bool_decide (ar_sha256 ar = of_sha256 offer)) then throw "the bundle fetched is not the one the version file names"
  else ret ar.
(** What an update leaves in the record. *)
Definition noted_update (offer : Offer) (outcome : AppError + Done) (u : UpdateState) : UpdateState :=
  match outcome with
  | inl (AppPrivileges _ delta) =>
      {| up_checked_at := up_checked_at u; up_latest := up_latest u; up_error := up_error u; up_failed := up_failed u;
         up_asked := Some {| aq_version := of_version offer; aq_sha256 := of_sha256 offer; aq_privileges := delta |} |}
  | inl _ => {| up_checked_at := up_checked_at u; up_latest := up_latest u; up_error := up_error u; up_failed := Some (of_version offer); up_asked := up_asked u |}
  | inr _ => {| up_checked_at := up_checked_at u; up_latest := up_latest u; up_error := up_error u; up_failed := up_failed u; up_asked := None |}
  end.
Definition fetch_update (name : string) (services : ServicesSettings) (unattended : bool) (accept : string) : M AppError Done :=
  let* _ := check_update name in
  let* r := read_record in
  let* e := entry_of name r in
  match (offer ← up_latest (ae_update e); if is_available e (of_version offer) then Some offer else None) with
  | None => throw (AppRefused ("no newer version of " +:+ name +:+ " is offered"))
  | Some offer =>
      let accepted := accepted_of e offer accept in
      let path := INCOMING +:+ "/." +:+ name +:+ "-" +:+ of_version offer +:+ ".tar.gz" in
      let* fetched := try (fetch_bundle offer path) in
      let* installed := match fetched with
                        | inr ar =>
                            let* agreed := gets (λ w, match accepted with Some a => asks_within e ar a w | None => false end) in
                            try (install ar "url" {| io_reinstall := false; io_upgrade := true; io_unattended := unattended;
                                                     io_ask_privileges := negb unattended && negb agreed |} services)
                        | inl err => ret (inl (AppFailed err))
                        end in
      let* _ := dismiss (call (RemoveFile path)) in
      let* r := read_record in
      let* _ := match smap_get name (rc_apps r) with
                | Some e => write_record (put_update name e (noted_update offer installed (ae_update e)) r)
                | None => ret tt
                end in
      of_sum installed
  end.
Definition update (name : string) (services : ServicesSettings) (accept : string) : M AppError Done := fetch_update name services false accept.

(** ** One flow at a time *)
Definition begin (busy : bool) : AppError + Datatypes.unit :=
  if negb sy_root then inl (AppRefused "this daemon keeps no apps") else if busy then inl AppBusy else inr tt.
(** An app with an update URL, checked; updated too, with [auto]. *)
Definition check_app (name : string) (auto : bool) (services : ServicesSettings) : M AppError Datatypes.unit :=
  let* checked := check_update name in
  if auto && ck_available checked then let* _ := fetch_update name services true "" in ret tt else ret tt.
Definition check_all (services : ServicesSettings) : M AppError Datatypes.unit :=
  let* r := read_record in
  each_ (λ e : string * AppEntry,
    let* m := gets (λ w, manifest_at w e.1 (in_version (ae_current e.2))) in
    match ok m ≫= mf_update with
    | None => ret tt
    | Some spec =>
        let* h := history in
        match begin (sy_busy h) with inl _ => ret tt | inr _ => dismiss (check_app e.1 (us_auto spec) services) end
    end) (rc_apps r).
End update.

(** * Seeds *)

Definition SEED_TRIES : Z := 2.
Definition seeded (version sha256 result : string) : Seeded :=
  {| sd_version := version; sd_sha256 := sha256; sd_result := result; sd_error := None; sd_failed_sha256 := None; sd_tries := 0 |}.
(** What the rule says of a seed: what to answer, or to take it, with
    [upgrade] over the app installed. *)
Inductive Rule := Skip | Leave (why : string) | Take (upgrade : bool).
Definition newer_seed (sha256 version : string) (had : Seeded) (i : Installed) (policy : SeedPolicy) : Rule :=
  if bool_decide (policy = Once) then Leave "once"
  else if negb (bool_decide (in_version i = sd_version had)) || negb (bool_decide (in_sha256 i = sd_sha256 had)) then Leave "changed by the user"
  else if negb (newer version (in_version i)) then Leave "not newer" else Take true.
Definition seed_rule (sha256 version : string) (had : option Seeded) (installed : option Installed) (policy : SeedPolicy) : Rule :=
  match had with
  | None => if bool_decide (is_Some installed) then Skip else Take false
  | Some had =>
      if bool_decide (sd_sha256 had = sha256) then
        if negb (bool_decide (sd_result had = "failed")) || (SEED_TRIES <=? sd_tries had) then Leave "unchanged"
        else if bool_decide (is_Some installed) then Leave "unchanged" else Take false
      else if bool_decide (sd_result had = "failed") && negb (bool_decide (is_Some installed)) then Take false
      else if bool_decide (sd_failed_sha256 had = Some sha256) && (SEED_TRIES <=? sd_tries had) then Leave "unchanged"
      else match installed with None => Leave "not installed" | Some i => newer_seed sha256 version had i policy end
  end.
(** The record of a seed that failed. *)
Definition failed_seed (sha256 version error : string) (had : option Seeded) (upgrade : bool) : Seeded :=
  match had, upgrade with
  | Some had, true =>
      let tries := if bool_decide (sd_failed_sha256 had = Some sha256) then sd_tries had else 0 in
      {| sd_version := sd_version had; sd_sha256 := sd_sha256 had; sd_result := sd_result had; sd_error := Some error; sd_failed_sha256 := Some sha256; sd_tries := tries + 1 |}
  | _, _ =>
      let tries := match had with Some had => if bool_decide (sd_sha256 had = sha256) then sd_tries had else 0 | None => 0 end in
      {| sd_version := version; sd_sha256 := sha256; sd_result := "failed"; sd_error := Some error; sd_failed_sha256 := None; sd_tries := tries + 1 |}
  end.

Section seed.
Context `{SY : System} `{UR : Urls} `{MJ : ManifestJson}.

Definition read_seed_record {E} : M E (smap Seeded) := gets (λ w, if sy_root then w_seeds w else []).
Definition write_seed_record (r : smap Seeded) : M AppError Datatypes.unit := lift AppFailed (write WriteSeeds (set_seeds r)).
Definition policy_of (name : string) (peeked : Refusal + Manifest) (installed : option Installed) (w : World) : SeedPolicy :=
  match match installed with Some i => ok (manifest_at w name (in_version i)) | None => None end with
  | Some m => mf_seed_policy m
  | None => match peeked with inr m => mf_seed_policy m | inl _ => FollowImage end
  end.
Definition take_seed (name : string) (ar : Archive) (peeked : Refusal + Manifest) (upgrade : bool) (services : ServicesSettings) : M AppError Datatypes.unit :=
  match peeked with
  | inr m =>
      if negb (bool_decide (mf_name m = name)) then throw (AppRefused "the seed holds another app")
      else let* _ := install ar "seed" {| io_reinstall := false; io_upgrade := upgrade; io_unattended := false; io_ask_privileges := false |} services in ret tt
  | inl e => throw (AppRefused (shown (of_refusal e)))
  end.
Definition seed_one (name : string) (ar : Archive) (services : ServicesSettings) : M AppError string :=
  let sha256 := ar_sha256 ar in
  let* record := read_seed_record in
  let* r := read_record in
  let installed := ae_current <$> smap_get name (rc_apps r) in
  let peeked := peek_manifest ar in
  let version := match peeked with inr m => mf_version m | inl _ => "" end in
  let had := smap_get name record in
  let* policy := gets (policy_of name peeked installed) in
  match seed_rule sha256 version had installed policy with
  | Skip => let* _ := write_seed_record (smap_insert name (seeded version sha256 "skipped") record) in ret "skipped"
  | Leave why => ret why
  | Take upgrade =>
      let* outcome := try (take_seed name ar peeked upgrade services) in
      match outcome with
      | inr _ =>
          let result := if upgrade then "upgraded" else "installed" in
          let* _ := write_seed_record (smap_insert name (seeded version sha256 result) record) in ret result
      | inl err =>
          let* _ := write_seed_record (smap_insert name (failed_seed sha256 version (shown err) had upgrade) record) in throw err
      end
  end.
(** The image's seeds, by file name; what each did. *)
Definition seed_files (files : list (string * Archive)) : smap Archive :=
  foldl (λ seeds f, if ends_with ".tar.gz" f.1 then smap_insert f.1 f.2 seeds else seeds) [] files.
Fixpoint seed_each (services : ServicesSettings) (seeds : smap Archive) : M AppError (smap (AppError + string)) :=
  match seeds with
  | [] => ret []
  | (file, ar) :: seeds =>
      let name := default "" (strip_suffix ".tar.gz" file) in
      let* did := try (seed_one name ar services) in
      let* done := seed_each services seeds in ret (smap_insert name did done)
  end.
Definition seed (files : list (string * Archive)) (services : ServicesSettings) : M AppError (smap (AppError + string)) :=
  if negb sy_root then ret [] else seed_each services (seed_files files).
End seed.

(** * What an update may take *)

Section privileges.
Context `{SY : System} `{UR : Urls} `{MJ : ManifestJson} `{VF : VersionFiles}.

(** What an app may do: the privileges of the version recorded. *)
Definition privileges_of (w : World) (name : string) : option Privileges :=
  e ← smap_get name (rc_apps (w_record w)); m ← ok (manifest_at w name (in_version (ae_current e))); Some (mf_privileges m).
(** No more than [p] and what was accepted. *)
Definition extends (p' p : Privileges) (accepted : PrivilegeDelta) : Prop :=
  match pv_user p' with
  | AsRoot => pv_user p = AsRoot ∨ dl_root accepted = true
  | AsApp => pv_user p = AsRoot ∨ pv_capabilities p' ⊆ pv_capabilities p ++ dl_capabilities accepted ∧ pv_devices p' ⊆ pv_devices p ++ dl_devices accepted
  end.
Lemma new_items_accepted had now accepted : forallb (λ c, bool_decide (c ∈ accepted)) (new_items (Some had) now) = true → now ⊆ had ++ accepted.
Proof.
  intros H c Hc. apply elem_of_app. destruct (decide (c ∈ had)) as [Hi|Hi]; [by left|right]. rewrite forallb_forall in H. specialize (H c).
  apply bool_decide_eq_true in H; [done|]. apply filter_In. split; [by apply list_elem_of_In|]. by rewrite bool_decide_eq_false_2.
Qed.
Lemma covers_extends p p' delta accepted : privilege_delta (Some p) p' = Some delta → covers accepted delta = true → extends p' p accepted.
Proof.
  unfold privilege_delta, covers, extends. cbv beta iota. destruct (decide (pv_user p = AsRoot)) as [Hp|Hp]; [by rewrite bool_decide_eq_true_2|].
  rewrite (bool_decide_eq_false_2 (pv_user p = AsRoot)) by done. destruct (pv_user p').
  - rewrite (bool_decide_eq_false_2 (AsApp = AsRoot)) by congruence. case_bool_decide as Hnd; [done|]. intros [= <-] H. cbn in H. apply andb_true_iff in H as [H1 H2]. right. split; by apply new_items_accepted.
  - rewrite (bool_decide_eq_true_2 (AsRoot = AsRoot)) by done. case_bool_decide as Hnd; [done|]. intros [= <-] H. cbn in H. rewrite !andb_true_r in H. by right.
Qed.
Lemma within_extends p' p accepted : within p' p → extends p' p accepted.
Proof. unfold within, extends. intros [H|(-> & H1 & H2)]; [destruct (pv_user p'); by left|]. right. set_solver. Qed.

(** The same versions recorded, of the same bundles. *)
Definition still (w0 w : World) : Prop := record_near w0 (w_record w) ∧ w_items w = w_items w0.
Lemma still_frame w0 w w' : w_record w' = w_record w → w_items w' = w_items w → still w0 w → still w0 w'.
Proof. unfold still. intros -> ->. done. Qed.
Lemma still_refl w : still w w.
Proof. by split. Qed.
Lemma still_trans w0 w1 w2 : still w0 w1 → still w1 w2 → still w0 w2.
Proof. intros [H1 H2] [H3 H4]. split; [intros n; by rewrite H3|by rewrite H4]. Qed.
Lemma still_privileges w0 w n : still w0 w → privileges_of w n = privileges_of w0 n.
Proof.
  intros [H1 H2]. specialize (H1 n). unfold privileges_of, manifest_at. rewrite H2. destruct (smap_get n (rc_apps (w_record w))) as [e|], (smap_get n (rc_apps (w_record w0))) as [e0|]; try done.
  cbn in H1 |- *. by injection H1 as -> _.
Qed.
Lemma versions_ok w0 r : record_near w0 r → record_ok (w_record w0) → record_ok r.
Proof.
  intros H Hok n e He. specialize (H n). rewrite He in H. cbn in H. destruct (smap_get n (rc_apps (w_record w0))) as [e0|] eqn:E0; [|done].
  injection H as E1 E2. destruct (Hok n e0 E0) as [O1 O2]. by rewrite E1, E2.
Qed.
Lemma still_ok w0 w : still w0 w → record_ok (w_record w0) → record_ok (w_record w).
Proof. intros [H _]. by apply versions_ok. Qed.
Lemma still_write_record w0 r : record_near w0 r → holds (still w0) (write_record r).
Proof.
  intros Hr w [H1 H2]. unfold write_record, lift, write. destruct (sy_fails _ _); [destruct (sy_written _)|]; by split.
Qed.
Lemma put_update_near w0 name e u r : record_near w0 r → smap_get name (rc_apps r) = Some e → record_near w0 (put_update name e u r).
Proof.
  intros Hr He n. cbn. rewrite smap_get_insert. case_bool_decide; [|apply Hr]. subst n. rewrite <- (Hr name), He. done.
Qed.
Lemma entry_of_some name r w e w' : entry_of name r w = (inr e, w') → smap_get name (rc_apps r) = Some e ∧ w' = w.
Proof. unfold entry_of. destruct (smap_get name (rc_apps r)); by intros [= <- <-]. Qed.
(** The rest of a flow that read the record and an app's entry of it. *)
Lemma entry_step {A} (I P : World → Prop) name (k : Record_ → AppEntry → M AppError A) :
  (∀ e w, smap_get name (rc_apps (w_record w)) = Some e → I w → P (k (w_record w) e w).2) → (∀ w, I w → P w) →
  ∀ w, I w → P (bind read_record (λ r, bind (entry_of name r) (k r)) w).2.
Proof.
  intros Hk Hp w Hw. unfold bind, read_record, gets. destruct sy_root; [|by apply Hp]. unfold entry_of.
  destruct (smap_get name (rc_apps (w_record w))) as [e|] eqn:E; [|by apply Hp]. by apply Hk.
Qed.
Section check.
Context (I : World → Prop) (Hframe : ∀ w w', w_record w' = w_record w → w_items w' = w_items w → I w → I w') (name : string).
Lemma keeps_write_record r w : I w → I (set_record r w) → I (write_record r w).2.
Proof.
  intros Hw Hr. unfold write_record, lift, write.
  assert (I (set_record r (asked WriteRecord w))) by by apply (Hframe (set_record r w)). assert (I (asked WriteRecord w)) by by apply (Hframe w).
  by destruct (sy_fails _ _); [destruct (sy_written _)|].
Qed.
Context (Hput : ∀ w e u, smap_get name (rc_apps (w_record w)) = Some e → up_asked u = up_asked (ae_update e) → I w → I (set_record (put_update name e u (w_record w)) w)).
Lemma read_offer_keeps url : holds I (read_offer name url).
Proof. unfold read_offer, fetch_to, history. holds; by apply frame_call. Qed.
Lemma check_update_keeps : holds I (check_update name).
Proof.
  intros w Hw. unfold check_update. apply (entry_step I I); [|done|done]. clear w Hw. intros e w _ Hw. unfold manifest_of.
  apply (leads_step I); [by apply holds_bind; [apply holds_gets|intros r; apply holds_lift, holds_of_sum|]|clear Hw; intros m w1 _ Hw|done].
  destruct (mf_update m) as [spec|]; [|done]. apply (leads_step I); [by apply holds_try; [apply read_offer_keeps|]|clear Hw; intros checked w2 _ Hw|done].
  apply (entry_step I I); [|done|done]. clear e w w1 w2 Hw. intros e w He Hw. unfold history. unfold bind at 1. cbn [gets]. cbv zeta.
  destruct checked; (apply (leads_step I); [by apply keeps_write_record; [|apply Hput]|done|done]).
Qed.
End check.
Lemma still_put w0 name w e u : smap_get name (rc_apps (w_record w)) = Some e → still w0 w → still w0 (set_record (put_update name e u (w_record w)) w).
Proof. intros He [H1 H2]. split; [|done]. by apply put_update_near. Qed.
Definition asked_same (w0 w : World) : Prop :=
  ∀ n, (λ e, up_asked (ae_update e)) <$> smap_get n (rc_apps (w_record w)) = (λ e, up_asked (ae_update e)) <$> smap_get n (rc_apps (w_record w0)).
Lemma check_update_still w0 name : holds (λ w, still w0 w ∧ asked_same w0 w) (check_update name).
Proof.
  apply check_update_keeps.
  - intros w w' H1 H2 [H3 H4]. split; [by apply (still_frame w0 w)|]. intros n. rewrite H1. apply H4.
  - intros w e u He Hu [H3 H4]. split; [by apply still_put|]. intros n. cbn. rewrite smap_get_insert. case_bool_decide as En; [subst n|apply H4].
    rewrite <- (H4 name), He. cbn. by rewrite Hu.
Qed.

(** An install over an app, as a version it does not have: every app may do
    what it could, or one has the bundle it was admitted for. *)
Definition replaces (w w' : World) (ar : Archive) (o : InstallOptions) (m : Manifest) : Prop :=
  admitted w ar o m ∧ (∀ n, n ≠ mf_name m → privileges_of w' n = privileges_of w n) ∧ privileges_of w' (mf_name m) = Some (mf_privileges m).
Lemma near_privileges w0 w name cur n : (∀ e, smap_get name (rc_apps (w_record w0)) = Some e → cur = Some (in_version (ae_current e))) →
  versions_of <$> smap_get n (rc_apps (w_record w)) = versions_of <$> smap_get n (rc_apps (w_record w0)) → items_near w0 name cur w → privileges_of w n = privileges_of w0 n.
Proof.
  intros Hc H1 H2. unfold privileges_of, manifest_at.
  destruct (smap_get n (rc_apps (w_record w))) as [e|], (smap_get n (rc_apps (w_record w0))) as [e0|] eqn:E0; try done. cbn in H1 |- *. injection H1 as -> _.
  rewrite H2; [done|]. destruct (decide (n = name)) as [->|]; [right|by left]. by apply Hc.
Qed.
Lemma settled_ok w name version cur m w' : is_version version = true → settled w name version cur m w' → record_ok (w_record w) → record_ok (w_record w').
Proof.
  intros Hvm [[N1 _]|([R1 (e' & He' & Hv & Hprev)] & _)] Hok; [by apply (versions_ok w)|]. intros n en Hn. destruct (decide (n = name)) as [->|Hnn].
  - rewrite He' in Hn. injection Hn as <-. split; [by rewrite Hv|]. intros p (e0 & He0 & Hp)%Hprev. destruct (Hok _ _ He0) as [O1 O2]. destruct Hp as [->|Hp]; [done|by apply O2].
  - specialize (R1 n Hnn). rewrite Hn in R1. destruct (smap_get n (rc_apps (w_record w))) as [e0|] eqn:E0; [|done]. injection R1 as E1 E2. rewrite E1, E2. by apply (Hok n).
Qed.
Lemma admitted_version w ar o m : admitted w ar o m → is_version (mf_version m) = true.
Proof. intros H. apply (ap_version _ _ (check_fields_accepted _ _ _ (ad_fields _ _ _ _ H))). Qed.
Lemma install_privileges ar source o services w : record_ok (w_record w) → io_upgrade o = true → io_reinstall o = false →
  let w' := (install ar source o services w).2 in
  record_ok (w_record w') ∧ ((∀ n, privileges_of w' n = privileges_of w n) ∨ ∃ m, replaces w w' ar o m).
Proof.
  intros Hok Hup Hre. cbv zeta. destruct (admit_ ar o services w) as [[err|m] w1] eqn:Ea.
  { rewrite (admit_inl _ _ _ _ _ _ Ea). cbn. pose proof (admit_same ar o services w) as [S1 S2]. rewrite Ea in S1, S2. cbn in S1, S2. rewrite S1. split; [done|left].
    intros n. apply still_privileges. split; [by rewrite S1|done]. }
  pose proof (admit_inr _ _ _ _ _ _ Ea) as Had. destruct (ad_upgrade _ _ _ _ Had Hup) as [e He]. set (cur := Some (in_version (ae_current e))).
  assert (Hne : in_version (ae_current e) ≠ mf_version m) by (intros Hv; pose proof (ad_again _ _ _ _ Had e He Hv); congruence).
  pose proof (install_settles ar source o services w m w1 cur Ea) as Hs. destruct (install ar source o services w) as [res w']. cbn [snd] in *.
  assert (Hset : settled w (mf_name m) (mf_version m) cur m w').
  { apply Hs. intros v [= <-]. split_and!; [apply version_not_dotted; by destruct (Hok _ _ He)|done|by exists e]. }
  split; [by eapply settled_ok; [eapply admitted_version| |]|]. destruct Hset as [[N1 N2]|([R1 (e' & He' & Hv & Hprev)] & R2 & t & Ht & Hm)].
  - left. intros n. apply (near_privileges w w' (mf_name m) cur); [|apply N1|done]. intros e0. rewrite He. by intros [= ->].
  - right. exists m. split; [done|]. split.
      * intros n Hn. apply (near_privileges w w' (mf_name m) cur); [|by apply R1|done]. intros e0. rewrite He. by intros [= ->].
      * unfold privileges_of, manifest_at. rewrite He'. cbn. rewrite Hv. unfold has in Ht. by rewrite Ht, Hm.
Qed.

(** What may have become of each app: what it could do already, or with
    [agreed], for [name], what was accepted with it. *)
Definition no_more (w0 : World) (name : string) (agreed : option PrivilegeDelta) (w : World) : Prop :=
  record_ok (w_record w) ∧ ∀ n p', (agreed = None ∨ n = name) → privileges_of w n = Some p' →
    ∃ p, privileges_of w0 n = Some p ∧ (within p' p ∨ ∃ a, agreed = Some a ∧ extends p' p a).
Lemma still_no_more w0 name agreed w w' : still w w' → no_more w0 name agreed w → no_more w0 name agreed w'.
Proof. intros Hs [H1 H2]. split; [by apply (still_ok w)|]. intros n p' Hn. rewrite (still_privileges w w' n Hs). by apply H2. Qed.
Lemma no_more_start w name agreed : record_ok (w_record w) → no_more w name agreed w.
Proof. intros H. split; [done|]. intros n p' _ Hp. exists p'. split; [done|]. left. apply within_refl. Qed.
Lemma holds_still {E A} (m : M E A) w0 name agreed : (∀ w1, holds (still w1) m) → holds (no_more w0 name agreed) m.
Proof. intros Hm w Hw. apply (still_no_more _ _ _ w); [apply Hm, still_refl|done]. Qed.

(** The privileges asked about that an update accepts. *)
Definition agreed_to (w : World) (name accept : string) : option PrivilegeDelta :=
  e ← smap_get name (rc_apps (w_record w)); a ← up_asked (ae_update e);
  if negb (is_empty accept) && bool_decide (aq_version a = accept) then Some (aq_privileges a) else None.
Lemma accepted_agreed w0 w name e offer accept a : asked_same w0 w → smap_get name (rc_apps (w_record w)) = Some e → accepted_of e offer accept = Some a → agreed_to w0 name accept = Some a.
Proof.
  intros Hs He. specialize (Hs name). rewrite He in Hs. unfold agreed_to, accepted_of. destruct (smap_get name (rc_apps (w_record w0))) as [e0|]; [|done]. cbn in Hs |- *. injection Hs as <-.
  destruct (up_asked (ae_update e)) as [q|]; [|done]. cbn. destruct (negb (is_empty accept) && bool_decide (aq_version q = accept)); [|done]. cbn. destruct (_ && _); [done|done].
Qed.
Lemma install_no_more w0 w name services ar source (agreed : option PrivilegeDelta) e (a : option PrivilegeDelta) o :
  record_ok (w_record w0) → still w0 w → smap_get name (rc_apps (w_record w0)) = Some e → (∀ d, a = Some d → agreed = Some d) →
  io_upgrade o = true → io_reinstall o = false → io_unattended o || io_ask_privileges o = true ∨ (∃ d, a = Some d ∧ asks_within e ar d w = true) →
  no_more w0 name agreed (install ar source o services w).2.
Proof.
  intros Hok Hst He Ha Hup Hre Hwhy. pose proof (install_privileges ar source o services w (still_ok _ _ Hst Hok) Hup Hre) as [Hok' Hp].
  destruct (install ar source o services w) as [res w']. cbn [snd] in *. split; [done|]. intros n p' Hn Hp'.
  assert (Hsame : privileges_of w' n = privileges_of w n → ∃ p, privileges_of w0 n = Some p ∧ (within p' p ∨ ∃ d, agreed = Some d ∧ extends p' p d)).
  { intros E. rewrite E, (still_privileges w0 w n Hst) in Hp'. exists p'. split; [done|]. left. apply within_refl. }
  destruct Hp as [Hp|(m & Had & Hoth & Hnew)]; [by apply Hsame|]. destruct (decide (n = mf_name m)) as [->|Hne]; [|by apply Hsame, Hoth].
  rewrite Hnew in Hp'. injection Hp' as <-. destruct (ad_upgrade _ _ _ _ Had Hup) as [e' He'].
  destruct Hwhy as [Hask|(d & -> & Hwithin)].
  - destruct (ad_asks _ _ _ _ Had Hask e' He') as (m' & Hm' & Hw'). exists (mf_privileges m'). split; [|by left].
    rewrite <- (still_privileges w0 w _ Hst). unfold privileges_of. rewrite He'. cbn. by rewrite Hm'.
  - specialize (Ha d eq_refl). destruct Hn as [Hn|Hn]; [congruence|]. unfold asks_within in Hwithin. rewrite (ad_peek _ _ _ _ Had), Hn in Hwithin.
    destruct (manifest_at w name (in_version (ae_current e))) as [|installed] eqn:Em; [done|]. exists (mf_privileges installed). split.
    + unfold privileges_of. rewrite Hn, He. cbn. unfold manifest_at in *. rewrite (proj2 Hst) in Em. by rewrite Em.
    + destruct (privilege_delta _ _) as [delta|] eqn:Ed; [right; exists d; split; [done|by eapply covers_extends]|left; by apply privilege_delta_none].
Qed.
Lemma no_more_base w0 w1 name agreed w : still w0 w1 → no_more w1 name agreed w → no_more w0 name agreed w.
Proof. intros Hs [H1 H2]. split; [done|]. intros n p' Hn Hp. destruct (H2 n p' Hn Hp) as (p & E & H). exists p. by rewrite <- (still_privileges w0 w1 n Hs). Qed.
Lemma no_more_put w0 name agreed w n e u : smap_get n (rc_apps (w_record w)) = Some e → no_more w0 name agreed w → no_more w0 name agreed (set_record (put_update n e u (w_record w)) w).
Proof. intros He. apply still_no_more. apply still_put; [done|apply still_refl]. Qed.
Lemma no_more_frame w0 name agreed w w' : w_record w' = w_record w → w_items w' = w_items w → no_more w0 name agreed w → no_more w0 name agreed w'.
Proof. intros H1 H2. apply still_no_more. split; [by rewrite H1|done]. Qed.
Lemma fetch_bundle_frame (P : World → Prop) offer path : (∀ w w', w_record w' = w_record w → w_items w' = w_items w → P w → P w') → holds P (fetch_bundle offer path).
Proof. intros Hf. unfold fetch_bundle, fetch_to, history. holds; by apply frame_call. Qed.
Lemma fetch_update_no_more w0 name services unattended accept : record_ok (w_record w0) →
  no_more w0 name (agreed_to w0 name accept) (fetch_update name services unattended accept w0).2.
Proof.
  intros Hok. set (agreed := agreed_to w0 name accept). set (I := λ w, still w0 w ∧ asked_same w0 w). set (P := no_more w0 name agreed).
  assert (HIP : ∀ w, I w → P w) by (intros w [Hs _]; by apply (still_no_more _ _ _ w0), no_more_start).
  assert (HPf := no_more_frame w0 name agreed). unfold fetch_update.
  apply (leads_step I); [by apply check_update_still|clear HPf; intros _ w _ Hw; assert (HPf := no_more_frame w0 name agreed)|done].
  revert w Hw. apply (entry_step I P); [|done]. intros e w He Hw.
  destruct (offer ← up_latest (ae_update e); if is_available e (of_version offer) then Some offer else None) as [offer|]; [|by apply HIP]. cbv zeta.
  assert (Hsf := still_frame w). apply (leads_step (still w)); [apply holds_try; [by apply fetch_bundle_frame|apply still_refl]|intros fetched w2 _ Hw2|].
  2: { intros w' Hs. apply (still_no_more _ _ _ w); [done|by apply HIP]. }
  assert (Hbase : no_more w name agreed w2) by (apply (still_no_more _ _ _ w), no_more_start; [done|]; by apply (still_ok w0 w); [apply Hw|]).
  apply (leads_step P); [|clear Hbase; intros outcome w3 _ Hw3|done].
  - apply (no_more_base w0 w); [apply Hw|]. destruct fetched as [err|ar]; [done|]. unfold bind at 1. cbn [gets]. unfold try.
    set (o := {| io_reinstall := false |}).
    pose proof (install_no_more w w2 name services ar "url" agreed e (accepted_of e offer accept) o (still_ok _ _ (proj1 Hw) Hok) Hw2 He) as Hi.
    destruct (install ar "url" o services w2) as [res w3]. apply Hi; [intros d; apply accepted_agreed with w; [apply Hw|done]|done|done|].
    cbn. destruct unattended; [by left|]. cbn. destruct (accepted_of e offer accept) as [d|]; [|by left]. destruct (asks_within e ar d w2) eqn:Ew; [right; by exists d|by left].
  - revert w3 Hw3. apply holds_bind; [by apply holds_dismiss, frame_call|]. intros _ w3 Hw3. unfold bind at 1, read_record. cbn [gets].
    apply (leads_step P); [|intros _ w4 _ Hw4; by destruct outcome|done].
    destruct (smap_get name (rc_apps (if sy_root then w_record w3 else no_record))) as [e3|] eqn:E3; [|done]. destruct sy_root; [|done].
    apply keeps_write_record; [done..|]. by apply no_more_put.
Qed.
(** ** A daily check *)
Lemma no_more_trans w0 w1 w2 name name' : no_more w0 name None w1 → no_more w1 name' None w2 → no_more w0 name None w2.
Proof.
  intros [_ H1] [H2 H3]. split; [done|]. intros n p' Hn Hp. destruct (H3 n p' (or_introl eq_refl) Hp) as (p & Ep & [Hw|(a & Ha & _)]); [|done].
  destruct (H1 n p Hn Ep) as (q & Eq & [Hq|(a & Ha & _)]); [|done]. exists q. split; [done|]. left. by apply within_trans with p.
Qed.
Lemma agreed_empty w name : agreed_to w name "" = None.
Proof. unfold agreed_to. destruct (smap_get name (rc_apps (w_record w))); [|done]. cbn. by destruct (up_asked _). Qed.
Lemma check_app_no_more w0 name services app auto : holds (no_more w0 name None) (check_app app auto services).
Proof.
  unfold check_app. apply holds_bind; [apply holds_still; intros w1; apply check_update_keeps; [apply still_frame|by intros; apply still_put]|]. intros checked. destruct (auto && ck_available checked); [|apply holds_ret].
  apply holds_bind; [|intros _; apply holds_ret]. intros w Hw. apply (no_more_trans w0 w _ name app Hw). rewrite <- (agreed_empty w app). apply fetch_update_no_more, Hw.
Qed.
Lemma check_all_no_more w0 name services : holds (no_more w0 name None) (check_all services).
Proof.
  unfold check_all. apply holds_bind; [apply holds_gets|]. intros r. apply holds_each. intros e _. unfold history. apply holds_bind; [apply holds_gets|]. intros m.
  destruct (ok m ≫= mf_update) as [spec|]; [|apply holds_ret]. apply holds_bind; [apply holds_gets|]. intros h. destruct (begin (sy_busy h)); [apply holds_ret|].
  apply holds_dismiss, check_app_no_more.
Qed.
End privileges.

(** * The record over any flows *)

Section flows.
Context `{SY : System} `{UR : Urls} `{MJ : ManifestJson} `{VF : VersionFiles}.

Inductive Flow :=
  | FInstall (ar : Archive) (source : string) (o : InstallOptions) (services : ServicesSettings)
  | FRollback (name : string) | FRemove (name : string) (purge : bool)
  | FUpdate (name : string) (services : ServicesSettings) (accept : string) | FCheckAll (services : ServicesSettings)
  | FSeed (files : list (string * Archive)) (services : ServicesSettings).
Definition run_flow (f : Flow) (w : World) : World :=
  match f with
  | FInstall ar source o services => (install ar source o services w).2
  | FRollback name => (rollback name w).2
  | FRemove name purge => (remove name purge w).2
  | FUpdate name services accept => (update name services accept w).2
  | FCheckAll services => (check_all services w).2
  | FSeed files services => (seed files services w).2
  end.
Definition run_flows (l : list Flow) (w : World) : World := foldl (λ w f, run_flow f w) w l.

(** What installs keep, and nothing but the record's versions and uids bear
    on, every flow keeps. *)
Section upkeep.
Context (I : World → Prop) (Hframe : ∀ w w', w_record w' = w_record w → w_items w' = w_items w → I w → I w').
Context (Hput : ∀ w name e u, smap_get name (rc_apps (w_record w)) = Some e → I w → I (set_record (put_update name e u (w_record w)) w)).
Context (Hinstall : ∀ ar source o services, holds I (install ar source o services)).
Lemma upkeep_check name : holds I (check_update name).
Proof. apply check_update_keeps; [done|]. intros w e u He _. by apply Hput. Qed.
Lemma upkeep_fetch name services unattended accept : holds I (fetch_update name services unattended accept).
Proof.
  unfold fetch_update. apply holds_bind; [apply upkeep_check|]. intros _ w Hw. apply (entry_step I I); [|done|done]. clear w Hw. intros e w _. revert w.
  destruct (offer ← up_latest (ae_update e); if is_available e (of_version offer) then Some offer else None) as [offer|]; [|apply holds_throw]. cbv zeta.
  apply holds_bind; [by apply holds_try, fetch_bundle_frame|]. intros fetched. apply holds_bind.
  { destruct fetched; [apply holds_ret|]. apply holds_bind; [apply holds_gets|]. intros b. apply holds_try, Hinstall. }
  intros outcome. apply holds_bind; [by apply holds_dismiss, frame_call|]. intros _ w Hw. unfold bind at 1, read_record. cbn [gets].
  apply (leads_step I); [|intros _ w' _ Hw'; by destruct outcome|done].
  destruct (smap_get name (rc_apps (if sy_root then w_record w else no_record))) as [e'|] eqn:E; [|done]. destruct sy_root; [|done]. apply keeps_write_record; [done..|]. by apply Hput.
Qed.
Lemma upkeep_check_all services : holds I (check_all services).
Proof.
  unfold check_all. apply holds_bind; [apply holds_gets|]. intros r. apply holds_each. intros e _. unfold history. apply holds_bind; [apply holds_gets|]. intros m.
  destruct (ok m ≫= mf_update) as [spec|]; [|apply holds_ret]. apply holds_bind; [apply holds_gets|]. intros h. destruct (begin (sy_busy h)); [apply holds_ret|].
  apply holds_dismiss. unfold check_app. apply holds_bind; [apply upkeep_check|]. intros c. destruct (_ && _); [|apply holds_ret]. apply holds_bind; [apply upkeep_fetch|intros _; apply holds_ret].
Qed.
Lemma upkeep_write_seeds r : holds I (write_seed_record r).
Proof. apply holds_lift, frame_write; done. Qed.
Lemma upkeep_seed_one name ar services : holds I (seed_one name ar services).
Proof.
  unfold seed_one, read_seed_record, read_record. do 3 (apply holds_bind; [apply holds_gets|]; intros ?). destruct (seed_rule _ _ _ _ _) as [|why|upgrade].
  - apply holds_bind; [apply upkeep_write_seeds|intros _; apply holds_ret].
  - apply holds_ret.
  - apply holds_bind; [apply holds_try|intros []; (apply holds_bind; [apply upkeep_write_seeds|intros _; by apply holds_ret || apply holds_throw])].
    unfold take_seed. destruct (peek_manifest ar) as [|m]; [apply holds_throw|]. destruct (negb _); [apply holds_throw|]. apply holds_bind; [apply Hinstall|intros _; apply holds_ret].
Qed.
Lemma upkeep_seed files services : holds I (seed files services).
Proof.
  unfold seed. destruct (negb sy_root); [apply holds_ret|]. generalize (seed_files files). intros l. induction l as [|[file ar] l IH]; cbn [seed_each]; [apply holds_ret|].
  apply holds_bind; [apply holds_try, upkeep_seed_one|]. intros did. apply holds_bind; [done|]. intros d. apply holds_ret.
Qed.
Lemma upkeep_flows l w : (∀ name, holds I (rollback name)) → (∀ name purge, holds I (remove name purge)) → I w → I (run_flows l w).
Proof.
  intros Hb Hr. revert w. induction l as [|f l IH]; intros w Hw; [done|]. apply (IH (run_flow f w)). destruct f; cbn [run_flow].
  - by apply Hinstall.
  - by apply Hb.
  - by apply Hr.
  - by apply upkeep_fetch.
  - by apply upkeep_check_all.
  - by apply upkeep_seed.
Qed.
End upkeep.

(** Every app its own uid, of those for apps. *)
Definition uids_ok (r : Record_) : Prop := NoDup (map snd (rc_uids r)) ∧ ∀ name uid, (name, uid) ∈ rc_uids r → UID_BASE ≤ uid < UID_BASE + UID_COUNT.
Lemma free_uid_spec count base taken uid : free_uid count base taken = Some uid → uid ∉ taken ∧ base ≤ uid < base + Z.of_nat count.
Proof.
  revert base. induction count as [|count IH]; intros base; cbn [free_uid]; [done|]. case_bool_decide as Ht; [|intros [= <-]; split; [done|lia]].
  intros (H1 & H2)%IH. split; [done|lia].
Qed.
(** While a uid is left, one is found. *)
Lemma free_uid_found count base taken : free_uid count base taken = None → ∀ uid, base ≤ uid < base + Z.of_nat count → uid ∈ taken.
Proof.
  revert base. induction count as [|count IH]; intros base; cbn [free_uid]; [intros _ uid; lia|]. case_bool_decide as Ht; [|done].
  intros H uid Hu. destruct (decide (uid = base)) as [->|]; [done|]. apply (IH (base + 1)); [done|lia].
Qed.
Lemma insert_absent {A} k (a : A) (m : smap A) : smap_get k m = None → smap_insert k a m ≡ₚ (k, a) :: m.
Proof.
  induction m as [|[k' b] m IH]; cbn [smap_get smap_insert]; [done|]. case_bool_decide as Hk; [done|]. intros Hn. destruct (str_cmp k k') eqn:E; [|done|].
  - apply str_cmp_eq in E. congruence.
  - rewrite IH by done. constructor.
Qed.
Lemma smap_remove_sub {A} k (m : smap A) : smap_remove k m `sublist_of` m.
Proof. induction m as [|[k' b] m IH]; cbn [smap_remove]; [done|]. case_bool_decide; by constructor. Qed.
(** What an account is given: a uid no account of the root has. *)
Lemma account_uids h name m r a r' : account h name m r = inr (a, r') → uids_ok r → uids_ok r'.
Proof.
  unfold account. case_bool_decide; [by intros [= _ <-]|]. destruct (smap_get name (rc_uids r)) as [uid|] eqn:E; cbn; [by intros [= _ <-]|].
  destruct (free_uid _ _ _) as [uid|] eqn:Ef; cbn; [|done]. intros [= _ <-] [H1 H2]. apply free_uid_spec in Ef as [Ht Hr].
  pose proof (insert_absent name uid (rc_uids r) E) as Hp. split; cbn.
  - rewrite Hp. cbn. constructor; [|done]. intros Hin. apply Ht. unfold taken_ids. apply elem_of_app. by left.
  - intros n u. rewrite Hp. intros [[= -> ->]|Hin]%elem_of_cons; [|by eapply H2]. rewrite Z2Nat.id in Hr by done. done.
Qed.
Lemma remove_uids n r : uids_ok r → uids_ok (with_uids (smap_remove n (rc_uids r)) r).
Proof.
  intros [H1 H2]. pose proof (smap_remove_sub n (rc_uids r)) as Hs. split; cbn.
  - eapply sublist_NoDup; [exact H1|by apply fmap_sublist].
  - intros name uid Hin. apply (H2 name). by eapply sublist_subseteq.
Qed.
Definition uids_held (w : World) : Prop := uids_ok (w_record w).
Lemma uids_frame w w' : w_record w' = w_record w → w_items w' = w_items w → uids_held w → uids_held w'.
Proof. unfold uids_held. by intros ->. Qed.
Lemma uids_none : uids_ok no_record.
Proof. split; [constructor|]. by intros n u Hin%elem_of_nil. Qed.
Lemma install_uids ar source o services : holds uids_held (install ar source o services).
Proof. apply (R_install uids_held uids_ok); try done; [apply uids_none|by intros; eapply account_uids]. Qed.
Lemma rollback_uids name : holds uids_held (rollback name).
Proof. apply (R_rollback uids_held uids_ok); try done; [apply uids_none|by intros; eapply account_uids]. Qed.
Lemma remove_flow_uids name purge : holds uids_held (remove name purge).
Proof. apply (R_remove uids_held uids_ok); try done; [apply uids_none|by intros; eapply remove_uids]. Qed.
(** ** Its versions *)
Definition versions_held (w : World) : Prop := record_ok (w_record w).
Lemma versions_frame w w' : w_record w' = w_record w → w_items w' = w_items w → versions_held w → versions_held w'.
Proof. unfold versions_held. by intros ->. Qed.
Lemma entry_insert_ok name e r : record_ok r → (is_version (in_version (ae_current e)) = true ∧ ∀ p, ae_previous e = Some p → is_version (in_version p) = true) →
  record_ok (with_apps (smap_insert name e (rc_apps r)) r).
Proof. intros Hr He n e'. cbn. rewrite smap_get_insert. case_bool_decide; [by intros [= <-]|apply Hr]. Qed.
Lemma same_ok name e e' r : record_ok r → smap_get name (rc_apps r) = Some e → versions_of e' = versions_of e → record_ok (with_apps (smap_insert name e' (rc_apps r)) r).
Proof. intros Hr He [= H1 H2]. apply entry_insert_ok; [done|]. rewrite H1, H2. by apply (Hr name). Qed.
Lemma versions_write r : record_ok r → holds versions_held (write_record r).
Proof. intros Hr w Hw. apply keeps_write_record; [apply versions_frame|done..]. Qed.
Lemma versions_failed_with name action message r : record_ok r → holds versions_held (failed_with name action message r).
Proof.
  intros Hr. unfold failed_with, last_, history. apply holds_bind; [holds|]. intros l. apply holds_bind; [|intros _; apply holds_throw]. apply versions_write.
  unfold record_last. destruct (smap_get name (rc_apps r)) eqn:E; [by eapply same_ok|done].
Qed.
Lemma no_record_ok : record_ok no_record.
Proof. by intros n e. Qed.
Lemma versions_read {A} (k : Record_ → M AppError A) : (∀ r, record_ok r → holds versions_held (k r)) → holds versions_held (bind read_record k).
Proof. apply (R_read versions_held record_ok); [done|apply no_record_ok]. Qed.
Lemma install_versions ar source o services : holds versions_held (install ar source o services).
Proof.
  intros w Hw. destruct (admit_ ar o services w) as [[err|m] w1] eqn:Ea.
  - rewrite (admit_inl _ _ _ _ _ _ Ea). cbn. pose proof (admit_same ar o services w) as [S1 S2]. rewrite Ea in S1, S2. by apply (versions_frame w).
  - eapply settled_ok; [eapply admitted_version, admit_inr, Ea| |exact Hw]. by apply (install_settles ar source o services w m w1 None Ea).
Qed.
Lemma holds_account_ok {A} name m r (k : option Account * Record_ → M AppError A) :
  record_ok r → (∀ a r', record_ok r' → rc_apps r' = rc_apps r → holds versions_held (k (a, r'))) → holds versions_held (bind (account_of name m r) k).
Proof. intros Hr Hk. apply holds_account. intros a r' E. apply Hk; [|done]. intros n e. rewrite E. apply Hr. Qed.
Lemma rollback_versions name : holds versions_held (rollback name).
Proof.
  unfold rollback. apply versions_read. intros r Hr. unfold entry_of. destruct (smap_get name (rc_apps r)) as [e|] eqn:Ee; [|apply holds_throw].
  intros w Hw. unfold bind at 1. cbn [ret]. revert w Hw. destruct (ae_previous e) as [previous|] eqn:Ep; [|apply holds_throw].
  apply holds_bind; [unfold manifest_of; holds|]. intros current. apply holds_bind; [unfold manifest_of; holds|]. intros target.
  apply holds_account_ok; [done|]. intros ca r1 H1 E1. apply holds_account_ok; [done|]. intros ta r2 H2 E2. cbv beta iota.
  apply holds_bind; [apply holds_try, frame_switch, versions_frame|]. intros switched. destruct switched as [err|[]].
  - apply holds_bind; [apply holds_try, frame_switch, versions_frame|]. intros back. by apply versions_failed_with.
  - unfold last_, history. apply holds_bind; [holds|]. intros l. apply holds_bind; [|intros _; apply holds_ret]. apply versions_write. rewrite E2, E1, Ee, <- E1, <- E2.
    apply entry_insert_ok; [done|]. destruct (Hr name e Ee) as [O1 O2]. split; [by apply O2|]. by intros p [= <-].
Qed.
Lemma remove_versions name purge : holds versions_held (remove name purge).
Proof.
  assert (Hf := versions_frame). unfold remove. apply versions_read. intros r Hr. apply holds_bind; [unfold entry_of; holds|]. intros e. apply holds_bind; [holds|]. intros m.
  apply holds_bind; [destruct m; [apply holds_ret|by apply frame_teardown]|]. intros _. apply holds_bind; [apply holds_lift; intros w Hw; unfold remove_app_dir; by destruct (sy_fails _ _)|]. intros _.
  apply holds_bind; [destruct purge; [by apply holds_lift, frame_remove_data|apply holds_ret]|]. intros _. cbv zeta.
  assert (Hr' : ∀ uids, record_ok (with_uids uids (with_apps (smap_remove name (rc_apps r)) r))).
  { intros uids n en. cbn. rewrite smap_get_remove. case_bool_decide; [done|apply Hr]. }
  destruct (_ && _); [|by apply versions_write; apply (Hr' (rc_uids r))].
  apply holds_bind; [by apply holds_dismiss, frame_accounts_tool|]. intros _. by apply versions_write.
Qed.
End flows.

(** * What the seeds' rule comes to *)

Section seeds.
Context `{SY : System} `{UR : Urls} `{MJ : ManifestJson}.

Lemma install_seeds s ar source o services : holds (λ w, w_seeds w = s) (install ar source o services).
Proof. by apply (R_install (λ w, w_seeds w = s) (λ _, True)). Qed.
Lemma take_seeds s name ar peeked upgrade services : holds (λ w, w_seeds w = s) (take_seed name ar peeked upgrade services).
Proof.
  unfold take_seed. destruct peeked as [|m]; [apply holds_throw|]. destruct (negb _); [apply holds_throw|]. apply holds_bind; [apply install_seeds|intros _; apply holds_ret].
Qed.
(** What an image's rule sees. *)
Definition peeked_version (ar : Archive) : string := match peek_manifest ar with inr m => mf_version m | inl _ => "" end.
Definition installed_of (name : string) (w : World) : option Installed := ae_current <$> smap_get name (rc_apps (w_record w)).
Definition rule_of (name : string) (ar : Archive) (w : World) : Rule :=
  seed_rule (ar_sha256 ar) (peeked_version ar) (smap_get name (w_seeds w)) (installed_of name w) (policy_of name (peek_manifest ar) (installed_of name w) w).
Context (Hroot : sy_root = true).
Lemma seed_one_unfold name ar services w : seed_one name ar services w =
  match rule_of name ar w with
  | Skip => (let* _ := write_seed_record (smap_insert name (seeded (peeked_version ar) (ar_sha256 ar) "skipped") (w_seeds w)) in ret "skipped") w
  | Leave why => (inr why, w)
  | Take upgrade =>
      (let* outcome := try (take_seed name ar (peek_manifest ar) upgrade services) in
       match outcome with
       | inr _ =>
           let result := if upgrade then "upgraded" else "installed" in
           let* _ := write_seed_record (smap_insert name (seeded (peeked_version ar) (ar_sha256 ar) result) (w_seeds w)) in ret result
       | inl err =>
           let* _ := write_seed_record (smap_insert name (failed_seed (ar_sha256 ar) (peeked_version ar) (shown err) (smap_get name (w_seeds w)) upgrade) (w_seeds w)) in throw err
       end) w
  end.
Proof.
  unfold seed_one, rule_of, peeked_version, installed_of, read_seed_record, read_record, bind, gets, ret. rewrite Hroot. cbv beta iota zeta.
  by destruct (seed_rule _ _ _ _ _).
Qed.
Lemma write_seeds_same r w : same_apps w (write_seed_record r w).2.
Proof. unfold write_seed_record, lift, write. by destruct (sy_fails _ _); [destruct (sy_written _)|]. Qed.

Context (Hseeds : ∀ h, sy_fails h WriteSeeds = None).
Lemma write_seeds_works r w : write_seed_record r w = (inr tt, set_seeds r (asked WriteSeeds w)).
Proof. unfold write_seed_record, lift, write. by rewrite Hseeds. Qed.

(** The failing boots a seed has left. *)
Definition budget (sha256 : string) (had : option Seeded) : Z :=
  match had with
  | None => SEED_TRIES
  | Some h =>
      if bool_decide (sd_sha256 h = sha256) then if bool_decide (sd_result h = "failed") then Z.max 0 (SEED_TRIES - sd_tries h) else 0
      else if bool_decide (sd_failed_sha256 h = Some sha256) then Z.max 0 (SEED_TRIES - sd_tries h) else SEED_TRIES
  end.
(** No other seed of the app failed before it was ever taken. *)
Definition first_tried (sha256 : string) (had : option Seeded) : Prop := ∀ h, had = Some h → 0 ≤ sd_tries h ∧ (sd_result h = "failed" → sd_sha256 h = sha256).
Lemma newer_seed_take sha256 version h i policy up : newer_seed sha256 version h i policy = Take up → up = true.
Proof. unfold newer_seed. destruct (bool_decide _); [done|]. destruct (_ || _); [done|]. destruct (negb _); [done|]. by intros [= <-]. Qed.
Lemma failed_budget sha256 version err had installed policy up : first_tried sha256 had → seed_rule sha256 version had installed policy = Take up →
  let had' := Some (failed_seed sha256 version err had up) in first_tried sha256 had' ∧ budget sha256 had' + 1 ≤ budget sha256 had.
Proof.
  intros Hf. unfold seed_rule. destruct had as [h|]; cbv zeta.
  2: { case_bool_decide; [done|]. intros [= <-]. unfold failed_seed, budget. cbn. rewrite !bool_decide_eq_true_2 by done. split; [|done]. by intros ? [= <-]. }
  destruct (Hf h eq_refl) as [Ht Hr]. unfold budget. destruct (decide (sd_sha256 h = sha256)) as [E|E].
  - rewrite !(bool_decide_eq_true_2 (sd_sha256 h = sha256)) by done. destruct (decide (sd_result h = "failed")) as [F|F]; [|by rewrite (bool_decide_eq_false_2 (sd_result h = "failed"))].
    rewrite !(bool_decide_eq_true_2 (sd_result h = "failed")) by done. cbn [negb orb]. destruct (SEED_TRIES <=? sd_tries h) eqn:El; [done|]. apply Z.leb_gt in El.
    case_bool_decide; [done|]. intros [= <-]. unfold failed_seed. rewrite (bool_decide_eq_true_2 (sd_sha256 h = sha256)) by done. cbn. rewrite !bool_decide_eq_true_2 by done.
    unfold SEED_TRIES in *. split; [intros ? [= <-]; cbn; by split; [lia|]|lia].
  - rewrite !(bool_decide_eq_false_2 (sd_sha256 h = sha256)) by done. rewrite (bool_decide_eq_false_2 (sd_result h = "failed")) by tauto. cbn [andb].
    destruct (bool_decide (sd_failed_sha256 h = Some sha256) && (SEED_TRIES <=? sd_tries h)) eqn:El; [done|]. destruct installed as [i|]; [|done]. intros ->%newer_seed_take.
    unfold failed_seed. cbn. rewrite (bool_decide_eq_false_2 (sd_sha256 h = sha256)) by done. rewrite (bool_decide_eq_true_2 (Some sha256 = Some sha256)) by done.
    split; [intros ? [= <-]; cbn; split; [case_bool_decide; lia|tauto]|]. unfold SEED_TRIES in *. case_bool_decide; cbn [andb] in El; [apply Z.leb_gt in El|]; lia.
Qed.
Lemma budget_nonneg sha256 had : 0 ≤ budget sha256 had.
Proof. unfold budget, SEED_TRIES. destruct had; [|done]. repeat case_bool_decide; lia. Qed.
Lemma seed_one_budget name ar services w : first_tried (ar_sha256 ar) (smap_get name (w_seeds w)) →
  let '(r, w') := seed_one name ar services w in
  first_tried (ar_sha256 ar) (smap_get name (w_seeds w'))
  ∧ budget (ar_sha256 ar) (smap_get name (w_seeds w')) + (match r with inl _ => 1 | inr _ => 0 end) ≤ budget (ar_sha256 ar) (smap_get name (w_seeds w)).
Proof.
  intros Hf. rewrite seed_one_unfold. unfold rule_of. destruct (seed_rule _ _ _ _ _) as [|why|up] eqn:Er.
  - unfold bind. rewrite write_seeds_works. cbn. rewrite smap_get_insert, bool_decide_eq_true_2 by done. split; [by intros ? [= <-]|].
    unfold budget at 1. cbn. rewrite bool_decide_eq_true_2, bool_decide_eq_false_2 by done. apply budget_nonneg.
  - split; [done|lia].
  - unfold bind, try. pose proof (take_seeds (w_seeds w) name ar (peek_manifest ar) up services w eq_refl) as Hs.
    destruct (take_seed name ar (peek_manifest ar) up services w) as [[err|[]] w1]; cbn [snd] in Hs; rewrite write_seeds_works; cbn; rewrite smap_get_insert, bool_decide_eq_true_2 by done.
    + by apply (failed_budget _ _ (shown err)) in Er.
    + split; [intros ? [= <-]; by destruct up|]. unfold budget at 1. cbn. rewrite bool_decide_eq_true_2, bool_decide_eq_false_2 by (by destruct up). apply budget_nonneg.
Qed.
(** The boots at which a seed is tried and fails, between them whatever leaves
    its own record. *)
Fixpoint failures (name : string) (ar : Archive) (services : ServicesSettings) (between : list (World → World)) (w : World) : Z :=
  match between with
  | [] => 0
  | f :: between => let '(r, w') := seed_one name ar services (f w) in (match r with inl _ => 1 | inr _ => 0 end) + failures name ar services between w'
  end.
End seeds.

(** * Properties *)

Section properties.
Context `{SY : System} `{UR : Urls} `{MJ : ManifestJson} `{VF : VersionFiles}.

(** C8: the daily check, whatever the version files and the bundles they name
    hold, whatever fails and at whatever call, leaves no app with privileges it
    did not have: the version recorded of each asks for no user, capability or
    device beyond the version recorded before. *)
Theorem unattended_never_raises services w : record_ok (w_record w) →
  let w' := (check_all services w).2 in ∀ n p', privileges_of w' n = Some p' → ∃ p, privileges_of w n = Some p ∧ within p' p.
Proof.
  intros Hok w' n p' Hp. destruct (check_all_no_more w n services w (no_more_start w n None Hok)) as [_ H].
  destruct (H n p' (or_introl eq_refl) Hp) as (p & Ep & [Hw|(a & Ha & _)]); [by exists p|done].
Qed.

(** C9: an update by hand leaves its app with no privilege beyond those it had,
    other than the ones the update before it asked about, for the version the
    update names as accepted. *)
Theorem update_takes_accepted name services accept w : record_ok (w_record w) →
  ∀ p', privileges_of (update name services accept w).2 name = Some p' →
  ∃ p, privileges_of w name = Some p ∧
    (within p' p ∨ ∃ e a, smap_get name (rc_apps (w_record w)) = Some e ∧ up_asked (ae_update e) = Some a ∧ aq_version a = accept ∧ accept ≠ "" ∧ extends p' p (aq_privileges a)).
Proof.
  intros Hok p' Hp. destruct (fetch_update_no_more w name services false accept Hok) as [_ H]. destruct (H name p' (or_intror eq_refl) Hp) as (p & Ep & [Hw|(d & Ha & Hx)]); exists p; (split; [done|]); [by left|right].
  unfold agreed_to in Ha. apply bind_Some in Ha as (e & Ee & Ha). apply bind_Some in Ha as (a & Ea & Ha). destruct (_ && _) eqn:Eb; [|done]. injection Ha as <-.
  apply andb_true_iff in Eb as [E1 E2]. apply bool_decide_eq_true in E2. exists e, a. split_and!; try done. by intros ->.
Qed.

(** C13: over any flows - installs, updates, roll backs, removals, daily checks,
    boots' seeds - whatever fails in them, the record keeps versions that can be
    ordered and name no directory set aside, and each app's uid stays its own
    and one of those for apps. *)
Theorem flows_keep_record l w : record_ok (w_record w) → uids_ok (w_record w) → record_ok (w_record (run_flows l w)) ∧ uids_ok (w_record (run_flows l w)).
Proof.
  intros H1 H2. split.
  - apply (upkeep_flows versions_held versions_frame); [|apply install_versions|apply rollback_versions|apply remove_versions|done]. intros w' name e u He Hw. by eapply same_ok.
  - apply (upkeep_flows uids_held uids_frame); [done|apply install_uids|apply rollback_uids|apply remove_flow_uids|done].
Qed.
End properties.

(** Nothing of any other app changed, and the app [m] names is recorded as it was
    or at [m]'s version, whose directory holds [m]'s bundle. *)
Definition replaced_by `{SY : System} `{UR : Urls} `{MJ : ManifestJson} (w w' : World) (m : Manifest) : Prop :=
  (∀ n, n ≠ mf_name m → versions_of <$> smap_get n (rc_apps (w_record w')) = versions_of <$> smap_get n (rc_apps (w_record w)) ∧ ∀ i, w_items w' !! (n, i) = w_items w !! (n, i))
  ∧ (versions_of <$> smap_get (mf_name m) (rc_apps (w_record w')) = versions_of <$> smap_get (mf_name m) (rc_apps (w_record w))
     ∨ in_version <$> installed_of (mf_name m) w' = Some (mf_version m) ∧ manifest_at w' (mf_name m) (mf_version m) = inr m).
(** What a seed's taking comes to. *)
Lemma take_seed_apps `{SY : System} `{UR : Urls} `{MJ : ManifestJson} name ar upgrade services w :
  let w' := (take_seed name ar (peek_manifest ar) upgrade services w).2 in
  same_apps w w' ∨ ∃ m, peek_manifest ar = inr m ∧ mf_name m = name ∧ replaced_by w w' m.
Proof.
  cbv zeta. unfold take_seed. destruct (peek_manifest ar) as [e|m] eqn:Ep; [by left|]. destruct (bool_decide (mf_name m = name)) eqn:En; cbn [negb]; [|by left].
  apply bool_decide_eq_true in En. unfold bind. set (o := {| io_reinstall := false; io_upgrade := upgrade |}). destruct (admit_ ar o services w) as [[e|m'] w1] eqn:Ea.
  { rewrite (admit_inl _ _ _ _ _ _ Ea). left. pose proof (admit_same ar o services w) as H. by rewrite Ea in H. }
  right. exists m. split; [done|]. split; [done|]. pose proof (admit_inr _ _ _ _ _ _ Ea) as Had. rewrite (ad_peek _ _ _ _ Had) in Ep. injection Ep as ->.
  pose proof (install_settles ar "seed" o services w m w1 None Ea) as Hs. destruct (install ar "seed" o services w) as [r w']. cbn [snd] in *.
  assert (settled w (mf_name m) (mf_version m) None m w') as Hset by by apply Hs. clear Hs.
  assert (replaced_by w w' m); [|by destruct r]. destruct Hset as [[N1 N2]|([R1 (e' & He' & Hv & _)] & R2 & t & Ht & Hm)].
  - split; [|left; apply N1]. intros n Hn. split; [apply N1|]. intros i. apply N2. by left.
  - split; [|right]. { intros n Hn. split; [by apply R1|]. intros i. apply R2. by left. }
    unfold installed_of, manifest_at. rewrite He', Ht. cbn. by rewrite Hv.
Qed.
Lemma write_seeds_inr `{SY : System} r w u w' : write_seed_record r w = (inr u, w') → w_seeds w' = r.
Proof. unfold write_seed_record, lift, write. destruct (sy_fails _ _); [done|]. by intros [= _ <-]. Qed.

(** Why the rule has a seed taken. *)
Lemma seed_why `{SY : System} `{UR : Urls} `{MJ : ManifestJson} name ar w (up : bool) : rule_of name ar w = Take up →
  (if up then "upgraded" else "installed") = "installed" ∧ installed_of name w = None ∧ (∀ h, smap_get name (w_seeds w) = Some h → sd_result h = "failed")
  ∨ (if up then "upgraded" else "installed") = "upgraded" ∧ ∃ i h, installed_of name w = Some i ∧ smap_get name (w_seeds w) = Some h ∧ sd_sha256 h ≠ ar_sha256 ar ∧ in_version i = sd_version h ∧ in_sha256 i = sd_sha256 h
      ∧ policy_of name (peek_manifest ar) (Some i) w = FollowImage ∧ newer (peeked_version ar) (in_version i) = true.
Proof.
  unfold rule_of, seed_rule. destruct (smap_get name (w_seeds w)) as [h|] eqn:Eh; [|case_bool_decide as Hi; [done|]; intros [= <-]; left; split; [done|]; split; [|done]; by apply eq_None_not_Some].
  case_bool_decide as Hsha.
  - destruct (negb (bool_decide (sd_result h = "failed"))) eqn:Ef; [done|]. apply negb_false_iff, bool_decide_eq_true in Ef. cbn [orb]. destruct (_ <=? _); [done|]. case_bool_decide as Hi; [done|].
    intros [= <-]. left. split; [done|]. split; [by apply eq_None_not_Some|]. by intros ? [= <-].
  - destruct (bool_decide (sd_result h = "failed") && negb (bool_decide (is_Some (installed_of name w)))) eqn:Ef.
    { intros [= <-]. left. apply andb_true_iff in Ef as [E1 E2]. apply bool_decide_eq_true in E1. apply negb_true_iff, bool_decide_eq_false in E2. split; [done|]. split; [by apply eq_None_not_Some|]. by intros ? [= <-]. }
    destruct (_ && _) in |- *; [done|]. destruct (installed_of name w) as [i|]; [|done]. unfold newer_seed. destruct (bool_decide (_ = Once)) eqn:Hp; [done|]. apply bool_decide_eq_false in Hp.
    destruct (_ || _) eqn:Eb; [done|]. apply orb_false_iff in Eb as [E1 E2]. apply negb_false_iff, bool_decide_eq_true in E1, E2. destruct (newer _ _) eqn:En; [|done]. intros [= <-]. right.
    split; [done|]. exists i, h. split_and!; try done. by destruct (policy_of _ _ _ _).
Qed.

(** C14: at a boot, an app that is installed is replaced by the image's seed only
    while it is exactly the one a seed with other bytes put there, its policy
    follows the image and the seed is newer; one that is not there is installed
    only if no seed of it was ever taken. What replaces it is the bundle of the
    app the seed's file is named after, and nothing of any other app changes. In
    every other case nothing about any app changes. A seed that was taken is
    recorded with its version and digest. *)
Theorem seed_takes `{SY : System} `{UR : Urls} `{MJ : ManifestJson} name ar services w : sy_root = true →
  let '(r, w') := seed_one name ar services w in
  same_apps w w'
  ∨ (∃ m, peek_manifest ar = inr m ∧ mf_name m = name ∧ replaced_by w w' m)
    ∧ ∃ what, (∀ did, r = inr did → did = what ∧ smap_get name (w_seeds w') = Some (seeded (peeked_version ar) (ar_sha256 ar) what))
      ∧ (what = "installed" ∧ installed_of name w = None ∧ (∀ h, smap_get name (w_seeds w) = Some h → sd_result h = "failed")
         ∨ what = "upgraded" ∧ ∃ i h, installed_of name w = Some i ∧ smap_get name (w_seeds w) = Some h ∧ sd_sha256 h ≠ ar_sha256 ar ∧ in_version i = sd_version h ∧ in_sha256 i = sd_sha256 h
             ∧ policy_of name (peek_manifest ar) (Some i) w = FollowImage ∧ newer (peeked_version ar) (in_version i) = true).
Proof.
  intros Hroot. rewrite (seed_one_unfold Hroot). destruct (rule_of name ar w) as [|why|up] eqn:Er.
  - unfold bind. pose proof (write_seeds_same (smap_insert name (seeded (peeked_version ar) (ar_sha256 ar) "skipped") (w_seeds w)) w) as H. destruct (write_seed_record _ w) as [[e|[]] w']; by left.
  - by left.
  - unfold bind at 1, try. pose proof (take_seed_apps name ar up services w) as Ht. destruct (take_seed name ar (peek_manifest ar) up services w) as [outcome w1]. cbn [snd] in Ht.
    set (k := match outcome with inl _ => _ | inr _ => _ end).
    assert (Hk : same_apps w1 (k w1).2 ∧ ∀ did, (k w1).1 = inr did → did = (if up then "upgraded" else "installed") ∧ smap_get name (w_seeds (k w1).2) = Some (seeded (peeked_version ar) (ar_sha256 ar) did)).
    { unfold k, bind. destruct outcome as [err|[]]; set (s := smap_insert _ _ _); pose proof (write_seeds_same s w1) as H; destruct (write_seed_record s w1) as [[]] eqn:Ew; (split; [exact H|]); intros did; cbn [fst snd ret throw]; try discriminate.
      intros [= <-]. split; [done|]. apply write_seeds_inr in Ew as ->. unfold s. by rewrite smap_get_insert, bool_decide_eq_true_2. }
    destruct (k w1) as [r w']. destruct Hk as [[K1 K2] Kr]. cbn [fst snd] in K1, K2, Kr. clear k. destruct Ht as [[H1 H2]|(m & Hm & Hn & Hr)]; [left; split; congruence|right].
    split; [exists m; split; [done|]; split; [done|]; unfold replaced_by, installed_of, manifest_at in *; by rewrite K1, K2|].
    exists (if up then "upgraded" else "installed"). split; [intros did Hd; destruct (Kr did Hd) as [E Hs]; by rewrite <- E|]. clear Kr K1 K2 r w' Hr m Hm Hn. by apply seed_why.
Qed.

(** A seed that keeps failing is tried at no more than two boots, whatever
    is done to the apps between them. *)
Theorem seed_tries_bounded `{SY : System} `{UR : Urls} `{MJ : ManifestJson} name ar services (Hroot : sy_root = true) (Hseeds : ∀ h, sy_fails h WriteSeeds = None) between w :
  (∀ f, f ∈ between → ∀ w, smap_get name (w_seeds (f w)) = smap_get name (w_seeds w)) → first_tried (ar_sha256 ar) (smap_get name (w_seeds w)) →
  failures name ar services between w ≤ SEED_TRIES.
Proof.
  intros Hf Ht. cut (failures name ar services between w ≤ budget (ar_sha256 ar) (smap_get name (w_seeds w))).
  { intros H. etransitivity; [done|]. unfold budget, SEED_TRIES. destruct (smap_get name (w_seeds w)) as [h|]; [|done]. destruct (Ht h eq_refl) as [H0 _]. repeat case_bool_decide; lia. }
  revert w Hf Ht. induction between as [|f between IH]; intros w Hf Ht; cbn [failures]; [apply budget_nonneg|].
  assert (Hs : smap_get name (w_seeds (f w)) = smap_get name (w_seeds w)) by (apply Hf; by left). rewrite <- Hs in Ht |- *.
  pose proof (seed_one_budget Hroot Hseeds name ar services (f w) Ht) as Hb. destruct (seed_one name ar services (f w)) as [r w']. destruct Hb as [Hb1 Hb2].
  assert (Hrest : failures name ar services between w' ≤ budget (ar_sha256 ar) (smap_get name (w_seeds w'))) by (apply IH; [intros g Hg; apply Hf; by right|done]). lia.
Qed.

(** ** A device with an update *)

Definition hex64 : string := bytes_str (repeat "a"%char 64).
Definition demo_files (name : string) : VersionFiles :=
  {| version_file := λ _, Ok {| vf_name := name; vf_version := "1.0"; vf_bundles := [("all", {| br_url := "demo.tar.gz"; br_sha256 := hex64; br_size := 100 |})] |};
     url_join := λ _ rest, Some ("https", "https://apps.example/" +:+ rest) |}.
(** Every URL gives the bundle of a manifest's text. *)
Definition serving (text : string) : System :=
  device (λ _, None) (λ _, "active") (λ _, {| fe_text := []; fe_archive := {| ar_size := 100; ar_sha256 := hex64; ar_members := ar_members (demo_bundle text) |} |}).
Definition asked_root : UpdateState :=
  {| up_checked_at := None; up_latest := None; up_error := None; up_failed := None;
     up_asked := Some {| aq_version := "1.0"; aq_sha256 := hex64; aq_privileges := {| dl_root := true; dl_capabilities := []; dl_devices := [] |} |} |}.
Definition asked_world : World := demo_world [("demo", demo_entry "0.9" "a" asked_root)] [("demo", 30001)] {[ ("demo", "0.9") := demo_tree "demo,0.9,app" ]} [].
Lemma one_app_ok : record_ok (w_record one_app) ∧ record_ok (w_record asked_world).
Proof. split; intros name e; cbn; (case_bool_decide; [|done]); intros [= <-]; (split; [by vm_compute|by intros p]). Qed.
Definition checked_of (text : string) : World := (check_all (SY := serving text) (UR := https_urls) (MJ := demo_json) (VF := demo_files "demo") no_services one_app).2.
Definition current_of (name : string) (w : World) : option string := in_version ∘ ae_current <$> smap_get name (rc_apps (w_record w)).
Lemma checked_versions : current_of "demo" (checked_of "demo,1.0,app") = Some "1.0" ∧ current_of "demo" (checked_of "demo,1.0,root") = Some "0.9".
Proof. split; vm_compute; reflexivity. Qed.
Lemma checked_plain : privileges_of (MJ := demo_json) (check_all (SY := serving "demo,1.0,app") (UR := https_urls) (MJ := demo_json) (VF := demo_files "demo") no_services one_app).2 "demo" = Some plain_app.
Proof. vm_compute. reflexivity. Qed.
Lemma unattended_never_raises_witness : ∃ p, privileges_of (MJ := demo_json) one_app "demo" = Some p ∧ within plain_app p.
Proof.
  exact (unattended_never_raises (SY := serving "demo,1.0,app") (UR := https_urls) (MJ := demo_json) (VF := demo_files "demo") no_services one_app (proj1 one_app_ok) "demo" plain_app checked_plain).
Defined.
Definition updated : World := (update (SY := serving "demo,1.0,root") (UR := https_urls) (MJ := demo_json) (VF := demo_files "demo") "demo" no_services "1.0" asked_world).2.
Lemma updated_root : privileges_of (MJ := demo_json) updated "demo" = Some root_app.
Proof. vm_compute. reflexivity. Qed.
Lemma update_takes_accepted_witness : ∃ p, privileges_of (MJ := demo_json) asked_world "demo" = Some p ∧
  (within root_app p ∨ ∃ e a, smap_get "demo" (rc_apps (w_record asked_world)) = Some e ∧ up_asked (ae_update e) = Some a ∧ aq_version a = "1.0" ∧ "1.0" ≠ "" ∧ extends root_app p (aq_privileges a)).
Proof.
  exact (update_takes_accepted (SY := serving "demo,1.0,root") (UR := https_urls) (MJ := demo_json) (VF := demo_files "demo") "demo" no_services "1.0" asked_world (proj2 one_app_ok) root_app updated_root).
Defined.
Definition demo_flows : list Flow :=
  [FInstall (demo_bundle "demo,1.0,app") "cli" by_hand no_services; FInstall (demo_bundle "other,2.0,app") "upload" by_hand no_services; FRollback "demo"; FCheckAll no_services; FRemove "demo" true;
   FSeed [("third.tar.gz", demo_bundle "third,1,app")] no_services].
Lemma demo_flows_uids : rc_uids (w_record (run_flows (SY := serving "demo,1.0,app") (UR := https_urls) (MJ := demo_json) (VF := demo_files "demo") demo_flows one_app)) = [("other", 30002); ("third", 30001)].
Proof. vm_compute. reflexivity. Qed.
Lemma one_app_uids : uids_ok (w_record one_app).
Proof. split; cbn; [repeat constructor; by intros ?%elem_of_nil|]. intros n u [[= -> ->]|H%elem_of_nil]%elem_of_cons; [by unfold UID_BASE, UID_COUNT|done]. Qed.
Lemma flows_keep_record_witness :
  let w := run_flows (SY := serving "demo,1.0,app") (UR := https_urls) (MJ := demo_json) (VF := demo_files "demo") demo_flows one_app in record_ok (w_record w) ∧ uids_ok (w_record w).
Proof. exact (flows_keep_record demo_flows one_app (proj1 one_app_ok) one_app_uids). Defined.

(** Seeds: one taken, one that holds another app. *)
Definition no_apps : World := demo_world [] [] ∅ [].
Definition seeded_device : World := demo_world [] [] ∅ [].
Lemma seed_takes_witness :
  let w' := (seed_one (SY := serving "") (UR := https_urls) (MJ := demo_json) "demo" (demo_bundle "demo,1.0,app") no_services seeded_device).2 in
  current_of "demo" w' = Some "1.0" ∧ smap_get "demo" (w_seeds w') = Some (seeded "1.0" "demo,1.0,app" "installed")
  ∧ ∃ m, mf_name m = "demo" ∧ replaced_by (SY := serving "") (UR := https_urls) (MJ := demo_json) seeded_device w' m.
Proof.
  pose proof (seed_takes (SY := serving "") (UR := https_urls) (MJ := demo_json) "demo" (demo_bundle "demo,1.0,app") no_services seeded_device eq_refl) as H.
  assert (Hc : current_of "demo" (seed_one (SY := serving "") (UR := https_urls) (MJ := demo_json) "demo" (demo_bundle "demo,1.0,app") no_services seeded_device).2 = Some "1.0") by by vm_compute.
  assert (Hr : (seed_one (SY := serving "") (UR := https_urls) (MJ := demo_json) "demo" (demo_bundle "demo,1.0,app") no_services seeded_device).1 = inr "installed") by by vm_compute.
  destruct (seed_one _ _ _ seeded_device) as [r w']. cbn in Hc, Hr |- *. split; [done|]. subst r. destruct H as [[H _]|[(m & _ & Hn & Hm) (what & Hw & _)]].
  - unfold current_of in Hc. by rewrite H in Hc.
  - destruct (Hw "installed" eq_refl) as [<- Hs]. split; [exact Hs|]. exists m. by split.
Defined.
Definition boots : list (World → World) := [id; id; id; id].
Lemma boots_fail : failures (SY := failing) (UR := https_urls) (MJ := demo_json) "demo" (demo_bundle "other,1.0,app") no_services boots no_apps = 2.
Proof. vm_compute. reflexivity. Qed.
Lemma seed_tries_bounded_witness : failures (SY := failing) (UR := https_urls) (MJ := demo_json) "demo" (demo_bundle "other,1.0,app") no_services boots no_apps ≤ 2.
Proof.
  apply (seed_tries_bounded (SY := failing)); [done|by intros h| |by intros h].
  intros f Hf w. unfold boots in Hf. repeat (apply elem_of_cons in Hf as [->|Hf]; [done|]). by apply elem_of_nil in Hf.
Defined.

(** A version refused unattended is marked as failed, and an update by hand,
    which is to take it, is not offered it. *)
Example refused_is_not_offered :
  let SY := serving "demo,1.0,root" in
  let w := (check_all (UR := https_urls) (MJ := demo_json) (VF := demo_files "demo") no_services one_app).2 in
  up_failed ∘ ae_update <$> smap_get "demo" (rc_apps (w_record w)) = Some (Some "1.0")
  ∧ (update (UR := https_urls) (MJ := demo_json) (VF := demo_files "demo") "demo" no_services "" w).1 = inl (AppRefused "no newer version of demo is offered").
Proof. split; vm_compute; reflexivity. Qed.
(** The bundle an update fetches is not held to be its app's: the daily check
    of one app replaces another. *)
Definition two_apps : World :=
  demo_world [("demo", demo_entry "0.9" "a" no_update); ("other", demo_entry "0.5" "b" no_update)] [("demo", 30001); ("other", 30002)]
    (<[("demo", "0.9") := demo_tree "demo,0.9,app"]> (<[("other", "0.5") := demo_tree "other,0.5,app"]> ∅)) [].
Example other_app_replaced :
  let w := (check_app (SY := serving "other,0.4,app") (UR := https_urls) (MJ := demo_json) (VF := demo_files "demo") "demo" true no_services two_apps).2 in
  current_of "demo" w = Some "0.9" ∧ current_of "other" w = Some "0.4".
Proof. split; vm_compute; reflexivity. Qed.
End AppUpdate.
