(* ===== verification/Networkd.v ===== *)
(** The systemd-networkd units of a network map ([src/crates/micad/src/
    reconciler/network/validate.rs] and [network/render.rs]), the rules they are
    held to before they are written, and the syntax systemd reads them in. *)
From Stdlib Require Import Ascii.
From S2P Require Import Prelude Text Maps Chars Features Addresses SettingsModel SettingsRules NetworkRules.
Import Features Addresses SettingsModel NetworkRules(Base64(..), check_iface_name, is_ip_or_cidr, is_host_port, is_wireguard_key, validate_peer, validate_peers,
  validate_can, can_alone, validate_topology, entry_violations, is_default_destination).

Module Networkd.

(** * The rules *)

Definition is_ip (value : string) : bool := bool_decide (is_Some (parse_ip value)).
Definition validate_static (cfg : StaticConfig) : result unit :=
  ensure is_ip_or_cidr (st_address cfg) else "static address is not an IP address or CIDR" in
  ensure match st_gateway cfg with Some gateway => is_ip gateway | None => true end else "gateway is not an IP address" in
  each (λ dns, ensure is_ip dns else "DNS server is not an IP address" in Ok tt) (st_dns cfg).
Definition kind_name (kind : IfaceKind) : string :=
  match kind with Physical => "physical" | Vlan => "vlan" | Bridge => "bridge" | Wireguard => "wireguard" | Can => "can" end.
Definition validate_dns_override (cfg : IfaceSettings) : result unit :=
  if is_nil (if_dns cfg) then Ok tt
  else
    ensure if_dhcp cfg && bool_decide (if_static cfg = None) else "names DNS servers in `dns`, which replaces the servers of a DHCP lease" in
    each (λ dns, ensure is_ip dns else "DNS server is not an IP address" in Ok tt) (if_dns cfg).
Definition present {A} (o : option A) : bool := match o with Some _ => true | None => false end.
Definition validate_kind_blocks (cfg : IfaceSettings) : result unit :=
  let own := if bool_decide (if_kind cfg = Physical) then None else Some (kind_name (if_kind cfg)) in
  let? _ := each (λ '(block, there), ensure negb (there && negb (bool_decide (own = Some block))) else "carries a block of another kind" in Ok tt)
              [("vlan", present (if_vlan cfg)); ("bridge", present (if_bridge cfg)); ("wireguard", present (if_wireguard cfg)); ("can", present (if_can cfg))] in
  let missing := match if_kind cfg with
                 | Vlan => negb (present (if_vlan cfg))
                 | Bridge => negb (present (if_bridge cfg))
                 | Wireguard => negb (present (if_wireguard cfg))
                 | Can => negb (present (if_can cfg))
                 | Physical => false
                 end in
  ensure negb missing else "carries no block of its kind" in Ok tt.
Section validate.
Context `{B64 : Base64}.
Definition validate_entry (iface : string) (cfg : IfaceSettings) : result unit :=
  let? _ := check_iface_name iface in
  let? _ := match if_static cfg with Some static_cfg => validate_static static_cfg | None => Ok tt end in
  let? _ := validate_dns_override cfg in
  let? _ := validate_kind_blocks cfg in
  let? _ := match if_wireguard cfg with Some wireguard => validate_peers (wg_peers wireguard) | None => Ok tt end in
  validate_can cfg.
Definition validate_network (network : network_map) : result unit :=
  let? _ := each (λ '(iface, cfg), validate_entry iface cfg) network in validate_topology network.
End validate.
(** The kernel feature a kind of device needs. *)
Definition needed_feature (kind : IfaceKind) : option string :=
  match kind with Vlan | Bridge => Some "netdev" | Wireguard => Some "wireguard" | Physical | Can => None end.
Definition validate_kernel_features (network : network_map) (features : option (list string)) : result unit :=
  match features with
  | None => Ok tt
  | Some features =>
      each (λ '(_, cfg), match needed_feature (if_kind cfg) with
                         | Some needs => ensure bool_decide (needs ∈ features) else "needs a kernel feature the running kernel does not carry" in Ok tt
                         | None => Ok tt
                         end) network
  end.

(** * Relations between entries *)

(** Which bridge each declared port belongs to. *)
Definition bridge_ports (network : network_map) : smap string :=
  foldl (λ ports e, match if_bridge e.2 with
                    | Some bridge => foldl (λ ports port, smap_insert port e.1 ports) ports (br_ports bridge)
                    | None => ports
                    end) [] network.
(** The declared VLAN children of each parent. *)
Definition vlan_children (network : network_map) : smap (list string) :=
  foldl (λ children e, match if_vlan e.2 with
                       | Some vlan => smap_insert (vl_parent vlan) (default [] (smap_get (vl_parent vlan) children) ++ [e.1]) children
                       | None => children
                       end) [] network.
(** Every peer's pre-shared key, by tunnel and peer index. *)
Definition preshared_keys (network : network_map) : list (string * Z * string) :=
  '(iface, cfg) ← network;
  match if_wireguard cfg with
  | Some wireguard => omap id (imap (λ index peer, (λ key, (iface, Z.of_nat index, key)) <$> wp_preshared_key peer) (wg_peers wireguard))
  | None => []
  end.
Definition ROUTE_METRIC_BASE : Z := 100.
Definition ROUTE_METRIC_STEP : Z := 10.
Definition route_metrics (network : network_map) (masters : smap string) (ports : list string) : smap Z :=
  let declared := map fst (List.filter (λ e, if_dhcp e.2 && negb (present (if_can e.2)) && negb (present (smap_get e.1 masters))) network) in
  let links := map fst (foldl (λ links name, smap_insert name tt links) [] (declared ++ ports)) in
  imap (λ i name, (name, ROUTE_METRIC_BASE + ROUTE_METRIC_STEP * Z.of_nat i)) links.

(** * The board's ports ([src/crates/micad/src/board.rs]) *)

Inductive PortKind := Ethernet | Wifi | CanPort.
Inductive Role := Uplink | Internal.
#[export] Instance port_kind_eq : EqDecision PortKind. Proof. solve_decision. Defined.
#[export] Instance role_eq : EqDecision Role. Proof. solve_decision. Defined.
Record Port := {
  po_name : string; po_kind : PortKind; po_label : string; po_role : option Role; po_speed_mbps : option Z; po_ap : option bool;
  po_bands : option (list string); po_fd : option bool; po_hidden : bool;
}.
(** The declaration as [serde_json] reads it. *)
Record BoardFile := { bf_version : Z; bf_discover : bool; bf_interfaces : option (list Port) }.
Inductive Board := Discover | Declared (ports : list Port).
Definition BOARD_VERSION : Z := 1.
Definition MAX_LABEL : Z := 16.
Definition BANDS : list string := ["2.4"; "5"; "6"].
Definition field_kinds (port : Port) : list (bool * list PortKind) :=
  [(bool_decide (is_Some (po_role port)), [Ethernet; Wifi]); (bool_decide (is_Some (po_speed_mbps port)), [Ethernet]);
   (bool_decide (is_Some (po_ap port)), [Wifi]); (bool_decide (is_Some (po_bands port)), [Wifi]); (bool_decide (is_Some (po_fd port)), [CanPort])].
Fixpoint check_ports (names : list string) (ports : list Port) : result unit :=
  match ports with
  | [] => Ok tt
  | port :: rest =>
      let? _ := check_iface_name (po_name port) in
      ensure negb (bool_decide (po_name port ∈ names)) else "is declared twice" in
      let length := chars_count (po_label port) in
      ensure negb ((length =? 0) || (MAX_LABEL <? length) || negb (bool_decide (trim (po_label port) = po_label port)))
        else "the label is 1 to 16 characters with no outer spaces" in
      let? _ := each (λ '(there, kinds), ensure negb (there && negb (bool_decide (po_kind port ∈ kinds))) else "is not for a port of this kind" in Ok tt) (field_kinds port) in
      ensure negb (bool_decide (po_speed_mbps port = Some 0)) else "speedMbps is above 0" in
      let? _ := match po_bands port with
                | Some bands =>
                    ensure negb (is_nil bands || negb (bool_decide (NoDup bands)) || existsb (λ band, negb (bool_decide (band ∈ BANDS))) bands)
                      else "bands are distinct ones of 2.4, 5 and 6" in Ok tt
                | None => Ok tt
                end in
      check_ports (po_name port :: names) rest
  end.
(** [Board::parse], of the file read. *)
Definition parse_board (file : result BoardFile) : result Board :=
  let? file := file in
  ensure bf_version file =? BOARD_VERSION else "version is not 1" in
  match bf_discover file, bf_interfaces file with
  | true, None => Ok Discover
  | true, Some _ => Err (Msg "a board that discovers declares no interfaces")
  | false, Some (port :: rest) => let? _ := check_ports [] (port :: rest) in Ok (Declared (port :: rest))
  | false, _ => Err (Msg "a board declares its interfaces or says discover: true")
  end.
(** [Board::load]: without a file, and with one this build refuses, the board
    discovers. *)
Definition load_board (file : option (result BoardFile)) : Board :=
  match file with None => Discover | Some file => match parse_board file with Ok b => b | Err _ => Discover end end.
Definition board_ports (b : Board) : list Port := match b with Discover => [] | Declared ports => ports end.
Definition port (b : Board) (name : string) : option Port := head (List.filter (λ p, bool_decide (po_name p = name)) (board_ports b)).
Definition hidden (b : Board) (name : string) : bool := match port b name with Some p => po_hidden p | None => false end.
Definition internal (b : Board) (name : string) : bool := match port b name with Some p => bool_decide (po_role p = Some Internal) | None => false end.
Definition with_internet (i : option bool) (cfg : IfaceSettings) : IfaceSettings :=
  {| if_kind := if_kind cfg; if_dhcp := if_dhcp cfg; if_static := if_static cfg; if_dns := if_dns cfg; if_vlan := if_vlan cfg; if_bridge := if_bridge cfg;
     if_wireguard := if_wireguard cfg; if_can := if_can cfg; if_routes := if_routes cfg; if_internet := i |}.
Definition effective_entry (b : Board) (name : string) (cfg : IfaceSettings) : IfaceSettings :=
  if bool_decide (if_internet cfg = None) && internal b name then with_internet (Some false) cfg else cfg.
Definition effective (b : Board) (network : network_map) : network_map := map (λ e, (e.1, effective_entry b e.1 e.2)) network.

(** * Rendering *)

(** Where the key files are. *)
Record Keystore := { ks_dir : string; ks_psk_dir : string }.
Definition key_path (keys : Keystore) (iface : string) : string := ks_dir keys +:+ "/wg-" +:+ iface +:+ ".key".
Definition psk_path (keys : Keystore) (iface : string) (index : Z) : string := ks_psk_dir keys +:+ "/wg-" +:+ iface +:+ "-" +:+ to_dec index +:+ ".psk".

Definition NL : string := String LF EmptyString.
Definition line (s : string) : string := s +:+ NL.
(** Text pushed when there is a value. *)
Definition when_some {A} (f : A → string) (o : option A) : string := match o with Some a => f a | None => "" end.
Fixpoint concat_str (l : list string) : string := match l with [] => "" | s :: l => s +:+ concat_str l end.
Definition each_str {A} (f : A → string) (l : list A) : string := concat_str (map f l).
Definition render_peer (keys : Keystore) (iface : string) (index : Z) (peer : WireguardPeer) : string :=
  NL +:+ line "[WireGuardPeer]" +:+ line ("PublicKey=" +:+ wp_public_key peer)
  +:+ (if present (wp_preshared_key peer) then line ("PresharedKeyFile=" +:+ psk_path keys iface index) else "")
  +:+ (if is_nil (wp_allowed_ips peer) then "" else line ("AllowedIPs=" +:+ join "," (wp_allowed_ips peer)))
  +:+ when_some (λ endpoint, line ("Endpoint=" +:+ endpoint)) (wp_endpoint peer)
  +:+ when_some (λ keepalive, line ("PersistentKeepalive=" +:+ to_dec keepalive)) (wp_persistent_keepalive peer).
Definition render_wireguard (iface : string) (cfg : WireguardConfig) (keys : Keystore) : string :=
  NL +:+ line "[WireGuard]" +:+ line ("PrivateKeyFile=" +:+ key_path keys iface)
  +:+ when_some (λ port, line ("ListenPort=" +:+ to_dec port)) (wg_listen_port cfg)
  +:+ concat_str (imap (λ index peer, render_peer keys iface (Z.of_nat index) peer) (wg_peers cfg)).
Definition netdev_head (iface kind : string) : string := line "[NetDev]" +:+ line ("Name=" +:+ iface) +:+ line ("Kind=" +:+ kind).
Definition render_netdev (iface : string) (cfg : IfaceSettings) (keys : Keystore) : option string :=
  match if_kind cfg, if_vlan cfg, if_wireguard cfg with
  | Vlan, Some vlan, _ => Some (netdev_head iface "vlan" +:+ NL +:+ line "[VLAN]" +:+ line ("Id=" +:+ to_dec (vl_id vlan)))
  | Bridge, _, _ => Some (netdev_head iface "bridge")
  | Wireguard, _, Some wireguard => Some (netdev_head iface "wireguard" +:+ render_wireguard iface wireguard keys)
  | _, _, _ => None
  end.
Definition match_head (iface : string) : string := line "[Match]" +:+ line ("Name=" +:+ iface) +:+ NL.
Definition yes_no (b : bool) : string := if b then "yes" else "no".
Definition render_can_unit (iface : string) (can : CanConfig) : string :=
  match_head iface +:+ line "[CAN]" +:+ line ("BitRate=" +:+ to_dec (can_bitrate can))
  +:+ when_some (λ ms, line ("RestartSec=" +:+ to_dec ms +:+ "ms")) (can_restart_ms can)
  +:+ line ("FDMode=" +:+ yes_no (bool_decide (can_fd can = Some true)))
  +:+ when_some (λ rate, line ("DataBitRate=" +:+ to_dec rate)) (can_data_bitrate can).
Definition render_route (route : RouteConfig) : string :=
  NL +:+ line "[Route]" +:+ line ("Destination=" +:+ rt_destination route)
  +:+ when_some (λ gateway, line ("Gateway=" +:+ gateway)) (rt_gateway route)
  +:+ when_some (λ metric, line ("Metric=" +:+ to_dec metric)) (rt_metric route).
Definition render_addressing (cfg : IfaceSettings) (master : option string) : string :=
  match master with
  | Some bridge => line ("Bridge=" +:+ bridge)
  | None =>
      if if_dhcp cfg then line "DHCP=yes" +:+ line "LinkLocalAddressing=yes" +:+ each_str (λ dns, line ("DNS=" +:+ dns)) (if_dns cfg)
      else
        when_some (λ static_cfg, line ("Address=" +:+ st_address static_cfg)
                                 +:+ when_some (λ gateway, line ("Gateway=" +:+ gateway)) (st_gateway static_cfg)
                                 +:+ each_str (λ dns, line ("DNS=" +:+ dns)) (st_dns static_cfg)) (if_static cfg)
  end.
Definition render_dhcp (cfg : IfaceSettings) (metric : option Z) : string :=
  let own_dns := negb (is_nil (if_dns cfg)) in
  NL +:+ line "[DHCPv4]"
  +:+ when_some (λ metric, line ("RouteMetric=" +:+ to_dec metric)) metric
  +:+ (if internet cfg then "" else line "UseGateway=no")
  +:+ (if own_dns then line "UseDNS=no" +:+ NL +:+ line "[DHCPv6]" +:+ line "UseDNS=no" else "")
  +:+ (if own_dns || negb (internet cfg)
       then NL +:+ line "[IPv6AcceptRA]" +:+ (if internet cfg then "" else line "UseGateway=no") +:+ (if own_dns then line "UseDNS=no" else "")
       else "").
Definition render_unit (iface : string) (cfg : IfaceSettings) (master : option string) (vlans : list string) (metric : option Z) : string :=
  match if_can cfg with
  | Some can => render_can_unit iface can
  | None =>
      match_head iface +:+ line "[Network]"
      +:+ render_addressing cfg master
      +:+ each_str (λ child, line ("VLAN=" +:+ child)) vlans
      +:+ (if present master then "" else each_str render_route (if_routes cfg))
      +:+ (if negb (present master) && if_dhcp cfg && (present metric || negb (is_nil (if_dns cfg)) || negb (internet cfg))
           then render_dhcp cfg metric else "")
  end.

(** * File names *)

Definition AUTO_UNIT_PREFIX : string := "60-mica-auto-".
Definition auto_unit_name (iface : string) : string := AUTO_UNIT_PREFIX +:+ iface +:+ ".network".
Definition network_name (iface : string) : string := "50-mica-" +:+ iface +:+ ".network".
Definition netdev_name (iface : string) : string := "50-mica-" +:+ iface +:+ ".netdev".
Definition is_mica_managed (file_name : string) : bool :=
  starts_with "50-mica-" file_name && (ends_with ".network" file_name || ends_with ".netdev" file_name)
  || starts_with AUTO_UNIT_PREFIX file_name && ends_with ".network" file_name.
Definition mica_netdev_iface (file_name : string) : option string := strip_prefix "50-mica-" file_name ≫= strip_suffix ".netdev".

(** * What systemd reads *)

(** A unit file as systemd.syntax(7) gives it: sections of assignments, spaces
    around a key and a value dropped, blank lines and comments skipped. A line
    that ends with a backslash goes on in the next one; no reading is given of
    a file with one. *)
Notation section := (string * list (string * string))%type.
Definition header (s : string) : option string := strip_prefix "[" s ≫= strip_suffix "]".
Definition skipped (s : string) : bool := is_empty s || first_byte (one_of "#;") s.
Fixpoint read_lines (l : list string) : option (list (string * string) * list section) :=
  match l with
  | [] => Some ([], [])
  | s :: rest =>
      '(pairs, sections) ← read_lines rest;
      if ends_with "\" s then None
      else if skipped s then Some (pairs, sections)
      else match header s with
           | Some name => Some ([], (name, pairs) :: sections)
           | None => '(key, v) ← split_once "=" s; Some ((trim_ws key, trim_ws v) :: pairs, sections)
           end
  end.
Definition read_unit (text : string) : option (list section) :=
  '(pairs, sections) ← read_lines (split LF text); if is_nil pairs then Some sections else None.

(** * What a unit declares *)

(** The unit of an entry of a network map, on a board. *)
Definition entry_unit (b : Board) (network : network_map) (ports : list string) (iface : string) (cfg : IfaceSettings) : string :=
  let masters := bridge_ports network in
  render_unit iface (effective_entry b iface cfg) (smap_get iface masters) (default [] (smap_get iface (vlan_children network)))
    (smap_get iface (route_metrics network masters ports)).


Definition pair_of {A} (key : string) (f : A → string) (o : option A) : list (string * string) := match o with Some a => [(key, f a)] | None => [] end.
Definition if_pair (c : bool) (key v : string) : list (string * string) := if c then [(key, v)] else [].
Definition peer_section (keys : Keystore) (iface : string) (index : Z) (peer : WireguardPeer) : section :=
  ("WireGuardPeer", ("PublicKey", wp_public_key peer) :: if_pair (present (wp_preshared_key peer)) "PresharedKeyFile" (psk_path keys iface index)
     ++ if_pair (negb (is_nil (wp_allowed_ips peer))) "AllowedIPs" (join "," (wp_allowed_ips peer))
     ++ pair_of "Endpoint" id (wp_endpoint peer) ++ pair_of "PersistentKeepalive" to_dec (wp_persistent_keepalive peer)).
(** The device a unit creates. *)
Definition netdev_sections (iface : string) (cfg : IfaceSettings) (keys : Keystore) : list section :=
  ("NetDev", [("Name", iface); ("Kind", kind_name (if_kind cfg))]) ::
  match if_kind cfg, if_vlan cfg, if_wireguard cfg with
  | Vlan, Some vlan, _ => [("VLAN", [("Id", to_dec (vl_id vlan))])]
  | Wireguard, _, Some wireguard =>
      ("WireGuard", ("PrivateKeyFile", key_path keys iface) :: pair_of "ListenPort" to_dec (wg_listen_port wireguard))
      :: imap (λ index peer, peer_section keys iface (Z.of_nat index) peer) (wg_peers wireguard)
  | _, _, _ => []
  end.
Definition can_section (can : CanConfig) : section :=
  ("CAN", ("BitRate", to_dec (can_bitrate can)) :: pair_of "RestartSec" (λ ms, to_dec ms +:+ "ms") (can_restart_ms can)
     ++ ("FDMode", yes_no (bool_decide (can_fd can = Some true))) :: pair_of "DataBitRate" to_dec (can_data_bitrate can)).
Definition route_section (route : RouteConfig) : section :=
  ("Route", ("Destination", rt_destination route) :: pair_of "Gateway" id (rt_gateway route) ++ pair_of "Metric" to_dec (rt_metric route)).
Definition addressing_pairs (cfg : IfaceSettings) (master : option string) : list (string * string) :=
  match master with
  | Some bridge => [("Bridge", bridge)]
  | None =>
      if if_dhcp cfg then [("DHCP", "yes"); ("LinkLocalAddressing", "yes")] ++ map (pair "DNS") (if_dns cfg)
      else match if_static cfg with
           | Some static_cfg => ("Address", st_address static_cfg) :: pair_of "Gateway" id (st_gateway static_cfg) ++ map (pair "DNS") (st_dns static_cfg)
           | None => []
           end
  end.
Definition dhcp_sections (cfg : IfaceSettings) (metric : option Z) : list section :=
  let own_dns := negb (is_nil (if_dns cfg)) in
  ("DHCPv4", pair_of "RouteMetric" to_dec metric ++ if_pair (negb (internet cfg)) "UseGateway" "no" ++ if_pair own_dns "UseDNS" "no")
  :: (if own_dns then [("DHCPv6", [("UseDNS", "no")])] else [])
  ++ (if own_dns || negb (internet cfg)
      then [("IPv6AcceptRA", if_pair (negb (internet cfg)) "UseGateway" "no" ++ if_pair own_dns "UseDNS" "no")] else []).
(** What one interface is configured with. *)
Definition unit_sections (iface : string) (cfg : IfaceSettings) (master : option string) (vlans : list string) (metric : option Z) : list section :=
  ("Match", [("Name", iface)]) ::
  match if_can cfg with
  | Some can => [can_section can]
  | None =>
      ("Network", addressing_pairs cfg master ++ map (pair "VLAN") vlans)
      :: (if present master then [] else map route_section (if_routes cfg))
      ++ (if negb (present master) && if_dhcp cfg && (present metric || negb (is_nil (if_dns cfg)) || negb (internet cfg)) then dhcp_sections cfg metric else [])
  end.

(** * Lemmas *)

(** ** Reading what is rendered *)

Definition word_byte (c : ascii) : bool := is_graphic c && negb (bool_decide (c = "\"%char)).
Definition word : string → Prop := λ s, all_bytes word_byte s = true.
Definition key_name (s : string) : bool := all_bytes is_alphanumeric s && negb (is_empty s).
Definition reads (text : string) (pairs : list (string * string)) (sections : list section) : Prop := read_lines (split LF text) = Some (pairs, sections).
(** Text that adds assignments to the section around it, or sections before it. *)
Definition gives_pairs (text : string) (ps : list (string * string)) : Prop := ∀ t p s, reads t p s → reads (text +:+ t) (ps ++ p) s.
Definition gives_sections (text : string) (ss : list section) : Prop := ∀ t s, reads t [] s → reads (text +:+ t) [] (ss ++ s).

Lemma byte_cases (p q : ascii → bool) : forallb (λ n, implb (p (ascii_of_nat n)) (q (ascii_of_nat n))) (seq 0 256) = true → ∀ c, p c = true → q c = true.
Proof.
  intros H c Hc. rewrite forallb_forall in H. specialize (H (nat_of_ascii c)). rewrite ascii_nat_embedding, Hc in H. apply H.
  apply in_seq. pose proof (nat_ascii_bounded c). lia.
Qed.
Lemma word_no_lf s : word s → contains_byte LF s = false.
Proof. intros H. eapply all_bytes_not_contains; [exact H|]. done. Qed.
Lemma trim_start_none p s : first_byte p s = false → trim_start p s = s.
Proof. destruct s as [|c s]; cbn; [done|]. by intros ->. Qed.
Lemma trim_end_none p s : all_bytes (λ c, negb (p c)) s = true → trim_end p s = s.
Proof.
  induction s as [|c s IH]; cbn; [done|]. intros [H1 H2]%andb_true_iff. rewrite IH by done. apply negb_true_iff in H1. rewrite H1. by destruct s.
Qed.
Lemma trim_word s : word s → trim_ws s = s.
Proof.
  intros H. assert (Hs : all_bytes (λ c, negb (is_space c)) s = true) by (eapply all_bytes_impl; [|exact H]; by apply byte_cases).
  unfold trim_ws, trim_matches. rewrite trim_start_none; [by apply trim_end_none|]. destruct s as [|c s]; [done|]. cbn in Hs |- *. apply andb_true_iff in Hs as [Hs _].
  by apply negb_true_iff.
Qed.
Lemma key_name_word s : key_name s = true → word s.
Proof. intros [H _]%andb_true_iff. eapply all_bytes_impl; [|exact H]. by apply byte_cases. Qed.
Lemma word_app s t : word (s +:+ t) ↔ word s ∧ word t.
Proof. unfold word. by rewrite all_bytes_app, andb_true_iff. Qed.
Lemma word_end s : word s → ends_with "\" s = false.
Proof.
  intros H. unfold ends_with. apply bool_decide_eq_false. intros [r Hr]. apply strip_suffix_spec in Hr as ->. by apply word_app in H as [_ H].
Qed.
Lemma split_line s t : contains_byte LF s = false → split LF (line s +:+ t) = s :: split LF t.
Proof. intros H. unfold line, NL. rewrite append_assoc, append_cons, append_nil_l. by apply split_app_sep. Qed.
Lemma reads_nil : reads "" [] [].
Proof. done. Qed.
Lemma reads_blank t p s : reads t p s → reads (NL +:+ t) p s.
Proof. unfold reads. intros H. change (NL +:+ t) with (line "" +:+ t). rewrite split_line by done. cbn [read_lines]. by rewrite H. Qed.
Lemma reads_line_of s t p ss p' ss' : word s → skipped s = false → reads t p ss →
  match header s with Some name => Some ([], (name, p) :: ss) | None => '(key, v) ← split_once "=" s; Some ((trim_ws key, trim_ws v) :: p, ss) end = Some (p', ss') →
  reads (line s +:+ t) p' ss'.
Proof. unfold reads. intros Hw Hs H <-. rewrite split_line by by apply word_no_lf. cbn [read_lines]. rewrite H. cbn [mbind option_bind]. by rewrite (word_end _ Hw), Hs. Qed.
Lemma reads_header text name t p s : header text = Some name → word text → skipped text = false → reads t p s → reads (line text +:+ t) [] ((name, p) :: s).
Proof. intros Hh Hw Hs H. by apply (reads_line_of text t p s _ _ Hw Hs H); rewrite Hh. Qed.
Lemma pairs_line key text v : text = key +:+ "=" → key_name key = true → word v → gives_pairs (line (text +:+ v)) [(key, v)].
Proof.
  intros -> Hk Hv t p s H. pose proof (key_name_word _ Hk) as Hkw. destruct (proj1 (andb_true_iff _ _) Hk) as [Ha Hn].
  destruct key as [|c key]; [done|]. cbn in Ha. apply andb_true_iff in Ha as [Hc Ha].
  pose proof (byte_cases is_alphanumeric (λ c, negb (one_of "#;" c) && negb (Ascii.eqb "[" c)) eq_refl c Hc) as Hc1. cbn beta in Hc1.
  apply andb_true_iff in Hc1 as [Hc1 Hc2]. apply negb_true_iff in Hc1, Hc2.
  apply (reads_line_of _ t p s); [by rewrite !word_app| |done|].
  - unfold skipped. rewrite !append_cons. cbn [is_empty first_byte orb]. by rewrite Hc1.
  - unfold header. rewrite !append_cons. cbn [strip_prefix].
    apply Ascii.eqb_neq in Hc2. rewrite bool_decide_eq_false_2 by done. cbn [mbind option_bind].
    assert (E : split_once "=" (String c ((key +:+ "=") +:+ v)) = Some (String c key, v)).
    { apply split_once_spec. rewrite append_assoc, append_cons, append_nil_l. split; [done|].
      apply (all_bytes_not_contains is_alphanumeric); [|done]. cbn [all_bytes]. by rewrite Hc, Ha. }
    rewrite E. cbn [mbind option_bind app]. by rewrite (trim_word v Hv), (trim_word (String c key) Hkw).
Qed.
Lemma pairs_nil : gives_pairs "" [].
Proof. by intros t p s H. Qed.
Lemma pairs_app a b ps qs : gives_pairs a ps → gives_pairs b qs → gives_pairs (a +:+ b) (ps ++ qs).
Proof. intros Ha Hb t p s H. rewrite append_assoc, <- app_assoc. by apply Ha, Hb. Qed.
Lemma pairs_if (c : bool) a ps : (c = true → gives_pairs a ps) → gives_pairs (if c then a else "") (if c then ps else []).
Proof. intros H. destruct c; [by apply H|apply pairs_nil]. Qed.
Lemma pairs_unless (c : bool) a ps : (c = false → gives_pairs a ps) → gives_pairs (if c then "" else a) (if negb c then ps else []).
Proof. intros H. destruct c; [apply pairs_nil|by apply H]. Qed.
Lemma pairs_some {A} key (f : A → string) text o : (∀ a, o = Some a → gives_pairs (text a) [(key, f a)]) → gives_pairs (when_some text o) (pair_of key f o).
Proof. intros H. destruct o as [a|]; [by apply H|apply pairs_nil]. Qed.
Lemma pairs_each {A} (text : A → string) (f : A → string * string) l : (∀ a, a ∈ l → gives_pairs (text a) [f a]) → gives_pairs (each_str text l) (map f l).
Proof.
  unfold each_str. induction l as [|a l IH]; intros H; cbn [map concat_str]; [apply pairs_nil|].
  apply (pairs_app _ _ [f a]); [apply H; by left|apply IH; intros b Hb; apply H; by right].
Qed.
Lemma sections_nil : gives_sections "" [].
Proof. by intros t s H. Qed.
Lemma sections_app a b ss ts : gives_sections a ss → gives_sections b ts → gives_sections (a +:+ b) (ss ++ ts).
Proof. intros Ha Hb t s H. rewrite append_assoc, <- app_assoc. by apply Ha, Hb. Qed.
Lemma sections_blank a ss : gives_sections a ss → gives_sections (NL +:+ a) ss.
Proof. intros Ha t s H. rewrite append_assoc. by apply reads_blank, Ha. Qed.
Lemma section_of text name a ps : header text = Some name → word text → skipped text = false → gives_pairs a ps → gives_sections (line text +:+ a) [(name, ps)].
Proof. intros H1 H2 H3 Ha t s H. rewrite append_assoc. apply reads_header; [done..|]. apply Ha in H. by rewrite app_nil_r in H. Qed.
Lemma sections_each {A} (text : A → string) (f : A → section) l : (∀ a, a ∈ l → gives_sections (text a) [f a]) → gives_sections (each_str text l) (map f l).
Proof.
  unfold each_str. induction l as [|a l IH]; intros H; cbn [map concat_str]; [apply sections_nil|].
  apply (sections_app _ _ [f a]); [apply H; by left|apply IH; intros b Hb; apply H; by right].
Qed.
Lemma sections_if (c : bool) a ss : (c = true → gives_sections a ss) → gives_sections (if c then a else "") (if c then ss else []).
Proof. intros H. destruct c; [by apply H|apply sections_nil]. Qed.
Lemma read_sections text ss : gives_sections text ss → read_unit text = Some ss.
Proof. intros H. specialize (H "" [] reads_nil). rewrite append_nil_r, app_nil_r in H. unfold reads in H. unfold read_unit. by rewrite H. Qed.

(** ** What the rules leave in a value *)

Definition address_byte (c : ascii) : bool := bool_decide (is_Some (hex_digit_of c)) || one_of ".:" c.
(** A reader's rest is what follows bytes of an address. *)
Definition over (s rest : string) : Prop := ∃ p, s = p +:+ rest ∧ all_bytes address_byte p = true.
Lemma over_refl s : over s s.
Proof. by exists "". Qed.
Lemma over_trans a b c : over a b → over b c → over a c.
Proof. intros (p & -> & Hp) (q & -> & Hq). exists (p +:+ q). by rewrite append_assoc, all_bytes_app, Hp, Hq. Qed.
Lemma over_cons c s rest : address_byte c = true → over s rest → over (String c s) rest.
Proof. intros Hc (p & -> & Hp). exists (String c p). split; [done|]. cbn [all_bytes]. by rewrite Hc, Hp. Qed.
Lemma read_digits_over radix s acc count : over s (read_digits radix s acc count).2.
Proof.
  revert acc count. induction s as [|c s IH]; intros acc count; cbn [read_digits]; [apply over_refl|].
  destruct (to_digit radix c) as [d|] eqn:E; [|apply over_refl]. apply over_cons; [|apply IH].
  unfold address_byte. apply orb_true_iff. left. apply bool_decide_eq_true. unfold to_digit in E. destruct (hex_digit_of c); [by eexists|done].
Qed.
Lemma read_number_over radix digits zp max s v rest : read_number radix digits zp max s = Some (v, rest) → over s rest.
Proof.
  unfold read_number. pose proof (read_digits_over radix s 0 0) as H. destruct (read_digits radix s 0 0) as [[v' n] rest']. cbn in H.
  repeat case_match; by intros [= _ <-].
Qed.
Lemma read_char_over c s rest : address_byte c = true → read_char c s = Some rest → over s rest.
Proof. intros Hc. destruct s as [|d s]; [done|]. cbn. case_bool_decide as E; [|done]. intros [= <-]. subst d. apply over_cons; [done|apply over_refl]. Qed.
Lemma read_separator_over c first s rest : address_byte c = true → read_separator c first s = Some rest → over s rest.
Proof. intros Hc. destruct first; cbn; [intros [= <-]; apply over_refl|by apply read_char_over]. Qed.
Lemma read_octets_over count first acc s a rest : read_octets count first acc s = Some (a, rest) → over s rest.
Proof.
  revert first acc s. induction count as [|n IH]; intros first acc s; cbn [read_octets]; [intros [= _ <-]; apply over_refl|].
  intros (s1 & E1 & H)%bind_Some. apply bind_Some in H as ([o s2] & E2 & H). apply read_separator_over in E1; [|done]. apply read_number_over in E2.
  eapply over_trans; [done|]. eapply over_trans; [done|]. by eapply IH.
Qed.
Lemma read_groups_over limit first s : over s (read_groups limit first s).2.
Proof.
  revert first s. induction limit as [|limit IH]; intros first s; cbn [read_groups]; [apply over_refl|].
  assert (Hf : over s (match read_separator ":" first s ≫= read_number 16 4 true 65535 with
                       | Some (g, rest) => let '(gs, v4, rest) := read_groups limit false rest in (g :: gs, v4, rest)
                       | None => ([], false, s) end).2).
  { destruct (read_separator ":" first s ≫= _) as [[g rest]|] eqn:E; [|apply over_refl]. apply bind_Some in E as (s1 & E1 & E2).
    apply read_separator_over in E1; [|done]. apply read_number_over in E2. specialize (IH false rest). destruct (read_groups limit false rest) as [[gs v4] rest'].
    cbn in *. eapply over_trans; [done|]. by eapply over_trans. }
  destruct limit as [|limit']; [done|]. destruct (read_separator ":" first s ≫= read_ipv4) as [[a rest]|] eqn:E; [|done].
  apply bind_Some in E as (s1 & E1 & E2). apply read_separator_over in E1; [|done]. apply read_octets_over in E2. cbn. by eapply over_trans.
Qed.
Lemma read_ipv6_over s groups rest : read_ipv6 s = Some (groups, rest) → over s rest.
Proof.
  unfold read_ipv6. pose proof (read_groups_over 8 true s) as H. destruct (read_groups 8 true s) as [[h v4] rest1]. cbn in H.
  destruct (len h =? 8); [by intros [= _ <-]|]. destruct v4; [done|]. intros (s1 & E1 & H1)%bind_Some. apply bind_Some in H1 as (s2 & E2 & H1).
  apply read_char_over in E1, E2; [|done..]. pose proof (read_groups_over (8 - (length h + 1)) true s2) as Hg.
  destruct (read_groups _ true s2) as [[t v4'] rest2]. cbn in Hg. injection H1 as _ <-. eapply over_trans; [done|]. eapply over_trans; [done|]. by eapply over_trans.
Qed.
Lemma address_word s : all_bytes address_byte s = true → word s.
Proof. apply all_bytes_impl. intros c. apply (byte_cases address_byte word_byte). by vm_compute. Qed.
Lemma over_word s : over s "" → word s.
Proof. intros (p & -> & Hp). apply address_word. by rewrite append_nil_r. Qed.
Lemma parse_ipv6_word s : is_Some (parse_ipv6 s) → word s.
Proof.
  unfold parse_ipv6. intros [g H]. apply bind_Some in H as ([gs rest] & E & H). apply read_ipv6_over in E. destruct (is_empty rest) eqn:Er; [|done].
  apply is_empty_spec in Er as ->. by apply over_word.
Qed.
Lemma parse_ip_word s : is_Some (parse_ip s) → word s.
Proof.
  unfold parse_ip. intros [g H]. apply bind_Some in H as ([gs rest] & E & H). destruct (is_empty rest) eqn:Er; [|done]. apply is_empty_spec in Er as ->.
  apply over_word. unfold read_ip in E. destruct (read_ipv4 s) as [[a rest]|] eqn:E4; [injection E as _ ->; by eapply read_octets_over|].
  apply bind_Some in E as ([gs' rest] & E & H'). injection H' as _ ->. by eapply read_ipv6_over.
Qed.
Lemma is_ip_word s : is_ip s = true → word s.
Proof. intros H. by apply parse_ip_word, (bool_decide_eq_true_1 _ H). Qed.
Lemma digits_word s : all_bytes is_digit s = true → word s.
Proof. apply all_bytes_impl. intros c. by apply (byte_cases is_digit word_byte). Qed.
Lemma to_dec_word n : 0 ≤ n → word (to_dec n).
Proof. intros H. by apply digits_word, to_dec_digits. Qed.
Lemma parse_uint_word max s v : parse_uint max s = Some v → word s.
Proof.
  assert (Hd : ∀ s acc v, parse_digits max s acc = Some v → all_bytes is_digit s = true).
  { intros t. induction t as [|c t IH]; intros acc v'; cbn [parse_digits all_bytes]; [done|]. destruct (is_digit c); [|done]. cbv zeta. case_match; [|done]. apply IH. }
  unfold parse_uint. intros H. assert (Hb : word (match s with String "+" s' => s' | _ => s end)).
  { cbv zeta in H. set (body := match s with String "+" s' => s' | _ => s end) in *. destruct body; [done|]. by apply digits_word, (Hd _ _ _ H). }
  destruct s as [|c s]; [done|]. destruct (decide (c = "+"%char)) as [->|Hc]; [unfold word in *; cbn [all_bytes]; by rewrite Hb|].
  destruct c as [[] [] [] [] [] [] [] []]; done.
Qed.
Lemma is_ip_or_cidr_word s : is_ip_or_cidr s = true → word s.
Proof.
  unfold is_ip_or_cidr. destruct (split_once "/" s) as [[addr prefix]|] eqn:E.
  - apply split_once_spec in E as [-> _]. destruct (parse_ip addr) eqn:Ea; [|done]. destruct (parse_uint 255 prefix) eqn:Ep; [|done]. intros _.
    apply word_app. split; [by apply parse_ip_word; rewrite Ea|]. apply parse_uint_word in Ep. unfold word in *. cbn [all_bytes]. by rewrite Ep.
  - destruct (parse_ip s) eqn:Ea; [|done]. intros _. apply parse_ip_word. by rewrite Ea.
Qed.
Lemma is_host_port_word s : is_host_port s = true → word s.
Proof.
  unfold is_host_port. destruct (rsplit_once ":" s) as [[host port]|] eqn:E; [|done]. apply rsplit_once_spec in E as [-> _].
  destruct (parse_uint 65535 port) eqn:Ep; [|done]. intros H. assert (Hh : word host).
  { destruct (strip_prefix "[" host ≫= strip_suffix "]") as [inner|] eqn:Ei.
    - apply bind_Some in Ei as (a & Ea & Ei). apply strip_prefix_spec in Ea as ->. apply strip_suffix_spec in Ei as ->. apply word_app. split; [done|]. apply word_app.
      split; [|done]. by apply parse_ipv6_word, (bool_decide_eq_true_1 _ H).
    - apply andb_true_iff in H as [_ H]. eapply all_bytes_impl; [|exact H]. intros c. by apply (byte_cases (λ b, is_alphanumeric b || one_of ".-_" b) word_byte). }
  apply word_app. split; [done|]. apply parse_uint_word in Ep. unfold word in *. cbn [all_bytes]. by rewrite Ep.
Qed.
Lemma iface_name_word name : check_iface_name name = Ok tt → word name.
Proof.
  unfold check_iface_name. repeat case_match; try done. intros _. eapply all_bytes_impl; [|done]. intros c.
  by apply (byte_cases (λ b, is_alphanumeric b || one_of ".-_:" b) word_byte).
Qed.
Lemma join_word l : Forall word l → word (join "," l).
Proof.
  induction l as [|s l IH]; intros H; [done|]. apply Forall_cons in H as [Hs Hl]. destruct l as [|s' l]; [done|]. rewrite join_cons by done.
  apply word_app. split; [done|]. specialize (IH Hl). unfold word in *. cbn [all_bytes]. by rewrite IH.
Qed.
(** The integers of an entry, unsigned in the settings' types. *)
Record unsigned (cfg : IfaceSettings) : Prop := {
  un_vlan : ∀ vlan, if_vlan cfg = Some vlan → 0 ≤ vl_id vlan;
  un_can : ∀ can, if_can cfg = Some can → 0 ≤ can_bitrate can ∧ (∀ ms, can_restart_ms can = Some ms → 0 ≤ ms) ∧ (∀ rate, can_data_bitrate can = Some rate → 0 ≤ rate);
  un_wireguard : ∀ wg, if_wireguard cfg = Some wg → (∀ p, wg_listen_port wg = Some p → 0 ≤ p) ∧ (∀ peer, peer ∈ wg_peers wg → ∀ k, wp_persistent_keepalive peer = Some k → 0 ≤ k);
  un_routes : ∀ route, route ∈ if_routes cfg → ∀ m, rt_metric route = Some m → 0 ≤ m;
}.
Record words_of_entry (iface : string) (cfg : IfaceSettings) : Prop := {
  we_name : word iface;
  we_static : ∀ st, if_static cfg = Some st → word (st_address st) ∧ (∀ g, st_gateway st = Some g → word g) ∧ (∀ d, d ∈ st_dns st → word d);
  we_dns : ∀ d, d ∈ if_dns cfg → word d;
  we_peers : ∀ wg, if_wireguard cfg = Some wg → ∀ peer, peer ∈ wg_peers wg →
    word (wp_public_key peer) ∧ (∀ a, a ∈ wp_allowed_ips peer → word a) ∧ (∀ e, wp_endpoint peer = Some e → word e);
  we_routes : ∀ route, route ∈ if_routes cfg → word (rt_destination route) ∧ (∀ g, rt_gateway route = Some g → word g);
}.
(** The decoder refuses what is outside its alphabet. *)
Definition base64_text `{Base64} : Prop := ∀ s b, NetworkRules.base64_decode s = Some b → word s.

Section accepted.
Context `{B64 : Base64} (Hb64 : base64_text).
Lemma wireguard_key_word s : is_wireguard_key s = true → word s.
Proof. unfold is_wireguard_key. destruct (NetworkRules.base64_decode s) eqn:E; [|done]. intros _. by eapply Hb64. Qed.
Lemma peer_words peer : validate_peer peer = Ok tt →
  word (wp_public_key peer) ∧ (∀ a, a ∈ wp_allowed_ips peer → word a) ∧ (∀ e, wp_endpoint peer = Some e → word e).
Proof.
  unfold validate_peer. destruct (is_wireguard_key (wp_public_key peer)) eqn:Ek; [|done].
  destruct (each _ (wp_allowed_ips peer)) as [[]|] eqn:Ea; [cbn [rbind]|done]. rewrite each_ok, Forall_forall in Ea. intros H. split_and!.
  - by apply wireguard_key_word.
  - intros a Ha. specialize (Ea a Ha). cbn in Ea. destruct (is_ip_or_cidr a) eqn:E; [|done]. by apply is_ip_or_cidr_word.
  - intros e He. rewrite He in H. destruct (is_host_port e) eqn:E; [|done]. by apply is_host_port_word.
Qed.
Lemma ips_words l : each (λ dns, ensure is_ip dns else "DNS server is not an IP address" in Ok tt) l = Ok tt → ∀ d, d ∈ l → word d.
Proof. rewrite each_ok, Forall_forall. intros H d Hd. specialize (H d Hd). cbn in H. destruct (is_ip d) eqn:E; [|done]. by apply is_ip_word. Qed.
Lemma route_words cfg : NetworkRules.routing_problem cfg = None → ∀ route, route ∈ if_routes cfg → word (rt_destination route) ∧ (∀ g, rt_gateway route = Some g → word g).
Proof.
  unfold NetworkRules.routing_problem. destruct (omap _ (if_routes cfg)) as [|p l] eqn:E; [|done]. intros _ route Hr.
  assert (Hp : NetworkRules.route_problem (bool_decide (is_Some (NetworkRules.gateway_of cfg))) route = None).
  { destruct (NetworkRules.route_problem _ route) as [p|] eqn:Ep; [|done]. assert (Hin : p ∈ omap (NetworkRules.route_problem (bool_decide (is_Some (NetworkRules.gateway_of cfg)))) (if_routes cfg))
      by (apply list_elem_of_omap; by exists route). rewrite E in Hin. by apply elem_of_nil in Hin. }
  unfold NetworkRules.route_problem in Hp. destruct (is_ip_or_cidr (rt_destination route)) eqn:Ed; [cbn in Hp|done]. split; [by apply is_ip_or_cidr_word|].
  intros g Hg. rewrite Hg in Hp. destruct (bool_decide (parse_ip g = None)) eqn:Eg; [done|]. apply bool_decide_eq_false in Eg. apply parse_ip_word. by destruct (parse_ip g).
Qed.
Lemma entry_words iface cfg : validate_entry iface cfg = Ok tt → NetworkRules.routing_problem cfg = None → words_of_entry iface cfg.
Proof.
  unfold validate_entry. destruct (check_iface_name iface) as [[]|] eqn:En; [cbn [rbind]|done].
  destruct (match if_static cfg with Some st => validate_static st | None => Ok tt end) as [[]|] eqn:Es; [cbn [rbind]|done].
  destruct (validate_dns_override cfg) as [[]|] eqn:Ed; [cbn [rbind]|done]. destruct (validate_kind_blocks cfg) as [[]|]; [cbn [rbind]|done].
  destruct (match if_wireguard cfg with Some wg => validate_peers (wg_peers wg) | None => Ok tt end) as [[]|] eqn:Ew; [cbn [rbind]|done]. intros _ Hr. split.
  - by apply iface_name_word.
  - intros st Hst. rewrite Hst in Es. unfold validate_static in Es. destruct (is_ip_or_cidr (st_address st)) eqn:E1; [|done].
    destruct (st_gateway st) as [g|]; [destruct (is_ip g) eqn:E2; [|done]|]; split_and!; try (by apply is_ip_or_cidr_word); try (by apply ips_words); [|done].
    intros ? [= <-]. by apply is_ip_word.
  - unfold validate_dns_override in Ed. destruct (is_nil (if_dns cfg)) eqn:E; [apply is_nil_spec in E; rewrite E; by intros d ?%elem_of_nil|].
    destruct (_ && _); [|done]. by apply ips_words.
  - intros wg Hwg peer Hp. rewrite Hwg in Ew. unfold validate_peers in Ew. rewrite each_ok, Forall_forall in Ew. by apply peer_words, Ew.
  - by apply route_words.
Qed.
End accepted.

(** ** The pieces of a unit *)

Lemma route_gives route : word (rt_destination route) → (∀ g, rt_gateway route = Some g → word g) → (∀ m, rt_metric route = Some m → 0 ≤ m) →
  gives_sections (render_route route) [route_section route].
Proof.
  intros H1 H2 H3. unfold render_route, route_section. apply sections_blank, section_of; [done..|]. apply (pairs_app _ _ [_]); [by apply pairs_line|]. apply pairs_app.
  - apply pairs_some. intros g Hg. apply pairs_line; [done..|]. by apply H2.
  - apply pairs_some. intros m Hm. apply pairs_line; [done..|]. by apply to_dec_word, H3.
Qed.
Lemma can_gives can : 0 ≤ can_bitrate can ∧ (∀ ms, can_restart_ms can = Some ms → 0 ≤ ms) ∧ (∀ rate, can_data_bitrate can = Some rate → 0 ≤ rate) →
  gives_sections (line "[CAN]" +:+ line ("BitRate=" +:+ to_dec (can_bitrate can)) +:+ when_some (λ ms, line ("RestartSec=" +:+ to_dec ms +:+ "ms")) (can_restart_ms can)
    +:+ line ("FDMode=" +:+ yes_no (bool_decide (can_fd can = Some true))) +:+ when_some (λ rate, line ("DataBitRate=" +:+ to_dec rate)) (can_data_bitrate can)) [can_section can].
Proof.
  intros (H1 & H2 & H3). unfold can_section. apply section_of; [done..|]. apply (pairs_app _ _ [_]); [by apply pairs_line; [..|apply to_dec_word]|]. apply pairs_app.
  { apply pairs_some. intros ms Hm. apply pairs_line; [done..|]. apply word_app. split; [|done]. by apply to_dec_word, H2. }
  apply (pairs_app _ _ [_]); [apply pairs_line; [done..|]; by destruct (bool_decide _)|]. apply pairs_some. intros r Hr. apply pairs_line; [done..|]. by apply to_dec_word, H3.
Qed.
Lemma dhcp_gives cfg metric : (∀ m, metric = Some m → 0 ≤ m) → gives_sections (render_dhcp cfg metric) (dhcp_sections cfg metric).
Proof.
  intros Hm. unfold render_dhcp, dhcp_sections. apply sections_blank.
  assert (Hmetric : gives_pairs (when_some (λ metric, line ("RouteMetric=" +:+ to_dec metric)) metric) (pair_of "RouteMetric" to_dec metric)).
  { apply pairs_some. intros m E. apply pairs_line; [done..|]. by apply to_dec_word, Hm. }
  assert (Hgw : gives_pairs (if internet cfg then "" else line "UseGateway=no") (if_pair (negb (internet cfg)) "UseGateway" "no")).
  { unfold if_pair. apply pairs_unless. intros _. by apply (pairs_line "UseGateway" "UseGateway=" "no"). }
  assert (Hdns : gives_pairs (line "UseDNS=no") [("UseDNS", "no")]) by by apply (pairs_line "UseDNS" "UseDNS=" "no").
  assert (Hra : ∀ c, gives_sections (NL +:+ line "[IPv6AcceptRA]" +:+ (if internet cfg then "" else line "UseGateway=no") +:+ (if c : bool then line "UseDNS=no" else ""))
                  [("IPv6AcceptRA", if_pair (negb (internet cfg)) "UseGateway" "no" ++ if_pair c "UseDNS" "no")]).
  { intros c. apply sections_blank, section_of; [done..|]. apply pairs_app; [done|]. unfold if_pair. apply pairs_if. by intros _. }
  set (own := negb (is_nil (if_dns cfg))). destruct own; cbn [orb].
  - intros t s H. rewrite !append_assoc. cbn [app]. apply reads_header; [done..|].
    apply Hmetric, Hgw. apply Hdns, reads_blank, reads_header; [done..|]. rewrite <- (app_nil_r [("UseDNS", "no")]).
    apply Hdns. rewrite <- !append_assoc. by apply (Hra true).
  - rewrite !append_nil_l. intros t s H. rewrite !append_assoc. cbn [app]. apply reads_header; [done..|]. apply Hmetric, Hgw.
    change (if_pair false "UseDNS" "no") with (@nil (string * string)). destruct (negb (internet cfg)); [|done]. rewrite <- !append_assoc. by apply (Hra false).
Qed.
Lemma addressing_gives iface cfg master : words_of_entry iface cfg → (∀ b, master = Some b → word b) → gives_pairs (render_addressing cfg master) (addressing_pairs cfg master).
Proof.
  intros Hw Hm. assert (Hdns : ∀ l, (∀ d, d ∈ l → word d) → gives_pairs (each_str (λ dns, line ("DNS=" +:+ dns)) l) (map (pair "DNS") l)).
  { intros l Hl. apply pairs_each. intros d Hd. apply pairs_line; [done..|]. by apply Hl. }
  unfold render_addressing, addressing_pairs. destruct master as [b|]; [apply pairs_line; [done..|]; by apply Hm|]. destruct (if_dhcp cfg).
  - apply (pairs_app _ _ [_] (_ :: _)); [by apply (pairs_line "DHCP" "DHCP=" "yes")|]. apply (pairs_app _ _ [_]); [by apply (pairs_line "LinkLocalAddressing" "LinkLocalAddressing=" "yes")|].
    apply Hdns, (we_dns _ _ Hw).
  - destruct (if_static cfg) as [st|] eqn:E; [|apply pairs_nil]. destruct (we_static _ _ Hw st E) as (H1 & H2 & H3). cbn [when_some].
    apply (pairs_app _ _ [_]); [by apply pairs_line|]. apply pairs_app; [|by apply Hdns]. apply pairs_some. intros g Hg. apply pairs_line; [done..|]. by apply H2.
Qed.
Lemma head_gives head key name text ss more : header head = Some name → word head → skipped head = false → gives_pairs text key → gives_sections more ss →
  gives_sections (line head +:+ text +:+ NL +:+ more) ((name, key) :: ss).
Proof.
  intros H1 H2 H3 Ht Hm t s H. rewrite !append_assoc. apply reads_header; [done..|]. rewrite <- (app_nil_r key). apply Ht, reads_blank. by apply Hm.
Qed.
Lemma match_gives iface text ss : word iface → gives_sections text ss → gives_sections (match_head iface +:+ text) (("Match", [("Name", iface)]) :: ss).
Proof.
  intros Hi Hs. unfold match_head. rewrite !append_assoc. apply head_gives; [done..| |done]. by apply pairs_line.
Qed.
Lemma unit_gives iface cfg master vlans metric : words_of_entry iface cfg → unsigned cfg → (∀ b, master = Some b → word b) → (∀ v, v ∈ vlans → word v) →
  (∀ m, metric = Some m → 0 ≤ m) → gives_sections (render_unit iface cfg master vlans metric) (unit_sections iface cfg master vlans metric).
Proof.
  intros Hw Hu Hm Hv Hmetric. unfold render_unit, unit_sections. destruct (if_can cfg) as [can|] eqn:Ec.
  - apply match_gives; [apply (we_name _ _ Hw)|]. by apply can_gives, (un_can _ Hu).
  - apply match_gives; [apply (we_name _ _ Hw)|]. intros t s H. rewrite !append_assoc, <- app_comm_cons. apply reads_header; [done..|].
    apply (addressing_gives iface); [done..|]. rewrite <- (app_nil_r (map (pair "VLAN") vlans)).
    apply (pairs_each _ (pair "VLAN")); [intros v Hin; apply pairs_line; [done..|]; by apply Hv|].
    assert (Hr : gives_sections (each_str render_route (if_routes cfg)) (map route_section (if_routes cfg))).
    { apply sections_each. intros r Hr. destruct (we_routes _ _ Hw r Hr). apply route_gives; [done..|]. by apply (un_routes _ Hu). }
    assert (Hd : ∀ c : bool, reads ((if c then render_dhcp cfg metric else "") +:+ t) [] ((if c then dhcp_sections cfg metric else []) ++ s)).
    { intros c. apply (sections_if c); [|done]. intros _. by apply dhcp_gives. }
    destruct master as [b|]; cbn [present negb andb]; [apply (Hd false)|]. rewrite <- app_assoc. by apply Hr, Hd.
Qed.
Lemma peer_gives keys iface index peer : word iface → word (ks_psk_dir keys) → 0 ≤ index →
  word (wp_public_key peer) ∧ (∀ a, a ∈ wp_allowed_ips peer → word a) ∧ (∀ e, wp_endpoint peer = Some e → word e) → (∀ k, wp_persistent_keepalive peer = Some k → 0 ≤ k) →
  gives_sections (render_peer keys iface index peer) [peer_section keys iface index peer].
Proof.
  intros Hi Hk Hx (H1 & H2 & H3) H4. unfold render_peer, peer_section. apply sections_blank, section_of; [done..|].
  apply (pairs_app _ _ [_]); [by apply pairs_line|]. apply pairs_app.
  { unfold if_pair. apply pairs_if. intros _. apply pairs_line; [done..|]. unfold psk_path. rewrite !word_app. split_and!; try done. by apply to_dec_word. }
  apply pairs_app; [unfold if_pair; apply pairs_unless; intros _; apply pairs_line; [done..|]; by apply join_word, Forall_forall|]. apply pairs_app.
  - apply pairs_some. intros e He. apply pairs_line; [done..|]. by apply H3.
  - apply pairs_some. intros k Hp. apply pairs_line; [done..|]. by apply to_dec_word, H4.
Qed.
Lemma sections_imap {A} (text : nat → A → string) (f : nat → A → section) l : (∀ i a, a ∈ l → gives_sections (text i a) [f i a]) →
  gives_sections (concat_str (imap text l)) (imap f l).
Proof.
  revert text f. induction l as [|a l IH]; intros text f H; cbn [imap concat_str]; [apply sections_nil|].
  apply (sections_app _ _ [f 0%nat a]); [apply H; by left|]. apply IH. intros i b Hb. apply H. by right.
Qed.
Lemma netdev_gives iface cfg keys text : words_of_entry iface cfg → unsigned cfg → word (ks_dir keys) → word (ks_psk_dir keys) →
  render_netdev iface cfg keys = Some text → gives_sections text (netdev_sections iface cfg keys).
Proof.
  intros Hw Hu Hk1 Hk2. pose proof (we_name _ _ Hw) as Hi. unfold render_netdev, netdev_sections.
  assert (Hp : ∀ kind, word kind → gives_pairs (line ("Name=" +:+ iface) +:+ line ("Kind=" +:+ kind)) [("Name", iface); ("Kind", kind)]).
  { intros kind Hkind. apply (pairs_app _ _ [_] [_]); by apply pairs_line. }
  destruct (if_kind cfg); try done.
  - destruct (if_vlan cfg) as [vlan|] eqn:Ev; [|done]. intros [= <-]. unfold netdev_head. rewrite !append_assoc.
    rewrite <- (append_assoc (line ("Name=" +:+ iface))). apply head_gives; [done..|by apply Hp|].
    apply section_of; [done..|]. apply pairs_line; [done..|]. by apply to_dec_word, (un_vlan _ Hu).
  - intros [= <-]. unfold netdev_head. apply section_of; [done..|]. by apply Hp.
  - destruct (if_vlan cfg), (if_wireguard cfg) as [wg|] eqn:Ewg; try done.
    all: intros [= <-]; unfold netdev_head, render_wireguard; rewrite !append_assoc; rewrite <- (append_assoc (line ("Name=" +:+ iface))); apply head_gives; [done..|by apply Hp|].
    all: destruct (un_wireguard _ Hu wg Ewg) as [H1 H2]; intros t s H; rewrite !append_assoc; apply reads_header; [done..|].
    all: apply (pairs_line "PrivateKeyFile" "PrivateKeyFile="); [done..|unfold key_path; by rewrite !word_app|].
    all: rewrite <- (app_nil_r (pair_of _ _ _)); apply (pairs_some "ListenPort" to_dec (λ port, line ("ListenPort=" +:+ to_dec port)));
      [intros p Hp'; apply pairs_line; [done..|]; by apply to_dec_word, H1|].
    all: apply (sections_imap (λ index peer, render_peer keys iface (Z.of_nat index) peer)); [|done].
    all: intros i peer Hin; apply peer_gives; [done|done|lia|by apply (we_peers _ _ Hw wg)|by apply H2].
Qed.

(** ** The relations *)

Lemma foldl_keeps {A B} (P : A → Prop) (f : A → B → A) l a : P a → (∀ a b, b ∈ l → P a → P (f a b)) → P (foldl f a l).
Proof.
  revert a. induction l as [|b l IH]; intros a Ha Hf; [done|]. apply IH; [apply Hf; [by left|done]|]. intros a' b' Hb. apply Hf. by right.
Qed.
(** A port's bridge, and a VLAN of a parent, are entries. *)
Lemma master_declared network port bridge : smap_get port (bridge_ports network) = Some bridge → ∃ cfg, (bridge, cfg) ∈ network.
Proof.
  assert (H : ∀ e, e ∈ bridge_ports network → ∃ cfg, (e.2, cfg) ∈ network); [|intros E%smap_get_in; by apply H in E].
  unfold bridge_ports. apply (foldl_keeps (λ m, ∀ e : string * string, e ∈ m → ∃ cfg, (e.2, cfg) ∈ network)); [by intros e ?%elem_of_nil|].
  intros ports [iface cfg] Hin Hp. cbn. destruct (if_bridge cfg) as [br|]; [|done].
  apply (foldl_keeps (λ m, ∀ e : string * string, e ∈ m → ∃ cfg, (e.2, cfg) ∈ network)); [done|]. intros m p _ Hm e [->|He]%smap_insert_in; [by exists cfg|by apply Hm].
Qed.
Lemma child_declared network parent child : child ∈ default [] (smap_get parent (vlan_children network)) → ∃ cfg, (child, cfg) ∈ network.
Proof.
  assert (H : ∀ e, e ∈ vlan_children network → ∀ c, c ∈ e.2 → ∃ cfg, (c, cfg) ∈ network).
  { unfold vlan_children. apply (foldl_keeps (λ m, ∀ e : string * list string, e ∈ m → ∀ c, c ∈ e.2 → ∃ cfg, (c, cfg) ∈ network)); [by intros e ?%elem_of_nil|].
    intros m [iface cfg] Hin Hm. cbn. destruct (if_vlan cfg) as [vlan|]; [|done]. intros e [->|He]%smap_insert_in; [|by apply Hm]. cbn.
    intros c [Hc|Hc%list_elem_of_singleton]%elem_of_app; [|subst; by exists cfg]. destruct (smap_get (vl_parent vlan) m) as [l|] eqn:El; [|by apply elem_of_nil in Hc].
    by eapply (Hm _ (smap_get_in _ _ _ El)). }
  destruct (smap_get parent (vlan_children network)) as [l|] eqn:E; cbn [default]; [|by intros ?%elem_of_nil]. apply (H _ (smap_get_in _ _ _ E)).
Qed.
(** No two links have one metric. *)
Lemma metrics_apart network masters ports : NoDup (map snd (route_metrics network masters ports)).
Proof.
  unfold route_metrics. set (links := map fst _). apply NoDup_alt. intros i j m Hi Hj. rewrite !list_lookup_fmap, !list_lookup_imap in Hi, Hj.
  apply fmap_Some in Hi as (x & Hi & ->). apply fmap_Some in Hi as (a & _ & ->). apply fmap_Some in Hj as (y & Hj & E). apply fmap_Some in Hj as (b & _ & ->).
  cbn in E. unfold ROUTE_METRIC_STEP in E. lia.
Qed.
Lemma metric_positive network masters ports name m : smap_get name (route_metrics network masters ports) = Some m → 0 ≤ m.
Proof.
  intros H%smap_get_in. unfold route_metrics in H. apply list_elem_of_lookup in H as [i H]. rewrite list_lookup_imap in H. apply fmap_Some in H as (x & _ & [= _ ->]).
  unfold ROUTE_METRIC_BASE, ROUTE_METRIC_STEP. lia.
Qed.
Lemma effective_words b iface cfg : words_of_entry iface cfg → words_of_entry iface (effective_entry b iface cfg).
Proof. unfold effective_entry. destruct (_ && _); [|done]. by intros []. Qed.
Lemma effective_unsigned b iface cfg : unsigned cfg → unsigned (effective_entry b iface cfg).
Proof. unfold effective_entry. destruct (_ && _); [|done]. by intros []. Qed.

(** What [validate_network] held each entry to. *)
Lemma validated_entry `{Base64} network iface cfg : validate_network network = Ok tt → (iface, cfg) ∈ network → validate_entry iface cfg = Ok tt.
Proof.
  unfold validate_network. destruct (each _ network) as [[]|] eqn:E; [cbn [rbind]|done]. intros _ Hin. rewrite each_ok, Forall_forall in E. by apply (E (iface, cfg)).
Qed.

(** * Properties *)

(** C30: every unit written for a map the reconciler accepts, its routes held to
    their rule, is read by systemd as the sections declared for the interface
    and no others: no value of the settings ends its line, opens a section or
    becomes a comment. The device it needs is created the same way. A DHCP
    interface kept off the internet takes no gateway of a lease or a router. *)
Theorem units_read_back `{B64 : Base64} b network ports keys (Hb64 : base64_text) (Hk1 : word (ks_dir keys)) (Hk2 : word (ks_psk_dir keys)) :
  validate_network network = Ok tt → (∀ iface cfg, (iface, cfg) ∈ network → NetworkRules.routing_problem cfg = None ∧ unsigned cfg) →
  ∀ iface cfg, (iface, cfg) ∈ network →
  let master := smap_get iface (bridge_ports network) in
  let sections := unit_sections iface (effective_entry b iface cfg) master (default [] (smap_get iface (vlan_children network)))
                    (smap_get iface (route_metrics network (bridge_ports network) ports)) in
  read_unit (entry_unit b network ports iface cfg) = Some sections
  ∧ (∀ text, render_netdev iface cfg keys = Some text → read_unit text = Some (netdev_sections iface cfg keys))
  ∧ (internet (effective_entry b iface cfg) = false → if_can cfg = None → master = None → if_dhcp cfg = true →
       ∀ name, name ∈ ["DHCPv4"; "IPv6AcceptRA"] → ∃ ps, (name, ps) ∈ sections ∧ ("UseGateway", "no") ∈ ps).
Proof.
  intros Hv Hr iface cfg Hin master sections. pose proof (validated_entry _ _ _ Hv Hin) as He. destruct (Hr _ _ Hin) as [Hp Hu].
  pose proof (entry_words Hb64 _ _ He Hp) as Hw.
  assert (Hname : ∀ n c, (n, c) ∈ network → word n) by (intros n c Hn; apply (we_name _ c), (entry_words Hb64); [by apply validated_entry with network|by apply (Hr n)]).
  split_and!.
  - apply read_sections, unit_gives; [by apply effective_words|by apply effective_unsigned|..].
    + intros m Hm. apply master_declared in Hm as [c Hc]. by apply (Hname m c).
    + intros v Hc. apply child_declared in Hc as [c Hc]. by apply (Hname v c).
    + intros m. by apply metric_positive.
  - intros text Ht. apply read_sections. by apply netdev_gives.
  - intros Hi Hc Hm Hd name Hname'. unfold sections, unit_sections. set (eff := effective_entry b iface cfg) in *.
    assert (E1 : if_can eff = None) by (unfold eff, effective_entry; by destruct (_ && _)). assert (E2 : if_dhcp eff = true) by (unfold eff, effective_entry; by destruct (_ && _)).
    rewrite E1, Hm, E2, Hi. cbn [present negb andb]. rewrite !orb_true_r. unfold dhcp_sections. rewrite Hi. cbn [negb]. rewrite orb_true_r.
    apply elem_of_cons in Hname' as [->|Hn%list_elem_of_singleton]; [|subst name]; eexists; (split; [do 2 apply list_elem_of_further; apply elem_of_app; right|]).
    + apply list_elem_of_here.
    + apply elem_of_app. right. apply elem_of_app. left. by left.
    + apply list_elem_of_further, elem_of_app. right. apply list_elem_of_here.
    + apply elem_of_app. left. apply list_elem_of_here.
Qed.

(** ** Maps the rules accept *)

Definition hex_key : Base64 := {| NetworkRules.base64_decode := λ s, if all_bytes word_byte s then Some (str_bytes s) else None |}.
Definition static_entry (routes : list RouteConfig) (i : option bool) : IfaceSettings :=
  {| if_kind := Physical; if_dhcp := true; if_static := None; if_dns := []; if_vlan := None; if_bridge := None; if_wireguard := None; if_can := None;
     if_routes := routes; if_internet := i |}.
Definition vlan_entry : IfaceSettings :=
  {| if_kind := Vlan; if_dhcp := true; if_static := None; if_dns := ["1.1.1.1"]; if_vlan := Some {| vl_parent := "eth0"; vl_id := 7 |}; if_bridge := None; if_wireguard := None;
     if_can := None; if_routes := []; if_internet := Some false |}.
Definition tunnel : IfaceSettings :=
  {| if_kind := Wireguard; if_dhcp := false; if_static := Some {| st_address := "10.9.0.2/24"; st_gateway := None; st_dns := [] |}; if_dns := []; if_vlan := None; if_bridge := None;
     if_wireguard := Some {| wg_listen_port := Some 51820; wg_peers := [{| wp_public_key := "0123456789abcdef0123456789abcdef"; wp_allowed_ips := ["10.9.0.0/24"; "fd00::/64"];
       wp_endpoint := Some "vpn.example:51820"; wp_persistent_keepalive := Some 25; wp_name := None; wp_preshared_key := Some "fedcba9876543210fedcba9876543210" |}] |};
     if_can := None; if_routes := []; if_internet := None |}.
Definition route_to (destination : string) : RouteConfig := {| rt_destination := destination; rt_gateway := Some "192.168.1.1"; rt_metric := Some 5 |}.
Definition three_links : network_map := [("eth0", static_entry [route_to "10.0.0.0/8"] None); ("vlan7", vlan_entry); ("wg0", tunnel)].
Definition mica_keys : Keystore := {| ks_dir := "/var/lib/mica/networkd-secrets"; ks_psk_dir := "/run/mica/networkd-psk" |}.

Lemma units_read_back_witness :
  validate_network (B64 := hex_key) three_links = Ok tt
  ∧ read_unit (entry_unit Discover three_links ["eth1"] "vlan7" vlan_entry)
    = Some [("Match", [("Name", "vlan7")]); ("Network", [("DHCP", "yes"); ("LinkLocalAddressing", "yes"); ("DNS", "1.1.1.1")]);
            ("DHCPv4", [("RouteMetric", "120"); ("UseGateway", "no"); ("UseDNS", "no")]); ("DHCPv6", [("UseDNS", "no")]); ("IPv6AcceptRA", [("UseGateway", "no"); ("UseDNS", "no")])].
Proof.
  assert (Hv : validate_network (B64 := hex_key) three_links = Ok tt) by by vm_compute.
  assert (Hb : base64_text (H := hex_key)).
  { intros s k. cbn. unfold word. by destruct (all_bytes word_byte s). }
  split; [done|].
  refine (proj1 (units_read_back (B64 := hex_key) Discover three_links ["eth1"] mica_keys Hb eq_refl eq_refl Hv _ "vlan7" vlan_entry (list_elem_of_further _ _ _ (list_elem_of_here _ _)))).
  intros iface cfg Hin. repeat (apply elem_of_cons in Hin as [Hin|Hin]; [injection Hin as -> ->; split; [by vm_compute|]; split; cbn; intros; simplify_eq/=; try set_solver; repeat split; intros; set_unfold; intuition; simplify_eq/=; lia|]).
  by apply elem_of_nil in Hin.
Defined.

(** The reconciler's rules leave a route's destination unread: one that carries
    a line of its own is accepted and becomes an assignment. *)
Definition lf_route : RouteConfig := {| rt_destination := "10.0.0.0/8" +:+ NL +:+ "[Network]" +:+ NL +:+ "DHCPServer=yes"; rt_gateway := None; rt_metric := None |}.
Example route_adds_lines :
  validate_network (B64 := hex_key) [("eth0", static_entry [lf_route] None)] = Ok tt
  ∧ read_unit (entry_unit Discover [("eth0", static_entry [lf_route] None)] [] "eth0" (static_entry [lf_route] None))
    = Some [("Match", [("Name", "eth0")]); ("Network", [("DHCP", "yes"); ("LinkLocalAddressing", "yes")]); ("Route", [("Destination", "10.0.0.0/8")]);
            ("Network", [("DHCPServer", "yes")]); ("DHCPv4", [("RouteMetric", "100")])].
Proof. by vm_compute. Qed.
(** Kept off the internet, an interface is refused the default route in one of
    its spellings. *)
Example default_route_accepted :
  is_default_destination "::/0" = true
  ∧ Forall (λ destination, entry_violations "eth0" (static_entry [{| rt_destination := destination; rt_gateway := None; rt_metric := None |}] (Some false)) = []) ["::/0"; "0.0.0.0/00"; "1.0.0.0/0"]
  ∧ entry_violations "eth0" (static_entry [{| rt_destination := "0.0.0.0/0"; rt_gateway := None; rt_metric := None |}] (Some false)) ≠ [].
Proof. split; [by vm_compute|]. split; [repeat constructor|]. by vm_compute. Qed.
End Networkd.
