(* ===== verification/NetworkApply.v ===== *)
(** The network reconciler ([src/crates/micad/src/reconciler/network.rs], its
    [settle.rs] and the key store [src/crates/micad/src/wgkeys.rs]): the units of
    a map written, networkd reloaded, the changed interfaces waited for and, when
    they do not come up, the previous files put back. *)
From Stdlib Require Import Ascii Sorted.
From S2P Require Import Prelude Text Effects Maps Chars Features Addresses SettingsModel SettingsRules NetworkRules DotPath Networkd.
Import Effects Features SettingsModel Networkd.
Import NetworkRules(Base64(..), check_iface_name, smap_get_elem).
Import DotPath(value(..)).

Module NetworkApply.

(** * Waiting for links *)

Inductive Verdict := Settled | Pending (why : string) | Failed (why : string).
(** [Value::get] and [Value::as_str]. *)
Definition member (key : string) (v : value) : option value := match v with Object m => smap_get key m | _ => None end.
Definition text_member (key : string) (v : value) : option string := match member key v with Some (Str s) => Some s | _ => None end.
Definition links_of (describe : value) : option (list value) := match member "Interfaces" describe with Some (Array l) => Some l | _ => None end.
Definition verdict (describe : value) (name : string) (created : bool) : Verdict :=
  match links_of describe ≫= λ links, head (List.filter (λ link, bool_decide (text_member "Name" link = Some name)) links) with
  | None => if created then Pending "the device was not created" else Settled
  | Some link =>
      let field key := default "" (text_member key link) in
      if bool_decide (field "AdministrativeState" = "failed") then Failed "networkd could not configure it"
      else if bool_decide (field "AdministrativeState" = "unmanaged") then Failed "networkd does not manage it"
      else if bool_decide (field "AdministrativeState" = "configured") then Settled
      else if bool_decide (field "CarrierState" = "off") || bool_decide (field "CarrierState" = "no-carrier") then Settled
      else if bool_decide (field "OperationalState" ∈ ["routable"; "degraded"; "enslaved"]) then Settled
      else Pending ("it is " +:+ field "OperationalState")
  end.
(** One look at every link: the first networkd gave up on, else the first still
    pending. *)
Fixpoint look (describe : value) (links : smap bool) (pending : option string) : string + option string :=
  match links with
  | [] => inr pending
  | (name, created) :: rest =>
      match verdict describe name created with
      | Settled => look describe rest pending
      | Failed why => inl (name +:+ ": " +:+ why)
      | Pending why => look describe rest (Some (default (name +:+ ": " +:+ why) pending))
      end
  end.
Definition SETTLE_TIMEOUT : Z := 30000.
Definition SETTLE_INTERVAL : Z := 500.
(** [NetworkdSettle]: networkd is asked until every link is up, one failed, or
    the time is over; [seen n]: its answer the [n]-th time and the milliseconds
    since the start when it came. The error of the wait, once it ends. *)
Fixpoint settle_go (fuel : nat) (seen : nat → result value * Z) (n : nat) (links : smap bool) : option (option string) :=
  match fuel with
  | O => None
  | S fuel =>
      let '(answer, at_) := seen n in
      match match answer with Ok describe => look describe links None | Err _ => inr (Some "networkd") end with
      | inl reason => Some (Some reason)
      | inr None => Some None
      | inr (Some pending) =>
          if SETTLE_TIMEOUT <=? at_ then Some (Some (pending +:+ " after 30 seconds"))
          else settle_go fuel seen (S n) links
      end
  end.
Definition settle (seen : nat → result value * Z) (links : smap bool) : option (option string) := settle_go 61 seen 0 links.

(** * The device *)

(** What is asked of the kernel, networkd and the file system. *)
Inductive NetCall :=
| Features | PskDir | WritePsk (iface : string) (index : Z) | ReadPsks | RemovePsk (iface : string) (index : Z)
| UnitsDir | ReadUnits | ReadKey (iface : string) | NewKey (iface : string) | KeyDir | WriteKey (iface : string) | ReadKeys | RemoveKey (iface : string)
| WriteUnit (file_name : string) | RemoveUnit (file_name : string) | DeleteLink (iface : string) | Reload | Settle (links : smap bool).
#[export] Instance net_call_eq : EqDecision NetCall. Proof. solve_decision. Defined.

(** The device's answers, by all that was asked before: the failure of a call and
    whether what failed took effect all the same, the kernel's signed features, the links of [/sys/class/net], what a wait for
    links ends in, a key drawn, and the public half of a stored key. *)
Class NetSystem := {
  ns_fails : list NetCall → NetCall → option string;
  ns_took : list NetCall → bool;
  ns_features : list NetCall → option (list string);
  ns_links : list NetCall → list string;
  ns_settle : list NetCall → option string;
  ns_drawn : list NetCall → string;
  ns_public : string → option string;
  ns_keys : Keystore;
  ns_board : Board;
}.

(** What micad changes: the directory of units, the private keys by interface,
    the pre-shared keys by interface and peer, with their directory, and whether
    an apply went through before. *)
Record NetWorld := {
  nw_units : smap string; nw_keys : smap string; nw_psk_dir : bool; nw_psks : gmap (string * Z) string; nw_applied : bool; nw_calls : list NetCall;
}.
Definition set_units (u : smap string) (w : NetWorld) : NetWorld :=
  {| nw_units := u; nw_keys := nw_keys w; nw_psk_dir := nw_psk_dir w; nw_psks := nw_psks w; nw_applied := nw_applied w; nw_calls := nw_calls w |}.
Definition set_keys (k : smap string) (w : NetWorld) : NetWorld :=
  {| nw_units := nw_units w; nw_keys := k; nw_psk_dir := nw_psk_dir w; nw_psks := nw_psks w; nw_applied := nw_applied w; nw_calls := nw_calls w |}.
Definition set_psks (p : gmap (string * Z) string) (w : NetWorld) : NetWorld :=
  {| nw_units := nw_units w; nw_keys := nw_keys w; nw_psk_dir := nw_psk_dir w; nw_psks := p; nw_applied := nw_applied w; nw_calls := nw_calls w |}.
Definition made_psk_dir (w : NetWorld) : NetWorld :=
  {| nw_units := nw_units w; nw_keys := nw_keys w; nw_psk_dir := true; nw_psks := nw_psks w; nw_applied := nw_applied w; nw_calls := nw_calls w |}.
Definition set_applied (w : NetWorld) : NetWorld :=
  {| nw_units := nw_units w; nw_keys := nw_keys w; nw_psk_dir := nw_psk_dir w; nw_psks := nw_psks w; nw_applied := true; nw_calls := nw_calls w |}.
Definition net_asked (c : NetCall) (w : NetWorld) : NetWorld :=
  {| nw_units := nw_units w; nw_keys := nw_keys w; nw_psk_dir := nw_psk_dir w; nw_psks := nw_psks w; nw_applied := nw_applied w; nw_calls := nw_calls w ++ [c] |}.

(** Why an apply failed: [RolledBack], when what it replaced was put back. *)
Inductive NetError := RolledBack (reason : string) | NetFailed (message : string).
Notation N := (Effects.M NetWorld NetError).

(** A set of names, in order. *)
Definition name_set (l : list string) : list string := map fst (foldl (λ s name, smap_insert name tt s) [] l).

Section apply.
Context `{NS : NetSystem} `{B64 : Base64}.

Definition net_history : N (list NetCall) := gets nw_calls.
Definition net_call (c : NetCall) : N unit := λ w,
  match ns_fails (nw_calls w) c with Some e => (inl (NetFailed e), net_asked c w) | None => (inr tt, net_asked c w) end.
(** A call that cannot fail, and one that changes the device. *)
Definition ask (c : NetCall) : N unit := modify (net_asked c).
Definition act (c : NetCall) (f : NetWorld → NetWorld) : N unit := λ w,
  match ns_fails (nw_calls w) c with
  | Some e => (inl (NetFailed e), if ns_took (nw_calls w) then f (net_asked c w) else net_asked c w)
  | None => (inr tt, f (net_asked c w))
  end.
Definition net_ensure (r : result unit) : N unit := match r with Ok _ => ret tt | Err (Msg e) => throw (NetFailed e) | Err _ => throw (NetFailed "") end.

(** ** The key store *)

Definition same_psk (at_ : string * Z) (key : string) (w : NetWorld) : bool := bool_decide (nw_psks w !! at_ = Some key).
Fixpoint write_psks (keys : list (string * Z * string)) (changed : list string) : N (list string) :=
  match keys with
  | [] => ret changed
  | (iface, index, key) :: rest =>
      let* same := gets (same_psk (iface, index) key) in
      if same then write_psks rest changed
      else
        let* _ := act (WritePsk iface index) (λ w, set_psks (<[(iface, index) := key]> (nw_psks w)) w) in
        write_psks rest (changed ++ [iface])
  end.
Fixpoint drop_psks (stored : list (string * Z)) (kept : list (string * Z)) (changed : list string) : N (list string) :=
  match stored with
  | [] => ret changed
  | (iface, index) :: rest =>
      if bool_decide ((iface, index) ∈ kept) then drop_psks rest kept changed
      else
        let* _ := act (RemovePsk iface index) (λ w, set_psks (delete (iface, index) (nw_psks w)) w) in
        drop_psks rest kept (changed ++ [iface])
  end.
(** The interfaces whose pre-shared keys changed, were added or removed. *)
Definition sync_psks (keys : list (string * Z * string)) : N (list string) :=
  let* there := gets nw_psk_dir in
  if is_nil keys && negb there then ret []
  else
    let* _ := act PskDir made_psk_dir in
    let* changed := write_psks keys [] in
    let* _ := net_call ReadPsks in
    let* stored := gets (λ w, map fst (map_to_list (nw_psks w))) in
    drop_psks stored (map fst keys) changed.
Fixpoint drop_keys (stored keep removed : list string) : N (list string) :=
  match stored with
  | [] => ret removed
  | iface :: rest =>
      if bool_decide (iface ∈ keep) then drop_keys rest keep removed
      else
        let* _ := act (RemoveKey iface) (λ w, set_keys (smap_remove iface (nw_keys w)) w) in
        drop_keys rest keep (removed ++ [iface])
  end.
Definition retain_keys (keep : list string) : N (list string) :=
  let* _ := net_call ReadKeys in
  let* stored := gets (λ w, map fst (nw_keys w)) in
  drop_keys stored keep [].
Definition public_key (secret : string) : N string :=
  match ns_public secret with Some public => ret public | None => throw (NetFailed "does not hold a WireGuard key") end.
Definition write_new_key (iface : string) : N string :=
  let* _ := net_call (NewKey iface) in
  let* h := net_history in
  let secret := ns_drawn h in
  let* _ := net_call KeyDir in
  let* _ := act (WriteKey iface) (λ w, set_keys (smap_insert iface secret (nw_keys w)) w) in
  public_key secret.
(** The public half of an interface's key, drawn if it has none. *)
Definition ensure_key (iface : string) : N string :=
  let* _ := net_call (ReadKey iface) in
  let* stored := gets (λ w, smap_get iface (nw_keys w)) in
  match stored with Some secret => public_key secret | None => write_new_key iface end.
Definition rotate_key (iface : string) : N string :=
  let* _ := net_ensure (check_iface_name iface) in
  let* public := write_new_key iface in
  let* _ := net_call (DeleteLink iface) in
  ret public.

(** ** The directory of units *)

Definition managed (units : smap string) : smap string := List.filter (λ e, is_mica_managed e.1) units.
Definition managed_files : N (smap string) := let* _ := net_call ReadUnits in gets (λ w, managed (nw_units w)).
Fixpoint write_units (files : smap string) (current : smap string) : N unit :=
  match files with
  | [] => ret tt
  | (file_name, text) :: rest =>
      let* _ := if bool_decide (smap_get file_name current = Some text) then ret tt
                else act (WriteUnit file_name) (λ w, set_units (smap_insert file_name text (nw_units w)) w) in
      write_units rest current
  end.
Fixpoint remove_units (names : list string) (files : smap string) : N unit :=
  match names with
  | [] => ret tt
  | file_name :: rest =>
      let* _ := if present (smap_get file_name files) then ret tt
                else act (RemoveUnit file_name) (λ w, set_units (smap_remove file_name (nw_units w)) w) in
      remove_units rest files
  end.
Definition replace_files (files current : smap string) : N unit :=
  let* _ := write_units files current in remove_units (map fst current) files.
(** A failure is logged and not returned. *)
Definition delete_devices (devices : list string) : N unit := each_ (λ iface, dismiss (net_call (DeleteLink iface))) devices.

(** The wired ports no entry declares, less the VLANs on them and the ports the
    board hides. *)
Definition undeclared_ports (h : list NetCall) (network : network_map) : list string :=
  name_set (List.filter (λ name, starts_with "eth" name && negb (contains_byte "." name) && negb (present (smap_get name network)) && negb (hidden ns_board name)) (ns_links h)).
Definition auto_cfg (port : string) : IfaceSettings :=
  {| if_kind := Physical; if_dhcp := true; if_static := None; if_dns := []; if_vlan := None; if_bridge := None; if_wireguard := None; if_can := None; if_routes := [];
     if_internet := if internal ns_board port then Some false else None |}.

(** ** An apply *)

(** The state an apply answers, of one interface. *)
Record IfaceState := { is_file : string; is_dhcp : bool; is_kind : string; is_public_key : option string }.
Record Rendered := { rd_files : smap string; rd_state : smap IfaceState; rd_recreate : list string }.
Definition is_tunnel (cfg : IfaceSettings) : bool := bool_decide (if_kind cfg = Wireguard).
Fixpoint render_entries (network : network_map) (ports : list string) (psks : list string) (previous : smap string) (entries : network_map) (r : Rendered) : N Rendered :=
  match entries with
  | [] => ret r
  | (iface, cfg) :: rest =>
      let files := smap_insert (network_name iface) (entry_unit ns_board network ports iface cfg) (rd_files r) in
      let* public := if is_tunnel cfg then let* public := ensure_key iface in ret (Some public) else ret None in
      let state := smap_insert iface {| is_file := network_name iface; is_dhcp := if_dhcp cfg; is_kind := kind_name (if_kind cfg); is_public_key := public |} (rd_state r) in
      match render_netdev iface cfg ns_keys with
      | None => render_entries network ports psks previous rest {| rd_files := files; rd_state := state; rd_recreate := rd_recreate r |}
      | Some netdev =>
          let again := match smap_get (netdev_name iface) previous with Some text => negb (bool_decide (text = netdev)) || bool_decide (iface ∈ psks) | None => false end in
          render_entries network ports psks previous rest
            {| rd_files := smap_insert (netdev_name iface) netdev files; rd_state := state; rd_recreate := rd_recreate r ++ (if again then [iface] else []) |}
      end
  end.
Definition auto_units (network : network_map) (ports : list string) (files : smap string) : smap string :=
  foldl (λ files port, smap_insert (auto_unit_name port)
                         (render_unit port (auto_cfg port) None [] (smap_get port (route_metrics network (bridge_ports network) ports))) files) files ports.
(** The virtual devices of the files [names] keeps. *)
Definition netdevs (names : list string) : list string := omap mica_netdev_iface names.
Definition torn_down (previous files : smap string) : list string := netdevs (List.filter (λ name, negb (present (smap_get name files))) (map fst previous)).
(** Each interface of the map whose files changed, and whether the apply
    creates it. *)
Definition changed_links (network : network_map) (files previous : smap string) : smap bool :=
  let differs name := negb (bool_decide (smap_get name files = smap_get name previous)) in
  map (λ e, (e.1, present (smap_get (netdev_name e.1) files))) (List.filter (λ e, differs (network_name e.1) || differs (netdev_name e.1)) network).
(** The devices to build again when the previous files come back. *)
Definition rebuilt (files previous : smap string) : list string :=
  name_set (List.filter (λ iface, negb (bool_decide (smap_get (netdev_name iface) files = smap_get (netdev_name iface) previous)))
    (netdevs (map fst files ++ map fst previous))).
Definition wait_for (links : smap bool) : N (option string) := let* _ := ask (Settle links) in let* h := net_history in ret (ns_settle h).
Definition settle_or_back (network : network_map) (files previous : smap string) : N unit :=
  let changed := changed_links network files previous in
  if is_nil changed then ret tt
  else
    let* settled := wait_for changed in
    match settled with
    | None => ret tt
    | Some reason =>
        let* _ := replace_files previous files in
        let* _ := delete_devices (rebuilt files previous) in
        let* _ := net_call Reload in
        throw (RolledBack reason)
    end.
(** The files replaced, the devices gone or changed deleted, networkd reloaded
    and, past the first apply, waited for. *)
Definition switch_units (network : network_map) (files previous : smap string) (recreate : list string) : N unit :=
  let* _ := replace_files files previous in
  let* _ := delete_devices (name_set (torn_down previous files ++ recreate)) in
  let* _ := net_call Reload in
  let* before := gets nw_applied in
  let* _ := modify set_applied in
  if (before : bool) then settle_or_back network files previous else ret tt.
Definition write_and_settle (network : network_map) : N (smap IfaceState) :=
  let* _ := net_ensure (validate_network network) in
  let* _ := ask Features in
  let* h := net_history in
  let* _ := net_ensure (validate_kernel_features network (ns_features h)) in
  let* psks := sync_psks (preshared_keys network) in
  let* h := net_history in
  let ports := undeclared_ports h network in
  let* _ := net_call UnitsDir in
  let* previous := managed_files in
  let* r := render_entries network ports psks previous network {| rd_files := []; rd_state := []; rd_recreate := [] |} in
  let files := auto_units network ports (rd_files r) in
  let* _ := switch_units network files previous (rd_recreate r) in
  ret (rd_state r).
Definition apply_network (network : network_map) : N (smap IfaceState) :=
  let* state := write_and_settle network in
  let* _ := retain_keys (map fst (List.filter (λ e, is_tunnel e.2) network)) in
  ret state.
End apply.

(** ** The set of files rendered *)

(** What an apply of a map writes, for the wired ports it found. *)
Definition entry_files `{NetSystem} (network : network_map) (ports : list string) (files : smap string) (e : string * IfaceSettings) : smap string :=
  let files := smap_insert (network_name e.1) (entry_unit ns_board network ports e.1 e.2) files in
  match render_netdev e.1 e.2 ns_keys with Some netdev => smap_insert (netdev_name e.1) netdev files | None => files end.
Definition rendered `{NetSystem} (network : network_map) (ports : list string) : smap string :=
  auto_units network ports (foldl (entry_files network ports) [] network).

(** * Lemmas *)

(** ** Waiting ends *)

Lemma settle_go_ends seen links fuel n : (∀ k, 0 ≤ (seen k).2) → (∀ k, (seen k).2 + SETTLE_INTERVAL ≤ (seen (S k)).2) →
  SETTLE_TIMEOUT ≤ SETTLE_INTERVAL * (Z.of_nat n + Z.of_nat fuel - 1) → (0 < fuel)%nat → is_Some (settle_go fuel seen n links).
Proof.
  intros H0 Hstep. assert (Ht : ∀ k, SETTLE_INTERVAL * Z.of_nat k ≤ (seen k).2).
  { induction k as [|k IH]; [by apply H0|]. specialize (Hstep k). lia. }
  revert n. induction fuel as [|fuel IH]; intros n Hf Hp; [lia|]. cbn [settle_go]. specialize (Ht n). destruct (seen n) as [answer at_]. cbn in Ht.
  destruct (match answer with Ok describe => look describe links None | Err _ => inr (Some "networkd") end) as [reason|[pending|]]; [by eexists| |by eexists].
  destruct (SETTLE_TIMEOUT <=? at_) eqn:E; [by eexists|]. apply Z.leb_gt in E. destruct fuel as [|fuel]; [|apply IH; lia].
  unfold SETTLE_TIMEOUT, SETTLE_INTERVAL in *. lia.
Qed.
(** The wait ends, whatever networkd answers, if a pause is as long as asked. *)
Lemma settle_ends seen links : (∀ k, 0 ≤ (seen k).2) → (∀ k, (seen k).2 + SETTLE_INTERVAL ≤ (seen (S k)).2) → is_Some (settle seen links).
Proof. intros H0 Hs. apply settle_go_ends; [done|done|by vm_compute|lia]. Qed.

(** ** Maps *)

Lemma smap_get_filter {A} (p : string → bool) name (m : smap A) : smap_get name (List.filter (λ e, p e.1) m) = if p name then smap_get name m else None.
Proof.
  induction m as [|[k a] m IH]; cbn [List.filter smap_get]; [by destruct (p name)|]. cbn [fst]. destruct (p k) eqn:E; cbn [smap_get]; rewrite IH.
  - case_bool_decide as Hk; [by subst; rewrite E|done].
  - case_bool_decide as Hk; [by subst; rewrite E|done].
Qed.
Lemma filter_sorted {A} (p : string → bool) (m : smap A) : keys_sorted m → keys_sorted (List.filter (λ e, p e.1) m).
Proof.
  unfold keys_sorted. induction m as [|[k a] m IH]; cbn [List.filter map]; [done|]. cbn [fst]. intros [Hs Hf]%StronglySorted_inv. destruct (p k); [|by apply IH].
  cbn [map fst]. constructor; [by apply IH|]. apply Forall_forall. intros x Hx. rewrite Forall_forall in Hf. apply Hf.
  apply list_elem_of_fmap in Hx as (y & -> & Hy). apply list_elem_of_fmap. exists y. split; [done|]. apply list_elem_of_In, filter_In in Hy as [Hy _]. by apply list_elem_of_In.
Qed.
Lemma present_spec {A} (o : option A) : present o = true ↔ is_Some o.
Proof. destruct o; cbn; split; intros H; [by eexists|done|done|by destruct H]. Qed.
Lemma name_set_elem l x : x ∈ name_set l ↔ x ∈ l.
Proof.
  unfold name_set. rewrite <- (smap_get_some x).
  enough (H : ∀ m : smap unit, is_Some (smap_get x (foldl (λ s name, smap_insert name tt s) m l)) ↔ is_Some (smap_get x m) ∨ x ∈ l).
  { rewrite H. cbn. split; [intros [[]|]; done|by right]. }
  induction l as [|n l IH]; intros m; cbn [foldl]; [rewrite elem_of_nil; naive_solver|]. rewrite IH, smap_get_insert, elem_of_cons.
  case_bool_decide as E; [subst; split; [by right; left|by left; eexists]|]. split; [intros [?|?]; [by left|by right; right]|intros [?|[->|?]]; [by left|done|by right]].
Qed.

(** ** File names *)

Lemma last_byte_eq a b c d : a +:+ String c "" = b +:+ String d "" → c = d.
Proof. intros H. apply (f_equal str_bytes) in H. rewrite !str_bytes_app in H. cbn in H. apply app_inj_tail in H as [_ H]. done. Qed.
Lemma managed_network iface : is_mica_managed (network_name iface) = true.
Proof.
  unfold is_mica_managed, network_name, starts_with, ends_with. rewrite strip_prefix_app, <- append_assoc, strip_suffix_app. by rewrite !bool_decide_eq_true_2 by by eexists.
Qed.
Lemma managed_netdev iface : is_mica_managed (netdev_name iface) = true.
Proof.
  unfold is_mica_managed, netdev_name, starts_with, ends_with. rewrite strip_prefix_app, <- append_assoc, strip_suffix_app.
  rewrite (bool_decide_eq_true_2 (is_Some (Some (iface +:+ ".netdev")))), (bool_decide_eq_true_2 (is_Some (Some ("50-mica-" +:+ iface)))) by by eexists. by rewrite orb_true_r.
Qed.
Lemma managed_auto iface : is_mica_managed (auto_unit_name iface) = true.
Proof.
  unfold is_mica_managed, auto_unit_name, starts_with, ends_with. rewrite strip_prefix_app, <- !append_assoc, strip_suffix_app.
  by rewrite !(bool_decide_eq_true_2 (is_Some (Some _))), orb_true_r by by eexists.
Qed.
Lemma netdev_iface iface : mica_netdev_iface (netdev_name iface) = Some iface.
Proof. unfold mica_netdev_iface, netdev_name. rewrite strip_prefix_app. cbn [mbind option_bind]. apply strip_suffix_app. Qed.
Lemma netdev_name_inj i j : netdev_name i = netdev_name j → i = j.
Proof. intros H. apply (f_equal mica_netdev_iface) in H. rewrite !netdev_iface in H. by injection H. Qed.
Lemma netdev_not_network i j : netdev_name i ≠ network_name j.
Proof.
  unfold netdev_name, network_name. change ".netdev" with (".netde" +:+ "v"). change ".network" with (".networ" +:+ "k"). rewrite <- !append_assoc. intros H.
  apply last_byte_eq in H. done.
Qed.
Lemma netdev_not_auto i j : netdev_name i ≠ auto_unit_name j.
Proof.
  unfold netdev_name, auto_unit_name. change ".netdev" with (".netde" +:+ "v"). change ".network" with (".networ" +:+ "k"). rewrite <- !append_assoc. intros H.
  apply last_byte_eq in H. done.
Qed.

(** ** What is rendered *)

Section rendered.
Context `{NS : NetSystem}.
Implicit Types (network entries : network_map).

Definition named (files : smap string) : Prop := keys_sorted files ∧ ∀ name, is_Some (smap_get name files) → is_mica_managed name = true.
Lemma named_insert files name text : named files → is_mica_managed name = true → named (smap_insert name text files).
Proof. intros [H1 H2] Hn. split; [by apply insert_sorted|]. intros n. rewrite smap_get_insert. case_bool_decide; [by subst|by apply H2]. Qed.
Lemma named_nil : named [].
Proof. split; [constructor|]. by intros name [? H]. Qed.
Lemma named_entry network ports files e : named files → named (entry_files network ports files e).
Proof.
  intros H. unfold entry_files. destruct (render_netdev _ _ _); repeat apply named_insert; try done; [apply managed_network|apply managed_netdev|apply managed_network].
Qed.
Lemma named_auto network ports files : named files → named (auto_units network ports files).
Proof. intros H. unfold auto_units. apply (Networkd.foldl_keeps named); [done|]. intros m p _ Hm. apply named_insert; [done|apply managed_auto]. Qed.
Lemma named_rendered network ports : named (rendered network ports).
Proof. apply named_auto. apply (Networkd.foldl_keeps named); [apply named_nil|]. intros m e _. apply named_entry. Qed.

Lemma auto_netdev network ports files iface : smap_get (netdev_name iface) (auto_units network ports files) = smap_get (netdev_name iface) files.
Proof.
  unfold auto_units. set (f := λ (files : smap string) (port : string), smap_insert (auto_unit_name port) _ files).
  assert (Hf : ∀ files p, smap_get (netdev_name iface) (f files p) = smap_get (netdev_name iface) files).
  { intros fs p. unfold f. rewrite smap_get_insert, bool_decide_eq_false_2; [done|]. intros E. by apply (netdev_not_auto iface p). }
  clearbody f. revert files. induction ports as [|p l IH]; intros fs; cbn [foldl]; [done|]. by rewrite IH, Hf.
Qed.
Lemma entry_netdev network ports files e iface :
  smap_get (netdev_name iface) (entry_files network ports files e)
  = if bool_decide (e.1 = iface) && present (render_netdev e.1 e.2 ns_keys) then render_netdev e.1 e.2 ns_keys else smap_get (netdev_name iface) files.
Proof.
  unfold entry_files. destruct e as [name cfg]; cbn [fst snd].
  assert (Hn : bool_decide (network_name name = netdev_name iface) = false) by (apply bool_decide_eq_false_2; intros E; by apply (netdev_not_network iface name)).
  destruct (render_netdev name cfg ns_keys) as [text|]; cbn [present]; rewrite ?andb_false_r, ?andb_true_r, !smap_get_insert, Hn; [|done].
  destruct (decide (name = iface)) as [->|Hne]; [by rewrite !bool_decide_eq_true_2|]. rewrite !bool_decide_eq_false_2; [done|done|]. by intros ?%netdev_name_inj.
Qed.
(** A device's file is of an entry that needs one. *)
Lemma rendered_netdev network ports iface text : smap_get (netdev_name iface) (rendered network ports) = Some text →
  ∃ cfg, (iface, cfg) ∈ network ∧ render_netdev iface cfg ns_keys = Some text.
Proof.
  unfold rendered. rewrite auto_netdev.
  apply (Networkd.foldl_keeps (λ m, smap_get (netdev_name iface) m = Some text → ∃ cfg, (iface, cfg) ∈ network ∧ render_netdev iface cfg ns_keys = Some text)); [done|].
  intros m [name cfg] Hin Hm. rewrite entry_netdev. cbn [fst snd]. destruct (_ && _) eqn:E; [|done]. apply andb_true_iff in E as [E _]. apply bool_decide_eq_true in E as ->.
  intros H. by exists cfg.
Qed.
End rendered.

(** ** What an apply goes through *)

(** The units as they were, every key that was there, nothing applied meanwhile,
    and every call made so far. *)
Record kept (w w' : NetWorld) : Prop := {
  kp_units : nw_units w' = nw_units w;
  kp_keys : ∀ i, is_Some (smap_get i (nw_keys w)) → is_Some (smap_get i (nw_keys w'));
  kp_applied : nw_applied w' = nw_applied w;
  kp_calls : nw_calls w `prefix_of` nw_calls w';
}.
Lemma kept_refl w : kept w w.
Proof. by split. Qed.
Lemma kept_trans w1 w2 w3 : kept w1 w2 → kept w2 w3 → kept w1 w3.
Proof. intros [H1 H2 H3 H4] [K1 K2 K3 K4]. split; [by rewrite K1| |by rewrite K3|by etransitivity]. intros i Hi. by apply K2, H2. Qed.
Lemma kept_grows w0 w w' : kept w w' → kept w0 w → kept w0 w'.
Proof. intros H1 H2. by eapply kept_trans. Qed.
#[export] Hint Resolve kept_grows : holds.
(** A computation that keeps them. *)
Lemma kept_of {A} (m : N A) w : holds (kept w) m → kept w (m w).2.
Proof. intros H. apply H, kept_refl. Qed.
Lemma kept_asked c w : kept w (net_asked c w).
Proof. split; [done|done|done|by exists [c]]. Qed.

(** What leaves the units and only adds keys. *)
Definition adds (f : NetWorld → NetWorld) : Prop :=
  ∀ w, nw_units (f w) = nw_units w ∧ nw_keys (f w) = nw_keys w ∧ nw_applied (f w) = nw_applied w ∧ nw_calls (f w) = nw_calls w.
Lemma adds_kept f w : adds f → kept w (f w).
Proof. intros H. destruct (H w) as (H1 & H2 & H3 & H4). split; [done| |done|by rewrite H4]. intros i. by rewrite H2. Qed.
Lemma adds_psks f : adds (λ w, set_psks (f w) w).
Proof. done. Qed.
Lemma adds_psk_dir : adds made_psk_dir.
Proof. done. Qed.
#[export] Hint Resolve adds_psks adds_psk_dir : holds.

Section framed.
Context `{NS : NetSystem} `{B64 : Base64} (P : NetWorld → Prop).
Context (Hgrow : ∀ w w', kept w w' → P w → P w').
Lemma grow_ask c : holds P (ask c).
Proof. intros w Hw. cbn. by apply (Hgrow w), Hw; apply kept_asked. Qed.
Lemma grow_call c : holds P (net_call c).
Proof. intros w Hw. unfold net_call. destruct (ns_fails _ _); apply (Hgrow w), Hw; apply kept_asked. Qed.
Lemma grow_act c f : adds f → holds P (act c f).
Proof.
  intros H w Hw. assert (Hf : P (f (net_asked c w))) by (apply (Hgrow (net_asked c w)); [by apply adds_kept|]; apply (Hgrow w), Hw; apply kept_asked).
  unfold act. destruct (ns_fails _ _); [destruct (ns_took _)|]; cbn; [done| |done]. apply (Hgrow w), Hw; apply kept_asked.
Qed.
Lemma grow_net_ensure r : holds P (net_ensure r).
Proof. destruct r as [?|[]]; by intros w Hw. Qed.
Hint Resolve grow_ask grow_call grow_act grow_net_ensure : holds.
Lemma grow_write_psks keys changed : holds P (write_psks keys changed).
Proof. revert changed. induction keys as [|[[iface index] key] keys IH]; intros changed; cbn [write_psks]; holds. Qed.
Lemma grow_drop_psks stored kept changed : holds P (drop_psks stored kept changed).
Proof. revert changed. induction stored as [|[iface index] stored IH]; intros changed; cbn [drop_psks]; holds. Qed.
Hint Resolve grow_write_psks grow_drop_psks : holds.
Lemma grow_sync keys : holds P (sync_psks keys).
Proof. unfold sync_psks. holds. Qed.
Lemma grow_write_key iface secret : holds P (act (WriteKey iface) (λ w, set_keys (smap_insert iface secret (nw_keys w)) w)).
Proof.
  assert (H : ∀ w, P w → P (set_keys (smap_insert iface secret (nw_keys w)) (net_asked (WriteKey iface) w))).
  { intros w. apply Hgrow. split; [done| |done|by eexists [_]]. intros i Hi. cbn. rewrite smap_get_insert. case_bool_decide; [by eexists|done]. }
  intros w Hw. unfold act. destruct (ns_fails _ _); [destruct (ns_took _)|]; cbn; [by apply H| |by apply H]. apply (Hgrow w), Hw; apply kept_asked.
Qed.
Hint Resolve grow_write_key : holds.
Lemma grow_ensure_key iface : holds P (ensure_key iface).
Proof. unfold ensure_key, write_new_key, public_key, net_history. holds. Qed.
Hint Resolve grow_ensure_key : holds.
Lemma grow_rotate_key iface : holds P (rotate_key iface).
Proof. unfold rotate_key, write_new_key, public_key, net_history. holds. Qed.
Lemma grow_render network ports psks previous entries r : holds P (render_entries network ports psks previous entries r).
Proof. revert r. induction entries as [|[iface cfg] entries IH]; intros r; cbn [render_entries]; holds. Qed.
Lemma grow_managed : holds P managed_files.
Proof. unfold managed_files. holds. Qed.
Lemma grow_delete l : holds P (delete_devices l).
Proof. unfold delete_devices. holds. Qed.
Lemma grow_wait links : holds P (wait_for links).
Proof. unfold wait_for, net_history. holds. Qed.
End framed.
#[export] Hint Resolve grow_ask grow_call grow_act grow_net_ensure grow_sync grow_render grow_managed grow_delete grow_wait grow_rotate_key : holds.

(** ** Replacing the files *)

Section replace.
Context `{NS : NetSystem}.

Lemma act_inr c f w u w' : act c f w = (inr u, w') → w' = f (net_asked c w).
Proof. unfold act. destruct (ns_fails _ _); [done|]. by intros [= _ <-]. Qed.
(** Each file is as it was or as it is to be. *)
Definition mixed (units files : smap string) (w : NetWorld) : Prop :=
  ∀ name, smap_get name (nw_units w) = smap_get name units ∨ (is_mica_managed name = true ∧ smap_get name (nw_units w) = smap_get name files).
Lemma mixed_frame units files w w' : nw_units w' = nw_units w → mixed units files w → mixed units files w'.
Proof. intros H Hm name. rewrite H. apply Hm. Qed.
Lemma mixed_act units files c f : (∀ w, mixed units files w → mixed units files (f (net_asked c w))) → holds (mixed units files) (act c f).
Proof. intros H w Hw. unfold act. destruct (ns_fails _ _); [destruct (ns_took _)|]; cbn; [by apply H|by apply (mixed_frame _ _ w)|by apply H]. Qed.
(** A write of either. *)
Lemma mixed_write units files name text :
  smap_get name units = Some text ∨ (is_mica_managed name = true ∧ smap_get name files = Some text) →
  holds (mixed units files) (act (WriteUnit name) (λ w, set_units (smap_insert name text (nw_units w)) w)).
Proof.
  intros Ht. apply mixed_act. intros w Hw n. cbn. rewrite smap_get_insert. case_bool_decide as E; [|by apply Hw]. subst. destruct Ht as [->|[? ->]]; [by left|by right].
Qed.
Lemma mixed_remove units files name : smap_get name units = None ∨ (is_mica_managed name = true ∧ smap_get name files = None) →
  holds (mixed units files) (act (RemoveUnit name) (λ w, set_units (smap_remove name (nw_units w)) w)).
Proof.
  intros Ht. apply mixed_act. intros w Hw n. cbn. rewrite smap_get_remove. case_bool_decide as E; [|by apply Hw]. subst. destruct Ht as [->|[? ->]]; [by left|by right].
Qed.
Lemma mixed_write_units units files l current :
  (∀ name text, (name, text) ∈ l → smap_get name units = Some text ∨ (is_mica_managed name = true ∧ smap_get name files = Some text)) → holds (mixed units files) (write_units l current).
Proof.
  induction l as [|[name text] l IH]; intros Hl; cbn [write_units]; [apply holds_ret|]. apply holds_bind.
  - case_bool_decide; [apply holds_ret|]. apply mixed_write, Hl. by left.
  - intros _. apply IH. intros n t Hin. apply Hl. by right.
Qed.
Lemma mixed_remove_units units files names target :
  (∀ name, name ∈ names → smap_get name target = None → smap_get name units = None ∨ (is_mica_managed name = true ∧ smap_get name files = None)) → holds (mixed units files) (remove_units names target).
Proof.
  induction names as [|name names IH]; intros Hl; cbn [remove_units]; [apply holds_ret|]. apply holds_bind.
  - destruct (smap_get name target) eqn:E; cbn [present]; [apply holds_ret|]. apply mixed_remove, Hl; [by left|done].
  - intros _. apply IH. intros n Hin. apply Hl. by right.
Qed.

(** What writing the changed ones and removing the rest leaves. *)
Lemma write_units_exact l current w u w' : NoDup (map fst l) → write_units l current w = (inr u, w') →
  ∀ name, smap_get name (nw_units w') = match smap_get name l with
                                        | Some text => if bool_decide (smap_get name current = Some text) then smap_get name (nw_units w) else Some text
                                        | None => smap_get name (nw_units w)
                                        end.
Proof.
  revert w. induction l as [|[k text] l IH]; intros w; cbn [write_units map fst]; [by intros _ [= _ <-]|]. intros [Hk Hd]%NoDup_cons H.
  apply bind_inr in H as ([] & w1 & H1 & H). intros name. rewrite (IH _ Hd H). cbn [smap_get].
  assert (Hw1 : smap_get name (nw_units w1) = if bool_decide (k = name) && negb (bool_decide (smap_get k current = Some text)) then Some text else smap_get name (nw_units w)).
  { destruct (bool_decide (smap_get k current = Some text)); [injection H1 as <-; by rewrite andb_false_r|]. apply act_inr in H1 as ->. cbn. rewrite smap_get_insert, andb_true_r. done. }
  destruct (decide (k = name)) as [<-|Ek]; rewrite ?(bool_decide_eq_true_2 (k = k)), ?(bool_decide_eq_false_2 (k = name)) by done.
  - destruct (smap_get k l) eqn:El; [exfalso; apply Hk, smap_get_some; rewrite El; by eexists|]. rewrite Hw1, (bool_decide_eq_true_2 (k = k)) by done. by destruct (bool_decide _).
  - rewrite (bool_decide_eq_false_2 (k = name)) in Hw1 by done. cbn [andb] in Hw1. by rewrite Hw1.
Qed.
Lemma remove_units_exact names files w u w' : remove_units names files w = (inr u, w') →
  ∀ name, smap_get name (nw_units w') = if bool_decide (name ∈ names) && negb (present (smap_get name files)) then None else smap_get name (nw_units w).
Proof.
  revert w. induction names as [|k names IH]; intros w; cbn [remove_units]; [by intros [= _ <-]|]. intros H. apply bind_inr in H as ([] & w1 & H1 & H). intros name.
  rewrite (IH _ H). assert (Hw1 : smap_get name (nw_units w1) = if bool_decide (k = name) && negb (present (smap_get k files)) then None else smap_get name (nw_units w)).
  { destruct (present (smap_get k files)); [injection H1 as <-; by rewrite andb_false_r|]. apply act_inr in H1 as ->. cbn. by rewrite smap_get_remove, andb_true_r. }
  rewrite Hw1. destruct (decide (name = k)) as [->|Hne].
  - rewrite (bool_decide_eq_true_2 (k ∈ k :: names)) by by left. rewrite (bool_decide_eq_true_2 (k = k)) by done. destruct (present (smap_get k files)); cbn; [by rewrite andb_false_r|].
    by destruct (bool_decide (k ∈ names)).
  - rewrite (bool_decide_eq_false_2 (k = name)) by done. cbn [andb]. assert (E : bool_decide (name ∈ k :: names) = bool_decide (name ∈ names)); [|by rewrite E].
    apply bool_decide_ext. rewrite elem_of_cons. naive_solver.
Qed.
Lemma replace_exact files current w u w' : NoDup (map fst files) → (∀ name, is_Some (smap_get name files) → is_mica_managed name = true) →
  (∀ name, smap_get name current = if is_mica_managed name then smap_get name (nw_units w) else None) → replace_files files current w = (inr u, w') →
  ∀ name, smap_get name (nw_units w') = if is_mica_managed name then smap_get name files else smap_get name (nw_units w).
Proof.
  intros Hd Hn Hc H name. unfold replace_files in H. apply bind_inr in H as ([] & w1 & H1 & H2). rewrite (remove_units_exact _ _ _ _ _ H2), (write_units_exact _ _ _ _ _ Hd H1).
  specialize (Hc name). destruct (is_mica_managed name) eqn:Em.
  - destruct (smap_get name files) as [text|] eqn:Ef; cbn [present negb]; rewrite ?andb_false_r, ?andb_true_r.
    + case_bool_decide as E; [|done]. by rewrite <- Hc.
    + case_bool_decide as E; [done|]. rewrite <- Hc. destruct (smap_get name current) eqn:Ec; [|done]. exfalso. apply E, smap_get_some. rewrite Ec. by eexists.
  - destruct (smap_get name files) as [text|] eqn:Ef; [rewrite (Hn name) in Em; [done|]; rewrite Ef; by eexists|]. cbn [present negb]. rewrite andb_true_r.
    case_bool_decide as E; [|done]. apply smap_get_some in E as [? E]. congruence.
Qed.
End replace.

(** ** Rendering *)

Section entries.
Context `{NS : NetSystem} `{B64 : Base64}.
Implicit Types (network entries : network_map).

Lemma ensure_key_there iface w public w' : ensure_key iface w = (inr public, w') → is_Some (smap_get iface (nw_keys w')).
Proof.
  intros H. unfold ensure_key in H. apply bind_inr in H as (u & w1 & H1 & H). apply bind_inr in H as (stored & w2 & H2 & H). cbn in H2. injection H2 as <- <-.
  destruct (smap_get iface (nw_keys w1)) as [secret|] eqn:E.
  - unfold public_key in H. destruct (ns_public secret); [|done]. injection H as _ <-. by rewrite E.
  - unfold write_new_key, net_history in H. apply bind_inr in H as (? & w3 & H3 & H). apply bind_inr in H as (h & w4 & H4 & H). apply bind_inr in H as (? & w5 & H5 & H).
    apply bind_inr in H as (? & w6 & H6 & H). apply act_inr in H6 as ->. unfold public_key in H. destruct (ns_public _); [|done]. injection H as _ <-. cbn.
    rewrite smap_get_insert, bool_decide_eq_true_2 by done. by eexists.
Qed.
(** The entry's key, and what else it leaves. *)
Lemma entry_key iface cfg w o w1 : (if is_tunnel cfg then let* public := ensure_key iface in ret (Some public) else ret None) w = (inr o, w1) →
  kept w w1 ∧ (is_tunnel cfg = true → is_Some (smap_get iface (nw_keys w1))).
Proof.
  intros H. split.
  - pose proof (kept_of (if is_tunnel cfg then let* public := ensure_key iface in ret (Some public) else ret None) w) as Hk. rewrite H in Hk. apply Hk.
    destruct (is_tunnel cfg); [|apply holds_ret]. apply holds_bind; [by apply grow_ensure_key, kept_grows|]. intros a. apply holds_ret.
  - intros Ht. rewrite Ht in H. apply bind_inr in H as (p & w2 & H1 & [= _ ->]). by apply ensure_key_there in H1.
Qed.

Record rendered_from (network : network_map) (ports : list string) (psks : list string) (previous : smap string) (entries : network_map) (r r' : Rendered) (w' : NetWorld) : Prop := {
  rf_files : rd_files r' = foldl (entry_files network ports) (rd_files r) entries;
  rf_keys : ∀ iface cfg, (iface, cfg) ∈ entries → is_tunnel cfg = true → is_Some (smap_get iface (nw_keys w'));
  rf_kept : ∀ iface, iface ∈ rd_recreate r → iface ∈ rd_recreate r';
  rf_again : ∀ iface cfg old netdev, (iface, cfg) ∈ entries → render_netdev iface cfg ns_keys = Some netdev → smap_get (netdev_name iface) previous = Some old →
    old ≠ netdev ∨ iface ∈ psks → iface ∈ rd_recreate r';
}.
Lemma render_entries_spec network ports psks previous entries r w r' w' :
  render_entries network ports psks previous entries r w = (inr r', w') → kept w w' ∧ rendered_from network ports psks previous entries r r' w'.
Proof.
  revert r w. induction entries as [|[iface cfg] entries IH]; intros r w; cbn [render_entries].
  { intros [= <- <-]. split; [apply kept_refl|]. split; [done|by intros ? ? ?%elem_of_nil|done|by intros ? ? ? ? ?%elem_of_nil]. }
  intros H. apply bind_inr in H as (o & w1 & H1 & H). apply entry_key in H1 as [Hk Ht]. cbv zeta in H.
  set (netdev := render_netdev iface cfg ns_keys) in *.
  assert (Hn : ∃ r1, render_entries network ports psks previous entries r1 w1 = (inr r', w') ∧ rd_files r1 = entry_files network ports (rd_files r) (iface, cfg)
            ∧ (∀ i, i ∈ rd_recreate r → i ∈ rd_recreate r1)
            ∧ (∀ old text, netdev = Some text → smap_get (netdev_name iface) previous = Some old → old ≠ text ∨ iface ∈ psks → iface ∈ rd_recreate r1)).
  { unfold entry_files. cbn [fst snd]. fold netdev. clearbody netdev. destruct netdev as [text|]; eexists; (split; [exact H|]); cbn [rd_files rd_recreate]; (split; [done|]); split; try done.
    - intros i Hi. apply elem_of_app. by left.
    - intros old t [= <-] Eo Hd. rewrite Eo. apply elem_of_app. right. assert (E : negb (bool_decide (old = text)) || bool_decide (iface ∈ psks) = true).
      { apply orb_true_iff. destruct Hd as [Hd|Hd]; [left; by rewrite bool_decide_eq_false_2|right; by apply bool_decide_eq_true_2]. }
      rewrite E. apply list_elem_of_here. }
  destruct Hn as (r1 & Hr & Hf & Hkeep & Hagain). apply IH in Hr as [Hk' [R1 R2 R3 R4]]. split; [by eapply kept_trans|]. split.
  - by rewrite R1, Hf.
  - intros i c [[= -> ->]|Hin]%elem_of_cons Hc; [|by eapply R2]. by apply Hk', Ht.
  - intros i Hi. by apply R3, Hkeep.
  - intros i c old text [[= -> ->]|Hin]%elem_of_cons Hc Ho Hd; [|by eapply R4]. by eapply R3, Hagain.
Qed.
End entries.

(** ** The calls made *)

Section calls.
Context `{NS : NetSystem} `{B64 : Base64} (before : list NetCall).
Definition after_calls (w : NetWorld) : Prop := before `prefix_of` nw_calls w.
Lemma after_modify {E} (f : NetWorld → NetWorld) : (∀ w, nw_calls w `prefix_of` nw_calls (f w)) → holds after_calls (modify (E := E) f).
Proof. intros H w Hw. cbn. unfold after_calls in *. by etransitivity. Qed.
Lemma after_asked c w : after_calls w → after_calls (net_asked c w).
Proof. intros H. unfold after_calls in *. etransitivity; [done|]. by exists [c]. Qed.
Lemma after_call c : holds after_calls (net_call c).
Proof. intros w Hw. unfold net_call. destruct (ns_fails _ _); by apply after_asked. Qed.
Lemma after_act c f : (∀ w, nw_calls (f w) = nw_calls w) → holds after_calls (act c f).
Proof. intros H w Hw. unfold act. destruct (ns_fails _ _); [destruct (ns_took _)|]; cbn; unfold after_calls; rewrite ?H; by apply after_asked. Qed.
Lemma after_ask c : holds after_calls (ask c).
Proof. apply after_modify. intros w. by exists [c]. Qed.
Lemma after_net_ensure r : holds after_calls (net_ensure r).
Proof. destruct r as [?|[]]; by intros w Hw. Qed.
Hint Resolve after_call after_act after_ask after_net_ensure : holds.
Lemma after_write_units l current : holds after_calls (write_units l current).
Proof. induction l as [|[name text] l IH]; cbn [write_units]; holds. Qed.
Lemma after_remove_units names files : holds after_calls (remove_units names files).
Proof. induction names as [|name names IH]; cbn [remove_units]; holds. Qed.
Hint Resolve after_write_units after_remove_units : holds.
Lemma after_replace files current : holds after_calls (replace_files files current).
Proof. unfold replace_files. holds. Qed.
Lemma after_write_psks keys changed : holds after_calls (write_psks keys changed).
Proof. revert changed. induction keys as [|[[iface index] key] keys IH]; intros changed; cbn [write_psks]; holds. Qed.
Lemma after_drop_psks stored kept changed : holds after_calls (drop_psks stored kept changed).
Proof. revert changed. induction stored as [|[iface index] stored IH]; intros changed; cbn [drop_psks]; holds. Qed.
Lemma after_drop_keys stored keep removed : holds after_calls (drop_keys stored keep removed).
Proof. revert removed. induction stored as [|iface stored IH]; intros removed; cbn [drop_keys]; holds. Qed.
Lemma after_delete l : holds after_calls (delete_devices l).
Proof. unfold delete_devices. holds. Qed.
Hint Resolve after_replace after_write_psks after_drop_psks after_drop_keys after_delete : holds.
Lemma after_sync keys : holds after_calls (sync_psks keys).
Proof. unfold sync_psks. holds. Qed.
Lemma after_retain keep : holds after_calls (retain_keys keep).
Proof. unfold retain_keys. holds. Qed.
Lemma after_key iface : holds after_calls (ensure_key iface).
Proof. unfold ensure_key, write_new_key, public_key, net_history. holds. Qed.
Hint Resolve after_key : holds.
Lemma after_render network ports psks previous entries r : holds after_calls (render_entries network ports psks previous entries r).
Proof. revert r. induction entries as [|[iface cfg] entries IH]; intros r; cbn [render_entries]; holds. Qed.
Lemma after_settle network files previous : holds after_calls (settle_or_back network files previous).
Proof. unfold settle_or_back, wait_for, net_history. holds. Qed.
Lemma after_switch network files previous recreate : holds after_calls (switch_units network files previous recreate).
Proof. unfold switch_units, settle_or_back, wait_for, net_history. holds. apply after_modify. intros w. by cbn. Qed.
End calls.

(** What [delete_devices] asks, exactly. *)
Lemma delete_devices_run `{NetSystem} l w : (delete_devices l w).1 = inr tt ∧ nw_calls (delete_devices l w).2 = nw_calls w ++ map DeleteLink l
  ∧ nw_units (delete_devices l w).2 = nw_units w.
Proof.
  revert w. induction l as [|iface l IH]; intros w; [by cbn; rewrite app_nil_r|]. specialize (IH (net_asked (DeleteLink iface) w)).
  assert (E : delete_devices (iface :: l) w = delete_devices l (net_asked (DeleteLink iface) w)).
  { unfold delete_devices. cbn [each_]. unfold bind at 1, dismiss, bind at 1, try, net_call. by destruct (ns_fails _ _). }
  rewrite E. destruct IH as (H1 & H2 & H3). split_and!; [done| |done]. rewrite H2. cbn. by rewrite <- app_assoc.
Qed.

(** ** The apply *)

Section main.
Context `{NS : NetSystem} `{B64 : Base64}.
Implicit Types (network entries : network_map).

(** The directory with exactly [files] of micad's in it. *)
Definition exactly (units files : smap string) (w : NetWorld) : Prop :=
  ∀ name, smap_get name (nw_units w) = if is_mica_managed name then smap_get name files else smap_get name units.
Lemma mixed_start w files : mixed (nw_units w) files w.
Proof. intros name. by left. Qed.
Lemma mixed_replace w files : named files → keys_sorted (nw_units w) → holds (mixed (nw_units w) files) (replace_files files (managed (nw_units w))).
Proof.
  intros [Hs Hn] Hu. unfold replace_files. apply holds_bind.
  - apply mixed_write_units. intros name text Hin. right. apply smap_get_elem in Hin; [|by apply keys_NoDup]. split; [apply Hn; rewrite Hin; by eexists|done].
  - intros _. apply mixed_remove_units. intros name Hin Ht. right. split; [|done]. apply smap_get_some in Hin as [t Hin]. unfold managed in Hin.
    rewrite smap_get_filter in Hin. by destruct (is_mica_managed name).
Qed.
Lemma mixed_back w files : named files → keys_sorted (nw_units w) → holds (mixed (nw_units w) files) (replace_files (managed (nw_units w)) files).
Proof.
  intros [Hs Hn] Hu. unfold replace_files. apply holds_bind.
  - apply mixed_write_units. intros name text Hin. left. apply smap_get_elem in Hin; [|by apply keys_NoDup, (filter_sorted is_mica_managed)].
    unfold managed in Hin. rewrite smap_get_filter in Hin. by destruct (is_mica_managed name).
  - intros _. apply mixed_remove_units. intros name Hin Ht. left. apply smap_get_some in Hin as Hin'. unfold managed in Ht. rewrite smap_get_filter in Ht.
    by rewrite (Hn name Hin') in Ht.
Qed.
Lemma replace_to w files u w' : named files → keys_sorted (nw_units w) → replace_files files (managed (nw_units w)) w = (inr u, w') → exactly (nw_units w) files w'.
Proof.
  intros [Hs Hn] Hu H name. apply (replace_exact files (managed (nw_units w)) w u w' (keys_NoDup _ Hs) Hn); [|done]. intros n. unfold managed. apply smap_get_filter.
Qed.
Lemma back_to units w files u w' : named files → keys_sorted units → exactly units files w → replace_files (managed units) files w = (inr u, w') →
  ∀ name, smap_get name (nw_units w') = smap_get name units.
Proof.
  intros [Hs Hn] Hu He H name. assert (Hm : keys_sorted (managed units)) by by apply (filter_sorted is_mica_managed).
  pose proof (λ Hc Hd, replace_exact (managed units) files w u w' (keys_NoDup _ Hm) Hc Hd H name) as He'. rewrite He'; clear He'.
  - unfold managed. rewrite smap_get_filter. destruct (is_mica_managed name) eqn:E; [done|]. by rewrite (He name), E.
  - intros n [t Ht]. unfold managed in Ht. rewrite smap_get_filter in Ht. by destruct (is_mica_managed n).
  - intros n. destruct (is_mica_managed n) eqn:E; [by rewrite (He n), E|]. destruct (smap_get n files) eqn:Ef; [|done]. rewrite (Hn n) in E; [done|]. rewrite Ef. by eexists.
Qed.

(** Between two calls the links were waited for, and this was the answer. *)
Definition waited (links : smap bool) (calls calls' : list NetCall) (answer : option string) : Prop :=
  ∃ asked, calls `prefix_of` asked ∧ (asked ++ [Settle links]) `prefix_of` calls' ∧ ns_settle (asked ++ [Settle links]) = answer.
Lemma waited_mono links calls calls1 calls2 calls' answer : calls `prefix_of` calls1 → calls2 `prefix_of` calls' →
  waited links calls1 calls2 answer → waited links calls calls' answer.
Proof. intros H1 H2 (asked & Ha & Hb & He). exists asked. split_and!; [by etransitivity|by etransitivity|done]. Qed.
(** How switching to [files] from [w] ends. *)
Definition switched network (w : NetWorld) (files : smap string) (devices : list string) (r : NetError + unit) (w' : NetWorld) : Prop :=
  let links := changed_links network files (managed (nw_units w)) in
  mixed (nw_units w) files w' ∧ nw_calls w `prefix_of` nw_calls w'
  ∧ match r with
    | inr _ => exactly (nw_units w) files w' ∧ (∃ earlier later, nw_calls w' = earlier ++ map DeleteLink devices ++ Reload :: later)
               ∧ (nw_applied w = true → links = [] ∨ waited links (nw_calls w) (nw_calls w') None)
    | inl (RolledBack reason) => (∀ name, smap_get name (nw_units w') = smap_get name (nw_units w))
               ∧ nw_applied w = true ∧ waited links (nw_calls w) (nw_calls w') (Some reason)
    | inl (NetFailed _) => True
    end.
Lemma net_call_cases c w : (∃ e, net_call c w = (inl (NetFailed e), net_asked c w)) ∨ net_call c w = (inr tt, net_asked c w).
Proof. unfold net_call. destruct (ns_fails _ _); [left; by eexists|by right]. Qed.
(** The computations that are never rolled back. *)
Definition plain {A} (m : N A) : Prop := ∀ w e w', m w = (inl e, w') → ∃ m, e = NetFailed m.
Lemma plain_ret {A} (a : A) : plain (ret a).
Proof. by intros w e w'. Qed.
Lemma plain_call c : plain (net_call c).
Proof. intros w e w'. destruct (net_call_cases c w) as [[m ->]| ->]; [intros [= <- _]; by exists m|done]. Qed.
Lemma plain_act c f : plain (act c f).
Proof. intros w e w'. unfold act. destruct (ns_fails _ _) as [m|]; [|done]. intros [= <- _]. by exists m. Qed.
Lemma plain_bind {A B} (m : N A) (k : A → N B) : plain m → (∀ a, plain (k a)) → plain (bind m k).
Proof. intros Hm Hk w e w'. unfold bind. destruct (m w) as [[e1|a] w1] eqn:E; [intros [= <- _]; by eapply Hm|apply Hk]. Qed.
Lemma plain_gets {A} (f : NetWorld → A) : plain (gets f).
Proof. by intros w e w'. Qed.
Lemma plain_ask c : plain (ask c).
Proof. by intros w e w'. Qed.
Lemma plain_net_ensure r : plain (net_ensure r).
Proof. destruct r as [?|[]]; intros w e w'; cbn; [done|..]; intros [= <- _]; by eexists. Qed.
Lemma plain_if {A} (b : bool) (m1 m2 : N A) : plain m1 → plain m2 → plain (if b then m1 else m2).
Proof. by destruct b. Qed.
Lemma plain_write_psks keys changed : plain (write_psks keys changed).
Proof.
  revert changed. induction keys as [|[[iface index] key] keys IH]; intros changed; cbn [write_psks]; [apply plain_ret|].
  apply plain_bind; [apply plain_gets|]. intros same. apply plain_if; [done|]. by apply plain_bind; [apply plain_act|].
Qed.
Lemma plain_drop_psks stored kept changed : plain (drop_psks stored kept changed).
Proof.
  revert changed. induction stored as [|[iface index] stored IH]; intros changed; cbn [drop_psks]; [apply plain_ret|].
  apply plain_if; [done|]. by apply plain_bind; [apply plain_act|].
Qed.
Lemma plain_sync keys : plain (sync_psks keys).
Proof.
  apply plain_bind; [apply plain_gets|]. intros there. apply plain_if; [apply plain_ret|]. apply plain_bind; [apply plain_act|]. intros _.
  apply plain_bind; [apply plain_write_psks|]. intros changed. apply plain_bind; [apply plain_call|]. intros _. apply plain_bind; [apply plain_gets|]. intros stored. apply plain_drop_psks.
Qed.
Lemma plain_managed : plain managed_files.
Proof. apply plain_bind; [apply plain_call|]. intros _. apply plain_gets. Qed.
Lemma plain_public secret : plain (public_key secret).
Proof. unfold public_key. destruct (ns_public secret); [apply plain_ret|]. intros w e w' [= <- _]. by eexists. Qed.
Lemma plain_key iface : plain (ensure_key iface).
Proof.
  apply plain_bind; [apply plain_call|]. intros _. apply plain_bind; [apply plain_gets|]. intros [secret|]; [apply plain_public|].
  apply plain_bind; [apply plain_call|]. intros _. apply plain_bind; [apply plain_gets|]. intros h. apply plain_bind; [apply plain_call|]. intros _.
  apply plain_bind; [apply plain_act|]. intros _. apply plain_public.
Qed.
Lemma plain_render network ports psks previous entries r : plain (render_entries network ports psks previous entries r).
Proof.
  revert r. induction entries as [|[iface cfg] entries IH]; intros r; cbn [render_entries]; [apply plain_ret|]. apply plain_bind.
  - apply plain_if; [|apply plain_ret]. apply plain_bind; [apply plain_key|]. intros p. apply plain_ret.
  - intros o. by destruct (render_netdev _ _ _).
Qed.
Lemma replace_fails files current : plain (replace_files files current).
Proof.
  apply plain_bind; [|intros _].
  - induction files as [|[name text] l IH]; cbn [write_units]; [apply plain_ret|]. apply plain_bind; [|by intros _]. destruct (bool_decide _); [apply plain_ret|apply plain_act].
  - generalize (map fst current) as names. induction names as [|name l IH]; cbn [remove_units]; [apply plain_ret|]. apply plain_bind; [|by intros _].
    destruct (present _); [apply plain_ret|apply plain_act].
Qed.
Lemma settle_spec network w files w1 : named files → keys_sorted (nw_units w) → exactly (nw_units w) files w1 →
  let '(r, w') := settle_or_back network files (managed (nw_units w)) w1 in
  let links := changed_links network files (managed (nw_units w)) in
  mixed (nw_units w) files w' ∧ match r with
                                | inr _ => nw_units w' = nw_units w1 ∧ (links = [] ∨ waited links (nw_calls w1) (nw_calls w') None)
                                | inl (RolledBack reason) => (∀ name, smap_get name (nw_units w') = smap_get name (nw_units w)) ∧ waited links (nw_calls w1) (nw_calls w') (Some reason)
                                | inl (NetFailed _) => True
                                end.
Proof.
  intros Hf Hu He. assert (Hm1 : mixed (nw_units w) files w1).
  { intros name. rewrite (He name). destruct (is_mica_managed name); [by right|by left]. }
  unfold settle_or_back. set (links := changed_links _ _ _). destruct links as [|l0 ls] eqn:El; [by split; [|split; [|left]]|]. cbn [is_nil]. rewrite <- El. clear El.
  unfold bind at 1, wait_for, bind at 1, ask, net_history, modify, bind at 1, gets, ret. cbn [net_asked nw_calls].
  destruct (ns_settle _) as [reason|] eqn:Es; [|split; [by apply (mixed_frame _ _ w1)|split; [done|]; right; by exists (nw_calls w1)]].
  set (w2 := net_asked _ w1). assert (Hm2 : mixed (nw_units w) files w2) by by apply (mixed_frame _ _ w1).
  assert (Hw2 : nw_calls w2 = nw_calls w1 ++ [Settle links]) by done.
  unfold bind at 1. pose proof (mixed_back w files Hf Hu w2 Hm2) as Hm3. pose proof (after_replace (nw_calls w2) (managed (nw_units w)) files w2 ltac:(by unfold after_calls)) as Hc3.
  unfold after_calls in Hc3. destruct (replace_files (managed (nw_units w)) files w2) as [[e|[]] w3] eqn:Er; cbn [snd] in Hm3, Hc3.
  { apply replace_fails in Er as [m ->]. done. }
  pose proof (back_to (nw_units w) w2 files tt w3 Hf Hu He Er) as Eb. unfold bind at 1. pose proof (delete_devices_run (rebuilt files (managed (nw_units w))) w3) as (D1 & D2 & D3).
  destruct (delete_devices _ w3) as [r4 w4]. cbn [fst snd] in D1, D2, D3. subst r4. unfold bind at 1.
  destruct (net_call_cases Reload w4) as [[m ->]| ->]; (split; [apply (mixed_frame _ _ w3); [done|]; intros name; left; by rewrite Eb|]); [done|].
  cbn [net_asked throw nw_calls nw_units]. split; [intros name; by rewrite D3, Eb|]. exists (nw_calls w1). split_and!; [done| |done]. rewrite <- Hw2, D2. etransitivity; [exact Hc3|].
  rewrite <- app_assoc. by eexists.
Qed.
(** What changes no key. *)
Section same_keys.
Context (P : NetWorld → Prop) (Hsame : ∀ w w', nw_keys w' = nw_keys w → nw_applied w' = nw_applied w → P w → P w').
Lemma same_ask c : holds P (ask c).
Proof. intros w Hw. by apply (Hsame w). Qed.
Lemma same_call c : holds P (net_call c).
Proof. intros w Hw. unfold net_call. destruct (ns_fails _ _); by apply (Hsame w). Qed.
Lemma same_act c f : (∀ w, nw_keys (f w) = nw_keys w) → (∀ w, nw_applied (f w) = nw_applied w) → holds P (act c f).
Proof. intros H1 H2 w Hw. unfold act. destruct (ns_fails _ _); [destruct (ns_took _)|]; cbn; apply (Hsame w); by rewrite ?H1, ?H2. Qed.
Hint Resolve same_ask same_call same_act : holds.
Lemma same_write_units l current : holds P (write_units l current).
Proof. induction l as [|[name text] l IH]; cbn [write_units]; holds. Qed.
Lemma same_remove_units names files : holds P (remove_units names files).
Proof. induction names as [|name l IH]; cbn [remove_units]; holds. Qed.
Hint Resolve same_write_units same_remove_units : holds.
Lemma same_replace files current : holds P (replace_files files current).
Proof. unfold replace_files. holds. Qed.
Lemma same_delete devices : holds P (delete_devices devices).
Proof. unfold delete_devices. holds. Qed.
Hint Resolve same_replace same_delete : holds.
Lemma same_switch network files previous recreate : (∀ w, P w → P (set_applied w)) → holds P (switch_units network files previous recreate).
Proof. intros Ha. unfold switch_units, settle_or_back, wait_for, net_history. holds. Qed.
End same_keys.
Lemma applied_replace files current w : nw_applied (replace_files files current w).2 = nw_applied w.
Proof. by apply (same_replace (λ w', nw_applied w' = nw_applied w) (λ w1 w2 _ E, eq_trans E)). Qed.
Lemma applied_delete devices w : nw_applied (delete_devices devices w).2 = nw_applied w.
Proof. by apply (same_delete (λ w', nw_applied w' = nw_applied w) (λ w1 w2 _ E, eq_trans E)). Qed.
Lemma switch_spec network w files recreate : named files → keys_sorted (nw_units w) →
  let '(r, w') := switch_units network files (managed (nw_units w)) recreate w in
  switched network w files (name_set (torn_down (managed (nw_units w)) files ++ recreate)) r w'.
Proof.
  intros Hf Hu. pose proof (after_switch (nw_calls w) network files (managed (nw_units w)) recreate w ltac:(by unfold after_calls)) as Hc.
  unfold switch_units in *. set (devices := name_set _) in *. unfold bind at 1 in Hc; unfold bind at 1. pose proof (mixed_replace w files Hf Hu w (mixed_start w files)) as Hm1.
  pose proof (after_replace (nw_calls w) files (managed (nw_units w)) w ltac:(by unfold after_calls)) as Hc1. pose proof (applied_replace files (managed (nw_units w)) w) as Ha1.
  destruct (replace_files files (managed (nw_units w)) w) as [[e|[]] w1] eqn:Er; cbn in Hm1, Hc1, Ha1.
  { apply replace_fails in Er as [m ->]. by split. }
  pose proof (replace_to w files tt w1 Hf Hu Er) as Et. unfold bind at 1 in Hc; unfold bind at 1. pose proof (applied_delete devices w1) as Ha2.
  pose proof (delete_devices_run devices w1) as (D1 & D2 & D3). destruct (delete_devices devices w1) as [r2 w2]. cbn in D1, D2, D3, Ha2. subst r2.
  assert (Hm2 : mixed (nw_units w) files w2) by by apply (mixed_frame _ _ w1). unfold bind at 1 in Hc; unfold bind at 1.
  destruct (net_call_cases Reload w2) as [[m Em]| Em]; rewrite Em in Hc |- *; [by split|]. unfold bind at 1, gets in Hc; unfold bind at 1, gets. unfold bind at 1, modify in Hc; unfold bind at 1, modify. set (w3 := set_applied _) in *.
  assert (He3 : exactly (nw_units w) files w3) by (intros name; cbn; by rewrite D3, Et).
  assert (Hc3 : nw_calls w3 = nw_calls w1 ++ map DeleteLink devices ++ [Reload]) by (cbn; by rewrite D2, <- app_assoc).
  assert (Hp : nw_calls w `prefix_of` nw_calls w3) by (rewrite Hc3; by apply prefix_app_r).
  cbn [net_asked nw_applied] in Hc |- *. rewrite Ha2, Ha1 in Hc |- *. destruct (nw_applied w) eqn:Ew.
  - pose proof (settle_spec network w files w3 Hf Hu He3) as Hs. pose proof (after_settle (nw_calls w3) network files (managed (nw_units w)) w3 ltac:(by unfold after_calls)) as Ha.
    destruct (settle_or_back _ _ _ w3) as [r w']. cbn [snd] in Hc, Ha. destruct Hs as [Hm Hs]. split; [done|]. split; [done|]. destruct r as [[reason|m]|[]]; [|done|].
    + destruct Hs as [H1 H2]. split; [done|]. split; [done|]. eapply waited_mono; [exact Hp|reflexivity|exact H2].
    + destruct Hs as [H1 H2]. split; [intros name; by rewrite H1, He3|]. split; [|intros _; destruct H2 as [?|H2]; [by left|right]; eapply waited_mono; [exact Hp|reflexivity|exact H2]].
      destruct Ha as [later Ha]. exists (nw_calls w1), later. change (nw_calls w' = nw_calls w3 ++ later) in Ha. by rewrite Ha, Hc3, <- !app_assoc.
  - split; [by apply (mixed_frame _ _ w2)|]. split; [done|]. split; [done|]. split; [exists (nw_calls w1), []; exact Hc3|by rewrite Ew].
Qed.

Lemma torn_down_elem previous files iface old : smap_get (netdev_name iface) previous = Some old → smap_get (netdev_name iface) files = None → iface ∈ torn_down previous files.
Proof.
  intros Ho Hn. unfold torn_down, netdevs. apply list_elem_of_omap. exists (netdev_name iface). split; [|apply netdev_iface].
  apply list_elem_of_In, filter_In. split; [apply list_elem_of_In, smap_get_some; rewrite Ho; by eexists|by rewrite Hn].
Qed.
(** How [write_and_settle] ends: before it changed a unit, or by a switch to the
    rendered files, each device whose file changed or went among those deleted. *)
Definition settled_as (network : network_map) (w : NetWorld) (r : NetError + smap IfaceState) (w' : NetWorld) : Prop :=
  ((∃ m, r = inl (NetFailed m)) ∧ kept w w')
  ∨ ∃ h w1 devices sw, let files := rendered network (undeclared_ports h network) in
      kept w w1 ∧ nw_calls w `prefix_of` h ∧ h `prefix_of` nw_calls w1
      ∧ switched network w1 files devices sw w' ∧ nw_keys w' = nw_keys w1 ∧ match sw, r with inl e, inl e' => e = e' | inr _, inr _ => True | _, _ => False end
      ∧ (∀ iface cfg, (iface, cfg) ∈ network → is_tunnel cfg = true → is_Some (smap_get iface (nw_keys w1)))
      ∧ ∀ iface old, smap_get (netdev_name iface) (nw_units w) = Some old → smap_get (netdev_name iface) files ≠ Some old → iface ∈ devices.
Lemma settled_bind {A} network w0 w (m : N A) (k : A → N (smap IfaceState)) : kept w0 w → plain m → (∀ w0, holds (kept w0) m) →
  (∀ a w1, m w = (inr a, w1) → kept w w1 → kept w0 w1 → let '(r, w') := k a w1 in settled_as network w0 r w') → let '(r, w') := bind m k w in settled_as network w0 r w'.
Proof.
  intros Hw Hp Hm Hk. unfold bind. pose proof (kept_of m w (Hm w)) as H1. destruct (m w) as [[e|a] w1] eqn:E; cbn in H1.
  - left. apply Hp in E as [msg ->]. split; [by eexists|by eapply kept_trans].
  - apply (Hk a w1 eq_refl H1). by eapply kept_trans.
Qed.
(** The last step. *)
Lemma switched_settled network w w1 h (psks : list string) r1 (ports := undeclared_ports h network) :
  keys_sorted (nw_units w) → kept w w1 → nw_calls w `prefix_of` h → h `prefix_of` nw_calls w1 → auto_units network ports (rd_files r1) = rendered network ports →
  (∀ iface cfg, (iface, cfg) ∈ network → is_tunnel cfg = true → is_Some (smap_get iface (nw_keys w1))) →
  (∀ iface cfg old netdev, (iface, cfg) ∈ network → render_netdev iface cfg ns_keys = Some netdev → smap_get (netdev_name iface) (managed (nw_units w)) = Some old →
    old ≠ netdev ∨ iface ∈ psks → iface ∈ rd_recreate r1) →
  let '(r, w') := (let* _ := switch_units network (auto_units network ports (rd_files r1)) (managed (nw_units w)) (rd_recreate r1) in ret (rd_state r1)) w1 in settled_as network w r w'.
Proof.
  intros Hs Hk Hh1 Hh2 -> Rk Ra. pose proof (kp_units _ _ Hk) as Hu. rewrite <- Hu in Hs, Ra |- *.
  pose proof (switch_spec network w1 (rendered network ports) (rd_recreate r1) (named_rendered network ports) Hs) as Hsw. unfold bind at 1.
  pose proof (same_switch (λ w', nw_keys w' = nw_keys w1) (λ w w' E1 _ E2, eq_trans E1 E2) network (rendered network ports) (managed (nw_units w1)) (rd_recreate r1) ltac:(done) w1 eq_refl) as Hkeys.
  destruct (switch_units _ _ _ _ w1) as [sw w']. assert (Hd : ∀ iface old, smap_get (netdev_name iface) (nw_units w1) = Some old →
    smap_get (netdev_name iface) (rendered network ports) ≠ Some old → iface ∈ name_set (torn_down (managed (nw_units w1)) (rendered network ports) ++ rd_recreate r1)).
  { intros iface old Ho Hn. apply name_set_elem, elem_of_app. assert (Hm : smap_get (netdev_name iface) (managed (nw_units w1)) = Some old).
    { unfold managed. by rewrite smap_get_filter, managed_netdev. }
    destruct (smap_get (netdev_name iface) (rendered network ports)) as [text|] eqn:Et; [right|left; by eapply torn_down_elem].
    apply rendered_netdev in Et as (cfg & Hin & Hr). apply (Ra iface cfg old text); [done|done|done|left; congruence]. }
  destruct sw as [e|[]]; right; eexists h, w1, _, _; (split; [done|]); (split; [done|]); (split; [done|]); (split; [exact Hsw|]); (split; [exact Hkeys|]); (split; [done|]); (split; [done|]); rewrite <- Hu; exact Hd.
Qed.
Lemma write_and_settle_spec network w : keys_sorted (nw_units w) → let '(r, w') := write_and_settle network w in settled_as network w r w'.
Proof.
  intros Hs. unfold write_and_settle. apply settled_bind; [apply kept_refl|apply plain_net_ensure|intros w0; apply grow_net_ensure|]. intros _ w1 _ _ K1.
  apply settled_bind; [done|apply plain_ask|intros w0; apply grow_ask, kept_grows|]. intros _ w2 _ _ K2. clear w1 K1.
  apply settled_bind; [done|apply plain_gets|intros w0; apply holds_gets|]. intros h0 w1 _ _ K1. clear w2 K2.
  apply settled_bind; [done|apply plain_net_ensure|intros w0; apply grow_net_ensure|]. intros _ w2 _ _ K2. clear w1 K1.
  apply settled_bind; [done|apply plain_sync|intros w0; apply grow_sync, kept_grows|]. intros psks w1 _ _ K1. clear w2 K2 h0.
  apply settled_bind; [done|apply plain_gets|intros w0; apply holds_gets|]. intros h w2 [= <- <-] _ _. set (h := nw_calls w1). set (ports := undeclared_ports h network).
  apply settled_bind; [done|apply plain_call|intros w0; apply grow_call, kept_grows|]. intros _ w2 _ L2 K2.
  apply settled_bind; [done|apply plain_managed|intros w0; apply grow_managed, kept_grows|]. intros previous w3 Hp L3 K3.
  unfold managed_files in Hp. apply bind_inr in Hp as (? & w3' & _ & [= <- <-]).
  apply settled_bind; [done|apply plain_render|intros w0; apply grow_render, kept_grows|]. intros r1 w4 Er L4 K4.
  apply render_entries_spec in Er as [_ [Rf Rk _ Ra]]. rewrite (kp_units _ _ K3) in Ra |- *.
  apply (switched_settled network w w4 h psks r1); [done|done|apply (kp_calls _ _ K1)| |unfold rendered; by rewrite Rf|done|done].
  apply (kp_calls w1 w4). eapply kept_trans; [|exact L4]. by eapply kept_trans.
Qed.

(** ** Keys *)

(** Dropping keys drops those not kept, and nothing else. *)
Lemma drop_keys_spec stored keep removed w : let w' := (drop_keys stored keep removed w).2 in
  nw_units w' = nw_units w ∧ ∀ i, i ∈ keep → is_Some (smap_get i (nw_keys w)) → is_Some (smap_get i (nw_keys w')).
Proof.
  cbn. revert removed w. induction stored as [|iface stored IH]; intros removed w; cbn [drop_keys]; [done|]. case_bool_decide as E; [apply IH|].
  assert (H : ∀ w1, w1 = net_asked (RemoveKey iface) w ∨ w1 = set_keys (smap_remove iface (nw_keys w)) (net_asked (RemoveKey iface) w) →
    nw_units w1 = nw_units w ∧ ∀ i, i ∈ keep → is_Some (smap_get i (nw_keys w)) → is_Some (smap_get i (nw_keys w1))).
  { intros w1 H. destruct H; subst w1; [done|]. split; [done|]. intros i Hi Hs. cbn. rewrite smap_get_remove, bool_decide_eq_false_2; [done|]. by intros ->. }
  unfold bind, act. destruct (ns_fails _ _) as [e|]; [destruct (ns_took _); cbn [snd]; [apply (H _ (or_intror eq_refl))|apply (H _ (or_introl eq_refl))]|].
  match goal with |- context [drop_keys stored keep ?r ?w1] => destruct (IH r w1) as [I1 I2]; destruct (H w1) as [H1 H2]; [by right|] end.
  split; [by rewrite I1|]. intros i Hi Hs. by apply I2, H2.
Qed.
Lemma retain_keys_spec keep w : let w' := (retain_keys keep w).2 in
  nw_units w' = nw_units w ∧ ∀ i, i ∈ keep → is_Some (smap_get i (nw_keys w)) → is_Some (smap_get i (nw_keys w')).
Proof.
  cbn. unfold retain_keys, bind, gets. destruct (net_call_cases ReadKeys w) as [[m ->]| ->]; [split; [reflexivity|intros i _ Hi; exact Hi]|]. apply (drop_keys_spec _ keep [] (net_asked ReadKeys w)).
Qed.
Lemma retain_fails keep : plain (retain_keys keep).
Proof.
  assert (H : ∀ stored removed, plain (drop_keys stored keep removed)).
  { intros stored. induction stored as [|iface stored IH]; intros removed; cbn [drop_keys]; [apply plain_ret|].
    case_bool_decide; [apply IH|]. apply plain_bind; [apply plain_act|by intros _]. }
  apply plain_bind; [apply plain_call|]. intros _. apply plain_bind; [by intros w e w'|]. intros stored. apply H.
Qed.
Lemma retain_calls keep w : nw_calls w `prefix_of` nw_calls (retain_keys keep w).2.
Proof. apply (after_retain (nw_calls w) keep w). by unfold after_calls. Qed.

(** ** Sorted units *)

Definition units_sorted (w : NetWorld) : Prop := keys_sorted (nw_units w).
Lemma units_grow w w' : kept w w' → units_sorted w → units_sorted w'.
Proof. intros [E _ _ _]. unfold units_sorted. by rewrite E. Qed.
Hint Resolve units_grow : holds.
Lemma sorted_act c f : (∀ w, units_sorted w → units_sorted (f w)) → holds units_sorted (act c f).
Proof. intros H w Hw. unfold act. destruct (ns_fails _ _); [destruct (ns_took _)|]; cbn; try apply H; done. Qed.
Lemma sorted_write name text : holds units_sorted (act (WriteUnit name) (λ w, set_units (smap_insert name text (nw_units w)) w)).
Proof. apply sorted_act. intros w. apply insert_sorted. Qed.
Lemma sorted_remove name : holds units_sorted (act (RemoveUnit name) (λ w, set_units (smap_remove name (nw_units w)) w)).
Proof. apply sorted_act. intros w. apply remove_sorted. Qed.
Lemma sorted_applied : holds units_sorted (modify (E := NetError) set_applied).
Proof. by intros w Hw. Qed.
Hint Resolve sorted_write sorted_remove sorted_applied : holds.
Lemma sorted_replace files current : holds units_sorted (replace_files files current).
Proof.
  unfold replace_files. apply holds_bind; [|intros _].
  - induction files as [|[name text] l IH]; cbn [write_units]; holds.
  - generalize (map fst current) as names. induction names as [|name l IH]; cbn [remove_units]; holds.
Qed.
Hint Resolve sorted_replace : holds.
Lemma sorted_drop_keys stored keep removed : holds units_sorted (drop_keys stored keep removed).
Proof.
  intros w Hw. unfold units_sorted. by rewrite (proj1 (drop_keys_spec stored keep removed w)).
Qed.
Hint Resolve sorted_drop_keys : holds.
Lemma sorted_apply network : holds units_sorted (apply_network network).
Proof. unfold apply_network, write_and_settle, switch_units, settle_or_back, wait_for, retain_keys, net_history. holds. Qed.
(** A map the rules refuse. *)
Lemma apply_refused network w : validate_network network ≠ Ok tt → apply_network network w = (inl (NetFailed (match validate_network network with Err (Msg m) => m | _ => "" end)), w).
Proof. intros H. unfold apply_network, write_and_settle, bind. destruct (validate_network network) as [[]|[]]; [done|done..]. Qed.
End main.

(** * A device over time *)

(** Every tunnel's device file has its private key in the store. *)
Definition tunnel_unit `{NetSystem} (iface text : string) : Prop := ∃ cfg, is_tunnel cfg = true ∧ render_netdev iface cfg ns_keys = Some text.
Definition tunnels_keyed `{NetSystem} (w : NetWorld) : Prop :=
  ∀ iface text, smap_get (netdev_name iface) (nw_units w) = Some text → tunnel_unit iface text → is_Some (smap_get iface (nw_keys w)).
(** What happens to a device: a map applied, a key drawn anew, micad started. *)
Inductive NetStep := Apply (network : network_map) | Rotate (iface : string) | Start.
Definition started (w : NetWorld) : NetWorld :=
  {| nw_units := nw_units w; nw_keys := nw_keys w; nw_psk_dir := nw_psk_dir w; nw_psks := nw_psks w; nw_applied := false; nw_calls := nw_calls w |}.
Definition net_step `{NetSystem} `{Base64} (w : NetWorld) (s : NetStep) : NetWorld :=
  match s with Apply network => (apply_network network w).2 | Rotate iface => (rotate_key iface w).2 | Start => started w end.

(** A tunnel's file is only ever a tunnel's. *)
Lemma netdev_kind iface cfg text keys : render_netdev iface cfg keys = Some text → ∃ rest,
  text = line "[NetDev]" +:+ line ("Name=" +:+ iface) +:+ "Kind=" +:+ rest ∧ match rest with String c _ => c = (if is_tunnel cfg then "w"%char else if bool_decide (if_kind cfg = Vlan) then "v"%char else "b"%char) | EmptyString => False end.
Proof.
  assert (H : ∀ kind more, netdev_head iface kind +:+ more = line "[NetDev]" +:+ line ("Name=" +:+ iface) +:+ "Kind=" +:+ (kind +:+ NL +:+ more)).
  { intros kind more. unfold netdev_head, line. by rewrite !append_assoc. }
  assert (H0 : ∀ kind, netdev_head iface kind = line "[NetDev]" +:+ line ("Name=" +:+ iface) +:+ "Kind=" +:+ (kind +:+ NL)).
  { intros kind. unfold netdev_head, line. by rewrite !append_assoc. }
  unfold render_netdev, is_tunnel. destruct (if_kind cfg), (if_vlan cfg), (if_wireguard cfg); try done; intros [= <-]; rewrite ?H, ?H0; eexists; (split; [reflexivity|by cbn]).
Qed.
Lemma tunnel_of_text `{NetSystem} iface cfg text : tunnel_unit iface text → render_netdev iface cfg ns_keys = Some text → is_tunnel cfg = true.
Proof.
  intros (cfg' & Ht & H1) H2. apply netdev_kind in H1 as (r1 & -> & H1), H2 as (r2 & E & H2). apply append_cut, append_cut, append_cut in E as <-.
  rewrite Ht in H1. destruct r1 as [|c r1]; [done|]. subst c. destruct (is_tunnel cfg); [done|]. by destruct (bool_decide _).
Qed.

Section keyed.
Context `{NS : NetSystem} `{B64 : Base64}.
Lemma kept_keyed w w' : kept w w' → tunnels_keyed w → tunnels_keyed w'.
Proof. intros [Hu Hk _ _] H iface text Ht Hi. rewrite Hu in Ht. by eapply Hk, H. Qed.
(** A rendered tunnel's file is of a tunnel of the map. *)
Lemma rendered_tunnel network ports iface text : smap_get (netdev_name iface) (rendered network ports) = Some text → tunnel_unit iface text →
  ∃ cfg, (iface, cfg) ∈ network ∧ is_tunnel cfg = true.
Proof. intros (cfg & Hin & Hr)%rendered_netdev Hi. exists cfg. split; [done|]. by eapply tunnel_of_text. Qed.
Lemma switched_keyed network ports w w1 devices sw w' : kept w w1 → switched network w1 (rendered network ports) devices sw w' → nw_keys w' = nw_keys w1 →
  (∀ iface cfg, (iface, cfg) ∈ network → is_tunnel cfg = true → is_Some (smap_get iface (nw_keys w1))) → tunnels_keyed w → tunnels_keyed w'.
Proof.
  intros Hk [Hm _] Ek Hnet H iface text Ht Hi. rewrite Ek. destruct (Hm (netdev_name iface)) as [E|[_ E]]; rewrite E in Ht.
  - by apply (kept_keyed w w1 Hk H iface text).
  - destruct (rendered_tunnel _ _ _ _ Ht Hi) as (cfg & Hin & Hc). by eapply Hnet.
Qed.
Lemma tunnels_kept network iface cfg : (iface, cfg) ∈ network → is_tunnel cfg = true → iface ∈ map fst (List.filter (λ e : string * IfaceSettings, is_tunnel e.2) network).
Proof. intros Hin Hc. apply list_elem_of_fmap. exists (iface, cfg). split; [done|]. by apply list_elem_of_In, filter_In; split; [apply list_elem_of_In|]. Qed.
Lemma apply_keyed network w : keys_sorted (nw_units w) → tunnels_keyed w → tunnels_keyed (apply_network network w).2.
Proof.
  intros Hs H. pose proof (write_and_settle_spec network w Hs) as Hw. unfold apply_network, bind. destruct (write_and_settle network w) as [r w1].
  destruct Hw as [[[m ->] Hk]|(h & w0 & devices & sw & Hk & _ & _ & Hsw & Ek & Hr & Hnet & _)]; [by eapply kept_keyed|].
  pose proof (switched_keyed _ _ _ _ _ _ _ Hk Hsw Ek Hnet H) as H1. destruct r as [e|state]; [done|]. destruct sw as [e|[]]; [done|]. destruct Hsw as (_ & _ & He & _).
  set (keep := map fst _). pose proof (retain_keys_spec keep w1) as [Ru Rk].
  enough (tunnels_keyed (retain_keys keep w1).2) by by destruct (retain_keys keep w1) as [[?|?] ?].
  intros iface text Ht Hi. rewrite Ru in Ht. apply Rk; [|by eapply H1]. rewrite (He (netdev_name iface)), managed_netdev in Ht.
  destruct (rendered_tunnel _ _ _ _ Ht Hi) as (cfg & Hin & Hc). by eapply tunnels_kept.
Qed.
Lemma rotate_kept iface w : kept w (rotate_key iface w).2.
Proof. apply (grow_rotate_key (kept w) (kept_grows w)), kept_refl. Qed.
Lemma step_keyed w s : keys_sorted (nw_units w) ∧ tunnels_keyed w → keys_sorted (nw_units (net_step w s)) ∧ tunnels_keyed (net_step w s).
Proof.
  intros [Hs H]. destruct s as [network|iface|]; cbn [net_step]; [|  |done].
  - split; [by apply sorted_apply|by apply apply_keyed].
  - pose proof (rotate_kept iface w) as Hk. split; [by rewrite (kp_units _ _ Hk)|by eapply kept_keyed].
Qed.
End keyed.

(** * A device *)

(** A device with the two ports [eth0] and [eth1] on which no call fails, its
    wait for links ending in [outcome]. *)
Definition two_ports (outcome : option string) : NetSystem := {|
  ns_fails := λ _ _, None; ns_took := λ _, false; ns_features := λ _, Some ["netdev"; "wireguard"]; ns_links := λ _, ["lo"; "eth1"; "eth0"; "eth0.7"; "wg0"];
  ns_settle := λ _, outcome; ns_drawn := λ _, "drawn"; ns_public := λ secret, Some ("public of " +:+ secret); ns_keys := mica_keys; ns_board := Discover;
|}.
Definition psk_tunnel (psk : string) : IfaceSettings :=
  {| if_kind := Wireguard; if_dhcp := false; if_static := None; if_dns := []; if_vlan := None; if_bridge := None;
     if_wireguard := Some {| wg_listen_port := None; wg_peers := [{| wp_public_key := "0123456789abcdef0123456789abcdef"; wp_allowed_ips := ["10.9.0.0/24"];
       wp_endpoint := None; wp_persistent_keepalive := None; wp_name := None; wp_preshared_key := Some psk |}] |};
     if_can := None; if_routes := []; if_internet := None |}.
Definition old_psk : string := "fedcba9876543210fedcba9876543210".
Definition new_psk : string := "0123012301230123fedcba9876543210".
Definition tunnel_map (psk : string) (dhcp : list RouteConfig) : network_map := [("eth0", static_entry dhcp None); ("wg0", psk_tunnel psk)].
Definition bare : NetWorld := {| nw_units := [("10-vendor.network", "theirs")]; nw_keys := []; nw_psk_dir := false; nw_psks := ∅; nw_applied := false; nw_calls := [] |}.
(** The device after its first apply. *)
Definition applied_once : NetWorld := (apply_network (NS := two_ports None) (B64 := hex_key) (tunnel_map old_psk []) bare).2.
Definition succeeds {A} (r : NetError + A) : bool := match r with inr _ => true | _ => false end.
Example first_apply :
  succeeds (apply_network (NS := two_ports None) (B64 := hex_key) (tunnel_map old_psk []) bare).1 = true
  ∧ map fst (nw_units applied_once) = ["10-vendor.network"; "50-mica-eth0.network"; "50-mica-wg0.netdev"; "50-mica-wg0.network"; "60-mica-auto-eth1.network"]
  ∧ nw_keys applied_once = [("wg0", "drawn")] ∧ nw_psks applied_once !! ("wg0", 0) = Some old_psk.
Proof. by vm_compute. Qed.

(** A rolled back apply puts the units back and leaves the pre-shared key of the
    map it could not bring up, on a tunnel deleted to take it and not built again
    on the old one. *)
Example rollback_keeps_new_psk :
  let '(r, w) := apply_network (NS := two_ports (Some "eth0: it is off")) (B64 := hex_key) (tunnel_map new_psk [route_to "10.0.0.0/8"]) applied_once in
  r = inl (RolledBack "eth0: it is off") ∧ nw_units w = nw_units applied_once ∧ nw_psks w !! ("wg0", 0) = Some new_psk
  ∧ List.filter (λ c, match c with DeleteLink _ | Reload | Settle _ => true | _ => false end) (drop (length (nw_calls applied_once)) (nw_calls w))
    = [DeleteLink "wg0"; Reload; Settle [("eth0", false)]; Reload].
Proof. by vm_compute. Qed.

(** * The properties *)



(** Whatever maps a device applies, whatever fails and is rolled back, and
    whenever keys are drawn anew or micad starts again, a tunnel whose device file
    is there has its private key in the store. *)
Theorem tunnel_keys_kept `{NetSystem} `{Base64} steps w : keys_sorted (nw_units w) → tunnels_keyed w →
  keys_sorted (nw_units (foldl net_step w steps)) ∧ tunnels_keyed (foldl net_step w steps).
Proof.
  intros Hs Ht. assert (Hw : keys_sorted (nw_units w) ∧ tunnels_keyed w) by done. clear Hs Ht. revert w Hw.
  induction steps as [|s steps IH]; intros w Hw; [done|]. by apply IH, step_keyed.
Qed.
Lemma tunnel_keys_kept_witness :
  let w := foldl (net_step (H := two_ports (Some "eth0: it is off")) (H0 := hex_key)) bare
             [Apply (tunnel_map old_psk []); Rotate "wg0"; Apply (tunnel_map new_psk [route_to "10.0.0.0/8"]); Apply [("eth0", static_entry [route_to "10.0.0.0/8"] None)]; Start] in
  keys_sorted (nw_units w) ∧ is_Some (smap_get "wg0" (nw_keys w)).
Proof.
  assert (Ht : tunnels_keyed (H := two_ports (Some "eth0: it is off")) bare).
  { intros iface text Hn _. cbn [nw_units bare smap_get] in Hn. by case_bool_decide. }
  assert (Hs : keys_sorted (nw_units bare)) by (cbn; repeat constructor).
  pose proof (tunnel_keys_kept (H := two_ports (Some "eth0: it is off")) (H0 := hex_key)
    [Apply (tunnel_map old_psk []); Rotate "wg0"; Apply (tunnel_map new_psk [route_to "10.0.0.0/8"]); Apply [("eth0", static_entry [route_to "10.0.0.0/8"] None)]; Start] bare Hs Ht) as [H1 H2].
  split; [exact H1|]. apply (H2 "wg0" (default "" (render_netdev "wg0" (psk_tunnel old_psk) mica_keys))); [by vm_compute|].
  exists (psk_tunnel old_psk). by split; vm_compute.
Defined.
End NetworkApply.
